(* ===== verification/_CoqProject ===== *)
-Q . S2P
Prelude.v
Bytes.v
Rmap.v
Bitmap.v
Streams.v
StreamsOps.v
StreamsFlow.v
Share.v
Callout.v
Mblk.v
MblkOps.v
MblkMsg.v
Disksort.v
Xdr.v
XdrCodec.v
XdrMem.v
XdrTypes.v
XdrMblk.v
XdrMblkOps.v
XdrMblkProps.v
XdrInline.v
Rpc.v
RpcOps.v
RpcCall.v
RpcReply.v
Dispq.v
DispqOps.v
Disp.v
DispInv.v
DispSteps.v
DispSched.v
DispSafe.v
DispChoose.v
DispRefine.v
DispBind.v
Ts.v
TsSched.v
TsMachine.v
TsProps.v
Sem.v
SemOps.v
SemMachine.v
Msg.v
MsgInv.v
MsgOps.v
MsgCalls.v
MsgMachine.v
MsgSafe.v
MsgRun.v
MsgProps.v
Sleepq.v
SleepqOps.v
Condvar.v
Ksema.v
Sysclass.v
Flock.v
FlockReq.v
FlockProc.v
FlockWait.v
FlockDeadlock.v
FlockRange.v
FlockLists.v
FlockGraph.v
FlockWake.v
FlockSwap.v
FlockRelation.v
FlockExec.v
FlockLoop.v
FlockCheck.v
