(* ===== verification/Prelude.v ===== *)
(** * Kernel services of SunOS 5.6: a verification library

    The repository is the source of Solaris 2.6.  This library models services of its
    kernel, below [src/os_net/src_ws/usr/src/uts/common] (all file names here are relative
    to that directory), and proves what makes them correct.  A definition has the name of the C function that
    it translates, and the helpers cut out of one function are named after what they do.

    ** How C is modelled

    The kernel is ILP32; integers are [Z] and an operation that can leave its type is
    followed by [w32], [s32], [s16] or [w16].  A routine that can go wrong is in the monad
    [run] of [Prelude]: [Ret], [Fault] (an access through a wild or null pointer or outside an
    object) and [Panic] (the kernel's own panic); so "the result is [Ret]" says that neither happens.
    A loop with fuel gives [None] or [Fault] when it runs out.  State is
    passed explicitly.  Linked lists that several places point into are kept as links
    (dispatch and sleep queues, bands of STREAMS queues); where the code only walks a
    list, it is a Rocq list in the order of the links.  A routine is one step from taking
    its locks to dropping them; what other processors do in between is a step relation
    ([Rmap], [StreamsFlow], [DispSched], [TsMachine], [SemMachine], [MsgMachine]).

    ** Parts, files and theorems

    - Resource maps, [os/rmap.c]: [Rmap].  [rmalloc] is first fit, [rmget] and [rmfree] take and give exactly
      the range asked for, [rmfree] keeps segments sorted and coalesced; a free wakes all sleepers.
    - Bitmaps, [os/bitmap.c]: [Bitmap].  [bt_availbit] finds the least clear bit.
    - STREAMS queues, [io/stream.c], [os/strsubr.c]: [Streams] has the code, [StreamsOps] what [putq],
      [getq], [putbq], [insq], [rmvq], [flushq], [flushband] do to the messages, bands and counts,
      [StreamsFlow] the protocol of flow control in every reachable state.
    - STREAMS message blocks, [io/stream.c]: [Mblk] has the code on a store of shared, counted data
      blocks, [MblkOps] the invariant [store_ok], [MblkMsg] the content of messages.
    - Share reservations, [os/share.c]: [Share].
    - Callout tables, [os/callout.c]: [Callout].  [untimeout] cancels what [timeout] set; [callout_schedule] and
      [callout_execute] find and run what is due, whatever timeouts are set meanwhile ([sets] is a call of [callout_insert]).
    - Disk queue sorting, [os/bdev_dsort.c]: [Disksort], a refinement of the elevator.
    - External data representation, [rpc/xdr.c], [xdr_array.c], [xdr_refer.c], [xdr_mem.c]: [Bytes], [Xdr]
      (filters over any stream: the class [XdrStream] is the vector [x_ops]), [XdrCodec] (filters against
      the interfaces [XdrEncoder] and [XdrDecoder]), [XdrMem] (the memory stream satisfies them), [XdrTypes]
      (round trip and typing for every type the filters can describe).
    - XDR over message blocks, [rpc/xdr_mblk.c]: [XdrMblk] has the code on the store of [Mblk], [XdrMblkOps] that the
      stream satisfies the same two interfaces, [XdrMblkProps] the round trip and the calls that pass whole blocks.
    - RPC messages, [rpc/rpc_prot.c], [rpc/rpc_calmsg.c]: [XdrInline] is the interface to the buffer of a stream
      ([XDR_INLINE]) with both streams as instances, [Rpc] has the code, [RpcOps] authenticators, [RpcCall] and [RpcReply]
      round trips over any two streams, safety on any input, and what becomes of a reply.
    - The dispatcher, [disp/disp.c], [os/cpu.c]: [Dispq] and [DispqOps] (one queue and its lists), [Disp]
      (processors), [DispInv] (invariant), [DispSteps] and [DispSched] (processors that act at the same
      time), [DispSafe] (no processor goes on with a thread while a better one waits without being asked to give up),
      [DispChoose] (what [disp] picks), [DispRefine] ([disp] is a sequence of events of the machine that ends with that pick),
      [DispBind].
    - The time-sharing class, [disp/ts.c], [disp/ts_dptbl.c]: [Ts], [TsSched] (its operations are events of the
      dispatcher's machine), [TsMachine], [TsProps] (levels in range, no starvation, quanta, parameters, table).
    - System V semaphores, [syscall/sem.c], [os/ipc.c]: [Sem] has the system calls, on the resource map of
      [Rmap]; [SemOps] that [semop] does all its operations or none; [SemMachine] processes that sleep in it, are woken
      and interrupted: on which sets none sleeps that could go on, and three schedules where one does.
    - System V message queues, [os/msg.c]: [Msg] has the system calls, cut where they drop a lock or wait, [MsgInv] the
      invariant of headers, text and queues, [MsgOps] and [MsgCalls] the pieces, [MsgMachine] threads in the middle of calls, [MsgSafe] and
      [MsgRun] what each step does and leaves alone, [MsgProps] that from the start the calls do to lists of messages what they
      promise, that none sleeps that could go on, and two ways in which messages or the kernel are lost.
    - Sleep queues, channels and condition variables, [os/sleepq.c], [os/tblock_chan.c], [os/condvar.c]: [Sleepq] has the code
      against the interface [SchedClass] of a scheduling class, [SleepqOps] the invariant of the queues, [Condvar]
      that every operation does to the waiters of an address what one sorted queue per address prescribes;
      [Sysclass], [disp/sysclass.c], discharges the interface with the dispatcher.
    - Kernel semaphores, [os/semaphore.c], and [setrun], [os/slp.c]: [Ksema], a refinement of permits and a sorted queue
      for waits that are not interrupted; [Sysclass] has the two schedules in which interruptible waits break it.
    - Record locks, [os/flock.c], [fs/fs_subr.c]: [Flock] has the lists of locks and the graphs of locks and of processes,
      [FlockReq] the requests.  [FlockProc] is the depth-first search of [flk_check_deadlock] on any graph, [FlockWait] the
      process graph as counts of who waits for whom, [FlockDeadlock] that a request is refused exactly when it would
      close a circle, [FlockRange] ranges as they are reported and asked for.  [FlockLists] is about the list of active
      locks, [FlockGraph] has the invariant of the graph of locks and that the recomputation of edges ends and changes
      nothing else, [FlockWake] edges that are taken away, [FlockSwap] and [FlockRelation] a lock that gives way to its
      parts, [FlockExec] and [FlockLoop] what [flk_execute_request] does, byte by byte, to what owners hold,
      [FlockCheck] that locks exclude each other and what a request that does not wait is answered.

    ** Bounds and fuel

    Loops that the code ends by data have fuel that is shown to be enough: the length of the slot array
    ([Rmap]), the words of a map ([Bitmap]), the bytes of a message ([MblkMsg]), the ticks to the next work or to the clock
    ([Callout]), the processors of a partition ([DispChoose]: at any fuel no loop turns twice); the walk over the graph of locks
    ends because it has no cycle, so that there is a fuel from which on the result is the same ([FlockGraph], [FlockLoop]).  Hypotheses
    on parameters are those of the tunables: a table of at most 2^15 bits, adjustments on exit of at most 2^14,
    values of semaphores of 16 bits, and the like; each is next to its theorem, with a concrete system as witness.

    ** Not modelled

    Copying between user and kernel space but for its failure, memory allocation but for its outcome (a list of outcomes,
    or a limit), locks (taken and dropped with the step), microstate accounting, auditing and tracing, the loading
    of modules, the transports of RPC.  Whole parts that are not reached: the stream head and perimeters, the protocols over STREAMS (TCP, IP, UDP), file
    systems, virtual memory and the slab allocator, signals, drivers, machine-dependent code, libraries and
    commands.

    ** Plan

    Next: System V shared memory over the same permissions, the block and fragment maps of UFS, the real-time class on the machine of the dispatcher, header compression and checksums. *)

From stdpp Require Export prelude list gmap sorting.
From Stdlib Require Export ZArith Lia.

#[global] Open Scope Z_scope.
#[global] Set Default Goal Selector "!".

(** ** Machine integers *)

(** The kernel is ILP32: [int], [long], [size_t], [ulong_t] and pointers have
    32 bits.  An unsigned quantity is a [Z] in [0, 2^32); a C operation that can
    leave that range is followed by [w32].  A signed quantity is a [Z] in
    [-2^31, 2^31); [s32] wraps to it (two's complement). *)
Definition w32 (z : Z) : Z := z `mod` 2 ^ 32.
Definition s32 (z : Z) : Z := (z + 2 ^ 31) `mod` 2 ^ 32 - 2 ^ 31.

Definition in_u32 (z : Z) : Prop := 0 ≤ z < 2 ^ 32.
Definition in_s32 (z : Z) : Prop := - 2 ^ 31 ≤ z < 2 ^ 31.

(** Length as a [Z]. *)
Abbreviation zlen l := (Z.of_nat (length l)).

(** Truth value of a C expression used as a condition. *)
Definition truthy (z : Z) : bool := negb (z =? 0).

(** [short]. *)
Definition s16 (z : Z) : Z := (z + 2 ^ 15) `mod` 2 ^ 16 - 2 ^ 15.

(** [ushort_t]. *)
Definition w16 (z : Z) : Z := z `mod` 2 ^ 16.

Lemma w16_id z : 0 ≤ z < 2 ^ 16 → w16 z = z.
Proof. apply Z.mod_small. Qed.

Lemma s16_id z : - 2 ^ 15 ≤ z < 2 ^ 15 → s16 z = z.
Proof. unfold s16. intros. rewrite Z.mod_small; lia. Qed.

Lemma w32_id z : in_u32 z → w32 z = z.
Proof. apply Z.mod_small. Qed.

Lemma w32_range z : in_u32 (w32 z).
Proof. unfold in_u32, w32. apply Z.mod_pos_bound. lia. Qed.

Lemma s32_id z : in_s32 z → s32 z = z.
Proof. unfold in_s32, s32. intros. rewrite Z.mod_small; lia. Qed.

Lemma s32_high z : 2 ^ 31 ≤ z < 2 ^ 32 → s32 z = z - 2 ^ 32.
Proof.
  intros. unfold s32. replace (z + 2 ^ 31) with (z - 2 ^ 31 + 1 * 2 ^ 32) by lia.
  rewrite Z_mod_plus_full, Z.mod_small; lia.
Qed.

Lemma s32_range z : in_s32 (s32 z).
Proof. unfold in_s32, s32. pose proof (Z.mod_pos_bound (z + 2 ^ 31) (2 ^ 32)). lia. Qed.

Lemma w32_w32 z : w32 (w32 z) = w32 z.
Proof. apply w32_id, w32_range. Qed.

(** Signed interpretation of an unsigned word and back. *)
Lemma w32_s32 z : w32 (s32 z) = w32 z.
Proof.
  unfold w32, s32. rewrite <-(Zminus_mod_idemp_l ((z + 2 ^ 31) `mod` 2 ^ 32)).
  rewrite Zmod_mod, Zminus_mod_idemp_l. f_equal. lia.
Qed.

Lemma s32_w32 z : s32 (w32 z) = s32 z.
Proof. unfold w32, s32. by rewrite Zplus_mod_idemp_l. Qed.

(** ** Bits *)

Lemma truthy_true z : truthy z = true ↔ z ≠ 0.
Proof. unfold truthy. rewrite negb_true_iff. apply Z.eqb_neq. Qed.

Lemma truthy_false z : truthy z = false ↔ z = 0.
Proof. unfold truthy. rewrite negb_false_iff. apply Z.eqb_eq. Qed.

(** [w & (1 << i)] *)
Lemma truthy_land_bit w i : 0 ≤ i → truthy (Z.land w (Z.shiftl 1 i)) = Z.testbit w i.
Proof.
  intros Hi. rewrite Z.shiftl_1_l.
  assert (Z.land w (2 ^ i) = if Z.testbit w i then 2 ^ i else 0) as ->.
  { apply Z.bits_inj'. intros n Hn. rewrite Z.land_spec, Z.pow2_bits_eqb by done.
    destruct (Z.eqb_spec i n) as [->|Hne].
    - rewrite andb_true_r. destruct (Z.testbit w n); [by rewrite Z.pow2_bits_true|by rewrite Z.bits_0].
    - rewrite andb_false_r. destruct (Z.testbit w i); [|by rewrite Z.bits_0].
      by rewrite Z.pow2_bits_false. }
  destruct (Z.testbit w i); [|done]. apply truthy_true. pose proof (Z.pow_pos_nonneg 2 i). lia.
Qed.

(** Concatenation of bit fields is a sum. *)
Lemma lor_shiftl_add a b n : 0 ≤ n → 0 ≤ b < 2 ^ n → Z.lor (Z.shiftl a n) b = a * 2 ^ n + b.
Proof.
  intros Hn Hb. rewrite <-Z.shiftl_mul_pow2 by done. symmetry.
  rewrite Z.add_nocarry_lxor; [apply Z.lxor_lor|]; apply Z.bits_inj'; intros m Hm;
    rewrite Z.land_spec, Z.bits_0; destruct (decide (m < n)).
  1, 3: by rewrite Z.shiftl_spec_low.
  all: rewrite <-(Z.mod_small b (2 ^ n)), Z.mod_pow2_bits_high by lia; apply andb_false_r.
Qed.

Lemma shiftr_div z n : 0 ≤ n → Z.shiftr z n = z `div` 2 ^ n.
Proof. apply Z.shiftr_div_pow2. Qed.

(** A word is all ones exactly when every bit is set. *)
Lemma all_ones_bits w n : 0 ≤ n → 0 ≤ w < 2 ^ n →
  w = Z.ones n ↔ ∀ i, 0 ≤ i < n → Z.testbit w i = true.
Proof.
  intros Hn Hw. split.
  - intros -> i Hi. by rewrite Z.ones_spec_low by lia.
  - intros H. apply Z.bits_inj'. intros i Hi. destruct (decide (i < n)).
    + by rewrite H, Z.ones_spec_low by lia.
    + by rewrite <-(Z.mod_small w (2 ^ n)), Z.mod_pow2_bits_high, Z.ones_spec_high by lia.
Qed.

(** ** Flag words *)

(** [f & b], [f |= b] and [f &= ~b]. *)
Definition has (f b : Z) : bool := truthy (Z.land f b).
Definition set_bits (b f : Z) : Z := Z.lor f b.
Definition clr_bits (b f : Z) : Z := Z.ldiff f b.

(** A flag: a constant with one bit set. *)
Class IsBit (b : Z) : Prop := is_bit : ∃ i, 0 ≤ i ∧ b = 2 ^ i.

Definition is_bit_pow (i : Z) (b : Z) (H : ((0 <=? i) && (b =? 2 ^ i))%bool = true) : IsBit b :=
  match andb_prop _ _ H with
  | conj H1 H2 => ex_intro _ i (conj (proj1 (Z.leb_le 0 i) H1) (proj1 (Z.eqb_eq b (2 ^ i)) H2))
  end.

Lemma has_testbit f i : 0 ≤ i → has f (2 ^ i) = Z.testbit f i.
Proof. intros. unfold has. rewrite <-Z.shiftl_1_l. by apply truthy_land_bit. Qed.

Lemma pow2_eqb i j : 0 ≤ i → 0 ≤ j → (2 ^ i =? 2 ^ j) = (i =? j).
Proof.
  intros. destruct (Z.eqb_spec i j) as [->|Hne]; [apply Z.eqb_refl|].
  apply Z.eqb_neq. intros Hij%Z.pow_inj_r; lia.
Qed.

Lemma has_set a b f `{!IsBit a, !IsBit b} : has (set_bits a f) b = (a =? b) || has f b.
Proof.
  destruct (is_bit (b := a)) as (i & Hi & ->), (is_bit (b := b)) as (j & Hj & ->).
  rewrite !has_testbit, pow2_eqb by done. unfold set_bits.
  rewrite Z.lor_spec, Z.pow2_bits_eqb by done. apply orb_comm.
Qed.

Lemma has_clr a b f `{!IsBit a, !IsBit b} : has (clr_bits a f) b = negb (a =? b) && has f b.
Proof.
  destruct (is_bit (b := a)) as (i & Hi & ->), (is_bit (b := b)) as (j & Hj & ->).
  rewrite !has_testbit, pow2_eqb by done. unfold clr_bits.
  rewrite Z.ldiff_spec, Z.pow2_bits_eqb by done. apply andb_comm.
Qed.

(** A test against two flags at once. *)
Lemma has_lor f a b : has f (Z.lor a b) = has f a || has f b.
Proof.
  unfold has. rewrite Z.land_lor_distr_r. apply eq_true_iff_eq.
  rewrite orb_true_iff, !truthy_true, Z.lor_eq_0_iff. destruct (decide (Z.land f a = 0)); tauto.
Qed.

Lemma has_land f a b `{!IsBit b} : has (Z.land f a) b = has f b && has a b.
Proof.
  destruct (is_bit (b := b)) as (j & Hj & ->). rewrite !has_testbit by done. apply Z.land_spec.
Qed.

Create Rewrite HintDb flags.
#[export] Hint Rewrite has_lor : flags.
#[export] Hint Rewrite has_set using (apply _) : flags.
#[export] Hint Rewrite has_clr using (apply _) : flags.
#[export] Hint Rewrite has_land using (apply _) : flags.

(** Compute the comparisons of flag constants. *)
Ltac flag_consts :=
  repeat match goal with
  | |- context [?a =? ?b] =>
      is_const a; is_const b; let v := eval vm_compute in (a =? b) in change (a =? b) with v
  | |- context [has ?a ?b] =>
      is_const a; is_const b; let v := eval vm_compute in (has a b) in change (has a b) with v
  end.

Ltac flags := autorewrite with flags; flag_consts; cbn [orb andb negb].

(** ** Outcomes *)

(** What running kernel code can give: a value, a panic, or [Fault], an access
    outside the object the code works on.  Theorems about an operation show that
    it does not [Fault] where its caller keeps the protocol. *)
Inductive run (A : Type) : Type :=
| Ret (a : A)
| Panic
| Fault.
Arguments Ret {A} a.
Arguments Panic {A}.
Arguments Fault {A}.

Definition rbind {A B} (m : run A) (f : A → run B) : run B :=
  match m with Ret a => f a | Panic => Panic | Fault => Fault end.
Definition rmap_run {A B} (f : A → B) (m : run A) : run B := rbind m (λ a, Ret (f a)).

Declare Scope kernel_scope.
Delimit Scope kernel_scope with kernel.
Notation "'let*' x ':=' m 'in' k" := (rbind m (λ x, k))
  (at level 10, x pattern, m at level 100, k at level 200)
  : kernel_scope.
#[global] Open Scope kernel_scope.

Lemma rbind_Ret_inv {A B} (m : run A) (f : A → run B) b :
  rbind m f = Ret b → ∃ a, m = Ret a ∧ f a = Ret b.
Proof. destruct m as [a| |]; simpl; intros H; [eauto|done..]. Qed.

(** An array access: [Fault] outside the array. *)
Definition zget {A} (l : list A) (i : Z) : run A :=
  if i <? 0 then Fault
  else match l !! Z.to_nat i with Some a => Ret a | None => Fault end.

Definition zset {A} (l : list A) (i : Z) (a : A) : run (list A) :=
  if (i <? 0) || (zlen l <=? i) then Fault else Ret (<[Z.to_nat i := a]> l).

Lemma zget_ok {A} (l : list A) i a : 0 ≤ i → l !! Z.to_nat i = Some a → zget l i = Ret a.
Proof. unfold zget. intros Hi ->. by rewrite (proj2 (Z.ltb_ge i 0)). Qed.

Lemma zget_in {A} (l : list A) i : 0 ≤ i < zlen l → ∃ a, l !! Z.to_nat i = Some a ∧ zget l i = Ret a.
Proof.
  intros Hi. destruct (lookup_lt_is_Some_2 l (Z.to_nat i)) as [a Ha]; [lia|].
  exists a. split; [done|]. apply zget_ok; [lia|done].
Qed.

Lemma zset_in {A} (l : list A) i a :
  0 ≤ i < zlen l → zset l i a = Ret (<[Z.to_nat i := a]> l).
Proof.
  intros Hi. unfold zset. by rewrite (proj2 (Z.ltb_ge i 0)), (proj2 (Z.leb_gt (zlen l) i)) by lia.
Qed.

(** ** Tactics *)

(** Turn the boolean tests of the code into propositions. *)
Ltac zb := repeat match goal with
  | H : (_ && _)%bool = true |- _ => apply andb_prop in H; destruct H
  | H : (_ && _)%bool = false |- _ => apply andb_false_iff in H
  | H : (_ || _)%bool = true |- _ => apply orb_true_iff in H
  | H : (_ || _)%bool = false |- _ => apply orb_false_iff in H; destruct H
  | H : negb _ = true |- _ => apply negb_true_iff in H
  | H : negb _ = false |- _ => apply negb_false_iff in H
  | H : (_ =? _) = true |- _ => apply Z.eqb_eq in H
  | H : (_ =? _) = false |- _ => apply Z.eqb_neq in H
  | H : (_ <=? _) = true |- _ => apply Z.leb_le in H
  | H : (_ <=? _) = false |- _ => apply Z.leb_gt in H
  | H : (_ <? _) = true |- _ => apply Z.ltb_lt in H
  | H : (_ <? _) = false |- _ => apply Z.ltb_ge in H
  | H : (_ >? _) = true |- _ => rewrite Z.gtb_ltb in H
  | H : (_ >? _) = false |- _ => rewrite Z.gtb_ltb in H
  | H : (_ >=? _) = true |- _ => rewrite Z.geb_leb in H
  | H : (_ >=? _) = false |- _ => rewrite Z.geb_leb in H
  end.

(** Split on the innermost test of the goal, recording it. *)
Ltac case_if :=
  match goal with
  | |- context [if ?b then _ else _] =>
      lazymatch b with
      | context [if _ then _ else _] => fail
      | _ => let E := fresh "E" in destruct b eqn:E
      end
  end; zb.
Ltac case_ifs := repeat case_if.
