(* ===== verification/Bytes.v ===== *)
(** * Byte buffers

    Buffers are lists of bytes.  An access outside one is a [Fault].  Words are
    kept in network order, as [htonl] and [ntohl] have them. *)

From S2P Require Import Prelude.

(** ** Access *)

(** Bytes written at an offset of a buffer. *)
Definition put_bytes (off : Z) (bs data : list Z) : run (list Z) :=
  if (0 <=? off) && (off + zlen bs <=? zlen data) then
    Ret (take (Z.to_nat off) data ++ bs ++ drop (Z.to_nat (off + zlen bs)) data)
  else Fault.

Definition get_bytes (off n : Z) (data : list Z) : run (list Z) :=
  if (0 <=? off) && (off + n <=? zlen data) then Ret (take (Z.to_nat n) (drop (Z.to_nat off) data))
  else Fault.

(** Slices of buffers. *)
Definition slice (off n : Z) (l : list Z) : list Z := take (Z.to_nat n) (drop (Z.to_nat off) l).

Lemma get_bytes_ok off n data : 0 ≤ off → off + n ≤ zlen data → get_bytes off n data = Ret (slice off n data).
Proof. intros H1 H2. unfold get_bytes. by rewrite (proj2 (Z.leb_le 0 off) H1), (proj2 (Z.leb_le _ _) H2). Qed.

Lemma get_bytes_out off n data : zlen data < off + n → get_bytes off n data = Fault.
Proof. intros H. unfold get_bytes. rewrite (proj2 (Z.leb_gt _ _) H). by destruct (0 <=? off). Qed.

Lemma put_bytes_out off bs data : zlen data < off + zlen bs → put_bytes off bs data = Fault.
Proof. intros H. unfold put_bytes. rewrite (proj2 (Z.leb_gt _ _) H). by destruct (0 <=? off). Qed.

Lemma slice_len off n l : 0 ≤ off → 0 ≤ n → off + n ≤ zlen l → zlen (slice off n l) = n.
Proof. intros. unfold slice. rewrite length_take, length_drop. lia. Qed.

Lemma slice_split o n k l : 0 ≤ n → 0 ≤ k → 0 ≤ o → slice o (n + k) l = slice o n l ++ slice (o + n) k l.
Proof.
  intros. unfold slice. rewrite !Z2Nat.inj_add, <-drop_drop by lia. by rewrite take_take_drop.
Qed.

Lemma put_bytes_ok off bs data : 0 ≤ off → off + zlen bs ≤ zlen data →
  ∃ data', put_bytes off bs data = Ret data' ∧ zlen data' = zlen data ∧
    (∀ o n, 0 ≤ o → 0 ≤ n → o + n ≤ off → slice o n data' = slice o n data) ∧
    ∀ k n, 0 ≤ k → 0 ≤ n → k + n ≤ zlen bs → slice (off + k) n data' = slice k n bs.
Proof.
  intros H1 H2. unfold put_bytes.
  rewrite (proj2 (Z.leb_le 0 off) H1), (proj2 (Z.leb_le _ _) H2). eexists. split; [reflexivity|]. split_and!.
  - rewrite !length_app, length_take, length_drop. lia.
  - intros o n Ho Hn Hle. unfold slice. rewrite drop_app_le by (rewrite length_take; lia).
    rewrite take_app_le by (rewrite length_drop, length_take; lia).
    rewrite !take_drop_commute, take_take. do 2 f_equal. lia.
  - intros k n Hk Hn Hkn. unfold slice.
    rewrite drop_app_ge by (rewrite length_take; lia). rewrite length_take, drop_app_le by lia.
    rewrite take_app_le by (rewrite length_drop; lia). do 2 f_equal. lia.
Qed.

Lemma put_bytes_after off bs data data' o n : put_bytes off bs data = Ret data' → 0 ≤ off → off + zlen bs ≤ o → slice o n data' = slice o n data.
Proof.
  unfold put_bytes. destruct (_ && _) eqn:E; [|done]. apply andb_prop in E as [_ E%Z.leb_le]. intros [= <-] Ho Hle. unfold slice. f_equal.
  rewrite app_assoc, drop_app_ge by (rewrite length_app, length_take; lia). rewrite drop_drop, length_app, length_take. f_equal. lia.
Qed.

(** ** Words in network order *)

Definition be32 (w : Z) : list Z :=
  [Z.shiftr (w32 w) 24; Z.land (Z.shiftr w 16) 0xff; Z.land (Z.shiftr w 8) 0xff; Z.land w 0xff].
Definition unbe32 (bs : list Z) : Z := foldl (λ acc b, acc * 256 + b) 0 bs.

Lemma be32_len w : zlen (be32 w) = 4.
Proof. done. Qed.

Lemma unbe32_be32 w : unbe32 (be32 w) = w32 w.
Proof.
  unfold unbe32, be32. simpl foldl. change 0xff with (Z.ones 8).
  rewrite !Z.land_ones, !shiftr_div by lia. unfold w32.
  change (2 ^ 24) with 16777216. change (2 ^ 16) with 65536. change (2 ^ 8) with 256.
  change (2 ^ 32) with 4294967296. Z.to_euclidean_division_equations. lia.
Qed.
