(* ===== verification/Rmap.v ===== *)
(** * Resource maps ([uts/common/os/rmap.c], [sys/map.h])

    A resource map is an array of segment descriptors behind a header.  The
    model keeps the array as it is in memory, free slots included, so that the
    slot arithmetic of [rmfree] and [rmget] and the loops that stop at the
    zero-size delimiter are those of the code; a pointer into the array is the
    suffix it points at (with the slots before it, last one first, where the code
    uses [bp - 1]).  Reading or writing past either end is [Fault].

    [map_rep mp segs] is the representation invariant; the theorems state the
    operations on the set of free addresses [covers segs]. *)

From S2P Require Import Prelude.

(** ** Data *)

Record mapent := Mapent { m_size : Z; m_addr : Z }.

(** [struct map_head], less the name, the lock and the condition variable. *)
Record rmap := Rmap {
  m_free : Z;           (* free slots *)
  m_want : Z;           (* set by a thread that sleeps on the map *)
  h_size : Z;           (* usable slots ([m_size] of the header) *)
  m_map : list mapent   (* the slots, one more than [h_size] *)
}.

Definition set_m_free (f : Z) (mp : rmap) : rmap :=
  Rmap f (m_want mp) (h_size mp) (m_map mp).
Definition set_m_want (w : Z) (mp : rmap) : rmap :=
  Rmap (m_free mp) w (h_size mp) (m_map mp).
Definition set_m_map (l : list mapent) (mp : rmap) : rmap :=
  Rmap (m_free mp) (m_want mp) (h_size mp) l.

(** [sizeof (struct map_head)] and [sizeof (struct map)] of the 32-bit kernel. *)
Definition sizeof_map : Z := 8.

Section Overhead.
(** The size of the header depends on the lock types of the machine. *)
Context (sizeof_map_head : Z).

Definition MAP_OVERHEAD : Z := (sizeof_map_head + 2 * sizeof_map - 1) / sizeof_map.

(** [mapinit]: the slots were zeroed by the caller ([kmem_zalloc]). *)
Definition mapinit (slots : list mapent) (size addr mapsize : Z) : run rmap :=
  if mapsize <? MAP_OVERHEAD + 1 then Panic
  else
    match slots with
    | [] => Fault
    | _ :: tl =>
        let n := w32 (mapsize - MAP_OVERHEAD) in
        Ret (Rmap (if truthy size then w32 (n - 1) else n) 0 n (Mapent size addr :: tl))
    end.

(** [rmallocmap]: the array that [kmem_zalloc] returns, or [NULL]. *)
Definition rmallocmap (mapsize : Z) (zalloc : option (list mapent)) : run (option rmap) :=
  let mapsize := w32 (mapsize + MAP_OVERHEAD) in
  match zalloc with
  | None => Ret None
  | Some slots => rmap_run Some (mapinit slots 0 0 mapsize)
  end.
End Overhead.

(** ** Loops over the slots *)

(** The compaction loops: slot by slot the next entry is copied down, up to
    and including the delimiter. *)
Fixpoint rm_slide (bp : list mapent) : run (list mapent) :=
  match bp with
  | _ :: ((e1 :: _) as tl) =>
      if m_size e1 =? 0 then Ret (e1 :: tl)
      else let* tl' := rm_slide tl in Ret (e1 :: tl')
  | _ => Fault
  end.

(** The insertion loop of [rmfree]: push the entries up by one. *)
Fixpoint rm_push (size addr : Z) (bp : list mapent) : run (list mapent) :=
  match bp with
  | [] => Fault
  | e :: tl =>
      if m_size e =? 0 then Ret (Mapent size addr :: tl)
      else let* tl' := rm_push (m_size e) (m_addr e) tl in Ret (Mapent size addr :: tl')
  end.

(** The search of [rmfree]: the first slot past [addr], or the delimiter. *)
Fixpoint rm_locate (addr : Z) (rpre bp : list mapent) : run (list mapent * list mapent) :=
  match bp with
  | [] => Fault
  | e :: tl =>
      if (m_addr e <=? addr) && negb (m_size e =? 0) then rm_locate addr (e :: rpre) tl
      else Ret (rpre, bp)
  end.

(** The loops that run to the delimiter. *)
Fixpoint rm_end (rpre bp : list mapent) : run (list mapent * list mapent) :=
  match bp with
  | [] => Fault
  | e :: tl => if m_size e =? 0 then Ret (rpre, bp) else rm_end (e :: rpre) tl
  end.

(** ** Operations *)

(** The scan of [rmalloc_locked]: the address found, whether a slot was freed,
    and the slots from [bp] on as it leaves them. *)
Fixpoint rmalloc_scan (size : Z) (bp : list mapent)
    : run (option (Z * bool * list mapent)) :=
  match bp with
  | [] => Fault
  | e :: tl =>
      if m_size e =? 0 then Ret None
      else if size <=? m_size e then
        let addr := m_addr e in
        let e' := Mapent (w32 (m_size e - size)) (w32 (m_addr e + size)) in
        if m_size e' =? 0 then
          let* tl' := rm_slide (e' :: tl) in Ret (Some (addr, true, tl'))
        else Ret (Some (addr, false, e' :: tl))
      else
        let* r := rmalloc_scan size tl in
        Ret (match r with
             | Some (addr, freed, tl') => Some (addr, freed, e :: tl')
             | None => None
             end)
  end.

Definition rmalloc_locked (mp : rmap) (size : Z) : run (rmap * Z) :=
  let* r := rmalloc_scan size (m_map mp) in
  match r with
  | Some (addr, freed, l) =>
      let mp' := set_m_map l mp in
      Ret (if freed then set_m_free (w32 (m_free mp' + 1)) mp' else mp', addr)
  | None => Ret (mp, 0)
  end.

(** [rmalloc] is [rmalloc_locked] under the lock of the map. *)
Definition rmalloc (mp : rmap) (size : Z) : run (rmap * Z) := rmalloc_locked mp size.

(** One turn of the loop of [rmalloc_wait]: an address, or [None] when the
    thread marks the map and sleeps. *)
Definition rmalloc_wait_turn (mp : rmap) (size : Z) : run (rmap * option Z) :=
  let* (mp', addr) := rmalloc_locked mp size in
  Ret (if addr =? 0 then (set_m_want 1 mp', None) else (mp', Some addr)).

(** Discarding the smaller of the last two segments when no slot is free.  With
    a single segment [bp - 1] lies before the array. *)
Definition rm_discard (rpre bp : list mapent) : run (list mapent * (Z * Z)) :=
  let* (rl, tl) := rm_end rpre bp in
  match rl, tl with
  | last :: prev :: r, term :: rest =>
      if m_size prev <? m_size last then
        Ret (rev r ++ last :: Mapent 0 (m_addr last) :: term :: rest,
             (m_addr prev, w32 (m_addr prev + m_size prev)))
      else
        Ret (rev r ++ prev :: term :: Mapent 0 (m_addr term) :: rest,
             (m_addr last, w32 (m_addr last + m_size last)))
  | _, _ => Fault
  end.

(** One attempt of [rmfree], from [retry] on: done, or retry with what is left
    after the discard. *)
Inductive attempt :=
| ADone (mp : rmap)
| ARetry (mp : rmap) (lost : Z * Z).

(** The part of [rmfree] after a slot is known to abut on the left. *)
Definition rmfree_left (mp : rmap) (size addr : Z) (p : mapent) (rpre bp : list mapent)
    : run attempt :=
  if addr <? w32 (m_addr p + m_size p) then Panic
  else
    let p' := Mapent (w32 (m_size p + size)) (m_addr p) in
    match bp with
    | [] => Fault
    | e :: _ =>
        if negb (m_size e =? 0) && (m_addr e <=? w32 (addr + size)) then
          if m_addr e <? w32 (addr + size) then Panic
          else
            let p'' := Mapent (w32 (m_size p' + m_size e)) (m_addr p') in
            let* bp' := rm_slide bp in
            Ret (ADone (set_m_free (w32 (m_free mp + 1))
                          (set_m_map (rev rpre ++ p'' :: bp') mp)))
        else Ret (ADone (set_m_map (rev rpre ++ p' :: bp) mp))
    end.

(** The part of [rmfree] when nothing abuts on the left. *)
Definition rmfree_right (mp : rmap) (size addr : Z) (rpre bp : list mapent) : run attempt :=
  match bp with
  | [] => Fault
  | e :: tl =>
      if (m_addr e <=? w32 (addr + size)) && negb (m_size e =? 0) then
        if m_addr e <? w32 (addr + size) then Panic
        else
          let e' := Mapent (w32 (m_size e + size)) (w32 (m_addr e - size)) in
          Ret (ADone (set_m_map (rev rpre ++ e' :: tl) mp))
      else if m_free mp =? 0 then
        let* (l, lost) := rm_discard rpre bp in
        Ret (ARetry (set_m_free (w32 (m_free mp + 1)) (set_m_map l mp)) lost)
      else
        let* bp' := rm_push size addr bp in
        Ret (ADone (set_m_free (w32 (m_free mp - 1)) (set_m_map (rev rpre ++ bp') mp)))
  end.

Definition rmfree_try (mp : rmap) (size addr : Z) : run attempt :=
  let* (rpre, bp) := rm_locate addr [] (m_map mp) in
  match rpre with
  | p :: rpre' =>
      if addr <=? w32 (m_addr p + m_size p) then rmfree_left mp size addr p rpre' bp
      else rmfree_right mp size addr rpre bp
  | [] => rmfree_right mp size addr rpre bp
  end.

(** The [retry] loop.  The lock is dropped for the message and taken again; the
    model runs without interference in that window, so [None] (no fuel) is never
    reached with two turns. *)
Fixpoint rmfree_loop (fuel : nat) (mp : rmap) (size addr : Z) : run (option rmap) :=
  match fuel with
  | O => Ret None
  | S fuel =>
      let* a := rmfree_try mp size addr in
      match a with
      | ADone mp' => Ret (Some mp')
      | ARetry mp' _ => rmfree_loop fuel mp' size addr
      end
  end.

(** [rmfree]: the new map, and whether the sleepers were woken. *)
Definition rmfree (mp : rmap) (size addr : Z) : run (option (rmap * bool)) :=
  if (addr =? 0) || (s32 size <=? 0) then Panic
  else
    let* r := rmfree_loop 2 mp size addr in
    Ret (match r with
         | Some mp' =>
             Some (if truthy (m_want mp') then (set_m_want 0 mp', true) else (mp', false))
         | None => None
         end).

(** The search of [rmget]: the segment that holds [addr], or the delimiter. *)
Fixpoint rm_holding (addr : Z) (rpre bp : list mapent) : run (list mapent * list mapent) :=
  match bp with
  | [] => Fault
  | e :: tl =>
      if m_size e =? 0 then Ret (rpre, bp)
      else if (m_addr e <=? addr) && (addr <? w32 (m_addr e + m_size e)) then Ret (rpre, bp)
      else rm_holding addr (e :: rpre) tl
  end.

(** Make room above a segment: the entries after it move up by one and the slot
    after the old delimiter becomes the delimiter. *)
Fixpoint rm_shift_up (bp : list mapent) : run (list mapent) :=
  match bp with
  | [] => Fault
  | e :: tl =>
      if m_size e =? 0 then
        match tl with
        | nx :: rest => Ret (Mapent 0 (m_addr nx) :: rest)
        | [] => Fault
        end
      else let* tl' := rm_shift_up tl in Ret (e :: tl')
  end.

Definition rmget (mp : rmap) (size addr : Z) : run (rmap * Z) :=
  if s32 size <=? 0 then Panic
  else
    let* (rpre, bp) := rm_holding addr [] (m_map mp) in
    match bp with
    | [] => Fault
    | e :: tl =>
        if m_size e =? 0 then Ret (mp, 0)
        else if w32 (m_addr e + m_size e) <? w32 (addr + size) then Ret (mp, 0)
        else if m_addr e =? addr then
          if m_size e =? size then
            let* bp' := rm_slide bp in
            Ret (set_m_free (w32 (m_free mp + 1)) (set_m_map (rev rpre ++ bp') mp), addr)
          else
            let e' := Mapent (w32 (m_size e - size)) (w32 (m_addr e + size)) in
            Ret (set_m_map (rev rpre ++ e' :: tl) mp, addr)
        else if w32 (m_addr e + m_size e) =? w32 (addr + size) then
          let e' := Mapent (w32 (m_size e - size)) (m_addr e) in
          Ret (set_m_map (rev rpre ++ e' :: tl) mp, addr)
        else if m_free mp =? 0 then Ret (mp, 0)
        else
          let* up := rm_shift_up tl in
          let lo := Mapent (w32 (addr - m_addr e)) (m_addr e) in
          let hi := Mapent (w32 (m_addr e + m_size e - (addr + size))) (w32 (addr + size)) in
          Ret (set_m_free (w32 (m_free mp - 1)) (set_m_map (rev rpre ++ lo :: hi :: up) mp),
               addr)
    end.

(** ** The representation *)

Definition e_end (e : mapent) : Z := m_addr e + m_size e.

(** [chain lo segs]: segments above [lo], in increasing order, separated by
    gaps (adjacent segments have been coalesced), inside the 32-bit space. *)
Fixpoint chain (lo : Z) (segs : list mapent) : Prop :=
  match segs with
  | [] => True
  | e :: tl => lo < m_addr e ∧ 0 < m_size e ∧ e_end e < 2 ^ 32 ∧ chain (e_end e) tl
  end.

(** The array holds [segs], then delimiters: the slots after the first free one
    have size 0 too, which is what lets the loops write over the old delimiter. *)
Definition map_rep (mp : rmap) (segs : list mapent) : Prop :=
  chain 0 segs ∧
  0 ≤ m_free mp < 2 ^ 32 ∧
  m_free mp + zlen segs = h_size mp ∧ h_size mp < 2 ^ 32 ∧
  ∃ zs, m_map mp = segs ++ zs ∧ Forall (λ e, m_size e = 0) zs ∧
        length zs = S (Z.to_nat (m_free mp)).

Definition covers (segs : list mapent) (x : Z) : Prop :=
  ∃ e, e ∈ segs ∧ m_addr e ≤ x < e_end e.

Lemma covers_nil x : ¬ covers [] x.
Proof. intros (e & He & _). by apply not_elem_of_nil in He. Qed.

Lemma covers_cons e segs x :
  covers (e :: segs) x ↔ m_addr e ≤ x < e_end e ∨ covers segs x.
Proof.
  unfold covers. split.
  - intros (d & Hd & Hx). apply elem_of_cons in Hd as [->|Hd]; [by left|right; eauto].
  - intros [Hx|(d & Hd & Hx)]; [exists e|exists d]; rewrite elem_of_cons; auto.
Qed.

Lemma covers_app l1 l2 x : covers (l1 ++ l2) x ↔ covers l1 x ∨ covers l2 x.
Proof.
  induction l1 as [|e l1 IH]; simpl; [pose proof (covers_nil x); tauto|].
  rewrite !covers_cons, IH. tauto.
Qed.

Lemma chain_covers lo segs x : chain lo segs → covers segs x → lo < x < 2 ^ 32.
Proof.
  revert lo. induction segs as [|e segs IH]; intros lo Hc Hx; [by apply covers_nil in Hx|].
  destruct Hc as (? & ? & ? & Hc). apply covers_cons in Hx as [Hx|Hx]; unfold e_end in *; [lia|].
  specialize (IH _ Hc Hx). lia.
Qed.

Lemma chain_weaken lo lo' segs : lo' ≤ lo → chain lo segs → chain lo' segs.
Proof. destruct segs; simpl; [done|]. intuition lia. Qed.

(** The end of the last segment. *)
Fixpoint chain_end (lo : Z) (segs : list mapent) : Z :=
  match segs with [] => lo | e :: tl => chain_end (e_end e) tl end.

Lemma chain_app lo l1 l2 : chain lo (l1 ++ l2) ↔ chain lo l1 ∧ chain (chain_end lo l1) l2.
Proof. revert lo. induction l1 as [|e l1 IH]; intros lo; simpl; [|rewrite IH]; tauto. Qed.

Lemma chain_end_app lo l1 l2 : chain_end lo (l1 ++ l2) = chain_end (chain_end lo l1) l2.
Proof. revert lo. induction l1 as [|e l1 IH]; intros lo; simpl; auto. Qed.

(** ** The loops on a represented array *)

Definition seg_ok (e : mapent) : Prop := 0 < m_addr e ∧ 0 < m_size e ∧ e_end e < 2 ^ 32.

Lemma chain_seg_ok lo segs : 0 ≤ lo → chain lo segs → Forall seg_ok segs.
Proof.
  revert lo. induction segs as [|e segs IH]; intros lo Hlo; simpl; [constructor|].
  intros (? & ? & ? & ?). constructor; unfold seg_ok, e_end in *; [lia|].
  eapply (IH (m_addr e + m_size e)); [lia|done].
Qed.

Lemma seg_ok_u32 e : seg_ok e → in_u32 (m_addr e) ∧ in_u32 (m_size e) ∧ in_u32 (e_end e).
Proof. unfold seg_ok, in_u32, e_end. lia. Qed.

Lemma seg_ok_nz e : seg_ok e → (m_size e =? 0) = false.
Proof. intros (? & ? & ?). apply Z.eqb_neq. lia. Qed.

Lemma w32_end e : seg_ok e → w32 (m_addr e + m_size e) = e_end e.
Proof. intros H. apply w32_id, seg_ok_u32, H. Qed.

Arguments rm_slide : simpl never.

Lemma rm_slide_cons e d tl :
  rm_slide (e :: d :: tl) =
  if m_size d =? 0 then Ret (d :: d :: tl)
  else let* tl' := rm_slide (d :: tl) in Ret (d :: tl').
Proof. done. Qed.

Lemma rm_slide_spec e segs z zs :
  Forall seg_ok segs → m_size z = 0 →
  rm_slide (e :: segs ++ z :: zs) = Ret (segs ++ z :: z :: zs).
Proof.
  intros Hok Hz. revert e. induction Hok as [|d segs Hd Hok IH]; intros e; cbn [app].
  - by rewrite rm_slide_cons, Hz.
  - by rewrite rm_slide_cons, seg_ok_nz, IH by done.
Qed.

Lemma rm_push_spec size addr segs z1 z2 zs :
  Forall seg_ok segs → m_size z1 = 0 →
  rm_push size addr (segs ++ z1 :: z2 :: zs) = Ret (Mapent size addr :: segs ++ z2 :: zs).
Proof.
  intros Hok Hz. revert size addr. induction Hok as [|d segs Hd Hok IH]; intros size addr; simpl.
  - by rewrite Hz.
  - rewrite seg_ok_nz by done. rewrite IH. simpl. by destruct d.
Qed.

Lemma rm_end_spec rpre segs z zs :
  Forall seg_ok segs → m_size z = 0 →
  rm_end rpre (segs ++ z :: zs) = Ret (rev segs ++ rpre, z :: zs).
Proof.
  intros Hok Hz. revert rpre. induction Hok as [|d segs Hd Hok IH]; intros rpre; simpl.
  - by rewrite Hz.
  - rewrite seg_ok_nz by done. rewrite IH, <-app_assoc. done.
Qed.

Lemma rm_shift_up_spec segs z1 z2 zs :
  Forall seg_ok segs → m_size z1 = 0 →
  rm_shift_up (segs ++ z1 :: z2 :: zs) = Ret (segs ++ Mapent 0 (m_addr z2) :: zs).
Proof.
  intros Hok Hz. induction Hok as [|d segs Hd Hok IH]; simpl; [by rewrite Hz|].
  rewrite seg_ok_nz by done. rewrite IH. done.
Qed.

(** Where the search of [rmfree] splits the segments. *)
Definition before (addr : Z) (e : mapent) : Prop := m_addr e ≤ addr.

Lemma rm_locate_spec addr lo rpre segs z zs :
  chain lo segs → 0 ≤ lo → m_size z = 0 →
  ∃ l r, segs = l ++ r ∧ Forall (before addr) l ∧ Forall (λ e, addr < m_addr e) r ∧
    rm_locate addr rpre (segs ++ z :: zs) = Ret (rev l ++ rpre, r ++ z :: zs).
Proof.
  revert lo rpre. induction segs as [|e segs IH]; intros lo rpre Hc Hlo Hz.
  - exists [], []. simpl. rewrite Hz, andb_false_r. repeat split; constructor.
  - simpl. destruct Hc as (? & ? & ? & Hc).
    replace (m_size e =? 0) with false by (symmetry; apply Z.eqb_neq; lia).
    rewrite andb_true_r. destruct (Z.leb_spec (m_addr e) addr).
    + destruct (IH (e_end e) (e :: rpre)) as (l & r & -> & ? & ? & Hr); [done|unfold e_end in *; lia|done|].
      exists (e :: l), r. rewrite Hr. simpl. rewrite <-app_assoc.
      repeat split; [by constructor|done].
    + exists [], (e :: segs). repeat split; [constructor|].
      clear IH. constructor; [done|].
      assert (Hgt : addr < e_end e) by (unfold e_end; lia).
      clear -Hc Hgt. revert Hc Hgt. generalize (e_end e) as b.
      induction segs as [|d segs IH]; intros b; simpl; [constructor|].
      intros (? & ? & ? & ?) ?. constructor; [lia|]. eapply IH; [done|]. unfold e_end; lia.
Qed.

(** ** Chains under the edits the operations make *)

Lemma chain_mid lo l e r :
  chain lo (l ++ e :: r) ↔
  chain lo l ∧ chain_end lo l < m_addr e ∧ 0 < m_size e ∧ e_end e < 2 ^ 32 ∧ chain (e_end e) r.
Proof. rewrite chain_app. simpl. tauto. Qed.

Lemma chain_end_le lo l : chain lo l → lo ≤ chain_end lo l.
Proof.
  revert lo. induction l as [|e l IH]; intros lo; simpl; [lia|].
  intros (? & ? & ? & Hc). specialize (IH _ Hc). unfold e_end in *. lia.
Qed.

Lemma chain_delete lo l e r : chain lo (l ++ e :: r) → chain lo (l ++ r).
Proof.
  rewrite chain_mid, chain_app. intros (? & ? & ? & ? & ?). split; [done|].
  eapply chain_weaken; [|done]. unfold e_end. lia.
Qed.

Lemma chain_shrink lo l e e' r :
  m_addr e ≤ m_addr e' → 0 < m_size e' → e_end e' ≤ e_end e →
  chain lo (l ++ e :: r) → chain lo (l ++ e' :: r).
Proof.
  rewrite !chain_mid. intros ? ? ? (? & ? & ? & ? & ?). repeat split; [done|lia..|].
  eapply chain_weaken; [|done]. lia.
Qed.

Lemma chain_all_below lo l x : chain lo l → covers l x → x < chain_end lo l.
Proof.
  revert lo. induction l as [|e l IH]; intros lo; simpl; [by intros _ ?%covers_nil|].
  intros (? & ? & ? & Hc) Hx. apply covers_cons in Hx as [Hx|Hx]; [|by apply IH].
  pose proof (chain_end_le _ _ Hc). lia.
Qed.

(** A chain has no segment between the two parts around an entry. *)
Lemma chain_mid_disjoint lo l e r x :
  chain lo (l ++ e :: r) → m_addr e ≤ x < e_end e → ¬ covers (l ++ r) x.
Proof.
  rewrite chain_mid. intros (Hl & ? & ? & ? & Hr) Hx. rewrite covers_app. intros [H'|H'].
  - pose proof (chain_all_below _ _ _ Hl H'). lia.
  - pose proof (chain_covers _ _ _ Hr H'). lia.
Qed.

Lemma covers_mid l e r x :
  covers (l ++ e :: r) x ↔ covers (l ++ r) x ∨ m_addr e ≤ x < e_end e.
Proof. rewrite !covers_app, covers_cons. tauto. Qed.

(** Taking [size] units off one end of a segment, or the whole of it. *)
Lemma covers_split l e e' r lo hi :
  m_addr e ≤ lo → lo ≤ hi → hi ≤ e_end e →
  (m_addr e = lo ∧ m_addr e' = hi ∧ e_end e' = e_end e ∨
   hi = e_end e ∧ m_addr e' = m_addr e ∧ e_end e' = lo) →
  chain 0 (l ++ e :: r) →
  ∀ x, (covers (l ++ e :: r) x ↔ covers (l ++ e' :: r) x ∨ lo ≤ x < hi) ∧
       (lo ≤ x < hi → ¬ covers (l ++ e' :: r) x).
Proof.
  intros ? ? ? Hcase Hc x. rewrite !covers_mid.
  pose proof (chain_mid_disjoint _ _ _ _ x Hc) as Hd. split.
  - split; [intros [?|?]; [tauto|]|intros [[?|?]|?]; [tauto|right; lia..]].
    destruct (decide (lo ≤ x < hi)); [by right|left; right; lia].
  - intros Hx [Hx'|Hx']; [apply Hd; [lia|done]|lia].
Qed.

Lemma covers_delete l e r :
  chain 0 (l ++ e :: r) →
  ∀ x, (covers (l ++ e :: r) x ↔ covers (l ++ r) x ∨ m_addr e ≤ x < e_end e) ∧
       (m_addr e ≤ x < e_end e → ¬ covers (l ++ r) x).
Proof.
  intros Hc x. split; [apply covers_mid|]. intros Hx. by eapply chain_mid_disjoint.
Qed.

(** Rebuilding the representation after an edit. *)
Lemma map_rep_intro mp segs zs :
  chain 0 segs → m_map mp = segs ++ zs → Forall (λ e, m_size e = 0) zs →
  length zs = S (Z.to_nat (m_free mp)) → 0 ≤ m_free mp →
  m_free mp + zlen segs = h_size mp → h_size mp < 2 ^ 32 → map_rep mp segs.
Proof. intros. repeat split; [done|lia..|eauto]. Qed.

Lemma map_rep_delims mp segs :
  map_rep mp segs →
  ∃ z zs, m_map mp = segs ++ z :: zs ∧ m_size z = 0 ∧
    Forall (λ e, m_size e = 0) zs ∧ length zs = Z.to_nat (m_free mp).
Proof.
  intros (_ & _ & _ & _ & zs & -> & Hz & Hlen). destruct zs as [|z zs]; [done|].
  inversion Hz; subst. exists z, zs. repeat split; auto.
Qed.

Lemma map_rep_segs_ok mp segs : map_rep mp segs → Forall seg_ok segs.
Proof. intros [Hc _]. by eapply (chain_seg_ok 0). Qed.

(** ** Allocation *)

Lemma rmalloc_scan_spec size segs z zs :
  0 < size → Forall seg_ok segs → m_size z = 0 →
  (Forall (λ e, m_size e < size) segs ∧ rmalloc_scan size (segs ++ z :: zs) = Ret None) ∨
  (∃ l e r, segs = l ++ e :: r ∧ Forall (λ e, m_size e < size) l ∧ size ≤ m_size e ∧
     rmalloc_scan size (segs ++ z :: zs) =
       Ret (Some (if m_size e =? size then (m_addr e, true, l ++ r ++ z :: z :: zs)
                  else (m_addr e, false,
                        l ++ Mapent (m_size e - size) (m_addr e + size) :: r ++ z :: zs)))).
Proof.
  intros Hs Hok Hz. induction Hok as [|e segs He Hok IH].
  - left. split; [constructor|]. simpl. by rewrite Hz.
  - simpl. rewrite seg_ok_nz by done. destruct (Z.leb_spec size (m_size e)).
    + right. exists [], e, segs. repeat split; [constructor|done|].
      destruct (seg_ok_u32 _ He) as (? & ? & ?). unfold in_u32, e_end in *.
      rewrite !w32_id by (unfold in_u32; lia). simpl.
      destruct (Z.eqb_spec (m_size e) size) as [->|?].
      * rewrite Z.sub_diag. simpl.
        rewrite rm_slide_spec by done. done.
      * by replace (m_size e - size =? 0) with false by (symmetry; apply Z.eqb_neq; lia).
    + destruct IH as [[Hall ->]|(l & d & r & -> & Hl & Hd & ->)].
      * left. split; [by constructor|done].
      * right. exists (e :: l), d, r. repeat split; [by constructor|done|].
        simpl. by destruct (m_size d =? size).
Qed.

Lemma rmalloc_locked_ok mp segs size :
  map_rep mp segs → 0 < size < 2 ^ 31 →
  (rmalloc_locked mp size = Ret (mp, 0) ∧ Forall (λ e, m_size e < size) segs) ∨
  (∃ mp' segs' l e r,
     rmalloc_locked mp size = Ret (mp', m_addr e) ∧ map_rep mp' segs' ∧
     segs = l ++ e :: r ∧ Forall (λ e, m_size e < size) l ∧ size ≤ m_size e ∧
     0 < m_addr e ∧ m_want mp' = m_want mp ∧ h_size mp' = h_size mp ∧
     (∀ n, Forall (λ e, m_size e < n) segs → Forall (λ e, m_size e < n) segs') ∧
     ∀ x, (covers segs x ↔ covers segs' x ∨ m_addr e ≤ x < m_addr e + size) ∧
          (m_addr e ≤ x < m_addr e + size → ¬ covers segs' x)).
Proof.
  intros Hrep Hs. pose proof (map_rep_segs_ok _ _ Hrep) as Hok.
  destruct (map_rep_delims _ _ Hrep) as (z & zs & Hmap & Hz & Hzs & Hlen).
  destruct Hrep as (Hc & Hf & Hh & Hh' & _).
  unfold rmalloc_locked. rewrite Hmap.
  destruct (rmalloc_scan_spec size segs z zs) as [[Hall ->]|(l & e & r & Hsp & Hl & He & ->)];
    [lia|done..|by left|right]. subst segs.
  pose proof Hok as Hok'. apply Forall_app in Hok' as [_ Hok'].
  inversion Hok' as [|? ? (? & ? & ?) _]; subst. unfold e_end in *.
  rewrite length_app in Hh. simpl in Hh.
  destruct (Z.eqb_spec (m_size e) size) as [Heq|Hne]; simpl.
  - eexists _, (l ++ r), l, e, r. split; [done|]. split_and!; try done.
    + eapply (map_rep_intro _ _ (z :: z :: zs)); simpl; rewrite ?w32_id, ?length_app;
        unfold in_u32; [by eapply chain_delete|by rewrite <-app_assoc|by repeat constructor|lia..].
    + intros n. rewrite !Forall_app, Forall_cons. tauto.
    + intros x. rewrite <-Heq. by apply covers_delete.
  - set (e' := Mapent (m_size e - size) (m_addr e + size)).
    eexists _, (l ++ e' :: r), l, e, r. split; [done|]. split_and!; try done.
    + eapply (map_rep_intro _ _ (z :: zs)); simpl; rewrite ?length_app; simpl;
        [|by rewrite <-app_assoc|by constructor|lia..].
      eapply chain_shrink; [..|done]; simpl; unfold e_end; simpl; lia.
    + intros n. rewrite !Forall_app, !Forall_cons. simpl. intros (? & ? & ?). split_and!; [done|lia|done].
    + apply covers_split; unfold e_end; simpl; [lia..|left; lia|done].
Qed.

(** C4: [rmalloc] is first fit: it takes [size] units from the start of the first segment
    that is large enough, leaves every other free unit free, and returns 0 with the map unchanged
    exactly when no segment is large enough.  No slot outside the array is touched. *)
Theorem rmalloc_first_fit mp segs size :
  map_rep mp segs → 0 < size < 2 ^ 31 →
  (rmalloc mp size = Ret (mp, 0) ∧ Forall (λ e, m_size e < size) segs) ∨
  (∃ mp' segs' l e r,
     rmalloc mp size = Ret (mp', m_addr e) ∧ map_rep mp' segs' ∧
     segs = l ++ e :: r ∧ Forall (λ e, m_size e < size) l ∧ size ≤ m_size e ∧
     0 < m_addr e ∧ m_want mp' = m_want mp ∧
     ∀ x, (covers segs x ↔ covers segs' x ∨ m_addr e ≤ x < m_addr e + size) ∧
          (m_addr e ≤ x < m_addr e + size → ¬ covers segs' x)).
Proof.
  intros Hrep Hs. destruct (rmalloc_locked_ok mp segs size Hrep Hs) as [?|(mp' & segs' & l & e & r & H)]; [by left|right].
  exists mp', segs', l, e, r. tauto.
Qed.

(** ** Freeing *)

Definition in_range (addr size x : Z) : Prop := addr ≤ x < addr + size.

(** The position [rm_locate] finds for a range that is not free yet. *)
Record gap (segs : list mapent) (addr size : Z) (l r : list mapent) : Prop := {
  gap_split : segs = l ++ r;
  gap_left : chain 0 l;
  gap_lo : chain_end 0 l ≤ addr;
  gap_right : chain (chain_end 0 l) r;
  gap_hi : ∀ e tl, r = e :: tl → addr + size ≤ m_addr e
}.

Lemma chain_end_cases lo l : chain_end lo l = lo ∧ l = [] ∨ ∃ l' p, l = l' ++ [p] ∧ chain_end lo l = e_end p.
Proof.
  destruct l as [|x l'] using rev_ind; [by left|right].
  exists l', x. by rewrite chain_end_app.
Qed.

Lemma find_gap segs addr size z zs :
  chain 0 segs → m_size z = 0 → 0 < addr → 0 < size →
  (∀ x, in_range addr size x → ¬ covers segs x) →
  ∃ l r, gap segs addr size l r ∧
    rm_locate addr [] (segs ++ z :: zs) = Ret (rev l, r ++ z :: zs).
Proof.
  intros Hc Hz Ha Hs Hdis.
  destruct (rm_locate_spec addr 0 [] segs z zs) as (l & r & -> & Hl & Hr & Heq); [done..|].
  exists l, r. rewrite app_nil_r in Heq. split; [|done].
  pose proof Hc as Hc'. apply chain_app in Hc' as [Hcl Hcr]. constructor; [done..| |done|].
  - destruct (chain_end_cases 0 l) as [[-> _]|(l' & p & -> & ->)]; [lia|].
    apply Forall_app in Hl as [_ Hp]. inversion Hp as [|? ? Hp' _]; subst. unfold before in Hp'.
    apply Znot_gt_le. intros Hgt. apply (Hdis addr); [unfold in_range; lia|].
    rewrite !covers_app, covers_cons. left. right. left. lia.
  - intros e tl ->. inversion Hr; subst.
    apply Znot_gt_le. intros Hgt. apply (Hdis (m_addr e)); [unfold in_range; lia|].
    rewrite covers_app, covers_cons. right. left.
    destruct Hcr as (_ & ? & _). unfold e_end. lia.
Qed.

(** What a successful attempt leaves. *)
Definition freed (mp mp' : rmap) (segs segs' : list mapent) (addr size : Z) : Prop :=
  map_rep mp' segs' ∧ m_want mp' = m_want mp ∧
  ∀ x, covers segs' x ↔ covers segs x ∨ in_range addr size x.

(** Replacing the middle of the segments: the entries [old] by [new]. *)
Lemma rep_edit mp mp' l old new r zs :
  map_rep mp (l ++ old ++ r) → chain 0 (l ++ new ++ r) →
  m_map mp' = l ++ new ++ r ++ zs → Forall (λ e, m_size e = 0) zs →
  h_size mp' = h_size mp → m_free mp' + zlen new = m_free mp + zlen old →
  0 ≤ m_free mp' → length zs = S (Z.to_nat (m_free mp')) →
  map_rep mp' (l ++ new ++ r).
Proof.
  intros (_ & Hf & Hh & Hh' & _) Hc Hm Hzs Hhs Hcnt Hpos Hlen.
  rewrite !length_app in Hh.
  eapply (map_rep_intro _ _ zs); rewrite ?length_app; [done| |done..|lia|lia].
  by rewrite Hm, <-!app_assoc.
Qed.

Lemma freed_intro mp mp' l old new r zs addr size :
  map_rep mp (l ++ old ++ r) → chain 0 (l ++ new ++ r) →
  m_map mp' = l ++ new ++ r ++ zs → Forall (λ e, m_size e = 0) zs →
  h_size mp' = h_size mp → m_free mp' + zlen new = m_free mp + zlen old →
  0 ≤ m_free mp' → length zs = S (Z.to_nat (m_free mp')) → m_want mp' = m_want mp →
  (∀ x, covers new x ↔ covers old x ∨ in_range addr size x) →
  freed mp mp' (l ++ old ++ r) (l ++ new ++ r) addr size.
Proof.
  intros Hrep Hc Hm Hzs Hh Hcnt Hpos Hlen Hw Hx. split; [|split; [done|]].
  - by eapply rep_edit.
  - intros x. rewrite !covers_app, Hx. tauto.
Qed.

Lemma covers_one e x : covers [e] x ↔ m_addr e ≤ x < e_end e.
Proof. rewrite covers_cons. pose proof (covers_nil x). tauto. Qed.

Lemma chain_gap l r a s :
  chain 0 l → chain_end 0 l < a → 0 < s → a + s < 2 ^ 32 →
  chain (chain_end 0 l) r → (∀ e tl, r = e :: tl → a + s < m_addr e) →
  chain 0 (l ++ [Mapent s a] ++ r).
Proof.
  intros ? ? ? ? Hr Hgap. apply chain_mid. unfold e_end; simpl. repeat split; [done|lia..|].
  destruct r as [|e r]; simpl in *; [done|]. specialize (Hgap e r eq_refl). tauto.
Qed.

Lemma rmfree_left_spec mp segs addr size l p r z zs :
  map_rep mp segs → gap segs addr size (l ++ [p]) r → e_end p = addr →
  0 < size → addr + size < 2 ^ 32 →
  m_map mp = segs ++ z :: zs → m_size z = 0 → Forall (λ e, m_size e = 0) zs →
  length zs = Z.to_nat (m_free mp) →
  ∃ mp' segs', rmfree_left mp size addr p (rev l) (r ++ z :: zs) = Ret (ADone mp') ∧
    freed mp mp' segs segs' addr size.
Proof.
  intros Hrep [-> Hl Hlo Hr Hhi] Hp Hs Hb Hm Hz Hzs Hlen.
  pose proof (map_rep_segs_ok _ _ Hrep) as Hok.
  assert (0 ≤ m_free mp < 2 ^ 32 ∧ m_free mp + zlen r < 2 ^ 32) as [Hf Hf'].
  { destruct Hrep as (_ & ? & Hh & ? & _). rewrite length_app in Hh. lia. }
  rewrite <-app_assoc in *.
  rewrite chain_end_app in *. apply chain_mid in Hl as (Hl & Hpl & Hps & Hpe & _). simpl in Hr.
  pose proof (chain_end_le _ _ Hl) as H0.
  unfold rmfree_left. rewrite w32_end by (unfold seg_ok; lia).
  rewrite Hp, Z.ltb_irrefl. unfold e_end in Hp.
  rewrite (w32_id (m_size p + size)), (w32_id (addr + size)) by (unfold in_u32; lia).
  rewrite rev_involutive.
  destruct r as [|e r]; cbn [app].
  - rewrite Hz. cbn [Z.eqb negb andb]. eexists _, (l ++ [Mapent (m_size p + size) (m_addr p)] ++ []).
    split; [done|]. eapply (freed_intro _ _ l [p] _ [] (z :: zs)); simpl; try done; [|by constructor|lia..|].
    + apply chain_gap; [done|lia..|done|done].
    + intros x. rewrite !covers_one. unfold e_end, in_range; simpl. lia.
  - destruct Hr as (He & Hes & Hee & Hr). specialize (Hhi e r eq_refl).
    rewrite (proj2 (Z.eqb_neq (m_size e) 0)) by lia. cbn [negb andb].
    destruct (Z.leb_spec (m_addr e) (addr + size)).
    + rewrite (proj2 (Z.ltb_ge (m_addr e) (addr + size))) by lia.
      rewrite rm_slide_spec; [|by apply Forall_app in Hok as [_ Hok]; inversion Hok as [|??? Hok']; inversion Hok'|done].
      cbn [rbind m_size m_addr]. unfold e_end in Hee.
      rewrite (w32_id (m_size p + size + m_size e)) by (unfold in_u32; lia).
      eexists _, (l ++ [Mapent (m_size p + size + m_size e) (m_addr p)] ++ r).
      split; [done|]. change (p :: e :: r) with ([p; e] ++ r).
      simpl in Hf'.
      eapply (freed_intro _ _ l [p; e] _ r (z :: z :: zs)); simpl; rewrite ?w32_id by (unfold in_u32; lia);
        try done; [|by repeat constructor|lia..|].
      * apply chain_mid. unfold e_end; simpl. repeat split; [done|lia..|].
        replace (m_addr p + _) with (e_end e) by (unfold e_end; lia). done.
      * intros x. rewrite (covers_cons p), !covers_one. unfold e_end, in_range; simpl. lia.
    + eexists _, (l ++ [Mapent (m_size p + size) (m_addr p)] ++ e :: r).
      split; [done|].
      eapply (freed_intro _ _ l [p] _ (e :: r) (z :: zs)); simpl; try done; [|by constructor|lia..|].
      * apply chain_gap; [done|lia..| |intros ? ? [= <- <-]; lia]. simpl. split_and!; [lia..|done].
      * intros x. rewrite !covers_one. unfold e_end, in_range; simpl. lia.
Qed.

(** The entry that [rm_discard] drops, and the one it keeps. *)
Definition dropped (a b : mapent) : mapent := if m_size a <? m_size b then a else b.
Definition kept (a b : mapent) : mapent := if m_size a <? m_size b then b else a.

Lemma rm_discard_spec l r s a b z zs :
  l ++ r = s ++ [a; b] → Forall seg_ok (l ++ r) → m_size z = 0 →
  ∃ z1 z2 zs', rm_discard (rev l) (r ++ z :: zs) =
      Ret (s ++ kept a b :: z1 :: z2 :: zs', (m_addr (dropped a b), e_end (dropped a b))) ∧
    m_size z1 = 0 ∧ m_size z2 = 0 ∧ zs' = zs.
Proof.
  intros Heq Hok Hz. unfold rm_discard.
  rewrite rm_end_spec; [|by apply Forall_app in Hok as [_ ?]|done]. cbn [rbind].
  rewrite <-rev_app_distr, Heq, rev_app_distr. cbn [rev app].
  rewrite Heq in Hok. apply Forall_app in Hok as [_ Hok].
  apply Forall_cons in Hok as [Ha Hb]. apply Forall_cons in Hb as [Hb _].
  rewrite rev_involutive. unfold kept, dropped. rewrite !w32_end by done.
  destruct (m_size a <? m_size b).
  - exists (Mapent 0 (m_addr b)), z, zs. done.
  - exists z, (Mapent 0 (m_addr z)), zs. done.
Qed.

(** The range touches a free segment. *)
Definition abuts (segs : list mapent) (addr size : Z) : Prop :=
  Exists (λ e, e_end e = addr ∨ m_addr e = addr + size) segs.

Lemma gap_no_abut segs addr size l r :
  gap segs addr size l r → ¬ abuts segs addr size → 0 < addr →
  chain_end 0 l < addr ∧ (∀ e tl, r = e :: tl → addr + size < m_addr e).
Proof.
  intros [-> Hl Hlo Hr Hhi] Hna Ha. split.
  - destruct (chain_end_cases 0 l) as [[-> _]|(l' & p & -> & Hp)]; [done|].
    destruct (decide (e_end p = addr)) as [He|?]; [|lia].
    exfalso. apply Hna. unfold abuts. rewrite !Exists_app, Exists_cons. tauto.
  - intros e tl ->. specialize (Hhi e tl eq_refl).
    destruct (decide (m_addr e = addr + size)) as [He|?]; [|lia].
    exfalso. apply Hna. unfold abuts. rewrite !Exists_app, Exists_cons. tauto.
Qed.

(** Not abutting on the left: join on the right, or a new entry, or discard. *)
Lemma rmfree_right_spec mp segs addr size l r z zs :
  map_rep mp segs → gap segs addr size l r → chain_end 0 l < addr → 0 < addr →
  0 < size → addr + size < 2 ^ 32 →
  m_map mp = segs ++ z :: zs → m_size z = 0 → Forall (λ e, m_size e = 0) zs →
  length zs = Z.to_nat (m_free mp) →
  m_free mp ≠ 0 ∨ (∃ e tl, r = e :: tl ∧ m_addr e = addr + size) →
  ∃ mp' segs', rmfree_right mp size addr (rev l) (r ++ z :: zs) = Ret (ADone mp') ∧
    freed mp mp' segs segs' addr size.
Proof.
  intros Hrep [-> Hl _ Hr Hhi] Hlo Ha Hs Hb Hm Hz Hzs Hlen Hroom.
  pose proof (map_rep_segs_ok _ _ Hrep) as Hok. apply Forall_app in Hok as [_ Hok].
  assert (0 ≤ m_free mp < 2 ^ 32) as Hf by (by destruct Hrep as (_ & ? & _)).
  pose proof (chain_end_le _ _ Hl) as H0.
  assert (Hnew : m_free mp ≠ 0 → (∀ e tl, r = e :: tl → addr + size < m_addr e) →
    ∃ mp' segs', (let* bp' := rm_push size addr (r ++ z :: zs) in
        Ret (ADone (set_m_free (w32 (m_free mp - 1)) (set_m_map (rev (rev l) ++ bp') mp)))) =
      Ret (ADone mp') ∧ freed mp mp' (l ++ r) segs' addr size).
  { intros Hnz Hhi'. destruct zs as [|z2 zs]; [simpl in Hlen; lia|].
    inversion Hzs; subst. rewrite rm_push_spec by done. cbn [rbind]. rewrite rev_involutive.
    rewrite w32_id by (unfold in_u32; lia). simpl in Hlen.
    eexists _, (l ++ [Mapent size addr] ++ r). split; [done|].
    change (l ++ r) with (l ++ [] ++ r).
    eapply (freed_intro _ _ l [] _ r (z2 :: zs)); simpl; try done; [|lia..|].
    - apply chain_gap; [done|lia..|done|done].
    - intros x. rewrite covers_one. pose proof (covers_nil x). unfold e_end, in_range; simpl.
      tauto. }
  unfold rmfree_right. destruct r as [|e r]; cbn [app].
  - rewrite Hz. rewrite andb_false_r. destruct Hroom as [Hnz|(? & ? & ? & ?)]; [|done].
    rewrite (proj2 (Z.eqb_neq _ _)) by lia. by apply Hnew.
  - destruct Hr as (He & Hes & Hee & Hr). specialize (Hhi e r eq_refl).
    rewrite (w32_id (addr + size)) by (unfold in_u32; lia).
    rewrite (proj2 (Z.eqb_neq (m_size e) 0)), andb_true_r by lia.
    destruct (Z.leb_spec (m_addr e) (addr + size)).
    + rewrite (proj2 (Z.ltb_ge (m_addr e) (addr + size))) by lia.
      unfold e_end in Hee. rewrite !w32_id, rev_involutive by (unfold in_u32; lia).
      eexists _, (l ++ [Mapent (m_size e + size) (m_addr e - size)] ++ r). split; [done|].
      eapply (freed_intro _ _ l [e] _ r (z :: zs)); simpl; try done; [|by constructor|lia..|].
      * apply chain_mid. unfold e_end; simpl. repeat split; [done|lia..|].
        replace (m_addr e - size + _) with (e_end e) by (unfold e_end; lia). done.
      * intros x. rewrite !covers_one. unfold e_end, in_range; simpl. lia.
    + destruct Hroom as [Hnz|(? & ? & [= <- <-] & ?)]; [|lia].
      rewrite (proj2 (Z.eqb_neq _ _)) by lia. apply Hnew; [done|].
      intros ? ? [= <- <-]. lia.
Qed.

Lemma gap_abut segs addr size l r :
  gap segs addr size l r → abuts segs addr size → 0 < size →
  (∃ l' p, l = l' ++ [p] ∧ e_end p = addr) ∨ (∃ e tl, r = e :: tl ∧ m_addr e = addr + size).
Proof.
  intros [-> Hl Hlo Hr Hhi] Hab Hs. unfold abuts in Hab. rewrite Exists_app in Hab.
  destruct Hab as [Hab|Hab]; apply Exists_exists in Hab as (e & He & Hcase);
    apply list_elem_of_split in He as (l1 & l2 & ->).
  - apply chain_mid in Hl as (_ & _ & ? & _ & Hl2). rewrite chain_end_app in Hlo. simpl in Hlo.
    destruct (chain_end_cases (e_end e) l2) as [[_ ->]|(l' & p & -> & Hp)].
    + left. exists l1, e. split; [done|]. simpl in Hlo. unfold e_end in *. lia.
    + apply chain_end_le in Hl2 as Hle. apply chain_mid in Hl2 as (Hl' & ? & ? & _ & _).
      apply chain_end_le in Hl'. unfold e_end in *. lia.
  - right. destruct l1 as [|d l1].
    + exists e, l2. split; [done|]. apply chain_mid in Hr as (Hr & ? & ? & _ & _).
      specialize (Hhi e l2 eq_refl). unfold e_end in *. lia.
    + specialize (Hhi d _ eq_refl). destruct Hr as (? & ? & ? & Hr).
      apply chain_mid in Hr as (Hr & ? & ? & _ & _). apply chain_end_le in Hr.
      unfold e_end in *. lia.
Qed.

Lemma rmfree_try_gap mp segs addr size :
  map_rep mp segs → 0 < addr → 0 < size → addr + size < 2 ^ 32 →
  (∀ x, in_range addr size x → ¬ covers segs x) →
  ∃ l r z zs, gap segs addr size l r ∧ m_map mp = segs ++ z :: zs ∧ m_size z = 0 ∧
    Forall (λ e, m_size e = 0) zs ∧ length zs = Z.to_nat (m_free mp) ∧
    ((∃ l' p, l = l' ++ [p] ∧ e_end p = addr ∧
        rmfree_try mp size addr = rmfree_left mp size addr p (rev l') (r ++ z :: zs)) ∨
     (chain_end 0 l < addr ∧ rmfree_try mp size addr = rmfree_right mp size addr (rev l) (r ++ z :: zs))).
Proof.
  intros Hrep Ha Hs Hb Hdis.
  destruct (map_rep_delims _ _ Hrep) as (z & zs & Hm & Hz & Hzs & Hlen).
  destruct (find_gap segs addr size z zs) as (l & r & Hgap & Hloc);
    [by destruct Hrep|done..|].
  exists l, r, z, zs. split_and!; try done.
  unfold rmfree_try. rewrite Hm, Hloc. cbn [rbind].
  pose proof (gap_left _ _ _ _ _ Hgap) as Hl. pose proof (gap_lo _ _ _ _ _ Hgap) as Hlo.
  destruct (chain_end_cases 0 l) as [[He ->]|(l' & p & -> & He)].
  - right. rewrite He. done.
  - rewrite rev_app_distr in *. cbn [rev app] in *.
    assert (seg_ok p) as Hp.
    { apply (chain_seg_ok 0), Forall_app in Hl as [_ Hl]; [|done]. by inversion Hl. }
    rewrite w32_end, He in * by done.
    destruct (Z.leb_spec addr (e_end p)).
    + left. exists l', p. split; [done|]. split; [lia|done].
    + right. split; [lia|done].
Qed.

Lemma rmfree_try_ok mp segs addr size :
  map_rep mp segs → 0 < addr → 0 < size → addr + size < 2 ^ 32 →
  (∀ x, in_range addr size x → ¬ covers segs x) →
  m_free mp ≠ 0 ∨ abuts segs addr size →
  ∃ mp' segs', rmfree_try mp size addr = Ret (ADone mp') ∧ freed mp mp' segs segs' addr size.
Proof.
  intros Hrep Ha Hs Hb Hdis Hroom.
  destruct (rmfree_try_gap _ _ _ _ Hrep Ha Hs Hb Hdis)
    as (l & r & z & zs & Hgap & Hm & Hz & Hzs & Hlen & [(l' & p & -> & Hp & ->)|[Hlt ->]]).
  - by eapply rmfree_left_spec.
  - eapply rmfree_right_spec; try done. destruct Hroom as [?|Hab]; [by left|right].
    destruct (gap_abut _ _ _ _ _ Hgap Hab Hs) as [(l' & p & -> & Hp)|?]; [|done].
    rewrite chain_end_app in Hlt. simpl in Hlt. lia.
Qed.

Lemma rmfree_try_full mp s a b addr size :
  map_rep mp (s ++ [a; b]) → 0 < addr → 0 < size → addr + size < 2 ^ 32 →
  (∀ x, in_range addr size x → ¬ covers (s ++ [a; b]) x) →
  m_free mp = 0 → ¬ abuts (s ++ [a; b]) addr size →
  ∃ mp', rmfree_try mp size addr =
           Ret (ARetry mp' (m_addr (dropped a b), e_end (dropped a b))) ∧
    map_rep mp' (s ++ [kept a b]) ∧ m_free mp' = 1 ∧ m_want mp' = m_want mp.
Proof.
  intros Hrep Ha Hs Hb Hdis Hf Hna. pose proof (map_rep_segs_ok _ _ Hrep) as Hok.
  destruct (rmfree_try_gap _ _ _ _ Hrep Ha Hs Hb Hdis)
    as (l & r & z & zs & Hgap & Hm & Hz & Hzs & Hlen & Htry).
  destruct (gap_no_abut _ _ _ _ _ Hgap Hna Ha) as [Hlo Hhi].
  destruct Htry as [(l' & p & -> & Hp & _)|[_ ->]].
  { rewrite chain_end_app in Hlo. simpl in Hlo. lia. }
  pose proof (gap_split _ _ _ _ _ Hgap) as Hsp.
  destruct (rm_discard_spec l r s a b z zs) as (z1 & z2 & zs' & Hd & Hz1 & Hz2 & ->);
    [done|by rewrite <-Hsp|done|].
  assert (Hright : rmfree_right mp size addr (rev l) (r ++ z :: zs) =
    (let* (m, lost) := rm_discard (rev l) (r ++ z :: zs) in
     Ret (ARetry (set_m_free (w32 (m_free mp + 1)) (set_m_map m mp)) lost))).
  { unfold rmfree_right. rewrite Hf. destruct r as [|e r]; cbn [app].
    - by rewrite Hz, andb_false_r.
    - specialize (Hhi e r eq_refl). rewrite w32_id by (unfold in_u32; lia).
      by rewrite (proj2 (Z.leb_gt _ _)) by lia. }
  rewrite Hright, Hd, Hf. cbn [rbind].
  eexists. split; [done|]. split; [|done].
  destruct Hrep as (Hc & _ & Hh & Hh' & _). rewrite length_app in Hh. simpl in Hh.
  eapply (map_rep_intro _ _ (z1 :: z2 :: zs)); cbn [m_free m_map h_size set_m_map set_m_free];
    rewrite ?length_app, ?w32_id by (unfold in_u32; lia); cbn [length]; try lia.
  - unfold kept. destruct (m_size a <? m_size b).
    + by apply chain_delete in Hc.
    + change [a; b] with ([a] ++ [b]) in Hc. rewrite app_assoc in Hc.
      apply chain_delete in Hc. by rewrite app_nil_r in Hc.
  - by rewrite <-app_assoc.
  - by repeat constructor.
Qed.

Lemma covers_kept s a b x : covers (s ++ [kept a b]) x → covers (s ++ [a; b]) x.
Proof.
  rewrite !covers_app, !covers_cons. unfold kept. destruct (m_size a <? m_size b); tauto.
Qed.

Lemma rmfree_loop_ok mp segs addr size :
  map_rep mp segs → 2 ≤ h_size mp → 0 < addr → 0 < size → addr + size < 2 ^ 32 →
  (∀ x, in_range addr size x → ¬ covers segs x) →
  ∃ mp' segs' base,
    rmfree_loop 2 mp size addr = Ret (Some mp') ∧ map_rep mp' segs' ∧ m_want mp' = m_want mp ∧
    (∀ x, covers segs' x ↔ covers base x ∨ in_range addr size x) ∧
    (if decide (m_free mp ≠ 0 ∨ abuts segs addr size) then base = segs
     else ∃ s a b, segs = s ++ [a; b] ∧ base = s ++ [kept a b]).
Proof.
  intros Hrep Hh2 Ha Hs Hb Hdis.
  destruct (decide (m_free mp ≠ 0 ∨ abuts segs addr size)) as [Hroom|Hroom].
  - destruct (rmfree_try_ok mp segs addr size) as (mp' & segs' & Htry & Hrep' & Hw & Hx); [done..|].
    exists mp', segs', segs. split_and!; [|done..]. cbn [rmfree_loop]. by rewrite Htry.
  - destruct segs as [|b segs _] using rev_ind.
    { destruct Hrep as (_ & ? & Hh & _). simpl in Hh. lia. }
    destruct segs as [|a s _] using rev_ind.
    { destruct Hrep as (_ & ? & Hh & _). simpl in Hh. lia. }
    rewrite <-app_assoc in *. cbn [app] in *.
    destruct (rmfree_try_full mp s a b addr size) as (mp1 & Htry & Hrep1 & Hf1 & Hw1);
      [done..|lia|tauto|].
    destruct (rmfree_try_ok mp1 (s ++ [kept a b]) addr size)
      as (mp' & segs' & Htry' & Hrep' & Hw & Hx); [done..| |lia|].
    { intros x Hx Hk. by apply (Hdis x), covers_kept. }
    exists mp', segs', (s ++ [kept a b]). split_and!; [|done|congruence|done|eauto].
    cbn [rmfree_loop]. rewrite Htry. cbn [rbind]. by rewrite Htry'.
Qed.

Lemma rmfree_loop_wake mp mp' segs size addr :
  0 < addr → 0 < size < 2 ^ 31 → rmfree_loop 2 mp size addr = Ret (Some mp') → map_rep mp' segs →
  ∃ mp'', rmfree mp size addr = Ret (Some (mp'', truthy (m_want mp'))) ∧ map_rep mp'' segs ∧ m_want mp'' = 0.
Proof.
  intros Ha Hs Hl Hrep. unfold rmfree.
  rewrite (proj2 (Z.eqb_neq addr 0)) by lia. rewrite s32_id by (unfold in_s32; lia).
  rewrite (proj2 (Z.leb_gt size 0)) by lia. cbn [orb]. rewrite Hl. cbn [rbind].
  exists (if truthy (m_want mp') then set_m_want 0 mp' else mp'). unfold truthy.
  by destruct (Z.eqb_spec (m_want mp') 0).
Qed.

(** C1: freeing a range that is not free adds exactly that range to the free units, coalesced, and
    keeps the representation; only when no slot is free and the range abuts no segment is a
    segment lost, the smaller of the last two.  The sleepers are woken when the map is wanted. *)
Theorem rmfree_correct mp segs addr size :
  map_rep mp segs → 2 ≤ h_size mp → 0 < addr → 0 < size < 2 ^ 31 → addr + size < 2 ^ 32 →
  (∀ x, in_range addr size x → ¬ covers segs x) →
  ∃ mp' segs' base,
    rmfree mp size addr = Ret (Some (mp', truthy (m_want mp))) ∧
    map_rep mp' segs' ∧ m_want mp' = 0 ∧
    (∀ x, covers segs' x ↔ covers base x ∨ in_range addr size x) ∧
    (if decide (m_free mp ≠ 0 ∨ abuts segs addr size) then base = segs
     else ∃ s a b, segs = s ++ [a; b] ∧ base = s ++ [kept a b]).
Proof.
  intros Hrep Hh2 Ha Hs Hb Hdis.
  destruct (rmfree_loop_ok mp segs addr size) as (mp1 & segs' & base & Hl & Hrep1 & Hw & Hx & Hbase); [done..|lia|done|done|].
  destruct (rmfree_loop_wake mp mp1 segs' size addr) as (mp' & Hf & Hrep' & Hw'); [done..|].
  rewrite Hw in Hf. by exists mp', segs', base.
Qed.

(** ** Misuse *)

Lemma chain_end_covers lo l x : chain lo l → covers l x → x < chain_end lo l.
Proof. apply chain_all_below. Qed.

Lemma rmfree_try_overlap mp segs addr size x :
  map_rep mp segs → 0 < addr → 0 < size → addr + size < 2 ^ 32 →
  in_range addr size x → covers segs x → rmfree_try mp size addr = Panic.
Proof.
  intros Hrep Ha Hs Hb Hx Hcov. pose proof (map_rep_segs_ok _ _ Hrep) as Hok.
  destruct (map_rep_delims _ _ Hrep) as (z & zs & Hm & Hz & Hzs & Hlen).
  destruct Hrep as (Hc & _).
  destruct (rm_locate_spec addr 0 [] segs z zs) as (l & r & -> & Hl & Hr & Hloc); [done..|].
  unfold rmfree_try. rewrite Hm, Hloc, app_nil_r. cbn [rbind].
  apply chain_app in Hc as [Hcl Hcr]. apply covers_app in Hcov. unfold in_range in Hx.
  assert (Hright : chain_end 0 l ≤ addr → ∃ e tl, r = e :: tl ∧ seg_ok e ∧ m_addr e < addr + size).
  { intros Hle. destruct Hcov as [Hcov|Hcov].
    - pose proof (chain_end_covers _ _ _ Hcl Hcov). lia.
    - destruct r as [|e r]; [by apply covers_nil in Hcov|]. exists e, r. split; [done|].
      apply Forall_app in Hok as [_ Hok]. inversion Hok; subst. split; [done|].
      apply covers_cons in Hcov as [?|Hcov]; [lia|]. destruct Hcr as (? & ? & ? & Hcr).
      pose proof (chain_covers _ _ _ Hcr Hcov). unfold e_end in *. lia. }
  destruct (chain_end_cases 0 l) as [[He ->]|(l' & p & -> & He)].
  - cbn [rev]. destruct Hright as (e & tl & -> & Hok' & Hlt); [lia|]. cbn [app].
    unfold rmfree_right. rewrite (w32_id (addr + size)) by (unfold in_u32; lia).
    rewrite seg_ok_nz, (proj2 (Z.leb_le _ _)), (proj2 (Z.ltb_lt _ _)) by (done || lia). done.
  - rewrite rev_app_distr. cbn [rev app].
    assert (seg_ok p) as Hp.
    { apply Forall_app in Hok as [Hok _]. apply Forall_app in Hok as [_ Hok]. by inversion Hok. }
    unfold rmfree_left. rewrite w32_end by done.
    destruct (Z.leb_spec addr (e_end p)); [destruct (Z.ltb_spec addr (e_end p)); [done|]|];
      (destruct Hright as (e & tl & -> & Hok' & Hlt); [lia|]); cbn [app];
      unfold rmfree_right; rewrite (w32_id (addr + size)) by (unfold in_u32; lia);
      rewrite seg_ok_nz, (proj2 (Z.leb_le _ _)), (proj2 (Z.ltb_lt _ _)) by (done || lia); done.
Qed.

(** [rmfree] panics on address 0, on a size that is not positive as a signed word, and on any
    range that overlaps a free segment. *)
Theorem rmfree_panics mp segs addr size :
  map_rep mp segs → in_u32 addr → in_u32 size → addr + size < 2 ^ 32 →
  addr = 0 ∨ size = 0 ∨ 2 ^ 31 ≤ size ∨ (∃ x, in_range addr size x ∧ covers segs x) →
  rmfree mp size addr = Panic.
Proof.
  unfold in_u32. intros Hrep Ha Hs Hb Hbad. unfold rmfree.
  destruct (Z.eqb_spec addr 0); [done|]. cbn [orb].
  destruct (Z.leb_spec (s32 size) 0) as [|Hpos]; [done|].
  destruct Hbad as [?|[->|[Hbig|(x & Hx & Hcov)]]]; [done|by unfold s32 in Hpos| |].
  - rewrite s32_high in Hpos; lia.
  - unfold in_range in Hx. cbn [rmfree_loop].
    by rewrite (rmfree_try_overlap mp segs addr size x) by (done || lia).
Qed.

(** With a single slot the overflow path of [rmfree] reads [bp - 1] before the
    array. *)
Lemma rmfree_single_slot_fault mp e addr size :
  map_rep mp [e] → h_size mp = 1 → 0 < addr → 0 < size < 2 ^ 31 → addr + size < 2 ^ 32 →
  (∀ x, in_range addr size x → ¬ covers [e] x) → ¬ abuts [e] addr size →
  rmfree mp size addr = Fault.
Proof.
  intros Hrep Hh Ha Hs Hb Hdis Hna. unfold rmfree.
  rewrite (proj2 (Z.eqb_neq addr 0)) by lia. rewrite s32_id by (unfold in_s32; lia).
  rewrite (proj2 (Z.leb_gt size 0)) by lia. cbn [orb rmfree_loop].
  pose proof (map_rep_segs_ok _ _ Hrep) as Hok.
  destruct (rmfree_try_gap mp [e] addr size) as (l & r & z & zs & Hgap & Hm & Hz & Hzs & Hlen & Htry);
    [done|done|lia|done..|].
  destruct (gap_no_abut _ _ _ _ _ Hgap Hna Ha) as [Hlo Hhi].
  destruct Htry as [(l' & p & -> & Hp & _)|[_ ->]].
  { rewrite chain_end_app in Hlo. simpl in Hlo. lia. }
  pose proof (gap_split _ _ _ _ _ Hgap) as Hsp.
  assert (Hd : rm_discard (rev l) (r ++ z :: zs) = Fault).
  { unfold rm_discard. rewrite rm_end_spec; [|rewrite Hsp in Hok; by apply Forall_app in Hok as [_ ?]|done].
    cbn [rbind]. by rewrite <-rev_app_distr, <-Hsp. }
  assert (m_free mp = 0) as Hf by (destruct Hrep as (_ & _ & Hh1 & _); simpl in Hh1; lia).
  unfold rmfree_right. rewrite Hf. destruct r as [|d r]; cbn [app].
  - cbn [app] in Hd. by rewrite Hz, andb_false_r, Z.eqb_refl, Hd.
  - specialize (Hhi d r eq_refl). rewrite w32_id by (unfold in_u32; lia).
    change (d :: r ++ z :: zs) with ((d :: r) ++ z :: zs).
    by rewrite (proj2 (Z.leb_gt _ _)), Hd by lia.
Qed.

(** ** Allocation at an address *)

Lemma rm_holding_spec addr rpre segs z zs :
  Forall seg_ok segs → m_size z = 0 →
  (¬ covers segs addr ∧ rm_holding addr rpre (segs ++ z :: zs) = Ret (rev segs ++ rpre, z :: zs)) ∨
  (∃ l e r, segs = l ++ e :: r ∧ m_addr e ≤ addr < e_end e ∧
     rm_holding addr rpre (segs ++ z :: zs) = Ret (rev l ++ rpre, e :: r ++ z :: zs)).
Proof.
  intros Hok Hz. revert rpre. induction Hok as [|e segs He Hok IH]; intros rpre; simpl.
  - left. split; [apply covers_nil|]. by rewrite Hz.
  - rewrite seg_ok_nz, w32_end by done.
    destruct (Z.leb_spec (m_addr e) addr); [destruct (Z.ltb_spec addr (e_end e))|]; cbn [andb].
    + right. exists [], e, segs. done.
    + destruct (IH (e :: rpre)) as [[Hn ->]|(l & d & r & -> & ? & ->)].
      * left. rewrite covers_cons. split; [intros [?|?]; [lia|done]|by rewrite <-app_assoc].
      * right. exists (e :: l), d, r. simpl. by rewrite <-app_assoc.
    + destruct (IH (e :: rpre)) as [[Hn ->]|(l & d & r & -> & ? & ->)].
      * left. rewrite covers_cons. split; [intros [?|?]; [lia|done]|by rewrite <-app_assoc].
      * right. exists (e :: l), d, r. simpl. by rewrite <-app_assoc.
Qed.

(** [rmget] succeeds on segment [e] of the map. *)
Definition get_ok (mp : rmap) (e : mapent) (addr size : Z) : Prop :=
  m_addr e ≤ addr ∧ addr + size ≤ e_end e ∧
  (m_addr e < addr ∧ addr + size < e_end e → m_free mp ≠ 0).

Lemma chain_same lo segs e e' x :
  chain lo segs → e ∈ segs → e' ∈ segs →
  m_addr e ≤ x < e_end e → m_addr e' ≤ x < e_end e' → e = e'.
Proof.
  revert lo. induction segs as [|d segs IH]; intros lo Hc He He' Hx Hx'; [by apply not_elem_of_nil in He|].
  destruct Hc as (_ & ? & ? & Hc).
  assert (Hcov : ∀ c, c ∈ segs → m_addr c ≤ x < e_end c → e_end d ≤ x).
  { intros c Hin Hcx. pose proof (chain_covers _ _ x Hc) as Hlt.
    assert (covers segs x) as Hs by (exists c; done). specialize (Hlt Hs). lia. }
  apply elem_of_cons in He as [->|He]; apply elem_of_cons in He' as [->|He']; [done|..].
  - specialize (Hcov e' He' Hx'). lia.
  - specialize (Hcov e He Hx). lia.
  - by eapply IH.
Qed.

(** Some units go from one segment, and the map is left with [segs']. *)
Definition taken (mp' : rmap) (segs segs' : list mapent) (addr size : Z) : Prop :=
  map_rep mp' segs' ∧
  ∀ x, (covers segs x ↔ covers segs' x ∨ in_range addr size x) ∧
       (in_range addr size x → ¬ covers segs' x).

(** The middle of a segment goes: two pieces are left. *)
Lemma taken_middle mp mp' l e r addr size zs :
  map_rep mp (l ++ e :: r) → 0 < size → m_addr e < addr → addr + size < e_end e →
  m_map mp' = l ++ Mapent (addr - m_addr e) (m_addr e) ::
    Mapent (e_end e - (addr + size)) (addr + size) :: r ++ zs →
  Forall (λ e, m_size e = 0) zs → h_size mp' = h_size mp → m_free mp' = m_free mp - 1 →
  0 ≤ m_free mp' → length zs = S (Z.to_nat (m_free mp')) →
  ∃ segs', taken mp' (l ++ e :: r) segs' addr size.
Proof.
  intros Hrep Hs Hlo Hhi Hm Hzs Hh Hf Hpos Hlen.
  assert (chain 0 (l ++ e :: r)) as Hc by apply Hrep.
  set (lo := Mapent (addr - m_addr e) (m_addr e)) in *.
  set (hi := Mapent (e_end e - (addr + size)) (addr + size)) in *.
  exists (l ++ [lo; hi] ++ r). split.
  - change (l ++ e :: r) with (l ++ [e] ++ r) in *.
    eapply (rep_edit _ _ l [e] _ r zs); simpl; try done; [|lia].
    apply chain_mid in Hc as (? & ? & ? & ? & Hr). apply chain_mid. unfold lo, hi, e_end in *; simpl.
    unfold e_end; simpl.
    repeat split; [done|lia..|]. by replace (addr + size + _) with (m_addr e + m_size e) by lia.
  - intros x. pose proof (chain_mid_disjoint _ _ _ _ x Hc) as Hd. unfold in_range.
    rewrite covers_app in Hd. simpl. rewrite !covers_app, !covers_cons.
    replace (e_end lo) with addr by (unfold lo, e_end; simpl; lia).
    replace (e_end hi) with (e_end e) by (unfold hi, e_end; simpl; lia).
    unfold lo, hi; simpl. split.
    + destruct (decide (addr ≤ x < addr + size)); intuition lia.
    + intros Hx [?|[?|[?|?]]]; [apply Hd; [lia|by left]|lia|lia|apply Hd; [lia|by right]].
Qed.

(** One end of a segment, or all of it, goes. *)
Lemma taken_end mp mp' l e e' r zs addr size :
  map_rep mp (l ++ e :: r) → m_map mp' = l ++ e' :: r ++ zs →
  Forall (λ e, m_size e = 0) zs → length zs = S (Z.to_nat (m_free mp)) →
  h_size mp' = h_size mp → m_free mp' = m_free mp →
  m_addr e ≤ addr → 0 < size → addr + size ≤ e_end e → 0 < m_size e' →
  (m_addr e = addr ∧ m_addr e' = addr + size ∧ e_end e' = e_end e ∨
   addr + size = e_end e ∧ m_addr e' = m_addr e ∧ e_end e' = addr) →
  ∃ segs', taken mp' (l ++ e :: r) segs' addr size.
Proof.
  intros Hrep Hm Hzs Hlen Hh Hf ? ? ? ? Hcase.
  assert (chain 0 (l ++ e :: r)) as Hc by apply Hrep.
  assert (0 ≤ m_free mp) as ? by apply Hrep.
  exists (l ++ [e'] ++ r). split.
  - change (l ++ e :: r) with (l ++ [e] ++ r) in Hrep.
    eapply (rep_edit _ _ l [e] _ r zs); simpl; try done; [|lia|lia|by rewrite Hf].
    eapply chain_shrink; [..|done]; lia.
  - apply covers_split; [lia..|done|done].
Qed.

Lemma taken_whole mp mp' l e r zs :
  map_rep mp (l ++ e :: r) → m_map mp' = l ++ r ++ zs →
  Forall (λ e, m_size e = 0) zs → length zs = S (Z.to_nat (m_free mp')) →
  h_size mp' = h_size mp → m_free mp' = m_free mp + 1 →
  ∃ segs', taken mp' (l ++ e :: r) segs' (m_addr e) (m_size e).
Proof.
  intros Hrep Hm Hzs Hlen Hh Hf.
  assert (chain 0 (l ++ e :: r)) as Hc by apply Hrep.
  assert (0 ≤ m_free mp) as ? by apply Hrep.
  exists (l ++ [] ++ r). split.
  - change (l ++ e :: r) with (l ++ [e] ++ r) in Hrep.
    eapply (rep_edit _ _ l [e] _ r zs); simpl; try done; [by eapply chain_delete|lia..].
  - by apply covers_delete.
Qed.

(** The result of a successful [rmget]. *)
Definition got (mp : rmap) (segs : list mapent) (addr size : Z) (res : run (rmap * Z)) : Prop :=
  ∃ mp' segs' e, res = Ret (mp', addr) ∧ e ∈ segs ∧ get_ok mp e addr size ∧
    taken mp' segs segs' addr size.

Lemma got_intro mp mp' segs e addr size :
  e ∈ segs → get_ok mp e addr size → (∃ segs', taken mp' segs segs' addr size) →
  got mp segs addr size (Ret (mp', addr)).
Proof. intros ? ? [segs' ?]. by exists mp', segs', e. Qed.

(** [rmget] takes exactly the range asked for out of the segment that holds it, splitting the
    segment when needed, and fails with the map unchanged exactly when no segment holds the range
    or the split needs a slot and none is free. *)
Theorem rmget_correct mp segs addr size :
  map_rep mp segs → 0 < addr → 0 < size < 2 ^ 31 → addr + size < 2 ^ 32 →
  (rmget mp size addr = Ret (mp, 0) ∧ (∀ e, e ∈ segs → ¬ get_ok mp e addr size)) ∨
  got mp segs addr size (rmget mp size addr).
Proof.
  intros Hrep Ha Hs Hb. pose proof (map_rep_segs_ok _ _ Hrep) as Hok.
  destruct (map_rep_delims _ _ Hrep) as (z & zs & Hm & Hz & Hzs & Hlen).
  assert (chain 0 segs) as Hc by apply Hrep.
  assert (0 ≤ m_free mp ∧ m_free mp + zlen segs < 2 ^ 32) as [Hf Hf'].
  { destruct Hrep as (_ & ? & Hh & ? & _). lia. }
  unfold rmget. rewrite s32_id by (unfold in_s32; lia).
  rewrite (proj2 (Z.leb_gt size 0)), Hm by lia.
  destruct (rm_holding_spec addr [] segs z zs) as [[Hn ->]|(l & e & r & -> & Hin & ->)]; [done..| |].
  { left. cbn. rewrite Hz. split; [done|]. intros e He (? & ? & _). apply Hn. exists e.
    split; [done|lia]. }
  rewrite app_nil_r. cbn [rbind].
  assert (e ∈ l ++ e :: r) as Hel by (rewrite elem_of_app, elem_of_cons; tauto).
  pose proof (proj1 (Forall_forall _ _) Hok e Hel) as He.
  rewrite seg_ok_nz, w32_end, (w32_id (addr + size)) by (done || (unfold in_u32; lia)).
  assert (Hfail : ¬ get_ok mp e addr size → ∀ e', e' ∈ l ++ e :: r → ¬ get_ok mp e' addr size).
  { intros Hne e' He' Hget. replace e' with e in Hget; [done|].
    destruct Hget as (? & ? & _). eapply (chain_same 0 _ _ _ addr Hc); [done..|lia]. }
  destruct (Z.ltb_spec (e_end e) (addr + size)).
  { left. split; [done|]. apply Hfail. intros (? & ? & ?). lia. }
  rewrite rev_involutive. apply Forall_app in Hok as [_ Hok]. apply Forall_cons in Hok as [_ Hok].
  destruct (seg_ok_u32 _ He) as (? & ? & ?). destruct He as (? & ? & ?). unfold in_u32 in *.
  rewrite length_app in Hf'. simpl in Hf'.
  destruct (Z.eqb_spec (m_addr e) addr) as [<-|]; [|destruct (Z.eqb_spec (e_end e) (addr + size))].
  - right. destruct (Z.eqb_spec (m_size e) size) as [<-|].
    + rewrite rm_slide_spec by done. cbn [rbind]. rewrite w32_id by (unfold in_u32; lia).
      eapply got_intro; [done|unfold get_ok, e_end; lia|].
      eapply (taken_whole _ _ _ _ _ (z :: z :: zs)); simpl; try done; [by repeat constructor|lia].
    + rewrite !w32_id by (unfold in_u32, e_end in *; lia).
      eapply got_intro; [done|unfold get_ok; lia|].
      eapply (taken_end _ _ _ _ _ _ (z :: zs)); simpl; try done; unfold e_end in *; simpl;
        [by constructor|lia..].
  - right. rewrite !w32_id by (unfold in_u32, e_end in *; lia).
    eapply got_intro; [done|unfold get_ok; lia|].
    eapply (taken_end _ _ _ _ _ _ (z :: zs)); simpl; try done; unfold e_end in *; simpl;
      [by constructor|lia..].
  - destruct (Z.eqb_spec (m_free mp) 0) as [Hf0|].
    { left. split; [done|]. apply Hfail. intros (? & ? & Hmid). apply Hmid; lia. }
    right. destruct zs as [|z2 zs]; [simpl in Hlen; lia|]. apply Forall_cons in Hzs as [Hz2 Hzs].
    rewrite rm_shift_up_spec by done. cbn [rbind]. simpl in Hlen.
    change (m_addr e + m_size e) with (e_end e).
    rewrite !w32_id by (unfold in_u32, e_end in *; lia).
    eapply got_intro; [done|unfold get_ok; lia|].
    eapply (taken_middle _ _ _ _ _ _ _ (Mapent 0 (m_addr z2) :: zs)); simpl; try done;
      try lia; by constructor.
Qed.

(** ** Sleepers *)

(** Threads that use one map: allocations that wait, and frees. *)
Record rmsys := Rmsys { rs_map : rmap; rs_sleepers : gset nat }.

Inductive rm_step : rmsys → rmsys → Prop :=
| step_alloc tid size s mp' addr :
    tid ∉ rs_sleepers s → rmalloc_wait_turn (rs_map s) size = Ret (mp', Some addr) →
    rm_step s (Rmsys mp' (rs_sleepers s))
| step_sleep tid size s mp' :
    tid ∉ rs_sleepers s → rmalloc_wait_turn (rs_map s) size = Ret (mp', None) →
    rm_step s (Rmsys mp' ({[tid]} ∪ rs_sleepers s))
| step_free size addr s mp' woke :
    rmfree (rs_map s) size addr = Ret (Some (mp', woke)) →
    rm_step s (Rmsys mp' (if woke then ∅ else rs_sleepers s)).

Definition rs_inv (s : rmsys) : Prop := rs_sleepers s ≠ ∅ → m_want (rs_map s) ≠ 0.

Lemma rmalloc_locked_want mp size mp' addr :
  rmalloc_locked mp size = Ret (mp', addr) → m_want mp' = m_want mp.
Proof.
  unfold rmalloc_locked. intros H. apply rbind_Ret_inv in H as ([[[? []] ?]|] & _ & H);
    cbn in H; simplify_eq; reflexivity.
Qed.

Lemma rmfree_right_want mp size addr rpre bp a :
  rmfree_right mp size addr rpre bp = Ret a →
  m_want (match a with ADone mp' | ARetry mp' _ => mp' end) = m_want mp.
Proof.
  unfold rmfree_right. destruct bp as [|e tl]; [done|].
  destruct (_ && _).
  - destruct (_ <? _); [done|]. by intros [= <-].
  - destruct (_ =? _).
    + intros H. apply rbind_Ret_inv in H as ([l lost] & _ & [= <-]). done.
    + intros H. apply rbind_Ret_inv in H as (? & _ & [= <-]). done.
Qed.

Lemma rmfree_try_want mp size addr a :
  rmfree_try mp size addr = Ret a →
  m_want (match a with ADone mp' | ARetry mp' _ => mp' end) = m_want mp.
Proof.
  unfold rmfree_try. intros H. apply rbind_Ret_inv in H as ([rpre bp] & _ & H).
  destruct rpre as [|p rpre]; [by apply rmfree_right_want in H|].
  destruct (_ <=? _); [|by apply rmfree_right_want in H].
  unfold rmfree_left in H. destruct (_ <? _); [done|]. destruct bp as [|e bp]; [done|].
  destruct (_ && _); [|by simplify_eq].
  destruct (_ <? _); [done|]. apply rbind_Ret_inv in H as (? & _ & [= <-]). done.
Qed.

Lemma rmfree_loop_want fuel mp size addr mp' :
  rmfree_loop fuel mp size addr = Ret (Some mp') → m_want mp' = m_want mp.
Proof.
  revert mp. induction fuel as [|fuel IH]; intros mp; [done|]. cbn [rmfree_loop].
  intros H. apply rbind_Ret_inv in H as (a & Ha & H). apply rmfree_try_want in Ha.
  destruct a; [by simplify_eq|]. apply IH in H. congruence.
Qed.

(** The size of the array does not change. *)
Lemma rmfree_right_h_size mp size addr rpre bp a :
  rmfree_right mp size addr rpre bp = Ret a →
  h_size (match a with ADone mp' | ARetry mp' _ => mp' end) = h_size mp.
Proof.
  unfold rmfree_right. destruct bp as [|e tl]; [done|].
  destruct (_ && _).
  - destruct (_ <? _); [done|]. by intros [= <-].
  - destruct (_ =? _).
    + intros H. apply rbind_Ret_inv in H as ([l lost] & _ & [= <-]). done.
    + intros H. apply rbind_Ret_inv in H as (? & _ & [= <-]). done.
Qed.

Lemma rmfree_try_h_size mp size addr a :
  rmfree_try mp size addr = Ret a →
  h_size (match a with ADone mp' | ARetry mp' _ => mp' end) = h_size mp.
Proof.
  unfold rmfree_try. intros H. apply rbind_Ret_inv in H as ([rpre bp] & _ & H).
  destruct rpre as [|p rpre]; [by apply rmfree_right_h_size in H|].
  destruct (_ <=? _); [|by apply rmfree_right_h_size in H].
  unfold rmfree_left in H. destruct (_ <? _); [done|]. destruct bp as [|e bp]; [done|].
  destruct (_ && _); [|by simplify_eq].
  destruct (_ <? _); [done|]. apply rbind_Ret_inv in H as (? & _ & [= <-]). done.
Qed.

Lemma rmfree_loop_h_size fuel mp size addr mp' :
  rmfree_loop fuel mp size addr = Ret (Some mp') → h_size mp' = h_size mp.
Proof.
  revert mp. induction fuel as [|fuel IH]; intros mp; [done|]. cbn [rmfree_loop].
  intros H. apply rbind_Ret_inv in H as (a & Ha & H). apply rmfree_try_h_size in Ha.
  destruct a; [by simplify_eq|]. apply IH in H. congruence.
Qed.

Lemma rmfree_h_size mp size addr mp' woke :
  rmfree mp size addr = Ret (Some (mp', woke)) → h_size mp' = h_size mp.
Proof.
  unfold rmfree. destruct (_ || _); [done|]. intros H.
  apply rbind_Ret_inv in H as ([m|] & Hl & H); [|done]. apply rmfree_loop_h_size in Hl.
  destruct (truthy _); injection H as <- _; done.
Qed.

(** What the clients of a map need: a range that is not free can be freed, and no other becomes free. *)
Lemma rmfree_ok mp segs addr size :
  map_rep mp segs → 2 ≤ h_size mp → 0 < addr → 0 < size < 2 ^ 31 → addr + size < 2 ^ 32 →
  (∀ x, in_range addr size x → ¬ covers segs x) →
  ∃ mp' segs', rmfree mp size addr = Ret (Some (mp', truthy (m_want mp))) ∧ map_rep mp' segs' ∧ m_want mp' = 0 ∧
    h_size mp' = h_size mp ∧ ∀ x, covers segs' x → covers segs x ∨ in_range addr size x.
Proof.
  intros Hrep Hh2 Ha Hs Hb Hdis.
  destruct (rmfree_loop_ok mp segs addr size) as (mp1 & segs' & base & Hl & Hrep1 & Hw & Hx & Hbase); [done..|lia|done|done|].
  destruct (rmfree_loop_wake mp mp1 segs' size addr) as (mp' & Hf & Hrep' & Hw'); [done..|].
  rewrite Hw in Hf. exists mp', segs'. split_and!; [done..|by eapply rmfree_h_size|].
  intros x [Hc|?]%Hx; [left|by right]. case_decide; [by subst|].
  destruct Hbase as (s & a & b & -> & ->). by apply covers_kept.
Qed.

Lemma rmfree_woke mp size addr mp' woke :
  rmfree mp size addr = Ret (Some (mp', woke)) → woke = truthy (m_want mp) ∧ m_want mp' = 0.
Proof.
  unfold rmfree. destruct (_ || _); [done|]. intros H.
  apply rbind_Ret_inv in H as ([m|] & Hl & H); [|done]. apply rmfree_loop_want in Hl.
  unfold truthy in *. rewrite Hl in H.
  destruct (Z.eqb_spec (m_want mp) 0); cbn in H; injection H as <- <-; cbn; split; congruence.
Qed.

Lemma rs_inv_step s s' : rs_inv s → rm_step s s' → rs_inv s'.
Proof.
  intros Hi Hst. destruct Hst as [tid size s mp' addr Hn Ht|tid size s mp' Hn Ht|size addr s mp' woke Hf];
    unfold rs_inv in *; cbn [rs_map rs_sleepers].
  - unfold rmalloc_wait_turn in Ht. apply rbind_Ret_inv in Ht as ([m a] & Ha & Ht).
    apply rmalloc_locked_want in Ha.
    destruct (a =? 0); cbn in Ht; [discriminate|]. injection Ht as <- _. by rewrite Ha.
  - unfold rmalloc_wait_turn in Ht. apply rbind_Ret_inv in Ht as ([m a] & Ha & Ht).
    destruct (a =? 0); cbn in Ht; [|discriminate]. injection Ht as <-. done.
  - apply rmfree_woke in Hf as [-> Hw]. unfold truthy.
    destruct (Z.eqb_spec (m_want (rs_map s)) 0); [|done]. simpl. tauto.
Qed.

(** C37: no lost wakeup: in every state reached from one without sleepers, by any interleaving of
    waiting allocations and frees, a free wakes every thread that sleeps on the map. *)
Theorem rmfree_wakes_sleepers s s' size addr mp' woke :
  rs_sleepers s = ∅ → rtc rm_step s s' →
  rmfree (rs_map s') size addr = Ret (Some (mp', woke)) →
  (rs_sleepers s' ≠ ∅ → woke = true) ∧
  rs_sleepers (Rmsys mp' (if woke then ∅ else rs_sleepers s')) = ∅.
Proof.
  intros H0 Hr Hf. assert (rs_inv s') as Hi.
  { assert (rs_inv s) as Hs by (intros Hne; by destruct Hne). clear H0 Hf.
    induction Hr as [|a b c Hab _ IH]; [done|]. apply IH. by eapply rs_inv_step. }
  apply rmfree_woke in Hf as [-> _]. unfold rs_inv, truthy in *. cbn [rs_sleepers].
  destruct (Z.eqb_spec (m_want (rs_map s')) 0); cbn [negb]; [|done].
  destruct (decide (rs_sleepers s' = ∅)); tauto.
Qed.

(** ** Concrete maps *)

Definition demo_map : rmap :=
  Rmap 2 0 4 [Mapent 10 100; Mapent 5 200; Mapent 0 0; Mapent 0 0; Mapent 0 0].
Definition demo_segs : list mapent := [Mapent 10 100; Mapent 5 200].

Lemma demo_rep : map_rep demo_map demo_segs.
Proof.
  eapply (map_rep_intro _ _ [Mapent 0 0; Mapent 0 0; Mapent 0 0]); try done.
  by repeat constructor.
Qed.

Lemma demo_disjoint x : in_range 110 20 x → ¬ covers demo_segs x.
Proof.
  unfold demo_segs, in_range. rewrite !covers_cons. unfold e_end; cbn.
  pose proof (covers_nil x). intuition lia.
Qed.

Lemma rmalloc_first_fit_witness : ∃ mp' a, rmalloc demo_map 8 = Ret (mp', a).
Proof.
  destruct (rmalloc_first_fit demo_map demo_segs 8) as [[H _]|(mp' & _ & _ & e & _ & H & _)];
    [exact demo_rep|lia|eauto..].
Defined.

Lemma rmfree_correct_witness : ∃ mp', rmfree demo_map 20 110 = Ret (Some (mp', false)).
Proof.
  destruct (rmfree_correct demo_map demo_segs 110 20) as (mp' & _ & _ & H & _);
    [exact demo_rep|cbn; lia..|exact demo_disjoint|eauto].
Defined.

Lemma rmfree_panics_witness : rmfree demo_map 20 105 = Panic.
Proof.
  apply (rmfree_panics demo_map demo_segs); [exact demo_rep|unfold in_u32; lia..|].
  do 3 right. exists 106. split; [unfold in_range; lia|].
  exists (Mapent 10 100). unfold demo_segs. split; [left|unfold e_end; cbn; lia].
Defined.

Lemma rmget_correct_witness :
  rmget demo_map 2 104 = Ret (demo_map, 0) ∨ got demo_map demo_segs 104 2 (rmget demo_map 2 104).
Proof.
  destruct (rmget_correct demo_map demo_segs 104 2) as [[H _]|H];
    [exact demo_rep|lia..|by left|by right].
Defined.

(** A sleeper on an exhausted map, woken by the free of its units. *)
Definition demo_wait : rmsys := Rmsys (Rmap 1 1 1 [Mapent 0 0; Mapent 0 0]) {[7%nat]}.

Lemma rmfree_wakes_sleepers_witness : ∃ mp', rmfree (rs_map demo_wait) 4 50 = Ret (Some (mp', true)).
Proof.
  set (s0 := Rmsys (Rmap 1 0 1 [Mapent 0 0; Mapent 0 0]) ∅).
  assert (rtc rm_step s0 demo_wait) as Hr.
  { apply rtc_once. unfold demo_wait. rewrite <-(right_id_L ∅ union {[7%nat]}).
    apply (step_sleep 7 4 s0); [apply not_elem_of_empty|reflexivity]. }
  destruct (rmfree (rs_map demo_wait) 4 50) as [[[mp' woke]|]| |] eqn:E; [|vm_compute in E; discriminate..].
  destruct (rmfree_wakes_sleepers s0 demo_wait 4 50 mp' woke) as [H _]; [reflexivity|exact Hr|exact E|].
  exists mp'. rewrite H; [reflexivity|]. cbn. apply non_empty_singleton_L.
Defined.
