(* ===== verification/Bitmap.v ===== *)
(** * Bitmaps ([uts/common/os/bitmap.c], [sys/bitmap.h])

    A bitmap is a vector of 32-bit words.  [map_bit] reads a bit of the vector;
    the theorems say what the searches find in terms of it.  An [index_t] is a
    [short]: the word index, the bit index and the result of [bt_availbit] wrap
    at 16 bits. *)

From S2P Require Import Prelude.

Definition BT_NBIPUL : Z := 32.
Definition BT_ULSHIFT : Z := 5.
Definition BT_ULMASK : Z := 31.

Definition BT_WIM (bitmap : list Z) (bitindex : Z) : run Z :=
  zget bitmap (Z.shiftr bitindex BT_ULSHIFT).
Definition BT_BIW (bitindex : Z) : Z := Z.shiftl 1 (Z.land bitindex BT_ULMASK).
Definition BT_BITOUL (nbits : Z) : Z := (nbits + BT_NBIPUL - 1) `div` BT_NBIPUL.

Definition BT_TEST (bitmap : list Z) (bitindex : Z) : run bool :=
  let* w := BT_WIM bitmap bitindex in Ret (truthy (Z.land w (BT_BIW bitindex))).
Definition BT_SET (bitmap : list Z) (bitindex : Z) : run (list Z) :=
  let* w := BT_WIM bitmap bitindex in
  zset bitmap (Z.shiftr bitindex BT_ULSHIFT) (Z.lor w (BT_BIW bitindex)).
Definition BT_CLEAR (bitmap : list Z) (bitindex : Z) : run (list Z) :=
  let* w := BT_WIM bitmap bitindex in
  zset bitmap (Z.shiftr bitindex BT_ULSHIFT) (Z.land w (w32 (Z.lnot (BT_BIW bitindex)))).

(** ** Searches *)

(** The word loop of [bt_availbit]: where it breaks.  Each turn reads a word of
    the map, so one more turn than there are words is always enough. *)
Fixpoint bt_availword (fuel : nat) (bitmap : list Z) (wx maxword : Z) : run Z :=
  match fuel with
  | O => Fault
  | S fuel =>
      if wx <=? maxword then
        let* w := zget bitmap wx in
        if negb (w =? 2 ^ 32 - 1) then Ret wx
        else bt_availword fuel bitmap (s16 (wx + 1)) maxword
      else Ret wx
  end.

(** The bit loop: at most the 32 bits of the word. *)
Fixpoint bt_firstclear (fuel : nat) (word bx maxbit bit : Z) : option Z :=
  match fuel with
  | O => None
  | S fuel =>
      if bx <=? maxbit then
        if negb (truthy (Z.land word bit)) then Some bx
        else bt_firstclear fuel word (bx + 1) maxbit (w32 (Z.shiftl bit 1))
      else None
  end.

Definition bt_availbit (bitmap : list Z) (nbits : Z) : run Z :=
  let nbits := w32 (nbits - 1) in
  let maxword := s16 (Z.shiftr nbits BT_ULSHIFT) in
  let* wx := bt_availword (S (length bitmap)) bitmap 0 maxword in
  if wx <=? maxword then
    let maxbit := if wx =? maxword then Z.land nbits BT_ULMASK else BT_NBIPUL - 1 in
    let* word := zget bitmap wx in
    match bt_firstclear 32 word 0 maxbit 1 with
    | Some bx => Ret (s16 (Z.lor (Z.shiftl wx BT_ULSHIFT) bx))
    | None => Ret (-1)
    end
  else Ret (-1).

Definition hb_step (mask k : Z) (hi : Z * Z) : Z * Z :=
  let (h, i) := hi in if truthy (Z.land i mask) then (h + k, Z.shiftr i k) else (h, i).
Definition lb_step (mask k : Z) (hi : Z * Z) : Z * Z :=
  let (h, i) := hi in if negb (truthy (Z.land i mask)) then (h + k, Z.shiftr i k) else (h, i).

Definition highbit (i : Z) : Z :=
  if i =? 0 then i
  else
    let hi := hb_step 0xc 2 (hb_step 0xf0 4 (hb_step 0xff00 8 (hb_step 0xffff0000 16 (1, i)))) in
    if truthy (Z.land hi.2 0x2) then hi.1 + 1 else hi.1.

Definition lowbit (i : Z) : Z :=
  if i =? 0 then i
  else
    let hi := lb_step 0x3 2 (lb_step 0xf 4 (lb_step 0xff 8 (lb_step 0xffff 16 (1, i)))) in
    if negb (truthy (Z.land hi.2 0x1)) then hi.1 + 1 else hi.1.

(** [bt_gethighbit]: the loop walks down from word [wx], a non-negative index. *)
Fixpoint bt_gethighbit (mapp : list Z) (wx : nat) : run Z :=
  let* word := zget mapp (Z.of_nat wx) in
  if word =? 0 then
    match wx with
    | O => Ret (-1)
    | S wx' => bt_gethighbit mapp wx'
    end
  else Ret (Z.lor (Z.shiftl (Z.of_nat wx) BT_ULSHIFT) (highbit word - 1)).

(** The loops of [bt_range]: up to [n] turns from [inx], stopping at a bit equal
    to [stop]. *)
Fixpoint bt_scan (n : nat) (stop : bool) (bitmap : list Z) (inx : Z) : run Z :=
  match n with
  | O => Ret inx
  | S n =>
      let* t := BT_TEST bitmap inx in
      if eqb t stop then Ret inx else bt_scan n stop bitmap (inx + 1)
  end.

(** [bt_range]: the two positions it stores, or [None] when it returns 0. *)
Definition bt_range (bitmap : list Z) (pos1 nbits : Z) : run (option (Z * Z)) :=
  let* inx := bt_scan (Z.to_nat (nbits - pos1)) true bitmap pos1 in
  if inx =? nbits then Ret None
  else
    let* inx2 := bt_scan (Z.to_nat (nbits - inx)) false bitmap inx in
    Ret (Some (inx, w32 (inx2 - 1))).

(** ** Bits of a map *)

Definition map_bit (bitmap : list Z) (i : Z) : bool :=
  match bitmap !! Z.to_nat (i `div` 32) with
  | Some w => Z.testbit w (i `mod` 32)
  | None => false
  end.

(** A map of at least [nbits] bits, made of words. *)
Definition bitmap_ok (bitmap : list Z) (nbits : Z) : Prop :=
  Forall in_u32 bitmap ∧ nbits ≤ 32 * zlen bitmap.

Lemma BIW_index i : 0 ≤ i → Z.land i BT_ULMASK = i `mod` 32.
Proof. intros. change BT_ULMASK with (Z.ones 5). by rewrite Z.land_ones. Qed.

Lemma bitmap_ok_word bitmap nbits i :
  bitmap_ok bitmap nbits → 0 ≤ i < nbits →
  ∃ w, bitmap !! Z.to_nat (i `div` 32) = Some w ∧ in_u32 w ∧ zget bitmap (i `div` 32) = Ret w.
Proof.
  intros [Hall Hlen] Hi. destruct (zget_in bitmap (i `div` 32)) as (w & Hw & Hg).
  { split; [apply Z.div_pos; lia|]. apply Z.div_lt_upper_bound; lia. }
  exists w. split_and!; [done| |done]. by eapply Forall_lookup_1.
Qed.

Lemma BT_TEST_spec bitmap nbits i :
  bitmap_ok bitmap nbits → 0 ≤ i < nbits → BT_TEST bitmap i = Ret (map_bit bitmap i).
Proof.
  intros Hok Hi. destruct (bitmap_ok_word _ _ _ Hok Hi) as (w & Hw & _ & Hg).
  unfold BT_TEST, BT_WIM, BT_BIW, BT_ULSHIFT. rewrite shiftr_div by lia.
  change (2 ^ 5) with 32. rewrite Hg. cbn [rbind]. rewrite BIW_index by lia.
  rewrite truthy_land_bit by (apply Z.mod_pos_bound; lia).
  unfold map_bit. by rewrite Hw.
Qed.

(** Storing a word. *)
Lemma map_bit_insert bitmap wx w i : 0 ≤ i → 0 ≤ wx → wx < zlen bitmap →
  map_bit (<[Z.to_nat wx := w]> bitmap) i = if i `div` 32 =? wx then Z.testbit w (i `mod` 32) else map_bit bitmap i.
Proof.
  intros Hi Hwx Hlen. unfold map_bit. pose proof (Z.div_pos i 32 Hi ltac:(lia)).
  destruct (Z.eqb_spec (i `div` 32) wx) as [<-|Hne].
  - by rewrite list_lookup_insert_eq by lia.
  - by rewrite list_lookup_insert_ne by lia.
Qed.

Lemma same_bit i j : i `div` 32 = j `div` 32 → (j `mod` 32 =? i `mod` 32) = (j =? i).
Proof.
  intros Hd. pose proof (Z_div_mod_eq_full i 32). pose proof (Z_div_mod_eq_full j 32).
  destruct (Z.eqb_spec (j `mod` 32) (i `mod` 32)), (Z.eqb_spec j i); lia || congruence.
Qed.

Lemma bits_u32 w : 0 ≤ w → (∀ n, 32 ≤ n → Z.testbit w n = false) → in_u32 w.
Proof.
  intros Hw Hb. split; [done|]. destruct (Z.eq_dec w 0) as [->|Hz]; [done|].
  apply Z.log2_lt_pow2; [lia|]. apply Znot_ge_lt. intros Hge. pose proof (Z.bit_log2 w ltac:(lia)) as Hl.
  rewrite Hb in Hl by lia. done.
Qed.

Lemma u32_high w n : in_u32 w → 32 ≤ n → Z.testbit w n = false.
Proof. intros Hw Hn. rewrite <-(Z.mod_small w (2 ^ 32)) by apply Hw. apply Z.mod_pow2_bits_high. lia. Qed.

Lemma BIW_bit i n : 0 ≤ i → 0 ≤ n → Z.testbit (BT_BIW i) n = (n =? i `mod` 32).
Proof.
  intros. unfold BT_BIW. rewrite BIW_index, Z.shiftl_1_l, Z.pow2_bits_eqb by (done || apply Z.mod_pos_bound; lia).
  apply Z.eqb_sym.
Qed.

Lemma bt_store bitmap nbits i w :
  bitmap_ok bitmap nbits → 0 ≤ i → i < nbits → in_u32 w →
  zset bitmap (Z.shiftr i BT_ULSHIFT) w = Ret (<[Z.to_nat (i `div` 32) := w]> bitmap) ∧
  bitmap_ok (<[Z.to_nat (i `div` 32) := w]> bitmap) nbits.
Proof.
  intros [Hall Hlen] Hi Hn Hw. unfold BT_ULSHIFT. rewrite shiftr_div by lia. change (2 ^ 5) with 32.
  assert (0 ≤ i `div` 32 < zlen bitmap) as Hr.
  { split; [apply Z.div_pos; lia|]. apply Z.div_lt_upper_bound; lia. }
  split; [by apply zset_in|]. split; [by apply Forall_insert|by rewrite length_insert].
Qed.

Lemma BT_SET_spec bitmap nbits i : bitmap_ok bitmap nbits → 0 ≤ i → i < nbits →
  ∃ m, BT_SET bitmap i = Ret m ∧ bitmap_ok m nbits ∧
    ∀ j, 0 ≤ j → map_bit m j = (j =? i) || map_bit bitmap j.
Proof.
  intros Hok Hi Hn. destruct (bitmap_ok_word bitmap nbits i Hok) as (w & Hl & Hw & Hg); [lia|].
  unfold BT_SET, BT_WIM. replace (zget bitmap (Z.shiftr i BT_ULSHIFT)) with (Ret w).
  2: { unfold BT_ULSHIFT. rewrite shiftr_div by lia. by rewrite <-Hg. }
  cbn [rbind]. destruct (bt_store bitmap nbits i (Z.lor w (BT_BIW i)) Hok Hi Hn) as [-> Hok'].
  { apply bits_u32; [apply Z.lor_nonneg; split; [apply Hw|]|].
    - unfold BT_BIW. apply Z.shiftl_nonneg. lia.
    - intros n Hn'. rewrite Z.lor_spec, u32_high, BIW_bit by (done || lia). simpl.
      apply Z.eqb_neq. pose proof (Z.mod_pos_bound i 32). lia. }
  eexists. split; [done|]. split; [done|]. intros j Hj. destruct Hok as [_ Hlen].
  rewrite map_bit_insert; [|done|apply Z.div_pos; lia|apply Z.div_lt_upper_bound; lia].
  destruct (Z.eqb_spec (j `div` 32) (i `div` 32)) as [E|E].
  - rewrite Z.lor_spec, BIW_bit, same_bit by (done || apply Z.mod_pos_bound; lia).
    rewrite orb_comm. f_equal. unfold map_bit. by rewrite E, Hl.
  - destruct (Z.eqb_spec j i) as [->|]; done.
Qed.

Lemma BT_CLEAR_spec bitmap nbits i : bitmap_ok bitmap nbits → 0 ≤ i → i < nbits →
  ∃ m, BT_CLEAR bitmap i = Ret m ∧ bitmap_ok m nbits ∧
    ∀ j, 0 ≤ j → map_bit m j = negb (j =? i) && map_bit bitmap j.
Proof.
  intros Hok Hi Hn. destruct (bitmap_ok_word bitmap nbits i Hok) as (w & Hl & Hw & Hg); [lia|].
  unfold BT_CLEAR, BT_WIM. replace (zget bitmap (Z.shiftr i BT_ULSHIFT)) with (Ret w).
  2: { unfold BT_ULSHIFT. rewrite shiftr_div by lia. by rewrite <-Hg. }
  cbn [rbind].
  destruct (bt_store bitmap nbits i (Z.land w (w32 (Z.lnot (BT_BIW i)))) Hok Hi Hn) as [-> Hok'].
  { apply bits_u32; [apply Z.land_nonneg; left; apply Hw|].
    intros n Hn'. by rewrite Z.land_spec, u32_high by (done || lia). }
  eexists. split; [done|]. split; [done|]. intros j Hj. destruct Hok as [_ Hlen].
  rewrite map_bit_insert; [|done|apply Z.div_pos; lia|apply Z.div_lt_upper_bound; lia].
  destruct (Z.eqb_spec (j `div` 32) (i `div` 32)) as [E|E].
  - pose proof (Z.mod_pos_bound j 32 ltac:(lia)). unfold w32.
    rewrite Z.land_spec, Z.mod_pow2_bits_low, Z.lnot_spec, BIW_bit, same_bit by (done || lia).
    rewrite andb_comm. f_equal. unfold map_bit. by rewrite E, Hl.
  - destruct (Z.eqb_spec j i) as [->|]; done.
Qed.

(** ** The searches find what they say *)

Definition full_word (bitmap : list Z) (j : Z) : Prop := bitmap !! Z.to_nat j = Some (2 ^ 32 - 1).

Lemma bt_availword_spec fuel bitmap wx maxword :
  0 ≤ wx ≤ maxword + 1 → maxword < zlen bitmap → maxword ≤ 2 ^ 15 - 2 →
  maxword - wx + 1 < Z.of_nat fuel →
  ∃ wx', bt_availword fuel bitmap wx maxword = Ret wx' ∧ wx ≤ wx' ≤ maxword + 1 ∧
    (∀ j, wx ≤ j < wx' → full_word bitmap j) ∧
    (wx' ≤ maxword → ∃ w, bitmap !! Z.to_nat wx' = Some w ∧ w ≠ 2 ^ 32 - 1).
Proof.
  revert wx. induction fuel as [|fuel IH]; intros wx Hwx Hlen Hmax Hfuel; [lia|].
  cbn [bt_availword]. destruct (Z.leb_spec wx maxword).
  - destruct (zget_in bitmap wx) as (w & Hw & ->); [lia|]. cbn [rbind].
    destruct (Z.eqb_spec w (2 ^ 32 - 1)) as [->|Hne]; cbn [negb].
    + rewrite s16_id by lia.
      destruct (IH (wx + 1)) as (wx' & -> & Hr & Hfull & Hw'); [lia..|].
      exists wx'. split; [done|]. split; [lia|]. split; [|done].
      intros j Hj. destruct (decide (j = wx)) as [->|]; [done|]. apply Hfull. lia.
    + exists wx. split_and!; [done|lia|lia|intros j Hj; lia|eauto].
  - exists wx. split_and!; [done|lia|lia|intros j Hj; lia|lia].
Qed.

Lemma bt_firstclear_spec fuel word bx maxbit :
  0 ≤ bx → maxbit < 32 → maxbit - bx < Z.of_nat fuel →
  (∀ i, 0 ≤ i < bx → Z.testbit word i = true) →
  match bt_firstclear fuel word bx maxbit (w32 (Z.shiftl 1 bx)) with
  | Some b => bx ≤ b ≤ maxbit ∧ Z.testbit word b = false ∧ ∀ i, 0 ≤ i < b → Z.testbit word i = true
  | None => ∀ i, 0 ≤ i ≤ maxbit → Z.testbit word i = true
  end.
Proof.
  revert bx. induction fuel as [|fuel IH]; intros bx Hbx Hmax Hfuel Hset; cbn [bt_firstclear].
  - intros i Hi. apply Hset. lia.
  - destruct (Z.leb_spec bx maxbit).
    + rewrite (w32_id (Z.shiftl 1 bx)).
      2: { rewrite Z.shiftl_1_l. unfold in_u32. split; [lia|]. apply Z.pow_lt_mono_r; lia. }
      rewrite truthy_land_bit by done. destruct (Z.testbit word bx) eqn:Hbit; cbn [negb].
      * rewrite Z.shiftl_shiftl by done. specialize (IH (bx + 1)).
        assert (∀ i, 0 ≤ i < bx + 1 → Z.testbit word i = true) as Hset'.
        { intros i Hi. destruct (decide (i = bx)) as [->|]; [done|]. apply Hset. lia. }
        specialize (IH ltac:(lia) Hmax ltac:(lia) Hset').
        destruct (bt_firstclear _ _ _ _ _); [|done]. destruct IH as (? & ? & ?).
        split; [lia|done].
      * split; [lia|done].
    + intros i Hi. apply Hset. lia.
Qed.

Lemma full_word_bits bitmap j i :
  full_word bitmap j → i `div` 32 = j → 0 ≤ i → map_bit bitmap i = true.
Proof.
  intros Hf <- Hi. unfold map_bit. rewrite Hf. change (2 ^ 32 - 1) with (Z.ones 32).
  apply Z.ones_spec_low. apply Z.mod_pos_bound. lia.
Qed.

Lemma full_words_before bitmap wx i :
  (∀ j, 0 ≤ j < wx → full_word bitmap j) → 0 ≤ i < 32 * wx → map_bit bitmap i = true.
Proof.
  intros Hfull Hi. eapply full_word_bits; [apply (Hfull (i `div` 32))|done|lia].
  split; [apply Z.div_pos; lia|]. apply Z.div_lt_upper_bound; lia.
Qed.

Lemma map_bit_word bitmap wx w b :
  0 ≤ wx → bitmap !! Z.to_nat wx = Some w → 0 ≤ b < 32 →
  map_bit bitmap (wx * 32 + b) = Z.testbit w b.
Proof.
  intros Hwx Hlk Hb. unfold map_bit.
  rewrite Z.div_add_l, (Z.div_small b 32), Z.add_0_r, Hlk by lia.
  by rewrite Z.add_comm, Z_mod_plus_full, Z.mod_small by lia.
Qed.

(** Every bit below [32 * wx], then the bits of word [wx] up to [b]. *)
Lemma bits_upto bitmap wx w b :
  0 ≤ wx → bitmap !! Z.to_nat wx = Some w → b ≤ 32 →
  (∀ j, 0 ≤ j < wx → full_word bitmap j) → (∀ i, 0 ≤ i < b → Z.testbit w i = true) →
  ∀ i, 0 ≤ i < wx * 32 + b → map_bit bitmap i = true.
Proof.
  intros Hwx Hlk Hb Hfull Hset i Hi. destruct (decide (i < 32 * wx)).
  - eapply full_words_before; [done|lia].
  - replace i with (wx * 32 + (i - wx * 32)) by lia.
    rewrite (map_bit_word _ _ w) by (done || lia). apply Hset. lia.
Qed.

(** C39: [bt_availbit] returns the least index below [nbits] whose bit is clear, and -1 exactly when
    every bit is set, for maps of up to 2^15 bits (the range of [index_t]); it reads only the map. *)
Theorem bt_availbit_least bitmap nbits :
  bitmap_ok bitmap nbits → 0 < nbits ≤ 2 ^ 15 →
  ∃ r, bt_availbit bitmap nbits = Ret r ∧
    ((r = -1 ∧ ∀ i, 0 ≤ i < nbits → map_bit bitmap i = true) ∨
     (0 ≤ r < nbits ∧ map_bit bitmap r = false ∧ ∀ i, 0 ≤ i < r → map_bit bitmap i = true)).
Proof.
  intros [Hall Hlen] Hn. unfold bt_availbit. unfold BT_ULSHIFT, BT_NBIPUL.
  rewrite (w32_id (nbits - 1)), shiftr_div by (unfold in_u32; lia). change (2 ^ 5) with 32.
  assert (0 ≤ (nbits - 1) `div` 32 < 1024) as Hmw.
  { split; [apply Z.div_pos; lia|]. apply Z.div_lt_upper_bound; lia. }
  rewrite s16_id by lia. rewrite BIW_index by lia.
  pose proof (Z.div_mod (nbits - 1) 32 ltac:(lia)) as Hdm.
  pose proof (Z.mod_pos_bound (nbits - 1) 32 ltac:(lia)) as Hmb.
  set (mw := (nbits - 1) `div` 32) in *. set (mb := (nbits - 1) `mod` 32) in *.
  destruct (bt_availword_spec (S (length bitmap)) bitmap 0 mw) as (wx & -> & Hwx & Hfull & Hw);
    [lia..|]. cbn [rbind].
  destruct (Z.leb_spec wx mw).
  2: { exists (-1). split; [done|]. left. split; [done|]. intros i Hi.
       eapply full_words_before; [done|lia]. }
  destruct (Hw ltac:(lia)) as (w & Hlk & Hne). rewrite (zget_ok _ _ w) by (done || lia). cbn [rbind].
  change (32 - 1) with 31. set (maxbit := if wx =? mw then mb else 31).
  pose proof (bt_firstclear_spec 32 w 0 maxbit ltac:(lia)) as Hfc.
  assert (maxbit < 32) as Hm by (unfold maxbit; destruct (wx =? mw); lia).
  specialize (Hfc Hm ltac:(lia) ltac:(intros; lia)). change (w32 (Z.shiftl 1 0)) with 1 in Hfc.
  destruct (bt_firstclear 32 w 0 maxbit 1) as [b|].
  - destruct Hfc as (Hb & Hclr & Hset). rewrite lor_shiftl_add by lia. change (2 ^ 5) with 32.
    assert (wx * 32 + b < nbits) as Hlt by (unfold maxbit in Hb; destruct (Z.eqb_spec wx mw); lia).
    rewrite s16_id by lia. eexists. split; [done|]. right. split; [lia|].
    rewrite (map_bit_word _ _ w) by (done || lia). split; [done|].
    eapply bits_upto; [lia|done|lia|done|done].
  - exists (-1). split; [done|]. left. split; [done|]. intros i Hi.
    destruct (decide (wx = mw)).
    + eapply (bits_upto _ wx w (mb + 1)); [lia|done|lia|done| |lia].
      intros k Hk. apply Hfc. unfold maxbit. rewrite (proj2 (Z.eqb_eq wx mw)); lia.
    + exfalso. apply Hne. pose proof (Forall_lookup_1 _ _ _ _ Hall Hlk) as Hu. unfold in_u32 in Hu.
      change (2 ^ 32 - 1) with (Z.ones 32). apply all_ones_bits; [lia|done|].
      intros k Hk. apply Hfc. unfold maxbit. rewrite (proj2 (Z.eqb_neq wx mw)); lia.
Qed.

Lemma bt_scan_spec n stop bitmap nbits inx :
  bitmap_ok bitmap nbits → 0 ≤ inx → inx + Z.of_nat n ≤ nbits →
  ∃ r, bt_scan n stop bitmap inx = Ret r ∧ inx ≤ r ≤ inx + Z.of_nat n ∧
    (∀ i, inx ≤ i < r → map_bit bitmap i = negb stop) ∧
    (r < inx + Z.of_nat n → map_bit bitmap r = stop).
Proof.
  intros Hok. revert inx. induction n as [|n IH]; intros inx Hi Hn.
  - exists inx. cbn. split_and!; [done|lia|lia|intros; lia|lia].
  - cbn [bt_scan]. rewrite (BT_TEST_spec _ nbits) by (done || lia). cbn [rbind].
    destruct (eqb (map_bit bitmap inx) stop) eqn:Hb.
    + apply eqb_prop in Hb. exists inx. split_and!; [done|lia|lia|intros; lia|done].
    + apply eqb_false_iff in Hb.
      destruct (IH (inx + 1)) as (r & -> & Hr & Hbef & Hat); [lia..|].
      exists r. split_and!; [done|lia|lia| |intros; apply Hat; lia].
      intros i Hi'. destruct (decide (i = inx)) as [->|]; [|apply Hbef; lia].
      by destruct (map_bit bitmap inx), stop.
Qed.

(** [bt_range] finds the first set bit at or after [pos1] and the last bit of the run of set
    bits it starts, and returns 0 exactly when no bit in range is set. *)
Theorem bt_range_maximal_run bitmap pos1 nbits :
  bitmap_ok bitmap nbits → 0 ≤ pos1 ≤ nbits → nbits < 2 ^ 32 →
  (bt_range bitmap pos1 nbits = Ret None ∧ ∀ i, pos1 ≤ i < nbits → map_bit bitmap i = false) ∨
  (∃ p1 p2, bt_range bitmap pos1 nbits = Ret (Some (p1, p2)) ∧ pos1 ≤ p1 ≤ p2 ∧ p2 < nbits ∧
     (∀ i, pos1 ≤ i < p1 → map_bit bitmap i = false) ∧
     (∀ i, p1 ≤ i ≤ p2 → map_bit bitmap i = true) ∧
     (p2 + 1 < nbits → map_bit bitmap (p2 + 1) = false)).
Proof.
  intros Hok Hp Hn. unfold bt_range.
  destruct (bt_scan_spec (Z.to_nat (nbits - pos1)) true bitmap nbits pos1)
    as (p1 & -> & Hp1 & Hbef & Hat); [done|lia..|]. cbn [rbind negb] in *.
  destruct (Z.eqb_spec p1 nbits) as [->|].
  { left. done. }
  destruct (bt_scan_spec (Z.to_nat (nbits - p1)) false bitmap nbits p1)
    as (p2 & -> & Hp2 & Hbef2 & Hat2); [done|lia..|]. cbn [rbind negb] in *.
  assert (p1 ≠ p2) as Hne.
  { intros <-. assert (map_bit bitmap p1 = true) by (apply Hat; lia).
    assert (map_bit bitmap p1 = false) by (apply Hat2; lia). congruence. }
  right. exists p1, (p2 - 1). rewrite w32_id by (unfold in_u32; lia).
  split_and!; [done|lia..|done| |].
  - intros i Hi. apply Hbef2. lia.
  - replace (p2 - 1 + 1) with p2 by lia. intros. apply Hat2. lia.
Qed.

(** ** Highest and lowest bits *)

(** The test of a halving step looks at the upper half of the field. *)
Lemma upper_half_test k i :
  0 < k → 0 ≤ i < 2 ^ (2 * k) → truthy (Z.land i (Z.shiftl (Z.ones k) k)) = (2 ^ k <=? i).
Proof.
  intros Hk Hi.
  assert (Z.land i (Z.shiftl (Z.ones k) k) = (i `div` 2 ^ k) * 2 ^ k) as ->.
  { rewrite <-(Z.shiftr_div_pow2 i k), <-Z.shiftl_mul_pow2 by lia.
    apply Z.bits_inj'. intros n Hn. rewrite Z.land_spec, !Z.shiftl_spec by done.
    destruct (decide (n < k)).
    - rewrite !(Z.testbit_neg_r _ (n - k)) by lia. apply andb_false_r.
    - rewrite Z.shiftr_spec by lia. replace (n - k + k) with n by lia.
      destruct (decide (n - k < k)).
      + by rewrite Z.ones_spec_low, andb_true_r by lia.
      + rewrite <-(Z.mod_small i (2 ^ (2 * k))), Z.mod_pow2_bits_high by lia. done. }
  pose proof (Z.pow_pos_nonneg 2 k ltac:(lia) ltac:(lia)).
  destruct (Z.leb_spec (2 ^ k) i).
  - apply truthy_true. assert (1 ≤ i `div` 2 ^ k) by (apply Z.div_le_lower_bound; lia). nia.
  - apply truthy_false. rewrite Z.div_small by lia. done.
Qed.

Lemma hb_step_spec k mask h i :
  0 < k → mask = Z.shiftl (Z.ones k) k → 0 < i < 2 ^ (2 * k) →
  ∃ h' i', hb_step mask k (h, i) = (h', i') ∧ 0 < i' < 2 ^ k ∧ h' + Z.log2 i' = h + Z.log2 i.
Proof.
  intros Hk -> Hi. unfold hb_step. rewrite upper_half_test by lia.
  destruct (Z.leb_spec (2 ^ k) i).
  - exists (h + k), (Z.shiftr i k). split; [done|]. rewrite Z.log2_shiftr by lia.
    assert (k ≤ Z.log2 i) by (apply Z.log2_le_pow2; lia).
    rewrite Z.shiftr_div_pow2 by lia. split; [|lia]. split.
    + assert (1 ≤ i `div` 2 ^ k) by (apply Z.div_le_lower_bound; lia). lia.
    + apply Z.div_lt_upper_bound; [lia|]. rewrite <-Z.pow_add_r by lia.
      replace (k + k) with (2 * k) by lia. lia.
  - exists h, i. split; [done|]. split; [lia|done].
Qed.

Lemma highbit_spec i : in_u32 i → highbit i = if i =? 0 then 0 else Z.log2 i + 1.
Proof.
  unfold in_u32, highbit. intros Hi. destruct (Z.eqb_spec i 0) as [->|]; [done|].
  destruct (hb_step_spec 16 0xffff0000 1 i) as (h1 & i1 & -> & ? & ?); [lia|done|lia|].
  destruct (hb_step_spec 8 0xff00 h1 i1) as (h2 & i2 & -> & ? & ?); [lia|done|lia|].
  destruct (hb_step_spec 4 0xf0 h2 i2) as (h3 & i3 & -> & ? & ?); [lia|done|lia|].
  destruct (hb_step_spec 2 0xc h3 i3) as (h4 & i4 & -> & Hi4 & ?); [lia|done|lia|].
  cbn [fst snd].
  assert (i4 = 1 ∨ i4 = 2 ∨ i4 = 3) as [-> | [-> | ->]] by (change (2 ^ 2) with 4 in Hi4; lia).
  - change (truthy (Z.land 1 2)) with false. cbv iota. change (Z.log2 1) with 0 in *. lia.
  - change (truthy (Z.land 2 2)) with true. cbv iota. change (Z.log2 2) with 1 in *. lia.
  - change (truthy (Z.land 3 2)) with true. cbv iota. change (Z.log2 3) with 1 in *. lia.
Qed.

(** What the search reports when it stops in the words up to [k]. *)
Definition highest_upto (bitmap : list Z) (k r : Z) : Prop :=
  (r = -1 ∧ ∀ i, 0 ≤ i < 32 * (k + 1) → map_bit bitmap i = false) ∨
  (0 ≤ r < 32 * (k + 1) ∧ map_bit bitmap r = true ∧
   ∀ i, r < i < 32 * (k + 1) → map_bit bitmap i = false).

Lemma highest_in_word bitmap k w :
  0 ≤ k → bitmap !! Z.to_nat k = Some w → in_u32 w → w ≠ 0 →
  highest_upto bitmap k (Z.lor (Z.shiftl k BT_ULSHIFT) (highbit w - 1)).
Proof.
  intros Hk Hw Hu Hne. rewrite highbit_spec, (proj2 (Z.eqb_neq w 0)) by done.
  replace (Z.log2 w + 1 - 1) with (Z.log2 w) by lia. unfold in_u32 in Hu.
  pose proof (Z.log2_nonneg w). assert (Z.log2 w < 32) by (apply Z.log2_lt_pow2; lia).
  unfold BT_ULSHIFT. rewrite lor_shiftl_add by lia. change (2 ^ 5) with 32.
  right. split; [lia|]. rewrite (map_bit_word _ _ w) by (done || lia).
  split; [apply Z.bit_log2; lia|]. intros i Hi. replace i with (k * 32 + (i - k * 32)) by lia.
  rewrite (map_bit_word _ _ w) by (done || lia). apply Z.bits_above_log2; lia.
Qed.

Lemma zero_word bitmap k i :
  0 ≤ k → bitmap !! Z.to_nat k = Some 0 → 32 * k ≤ i < 32 * (k + 1) → map_bit bitmap i = false.
Proof.
  intros Hk Hw Hi. replace i with (k * 32 + (i - k * 32)) by lia.
  rewrite (map_bit_word _ _ 0) by (done || lia). apply Z.bits_0.
Qed.

(** [bt_gethighbit] gives the position of the highest set bit in the words up to [wx], and -1
    exactly when all of them are 0; the binary search of [highbit] is the integer logarithm. *)
Lemma bt_gethighbit_spec bitmap wx nbits :
  bitmap_ok bitmap nbits → 32 * (Z.of_nat wx + 1) ≤ nbits →
  ∃ r, bt_gethighbit bitmap wx = Ret r ∧ highest_upto bitmap (Z.of_nat wx) r.
Proof.
  intros [Hall Hlen]. induction wx as [|wx IH]; intros Hn; cbn [bt_gethighbit].
  - destruct (zget_in bitmap (Z.of_nat 0)) as (w & Hw & ->); [lia|]. cbn [rbind].
    pose proof (Forall_lookup_1 _ _ _ _ Hall Hw) as Hu.
    destruct (Z.eqb_spec w 0) as [->|Hne]; [|eexists; split; [done|by apply highest_in_word]].
    exists (-1). split; [done|]. left. split; [done|]. intros i Hi. by apply (zero_word _ 0).
  - destruct (zget_in bitmap (Z.of_nat (S wx))) as (w & Hw & ->); [lia|]. cbn [rbind].
    pose proof (Forall_lookup_1 _ _ _ _ Hall Hw) as Hu.
    destruct (Z.eqb_spec w 0) as [->|Hne]; [|eexists; split; [done|apply highest_in_word; [lia|done..]]].
    destruct IH as (r & -> & Hr); [lia|]. exists r. split; [done|].
    assert (∀ i, 32 * Z.of_nat (S wx) ≤ i < 32 * (Z.of_nat (S wx) + 1) → map_bit bitmap i = false) as Hz.
    { intros i Hi. by apply (zero_word _ (Z.of_nat (S wx))); [lia|..]. }
    destruct Hr as [[-> Hb]|(Hr & Hs & Hb)]; [left|right]; split_and!; try done; try lia;
      intros i Hi; (destruct (decide (i < 32 * Z.of_nat (S wx))); [apply Hb|apply Hz]; lia).
Qed.

(** Lowest bit: each step keeps the lowest set bit of the rest. *)
Definition low_bit (i n : Z) : Prop :=
  0 ≤ n ∧ Z.testbit i n = true ∧ ∀ m, 0 ≤ m < n → Z.testbit i m = false.

Lemma lb_step_spec k h i n :
  0 < k → 0 ≤ i → low_bit i n → n < 2 * k →
  ∃ h' i' n', lb_step (Z.ones k) k (h, i) = (h', i') ∧ 0 ≤ i' ∧ low_bit i' n' ∧ n' < k ∧ h' + n' = h + n.
Proof.
  intros Hk Hi (Hn & Hbit & Hlow) Hlt. unfold lb_step. rewrite Z.land_ones by lia.
  destruct (truthy (i `mod` 2 ^ k)) eqn:E; cbn [negb].
  - exists h, i, n. split_and!; try done. apply truthy_true in E.
    apply Znot_ge_lt. intros Hge. apply E. apply Z.bits_inj_0. intros m.
    destruct (decide (m < 0)); [by apply Z.testbit_neg_r|]. destruct (decide (m < k)).
    + rewrite Z.mod_pow2_bits_low by lia. apply Hlow. lia.
    + apply Z.mod_pow2_bits_high. lia.
  - apply truthy_false in E. assert (k ≤ n) as Hge.
    { apply Znot_gt_le. intros Hgt. assert (Z.testbit (i `mod` 2 ^ k) n = true) as Hb.
      { by rewrite Z.mod_pow2_bits_low by lia. } by rewrite E, Z.bits_0 in Hb. }
    exists (h + k), (Z.shiftr i k), (n - k). split; [done|]. split; [by apply Z.shiftr_nonneg|].
    split; [|lia]. split; [lia|]. split.
    + rewrite Z.shiftr_spec by lia. by replace (n - k + k) with n by lia.
    + intros m Hm. rewrite Z.shiftr_spec by lia. apply Hlow. lia.
Qed.

Lemma lowbit_spec i n : low_bit i n → in_u32 i → lowbit i = n + 1.
Proof.
  intros Hl [Hi0 Hi]. assert (n < 32) as Hn.
  { destruct Hl as (? & Hb & _). apply Znot_ge_lt. intros Hge.
    rewrite <-(Z.mod_small i (2 ^ 32)), Z.mod_pow2_bits_high in Hb by lia. done. }
  unfold lowbit. destruct (Z.eqb_spec i 0) as [->|].
  { destruct Hl as (_ & Hb & _). by rewrite Z.bits_0 in Hb. }
  destruct (lb_step_spec 16 1 i n) as (h1 & i1 & n1 & E1 & ? & ? & ? & ?); [lia|done|done|lia|].
  destruct (lb_step_spec 8 h1 i1 n1) as (h2 & i2 & n2 & E2 & ? & ? & ? & ?); [lia|done|done|lia|].
  destruct (lb_step_spec 4 h2 i2 n2) as (h3 & i3 & n3 & E3 & ? & ? & ? & ?); [lia|done|done|lia|].
  destruct (lb_step_spec 2 h3 i3 n3) as (h4 & i4 & n4 & E4 & ? & Hl4 & ? & ?); [lia|done|done|lia|].
  change 0xffff with (Z.ones 16). change 0xff with (Z.ones 8). change 0xf with (Z.ones 4).
  change 0x3 with (Z.ones 2). rewrite E1, E2, E3, E4. cbn [fst snd].
  change (Z.land i4 0x1) with (Z.land i4 (Z.shiftl 1 0)). rewrite truthy_land_bit by lia.
  destruct Hl4 as (? & Hb4 & Hlow4). destruct (Z.testbit i4 0) eqn:E0; cbn [negb].
  - destruct (decide (n4 = 0)); [lia|]. rewrite Hlow4 in E0 by lia. done.
  - destruct (decide (n4 = 0)) as [->|]; [congruence|lia].
Qed.

(** ** A concrete map *)

Definition demo_bitmap : list Z := [2 ^ 32 - 1; 0x0000f00f].

Lemma demo_bitmap_ok : bitmap_ok demo_bitmap 50.
Proof. split; [|cbn; lia]. unfold demo_bitmap, in_u32. repeat constructor; lia. Qed.

Lemma bt_availbit_least_witness : ∃ r, bt_availbit demo_bitmap 50 = Ret r.
Proof.
  destruct (bt_availbit_least demo_bitmap 50) as (r & H & _); [exact demo_bitmap_ok|lia|eauto].
Defined.

Lemma bt_range_maximal_run_witness : ∃ r, bt_range demo_bitmap 36 50 = Ret r.
Proof.
  destruct (bt_range_maximal_run demo_bitmap 36 50) as [[H _]|(? & ? & H & _)];
    [exact demo_bitmap_ok|lia|lia|eauto..].
Defined.

Example demo_bitmap_run :
  bt_availbit demo_bitmap 50 = Ret 36 ∧ bt_range demo_bitmap 36 50 = Ret (Some (44, 47)) ∧
  bt_gethighbit demo_bitmap 1 = Ret 47 ∧ lowbit 0x5000 = 13.
Proof. by vm_compute. Qed.
