(* ===== verification/Streams.v ===== *)
(** * STREAMS queues ([uts/common/io/stream.c], [os/strsubr.c], [sys/stream.h])

    A queue is modelled as the list of its messages in [b_next] order, so that
    [q_first] and [q_last] are the ends of the list and unlinking or linking a
    message is a splice; the per-band records keep their own [qb_first] and
    [qb_last] pointers (message identities), as the code does, and following one
    that is not on the queue is a [Fault].  A message carries what these routines
    look at: its band, its flags, the type of its first data block and the sizes
    of its blocks.  [q_out] is the trace of the calls a routine makes to the rest
    of the framework.  The routines are modelled between [mutex_enter] and
    [mutex_exit]. *)

From S2P Require Import Prelude.

(** ** Data *)

Record mblk := Mblk {
  b_id : Z;             (* the address of the first block *)
  b_band : Z;           (* unsigned char *)
  b_flag : Z;
  db_type : Z;          (* unsigned char *)
  b_sizes : list Z      (* [b_wptr - b_rptr] of the blocks along [b_cont] *)
}.

#[global] Instance mblk_eq_dec : EqDecision mblk.
Proof. solve_decision. Defined.

Record qband := Qband {
  qb_count : Z;
  qb_first : option Z;
  qb_last : option Z;
  qb_hiwat : Z;
  qb_lowat : Z;
  qb_flag : Z
}.

(** Calls to the rest of the framework. *)
Inductive ev :=
| Backenable (pri : Z)     (* [backenable(q, pri)] *)
| Strwakeq (flag : Z)      (* [strwakeq(q, flag)] *)
| Setqsched                (* the queue goes on the run list *)
| Freemsg (id : Z).        (* [freemsg_flush] *)

Record queue := Queue {
  q_msgs : list mblk;
  q_count : Z;
  q_flag : Z;
  q_hiwat : Z;
  q_lowat : Z;
  q_bandp : list qband;  (* band [i + 1] at index [i]; [q_nband] is the length *)
  q_srvp : bool;         (* has a service procedure *)
  q_out : list ev
}.

(** [q_flag] *)
Definition QENAB : Z := 0x1.
Definition QWANTR : Z := 0x2.
Definition QWANTW : Z := 0x4.
Definition QFULL : Z := 0x8.
Definition QNOENB : Z := 0x40.
Definition QINSERVICE : Z := 0x10000.
Definition QWCLOSE : Z := 0x20000.
Definition QWANTWSYNC : Z := 0x80000.

(** [qb_flag] *)
Definition QB_FULL : Z := 0x1.
Definition QB_WANTW : Z := 0x2.

(** [b_flag] *)
Definition MSGNOGET : Z := 0x8.

(** Message types and classes. *)
Definition M_DATA : Z := 0x0.
Definition M_PROTO : Z := 0x1.
Definition M_DELAY : Z := 0xc.
Definition M_PCPROTO : Z := 0x83.
Definition QNORM : Z := 0x0.
Definition QPCTL : Z := 0x80.

Definition datamsg (type : Z) : bool :=
  (type =? M_DATA) || (type =? M_PROTO) || (type =? M_PCPROTO) || (type =? M_DELAY).

Definition queclass (bp : mblk) : Z := if QPCTL <=? db_type bp then QPCTL else QNORM.

Definition set_q_msgs l q :=
  Queue l (q_count q) (q_flag q) (q_hiwat q) (q_lowat q) (q_bandp q) (q_srvp q) (q_out q).
Definition set_q_count c q :=
  Queue (q_msgs q) c (q_flag q) (q_hiwat q) (q_lowat q) (q_bandp q) (q_srvp q) (q_out q).
Definition set_q_flag f q :=
  Queue (q_msgs q) (q_count q) f (q_hiwat q) (q_lowat q) (q_bandp q) (q_srvp q) (q_out q).
Definition set_q_bandp l q :=
  Queue (q_msgs q) (q_count q) (q_flag q) (q_hiwat q) (q_lowat q) l (q_srvp q) (q_out q).
Definition emit e q :=
  Queue (q_msgs q) (q_count q) (q_flag q) (q_hiwat q) (q_lowat q) (q_bandp q) (q_srvp q)
    (q_out q ++ [e]).
Definition q_set b q := set_q_flag (set_bits b (q_flag q)) q.
Definition q_clr b q := set_q_flag (clr_bits b (q_flag q)) q.

Definition set_qb_first p qb :=
  Qband (qb_count qb) p (qb_last qb) (qb_hiwat qb) (qb_lowat qb) (qb_flag qb).
Definition set_qb_last p qb :=
  Qband (qb_count qb) (qb_first qb) p (qb_hiwat qb) (qb_lowat qb) (qb_flag qb).
Definition set_qb_count c qb :=
  Qband c (qb_first qb) (qb_last qb) (qb_hiwat qb) (qb_lowat qb) (qb_flag qb).
Definition set_qb_flag f qb :=
  Qband (qb_count qb) (qb_first qb) (qb_last qb) (qb_hiwat qb) (qb_lowat qb) f.

Definition q_nband (q : queue) : Z := zlen (q_bandp q).

(** [qbp = q->q_bandp; while (--i > 0) qbp = qbp->qb_next;] *)
Definition band_at (q : queue) (band : Z) : run qband := zget (q_bandp q) (band - 1).
Definition upd_band (band : Z) (f : qband → qband) (q : queue) : queue :=
  set_q_bandp (alter f (Z.to_nat (band - 1)) (q_bandp q)) q.

Definition set_b_band (b : Z) (m : mblk) : mblk :=
  Mblk (b_id m) b (b_flag m) (db_type m) (b_sizes m).

(** [for (tmp = bp; tmp; tmp = tmp->b_cont) count += (tmp->b_wptr - tmp->b_rptr);]
    on a [size_t], and the same with [-=]. *)
Definition add_sizes (m : mblk) (count : Z) : Z :=
  fold_left (λ c n, w32 (c + n)) (b_sizes m) count.
Definition sub_sizes (m : mblk) (count : Z) : Z :=
  fold_left (λ c n, w32 (c - n)) (b_sizes m) count.

#[export] Instance QENAB_bit : IsBit QENAB := is_bit_pow 0 QENAB eq_refl.
#[export] Instance QWANTR_bit : IsBit QWANTR := is_bit_pow 1 QWANTR eq_refl.
#[export] Instance QWANTW_bit : IsBit QWANTW := is_bit_pow 2 QWANTW eq_refl.
#[export] Instance QFULL_bit : IsBit QFULL := is_bit_pow 3 QFULL eq_refl.
#[export] Instance QNOENB_bit : IsBit QNOENB := is_bit_pow 6 QNOENB eq_refl.
#[export] Instance QINSERVICE_bit : IsBit QINSERVICE := is_bit_pow 16 QINSERVICE eq_refl.
#[export] Instance QWCLOSE_bit : IsBit QWCLOSE := is_bit_pow 17 QWCLOSE eq_refl.
#[export] Instance QWANTWSYNC_bit : IsBit QWANTWSYNC := is_bit_pow 19 QWANTWSYNC eq_refl.
#[export] Instance QB_FULL_bit : IsBit QB_FULL := is_bit_pow 0 QB_FULL eq_refl.
#[export] Instance QB_WANTW_bit : IsBit QB_WANTW := is_bit_pow 1 QB_WANTW eq_refl.

(** ** Walking and splicing the message list *)

Definition q_last (l : list mblk) : run mblk :=
  match last l with Some m => Ret m | None => Fault end.

(** [tmp = q->q_first; while (p(tmp)) tmp = tmp->b_next;] and insert [bp] before
    [tmp]. *)
Fixpoint ins_skip (p : mblk → bool) (bp : mblk) (l : list mblk) : run (list mblk) :=
  match l with
  | [] => Fault
  | tmp :: tl => if p tmp then let* tl' := ins_skip p bp tl in Ret (tmp :: tl') else Ret (bp :: l)
  end.

(** The same with two loops, one after the other. *)
Fixpoint ins_skip2 (p1 p2 : mblk → bool) (bp : mblk) (l : list mblk) : run (list mblk) :=
  match l with
  | [] => Fault
  | tmp :: tl =>
      if p1 tmp then let* tl' := ins_skip2 p1 p2 bp tl in Ret (tmp :: tl')
      else ins_skip p2 bp l
  end.

(** Insert [bp] after (before) the message [id]. *)
Fixpoint ins_after (id : Z) (bp : mblk) (l : list mblk) : run (list mblk) :=
  match l with
  | [] => Fault
  | tmp :: tl =>
      if b_id tmp =? id then Ret (tmp :: bp :: tl)
      else let* tl' := ins_after id bp tl in Ret (tmp :: tl')
  end.

Fixpoint ins_before (id : Z) (bp : mblk) (l : list mblk) : run (list mblk) :=
  match l with
  | [] => Fault
  | tmp :: tl =>
      if b_id tmp =? id then Ret (bp :: tmp :: tl)
      else let* tl' := ins_before id bp tl in Ret (tmp :: tl')
  end.

(** The messages before and after the message [id], and that message. *)
Fixpoint find_msg (id : Z) (rpre l : list mblk) : run (list mblk * mblk * list mblk) :=
  match l with
  | [] => Fault
  | tmp :: tl => if b_id tmp =? id then Ret (rpre, tmp, tl) else find_msg id (tmp :: rpre) tl
  end.

(** ** Scheduling *)

Definition qenable_locked (q : queue) : queue :=
  if negb (q_srvp q) then q
  else if has (q_flag q) (Z.lor QWCLOSE QENAB) then q
  else
    let q := q_set QENAB q in
    if has (q_flag q) QINSERVICE then q else emit Setqsched q.

Definition canenable (q : queue) : bool := negb (has (q_flag q) QNOENB).
Definition noenable (q : queue) : queue := q_set QNOENB q.
Definition enableok (q : queue) : queue := q_clr QNOENB q.
Definition qsize (q : queue) : Z := fold_left (λ n _, n + 1) (q_msgs q) 0.

(** ** Bands allocated on the fly *)

Definition allocband : qband := Qband 0 None None 0 0 0.

(** The loop [while (band > q->q_nband)]; [need] is the number of turns left and
    [avail] the number of allocations that succeed before one fails. *)
Fixpoint grow_bands (need avail : nat) (q : queue) : bool * queue :=
  match need with
  | O => (true, q)
  | S need' =>
      match avail with
      | O => (false, q)
      | S avail' =>
          let qb := allocband in
          let qb := Qband (qb_count qb) (qb_first qb) (qb_last qb)
                      (q_hiwat q) (q_lowat q) (qb_flag qb) in
          grow_bands need' avail' (set_q_bandp (q_bandp q ++ [qb]) q)
      end
  end.

Definition need_band (avail : nat) (band : Z) (q : queue) : bool * queue :=
  if q_nband q <? band then grow_bands (Z.to_nat (band - q_nband q)) avail q else (true, q).

(** ** Putting messages *)

(** The flow-control accounting at the end of [putq], [putbq] and [insq];
    [qbp] is the band number when the code's [qbp] is not [NULL]. *)
Definition put_account (qbp : option Z) (bp : mblk) (q : queue) : queue :=
  match qbp with
  | Some b =>
      upd_band b (λ qb,
        let qb := set_qb_count (add_sizes bp (qb_count qb)) qb in
        if qb_hiwat qb <=? qb_count qb then set_qb_flag (set_bits QB_FULL (qb_flag qb)) qb else qb) q
  | None =>
      let q := set_q_count (add_sizes bp (q_count q)) q in
      if q_hiwat q <=? q_count q then q_set QFULL q else q
  end.

(** The first part of [putq] and [putbq]: the message with its band forced to 0 if
    it has high priority, the band record it needs ([None]: none), and whether the
    records could be allocated. *)
Definition put_prepare (avail : nat) (q : queue) (bp : mblk) : mblk * option Z * (bool * queue) :=
  if queclass bp =? QPCTL then
    (if negb (b_band bp =? 0) then set_b_band 0 bp else bp, None, (true, q))
  else if negb (b_band bp =? 0) then (bp, Some (b_band bp), need_band avail (b_band bp) q)
  else (bp, None, (true, q)).

Definition putq_link (q : queue) (qbp : option Z) (bp : mblk) (mcls : Z) : run queue :=
  match q_msgs q with
  | [] =>
      let q := set_q_msgs [bp] q in
      Ret (match qbp with
           | Some b => upd_band b (λ qb, set_qb_last (Some (b_id bp)) (set_qb_first (Some (b_id bp)) qb)) q
           | None => q
           end)
  | _ :: _ =>
      match qbp with
      | None =>
          let* tmp := q_last (q_msgs q) in
          if mcls <=? queclass tmp then Ret (set_q_msgs (q_msgs q ++ [bp]) q)
          else
            let* l := ins_skip (λ tmp, mcls <=? queclass tmp) bp (q_msgs q) in
            Ret (set_q_msgs l q)
      | Some b =>
          let* qb := band_at q b in
          let* q :=
            match qb_first qb with
            | Some _ =>
                match qb_last qb with
                | Some tmp => let* l := ins_after tmp bp (q_msgs q) in Ret (set_q_msgs l q)
                | None => Fault
                end
            | None =>
                let* tmp := q_last (q_msgs q) in
                let* q :=
                  if (mcls <? queclass tmp) || (b_band bp <=? b_band tmp) then
                    Ret (set_q_msgs (q_msgs q ++ [bp]) q)
                  else
                    let* l := ins_skip2 (λ tmp, QPCTL <=? db_type tmp)
                                (λ tmp, b_band bp <=? b_band tmp) bp (q_msgs q) in
                    Ret (set_q_msgs l q) in
                Ret (upd_band b (set_qb_first (Some (b_id bp))) q)
            end in
          Ret (upd_band b (set_qb_last (Some (b_id bp))) q)
      end
  end.

Definition putq (avail : nat) (q : queue) (bp : mblk) : run (Z * queue) :=
  let mcls := queclass bp in
  match put_prepare avail q bp with
  | (_, _, (false, q)) => Ret (0, q)
  | (bp, qbp, (true, q)) =>
      let* q := putq_link q qbp bp mcls in
      let q := put_account qbp bp q in
      let q :=
        if (QNORM <? mcls) ||
           (canenable q && (has (q_flag q) QWANTR || negb (b_band bp =? 0)))
        then qenable_locked q else q in
      Ret (1, q)
  end.

Definition putbq_link (q : queue) (qbp : option Z) (bp : mblk) (mcls : Z) : run queue :=
  if (match q_msgs q with [] => true | _ => false end) || (mcls =? QPCTL) then
    let q := set_q_msgs (bp :: q_msgs q) q in
    Ret (match qbp with
         | Some b => upd_band b (λ qb, set_qb_last (Some (b_id bp)) (set_qb_first (Some (b_id bp)) qb)) q
         | None => q
         end)
  else
    match qbp with
    | Some b =>
        let* qb := band_at q b in
        let* q :=
          match qb_first qb with
          | Some tmp => let* l := ins_before tmp bp (q_msgs q) in Ret (set_q_msgs l q)
          | None =>
              let* tmp := q_last (q_msgs q) in
              let* q :=
                if (mcls <? queclass tmp) || (b_band bp <? b_band tmp) then
                  Ret (set_q_msgs (q_msgs q ++ [bp]) q)
                else
                  let* l := ins_skip2 (λ tmp, QPCTL <=? db_type tmp)
                              (λ tmp, b_band bp <? b_band tmp) bp (q_msgs q) in
                  Ret (set_q_msgs l q) in
              Ret (upd_band b (set_qb_last (Some (b_id bp))) q)
          end in
        Ret (upd_band b (set_qb_first (Some (b_id bp))) q)
    | None =>
        let* tmp := q_last (q_msgs q) in
        if (mcls <? queclass tmp) || (b_band bp <? b_band tmp) then
          Ret (set_q_msgs (q_msgs q ++ [bp]) q)
        else
          let* l := ins_skip2 (λ tmp, QPCTL <=? db_type tmp)
                      (λ tmp, b_band bp <? b_band tmp) bp (q_msgs q) in
          Ret (set_q_msgs l q)
    end.

Definition putbq (avail : nat) (q : queue) (bp : mblk) : run (Z * queue) :=
  let mcls := queclass bp in
  match put_prepare avail q bp with
  | (_, _, (false, q)) => Ret (0, q)
  | (bp, qbp, (true, q)) =>
      let* q := putbq_link q qbp bp mcls in
      let q := put_account qbp bp q in
      let q :=
        if (QNORM <? mcls) || (canenable q && has (q_flag q) QWANTR)
        then qenable_locked q else q in
      Ret (1, q)
  end.

(** The order test of [insq]; [prev] and [emp] are the messages the new one would
    stand between. *)
Definition insq_badord (prev emp : option mblk) (last : option mblk) (mp : mblk) (mcls : Z) : bool :=
  (if mcls =? QPCTL then
     match emp, prev with Some _, Some p => db_type p <? QPCTL | _, _ => false end
   else false) ||
  match emp with
  | Some e =>
      ((mcls =? QNORM) && (b_band mp <? b_band e)) ||
      match prev with
      | Some p => (db_type p <? QPCTL) && (b_band p <? b_band mp)
      | None => false
      end
  | None =>
      match last with
      | Some t => (mcls =? QNORM) && (b_band t <? b_band mp)
      | None => false
      end
  end.

Definition insq_link (q : queue) (rpre : list mblk) (mp : mblk) (suf : list mblk) : queue :=
  let q := set_q_msgs (rev rpre ++ mp :: suf) q in
  if negb (b_band mp =? 0) then
    upd_band (b_band mp) (λ qb,
      match qb_first qb with
      | None => set_qb_last (Some (b_id mp)) (set_qb_first (Some (b_id mp)) qb)
      | Some _ =>
          if match rpre with [] => true | p :: _ => negb (b_band p =? b_band mp) end
          then set_qb_first (Some (b_id mp)) qb
          else if match suf with [] => true | n :: _ => negb (b_band n =? b_band mp) end
          then set_qb_last (Some (b_id mp)) qb
          else qb
      end) q
  else q.

(** [emp] is the message to insert before; [None] is the end of the queue. *)
Definition insq (avail : nat) (q : queue) (emp : option Z) (mp : mblk) : run (Z * queue) :=
  let mcls := queclass mp in
  let mp := if (mcls =? QPCTL) && negb (b_band mp =? 0) then set_b_band 0 mp else mp in
  let* (rpre, suf) :=
    match emp with
    | None => Ret (rev (q_msgs q), [])
    | Some id => let* (rpre, e, tl) := find_msg id [] (q_msgs q) in Ret (rpre, e :: tl)
    end in
  if insq_badord (head rpre) (head suf) (last (q_msgs q)) mp mcls then Ret (0, q)
  else
    match (if negb (b_band mp =? 0) then need_band avail (b_band mp) q else (true, q)) with
    | (false, q) => Ret (0, q)
    | (true, q) =>
        let qbp := if negb (b_band mp =? 0) then Some (b_band mp) else None in
        let q := insq_link q rpre mp suf in
        let q := put_account qbp mp q in
        let q := if canenable q && has (q_flag q) QWANTR then qenable_locked q else q in
        Ret (1, q)
    end.

(** ** Taking messages *)

(** The accounting of [getq_noenab] and [rmvq_noenab]. *)
Definition get_account (mp : mblk) (q : queue) : queue :=
  if b_band mp =? 0 then
    let q := set_q_count (sub_sizes mp (q_count q)) q in
    if q_count q <? q_hiwat q then q_clr QFULL q else q
  else
    upd_band (b_band mp) (λ qb,
      let qb := set_qb_count (sub_sizes mp (qb_count qb)) qb in
      if qb_count qb <? qb_hiwat qb then set_qb_flag (clr_bits QB_FULL (qb_flag qb)) qb else qb) q.

Definition opt_is (p : option Z) (id : Z) : bool :=
  match p with Some i => i =? id | None => false end.

Definition rmvq_band (rpre : list mblk) (mp : mblk) (suf : list mblk) (qb : qband) : qband :=
  let qb :=
    if opt_is (qb_first qb) (b_id mp) then
      set_qb_first (match suf with
                    | n :: _ => if b_band mp =? b_band n then Some (b_id n) else None
                    | [] => None
                    end) qb
    else qb in
  if opt_is (qb_last qb) (b_id mp) then
    set_qb_last (match rpre with
                 | p :: _ => if b_band mp =? b_band p then Some (b_id p) else None
                 | [] => None
                 end) qb
  else qb.

(** [rmvq_noenab(q, mp)] for the message [id] of [q]; the message itself. *)
Definition rmvq_noenab (q : queue) (id : Z) : run (mblk * queue) :=
  let* (rpre, mp, suf) := find_msg id [] (q_msgs q) in
  let* q :=
    if negb (b_band mp =? 0) then
      let* _ := band_at q (b_band mp) in
      Ret (upd_band (b_band mp) (rmvq_band rpre mp suf) q)
    else Ret q in
  let q := set_q_msgs (rev rpre ++ suf) q in
  Ret (mp, get_account mp q).

(** [while (bp && (bp->b_flag & MSGNOGET)) bp = bp->b_next;] *)
Fixpoint skip_noget (l : list mblk) : option mblk :=
  match l with
  | [] => None
  | bp :: tl => if has (b_flag bp) MSGNOGET then skip_noget tl else Some bp
  end.

Definition getq_noenab (q : queue) : run (option mblk * queue) :=
  match q_msgs q with
  | [] => Ret (None, q_set QWANTR q)
  | bp :: tl =>
      if has (b_flag bp) MSGNOGET then
        match skip_noget (bp :: tl) with
        | Some bp => let* (m, q) := rmvq_noenab q (b_id bp) in Ret (Some m, q)
        | None => Ret (None, q)
        end
      else
        let q := set_q_msgs tl q in
        let* q :=
          if b_band bp =? 0 then Ret (get_account bp q)
          else
            let* qb := band_at q (b_band bp) in
            let* q :=
              if decide (qb_first qb = qb_last qb) then
                Ret (upd_band (b_band bp) (λ qb, set_qb_last None (set_qb_first None qb)) q)
              else
                Ret (upd_band (b_band bp) (set_qb_first (b_id <$> head tl)) q) in
            Ret (get_account bp q) in
        Ret (Some bp, q_clr QWANTR q)
  end.

Definition qbackenable (q : queue) (band : Z) : run queue :=
  if (band =? 0) && negb (has (q_flag q) (Z.lor QWANTW QWANTWSYNC)) then Ret q
  else
    let* backenab :=
      if band =? 0 then
        Ret (if (q_count q <? q_lowat q) || (q_lowat q =? 0)
             then Z.land (q_flag q) (Z.lor QWANTW QWANTWSYNC) else 0)
      else
        let* qb := band_at q band in
        Ret (if (qb_count qb <? qb_lowat qb) || (qb_lowat qb =? 0)
             then Z.land (qb_flag qb) QB_WANTW else 0) in
    if backenab =? 0 then Ret q
    else
      let q := if has backenab QWANTWSYNC then q_clr QWANTWSYNC q else q in
      let q :=
        if has backenab (Z.lor QWANTW QB_WANTW) then
          if negb (band =? 0)
          then upd_band band (λ qb, set_qb_flag (clr_bits QB_WANTW (qb_flag qb)) qb) q
          else q_clr QWANTW q
        else q in
      let q := if has backenab QWANTWSYNC then emit (Strwakeq QWANTWSYNC) q else q in
      Ret (if has backenab (Z.lor QWANTW QB_WANTW) then emit (Backenable band) q else q).

Definition getq (q : queue) : run (option mblk * queue) :=
  let* (bp, q) := getq_noenab q in
  let band := match bp with Some m => b_band m | None => 0 end in
  if (band =? 0) && negb (has (q_flag q) (Z.lor QWANTW QWANTWSYNC)) then Ret (bp, q)
  else let* q := qbackenable q band in Ret (bp, q).

Definition rmvq (q : queue) (id : Z) : run queue :=
  let* (mp, q) := rmvq_noenab q id in
  qbackenable q (b_band mp).

(** ** Flushing *)

Definition flush_reset (q : queue) : queue :=
  let q := set_q_count 0 (set_q_msgs [] q) in
  let q := set_q_bandp ((λ qb,
    set_qb_flag (clr_bits QB_FULL (qb_flag qb))
      (set_qb_count 0 (set_qb_last None (set_qb_first None qb)))) <$> q_bandp q) q in
  q_clr QFULL q.

(** The loop that frees or puts back the messages taken off.  [putq] allocates no
    band here: the bands of messages that were on the queue exist. *)
Fixpoint flush_loop (drop : mblk → bool) (mp : list mblk) (q : queue) : run queue :=
  match mp with
  | [] => Ret q
  | m :: nmp =>
      if drop m then flush_loop drop nmp (emit (Freemsg (b_id m)) q)
      else let* (_, q) := putq 0 q m in flush_loop drop nmp q
  end.

Definition flush_wantw (qb : qband) : qband * bool :=
  if has (qb_flag qb) QB_WANTW && ((qb_count qb <? qb_lowat qb) || (qb_lowat qb =? 0))
  then (set_qb_flag (clr_bits QB_WANTW (qb_flag qb)) qb, true)
  else (qb, false).

(** [for (bpri = q->q_nband; bpri != 0; bpri--) if (qbf[bpri]) backenable(q, bpri);] *)
Fixpoint flush_enable (bpri : nat) (qbf : list bool) (q : queue) : queue :=
  match bpri with
  | O => q
  | S n =>
      flush_enable n qbf
        (if nth n qbf false then emit (Backenable (Z.of_nat bpri)) q else q)
  end.

Definition flushq (q : queue) (flag : Z) : run queue :=
  match q_msgs q with
  | [] => Ret q
  | mp =>
      let* q := flush_loop (λ m, truthy flag || datamsg (db_type m)) mp (flush_reset q) in
      let qbf := (λ qb, (flush_wantw qb).2) <$> q_bandp q in
      let q := set_q_bandp ((λ qb, (flush_wantw qb).1) <$> q_bandp q) q in
      let qbf0 := has (q_flag q) QWANTW && ((q_lowat q =? 0) || (q_count q <? q_lowat q)) in
      let q := if qbf0 then q_clr QWANTW q else q in
      let q := flush_enable (length (q_bandp q)) qbf q in
      Ret (if qbf0 then emit (Backenable 0) q else q)
  end.

Definition flushband_one (pri flag : Z) (mp : mblk) (q : queue) : run queue :=
  if b_band mp =? pri then
    if truthy flag || datamsg (db_type mp) then
      let* q := rmvq q (b_id mp) in Ret (emit (Freemsg (b_id mp)) q)
    else Ret q
  else Ret q.

(** [while (mp != last)]: the rest of the queue from [mp] on.  [b_next] of a message
    is read before the message is removed, and removing it leaves the links of
    those behind it alone, so the walk can follow the list as it was.  The result
    is [mp] after the loop. *)
Fixpoint flushband_loop (pri flag : Z) (last : option Z) (mp : list mblk) (q : queue)
    : run (option mblk * queue) :=
  match mp with
  | [] => match last with None => Ret (None, q) | Some _ => Fault end
  | m :: nmp =>
      if opt_is last (b_id m) then Ret (Some m, q)
      else let* q := flushband_one pri flag m q in flushband_loop pri flag last nmp q
  end.

Definition flushband (q : queue) (pri flag : Z) : run queue :=
  if q_nband q <? pri then Ret q
  else if pri =? 0 then
    let* q := flush_loop (λ m, (b_band m =? 0) && (truthy flag || datamsg (db_type m)))
                (q_msgs q) (flush_reset q) in
    Ret (if has (q_flag q) QWANTW && ((q_lowat q =? 0) || (q_count q <? q_lowat q))
         then emit (Backenable pri) (q_clr QWANTW q) else q)
  else
    let* qb := band_at q pri in
    match qb_first qb with
    | None => Ret q
    | Some first =>
        let* (_, m, suf) := find_msg first [] (q_msgs q) in
        let last := if opt_is (qb_last qb) first then b_id <$> head suf else qb_last qb in
        let* (mp, q) := flushband_loop pri flag last (m :: suf) q in
        match mp with
        | Some mp => flushband_one pri flag mp q
        | None => Ret q
        end
    end.

(** ** Flow control *)

(** [q] is the next queue with a service procedure ([q_nfsrv]). *)
Definition canput (q : queue) : Z * queue :=
  if negb (has (q_flag q) QFULL) then (1, q) else (0, q_set QWANTW q).

Definition bcanput (q : queue) (pri : Z) : run (Z * queue) :=
  if pri =? 0 then
    if has (q_flag q) QFULL then Ret (0, q_set QWANTW q) else Ret (1, q)
  else if q_nband q <? pri then Ret (1, q)
  else
    let* qb := band_at q pri in
    if has (qb_flag qb) QB_FULL
    then Ret (0, upd_band pri (λ qb, set_qb_flag (set_bits QB_WANTW (qb_flag qb)) qb) q)
    else Ret (1, q).

(** ** [strqset] and [strqget] *)

(** [qfields_t] *)
Definition QHIWAT : Z := 0.
Definition QLOWAT : Z := 1.
Definition QMAXPSZ : Z := 2.
Definition QMINPSZ : Z := 3.
Definition QCOUNT : Z := 4.
Definition QFIRST : Z := 5.
Definition QLAST : Z := 6.
Definition QFLAG : Z := 7.
Definition QSTRUIOT : Z := 8.
Definition QBAD : Z := 9.

Definition EPERM : Z := 1.
Definition EAGAIN : Z := 11.
Definition EINVAL : Z := 22.
Definition INFPSZ : Z := -1.
Definition PIPE_BUF : Z := 5120.

(** The other fields [strqset] reaches: the packet sizes of the queue and their
    copies at the stream head. *)
Record qparms := Qparms {
  q_minpsz : Z;
  q_maxpsz : Z;
  q_struiot : Z;        (* short *)
  q_below_head : bool;  (* [q == STREAM(q)->sd_wrq->q_next] *)
  sd_fifo : bool;       (* [sd_vnode->v_type == VFIFO] *)
  sd_qn_minpsz : Z;
  sd_qn_maxpsz : Z
}.

Definition set_q_minpsz v p :=
  Qparms v (q_maxpsz p) (q_struiot p) (q_below_head p) (sd_fifo p) (sd_qn_minpsz p) (sd_qn_maxpsz p).
Definition set_q_maxpsz v p :=
  Qparms (q_minpsz p) v (q_struiot p) (q_below_head p) (sd_fifo p) (sd_qn_minpsz p) (sd_qn_maxpsz p).
Definition set_q_struiot v p :=
  Qparms (q_minpsz p) (q_maxpsz p) v (q_below_head p) (sd_fifo p) (sd_qn_minpsz p) (sd_qn_maxpsz p).
Definition set_sd_qn_minpsz v p :=
  Qparms (q_minpsz p) (q_maxpsz p) (q_struiot p) (q_below_head p) (sd_fifo p) v (sd_qn_maxpsz p).
Definition set_sd_qn_maxpsz v p :=
  Qparms (q_minpsz p) (q_maxpsz p) (q_struiot p) (q_below_head p) (sd_fifo p) (sd_qn_minpsz p) v.

Definition set_q_hiwat v q :=
  Queue (q_msgs q) (q_count q) (q_flag q) v (q_lowat q) (q_bandp q) (q_srvp q) (q_out q).
Definition set_q_lowat v q :=
  Queue (q_msgs q) (q_count q) (q_flag q) (q_hiwat q) v (q_bandp q) (q_srvp q) (q_out q).
Definition set_qb_hiwat v qb :=
  Qband (qb_count qb) (qb_first qb) (qb_last qb) v (qb_lowat qb) (qb_flag qb).
Definition set_qb_lowat v qb :=
  Qband (qb_count qb) (qb_first qb) (qb_last qb) (qb_hiwat qb) v (qb_flag qb).

Section Strqset.
(** The tunable [strmsgsz]. *)
Context (strmsgsz : Z).

(** The value cached at the stream head. *)
Definition qn_maxpsz (fifo : bool) (val : Z) : Z :=
  if negb (strmsgsz =? 0) then
    if val =? INFPSZ then strmsgsz
    else if fifo then Z.min PIPE_BUF val else Z.min strmsgsz val
  else val.

Definition strqset (avail : nat) (q : queue) (p : qparms) (what pri val : Z)
    : Z * queue * qparms :=
  if QBAD <=? what then (EINVAL, q, p)
  else
    match (if negb (pri =? 0) then need_band avail pri q else (true, q)) with
    | (false, q) => (EAGAIN, q, p)
    | (true, q) =>
        let qbp := negb (pri =? 0) in
        if what =? QHIWAT then
          (0, if qbp then upd_band pri (set_qb_hiwat (w32 val)) q else set_q_hiwat (w32 val) q, p)
        else if what =? QLOWAT then
          (0, if qbp then upd_band pri (set_qb_lowat (w32 val)) q else set_q_lowat (w32 val) q, p)
        else if what =? QMAXPSZ then
          let error := if qbp then EINVAL else 0 in
          let p := if qbp then p else set_q_maxpsz val p in
          if negb (q_below_head p) then (error, q, p)
          else (error, q, set_sd_qn_maxpsz (qn_maxpsz (sd_fifo p) val) p)
        else if what =? QMINPSZ then
          let error := if qbp then EINVAL else 0 in
          let p := if qbp then p else set_q_minpsz val p in
          if negb (q_below_head p) then (error, q, p)
          else (error, q, set_sd_qn_minpsz val p)
        else if what =? QSTRUIOT then
          if qbp then (EINVAL, q, p) else (0, q, set_q_struiot (s16 val) p)
        else if (what =? QCOUNT) || (what =? QFIRST) || (what =? QLAST) || (what =? QFLAG)
        then (EPERM, q, p)
        else (EINVAL, q, p)
    end.
End Strqset.

(** What [strqget] stores through [valp]: a number or a message pointer. *)
Inductive qval := Vnum (v : Z) | Vmsg (p : option Z) | Vnone.

Definition strqget (avail : nat) (q : queue) (p : qparms) (what pri : Z)
    : run (Z * qval * queue) :=
  if QBAD <=? what then Ret (EINVAL, Vnone, q)
  else
    match (if negb (pri =? 0) then need_band avail pri q else (true, q)) with
    | (false, q) => Ret (EAGAIN, Vnone, q)
    | (true, q) =>
        let* qbp := (if negb (pri =? 0) then let* qb := band_at q pri in Ret (Some qb)
                     else Ret None) in
        let '(error, v) :=
          if what =? QHIWAT then
            (0, Vnum (match qbp with Some qb => qb_hiwat qb | None => q_hiwat q end))
          else if what =? QLOWAT then
            (0, Vnum (match qbp with Some qb => qb_lowat qb | None => q_lowat q end))
          else if what =? QMAXPSZ then
            match qbp with Some _ => (EINVAL, Vnone) | None => (0, Vnum (q_maxpsz p)) end
          else if what =? QMINPSZ then
            match qbp with Some _ => (EINVAL, Vnone) | None => (0, Vnum (q_minpsz p)) end
          else if what =? QCOUNT then
            (0, Vnum (match qbp with Some qb => qb_count qb | None => q_count q end))
          else if what =? QFIRST then
            (0, Vmsg (match qbp with Some qb => qb_first qb | None => b_id <$> head (q_msgs q) end))
          else if what =? QLAST then
            (0, Vmsg (match qbp with Some qb => qb_last qb | None => b_id <$> last (q_msgs q) end))
          else if what =? QFLAG then
            (0, Vnum (match qbp with Some qb => qb_flag qb | None => q_flag q end))
          else if what =? QSTRUIOT then
            match qbp with Some _ => (EINVAL, Vnone) | None => (0, Vnum (q_struiot p)) end
          else (EINVAL, Vnone) in
        Ret (error, v, q)
    end.

(** ** The representation invariant *)

(** The priority level of a message: high priority above every band. *)
Definition level (m : mblk) : Z := if QPCTL <=? db_type m then 256 else b_band m.

Definition bandl (b : Z) (l : list mblk) : list mblk := filter (λ m, b_band m = b) l.

Definition bytes (m : mblk) : Z := foldr Z.add 0 (b_sizes m).
Definition total (l : list mblk) : Z := foldr (λ m n, bytes m + n) 0 l.

Definition msg_ok (nband : Z) (m : mblk) : Prop :=
  0 ≤ b_band m ≤ nband ∧ (QPCTL ≤ db_type m → b_band m = 0) ∧ Forall (λ n, 0 ≤ n) (b_sizes m).

Definition ordered (l : list mblk) : Prop := StronglySorted (λ a b, level b ≤ level a) l.

(** The record of band [b] describes the messages of that band. *)
Definition band_rep (l : list mblk) (b : Z) (qb : qband) : Prop :=
  qb_first qb = b_id <$> head (bandl b l) ∧
  qb_last qb = b_id <$> last (bandl b l) ∧
  qb_count qb = w32 (total (bandl b l)).

Record queue_wf (q : queue) : Prop := {
  wf_nodup : NoDup (b_id <$> q_msgs q);
  wf_ordered : ordered (q_msgs q);
  wf_msgs : Forall (msg_ok (q_nband q)) (q_msgs q);
  wf_bands : ∀ i qb, q_bandp q !! i = Some qb → band_rep (q_msgs q) (Z.of_nat i + 1) qb;
  wf_count : q_count q = w32 (total (bandl 0 (q_msgs q)));
  wf_nband : q_nband q ≤ 255
}.

(** ** Counting *)

Lemma add_sizes_spec m c : in_u32 c → add_sizes m c = w32 (c + bytes m).
Proof.
  unfold add_sizes, bytes. revert c. induction (b_sizes m) as [|n l IH]; intros c Hc; simpl.
  - by rewrite Z.add_0_r, w32_id.
  - rewrite IH by apply w32_range. unfold w32. rewrite Zplus_mod_idemp_l. f_equal. lia.
Qed.

Lemma sub_sizes_spec m c : in_u32 c → sub_sizes m c = w32 (c - bytes m).
Proof.
  unfold sub_sizes, bytes. revert c. induction (b_sizes m) as [|n l IH]; intros c Hc; simpl.
  - by rewrite Z.sub_0_r, w32_id.
  - rewrite IH by apply w32_range. unfold w32. rewrite Zminus_mod_idemp_l. f_equal. lia.
Qed.

Lemma total_app l1 l2 : total (l1 ++ l2) = total l1 + total l2.
Proof. induction l1; simpl; lia. Qed.

Lemma bandl_app b l1 l2 : bandl b (l1 ++ l2) = bandl b l1 ++ bandl b l2.
Proof. apply filter_app. Qed.

Lemma bandl_cons b m l :
  bandl b (m :: l) = if decide (b_band m = b) then m :: bandl b l else bandl b l.
Proof. exact (filter_cons (λ m, b_band m = b) m l). Qed.

Lemma bandl_mid b l1 m l2 :
  bandl b (l1 ++ m :: l2) =
  bandl b l1 ++ (if decide (b_band m = b) then [m] else []) ++ bandl b l2.
Proof. rewrite bandl_app, bandl_cons. by destruct (decide (b_band m = b)). Qed.

Lemma total_band_add b l1 m l2 :
  total (bandl b (l1 ++ m :: l2)) =
  total (bandl b (l1 ++ l2)) + (if decide (b_band m = b) then bytes m else 0).
Proof.
  rewrite bandl_mid, bandl_app, !total_app. destruct (decide (b_band m = b)); simpl; lia.
Qed.

Lemma w32_add_l a b : w32 (w32 a + b) = w32 (a + b).
Proof. unfold w32. apply Zplus_mod_idemp_l. Qed.
Lemma w32_sub_l a b : w32 (w32 a - b) = w32 (a - b).
Proof. unfold w32. apply Zminus_mod_idemp_l. Qed.

(** ** Levels and order *)

Lemma level_class nb a b :
  nb ≤ 255 → msg_ok nb a → msg_ok nb b → b_band a = 0 →
  (queclass a <=? queclass b) = (level a <=? level b).
Proof.
  unfold msg_ok, queclass, level, QPCTL, QNORM. intros Hn [Ha [_ _]] [Hb [_ _]] H0.
  case_ifs; lia || done.
Qed.

Lemma level_norm nb m : msg_ok nb m → b_band m ≠ 0 → queclass m = QNORM ∧ level m = b_band m.
Proof.
  unfold msg_ok, queclass, level. intros (? & H & _) Hb. case_ifs; [|done]. apply H in E. lia.
Qed.

Lemma level_range nb m : nb ≤ 255 → msg_ok nb m → 0 ≤ level m ≤ 256.
Proof. unfold msg_ok, level. intros ? (? & _). case_ifs; lia. Qed.

Lemma ordered_app l1 l2 :
  ordered (l1 ++ l2) ↔
  (∀ a b, a ∈ l1 → b ∈ l2 → level b ≤ level a) ∧ ordered l1 ∧ ordered l2.
Proof. apply StronglySorted_app. Qed.

Lemma ordered_cons m l : ordered (m :: l) ↔ Forall (λ b, level b ≤ level m) l ∧ ordered l.
Proof. apply StronglySorted_cons. Qed.

Lemma ordered_insert l1 m l2 :
  ordered (l1 ++ l2) → Forall (λ t, level m ≤ level t) l1 → Forall (λ t, level t ≤ level m) l2 →
  ordered (l1 ++ m :: l2).
Proof.
  rewrite !ordered_app, ordered_cons. intros (H & H1 & H2) Hl1 Hl2. split_and!; try done.
  intros a b Ha [->|Hb]%elem_of_cons; [|by apply H]. rewrite Forall_forall in Hl1. by apply Hl1.
Qed.

Lemma ordered_remove l1 m l2 : ordered (l1 ++ m :: l2) → ordered (l1 ++ l2).
Proof.
  rewrite !ordered_app, ordered_cons. intros (H & H1 & H2 & H3). split_and!; try done.
  intros a b Ha Hb. apply H; [done|]. by apply elem_of_cons; right.
Qed.

(** An ordered queue splits at any threshold. *)
Lemma ordered_split k l : ordered l →
  ∃ l1 l2, l = l1 ++ l2 ∧ Forall (λ t, k ≤ level t) l1 ∧ Forall (λ t, level t < k) l2.
Proof.
  induction l as [|m l IH]; intros Ho; [by exists [], []|].
  apply ordered_cons in Ho as [Hm Ho]. destruct (decide (k ≤ level m)) as [Hk|Hk].
  - destruct (IH Ho) as (l1 & l2 & -> & H1 & H2). exists (m :: l1), l2.
    split_and!; [done| |done]. by constructor.
  - exists [], (m :: l). split_and!; [done..|]. constructor; [lia|].
    eapply Forall_impl; [exact Hm|]. simpl. lia.
Qed.

Lemma ordered_last l t : ordered l → last l = Some t → Forall (λ a, level t ≤ level a) l.
Proof.
  intros Ho Hl. apply last_Some in Hl as [l' ->]. rewrite ordered_app in Ho.
  destruct Ho as (H & _). apply Forall_app. split.
  - apply Forall_forall. intros a Ha. apply H; [done|]. by apply list_elem_of_singleton.
  - by apply Forall_cons.
Qed.

(** Messages of one band stand together. *)
Lemma band_level nb b m : msg_ok nb m → b ≠ 0 → b_band m = b → level m = b.
Proof. intros Hm Hb <-. by destruct (level_norm nb m). Qed.

Lemma bandl_nil nb b l :
  Forall (msg_ok nb) l → b ≠ 0 → Forall (λ t, level t ≠ b) l → bandl b l = [].
Proof.
  intros Hok Hb Hl. induction l as [|m l IH]; [done|].
  apply Forall_cons in Hok as [Hm Hok]. apply Forall_cons in Hl as [Hl Hls].
  rewrite bandl_cons. destruct (decide (b_band m = b)) as [E|E]; [|by apply IH].
  by pose proof (band_level nb b m Hm Hb E).
Qed.

(** ** The insertion loops *)

Lemma ins_skip_split p m l1 l2 :
  Forall (λ t, p t = true) l1 → Forall (λ t, p t = false) l2 → l2 ≠ [] →
  ins_skip p m (l1 ++ l2) = Ret (l1 ++ m :: l2).
Proof.
  intros H1 H2 Hne. induction l1 as [|t l1 IH]; simpl.
  - destruct l2 as [|t l2]; [done|]. apply Forall_cons in H2 as [H2 _]. simpl. by rewrite H2.
  - apply Forall_cons in H1 as [Ht H1]. by rewrite Ht, IH.
Qed.

(** The loop over high-priority messages, then over bands, is a single loop on
    an ordered queue. *)
Lemma ins_skip2_split p2 m l1 l2 :
  ordered (l1 ++ l2) →
  Forall (λ t, (QPCTL <=? db_type t) || p2 t = true) l1 →
  Forall (λ t, (QPCTL <=? db_type t) || p2 t = false) l2 → l2 ≠ [] →
  Forall (λ t, b_band t < 256) (l1 ++ l2) →
  ins_skip2 (λ t, QPCTL <=? db_type t) p2 m (l1 ++ l2) = Ret (l1 ++ m :: l2).
Proof.
  intros Ho H1 H2 Hne Hb. induction l1 as [|t l1 IH]; simpl.
  - destruct l2 as [|t l2]; [done|]. apply Forall_cons in H2 as [H2 _].
    apply orb_false_iff in H2 as [Ha Hp]. cbn [ins_skip2 ins_skip]. by rewrite Ha, Hp.
  - apply Forall_cons in H1 as [Ht H1]. simpl in Ho, Hb.
    apply ordered_cons in Ho as [Hle Ho]. apply Forall_cons in Hb as [Hbt Hb].
    destruct (QPCTL <=? db_type t) eqn:Hc; [by rewrite IH|].
    assert (Forall (λ t, (QPCTL <=? db_type t) = false) (l1 ++ l2)) as Hnorm.
    { rewrite Forall_forall in Hle |- *. intros x Hx. specialize (Hle x Hx).
      unfold level in Hle. rewrite Hc in Hle. destruct (QPCTL <=? db_type x); [lia|done]. }
    apply Forall_app in Hnorm as [Hn1 Hn2].
    apply (ins_skip_split p2 m (t :: l1) l2); [| |done].
    + constructor; [done|].
      rewrite Forall_forall in H1, Hn1 |- *. intros x Hx. specialize (H1 x Hx).
      by rewrite Hn1 in H1.
    + eapply Forall_impl; [exact H2|]. simpl. by intros x [_ Hx]%orb_false_iff.
Qed.

Lemma ins_after_split id m l1 l2 t :
  b_id t = id → id ∉ (b_id <$> l1) →
  ins_after id m (l1 ++ t :: l2) = Ret (l1 ++ t :: m :: l2).
Proof.
  intros Ht. induction l1 as [|x l1 IH]; simpl; intros Hn.
  - by rewrite Ht, Z.eqb_refl.
  - apply not_elem_of_cons in Hn as [Hne Hn].
    by rewrite (proj2 (Z.eqb_neq (b_id x) id)), IH.
Qed.

Lemma ins_before_split id m l1 l2 t :
  b_id t = id → id ∉ (b_id <$> l1) →
  ins_before id m (l1 ++ t :: l2) = Ret (l1 ++ m :: t :: l2).
Proof.
  intros Ht. induction l1 as [|x l1 IH]; simpl; intros Hn.
  - by rewrite Ht, Z.eqb_refl.
  - apply not_elem_of_cons in Hn as [Hne Hn].
    by rewrite (proj2 (Z.eqb_neq (b_id x) id)), IH.
Qed.

Lemma find_msg_split rpre l1 t l2 :
  b_id t ∉ (b_id <$> l1) →
  find_msg (b_id t) rpre (l1 ++ t :: l2) = Ret (rev l1 ++ rpre, t, l2).
Proof.
  revert rpre. induction l1 as [|x l1 IH]; simpl; intros rpre Hn.
  - by rewrite Z.eqb_refl.
  - apply not_elem_of_cons in Hn as [Hne Hn].
    rewrite (proj2 (Z.eqb_neq (b_id x) (b_id t))), IH by done. by rewrite <-app_assoc.
Qed.

(** ** Linking and unlinking a message *)

Definition qbp_of (m : mblk) : option Z := if b_band m =? 0 then None else Some (b_band m).

Definition relink (l1 : list mblk) (m : mblk) (l2 : list mblk) (qb : qband) : qband :=
  let first := match bandl (b_band m) l1 with [] => Some (b_id m) | _ => qb_first qb end in
  let last := match bandl (b_band m) l2 with [] => Some (b_id m) | _ => qb_last qb end in
  set_qb_last last (set_qb_first first qb).

(** The queue with [m] between [l1] and [l2]. *)
Definition linked (l1 : list mblk) (m : mblk) (l2 : list mblk) (q : queue) : queue :=
  let q := set_q_msgs (l1 ++ m :: l2) q in
  if b_band m =? 0 then q else upd_band (b_band m) (relink l1 m l2) q.

Definition unlink_band (l1 : list mblk) (m : mblk) (l2 : list mblk) (qb : qband) : qband :=
  let first := match bandl (b_band m) l1 with [] => b_id <$> head (bandl (b_band m) l2) | _ => qb_first qb end in
  let last := match bandl (b_band m) l2 with [] => b_id <$> list.last (bandl (b_band m) l1) | _ => qb_last qb end in
  set_qb_last last (set_qb_first first qb).

Definition unlinked (l1 : list mblk) (m : mblk) (l2 : list mblk) (q : queue) : queue :=
  let q := set_q_msgs (l1 ++ l2) q in
  if b_band m =? 0 then q else upd_band (b_band m) (unlink_band l1 m l2) q.

(** What a record update of one band does, seen from any index. *)
Lemma upd_band_lookup b f q i qb :
  1 ≤ b → q_bandp (upd_band b f q) !! i = Some qb →
  ∃ qb0, q_bandp q !! i = Some qb0 ∧ qb = (if decide (Z.of_nat i + 1 = b) then f qb0 else qb0).
Proof.
  intros Hb. unfold upd_band. simpl. rewrite list_lookup_alter.
  destruct (decide (Z.to_nat (b - 1) = i)) as [<-|Hne].
  - destruct (q_bandp q !! Z.to_nat (b - 1)) as [qb0|]; [|done]. intros [= <-].
    exists qb0. by rewrite decide_True by lia.
  - intros ->. exists qb. by rewrite decide_False by lia.
Qed.

Lemma nband_upd b f q : q_nband (upd_band b f q) = q_nband q.
Proof. unfold q_nband, upd_band. simpl. by rewrite length_alter. Qed.

(** [put_account] and [get_account] touch counts and flags only. *)
Definition same_shape (q q' : queue) : Prop :=
  q_msgs q' = q_msgs q ∧ q_nband q' = q_nband q ∧ q_hiwat q' = q_hiwat q ∧
  q_lowat q' = q_lowat q ∧ q_srvp q' = q_srvp q ∧ q_out q' = q_out q.

Lemma put_account_shape m q : same_shape q (put_account (qbp_of m) m q).
Proof.
  unfold same_shape, qbp_of, put_account. case_ifs; simpl; rewrite ?nband_upd; done.
Qed.

Lemma get_account_shape m q : same_shape q (get_account m q).
Proof.
  unfold same_shape, get_account. case_ifs; simpl; rewrite ?nband_upd; done.
Qed.

Lemma put_account_count m q : in_u32 (q_count q) →
  q_count (put_account (qbp_of m) m q) =
  w32 (q_count q + if decide (b_band m = 0) then bytes m else 0).
Proof.
  intros Hc. unfold put_account, qbp_of. destruct (Z.eqb_spec (b_band m) 0) as [E|E].
  - rewrite decide_True by done. rewrite <-add_sizes_spec by done. case_ifs; done.
  - rewrite decide_False by done. simpl. by rewrite Z.add_0_r, w32_id.
Qed.

Lemma get_account_count m q : in_u32 (q_count q) →
  q_count (get_account m q) = w32 (q_count q - if decide (b_band m = 0) then bytes m else 0).
Proof.
  intros Hc. unfold get_account. destruct (Z.eqb_spec (b_band m) 0) as [E|E].
  - rewrite decide_True by done. rewrite <-sub_sizes_spec by done. case_ifs; done.
  - rewrite decide_False by done. simpl. by rewrite Z.sub_0_r, w32_id.
Qed.

Lemma put_account_band m q i qb : 0 ≤ b_band m →
  q_bandp (put_account (qbp_of m) m q) !! i = Some qb →
  ∃ qb0, q_bandp q !! i = Some qb0 ∧ qb_first qb = qb_first qb0 ∧ qb_last qb = qb_last qb0 ∧
    qb_count qb = (if decide (Z.of_nat i + 1 = b_band m) then add_sizes m (qb_count qb0) else qb_count qb0).
Proof.
  intros Hb. unfold put_account, qbp_of. destruct (Z.eqb_spec (b_band m) 0) as [E|E].
  - intros H. exists qb. rewrite decide_False by lia. split_and!; [|done..].
    revert H. by case_if.
  - intros (qb0 & H0 & ->)%upd_band_lookup; [|lia]. exists qb0. split; [done|].
    case_decide; [|done]. by case_ifs.
Qed.

Lemma get_account_band m q i qb : 0 ≤ b_band m →
  q_bandp (get_account m q) !! i = Some qb →
  ∃ qb0, q_bandp q !! i = Some qb0 ∧ qb_first qb = qb_first qb0 ∧ qb_last qb = qb_last qb0 ∧
    qb_count qb = (if decide (Z.of_nat i + 1 = b_band m) then sub_sizes m (qb_count qb0) else qb_count qb0).
Proof.
  intros Hb. unfold get_account. destruct (Z.eqb_spec (b_band m) 0) as [E|E].
  - intros H. exists qb. rewrite decide_False by lia. split_and!; [|done..].
    revert H. by case_if.
  - intros (qb0 & H0 & ->)%upd_band_lookup; [|lia]. exists qb0. split; [done|].
    case_decide; [|done]. by case_ifs.
Qed.

Lemma linked_fields l1 m l2 q :
  q_msgs (linked l1 m l2 q) = l1 ++ m :: l2 ∧ q_nband (linked l1 m l2 q) = q_nband q ∧
  q_count (linked l1 m l2 q) = q_count q.
Proof. unfold linked. case_if; rewrite ?nband_upd; done. Qed.

Lemma unlinked_fields l1 m l2 q :
  q_msgs (unlinked l1 m l2 q) = l1 ++ l2 ∧ q_nband (unlinked l1 m l2 q) = q_nband q ∧
  q_count (unlinked l1 m l2 q) = q_count q.
Proof. unfold unlinked. case_if; rewrite ?nband_upd; done. Qed.

Lemma linked_band l1 m l2 q i qb : 0 ≤ b_band m →
  q_bandp (linked l1 m l2 q) !! i = Some qb →
  ∃ qb0, q_bandp q !! i = Some qb0 ∧
    qb = (if decide (Z.of_nat i + 1 = b_band m) then relink l1 m l2 qb0 else qb0).
Proof.
  intros Hb. unfold linked. destruct (Z.eqb_spec (b_band m) 0) as [E|E].
  - exists qb. by rewrite decide_False by lia.
  - intros H. apply upd_band_lookup in H; [|lia]. done.
Qed.

Lemma unlinked_band l1 m l2 q i qb : 0 ≤ b_band m →
  q_bandp (unlinked l1 m l2 q) !! i = Some qb →
  ∃ qb0, q_bandp q !! i = Some qb0 ∧
    qb = (if decide (Z.of_nat i + 1 = b_band m) then unlink_band l1 m l2 qb0 else qb0).
Proof.
  intros Hb. unfold unlinked. destruct (Z.eqb_spec (b_band m) 0) as [E|E].
  - exists qb. by rewrite decide_False by lia.
  - intros H. apply upd_band_lookup in H; [|lia]. done.
Qed.

(** The pointers of the band after linking. *)
Lemma relink_rep l1 m l2 qb :
  band_rep (l1 ++ l2) (b_band m) qb →
  qb_first (relink l1 m l2 qb) = b_id <$> head (bandl (b_band m) (l1 ++ m :: l2)) ∧
  qb_last (relink l1 m l2 qb) = b_id <$> last (bandl (b_band m) (l1 ++ m :: l2)).
Proof.
  intros (Hf & Hl & _). unfold relink.
  rewrite bandl_mid, decide_True by done. rewrite bandl_app in Hf, Hl. simpl. split.
  - destruct (bandl (b_band m) l1); [done|]. exact Hf.
  - destruct (bandl (b_band m) l2) as [|x l]; [by rewrite last_app|].
    rewrite Hl. by rewrite !last_app.
Qed.

Lemma unlink_rep l1 m l2 qb :
  band_rep (l1 ++ m :: l2) (b_band m) qb →
  qb_first (unlink_band l1 m l2 qb) = b_id <$> head (bandl (b_band m) (l1 ++ l2)) ∧
  qb_last (unlink_band l1 m l2 qb) = b_id <$> last (bandl (b_band m) (l1 ++ l2)).
Proof.
  intros (Hf & Hl & _). unfold unlink_band.
  rewrite bandl_mid, decide_True in Hf, Hl by done. rewrite bandl_app. simpl. split.
  - destruct (bandl (b_band m) l1); [done|]. exact Hf.
  - destruct (bandl (b_band m) l2) as [|x l]; [by rewrite app_nil_r|].
    rewrite Hl, !last_app. by destruct (last (x :: l)) eqn:E; [|apply last_None in E].
Qed.

Lemma band_rep_other l1 m l2 b qb :
  b_band m ≠ b → band_rep (l1 ++ l2) b qb ↔ band_rep (l1 ++ m :: l2) b qb.
Proof.
  intros Hb. unfold band_rep. by rewrite bandl_mid, decide_False, bandl_app by done.
Qed.

Lemma linked_wf l1 m l2 q :
  queue_wf q → q_msgs q = l1 ++ l2 → ordered (l1 ++ m :: l2) → b_id m ∉ (b_id <$> q_msgs q) →
  msg_ok (q_nband q) m → queue_wf (put_account (qbp_of m) m (linked l1 m l2 q)).
Proof.
  intros [Hnd Ho Hms Hbs Hct Hnb] Hq Ho' Hfresh Hm.
  destruct (put_account_shape m (linked l1 m l2 q)) as (Sm & Sn & _).
  destruct (linked_fields l1 m l2 q) as (Lm & Ln & Lc).
  assert (0 ≤ b_band m) as Hb0 by apply Hm.
  rewrite Hq in *. rewrite fmap_app in Hnd, Hfresh.
  split; rewrite ?Sm, ?Sn, ?Ln, ?Lm; try done.
  - rewrite fmap_app, fmap_cons, <-Permutation_middle. by constructor.
  - apply Forall_app in Hms as [Hm1 Hm2]. apply Forall_app. split; [done|]. by constructor.
  - intros i qb (qb1 & H1 & Hf & Hl & Hc)%put_account_band; [|done].
    apply linked_band in H1 as (qb0 & H0 & ->); [|done]. specialize (Hbs i qb0 H0).
    case_decide as E.
    + rewrite E in Hbs |- *. destruct (relink_rep l1 m l2 qb0 Hbs) as [Rf Rl].
      split_and!; [by rewrite Hf|by rewrite Hl|]. rewrite Hc. simpl.
      destruct Hbs as (_ & _ & ->). rewrite add_sizes_spec by apply w32_range.
      by rewrite w32_add_l, total_band_add, decide_True.
    + apply (band_rep_other l1 m l2) in Hbs; [|done]. destruct Hbs as (? & ? & ?).
      split_and!; congruence.
  - rewrite put_account_count by (rewrite Lc, Hct; apply w32_range).
    by rewrite Lc, Hct, w32_add_l, total_band_add.
Qed.

Lemma unlinked_wf l1 m l2 q :
  queue_wf q → q_msgs q = l1 ++ m :: l2 → queue_wf (get_account m (unlinked l1 m l2 q)).
Proof.
  intros [Hnd Ho Hms Hbs Hct Hnb] Hq.
  destruct (get_account_shape m (unlinked l1 m l2 q)) as (Sm & Sn & _).
  destruct (unlinked_fields l1 m l2 q) as (Lm & Ln & Lc).
  rewrite Hq in *.
  assert (msg_ok (q_nband q) m) as Hm.
  { rewrite Forall_forall in Hms. apply Hms. set_solver. }
  assert (0 ≤ b_band m) as Hb0 by apply Hm.
  split; rewrite ?Sm, ?Sn, ?Ln, ?Lm; try done.
  - rewrite fmap_app, fmap_cons, <-Permutation_middle in Hnd. rewrite fmap_app.
    by apply NoDup_cons in Hnd as [_ Hnd].
  - by apply ordered_remove in Ho.
  - apply Forall_app in Hms as [Hm1 Hm2]. apply Forall_cons in Hm2 as [_ Hm2].
    apply Forall_app. by split.
  - intros i qb (qb1 & H1 & Hf & Hl & Hc)%get_account_band; [|done].
    apply unlinked_band in H1 as (qb0 & H0 & ->); [|done]. specialize (Hbs i qb0 H0).
    case_decide as E.
    + rewrite E in Hbs |- *. destruct (unlink_rep l1 m l2 qb0 Hbs) as [Rf Rl].
      split_and!; [by rewrite Hf|by rewrite Hl|]. rewrite Hc. simpl.
      destruct Hbs as (_ & _ & ->). rewrite sub_sizes_spec by apply w32_range.
      rewrite w32_sub_l, total_band_add, decide_True by done. f_equal. lia.
    + apply (band_rep_other l1 m l2) in Hbs; [|done]. destruct Hbs as (? & ? & ?).
      split_and!; congruence.
  - rewrite get_account_count by (rewrite Lc, Hct; apply w32_range).
    rewrite Lc, Hct, w32_sub_l, total_band_add. f_equal. lia.
Qed.

Lemma upd_band_ext b f g q :
  (∀ qb, q_bandp q !! Z.to_nat (b - 1) = Some qb → f qb = g qb) → upd_band b f q = upd_band b g q.
Proof. intros H. unfold upd_band. f_equal. by apply list_alter_ext. Qed.

Lemma upd_band_compose b f g q : upd_band b f (upd_band b g q) = upd_band b (f ∘ g) q.
Proof. unfold upd_band. simpl. rewrite list_alter_alter_eq. done. Qed.

Lemma upd_band_msgs b f l q : upd_band b f (set_q_msgs l q) = set_q_msgs l (upd_band b f q).
Proof. done. Qed.

Lemma band_at_wf q b : queue_wf q → 1 ≤ b ≤ q_nband q →
  ∃ qb, band_at q b = Ret qb ∧ q_bandp q !! Z.to_nat (b - 1) = Some qb ∧ band_rep (q_msgs q) b qb.
Proof.
  intros Hwf Hb. destruct (zget_in (q_bandp q) (b - 1)) as (qb & Hl & Hg); [unfold q_nband in *; lia|].
  exists qb. split_and!; [done..|]. pose proof (wf_bands q Hwf _ _ Hl) as H.
  by replace (Z.of_nat (Z.to_nat (b - 1)) + 1) with b in H by lia.
Qed.

(** The test on [q_last] tells whether the insertion point is the end. *)
Lemma last_test k l1 l2 t :
  ordered (l1 ++ l2) → Forall (λ t, k ≤ level t) l1 → Forall (λ t, level t < k) l2 →
  last (l1 ++ l2) = Some t → (k <=? level t) = true ∧ l2 = [] ∨ (k <=? level t) = false ∧ l2 ≠ [].
Proof.
  intros Ho H1 H2 Hl. destruct l2 as [|x l2].
  - left. split; [|done]. rewrite app_nil_r in Hl. apply last_Some in Hl as [l' ->].
    apply Forall_app in H1 as [_ H1]. apply Forall_cons in H1 as [H1 _]. by apply Z.leb_le.
  - right. split; [|done]. apply Z.leb_gt. pose proof (ordered_last _ _ Ho Hl) as Hall.
    apply Forall_app in Hall as [_ Hall]. apply Forall_cons in Hall as [Hx _].
    apply Forall_cons in H2 as [H2 _]. lia.
Qed.

(** The last message at or above level [b] is the last of band [b], if there is one. *)
Lemma band_last_split nb b l1 l2 t :
  Forall (msg_ok nb) (l1 ++ l2) → nb ≤ 255 → 1 ≤ b ≤ nb → ordered (l1 ++ l2) →
  Forall (λ t, b ≤ level t) l1 → Forall (λ t, level t < b) l2 →
  last (bandl b (l1 ++ l2)) = Some t → ∃ l1', l1 = l1' ++ [t].
Proof.
  intros Hok Hnb Hb Ho H1 H2 Hl. apply Forall_app in Hok as [Hok1 Hok2].
  rewrite bandl_app, (bandl_nil nb b l2), app_nil_r in Hl; [|done|lia|].
  2: { eapply Forall_impl; [exact H2|]. simpl. lia. }
  apply ordered_app in Ho as (_ & Ho & _).
  destruct l1 as [|x l1'] using rev_ind; [done|]. clear IHl1'.
  exists l1'. do 2 f_equal. rewrite bandl_app in Hl.
  assert (b_band x = b) as Hx.
  { assert (t ∈ bandl b (l1' ++ [x])) as Ht.
    { apply last_Some_elem_of. by rewrite bandl_app. }
    apply list_elem_of_filter in Ht as [Htb Ht].
    rewrite Forall_forall in Hok1. pose proof (Hok1 t Ht) as Hokt.
    assert (level t = b) as Hlt by (apply (band_level nb); [done|lia|done]).
    assert (level x ≤ level t).
    { assert (Forall (λ a, level x ≤ level a) (l1' ++ [x])) as H
        by (apply ordered_last; [done|by rewrite last_snoc]).
      rewrite Forall_forall in H. by apply H. }
    apply Forall_app in H1 as [_ H1]. apply Forall_cons in H1 as [H1 _].
    assert (level x = b) as Hlx by lia. revert Hlx. unfold level. case_if; [lia|done]. }
  rewrite bandl_cons, decide_True in Hl by done. rewrite last_app in Hl. simpl in Hl.
  by injection Hl.
Qed.

Lemma band_first_split nb b l1 l2 t :
  Forall (msg_ok nb) (l1 ++ l2) → nb ≤ 255 → 1 ≤ b ≤ nb → ordered (l1 ++ l2) →
  Forall (λ t, b < level t) l1 → Forall (λ t, level t ≤ b) l2 →
  head (bandl b (l1 ++ l2)) = Some t → ∃ l2', l2 = t :: l2'.
Proof.
  intros Hok Hnb Hb Ho H1 H2 Hl. apply Forall_app in Hok as [Hok1 Hok2].
  rewrite bandl_app, (bandl_nil nb b l1) in Hl; [|done|lia|].
  2: { eapply Forall_impl; [exact H1|]. simpl. lia. }
  simpl in Hl. apply ordered_app in Ho as (_ & _ & Ho).
  destruct l2 as [|x l2]; [done|]. exists l2. f_equal.
  assert (b_band x = b) as Hx.
  { assert (t ∈ bandl b (x :: l2)) as Ht by (by apply head_Some_elem_of).
    apply list_elem_of_filter in Ht as [Htb Ht].
    rewrite Forall_forall in Hok2. pose proof (Hok2 t Ht) as Hokt.
    assert (level t = b) as Hlt by (apply (band_level nb); [done|lia|done]).
    apply Forall_cons in H2 as [H2 _]. apply ordered_cons in Ho as [Ho _].
    assert (level x = b) as Hlx.
    { apply elem_of_cons in Ht as [->|Ht]; [done|].
      rewrite Forall_forall in Ho. specialize (Ho t Ht). lia. }
    revert Hlx. unfold level. case_if; [lia|done]. }
  rewrite bandl_cons, decide_True in Hl by done. by injection Hl.
Qed.

(** The predicates the loops test, in terms of levels. *)
Lemma qpctl_or_band nb k t : nb ≤ 255 → msg_ok nb t → k ≤ 256 →
  (QPCTL <=? db_type t) || (k <=? b_band t) = (k <=? level t).
Proof.
  intros Hnb (Hb & _) Hk. unfold level.
  destruct (QPCTL <=? db_type t); simpl; [|done]. symmetry. apply Z.leb_le. lia.
Qed.

(** On a well-formed queue the loops over high-priority messages and bands insert
    at the first message below level [k]. *)
Lemma ins_skip2_level nb k p2 m l1 l2 :
  nb ≤ 255 → Forall (msg_ok nb) (l1 ++ l2) → ordered (l1 ++ l2) → k ≤ 256 →
  (∀ t, p2 t = (k <=? b_band t)) →
  Forall (λ t, k ≤ level t) l1 → Forall (λ t, level t < k) l2 → l2 ≠ [] →
  ins_skip2 (λ t, QPCTL <=? db_type t) p2 m (l1 ++ l2) = Ret (l1 ++ m :: l2).
Proof.
  intros Hnb Hok Ho Hk Hp H1 H2 Hne. apply ins_skip2_split; try done.
  - apply Forall_app in Hok as [Hok _]. rewrite Forall_forall in H1, Hok |- *. intros t Ht.
    rewrite Hp, (qpctl_or_band nb) by auto. by apply Z.leb_le, H1.
  - apply Forall_app in Hok as [_ Hok]. rewrite Forall_forall in H2, Hok |- *. intros t Ht.
    rewrite Hp, (qpctl_or_band nb) by auto. by apply Z.leb_gt, H2.
  - eapply Forall_impl; [exact Hok|]. simpl. intros t [? _]. lia.
Qed.

(** The test on the last message, in terms of levels. *)
Lemma class_or_band nb k t : nb ≤ 255 → msg_ok nb t → k ≤ 256 →
  (QNORM <? queclass t) || (k <=? b_band t) = (k <=? level t).
Proof.
  intros Hnb Ht Hk. rewrite <-(qpctl_or_band nb) by done. unfold queclass. f_equal.
  by destruct (QPCTL <=? db_type t).
Qed.

Lemma nodup_mid l1 m l2 : NoDup (b_id <$> (l1 ++ (m :: l2))) → b_id m ∉ (b_id <$> l1).
Proof.
  rewrite fmap_app, fmap_cons. intros (_ & H & _)%NoDup_app Hin.
  eapply H; [exact Hin|]. apply elem_of_cons. by left.
Qed.

Lemma putq_link_ok q m :
  queue_wf q → msg_ok (q_nband q) m →
  ∃ l1 l2, q_msgs q = l1 ++ l2 ∧ Forall (λ t, level m ≤ level t) l1 ∧
    Forall (λ t, level t < level m) l2 ∧
    putq_link q (qbp_of m) m (queclass m) = Ret (linked l1 m l2 q).
Proof.
  intros Hwf Hm. destruct (ordered_split (level m) (q_msgs q)) as (l1 & l2 & Hq & H1 & H2);
    [apply Hwf|].
  exists l1, l2. split_and!; [done..|].
  pose proof (wf_ordered q Hwf) as Ho. pose proof (wf_msgs q Hwf) as Hok.
  pose proof (wf_nband q Hwf) as Hnb. pose proof (level_range _ _ Hnb Hm) as Hlev.
  rewrite Hq in Ho, Hok. unfold putq_link, linked, qbp_of. rewrite Hq.
  destruct (l1 ++ l2) as [|x l] eqn:El.
  { apply app_eq_nil in El as [-> ->]. case_if; [done|]. by rewrite upd_band_msgs. }
  rewrite <-El in Ho, Hok, Hq |- *.
  destruct (last (l1 ++ l2)) as [t|] eqn:Hlast; [|apply last_None in Hlast; congruence].
  assert (msg_ok (q_nband q) t) as Hokt.
  { rewrite Forall_forall in Hok. by apply Hok, last_Some_elem_of. }
  pose proof (last_test _ _ _ _ Ho H1 H2 Hlast) as Htest. unfold q_last.
  destruct (Z.eqb_spec (b_band m) 0) as [E|E]; rewrite Hlast; cbn [rbind].
  - rewrite (level_class _ _ _ Hnb Hm Hokt E).
    destruct Htest as [[-> ->]|[-> Hne]]; [by rewrite app_nil_r|].
    rewrite ins_skip_split; [done| | |done].
    + apply Forall_app in Hok as [Hok _]. rewrite Forall_forall in H1, Hok |- *. intros y Hy.
      rewrite (level_class (q_nband q)) by auto. by apply Z.leb_le, H1.
    + apply Forall_app in Hok as [_ Hok]. rewrite Forall_forall in H2, Hok |- *. intros y Hy.
      rewrite (level_class (q_nband q)) by auto. by apply Z.leb_gt, H2.
  - destruct (level_norm _ _ Hm E) as [Hc Hl]. rewrite Hl in *. rewrite Hc.
    assert (1 ≤ b_band m ≤ q_nband q) as Hbr by (destruct Hm; lia).
    destruct (band_at_wf q (b_band m) Hwf Hbr) as (qb & -> & Hqb & Hf & Hla & _). cbn [rbind].
    rewrite Hq in Hf, Hla.
    destruct (bandl (b_band m) (l1 ++ l2)) as [|y yl] eqn:Eb.
    + rewrite Hf. cbn [fmap option_fmap option_map head].
      rewrite (class_or_band _ _ _ Hnb Hokt) by lia.
      assert (upd_band (b_band m) (relink l1 m l2) q =
        upd_band (b_band m) (set_qb_last (Some (b_id m)))
          (upd_band (b_band m) (set_qb_first (Some (b_id m))) q)) as Hu.
      { rewrite upd_band_compose. apply upd_band_ext. intros qb' _. unfold relink.
        rewrite bandl_app in Eb. by apply app_eq_nil in Eb as [-> ->]. }
      rewrite (upd_band_msgs _ (relink _ _ _)), Hu.
      destruct Htest as [[-> ->]|[-> Hne]]; [by rewrite app_nil_r|].
      by rewrite (ins_skip2_level (q_nband q) (b_band m)) by (done || lia).
    + destruct (last (y :: yl)) as [z|] eqn:Ez; [|by apply last_None in Ez].
      rewrite Hf, Hla. cbn [fmap option_fmap option_map head].
      rewrite <-Eb in Ez.
      destruct (band_last_split (q_nband q) (b_band m) l1 l2 z) as [l1' ->]; try done.
      pose proof (wf_nodup q Hwf) as Hnd. rewrite Hq, <-app_assoc in Hnd.
      rewrite <-app_assoc. simpl. rewrite ins_after_split; [|done|by apply nodup_mid in Hnd].
      cbn [rbind]. rewrite <-app_assoc. simpl. f_equal. rewrite !upd_band_msgs. f_equal.
      apply upd_band_ext. intros qb' Hqb'. assert (qb' = qb) as -> by congruence.
      unfold relink. rewrite (bandl_nil (q_nband q) _ l2);
        [|by apply Forall_app in Hok as [_ Hok]|lia|eapply Forall_impl; [exact H2|]; simpl; lia].
      destruct (bandl (b_band m) (l1' ++ [z])) eqn:Ebb; [|by destruct qb].
      rewrite bandl_app, Ebb, (bandl_nil (q_nband q) _ l2) in Eb; [done| |lia|].
      * by apply Forall_app in Hok as [_ Hok].
      * eapply Forall_impl; [exact H2|]. simpl. lia.
Qed.

Lemma putbq_link_ok q m :
  queue_wf q → msg_ok (q_nband q) m →
  ∃ l1 l2, q_msgs q = l1 ++ l2 ∧ Forall (λ t, level m + 1 ≤ level t) l1 ∧
    Forall (λ t, level t < level m + 1) l2 ∧
    putbq_link q (qbp_of m) m (queclass m) = Ret (linked l1 m l2 q).
Proof.
  intros Hwf Hm. destruct (ordered_split (level m + 1) (q_msgs q)) as (l1 & l2 & Hq & H1 & H2);
    [apply Hwf|].
  exists l1, l2. split_and!; [done..|].
  pose proof (wf_ordered q Hwf) as Ho. pose proof (wf_msgs q Hwf) as Hok.
  pose proof (wf_nband q Hwf) as Hnb. pose proof (level_range _ _ Hnb Hm) as Hlev.
  rewrite Hq in Ho, Hok. unfold putbq_link, linked, qbp_of. rewrite Hq.
  destruct (l1 ++ l2) as [|x l] eqn:El.
  { apply app_eq_nil in El as [-> ->]. simpl. case_if; [done|]. by rewrite upd_band_msgs. }
  rewrite <-El in Ho, Hok, Hq |- *. simpl (_ || _)%bool.
  destruct (queclass m =? QPCTL) eqn:Hcls.
  { assert (level m = 256 ∧ b_band m = 0) as [Hl Hb0].
    { revert Hcls. destruct Hm as (_ & Hp & _). unfold queclass, level. case_if; [|done].
      intros _. split; [done|]. by apply Hp. }
    destruct l1 as [|y l1]; [by rewrite Hb0|]. apply Forall_cons in H1 as [H1 _].
    apply Forall_app in Hok as [Hok _]. apply Forall_cons in Hok as [Hok _].
    pose proof (level_range _ _ Hnb Hok). lia. }
  assert (level m = b_band m ∧ queclass m = QNORM) as [Hl Hc].
  { revert Hcls. unfold queclass, level. by case_if. }
  rewrite Hl in *. rewrite Hc.
  destruct (last (l1 ++ l2)) as [t|] eqn:Hlast; [|apply last_None in Hlast; congruence].
  assert (msg_ok (q_nband q) t) as Hokt.
  { rewrite Forall_forall in Hok. by apply Hok, last_Some_elem_of. }
  pose proof (last_test _ _ _ _ Ho H1 H2 Hlast) as Htest.
  pose proof (class_or_band _ (b_band m + 1) _ Hnb Hokt) as Hcb.
  assert (∀ t, (b_band m <? b_band t) = (b_band m + 1 <=? b_band t)) as Hlt
    by (intros ?; destruct (Z.ltb_spec (b_band m) (b_band t0)); symmetry; [apply Z.leb_le|apply Z.leb_gt]; lia).
  unfold q_last.
  destruct (Z.eqb_spec (b_band m) 0) as [E|E]; rewrite Hlast; cbn [rbind].
  - rewrite Hlt, Hcb by lia. destruct Htest as [[-> ->]|[-> Hne]]; [by rewrite app_nil_r|].
    by rewrite (ins_skip2_level (q_nband q) (b_band m + 1)) by (done || lia).
  - destruct (level_norm _ _ Hm E) as [_ _].
    assert (1 ≤ b_band m ≤ q_nband q) as Hbr by (destruct Hm; lia).
    destruct (band_at_wf q (b_band m) Hwf Hbr) as (qb & -> & Hqb & Hf & Hla & _). cbn [rbind].
    rewrite Hq in Hf, Hla.
    destruct (bandl (b_band m) (l1 ++ l2)) as [|y yl] eqn:Eb.
    + rewrite Hf. cbn [fmap option_fmap option_map head]. rewrite Hlt, Hcb by lia.
      assert (upd_band (b_band m) (relink l1 m l2) q =
        upd_band (b_band m) (set_qb_first (Some (b_id m)))
          (upd_band (b_band m) (set_qb_last (Some (b_id m))) q)) as Hu.
      { rewrite upd_band_compose. apply upd_band_ext. intros qb' _. unfold relink.
        rewrite bandl_app in Eb. by apply app_eq_nil in Eb as [-> ->]. }
      rewrite (upd_band_msgs _ (relink _ _ _)), Hu.
      destruct Htest as [[-> ->]|[-> Hne]]; [by rewrite app_nil_r|].
      by rewrite (ins_skip2_level (q_nband q) (b_band m + 1)) by (done || lia).
    + rewrite Hf. cbn [fmap option_fmap option_map head].
      destruct (band_first_split (q_nband q) (b_band m) l1 l2 y) as [l2' ->]; try done.
      { eapply Forall_impl; [exact H1|]. simpl. lia. }
      { eapply Forall_impl; [exact H2|]. simpl. lia. }
      { by rewrite Eb. }
      pose proof (wf_nodup q Hwf) as Hnd. rewrite Hq in Hnd.
      rewrite ins_before_split; [|done|by apply nodup_mid in Hnd].
      cbn [rbind]. f_equal. rewrite !upd_band_msgs. f_equal.
      apply upd_band_ext. intros qb' Hqb'. assert (qb' = qb) as -> by congruence.
      assert (bandl (b_band m) l1 = []) as Hl1.
      { apply (bandl_nil (q_nband q)); [by apply Forall_app in Hok as [Hok _]|lia|].
        eapply Forall_impl; [exact H1|]. simpl. lia. }
      rewrite bandl_app, Hl1 in Eb. simpl in Eb. unfold relink. rewrite Hl1, Eb. by destruct qb.
Qed.
