(* ===== verification/StreamsOps.v ===== *)
(** * STREAMS queues: what the queue routines do

    The functional theorems on [putq], [putbq], [insq], [getq], [rmvq], [flushq] and
    [flushband] of [Streams], on the representation invariant [queue_wf]. *)

From S2P Require Import Prelude Streams.

(** ** Frame lemmas *)

(** The invariant looks at messages, counts and band pointers only. *)
Lemma wf_core q q' :
  q_msgs q' = q_msgs q → q_count q' = q_count q → q_nband q' = q_nband q →
  (∀ i qb', q_bandp q' !! i = Some qb' → ∃ qb, q_bandp q !! i = Some qb ∧
     qb_first qb' = qb_first qb ∧ qb_last qb' = qb_last qb ∧ qb_count qb' = qb_count qb) →
  queue_wf q → queue_wf q'.
Proof.
  intros Hm Hc Hn Hb [Hnd Ho Hms Hbs Hct Hnb]. split; rewrite ?Hm, ?Hn; try done.
  - intros i qb' (qb & Hqb & ? & ? & ?)%Hb. destruct (Hbs i qb Hqb) as (? & ? & ?).
    split_and!; congruence.
  - by rewrite Hc.
Qed.

Lemma wf_core_eq q q' :
  q_msgs q' = q_msgs q → q_count q' = q_count q → q_bandp q' = q_bandp q →
  queue_wf q → queue_wf q'.
Proof.
  intros ?? Hb. apply wf_core; [done..| |].
  - unfold q_nband. by rewrite Hb.
  - intros i qb' Hl. rewrite Hb in Hl. by exists qb'.
Qed.

Lemma qenable_locked_core q :
  q_msgs (qenable_locked q) = q_msgs q ∧ q_count (qenable_locked q) = q_count q ∧
  q_bandp (qenable_locked q) = q_bandp q ∧ q_hiwat (qenable_locked q) = q_hiwat q ∧
  q_lowat (qenable_locked q) = q_lowat q ∧ q_srvp (qenable_locked q) = q_srvp q.
Proof. unfold qenable_locked. case_ifs; done. Qed.

Lemma qenable_locked_wf q : queue_wf q → queue_wf (qenable_locked q).
Proof. by apply wf_core_eq; apply qenable_locked_core. Qed.

(** ** Allocating bands *)

Definition new_band (q : queue) : qband := Qband 0 None None (q_hiwat q) (q_lowat q) 0.

Lemma grow_bands_spec need avail q :
  grow_bands need avail q =
  (need <=? avail, set_q_bandp (q_bandp q ++ replicate (need `min` avail) (new_band q)) q)%nat.
Proof.
  revert avail q. induction need as [|need IH]; intros [|avail] q; simpl.
  1-3: rewrite app_nil_r; by destruct q.
  rewrite IH. simpl. unfold new_band, set_q_bandp. simpl. by rewrite <-app_assoc.
Qed.

Lemma grown_wf n q :
  queue_wf q → q_nband q + Z.of_nat n ≤ 255 →
  queue_wf (set_q_bandp (q_bandp q ++ replicate n (new_band q)) q).
Proof.
  intros [Hnd Ho Hms Hbs Hct Hnb] Hn. unfold q_nband in *.
  split; simpl; unfold q_nband; simpl; try done.
  - eapply Forall_impl; [exact Hms|]. unfold msg_ok. rewrite length_app, length_replicate.
    intros m (? & ? & ?). split_and!; [lia..|done|done].
  - intros i qb Hi. apply lookup_app_Some in Hi as [Hi|[Hi Hr]]; [by apply Hbs|].
    apply lookup_replicate in Hr as [-> Hr].
    assert (bandl (Z.of_nat i + 1) (q_msgs q) = []) as Hnil.
    { clear Hbs Hnd Ho Hct. induction Hms as [|m l Hm Hl IH]; [done|].
      rewrite bandl_cons, decide_False; [done|]. destruct Hm. lia. }
    unfold band_rep. rewrite Hnil. done.
  - rewrite length_app, length_replicate. lia.
Qed.

(** What [need_band] guarantees. *)
Lemma need_band_spec avail b q : queue_wf q → b ≤ 255 →
  ∃ ok n, need_band avail b q = (ok, set_q_bandp (q_bandp q ++ replicate n (new_band q)) q) ∧
    queue_wf (set_q_bandp (q_bandp q ++ replicate n (new_band q)) q) ∧
    (ok = true ↔ b ≤ q_nband q + Z.of_nat avail) ∧
    (ok = true → b ≤ q_nband (set_q_bandp (q_bandp q ++ replicate n (new_band q)) q)).
Proof.
  intros Hwf Hb. unfold need_band. destruct (Z.ltb_spec (q_nband q) b) as [Hlt|Hge].
  - rewrite grow_bands_spec. do 2 eexists. split; [done|].
    assert (0 ≤ q_nband q) by (unfold q_nband; lia). split; [|split].
    + apply grown_wf; [done|]. lia.
    + rewrite Nat.leb_le. lia.
    + intros Hle%Nat.leb_le. unfold q_nband in *. simpl.
      rewrite length_app, length_replicate. lia.
  - exists true, O. split_and!.
    + simpl. rewrite app_nil_r. by destruct q.
    + apply grown_wf; [done|]. pose proof (wf_nband q Hwf). lia.
    + split; [lia|done].
    + intros _. unfold q_nband. simpl. by rewrite app_nil_r.
Qed.

(** ** Putting *)

(** A message as the put routines file it: high-priority messages have band 0. *)
Definition filed (m : mblk) : mblk := if QPCTL <=? db_type m then set_b_band 0 m else m.

(** A message a caller may put: not on the queue, band and sizes in range. *)
Definition msg_in (q : queue) (m : mblk) : Prop :=
  0 ≤ b_band m ≤ 255 ∧ Forall (λ n, 0 ≤ n) (b_sizes m) ∧ b_id m ∉ (b_id <$> q_msgs q).

(** Enough band records exist or can be allocated. *)
Definition band_avail (avail : nat) (q : queue) (m : mblk) : Prop :=
  QPCTL ≤ db_type m ∨ b_band m ≤ q_nband q + Z.of_nat avail.

#[global] Instance band_avail_dec avail q m : Decision (band_avail avail q m).
Proof. unfold band_avail. apply _. Defined.

Lemma filed_level m : level (filed m) = level m.
Proof. unfold filed, level. destruct (QPCTL <=? db_type m) eqn:E; simpl; by rewrite E. Qed.

Lemma filed_class m : queclass (filed m) = queclass m.
Proof. unfold filed, queclass. destruct (QPCTL <=? db_type m) eqn:E; simpl; by rewrite E. Qed.

Lemma filed_id m : b_id (filed m) = b_id m.
Proof. unfold filed. case_ifs; done. Qed.

Lemma set_b_band_0 m : b_band m = 0 → set_b_band 0 m = m.
Proof. destruct m. simpl. by intros ->. Qed.

Lemma put_prepare_spec avail q m : queue_wf q → msg_in q m →
  ∃ ok n, put_prepare avail q m =
    (filed m, qbp_of (filed m),
     (ok, set_q_bandp (q_bandp q ++ replicate n (new_band q)) q)) ∧
    queue_wf (set_q_bandp (q_bandp q ++ replicate n (new_band q)) q) ∧
    (ok = true ↔ band_avail avail q m) ∧
    (ok = true → msg_ok (q_nband (set_q_bandp (q_bandp q ++ replicate n (new_band q)) q)) (filed m)).
Proof.
  intros Hwf (Hb & Hs & Hfr). unfold put_prepare, filed, qbp_of, band_avail, queclass.
  assert (set_q_bandp (q_bandp q ++ replicate 0 (new_band q)) q = q) as Hid
    by (simpl; rewrite app_nil_r; by destruct q).
  assert (0 ≤ q_nband q) by (unfold q_nband; lia).
  destruct (QPCTL <=? db_type m) eqn:Ec; simpl; zb.
  - exists true, O. rewrite Hid. split_and!; [|done|tauto|].
    + destruct (Z.eqb_spec (b_band m) 0); simpl; [|done]. by rewrite set_b_band_0.
    + intros _. by split_and!.
  - destruct (Z.eqb_spec (b_band m) 0) as [E|E]; simpl.
    + exists true, O. rewrite Hid. split_and!; [done|done| |].
      * split; [right; lia|done].
      * intros _. split_and!; [lia..|done|done].
    + destruct (need_band_spec avail (b_band m) q Hwf) as (ok & n & -> & Hwf' & Hok & Hn); [lia|].
      exists ok, n. split_and!; [done|done| |].
      * rewrite Hok. split; [by right|]. intros [?|?]; [lia|done].
      * intros Ht. split_and!; [lia|by apply Hn|lia|done].
Qed.

(** The queue's service procedure will run: it is enabled, or it has none, or
    the queue is closing. *)
Definition will_run (q : queue) : Prop :=
  has (q_flag q) QENAB = true ∨ q_srvp q = false ∨ has (q_flag q) QWCLOSE = true.

Lemma qenable_locked_runs q : will_run (qenable_locked q).
Proof.
  unfold will_run, qenable_locked. rewrite has_lor.
  destruct (q_srvp q) eqn:Es; simpl; [|by right; left].
  destruct (has (q_flag q) QWCLOSE) eqn:Ec; simpl; [by right; right|].
  destruct (has (q_flag q) QENAB) eqn:Ee; simpl; [by left|].
  left. case_if; simpl; flags; done.
Qed.

(** A queue put on the run list is marked, so it is put there once. *)
Lemma qenable_locked_once q :
  q_out (qenable_locked q) = q_out q ∨
  q_out (qenable_locked q) = q_out q ++ [Setqsched] ∧ has (q_flag q) QENAB = false ∧
  has (q_flag q) QINSERVICE = false ∧ has (q_flag (qenable_locked q)) QENAB = true.
Proof.
  unfold qenable_locked. rewrite has_lor.
  destruct (q_srvp q); simpl; [|by left].
  destruct (has (q_flag q) QWCLOSE); simpl; [by left|].
  destruct (has (q_flag q) QENAB) eqn:Ee; simpl; [by left|].
  flags. destruct (has (q_flag q) QINSERVICE) eqn:Ei; [by left|]. right. simpl. flags. done.
Qed.

Lemma msg_in_fresh q m : msg_in q m → b_id (filed m) ∉ (b_id <$> q_msgs q).
Proof. rewrite filed_id. by intros (_ & _ & H). Qed.

(** Linking a message where its level allows, and accounting for it, keeps the
    queue well formed; the tail of the put routines changes nothing else. *)
Lemma put_result q m l1 l2 (enable : bool) :
  queue_wf q → msg_ok (q_nband q) m → b_id m ∉ (b_id <$> q_msgs q) →
  q_msgs q = l1 ++ l2 → Forall (λ t, level m ≤ level t) l1 → Forall (λ t, level t ≤ level m) l2 →
  let q1 := put_account (qbp_of m) m (linked l1 m l2 q) in
  let q2 := if enable then qenable_locked q1 else q1 in
  queue_wf q2 ∧ q_msgs q2 = l1 ++ m :: l2.
Proof.
  intros Hwf Hm Hf Hq H1 H2 q1 q2.
  assert (queue_wf q1) as Hwf1.
  { apply linked_wf; try done. apply ordered_insert; try done. rewrite <-Hq. apply Hwf. }
  assert (q_msgs q1 = l1 ++ m :: l2) as Hq1.
  { unfold q1. destruct (put_account_shape m (linked l1 m l2 q)) as (-> & _). apply linked_fields. }
  subst q2. destruct enable; [|done]. split; [by apply qenable_locked_wf|].
  by rewrite (proj1 (qenable_locked_core q1)).
Qed.

(** What [putq] and [putbq] of a fresh message do, in one equation each. *)
Definition put_done (q : queue) (m : mblk) (l1 l2 : list mblk) (en : bool) : queue :=
  let q1 := put_account (qbp_of m) m (linked l1 m l2 q) in if en then qenable_locked q1 else q1.

Lemma putq_shape avail q m : queue_wf q → msg_in q m →
  ∃ n, let q0 := set_q_bandp (q_bandp q ++ replicate n (new_band q)) q in queue_wf q0 ∧
    if decide (band_avail avail q m) then
      ∃ l1 l2 en, putq avail q m = Ret (1, put_done q0 (filed m) l1 l2 en) ∧
        msg_ok (q_nband q0) (filed m) ∧ q_msgs q = l1 ++ l2 ∧
        Forall (λ t, level m ≤ level t) l1 ∧ Forall (λ t, level t < level m) l2
    else putq avail q m = Ret (0, q0).
Proof.
  intros Hwf Hin. unfold putq.
  destruct (put_prepare_spec avail q m Hwf Hin) as (ok & n & -> & Hwf' & Hok & Hm).
  exists n. cbv zeta. set (q0 := set_q_bandp _ q) in *. split; [done|]. case_decide as Hav.
  - assert (ok = true) as -> by (by apply Hok). specialize (Hm eq_refl).
    destruct (putq_link_ok q0 (filed m) Hwf' Hm) as (l1 & l2 & Hq & H1 & H2 & Hl).
    rewrite filed_class in Hl. rewrite Hl. cbn [rbind]. clear Hl. rewrite filed_level in H1, H2.
    exists l1, l2. by eexists.
  - destruct ok; [|done]. by destruct Hav; apply Hok.
Qed.

Lemma putbq_shape avail q m : queue_wf q → msg_in q m →
  ∃ n, let q0 := set_q_bandp (q_bandp q ++ replicate n (new_band q)) q in queue_wf q0 ∧
    if decide (band_avail avail q m) then
      ∃ l1 l2 en, putbq avail q m = Ret (1, put_done q0 (filed m) l1 l2 en) ∧
        msg_ok (q_nband q0) (filed m) ∧ q_msgs q = l1 ++ l2 ∧
        Forall (λ t, level m < level t) l1 ∧ Forall (λ t, level t ≤ level m) l2
    else putbq avail q m = Ret (0, q0).
Proof.
  intros Hwf Hin. unfold putbq.
  destruct (put_prepare_spec avail q m Hwf Hin) as (ok & n & -> & Hwf' & Hok & Hm).
  exists n. cbv zeta. set (q0 := set_q_bandp _ q) in *. split; [done|]. case_decide as Hav.
  - assert (ok = true) as -> by (by apply Hok). specialize (Hm eq_refl).
    destruct (putbq_link_ok q0 (filed m) Hwf' Hm) as (l1 & l2 & Hq & H1 & H2 & Hl).
    rewrite filed_class in Hl. rewrite Hl. cbn [rbind]. clear Hl. rewrite filed_level in H1, H2.
    exists l1, l2. eexists. split_and!; [done..| |].
    + eapply Forall_impl; [exact H1|]. simpl. lia.
    + eapply Forall_impl; [exact H2|]. simpl. lia.
  - destruct ok; [|done]. by destruct Hav; apply Hok.
Qed.

(** C5: [putq] of a fresh message never faults.  If the band records it needs
    exist or can be allocated it returns 1 and the message stands behind every
    message of its level or above and before every message of a lower level, the
    rest of the queue untouched: high-priority messages first, then bands in
    descending order, first in first out inside a level.  The queue stays well
    formed (counts and band pointers included), and its service procedure will run
    if the message has high priority, or if the queue may be enabled and either
    someone waits for data or the message has a band.  Otherwise it returns 0 and
    the messages are as they were. *)
Theorem putq_correct avail q m :
  queue_wf q → msg_in q m →
  ∃ r q', putq avail q m = Ret (r, q') ∧ queue_wf q' ∧
    if decide (band_avail avail q m) then
      r = 1 ∧
      (∃ l1 l2, q_msgs q = l1 ++ l2 ∧ q_msgs q' = l1 ++ filed m :: l2 ∧
         Forall (λ t, level m ≤ level t) l1 ∧ Forall (λ t, level t < level m) l2) ∧
      (QPCTL ≤ db_type m ∨
       has (q_flag q) QNOENB = false ∧ (has (q_flag q) QWANTR = true ∨ b_band m ≠ 0) →
       will_run q')
    else r = 0 ∧ q_msgs q' = q_msgs q.
Proof.
  intros Hwf Hin. unfold putq.
  destruct (put_prepare_spec avail q m Hwf Hin) as (ok & n & -> & Hwf' & Hok & Hm).
  set (q0 := set_q_bandp _ q) in *. case_decide as Hav.
  - assert (ok = true) as -> by (by apply Hok). specialize (Hm eq_refl).
    destruct (putq_link_ok q0 (filed m) Hwf' Hm) as (l1 & l2 & Hq & H1 & H2 & Hl).
    rewrite filed_class in Hl. rewrite Hl. cbn [rbind]. clear Hl.
    do 2 eexists. split; [done|].
    match goal with |- queue_wf (if ?b then _ else _) ∧ _ =>
      destruct (put_result q0 (filed m) l1 l2 b Hwf' Hm) as [Hwf2 Hq2];
      [by apply msg_in_fresh|done|done|eapply Forall_impl; [exact H2|]; simpl; lia|];
      cbv zeta in Hwf2, Hq2; set (en := b) in *
    end.
    split; [exact Hwf2|]. split; [done|]. split.
    + exists l1, l2. rewrite filed_level in H1, H2. by split_and!.
    + intros Hen. assert (en = true) as ->; [|apply qenable_locked_runs].
      unfold en, canenable. set (q1 := put_account _ _ _) in *.
      assert (∀ b, b ≠ QFULL → IsBit b → has (q_flag q1) b = has (q_flag q) b) as Hfl.
      { intros b Hb Hbit. subst q1. unfold put_account, linked, qbp_of.
        case_ifs; simpl; try done. rewrite has_set by apply _.
        by rewrite (proj2 (Z.eqb_neq QFULL b)). }
      rewrite !Hfl by (done || apply _). unfold filed, queclass.
      destruct (Z.leb_spec QPCTL (db_type m)); [done|]. simpl.
      destruct Hen as [?|[-> Hw]]; [lia|]. simpl.
      destruct Hw as [->|Hw]; [done|]. by rewrite (proj2 (Z.eqb_neq _ _) Hw), orb_true_r.
  - destruct ok; [by apply proj1 in Hok; specialize (Hok eq_refl)|].
    do 2 eexists. split; [done|]. by split.
Qed.

(** [putbq] puts the message before every message of its level or below and
    behind every message of a higher level; outcome and invariant as for
    [putq]. *)
Theorem putbq_correct avail q m :
  queue_wf q → msg_in q m →
  ∃ r q', putbq avail q m = Ret (r, q') ∧ queue_wf q' ∧
    if decide (band_avail avail q m) then
      r = 1 ∧
      ∃ l1 l2, q_msgs q = l1 ++ l2 ∧ q_msgs q' = l1 ++ filed m :: l2 ∧
        Forall (λ t, level m < level t) l1 ∧ Forall (λ t, level t ≤ level m) l2
    else r = 0 ∧ q_msgs q' = q_msgs q.
Proof.
  intros Hwf Hin. destruct (putbq_shape avail q m Hwf Hin) as (n & Hwf' & Hs). cbv zeta in *.
  revert Hs. case_decide as Hav.
  - intros (l1 & l2 & en & -> & Hm & Hq & H1 & H2). do 2 eexists. split; [done|].
    destruct (put_result _ (filed m) l1 l2 en Hwf' Hm) as [Hwf2 Hq2];
      [by apply msg_in_fresh|done| | |split; [exact Hwf2|split; [done|by exists l1, l2]]];
      rewrite filed_level; [|done]. eapply Forall_impl; [exact H1|]. simpl. lia.
  - intros ->. do 2 eexists. split; [done|]. by split.
Qed.

(** ** Taking *)

(** Next to a message of band [b] stands the rest of its band, if there is any. *)
Lemma next_in_band nb m l :
  nb ≤ 255 → msg_ok nb m → b_band m ≠ 0 → Forall (msg_ok nb) l → ordered (m :: l) →
  match l with
  | n :: _ => if b_band m =? b_band n then bandl (b_band m) l ≠ [] ∧ head (bandl (b_band m) l) = Some n
              else bandl (b_band m) l = []
  | [] => True
  end.
Proof.
  intros Hnb Hm Hb Hok Ho. destruct l as [|n l]; [done|].
  destruct (Z.eqb_spec (b_band m) (b_band n)) as [E|E].
  - by rewrite bandl_cons, decide_True.
  - apply ordered_cons in Ho as [Hle Ho]. apply (bandl_nil nb); [done..|].
    destruct (level_norm _ _ Hm Hb) as [_ Hl]. rewrite Hl in Hle.
    apply ordered_cons in Ho as [Hn _]. apply Forall_cons in Hle as [Hle _].
    apply Forall_cons in Hok as [Hokn _].
    assert (level n ≠ b_band m) as Hne.
    { destruct Hm as (? & _). revert Hle. unfold level. case_if; lia. }
    apply Forall_cons. split; [done|]. eapply Forall_impl; [exact Hn|]. simpl. lia.
Qed.

Lemma prev_in_band nb m l p :
  nb ≤ 255 → msg_ok nb m → b_band m ≠ 0 → Forall (msg_ok nb) (l ++ [p]) → ordered (l ++ [p] ++ [m]) →
  if b_band m =? b_band p
  then bandl (b_band m) (l ++ [p]) ≠ [] ∧ last (bandl (b_band m) (l ++ [p])) = Some p
  else bandl (b_band m) (l ++ [p]) = [].
Proof.
  intros Hnb Hm Hb Hok Ho.
  destruct (Z.eqb_spec (b_band m) (b_band p)) as [E|E].
  - rewrite bandl_app, bandl_cons, decide_True by done. split; [by destruct (bandl _ l)|].
    by rewrite last_app.
  - apply (bandl_nil nb); [done..|].
    destruct (level_norm _ _ Hm Hb) as [_ Hl]. rewrite app_assoc in Ho.
    apply ordered_app in Ho as (Hle & Ho & _).
    assert (level m ≤ level p) as Hpm by (apply Hle; [apply elem_of_app; right|]; by apply list_elem_of_singleton).
    apply Forall_app in Hok as [_ Hokp]. apply Forall_cons in Hokp as [Hokp _].
    assert (level p ≠ b_band m) as Hne.
    { revert Hpm. rewrite Hl. destruct Hm as (? & _). unfold level. case_if; lia. }
    pose proof (ordered_last _ p Ho ltac:(by rewrite last_snoc)) as Hall.
    eapply Forall_impl; [exact Hall|]. simpl. lia.
Qed.

Lemma nodup_ids_neq l1 m l2 t :
  NoDup (b_id <$> (l1 ++ (m :: l2))) → t ∈ l1 ++ l2 → b_id t ≠ b_id m.
Proof.
  rewrite fmap_app, fmap_cons, <-Permutation_middle. intros [Hn _]%NoDup_cons Ht Heq.
  apply Hn. rewrite <-fmap_app, <-Heq. by apply list_elem_of_fmap_2.
Qed.

Lemma bandl_in b l t : head (bandl b l) = Some t ∨ last (bandl b l) = Some t → t ∈ l.
Proof.
  intros H. assert (t ∈ bandl b l) as Ht
    by (destruct H; [by apply head_Some_elem_of|by apply last_Some_elem_of]).
  by apply list_elem_of_filter in Ht as [_ Ht].
Qed.

(** The pointer updates of [rmvq_noenab] are those of unlinking. *)
Lemma rmvq_band_spec nb l1 m l2 qb :
  nb ≤ 255 → Forall (msg_ok nb) (l1 ++ m :: l2) → ordered (l1 ++ m :: l2) →
  NoDup (b_id <$> (l1 ++ (m :: l2))) → b_band m ≠ 0 → band_rep (l1 ++ m :: l2) (b_band m) qb →
  rmvq_band (rev l1 ++ []) m l2 qb = unlink_band l1 m l2 qb.
Proof.
  intros Hnb Hok Ho Hnd Hb (Hf & Hl & _).
  apply Forall_app in Hok as [Hok1 Hok2]. apply Forall_cons in Hok2 as [Hm Hok2].
  rewrite bandl_mid, decide_True in Hf, Hl by done.
  pose proof (λ t, nodup_ids_neq l1 m l2 t Hnd) as Hne.
  assert (opt_is (qb_first qb) (b_id m) = match bandl (b_band m) l1 with [] => true | _ => false end) as Ef.
  { rewrite Hf. destruct (bandl (b_band m) l1) as [|x l] eqn:E; simpl; [by apply Z.eqb_refl|].
    apply Z.eqb_neq, Hne, elem_of_app. left. apply (bandl_in (b_band m)). left. by rewrite E. }
  assert (opt_is (qb_last qb) (b_id m) = match bandl (b_band m) l2 with [] => true | _ => false end) as El.
  { rewrite Hl. destruct (bandl (b_band m) l2) as [|x l] eqn:E.
    - simpl. rewrite last_snoc. simpl. by apply Z.eqb_refl.
    - rewrite !last_app. destruct (last (x :: l)) as [y|] eqn:Ey; [|by apply last_None in Ey].
      simpl. apply Z.eqb_neq, Hne, elem_of_app. right. apply (bandl_in (b_band m)). right. by rewrite E. }
  assert (ordered (m :: l2)) as Ho2 by (by apply ordered_app in Ho as (_ & _ & Ho)).
  pose proof (next_in_band nb m l2 Hnb Hm Hb Hok2 Ho2) as Hnext.
  unfold rmvq_band, unlink_band. rewrite Ef.
  assert (∀ p, opt_is (qb_last (set_qb_first p qb)) (b_id m) = opt_is (qb_last qb) (b_id m)) as Hq by done.
  rewrite app_nil_r.
  assert (match rev l1 with
          | p :: _ => if b_band m =? b_band p then Some (b_id p) else None
          | [] => None
          end = (b_id <$> last (bandl (b_band m) l1))) as Hprev.
  { destruct l1 as [|p l1 _] using rev_ind; [done|]. rewrite rev_app_distr. simpl.
    assert (ordered (l1 ++ [p] ++ [m])) as Ho1.
    { rewrite app_assoc. rewrite (app_assoc _ [m] l2 : _ ++ m :: l2 = _) in Ho.
      by apply ordered_app in Ho as (_ & Ho & _). }
    pose proof (prev_in_band nb m l1 p Hnb Hm Hb Hok1 Ho1) as Hp.
    destruct (b_band m =? b_band p); [by destruct Hp as [_ ->]|by rewrite Hp]. }
  assert (match l2 with
          | n :: _ => if b_band m =? b_band n then Some (b_id n) else None
          | [] => None
          end = (b_id <$> head (bandl (b_band m) l2))) as Hnx.
  { destruct l2 as [|n l2]; [done|].
    destruct (b_band m =? b_band n); [by destruct Hnext as [_ ->]|by rewrite Hnext]. }
  rewrite Hprev, Hnx.
  destruct (bandl (b_band m) l1), (bandl (b_band m) l2); rewrite ?Hq, El; by destruct qb.
Qed.

Lemma rmvq_noenab_spec q l1 m l2 :
  queue_wf q → q_msgs q = l1 ++ m :: l2 →
  rmvq_noenab q (b_id m) = Ret (m, get_account m (unlinked l1 m l2 q)).
Proof.
  intros Hwf Hq. pose proof Hwf as [Hnd Ho Hok Hbs _ Hnb]. rewrite Hq in *.
  unfold rmvq_noenab. rewrite Hq, find_msg_split by (by apply nodup_mid in Hnd). cbn [rbind].
  assert (rev (rev l1 ++ []) = l1) as Hr by (by rewrite app_nil_r, rev_involutive).
  rewrite Hr. unfold unlinked.
  destruct (Z.eqb_spec (b_band m) 0) as [E|E]; simpl; [done|].
  assert (msg_ok (q_nband q) m) as Hm by (rewrite Forall_forall in Hok; apply Hok; set_solver).
  destruct (band_at_wf q (b_band m) Hwf) as (qb & -> & Hqb & Hrep); [destruct Hm; lia|].
  cbn [rbind]. do 3 f_equal. rewrite upd_band_msgs. f_equal. apply upd_band_ext.
  intros qb' Hqb'. assert (qb' = qb) as -> by congruence. apply (rmvq_band_spec (q_nband q)); try done.
  by rewrite <-Hq.
Qed.

Definition noget (m : mblk) : bool := has (b_flag m) MSGNOGET.

Lemma skip_noget_spec l :
  match skip_noget l with
  | None => Forall (λ m, noget m = true) l
  | Some m => ∃ l1 l2, l = l1 ++ m :: l2 ∧ Forall (λ m, noget m = true) l1 ∧ noget m = false
  end.
Proof.
  induction l as [|x l IH]; simpl; [constructor|].
  change (has (b_flag x) MSGNOGET) with (noget x). destruct (noget x) eqn:E.
  - destruct (skip_noget l) as [m|].
    + destruct IH as (l1 & l2 & -> & H1 & H2). exists (x :: l1), l2.
      split_and!; [done|by constructor|done].
    + by constructor.
  - by exists [], l.
Qed.

(** Unlinking the first message, as [getq_noenab] does it. *)
Lemma getq_first_spec q m tl :
  queue_wf q → q_msgs q = m :: tl → noget m = false →
  getq_noenab q = Ret (Some m, q_clr QWANTR (get_account m (unlinked [] m tl q))).
Proof.
  intros Hwf Hq Hng. pose proof Hwf as [Hnd Ho Hok Hbs _ Hnb]. rewrite Hq in *.
  unfold getq_noenab. rewrite Hq. fold (noget m). rewrite Hng.
  unfold unlinked. destruct (Z.eqb_spec (b_band m) 0) as [E|E]; [done|].
  apply Forall_cons in Hok as [Hm Hok].
  destruct (band_at_wf q (b_band m) Hwf) as (qb & Hat & Hqb & Hf & Hl & _); [destruct Hm; lia|].
  change (band_at (set_q_msgs tl q) (b_band m)) with (band_at q (b_band m)). rewrite Hat. cbn [rbind].
  rewrite Hq, bandl_cons, decide_True in Hf, Hl by done. simpl in Hf.
  pose proof (next_in_band _ m tl Hnb Hm E Hok Ho) as Hnext.
  destruct (bandl (b_band m) tl) as [|x l] eqn:Ex.
  - rewrite decide_True by (by rewrite Hf, Hl). cbn [rbind]. do 4 f_equal.
    apply upd_band_ext. intros qb' Hqb'. unfold unlink_band. by rewrite Ex.
  - rewrite decide_False.
    + cbn [rbind]. do 4 f_equal. apply upd_band_ext. intros qb' Hqb'. unfold unlink_band.
      rewrite Ex. destruct tl as [|n tl]; [done|].
      destruct (b_band m =? b_band n); [|done]. destruct Hnext as [_ Hn]. simpl in Hn.
      injection Hn as ->. by destruct qb'.
    + rewrite Hf, Hl. change (m :: x :: l) with ([m] ++ x :: l). rewrite last_app.
      destruct (last (x :: l)) as [y|] eqn:Ey; [|by apply last_None in Ey].
      intros [= Heq]. apply (nodup_ids_neq [] m tl y Hnd); [|done].
      apply (bandl_in (b_band m) tl). right. by rewrite Ex.
Qed.

Lemma getq_noenab_spec q : queue_wf q →
  (q_msgs q = [] ∧ getq_noenab q = Ret (None, q_set QWANTR q)) ∨
  (q_msgs q ≠ [] ∧ Forall (λ m, noget m = true) (q_msgs q) ∧ getq_noenab q = Ret (None, q)) ∨
  (∃ l1 m l2 q1, q_msgs q = l1 ++ m :: l2 ∧ Forall (λ m, noget m = true) l1 ∧ noget m = false ∧
     (q1 = get_account m (unlinked l1 m l2 q) ∨ q1 = q_clr QWANTR (get_account m (unlinked l1 m l2 q))) ∧
     getq_noenab q = Ret (Some m, q1)).
Proof.
  intros Hwf. destruct (q_msgs q) as [|m tl] eqn:Hq; [left; split; [done|]; unfold getq_noenab; by rewrite Hq|].
  right. destruct (noget m) eqn:Hng.
  - pose proof (skip_noget_spec (m :: tl)) as Hs. unfold getq_noenab. rewrite Hq.
    fold (noget m). rewrite Hng. destruct (skip_noget (m :: tl)) as [x|].
    + right. destruct Hs as (l1 & l2 & Hl & H1 & H2). rewrite Hl in Hq |- *.
      rewrite (rmvq_noenab_spec q l1 x l2 Hwf Hq). cbn [rbind].
      exists l1, x, l2. eexists. split_and!; [done..|by left|done].
    + by left.
  - right. exists [], m, tl. eexists. split_and!; [done|constructor|done|by right|].
    by apply getq_first_spec.
Qed.

(** [q'] differs from [q] in flags and in the trace only. *)
Definition flags_only (q q' : queue) : Prop :=
  q_msgs q' = q_msgs q ∧ q_count q' = q_count q ∧ q_nband q' = q_nband q ∧
  q_hiwat q' = q_hiwat q ∧ q_lowat q' = q_lowat q ∧
  ∀ i qb', q_bandp q' !! i = Some qb' → ∃ qb, q_bandp q !! i = Some qb ∧
    qb_first qb' = qb_first qb ∧ qb_last qb' = qb_last qb ∧ qb_count qb' = qb_count qb ∧
    qb_hiwat qb' = qb_hiwat qb ∧ qb_lowat qb' = qb_lowat qb.

#[export] Instance flags_only_preorder : PreOrder flags_only.
Proof.
  split.
  - intros q. unfold flags_only. split_and!; try done. intros i qb' H. exists qb'. done.
  - intros q1 q2 q3 (? & ? & ? & ? & ? & Hab) (? & ? & ? & ? & ? & Hbc).
    unfold flags_only. split_and!; try congruence.
    intros i qb3 (qb2 & (qb1 & ? & ? & ? & ? & ? & ?)%Hab & ? & ? & ? & ? & ?)%Hbc.
    exists qb1. split_and!; congruence.
Qed.

Lemma flags_only_wf q q' : flags_only q q' → queue_wf q → queue_wf q'.
Proof.
  intros (? & ? & ? & ? & ? & Hb). apply wf_core; [done..|].
  intros i qb' (qb & ? & ? & ? & ? & _)%Hb. by exists qb.
Qed.

Lemma flags_only_flag f q : flags_only q (set_q_flag f q).
Proof. unfold flags_only. split_and!; try done. intros i qb' H. by exists qb'. Qed.

Lemma flags_only_emit e q : flags_only q (emit e q).
Proof. unfold flags_only. split_and!; try done. intros i qb' H. by exists qb'. Qed.

Lemma flags_only_band b f q : 1 ≤ b →
  (∀ qb, qb_first (f qb) = qb_first qb ∧ qb_last (f qb) = qb_last qb ∧ qb_count (f qb) = qb_count qb ∧
     qb_hiwat (f qb) = qb_hiwat qb ∧ qb_lowat (f qb) = qb_lowat qb) →
  flags_only q (upd_band b f q).
Proof.
  intros Hb Hf. unfold flags_only. rewrite nband_upd. split_and!; try done.
  intros i qb' (qb & Hqb & ->)%upd_band_lookup; [|done]. exists qb. split; [done|].
  by case_decide.
Qed.

(** [qbackenable] succeeds on an existing band and touches flags only, of [q_flag]
    only the two writer flags. *)
Lemma qbackenable_spec q band :
  queue_wf q → 0 ≤ band ≤ q_nband q →
  ∃ q', qbackenable q band = Ret q' ∧ flags_only q q' ∧
    ∀ b, IsBit b → b ≠ QWANTW → b ≠ QWANTWSYNC → has (q_flag q') b = has (q_flag q) b.
Proof.
  intros Hwf Hb. unfold qbackenable. case_if; [by exists q|]. clear E.
  assert (∀ a b f, IsBit a → IsBit b → b ≠ a → has (clr_bits a f) b = has f b) as Hclr.
  { intros a b f ?? Hne. rewrite has_clr by done. by rewrite (proj2 (Z.eqb_neq a b)). }
  destruct (Z.eqb_spec band 0) as [->|Hne]; simpl.
  - match goal with |- context [if ?b then Z.land ?x ?y else 0] =>
      generalize (if b then Z.land x y else 0) end.
    intros be. case_if; [by exists q|].
    eexists. split; [done|]. split.
    + case_ifs; repeat (etrans; [|apply flags_only_emit]);
        repeat (etrans; [|apply flags_only_flag]); done.
    + intros b ???. case_ifs; simpl; rewrite ?Hclr by (done || apply _); done.
  - destruct (band_at_wf q band Hwf) as (qb & -> & _); [lia|]. cbn [rbind].
    match goal with |- context [if ?b then Z.land ?x ?y else 0] =>
      generalize (if b then Z.land x y else 0) end.
    intros be. case_if; [by exists q|].
    eexists. split; [done|]. split.
    + case_ifs; repeat (etrans; [|apply flags_only_emit]);
        try (etrans; [|apply flags_only_band; [lia|done]]); try apply flags_only_flag; done.
    + intros b ???. case_ifs; simpl; rewrite ?Hclr by (done || apply _); done.
Qed.

Lemma flags_only_msgs q q' : flags_only q q' → q_msgs q' = q_msgs q.
Proof. by intros [H _]. Qed.

Lemma taken_spec q l1 m l2 : queue_wf q → q_msgs q = l1 ++ m :: l2 →
  let q1 := get_account m (unlinked l1 m l2 q) in
  queue_wf q1 ∧ q_msgs q1 = l1 ++ l2 ∧ 0 ≤ b_band m ≤ q_nband q1.
Proof.
  intros Hwf Hq q1. destruct (unlinked_fields l1 m l2 q) as (Hm & Hn & _).
  destruct (get_account_shape m (unlinked l1 m l2 q)) as (Sm & Sn & _).
  split_and!; [by apply unlinked_wf|unfold q1; by rewrite Sm, Hm| |]; unfold q1; rewrite ?Sn, ?Hn.
  all: pose proof (wf_msgs q Hwf) as Hok; rewrite Hq, Forall_forall in Hok;
    by apply (Hok m); set_solver.
Qed.

(** [getq] is [getq_noenab] and then [qbackenable]. *)
Lemma getq_split q bp q1 : getq_noenab q = Ret (bp, q1) →
  getq q = let* q2 := qbackenable q1 (match bp with Some m => b_band m | None => 0 end) in Ret (bp, q2).
Proof.
  intros H. unfold getq. rewrite H. cbn [rbind]. set (band := match bp with Some _ => _ | _ => _ end).
  case_if; [|done]. unfold qbackenable. by rewrite H0, H1.
Qed.

(** C16: [getq] never faults.  It takes the first message not marked
    [MSGNOGET] off the queue - on an ordered queue a message of the highest level
    among those, the oldest of its level - and leaves the rest in place with
    counts, band pointers and order right; it returns [NULL] exactly when there is
    no such message, and then marks an empty queue as wanted by a reader. *)
Theorem getq_correct q : queue_wf q →
  ∃ r q', getq q = Ret (r, q') ∧ queue_wf q' ∧
    match r with
    | None => q_msgs q' = q_msgs q ∧ Forall (λ m, noget m = true) (q_msgs q) ∧
              (q_msgs q = [] → has (q_flag q') QWANTR = true)
    | Some m => ∃ l1 l2, q_msgs q = l1 ++ m :: l2 ∧ q_msgs q' = l1 ++ l2 ∧
                Forall (λ m, noget m = true) l1 ∧ noget m = false ∧
                Forall (λ t, level t ≤ level m) l2
    end.
Proof.
  intros Hwf.
  destruct (getq_noenab_spec q Hwf)
    as [[Hq Hg]|[(Hq & Hall & Hg)|(l1 & m & l2 & q1 & Hq & H1 & Hm & Hq1 & Hg)]];
    rewrite (getq_split _ _ _ Hg).
  - assert (queue_wf (q_set QWANTR q)) as Hwf1 by (by apply (flags_only_wf q); [apply flags_only_flag|]).
    destruct (qbackenable_spec _ 0 Hwf1) as (q2 & -> & Hfo & Hfl); [unfold q_nband; lia|].
    do 2 eexists. split; [done|]. split; [by apply (flags_only_wf _ _ Hfo)|].
    rewrite (flags_only_msgs _ _ Hfo), Hq. split_and!; [done|constructor|intros _].
    rewrite Hfl by (done || apply _). simpl. by flags.
  - destruct (qbackenable_spec q 0 Hwf) as (q2 & -> & Hfo & _); [unfold q_nband; lia|].
    do 2 eexists. split; [done|]. split; [by apply (flags_only_wf _ _ Hfo)|].
    by rewrite (flags_only_msgs _ _ Hfo).
  - destruct (taken_spec q l1 m l2 Hwf Hq) as (Hwf1 & Hm1 & Hb1).
    assert (queue_wf q1 ∧ q_msgs q1 = l1 ++ l2 ∧ 0 ≤ b_band m ≤ q_nband q1) as (Hwf2 & Hm2 & Hb2).
    { destruct Hq1 as [->| ->]; [done|]. split_and!; try apply Hb1; [|done].
      eapply flags_only_wf; [apply flags_only_flag|done]. }
    destruct (qbackenable_spec q1 (b_band m) Hwf2 Hb2) as (q2 & -> & Hfo & _).
    do 2 eexists. split; [done|]. split; [by apply (flags_only_wf _ _ Hfo)|].
    exists l1, l2. rewrite (flags_only_msgs _ _ Hfo). split_and!; [done..|].
    pose proof (wf_ordered q Hwf) as Ho. rewrite Hq in Ho.
    by apply ordered_app in Ho as (_ & _ & [Ho _]%ordered_cons).
Qed.

Lemma rmvq_spec q l1 m l2 :
  queue_wf q → q_msgs q = l1 ++ m :: l2 →
  ∃ q', rmvq q (b_id m) = Ret q' ∧ queue_wf q' ∧ q_msgs q' = l1 ++ l2 ∧ q_nband q' = q_nband q ∧
    flags_only (get_account m (unlinked l1 m l2 q)) q'.
Proof.
  intros Hwf Hq. unfold rmvq. rewrite (rmvq_noenab_spec q l1 m l2 Hwf Hq). cbn [rbind].
  destruct (taken_spec q l1 m l2 Hwf Hq) as (Hwf1 & Hm1 & Hb1).
  destruct (qbackenable_spec _ (b_band m) Hwf1 Hb1) as (q2 & -> & Hfo & _).
  exists q2. split_and!; [done|by eapply flags_only_wf|by rewrite (flags_only_msgs _ _ Hfo)| |done].
  destruct Hfo as (_ & _ & -> & _). destruct (get_account_shape m (unlinked l1 m l2 q)) as (_ & -> & _).
  apply unlinked_fields.
Qed.

(** ** Flushing *)

Definition freed (l : list ev) : list Z := omap (λ e, match e with Freemsg id => Some id | _ => None end) l.

Lemma freed_app l1 l2 : freed (l1 ++ l2) = freed l1 ++ freed l2.
Proof. apply omap_app. Qed.

Lemma flush_reset_wf q : queue_wf q → queue_wf (flush_reset q) ∧ q_msgs (flush_reset q) = [] ∧
  q_nband (flush_reset q) = q_nband q ∧ q_out (flush_reset q) = q_out q.
Proof.
  intros [_ _ _ _ _ Hnb]. assert (q_nband (flush_reset q) = q_nband q) as Hn.
  { unfold q_nband. simpl. by rewrite length_fmap. }
  split_and!; try done. split; simpl; [constructor..| |done|by rewrite Hn].
  intros i qb Hi. by apply list_lookup_fmap_Some in Hi as (qb0 & -> & _).
Qed.

(** [putq] of messages that were on the queue appends them in order. *)
Lemma putq_append_eq q m :
  queue_wf q → msg_ok (q_nband q) m → Forall (λ t, level m ≤ level t) (q_msgs q) →
  ∃ en : bool, putq 0 q m =
    Ret (1, let q1 := put_account (qbp_of m) m (linked (q_msgs q) m [] q) in
            if en then qenable_locked q1 else q1).
Proof.
  intros Hwf Hm Hall. unfold putq.
  assert (put_prepare 0 q m = (m, qbp_of m, (true, q))) as ->.
  { unfold put_prepare, qbp_of, need_band, queclass. destruct Hm as (Hb & Hp & _).
    case_ifs; try done; try lia; by rewrite Hp in *. }
  destruct (putq_link_ok q m Hwf Hm) as (l1 & l2 & Hq & H1 & H2 & ->). cbn [rbind].
  assert (l2 = []) as ->.
  { destruct l2 as [|x l2]; [done|]. rewrite Hq in Hall. apply Forall_app in Hall as [_ Hall].
    apply Forall_cons in Hall as [Hx _]. apply Forall_cons in H2 as [H2 _]. lia. }
  rewrite app_nil_r in Hq. subst l1. by eexists.
Qed.

Lemma putq_append q m :
  queue_wf q → msg_ok (q_nband q) m → b_id m ∉ (b_id <$> q_msgs q) →
  Forall (λ t, level m ≤ level t) (q_msgs q) →
  ∃ q', putq 0 q m = Ret (1, q') ∧ queue_wf q' ∧ q_msgs q' = q_msgs q ++ [m] ∧
    q_nband q' = q_nband q ∧ freed (q_out q') = freed (q_out q).
Proof.
  intros Hwf Hm Hfr Hall. destruct (putq_append_eq q m Hwf Hm Hall) as (en & ->).
  eexists. split; [done|].
  destruct (put_result q m (q_msgs q) [] en Hwf Hm Hfr) as [Hwf2 Hq2];
    [by rewrite app_nil_r|done|constructor|].
  split_and!; [exact Hwf2|exact Hq2| |]; clear Hwf2 Hq2; cbv zeta;
    set (q1 := put_account _ _ _); assert (q_nband q1 = q_nband q ∧ q_out q1 = q_out q) as [Hn Ho].
  1, 3: unfold q1, put_account, linked, qbp_of; case_ifs; simpl; rewrite ?nband_upd; done.
  - unfold qenable_locked. case_ifs; done.
  - rewrite <-Ho. destruct en; [|done].
    destruct (qenable_locked_once q1) as [->|(-> & _)]; [done|]. by rewrite freed_app, app_nil_r.
Qed.

Lemma flush_loop_spec (drop : mblk → bool) mp : ∀ q,
  queue_wf q → Forall (msg_ok (q_nband q)) mp → ordered (q_msgs q ++ mp) →
  NoDup (b_id <$> (q_msgs q ++ mp)) →
  ∃ q', flush_loop drop mp q = Ret q' ∧ queue_wf q' ∧ q_nband q' = q_nband q ∧
    q_msgs q' = q_msgs q ++ filter (λ m, drop m = false) mp ∧
    freed (q_out q') = freed (q_out q) ++ (b_id <$> filter (λ m, drop m = true) mp).
Proof.
  induction mp as [|m mp IH]; intros q Hwf Hok Ho Hnd; simpl.
  { exists q. by rewrite !app_nil_r. }
  apply Forall_cons in Hok as [Hm Hok]. rewrite !filter_cons.
  assert (ordered (q_msgs q ++ mp)) as Ho' by (by apply ordered_remove in Ho).
  assert (NoDup (b_id <$> (q_msgs q ++ mp)) ∧ b_id m ∉ (b_id <$> (q_msgs q ++ mp))) as [Hnd' Hfr].
  { rewrite fmap_app, fmap_cons, <-Permutation_middle in Hnd. rewrite fmap_app.
    by apply NoDup_cons in Hnd as [? ?]. }
  destruct (drop m) eqn:Ed.
  - rewrite decide_False, decide_True by done.
    destruct (IH (emit (Freemsg (b_id m)) q)) as (q' & -> & Hwf' & Hn' & Hm' & Hf'); try done.
    + eapply flags_only_wf; [apply flags_only_emit|done].
    + exists q'. split_and!; [done..|]. rewrite Hf'. simpl. rewrite freed_app, <-app_assoc. done.
  - rewrite decide_True, decide_False by done.
    destruct (putq_append q m) as (q1 & -> & Hwf1 & Hm1 & Hn1 & Hf1); try done.
    + rewrite fmap_app in Hfr. by apply not_elem_of_app in Hfr as [? _].
    + apply Forall_forall. intros t Ht. apply ordered_app in Ho as (H & _).
      apply H; [done|]. apply elem_of_cons. by left.
    + cbn [rbind]. destruct (IH q1) as (q' & -> & Hwf' & Hn' & Hm' & Hf').
      * done.
      * by rewrite Hn1.
      * by rewrite Hm1, <-app_assoc.
      * by rewrite Hm1, <-app_assoc.
      * exists q'. rewrite Hm', Hm1, <-app_assoc, Hf', Hf1, Hn', Hn1. done.
Qed.

Lemma flush_all_spec (drop : mblk → bool) q : queue_wf q →
  ∃ q', flush_loop drop (q_msgs q) (flush_reset q) = Ret q' ∧ queue_wf q' ∧
    q_msgs q' = filter (λ m, drop m = false) (q_msgs q) ∧ q_nband q' = q_nband q ∧
    freed (q_out q') = freed (q_out q) ++ (b_id <$> filter (λ m, drop m = true) (q_msgs q)).
Proof.
  intros Hwf. destruct (flush_reset_wf q Hwf) as (Hwf0 & Hm0 & Hn0 & Hout).
  destruct (flush_loop_spec drop (q_msgs q) (flush_reset q)) as (q' & ? & ? & ? & ? & ?); try done.
  - rewrite Hn0. apply Hwf.
  - rewrite Hm0. apply Hwf.
  - rewrite Hm0. apply Hwf.
  - exists q'. rewrite Hm0, Hn0, Hout in *. done.
Qed.

Lemma flush_enable_frame n qbf q :
  flags_only q (flush_enable n qbf q) ∧ freed (q_out (flush_enable n qbf q)) = freed (q_out q).
Proof.
  revert q. induction n as [|n IH]; intros q; simpl; [done|].
  destruct (nth n qbf false); [|apply IH].
  destruct (IH (emit (Backenable (Z.of_nat (S n))) q)) as [Hf Ho]. split.
  - etrans; [|exact Hf]. apply flags_only_emit.
  - rewrite Ho. simpl. by rewrite freed_app, app_nil_r.
Qed.

Lemma flush_wantw_frame q :
  flags_only q (set_q_bandp ((λ qb, (flush_wantw qb).1) <$> q_bandp q) q).
Proof.
  unfold flags_only, q_nband. simpl. rewrite length_fmap. split_and!; try done.
  intros i qb' Hi. apply list_lookup_fmap_Some in Hi as (qb & -> & Hqb). exists qb.
  split; [done|]. unfold flush_wantw. by case_if.
Qed.

(** [flushq] takes off and frees exactly the data messages, or every
    message when [flag] is set, each once and in queue order; the rest stays in its
    order and the queue well formed.  The put-back loop cannot fail. *)
Theorem flushq_correct q flag : queue_wf q →
  let drop m := truthy flag || datamsg (db_type m) in
  ∃ q', flushq q flag = Ret q' ∧ queue_wf q' ∧
    q_msgs q' = filter (λ m, drop m = false) (q_msgs q) ∧
    freed (q_out q') = freed (q_out q) ++ (b_id <$> filter (λ m, drop m = true) (q_msgs q)).
Proof.
  intros Hwf drop. unfold flushq. destruct (q_msgs q) as [|x l] eqn:Hq.
  { exists q. rewrite Hq. simpl. by rewrite app_nil_r. }
  rewrite <-Hq. destruct (flush_all_spec drop q Hwf) as (q1 & He & Hwf1 & Hm1 & _ & Hf1).
  fold drop. rewrite He. cbn [rbind]. eexists. split; [done|]. set (b := _ && _). clearbody b.
  generalize ((λ qb, (flush_wantw qb).2) <$> q_bandp q1). intros qbf.
  set (q2 := set_q_bandp _ q1).
  assert (flags_only q1 (if b then q_clr QWANTW q2 else q2)) as Hf2.
  { etrans; [apply flush_wantw_frame|]. fold q2. destruct b; [apply flags_only_flag|done]. }
  assert (freed (q_out (if b then q_clr QWANTW q2 else q2)) = freed (q_out q1)) as Ho2 by (by destruct b).
  set (q3 := if b then q_clr QWANTW q2 else q2) in *. clearbody q3.
  destruct (flush_enable_frame (length (q_bandp q3)) qbf q3) as [Hf3 Ho3].
  set (q4 := flush_enable _ _ _) in *. clearbody q4.
  assert (flags_only q1 (if b then emit (Backenable 0) q4 else q4)) as Hf4.
  { etrans; [exact Hf2|]. etrans; [exact Hf3|]. destruct b; [apply flags_only_emit|done]. }
  split_and!; [by apply (flags_only_wf _ _ Hf4)|by rewrite (flags_only_msgs _ _ Hf4)|].
  rewrite <-Hf1, <-Ho2, <-Ho3. destruct b; [|done]. simpl. by rewrite freed_app, app_nil_r.
Qed.

Lemma qbackenable_freed q band q' :
  qbackenable q band = Ret q' → freed (q_out q') = freed (q_out q).
Proof.
  unfold qbackenable. case_if; [by intros [= ->]|]. intros (be & _ & Hr)%rbind_Ret_inv.
  revert Hr. case_if; [by intros [= ->]|]. intros [= <-].
  case_ifs; simpl; rewrite ?freed_app; simpl; rewrite ?app_nil_r; done.
Qed.

Lemma rmvq_freed q id q' : rmvq q id = Ret q' → freed (q_out q') = freed (q_out q).
Proof.
  unfold rmvq. intros ([mp q1] & H1 & ->%qbackenable_freed)%rbind_Ret_inv.
  revert H1. unfold rmvq_noenab.
  intros ([[rpre m] suf] & _ & (q2 & H2 & [= _ <-])%rbind_Ret_inv)%rbind_Ret_inv.
  destruct (get_account_shape m (set_q_msgs (rev rpre ++ suf) q2)) as (_ & _ & _ & _ & _ & ->).
  simpl. f_equal. revert H2. case_if; [|by intros [= ->]].
  by intros (? & _ & [= <-])%rbind_Ret_inv.
Qed.

Section Flushband.
Context (pri flag : Z).

Definition band_drop (m : mblk) : bool := (b_band m =? pri) && (truthy flag || datamsg (db_type m)).

Lemma flushband_one_spec q pre m suf :
  queue_wf q → q_msgs q = pre ++ m :: suf →
  ∃ q', flushband_one pri flag m q = Ret q' ∧ queue_wf q' ∧ q_nband q' = q_nband q ∧
    q_msgs q' = pre ++ filter (λ m, band_drop m = false) [m] ++ suf ∧
    freed (q_out q') = freed (q_out q) ++ (b_id <$> filter (λ m, band_drop m = true) [m]).
Proof.
  intros Hwf Hq. rewrite !filter_cons.
  assert (flushband_one pri flag m q =
    if band_drop m then let* q := rmvq q (b_id m) in Ret (emit (Freemsg (b_id m)) q) else Ret q) as ->.
  { unfold flushband_one, band_drop. by destruct (b_band m =? pri). }
  destruct (band_drop m) eqn:Ed;
    [rewrite decide_False, decide_True by done
    |rewrite decide_True, decide_False by done; exists q; simpl; by rewrite app_nil_r].
  destruct (rmvq_spec q pre m suf Hwf Hq) as (q1 & Hr & Hwf1 & Hm1 & Hn1 & _). rewrite Hr.
  cbn [rbind]. eexists. split_and!; [done| |done|done|].
  - eapply flags_only_wf; [apply flags_only_emit|done].
  - simpl. rewrite freed_app. by rewrite (rmvq_freed _ _ _ Hr).
Qed.

Lemma flushband_loop_spec a : ∀ q pre b,
  queue_wf q → q_msgs q = pre ++ a ++ b →
  ∃ q', flushband_loop pri flag (b_id <$> head b) (a ++ b) q = Ret (head b, q') ∧
    queue_wf q' ∧ q_nband q' = q_nband q ∧
    q_msgs q' = pre ++ filter (λ m, band_drop m = false) a ++ b ∧
    freed (q_out q') = freed (q_out q) ++ (b_id <$> filter (λ m, band_drop m = true) a).
Proof.
  induction a as [|m a IH]; intros q pre b Hwf Hq.
  - simpl. exists q. rewrite app_nil_r. destruct b as [|z b]; simpl; [done|]. by rewrite Z.eqb_refl.
  - cbn [app flushband_loop] in *.
    assert (opt_is (b_id <$> head b) (b_id m) = false) as ->.
    { destruct b as [|z b]; [done|]. simpl. apply Z.eqb_neq. intros Heq.
      pose proof (wf_nodup q Hwf) as Hnd. rewrite Hq, fmap_app in Hnd.
      apply NoDup_app in Hnd as (_ & _ & Hnd). apply NoDup_cons in Hnd as [Hn _].
      apply Hn. rewrite <-Heq. apply list_elem_of_fmap_2. set_solver. }
    destruct (flushband_one_spec q pre m (a ++ b) Hwf Hq) as (q1 & -> & Hwf1 & Hn1 & Hm1 & Hf1).
    cbn [rbind]. rewrite app_assoc in Hm1.
    destruct (IH q1 _ b Hwf1 Hm1) as (q' & -> & Hwf' & Hn' & Hm' & Hf').
    exists q'. split_and!; [done..|by rewrite Hn'| |].
    + rewrite Hm', <-app_assoc. f_equal. rewrite app_assoc. f_equal.
      by rewrite <-filter_app.
    + rewrite Hf', Hf1, <-app_assoc, <-fmap_app. by rewrite <-filter_app.
Qed.

Lemma no_band_drop l : bandl pri l = [] →
  filter (λ m, band_drop m = false) l = l ∧ filter (λ m, band_drop m = true) l = [].
Proof.
  induction l as [|m l IH]; [done|]. rewrite bandl_cons, !filter_cons.
  case_decide as E; [done|]. intros [H1 H2]%IH.
  assert (band_drop m = false) as Hd
    by (unfold band_drop; by rewrite (proj2 (Z.eqb_neq (b_band m) pri))).
  rewrite decide_True, decide_False by congruence. by rewrite H1, H2.
Qed.

(** The band's messages, from the first to the last of them. *)
Lemma band_segment l x z :
  head (bandl pri l) = Some x → last (bandl pri l) = Some z → x ≠ z →
  ∃ l1 a l2, l = l1 ++ (x :: a) ++ z :: l2 ∧ bandl pri l1 = [] ∧ bandl pri l2 = [].
Proof.
  induction l as [|m l IH]; [done|]. rewrite bandl_cons. case_decide as E.
  - simpl. intros [= ->] Hl Hne.
    destruct (bandl pri l) as [|y yl] eqn:Eb; [by injection Hl|].
    assert (last (bandl pri l) = Some z) as Hl'.
    { rewrite Eb. change (x :: y :: yl) with ([x] ++ y :: yl) in Hl. rewrite last_app in Hl.
      by destruct (last (y :: yl)) eqn:Ey; [|apply last_None in Ey]. }
    clear -Hl'. assert (∃ a l2, l = a ++ z :: l2 ∧ bandl pri l2 = []) as (a & l2 & -> & H2).
    { induction l as [|m l IH]; [done|]. rewrite bandl_cons in Hl'. case_decide as E.
      - destruct (bandl pri l) as [|y yl] eqn:Eb.
        + injection Hl' as ->. by exists [], l.
        + change (m :: y :: yl) with ([m] ++ y :: yl) in Hl'. rewrite last_app in Hl'.
          destruct (last (y :: yl)) eqn:Ey; [|by apply last_None in Ey].
          injection Hl' as ->. destruct IH as (a & l2 & -> & H2); [done|]. by exists (m :: a), l2.
      - destruct IH as (a & l2 & -> & H2); [done|]. by exists (m :: a), l2. }
    exists [], a, l2. done.
  - intros H1 H2 Hne. destruct (IH H1 H2 Hne) as (l1 & a & l2 & -> & Hl1 & Hl2).
    exists (m :: l1), a, l2. split_and!; [done| |done]. by rewrite bandl_cons, decide_False.
Qed.

Lemma band_single l x :
  head (bandl pri l) = Some x → last (bandl pri l) = Some x → NoDup (b_id <$> l) →
  ∃ l1 l2, l = l1 ++ x :: l2 ∧ bandl pri l1 = [] ∧ bandl pri l2 = [].
Proof.
  induction l as [|m l IH]; [done|]. rewrite bandl_cons. case_decide as E.
  - simpl. intros [= ->] Hl [Hn _]%NoDup_cons. exists [], l. split_and!; [done..|].
    destruct (bandl pri l) as [|y yl] eqn:Eb; [done|]. exfalso. apply Hn.
    apply list_elem_of_fmap_2, (bandl_in pri). right. rewrite Eb.
    change (x :: y :: yl) with ([x] ++ y :: yl) in Hl. rewrite last_app in Hl.
    by destruct (last (y :: yl)) eqn:Ey; [|apply last_None in Ey].
  - intros H1 H2 [_ Hnd]%NoDup_cons. destruct (IH H1 H2 Hnd) as (l1 & l2 & -> & Hl1 & Hl2).
    exists (m :: l1), l2. split_and!; [done| |done]. by rewrite bandl_cons, decide_False.
Qed.

End Flushband.

Lemma ids_inj l x y :
  NoDup (b_id <$> l) → x ∈ l → y ∈ l → b_id x = b_id y → x = y.
Proof.
  intros Hnd Hx Hy Heq. apply list_elem_of_split in Hx as (l1 & l2 & ->).
  apply elem_of_app in Hy as [Hy|[->|Hy]%elem_of_cons]; [|done|].
  all: destruct (nodup_ids_neq l1 x l2 y Hnd); [apply elem_of_app; tauto|done].
Qed.

(** The final step on the message the loop stopped at. *)
Lemma flushband_tail pri flag q pre b :
  queue_wf q → q_msgs q = pre ++ b → match b with [] => True | _ :: l => bandl pri l = [] end →
  ∃ q', (match head b with Some mp => flushband_one pri flag mp q | None => Ret q end) = Ret q' ∧
    queue_wf q' ∧ q_msgs q' = pre ++ filter (λ m, band_drop pri flag m = false) b ∧
    freed (q_out q') = freed (q_out q) ++ (b_id <$> filter (λ m, band_drop pri flag m = true) b).
Proof.
  intros Hwf Hq Hb. destruct b as [|z b]; simpl.
  { exists q. rewrite !app_nil_r. by rewrite app_nil_r in Hq. }
  destruct (flushband_one_spec pri flag q pre z b Hwf Hq) as (q' & -> & Hwf' & _ & Hm & Hf).
  destruct (no_band_drop pri flag b Hb) as [Hk Hd].
  exists q'. split_and!; [done|done| |].
  - rewrite Hm. f_equal. change (z :: b) with ([z] ++ b). by rewrite filter_app, Hk.
  - rewrite Hf. f_equal. change (z :: b) with ([z] ++ b). by rewrite filter_app, Hd, app_nil_r.
Qed.

Lemma flushband_walk pri flag q l1 a b :
  queue_wf q → q_msgs q = l1 ++ a ++ b → bandl pri l1 = [] →
  match b with [] => True | _ :: l => bandl pri l = [] end →
  ∃ q', (let* (mp, q) := flushband_loop pri flag (b_id <$> head b) (a ++ b) q in
         match mp with Some mp => flushband_one pri flag mp q | None => Ret q end) = Ret q' ∧
    queue_wf q' ∧ q_msgs q' = filter (λ m, band_drop pri flag m = false) (q_msgs q) ∧
    freed (q_out q') =
      freed (q_out q) ++ (b_id <$> filter (λ m, band_drop pri flag m = true) (q_msgs q)).
Proof.
  intros Hwf Hq Hl1 Hb. destruct (no_band_drop pri flag l1 Hl1) as [Hk Hd].
  destruct (flushband_loop_spec pri flag a q l1 b Hwf Hq) as (q1 & -> & Hwf1 & _ & Hm1 & Hf1).
  cbn [rbind]. rewrite app_assoc in Hm1.
  destruct (flushband_tail pri flag q1 _ b Hwf1 Hm1 Hb) as (q' & -> & Hwf' & Hm' & Hf').
  exists q'. split_and!; [done..| |].
  - rewrite Hm', Hq, !filter_app, Hk. by rewrite <-app_assoc.
  - rewrite Hf', Hf1, Hq, !filter_app, Hd, !fmap_app. by rewrite <-app_assoc.
Qed.

Lemma flushband_spec q pri flag : queue_wf q → 0 ≤ pri ≤ 255 →
  let drop m := (b_band m =? pri) && (truthy flag || datamsg (db_type m)) in
  ∃ q', flushband q pri flag = Ret q' ∧ queue_wf q' ∧
    q_msgs q' = filter (λ m, drop m = false) (q_msgs q) ∧
    freed (q_out q') = freed (q_out q) ++ (b_id <$> filter (λ m, drop m = true) (q_msgs q)).
Proof.
  intros Hwf Hpri drop. unfold flushband. fold (band_drop pri flag) in drop. subst drop.
  destruct (Z.ltb_spec (q_nband q) pri) as [Hlt|Hge].
  { assert (bandl pri (q_msgs q) = []) as Hnil.
    { pose proof (wf_msgs q Hwf) as Hok. clear -Hok Hlt. induction Hok as [|m l Hm _ IH]; [done|].
      rewrite bandl_cons, decide_False; [done|]. destruct Hm. lia. }
    destruct (no_band_drop pri flag _ Hnil) as [Hk Hd].
    exists q. rewrite Hk, Hd. simpl. by rewrite app_nil_r. }
  destruct (Z.eqb_spec pri 0) as [->|Hne].
  { destruct (flush_all_spec (band_drop 0 flag) q Hwf) as (q1 & He & Hwf1 & Hm1 & _ & Hf1).
    unfold band_drop in He. rewrite He. cbn [rbind]. eexists. split; [done|].
    case_if; [|done]. split; [|split; [done|]].
    - eapply flags_only_wf; [|exact Hwf1]. etrans; [|apply flags_only_emit]. apply flags_only_flag.
    - rewrite <-Hf1. simpl. by rewrite freed_app, app_nil_r. }
  destruct (band_at_wf q pri Hwf) as (qb & -> & _ & Hf & Hl & _); [lia|]. cbn [rbind].
  destruct (bandl pri (q_msgs q)) as [|x xl] eqn:Eb.
  { rewrite Hf. simpl. destruct (no_band_drop pri flag _ Eb) as [Hk Hd].
    exists q. rewrite Hk, Hd. simpl. by rewrite app_nil_r. }
  rewrite Hf. cbn [head fmap option_fmap option_map].
  destruct (last (x :: xl)) as [z|] eqn:Ez; [|by apply last_None in Ez].
  assert (head (bandl pri (q_msgs q)) = Some x) as Hx by (by rewrite Eb).
  rewrite <-Eb in Ez. pose proof (wf_nodup q Hwf) as Hnd. rewrite Hl.
  cbn [fmap option_fmap option_map opt_is].
  destruct (Z.eqb_spec (b_id z) (b_id x)) as [Eid|Eid].
  - assert (z = x) as ->.
    { apply (ids_inj (q_msgs q)); [done| | |done];
        apply (bandl_in pri); [by right|by left]. }
    destruct (band_single pri (q_msgs q) x Hx Ez Hnd) as (l1 & l2 & Hq & H1 & H2).
    assert (find_msg (b_id x) [] (q_msgs q) = Ret (rev l1 ++ [], x, l2)) as ->.
    { rewrite Hq in Hnd |- *. apply find_msg_split. by apply nodup_mid in Hnd. }
    cbn [rbind]. apply (flushband_walk pri flag q l1 [x] l2 Hwf Hq H1).
    destruct l2 as [|y l2]; [done|]. rewrite bandl_cons in H2. by case_decide.
  - destruct (band_segment pri (q_msgs q) x z Hx Ez) as (l1 & a & l2 & Hq & H1 & H2); [congruence|].
    assert (find_msg (b_id x) [] (q_msgs q) = Ret (rev l1 ++ [], x, a ++ z :: l2)) as ->.
    { rewrite Hq in Hnd |- *. apply find_msg_split. by apply nodup_mid in Hnd. }
    cbn [rbind]. exact (flushband_walk pri flag q l1 (x :: a) (z :: l2) Hwf Hq H1 H2).
Qed.

Lemma flushband_total q pri flag : queue_wf q → 0 ≤ pri ≤ 255 → ∃ q', flushband q pri flag = Ret q'.
Proof. intros Hwf Hp. destruct (flushband_spec q pri flag Hwf Hp) as (q' & He & _). by exists q'. Qed.

(** [flushband] takes off and frees exactly the data messages of the
    band, or all of them when [flag] is set, for every band number; the other
    messages stay in order and the queue well formed.  In particular the walk that
    removes messages while it follows [b_next] stops where it should. *)
Theorem flushband_correct q pri flag : queue_wf q → 0 ≤ pri ≤ 255 →
  let drop m := (b_band m =? pri) && (truthy flag || datamsg (db_type m)) in
  ∃ q', flushband q pri flag = Ret q' ∧ queue_wf q' ∧
    q_msgs q' = filter (λ m, drop m = false) (q_msgs q) ∧
    freed (q_out q') = freed (q_out q) ++ (b_id <$> filter (λ m, drop m = true) (q_msgs q)).
Proof. exact (flushband_spec q pri flag). Qed.

(** ** Inserting at a given place *)

(** The pointer updates of [insq] are those of linking, where the place respects
    the order of levels. *)
Lemma insq_link_spec nb q l1 m l2 :
  queue_wf q → nb = q_nband q → q_msgs q = l1 ++ l2 → msg_ok nb m → ordered (l1 ++ m :: l2) →
  insq_link q (rev l1) m l2 = linked l1 m l2 q.
Proof.
  intros Hwf -> Hq Hm Ho. unfold insq_link, linked. rewrite rev_involutive.
  destruct (Z.eqb_spec (b_band m) 0) as [E|E]; simpl; [done|].
  pose proof (wf_nband q Hwf) as Hnb. pose proof (wf_msgs q Hwf) as Hok. rewrite Hq in Hok.
  apply Forall_app in Hok as [Hok1 Hok2].
  destruct (band_at_wf q (b_band m) Hwf) as (qb & _ & Hqb & Hf & Hl & _); [destruct Hm; lia|].
  rewrite Hq, bandl_app in Hf, Hl.
  assert (ordered (m :: l2)) as Ho2 by (by apply ordered_app in Ho as (_ & _ & Ho)).
  pose proof (next_in_band _ m l2 Hnb Hm E Hok2 Ho2) as Hnext.
  apply upd_band_ext. intros qb' Hqb'. assert (qb' = qb) as -> by (simpl in Hqb'; congruence).
  unfold relink. rewrite Hf.
  assert (match rev l1 with [] => true | p :: _ => negb (b_band p =? b_band m) end =
          match bandl (b_band m) l1 with [] => true | _ => false end) as ->.
  { destruct l1 as [|p l1 _] using rev_ind; [done|]. rewrite rev_app_distr. simpl.
    assert (ordered (l1 ++ [p] ++ [m])) as Ho1.
    { rewrite app_assoc. rewrite (app_assoc _ [m] l2 : _ ++ m :: l2 = _) in Ho.
      by apply ordered_app in Ho as (_ & Ho & _). }
    pose proof (prev_in_band _ m l1 p Hnb Hm E Hok1 Ho1) as Hp. rewrite Z.eqb_sym.
    destruct (b_band m =? b_band p); simpl.
    - destruct Hp as [Hp _]. by destruct (bandl (b_band m) (l1 ++ [p])).
    - by rewrite Hp. }
  assert (match l2 with [] => true | n :: _ => negb (b_band n =? b_band m) end =
          match bandl (b_band m) l2 with [] => true | _ => false end) as ->.
  { destruct l2 as [|n l2]; [done|]. rewrite Z.eqb_sym.
    destruct (b_band m =? b_band n); simpl.
    - destruct Hnext as [Hp _]. by destruct (bandl (b_band m) (n :: l2)).
    - by rewrite Hnext. }
  destruct (bandl (b_band m) l1), (bandl (b_band m) l2); simpl; destruct qb; simpl in *; by subst.
Qed.

(** A high-priority message is not put at the end behind one of normal class, a
    message with a band not at the end behind one of high priority, and a message
    of normal class not before one of high priority. *)
Definition class_place (l1 : list mblk) (m : mblk) (l2 : list mblk) : Prop :=
  match l2, last l1 with
  | [], Some p => (QPCTL ≤ db_type m → QPCTL ≤ db_type p) ∧
                  (QPCTL ≤ db_type p → QPCTL ≤ db_type m ∨ b_band m = 0)
  | e :: _, _ => QPCTL ≤ db_type e → QPCTL ≤ db_type m
  | [], None => True
  end.

Lemma class_eqb m :
  (queclass m =? QPCTL) = (QPCTL <=? db_type m) ∧ (queclass m =? QNORM) = (db_type m <? QPCTL).
Proof.
  unfold queclass. rewrite Z.ltb_antisym. destruct (QPCTL <=? db_type m); done.
Qed.

(** At such a place the order test of [insq] is the order of levels. *)
Lemma insq_order nb l1 m l2 :
  nb ≤ 255 → Forall (msg_ok nb) (l1 ++ l2) → 0 ≤ b_band m ≤ 255 → (QPCTL ≤ db_type m → b_band m = 0) →
  ordered (l1 ++ l2) → class_place l1 m l2 →
  insq_badord (last l1) (head l2) (last (l1 ++ l2)) m (queclass m) = false ↔
  Forall (λ t, level m ≤ level t) l1 ∧ Forall (λ t, level t ≤ level m) l2.
Proof.
  intros Hnb Hok Hb Hp Ho Hcl.
  assert (Forall (λ t, level m ≤ level t) l1 ↔ ∀ p, last l1 = Some p → level m ≤ level p) as ->.
  { split; [intros H p Hl; rewrite Forall_forall in H; by apply H, last_Some_elem_of|].
    intros H. destruct (last l1) as [p|] eqn:Elast; [|apply last_None in Elast as ->; constructor].
    apply ordered_app in Ho as (_ & Ho & _). specialize (H p eq_refl).
    eapply Forall_impl; [exact (ordered_last _ _ Ho Elast)|]. simpl. lia. }
  assert (Forall (λ t, level t ≤ level m) l2 ↔ ∀ e, head l2 = Some e → level e ≤ level m) as ->.
  { split; [intros H p Hl; rewrite Forall_forall in H; by apply H, head_Some_elem_of|].
    intros H. destruct l2 as [|e l2]; [constructor|]. specialize (H e eq_refl).
    apply ordered_app in Ho as (_ & _ & [Ho _]%ordered_cons). apply Forall_cons. split; [done|].
    eapply Forall_impl; [exact Ho|]. simpl. lia. }
  assert (∀ p, last l1 = Some p → msg_ok nb p) as Hok1.
  { intros p Hl. apply Forall_app in Hok as [Hok _]. rewrite Forall_forall in Hok.
    by apply Hok, last_Some_elem_of. }
  revert Hcl. unfold insq_badord, class_place, level.
  destruct (class_eqb m) as [-> ->].
  destruct l2 as [|e l2]; simpl.
  - rewrite app_nil_r. destruct (last l1) as [p|] eqn:Elast; [|by case_if].
    destruct (Hok1 p eq_refl) as (Hbp & Hpp & _). clear -Hbp Hpp Hnb Hb Hp.
    intros Hcl. split.
    + intros Hbad. split; [intros p' [= <-]|done]. revert Hbad.
      case_ifs; simpl; intros Hbad; zb; destruct_or?; zb; lia.
    + intros [Hl _]. specialize (Hl p eq_refl). revert Hl.
      case_ifs; simpl; intros Hl; rewrite ?andb_false_iff, ?Z.ltb_ge; lia.
  - assert (msg_ok nb e) as (Hbe & Hpe & _).
    { apply Forall_app in Hok as [_ Hok]. by apply Forall_cons in Hok as [Hok _]. }
    destruct (last l1) as [p|] eqn:Elast.
    + destruct (Hok1 p eq_refl) as (Hbp & Hpp & _). clear -Hbp Hpp Hnb Hb Hp Hbe Hpe.
      intros Hcl. split.
      * intros Hbad. split; [intros p' [= <-]|intros e' [= <-]]; revert Hbad;
          case_ifs; simpl; intros Hbad; zb; destruct_or?; zb; lia.
      * intros [Hl He]. specialize (Hl p eq_refl). specialize (He e eq_refl). revert Hl He.
        case_ifs; simpl; intros Hl He; rewrite ?orb_false_iff, ?andb_false_iff, ?Z.ltb_ge; lia.
    + intros Hcl. split.
      * intros Hbad. split; [done|intros e' [= <-]]; revert Hbad;
          case_ifs; simpl; intros Hbad; zb; destruct_or?; zb; lia.
      * intros [_ He]. specialize (He e eq_refl). revert He.
        case_ifs; simpl; intros He; rewrite ?orb_false_iff, ?andb_false_iff, ?Z.ltb_ge; lia.
Qed.

(** [insq] before a message of the queue, or at the end, never
    faults, and at a place where the classes do not clash it returns 1 exactly when
    the place keeps the order of levels and the band records are there or can be
    allocated; the message then stands at that place and the queue is well formed,
    band pointers included.  Otherwise it returns 0 and the messages are as they
    were. *)
Theorem insq_correct avail q l1 l2 m :
  queue_wf q → msg_in q m → q_msgs q = l1 ++ l2 → class_place l1 (filed m) l2 →
  ∃ r q', insq avail q (b_id <$> head l2) m = Ret (r, q') ∧ queue_wf q' ∧
    if decide (band_avail avail q m ∧ Forall (λ t, level m ≤ level t) l1 ∧
               Forall (λ t, level t ≤ level m) l2)
    then r = 1 ∧ q_msgs q' = l1 ++ filed m :: l2
    else r = 0 ∧ q_msgs q' = q_msgs q.
Proof.
  intros Hwf Hin Hq Hcl. pose proof Hwf as [Hnd Ho Hok _ _ Hnb]. rewrite Hq in Hnd, Ho, Hok.
  unfold insq.
  assert ((if (queclass m =? QPCTL) && negb (b_band m =? 0) then set_b_band 0 m else m) = filed m) as ->.
  { rewrite (proj1 (class_eqb m)). unfold filed.
    destruct (QPCTL <=? db_type m); simpl; [|done].
    destruct (Z.eqb_spec (b_band m) 0); simpl; [by rewrite set_b_band_0|done]. }
  assert ((match b_id <$> head l2 with
           | None => Ret (rev (q_msgs q), [])
           | Some id => let* (rpre, e, tl) := find_msg id [] (q_msgs q) in Ret (rpre, e :: tl)
           end) = Ret (rev l1, l2)) as ->.
  { destruct l2 as [|e l2]; simpl; [by rewrite Hq, app_nil_r|].
    rewrite Hq, find_msg_split by (by apply nodup_mid in Hnd). simpl. by rewrite app_nil_r. }
  cbn [rbind]. rewrite <-(filed_class m).
  assert (head (rev l1) = last l1) as ->.
  { destruct l1 as [|p l1 _] using rev_ind; [done|]. by rewrite rev_app_distr, last_snoc. }
  assert (0 ≤ b_band (filed m) ≤ 255 ∧ (QPCTL ≤ db_type (filed m) → b_band (filed m) = 0)) as [Hb Hp].
  { destruct Hin as (? & _). unfold filed. case_if; simpl; lia. }
  pose proof (insq_order _ l1 (filed m) l2 Hnb Hok Hb Hp Ho Hcl) as Hord. rewrite filed_level in Hord.
  rewrite Hq. destruct (insq_badord _ _ _ _ _) eqn:Hbad.
  { exists 0, q. rewrite decide_False; [done|]. intros (_ & H). by apply Hord in H. }
  destruct (proj1 Hord eq_refl) as [H1 H2].
  destruct (put_prepare_spec avail q m Hwf Hin) as (ok & n & Hpp & Hwf' & Hav & Hm).
  assert ((if negb (b_band (filed m) =? 0) then need_band avail (b_band (filed m)) q else (true, q)) =
    (ok, set_q_bandp (q_bandp q ++ replicate n (new_band q)) q)) as ->.
  { revert Hpp. unfold put_prepare. rewrite (proj1 (class_eqb m)). unfold filed.
    destruct (QPCTL <=? db_type m); simpl; [congruence|].
    destruct (b_band m =? 0); simpl; congruence. }
  set (q0 := set_q_bandp _ q) in *. destruct ok.
  - specialize (Hm eq_refl). do 2 eexists. split; [done|].
    rewrite decide_True by (split_and!; [by apply Hav|done..]).
    assert (ordered (l1 ++ filed m :: l2)) as Ho2 by (apply ordered_insert; rewrite ?filed_level; done).
    rewrite (insq_link_spec _ q0 l1 (filed m) l2 Hwf' eq_refl Hq Hm Ho2).
    assert ((if negb (b_band (filed m) =? 0) then Some (b_band (filed m)) else None) = qbp_of (filed m)) as ->
      by (unfold qbp_of; by destruct (b_band (filed m) =? 0)).
    match goal with |- queue_wf (if ?b then _ else _) ∧ _ =>
      destruct (put_result q0 (filed m) l1 l2 b Hwf' Hm) as [Hwf2 Hq2];
      [by apply msg_in_fresh|done|by rewrite filed_level|by rewrite filed_level|] end.
    split; [exact Hwf2|]. split; [done|exact Hq2].
  - exists 0, q0. rewrite decide_False; [done|]. intros (H & _). by apply Hav in H.
Qed.

(** where the classes clash [insq] does not keep to the order its
    comment asks for: at the end of a queue it accepts a high-priority message
    behind messages of normal class, and refuses a message with a band behind
    high-priority messages only. *)
Theorem insq_end_class avail q m p :
  last (q_msgs q) = Some p →
  (QPCTL ≤ db_type m → db_type p < QPCTL →
   ∃ q', insq avail q None m = Ret (1, q') ∧ q_msgs q' = q_msgs q ++ [filed m]) ∧
  (db_type m < QPCTL → 0 < b_band m → QPCTL ≤ db_type p → b_band p = 0 →
   insq avail q None m = Ret (0, q)).
Proof.
  intros Hl. unfold insq. rewrite (proj1 (class_eqb m)). cbn [rbind]. split.
  - intros Hm Hp. rewrite (proj2 (Z.leb_le QPCTL (db_type m))) by done. cbn [andb].
    assert ((if negb (b_band m =? 0) then set_b_band 0 m else m) = filed m) as ->.
    { unfold filed. rewrite (proj2 (Z.leb_le QPCTL (db_type m))) by done.
      destruct (Z.eqb_spec (b_band m) 0); simpl; [by rewrite set_b_band_0|done]. }
    unfold insq_badord. rewrite (proj1 (class_eqb m)), (proj2 (class_eqb m)), Hl.
    rewrite (proj2 (Z.leb_le QPCTL (db_type m))), (proj2 (Z.ltb_ge (db_type m) QPCTL)) by done.
    cbn [orb andb head]. assert (b_band (filed m) = 0) as Hb.
    { unfold filed. by rewrite (proj2 (Z.leb_le QPCTL (db_type m))). }
    rewrite Hb. cbn [Z.eqb negb]. eexists. split; [done|].
    unfold insq_link. rewrite Hb. cbn [Z.eqb negb]. rewrite rev_involutive.
    unfold put_account, qenable_locked. case_ifs; done.
  - intros Hm Hb Hp Hbp. rewrite (proj2 (Z.leb_gt QPCTL (db_type m))) by done. cbn [andb].
    unfold insq_badord. rewrite (proj1 (class_eqb m)), (proj2 (class_eqb m)), Hl.
    rewrite (proj2 (Z.leb_gt QPCTL (db_type m))), (proj2 (Z.ltb_lt (db_type m) QPCTL)) by done.
    cbn [orb andb head]. by rewrite Hbp, (proj2 (Z.ltb_lt 0 (b_band m))).
Qed.

(** ** Round trip *)

(** putting back a message just taken from the head of the queue
    restores the queue: the same messages in the same order, the same counts and
    the same band pointers, whatever happened to the flow-control flags. *)
Theorem getq_putbq_roundtrip q m tl :
  queue_wf q → q_msgs q = m :: tl → noget m = false →
  ∃ q1 q2, getq q = Ret (Some m, q1) ∧ putbq 0 q1 m = Ret (1, q2) ∧
    q_msgs q2 = q_msgs q ∧ q_count q2 = q_count q ∧
    ∀ i qb2, q_bandp q2 !! i = Some qb2 → ∃ qb, q_bandp q !! i = Some qb ∧
      qb_first qb2 = qb_first qb ∧ qb_last qb2 = qb_last qb ∧ qb_count qb2 = qb_count qb.
Proof.
  intros Hwf Hq Hng. pose proof (getq_first_spec q m tl Hwf Hq Hng) as Hg.
  rewrite (getq_split _ _ _ Hg). destruct (taken_spec q [] m tl Hwf Hq) as (Hwf1 & Hm1 & Hb1).
  set (q0 := q_clr QWANTR _) in *.
  assert (queue_wf q0) as Hwf0 by (eapply flags_only_wf; [apply flags_only_flag|done]).
  destruct (qbackenable_spec q0 (b_band m) Hwf0 Hb1) as (q1 & -> & Hfo & _). cbn [rbind].
  pose proof (flags_only_wf _ _ Hfo Hwf0) as Hwfq1.
  pose proof (flags_only_msgs _ _ Hfo) as Hmq1. rewrite (Hm1 : q_msgs q0 = _) in Hmq1. simpl in Hmq1.
  assert (q_nband q1 = q_nband q) as Hn1.
  { destruct Hfo as (_ & _ & -> & _). unfold q0. simpl.
    destruct (get_account_shape m (unlinked [] m tl q)) as (_ & Hn & _).
    etrans; [exact Hn|]. apply unlinked_fields. }
  pose proof Hwf as [Hnd Ho Hok Hbs Hct Hnb]. rewrite Hq in Hnd, Ho, Hok.
  apply Forall_cons in Hok as [Hm Hok]. apply ordered_cons in Ho as [Hle Ho].
  apply NoDup_cons in Hnd as [Hfr Hnd].
  exists q1. unfold putbq.
  assert (put_prepare 0 q1 m = (m, qbp_of m, (true, q1))) as ->.
  { unfold put_prepare, qbp_of, need_band. rewrite Hn1, (proj1 (class_eqb m)).
    destruct Hm as (Hb & Hp & _).
    destruct (Z.leb_spec QPCTL (db_type m)); [by rewrite Hp|].
    destruct (Z.eqb_spec (b_band m) 0); simpl; [done|].
    by rewrite (proj2 (Z.ltb_ge (q_nband q) (b_band m))) by lia. }
  rewrite <-Hn1 in Hm.
  destruct (putbq_link_ok q1 m Hwfq1 Hm) as (l1 & l2 & Hq1 & H1 & H2 & ->). cbn [rbind].
  assert (l1 = []) as ->.
  { destruct l1 as [|x l1]; [done|]. rewrite Hmq1 in Hq1. rewrite Hq1 in Hle.
    apply Forall_app in Hle as [Hle _]. apply Forall_cons in Hle as [Hle _].
    apply Forall_cons in H1 as [H1 _]. lia. }
  simpl in Hq1. assert (l2 = tl) as -> by congruence.
  match goal with |- context [Ret (1, if ?b then _ else _)] =>
    destruct (put_result q1 m [] tl b Hwfq1 Hm) as [Hwf2 Hq2];
    [by rewrite Hmq1|done|constructor|done|]; cbv zeta in Hwf2, Hq2;
    set (en := b) in *
  end.
  set (q2 := if en then _ else _) in *. exists q2. split_and!; [done..| | |].
  - rewrite Hq. exact Hq2.
  - by rewrite (wf_count _ Hwf2), Hct, Hq2, Hq.
  - intros i qb2 Hi. assert (q_nband q2 = q_nband q) as Hn2.
    { unfold q2. destruct (put_account_shape m (linked [] m tl q1)) as (_ & Hn & _).
      destruct (linked_fields [] m tl q1) as (_ & Hln & _).
      rewrite <-Hn1, <-Hln, <-Hn. destruct en; [|done].
      unfold q_nband. by rewrite (proj1 (proj2 (proj2 (qenable_locked_core _)))). }
    destruct (lookup_lt_is_Some_2 (q_bandp q) i) as [qb Hqb].
    { apply lookup_lt_Some in Hi. unfold q_nband in Hn2. lia. }
    exists qb. split; [done|]. destruct (wf_bands _ Hwf2 _ _ Hi) as (-> & -> & ->).
    destruct (Hbs _ _ Hqb) as (-> & -> & ->). by rewrite Hq2, Hq.
Qed.

(** ** [strqset] and [strqget] *)

(** A water mark set with [strqset], of the queue or of any band (whose
    record is allocated if need be), is the one [strqget] returns afterwards, and
    setting it keeps the queue well formed. *)
Theorem strqset_strqget strmsgsz avail q p what pri val :
  queue_wf q → 0 ≤ pri ≤ 255 → pri ≤ q_nband q + Z.of_nat avail → what = QHIWAT ∨ what = QLOWAT →
  ∃ q', strqset strmsgsz avail q p what pri val = (0, q', p) ∧ queue_wf q' ∧
    strqget 0 q' p what pri = Ret (0, Vnum (w32 val), q').
Proof.
  intros Hwf Hp Hav Hw. unfold strqset.
  assert ((QBAD <=? what) = false) as -> by (destruct Hw as [->| ->]; done).
  destruct (Z.eqb_spec pri 0) as [->|Hne]; cbn [negb].
  { destruct Hw as [->| ->]; eexists; (split; [done|]); (split; [|done]).
    all: by apply (wf_core_eq q). }
  destruct (need_band_spec avail pri q Hwf) as (ok & n & -> & Hwf' & Hok & Hn); [lia|].
  rewrite (proj2 Hok Hav) in *. specialize (Hn eq_refl).
  set (q0 := set_q_bandp _ q) in *.
  destruct (band_at_wf q0 pri Hwf') as (qb & Hat & Hqb & _); [lia|].
  assert (∀ f, (∀ qb, qb_first (f qb) = qb_first qb ∧ qb_last (f qb) = qb_last qb ∧ qb_count (f qb) = qb_count qb) →
    queue_wf (upd_band pri f q0) ∧ band_at (upd_band pri f q0) pri = Ret (f qb) ∧
    need_band 0 pri (upd_band pri f q0) = (true, upd_band pri f q0)) as Hf.
  { intros f Hf. split_and!.
    - apply (wf_core q0); [done|done|by rewrite nband_upd| |done].
      intros i qb' (qb0 & H0 & ->)%upd_band_lookup; [|lia]. exists qb0. split; [done|]. by case_decide.
    - unfold band_at, upd_band. apply zget_ok; [lia|].
      etrans; [apply list_lookup_alter_eq|]. by rewrite Hqb.
    - unfold need_band. rewrite nband_upd, (proj2 (Z.ltb_ge (q_nband q0) pri)); [done|lia]. }
  destruct Hw as [->| ->]; eexists; (split; [reflexivity|]).
  - destruct (Hf (set_qb_hiwat (w32 val))) as (? & Ha & Hnb); [done|]. split; [done|].
    unfold strqget. rewrite (proj2 (Z.eqb_neq pri 0)) by done. cbn [negb]. by rewrite Hnb, Ha.
  - destruct (Hf (set_qb_lowat (w32 val))) as (? & Ha & Hnb); [done|]. split; [done|].
    unfold strqget. rewrite (proj2 (Z.eqb_neq pri 0)) by done. cbn [negb]. by rewrite Hnb, Ha.
Qed.

(** [strqset] of a packet size for a band is refused with [EINVAL], but
    on the queue below the stream head the refused value is still stored at the
    stream head, where [strwrite] takes it for the queue's. *)
Theorem strqset_refused_size strmsgsz avail q p pri val :
  0 < pri ≤ q_nband q → q_below_head p = true →
  strqset strmsgsz avail q p QMINPSZ pri val = (EINVAL, q, set_sd_qn_minpsz val p) ∧
  strqset strmsgsz avail q p QMAXPSZ pri val =
    (EINVAL, q, set_sd_qn_maxpsz (qn_maxpsz strmsgsz (sd_fifo p) val) p).
Proof.
  intros Hp Hb. unfold strqset, need_band.
  rewrite (proj2 (Z.eqb_neq pri 0)), (proj2 (Z.ltb_ge (q_nband q) pri)) by lia.
  cbn [negb]. rewrite Hb. done.
Qed.

(** ** Examples *)

(** A queue with a high-priority message, one of band 2 and a normal one. *)
Definition demo_q : queue :=
  Queue [Mblk 1 0 0 M_PCPROTO [4]; Mblk 2 2 0 M_DATA [10; 20]; Mblk 3 0 0 M_DATA [5]] 9 QWANTR 100 50
    [Qband 0 None None 100 50 0; Qband 30 (Some 2) (Some 2) 100 50 0] true [].

Lemma demo_q_wf : queue_wf demo_q.
Proof.
  split; simpl.
  - apply (bool_decide_unpack _). vm_compute. exact I.
  - unfold ordered. repeat constructor; vm_compute; congruence.
  - unfold msg_ok, q_nband, QPCTL, M_PCPROTO, M_DATA. rewrite !Forall_cons, Forall_nil. simpl.
    split_and!; try lia; try done; repeat (apply Forall_cons_2; [lia|]); apply Forall_nil_2.
  - intros i qb Hi. destruct i as [|[|i]]; simpl in Hi; [injection Hi as <-..|done];
      vm_compute; done.
  - reflexivity.
  - unfold q_nband. simpl. lia.
Qed.

Definition demo_m : mblk := Mblk 9 1 0 M_DATA [8].

Lemma demo_m_in : msg_in demo_q demo_m.
Proof.
  split_and!; [simpl; lia..|repeat constructor; lia|].
  apply (bool_decide_unpack _). vm_compute. exact I.
Qed.

Lemma putq_correct_witness :
  ∃ r q', putq 0 demo_q demo_m = Ret (r, q') ∧ r = 1 ∧ (b_id <$> q_msgs q') = [1; 2; 9; 3].
Proof.
  destruct (putq_correct 0 demo_q demo_m demo_q_wf demo_m_in) as (r & q' & H & _).
  exists r, q'. split; [exact H|]. vm_compute in H. injection H as <- <-. split; reflexivity.
Defined.

Lemma putbq_correct_witness :
  ∃ r q', putbq 0 demo_q (Mblk 8 2 0 M_DATA [1]) = Ret (r, q') ∧ r = 1 ∧
    (b_id <$> q_msgs q') = [1; 8; 2; 3].
Proof.
  destruct (putbq_correct 0 demo_q (Mblk 8 2 0 M_DATA [1]) demo_q_wf) as (r & q' & H & _).
  { split_and!; [simpl; lia..|repeat constructor; lia|]. apply (bool_decide_unpack _). vm_compute. exact I. }
  exists r, q'. split; [exact H|]. vm_compute in H. injection H as <- <-. split; reflexivity.
Defined.

Lemma getq_correct_witness :
  ∃ r q', getq demo_q = Ret (r, q') ∧ (b_id <$> r) = Some 1 ∧ q_count q' = 5.
Proof.
  destruct (getq_correct demo_q demo_q_wf) as (r & q' & H & _).
  exists r, q'. split; [exact H|]. vm_compute in H. injection H as <- <-. split; reflexivity.
Defined.

Lemma flushq_correct_witness :
  ∃ q', flushq demo_q 0 = Ret q' ∧ q_msgs q' = [] ∧ freed (q_out q') = [1; 2; 3].
Proof.
  destruct (flushq_correct demo_q 0 demo_q_wf) as (q' & H & _).
  exists q'. split; [exact H|]. vm_compute in H. injection H as <-. split; reflexivity.
Defined.

Lemma flushband_correct_witness :
  ∃ q', flushband demo_q 2 0 = Ret q' ∧ (b_id <$> q_msgs q') = [1; 3] ∧ freed (q_out q') = [2].
Proof.
  destruct (flushband_correct demo_q 2 0 demo_q_wf) as (q' & H & _); [lia|].
  exists q'. split; [exact H|]. vm_compute in H. injection H as <-. split; reflexivity.
Defined.

Lemma insq_correct_witness :
  ∃ r q', insq 0 demo_q (Some 3) demo_m = Ret (r, q') ∧ r = 1 ∧ (b_id <$> q_msgs q') = [1; 2; 9; 3].
Proof.
  destruct (insq_correct 0 demo_q [Mblk 1 0 0 M_PCPROTO [4]; Mblk 2 2 0 M_DATA [10; 20]]
    [Mblk 3 0 0 M_DATA [5]] demo_m demo_q_wf demo_m_in eq_refl) as (r & q' & H & _).
  { intros H. exfalso. revert H. vm_compute. intros H. by apply H. }
  exists r, q'. split; [exact H|]. vm_compute in H. injection H as <- <-. split; reflexivity.
Defined.

Lemma insq_end_class_witness :
  ∃ q', insq 0 demo_q None (Mblk 4 0 0 M_PCPROTO [1]) = Ret (1, q') ∧
    (b_id <$> q_msgs q') = [1; 2; 3; 4].
Proof.
  destruct (insq_end_class 0 demo_q (Mblk 4 0 0 M_PCPROTO [1]) (Mblk 3 0 0 M_DATA [5]) eq_refl)
    as [H _].
  destruct H as (q' & H & Hm); [unfold QPCTL, M_PCPROTO; simpl; lia|unfold QPCTL, M_DATA; simpl; lia|].
  exists q'. split; [exact H|]. rewrite Hm. reflexivity.
Defined.

Lemma getq_putbq_roundtrip_witness :
  ∃ q1 q2, getq demo_q = Ret (Some (Mblk 1 0 0 M_PCPROTO [4]), q1) ∧
    putbq 0 q1 (Mblk 1 0 0 M_PCPROTO [4]) = Ret (1, q2) ∧ q_msgs q2 = q_msgs demo_q ∧ q_count q2 = 9.
Proof.
  destruct (getq_putbq_roundtrip demo_q (Mblk 1 0 0 M_PCPROTO [4])
    [Mblk 2 2 0 M_DATA [10; 20]; Mblk 3 0 0 M_DATA [5]] demo_q_wf eq_refl eq_refl)
    as (q1 & q2 & H1 & H2 & H3 & H4 & _).
  by exists q1, q2.
Defined.

Lemma strqset_strqget_witness :
  ∃ q', strqset 0 2 demo_q (Qparms 0 0 0 true false 0 0) QHIWAT 4 77 = (0, q', Qparms 0 0 0 true false 0 0) ∧
    strqget 0 q' (Qparms 0 0 0 true false 0 0) QHIWAT 4 = Ret (0, Vnum 77, q').
Proof.
  destruct (strqset_strqget 0 2 demo_q (Qparms 0 0 0 true false 0 0) QHIWAT 4 77 demo_q_wf)
    as (q' & H1 & _ & H2); [lia|unfold q_nband; simpl; lia|by left|].
  exists q'. split; [exact H1|exact H2].
Defined.

Lemma strqset_refused_size_witness :
  strqset 0 0 demo_q (Qparms 1 2 0 true false 1 2) QMINPSZ 1 99 =
    (EINVAL, demo_q, Qparms 1 2 0 true false 99 2).
Proof.
  destruct (strqset_refused_size 0 0 demo_q (Qparms 1 2 0 true false 1 2) 1 99) as [H _];
    [unfold q_nband; simpl; lia|reflexivity|exact H].
Defined.
