(* ===== verification/StreamsFlow.v ===== *)
(** * STREAMS flow control

    A queue has a flow-control state per band: a byte count, the water marks, the
    full flag and the flag of a writer that waits.  Here the queue routines of
    [Streams] are seen as operations on these views, and the protocol between
    [canput] / [bcanput] on one side and the routines that take messages on the
    other is proved: in every reachable state the full flag says that the count is
    at the high-water mark, and a band with a waiting writer has data on the queue,
    so that taking it re-enables the writer. *)

From S2P Require Import Prelude Streams StreamsOps.

(** ** The view of a band *)

Record fcv := Fc {
  fc_count : Z;
  fc_hi : Z;
  fc_lo : Z;
  fc_full : bool;
  fc_want : bool
}.

Definition fc_q (q : queue) : fcv :=
  Fc (q_count q) (q_hiwat q) (q_lowat q) (has (q_flag q) QFULL) (has (q_flag q) QWANTW).
Definition fc_b (qb : qband) : fcv :=
  Fc (qb_count qb) (qb_hiwat qb) (qb_lowat qb) (has (qb_flag qb) QB_FULL) (has (qb_flag qb) QB_WANTW).

(** Band 0 is the queue itself. *)
Definition fc (b : Z) (q : queue) : option fcv :=
  if b =? 0 then Some (fc_q q) else fc_b <$> q_bandp q !! Z.to_nat (b - 1).

Definition fput (m : mblk) (v : fcv) : fcv :=
  let c := add_sizes m (fc_count v) in
  Fc c (fc_hi v) (fc_lo v) (fc_full v || (fc_hi v <=? c)) (fc_want v).
Definition fget (m : mblk) (v : fcv) : fcv :=
  let c := sub_sizes m (fc_count v) in
  Fc c (fc_hi v) (fc_lo v) (fc_full v && (fc_hi v <=? c)) (fc_want v).
Definition fback (v : fcv) : fcv :=
  Fc (fc_count v) (fc_hi v) (fc_lo v) (fc_full v)
    (fc_want v && negb ((fc_count v <? fc_lo v) || (fc_lo v =? 0))).
Definition freset (v : fcv) : fcv := Fc 0 (fc_hi v) (fc_lo v) false (fc_want v).
Definition fblock (v : fcv) : fcv :=
  Fc (fc_count v) (fc_hi v) (fc_lo v) (fc_full v) (fc_want v || fc_full v).

(** [fc] after an update of one band. *)
Lemma fc_upd_band b c f g q : 1 ≤ c → 0 ≤ b → (∀ qb, fc_b (f qb) = g (fc_b qb)) →
  fc b (upd_band c f q) = (if decide (b = c) then g else id) <$> fc b q.
Proof.
  intros Hc Hb Hfg. unfold fc, upd_band. simpl. destruct (Z.eqb_spec b 0) as [->|Hne].
  - rewrite decide_False by lia. done.
  - rewrite list_lookup_alter. case_decide as E.
    + rewrite decide_True by lia. rewrite <-E.
      destruct (q_bandp q !! Z.to_nat (c - 1)); simpl; [|done]. by rewrite Hfg.
    + rewrite decide_False by (intros ->; done). by destruct (q_bandp q !! Z.to_nat (b - 1)).
Qed.

(** Flags other than the two of the view do not matter. *)
Lemma fc_set_flag b f q :
  has f QFULL = has (q_flag q) QFULL → has f QWANTW = has (q_flag q) QWANTW →
  fc b (set_q_flag f q) = fc b q.
Proof. intros H1 H2. unfold fc, fc_q. simpl. by rewrite H1, H2. Qed.

Lemma fc_emit b e q : fc b (emit e q) = fc b q.
Proof. done. Qed.

Lemma fc_qenable b q : fc b (qenable_locked q) = fc b q.
Proof.
  unfold qenable_locked. case_ifs; try done; rewrite ?fc_emit; unfold q_set;
    apply fc_set_flag; by flags.
Qed.

Lemma fc_set_wantr b q : fc b (q_set QWANTR q) = fc b q.
Proof. apply fc_set_flag; by flags. Qed.

Lemma fc_clr_wantr b q : fc b (q_clr QWANTR q) = fc b q.
Proof. apply fc_set_flag; by flags. Qed.

Lemma fc_relink b (f : qband → qband) l c q : 1 ≤ c → 0 ≤ b →
  (∀ qb, fc_b (f qb) = fc_b qb) → fc b (upd_band c f (set_q_msgs l q)) = fc b q.
Proof.
  intros Hc Hb Hf. rewrite (fc_upd_band b c f id) by done.
  change (fc b (set_q_msgs l q)) with (fc b q). case_decide; by destruct (fc b q).
Qed.

Lemma fc_linked b l1 m l2 q : 0 ≤ b → 0 ≤ b_band m → fc b (linked l1 m l2 q) = fc b q.
Proof.
  intros. unfold linked. destruct (Z.eqb_spec (b_band m) 0); [done|].
  by apply fc_relink; [lia| |].
Qed.

Lemma fc_unlinked b l1 m l2 q : 0 ≤ b → 0 ≤ b_band m → fc b (unlinked l1 m l2 q) = fc b q.
Proof.
  intros. unfold unlinked. destruct (Z.eqb_spec (b_band m) 0); [done|].
  by apply fc_relink; [lia| |].
Qed.

(** Band 0 and the others, for a change [g] of band [c]. *)
Lemma fc_queue_change b q q' g : 0 ≤ b →
  fc_q q' = g (fc_q q) → q_bandp q' = q_bandp q →
  fc b q' = (if decide (b = 0) then g else id) <$> fc b q.
Proof.
  intros Hb Hq Hbs. unfold fc. rewrite Hbs. destruct (Z.eqb_spec b 0) as [->|Hne].
  - by rewrite decide_True, Hq.
  - rewrite decide_False by done. by destruct (q_bandp q !! Z.to_nat (b - 1)).
Qed.

Lemma fc_put_account b m q : 0 ≤ b → 0 ≤ b_band m →
  fc b (put_account (qbp_of m) m q) = (if decide (b = b_band m) then fput m else id) <$> fc b q.
Proof.
  intros Hb Hm. unfold put_account, qbp_of. destruct (Z.eqb_spec (b_band m) 0) as [E|E].
  - rewrite E. apply fc_queue_change; [done| |].
    + simpl. unfold fc_q, fput. simpl. destruct (Z.leb_spec (q_hiwat q) (add_sizes m (q_count q)));
        simpl; rewrite ?orb_false_r; [|done]. flags. by rewrite orb_true_r.
    + by case_if.
  - apply fc_upd_band; [lia|done|]. intros qb. unfold fc_b, fput. simpl.
    destruct (Z.leb_spec (qb_hiwat qb) (add_sizes m (qb_count qb)));
      simpl; rewrite ?orb_false_r; [|done]. flags. by rewrite orb_true_r.
Qed.

Lemma fc_get_account b m q : 0 ≤ b → 0 ≤ b_band m →
  fc b (get_account m q) = (if decide (b = b_band m) then fget m else id) <$> fc b q.
Proof.
  intros Hb Hm. unfold get_account. destruct (Z.eqb_spec (b_band m) 0) as [E|E].
  - rewrite E. apply fc_queue_change; [done| |].
    + unfold fc_q, fget. simpl. rewrite Z.leb_antisym.
      destruct (Z.ltb_spec (sub_sizes m (q_count q)) (q_hiwat q));
        simpl; rewrite ?andb_true_r, ?andb_false_r; [|done]. by flags.
    + by case_if.
  - apply fc_upd_band; [lia|done|]. intros qb. unfold fc_b, fget. simpl. rewrite Z.leb_antisym.
    destruct (Z.ltb_spec (sub_sizes m (qb_count qb)) (qb_hiwat qb));
      simpl; rewrite ?andb_true_r, ?andb_false_r; [|done]. by flags.
Qed.

(** ** [qbackenable] on the view *)

Lemma land_eqb_0 f m : (Z.land f m =? 0) = negb (has f m).
Proof. unfold has, truthy. by rewrite negb_involutive. Qed.

(** The bits [qbackenable] tests are those of [q_flag]. *)
Lemma backenab_bits f :
  has (Z.land f (Z.lor QWANTW QWANTWSYNC)) QWANTWSYNC = has f QWANTWSYNC ∧
  has (Z.land f (Z.lor QWANTW QWANTWSYNC)) (Z.lor QWANTW QB_WANTW) = has f QWANTW.
Proof.
  assert (has (Z.lor QWANTW QWANTWSYNC) QWANTWSYNC = true) as H1 by (vm_compute; done).
  assert (has (Z.lor QWANTW QWANTWSYNC) QWANTW = true) as H2 by (vm_compute; done).
  assert (has (Z.lor QWANTW QWANTWSYNC) QB_WANTW = false) as H3 by (vm_compute; done).
  rewrite has_lor, !has_land, H1, H2, H3 by apply _.
  by rewrite !andb_true_r, andb_false_r, orb_false_r.
Qed.

Lemma backenab_band_bits f :
  has (Z.land f QB_WANTW) QWANTWSYNC = false ∧
  has (Z.land f QB_WANTW) (Z.lor QWANTW QB_WANTW) = has f QB_WANTW.
Proof.
  assert (has QB_WANTW QWANTWSYNC = false) as H1 by (vm_compute; done).
  assert (has QB_WANTW QWANTW = false) as H2 by (vm_compute; done).
  assert (has QB_WANTW QB_WANTW = true) as H3 by (vm_compute; done).
  rewrite has_lor, !has_land, H1, H2, H3 by apply _. by rewrite !andb_false_r, andb_true_r.
Qed.

Lemma fback_id v : fc_want v = false ∨ (fc_count v <? fc_lo v) || (fc_lo v =? 0) = false → fback v = v.
Proof.
  unfold fback. destruct v as [c h l f w]. simpl.
  intros [->| ->]; [done|by rewrite andb_true_r].
Qed.

(** What [qbackenable] of a band does to the views, and the call it makes when it
    clears the flag of a waiting writer. *)
Definition backs (band : Z) (q q' : queue) : Prop :=
  (∀ b, 0 ≤ b → fc b q' = (if decide (b = band) then fback else id) <$> fc b q) ∧
  ∃ evs, q_out q' = q_out q ++ evs ∧
    ∀ v, fc band q = Some v → fc_want v = true → fc_want (fback v) = false → Backenable band ∈ evs.

Lemma backs_none band q : (∀ v, fc band q = Some v → fback v = v) → backs band q q.
Proof.
  intros H. split.
  - intros b Hb. case_decide as E; [|by destruct (fc b q)]. subst b.
    destruct (fc band q) as [v|]; [|done]. simpl. by rewrite H.
  - exists []. rewrite app_nil_r. split; [done|]. intros v Hv Hw. rewrite (H v Hv). congruence.
Qed.

Lemma qbackenable_0 q q' : qbackenable q 0 = Ret q' → backs 0 q q'.
Proof.
  unfold qbackenable. rewrite Z.eqb_refl. cbn [andb negb rbind]. rewrite has_lor.
  assert (∀ v, fc 0 q = Some v → v = fc_q q) as Hv by (by intros v [= <-]).
  destruct (backenab_bits (q_flag q)) as [B1 B2].
  destruct ((q_count q <? q_lowat q) || (q_lowat q =? 0)) eqn:Elo.
  - rewrite land_eqb_0, has_lor, B1, B2.
    destruct (has (q_flag q) QWANTW) eqn:Ew.
    + destruct (has (q_flag q) QWANTWSYNC) eqn:Es; cbn [orb andb negb]; intros [= <-]; split.
      1, 3: intros b Hb; rewrite fc_emit; apply fc_queue_change; [done| |done];
          unfold fc_q, fback; simpl; flags; by rewrite Elo, andb_false_r.
      * exists [Strwakeq QWANTWSYNC; Backenable 0]. simpl. rewrite <-app_assoc. split; [done|].
        intros. set_solver.
      * exists [Backenable 0]. split; [done|]. intros. set_solver.
    + destruct (has (q_flag q) QWANTWSYNC) eqn:Es; cbn [orb andb negb]; intros [= <-].
      * split; [|exists [Strwakeq QWANTWSYNC]; split; [done|]; intros v ->%Hv; simpl; congruence].
        intros b Hb. rewrite fc_emit. apply fc_queue_change; [done| |done].
        unfold fc_q, fback. simpl. flags. by rewrite Ew.
      * apply backs_none. intros v ->%Hv. apply fback_id. by left.
  - intros H. assert (q' = q) as -> by (revert H; case_if; by intros [= ->]).
    apply backs_none. intros v ->%Hv. apply fback_id. by right.
Qed.

Lemma qbackenable_band q band q' : 1 ≤ band → qbackenable q band = Ret q' → backs band q q'.
Proof.
  intros Hb. unfold qbackenable. rewrite (proj2 (Z.eqb_neq band 0)) by lia. cbn [andb negb].
  intros (be & Hbe & Hr)%rbind_Ret_inv. apply rbind_Ret_inv in Hbe as (qb & Hat & [= <-]).
  assert (fc band q = Some (fc_b qb)) as Hfc.
  { unfold fc. rewrite (proj2 (Z.eqb_neq band 0)) by lia.
    revert Hat. unfold band_at, zget. rewrite (proj2 (Z.ltb_ge (band - 1) 0)) by lia.
    destruct (q_bandp q !! Z.to_nat (band - 1)); [|done]. by intros [= ->]. }
  destruct (backenab_band_bits (qb_flag qb)) as [B1 B2].
  destruct ((qb_count qb <? qb_lowat qb) || (qb_lowat qb =? 0)) eqn:Elo.
  - rewrite land_eqb_0, B1, B2 in Hr. destruct (has (qb_flag qb) QB_WANTW) eqn:Ew;
      cbn [negb] in Hr; injection Hr as <-.
    + split.
      * intros b Hb0. rewrite fc_emit.
        rewrite (fc_upd_band b band _ (λ v, Fc (fc_count v) (fc_hi v) (fc_lo v) (fc_full v) false)); [|done..|].
        -- case_decide as E; [subst b|done]. rewrite Hfc. simpl. f_equal. unfold fback. simpl.
           by rewrite Elo, andb_false_r.
        -- intros qb'. unfold fc_b. simpl. by flags.
      * exists [Backenable band]. split; [done|]. intros. set_solver.
    + apply backs_none. intros v Hv. rewrite Hfc in Hv. injection Hv as <-. apply fback_id. by left.
  - rewrite Z.eqb_refl in Hr. injection Hr as <-.
    apply backs_none. intros v Hv. rewrite Hfc in Hv. injection Hv as <-. apply fback_id. by right.
Qed.

Lemma qbackenable_backs q band q' : 0 ≤ band → qbackenable q band = Ret q' → backs band q q'.
Proof.
  intros Hb H. destruct (decide (band = 0)) as [->|Hne]; [by apply qbackenable_0|].
  apply qbackenable_band; [lia|done].
Qed.

(** ** The flow-control invariant *)

(** The water marks are sane and the full flag is right. *)
Definition full_ok (v : fcv) : Prop :=
  0 < fc_hi v ∧ 0 ≤ fc_lo v ≤ fc_hi v ∧ fc_full v = (fc_hi v <=? fc_count v).

(** A writer waits only where there is data to take off. *)
Definition want_ok (v : fcv) : Prop :=
  fc_want v = true → fc_lo v ≤ fc_count v ∧ 0 < fc_count v.

Definition q_full_ok (q : queue) : Prop := ∀ b v, 0 ≤ b → fc b q = Some v → full_ok v.
Definition q_want_ok (q : queue) : Prop := ∀ b v, 0 ≤ b → fc b q = Some v → want_ok v.

(** The bytes of no band reach [2^32]. *)
Definition bounded (q : queue) : Prop := ∀ b, 0 ≤ b → total (bandl b (q_msgs q)) < 2 ^ 32.

Record flow_inv (q : queue) : Prop := {
  fi_wf : queue_wf q;
  fi_full : q_full_ok q;
  fi_want : q_want_ok q;
  fi_bound : bounded q
}.

Lemma bytes_nonneg nb m : msg_ok nb m → 0 ≤ bytes m.
Proof. intros (_ & _ & H). unfold bytes. induction H; simpl; lia. Qed.

Lemma total_nonneg nb l : Forall (msg_ok nb) l → 0 ≤ total l.
Proof. induction 1 as [|m l Hm _ IH]; simpl; [lia|]. pose proof (bytes_nonneg nb m Hm). lia. Qed.

Lemma total_band_nonneg q b : queue_wf q → 0 ≤ total (bandl b (q_msgs q)).
Proof.
  intros Hwf. apply (total_nonneg (q_nband q)). apply Forall_forall. intros m Hm.
  apply list_elem_of_filter in Hm as [_ Hm]. pose proof (wf_msgs q Hwf) as Hok.
  rewrite Forall_forall in Hok. by apply Hok.
Qed.

Lemma fc_count_wf q b v : queue_wf q → bounded q → 0 ≤ b → fc b q = Some v →
  fc_count v = total (bandl b (q_msgs q)).
Proof.
  intros Hwf Hbd Hb. specialize (Hbd b Hb). pose proof (total_band_nonneg q b Hwf).
  unfold fc. destruct (Z.eqb_spec b 0) as [->|Hne].
  - intros [= <-]. simpl. rewrite (wf_count q Hwf). by apply w32_id.
  - destruct (q_bandp q !! Z.to_nat (b - 1)) as [qb|] eqn:E; [|done]. intros [= <-]. simpl.
    destruct (wf_bands q Hwf _ _ E) as (_ & _ & ->).
    replace (Z.of_nat (Z.to_nat (b - 1)) + 1) with b by lia. by apply w32_id.
Qed.

Lemma fput_ok m v t : full_ok v → fc_count v = t → 0 ≤ t → 0 ≤ bytes m → t + bytes m < 2 ^ 32 →
  full_ok (fput m v) ∧ (want_ok v → want_ok (fput m v)).
Proof.
  intros (Hh & Hl & Hf) <- Ht Hm Hb.
  assert (add_sizes m (fc_count v) = fc_count v + bytes m) as Ha.
  { rewrite add_sizes_spec by (unfold in_u32; lia). apply w32_id. unfold in_u32. lia. }
  unfold full_ok, want_ok, fput. cbn [fc_hi fc_lo fc_full fc_count fc_want]. rewrite Ha, Hf.
  split_and!; try done; try lia.
  intros H Hw. specialize (H Hw). lia.
Qed.

Lemma fget_ok m v t : full_ok v → fc_count v = t → t < 2 ^ 32 → 0 ≤ bytes m ≤ t →
  full_ok (fget m v) ∧ want_ok (fback (fget m v)).
Proof.
  intros (Hh & Hl & Hf) <- Ht Hm.
  assert (sub_sizes m (fc_count v) = fc_count v - bytes m) as Ha.
  { rewrite sub_sizes_spec by (unfold in_u32; lia). apply w32_id. unfold in_u32. lia. }
  unfold full_ok, want_ok, fback, fget. cbn [fc_hi fc_lo fc_full fc_count fc_want]. rewrite Ha, Hf.
  split_and!; try done; lia.
Qed.

Lemma fback_ok v : full_ok v → 0 ≤ fc_count v → full_ok (fback v) ∧ want_ok (fback v).
Proof.
  intros (Hh & Hl & Hf) Hc. unfold full_ok, want_ok, fback. simpl.
  split_and!; try done; lia.
Qed.

(** New band records. *)
Lemma fc_grown b n q v : 0 ≤ b →
  fc b (set_q_bandp (q_bandp q ++ replicate n (new_band q)) q) = Some v →
  fc b q = Some v ∨ v = Fc 0 (q_hiwat q) (q_lowat q) false false.
Proof.
  intros Hb. unfold fc. destruct (Z.eqb_spec b 0); [by left|]. simpl.
  destruct ((q_bandp q ++ replicate n (new_band q)) !! Z.to_nat (b - 1)) as [qb|] eqn:E; [|done].
  intros [= <-]. apply lookup_app_Some in E as [E|[_ [-> _]%lookup_replicate]].
  - left. by rewrite E.
  - by right.
Qed.

Lemma grown_inv n q :
  flow_inv q → queue_wf (set_q_bandp (q_bandp q ++ replicate n (new_band q)) q) →
  flow_inv (set_q_bandp (q_bandp q ++ replicate n (new_band q)) q).
Proof.
  intros [Hwf Hfu Hwa Hbd] Hwf'. split; [done| | |done].
  - intros b v Hb [Hv| ->]%fc_grown; [by apply (Hfu b)| |done].
    destruct (Hfu 0 (fc_q q)) as (? & ? & _); [lia|done|]. simpl in *.
    unfold full_ok. simpl. split_and!; lia.
  - intros b v Hb [Hv| ->]%fc_grown; [by apply (Hwa b)|by unfold want_ok|done].
Qed.

(** Linking a message with room for it keeps the invariant. *)
Lemma put_inv_full q q' l1 m l2 :
  queue_wf q → q_full_ok q → bounded q → queue_wf q' → 0 ≤ bytes m → 0 ≤ b_band m →
  q_msgs q = l1 ++ l2 → q_msgs q' = l1 ++ m :: l2 →
  total (bandl (b_band m) (q_msgs q)) + bytes m < 2 ^ 32 →
  (∀ b, 0 ≤ b → fc b q' = (if decide (b = b_band m) then fput m else id) <$> fc b q) →
  q_full_ok q' ∧ bounded q' ∧ (q_want_ok q → q_want_ok q').
Proof.
  intros Hwf Hfu Hbd Hwf' Hm Hb0 Hq Hq' Hroom Hfc.
  assert (∀ b v, 0 ≤ b → fc b q' = Some v → full_ok v ∧ (q_want_ok q → want_ok v)) as Hall.
  { intros b v Hb Hv. rewrite Hfc in Hv by done.
    destruct (fc b q) as [v0|] eqn:E; [|done]. injection Hv as <-. case_decide as Eb.
    - subst b. destruct (fput_ok m v0 _ (Hfu _ _ Hb E) (fc_count_wf q _ v0 Hwf Hbd Hb E)) as [H1 H2];
        [by apply total_band_nonneg|done|done|]. split; [done|]. intros Hwa. by apply H2, (Hwa _ _ Hb E).
    - split; [by apply (Hfu b)|]. intros Hwa. by apply (Hwa b). }
  split_and!.
  - intros b v Hb Hv. by apply (Hall b v Hb Hv).
  - intros b Hb. rewrite Hq', total_band_add, <-Hq. specialize (Hbd b Hb).
    case_decide as E; [subst b; lia|lia].
  - intros Hwa b v Hb Hv. by apply (Hall b v Hb Hv).
Qed.

(** Taking a message and re-enabling its band keeps the invariant. *)
Lemma take_inv q q1 q2 l1 m l2 :
  flow_inv q → q_msgs q = l1 ++ m :: l2 → queue_wf q2 → q_msgs q2 = l1 ++ l2 →
  (∀ b, 0 ≤ b → fc b q1 = (if decide (b = b_band m) then fget m else id) <$> fc b q) →
  (∀ b, 0 ≤ b → fc b q2 = (if decide (b = b_band m) then fback else id) <$> fc b q1) →
  flow_inv q2.
Proof.
  intros [Hwf Hfu Hwa Hbd] Hq Hwf2 Hq2 H1 H2.
  assert (msg_ok (q_nband q) m) as Hm.
  { pose proof (wf_msgs q Hwf) as Hok. rewrite Hq, Forall_forall in Hok. apply Hok. set_solver. }
  pose proof (bytes_nonneg _ _ Hm) as Hby.
  assert (bounded q2) as Hbd2.
  { intros b Hb. specialize (Hbd b Hb). rewrite Hq, total_band_add in Hbd. rewrite Hq2.
    case_decide; lia. }
  assert (∀ b v, 0 ≤ b → fc b q2 = Some v → full_ok v ∧ want_ok v) as Hall.
  { intros b v Hb Hv. rewrite H2, H1 in Hv by done.
    destruct (fc b q) as [v0|] eqn:E; [|done]. injection Hv as <-. case_decide as Eb; simpl.
    - subst b. pose proof (fc_count_wf q _ v0 Hwf Hbd Hb E) as Hc.
      assert (bytes m ≤ total (bandl (b_band m) (q_msgs q))) as Hle.
      { rewrite Hq, total_band_add, decide_True by done.
        pose proof (total_band_nonneg q2 (b_band m) Hwf2). rewrite Hq2 in *. lia. }
      destruct (fget_ok m v0 _ (Hfu _ _ Hb E) Hc) as [Hf Hw]; [by apply Hbd|lia|].
      split; [|done]. by destruct Hf as (? & ? & ?).
    - split; [by apply (Hfu b)|by apply (Hwa b)]. }
  split; [done| | |done]; intros b v Hb Hv; by apply (Hall b v Hb Hv).
Qed.

(** ** The operations on the view *)

Lemma fc_put_done b q m l1 l2 en : 0 ≤ b → 0 ≤ b_band m →
  fc b (put_done q m l1 l2 en) = (if decide (b = b_band m) then fput m else id) <$> fc b q.
Proof.
  intros Hb Hm. rewrite <-(fc_linked b l1 m l2 q Hb Hm), <-fc_put_account by done.
  unfold put_done. destruct en; [apply fc_qenable|done].
Qed.

Lemma filed_bytes m : bytes (filed m) = bytes m.
Proof. unfold filed. by destruct (QPCTL <=? db_type m). Qed.

Lemma put_done_inv q m l1 l2 en :
  flow_inv q → msg_ok (q_nband q) m → b_id m ∉ (b_id <$> q_msgs q) → q_msgs q = l1 ++ l2 →
  Forall (λ t, level m ≤ level t) l1 → Forall (λ t, level t ≤ level m) l2 →
  total (bandl (b_band m) (q_msgs q)) + bytes m < 2 ^ 32 →
  flow_inv (put_done q m l1 l2 en).
Proof.
  intros [Hwf Hfu Hwa Hbd] Hm Hfr Hq H1 H2 Hroom.
  destruct (put_result q m l1 l2 en Hwf Hm Hfr Hq H1 H2) as [Hwf2 Hq2].
  destruct (put_inv_full q (put_done q m l1 l2 en) l1 m l2) as (Hfu' & Hbd' & Hwa'); try done.
  - by apply (bytes_nonneg (q_nband q)).
  - apply Hm.
  - intros b Hb. apply fc_put_done; [done|apply Hm].
  - split; [exact Hwf2|done|by apply Hwa'|done].
Qed.

(** Room for a message: its band's bytes stay below [2^32]. *)
Definition room (q : queue) (m : mblk) : Prop :=
  total (bandl (b_band (filed m)) (q_msgs q)) + bytes m < 2 ^ 32.

Lemma putq_inv avail q m : flow_inv q → msg_in q m → room q m →
  ∃ r q', putq avail q m = Ret (r, q') ∧ flow_inv q'.
Proof.
  intros Hinv Hin Hroom. destruct (putq_shape avail q m (fi_wf q Hinv) Hin) as (n & Hwf' & Hs).
  cbv zeta in *. revert Hs. case_decide.
  - intros (l1 & l2 & en & -> & Hm & Hq & H1 & H2). do 2 eexists. split; [done|].
    apply put_done_inv; rewrite ?filed_level, ?filed_bytes; try done.
    + by apply grown_inv.
    + by apply msg_in_fresh.
    + eapply Forall_impl; [exact H2|]. simpl. lia.
  - intros ->. do 2 eexists. split; [done|]. by apply grown_inv.
Qed.

Lemma putbq_inv avail q m : flow_inv q → msg_in q m → room q m →
  ∃ r q', putbq avail q m = Ret (r, q') ∧ flow_inv q'.
Proof.
  intros Hinv Hin Hroom. destruct (putbq_shape avail q m (fi_wf q Hinv) Hin) as (n & Hwf' & Hs).
  cbv zeta in *. revert Hs. case_decide.
  - intros (l1 & l2 & en & -> & Hm & Hq & H1 & H2). do 2 eexists. split; [done|].
    apply put_done_inv; rewrite ?filed_level, ?filed_bytes; try done.
    + by apply grown_inv.
    + by apply msg_in_fresh.
    + eapply Forall_impl; [exact H1|]. simpl. lia.
  - intros ->. do 2 eexists. split; [done|]. by apply grown_inv.
Qed.

(** Views that agree up to the trace. *)
Lemma inv_same_fc q q' : flow_inv q → queue_wf q' → q_msgs q' = q_msgs q →
  (∀ b, 0 ≤ b → fc b q' = fc b q) → flow_inv q'.
Proof.
  intros [Hwf Hfu Hwa Hbd] Hwf' Hm Hfc. split; [done| | |].
  - intros b v Hb. rewrite Hfc by done. by apply Hfu.
  - intros b v Hb. rewrite Hfc by done. by apply Hwa.
  - intros b Hb. rewrite Hm. by apply Hbd.
Qed.

Lemma backs_inv band q q' : flow_inv q → queue_wf q' → q_msgs q' = q_msgs q → backs band q q' →
  flow_inv q'.
Proof.
  intros [Hwf Hfu Hwa Hbd] Hwf' Hm [Hfc _].
  assert (∀ b v, 0 ≤ b → fc b q' = Some v → full_ok v ∧ want_ok v) as Hall.
  { intros b v Hb Hv. rewrite Hfc in Hv by done. destruct (fc b q) as [v0|] eqn:E; [|done].
    injection Hv as <-. pose proof (fc_count_wf q b v0 Hwf Hbd Hb E) as Hc.
    pose proof (total_band_nonneg q b Hwf). case_decide; simpl.
    - apply fback_ok; [by apply (Hfu b)|lia].
    - split; [by apply (Hfu b)|by apply (Hwa b)]. }
  split; [done| | |by unfold bounded; rewrite Hm]; intros b v Hb Hv; by apply (Hall b v Hb Hv).
Qed.

Lemma taken_inv q q1 q' l1 m l2 : flow_inv q → q_msgs q = l1 ++ m :: l2 →
  (q1 = get_account m (unlinked l1 m l2 q) ∨ q1 = q_clr QWANTR (get_account m (unlinked l1 m l2 q))) →
  qbackenable q1 (b_band m) = Ret q' → flow_inv q'.
Proof.
  intros Hinv Hq Hq1 Hbe. pose proof (fi_wf q Hinv) as Hwf.
  destruct (taken_spec q l1 m l2 Hwf Hq) as (Hwf1 & Hm1 & Hb1).
  assert (queue_wf q1 ∧ q_msgs q1 = l1 ++ l2 ∧ 0 ≤ b_band m ≤ q_nband q1) as (Hwf2 & Hm2 & Hb2).
  { destruct Hq1 as [->| ->]; [done|]. split_and!; try apply Hb1; [|done].
    eapply flags_only_wf; [apply flags_only_flag|done]. }
  destruct (qbackenable_spec q1 (b_band m) Hwf2 Hb2) as (q2 & He & Hfo & _).
  rewrite Hbe in He. injection He as ->.
  destruct (qbackenable_backs _ _ _ (proj1 Hb2) Hbe) as [Hfc _].
  apply (take_inv q q1 q2 l1 m l2); try done.
  - by apply (flags_only_wf _ _ Hfo).
  - by rewrite (flags_only_msgs _ _ Hfo).
  - intros b Hb. rewrite <-(fc_unlinked b l1 m l2 q) by (done || lia).
    rewrite <-fc_get_account by (done || lia). destruct Hq1 as [->| ->]; [done|apply fc_clr_wantr].
Qed.

Lemma getq_inv q : flow_inv q → ∃ r q', getq q = Ret (r, q') ∧ flow_inv q'.
Proof.
  intros Hinv. pose proof (fi_wf q Hinv) as Hwf.
  destruct (getq_noenab_spec q Hwf)
    as [[Hq Hg]|[(Hq & Hall & Hg)|(l1 & m & l2 & q1 & Hq & H1 & Hm & Hq1 & Hg)]];
    rewrite (getq_split _ _ _ Hg).
  - assert (queue_wf (q_set QWANTR q)) as Hwf1 by (by apply (flags_only_wf q); [apply flags_only_flag|]).
    destruct (qbackenable_spec _ 0 Hwf1) as (q2 & Hbe & Hfo & _); [unfold q_nband; lia|].
    rewrite Hbe. do 2 eexists. split; [done|].
    apply (backs_inv 0 (q_set QWANTR q)).
    + apply (inv_same_fc q); try done. intros. apply fc_set_wantr.
    + by apply (flags_only_wf _ _ Hfo).
    + by apply flags_only_msgs.
    + by apply qbackenable_0.
  - destruct (qbackenable_spec q 0 Hwf) as (q2 & Hbe & Hfo & _); [unfold q_nband; lia|].
    rewrite Hbe. do 2 eexists. split; [done|].
    apply (backs_inv 0 q); [done|by apply (flags_only_wf _ _ Hfo)|by apply flags_only_msgs|].
    by apply qbackenable_0.
  - destruct (taken_spec q l1 m l2 Hwf Hq) as (Hwf1 & _ & Hb1).
    assert (queue_wf q1 ∧ 0 ≤ b_band m ≤ q_nband q1) as (Hwf2 & Hb2).
    { destruct Hq1 as [->| ->]; [done|]. split; [|exact Hb1].
      eapply flags_only_wf; [apply flags_only_flag|done]. }
    destruct (qbackenable_spec q1 (b_band m) Hwf2 Hb2) as (q2 & Hbe & _). rewrite Hbe.
    do 2 eexists. split; [done|]. by apply (taken_inv q q1 q2 l1 m l2).
Qed.

Lemma rmvq_inv q l1 m l2 : flow_inv q → q_msgs q = l1 ++ m :: l2 →
  ∃ q', rmvq q (b_id m) = Ret q' ∧ flow_inv q'.
Proof.
  intros Hinv Hq. pose proof (fi_wf q Hinv) as Hwf.
  destruct (rmvq_spec q l1 m l2 Hwf Hq) as (q' & He & _).
  exists q'. split; [done|]. unfold rmvq in He.
  rewrite (rmvq_noenab_spec q l1 m l2 Hwf Hq) in He.
  eapply (taken_inv q _ q' l1 m l2); [done|done|by left|exact He].
Qed.

Lemma canput_inv q : flow_inv q → flow_inv (canput q).2.
Proof.
  intros Hinv. unfold canput. destruct (has (q_flag q) QFULL) eqn:Ef; simpl; [|done].
  pose proof Hinv as [Hwf Hfu Hwa Hbd].
  assert (∀ b, 0 ≤ b → fc b (q_set QWANTW q) = (if decide (b = 0) then fblock else id) <$> fc b q) as Hfc.
  { intros b Hb. apply fc_queue_change; [done| |done]. unfold fc_q, fblock. simpl. flags.
    by rewrite Ef, orb_true_r. }
  assert (∀ b v, 0 ≤ b → fc b (q_set QWANTW q) = Some v → full_ok v ∧ want_ok v) as Hall.
  { intros b v Hb Hv. rewrite Hfc in Hv by done. destruct (fc b q) as [v0|] eqn:E; [|done].
    injection Hv as <-. pose proof (Hfu b v0 Hb E) as Hf0. pose proof (Hwa b v0 Hb E) as Hw0.
    case_decide; [|done]. destruct Hf0 as (? & ? & Hf0). simpl. unfold want_ok, full_ok in *. simpl.
    split; [done|]. intros _. subst b. injection E as <-. simpl in *. rewrite Ef in Hf0. lia. }
  split; [|by intros b v Hb Hv; apply (Hall b)|by intros b v Hb Hv; apply (Hall b)|done].
  eapply flags_only_wf; [apply flags_only_flag|done].
Qed.

Lemma bcanput_inv q pri : flow_inv q → 0 ≤ pri ≤ 255 →
  ∃ r q', bcanput q pri = Ret (r, q') ∧ flow_inv q'.
Proof.
  intros Hinv Hp. unfold bcanput. destruct (Z.eqb_spec pri 0) as [->|Hne].
  { pose proof (canput_inv q Hinv) as Hc. unfold canput in Hc.
    destruct (has (q_flag q) QFULL); do 2 eexists; split; done. }
  destruct (Z.ltb_spec (q_nband q) pri); [by do 2 eexists|].
  pose proof Hinv as [Hwf Hfu Hwa Hbd].
  destruct (band_at_wf q pri Hwf) as (qb & -> & Hqb & _); [lia|]. cbn [rbind].
  destruct (has (qb_flag qb) QB_FULL) eqn:Ef; [|by do 2 eexists]. do 2 eexists. split; [done|].
  assert (fc pri q = Some (fc_b qb)) as Hfcq.
  { unfold fc. rewrite (proj2 (Z.eqb_neq pri 0)) by done. by rewrite Hqb. }
  assert (∀ b, 0 ≤ b →
    fc b (upd_band pri (λ qb, set_qb_flag (set_bits QB_WANTW (qb_flag qb)) qb) q) =
    (if decide (b = pri) then (λ v, Fc (fc_count v) (fc_hi v) (fc_lo v) (fc_full v) true) else id)
      <$> fc b q) as Hfc.
  { intros b Hb. apply fc_upd_band; [lia|done|]. intros qb'. unfold fc_b. simpl. by flags. }
  set (q1 := upd_band _ _ q) in *.
  assert (∀ b v, 0 ≤ b → fc b q1 = Some v → full_ok v ∧ want_ok v) as Hall.
  { intros b v Hb Hv. rewrite Hfc in Hv by done. destruct (fc b q) as [v0|] eqn:E; [|done].
    injection Hv as <-. pose proof (Hfu b v0 Hb E) as Hf0. pose proof (Hwa b v0 Hb E) as Hw0.
    case_decide; [|done]. destruct Hf0 as (? & ? & Hf0). simpl. unfold want_ok, full_ok in *. simpl.
    split; [done|]. intros _. subst b. rewrite Hfcq in E. injection E as <-.
    simpl in *. rewrite Ef in Hf0. lia. }
  split; [|by intros b v Hb Hv; apply (Hall b)|by intros b v Hb Hv; apply (Hall b)|done].
  eapply flags_only_wf; [|exact Hwf]. apply flags_only_band; [lia|done].
Qed.

(** ** Flushing *)

(** The water marks and waiting flags of the bands are the same. *)
Definition same_marks (q q' : queue) : Prop :=
  ∀ b v', 0 ≤ b → fc b q' = Some v' → ∃ v, fc b q = Some v ∧
    fc_hi v' = fc_hi v ∧ fc_lo v' = fc_lo v ∧ fc_want v' = fc_want v.

#[export] Instance same_marks_preorder : PreOrder same_marks.
Proof.
  split; [intros q b v Hb Hv; by exists v|].
  intros q1 q2 q3 H12 H23 b v3 Hb (v2 & (v1 & ? & ? & ? & ?)%H12 & ? & ? & ?)%H23; [|done..].
  exists v1. split_and!; congruence.
Qed.

Lemma flush_loop_fc (drop : mblk → bool) mp : ∀ q q',
  queue_wf q → q_full_ok q → Forall (msg_ok (q_nband q)) mp → ordered (q_msgs q ++ mp) →
  NoDup (b_id <$> (q_msgs q ++ mp)) →
  (∀ b, 0 ≤ b → total (bandl b (q_msgs q ++ mp)) < 2 ^ 32) →
  flush_loop drop mp q = Ret q' → q_full_ok q' ∧ same_marks q q'.
Proof.
  induction mp as [|m mp IH]; intros q q' Hwf Hfu Hok Ho Hnd Hbd; simpl; [by intros [= ->]|].
  apply Forall_cons in Hok as [Hm Hok]. pose proof (bytes_nonneg _ _ Hm) as Hby.
  assert (ordered (q_msgs q ++ mp)) as Ho' by (by apply ordered_remove in Ho).
  assert (NoDup (b_id <$> (q_msgs q ++ mp)) ∧ b_id m ∉ (b_id <$> (q_msgs q ++ mp))) as [Hnd' Hfr].
  { rewrite fmap_app, fmap_cons, <-Permutation_middle in Hnd. rewrite fmap_app.
    by apply NoDup_cons in Hnd as [? ?]. }
  destruct (drop m) eqn:Ed.
  - intros He. apply (IH (emit (Freemsg (b_id m)) q)); try done.
    + eapply flags_only_wf; [apply flags_only_emit|done].
    + intros b Hb. specialize (Hbd b Hb). rewrite total_band_add in Hbd. simpl. case_decide; lia.
  - assert (Forall (λ t, level m ≤ level t) (q_msgs q)) as Hle.
    { apply Forall_forall. intros t Ht. apply ordered_app in Ho as (H & _).
      apply H; [done|]. apply elem_of_cons. by left. }
    assert (b_id m ∉ (b_id <$> q_msgs q)) as Hfrq.
    { rewrite fmap_app in Hfr. by apply not_elem_of_app in Hfr as [? _]. }
    destruct (putq_append_eq q m Hwf Hm Hle) as (en & ->). cbn [rbind].
    fold (put_done q m (q_msgs q) [] en).
    destruct (put_result q m (q_msgs q) [] en Hwf Hm Hfrq) as [Hwf2 Hq2];
      [by rewrite app_nil_r|done|constructor|].
    assert (∀ b, 0 ≤ b → fc b (put_done q m (q_msgs q) [] en) =
      (if decide (b = b_band m) then fput m else id) <$> fc b q) as Hfc.
    { intros b Hb. apply fc_put_done; [done|apply Hm]. }
    assert (q_nband (put_done q m (q_msgs q) [] en) = q_nband q) as Hn2.
    { unfold put_done. destruct (put_account_shape m (linked (q_msgs q) m [] q)) as (_ & Hn & _).
      destruct (linked_fields (q_msgs q) m [] q) as (_ & Hln & _).
      rewrite <-Hln, <-Hn. destruct en; [|done].
      unfold q_nband. by rewrite (proj1 (proj2 (proj2 (qenable_locked_core _)))). }
    fold (put_done q m (q_msgs q) [] en) in Hwf2, Hq2.
    assert (bounded q) as Hbq.
    { intros b Hb. specialize (Hbd b Hb). rewrite bandl_app, total_app in Hbd.
      assert (0 ≤ total (bandl b (m :: mp))); [|lia].
      apply (total_nonneg (q_nband q)). apply Forall_forall. intros x [_ Hx]%list_elem_of_filter.
      apply elem_of_cons in Hx as [->|Hx]; [done|]. rewrite Forall_forall in Hok. by apply Hok. }
    assert (total (bandl (b_band m) (q_msgs q)) + bytes m < 2 ^ 32) as Hroom.
    { specialize (Hbd (b_band m) (proj1 (proj1 Hm))).
      rewrite total_band_add, decide_True, bandl_app, total_app in Hbd by done.
      assert (0 ≤ total (bandl (b_band m) mp)); [|lia].
      apply (total_nonneg (q_nband q)). apply Forall_forall. intros x [_ Hx]%list_elem_of_filter.
      rewrite Forall_forall in Hok. by apply Hok. }
    destruct (put_inv_full q (put_done q m (q_msgs q) [] en) (q_msgs q) m []) as (Hfu' & _ & _);
      try done; [apply Hm|by rewrite app_nil_r|].
    intros He. destruct (IH _ q' Hwf2 Hfu') as [Hf' Hm']; [..|exact He|].
    + by rewrite Hn2.
    + by rewrite Hq2, <-app_assoc.
    + by rewrite Hq2, <-app_assoc.
    + by rewrite Hq2, <-app_assoc.
    + split; [done|]. etrans; [|exact Hm']. intros b v' Hb Hv. rewrite Hfc in Hv by done.
      destruct (fc b q) as [v|]; [|done]. exists v. split; [done|]. injection Hv as <-.
      by case_decide.
Qed.

Lemma fc_flush_reset b q : 0 ≤ b → fc b (flush_reset q) = freset <$> fc b q.
Proof.
  intros Hb. unfold fc, flush_reset. simpl. destruct (Z.eqb_spec b 0) as [->|Hne].
  - simpl. unfold fc_q, freset. simpl. by flags.
  - rewrite list_lookup_fmap. destruct (q_bandp q !! Z.to_nat (b - 1)); simpl; [|done].
    unfold fc_b, freset. simpl. by flags.
Qed.

Lemma flush_all_fc (drop : mblk → bool) q q' : flow_inv q →
  flush_loop drop (q_msgs q) (flush_reset q) = Ret q' →
  q_full_ok q' ∧ same_marks q q'.
Proof.
  intros [Hwf Hfu Hwa Hbd] He.
  destruct (flush_reset_wf q Hwf) as (Hwf0 & Hm0 & Hn0 & _).
  destruct (flush_loop_fc drop (q_msgs q) (flush_reset q) q') as [Hf Hs]; rewrite ?Hm0, ?Hn0; try done.
  - intros b v Hb. rewrite fc_flush_reset by done. destruct (fc b q) as [v0|] eqn:E; [|done].
    intros [= <-]. destruct (Hfu b v0 Hb E) as (? & ? & _). unfold full_ok. simpl.
    split_and!; lia.
  - apply Hwf.
  - apply Hwf.
  - apply Hwf.
  - split; [done|]. etrans; [|exact Hs]. intros b v' Hb. rewrite fc_flush_reset by done.
    destruct (fc b q) as [v|]; [|done]. intros [= <-]. by exists v.
Qed.

Lemma total_filter_le nb (P : mblk → Prop) `{!∀ m, Decision (P m)} b l :
  Forall (msg_ok nb) l → total (bandl b (filter P l)) ≤ total (bandl b l).
Proof.
  induction 1 as [|m l Hm _ IH]; [done|]. rewrite filter_cons, bandl_cons.
  pose proof (bytes_nonneg nb m Hm).
  case_decide; rewrite ?bandl_cons; case_decide; simpl; lia.
Qed.

Lemma fc_flush_enable b n qbf q : fc b (flush_enable n qbf q) = fc b q.
Proof.
  revert q. induction n as [|n IH]; intros q; simpl; [done|]. rewrite IH. by destruct (nth n qbf false).
Qed.

Lemma fc_flush_wantw b q : 0 ≤ b →
  fc b (set_q_bandp ((λ qb, (flush_wantw qb).1) <$> q_bandp q) q) =
  (if decide (b = 0) then id else fback) <$> fc b q.
Proof.
  intros Hb. unfold fc. simpl. destruct (Z.eqb_spec b 0) as [->|Hne]; [done|].
  rewrite decide_False by done. rewrite list_lookup_fmap.
  destruct (q_bandp q !! Z.to_nat (b - 1)) as [qb|]; simpl; [|done]. f_equal.
  unfold flush_wantw. destruct (has (qb_flag qb) QB_WANTW) eqn:Ew; simpl;
    [|symmetry; apply fback_id; by left].
  destruct ((qb_count qb <? qb_lowat qb) || (qb_lowat qb =? 0)) eqn:Elo;
    [|symmetry; apply fback_id; by right].
  unfold fc_b, fback. simpl. flags. by rewrite Elo, andb_false_r.
Qed.

(** The test of [flushq] and [flushband] on the writer of band 0. *)
Lemma fc_flush_0 b q : 0 ≤ b →
  let c := has (q_flag q) QWANTW && ((q_lowat q =? 0) || (q_count q <? q_lowat q)) in
  fc b (if c then q_clr QWANTW q else q) = (if decide (b = 0) then fback else id) <$> fc b q.
Proof.
  intros Hb. cbv zeta. rewrite orb_comm.
  destruct (has (q_flag q) QWANTW) eqn:Ew; cbn [andb].
  - destruct ((q_count q <? q_lowat q) || (q_lowat q =? 0)) eqn:Elo.
    + apply fc_queue_change; [done| |done]. unfold fc_q, fback. simpl. flags.
      by rewrite Elo, andb_false_r.
    + apply fc_queue_change; [done| |done]. symmetry. apply fback_id. by right.
  - apply fc_queue_change; [done| |done]. symmetry. apply fback_id. by left.
Qed.

Lemma flushed_bounded (drop : mblk → bool) q q' : flow_inv q →
  q_msgs q' = filter (λ m, drop m = false) (q_msgs q) → bounded q'.
Proof.
  intros [Hwf _ _ Hbd] Hm b Hb. rewrite Hm. specialize (Hbd b Hb).
  pose proof (total_filter_le (q_nband q) (λ m, drop m = false) b (q_msgs q) (wf_msgs q Hwf)). lia.
Qed.

Lemma flushq_inv q flag : flow_inv q → ∃ q', flushq q flag = Ret q' ∧ flow_inv q'.
Proof.
  intros Hinv. pose proof (fi_wf q Hinv) as Hwf. unfold flushq.
  destruct (q_msgs q) as [|x l] eqn:Hq; [by exists q|]. rewrite <-Hq.
  set (drop := λ m, truthy flag || datamsg (db_type m)).
  destruct (flush_all_spec drop q Hwf) as (q1 & He & Hwf1 & Hm1 & _ & _).
  destruct (flush_all_fc drop q q1 Hinv He) as [Hfu1 _].
  pose proof (flushed_bounded drop q q1 Hinv Hm1) as Hbd1.
  rewrite He. cbn [rbind]. eexists. split; [done|].
  generalize ((λ qb, (flush_wantw qb).2) <$> q_bandp q1). intros qbf.
  set (q2 := set_q_bandp _ q1). set (c := has (q_flag q2) QWANTW && _).
  set (q3 := if c then q_clr QWANTW q2 else q2).
  set (q4 := flush_enable _ qbf q3).
  set (q5 := if c then emit (Backenable 0) q4 else q4).
  assert (flags_only q1 q5) as Hfo.
  { etrans; [apply flush_wantw_frame|]. fold q2. trans q3.
    { unfold q3. destruct c; [apply flags_only_flag|done]. }
    trans q4; [apply flush_enable_frame|]. unfold q5. destruct c; [apply flags_only_emit|done]. }
  assert (∀ b, 0 ≤ b → fc b q5 = fback <$> fc b q1) as Hfc.
  { intros b Hb. assert (fc b q5 = fc b q3) as ->.
    { unfold q5. destruct c; rewrite ?fc_emit; apply fc_flush_enable. }
    unfold q3, c. rewrite fc_flush_0 by done. unfold q2. rewrite fc_flush_wantw by done.
    rewrite <-option_fmap_compose. by case_decide; destruct (fc b q1). }
  assert (∀ b v, 0 ≤ b → fc b q5 = Some v → full_ok v ∧ want_ok v) as Hall.
  { intros b v Hb. rewrite Hfc by done. destruct (fc b q1) as [v0|] eqn:E; [|done]. intros [= <-].
    apply fback_ok; [by apply (Hfu1 b)|].
    rewrite (fc_count_wf q1 b v0) by done. by apply total_band_nonneg. }
  split; [by apply (flags_only_wf q1)|by intros b v Hb Hv; apply (Hall b)
    |by intros b v Hb Hv; apply (Hall b)|].
  intros b Hb. rewrite (flags_only_msgs _ _ Hfo). by apply Hbd1.
Qed.

Lemma flushband0_inv q flag : flow_inv q → ∃ q', flushband q 0 flag = Ret q' ∧ flow_inv q'.
Proof.
  intros Hinv. pose proof (fi_wf q Hinv) as Hwf. unfold flushband.
  rewrite (proj2 (Z.ltb_ge (q_nband q) 0)) by (unfold q_nband; lia). rewrite Z.eqb_refl.
  set (drop := λ m, (b_band m =? 0) && (truthy flag || datamsg (db_type m))).
  destruct (flush_all_spec drop q Hwf) as (q1 & He & Hwf1 & Hm1 & _ & _).
  destruct (flush_all_fc drop q q1 Hinv He) as [Hfu1 Hmk1].
  pose proof (flushed_bounded drop q q1 Hinv Hm1) as Hbd1.
  rewrite He. cbn [rbind]. eexists. split; [done|].
  set (c := has (q_flag q1) QWANTW && _).
  set (q2 := if c then emit (Backenable 0) (q_clr QWANTW q1) else q1).
  assert (∀ b, 0 ≤ b → fc b q2 = (if decide (b = 0) then fback else id) <$> fc b q1) as Hfc.
  { intros b Hb. rewrite <-fc_flush_0 by done. unfold q2. fold c. by destruct c. }
  assert (flags_only q1 q2) as Hfo.
  { unfold q2. destruct c; [|done]. etrans; [|apply flags_only_emit]. apply flags_only_flag. }
  assert (∀ b v, 0 ≤ b → fc b q2 = Some v → full_ok v ∧ want_ok v) as Hall.
  { intros b v Hb. rewrite Hfc by done. destruct (fc b q1) as [v1|] eqn:E; [|done]. intros [= <-].
    pose proof (fc_count_wf q1 b v1 Hwf1 Hbd1 Hb E) as Hc1. case_decide as Eb; simpl.
    - apply fback_ok; [by apply (Hfu1 b)|]. rewrite Hc1. by apply total_band_nonneg.
    - split; [by apply (Hfu1 b)|]. destruct (Hmk1 b v1 Hb E) as (v0 & E0 & _ & Hlo & Hw).
      pose proof (fi_want q Hinv b v0 Hb E0) as Hw0. unfold want_ok in *.
      rewrite Hlo, Hw, Hc1. intros Hwt. specialize (Hw0 Hwt).
      rewrite (fc_count_wf q b v0 Hwf (fi_bound q Hinv) Hb E0) in Hw0.
      replace (bandl b (q_msgs q1)) with (bandl b (q_msgs q)); [done|].
      rewrite Hm1. unfold bandl. rewrite list_filter_filter_l; [done|].
      intros m Hm. unfold drop. by rewrite (proj2 (Z.eqb_neq (b_band m) 0)) by lia. }
  split; [by apply (flags_only_wf q1)|by intros b v Hb Hv; apply (Hall b)
    |by intros b v Hb Hv; apply (Hall b)|].
  intros b Hb. rewrite (flags_only_msgs _ _ Hfo). by apply Hbd1.
Qed.

Lemma find_msg_inv id l : ∀ rpre r m suf, find_msg id rpre l = Ret (r, m, suf) →
  b_id m = id ∧ ∃ l1, l = l1 ++ m :: suf.
Proof.
  induction l as [|x l IH]; intros rpre r m suf; simpl; [done|].
  destruct (Z.eqb_spec (b_id x) id) as [E|E].
  - intros [= _ <- <-]. split; [done|]. by exists [].
  - intros (Hm & l1 & ->)%IH. split; [done|]. by exists (x :: l1).
Qed.

Lemma rmvq_ret_inv q id q' : flow_inv q → rmvq q id = Ret q' → flow_inv q'.
Proof.
  intros Hinv He. assert (∃ l1 m l2, q_msgs q = l1 ++ m :: l2 ∧ b_id m = id) as (l1 & m & l2 & Hq & <-).
  { unfold rmvq in He. apply rbind_Ret_inv in He as ([m q1] & He & _). unfold rmvq_noenab in He.
    apply rbind_Ret_inv in He as ([[rp m'] suf] & Hf & _).
    apply find_msg_inv in Hf as (Hid & l1 & Hl). by exists l1, m', suf. }
  destruct (rmvq_inv q l1 m l2 Hinv Hq) as (q2 & He2 & Hi2). rewrite He in He2. by injection He2 as ->.
Qed.

Lemma flushband_one_inv pri flag m q q' :
  flow_inv q → flushband_one pri flag m q = Ret q' → flow_inv q'.
Proof.
  intros Hinv. unfold flushband_one. case_if; [|by intros [= <-]]. case_if; [|by intros [= <-]].
  all: intros (q1 & Hr & [= <-])%rbind_Ret_inv; apply (inv_same_fc q1); try done;
    [by eapply rmvq_ret_inv|];
    (eapply flags_only_wf; [apply flags_only_emit|]); by eapply fi_wf, rmvq_ret_inv.
Qed.

Lemma flushband_loop_inv pri flag last mp : ∀ q r q',
  flow_inv q → flushband_loop pri flag last mp q = Ret (r, q') → flow_inv q'.
Proof.
  induction mp as [|m mp IH]; intros q r q' Hinv; simpl.
  - destruct last; [done|]. by intros [= _ <-].
  - case_if; [by intros [= _ <-]|]. intros (q1 & H1 & H2)%rbind_Ret_inv.
    eapply IH; [|exact H2]. by eapply flushband_one_inv.
Qed.

Lemma flushband_inv q pri flag : flow_inv q → 0 ≤ pri ≤ 255 →
  ∃ q', flushband q pri flag = Ret q' ∧ flow_inv q'.
Proof.
  intros Hinv Hp. destruct (decide (pri = 0)) as [->|Hne]; [by apply flushband0_inv|].
  destruct (flushband_total q pri flag (fi_wf q Hinv) Hp) as (q' & He).
  exists q'. split; [done|]. revert He. unfold flushband.
  destruct (q_nband q <? pri); [by intros [= <-]|].
  rewrite (proj2 (Z.eqb_neq pri 0)) by done.
  intros (qb & _ & He)%rbind_Ret_inv. destruct (qb_first qb) as [first|]; [|by injection He as <-].
  apply rbind_Ret_inv in He as ([[rp m] suf] & _ & He).
  apply rbind_Ret_inv in He as ([mp q1] & Hl & He). apply flushband_loop_inv in Hl; [|done].
  destruct mp as [mp|]; [by eapply flushband_one_inv|by injection He as <-].
Qed.

(** ** Reachable states *)

Inductive qop :=
| OpPutq (avail : nat) (m : mblk)
| OpPutbq (avail : nat) (m : mblk)
| OpGetq
| OpRmvq (id : Z)
| OpFlushq (flag : Z)
| OpFlushband (pri flag : Z)
| OpCanput
| OpBcanput (pri : Z).

Definition run_qop (o : qop) (q : queue) : run queue :=
  match o with
  | OpPutq avail m => rmap_run snd (putq avail q m)
  | OpPutbq avail m => rmap_run snd (putbq avail q m)
  | OpGetq => rmap_run snd (getq q)
  | OpRmvq id => rmvq q id
  | OpFlushq flag => flushq q flag
  | OpFlushband pri flag => flushband q pri flag
  | OpCanput => Ret (canput q).2
  | OpBcanput pri => rmap_run snd (bcanput q pri)
  end.

(** What a caller owes: a message put is not on the queue and its band has room for
    it, a message removed is on the queue, a band number is a byte. *)
Definition qop_ok (q : queue) (o : qop) : Prop :=
  match o with
  | OpPutq _ m | OpPutbq _ m => msg_in q m ∧ room q m
  | OpRmvq id => id ∈ (b_id <$> q_msgs q)
  | OpFlushband pri _ | OpBcanput pri => 0 ≤ pri ≤ 255
  | _ => True
  end.

(** A queue as it is set up: empty, with sane water marks. *)
Definition fresh_queue (q : queue) : Prop :=
  q_msgs q = [] ∧ q_count q = 0 ∧ q_bandp q = [] ∧ 0 < q_hiwat q ∧ 0 ≤ q_lowat q ≤ q_hiwat q ∧
  has (q_flag q) QFULL = false ∧ has (q_flag q) QWANTW = false.

Inductive qreach : queue → Prop :=
| qreach_init q : fresh_queue q → qreach q
| qreach_step q o q' : qreach q → qop_ok q o → run_qop o q = Ret q' → qreach q'.

Lemma fresh_inv q : fresh_queue q → flow_inv q.
Proof.
  intros (Hm & Hc & Hb & Hh & Hl & Hf & Hw).
  assert (∀ b v, 0 ≤ b → fc b q = Some v → v = fc_q q) as Hv.
  { intros b v _. unfold fc. rewrite Hb. by case_if; [intros [= <-]|]. }
  split.
  - split; rewrite ?Hm, ?Hb; try done; try constructor. unfold q_nband. by rewrite Hb.
  - intros b v H0 ->%Hv; [|done]. unfold full_ok. simpl. rewrite Hc, Hf.
    split_and!; try lia.
  - intros b v H0 ->%Hv; [|done]. unfold want_ok. simpl. congruence.
  - intros b _. by rewrite Hm.
Qed.

Lemma run_qop_inv q o : flow_inv q → qop_ok q o → ∃ q', run_qop o q = Ret q' ∧ flow_inv q'.
Proof.
  intros Hinv Hok. destruct o; simpl in *.
  - destruct Hok. destruct (putq_inv avail q m) as (r & q' & -> & ?); [done..|]. by exists q'.
  - destruct Hok. destruct (putbq_inv avail q m) as (r & q' & -> & ?); [done..|]. by exists q'.
  - destruct (getq_inv q Hinv) as (r & q' & -> & ?). by exists q'.
  - apply list_elem_of_fmap in Hok as (m & -> & Hm). apply list_elem_of_split in Hm as (l1 & l2 & Hq).
    by apply (rmvq_inv q l1 m l2).
  - by apply flushq_inv.
  - by apply flushband_inv.
  - eexists. split; [done|]. by apply canput_inv.
  - destruct (bcanput_inv q pri Hinv Hok) as (r & q' & -> & ?). by exists q'.
Qed.

Lemma qreach_inv q : qreach q → flow_inv q.
Proof.
  induction 1 as [q Hf|q o q' _ IH Hok He]; [by apply fresh_inv|].
  destruct (run_qop_inv q o IH Hok) as (q2 & He2 & Hi). rewrite He in He2. by injection He2 as ->.
Qed.

Lemma total_pos l : 0 < total l → ∃ m, m ∈ l ∧ 0 < bytes m.
Proof.
  induction l as [|m l IH]; simpl; [lia|]. intros H.
  destruct (decide (0 < bytes m)) as [Hm|Hm]; [exists m; set_solver|].
  destruct IH as (x & Hx & ?); [lia|]. exists x. set_solver.
Qed.

(** C17: flow control in every reachable state of a queue, whatever the
    sequence of puts, gets, removals, flushes and [canput] / [bcanput] calls: no
    operation its caller may make faults; the queue is well formed; in each band
    the byte count is that of the band's messages and the full flag says exactly
    that it has reached the high-water mark; and where a writer waits, the band has
    data on the queue, so no writer is left waiting on an empty band. *)
Theorem streams_flow_control q : qreach q →
  queue_wf q ∧
  (∀ o, qop_ok q o → ∃ q', run_qop o q = Ret q') ∧
  ∀ b v, 0 ≤ b → fc b q = Some v →
    fc_count v = total (bandl b (q_msgs q)) ∧
    fc_full v = (fc_hi v <=? fc_count v) ∧
    (fc_want v = true → ∃ m, m ∈ bandl b (q_msgs q) ∧ 0 < bytes m).
Proof.
  intros Hr. pose proof (qreach_inv q Hr) as Hinv. pose proof Hinv as [Hwf Hfu Hwa Hbd].
  split_and!; [done| |].
  - intros o Hok. destruct (run_qop_inv q o Hinv Hok) as (q' & ? & _). by exists q'.
  - intros b v Hb Hv. pose proof (fc_count_wf q b v Hwf Hbd Hb Hv) as Hc.
    split_and!; [done|by apply (Hfu b)|]. intros Hw. apply total_pos. rewrite <-Hc.
    by apply (Hwa b v Hb Hv).
Qed.

(** the other half of the protocol: when [getq] takes a message of a
    band in which a writer waits and the band's count falls below the low-water
    mark (or the mark is 0), the waiting flag is cleared and the writer is
    re-enabled with the band's number. *)
Theorem getq_reenables_writer q m q' v :
  flow_inv q → getq q = Ret (Some m, q') → fc (b_band m) q = Some v → fc_want v = true →
  fc_count v - bytes m < fc_lo v ∨ fc_lo v = 0 →
  ∃ evs v', q_out q' = q_out q ++ evs ∧ Backenable (b_band m) ∈ evs ∧
    fc (b_band m) q' = Some v' ∧ fc_want v' = false ∧ fc_count v' = fc_count v - bytes m.
Proof.
  intros Hinv He Hv Hw Hlo. pose proof (fi_wf q Hinv) as Hwf.
  destruct (getq_noenab_spec q Hwf)
    as [[Hq Hg]|[(Hq & Hall & Hg)|(l1 & m' & l2 & q1 & Hq & H1 & Hm & Hq1 & Hg)]];
    rewrite (getq_split _ _ _ Hg) in He;
    apply rbind_Ret_inv in He as (q2 & Hbe & [= Heq <-]); try done. subst m'.
  destruct (taken_spec q l1 m l2 Hwf Hq) as (Hwf1 & Hm1 & Hb1).
  destruct (qbackenable_backs q1 (b_band m) q2) as (Hfc & evs & Hout & Hevs); [lia|done|].
  assert (fc (b_band m) q1 = Some (fget m v)) as Hfc1.
  { assert (fc (b_band m) q1 = fc (b_band m) (get_account m (unlinked l1 m l2 q))) as ->
      by (destruct Hq1 as [->| ->]; [done|apply fc_clr_wantr]).
    rewrite fc_get_account, decide_True by (done || lia).
    rewrite fc_unlinked, Hv by (done || lia). done. }
  assert (sub_sizes m (fc_count v) = fc_count v - bytes m) as Hs.
  { pose proof (fc_count_wf q _ v Hwf (fi_bound q Hinv) (proj1 Hb1) Hv) as Hc.
    pose proof (fi_bound q Hinv (b_band m) (proj1 Hb1)) as Hb.
    rewrite Hc. rewrite Hq, total_band_add, decide_True in Hb |- * by done.
    pose proof (total_band_nonneg _ (b_band m) Hwf1) as Hn. rewrite Hm1 in Hn.
    assert (0 ≤ bytes m).
    { pose proof (wf_msgs q Hwf) as Hok. rewrite Hq, Forall_forall in Hok.
      apply (bytes_nonneg (q_nband q)), Hok, elem_of_app. right. apply elem_of_cons. by left. }
    rewrite sub_sizes_spec by (unfold in_u32; lia). apply w32_id. unfold in_u32. lia. }
  assert (fc_want (fback (fget m v)) = false) as Hcl.
  { unfold fback, fget. simpl. rewrite Hs, Hw. simpl.
    destruct Hlo as [Hlo| ->]; [by rewrite (proj2 (Z.ltb_lt _ _) Hlo)|by rewrite orb_true_r]. }
  exists evs, (fback (fget m v)). split_and!; [| | |done|done].
  - rewrite Hout. f_equal. unfold unlinked, get_account in Hq1.
    destruct Hq1 as [->| ->]; case_ifs; done.
  - apply (Hevs (fget m v)); [done|done|done].
  - rewrite Hfc, Hfc1, decide_True by (done || lia). done.
Qed.

(** A queue with a full band 1 and a writer that waits for it. *)
Definition flow_demo : queue :=
  match (let* (_, q) := putq 1 (Queue [] 0 0 100 50 [] true []) (Mblk 7 1 0 M_DATA [60; 60]) in
         let* (_, q) := bcanput q 1 in Ret q) with
  | Ret q => q
  | _ => Queue [] 0 0 100 50 [] true []
  end.

Lemma flow_demo_reach : qreach flow_demo.
Proof.
  apply (qreach_step (match putq 1 (Queue [] 0 0 100 50 [] true []) (Mblk 7 1 0 M_DATA [60; 60]) with
                      | Ret (_, q) => q | _ => Queue [] 0 0 100 50 [] true [] end) (OpBcanput 1));
    [|simpl; lia|vm_compute; reflexivity].
  apply (qreach_step (Queue [] 0 0 100 50 [] true []) (OpPutq 1 (Mblk 7 1 0 M_DATA [60; 60])));
    [|split|vm_compute; reflexivity].
  - apply qreach_init. repeat split; simpl; lia.
  - split_and!; [simpl; lia..|repeat constructor; lia|simpl; apply not_elem_of_nil].
  - unfold room. vm_compute. reflexivity.
Qed.

Lemma streams_flow_control_witness :
  fc 1 flow_demo = Some (Fc 120 100 50 true true) ∧
  ∃ m, m ∈ bandl 1 (q_msgs flow_demo) ∧ 0 < bytes m.
Proof.
  split; [vm_compute; reflexivity|].
  destruct (streams_flow_control flow_demo flow_demo_reach) as (_ & _ & H).
  apply (H 1 (Fc 120 100 50 true true)); [lia|vm_compute; reflexivity|reflexivity].
Defined.

Lemma getq_reenables_writer_witness :
  ∃ q', getq flow_demo = Ret (Some (Mblk 7 1 0 M_DATA [60; 60]), q') ∧
    ∃ evs v', q_out q' = q_out flow_demo ++ evs ∧ Backenable 1 ∈ evs ∧ fc 1 q' = Some v' ∧
      fc_want v' = false ∧ fc_count v' = 0.
Proof.
  destruct (getq flow_demo) as [[r q']| |] eqn:E; [|vm_compute in E; discriminate E..].
  exists q'. assert (r = Some (Mblk 7 1 0 M_DATA [60; 60])) as ->.
  { vm_compute in E. injection E as <- _. reflexivity. }
  split; [reflexivity|].
  apply (getq_reenables_writer flow_demo (Mblk 7 1 0 M_DATA [60; 60]) q' (Fc 120 100 50 true true));
    [apply qreach_inv, flow_demo_reach|exact E|vm_compute; reflexivity|reflexivity|left; vm_compute; reflexivity].
Defined.
