(* ===== verification/Share.v ===== *)
(** * Share reservations ([uts/common/os/share.c], [sys/share.h])

    A vnode keeps a list of share reservations, the newest first; the last of the
    list is the first reservation made, which the compatibility mode singles out.
    [add_share] decides by walking the list with early exits; here the walk is the
    code's, and the theorems say what it keeps true of the whole list. *)

From S2P Require Import Prelude.

(** ** Data *)

(** [struct shrlock]; the owner is its bytes, [own_len] their number. *)
Record shrlock := Shrlock {
  access : Z;
  deny : Z;
  sysid : Z;
  pid : Z;
  owner : list Z
}.

#[global] Instance shrlock_eq_dec : EqDecision shrlock.
Proof. solve_decision. Defined.

Definition own_len (s : shrlock) : Z := zlen (owner s).

(** What the routines read of a vnode. *)
Record vnode := Vnode {
  v_shrlocks : list shrlock;
  v_special : bool;       (* [v_type] is [VCHR], [VBLK] or [VFIFO] *)
  v_rdonly : bool         (* [v_vfsp->vfs_flag & VFS_RDONLY] *)
}.

Definition F_RDACC : Z := 0x1.
Definition F_WRACC : Z := 0x2.
Definition F_RWACC : Z := 0x3.
Definition F_NODNY : Z := 0x0.
Definition F_RDDNY : Z := 0x1.
Definition F_WRDNY : Z := 0x2.
Definition F_RWDNY : Z := 0x3.
Definition F_COMPAT : Z := 0x8.

#[export] Instance F_RDDNY_bit : IsBit F_RDDNY := is_bit_pow 0 F_RDDNY eq_refl.
#[export] Instance F_WRACC_bit : IsBit F_WRACC := is_bit_pow 1 F_WRACC eq_refl.
#[export] Instance F_COMPAT_bit : IsBit F_COMPAT := is_bit_pow 3 F_COMPAT eq_refl.

Definition EAGAIN : Z := 11.
Definition EEXIST : Z := 17.
Definition EINVAL : Z := 22.

Definition isreadonly (vp : vnode) : bool := negb (v_special vp) && v_rdonly vp.

(** [bcmp(a, b, n) == 0] *)
Definition bcmp_eq (a b : list Z) (n : Z) : bool :=
  bool_decide (take (Z.to_nat n) a = take (Z.to_nat n) b).

(** ** Operations *)

Definition same_owner (e shr : shrlock) : bool :=
  (sysid e =? sysid shr) && (pid e =? pid shr) && (own_len e =? own_len shr) &&
  bcmp_eq (owner e) (owner shr) (own_len shr).

(** The loop of [add_share]: the error returned, or [None] where the loop ends or
    breaks and the reservation is granted. *)
Fixpoint add_share_scan (ro : bool) (shr : shrlock) (l : list shrlock) : option Z :=
  match l with
  | [] => None
  | e :: next =>
      let first := match next with [] => true | _ => false end in
      if same_owner e shr && (access e =? access shr) && (deny e =? deny shr) then Some EEXIST
      else if same_owner e shr && has (deny e) F_COMPAT && has (deny shr) F_COMPAT &&
              (first || has (access e) F_WRACC) then None
      else if has (deny e) F_COMPAT && first then
        if negb (has (deny shr) F_COMPAT) then
          if has (access shr) F_WRACC || has (deny shr) F_RDDNY || has (access e) F_WRACC
          then Some EAGAIN
          else if ro then None else Some EAGAIN
        else if (access shr =? F_RDACC) && (access e =? F_RDACC) then None
        else Some EAGAIN
      else if has (deny e) F_COMPAT && has (deny shr) F_COMPAT then add_share_scan ro shr next
      else if has (deny shr) F_COMPAT then
        if has (access shr) F_WRACC || has (deny e) F_RDDNY || has (access e) F_WRACC
        then Some EAGAIN
        else if first then
          if (access e =? F_RDACC) && ro then None else Some EAGAIN
        else add_share_scan ro shr next
      else if has (access shr) (deny e) || has (deny shr) (access e) then Some EAGAIN
      else add_share_scan ro shr next
  end.

(** The reservation as it is stored. *)
Definition stored (shr : shrlock) : shrlock :=
  Shrlock (access shr) (if has (deny shr) F_COMPAT then F_COMPAT else deny shr)
    (sysid shr) (pid shr) (take (Z.to_nat (own_len shr)) (owner shr)).

Definition set_shrlocks (l : list shrlock) (vp : vnode) : vnode := Vnode l (v_special vp) (v_rdonly vp).

Definition add_share (vp : vnode) (shr : shrlock) : Z * vnode :=
  if (access shr =? 0) ||
     truthy (Z.land (access shr) (Z.lnot (Z.lor F_RDACC (Z.lor F_WRACC F_RWACC)))) then (EINVAL, vp)
  else if truthy (Z.land (deny shr) (Z.lnot
            (Z.lor F_NODNY (Z.lor F_RDDNY (Z.lor F_WRDNY (Z.lor F_RWDNY F_COMPAT)))))) then (EINVAL, vp)
  else
    match add_share_scan (isreadonly vp) shr (v_shrlocks vp) with
    | Some e => (e, vp)
    | None => (0, set_shrlocks (stored shr :: v_shrlocks vp) vp)
    end.

Definition del_match (shr e : shrlock) : bool :=
  ((own_len shr =? own_len e) && bcmp_eq (owner shr) (owner e) (own_len shr)) ||
  ((own_len shr =? 0) &&
   (((sysid shr =? 0) && (pid shr =? pid e)) ||
    (negb (sysid shr =? 0) && (sysid shr =? sysid e)))).

(** The loop of [del_share]: the list it leaves and [found]. *)
Fixpoint del_scan (shr : shrlock) (l : list shrlock) (found : Z) : list shrlock * Z :=
  match l with
  | [] => ([], found)
  | e :: next =>
      if del_match shr e then del_scan shr next (s32 (found + 1))
      else let (l', found') := del_scan shr next found in (e :: l', found')
  end.

Definition del_share (vp : vnode) (shr : shrlock) : Z * vnode :=
  let (l, found) := del_scan shr (v_shrlocks vp) 0 in
  (if truthy found then 0 else EINVAL, set_shrlocks l vp).

Definition cleanshares (vp : vnode) (p : Z) : vnode :=
  match v_shrlocks vp with
  | [] => vp
  | _ => (del_share vp (Shrlock 0 0 0 p [])).2
  end.

Fixpoint remote_scan (s : Z) (l : list shrlock) : Z :=
  match l with
  | [] => 0
  | e :: next =>
      if (negb (s =? 0) && (sysid e =? s)) || ((s =? 0) && negb (sysid e =? 0)) then 1
      else remote_scan s next
  end.

Definition shr_has_remote_shares (vp : vnode) (s : Z) : Z := remote_scan s (v_shrlocks vp).

(** ** The invariant *)

Definition compat (e : shrlock) : bool := has (deny e) F_COMPAT.
Definition writes (e : shrlock) : bool := has (access e) F_WRACC.

(** Two reservations exclude each other: one wants what the other denies. *)
Definition clash (a b : shrlock) : bool := has (access a) (deny b) || has (deny a) (access b).

Definition who (e : shrlock) : Z * Z * list Z := (sysid e, pid e, owner e).

Record share_inv (vp : vnode) : Prop := {
  (** no two reservations made outside compatibility mode exclude each other *)
  inv_clash : ∀ i j a b, v_shrlocks vp !! i = Some a → v_shrlocks vp !! j = Some b → i ≠ j →
    compat a = false → compat b = false → clash a b = false;
  (** the two modes do not mix on a file that can be written *)
  inv_modes : isreadonly vp = false →
    (∀ e, e ∈ v_shrlocks vp → compat e = true) ∨ (∀ e, e ∈ v_shrlocks vp → compat e = false);
  (** write access in compatibility mode belongs to the owner of the first *)
  inv_writer : ∀ e f, e ∈ v_shrlocks vp → last (v_shrlocks vp) = Some f →
    compat e = true → writes e = true → who e = who f
}.

Lemma same_owner_who e shr : same_owner e shr = true ↔ who e = who shr.
Proof.
  unfold same_owner, bcmp_eq, own_len, who. rewrite !andb_true_iff, !Z.eqb_eq, bool_decide_eq_true.
  rewrite Nat2Z.id. split.
  - intros (((-> & ->) & Hl) & Ho). assert (length (owner e) = length (owner shr)) as Hl' by lia.
    rewrite <-Hl' in Ho at 1. rewrite !firstn_all in Ho. by rewrite Ho.
  - intros [= -> -> ->]. done.
Qed.

Lemma same_owner_eq e shr : same_owner e shr = bool_decide (who e = who shr).
Proof.
  destruct (same_owner e shr) eqn:E; symmetry.
  - by apply bool_decide_eq_true, same_owner_who.
  - apply bool_decide_eq_false. intros H%same_owner_who. congruence.
Qed.

(** What a granted walk has established. *)
Lemma scan_plain ro shr l : compat shr = false → add_share_scan ro shr l = None →
  (∀ e, e ∈ l → compat e = false → clash shr e = false) ∧
  (ro = false → l ≠ [] → ∃ f, last l = Some f ∧ compat f = false).
Proof.
  intros Hc. induction l as [|e l IH]; [by intros; split; [intros ? ?%elem_of_nil|]|].
  cbn [add_share_scan]. fold (compat e) (compat shr). rewrite Hc.
  rewrite !andb_false_r, !andb_false_l. cbn [negb].
  case_if; [done|]. destruct (compat e && match l with [] => true | _ :: _ => false end) eqn:Ef.
  - apply andb_prop in Ef as [Hce Hl]. case_if; [done|]. destruct ro; [|done]. intros _.
    destruct l; [|done]. split; [|done]. intros x [->|?%elem_of_nil]%elem_of_cons; [congruence|done].
  - fold (clash shr e). destruct (clash shr e) eqn:Ecl; [done|]. intros [H1 H2]%IH. split.
    + intros x [->|Hx]%elem_of_cons; [done|by apply H1].
    + intros Hro _. destruct l as [|x l].
      * exists e. split; [done|]. rewrite andb_true_r in Ef. done.
      * destruct (H2 Hro) as (f & Hf & ?); [done|]. by exists f.
Qed.

Lemma scan_compat ro shr l : compat shr = true → add_share_scan ro shr l = None →
  (ro = false → l ≠ [] → ∃ e, e ∈ l ∧ compat e = true) ∧
  (writes shr = true → l ≠ [] →
   ∃ e, e ∈ l ∧ compat e = true ∧ who e = who shr ∧ (writes e = true ∨ last l = Some e)).
Proof.
  intros Hc. induction l as [|e l IH]; [by intros; split|].
  cbn [add_share_scan]. fold (compat e) (compat shr) (writes e) (writes shr). rewrite Hc.
  rewrite !andb_true_r. cbn [negb]. case_if; [done|]. clear E.
  destruct (same_owner e shr) eqn:Eo, (compat e) eqn:Ece; simpl.
  - destruct (match l with [] => true | _ => false end || writes e) eqn:Ew.
    + intros _. split; [intros; exists e; split; [by left|done]|]. intros _ _. exists e.
      split_and!; [by left|done|by apply same_owner_who|].
      apply orb_prop in Ew as [Hl|Hw]; [|by left]. destruct l; [by right|done].
    + destruct l as [|x l]; [done|]. intros [H1 H2]%IH. split.
      * intros _ _. exists e. split; [by left|done].
      * intros Hw _. destruct (H2 Hw) as (y & Hy & ? & ? & Hl); [done|].
        exists y. split_and!; [by right|done..|]. destruct Hl; [by left|by right].
  - destruct (writes shr) eqn:Ews; simpl; [done|].
    case_if; [done|]. destruct l as [|x l].
    + destruct ((access e =? F_RDACC) && ro) eqn:Er; [|done]. apply andb_prop in Er as [_ ->].
      intros _. split; done.
    + intros [H1 H2]%IH. split; [|done]. intros Hro _. destruct (H1 Hro) as (y & ? & ?); [done|].
      exists y. split; [by right|done].
  - destruct l as [|x l].
    + destruct ((access shr =? F_RDACC) && (access e =? F_RDACC)) eqn:Er; [|done].
      intros _. split; [intros; exists e; split; [by left|done]|].
      apply andb_prop in Er as [Er _]. zb. unfold writes. rewrite Er. done.
    + intros [H1 H2]%IH. split.
      * intros _ _. exists e. split; [by left|done].
      * intros Hw _. destruct (H2 Hw) as (y & Hy & ? & ? & Hl); [done|].
        exists y. split_and!; [by right|done..|]. destruct Hl; [by left|by right].
  - destruct (writes shr) eqn:Ews; simpl; [done|].
    case_if; [done|]. destruct l as [|x l].
    + destruct ((access e =? F_RDACC) && ro) eqn:Er; [|done]. apply andb_prop in Er as [_ ->].
      intros _. split; done.
    + intros [H1 H2]%IH. split; [|done]. intros Hro _. destruct (H1 Hro) as (y & ? & ?); [done|].
      exists y. split; [by right|done].
Qed.

Lemma stored_fields shr :
  access (stored shr) = access shr ∧ who (stored shr) = who shr ∧ compat (stored shr) = compat shr ∧
  writes (stored shr) = writes shr ∧ (compat shr = false → deny (stored shr) = deny shr).
Proof.
  unfold stored, who, compat, writes, own_len. simpl. rewrite Nat2Z.id, firstn_all.
  split_and!; try done.
  - destruct (has (deny shr) F_COMPAT) eqn:E; simpl; [done|]. by rewrite E.
  - by intros ->.
Qed.

Lemma clash_sym a b : clash a b = clash b a.
Proof.
  unfold clash, has. rewrite (Z.land_comm (access a)), (Z.land_comm (deny a)). apply orb_comm.
Qed.

(** Granting a request keeps the invariant. *)
Lemma add_granted_inv vp shr :
  share_inv vp → add_share_scan (isreadonly vp) shr (v_shrlocks vp) = None →
  share_inv (set_shrlocks (stored shr :: v_shrlocks vp) vp).
Proof.
  intros [Icl Imo Iwr] Hs. destruct (stored_fields shr) as (Sa & Sw & Sc & Swr & Sd).
  split; simpl.
  - assert (∀ i b, v_shrlocks vp !! i = Some b → compat (stored shr) = false → compat b = false →
      clash (stored shr) b = false) as Hnew.
    { intros i b Hb Ha Hcb. rewrite Sc in Ha. destruct (scan_plain _ _ _ Ha Hs) as [H _].
      unfold clash. rewrite Sa, Sd by done. apply H; [by apply list_elem_of_lookup_2 in Hb|done]. }
    intros [|i] [|j] a b Ha Hb Hij Hca Hcb; simpl in *; [done|..].
    + injection Ha as <-. by apply (Hnew j).
    + injection Hb as <-. rewrite clash_sym. by apply (Hnew i).
    + by apply (Icl i j); [..|congruence| |].
  - unfold isreadonly in *. simpl. intros Hro.
    destruct (compat shr) eqn:Ec.
    + left. intros e [->|He]%elem_of_cons; [done|].
      destruct (scan_compat _ _ _ Ec Hs) as [H _].
      destruct (v_shrlocks vp) as [|x l] eqn:El; [by apply elem_of_nil in He|].
      destruct (H Hro) as (y & Hy & Hcy); [done|].
      destruct (Imo Hro) as [Hall|Hall]; [by apply Hall|]. apply Hall in Hy. congruence.
    + right. intros e [->|He]%elem_of_cons; [done|].
      destruct (scan_plain _ _ _ Ec Hs) as [_ H].
      destruct (v_shrlocks vp) as [|x l] eqn:El; [by apply elem_of_nil in He|].
      destruct (H Hro) as (y & Hy & Hcy); [done|].
      destruct (Imo Hro) as [Hall|Hall]; [|by apply Hall].
      apply last_Some_elem_of, Hall in Hy. congruence.
  - intros e f He Hf Hce Hwe.
    destruct (v_shrlocks vp) as [|x l] eqn:El; simpl in Hf.
    { injection Hf as <-. apply elem_of_cons in He as [->|He%elem_of_nil]; [|done]. done. }
    apply elem_of_cons in He as [->|He]; [|by apply Iwr].
    rewrite Sw. rewrite Sc in Hce. rewrite Swr in Hwe.
    destruct (scan_compat _ _ _ Hce Hs) as [_ H].
    destruct (H Hwe) as (y & Hy & Hcy & <- & [Hwy|Hly]); [done|by apply Iwr|].
    congruence.
Qed.

(** Deleting reservations by owner keeps it. *)
Lemma del_scan_spec shr l : ∀ found,
  (del_scan shr l found).1 = filter (λ e, del_match shr e = false) l.
Proof.
  induction l as [|e l IH]; intros found; [done|]. cbn [del_scan]. rewrite filter_cons.
  destruct (del_match shr e) eqn:E.
  - rewrite decide_False by congruence. apply IH.
  - rewrite decide_True by done. specialize (IH found). destruct (del_scan shr l found). simpl in *. by rewrite IH.
Qed.

Lemma del_scan_found shr l : ∀ found, 0 ≤ found → found + zlen l < 2 ^ 31 →
  (del_scan shr l found).2 = found + zlen (filter (λ e, del_match shr e = true) l).
Proof.
  induction l as [|e l IH]; intros found H0 Hl; [simpl; lia|]. cbn [del_scan]. rewrite filter_cons.
  cbn [length] in Hl.
  destruct (del_match shr e) eqn:E.
  - rewrite decide_True by done. rewrite s32_id by (unfold in_s32; lia). rewrite IH by lia.
    cbn [length]. lia.
  - rewrite decide_False by congruence. specialize (IH found). destruct (del_scan shr l found).
    simpl in *. rewrite IH by lia. lia.
Qed.

Lemma del_match_who shr a b : who a = who b → del_match shr a = del_match shr b.
Proof. unfold who, del_match, own_len. by intros [= -> -> ->]. Qed.

Lemma filter_lookup_pair (P : shrlock → Prop) `{!∀ e, Decision (P e)} (l : list shrlock) :
  ∀ (i j : nat) (a b : shrlock), filter P l !! i = Some a → filter P l !! j = Some b → i ≠ j →
  ∃ i' j' : nat, i' ≠ j' ∧ l !! i' = Some a ∧ l !! j' = Some b.
Proof.
  induction l as [|e l IH]; [done|]. intros i j a b. rewrite filter_cons.
  assert (∀ k x, filter P l !! k = Some x → ∃ k', l !! k' = Some x) as Hin.
  { intros k x Hk. apply list_elem_of_lookup_2, list_elem_of_filter in Hk as [_ Hk].
    by apply list_elem_of_lookup_1 in Hk. }
  case_decide.
  - destruct i as [|i], j as [|j]; simpl; intros Ha Hb Hij; [done|..].
    + apply Hin in Hb as [j' ?]. by exists O, (S j').
    + apply Hin in Ha as [i' ?]. by exists (S i'), O.
    + destruct (IH i j a b) as (i' & j' & ? & ? & ?); [done..|congruence|].
      exists (S i'), (S j'). split_and!; [congruence|done..].
  - intros Ha Hb Hij. destruct (IH i j a b) as (i' & j' & ? & ? & ?); [done..|].
    exists (S i'), (S j'). split_and!; [congruence|done..].
Qed.

Lemma del_inv vp shr :
  share_inv vp → share_inv (set_shrlocks (filter (λ e, del_match shr e = false) (v_shrlocks vp)) vp).
Proof.
  intros [Icl Imo Iwr]. split; simpl.
  - intros i j a b Ha Hb Hij. destruct (filter_lookup_pair (λ e, del_match shr e = false) _ i j a b Ha Hb Hij) as (i' & j' & ? & ? & ?).
    by apply (Icl i' j').
  - intros Hro. destruct (Imo Hro) as [H|H]; [left|right]; intros e [_ He]%list_elem_of_filter; by apply H.
  - intros e f [Hke He]%list_elem_of_filter Hf Hce Hwe.
    destruct (last (v_shrlocks vp)) as [g|] eqn:Eg; [|apply last_None in Eg; rewrite Eg in He; by apply elem_of_nil in He].
    pose proof (Iwr e g He eq_refl Hce Hwe) as Hg.
    assert (last (filter (λ e, del_match shr e = false) (v_shrlocks vp)) = Some g) as Hlast.
    { apply last_Some in Eg as [l' ->]. rewrite filter_app, filter_cons, decide_True.
      - by rewrite last_app.
      - by rewrite <-(del_match_who shr e g Hg). }
    congruence.
Qed.

(** Outside compatibility mode the walk grants exactly what clashes with nothing
    and repeats nothing. *)
Lemma scan_plain_iff ro shr l :
  compat shr = false → (∀ e, e ∈ l → compat e = false) →
  add_share_scan ro shr l = None ↔
  ∀ e, e ∈ l → clash shr e = false ∧ ¬ (who e = who shr ∧ access e = access shr ∧ deny e = deny shr).
Proof.
  intros Hc. induction l as [|e l IH]; intros Hl; [split; [intros _ e ?%elem_of_nil; done|done]|].
  cbn [add_share_scan]. fold (compat e) (compat shr). rewrite Hc, (Hl e) by (by left).
  rewrite !andb_false_r, !andb_false_l. fold (clash shr e).
  destruct (same_owner e shr && (access e =? access shr) && (deny e =? deny shr)) eqn:Es.
  - split; [done|]. intros H. destruct (H e) as [_ Hn]; [by left|]. destruct Hn.
    apply andb_prop in Es as [[Ho Ha]%andb_prop Hd]. apply same_owner_who in Ho. zb. done.
  - destruct (clash shr e) eqn:Ecl.
    + split; [done|]. intros H. destruct (H e) as [Hn _]; [by left|]. congruence.
    + rewrite IH by (intros x Hx; apply Hl; by right). split.
      * intros H x [->|Hx]%elem_of_cons; [|by apply H]. split; [done|].
        intros (Ho & Ha & Hd). apply same_owner_who in Ho.
        by rewrite Ho, Ha, Hd, !Z.eqb_refl in Es.
      * intros H x Hx. apply H. by right.
Qed.

Definition valid_request (shr : shrlock) : Prop :=
  1 ≤ access shr ≤ 3 ∧ 0 ≤ deny shr ≤ 3.

(** The errors a request can be refused with before the walk. *)
Lemma valid_masks shr : valid_request shr →
  ((access shr =? 0) ||
   truthy (Z.land (access shr) (Z.lnot (Z.lor F_RDACC (Z.lor F_WRACC F_RWACC))))) = false ∧
  truthy (Z.land (deny shr) (Z.lnot
    (Z.lor F_NODNY (Z.lor F_RDDNY (Z.lor F_WRDNY (Z.lor F_RWDNY F_COMPAT)))))) = false ∧
  compat shr = false.
Proof.
  intros [Ha Hd]. unfold compat.
  assert (access shr = 1 ∨ access shr = 2 ∨ access shr = 3) as Hac by lia.
  assert (deny shr = 0 ∨ deny shr = 1 ∨ deny shr = 2 ∨ deny shr = 3) as Hde by lia.
  split; [destruct Hac as [-> | [-> | ->]]; reflexivity|].
  destruct Hde as [-> | [-> | [-> | ->]]]; split; reflexivity.
Qed.

(** C18: [add_share] keeps the reservations of a vnode consistent: outside
    compatibility mode no two of them exclude each other, on a file that can be
    written the two modes do not mix, and write access in compatibility mode
    belongs to the owner of the first reservation.  It either adds the request at
    the head of the list or refuses it and changes nothing; and on a file without
    compatibility-mode reservations an ordinary request is granted exactly when it
    clashes with none and repeats none. *)
Theorem add_share_correct vp shr :
  share_inv vp →
  ∃ r vp', add_share vp shr = (r, vp') ∧ share_inv vp' ∧
    (r = 0 ∧ v_shrlocks vp' = stored shr :: v_shrlocks vp ∨
     (r = EINVAL ∨ r = EAGAIN ∨ r = EEXIST) ∧ vp' = vp) ∧
    (valid_request shr → (∀ e, e ∈ v_shrlocks vp → compat e = false) →
     r = 0 ↔ ∀ e, e ∈ v_shrlocks vp → clash shr e = false ∧
       ¬ (who e = who shr ∧ access e = access shr ∧ deny e = deny shr)).
Proof.
  intros Hinv. destruct (add_share vp shr) as [r vp'] eqn:He. exists r, vp'. split; [done|].
  assert (∀ ro s l e, add_share_scan ro s l = Some e → e = EAGAIN ∨ e = EEXIST) as Hcodes.
  { intros ro s l. induction l as [|x l IH]; intros e; [done|]. cbn [add_share_scan].
    repeat (case_if; try (by intros [= <-]; auto); try done; try apply IH). }
  assert (∀ vl, valid_request shr → vl = add_share_scan (isreadonly vp) shr (v_shrlocks vp) →
    r = (match vl with Some e => e | None => 0 end)) as Hr.
  { intros vl Hv ->. destruct (valid_masks shr Hv) as (Hm1 & Hm2 & _).
    unfold add_share in He. rewrite Hm1, Hm2 in He.
    destruct (add_share_scan _ _ _); by injection He. }
  split; [|split].
  - unfold add_share in He.
    destruct ((access shr =? 0) || _); [by injection He as <- <-|].
    destruct (truthy _); [by injection He as <- <-|].
    destruct (add_share_scan (isreadonly vp) shr (v_shrlocks vp)) eqn:Es; injection He as <- <-; [done|].
    by apply add_granted_inv.
  - unfold add_share in He.
    destruct ((access shr =? 0) || _); [injection He as <- <-; right; auto|].
    destruct (truthy _); [injection He as <- <-; right; auto|].
    destruct (add_share_scan (isreadonly vp) shr (v_shrlocks vp)) as [e|] eqn:Es;
      injection He as <- <-; [|by left]. right. split; [|done]. apply Hcodes in Es. tauto.
  - intros Hv Hnc. destruct (valid_masks shr Hv) as (_ & _ & Hc).
    rewrite (Hr _ Hv eq_refl), <-(scan_plain_iff (isreadonly vp) shr (v_shrlocks vp) Hc Hnc).
    destruct (add_share_scan (isreadonly vp) shr (v_shrlocks vp)) eqn:Es; [|done].
    apply Hcodes in Es. split; [|done]. intros ->. destruct Es; discriminate.
Qed.

(** [del_share] removes exactly the reservations its test selects, keeps
    the others in order and the list consistent, and reports [EINVAL] exactly when
    it removed none.  The test looks at the owner alone where the owners agree: a
    reservation with the owner of the request goes whatever its system. *)
Theorem del_share_correct vp shr :
  share_inv vp → zlen (v_shrlocks vp) < 2 ^ 31 →
  ∃ r vp', del_share vp shr = (r, vp') ∧ share_inv vp' ∧
    v_shrlocks vp' = filter (λ e, del_match shr e = false) (v_shrlocks vp) ∧
    (r = 0 ∨ r = EINVAL) ∧ (r = 0 ↔ ∃ e, e ∈ v_shrlocks vp ∧ del_match shr e = true) ∧
    (∀ e, e ∈ v_shrlocks vp → owner e = owner shr → e ∉ v_shrlocks vp').
Proof.
  intros Hinv Hlen. unfold del_share.
  pose proof (del_scan_spec shr (v_shrlocks vp) 0) as H1.
  pose proof (del_scan_found shr (v_shrlocks vp) 0 ltac:(lia) ltac:(lia)) as H2.
  destruct (del_scan shr (v_shrlocks vp) 0) as [l found]. simpl in H1, H2. subst l found.
  do 2 eexists. split; [done|]. split; [by apply del_inv|]. split; [done|].
  set (m := filter (λ e, del_match shr e = true) (v_shrlocks vp)).
  assert (truthy (zlen m) = true ↔ ∃ e, e ∈ v_shrlocks vp ∧ del_match shr e = true) as Hm.
  { rewrite truthy_true. split.
    - intros Hne. destruct m as [|e m'] eqn:Em; [done|].
      assert (e ∈ m) as He by (rewrite Em; by left).
      apply list_elem_of_filter in He as [? ?]. by exists e.
    - intros (e & He & Hd). assert (e ∈ m) as Hin by (by apply list_elem_of_filter).
      destruct m; [by apply elem_of_nil in Hin|]. simpl. lia. }
  change (0 + zlen m) with (zlen m). split; [|split].
  - destruct (truthy (zlen m)); auto.
  - rewrite <-Hm. by destruct (truthy (zlen m)).
  - intros e He Ho [Hd _]%list_elem_of_filter. unfold del_match, own_len, bcmp_eq in Hd.
    rewrite Ho, Z.eqb_refl, bool_decide_true in Hd by done. done.
Qed.

(** [shr_has_remote_shares] answers whether the given remote system (any
    remote system, for 0) holds a reservation. *)
Theorem shr_has_remote_shares_correct vp s :
  (shr_has_remote_shares vp s = 0 ∨ shr_has_remote_shares vp s = 1) ∧
  (shr_has_remote_shares vp s = 1 ↔
   ∃ e, e ∈ v_shrlocks vp ∧ (s = 0 ∧ sysid e ≠ 0 ∨ s ≠ 0 ∧ sysid e = s)).
Proof.
  unfold shr_has_remote_shares. induction (v_shrlocks vp) as [|e l [IH1 IH2]]; cbn [remote_scan].
  - split; [by left|]. split; [done|]. intros (e & He & _). by apply elem_of_nil in He.
  - destruct (negb (s =? 0) && (sysid e =? s) || (s =? 0) && negb (sysid e =? 0)) eqn:E.
    + split; [by right|]. split; [intros _|done]. exists e. split; [by left|].
      destruct (Z.eqb_spec s 0); simpl in E; rewrite ?orb_false_r in E; zb; auto.
    + split; [done|]. rewrite IH2. split; intros (x & Hx & Hs).
      * exists x. split; [by right|done].
      * apply elem_of_cons in Hx as [->|Hx]; [|by exists x]. exfalso.
        destruct (Z.eqb_spec s 0); simpl in E; rewrite ?orb_false_r in E; zb; tauto.
Qed.

(** ** Examples *)

Definition demo_shr (p a d : Z) : shrlock := Shrlock a d 0 p [p; 7].

Definition demo_vp : vnode := Vnode [demo_shr 11 1 2; demo_shr 10 1 0] false false.

Lemma demo_inv : share_inv demo_vp.
Proof.
  split.
  - intros [|[|i]] [|[|j]] a b; simpl; intros Ha Hb Hij _ _; try done;
      injection Ha as <-; injection Hb as <-; reflexivity.
  - intros _. right. intros e He. simpl in He.
    apply elem_of_cons in He as [->|[->|He%elem_of_nil]%elem_of_cons]; [reflexivity..|done].
  - intros e f He _ Hc. exfalso. revert Hc. simpl in He.
    apply elem_of_cons in He as [->|[->|He%elem_of_nil]%elem_of_cons]; [discriminate..|done].
Qed.

Lemma add_share_correct_witness :
  ∃ r vp', add_share demo_vp (demo_shr 12 2 0) = (r, vp') ∧ r = EAGAIN ∧ share_inv vp'.
Proof.
  destruct (add_share_correct demo_vp (demo_shr 12 2 0) demo_inv) as (r & vp' & H1 & H2 & _).
  exists r, vp'. split; [exact H1|]. split; [|exact H2].
  vm_compute in H1. injection H1 as <- _. reflexivity.
Defined.

(** Two systems with the same owner bytes: the request of system 5 deletes the
    reservation of system 6 as well. *)
Lemma del_share_correct_witness :
  ∃ r vp', del_share (Vnode [Shrlock 1 0 6 0 [1; 2]] false false) (Shrlock 0 0 5 0 [1; 2]) = (r, vp') ∧
    v_shrlocks vp' = [] ∧ r = 0.
Proof.
  destruct (del_share_correct (Vnode [Shrlock 1 0 6 0 [1; 2]] false false) (Shrlock 0 0 5 0 [1; 2]))
    as (r & vp' & H1 & _ & H2 & _).
  - split.
    + intros [|i] [|j] a b; simpl; done.
    + intros _. right. intros e He. simpl in He.
      apply elem_of_cons in He as [->|He%elem_of_nil]; [reflexivity|done].
    + intros e f He _ Hc. exfalso. revert Hc. simpl in He.
      apply elem_of_cons in He as [->|He%elem_of_nil]; [discriminate|done].
  - simpl. lia.
  - exists r, vp'. split; [exact H1|]. split; [exact H2|].
    vm_compute in H1. injection H1 as <- _. reflexivity.
Defined.
