(* ===== verification/Callout.v ===== *)
(** * The callout table ([uts/common/os/callout.c], [sys/callo.h])

    Callouts hang off 256 buckets by the low bits of their run time.  A bucket is
    a circular list through its head in the code and the list of its callouts
    here, in [c_next] order.  Identifiers are kept as their bits (an unsigned word);
    times are 32-bit signed and compared by their wrapped difference, as the code
    does.  [lbolt] is an argument of the routines that read it, and what happens
    while [callout_execute] has dropped the lock is a parameter. *)

From S2P Require Import Prelude.

(** ** Data *)

Record callout := Callout {
  c_addr : Z;                (* which structure it is *)
  c_xid : Z;
  c_runtime : Z;
  c_func : Z;
  c_arg : Z;
  c_executor : option Z      (* the thread executing it *)
}.

#[global] Instance callout_eq_dec : EqDecision callout.
Proof. solve_decision. Defined.

Record callout_bucket := Bucket {
  b_first : list callout;
  b_short_id : Z;
  b_long_id : Z
}.

Record callout_state := Cs {
  cs_freelist : list callout;
  cs_curtime : Z;
  cs_runtime : Z;
  cs_ncallout : Z;
  cs_busyticks : Z;
  cs_bucket : list callout_bucket
}.

Definition CALLOUT_EXECUTING : Z := 0x80000000.
Definition CALLOUT_UNSAFE_DRIVER : Z := 0x40000000.
Definition CALLOUT_REALTIME : Z := 0x20000000.
Definition CALLOUT_NORMAL : Z := 0x10000000.
Definition CALLOUT_LONGTERM : Z := 0x08000000.
Definition CALLOUT_TABLE_ID_MASK : Z := Z.lor CALLOUT_REALTIME CALLOUT_NORMAL.
Definition CALLOUT_AUX_ID_MASK : Z := Z.lor CALLOUT_TABLE_ID_MASK CALLOUT_LONGTERM.
Definition CALLOUT_BUCKET_ID_MASK : Z := CALLOUT_LONGTERM - 1.
Definition CALLOUT_ID_MASK : Z := Z.lor CALLOUT_AUX_ID_MASK CALLOUT_BUCKET_ID_MASK.
Definition CALLOUT_LONGTERM_TICKS : Z := 0x4000.
Definition CALLOUT_BUCKETS : Z := 256.
Definition CALLOUT_BUCKET_MASK : Z := CALLOUT_BUCKETS - 1.

Definition set_freelist l cs :=
  Cs l (cs_curtime cs) (cs_runtime cs) (cs_ncallout cs) (cs_busyticks cs) (cs_bucket cs).
Definition set_curtime t cs :=
  Cs (cs_freelist cs) t (cs_runtime cs) (cs_ncallout cs) (cs_busyticks cs) (cs_bucket cs).
Definition set_runtime t cs :=
  Cs (cs_freelist cs) (cs_curtime cs) t (cs_ncallout cs) (cs_busyticks cs) (cs_bucket cs).
Definition set_ncallout n cs :=
  Cs (cs_freelist cs) (cs_curtime cs) (cs_runtime cs) n (cs_busyticks cs) (cs_bucket cs).
Definition set_busyticks n cs :=
  Cs (cs_freelist cs) (cs_curtime cs) (cs_runtime cs) (cs_ncallout cs) n (cs_bucket cs).
Definition set_bucket l cs :=
  Cs (cs_freelist cs) (cs_curtime cs) (cs_runtime cs) (cs_ncallout cs) (cs_busyticks cs) l.

Definition set_b_first l b := Bucket l (b_short_id b) (b_long_id b).
Definition set_b_short_id i b := Bucket (b_first b) i (b_long_id b).
Definition set_b_long_id i b := Bucket (b_first b) (b_short_id b) i.

Definition set_c_xid x c := Callout (c_addr c) x (c_runtime c) (c_func c) (c_arg c) (c_executor c).
Definition set_c_executor t c := Callout (c_addr c) (c_xid c) (c_runtime c) (c_func c) (c_arg c) t.

(** [&cs->cs_bucket[t & CALLOUT_BUCKET_MASK]] *)
Definition bucket_of (t : Z) : Z := Z.land t CALLOUT_BUCKET_MASK.
Definition upd_bucket (i : Z) (f : callout_bucket → callout_bucket) (cs : callout_state) : callout_state :=
  set_bucket (alter f (Z.to_nat i) (cs_bucket cs)) cs.

(** ** Operations *)

Definition callout_setup (lbolt table_id : Z) : callout_state :=
  Cs [] lbolt lbolt 0 0
    ((λ i, let i := Z.of_nat i in
       Bucket [] (Z.lor i table_id) (Z.lor (Z.lor i table_id) CALLOUT_LONGTERM)) <$> seq 0 256).

(** [callout_alloc]; [mem] is the structure the allocator finds, if any. *)
Definition callout_alloc (mem : option Z) (cs : callout_state) : run (callout * callout_state) :=
  match mem with
  | None => Panic
  | Some addr => Ret (Callout addr 0 0 0 0 None, set_ncallout (s32 (cs_ncallout cs + 1)) cs)
  end.

(** [unsafe] is [UNSAFE_DRIVER_LOCK_HELD()]. *)
Definition callout_insert (lbolt : Z) (unsafe : bool) (mem : option Z) (cs : callout_state)
    (func arg delta : Z) : run (Z * callout_state) :=
  let* (cp, cs) :=
    match cs_freelist cs with
    | cp :: next => Ret (cp, set_freelist next cs)
    | [] => callout_alloc mem cs
    end in
  let curtime := cs_curtime cs in
  let runtime := s32 (lbolt + delta) in
  let runtime := if s32 (runtime - curtime) <=? 0 then s32 (curtime + 1) else runtime in
  let* bucket := zget (cs_bucket cs) (bucket_of runtime) in
  let '(id, bucket) :=
    if CALLOUT_LONGTERM_TICKS <? s32 (runtime - curtime) then
      let id := Z.lor (w32 (b_long_id bucket - CALLOUT_LONGTERM + CALLOUT_BUCKETS)) CALLOUT_LONGTERM in
      (id, set_b_long_id id bucket)
    else
      let id := Z.ldiff (w32 (b_short_id bucket + CALLOUT_BUCKETS)) CALLOUT_LONGTERM in
      (id, set_b_short_id id bucket) in
  let cp := Callout (c_addr cp) (if unsafe then Z.lor id CALLOUT_UNSAFE_DRIVER else id)
              runtime func arg (c_executor cp) in
  Ret (id, upd_bucket (bucket_of runtime) (λ _, set_b_first (cp :: b_first bucket) bucket) cs).

(** The search of [callout_delete]: the callouts before the one found (nearest
    first), the one found, and those after it. *)
Fixpoint find_id (id : Z) (prev l : list callout) : option (list callout * callout * list callout) :=
  match l with
  | [] => None
  | cp :: next =>
      if Z.land (c_xid cp) CALLOUT_ID_MASK =? id then Some (prev, cp, next)
      else find_id id (cp :: prev) next
  end.

(** What [callout_delete] does: it returns, or it waits until the callout that
    another thread executes has another identifier and then returns -1. *)
Inductive del_result := DelRet (time_left : Z) | DelWait (cp : callout).

Definition callout_delete (curthread : Z) (cs : callout_state) (id : Z)
    : run (del_result * callout_state) :=
  let* bucket := zget (cs_bucket cs) (bucket_of id) in
  match find_id id [] (b_first bucket) with
  | None => Ret (DelRet (-1), cs)
  | Some (prev, cp, next) =>
      if has (c_xid cp) CALLOUT_EXECUTING then
        if decide (c_executor cp = Some curthread) then Ret (DelRet (-1), cs)
        else Ret (DelWait cp, cs)
      else
        let time_left := s32 (c_runtime cp - cs_curtime cs) in
        let time_left := if time_left <? 0 then 0 else time_left in
        let cs := upd_bucket (bucket_of id) (set_b_first (rev prev ++ next)) cs in
        Ret (DelRet time_left, set_freelist (cp :: cs_freelist cs) cs)
  end.

(** The two tables behind [timeout], [realtime_timeout] and [untimeout]. *)
Record callout_tables := Tables { callout_normal : callout_state; rt_callout : callout_state }.

Definition timeout (lbolt : Z) (unsafe : bool) (mem : option Z) (ts : callout_tables)
    (func arg delta : Z) : run (Z * callout_tables) :=
  let* (id, cs) := callout_insert lbolt unsafe mem (callout_normal ts) func arg delta in
  Ret (id, Tables cs (rt_callout ts)).

Definition realtime_timeout (lbolt : Z) (unsafe : bool) (mem : option Z) (ts : callout_tables)
    (func arg delta : Z) : run (Z * callout_tables) :=
  let* (id, cs) := callout_insert lbolt unsafe mem (rt_callout ts) func arg delta in
  Ret (id, Tables (callout_normal ts) cs).

Definition untimeout (curthread : Z) (ts : callout_tables) (id : Z) : run (del_result * callout_tables) :=
  if has id CALLOUT_REALTIME then
    let* (r, cs) := callout_delete curthread (rt_callout ts) id in
    Ret (r, Tables (callout_normal ts) cs)
  else
    let* (r, cs) := callout_delete curthread (callout_normal ts) id in
    Ret (r, Tables cs (rt_callout ts)).

(** A callout [callout_schedule] or [callout_execute] has work to do for. *)
Definition is_due (runtime : Z) (cp : callout) : bool :=
  (c_runtime cp =? runtime) && negb (has (c_xid cp) CALLOUT_EXECUTING).

(** The loop of [callout_schedule]: whether it found work, and the table.  [fuel]
    bounds the ticks it can advance over; [None] is running out of it. *)
Fixpoint schedule_loop (fuel : nat) (cs : callout_state) : option (run (option callout * callout_state)) :=
  match fuel with
  | O => None
  | S fuel' =>
      if s32 (cs_runtime cs - cs_curtime cs) <=? 0 then
        match zget (cs_bucket cs) (bucket_of (cs_runtime cs)) with
        | Ret bucket =>
            match List.find (is_due (cs_runtime cs)) (b_first bucket) with
            | Some cp => Some (Ret (Some cp, set_busyticks (s32 (cs_busyticks cs + 1)) cs))
            | None => schedule_loop fuel' (set_runtime (s32 (cs_runtime cs + 1)) cs)
            end
        | Panic => Some Panic
        | Fault => Some Fault
        end
      else Some (Ret (None, cs))
  end.

Definition callout_schedule (fuel : nat) (lbolt : Z) (cs : callout_state) :=
  schedule_loop fuel (set_curtime lbolt cs).

(** Search of a bucket for a structure. *)
Fixpoint find_addr (a : Z) (prev l : list callout) : option (list callout * callout * list callout) :=
  match l with
  | [] => None
  | cp :: next => if c_addr cp =? a then Some (prev, cp, next) else find_addr a (cp :: prev) next
  end.

Section Execute.
(** The executing thread, and what the function of a callout and everybody else do
    to the table while the lock is dropped. *)
Context (curthread : Z) (body : callout → callout_state → callout_state).

(** The inner loop of [callout_execute] from the callout [cp] of the bucket on;
    the callouts it executes, in order. *)
Fixpoint execute_bucket (fuel : nat) (runtime : Z) (cp : option Z) (cs : callout_state)
    : option (run (list callout * callout_state)) :=
  match cp with
  | None => Some (Ret ([], cs))
  | Some a =>
      match fuel with
      | O => None
      | S fuel' =>
          match zget (cs_bucket cs) (bucket_of runtime) with
          | Ret bucket =>
              match find_addr a [] (b_first bucket) with
              | None => Some Fault
              | Some (prev, c, next) =>
                  if negb (is_due runtime c) then
                    execute_bucket fuel' runtime (c_addr <$> head next) cs
                  else
                    let c := set_c_executor (Some curthread) c in
                    let c := set_c_xid (Z.lor (c_xid c) CALLOUT_EXECUTING) c in
                    let cs := upd_bucket (bucket_of runtime) (set_b_first (rev prev ++ c :: next)) cs in
                    let cs := body c cs in
                    match zget (cs_bucket cs) (bucket_of runtime) with
                    | Ret bucket =>
                        match find_addr a [] (b_first bucket) with
                        | None => Some Fault
                        | Some (prev, c', next) =>
                            let cs := upd_bucket (bucket_of runtime) (set_b_first (rev prev ++ next)) cs in
                            let cs := set_freelist (set_c_xid 0 c' :: cs_freelist cs) cs in
                            match execute_bucket fuel' runtime (c_addr <$> head next) cs with
                            | Some (Ret (log, cs)) => Some (Ret (c :: log, cs))
                            | r => r
                            end
                        end
                    | _ => Some Fault
                    end
              end
          | _ => Some Fault
          end
      end
  end.

(** [callout_execute]: the outer loop over the ticks from [cs_runtime] to
    [cs_curtime]. *)
Fixpoint callout_execute (fuel : nat) (cs : callout_state)
    : option (run (list callout * callout_state)) :=
  match fuel with
  | O => None
  | S fuel' =>
      if s32 (cs_runtime cs - cs_curtime cs) <=? 0 then
        let runtime := cs_runtime cs in
        match zget (cs_bucket cs) (bucket_of runtime) with
        | Ret bucket =>
            match execute_bucket (length (b_first bucket)) runtime (c_addr <$> head (b_first bucket)) cs with
            | Some (Ret (log, cs)) =>
                let cs := if cs_runtime cs =? runtime then set_runtime (s32 (runtime + 1)) cs else cs in
                match callout_execute fuel' cs with
                | Some (Ret (log', cs)) => Some (Ret (log ++ log', cs))
                | r => r
                end
            | r => r
            end
        | _ => Some Fault
        end
      else Some (Ret ([], cs))
  end.
End Execute.

(** *** Checkpoint and resume *)

(** The inner loop of [callout_save]: the callouts left in the bucket and those
    moved to the saved table. *)
Fixpoint save_scan (cp obucket : list callout) : list callout * list callout :=
  match cp with
  | [] => ([], obucket)
  | c :: next =>
      if truthy (Z.lor (c_xid c) CALLOUT_EXECUTING) then
        let (keep, o) := save_scan next obucket in (c :: keep, o)
      else save_scan next (c :: obucket)
  end.

Definition callout_save (cs : callout_state) : callout_state * callout_state :=
  let ocs := set_bucket ((λ b, set_b_first (save_scan (b_first b) []).2 b) <$> cs_bucket cs) cs in
  let cs := set_busyticks 0 cs in
  (set_bucket ((λ b, set_b_first (save_scan (b_first b) []).1 b) <$> cs_bucket cs) cs, ocs).

(** The inner loop of [callout_restore]. *)
Fixpoint restore_scan (cp bucket : list callout) : list callout :=
  match cp with
  | [] => bucket
  | c :: next => restore_scan next (c :: bucket)
  end.

Definition callout_restore (cs ocs : callout_state) : callout_state :=
  let cs := set_bucket (zip_with (λ b o, set_b_first (restore_scan (b_first o) (b_first b)) b)
                          (cs_bucket cs) (cs_bucket ocs)) cs in
  set_runtime (cs_runtime ocs) (set_busyticks (s32 (cs_busyticks cs + cs_busyticks ocs)) cs).

(** ** Identifiers *)

(** The identifiers of a bucket: table bit, long-term bit, a 19-bit counter and
    the bucket number. *)
Record bucket_ids (tbl : Z) (i : Z) (b : callout_bucket) : Prop := {
  ids_short : ∃ c, 0 ≤ c < 2 ^ 19 ∧ b_short_id b = tbl + 256 * c + i;
  ids_long : ∃ c, 0 ≤ c < 2 ^ 19 ∧ b_long_id b = tbl + 2 ^ 27 + 256 * c + i
}.

Definition is_table (tbl : Z) : Prop := tbl = CALLOUT_NORMAL ∨ tbl = CALLOUT_REALTIME.

Record table_ok (tbl : Z) (cs : callout_state) : Prop := {
  tok_len : length (cs_bucket cs) = 256%nat;
  tok_ids : ∀ i b, cs_bucket cs !! i = Some b → bucket_ids tbl (Z.of_nat i) b
}.

Lemma bucket_of_range t : 0 ≤ bucket_of t < 256.
Proof.
  unfold bucket_of. change CALLOUT_BUCKET_MASK with (Z.ones 8).
  rewrite Z.land_ones by lia. by apply Z.mod_pos_bound.
Qed.

Lemma bucket_of_mod t : bucket_of t = t `mod` 256.
Proof.
  unfold bucket_of. change CALLOUT_BUCKET_MASK with (Z.ones 8). by rewrite Z.land_ones by lia.
Qed.

Lemma bucket_at cs t : length (cs_bucket cs) = 256%nat →
  ∃ b, zget (cs_bucket cs) (bucket_of t) = Ret b ∧ cs_bucket cs !! Z.to_nat (bucket_of t) = Some b.
Proof.
  intros Hl. pose proof (bucket_of_range t).
  destruct (zget_in (cs_bucket cs) (bucket_of t)) as (b & ? & ?); [lia|]. by exists b.
Qed.

Lemma clear_bit x n : 0 ≤ n → Z.ldiff x (2 ^ n) = if Z.testbit x n then x - 2 ^ n else x.
Proof.
  intros Hn. destruct (Z.testbit x n) eqn:E.
  - symmetry. apply Z.sub_nocarry_ldiff. apply Z.bits_inj'. intros m Hm.
    rewrite Z.ldiff_spec, Z.pow2_bits_eqb, Z.bits_0 by done.
    destruct (Z.eqb_spec n m) as [<-|]; [by rewrite E|done].
  - apply Z.bits_inj'. intros m Hm. rewrite Z.ldiff_spec, Z.pow2_bits_eqb by done.
    destruct (Z.eqb_spec n m) as [<-|]; [by rewrite E|by rewrite andb_true_r].
Qed.

Lemma set_bit x n : 0 ≤ n → Z.lor x (2 ^ n) = if Z.testbit x n then x else x + 2 ^ n.
Proof.
  intros Hn. destruct (Z.testbit x n) eqn:E.
  - apply Z.bits_inj'. intros m Hm. rewrite Z.lor_spec, Z.pow2_bits_eqb by done.
    destruct (Z.eqb_spec n m) as [<-|]; [by rewrite E|by rewrite orb_false_r].
  - symmetry. rewrite Z.add_nocarry_lxor; [apply Z.lxor_lor|]; apply Z.bits_inj'; intros m Hm;
      rewrite Z.land_spec, Z.pow2_bits_eqb, Z.bits_0 by done;
      destruct (Z.eqb_spec n m) as [<-|]; by rewrite ?E, ?andb_false_r.
Qed.

(** Compute the quotients of constants. *)
Ltac const_div :=
  try change (0x10000000 / 2 ^ 27) with 2; try change (0x20000000 / 2 ^ 27) with 4;
  try change (0x10000000 / 2 ^ 28) with 1; try change (0x20000000 / 2 ^ 28) with 2;
  try change (0 / 2 ^ 27) with 0; try change (2 ^ 27 / 2 ^ 27) with 1.

(** Bit 27 of the incremented counter. *)
Lemma next_counter tbl c i : is_table tbl → 0 ≤ c < 2 ^ 19 → 0 ≤ i < 256 →
  let x := tbl + 256 * (c + 1) + i in
  Z.ldiff x CALLOUT_LONGTERM = tbl + 256 * ((c + 1) `mod` 2 ^ 19) + i ∧
  Z.lor x CALLOUT_LONGTERM = tbl + 2 ^ 27 + 256 * ((c + 1) `mod` 2 ^ 19) + i.
Proof.
  intros Ht Hc Hi x. change CALLOUT_LONGTERM with (2 ^ 27). rewrite clear_bit, set_bit by lia.
  assert (x / 2 ^ 27 = (tbl / 2 ^ 27) + (if c + 1 =? 2 ^ 19 then 1 else 0)) as Hd.
  { destruct (Z.eqb_spec (c + 1) (2 ^ 19)); destruct Ht as [-> | ->];
      unfold x, CALLOUT_NORMAL, CALLOUT_REALTIME;
      const_div; symmetry;
      [apply (Z.div_unique_pos _ _ _ (256 * (c + 1) + i - 2 ^ 27))
      |apply (Z.div_unique_pos _ _ _ (256 * (c + 1) + i - 2 ^ 27))
      |apply (Z.div_unique_pos _ _ _ (256 * (c + 1) + i))
      |apply (Z.div_unique_pos _ _ _ (256 * (c + 1) + i))]; lia. }
  rewrite Z.testbit_odd, shiftr_div, Hd by lia.
  destruct (Z.eqb_spec (c + 1) (2 ^ 19)) as [E|E].
  - rewrite E, Z_mod_same_full. destruct Ht as [-> | ->]; simpl Z.odd; unfold x; lia.
  - rewrite (Z.mod_small (c + 1)) by lia. destruct Ht as [-> | ->]; simpl Z.odd; unfold x; lia.
Qed.

(** What an identifier says. *)
Lemma id_fields tbl lt c i : is_table tbl → 0 ≤ c < 2 ^ 19 → 0 ≤ i < 256 → (lt = 0 ∨ lt = 2 ^ 27) →
  let id := tbl + lt + 256 * c + i in
  id ≠ 0 ∧ Z.land id CALLOUT_TABLE_ID_MASK = tbl ∧ has id CALLOUT_LONGTERM = (lt =? 2 ^ 27) ∧
  bucket_of id = i ∧ Z.land id CALLOUT_ID_MASK = id ∧ 0 < id < 2 ^ 30.
Proof.
  intros Ht Hc Hi Hlt id.
  assert (0 < id < 2 ^ 30) as Hr.
  { unfold id. destruct Ht as [-> | ->], Hlt as [-> | ->]; unfold CALLOUT_NORMAL, CALLOUT_REALTIME; lia. }
  split_and!; try lia.
  - apply Z.bits_inj'. intros m Hm. rewrite Z.land_spec.
    change CALLOUT_TABLE_ID_MASK with (Z.shiftl (Z.ones 2) 28).
    assert (Z.shiftr id 28 = tbl / 2 ^ 28) as Hs.
    { rewrite shiftr_div by lia. unfold id.
      destruct Ht as [-> | ->], Hlt as [-> | ->]; unfold CALLOUT_NORMAL, CALLOUT_REALTIME;
        const_div; symmetry; first [apply (Z.div_unique_pos _ _ _ (256 * c + i)); lia
                        |apply (Z.div_unique_pos _ _ _ (2 ^ 27 + 256 * c + i)); lia]. }
    destruct (decide (m < 28)).
    + rewrite Z.shiftl_spec_low by done. rewrite andb_false_r. symmetry.
      destruct Ht as [-> | ->]; [apply (Z.pow2_bits_false 28)|apply (Z.pow2_bits_false 29)]; lia.
    + rewrite Z.shiftl_spec by done. replace m with ((m - 28) + 28) at 1 by lia.
      rewrite <-Z.shiftr_spec by lia. rewrite Hs.
      destruct (decide (m - 28 < 2)).
      * rewrite Z.ones_spec_low, andb_true_r by lia.
        replace m with ((m - 28) + 28) at 2 by lia. rewrite <-Z.shiftr_spec by lia.
        by rewrite shiftr_div by lia.
      * rewrite Z.ones_spec_high, andb_false_r by lia. symmetry.
        destruct Ht as [-> | ->]; [apply (Z.pow2_bits_false 28)|apply (Z.pow2_bits_false 29)]; lia.
  - change CALLOUT_LONGTERM with (2 ^ 27). rewrite has_testbit, Z.testbit_odd, shiftr_div by lia.
    assert (id / 2 ^ 27 = tbl / 2 ^ 27 + lt / 2 ^ 27) as ->.
    { unfold id. destruct Ht as [-> | ->], Hlt as [-> | ->]; unfold CALLOUT_NORMAL, CALLOUT_REALTIME;
        const_div; symmetry; apply (Z.div_unique_pos _ _ _ (256 * c + i)); lia. }
    by destruct Ht as [-> | ->], Hlt as [-> | ->].
  - rewrite bucket_of_mod. unfold id.
    destruct Ht as [-> | ->], Hlt as [-> | ->]; unfold CALLOUT_NORMAL, CALLOUT_REALTIME;
      Z.to_euclidean_division_equations; lia.
  - change CALLOUT_ID_MASK with (Z.ones 30). rewrite Z.land_ones by lia. by apply Z.mod_small; lia.
Qed.

(** ** Insertion and deletion *)

(** A structure is to be had for a new callout. *)
Definition has_mem (mem : option Z) (cs : callout_state) : Prop :=
  cs_freelist cs ≠ [] ∨ is_Some mem.

Lemma take_struct mem cs : has_mem mem cs →
  ∃ cp cs1, (match cs_freelist cs with
             | cp :: next => Ret (cp, set_freelist next cs)
             | [] => callout_alloc mem cs
             end) = Ret (cp, cs1) ∧
    cs_bucket cs1 = cs_bucket cs ∧ cs_curtime cs1 = cs_curtime cs ∧ cs_runtime cs1 = cs_runtime cs.
Proof.
  intros Hm. destruct (cs_freelist cs) as [|cp l] eqn:E.
  - destruct Hm as [?|[a ->]]; [done|]. do 2 eexists. by split.
  - do 2 eexists. by split.
Qed.

(** What [callout_insert] does to a sound table. *)
Lemma callout_insert_spec tbl lbolt unsafe mem cs func arg delta :
  is_table tbl → table_ok tbl cs → has_mem mem cs →
  ∃ id cs' cp, callout_insert lbolt unsafe mem cs func arg delta = Ret (id, cs') ∧
    table_ok tbl cs' ∧
    (id ≠ 0 ∧ Z.land id CALLOUT_TABLE_ID_MASK = tbl ∧
     has id CALLOUT_LONGTERM = (CALLOUT_LONGTERM_TICKS <? s32 (c_runtime cp - cs_curtime cs)) ∧
     bucket_of id = bucket_of (c_runtime cp) ∧ Z.land id CALLOUT_ID_MASK = id ∧ 0 < id < 2 ^ 30) ∧
    (c_xid cp = (if unsafe then Z.lor id CALLOUT_UNSAFE_DRIVER else id) ∧
     c_func cp = func ∧ c_arg cp = arg) ∧
    0 < s32 (c_runtime cp - cs_curtime cs) ∧
    (0 < s32 (lbolt + delta - cs_curtime cs) → c_runtime cp = s32 (lbolt + delta)) ∧
    (cs_curtime cs' = cs_curtime cs ∧ cs_runtime cs' = cs_runtime cs) ∧
    (∀ i, b_first <$> cs_bucket cs' !! i =
      (if decide (Z.of_nat i = bucket_of (c_runtime cp)) then cons cp else λ l, l) <$>
        (b_first <$> cs_bucket cs !! i)).
Proof.
  intros Ht [Hlen Hids] Hm. unfold callout_insert.
  destruct (take_struct mem cs Hm) as (cp0 & cs1 & -> & Hb1 & Hc1 & Hr1). cbn [rbind].
  rewrite Hc1. set (rt := if s32 (s32 (lbolt + delta) - cs_curtime cs) <=? 0 then _ else _).
  assert (0 < s32 (rt - cs_curtime cs)) as Hpos.
  { unfold rt. destruct (Z.leb_spec (s32 (s32 (lbolt + delta) - cs_curtime cs)) 0); [|done].
    replace (s32 (s32 (cs_curtime cs + 1) - cs_curtime cs)) with 1; [lia|].
    unfold s32. Z.to_euclidean_division_equations. lia. }
  assert (s32 (s32 (lbolt + delta) - cs_curtime cs) = s32 (lbolt + delta - cs_curtime cs)) as Hsub.
  { unfold s32. Z.to_euclidean_division_equations. lia. }
  assert (0 < s32 (lbolt + delta - cs_curtime cs) → rt = s32 (lbolt + delta)) as Hrt.
  { intros H. unfold rt. rewrite Hsub. by rewrite (proj2 (Z.leb_gt _ _) H). }
  clearbody rt.
  rewrite Hb1. destruct (bucket_at cs rt Hlen) as (b & -> & Hb). cbn [rbind].
  pose proof (bucket_of_range rt) as Hbr.
  destruct (Hids _ _ Hb) as [(c & Hc & Hs) (d & Hd & Hl)]. rewrite Z2Nat.id in Hs, Hl by lia.
  assert (is_table tbl → 0 < tbl < 2 ^ 30 - 2 ^ 28) as Htb
    by (intros [-> | ->]; unfold CALLOUT_NORMAL, CALLOUT_REALTIME; lia).
  specialize (Htb Ht).
  destruct (next_counter tbl c (bucket_of rt) Ht Hc Hbr) as [Hns _].
  destruct (next_counter tbl d (bucket_of rt) Ht Hd Hbr) as [_ Hnl].
  assert (w32 (b_short_id b + CALLOUT_BUCKETS) = tbl + 256 * (c + 1) + bucket_of rt) as ->.
  { unfold CALLOUT_BUCKETS. rewrite Hs, w32_id; unfold in_u32; lia. }
  assert (w32 (b_long_id b - CALLOUT_LONGTERM + CALLOUT_BUCKETS) = tbl + 256 * (d + 1) + bucket_of rt) as ->.
  { unfold CALLOUT_BUCKETS. rewrite Hl, w32_id; unfold in_u32, CALLOUT_LONGTERM; lia. }
  rewrite Hns, Hnl.
  set (c' := (c + 1) `mod` 2 ^ 19). set (d' := (d + 1) `mod` 2 ^ 19).
  assert (0 ≤ c' < 2 ^ 19) as Hc' by (by apply Z.mod_pos_bound).
  assert (0 ≤ d' < 2 ^ 19) as Hd' by (by apply Z.mod_pos_bound).
  clearbody c' d'.
  assert (∀ id b', bucket_ids tbl (bucket_of rt) b' →
    let cs' := upd_bucket (bucket_of rt) (λ _, set_b_first (id :: b_first b) b') cs1 in
    table_ok tbl cs' ∧ ∀ i, b_first <$> cs_bucket cs' !! i =
      (if decide (Z.of_nat i = bucket_of rt) then cons id else λ l, l) <$> (b_first <$> cs_bucket cs !! i))
    as Htail.
  { intros x b' Hb' cs'. unfold cs', upd_bucket. split; [split|].
    - simpl. rewrite length_alter, Hb1. done.
    - simpl. rewrite Hb1. intros i y. rewrite list_lookup_alter. case_decide as E.
      + subst i. rewrite Hb. intros [= <-]. rewrite Z2Nat.id by lia. by destruct Hb'.
      + apply Hids.
    - intros i. simpl. rewrite Hb1, list_lookup_alter. case_decide as E.
      + subst i. rewrite Hb, decide_True by lia. done.
      + rewrite decide_False by lia. by destruct (cs_bucket cs !! i). }
  set (cpf := λ id : Z, Callout (c_addr cp0) (if unsafe then Z.lor id CALLOUT_UNSAFE_DRIVER else id)
                          rt func arg (c_executor cp0)).
  destruct (CALLOUT_LONGTERM_TICKS <? s32 (rt - cs_curtime cs)) eqn:Elt.
  - set (id := tbl + _ + _ + _). eexists id, _, (cpf id). split; [reflexivity|].
    destruct (Htail (cpf id) (set_b_long_id id b)) as [Hok Hfst].
    { split; simpl; [by exists c|by exists d']. }
    destruct (id_fields tbl (2 ^ 27) d' (bucket_of rt)) as (?&?&?&?&?&?); [done..|by right|].
    unfold cpf; simpl. rewrite Elt. split_and!; first [done | unfold id; lia].
  - set (id := tbl + _ + _). eexists id, _, (cpf id). split; [reflexivity|].
    destruct (Htail (cpf id) (set_b_short_id id b)) as [Hok Hfst].
    { split; simpl; [by exists c'|by exists d]. }
    destruct (id_fields tbl 0 c' (bucket_of rt)) as (?&?&?&?&?&?); [done..|by left|].
    rewrite Z.add_0_r in *. unfold cpf; simpl. rewrite Elt. split_and!; first [done | unfold id; lia].
Qed.

Lemma callout_setup_ok lbolt tbl : is_table tbl → table_ok tbl (callout_setup lbolt tbl).
Proof.
  intros Ht. unfold callout_setup. split; cbn [cs_bucket]; [by rewrite length_fmap, length_seq|].
  intros i b (j & -> & Hj)%list_lookup_fmap_Some. apply lookup_seq in Hj as [-> Hlt].
  rewrite Nat.add_0_l. assert (0 ≤ Z.of_nat i < 256) as Hi by lia.
  assert (Z.lor (Z.of_nat i) tbl = tbl + 256 * 0 + Z.of_nat i) as Hs.
  { rewrite Z.lor_comm. destruct Ht as [-> | ->].
    - change CALLOUT_NORMAL with (Z.shiftl 0x100000 8). rewrite lor_shiftl_add by lia. rewrite Z.shiftl_mul_pow2; lia.
    - change CALLOUT_REALTIME with (Z.shiftl 0x200000 8). rewrite lor_shiftl_add by lia. rewrite Z.shiftl_mul_pow2; lia. }
  split; simpl; exists 0; (split; [lia|]); [done|].
  rewrite Hs. destruct (next_counter tbl (2 ^ 19 - 1) (Z.of_nat i) Ht ltac:(lia) Hi) as [_ H].
  replace (tbl + 256 * 0 + Z.of_nat i) with (tbl + 256 * 0 + Z.of_nat i) by lia.
  change CALLOUT_LONGTERM with (2 ^ 27). rewrite set_bit by lia.
  assert (Z.testbit (tbl + 256 * 0 + Z.of_nat i) 27 = false) as ->; [|lia].
  rewrite Z.testbit_odd, shiftr_div by lia.
  assert ((tbl + 256 * 0 + Z.of_nat i) / 2 ^ 27 = tbl / 2 ^ 27) as ->.
  { destruct Ht as [-> | ->]; unfold CALLOUT_NORMAL, CALLOUT_REALTIME; const_div;
      symmetry; apply (Z.div_unique_pos _ _ _ (Z.of_nat i)); lia. }
  by destruct Ht as [-> | ->].
Qed.

Lemma tbl_bits id tbl : is_table tbl → Z.land id CALLOUT_TABLE_ID_MASK = tbl →
  has id CALLOUT_REALTIME = (tbl =? CALLOUT_REALTIME).
Proof.
  intros Ht H. change CALLOUT_REALTIME with (2 ^ 29) at 1. rewrite has_testbit by lia.
  assert (Z.testbit (Z.land id CALLOUT_TABLE_ID_MASK) 29 = Z.testbit tbl 29) as Hb by (by rewrite H).
  rewrite Z.land_spec in Hb. change (Z.testbit CALLOUT_TABLE_ID_MASK 29) with true in Hb.
  rewrite andb_true_r in Hb. rewrite Hb. by destruct Ht as [-> | ->].
Qed.

(** The flag [callout_insert] adds to an identifier does not disturb it. *)
Lemma xid_fields (unsafe : bool) id : 0 < id < 2 ^ 30 → Z.land id CALLOUT_ID_MASK = id →
  let x := if unsafe then Z.lor id CALLOUT_UNSAFE_DRIVER else id in
  Z.land x CALLOUT_ID_MASK = id ∧ has x CALLOUT_EXECUTING = false.
Proof.
  intros Hr Hm x. change CALLOUT_EXECUTING with (2 ^ 31). rewrite has_testbit by lia.
  assert (∀ n, 30 ≤ n → Z.testbit id n = false) as Hhi.
  { intros n Hn. rewrite <-(Z.mod_small id (2 ^ 30)) by lia. apply Z.mod_pow2_bits_high. lia. }
  unfold x. destruct unsafe; [|by auto with lia]. split.
  - rewrite Z.land_lor_distr_l, Hm. change (Z.land CALLOUT_UNSAFE_DRIVER CALLOUT_ID_MASK) with 0.
    apply Z.lor_0_r.
  - rewrite Z.lor_spec, Hhi by lia. done.
Qed.

(** ** Deletion *)

Definition id_is (id : Z) (c : callout) : Prop := Z.land (c_xid c) CALLOUT_ID_MASK = id.
#[global] Instance id_is_dec id c : Decision (id_is id c).
Proof. unfold id_is. apply _. Defined.

Lemma find_id_spec id l : ∀ prev,
  match find_id id prev l with
  | None => Forall (λ c, ¬ id_is id c) l
  | Some (p, cp, next) =>
      ∃ l1, p = rev l1 ++ prev ∧ l = l1 ++ cp :: next ∧ Forall (λ c, ¬ id_is id c) l1 ∧ id_is id cp
  end.
Proof.
  induction l as [|c l IH]; intros prev; simpl; [by constructor|].
  destruct (Z.eqb_spec (Z.land (c_xid c) CALLOUT_ID_MASK) id) as [E|E].
  - exists []. done.
  - specialize (IH (c :: prev)). destruct (find_id id (c :: prev) l) as [[[p cp] next]|].
    + destruct IH as (l1 & -> & -> & ? & ?). exists (c :: l1).
      split_and!; [simpl; by rewrite <-app_assoc|done|by constructor|done].
    + by constructor.
Qed.

(** The buckets of a table, as lists of callouts. *)
Definition pending (cs : callout_state) (i : Z) : list callout :=
  match cs_bucket cs !! Z.to_nat i with Some b => b_first b | None => [] end.

Lemma pending_upd cs i j f : 0 ≤ i < zlen (cs_bucket cs) → 0 ≤ j →
  pending (upd_bucket i (set_b_first f) cs) j = if decide (j = i) then f else pending cs j.
Proof.
  intros Hi Hj. unfold pending, upd_bucket. simpl. rewrite list_lookup_alter. case_decide as E.
  - rewrite decide_True by lia.
    destruct (lookup_lt_is_Some_2 (cs_bucket cs) (Z.to_nat i)) as [b ->]; [lia|done].
  - by rewrite decide_False by lia.
Qed.

Lemma pending_set_freelist l cs i : pending (set_freelist l cs) i = pending cs i.
Proof. done. Qed.

Lemma bucket_pending cs t : length (cs_bucket cs) = 256%nat →
  ∃ b, zget (cs_bucket cs) (bucket_of t) = Ret b ∧ b_first b = pending cs (bucket_of t).
Proof.
  intros H. destruct (bucket_at cs t H) as (b & ? & Hb). exists b. unfold pending. by rewrite Hb.
Qed.

(** What [callout_delete] does. *)
Lemma callout_delete_spec curthread cs id : length (cs_bucket cs) = 256%nat →
  (Forall (λ c, ¬ id_is id c) (pending cs (bucket_of id)) ∧
   callout_delete curthread cs id = Ret (DelRet (-1), cs)) ∨
  ∃ l1 cp l2, pending cs (bucket_of id) = l1 ++ cp :: l2 ∧ Forall (λ c, ¬ id_is id c) l1 ∧ id_is id cp ∧
    if has (c_xid cp) CALLOUT_EXECUTING then
      callout_delete curthread cs id =
        Ret (if decide (c_executor cp = Some curthread) then DelRet (-1) else DelWait cp, cs)
    else ∃ cs', callout_delete curthread cs id =
        Ret (DelRet (Z.max 0 (s32 (c_runtime cp - cs_curtime cs))), cs') ∧
      cs_freelist cs' = cp :: cs_freelist cs ∧
      (∀ i, 0 ≤ i → pending cs' i = if decide (i = bucket_of id) then l1 ++ l2 else pending cs i) ∧
      cs_curtime cs' = cs_curtime cs ∧ cs_runtime cs' = cs_runtime cs.
Proof.
  intros Hl. unfold callout_delete. destruct (bucket_pending cs id Hl) as (b & -> & <-). cbn [rbind].
  pose proof (find_id_spec id (b_first b) []) as Hf.
  destruct (find_id id [] (b_first b)) as [[[p cp] next]|]; [right|by left].
  destruct Hf as (l1 & -> & -> & Hn & Hi). exists l1, cp, next. split_and!; [done..|].
  destruct (has (c_xid cp) CALLOUT_EXECUTING); [by case_decide|].
  rewrite app_nil_r, rev_involutive. set (t := s32 (c_runtime cp - cs_curtime cs)).
  assert ((if t <? 0 then 0 else t) = Z.max 0 t) as -> by (destruct (Z.ltb_spec t 0); lia).
  eexists. split; [reflexivity|]. split_and!; [done| |done..].
  intros i Hi'. rewrite pending_set_freelist, pending_upd; [done| |done].
  pose proof (bucket_of_range id). lia.
Qed.

(** ** Properties of the timeout interface *)

(** The table a timeout goes to. *)
Definition table_of (rt : bool) (ts : callout_tables) : callout_state :=
  if rt then rt_callout ts else callout_normal ts.

Record tables_ok (ts : callout_tables) : Prop := {
  tsok_normal : table_ok CALLOUT_NORMAL (callout_normal ts);
  tsok_rt : table_ok CALLOUT_REALTIME (rt_callout ts)
}.

(** [timeout] and [realtime_timeout] put one callout at the head of a bucket of their own
    table and leave the other one alone.  The identifier they return is positive, names the table
    and the bucket and tells a long timeout; the callout carries it (with the unsafe-driver mark if
    the lock was held); it runs at [lbolt + delta], or at the next tick when that is not in the
    future; and the tables stay sound. *)
Theorem timeout_correct rt lbolt unsafe mem ts func arg delta :
  tables_ok ts → has_mem mem (table_of rt ts) →
  ∃ id ts' cp, (if rt then realtime_timeout else timeout) lbolt unsafe mem ts func arg delta = Ret (id, ts') ∧
    tables_ok ts' ∧ table_of (negb rt) ts' = table_of (negb rt) ts ∧
    0 < id < 2 ^ 30 ∧ has id CALLOUT_REALTIME = rt ∧ bucket_of id = bucket_of (c_runtime cp) ∧
    has id CALLOUT_LONGTERM =
      (CALLOUT_LONGTERM_TICKS <? s32 (c_runtime cp - cs_curtime (table_of rt ts))) ∧
    (id_is id cp ∧ has (c_xid cp) CALLOUT_EXECUTING = false ∧ c_func cp = func ∧ c_arg cp = arg) ∧
    0 < s32 (c_runtime cp - cs_curtime (table_of rt ts)) ∧
    (0 < s32 (lbolt + delta - cs_curtime (table_of rt ts)) → c_runtime cp = s32 (lbolt + delta)) ∧
    ∀ i, b_first <$> cs_bucket (table_of rt ts') !! i =
      (if decide (Z.of_nat i = bucket_of (c_runtime cp)) then cons cp else λ l, l) <$>
        (b_first <$> cs_bucket (table_of rt ts) !! i).
Proof.
  intros [Hn Hr] Hm. set (tbl := if rt then CALLOUT_REALTIME else CALLOUT_NORMAL).
  assert (is_table tbl) as Ht by (destruct rt; [by right|by left]).
  assert (table_ok tbl (table_of rt ts)) as Hok by by destruct rt.
  destruct (callout_insert_spec tbl lbolt unsafe mem (table_of rt ts) func arg delta Ht Hok Hm)
    as (id & cs' & cp & Hins & Hok' & (_ & Htb & Hlt & Hb & Hmask & Hrg) & (Hx & Hf & Ha) & Hpos & Hrun & _ & Hp).
  exists id, (if rt then Tables (callout_normal ts) cs' else Tables cs' (rt_callout ts)), cp.
  pose proof (xid_fields unsafe id Hrg Hmask) as [Hxm Hxe]. rewrite <-Hx in Hxm, Hxe.
  pose proof (tbl_bits id tbl Ht Htb) as Hrt.
  assert ((tbl =? CALLOUT_REALTIME) = rt) as Heq by by destruct rt. rewrite Heq in Hrt.
  unfold realtime_timeout, timeout.
  destruct rt; simpl in *; rewrite Hins; cbn [rbind]; (split; [done|]); split_and!; try done; lia.
Qed.

(** C21: what [timeout] or [realtime_timeout] set, [untimeout] with the returned identifier cancels:
    it goes to the table the identifier names, returns the ticks that were left (the positive
    distance from the table's current time to the run time), and both tables hold exactly the
    callouts they held before. *)
Theorem untimeout_cancels rt lbolt unsafe mem ts func arg delta curthread :
  tables_ok ts → has_mem mem (table_of rt ts) →
  ∃ id ts' ts'' left,
    (if rt then realtime_timeout else timeout) lbolt unsafe mem ts func arg delta = Ret (id, ts') ∧
    untimeout curthread ts' id = Ret (DelRet left, ts'') ∧
    0 < left ∧ (0 < s32 (lbolt + delta - cs_curtime (table_of rt ts)) →
                left = s32 (lbolt + delta - cs_curtime (table_of rt ts))) ∧
    table_of (negb rt) ts'' = table_of (negb rt) ts ∧
    ∀ i, 0 ≤ i → pending (table_of rt ts'') i = pending (table_of rt ts) i.
Proof.
  intros [Hn Hr] Hm. set (tbl := if rt then CALLOUT_REALTIME else CALLOUT_NORMAL).
  assert (is_table tbl) as Ht by (destruct rt; [by right|by left]).
  assert (table_ok tbl (table_of rt ts)) as Hok by by destruct rt.
  destruct (callout_insert_spec tbl lbolt unsafe mem (table_of rt ts) func arg delta Ht Hok Hm)
    as (id & cs' & cp & Hins & Hok' & (_ & Htb & Hlt & Hb & Hmask & Hrg) & (Hx & Hf & Ha) & Hpos & Hrun &
        [Hcur' _] & Hp).
  pose proof (xid_fields unsafe id Hrg Hmask) as [Hxm Hxe]. rewrite <-Hx in Hxm, Hxe.
  pose proof (tbl_bits id tbl Ht Htb) as Hrt.
  assert ((tbl =? CALLOUT_REALTIME) = rt) as Heq by by destruct rt. rewrite Heq in Hrt.
  assert (∀ i, 0 ≤ i → pending cs' i =
    if decide (i = bucket_of id) then cp :: pending (table_of rt ts) i else pending (table_of rt ts) i) as Hpend.
  { intros i Hi. pose proof (Hp (Z.to_nat i)) as H. rewrite Z2Nat.id, <-Hb in H by lia. unfold pending.
    pose proof (bucket_of_range id). case_decide as E.
    - subst i. destruct (cs_bucket (table_of rt ts) !! Z.to_nat (bucket_of id)) eqn:Eb, (cs_bucket cs' !! _);
        simpl in H; try congruence. apply lookup_ge_None in Eb. destruct Hok as [Hl _]. lia.
    - destruct (cs_bucket (table_of rt ts) !! _), (cs_bucket cs' !! _); simpl in H; congruence. }
  destruct (callout_delete_spec curthread cs' id (tok_len _ _ Hok')) as [[Hno _]|(l1 & c & l2 & Hsp & Hn1 & Hc & Hdel)].
  { pose proof (bucket_of_range id). rewrite Hpend, decide_True in Hno by lia. by inversion Hno. }
  pose proof (bucket_of_range id). rewrite Hpend, decide_True in Hsp by lia.
  destruct l1 as [|c1 l1]; [|injection Hsp as <- _; by inversion Hn1].
  injection Hsp as <- <-. rewrite Hxe in Hdel. destruct Hdel as (cs'' & Hdel & _ & Hp'' & _).
  exists id, (if rt then Tables (callout_normal ts) cs' else Tables cs' (rt_callout ts)),
    (if rt then Tables (callout_normal ts) cs'' else Tables cs'' (rt_callout ts)),
    (s32 (c_runtime cp - cs_curtime (table_of rt ts))).
  rewrite Hcur', Z.max_r in Hdel by lia.
  unfold realtime_timeout, timeout, untimeout. rewrite Hrt.
  assert (∀ i, 0 ≤ i → pending cs'' i = pending (table_of rt ts) i) as Hback.
  { intros i Hi. rewrite Hp'' by done. case_decide as E; [by subst i|].
    by rewrite Hpend, decide_False by done. }
  destruct rt; simpl in *; rewrite Hins; cbn [rbind]; simpl; rewrite Hdel; cbn [rbind];
    (split_and!; [done..|intros H'; rewrite Hrun by done|done|done]);
    unfold s32; Z.to_euclidean_division_equations; lia.
Qed.

Lemma fresh_tables_ok : tables_ok (Tables (callout_setup 100 CALLOUT_NORMAL) (callout_setup 100 CALLOUT_REALTIME)).
Proof. split; apply callout_setup_ok; [by left|by right]. Qed.

Lemma timeout_correct_witness :
  ∃ id ts', timeout 100 true (Some 7) (Tables (callout_setup 100 CALLOUT_NORMAL) (callout_setup 100 CALLOUT_REALTIME))
    1 2 50 = Ret (id, ts') ∧ 0 < id < 2 ^ 30.
Proof.
  destruct (timeout_correct false 100 true (Some 7) _ 1 2 50 fresh_tables_ok) as (id & ts' & cp & H & _ & _ & Hr & _).
  - right. by eexists.
  - by exists id, ts'.
Defined.

Lemma untimeout_cancels_witness :
  ∃ id ts' ts'' left,
    realtime_timeout 100 true (Some 7)
      (Tables (callout_setup 100 CALLOUT_NORMAL) (callout_setup 100 CALLOUT_REALTIME)) 1 2 50 = Ret (id, ts') ∧
    untimeout 3 ts' id = Ret (DelRet left, ts'') ∧ left = 50.
Proof.
  destruct (untimeout_cancels true 100 true (Some 7) _ 1 2 50 3 fresh_tables_ok)
    as (id & ts' & ts'' & left & H1 & H2 & _ & H3 & _).
  - right. by eexists.
  - exists id, ts', ts'', left. split; [done|]. split; [done|]. by apply H3.
Defined.

(** ** The clock: finding work *)

(** The [k]-th tick from [r] on. *)
Definition tick (r : Z) (k : nat) : Z := s32 (r + Z.of_nat k).

Lemma tick_0 r : in_s32 r → tick r 0 = r.
Proof. intros. unfold tick. rewrite Z.add_0_r. by apply s32_id. Qed.

Lemma tick_S r k : tick (s32 (r + 1)) k = tick r (S k).
Proof. unfold tick, s32. Z.to_euclidean_division_equations. lia. Qed.

Lemma tick_late r cur k : s32 (r - cur) + Z.of_nat k < 2 ^ 31 →
  s32 (tick r k - cur) = s32 (r - cur) + Z.of_nat k.
Proof. unfold tick, s32. Z.to_euclidean_division_equations. lia. Qed.

(** The callouts that a tick finds in its bucket. *)
Definition due_at (cs : callout_state) (t : Z) : list callout :=
  filter (λ c, is_due t c = true) (pending cs (bucket_of t)).

Lemma find_filter (f : callout → bool) l : List.find f l = head (filter (λ c, f c = true) l).
Proof.
  induction l as [|c l IH]; [done|]. rewrite filter_cons. simpl. destruct (f c) eqn:E.
  - by rewrite decide_True by done.
  - by rewrite decide_False, IH by congruence.
Qed.

(** Ticks left to catch up with. *)
Definition lag (cs : callout_state) : nat := Z.to_nat (1 - s32 (cs_runtime cs - cs_curtime cs)).

Lemma schedule_loop_spec fuel : ∀ cs, length (cs_bucket cs) = 256%nat → in_s32 (cs_runtime cs) →
  (lag cs < fuel)%nat →
  (∃ k c l, (k < lag cs)%nat ∧ (∀ j, (j < k)%nat → due_at cs (tick (cs_runtime cs) j) = []) ∧
     due_at cs (tick (cs_runtime cs) k) = c :: l ∧
     schedule_loop fuel cs = Some (Ret (Some c,
       set_busyticks (s32 (cs_busyticks cs + 1)) (set_runtime (tick (cs_runtime cs) k) cs)))) ∨
  ((∀ j, (j < lag cs)%nat → due_at cs (tick (cs_runtime cs) j) = []) ∧
   schedule_loop fuel cs = Some (Ret (None, set_runtime (tick (cs_runtime cs) (lag cs)) cs))).
Proof.
  induction fuel as [|fuel IH]; intros cs Hl Hr Hf; [lia|]. simpl.
  destruct (Z.leb_spec (s32 (cs_runtime cs - cs_curtime cs)) 0) as [Hle|Hgt].
  - destruct (bucket_pending cs (cs_runtime cs) Hl) as (b & -> & Hb).
    rewrite find_filter, Hb. fold (due_at cs (cs_runtime cs)).
    destruct (due_at cs (cs_runtime cs)) as [|c l] eqn:Ed; simpl.
    + set (cs1 := set_runtime (s32 (cs_runtime cs + 1)) cs).
      assert (lag cs = S (lag cs1)) as Hlag.
      { unfold lag, cs1; simpl. pose proof (s32_range (cs_runtime cs - cs_curtime cs)).
        pose proof (tick_late (cs_runtime cs) (cs_curtime cs) 1 ltac:(lia)) as Ht.
        unfold tick in Ht. change (Z.of_nat 1) with 1 in Ht. rewrite Ht. lia. }
      destruct (IH cs1 Hl (s32_range _) ltac:(lia)) as [(k & c & l & Hk & Hn & Hd & ->)|[Hn ->]].
      * left. exists (S k), c, l. unfold cs1 in Hn, Hd |- *; simpl in *. rewrite tick_S in *.
        split_and!; [lia| |done|done]. intros [|j] Hj; [by rewrite tick_0|].
        rewrite <-tick_S. apply Hn. lia.
      * right. rewrite Hlag. unfold cs1 in Hn |- *; simpl in *. rewrite tick_S. split; [|done].
        intros [|j] Hj; [by rewrite tick_0|]. rewrite <-tick_S. apply Hn. lia.
    + left. exists 0%nat, c, l. rewrite tick_0 by done. split_and!; [|lia|done|].
      * unfold lag. lia.
      * destruct cs; done.
  - right. assert (lag cs = 0%nat) as -> by (unfold lag; lia). rewrite tick_0 by done.
    split; [lia|]. by destruct cs.
Qed.

(** C40: [callout_schedule] walks over the ticks from the table's run time up to the current
    one.  It stops at the first of them with a callout to run, which becomes the run time, and counts
    a busy tick; if there is none it leaves the run time just after the current tick.  It never
    misses a tick, also when the counters wrap, and it terminates: one step more than the lag is
    enough. *)
Theorem callout_schedule_correct fuel lbolt cs : length (cs_bucket cs) = 256%nat →
  in_s32 lbolt → in_s32 (cs_runtime cs) → let n := lag (set_curtime lbolt cs) in (n < fuel)%nat →
  (∃ k c l, (k < n)%nat ∧ (∀ j, (j < k)%nat → due_at cs (tick (cs_runtime cs) j) = []) ∧
     due_at cs (tick (cs_runtime cs) k) = c :: l ∧
     callout_schedule fuel lbolt cs = Some (Ret (Some c,
       set_busyticks (s32 (cs_busyticks cs + 1))
         (set_runtime (tick (cs_runtime cs) k) (set_curtime lbolt cs))))) ∨
  ((∀ j, (j < n)%nat → due_at cs (tick (cs_runtime cs) j) = []) ∧
   ∃ r, callout_schedule fuel lbolt cs = Some (Ret (None, set_runtime r (set_curtime lbolt cs))) ∧
     r = if s32 (cs_runtime cs - lbolt) <=? 0 then s32 (lbolt + 1) else cs_runtime cs).
Proof.
  intros Hl Hb Hr n Hf. unfold callout_schedule.
  destruct (schedule_loop_spec fuel (set_curtime lbolt cs) Hl Hr Hf) as [H|[Hn ->]]; [by left|right].
  split; [done|]. eexists. split; [done|]. fold n. simpl.
  unfold n, lag; simpl. destruct (Z.leb_spec (s32 (cs_runtime cs - lbolt)) 0) as [H|H].
  - unfold tick. rewrite Z2Nat.id by lia. unfold s32. Z.to_euclidean_division_equations. lia.
  - replace (Z.to_nat _) with 0%nat by lia. by apply tick_0.
Qed.

Lemma callout_schedule_correct_witness :
  callout_schedule 4 102 (callout_setup 100 CALLOUT_NORMAL) =
    Some (Ret (None, set_runtime 103 (set_curtime 102 (callout_setup 100 CALLOUT_NORMAL)))).
Proof.
  destruct (callout_schedule_correct 4 102 (callout_setup 100 CALLOUT_NORMAL)) as [(k & c & l & Hk & _ & Hd & _)|[_ (r & H & Hr)]].
  - vm_compute. done.
  - vm_compute. split; congruence.
  - vm_compute. split; congruence.
  - vm_compute. lia.
  - exfalso. destruct k as [|[|[|[|k]]]]; [vm_compute in Hd; congruence..|vm_compute in Hk; lia].
  - rewrite H, Hr. reflexivity.
Defined.

(** ** Execution *)

(** A callout that is not to run yet when the clock shows [cur]. *)
Definition future (cur : Z) (c : callout) : Prop := 0 < s32 (c_runtime c - cur).

(** A bucket that was only added to, at its head, with callouts for later. *)
Definition grows (cur : Z) (l l' : list callout) : Prop :=
  ∃ news, l' = news ++ l ∧ Forall (future cur) news ∧ NoDup (c_addr <$> l').

(** The structures of a table, free and in the buckets. *)
Definition addrs (cs : callout_state) : list Z :=
  c_addr <$> cs_freelist cs ++ concat (b_first <$> cs_bucket cs).

(** A table with its identifiers in order, whose structures are all different. *)
Definition sound (tbl : Z) (cs : callout_state) : Prop := table_ok tbl cs ∧ NoDup (addrs cs).

(** A timeout is set: a call of [callout_insert], whatever the clock shows; memory
    from the allocator is not a structure of the table. *)
Definition sets (cs cs' : callout_state) : Prop :=
  ∃ lbolt unsafe mem func arg delta id,
    callout_insert lbolt unsafe mem cs func arg delta = Ret (id, cs') ∧
    ∀ a, mem = Some a → a ∉ addrs cs.

(** What is done while a function called from a callout runs: timeouts are set, any
    number of them. *)
Definition body_ok (tbl : Z) (body : callout → callout_state → callout_state) : Prop :=
  ∀ c cs, sound tbl cs → rtc sets cs (body c cs).

Lemma grows_refl cur l : NoDup (c_addr <$> l) → grows cur l l.
Proof. intros. by exists []. Qed.

Lemma grows_trans cur l1 l2 l3 : grows cur l1 l2 → grows cur l2 l3 → grows cur l1 l3.
Proof.
  intros (n1 & -> & H1 & _) (n2 & -> & H2 & H3). exists (n2 ++ n1).
  rewrite <-app_assoc. split_and!; [done|by apply Forall_app|done].
Qed.

Lemma grows_pre cur pre l l' news : grows cur ((news ++ pre) ++ l) l' → Forall (future cur) news →
  grows cur (pre ++ l) l'.
Proof.
  intros (n & -> & H1 & H2) Hn. exists (n ++ news). rewrite <-!app_assoc in *.
  split_and!; [done|by apply Forall_app|done].
Qed.

Lemma future_not_due cur t c : future cur c → s32 (t - cur) ≤ 0 → is_due t c = false.
Proof.
  unfold future, is_due. intros H1 H2. destruct (Z.eqb_spec (c_runtime c) t) as [E|E]; [|done].
  rewrite E in H1. lia.
Qed.

Lemma find_addr_spec c l : ∀ prev pre, NoDup (c_addr <$> pre ++ c :: l) →
  find_addr (c_addr c) prev (pre ++ c :: l) = Some (rev pre ++ prev, c, l).
Proof.
  intros prev pre. revert prev. induction pre as [|d pre IH]; intros prev Hnd; simpl.
  - by rewrite Z.eqb_refl.
  - simpl in Hnd. apply NoDup_cons in Hnd as [Hd Hnd].
    rewrite (proj2 (Z.eqb_neq _ _)).
    + rewrite IH by done. by rewrite <-app_assoc.
    + intros E. apply Hd. rewrite E. apply list_elem_of_fmap. exists c. split; [done|set_solver].
Qed.

(** The callout as it is while it runs. *)
Definition running (curthread : Z) (c : callout) : callout :=
  set_c_xid (Z.lor (c_xid c) CALLOUT_EXECUTING) (set_c_executor (Some curthread) c).

Lemma NoDup_remove {A} (l1 l2 : list A) x : NoDup (l1 ++ x :: l2) → NoDup (l1 ++ l2).
Proof.
  intros H. apply NoDup_app in H as (H1 & H2 & H3). apply NoDup_cons in H3 as [H3 H4].
  apply NoDup_app. split_and!; [done| |done]. intros y Hy Hy2. apply (H2 y Hy). by right.
Qed.

(** *** Sound tables *)

Lemma alter_middle {A} (f : A → A) l1 x l2 :
  alter f (length l1) (l1 ++ x :: l2) = l1 ++ f x :: l2.
Proof. induction l1 as [|y l1 IH]; [done|]. simpl. by rewrite <-IH. Qed.

(** The structures of a table are those of the free list, those of a bucket, and the others. *)
Lemma addrs_split cs i : length (cs_bucket cs) = 256%nat → 0 ≤ i < 256 → ∃ rest,
  addrs cs ≡ₚ (c_addr <$> cs_freelist cs) ++ (c_addr <$> pending cs i) ++ rest ∧
  ∀ fl f l, (∀ b, cs_bucket cs !! Z.to_nat i = Some b → b_first (f b) = l) →
    addrs (set_freelist fl (upd_bucket i f cs)) ≡ₚ (c_addr <$> fl) ++ (c_addr <$> l) ++ rest.
Proof.
  intros Hl Hi. destruct (lookup_lt_is_Some_2 (cs_bucket cs) (Z.to_nat i)) as [b Hb]; [lia|].
  destruct (list_elem_of_split_length _ _ _ Hb) as (l1 & l2 & Hcs & Hn).
  exists (c_addr <$> concat (b_first <$> l1) ++ concat (b_first <$> l2)).
  unfold addrs, pending. rewrite Hb, Hcs, (fmap_app b_first), fmap_cons, concat_app. cbn [concat].
  rewrite !fmap_app. split; [solve_Permutation|].
  intros fl f l Hf. unfold upd_bucket. simpl. rewrite Hcs, Hn, alter_middle, (fmap_app b_first), fmap_cons, concat_app.
  cbn [concat]. rewrite (Hf b), !fmap_app by done. solve_Permutation.
Qed.

Lemma sound_len tbl cs : sound tbl cs → length (cs_bucket cs) = 256%nat.
Proof. intros [H _]. apply H. Qed.

Lemma sound_nodup tbl cs i : sound tbl cs → 0 ≤ i → NoDup (c_addr <$> pending cs i).
Proof.
  intros [[Hl _] Hn] Hi. destruct (decide (i < 256)).
  2: { unfold pending. rewrite lookup_ge_None_2 by lia. constructor. }
  destruct (addrs_split cs i Hl ltac:(lia)) as (rest & Hp & _). rewrite Hp in Hn.
  apply NoDup_app in Hn as (_ & _ & Hn). by apply NoDup_app in Hn as (Hn & _ & _).
Qed.

Lemma table_ok_upd tbl cs i l : table_ok tbl cs → table_ok tbl (upd_bucket i (set_b_first l) cs).
Proof.
  intros [Hl Hids]. split; unfold upd_bucket; simpl; [by rewrite length_alter|].
  intros j b. rewrite list_lookup_alter. case_decide as E; [|apply Hids].
  subst j. destruct (cs_bucket cs !! Z.to_nat i) as [b0|] eqn:Eb; [|done]. intros [= <-].
  destruct (Hids _ _ Eb). by split.
Qed.

Lemma table_ok_buckets tbl cs cs' : cs_bucket cs' = cs_bucket cs → table_ok tbl cs → table_ok tbl cs'.
Proof. intros E [Hl Hids]. split; by rewrite E. Qed.

Lemma sound_set_runtime tbl cs t : sound tbl cs → sound tbl (set_runtime t cs).
Proof. intros [Hok Hn]. split; [|done]. by apply (table_ok_buckets tbl cs). Qed.

(** A bucket and the free list may exchange structures. *)
Lemma sound_upd tbl cs i fl l : sound tbl cs → 0 ≤ i < 256 →
  (c_addr <$> fl ++ l) ≡ₚ (c_addr <$> cs_freelist cs ++ pending cs i) →
  sound tbl (set_freelist fl (upd_bucket i (set_b_first l) cs)).
Proof.
  intros [Hok Hn] Hi Hp. split.
  - eapply table_ok_buckets; [|by apply (table_ok_upd tbl cs i l)]. done.
  - destruct (addrs_split cs i (tok_len _ _ Hok) Hi) as (rest & H1 & H2).
    rewrite (H2 fl _ l) by done. rewrite H1 in Hn.
    rewrite !fmap_app in Hp. by rewrite app_assoc, Hp, <-app_assoc.
Qed.

Lemma grows_one cur c l l' : l' = c :: l → future cur c → NoDup (c_addr <$> l') → grows cur l l'.
Proof. intros -> Hc Hn. exists [c]. split_and!; [done|by apply Forall_singleton|done]. Qed.

(** [callout_insert] moves a structure from the free list, or a new one, to a bucket. *)
Lemma insert_addrs lbolt unsafe mem cs func arg delta id cs' :
  length (cs_bucket cs) = 256%nat → (∀ a, mem = Some a → a ∉ addrs cs) → NoDup (addrs cs) →
  callout_insert lbolt unsafe mem cs func arg delta = Ret (id, cs') →
  NoDup (addrs cs') ∧ has_mem mem cs.
Proof.
  intros Hl Hfresh Hn. unfold callout_insert.
  destruct (cs_freelist cs) as [|cp fl] eqn:Ef; [destruct mem as [a|]; [|done]|]; simpl;
    set (rt := if s32 _ <=? 0 then _ else _);
    [change (cs_bucket (set_ncallout _ cs)) with (cs_bucket cs)
    |change (cs_bucket (set_freelist _ cs)) with (cs_bucket cs)];
    pose proof (bucket_of_range rt) as Hbr;
    destruct (addrs_split cs (bucket_of rt) Hl Hbr) as (rest & H1 & H2);
    destruct (bucket_at cs rt Hl) as (b & -> & Hb); cbn [rbind];
    destruct (if CALLOUT_LONGTERM_TICKS <? _ then _ else _) as [id' b'] eqn:Eb';
    assert (b_first b' = b_first b) as Hbf
      by (destruct (CALLOUT_LONGTERM_TICKS <? _); by injection Eb' as <- <-);
    clear Eb'; intros [= <- <-].
  - split; [|right; by eexists]. set (cp := Callout a _ _ _ _ _).
    change (addrs _) with (addrs (set_freelist (cs_freelist cs)
      (upd_bucket (bucket_of rt) (λ _, set_b_first (cp :: b_first b') b') cs))).
    rewrite (H2 _ _ (cp :: b_first b)) by (intros; simpl; by rewrite Hbf). unfold pending in H1. rewrite Hb in H1.
    rewrite Ef in *. rewrite fmap_cons. simpl in *. apply NoDup_cons. rewrite <-H1. auto.
  - split; [|left; congruence]. set (cp' := Callout (c_addr cp) _ _ _ _ _).
    change (addrs _) with (addrs (set_freelist fl
      (upd_bucket (bucket_of rt) (λ _, set_b_first (cp' :: b_first b') b') cs))).
    rewrite (H2 _ _ (cp' :: b_first b)) by (intros; simpl; by rewrite Hbf). unfold pending in H1. rewrite Hb in H1.
    rewrite H1, Ef in Hn. rewrite fmap_cons in Hn |- *. simpl in *. by rewrite <-Permutation_middle.
Qed.

(** Setting timeouts keeps a table sound and only adds callouts for later. *)
Lemma sets_ok tbl cs cs' : is_table tbl → rtc sets cs cs' → sound tbl cs →
  sound tbl cs' ∧ cs_curtime cs' = cs_curtime cs ∧ cs_runtime cs' = cs_runtime cs ∧
  ∀ i, 0 ≤ i → grows (cs_curtime cs) (pending cs i) (pending cs' i).
Proof.
  intros Ht. induction 1 as [cs|cs cs1 cs' (lb & u & mem & f & a & d & id & Hins & Hfresh) _ IH];
    intros Hok; [split_and!; try done; intros i Hi; apply grows_refl; by eapply sound_nodup|].
  destruct (insert_addrs _ _ _ _ _ _ _ _ _ (sound_len _ _ Hok) Hfresh (proj2 Hok) Hins) as [Hn Hm].
  destruct (callout_insert_spec tbl lb u mem cs f a d Ht (proj1 Hok) Hm)
    as (id' & cs1' & cp & Hins' & Hok1 & _ & _ & Hpos & _ & [Hc Hr] & Hp).
  rewrite Hins in Hins'. injection Hins' as <- <-.
  assert (sound tbl cs1) as Hs1 by done.
  destruct (IH Hs1) as (Hs & Hc' & Hr' & Hg). rewrite Hc, Hr in *.
  split_and!; [done..|]. intros i Hi. eapply grows_trans; [|by apply Hg].
  specialize (Hp (Z.to_nat i)). rewrite Z2Nat.id in Hp by lia.
  pose proof (sound_nodup _ _ i Hs1 Hi) as Hni. unfold pending in *.
  destruct (cs_bucket cs !! Z.to_nat i) as [b|], (cs_bucket cs1 !! Z.to_nat i) as [b1|];
    simpl in Hp; try done; [|by apply grows_refl].
  injection Hp as Hp. case_decide; [by eapply grows_one|]. rewrite Hp in *. by apply grows_refl.
Qed.

Section Execute_proofs.
Context (curthread tbl : Z) (body : callout → callout_state → callout_state).
Hypotheses (Htbl : is_table tbl) (Hbody : body_ok tbl body).

Lemma execute_bucket_spec rt fuel : ∀ pre l cs, sound tbl cs →
  s32 (rt - cs_curtime cs) ≤ 0 → pending cs (bucket_of rt) = pre ++ l → (length l ≤ fuel)%nat →
  ∃ cs', execute_bucket curthread body fuel rt (c_addr <$> head l) cs =
      Some (Ret (running curthread <$> filter (λ c, is_due rt c = true) l, cs')) ∧
    sound tbl cs' ∧ cs_curtime cs' = cs_curtime cs ∧ cs_runtime cs' = cs_runtime cs ∧
    grows (cs_curtime cs) (pre ++ filter (λ c, is_due rt c = false) l) (pending cs' (bucket_of rt)) ∧
    ∀ i, 0 ≤ i → i ≠ bucket_of rt → grows (cs_curtime cs) (pending cs i) (pending cs' i).
Proof.
  induction fuel as [|fuel IH]; intros pre l cs Hok Hrt Hp Hf;
    pose proof (sound_len _ _ Hok) as Hlen;
    pose proof (λ i, sound_nodup _ _ i Hok) as Hnd;
    (destruct l as [|c l]; [exists cs; simpl; split_and!; [done| |done|done| |by intros; apply grows_refl; auto]|]).
  - done.
  - rewrite app_nil_r in *. rewrite <-Hp. apply grows_refl, Hnd, bucket_of_range.
  - simpl in Hf. lia.
  - done.
  - rewrite app_nil_r in *. rewrite <-Hp. apply grows_refl, Hnd, bucket_of_range.
  - pose proof (bucket_of_range rt) as Hbr. cbn [execute_bucket head fmap option_fmap option_map].
    destruct (bucket_pending cs rt Hlen) as (b & -> & Hb). rewrite Hb, Hp.
    pose proof (Hnd (bucket_of rt) ltac:(lia)) as Hnp. rewrite Hp in Hnp.
    rewrite find_addr_spec by done. rewrite !filter_cons. destruct (is_due rt c) eqn:Ed; cbn [negb].
    + rewrite app_nil_r, rev_involutive, decide_True, decide_False by congruence.
      set (c1 := set_c_xid _ _). set (cs1 := upd_bucket _ _ cs).
      assert (NoDup (c_addr <$> pre ++ c1 :: l)) as Hnp1 by by rewrite fmap_app in *.
      assert (sound tbl cs1) as Hok1.
      { apply (sound_upd tbl cs _ (cs_freelist cs)); [done|lia|]. rewrite Hp. by rewrite !fmap_app. }
      destruct (sets_ok tbl cs1 _ Htbl (Hbody c1 cs1 Hok1) Hok1) as (Hok2 & Hc2 & Hr2 & Hg2).
      pose proof (sound_len _ _ Hok2) as Hlen2.
      set (cs2 := body c1 cs1) in *. change (cs_curtime cs1) with (cs_curtime cs) in *.
      destruct (bucket_pending cs2 rt Hlen2) as (b2 & -> & Hb2). rewrite Hb2.
      destruct (Hg2 (bucket_of rt) ltac:(lia)) as (news & Hn & Hfut & Hnd').
      unfold cs1 in Hn. rewrite pending_upd, decide_True in Hn by lia. rewrite Hn in Hnd'. rewrite Hn.
      rewrite app_assoc in Hnd' |- *.
      change (c_addr c) with (c_addr c1). rewrite find_addr_spec by done.
      rewrite app_nil_r, rev_involutive.
      set (cs3 := set_freelist _ _).
      destruct (IH (news ++ pre) l cs3) as (cs' & -> & Hok' & Hc' & Hr' & Hg' & Hi').
      * apply sound_upd; [done..|]. rewrite Hn. cbn [app]. rewrite !fmap_app, !fmap_cons, !fmap_app.
        cbn [c_addr set_c_xid]. solve_Permutation.
      * unfold cs3. simpl. by rewrite Hc2.
      * unfold cs3. rewrite pending_set_freelist, pending_upd, decide_True by lia. done.
      * simpl in Hf. lia.
      * exists cs'. split; [done|]. assert (cs_curtime cs3 = cs_curtime cs) as E by done.
        rewrite E in *. split_and!; [done|congruence|by rewrite Hr'; apply Hr2|by eapply grows_pre|].
        intros i Hi Hne. eapply grows_trans; [|by apply Hi'].
        unfold cs3. rewrite pending_set_freelist, pending_upd, decide_False by (done || lia).
        specialize (Hg2 i Hi). unfold cs1 in Hg2. by rewrite pending_upd, decide_False in Hg2 by (done || lia).
    + rewrite decide_False, decide_True by congruence.
      destruct (IH (pre ++ [c]) l cs) as (cs' & -> & ? & ? & ? & Hg & ?); [done|done|..].
      * by rewrite <-app_assoc.
      * simpl in Hf. lia.
      * exists cs'. rewrite <-app_assoc in Hg. split_and!; done.
Qed.

(** The callouts of bucket [i] that [n] ticks from [r] on find. *)
Definition due_in (i r : Z) (n : nat) (c : callout) : bool :=
  existsb (λ k, (bucket_of (tick r k) =? i) && is_due (tick r k) c) (seq 0 n).

Lemma due_in_S i r n c : in_s32 r →
  due_in i r (S n) c = ((bucket_of r =? i) && is_due r c) || due_in i (s32 (r + 1)) n c.
Proof.
  intros Hr. unfold due_in. rewrite <-cons_seq, <-fmap_S_seq. cbn [existsb].
  rewrite tick_0 by done. f_equal. generalize (seq 0 n). intros ks.
  induction ks as [|k ks IH]; [done|]. rewrite fmap_cons. cbn [existsb]. by rewrite IH, tick_S.
Qed.

Lemma due_in_future i r n c cur : future cur c → (∀ k, (k < n)%nat → s32 (tick r k - cur) ≤ 0) →
  due_in i r n c = false.
Proof.
  intros Hc H. unfold due_in. apply not_true_is_false. intros (k & Hk & Hd)%existsb_exists.
  apply in_seq in Hk. apply andb_prop in Hd as [_ Hd].
  rewrite (future_not_due cur) in Hd; [done|done|]. apply H. lia.
Qed.

Lemma lag_step cs : s32 (cs_runtime cs - cs_curtime cs) ≤ 0 → in_s32 (cs_runtime cs) →
  lag cs = S (Z.to_nat (1 - s32 (s32 (cs_runtime cs + 1) - cs_curtime cs))).
Proof.
  intros Hle Hr. unfold lag. pose proof (s32_range (cs_runtime cs - cs_curtime cs)).
  pose proof (tick_late (cs_runtime cs) (cs_curtime cs) 1 ltac:(lia)) as Ht.
  unfold tick in Ht. change (Z.of_nat 1) with 1 in Ht. rewrite Ht. lia.
Qed.

Lemma tick_past cs k : (k < lag cs)%nat → s32 (tick (cs_runtime cs) k - cs_curtime cs) ≤ 0.
Proof.
  unfold lag. intros Hk. pose proof (s32_range (cs_runtime cs - cs_curtime cs)) as [].
  rewrite tick_late; lia.
Qed.

Lemma lag_bound cs : Z.of_nat (lag cs) ≤ 2 ^ 31 + 1.
Proof. unfold lag. pose proof (s32_range (cs_runtime cs - cs_curtime cs)) as []. lia. Qed.

Lemma tick_ne r k : in_s32 r → 0 < Z.of_nat k < 2 ^ 32 → tick r k ≠ r.
Proof. unfold tick, s32, in_s32. intros. Z.to_euclidean_division_equations. lia. Qed.

Lemma filter_none {A} (P : A → Prop) `{!∀ x, Decision (P x)} l : Forall (λ x, ¬ P x) l → filter P l = [].
Proof. induction 1; [done|]. by rewrite filter_cons_False. Qed.

Lemma filter_all {A} (P : A → Prop) `{!∀ x, Decision (P x)} l : Forall P l → filter P l = l.
Proof. induction 1 as [|x l ?? IH]; [done|]. by rewrite filter_cons_True, IH. Qed.

(** The buckets after the work of one tick. *)
Definition tick_done (r : Z) (cs cs1 : callout_state) : Prop := ∀ i, 0 ≤ i →
  grows (cs_curtime cs) (filter (λ c, (bucket_of r =? i) && is_due r c = false) (pending cs i)) (pending cs1 i).

Lemma execute_tick cs : sound tbl cs → s32 (cs_runtime cs - cs_curtime cs) ≤ 0 →
  let r := cs_runtime cs in let l := pending cs (bucket_of r) in
  ∃ cs1, execute_bucket curthread body (length l) r (c_addr <$> head l) cs =
      Some (Ret (running curthread <$> due_at cs r, cs1)) ∧
    sound tbl cs1 ∧ cs_curtime cs1 = cs_curtime cs ∧ cs_runtime cs1 = r ∧ tick_done r cs cs1.
Proof.
  intros Hok Hle r l.
  destruct (execute_bucket_spec r (length l) [] l cs Hok Hle eq_refl (le_n _))
    as (cs1 & -> & Hok1 & Hc1 & Hr1 & Hg1 & Ho1). exists cs1. split_and!; try done.
  intros i Hi. destruct (Z.eqb_spec (bucket_of r) i) as [<-|Hne]; [done|].
  rewrite filter_all by (by apply Forall_forall). by apply Ho1.
Qed.

(** A later tick finds what it would have found before. *)
Lemma due_at_step cs cs1 r t : tick_done r cs cs1 → t ≠ r → s32 (t - cs_curtime cs) ≤ 0 →
  due_at cs1 t = due_at cs t.
Proof.
  intros Hd Hne Ht. unfold due_at. pose proof (bucket_of_range t).
  destruct (Hd (bucket_of t) ltac:(lia)) as (news & -> & Hn & _).
  rewrite filter_app, (filter_none _ news), app_nil_l.
  - apply list_filter_filter_l. intros c Hc. apply andb_false_iff. right. apply not_true_is_false.
    unfold is_due in *. intros Hc'. apply andb_prop in Hc as [Hc _], Hc' as [Hc' _]. zb. congruence.
  - eapply Forall_impl; [exact Hn|]. intros c Hc. by rewrite (future_not_due (cs_curtime cs)).
Qed.

(** Composition of the work of a tick and that of the [n] later ones. *)
Lemma grows_step cs cs1 r n i l' : tick_done r cs cs1 → in_s32 r → 0 ≤ i →
  (∀ k, (k < n)%nat → s32 (tick (s32 (r + 1)) k - cs_curtime cs) ≤ 0) →
  grows (cs_curtime cs) (filter (λ c, due_in i (s32 (r + 1)) n c = false) (pending cs1 i)) l' →
  grows (cs_curtime cs) (filter (λ c, due_in i r (S n) c = false) (pending cs i)) l'.
Proof.
  intros Hd Hr Hi Hk. destruct (Hd i Hi) as (news & -> & Hn & _).
  rewrite filter_app, (filter_all _ news), list_filter_filter.
  - intros Hg. apply (grows_pre _ [] _ _ news); [|done]. rewrite app_nil_r.
    eapply eq_ind_r with (P := λ l, grows _ (news ++ l) l'); [exact Hg|].
    apply list_filter_iff. intros c. rewrite due_in_S, orb_false_iff by done. tauto.
  - eapply Forall_impl; [exact Hn|]. intros c Hc. by eapply due_in_future.
Qed.

Lemma callout_execute_spec fuel : ∀ cs, sound tbl cs → in_s32 (cs_runtime cs) → (lag cs < fuel)%nat →
  ∃ cs', callout_execute curthread body fuel cs =
      Some (Ret (running curthread <$> concat ((λ k, due_at cs (tick (cs_runtime cs) k)) <$> seq 0 (lag cs)), cs')) ∧
    sound tbl cs' ∧ cs_curtime cs' = cs_curtime cs ∧ cs_runtime cs' = tick (cs_runtime cs) (lag cs) ∧
    ∀ i, 0 ≤ i → grows (cs_curtime cs)
      (filter (λ c, due_in i (cs_runtime cs) (lag cs) c = false) (pending cs i)) (pending cs' i).
Proof.
  induction fuel as [|fuel IH]; intros cs Hok Hr Hf; [lia|]. cbn [callout_execute].
  destruct (Z.leb_spec (s32 (cs_runtime cs - cs_curtime cs)) 0) as [Hle|Hgt].
  - destruct (bucket_pending cs (cs_runtime cs) (sound_len _ _ Hok)) as (b & -> & ->).
    destruct (execute_tick cs Hok Hle) as (cs1 & -> & Hok1 & Hc1 & Hr1 & Hd1).
    rewrite Hr1, Z.eqb_refl. set (r := cs_runtime cs) in *. set (cs2 := set_runtime (s32 (r + 1)) cs1).
    assert (lag cs = S (lag cs2)) as Hlag.
    { rewrite (lag_step cs Hle Hr). unfold lag, cs2. simpl. by rewrite Hc1. }
    destruct (IH cs2 (sound_set_runtime _ _ _ Hok1) (s32_range _) ltac:(lia)) as (cs' & -> & Hok' & Hc' & Hr' & Hg').
    change (cs_runtime cs2) with (s32 (r + 1)) in *. change (cs_curtime cs2) with (cs_curtime cs1) in *.
    change (pending cs2) with (pending cs1) in *. rewrite Hc1 in *.
    exists cs'. split_and!; [|exact Hok'|done|by rewrite Hr', tick_S, Hlag|].
    + rewrite Hlag, <-cons_seq, <-fmap_S_seq. do 3 f_equal. rewrite fmap_cons, <-list_fmap_compose.
      cbn [concat]. rewrite fmap_app, tick_0 by done. do 3 f_equal.
      apply list_fmap_ext. intros k j Hj. apply lookup_seq in Hj as [-> Hj]. simpl. rewrite tick_S.
      apply (due_at_step cs cs1 r); [done| |].
      * apply tick_ne; [done|]. pose proof (lag_bound cs). lia.
      * apply tick_past. lia.
    + intros i Hi. rewrite Hlag. eapply grows_step; [done..| |by apply Hg'].
      intros k Hk. rewrite tick_S. apply tick_past. lia.
  - assert (lag cs = 0%nat) as -> by (unfold lag; lia). exists cs.
    rewrite tick_0 by done. split_and!; try done. intros i Hi. rewrite filter_all.
    + by eapply grows_refl, sound_nodup.
    + by apply Forall_forall.
Qed.
End Execute_proofs.

(** C19: [callout_execute] catches up with the clock.  If all that happens while the
    functions of the callouts run is that they set timeouts ([body_ok]: any number of calls of
    [callout_insert], on the free list or with new memory), it runs exactly the callouts that the ticks from the table's run time to the current
    one find in their buckets, each once, in the order of the ticks and within one in bucket order, and
    none before its time; it leaves the others, and what was set meanwhile, in the buckets; the run
    time ends just after the current tick, and the table stays sound.  It terminates: one step more than the lag is enough. *)
Theorem callout_execute_correct curthread tbl body fuel cs :
  is_table tbl → body_ok tbl body → sound tbl cs → in_s32 (cs_runtime cs) → (lag cs < fuel)%nat →
  let r := cs_runtime cs in let n := lag cs in
  let due := concat ((λ k, due_at cs (tick r k)) <$> seq 0 n) in
  ∃ cs', callout_execute curthread body fuel cs = Some (Ret (running curthread <$> due, cs')) ∧
    Forall (λ c, s32 (c_runtime c - cs_curtime cs) ≤ 0) due ∧
    sound tbl cs' ∧ cs_curtime cs' = cs_curtime cs ∧ cs_runtime cs' = tick r n ∧
    ∀ i, 0 ≤ i → grows (cs_curtime cs) (filter (λ c, due_in i r n c = false) (pending cs i)) (pending cs' i).
Proof.
  intros Ht Hb Hok Hr Hf r n due.
  destruct (callout_execute_spec curthread tbl body Ht Hb fuel cs Hok Hr Hf) as (cs' & -> & H).
  exists cs'. split_and!; try done; try apply H. apply Forall_concat, Forall_fmap, Forall_forall.
  intros k Hk%elem_of_seq. simpl. apply Forall_forall. intros c [Hd _]%list_elem_of_filter.
  unfold is_due in Hd. apply andb_prop in Hd as [Hd _]. zb. rewrite Hd. apply tick_past. lia.
Qed.

(** A function that calls [timeout] for itself, five ticks later, at clock 102. *)
Definition rearm (c : callout) (cs : callout_state) : callout_state :=
  match callout_insert 102 false (Some (1 + foldr Z.max 0 (addrs cs))) cs (c_func c) (c_arg c) 5 with
  | Ret (_, cs') => cs'
  | _ => cs
  end.

Lemma foldr_max_ge l x : x ∈ l → x ≤ foldr Z.max 0 l.
Proof. induction 1; simpl; lia. Qed.

Lemma rearm_ok tbl : body_ok tbl rearm.
Proof.
  intros c cs Hok. unfold rearm. destruct (callout_insert _ _ _ _ _ _ _) as [[id cs']| |] eqn:E; [|done..].
  apply rtc_once. do 7 eexists. split; [exact E|]. intros a [= <-] Hin%foldr_max_ge. lia.
Qed.

Definition due_table : callout_state :=
  set_curtime 102 (upd_bucket 101 (set_b_first [Callout 7 1 101 3 4 None; Callout 8 2 357 5 6 None])
    (callout_setup 100 CALLOUT_NORMAL)).

Lemma pending_setup t tbl i : 0 ≤ i → pending (callout_setup t tbl) i = [].
Proof.
  intros Hi. unfold pending, callout_setup. cbn [cs_bucket]. rewrite list_lookup_fmap.
  by destruct (seq 0 256 !! Z.to_nat i).
Qed.

Lemma due_table_sound : sound CALLOUT_NORMAL due_table.
Proof.
  assert (is_table CALLOUT_NORMAL) as Ht by by left.
  destruct (addrs_split (callout_setup 100 CALLOUT_NORMAL) 101 eq_refl ltac:(lia)) as (rest & H1 & H2).
  change (addrs (callout_setup 100 CALLOUT_NORMAL)) with ([] : list Z) in H1.
  apply Permutation_nil_l in H1. symmetry in H1. apply app_eq_nil in H1 as [_ [_ ->]%app_eq_nil]. split.
  - eapply table_ok_buckets; [|apply table_ok_upd, (callout_setup_ok 100 _ Ht)]. reflexivity.
  - change (addrs due_table) with (addrs (set_freelist [] (upd_bucket 101
      (set_b_first [Callout 7 1 101 3 4 None; Callout 8 2 357 5 6 None]) (callout_setup 100 CALLOUT_NORMAL)))).
    rewrite (H2 [] _ [Callout 7 1 101 3 4 None; Callout 8 2 357 5 6 None]) by (by intros). apply (bool_decide_unpack _). vm_compute. exact I.
Qed.

Lemma callout_execute_correct_witness :
  sound CALLOUT_NORMAL due_table ∧ body_ok CALLOUT_NORMAL rearm ∧
  ∃ cs', callout_execute 9 rearm 5 due_table =
           Some (Ret ([running 9 (Callout 7 1 101 3 4 None)], cs')) ∧ cs_runtime cs' = 103.
Proof.
  split; [exact due_table_sound|]. split; [exact (rearm_ok _)|].
  destruct (callout_execute_correct 9 CALLOUT_NORMAL rearm 5 due_table) as (cs' & H & _ & _ & _ & Hr & _).
  - by left.
  - apply rearm_ok.
  - exact due_table_sound.
  - vm_compute. split; congruence.
  - vm_compute. lia.
  - exists cs'. split; [exact H|exact Hr].
Defined.

(** ** Checkpoint *)

Lemma save_scan_keeps l o : Forall (λ c, 0 ≤ c_xid c) l → save_scan l o = (l, o).
Proof.
  revert o. induction l as [|c l IH]; intros o Hl; [done|]. apply Forall_cons in Hl as [Hc Hl]. simpl.
  assert (truthy (Z.lor (c_xid c) CALLOUT_EXECUTING) = true) as ->.
  { apply truthy_true. intros E%Z.lor_eq_0_iff. unfold CALLOUT_EXECUTING in E. lia. }
  by rewrite IH.
Qed.

(** [callout_save], which is to move every callout that is not executing out of the way
    of the clock until [callout_restore], moves none: its test [cp->c_xid | CALLOUT_EXECUTING] holds of
    every identifier.  The table keeps all its callouts and only forgets its busy ticks, the saved
    table is empty, and restoring it gives the original table. *)
Theorem callout_save_moves_nothing cs :
  Forall (λ b, Forall (λ c, 0 ≤ c_xid c) (b_first b)) (cs_bucket cs) →
  (callout_save cs).1 = set_busyticks 0 cs ∧
  Forall (λ b, b_first b = []) (cs_bucket (callout_save cs).2) ∧
  (in_s32 (cs_busyticks cs) →
   callout_restore (callout_save cs).1 (callout_save cs).2 = cs).
Proof.
  intros Hx. unfold callout_save. cbn [fst snd].
  assert ((λ b, set_b_first (save_scan (b_first b) []).1 b) <$> cs_bucket cs = cs_bucket cs) as Hk.
  { rewrite <-(list_fmap_id (cs_bucket cs)) at 2. apply list_fmap_ext. intros i b Hb. simpl.
    eapply Forall_lookup_1 in Hx; [|done]. rewrite save_scan_keeps by done. by destruct b. }
  assert ((λ b, set_b_first (save_scan (b_first b) []).2 b) <$> cs_bucket cs =
          set_b_first [] <$> cs_bucket cs) as Ho.
  { apply list_fmap_ext. intros i b Hb. simpl.
    eapply Forall_lookup_1 in Hx; [|done]. by rewrite save_scan_keeps. }
  change (cs_bucket (set_busyticks 0 cs)) with (cs_bucket cs). rewrite Hk, Ho.
  split_and!; [by destruct cs|by apply Forall_fmap, Forall_forall|].
  intros Hb. unfold callout_restore. cbn. rewrite s32_id by done.
  replace (zip_with _ _ _) with (cs_bucket cs); [by destruct cs|].
  clear. induction (cs_bucket cs) as [|b l IH]; [done|]. simpl. f_equal; [by destruct b|exact IH].
Qed.

Lemma due_table_xids : Forall (λ b, Forall (λ c, 0 ≤ c_xid c) (b_first b)) (cs_bucket due_table).
Proof. apply (bool_decide_unpack _). vm_compute. exact I. Qed.

Lemma callout_save_moves_nothing_witness :
  (callout_save due_table).1 = due_table ∧
  callout_restore (callout_save due_table).1 (callout_save due_table).2 = due_table.
Proof.
  destruct (callout_save_moves_nothing due_table) as (H1 & _ & H2).
  - exact due_table_xids.
  - split; [exact H1|]. apply H2. vm_compute. split; congruence.
Defined.
