(* ===== verification/Mblk.v ===== *)
(** * STREAMS message blocks ([uts/common/io/stream.c], [sys/stream.h])

    A message is the list of its message blocks in [b_cont] order; a message block
    points into a reference-counted data block of the store.  Pointers into a data
    block are offsets from [db_base].  A data block keeps all its bytes, so that
    duplicates share them and an access outside it is a [Fault], as is one to a
    data block that has been freed. *)

From S2P Require Import Prelude Bytes.

(** ** Data *)

(** The methods a data block can have in [db_lastfree]. *)
Inductive lastfree_method := dblk_lastfree | dblk_lastfree_desb | dblk_lastfree_oversize | freebs_enqueue.

Record dblk := Dblk {
  db_data : list Z;          (* the bytes from db_base to db_lim *)
  db_align : Z;              (* db_base & (sizeof (int) - 1) *)
  db_ref : Z;
  db_type : Z;
  db_flags : Z;
  db_mblk : Z;               (* the attached message block *)
  db_free_decref : bool;     (* db_free is dblk_decref, else it is db_lastfree *)
  db_lastfree : lastfree_method
}.

Record mblk := Mblk {
  b_addr : Z;                (* which structure it is *)
  b_datap : Z;
  b_rptr : Z;
  b_wptr : Z;
  b_band : Z;
  b_flag : Z
}.

(** The allocator: the live data blocks, the next address, whether the coming
    allocations succeed (they fail when the list is used up), and the data blocks
    freed so far, last first. *)
Record store := Store {
  dblks : gmap Z dblk;
  next_addr : Z;
  mem : list bool;
  freed : list (Z * lastfree_method)
}.

Definition M_DATA : Z := 0.
Definition DBLK_REFMIN : Z := 0x01.
Definition DBLK_UNSAFE : Z := 0x10.
Definition DBLK_MAX_CACHE : Z := 12288.
Definition DBLK_ALIGN : Z := 32.
Definition DBLK_ALIGN_SHIFT : Z := 5.

Definition set_dblks m s := Store m (next_addr s) (mem s) (freed s).
Definition set_db_data v d :=
  Dblk v (db_align d) (db_ref d) (db_type d) (db_flags d) (db_mblk d) (db_free_decref d) (db_lastfree d).
Definition set_db_ref v d :=
  Dblk (db_data d) (db_align d) v (db_type d) (db_flags d) (db_mblk d) (db_free_decref d) (db_lastfree d).
Definition set_db_type v d :=
  Dblk (db_data d) (db_align d) (db_ref d) v (db_flags d) (db_mblk d) (db_free_decref d) (db_lastfree d).
Definition set_db_mblk v d :=
  Dblk (db_data d) (db_align d) (db_ref d) (db_type d) (db_flags d) v (db_free_decref d) (db_lastfree d).
Definition set_db_free v d :=
  Dblk (db_data d) (db_align d) (db_ref d) (db_type d) (db_flags d) (db_mblk d) v (db_lastfree d).

Definition set_rptr v mp := Mblk (b_addr mp) (b_datap mp) v (b_wptr mp) (b_band mp) (b_flag mp).
Definition set_wptr v mp := Mblk (b_addr mp) (b_datap mp) (b_rptr mp) v (b_band mp) (b_flag mp).
Definition set_datap v mp := Mblk (b_addr mp) v (b_rptr mp) (b_wptr mp) (b_band mp) (b_flag mp).
Definition set_addr v mp := Mblk v (b_datap mp) (b_rptr mp) (b_wptr mp) (b_band mp) (b_flag mp).
Definition set_band_flag b f mp := Mblk (b_addr mp) (b_datap mp) (b_rptr mp) (b_wptr mp) b f.

Definition get_dblk (s : store) (a : Z) : run dblk :=
  match dblks s !! a with Some d => Ret d | None => Fault end.
Definition upd_dblk (a : Z) (f : dblk → dblk) (s : store) : store := set_dblks (alter f a (dblks s)) s.
Definition b_size (mp : mblk) : Z := b_wptr mp - b_rptr mp.

(** An allocation from a kernel cache: an address, or failure. *)
Definition kmem_alloc (s : store) : option Z * store :=
  match mem s with
  | true :: m => (Some (next_addr s), Store (dblks s) (next_addr s + 1) m (freed s))
  | false :: m => (None, Store (dblks s) (next_addr s) m (freed s))
  | [] => (None, s)
  end.

(** The caches that [mhinit] creates: for each index the size of its objects. *)
Definition dblk_sizes : list Z :=
  [96; 128; 192; 384; 672; 1152; 1632; 2048; 2720; 4096; 8192; DBLK_MAX_CACHE].

(** The inner loop of [mhinit]. *)
Fixpoint mhinit_fill (fuel : nat) (lastsize size : Z) (cache : list Z) : Z * list Z :=
  match fuel with
  | O => (lastsize, cache)
  | S fuel' =>
      if lastsize <=? size then
        mhinit_fill fuel' (lastsize + DBLK_ALIGN) size
          (<[Z.to_nat (Z.shiftr (lastsize - 1) DBLK_ALIGN_SHIFT) := size]> cache)
      else (lastsize, cache)
  end.

Definition mhinit : list Z :=
  (foldl (λ st size, mhinit_fill 400 st.1 size st.2)
     (DBLK_ALIGN, replicate (Z.to_nat (DBLK_MAX_CACHE / DBLK_ALIGN)) 0) dblk_sizes).2.

Definition dblk_cache : list Z := Eval vm_compute in mhinit.

Section Mblk.
(** [sizeof (dblk_t)], and what a fresh buffer, or memory outside a data block, holds. *)
Context (sizeof_dblk : Z) (junk : Z → Z → Z).

(** ** Allocation *)

Definition fresh_bytes (a n : Z) : list Z := (λ i : nat, junk a (Z.of_nat i)) <$> seq 0 (Z.to_nat n).

(** [gesballoc]; [base] is the caller's buffer and [align] its address modulo 4. *)
Definition gesballoc (base : list Z) (align ref flags : Z) (lastfree : lastfree_method) (s : store)
    : option mblk * store :=
  let (p, s) := kmem_alloc s in
  match p with
  | None => (None, s)
  | Some a =>
      let d := Dblk base align ref M_DATA (Z.lor flags (ref - 1)) a false lastfree in
      (Some (Mblk a a 0 0 0 0), set_dblks (<[a := d]> (dblks s)) s)
  end.

Definition esballoc (unsafe : bool) (base : list Z) (align : Z) (s : store) :=
  gesballoc base align 1 (if unsafe then DBLK_UNSAFE else 0) freebs_enqueue s.
Definition desballoc (base : list Z) (align : Z) (s : store) := gesballoc base align 1 0 dblk_lastfree_desb s.
Definition esballoca (base : list Z) (align : Z) (s : store) := gesballoc base align 2 0 freebs_enqueue s.
Definition desballoca (base : list Z) (align : Z) (s : store) := gesballoc base align 2 0 dblk_lastfree_desb s.

Definition allocb_oversize (size : Z) (s : store) : option mblk * store :=
  let size := Z.land (w32 (size + (DBLK_ALIGN - 1))) (w32 (- DBLK_ALIGN)) in
  let (buf, s) := kmem_alloc s in
  match buf with
  | None => (None, s)
  | Some a => gesballoc (fresh_bytes a size) 0 1 0 dblk_lastfree_oversize s
  end.

Definition allocb (size : Z) (s : store) : run (option mblk * store) :=
  let index := Z.shiftr (w32 (sizeof_dblk - 1 + size)) DBLK_ALIGN_SHIFT in
  if Z.shiftr DBLK_MAX_CACHE DBLK_ALIGN_SHIFT <=? index then Ret (allocb_oversize size s)
  else
    let* cache := zget dblk_cache index in
    let (p, s) := kmem_alloc s in
    match p with
    | None => Ret (None, s)
    | Some a =>
        let d := Dblk (fresh_bytes a (cache - sizeof_dblk)) 0 1 M_DATA 0 a false dblk_lastfree in
        Ret (Some (Mblk a a 0 0 0 0), set_dblks (<[a := d]> (dblks s)) s)
    end.

(** The loop of [allocb_tryhard]. *)
Fixpoint tryhard_loop (fuel : nat) (size target_size : Z) (s : store) : run (option mblk * store) :=
  match fuel with
  | O => Ret (None, s)
  | S fuel' =>
      if size <? target_size + 256 then
        let* (bp, s) := allocb size s in
        match bp with
        | Some bp => Ret (Some bp, s)
        | None => tryhard_loop fuel' (size + DBLK_ALIGN) target_size s
        end
      else Ret (None, s)
  end.
Definition allocb_tryhard (target_size : Z) (s : store) := tryhard_loop 9 target_size target_size s.

(** ** Freeing and duplication *)

(** The [db_lastfree] method of a data block, with its [ASSERT]. *)
Definition run_lastfree (mp : mblk) (d : dblk) (s : store) : run store :=
  if db_mblk d =? b_addr mp then
    Ret (Store (delete (b_datap mp) (dblks s)) (next_addr s) (mem s) ((b_datap mp, db_lastfree d) :: freed s))
  else Panic.

Definition dblk_decref (mp : mblk) (d : dblk) (s : store) : run store :=
  if negb (db_ref d =? 1) && negb (db_ref d - 1 =? Z.land (db_flags d) DBLK_REFMIN) then
    Ret (upd_dblk (b_datap mp) (set_db_ref (db_ref d - 1)) s)
  else
    let d := set_db_free false (set_db_mblk (b_addr mp) d) in
    run_lastfree mp d (upd_dblk (b_datap mp) (λ _, d) s).

Definition freeb (mp : mblk) (s : store) : run store :=
  let* d := get_dblk s (b_datap mp) in
  if db_free_decref d then dblk_decref mp d s else run_lastfree mp d s.

Fixpoint freemsg (m : list mblk) (s : store) : run store :=
  match m with
  | [] => Ret s
  | mp :: m => let* s := freeb mp s in freemsg m s
  end.

Definition dupb (mp : mblk) (s : store) : run (option mblk * store) :=
  let* d := get_dblk s (b_datap mp) in
  let (p, s) := kmem_alloc s in
  match p with
  | None => Ret (None, s)
  | Some a =>
      let new_mp := set_addr a mp in
      if negb (db_free_decref d) then
        Ret (Some new_mp, upd_dblk (b_datap mp) (λ d, set_db_free true (set_db_ref (db_ref d + 1) d)) s)
      else if db_ref d =? 255 then Ret (None, s)
      else Ret (Some new_mp, upd_dblk (b_datap mp) (λ d, set_db_ref (db_ref d + 1) d) s)
  end.

(** [dupmsg] and [copymsg] go over the blocks with [dupb] or [copyb]; when that
    fails they free what they have, [done] (last block first). *)
Fixpoint each_block (f : mblk → store → run (option mblk * store)) (done m : list mblk) (s : store)
    : run (option (list mblk) * store) :=
  match m with
  | [] => Ret (Some (rev done), s)
  | mp :: m =>
      let* (nbp, s) := f mp s in
      match nbp with
      | Some nbp => each_block f (nbp :: done) m s
      | None => let* s := freemsg (rev done) s in Ret (None, s)
      end
  end.

Definition dupmsg (m : list mblk) (s : store) : run (option (list mblk) * store) :=
  match m with [] => Ret (None, s) | _ => each_block dupb [] m s end.

(** ** Copying *)

(** [straln] of the address at an offset of a data block. *)
Definition straln (d : dblk) (off : Z) : Z := off + db_align d - (off + db_align d) `mod` 4 - db_align d.
Definition str_aligned (d : dblk) (off : Z) : bool := (off + db_align d) `mod` 4 =? 0.

(** The bytes [strbcpy] reads, also those beside the data block. *)
Definition read_around (a : Z) (d : dblk) (off n : Z) : list Z :=
  (λ i : nat, let o := off + Z.of_nat i in
     if o <? 0 then junk a o else default (junk a o) (db_data d !! Z.to_nat o)) <$> seq 0 (Z.to_nat n).

Definition copyb (bp : mblk) (s : store) : run (option mblk * store) :=
  let* dp := get_dblk s (b_datap bp) in
  let unaligned := db_align dp in
  let* (nbp, s) := allocb (w32 (zlen (db_data dp) + unaligned)) s in
  match nbp with
  | None => Ret (None, s)
  | Some nbp =>
      let nbp := set_band_flag (b_band bp) (b_flag bp) nbp in
      let s := upd_dblk (b_datap nbp) (set_db_type (db_type dp)) s in
      let* ndp := get_dblk s (b_datap nbp) in
      let nbp := set_rptr (b_rptr bp + unaligned) nbp in
      let nbp := set_wptr (b_rptr nbp + b_size bp) nbp in
      let base := straln ndp (b_rptr nbp) in
      let count := straln ndp (b_wptr nbp + 3) - base in
      let* data := put_bytes base (read_around (b_datap bp) dp (straln dp (b_rptr bp)) count) (db_data ndp) in
      Ret (Some nbp, upd_dblk (b_datap nbp) (set_db_data data) s)
  end.

Definition copymsg (m : list mblk) (s : store) : run (option (list mblk) * store) :=
  match m with [] => Ret (None, s) | _ => each_block copyb [] m s end.

(** ** Linking *)

Definition linkb (mp bp : list mblk) : list mblk := mp ++ bp.
Definition unlinkb (m : list mblk) : list mblk * list mblk := (take 1 m, drop 1 m).

(** [rmvb]: the message without the block at address [a]; [None] is the -1. *)
Fixpoint rmvb (m : list mblk) (a : Z) : option (list mblk) :=
  match m with
  | [] => None
  | tmp :: m => if b_addr tmp =? a then Some m else option_map (cons tmp) (rmvb m a)
  end.

(** ** Sizes *)

Fixpoint xmsgsize_loop (s : store) (type count : Z) (m : list mblk) : run Z :=
  match m with
  | [] => Ret count
  | bp :: m =>
      let* d := get_dblk s (b_datap bp) in
      if negb (type =? db_type d) then Ret count
      else xmsgsize_loop s type (w32 (count + b_size bp)) m
  end.

Definition xmsgsize (s : store) (m : list mblk) : run Z :=
  match m with
  | [] => Fault
  | bp :: _ => let* d := get_dblk s (b_datap bp) in xmsgsize_loop s (db_type d) 0 m
  end.

Fixpoint msgdsize_loop (s : store) (count : Z) (m : list mblk) : run Z :=
  match m with
  | [] => Ret count
  | bp :: m =>
      let* d := get_dblk s (b_datap bp) in
      msgdsize_loop s (if db_type d =? M_DATA then w32 (count + b_size bp) else count) m
  end.
Definition msgdsize (s : store) (m : list mblk) : run Z := msgdsize_loop s 0 m.

(** ** Pulling up *)

(** [bcopy] of [n] bytes of [bp] to the end of [mp], which then grows. *)
Definition append_bytes (bp mp : mblk) (n : Z) (s : store) : run (mblk * store) :=
  let* sd := get_dblk s (b_datap bp) in
  let* bs := get_bytes (b_rptr bp) n (db_data sd) in
  let* dd := get_dblk s (b_datap mp) in
  let* data := put_bytes (b_wptr mp) bs (db_data dd) in
  Ret (set_wptr (b_wptr mp + n) mp, upd_dblk (b_datap mp) (set_db_data data) s).

(** The loop of [pullupmsg]: the block pulled up to and the rest of the message. *)
Fixpoint pullup_loop (mp : mblk) (len : Z) (m : list mblk) (s : store) : run (mblk * list mblk * store) :=
  match m with
  | [] => Fault
  | bp :: b_cont =>
      let n := Z.min (b_size bp) len in
      let* (mp, s) := append_bytes bp mp n s in
      let bp := set_rptr (b_rptr bp + n) bp in
      let len := len - n in
      if negb (b_rptr bp =? b_wptr bp) then Ret (mp, bp :: b_cont, s)
      else
        let* s := freeb bp s in
        match b_cont with
        | _ :: _ => if truthy len then pullup_loop mp len b_cont s else Ret (mp, b_cont, s)
        | [] => Ret (mp, [], s)
        end
  end.

Definition pullup_copy (len : Z) (mp : mblk) (cont : list mblk) (s : store)
    : run (bool * list mblk * store) :=
  let* (bp, s) := allocb (w32 len) s in
  match bp with
  | None => Ret (false, mp :: cont, s)
  | Some bp =>
      let dbp := b_datap bp in
      let* md := get_dblk s (b_datap mp) in
      let s := upd_dblk dbp (set_db_type (db_type md)) s in
      let bp := set_addr (b_addr bp) mp in
      let mp := set_datap dbp mp in
      let s := upd_dblk (b_datap mp) (set_db_mblk (b_addr mp)) s in
      let s := upd_dblk (b_datap bp) (set_db_mblk (b_addr bp)) s in
      let mp := set_wptr 0 (set_rptr 0 mp) in
      let* (mp, rest, s) := pullup_loop mp len (bp :: cont) s in
      Ret (true, mp :: rest, s)
  end.

Definition pullupmsg (m : list mblk) (len : Z) (s : store) : run (bool * list mblk * store) :=
  match m with
  | [] => Fault
  | mp :: cont =>
      let* d := get_dblk s (b_datap mp) in
      if len =? -1 then
        if bool_decide (cont = []) && str_aligned d (b_rptr mp) then Ret (true, m, s)
        else let* len := xmsgsize s m in pullup_copy (s32 len) mp cont s
      else
        let first_mblk_len := s32 (b_size mp) in
        if len <=? first_mblk_len then
          if str_aligned d (b_rptr mp) then Ret (true, m, s)
          else pullup_copy first_mblk_len mp cont s
        else
          let* size := xmsgsize s m in
          if size <? w32 len then Ret (false, m, s) else pullup_copy len mp cont s
  end.

(** The loop of [msgpullup]: the new block and the blocks not copied. *)
Fixpoint msgpullup_loop (new_bp : mblk) (len : Z) (m : list mblk) (s : store)
    : run (mblk * list mblk * store) :=
  if 0 <? len then
    match m with
    | [] => Fault
    | mp :: m =>
        let* (new_bp, s) := append_bytes mp new_bp (b_size mp) s in
        msgpullup_loop new_bp (len - b_size mp) m s
    end
  else Ret (new_bp, m, s).

Definition msgpullup (m : list mblk) (len : Z) (s : store) : run (option (list mblk) * store) :=
  let* size := xmsgsize s m in
  let totlen := s32 size in
  if (0 <? len) && (totlen <? len) then Ret (None, s)
  else
    let len := totlen in
    let* (new_bp, s) := allocb (w32 len) s in
    match new_bp, m with
    | None, _ => Ret (None, s)
    | Some _, [] => Fault
    | Some new_bp, mp :: _ =>
        let* md := get_dblk s (b_datap mp) in
        let s := upd_dblk (b_datap new_bp) (set_db_type (db_type md)) s in
        let new_bp := set_band_flag (b_band mp) (b_flag mp) new_bp in
        let* (new_bp, rest, s) := msgpullup_loop new_bp len m s in
        match rest with
        | [] => Ret (Some [new_bp], s)
        | _ :: _ =>
            let* (dup, s) := dupmsg rest s in
            Ret (Some (new_bp :: default [] dup), s)
        end
    end.

(** ** Trimming *)

Fixpoint adj_head (first : bool) (len : Z) (m : list mblk) (s : store) : run (list mblk * store) :=
  if truthy len then
    match m with
    | [] => Fault
    | mp :: b_cont =>
        let n := Z.min (b_size mp) len in
        let mp := set_rptr (b_rptr mp + n) mp in
        let len := len - n in
        if negb first && (b_wptr mp =? b_rptr mp) then
          let* s := freeb mp s in adj_head false len b_cont s
        else let* (m, s) := adj_head false len b_cont s in Ret (mp :: m, s)
    end
  else Ret (m, s).

(** How many blocks at the front have the type. *)
Fixpoint same_type (s : store) (type : Z) (m : list mblk) : run nat :=
  match m with
  | [] => Ret 0%nat
  | bp :: m =>
      let* d := get_dblk s (b_datap bp) in
      if db_type d =? type then let* k := same_type s type m in Ret (S k) else Ret 0%nat
  end.

Fixpoint adj_tail (fuel : nat) (type len : Z) (m : list mblk) (s : store)
    : option (run (list mblk * store)) :=
  if truthy len then
    match fuel with
    | O => None
    | S fuel' =>
        match same_type s type m with
        | Ret O => Some (Ret (m, s))
        | Ret (S k) =>
            match m !! k with
            | None => Some Fault
            | Some save_bp =>
                let n := Z.min (b_size save_bp) len in
                let save_bp := set_wptr (b_wptr save_bp - n) save_bp in
                let len := len - n in
                if negb (k =? 0)%nat && (b_wptr save_bp =? b_rptr save_bp) then
                  match freeb save_bp s with
                  | Ret s => adj_tail fuel' type len (delete k m) s
                  | _ => Some Fault
                  end
                else adj_tail fuel' type len (<[k := save_bp]> m) s
            end
        | _ => Some Fault
        end
    end
  else Some (Ret (m, s)).

Definition adjmsg (fuel : nat) (m : list mblk) (len : Z) (s : store)
    : option (run (bool * list mblk * store)) :=
  let fromhead := negb (len <? 0) in
  let len := if len <? 0 then s32 (- len) else len in
  match m with
  | [] => Some Fault
  | mp :: _ =>
      match xmsgsize s m, get_dblk s (b_datap mp) with
      | Ret size, Ret d =>
          if size <? w32 len then Some (Ret (false, m, s))
          else if fromhead then
            Some (let* (m, s) := adj_head true len m s in Ret (true, m, s))
          else
            match adj_tail fuel (db_type d) len m s with
            | Some r => Some (let* (m, s) := r in Ret (true, m, s))
            | None => None
            end
      | _, _ => Some Fault
      end
  end.
End Mblk.
