(* ===== verification/MblkOps.v ===== *)
(** * Message blocks: no leak, no dangling reference, and content

    The invariant [store_ok] ties the reference counts to the message blocks that
    are in use; every routine of [Mblk] keeps it and leaves the content of all other
    messages alone.  [stream] is the content of a message: its bytes, each with the
    type of its block. *)

From S2P Require Import Prelude Bytes Mblk.

(** ** The invariant *)

Definition refs (a : Z) (L : list mblk) : Z := zlen (filter (λ mp, b_datap mp = a) L).
Definition refmin (d : dblk) : Z := Z.land (db_flags d) DBLK_REFMIN.

Definition in_block (d : dblk) (mp : mblk) : Prop := 0 ≤ b_rptr mp ≤ b_wptr mp ∧ b_wptr mp ≤ zlen (db_data d).

Record dblk_ok (s : store) (L : list mblk) (a : Z) (d : dblk) : Prop := {
  dk_fresh : a < next_addr s;
  dk_used : 0 < refs a L;
  dk_ref : db_ref d = refmin d + refs a L ∧ db_ref d ≤ 255;
  dk_free : db_free_decref d = false →
    refs a L = 1 ∧ ∀ mp, mp ∈ L → b_datap mp = a → db_mblk d = b_addr mp;
  dk_align : 0 ≤ db_align d < 4
}.

(** [L] are all the message blocks in use. *)
Record store_ok (s : store) (L : list mblk) : Prop := {
  so_mblk : ∀ mp, mp ∈ L → ∃ d, dblks s !! b_datap mp = Some d ∧ in_block d mp;
  so_dblk : ∀ a d, dblks s !! a = Some d → dblk_ok s L a d
}.

(** What a message block shows of its data block. *)
Definition obs (d : dblk) : list Z * Z * Z := (db_data d, db_type d, db_align d).
Definition frame (s s' : store) (L : list mblk) : Prop :=
  ∀ mp, mp ∈ L → obs <$> dblks s' !! b_datap mp = obs <$> dblks s !! b_datap mp.

(** The content of a block and of a message. *)
Definition view (s : store) (mp : mblk) : Z * list Z :=
  match dblks s !! b_datap mp with
  | Some d => (db_type d, take (Z.to_nat (b_size mp)) (drop (Z.to_nat (b_rptr mp)) (db_data d)))
  | None => (0, [])
  end.
Definition bytes (s : store) (mp : mblk) : list (Z * Z) := pair (view s mp).1 <$> (view s mp).2.
Definition stream (s : store) (m : list mblk) : list (Z * Z) := m ≫= bytes s.

#[global] Arguments stream : simpl never.
#[global] Arguments bytes : simpl never.

(** ** Generic lemmas *)

Lemma refs_cons a mp L : refs a (mp :: L) = (if decide (b_datap mp = a) then 1 else 0) + refs a L.
Proof. unfold refs. rewrite filter_cons. case_decide; simpl; lia. Qed.

Lemma refs_nonneg a L : 0 ≤ refs a L.
Proof. unfold refs. lia. Qed.

Lemma refs_perm a L L' : L ≡ₚ L' → refs a L = refs a L'.
Proof. intros H. unfold refs. by rewrite H. Qed.

Lemma refs_pos a L mp : mp ∈ L → b_datap mp = a → 0 < refs a L.
Proof. intros (l1 & l2 & ->)%list_elem_of_split <-. unfold refs.
  rewrite filter_app, filter_cons_True, length_app by done. simpl. lia. Qed.

Lemma refs_zero a L : (∀ mp, mp ∈ L → b_datap mp ≠ a) → refs a L = 0.
Proof.
  intros H. unfold refs. destruct (filter _ L) as [|mp l] eqn:E; [done|].
  assert (mp ∈ filter (λ mp, b_datap mp = a) L) as [? ?]%list_elem_of_filter by (rewrite E; left).
  by destruct (H mp).
Qed.

(** The only block that refers to a data block. *)
Lemma refs_sole a mp L : b_datap mp = a → refs a (mp :: L) = 1 → ∀ mp', mp' ∈ L → b_datap mp' ≠ a.
Proof.
  intros Hmp Hr mp' Hin E. rewrite refs_cons, decide_True in Hr by done.
  pose proof (refs_pos a L mp' Hin E). lia.
Qed.

Lemma refmin_bit d : refmin d = 0 ∨ refmin d = 1.
Proof.
  unfold refmin. change DBLK_REFMIN with (Z.ones 1). rewrite Z.land_ones by lia.
  pose proof (Z.mod_pos_bound (db_flags d) (2 ^ 1)). lia.
Qed.

Lemma store_ok_perm s L L' : L ≡ₚ L' → store_ok s L → store_ok s L'.
Proof.
  intros HL [Hm Hd]. split.
  - intros mp Hin. apply Hm. by rewrite HL.
  - intros a d Ha. destruct (Hd a d Ha) as [? Hu Hr Hf ?].
    split; [done|by rewrite <-(refs_perm a _ _ HL)|by rewrite <-(refs_perm a _ _ HL)| |done].
    intros Hfr. destruct (Hf Hfr) as [? Hmb]. rewrite <-(refs_perm a _ _ HL). split; [done|].
    intros mp Hin. apply Hmb. by rewrite HL.
Qed.

Lemma frame_refl s L : frame s s L.
Proof. by intros ??. Qed.

Lemma frame_trans s1 s2 s3 L : frame s1 s2 L → frame s2 s3 L → frame s1 s3 L.
Proof. intros H1 H2 mp Hin. by rewrite H2, H1. Qed.

Lemma frame_sub s s' L L' : frame s s' L → L' ⊆ L → frame s s' L'.
Proof. intros H Hs mp Hin. apply H. by apply Hs. Qed.

Lemma frame_view s s' L mp : frame s s' L → mp ∈ L → view s' mp = view s mp.
Proof.
  intros H Hin. specialize (H mp Hin). unfold view.
  destruct (dblks s' !! b_datap mp) as [d'|], (dblks s !! b_datap mp) as [d|]; simpl in H; try done.
  unfold obs in H. injection H as H1 H2 H3. by rewrite H1, H2.
Qed.

Lemma frame_stream s s' L m : frame s s' L → m ⊆ L → stream s' m = stream s m.
Proof.
  intros H. induction m as [|mp m IH]; [done|]. intros Hs. unfold stream. simpl. f_equal.
  - unfold bytes. rewrite (frame_view s s' L mp H); [done|]. apply Hs. by left.
  - apply IH. intros x Hx. apply Hs. by right.
Qed.

Lemma stream_nil s : stream s [] = [].
Proof. done. Qed.

Lemma stream_cons s mp m : stream s (mp :: m) = bytes s mp ++ stream s m.
Proof. done. Qed.

Lemma view_ok s L mp : store_ok s L → mp ∈ L →
  ∃ d, dblks s !! b_datap mp = Some d ∧ in_block d mp ∧ zlen (bytes s mp) = b_size mp ∧
    view s mp = (db_type d, take (Z.to_nat (b_size mp)) (drop (Z.to_nat (b_rptr mp)) (db_data d))).
Proof.
  intros [Hm _] Hin. destruct (Hm mp Hin) as (d & Hd & Hb). exists d. unfold bytes, view. rewrite Hd.
  split_and!; [done|apply Hb..| |done]. rewrite length_fmap. simpl.
  rewrite length_take, length_drop. destruct Hb. unfold b_size in *. lia.
Qed.

(** A message block moved within its data block. *)
Lemma store_ok_move s mp mp' L : b_datap mp' = b_datap mp → b_addr mp' = b_addr mp →
  store_ok s (mp :: L) → (∀ d, dblks s !! b_datap mp = Some d → in_block d mp') → store_ok s (mp' :: L).
Proof.
  intros Hd Ha [Hm Hk] Hin. split.
  - intros x [->|Hx]%elem_of_cons.
    + destruct (Hm mp) as (d & H & _); [by left|]. exists d. rewrite Hd. split; [done|by apply Hin].
    + apply Hm. by right.
  - intros a d H. destruct (Hk a d H) as [? Hu Hr Hf ?].
    assert (refs a (mp' :: L) = refs a (mp :: L)) as E by by rewrite !refs_cons, Hd.
    split; [done|by rewrite E|by rewrite E| |done].
    intros Hfr. destruct (Hf Hfr) as [? Hmb]. rewrite E. split; [done|].
    intros x [->|Hx]%elem_of_cons Hdx; [rewrite Ha; apply Hmb; [by left|by rewrite <-Hd]|].
    apply Hmb; [by right|done].
Qed.

(** The store after a data block is changed. *)
Lemma upd_dblk_lookup a f s b : dblks (upd_dblk a f s) !! b = if decide (b = a) then f <$> dblks s !! b else dblks s !! b.
Proof.
  unfold upd_dblk. simpl. case_decide as E.
  - subst b. apply lookup_alter_eq.
  - by rewrite lookup_alter_ne by done.
Qed.

Lemma get_dblk_eq s a d : dblks s !! a = Some d → get_dblk s a = Ret d.
Proof. unfold get_dblk. by intros ->. Qed.

(** ** Freeing *)

(** A change of the bookkeeping of one data block. *)
Lemma frame_upd s a f L : (∀ d, dblks s !! a = Some d → obs (f d) = obs d) → frame s (upd_dblk a f s) L.
Proof.
  intros Hf mp _. rewrite upd_dblk_lookup. case_decide as E; [|done].
  subst a. destruct (dblks s !! b_datap mp) as [d|] eqn:Ed; [|done]. simpl. by rewrite Hf.
Qed.

Lemma in_block_obs d d' mp : obs d' = obs d → in_block d mp → in_block d' mp.
Proof. unfold obs, in_block. intros H. injection H as H1 H2 H3. by rewrite H1. Qed.

(** A data block changes, and the blocks in use, as far as they refer to it. *)
Lemma store_ok_upd s a f L L' : store_ok s L →
  (∀ mp, mp ∈ L' → b_datap mp ≠ a → mp ∈ L) → (∀ b, b ≠ a → refs b L' = refs b L) →
  (∀ mp, mp ∈ L' → b_datap mp = a → ∃ d, dblks s !! a = Some d ∧ in_block (f d) mp) →
  (∀ d, dblks s !! a = Some d → dblk_ok s L a d → dblk_ok s L' a (f d)) →
  store_ok (upd_dblk a f s) L'.
Proof.
  intros [Hm Hk] HL Hrefs Hin Hd. split.
  - intros mp Hmp. rewrite upd_dblk_lookup. case_decide as E.
    + destruct (Hin mp Hmp E) as (d & Hda & Hb). rewrite E, Hda. by eexists.
    + by apply Hm, HL.
  - intros b d Hb. rewrite upd_dblk_lookup in Hb. case_decide as E.
    + subst b. destruct (dblks s !! a) as [d0|] eqn:E0; [|done]. injection Hb as <-.
      destruct (Hd d0 eq_refl (Hk a d0 E0)) as [????]. by split.
    + destruct (Hk b d Hb) as [? Hu Hr Hf ?]. rewrite <-Hrefs in Hu, Hr, Hf by done.
      split; [done..| |done]. intros Hfr. destruct (Hf Hfr) as [H1 H2]. split; [done|].
      intros mp Hmp Hda. apply H2; [|done]. apply HL; [done|congruence].
Qed.

(** The last reference goes. *)
Lemma last_free_ok s mp L d : store_ok s (mp :: L) → dblks s !! b_datap mp = Some d → refs (b_datap mp) (mp :: L) = 1 →
  ∃ s', run_lastfree mp (set_db_mblk (b_addr mp) d) s = Ret s' ∧ store_ok s' L ∧ frame s s' L ∧
    dblks s' !! b_datap mp = None ∧ next_addr s' = next_addr s.
Proof.
  intros [Hm Hk] Hd Hr. unfold run_lastfree. simpl. rewrite Z.eqb_refl.
  pose proof (refs_sole (b_datap mp) mp L eq_refl Hr) as Hne.
  eexists. split; [reflexivity|]. split_and!; [|..]; simpl.
  - split; simpl.
    + intros x Hx. destruct (Hm x) as (dx & Hdx & ?); [by right|]. exists dx.
      by rewrite lookup_delete_ne by (apply not_eq_sym; auto).
    + intros a da Ha. apply lookup_delete_Some in Ha as [Hna Ha]. destruct (Hk a da Ha) as [? Hu Hrf Hf ?].
      rewrite refs_cons, decide_False in Hu, Hrf by congruence.
      split; simpl; [done|done|done| |done].
      intros Hfr. destruct (Hf Hfr) as [H1 H2]. rewrite refs_cons, decide_False in H1 by congruence.
      split; [by rewrite Z.add_0_l in H1|]. intros x Hx. apply H2. by right.
  - intros x Hx. simpl. by rewrite lookup_delete_ne by (apply not_eq_sym; auto).
  - apply lookup_delete_eq.
  - done.
Qed.

Lemma set_db_mblk_id d : set_db_mblk (db_mblk d) d = d.
Proof. by destruct d. Qed.

Lemma freeb_ok s mp L : store_ok s (mp :: L) →
  ∃ s', freeb mp s = Ret s' ∧ store_ok s' L ∧ frame s s' L ∧ next_addr s' = next_addr s ∧
    (refs (b_datap mp) L = 0 → dblks s' !! b_datap mp = None).
Proof.
  intros Hok. destruct (so_mblk _ _ Hok mp) as (d & Hd & Hb); [by left|].
  pose proof (so_dblk _ _ Hok _ _ Hd) as Hdk. pose proof Hdk as [Hfr Hu [Hr Hr255] Hf Hal].
  assert (refs (b_datap mp) (mp :: L) = 1 + refs (b_datap mp) L) as Hrc by by rewrite refs_cons, decide_True.
  pose proof (refs_nonneg (b_datap mp) L) as Hnn. pose proof (refmin_bit d) as Hbit.
  unfold freeb. rewrite (get_dblk_eq _ _ _ Hd). cbn [rbind].
  destruct (db_free_decref d) eqn:Efr.
  - unfold dblk_decref. fold (refmin d).
    destruct (negb (db_ref d =? 1) && negb (db_ref d - 1 =? refmin d)) eqn:Ecase.
    + apply andb_prop in Ecase as [E1 E2]. zb.
      eexists. split; [reflexivity|]. split_and!; [|by apply frame_upd|done|intros; lia].
      eapply store_ok_upd; [exact Hok|..].
      * intros x Hx _. by right.
      * intros b Hne. by rewrite refs_cons, decide_False.
      * intros x Hx E. destruct (so_mblk _ _ Hok x) as (dx & Hdx & Hbx); [by right|].
        exists dx. by rewrite E in Hdx.
      * intros d' Hd' _. rewrite Hd in Hd'. injection Hd' as <-.
        split; [done|lia| |simpl; congruence|done].
        change (refmin (set_db_ref _ d)) with (refmin d). simpl. lia.
    + apply andb_false_iff in Ecase. rewrite !negb_false_iff, !Z.eqb_eq in Ecase.
      set (d1 := set_db_free false d). set (s1 := upd_dblk _ _ s).
      assert (dblks s1 !! b_datap mp = Some (set_db_mblk (b_addr mp) d1)) as Hd1.
      { unfold s1. rewrite upd_dblk_lookup, decide_True, Hd by done. done. }
      destruct (last_free_ok s1 mp L (set_db_mblk (b_addr mp) d1)) as (s' & Hs' & Hok' & Hfr' & Hgone & Hn');
        [|done|lia|].
      * eapply store_ok_upd; [exact Hok|done|done| |].
        -- intros x Hx E. destruct (so_mblk _ _ Hok x Hx) as (dx & Hdx & Hbx). exists dx.
           rewrite E in Hdx. split; [done|]. rewrite Hd in Hdx. by injection Hdx as <-.
        -- intros d' Hd' _. split; [done|done|done| |done].
           intros _. split; [lia|]. simpl. intros x [->|Hx]%elem_of_cons Hdx; [done|].
           pose proof (refs_pos _ _ _ Hx Hdx). lia.
      * exists s'. split; [exact Hs'|]. split_and!; [done| |done|done].
        eapply frame_trans; [|exact Hfr']. apply frame_upd. intros d' Hd'. rewrite Hd in Hd'. by injection Hd' as <-.
  - destruct (Hf eq_refl) as [H1 H2].
    destruct (last_free_ok s mp L d Hok Hd H1) as (s' & Hs' & Hok' & Hfr' & Hgone & Hn').
    rewrite <-(H2 mp), set_db_mblk_id in Hs' by (done || by left). by exists s'.
Qed.

Lemma freemsg_ok m : ∀ s L, store_ok s (m ++ L) →
  ∃ s', freemsg m s = Ret s' ∧ store_ok s' L ∧ frame s s' L ∧ next_addr s' = next_addr s ∧
    ∀ mp, mp ∈ m → refs (b_datap mp) L = 0 → dblks s' !! b_datap mp = None.
Proof.
  induction m as [|mp m IH]; intros s L Hok; simpl.
  - exists s. split_and!; [done|done|apply frame_refl|done|]. intros mp Hmp. by apply elem_of_nil in Hmp.
  - destruct (freeb_ok s mp (m ++ L) Hok) as (s1 & -> & Hok1 & Hfr1 & Hn1 & Hg1). cbn [rbind].
    destruct (IH s1 L Hok1) as (s2 & -> & Hok2 & Hfr2 & Hn2 & Hg2).
    exists s2. split_and!; [done|done| |congruence|].
    + eapply frame_trans; [|exact Hfr2]. eapply frame_sub; [exact Hfr1|]. set_solver.
    + intros x Hx Hr. destruct (dblks s2 !! b_datap x) as [d|] eqn:E; [|done].
      pose proof (dk_used _ _ _ _ (so_dblk _ _ Hok2 _ _ E)). lia.
Qed.

(** ** New references *)

Lemma store_ok_mem s L n m : store_ok s L → next_addr s ≤ n →
  store_ok (Store (dblks s) n m (freed s)) L.
Proof.
  intros [Hm Hk] Hn. split; [exact Hm|]. intros a d Hd. destruct (Hk a d Hd) as [????]. split; try done.
  simpl. lia.
Qed.

(** An allocation leaves the data blocks alone. *)
Lemma kmem_alloc_ok s L : store_ok s L →
  ∃ p s', kmem_alloc s = (p, s') ∧ store_ok s' L ∧ dblks s' = dblks s ∧
    match p with
    | Some a => a = next_addr s ∧ next_addr s' = a + 1 ∧ mem s = true :: mem s'
    | None => next_addr s' = next_addr s ∧ head (mem s) ≠ Some true
    end.
Proof.
  intros Hok. unfold kmem_alloc. destruct (mem s) as [|[] m] eqn:E; do 2 eexists; (split; [done|]).
  - done.
  - split_and!; [apply store_ok_mem; [done|lia]|done..].
  - split_and!; [apply store_ok_mem; [done|lia]|done..].
Qed.

(** What [each_block] promises of [dupmsg] and [copymsg] rests on this promise of [dupb]
    and [copyb]: a block with the same content, or nothing. *)
Class BlockCopier (okay : mblk → store → Prop) (f : mblk → store → run (option mblk * store)) : Prop :=
  block_copier : ∀ s L mp, store_ok s L → mp ∈ L → okay mp s →
    ∃ r s', f mp s = Ret (r, s') ∧ frame s s' L ∧
      match r with
      | Some mp' => store_ok s' (mp' :: L) ∧ view s' mp' = view s mp
      | None => store_ok s' L
      end.

#[export] Instance dupb_copier : BlockCopier (λ _ _, True) dupb.
Proof.
  intros s L mp Hok Hin _. unfold dupb. destruct (so_mblk _ _ Hok mp Hin) as (d & Hd & Hb).
  rewrite (get_dblk_eq _ _ _ Hd). cbn [rbind].
  destruct (kmem_alloc_ok s L Hok) as (p & s1 & -> & Hok1 & Hds & Hp).
  destruct p as [a|].
  2:{ do 2 eexists. split; [done|]. split; [|done]. intros x _. by rewrite Hds. }
  rewrite <-Hds in Hd. pose proof (so_dblk _ _ Hok1 _ _ Hd) as Hdk.
  assert (∀ f, (∀ d, obs (f d) = obs d) → dblk_ok s1 (set_addr a mp :: L) (b_datap mp) (f d) →
    frame s (upd_dblk (b_datap mp) f s1) L ∧
    store_ok (upd_dblk (b_datap mp) f s1) (set_addr a mp :: L) ∧
    view (upd_dblk (b_datap mp) f s1) (set_addr a mp) = view s mp) as Hupd.
  { intros f Hf Hdk'. assert (frame s1 (upd_dblk (b_datap mp) f s1) L) as Hfr by by apply frame_upd.
    split_and!.
    - intros x Hx. by rewrite Hfr, Hds.
    - eapply store_ok_upd; [exact Hok1|..].
      + intros x [->|Hx]%elem_of_cons Hne; [done|done].
      + intros b Hne. by rewrite refs_cons, decide_False by (simpl; congruence).
      + intros x Hx E. exists d. split; [done|]. apply (in_block_obs d); [by rewrite Hf|].
        apply elem_of_cons in Hx as [->|Hx]; [done|].
        destruct (so_mblk _ _ Hok1 x Hx) as (dx & Hdx & Hbx). rewrite E, Hd in Hdx. by injection Hdx as <-.
      + intros d' Hd' _. rewrite Hd in Hd'. by injection Hd' as <-.
    - change (view (upd_dblk (b_datap mp) f s1) (set_addr a mp)) with (view (upd_dblk (b_datap mp) f s1) mp).
      rewrite (frame_view _ _ _ _ Hfr Hin). unfold view. by rewrite Hds. }
  destruct Hdk as [Hfresh Hu [Hr H255] Hf Hal].
  assert (refs (b_datap mp) (set_addr a mp :: L) = 1 + refs (b_datap mp) L) as Hrc
    by by rewrite refs_cons, decide_True.
  destruct (db_free_decref d) eqn:Efr; cbn [negb].
  - destruct (Z.eqb_spec (db_ref d) 255) as [E|E].
    + do 2 eexists. split; [done|]. split; [|done]. intros x _. by rewrite Hds.
    + do 2 eexists. split; [done|]. apply Hupd; [done|]. split; [done|lia| |simpl; congruence|done].
      change (refmin (set_db_ref _ d)) with (refmin d). simpl. lia.
  - do 2 eexists. split; [done|]. apply Hupd; [done|]. split; [done|lia| |done|done].
    change (refmin (set_db_free true _)) with (refmin d). destruct (Hf eq_refl) as [H1 _].
    simpl. pose proof (refmin_bit d). lia.
Qed.

Lemma stream_view s s' m m' : view s' <$> m' = view s <$> m → stream s' m' = stream s m.
Proof.
  revert m. induction m' as [|mp' m' IH]; intros [|mp m]; try done. intros H. injection H as H1 H2.
  rewrite !stream_cons, (IH m H2). unfold bytes. by rewrite H1.
Qed.

Lemma views_frame s s' L m : frame s s' L → m ⊆ L → view s' <$> m = view s <$> m.
Proof.
  intros Hfr Hm. apply list_fmap_ext. intros i mp Hi. eapply frame_view; [exact Hfr|].
  by apply Hm, list_elem_of_lookup_2 with i.
Qed.

(** Going over the blocks with a copier. *)
Lemma each_block_ok okay f `{!BlockCopier okay f} m : ∀ s L dn,
  store_ok s (dn ++ L) → m ⊆ L → (∀ s', frame s s' L → ∀ mp, mp ∈ m → okay mp s') →
  ∃ r s', each_block f dn m s = Ret (r, s') ∧
    match r with
    | Some m' => ∃ new, m' = rev dn ++ new ∧ store_ok s' (m' ++ L) ∧ frame s s' (dn ++ L) ∧
        view s' <$> new = view s <$> m
    | None => store_ok s' L ∧ frame s s' L
    end.
Proof.
  induction m as [|mp m IH]; intros s L dn Hok Hm Hokay; simpl.
  - do 2 eexists. split; [done|]. exists []. rewrite app_nil_r.
    split_and!; [done| |apply frame_refl|done]. eapply store_ok_perm; [|exact Hok]. by rewrite <-Permutation_rev.
  - destruct (block_copier (okay := okay) (f := f) s (dn ++ L) mp Hok) as (r & s1 & -> & Hfr1 & H1).
    { apply elem_of_app. right. apply Hm. by left. }
    { apply Hokay; [apply frame_refl|by left]. }
    cbn [rbind]. assert (frame s s1 L) as HfrL by (eapply frame_sub; [exact Hfr1|set_solver]).
    destruct r as [mp'|].
    + destruct H1 as [Hok1 Hv].
      destruct (IH s1 L (mp' :: dn)) as (r & s2 & -> & H2); [done|set_solver| |].
      { intros s' Hs' x Hx. apply Hokay; [by eapply frame_trans|by right]. }
      do 2 eexists. split; [done|]. destruct r as [m'|].
      * destruct H2 as (new & -> & Hok2 & Hfr2 & Hst). exists (mp' :: new).
        assert (rev (mp' :: dn) ++ new = rev dn ++ mp' :: new) as E by (simpl; by rewrite <-app_assoc).
        rewrite E in *. split_and!; [done|done| |].
        -- eapply frame_trans; [exact Hfr1|]. eapply frame_sub; [exact Hfr2|by apply list_subseteq_cons].
        -- rewrite fmap_cons, Hst. apply (f_equal2 cons).
           ++ rewrite <-Hv. eapply frame_view; [exact Hfr2|]. by left.
           ++ eapply views_frame; [exact HfrL|set_solver].
      * destruct H2. split; [done|by eapply frame_trans].
    + destruct (freemsg_ok (rev dn) s1 L) as (s2 & -> & Hok2 & Hfr2 & _).
      { eapply store_ok_perm; [|exact H1]. by rewrite <-Permutation_rev. }
      do 2 eexists. split; [done|]. split; [done|by eapply frame_trans].
Qed.

(** ** Allocation *)

Definition unshared (mp : mblk) (L : list mblk) : Prop := ∀ x, x ∈ L → b_datap x ≠ b_datap mp.

(** A new block with an empty content and room for [size] bytes. *)
Definition fresh_block (s : store) (L : list mblk) (mp : mblk) (size : Z) : Prop :=
  b_rptr mp = 0 ∧ b_wptr mp = 0 ∧ unshared mp L ∧
  ∃ d, dblks s !! b_datap mp = Some d ∧ size ≤ zlen (db_data d) ∧ zlen (db_data d) `mod` 4 = 0 ∧
    db_align d = 0 ∧ db_type d = M_DATA.

Lemma new_dblk_ok s L a d : store_ok s L → dblks s !! a = None → a < next_addr s →
  db_ref d = refmin d + 1 → db_ref d ≤ 255 → db_mblk d = a → 0 ≤ db_align d < 4 →
  let s' := set_dblks (<[a := d]> (dblks s)) s in let mp := Mblk a a 0 0 0 0 in
  store_ok s' (mp :: L) ∧ frame s s' L ∧ unshared mp L.
Proof.
  intros Hok Hnone Ha Hr H255 Hmb Hal s' mp.
  assert (unshared mp L) as Hun.
  { intros x Hx E. destruct (so_mblk _ _ Hok x Hx) as (dx & Hdx & _). simpl in E. congruence. }
  split_and!; [split|..]; unfold s'; simpl.
  - intros x [->|Hx]%elem_of_cons; simpl.
    + exists d. rewrite lookup_insert_eq. split; [done|]. unfold in_block. simpl. lia.
    + destruct (so_mblk _ _ Hok x Hx) as (dx & Hdx & Hb). exists dx.
      by rewrite lookup_insert_ne by (apply not_eq_sym, Hun, Hx).
  - intros b db Hb. apply lookup_insert_Some in Hb as [[<- <-]|[Hne Hb]].
    + assert (refs a (mp :: L) = 1) as Hr1.
      { rewrite refs_cons, decide_True, refs_zero by done. done. }
      split; [done|lia|lia| |done]. intros _. split; [done|].
      intros x [->|Hx]%elem_of_cons E; [done|]. by destruct (Hun x Hx).
    + destruct (so_dblk _ _ Hok b db Hb) as [? Hu Hrf Hf ?].
      assert (refs b (mp :: L) = refs b L) as E by by rewrite refs_cons, decide_False.
      split; [done|by rewrite E|by rewrite E| |done].
      intros Hfr. destruct (Hf Hfr) as [H1 H2]. rewrite E. split; [done|].
      intros x [->|Hx]%elem_of_cons Hdx; [simpl in Hdx; congruence|auto].
  - intros x Hx. simpl. by rewrite lookup_insert_ne by (apply not_eq_sym, Hun, Hx).
  - exact Hun.
Qed.

Lemma next_addr_fresh s L : store_ok s L → dblks s !! next_addr s = None.
Proof.
  intros Hok. destruct (dblks s !! next_addr s) as [d|] eqn:E; [|done].
  pose proof (dk_fresh _ _ _ _ (so_dblk _ _ Hok _ _ E)). lia.
Qed.

Lemma kmem_alloc_fresh s L a s' : store_ok s L → kmem_alloc s = (Some a, s') →
  store_ok s' L ∧ dblks s' = dblks s ∧ dblks s' !! a = None ∧ a < next_addr s'.
Proof.
  intros Hok H. destruct (kmem_alloc_ok s L Hok) as (p & s1 & H1 & Hok1 & Hds & Hp).
  rewrite H in H1. injection H1 as <- <-. destruct Hp as (-> & Hn & _).
  split_and!; [done|done| |lia]. rewrite Hds. by eapply next_addr_fresh.
Qed.

Lemma gesballoc_ok base align ref flags lf s L : store_ok s L → 0 ≤ align < 4 → ref = 1 ∨ ref = 2 →
  flags = 0 ∨ flags = DBLK_UNSAFE →
  ∃ r s', gesballoc base align ref flags lf s = (r, s') ∧ frame s s' L ∧
    match r with
    | None => store_ok s' L ∧ head (mem s) ≠ Some true
    | Some mp => store_ok s' (mp :: L) ∧ b_rptr mp = 0 ∧ b_wptr mp = 0 ∧ unshared mp L ∧
        ∃ d, dblks s' !! b_datap mp = Some d ∧ db_data d = base ∧ db_align d = align ∧ db_type d = M_DATA
    end.
Proof.
  intros Hok Hal Href Hfl. unfold gesballoc.
  destruct (kmem_alloc_ok s L Hok) as (p & s1 & Hk & Hok1 & Hds & Hp). rewrite Hk.
  assert (frame s s1 L) as Hf1 by (intros x _; by rewrite Hds).
  destruct p as [a|]; [|destruct Hp as [_ Hp]; by do 2 eexists].
  destruct (kmem_alloc_fresh _ _ _ _ Hok Hk) as (_ & _ & Hnone & Ha).
  set (d := Dblk _ _ _ _ _ _ _ _).
  destruct (new_dblk_ok s1 L a d Hok1 Hnone Ha) as (Hok2 & Hf2 & Hun); [|simpl; lia|done|done|].
  { by destruct Href as [-> | ->], Hfl as [-> | ->]. }
  do 2 eexists. split; [done|]. split; [by eapply frame_trans|].
  split_and!; [done..|]. exists d. simpl. by rewrite lookup_insert_eq.
Qed.

Lemma dblk_cache_at i : 0 ≤ i < 384 →
  ∃ c, zget dblk_cache i = Ret c ∧ 32 * (i + 1) ≤ c ∧ c `mod` 32 = 0.
Proof.
  intros Hi.
  assert (forallb (λ i : nat, match dblk_cache !! i with
    | Some c => (32 * (Z.of_nat i + 1) <=? c) && (c `mod` 32 =? 0) | None => false end) (seq 0 384) = true)
    as Hall by (vm_compute; reflexivity).
  rewrite forallb_forall in Hall. specialize (Hall (Z.to_nat i)). rewrite in_seq in Hall.
  specialize (Hall ltac:(lia)). destruct (dblk_cache !! Z.to_nat i) as [c|] eqn:Ec; [|done].
  apply andb_prop in Hall as [H1 H2]. zb. rewrite Z2Nat.id in H1 by lia.
  exists c. split; [|done]. apply zget_ok; [lia|done].
Qed.

(** [x & -DBLK_ALIGN] *)
Lemma round_down_32 x : 0 ≤ x < 2 ^ 32 → Z.land x (w32 (- DBLK_ALIGN)) = 32 * (x / 32).
Proof.
  intros Hx. change (w32 (- DBLK_ALIGN)) with (Z.shiftl (Z.ones 27) 5).
  transitivity (Z.shiftl (Z.shiftr x 5) 5).
  - apply Z.bits_inj'. intros m Hm. rewrite Z.land_spec, !Z.shiftl_spec by done.
    destruct (decide (m < 5)) as [Hlt|Hge].
    + rewrite !(Z.testbit_neg_r _ (m - 5)) by lia. apply andb_false_r.
    + rewrite Z.shiftr_spec by lia. replace (m - 5 + 5) with m by lia.
      destruct (decide (m - 5 < 27)); [by rewrite Z.ones_spec_low, andb_true_r by lia|].
      rewrite Z.ones_spec_high, andb_false_r by lia. rewrite <-(Z.mod_small x (2 ^ 32)) by lia.
      symmetry. apply Z.mod_pow2_bits_high. lia.
  - rewrite Z.shiftl_mul_pow2, shiftr_div by lia. change (2 ^ 5) with 32. lia.
Qed.

Lemma read_around_len junk a d off n : 0 ≤ n → zlen (read_around junk a d off n) = n.
Proof. intros. unfold read_around. rewrite length_fmap, length_seq. lia. Qed.

Lemma read_around_slice junk a d off cnt k n : 0 ≤ k → 0 ≤ n → k + n ≤ cnt →
  0 ≤ off + k → off + k + n ≤ zlen (db_data d) →
  slice k n (read_around junk a d off cnt) = slice (off + k) n (db_data d).
Proof.
  intros Hk Hn Hc H0 Hl. unfold slice, read_around. apply list_eq. intros i.
  destruct (decide (i < Z.to_nat n)%nat) as [Hi|Hi].
  - rewrite !lookup_take_lt, !lookup_drop, list_lookup_fmap by done.
    rewrite lookup_seq_lt by lia. simpl.
    rewrite (proj2 (Z.ltb_ge _ 0)) by lia.
    replace (Z.to_nat (off + Z.of_nat (Z.to_nat k + i))) with (Z.to_nat (off + k) + i)%nat by lia.
    destruct (lookup_lt_is_Some_2 (db_data d) (Z.to_nat (off + k) + i)) as [x ->]; [lia|done].
  - by rewrite !lookup_take_ge by lia.
Qed.

Section Sizes.
Context (sizeof_dblk : Z) (junk : Z → Z → Z).
Hypothesis Hsizeof : 0 < sizeof_dblk ≤ 96 ∧ sizeof_dblk `mod` 4 = 0.

Lemma fresh_bytes_len a n : 0 ≤ n → zlen (fresh_bytes junk a n) = n.
Proof. intros. unfold fresh_bytes. rewrite length_fmap, length_seq. lia. Qed.

(** [allocb] gives a new block with room for the size asked for, or nothing. *)
Lemma allocb_ok size s L : store_ok s L → 0 ≤ size < 2 ^ 31 →
  ∃ r s', allocb sizeof_dblk junk size s = Ret (r, s') ∧ frame s s' L ∧
    match r with
    | None => store_ok s' L ∧ take 2 (mem s) ≠ [true; true]
    | Some mp => store_ok s' (mp :: L) ∧ fresh_block s' L mp size
    end.
Proof.
  intros Hok Hsz. destruct Hsizeof as [Hs1 Hs2]. unfold allocb.
  rewrite w32_id by (unfold in_u32; lia). change (Z.shiftr DBLK_MAX_CACHE DBLK_ALIGN_SHIFT) with 384.
  unfold DBLK_ALIGN_SHIFT. rewrite shiftr_div by lia. change (2 ^ 5) with 32.
  set (index := (sizeof_dblk - 1 + size) / 32).
  assert (32 * index ≤ sizeof_dblk - 1 + size < 32 * index + 32) as Hidx
    by (unfold index; Z.to_euclidean_division_equations; lia).
  destruct (Z.leb_spec 384 index) as [Hbig|Hsmall].
  - unfold allocb_oversize. change (DBLK_ALIGN - 1) with 31.
    rewrite (w32_id (size + 31)), round_down_32 by (unfold in_u32; lia).
    set (sz := 32 * ((size + 31) / 32)).
    assert (size ≤ sz ∧ sz `mod` 4 = 0) as [Hle Hm4] by (unfold sz; Z.to_euclidean_division_equations; lia).
    destruct (kmem_alloc_ok s L Hok) as (p & s1 & -> & Hok1 & Hds & Hp).
    assert (frame s s1 L) as Hf1 by (intros x _; by rewrite Hds).
    destruct p as [a|].
    2:{ do 2 eexists. do 3 (split; [done|]). destruct Hp as [_ Hp], (mem s); simpl in *; congruence. }
    destruct (gesballoc_ok (fresh_bytes junk a sz) 0 1 0 dblk_lastfree_oversize s1 L)
      as (r & s2 & -> & Hf2 & H2); [done|lia|by left|by left|].
    do 2 eexists. split; [done|]. split; [by eapply frame_trans|]. destruct r as [mp|].
    2:{ destruct H2 as [? Hno]. split; [done|]. destruct Hp as (_ & _ & ->), (mem s1); simpl in *; congruence. }
    destruct H2 as (? & ? & ? & Hun & d & Hd & Hdat & ? & ?). split; [done|]. split_and!; [done..|].
    exists d. rewrite Hdat, fresh_bytes_len by lia. done.
  - destruct (dblk_cache_at index) as (c & -> & Hc1 & Hc2); [lia|]. cbn [rbind].
    destruct (kmem_alloc_ok s L Hok) as (p & s1 & Hk & Hok1 & Hds & Hp). rewrite Hk.
    assert (frame s s1 L) as Hf1 by (intros x _; by rewrite Hds).
    destruct p as [a|].
    2:{ do 2 eexists. do 3 (split; [done|]). destruct Hp as [_ Hp], (mem s); simpl in *; congruence. }
    destruct (kmem_alloc_fresh _ _ _ _ Hok Hk) as (_ & _ & Hnone & Ha).
    set (d := Dblk _ _ _ _ _ _ _ _).
    destruct (new_dblk_ok s1 L a d Hok1 Hnone Ha) as (Hok2 & Hf2 & Hun); [done|simpl; lia|done|simpl; lia|].
    do 2 eexists. split; [done|]. split; [by eapply frame_trans|]. split; [done|].
    split_and!; [done..|]. exists d. simpl. rewrite lookup_insert_eq, fresh_bytes_len by lia.
    split_and!; [done|lia| |done|done]. Z.to_euclidean_division_equations; lia.
Qed.

(** The data block of a block that is small enough to be copied. *)
Definition copiable (mp : mblk) (s : store) : Prop :=
  ∀ d, dblks s !! b_datap mp = Some d → zlen (db_data d) < 2 ^ 30.

(** A new block changed before anybody shares it. *)
Lemma fresh_upd s mp L f : store_ok s (mp :: L) → unshared mp L →
  (∀ d, refmin (f d) = refmin d ∧ db_ref (f d) = db_ref d ∧ db_free_decref (f d) = db_free_decref d ∧
     db_align (f d) = db_align d ∧ db_mblk (f d) = db_mblk d ∧ zlen (db_data (f d)) = zlen (db_data d)) →
  store_ok (upd_dblk (b_datap mp) f s) (mp :: L) ∧ frame s (upd_dblk (b_datap mp) f s) L.
Proof.
  intros Hok Hun Hf. split.
  - eapply store_ok_upd; [exact Hok|done|done| |].
    + intros x Hx E. destruct (so_mblk _ _ Hok x Hx) as (d & Hd & Hb). exists d. rewrite E in Hd.
      split; [done|]. destruct (Hf d) as (_ & _ & _ & _ & _ & Hl). unfold in_block in *. lia.
    + intros d Hd [? Hu Hr Hfr ?]. destruct (Hf d) as (H1 & H2 & H3 & H4 & H5 & _).
      split; [done|done|by rewrite H1, H2| |by rewrite H4]. rewrite H3, H5. done.
  - intros x Hx. rewrite upd_dblk_lookup, decide_False; [done|]. by apply Hun.
Qed.

#[export] Instance copyb_copier : BlockCopier copiable (copyb sizeof_dblk junk).
Proof.
  intros s L mp Hok Hin Hsz. unfold copyb. destruct (so_mblk _ _ Hok mp Hin) as (d & Hd & [Hb1 Hb2]).
  rewrite (get_dblk_eq _ _ _ Hd). cbn [rbind]. specialize (Hsz d Hd).
  pose proof (dk_align _ _ _ _ (so_dblk _ _ Hok _ _ Hd)) as Hal.
  rewrite w32_id by (unfold in_u32; lia).
  destruct (allocb_ok (zlen (db_data d) + db_align d) s L Hok) as (r & s1 & -> & Hf1 & H1); [lia|]. cbn [rbind].
  destruct r as [nb|]; [|destruct H1; by do 2 eexists].
  destruct H1 as (Hok1 & Hr0 & Hw0 & Hun & nd & Hnd & Hcap & Hm4 & Hal0 & _).
  cbn [set_band_flag set_rptr set_wptr b_datap b_rptr b_wptr].
  set (s2 := upd_dblk (b_datap nb) (set_db_type (db_type d)) s1).
  assert (dblks s2 !! b_datap nb = Some (set_db_type (db_type d) nd)) as Hnd2.
  { unfold s2. by rewrite upd_dblk_lookup, decide_True, Hnd. }
  rewrite (get_dblk_eq _ _ _ Hnd2). cbn [rbind]. set (nd2 := set_db_type _ nd).
  set (rp := b_rptr mp + db_align d). set (wp := rp + b_size mp).
  assert (straln nd2 rp = rp - rp `mod` 4) as -> by (unfold straln; simpl; rewrite Hal0, Z.add_0_r; lia).
  assert (straln nd2 (wp + 3) = wp + 3 - (wp + 3) `mod` 4) as -> by (unfold straln; simpl; rewrite Hal0, Z.add_0_r; lia).
  assert (straln d (b_rptr mp) = b_rptr mp - rp `mod` 4) as -> by (unfold straln; fold rp; unfold rp; lia).
  set (base := rp - rp `mod` 4). set (cnt := wp + 3 - (wp + 3) `mod` 4 - base).
  assert (wp = rp + (b_wptr mp - b_rptr mp)) as Hwp by done.
  assert (0 ≤ base ∧ wp - base ≤ cnt ∧ base + cnt ≤ zlen (db_data nd)) as (Hb0 & Hc & Hend).
  { unfold cnt, base. unfold rp in *. Z.to_euclidean_division_equations; lia. }
  pose proof (Z.mod_pos_bound rp 4 ltac:(lia)) as Hmod.
  change (db_data nd2) with (db_data nd).
  destruct (put_bytes_ok base (read_around junk (b_datap mp) d (b_rptr mp - rp `mod` 4) cnt) (db_data nd))
    as (data & -> & Hlen & _ & Hsl); [done|rewrite read_around_len; lia|]. cbn [rbind].
  rewrite read_around_len in Hsl by lia. set (s3 := upd_dblk (b_datap nb) (set_db_data data) s2).
  destruct (fresh_upd s1 nb L (set_db_type (db_type d)) Hok1 Hun) as [Hok2 Hf2]; [done|]. fold s2 in Hok2, Hf2.
  assert (store_ok s3 (nb :: L) ∧ frame s2 s3 L) as [Hok3 Hf3].
  { split.
    - eapply store_ok_upd; [exact Hok2|done|done| |].
      + intros x [->|Hx]%elem_of_cons E; [|by destruct (Hun x Hx)]. exists nd2. split; [done|].
        unfold in_block. simpl. rewrite Hr0, Hw0. lia.
      + by intros d' Hd' [????].
    - intros x Hx. unfold s3. rewrite upd_dblk_lookup, decide_False; [done|by apply Hun]. }
  do 2 eexists. split; [reflexivity|]. split; [by do 2 (eapply frame_trans; [done|])|].
  assert (dblks s3 !! b_datap nb = Some (set_db_data data nd2)) as Hnd3.
  { unfold s3. by rewrite upd_dblk_lookup, decide_True, Hnd2. }
  split.
  - eapply store_ok_move; [| |exact Hok3|]; [done|done|]. intros d' Hd'. rewrite Hnd3 in Hd'. injection Hd' as <-.
    unfold in_block. simpl. unfold wp, rp, b_size. lia.
  - unfold view at 1. cbn [b_datap set_wptr set_rptr set_band_flag]. rewrite Hnd3. unfold view. rewrite Hd.
    simpl. f_equal. fold (slice (b_rptr mp) (b_size mp) (db_data d)).
    unfold b_size at 1. cbn [b_wptr b_rptr set_wptr set_rptr]. fold (slice rp (wp - rp) data).
    transitivity (slice (base + rp `mod` 4) (b_size mp) data); [f_equal; [unfold base; lia|unfold b_size; rewrite Hwp; lia]|].
    unfold b_size in *. rewrite Hsl, read_around_slice by lia. f_equal. lia.
Qed.
End Sizes.
