(* ===== verification/MblkMsg.v ===== *)
(** * Messages: duplication, copying, pulling up and trimming

    The functional correctness of the message routines of [Mblk] on their
    content, [stream]; that they keep [store_ok] and touch no other message. *)

From S2P Require Import Prelude Bytes Mblk MblkOps.

(** ** Sizes *)

(** The blocks at the front of a message with the type of its first block, and the rest. *)
Fixpoint lead (s : store) (t : Z) (m : list mblk) : list mblk :=
  match m with
  | [] => []
  | mp :: m => if (view s mp).1 =? t then mp :: lead s t m else []
  end.
Definition first_type (s : store) (m : list mblk) : Z := match m with [] => 0 | mp :: _ => (view s mp).1 end.
Definition lead_run (s : store) (m : list mblk) : list mblk := lead s (first_type s m) m.
Definition after_run (s : store) (m : list mblk) : list mblk := drop (length (lead_run s m)) m.

Lemma lead_split s t m : m = lead s t m ++ drop (length (lead s t m)) m.
Proof.
  induction m as [|mp m IH]; [done|]. simpl. destruct ((view s mp).1 =? t); [|done].
  simpl. by f_equal.
Qed.

Lemma lead_type s t m : Forall (λ mp, (view s mp).1 = t) (lead s t m).
Proof. induction m as [|mp m IH]; simpl; [done|]. destruct (Z.eqb_spec (view s mp).1 t); by constructor. Qed.

Lemma lead_after s t m : match drop (length (lead s t m)) m with [] => True | mp :: _ => (view s mp).1 ≠ t end.
Proof. induction m as [|mp m IH]; simpl; [done|]. by destruct (Z.eqb_spec (view s mp).1 t). Qed.

Lemma stream_app s m1 m2 : stream s (m1 ++ m2) = stream s m1 ++ stream s m2.
Proof. apply bind_app. Qed.

Lemma stream_typed s t m : Forall (λ mp, (view s mp).1 = t) m → stream s m = pair t <$> (snd <$> stream s m).
Proof.
  induction 1 as [|mp m Ht _ IH]; [done|]. rewrite stream_cons, !fmap_app, <-IH. f_equal.
  unfold bytes. rewrite Ht, <-!list_fmap_compose. done.
Qed.

Lemma size_nonneg s mp L : store_ok s L → mp ∈ L → 0 ≤ b_size mp ∧ zlen (bytes s mp) = b_size mp.
Proof. intros Hok Hin. destruct (view_ok s L mp Hok Hin) as (d & Hd & [] & ? & _). unfold b_size in *. lia. Qed.

Lemma size_s32 (z : Z) : 0 ≤ z < 2 ^ 31 → w32 z = z ∧ s32 z = z.
Proof. intros. rewrite w32_id, s32_id by (unfold in_u32, in_s32; lia). done. Qed.

Lemma xmsgsize_loop_ok s L t m : ∀ count, store_ok s L → m ⊆ L → 0 ≤ count →
  count + zlen (stream s m) < 2 ^ 32 →
  xmsgsize_loop s t count m = Ret (count + zlen (stream s (lead s t m))).
Proof.
  induction m as [|mp m IH]; intros count Hok Hm Hc Hlt; simpl; [by rewrite Z.add_0_r|].
  destruct (view_ok s L mp Hok) as (d & Hd & [Hb1 Hb2] & Hsz & Hv); [apply Hm; by left|].
  rewrite (get_dblk_eq _ _ _ Hd). cbn [rbind]. rewrite Hv. simpl. rewrite (Z.eqb_sym (db_type d)).
  destruct (t =? db_type d); simpl; [|by rewrite Z.add_0_r].
  rewrite stream_cons, length_app in Hlt |- *. unfold b_size in *.
  rewrite w32_id by (unfold in_u32; lia). rewrite IH; [f_equal; lia|done| |lia|lia].
  intros x Hx. apply Hm. by right.
Qed.

Lemma xmsgsize_ok s L m : store_ok s L → m ⊆ L → m ≠ [] → zlen (stream s m) < 2 ^ 32 →
  xmsgsize s m = Ret (zlen (stream s (lead_run s m))).
Proof.
  intros Hok Hm Hne Hlt. destruct m as [|mp m]; [done|]. unfold xmsgsize, lead_run, first_type.
  destruct (view_ok s L mp Hok) as (d & Hd & _ & _ & Hv); [apply Hm; by left|].
  rewrite (get_dblk_eq _ _ _ Hd). cbn [rbind]. rewrite Hv. cbn [fst].
  rewrite (xmsgsize_loop_ok s L) by (done || lia). by rewrite Z.add_0_l.
Qed.

Lemma lead_run_split s m : m = lead_run s m ++ after_run s m.
Proof. apply lead_split. Qed.

Lemma lead_run_le s m : zlen (stream s (lead_run s m)) ≤ zlen (stream s m).
Proof. rewrite (lead_run_split s m) at 2. rewrite stream_app, length_app. lia. Qed.

(** ** Appending to a new block *)

Lemma append_bytes_ok s bp mp n L d : store_ok s (mp :: L) → unshared mp L → bp ∈ L → 0 ≤ n ≤ b_size bp →
  dblks s !! b_datap mp = Some d → b_wptr mp + n ≤ zlen (db_data d) →
  ∃ s' d', append_bytes bp mp n s = Ret (set_wptr (b_wptr mp + n) mp, s') ∧
    store_ok s' (set_wptr (b_wptr mp + n) mp :: L) ∧ frame s s' L ∧
    view s' (set_wptr (b_wptr mp + n) mp) = ((view s mp).1, (view s mp).2 ++ take (Z.to_nat n) (view s bp).2) ∧
    dblks s' !! b_datap mp = Some d' ∧ zlen (db_data d') = zlen (db_data d) ∧ db_align d' = db_align d.
Proof.
  intros Hok Hun Hbp Hn Hd Hcap. unfold append_bytes.
  destruct (view_ok s (mp :: L) bp Hok) as (sd & Hsd & [Hb1 Hb2] & _ & Hvb); [by right|].
  destruct (view_ok s (mp :: L) mp Hok) as (d0 & Hd0 & [Hm1 Hm2] & _ & Hvm); [by left|].
  rewrite Hd in Hd0. injection Hd0 as <-. unfold b_size in Hn.
  rewrite (get_dblk_eq _ _ _ Hsd), (get_dblk_eq _ _ _ Hd). cbn [rbind].
  unfold get_bytes. rewrite (proj2 (Z.leb_le 0 _)), (proj2 (Z.leb_le _ (zlen (db_data sd)))) by lia.
  cbn [andb rbind]. fold (slice (b_rptr bp) n (db_data sd)). set (bs := slice _ _ _).
  assert (zlen bs = n) as Hbs by (unfold bs, slice; rewrite length_take, length_drop; lia).
  destruct (put_bytes_ok (b_wptr mp) bs (db_data d)) as (data & -> & Hlen & Hold & Hnew); [lia|lia|].
  cbn [rbind]. do 2 eexists. split; [reflexivity|].
  assert (∀ x, x ∈ L → b_datap x ≠ b_datap mp) as Hne by done.
  split_and!.
  - eapply (store_ok_move _ mp); [done|done| |].
    + eapply store_ok_upd; [exact Hok|done|done| |by intros ? _ []].
      intros x [->|Hx]%elem_of_cons E; [|by destruct (Hne x Hx)]. exists d. split; [done|].
      unfold in_block. simpl. lia.
    + intros d' Hd'. rewrite upd_dblk_lookup, decide_True, Hd in Hd' by done. injection Hd' as <-.
      unfold in_block. simpl. lia.
  - intros x Hx. by rewrite upd_dblk_lookup, decide_False by auto.
  - rewrite Hvm, Hvb. cbn [fst snd]. unfold view. cbn [b_datap set_wptr].
    rewrite upd_dblk_lookup, decide_True, Hd by done. simpl. f_equal. unfold b_size. simpl.
    fold (slice (b_rptr mp) (b_wptr mp + n - b_rptr mp) data).
    fold (slice (b_rptr mp) (b_wptr mp - b_rptr mp) (db_data d)).
    replace (b_wptr mp + n - b_rptr mp) with ((b_wptr mp - b_rptr mp) + n) by lia.
    rewrite slice_split, Hold by lia. f_equal.
    replace (b_rptr mp + (b_wptr mp - b_rptr mp)) with (b_wptr mp + 0) by lia.
    rewrite Hnew by lia. rewrite take_take. unfold slice at 1. simpl. rewrite drop_0, take_ge by lia.
    unfold bs, slice. f_equal. lia.
  - rewrite upd_dblk_lookup, decide_True, Hd by done. reflexivity.
  - done.
  - done.
Qed.

(** ** Pulling up *)

Lemma view_move s mp mp' d : dblks s !! b_datap mp = Some d → b_datap mp' = b_datap mp →
  view s mp' = (db_type d, slice (b_rptr mp') (b_size mp') (db_data d)).
Proof. intros Hd E. unfold view. by rewrite E, Hd. Qed.

(** A block whose first [n] bytes are dropped. *)
Lemma drop_bytes s L mp n : store_ok s (mp :: L) → 0 ≤ n ≤ b_size mp →
  store_ok s (set_rptr (b_rptr mp + n) mp :: L) ∧
  bytes s (set_rptr (b_rptr mp + n) mp) = drop (Z.to_nat n) (bytes s mp).
Proof.
  intros Hok Hn. destruct (view_ok s _ mp Hok) as (d & Hd & [Hb1 Hb2] & _ & Hv); [by left|].
  unfold b_size in Hn. split.
  - eapply store_ok_move; [| |exact Hok|]; [done|done|]. intros d' Hd'. rewrite Hd in Hd'. injection Hd' as <-.
    unfold in_block. simpl. lia.
  - unfold bytes. rewrite Hv, (view_move s mp _ d Hd) by done. cbn [fst snd]. rewrite <-fmap_drop. f_equal.
    fold (slice (b_rptr mp) (b_size mp) (db_data d)). unfold slice, b_size. simpl.
    rewrite skipn_firstn_comm, drop_drop. do 2 f_equal; lia.
Qed.

(** A block whose last [n] bytes are dropped. *)
Lemma chop_bytes s L mp n : store_ok s (mp :: L) → 0 ≤ n ≤ b_size mp →
  store_ok s (set_wptr (b_wptr mp - n) mp :: L) ∧
  bytes s (set_wptr (b_wptr mp - n) mp) = take (Z.to_nat (b_size mp - n)) (bytes s mp).
Proof.
  intros Hok Hn. destruct (view_ok s _ mp Hok) as (d & Hd & [Hb1 Hb2] & _ & Hv); [by left|].
  unfold b_size in Hn. split.
  - eapply store_ok_move; [| |exact Hok|]; [done|done|]. intros d' Hd'. rewrite Hd in Hd'. injection Hd' as <-.
    unfold in_block. simpl. lia.
  - unfold bytes. rewrite Hv, (view_move s mp _ d Hd) by done. cbn [fst snd]. rewrite <-fmap_take. f_equal.
    fold (slice (b_rptr mp) (b_size mp) (db_data d)). unfold slice, b_size. simpl.
    rewrite take_take. f_equal; lia.
Qed.

Lemma bytes_nil s mp : b_size mp ≤ 0 → bytes s mp = [].
Proof. intros H. unfold bytes, view. destruct (dblks s !! b_datap mp); [|done]. simpl. by replace (Z.to_nat (b_size mp)) with 0%nat by lia. Qed.

Lemma frame_bytes s s' L mp : frame s s' L → mp ∈ L → bytes s' mp = bytes s mp.
Proof. intros Hf Hin. unfold bytes. by rewrite (frame_view s s' L mp). Qed.

Lemma fmap_snd_view s mp : snd <$> bytes s mp = (view s mp).2.
Proof. unfold bytes. rewrite <-list_fmap_compose. apply list_fmap_id. Qed.

Lemma pullup_loop_ok m : ∀ s L mp len d, m ≠ [] → store_ok s (mp :: m ++ L) → unshared mp (m ++ L) →
  0 ≤ len ≤ zlen (stream s m) → dblks s !! b_datap mp = Some d → b_wptr mp + len ≤ zlen (db_data d) →
  ∃ rest s' d', pullup_loop mp len m s = Ret (set_wptr (b_wptr mp + len) mp, rest, s') ∧
    store_ok s' (set_wptr (b_wptr mp + len) mp :: rest ++ L) ∧ frame s s' L ∧
    view s' (set_wptr (b_wptr mp + len) mp) =
      ((view s mp).1, (view s mp).2 ++ (snd <$> take (Z.to_nat len) (stream s m))) ∧
    stream s' rest = drop (Z.to_nat len) (stream s m) ∧
    dblks s' !! b_datap mp = Some d' ∧ db_align d' = db_align d.
Proof.
  induction m as [|bp m IH]; intros s L mp len d Hne Hok Hun Hlen Hd Hcap; [done|].
  destruct (size_nonneg s bp (mp :: (bp :: m) ++ L) Hok) as [Hsz Hzl]; [set_solver|].
  rewrite stream_cons, length_app in Hlen. cbn [pullup_loop]. set (n := Z.min (b_size bp) len).
  destruct (append_bytes_ok s bp mp n ((bp :: m) ++ L) d Hok Hun) as (s1 & d1 & -> & Hok1 & Hf1 & Hv1 & Hd1 & Hl1 & Ha1);
    [by left|lia|done|lia|]. cbn [rbind].
  set (mp1 := set_wptr (b_wptr mp + n) mp) in *.
  destruct (drop_bytes s1 (mp1 :: m ++ L) bp n) as [Hok2 Hb2]; [|lia|].
  { eapply store_ok_perm; [|exact Hok1]. simpl. apply Permutation_swap. }
  set (bp1 := set_rptr (b_rptr bp + n) bp) in *.
  assert (bytes s1 bp = bytes s bp) as Ebp by (eapply frame_bytes; [exact Hf1|by left]).
  assert (stream s1 m = stream s m) as Em by (eapply frame_stream; [exact Hf1|intros x Hx; right; apply elem_of_app; by left]).
  assert (take (Z.to_nat n) (view s bp).2 = snd <$> take (Z.to_nat n) (bytes s bp)) as Etk
    by by rewrite fmap_take, fmap_snd_view.
  rewrite stream_cons.
  destruct (Z.eqb_spec (b_rptr bp1) (b_wptr bp1)) as [E|E]; cbn [negb].
  - (* the block is used up *)
    assert (n = b_size bp) as En by (unfold bp1, b_size in *; simpl in E; lia).
    assert (take (Z.to_nat len) (bytes s bp ++ stream s m) =
            bytes s bp ++ take (Z.to_nat (len - n)) (stream s m)) as Etake.
    { rewrite take_app_ge by lia. do 2 f_equal. lia. }
    assert (drop (Z.to_nat len) (bytes s bp ++ stream s m) = drop (Z.to_nat (len - n)) (stream s m)) as Edrop.
    { rewrite drop_app_ge by lia. f_equal. lia. }
    rewrite Etake, Edrop. rewrite Etk, (take_ge (bytes s bp)) in Hv1 by lia.
    destruct (freeb_ok s1 bp1 (mp1 :: m ++ L) Hok2) as (s2 & -> & Hok3 & Hf3 & _). cbn [rbind].
    assert (frame s s2 L) as Hf13.
    { eapply frame_trans; [|eapply frame_sub; [exact Hf3|set_solver]]. eapply frame_sub; [exact Hf1|set_solver]. }
    assert (view s2 mp1 = view s1 mp1) as Ev2 by (eapply frame_view; [exact Hf3|by left]).
    assert (stream s2 m = stream s m) as Em2.
    { rewrite <-Em. eapply frame_stream; [exact Hf3|]. intros x Hx. right. apply elem_of_app. by left. }
    pose proof (Hf3 mp1 ltac:(by left)) as Hobs. change (b_datap mp1) with (b_datap mp) in Hobs.
    rewrite Hd1 in Hobs. destruct (dblks s2 !! b_datap mp) as [d2|] eqn:Hd2; [|done].
    injection Hobs as Hdat2 _ Hal2.
    destruct m as [|bq m]; [|destruct (truthy (len - n)) eqn:Et].
    + exists [], s2, d2. replace (b_wptr mp + len) with (b_wptr mp + n) by (simpl in Hlen; lia). fold mp1.
      split_and!; [done|done|done| | |done|congruence].
      * rewrite Ev2, Hv1. by rewrite stream_nil, take_nil, app_nil_r.
      * by rewrite !stream_nil, drop_nil.
    + destruct (IH s2 L mp1 (len - n) d2) as (rest & s3 & d3 & -> & Hok4 & Hf4 & Hv4 & Hs4 & Hd4 & Ha4);
        [done|done|intros x Hx; apply Hun; by right|rewrite Em2; lia|done|rewrite Hdat2; simpl; lia|].
      exists rest, s3, d3. replace (set_wptr (b_wptr mp1 + (len - n)) mp1) with (set_wptr (b_wptr mp + len) mp) in *
        by (unfold mp1, set_wptr; simpl; f_equal; lia).
      split_and!; [done|done|by eapply frame_trans| | |done|congruence].
      * rewrite Hv4, Ev2, Hv1, Em2. simpl. by rewrite fmap_app, <-app_assoc.
      * by rewrite Hs4, Em2.
    + apply truthy_false in Et. exists (bq :: m), s2, d2.
      replace (b_wptr mp + len) with (b_wptr mp + n) by lia. fold mp1. rewrite Et.
      split_and!; [done|done|done| |by rewrite Em2|done|congruence].
      rewrite Ev2, Hv1. by rewrite app_nil_r.
  - (* part of the block is left *)
    assert (n = len) as En by (unfold bp1, b_size in *; simpl in E; lia).
    exists (bp1 :: m), s1, d1. unfold mp1. rewrite <-En. fold mp1.
    rewrite !take_app_le, !drop_app_le by lia.
    split_and!; [done| |eapply frame_sub; [exact Hf1|set_solver]|by rewrite Hv1, Etk| |done|done].
    + eapply store_ok_perm; [|exact Hok2]. simpl. apply Permutation_swap.
    + by rewrite stream_cons, Hb2, Ebp, Em.
Qed.

(** A block taken over by another header. *)
Lemma store_ok_readdr s mp mp' L : store_ok s (mp :: L) → b_datap mp' = b_datap mp →
  (∀ d, dblks s !! b_datap mp = Some d → in_block d mp') →
  store_ok (upd_dblk (b_datap mp) (set_db_mblk (b_addr mp')) s) (mp' :: L).
Proof.
  intros Hok Hda Hin. destruct (so_mblk _ _ Hok mp) as (d & Hd & Hb); [by left|].
  eapply store_ok_upd; [exact Hok|..].
  - intros x [->|Hx]%elem_of_cons Hne; [by rewrite Hda in Hne|by right].
  - intros b Hne. by rewrite !refs_cons, Hda.
  - intros x Hx E. exists d. split; [done|]. apply (in_block_obs d); [done|].
    apply elem_of_cons in Hx as [->|Hx]; [by apply Hin|].
    destruct (so_mblk _ _ Hok x) as (dx & Hdx & Hbx); [by right|]. rewrite E, Hd in Hdx. by injection Hdx as <-.
  - intros d0 Hd0 [? Hu Hr Hf ?].
    assert (refs (b_datap mp) (mp' :: L) = refs (b_datap mp) (mp :: L)) as E by by rewrite !refs_cons, Hda.
    split; [done|by rewrite E|by rewrite E| |done]. intros Hfr. destruct (Hf Hfr) as [H1 _]. rewrite E.
    split; [done|]. intros x [->|Hx]%elem_of_cons Hdx; [done|].
    by destruct (refs_sole (b_datap mp) mp L eq_refl H1 x Hx).
Qed.

(** ** Duplicates, copies, freeing *)

(** C22: [freemsg] and the reference counts: freeing a message never pulls a data block from
    under another one.  A data block goes, and its free routine runs, exactly when no block in use refers
    to it any more; no data block is ever left behind without a block that refers to it. *)
Theorem freemsg_correct s L m : store_ok s (m ++ L) →
  ∃ s', freemsg m s = Ret s' ∧ store_ok s' L ∧ frame s s' L ∧
    (∀ mp, mp ∈ m → dblks s' !! b_datap mp = None ↔ ∀ x, x ∈ L → b_datap x ≠ b_datap mp).
Proof.
  intros Hok. destruct (freemsg_ok m s L Hok) as (s' & Hs' & Hok' & Hfr & _ & Hgone).
  exists s'. split_and!; [done..|]. intros mp Hmp. split.
  - intros Hnone x Hx E. destruct (so_mblk _ _ Hok' x Hx) as (d & Hd & _). congruence.
  - intros Hno. apply Hgone; [done|]. by apply refs_zero.
Qed.

(** [dupmsg] gives a second message on the same data blocks with the same content,
    whatever is done with either of them later; when an allocation fails or a reference count is
    exhausted it gives back all it took. *)
Theorem dupmsg_correct s L m : store_ok s (m ++ L) → m ≠ [] →
  ∃ r s', dupmsg m s = Ret (r, s') ∧ frame s s' (m ++ L) ∧
    match r with
    | Some m' => store_ok s' (m' ++ m ++ L) ∧ stream s' m' = stream s m
    | None => store_ok s' (m ++ L)
    end.
Proof.
  intros Hok Hne. unfold dupmsg. destruct m as [|mp0 m0]; [done|]. set (m := mp0 :: m0) in *.
  destruct (each_block_ok (λ _ _, True) dupb m s (m ++ L) []) as (r & s' & -> & Hr); [done|set_solver|done|].
  do 2 eexists. split; [done|]. destruct r as [m'|]; [|by destruct Hr].
  destruct Hr as (new & -> & Hok' & Hfr & Hv). split_and!; [done|done|]. simpl. by apply stream_view.
Qed.

Section Messages.
Context (sizeof_dblk : Z) (junk : Z → Z → Z).
Hypothesis Hsizeof : 0 < sizeof_dblk ≤ 96 ∧ sizeof_dblk `mod` 4 = 0.

Lemma pullup_copy_ok s L mp cont len : store_ok s (mp :: cont ++ L) →
  0 ≤ len ≤ zlen (stream s (mp :: cont)) → len < 2 ^ 31 →
  ∃ ok m' s', pullup_copy sizeof_dblk junk len mp cont s = Ret (ok, m', s') ∧
    store_ok s' (m' ++ L) ∧ frame s s' L ∧
    if (ok : bool) then ∃ mp' rest d', m' = mp' :: rest ∧ b_addr mp' = b_addr mp ∧ b_rptr mp' = 0 ∧
      dblks s' !! b_datap mp' = Some d' ∧ db_align d' = 0 ∧
      view s' mp' = ((view s mp).1, snd <$> take (Z.to_nat len) (stream s (mp :: cont))) ∧
      stream s' rest = drop (Z.to_nat len) (stream s (mp :: cont))
    else m' = mp :: cont ∧ stream s' m' = stream s m' ∧ take 2 (mem s) ≠ [true; true].
Proof.
  intros Hok Hlen Hlt. unfold pullup_copy. rewrite w32_id by (unfold in_u32; lia).
  destruct (allocb_ok sizeof_dblk junk Hsizeof len s _ Hok) as (r & s1 & -> & Hf1 & H1); [lia|]. cbn [rbind].
  destruct r as [nb|].
  2:{ destruct H1. do 3 eexists. split; [reflexivity|]. split; [done|].
      split; [eapply frame_sub; [exact Hf1|set_solver]|]. split_and!; [done| |done].
      eapply frame_stream; [exact Hf1|set_solver]. }
  destruct H1 as (Hok1 & Hr0 & Hw0 & Hun & nd & Hnd & Hcap & _ & Hal0 & _).
  destruct (so_mblk _ _ Hok mp) as (d & Hd & Hb); [by left|].
  assert (dblks s1 !! b_datap mp ≠ None) as Hd1.
  { pose proof (Hf1 mp ltac:(by left)) as Ho. rewrite Hd in Ho. intros E. by rewrite E in Ho. }
  destruct (dblks s1 !! b_datap mp) as [d1|] eqn:Ed1; [|done]. clear Hd1.
  rewrite (get_dblk_eq _ _ _ Ed1). cbn [rbind].
  destruct (fresh_upd s1 nb _ (set_db_type (db_type d1)) Hok1 Hun) as [Hok2 Hf2]; [done|].
  set (s2 := upd_dblk _ _ s1) in *. cbn [b_datap set_datap set_addr b_addr].
  set (mp2 := set_wptr 0 (set_rptr 0 (set_datap (b_datap nb) mp))).
  set (bp2 := set_addr (b_addr nb) mp).
  set (s3 := upd_dblk (b_datap nb) (set_db_mblk (b_addr mp)) s2).
  set (s4 := upd_dblk (b_datap mp) (set_db_mblk (b_addr nb)) s3).
  assert (store_ok s3 (mp2 :: mp :: cont ++ L)) as Hok3.
  { apply (store_ok_readdr s2 nb mp2); [exact Hok2|done|]. intros d' _. unfold in_block. simpl. lia. }
  assert (store_ok s4 (mp2 :: bp2 :: cont ++ L)) as Hok4.
  { eapply store_ok_perm; [apply Permutation_swap|]. apply (store_ok_readdr s3 mp bp2); [|done|].
    - eapply store_ok_perm; [apply Permutation_swap|exact Hok3].
    - intros d' Hd'. destruct (so_mblk _ _ Hok3 mp) as (d'' & Hd'' & Hb'').
      { right. left. }
      rewrite Hd' in Hd''. by injection Hd'' as <-. }
  assert (frame s s4 (mp :: cont ++ L)) as Hf4.
  { eapply frame_trans; [exact Hf1|]. eapply frame_trans; [exact Hf2|].
    apply (frame_trans _ s3); by apply frame_upd. }
  assert (view s4 bp2 = view s4 mp) as Evb by done.
  assert (stream s4 (bp2 :: cont) = stream s (mp :: cont)) as Est.
  { transitivity (stream s4 (mp :: cont)); [|eapply frame_stream; [exact Hf4|set_solver]].
    rewrite !stream_cons. f_equal. }
  assert (b_datap nb ≠ b_datap mp) as Hne by (apply not_eq_sym, Hun; by left).
  assert (dblks s4 !! b_datap nb = Some (set_db_mblk (b_addr mp) (set_db_type (db_type d1) nd))) as Hnd4.
  { unfold s4, s3, s2. rewrite upd_dblk_lookup, decide_False by done.
    rewrite upd_dblk_lookup, decide_True by done. by rewrite upd_dblk_lookup, decide_True, Hnd. }
  destruct (pullup_loop_ok (bp2 :: cont) s4 L mp2 len (set_db_mblk (b_addr mp) (set_db_type (db_type d1) nd)))
    as (rest & s5 & d5 & -> & Hok5 & Hf5 & Hv5 & Hs5 & Hd5 & Ha5); [done|exact Hok4| |by rewrite Est|exact Hnd4|simpl; lia|].
  { intros x [->|Hx]%elem_of_cons; [by apply not_eq_sym|]. apply Hun. by right. }
  cbn [rbind]. do 3 eexists. split; [reflexivity|]. split; [exact Hok5|].
  split; [eapply frame_trans; [eapply frame_sub; [exact Hf4|set_solver]|exact Hf5]|].
  do 3 eexists. split; [reflexivity|]. split_and!; [done|done|exact Hd5|by rewrite Ha5| |by rewrite Hs5, Est].
  rewrite Hv5, Est. f_equal.
  - rewrite <-(frame_view s s1 _ mp Hf1) by by left. unfold view at 1. unfold mp2.
    cbn [b_datap set_wptr set_rptr set_datap]. rewrite Hnd4. unfold view. by rewrite Ed1.
  - assert ((view s4 mp2).2 = []) as ->; [|done]. unfold view.
    destruct (dblks s4 !! b_datap mp2); done.
Qed.

(** The part of a message that a routine for a given length works on. *)
Lemma take_lead s m len : len ≤ zlen (stream s (lead_run s m)) →
  pair (first_type s m) <$> (snd <$> take (Z.to_nat len) (stream s m)) = take (Z.to_nat len) (stream s m).
Proof.
  intros Hlen. assert (take (Z.to_nat len) (stream s m) = take (Z.to_nat len) (stream s (lead_run s m))) as ->.
  { rewrite (lead_run_split s m) at 1. rewrite stream_app. apply take_app_le. lia. }
  rewrite !fmap_take. f_equal. symmetry. apply stream_typed, lead_type.
Qed.

(** C23: [pullupmsg] keeps the content of the message, byte for byte and type for type, and
    touches no other message; afterwards its first block, the same one, starts at an aligned address and
    holds the bytes asked for (all of the first type for -1).  It refuses, and changes nothing, when the
    bytes of the first type are too few or an allocation fails. *)
Theorem pullupmsg_correct s L m len : store_ok s (m ++ L) → m ≠ [] →
  zlen (stream s m) < 2 ^ 31 → in_s32 len →
  let want := if len =? -1 then zlen (stream s (lead_run s m)) else len in
  ∃ ok m' s', pullupmsg sizeof_dblk junk m len s = Ret (ok, m', s') ∧
    store_ok s' (m' ++ L) ∧ frame s s' L ∧ stream s' m' = stream s m ∧
    b_addr <$> head m' = b_addr <$> head m ∧
    if (ok : bool) then ∃ mp' rest d', m' = mp' :: rest ∧ want ≤ b_size mp' ∧
      dblks s' !! b_datap mp' = Some d' ∧ str_aligned d' (b_rptr mp') = true
    else m' = m ∧ (zlen (stream s (lead_run s m)) < want ∨ take 2 (mem s) ≠ [true; true]).
Proof.
  intros Hok Hne Hbig Hlen want. destruct m as [|mp cont]; [done|]. unfold pullupmsg.
  destruct (view_ok s _ mp Hok) as (d & Hd & [Hb1 Hb2] & Hszb & Hv); [by left|].
  rewrite (get_dblk_eq _ _ _ Hd). cbn [rbind].
  pose proof (lead_run_le s (mp :: cont)) as Hle.
  assert (b_size mp ≤ zlen (stream s (lead_run s (mp :: cont)))) as Hfirst.
  { unfold lead_run, first_type. simpl. rewrite Z.eqb_refl, stream_cons, length_app. lia. }
  rewrite (xmsgsize_ok s _ _ Hok) by (done || lia || set_solver). cbn [rbind].
  assert (∀ n, 0 ≤ n ≤ zlen (stream s (lead_run s (mp :: cont))) → want ≤ n →
    ∃ ok m' s', pullup_copy sizeof_dblk junk n mp cont s = Ret (ok, m', s') ∧
      store_ok s' (m' ++ L) ∧ frame s s' L ∧ stream s' m' = stream s (mp :: cont) ∧
      b_addr <$> head m' = b_addr <$> head (mp :: cont) ∧
      if (ok : bool) then ∃ mp' rest d', m' = mp' :: rest ∧ want ≤ b_size mp' ∧
        dblks s' !! b_datap mp' = Some d' ∧ str_aligned d' (b_rptr mp') = true
      else m' = mp :: cont ∧ (zlen (stream s (lead_run s (mp :: cont))) < want ∨ take 2 (mem s) ≠ [true; true]))
    as Hcopy.
  { intros n Hn Hw. destruct (pullup_copy_ok s L mp cont n Hok) as (ok & m' & s' & -> & Hok' & Hf' & Hr); [lia|lia|].
    exists ok, m', s'. split; [done|]. split; [done|]. split; [done|]. destruct ok.
    - destruct Hr as (mp' & rest & d' & -> & Ha & Hr0 & Hd' & Hal & Hv' & Hs').
      split_and!; [|by simpl; rewrite Ha|].
      + rewrite stream_cons, Hs'. unfold bytes. rewrite Hv'. cbn [fst snd].
        change (view s mp).1 with (first_type s (mp :: cont)). rewrite take_lead by lia. apply take_drop.
      + exists mp', rest, d'. split_and!; [done| |done|unfold str_aligned; by rewrite Hr0, Hal].
        destruct (size_nonneg s' mp' ((mp' :: rest) ++ L) Hok') as [_ <-]; [by left|].
        unfold bytes. rewrite Hv'. cbn [snd]. rewrite !length_fmap, length_take. lia.
    - destruct Hr as (-> & Hs & Hm). split_and!; [done|done|done|by right]. }
  assert (str_aligned d (b_rptr mp) = true → want ≤ b_size mp →
    ∃ ok m' s', Ret (true, mp :: cont, s) = Ret (ok, m', s') ∧
      store_ok s' (m' ++ L) ∧ frame s s' L ∧ stream s' m' = stream s (mp :: cont) ∧
      b_addr <$> head m' = b_addr <$> head (mp :: cont) ∧
      if (ok : bool) then ∃ mp' rest d', m' = mp' :: rest ∧ want ≤ b_size mp' ∧
        dblks s' !! b_datap mp' = Some d' ∧ str_aligned d' (b_rptr mp') = true
      else m' = mp :: cont ∧ (zlen (stream s (lead_run s (mp :: cont))) < want ∨ take 2 (mem s) ≠ [true; true]))
    as Hsame.
  { intros Hal Hw. exists true, (mp :: cont), s. split_and!; [done|done|apply frame_refl|done|done|].
    by exists mp, cont, d. }
  pose proof (size_s32 (b_size mp)) as [_ Hs32]; [unfold b_size in *; lia|].
  unfold want in *. destruct (Z.eqb_spec len (-1)) as [->|Hn1].
  - destruct (bool_decide (cont = []) && str_aligned d (b_rptr mp)) eqn:E.
    + apply andb_prop in E as [E1%bool_decide_eq_true_1 E2]. apply Hsame; [done|]. subst cont.
      unfold lead_run, first_type. simpl. rewrite Z.eqb_refl, stream_cons, stream_nil, app_nil_r. lia.
    + rewrite s32_id by (unfold in_s32; lia). apply Hcopy; lia.
  - rewrite Hs32. destruct (Z.leb_spec len (b_size mp)) as [Hl|Hl].
    + destruct (str_aligned d (b_rptr mp)) eqn:E; [by apply Hsame|]. apply Hcopy; unfold b_size in *; lia.
    + unfold in_s32 in Hlen. rewrite w32_id by (unfold in_u32, b_size in *; lia).
      destruct (Z.ltb_spec (zlen (stream s (lead_run s (mp :: cont)))) len) as [Hshort|Hfit].
      * exists false, (mp :: cont), s. split_and!; [done|done|apply frame_refl|done..|by left].
      * apply Hcopy; unfold b_size in *; lia.
Qed.

(** [copymsg] gives a message with the same content on data blocks of its own, also
    where [db_base] is not word aligned, or takes nothing. *)
Theorem copymsg_correct s L m : store_ok s (m ++ L) → m ≠ [] →
  (∀ mp, mp ∈ m → copiable mp s) →
  ∃ r s', copymsg sizeof_dblk junk m s = Ret (r, s') ∧ frame s s' (m ++ L) ∧
    match r with
    | Some m' => store_ok s' (m' ++ m ++ L) ∧ stream s' m' = stream s m
    | None => store_ok s' (m ++ L)
    end.
Proof.
  intros Hok Hne Hc. unfold copymsg. destruct m as [|mp0 m0]; [done|]. set (m := mp0 :: m0) in *.
  pose proof (copyb_copier sizeof_dblk junk Hsizeof) as Hcopier.
  destruct (each_block_ok copiable (copyb sizeof_dblk junk) m s (m ++ L) []) as (r & s' & -> & Hr);
    [done|set_solver| |].
  { intros s' Hf mp Hmp d Hd. specialize (Hf mp ltac:(set_solver)). rewrite Hd in Hf.
    destruct (dblks s !! b_datap mp) as [d0|] eqn:E; [|done]. injection Hf as -> _ _. by apply (Hc mp). }
  do 2 eexists. split; [done|]. destruct r as [m'|]; [|by destruct Hr].
  destruct Hr as (new & -> & Hok' & Hfr & Hv). split_and!; [done|done|]. simpl. by apply stream_view.
Qed.

Lemma msgpullup_loop_ok m : ∀ s L mp pre post d, m = pre ++ post → m ⊆ L →
  store_ok s (mp :: L) → unshared mp L → dblks s !! b_datap mp = Some d →
  b_wptr mp + zlen (stream s pre) ≤ zlen (db_data d) →
  ∃ mp' pre' post' s', msgpullup_loop mp (zlen (stream s pre)) m s = Ret (mp', post', s') ∧
    m = pre' ++ post' ∧ stream s pre' = stream s pre ∧ b_datap mp' = b_datap mp ∧
    store_ok s' (mp' :: L) ∧ frame s s' L ∧
    view s' mp' = ((view s mp).1, (view s mp).2 ++ (snd <$> stream s pre)).
Proof.
  induction m as [|x m IH]; intros s L mp pre post d Hm Hin Hok Hun Hd Hcap; cbn [msgpullup_loop];
    destruct (Z.ltb_spec 0 (zlen (stream s pre))) as [Hpos|Hz].
  - symmetry in Hm. apply app_nil in Hm as [-> ->]. rewrite stream_nil in Hpos. simpl in Hpos. lia.
  - exists mp, [], [], s. assert (stream s pre = []) as E by (apply nil_length_inv; lia).
    rewrite E. split_and!; try done. rewrite fmap_nil, app_nil_r. by destruct (view s mp).
  - destruct pre as [|y pre]; [rewrite stream_nil in Hpos; simpl in Hpos; lia|]. injection Hm as <- Hm.
    destruct (size_nonneg s x (mp :: L) Hok) as [Hsz Hzl]; [right; apply Hin; by left|].
    rewrite stream_cons, length_app in Hcap |- *.
    destruct (append_bytes_ok s x mp (b_size x) L d Hok Hun) as (s1 & d1 & -> & Hok1 & Hf1 & Hv1 & Hd1 & Hl1 & _);
      [apply Hin; by left|lia|done|lia|]. cbn [rbind].
    assert (stream s1 pre = stream s pre) as Epre.
    { eapply frame_stream; [exact Hf1|]. intros z Hz. apply Hin. right. rewrite Hm. apply elem_of_app. by left. }
    set (mp1 := set_wptr _ mp) in *.
    destruct (IH s1 L mp1 pre post d1) as (mp' & pre' & post' & s' & Hr & Hm' & Hs' & Hda & Hok' & Hf' & Hv');
      [done|intros z Hz; apply Hin; by right|done|done|done|simpl; rewrite Epre, Hl1; lia|].
    replace (Z.of_nat (length (bytes s x) + length (stream s pre)) - b_size x) with (zlen (stream s1 pre))
      by (rewrite Epre; lia).
    rewrite Hr. exists mp', (x :: pre'), post', s'. rewrite Hm', stream_cons.
    assert (stream s1 pre' = stream s pre') as Epre'.
    { eapply frame_stream; [exact Hf1|]. intros z Hz. apply Hin. right. rewrite Hm'. apply elem_of_app. by left. }
    rewrite <-Epre', Hs', Epre. split_and!; [done..|by eapply frame_trans|].
    rewrite Hv', Hv1, Epre. simpl. rewrite fmap_app, <-app_assoc. do 2 f_equal. f_equal.
    rewrite fmap_snd_view. apply take_ge. rewrite <-fmap_snd_view, length_fmap. lia.
  - exists mp, [], (x :: m), s. assert (stream s pre = []) as E by (apply nil_length_inv; lia).
    rewrite E. split_and!; try done. rewrite fmap_nil, app_nil_r. by destruct (view s mp).
Qed.

(** [msgpullup] leaves the message as it is and gives a new one whose first block holds
    exactly the bytes of the first type.  The rest is duplicated; but when duplicating it fails the new
    message is returned without it, though the routine is to return NULL then: the new message is the
    whole content or it stops after its first block. *)
Theorem msgpullup_correct s L m len : store_ok s (m ++ L) → m ≠ [] → zlen (stream s m) < 2 ^ 31 →
  let run := stream s (lead_run s m) in
  ∃ r s', msgpullup sizeof_dblk junk m len s = Ret (r, s') ∧ frame s s' (m ++ L) ∧
    match r with
    | None => store_ok s' (m ++ L) ∧ (zlen run < len ∨ take 2 (mem s) ≠ [true; true])
    | Some m' => store_ok s' (m' ++ m ++ L) ∧ ∃ nb rest, m' = nb :: rest ∧ bytes s' nb = run ∧
        (stream s' m' = stream s m ∨ rest = [])
    end.
Proof.
  intros Hok Hne Hbig run. unfold msgpullup. pose proof (lead_run_le s m) as Hle.
  rewrite (xmsgsize_ok s _ _ Hok) by (done || lia || set_solver). cbn [rbind]. fold run in Hle |- *.
  rewrite s32_id by (unfold in_s32; lia).
  destruct ((0 <? len) && (zlen run <? len)) eqn:E.
  { apply andb_prop in E as [_ E]. zb. do 2 eexists. split; [done|]. split; [apply frame_refl|].
    split; [done|]. by left. }
  clear E. rewrite w32_id by (unfold in_u32; lia).
  destruct (allocb_ok sizeof_dblk junk Hsizeof (zlen run) s _ Hok) as (r & s1 & -> & Hf1 & H1); [lia|]. cbn [rbind].
  destruct r as [nb|].
  2:{ destruct H1. do 2 eexists. split; [done|]. split; [done|]. split; [done|by right]. }
  destruct H1 as (Hok1 & Hr0 & Hw0 & Hun & nd & Hnd & Hcap & _ & _ & _).
  destruct m as [|mp m0]; [done|]. set (m := mp :: m0) in *.
  destruct (so_mblk _ _ Hok1 mp) as (d1 & Hd1 & _); [right; by left|].
  rewrite (get_dblk_eq _ _ _ Hd1). cbn [rbind].
  destruct (fresh_upd s1 nb _ (set_db_type (db_type d1)) Hok1 Hun) as [Hok2 Hf2]; [done|].
  set (s2 := upd_dblk _ _ s1) in *. set (nb1 := set_band_flag _ _ nb).
  assert (frame s s2 (m ++ L)) as Hf12 by by eapply frame_trans.
  assert (∀ m1, m1 ⊆ m → stream s2 m1 = stream s m1) as Hst.
  { intros m1 Hm1. eapply frame_stream; [exact Hf12|]. intros z Hz. apply elem_of_app. left. by apply Hm1. }
  assert (lead_run s m ⊆ m) as Hleadin.
  { intros z Hz. rewrite (lead_run_split s m). apply elem_of_app. by left. }
  assert (dblks s2 !! b_datap nb = Some (set_db_type (db_type d1) nd)) as Hnd2.
  { unfold s2. by rewrite upd_dblk_lookup, decide_True, Hnd. }
  destruct (msgpullup_loop_ok m s2 (m ++ L) nb1 (lead_run s m) (after_run s m) (set_db_type (db_type d1) nd) (lead_run_split s m))
    as (nb2 & pre & post & s3 & Hlp & Hm & Hpre & Hda & Hok3 & Hf3 & Hv3); [set_solver| |exact Hun|exact Hnd2| |].
  { eapply store_ok_move; [| |exact Hok2|]; [done|done|]. intros d' Hd'. destruct (so_mblk _ _ Hok2 nb) as (d'' & Hd'' & Hb'').
    { by left. }
    rewrite Hd' in Hd''. by injection Hd'' as <-. }
  { rewrite (Hst _ Hleadin). fold run. simpl. lia. }
  rewrite (Hst _ Hleadin) in Hlp, Hv3, Hpre. fold run in Hlp, Hv3, Hpre. rewrite Hlp. cbn [rbind].
  assert ((view s2 nb1).2 = []) as Hempty.
  { unfold view. cbn [b_datap nb1 set_band_flag]. destruct (dblks s2 !! b_datap nb); [|done].
    unfold b_size. simpl. by rewrite Hr0, Hw0. }
  assert ((view s2 nb1).1 = first_type s m) as Hty.
  { unfold view, first_type, nb1. cbn [b_datap set_band_flag]. rewrite Hnd2. simpl.
    rewrite <-(frame_view s s1 _ mp Hf1) by (by left). unfold view. by rewrite Hd1. }
  assert (frame s s3 (m ++ L)) as Hf13 by by eapply frame_trans.
  rewrite Hempty, Hty in Hv3. simpl in Hv3.
  assert (∀ s', frame s3 s' (nb2 :: m ++ L) → bytes s' nb2 = run) as Hrun.
  { intros s' Hf. unfold bytes. rewrite (frame_view _ _ _ nb2 Hf), Hv3 by by left. cbn [fst snd].
    symmetry. apply stream_typed, lead_type. }
  destruct post as [|p0 post0].
  - do 2 eexists. split; [reflexivity|]. split; [done|]. split; [done|].
    exists nb2, []. split_and!; [done|by apply Hrun, frame_refl|by right].
  - set (post := p0 :: post0) in *.
    assert (post ⊆ nb2 :: m ++ L) as Hpin by (rewrite Hm; set_solver).
    unfold dupmsg. change (match post with [] => _ | _ => _ end) with (each_block dupb [] post s3).
    destruct (each_block_ok (λ _ _, True) dupb post s3 (nb2 :: m ++ L) []) as (r & s4 & -> & H4); [done|done|done|].
    cbn [rbind]. do 2 eexists. split; [reflexivity|]. destruct r as [m'|]; simpl.
    + destruct H4 as (new & -> & Hok4 & Hf4 & Hv4). change (rev [] ++ new) with new in *.
      split; [eapply frame_trans; [exact Hf13|]; intros z Hz; apply Hf4; by right|].
      split; [eapply store_ok_perm; [|exact Hok4]; symmetry; apply Permutation_middle|].
      exists nb2, new. split_and!; [done|by apply Hrun|]. left.
      rewrite stream_cons, (Hrun _ Hf4), (stream_view _ _ _ _ Hv4).
      assert (stream s3 post = stream s post) as ->.
      { eapply frame_stream; [exact Hf13|]. rewrite Hm. set_solver. }
      rewrite <-Hpre, Hst by (rewrite Hm; set_solver). by rewrite <-stream_app, <-Hm.
    + destruct H4 as [Hok4 Hf4]. split; [eapply frame_trans; [exact Hf13|]; intros z Hz; apply Hf4; by right|].
      split; [done|]. exists nb2, []. split_and!; [done|by apply Hrun|by right].
Qed.
End Messages.

(** ** Trimming *)

Lemma adj_head_ok m : ∀ first s L len, store_ok s (m ++ L) → 0 ≤ len ≤ zlen (stream s m) →
  ∃ m' s', adj_head first len m s = Ret (m', s') ∧ store_ok s' (m' ++ L) ∧ frame s s' L ∧
    stream s' m' = drop (Z.to_nat len) (stream s m) ∧ (first = true → b_addr <$> head m' = b_addr <$> head m).
Proof.
  induction m as [|mp m IH]; intros first s L len Hok Hlen; cbn [adj_head];
    destruct (truthy len) eqn:Et.
  - apply truthy_true in Et. rewrite stream_nil in Hlen. simpl in Hlen. lia.
  - do 2 eexists. split; [done|]. split_and!; [done|apply frame_refl|by rewrite stream_nil, drop_nil|done].
  - destruct (size_nonneg s mp _ Hok) as [Hsz Hzl]; [by left|].
    rewrite stream_cons in Hlen |- *. rewrite length_app in Hlen. set (n := Z.min (b_size mp) len).
    destruct (drop_bytes s (m ++ L) mp n Hok) as [Hok1 Hb]; [lia|].
    set (mp1 := set_rptr (b_rptr mp + n) mp) in *.
    assert (drop (Z.to_nat len) (bytes s mp ++ stream s m) =
            drop (Z.to_nat n) (bytes s mp) ++ drop (Z.to_nat (len - n)) (stream s m)) as ->.
    { rewrite drop_app. f_equal; [|f_equal; lia]. unfold n. destruct (decide (len ≤ b_size mp)).
      - f_equal. lia.
      - by rewrite !drop_ge by lia. }
    assert (0 ≤ len - n ≤ zlen (stream s m)) as Hrest by lia.
    destruct (negb first && (b_wptr mp1 =? b_rptr mp1)) eqn:E.
    + apply andb_prop in E as [E1 E2]. zb. subst first.
      destruct (freeb_ok s mp1 (m ++ L) Hok1) as (s1 & -> & Hok2 & Hf2 & _). cbn [rbind].
      assert (stream s1 m = stream s m) as Em.
      { eapply frame_stream; [exact Hf2|]. intros x Hx. apply elem_of_app. by left. }
      destruct (IH false s1 L (len - n) Hok2) as (m' & s2 & -> & Hok3 & Hf3 & Hs3 & _); [by rewrite Em|].
      do 2 eexists. split; [done|]. split_and!; [done| | |done].
      * eapply frame_trans; [|exact Hf3]. eapply frame_sub; [exact Hf2|].
        intros x Hx. apply elem_of_app. by right.
      * rewrite Hs3, Em, <-Hb, bytes_nil; [done|unfold b_size; lia].
    + destruct (IH false s (mp1 :: L) (len - n)) as (m' & s2 & -> & Hok3 & Hf3 & Hs3 & _); [|done|].
      { eapply store_ok_perm; [|exact Hok1]. apply Permutation_middle. }
      cbn [rbind]. do 2 eexists. split; [done|]. split_and!.
      * eapply store_ok_perm; [|exact Hok3]. symmetry. apply Permutation_middle.
      * eapply frame_sub; [exact Hf3|]. intros x Hx. by right.
      * rewrite stream_cons, Hs3, <-Hb. f_equal. eapply frame_bytes; [exact Hf3|by left].
      * done.
  - apply truthy_false in Et as ->. do 2 eexists. split; [done|].
    split_and!; [done|apply frame_refl|done|done].
Qed.

Lemma same_type_ok s L t pre post : store_ok s L → pre ++ post ⊆ L →
  Forall (λ mp, (view s mp).1 = t) pre →
  match post with [] => True | mp :: _ => (view s mp).1 ≠ t end →
  same_type s t (pre ++ post) = Ret (length pre).
Proof.
  intros Hok Hin Hpre Hpost. induction Hpre as [|mp pre Ht _ IH]; simpl.
  - destruct post as [|mp post]; [done|]. simpl.
    destruct (view_ok s L mp Hok) as (d & Hd & _ & _ & Hv); [apply Hin; by left|].
    rewrite (get_dblk_eq _ _ _ Hd). cbn [rbind]. rewrite Hv in Hpost. simpl in Hpost.
    by rewrite (proj2 (Z.eqb_neq _ _) Hpost).
  - destruct (view_ok s L mp Hok) as (d & Hd & _ & _ & Hv); [apply Hin; by left|].
    rewrite (get_dblk_eq _ _ _ Hd). cbn [rbind]. rewrite Hv in Ht. simpl in Ht.
    rewrite (proj2 (Z.eqb_eq _ _) Ht), IH; [done|]. intros x Hx. apply Hin. by right.
Qed.

Lemma types_frame s s' L m t : frame s s' L → m ⊆ L → Forall (λ mp, (view s mp).1 = t) m →
  Forall (λ mp, (view s' mp).1 = t) m.
Proof.
  intros Hf Hin Hm. rewrite Forall_forall in Hm |- *. intros x Hx. rewrite (frame_view _ _ _ _ Hf); auto.
Qed.

Lemma adj_tail_0 fuel t m s : adj_tail fuel t 0 m s = Some (Ret (m, s)).
Proof. by destruct fuel. Qed.

Lemma adj_tail_ok fuel : ∀ s L t len pre post, store_ok s (pre ++ post ++ L) →
  Forall (λ mp, (view s mp).1 = t) pre → match post with [] => True | mp :: _ => (view s mp).1 ≠ t end →
  0 ≤ len ≤ zlen (stream s pre) → (length pre ≤ fuel)%nat →
  ∃ pre' s', adj_tail fuel t len (pre ++ post) s = Some (Ret (pre' ++ post, s')) ∧
    store_ok s' (pre' ++ post ++ L) ∧ frame s s' (post ++ L) ∧
    stream s' pre' = take (Z.to_nat (zlen (stream s pre) - len)) (stream s pre) ∧
    b_addr <$> head (pre' ++ post) = b_addr <$> head (pre ++ post).
Proof.
  induction fuel as [|fuel IH]; intros s L t len pre post Hok Ht Hpost Hlen Hfuel; cbn [adj_tail];
    destruct (truthy len) eqn:Et.
  - apply truthy_true in Et. destruct pre; [|simpl in Hfuel; lia]. rewrite stream_nil in Hlen. simpl in Hlen. lia.
  - apply truthy_false in Et as ->. exists pre, s. split; [done|].
    split_and!; [done|apply frame_refl|by rewrite take_ge by lia|done].
  - rewrite (same_type_ok s (pre ++ post ++ L)) by (done || set_solver). apply truthy_true in Et.
    destruct pre as [|sb pre _] using rev_ind; [rewrite stream_nil in Hlen; simpl in Hlen; lia|].
    rewrite length_app. simpl length. rewrite Nat.add_1_r.
    rewrite <-app_assoc, lookup_app_r, Nat.sub_diag by lia. cbn [app lookup list_lookup].
    rewrite <-app_assoc in Hok. simpl in Hok.
    assert (store_ok s (sb :: pre ++ post ++ L)) as Hok0.
    { eapply store_ok_perm; [|exact Hok]. symmetry. apply Permutation_middle. }
    destruct (size_nonneg s sb _ Hok0) as [Hsz Hzl]; [by left|].
    rewrite stream_app, stream_cons, stream_nil, app_nil_r in Hlen |- *. rewrite length_app in Hlen |- *.
    set (n := Z.min (b_size sb) len). destruct (chop_bytes s (pre ++ post ++ L) sb n Hok0) as [Hok1 Hb]; [lia|].
    set (sb1 := set_wptr (b_wptr sb - n) sb) in *. apply Forall_app in Ht as [Htpre Htsb].
    assert (b_size sb1 = b_size sb - n) as Hsz1 by (unfold sb1, b_size; simpl; lia).
    destruct (negb (length pre =? 0)%nat && (b_wptr sb1 =? b_rptr sb1)) eqn:E.
    + apply andb_prop in E as [E0 E]. zb. assert (b_size sb1 = 0) as Hsz0 by (unfold b_size; lia).
      destruct (freeb_ok s sb1 (pre ++ post ++ L) Hok1) as (s1 & -> & Hok2 & Hf2 & _).
      assert (delete (length pre) (pre ++ sb :: post) = pre ++ post) as -> by by rewrite delete_middle.
      assert (stream s1 pre = stream s pre) as Epre by (eapply frame_stream; [exact Hf2|set_solver]).
      destruct (IH s1 L t (len - n) pre post Hok2) as (pre' & s2 & -> & Hok3 & Hf3 & Hs3 & Hh3).
      * eapply types_frame; [exact Hf2|set_solver|done].
      * destruct post as [|p post]; [done|]. rewrite (frame_view _ _ _ _ Hf2); [done|set_solver].
      * rewrite Epre. lia.
      * rewrite length_app in Hfuel. simpl in Hfuel. lia.
      * exists pre', s2. split; [done|]. split_and!; [done| | |].
        -- eapply frame_trans; [|exact Hf3]. eapply frame_sub; [exact Hf2|set_solver].
        -- rewrite Hs3, Epre, take_app_le by lia. f_equal. lia.
        -- rewrite Hh3. by destruct pre.
    + assert (<[length pre := sb1]> (pre ++ sb :: post) = pre ++ sb1 :: post) as ->.
      { rewrite insert_app_r_alt, Nat.sub_diag by lia. done. }
      assert (len - n = 0) as En.
      { destruct (decide (len ≤ b_size sb)); [lia|]. destruct pre as [|p0 pre].
        - rewrite stream_nil in Hlen. simpl in Hlen. lia.
        - apply andb_false_iff in E as [E|E]; [done|]. apply Z.eqb_neq in E.
          assert (b_size sb1 ≠ 0) by (unfold b_size; lia). lia. }
      rewrite En, adj_tail_0. exists (pre ++ [sb1]), s. rewrite <-!app_assoc. split; [done|].
      split_and!; [|apply frame_refl| |by destruct pre].
      * eapply store_ok_perm; [|exact Hok1]. apply Permutation_middle.
      * rewrite stream_app, stream_cons, stream_nil, app_nil_r, Hb.
        rewrite take_app_ge by lia. f_equal. f_equal. lia.
  - apply truthy_false in Et as ->. exists pre, s. split; [done|].
    split_and!; [done|apply frame_refl|by rewrite take_ge by lia|done].
Qed.

(** C25: [adjmsg] trims exactly the bytes asked for off the bytes of the first type, from the
    head for a positive length and from the tail for a negative one, keeps the rest byte for byte and the
    first block in its place, frees the blocks it empties and touches no other message; it refuses, and
    changes nothing, when there are not that many.  It terminates: one round per block is enough. *)
Theorem adjmsg_correct fuel s L m len : store_ok s (m ++ L) → m ≠ [] → zlen (stream s m) < 2 ^ 31 →
  in_s32 len → (length m ≤ fuel)%nat →
  let run := stream s (lead_run s m) in
  ∃ m' s', adjmsg fuel m len s = Some (Ret (Z.abs len <=? zlen run, m', s')) ∧
    store_ok s' (m' ++ L) ∧ frame s s' L ∧ b_addr <$> head m' = b_addr <$> head m ∧
    stream s' m' =
      (if Z.abs len <=? zlen run then
         (if 0 <=? len then drop (Z.to_nat len) run else take (Z.to_nat (zlen run + len)) run)
       else run) ++ stream s (after_run s m).
Proof.
  intros Hok Hne Hbig Hlen Hfuel run. unfold adjmsg. pose proof (lead_run_le s m) as Hle. fold run in Hle.
  destruct m as [|mp m0]; [done|]. set (m := mp :: m0) in *.
  assert (stream s m = run ++ stream s (after_run s m)) as Hm.
  { rewrite (lead_run_split s m) at 1. apply stream_app. }
  rewrite (xmsgsize_ok s (m ++ L)) by (done || lia || set_solver). fold run.
  destruct (view_ok s (m ++ L) mp Hok) as (d & Hd & _ & _ & Hv); [by left|]. rewrite (get_dblk_eq _ _ _ Hd).
  unfold in_s32 in Hlen. destruct (Z.ltb_spec len 0) as [Hneg|Hpos]; cbn [negb].
  - rewrite (proj2 (Z.leb_gt 0 len)) by lia.
    assert (w32 (s32 (- len)) = - len) as Hw.
    { rewrite w32_s32. apply w32_id. unfold in_u32. lia. }
    rewrite Hw, Z.abs_neq by lia. destruct (Z.ltb_spec (zlen run) (- len)) as [Hs|Hs].
    + rewrite (proj2 (Z.leb_gt _ _)) by lia. exists m, s. split_and!; [done|done|apply frame_refl|done|done].
    + rewrite (proj2 (Z.leb_le _ _)) by lia. rewrite (s32_id (- len)) by (unfold in_s32; lia).
      assert (db_type d = first_type s m) as Hty by (unfold first_type, m; by rewrite Hv).
      destruct (adj_tail_ok fuel s L (db_type d) (- len) (lead_run s m) (after_run s m))
        as (pre' & s' & Hr & Hok' & Hf' & Hs' & Hh').
      * by rewrite app_assoc, <-lead_run_split.
      * rewrite Hty. apply lead_type.
      * rewrite Hty. apply lead_after.
      * fold run. lia.
      * assert (length m = length (lead_run s m) + length (after_run s m))%nat
          by by rewrite <-length_app, <-lead_run_split. lia.
      * rewrite <-lead_run_split in Hr, Hh'. rewrite Hr. cbn [rbind]. do 2 eexists. split; [done|].
        rewrite <-app_assoc, stream_app, Hs'. fold run. split_and!; [done| |done|].
        -- eapply frame_sub; [exact Hf'|]. intros x Hx. apply elem_of_app. by right.
        -- f_equal; [do 2 f_equal; lia|]. eapply frame_stream; [exact Hf'|]. intros x Hx. apply elem_of_app. by left.
  - rewrite (proj2 (Z.leb_le 0 len)), Z.abs_eq by lia. rewrite (w32_id len) by (unfold in_u32; lia).
    destruct (Z.ltb_spec (zlen run) len) as [Hs|Hs].
    + rewrite (proj2 (Z.leb_gt _ _)) by lia. exists m, s. split_and!; [done|done|apply frame_refl|done|done].
    + rewrite (proj2 (Z.leb_le _ _)) by lia.
      destruct (adj_head_ok m true s L len Hok) as (m' & s' & -> & Hok' & Hf' & Hs' & Hh'); [lia|].
      cbn [rbind]. do 2 eexists. split; [done|]. split_and!; [done|done|by apply Hh'|].
      rewrite Hs', Hm. apply drop_app_le. lia.
Qed.

(** ** A message to apply the theorems to *)

Definition ex_store : store :=
  Store {[ 1 := Dblk [10; 20; 30; 40; 50] 1 1 M_DATA 0 1 false dblk_lastfree_desb;
           2 := Dblk [60; 70] 0 2 M_DATA 1 2 false freebs_enqueue ]} 3 [true; true; true; true] [].
Definition ex_msg : list mblk := [Mblk 1 1 1 4 0 0; Mblk 2 2 0 2 0 0].

Lemma ex_ok : store_ok ex_store (ex_msg ++ []).
Proof.
  split.
  - intros mp Hmp. rewrite app_nil_r in Hmp. unfold ex_msg in Hmp.
    apply elem_of_cons in Hmp as [->|Hmp]; [|apply list_elem_of_singleton in Hmp as ->];
      (eexists; split; [reflexivity|]; unfold in_block; simpl; lia).
  - intros a d Hd. unfold ex_store in Hd. simpl in Hd.
    apply lookup_insert_Some in Hd as [[<- <-]|[_ Hd]]; [|apply lookup_singleton_Some in Hd as [<- <-]];
      (split; [simpl; lia|done|done| |simpl; lia]); intros _; (split; [done|]); intros mp Hmp Hda;
      apply elem_of_cons in Hmp as [->|Hmp]; simpl in *; try done;
      apply list_elem_of_singleton in Hmp as ->; done.
Qed.

Lemma pullupmsg_correct_witness :
  ∃ m' s', pullupmsg 56 (λ _ _, 0) ex_msg 4 ex_store = Ret (true, m', s') ∧
    stream s' m' = [(0, 20); (0, 30); (0, 40); (0, 60); (0, 70)].
Proof.
  destruct (pullupmsg_correct 56 (λ _ _, 0) ltac:(done) ex_store [] ex_msg 4 ex_ok)
    as (ok & m' & s' & H & _ & _ & Hs & _ & Hr).
  - done.
  - done.
  - done.
  - destruct ok; [by exists m', s'|]. destruct Hr as [_ [Hr|Hr]]; [vm_compute in Hr; congruence|].
    exfalso. apply Hr. reflexivity.
Defined.

Lemma freemsg_correct_witness : ∃ s', freemsg ex_msg ex_store = Ret s' ∧ dblks s' !! 1 = None.
Proof.
  destruct (freemsg_correct ex_store [] ex_msg ex_ok) as (s' & H & _ & _ & Hg).
  exists s'. split; [exact H|]. apply (Hg (Mblk 1 1 1 4 0 0)).
  - left.
  - intros x Hx. by apply elem_of_nil in Hx.
Defined.

Lemma dupmsg_correct_witness :
  ∃ r s', dupmsg ex_msg ex_store = Ret (r, s') ∧ frame ex_store s' (ex_msg ++ []).
Proof.
  destruct (dupmsg_correct ex_store [] ex_msg ex_ok) as (r & s' & H & Hf & _); [done|]. by exists r, s'.
Defined.

Lemma copymsg_correct_witness :
  ∃ r s', copymsg 56 (λ _ _, 0) ex_msg ex_store = Ret (r, s') ∧ frame ex_store s' (ex_msg ++ []).
Proof.
  destruct (copymsg_correct 56 (λ _ _, 0) ltac:(done) ex_store [] ex_msg ex_ok) as (r & s' & H & Hf & _).
  - done.
  - intros mp Hmp d Hd. unfold ex_store in Hd. simpl in Hd.
    apply lookup_insert_Some in Hd as [[_ <-]|[_ Hd]]; [done|]. by apply lookup_singleton_Some in Hd as [_ <-].
  - by exists r, s'.
Defined.

Lemma msgpullup_correct_witness :
  ∃ m' s', msgpullup 56 (λ _ _, 0) ex_msg (-1) ex_store = Ret (Some m', s') ∧ store_ok s' (m' ++ ex_msg ++ []).
Proof.
  destruct (msgpullup_correct 56 (λ _ _, 0) ltac:(done) ex_store [] ex_msg (-1) ex_ok) as (r & s' & H & _ & Hr).
  - done.
  - done.
  - destruct r as [m'|]; [exists m', s'; split; [exact H|apply Hr]|]. destruct Hr as [_ [Hr|Hr]].
    + vm_compute in Hr. congruence.
    + exfalso. apply Hr. reflexivity.
Defined.

Lemma adjmsg_correct_witness :
  ∃ m' s', adjmsg 2 ex_msg (-3) ex_store = Some (Ret (true, m', s')) ∧ stream s' m' = [(0, 20); (0, 30)].
Proof.
  destruct (adjmsg_correct 2 ex_store [] ex_msg (-3) ex_ok) as (m' & s' & H & _ & _ & _ & Hs); [done..|].
  exists m', s'. split; [exact H|exact Hs].
Defined.
