(* ===== verification/Disksort.v ===== *)
(** * Disk queue sorting ([uts/common/os/bdev_dsort.c])

    The queue of a disk driver is one list of requests.  [disksort] inserts into
    it; drivers take its head ([sdstart]).  The elevator it implements, two
    ascending runs, is stated separately and refined. *)

From S2P Require Import Prelude.

(** ** The routine *)

Record buf := Buf {
  b_id : Z;          (* which structure it is *)
  b_cylin : Z        (* b_resid, unsigned *)
}.

(** The list from [b_actf] in [av_forw] order, and [b_actl]. *)
Record diskhd := Diskhd { b_actf : list buf; b_actl : option Z }.

(** Each search is given the request [ap] it stands at and the ones after it; it
    returns these with [bp] inserted, and the request that [bp] went after. *)

(** The do-while over the second request list. *)
Fixpoint second_list (bp ap : buf) (l : list buf) : list buf * buf :=
  match l with
  | [] => ([bp], ap)
  | next :: l' =>
      if b_cylin bp <? b_cylin next then (bp :: next :: l', ap)
      else let (r, at_) := second_list bp next l' in (next :: r, at_)
  end.

(** The search for the inversion. *)
Fixpoint find_inversion (bp ap : buf) (l : list buf) : list buf * buf :=
  match l with
  | [] => ([bp], ap)
  | next :: l' =>
      if b_cylin next <? b_cylin ap then second_list bp ap l
      else let (r, at_) := find_inversion bp next l' in (next :: r, at_)
  end.

(** The first request list. *)
Fixpoint first_list (bp ap : buf) (l : list buf) : list buf * buf :=
  match l with
  | [] => ([bp], ap)
  | next :: l' =>
      if (b_cylin next <? b_cylin ap) || (b_cylin bp <? b_cylin next) then (bp :: next :: l', ap)
      else let (r, at_) := first_list bp next l' in (next :: r, at_)
  end.

Definition disksort (dp : diskhd) (bp : buf) : diskhd :=
  match b_actf dp with
  | [] => Diskhd [bp] (Some (b_id bp))
  | ap :: l =>
      let (r, at_) := if b_cylin bp <? b_cylin ap then find_inversion bp ap l else first_list bp ap l in
      Diskhd (ap :: r) (if decide (b_actl dp = Some (b_id at_)) then Some (b_id bp) else b_actl dp)
  end.

(** [sdstart] takes the head of the queue. *)
Definition sdstart_take (dp : diskhd) : option (buf * diskhd) :=
  match b_actf dp with
  | [] => None
  | bp :: l => Some (bp, Diskhd l (b_actl dp))
  end.

(** ** The elevator *)

(** The requests of the sweep that is going on and those of the next one. *)
Record elevator := Elevator { sweep : list buf; next_sweep : list buf }.

Definition by_cylin (a b : buf) : Prop := b_cylin a ≤ b_cylin b.

(** A request goes after those at the same cylinder. *)
Fixpoint insert_sorted (bp : buf) (l : list buf) : list buf :=
  match l with
  | [] => [bp]
  | x :: l' => if b_cylin bp <? b_cylin x then bp :: l else x :: insert_sorted bp l'
  end.

(** A request behind the head waits for the next sweep. *)
Definition elevator_insert (e : elevator) (bp : buf) : elevator :=
  match sweep e with
  | [] => Elevator [bp] (next_sweep e)
  | h :: _ =>
      if b_cylin bp <? b_cylin h then Elevator (sweep e) (insert_sorted bp (next_sweep e))
      else Elevator (insert_sorted bp (sweep e)) (next_sweep e)
  end.

(** When the sweep is over the next one begins. *)
Definition elevator_take (e : elevator) : option (buf * elevator) :=
  match sweep e with
  | [] => None
  | [bp] => Some (bp, Elevator (next_sweep e) [])
  | bp :: s => Some (bp, Elevator s (next_sweep e))
  end.

(** ** Traces *)

(** What happens to a disk: a request arrives, or the driver starts one. *)
Inductive disk_op := Arrive (bp : buf) | Start.

Fixpoint run_disk (dp : diskhd) (ops : list disk_op) : list (option buf) * diskhd :=
  match ops with
  | [] => ([], dp)
  | Arrive bp :: ops => run_disk (disksort dp bp) ops
  | Start :: ops =>
      match sdstart_take dp with
      | None => let (out, dp) := run_disk dp ops in (None :: out, dp)
      | Some (bp, dp) => let (out, dp) := run_disk dp ops in (Some bp :: out, dp)
      end
  end.

Fixpoint run_elevator (e : elevator) (ops : list disk_op) : list (option buf) * elevator :=
  match ops with
  | [] => ([], e)
  | Arrive bp :: ops => run_elevator (elevator_insert e bp) ops
  | Start :: ops =>
      match elevator_take e with
      | None => let (out, e) := run_elevator e ops in (None :: out, e)
      | Some (bp, e) => let (out, e) := run_elevator e ops in (Some bp :: out, e)
      end
  end.

(** No request arrives while it is in the queue. *)
Fixpoint arrivals_ok (dp : diskhd) (ops : list disk_op) : Prop :=
  match ops with
  | [] => True
  | Arrive bp :: ops => b_id bp ∉ (b_id <$> b_actf dp) ∧ arrivals_ok (disksort dp bp) ops
  | Start :: ops => arrivals_ok (match sdstart_take dp with None => dp | Some (_, dp) => dp end) ops
  end.

(** ** The simulation relation *)

Record simulates (dp : diskhd) (e : elevator) : Prop := {
  sim_list : b_actf dp = sweep e ++ next_sweep e;
  sim_last : b_actf dp ≠ [] → b_actl dp = b_id <$> last (b_actf dp);
  sim_ids : NoDup (b_id <$> b_actf dp);
  sim_sweep : StronglySorted by_cylin (sweep e);
  sim_next : StronglySorted by_cylin (next_sweep e);
  (** the next sweep is all behind the head *)
  sim_behind : ∀ h, head (sweep e) = Some h → Forall (λ x, b_cylin x < b_cylin h) (next_sweep e);
  sim_empty : sweep e = [] → next_sweep e = []
}.

Lemma insert_sorted_perm bp l : insert_sorted bp l ≡ₚ bp :: l.
Proof.
  induction l as [|x l IH]; simpl; [done|]. case_if; [done|]. rewrite IH. apply Permutation_swap.
Qed.

Lemma insert_sorted_sorted bp l : StronglySorted by_cylin l → StronglySorted by_cylin (insert_sorted bp l).
Proof.
  induction 1 as [|x l Hl IH Hx]; simpl; [by repeat constructor|]. unfold by_cylin in *. case_if.
  - constructor; [by constructor|]. constructor; [lia|]. eapply Forall_impl; [exact Hx|]. simpl. lia.
  - constructor; [done|]. rewrite insert_sorted_perm. by constructor.
Qed.

(** ** What the searches find *)

(** The place [bp] was put at: after the last of the requests before it. *)
Definition put_after (bp ap : buf) (l r : list buf) (at_ : buf) : Prop :=
  ∃ l1 l2, l = l1 ++ l2 ∧ r = l1 ++ bp :: l2 ∧ last (ap :: l1) = Some at_.

Lemma put_after_cons bp ap x l r at_ : put_after bp x l r at_ → put_after bp ap (x :: l) (x :: r) at_.
Proof. intros (l1 & l2 & -> & -> & H). exists (x :: l1), l2. by rewrite last_cons_cons. Qed.

Lemma put_after_here bp ap l : put_after bp ap l (bp :: l) ap.
Proof. by exists [], l. Qed.

Lemma second_list_spec bp l : ∀ ap, ∃ at_, second_list bp ap l = (insert_sorted bp l, at_) ∧
  put_after bp ap l (insert_sorted bp l) at_.
Proof.
  induction l as [|x l IH]; intros ap; simpl; [exists ap; split; [done|apply put_after_here]|].
  case_if; [exists ap; split; [done|apply put_after_here]|].
  destruct (IH x) as (at_ & -> & H). exists at_. split; [done|]. by apply put_after_cons.
Qed.

(** Past the first list, of which [ap] is the head, the second list is searched. *)
Lemma find_inversion_spec bp s : ∀ ap n, StronglySorted by_cylin (ap :: s) →
  (∀ h, head n = Some h → b_cylin h < b_cylin ap) →
  ∃ at_, find_inversion bp ap (s ++ n) = (s ++ insert_sorted bp n, at_) ∧
    put_after bp ap (s ++ n) (s ++ insert_sorted bp n) at_.
Proof.
  induction s as [|x s IH]; intros ap n Hs Hn; simpl.
  - destruct n as [|y n]; simpl; [exists ap; split; [done|apply put_after_here]|].
    rewrite (proj2 (Z.ltb_lt _ _)) by (by apply Hn). exact (second_list_spec bp (y :: n) ap).
  - apply StronglySorted_inv in Hs as [Hs Hx]. apply Forall_cons in Hx as [Hx _]. unfold by_cylin in Hx.
    rewrite (proj2 (Z.ltb_ge _ _)) by lia.
    destruct (IH x n Hs) as (at_ & -> & H); [intros h Hh; specialize (Hn h Hh); lia|].
    exists at_. split; [done|]. by apply put_after_cons.
Qed.

Lemma first_list_spec bp s : ∀ ap n, StronglySorted by_cylin (ap :: s) → b_cylin ap ≤ b_cylin bp →
  (∀ h, head n = Some h → b_cylin h < b_cylin ap) →
  ∃ at_, first_list bp ap (s ++ n) = (insert_sorted bp s ++ n, at_) ∧
    put_after bp ap (s ++ n) (insert_sorted bp s ++ n) at_.
Proof.
  induction s as [|x s IH]; intros ap n Hs Hb Hn; simpl.
  - exists ap. split; [|apply put_after_here]. destruct n as [|y n]; simpl; [done|].
    by rewrite (proj2 (Z.ltb_lt (b_cylin y) _)) by (by apply Hn).
  - apply StronglySorted_inv in Hs as [Hs Hx]. apply Forall_cons in Hx as [Hx _]. unfold by_cylin in Hx.
    rewrite (proj2 (Z.ltb_ge (b_cylin x) (b_cylin ap))) by lia. simpl. case_if.
    + exists ap. split; [done|apply put_after_here].
    + destruct (IH x n Hs) as (at_ & -> & H); [lia|intros h Hh; specialize (Hn h Hh); lia|].
      exists at_. split; [done|]. by apply put_after_cons.
Qed.

(** [b_actl] follows. *)
Lemma put_after_last bp ap l r at_ : put_after bp ap l r at_ → NoDup (b_id <$> ap :: l) →
  (if decide (b_id <$> last (ap :: l) = Some (b_id at_)) then Some (b_id bp) else b_id <$> last (ap :: l)) =
  b_id <$> last (ap :: r).
Proof.
  intros (l1 & l2 & -> & -> & Hat) Hnd. destruct l2 as [|y l2].
  - rewrite app_nil_r, Hat, decide_True by done. by rewrite app_comm_cons, last_snoc.
  - rewrite !app_comm_cons, !last_app_cons in *. rewrite last_cons_cons.
    destruct (last (y :: l2)) as [z|] eqn:Ez; [|by destruct (last_None (y :: l2)) as [Hx _]; specialize (Hx Ez)].
    rewrite decide_False; [done|]. simpl. intros [= E].
    rewrite fmap_app in Hnd. apply NoDup_app in Hnd as (_ & Hd & _). apply (Hd (b_id at_)).
    + apply list_elem_of_fmap_2. by apply last_Some_elem_of.
    + rewrite <-E. apply list_elem_of_fmap_2. by apply last_Some_elem_of.
Qed.

Lemma put_after_perm bp ap l r at_ : put_after bp ap l r at_ → r ≡ₚ bp :: l.
Proof. intros (l1 & l2 & -> & -> & _). symmetry. apply Permutation_middle. Qed.

(** ** Refinement *)

Lemma disksort_spec dp ap l bp : b_actf dp = ap :: l → b_actl dp = b_id <$> last (ap :: l) →
  NoDup (b_id <$> ap :: l) → ∀ r at_,
  (if b_cylin bp <? b_cylin ap then find_inversion bp ap l else first_list bp ap l) = (r, at_) →
  put_after bp ap l r at_ → disksort dp bp = Diskhd (ap :: r) (b_id <$> last (ap :: r)).
Proof.
  intros Hl Hlast Hnd r at_ Hs Hp. unfold disksort. rewrite Hl, Hs, Hlast. f_equal. by eapply put_after_last.
Qed.

Lemma NoDup_insert bp ap l r : r ≡ₚ bp :: l → NoDup (b_id <$> ap :: l) → b_id bp ∉ b_id <$> ap :: l →
  NoDup (b_id <$> ap :: r).
Proof.
  intros Hr Hnd Hb. rewrite Hr, Permutation_swap. rewrite fmap_cons. by constructor.
Qed.

(** Inserting refines inserting. *)
Lemma disksort_simulates dp e bp : simulates dp e → b_id bp ∉ b_id <$> b_actf dp →
  simulates (disksort dp bp) (elevator_insert e bp).
Proof.
  intros [Hl Hlast Hnd Hs Hn Hb He] Hbp. unfold elevator_insert. destruct (sweep e) as [|h s] eqn:Es.
  { rewrite He in * by done. simpl in Hl. unfold disksort. rewrite Hl.
    split; simpl; try done; [apply NoDup_singleton|by repeat constructor]. }
  specialize (Hb h eq_refl). simpl in Hl.
  assert (∀ y, head (next_sweep e) = Some y → b_cylin y < b_cylin h) as Hhd.
  { intros y Hy. destruct (next_sweep e); [done|]. injection Hy as ->. by inversion Hb. }
  rewrite Hl in Hlast, Hnd, Hbp. specialize (Hlast ltac:(done)).
  destruct (Z.ltb_spec (b_cylin bp) (b_cylin h)) as [Hlt|Hge].
  - destruct (find_inversion_spec bp s h (next_sweep e) Hs Hhd) as (at_ & Hf & Hp).
    rewrite (disksort_spec dp h _ bp Hl Hlast Hnd _ at_) by (done || by rewrite (proj2 (Z.ltb_lt _ _))).
    split; simpl; try done.
    + eapply NoDup_insert; [by eapply put_after_perm|done|done].
    + by apply insert_sorted_sorted.
    + intros h' [= <-]. rewrite insert_sorted_perm. by constructor.
  - destruct (first_list_spec bp s h (next_sweep e) Hs Hge Hhd) as (at_ & Hf & Hp).
    rewrite (disksort_spec dp h _ bp Hl Hlast Hnd _ at_) by (done || by rewrite (proj2 (Z.ltb_ge _ _))).
    assert (insert_sorted bp (h :: s) = h :: insert_sorted bp s) as Eins by (simpl; by rewrite (proj2 (Z.ltb_ge _ _))).
    split; rewrite ?Eins; simpl; try done.
    + eapply NoDup_insert; [by eapply put_after_perm|done|done].
    + rewrite <-Eins. by apply insert_sorted_sorted.
    + by intros h' [= <-].
Qed.

(** Taking the head refines taking the next request of the sweep. *)
Lemma sdstart_simulates dp e : simulates dp e →
  match sdstart_take dp, elevator_take e with
  | None, None => True
  | Some (b, dp'), Some (b', e') => b = b' ∧ simulates dp' e'
  | _, _ => False
  end.
Proof.
  intros [Hl Hlast Hnd Hs Hn Hb He]. unfold sdstart_take, elevator_take.
  destruct (sweep e) as [|h s] eqn:Es; [by rewrite Hl, He by done|]. simpl in Hl. rewrite Hl.
  rewrite Hl in Hlast, Hnd. specialize (Hlast ltac:(done)). specialize (Hb h eq_refl).
  apply StronglySorted_inv in Hs as [Hs Hh]. apply NoDup_cons in Hnd as [_ Hnd].
  assert (s ++ next_sweep e ≠ [] → b_actl dp = b_id <$> last (s ++ next_sweep e)) as Hlast'.
  { intros Hne. rewrite Hlast. by destruct (s ++ next_sweep e). }
  destruct s as [|x s]; (split; [done|]).
  - split; simpl; [by rewrite app_nil_r|done|done|done|constructor|intros; constructor|done].
  - split; simpl; [done|done|done|done|done| |done].
    intros h' [= <-]. apply Forall_cons in Hh as [Hh _]. unfold by_cylin in Hh.
    eapply Forall_impl; [exact Hb|]. simpl. lia.
Qed.

Lemma empty_simulates : simulates (Diskhd [] None) (Elevator [] []).
Proof. split; simpl; try done; constructor. Qed.

(** C26: a disk queue is an elevator.  Whatever requests arrive and whenever the driver starts
    one, the driver gets the requests of the ascending sweep that is going on, in cylinder order and at
    one cylinder in the order of arrival, and only then those of the next sweep, where every request
    that arrived behind the head was put: the queue is always the rest of the sweep followed by the next one,
    and [b_actl] is its last request. *)
Theorem disksort_refines_elevator dp e ops : simulates dp e → arrivals_ok dp ops →
  (run_disk dp ops).1 = (run_elevator e ops).1 ∧ simulates (run_disk dp ops).2 (run_elevator e ops).2.
Proof.
  revert dp e. induction ops as [|[bp|] ops IH]; intros dp e Hsim Hok; simpl in *; [done| |].
  - destruct Hok as [Hbp Hok]. apply IH; [by apply disksort_simulates|done].
  - pose proof (sdstart_simulates dp e Hsim) as H.
    destruct (sdstart_take dp) as [[b dp']|], (elevator_take e) as [[b' e']|]; try done.
    + destruct H as [-> H]. destruct (IH dp' e' H Hok) as [H1 H2].
      destruct (run_disk dp' ops), (run_elevator e' ops). simpl in *. by rewrite H1.
    + destruct (IH dp e Hsim Hok) as [H1 H2].
      destruct (run_disk dp ops), (run_elevator e ops). simpl in *. by rewrite H1.
Qed.

Lemma disksort_refines_elevator_witness :
  (run_disk (Diskhd [] None) [Arrive (Buf 1 50); Arrive (Buf 2 20); Arrive (Buf 3 70); Start; Start; Start]).1 =
  [Some (Buf 1 50); Some (Buf 3 70); Some (Buf 2 20)].
Proof.
  destruct (disksort_refines_elevator (Diskhd [] None) (Elevator [] [])
    [Arrive (Buf 1 50); Arrive (Buf 2 20); Arrive (Buf 3 70); Start; Start; Start] empty_simulates) as [H _].
  - simpl. rewrite !list_elem_of_singleton, !not_elem_of_cons. split_and!; try done; apply not_elem_of_nil.
  - rewrite H. reflexivity.
Defined.
