(* ===== verification/Xdr.v ===== *)
(** * External data representation ([uts/common/rpc/xdr.c], [xdr_array.c],
      [xdr_refer.c], [xdr_mem.c])

    A filter works on any stream: the vector of operations that the code keeps in
    [x_ops] is the class [XdrStream].  A filter takes the object as it is in
    memory and gives it back; what an object holds when a filter fails is kept,
    since [xdr_free] is applied to it. *)

From S2P Require Import Prelude Bytes.

(** ** Streams and filters *)

Inductive xdr_op := XDR_ENCODE | XDR_DECODE | XDR_FREE.
#[global] Instance xdr_op_eq_dec : EqDecision xdr_op.
Proof. solve_decision. Defined.

(** The operations of a stream; [None] and [false] are FALSE.  [x_getbytes] also gives the bytes
    that it has stored, the ones before the input ended when it fails. *)
Class XdrStream (S : Type) := {
  x_getlong : S → run (option Z * S);
  x_putlong : Z → S → run (bool * S);
  x_getbytes : Z → S → run (bool * list Z * S);
  x_putbytes : list Z → Z → S → run (bool * S)
}.

(** A filter for objects of type [A]. *)
Definition xdrproc (A : Type) : Type := ∀ S, XdrStream S → xdr_op → A → S → run (bool * A * S).

(** A pointer to storage of its own: [Freed] is one left behind by [mem_free]. *)
Inductive ptr (A : Type) := NULL | At (a : A) | Freed.
Arguments NULL {A}.
Arguments At {A} a.
Arguments Freed {A}.

(** [xdr_free] applies a filter to a handle whose stream is not set up. *)
#[global] Instance xdr_no_stream : XdrStream unit := {|
  x_getlong _ := Fault;
  x_putlong _ _ := Fault;
  x_getbytes _ _ := Fault;
  x_putbytes _ _ _ := Fault
|}.

Definition xdr_free {A} (proc : xdrproc A) (objp : A) : run A :=
  let* (_, objp, _) := proc unit _ XDR_FREE objp tt in Ret objp.

Definition LASTUNSIGNED : Z := 2 ^ 32 - 1.
Definition BYTES_PER_XDR_UNIT : Z := 4.
(** A macro: its arithmetic is that of the type of [x], which [wrap] reduces to. *)
Definition RNDUP (wrap : Z → Z) (x : Z) : Z :=
  wrap (Z.quot (wrap (x + BYTES_PER_XDR_UNIT - 1)) BYTES_PER_XDR_UNIT * BYTES_PER_XDR_UNIT).
Definition MAX_NETOBJ_SZ : Z := 1024.

(** ** Filters for numbers *)

Definition xdr_void {A} : xdrproc A := λ S _ op a s, Ret (true, a, s).

Definition xdr_long : xdrproc Z := λ S _ op lp s,
  match op with
  | XDR_ENCODE => let* (ok, s) := x_putlong lp s in Ret (ok, lp, s)
  | XDR_DECODE =>
      let* (r, s) := x_getlong s in
      Ret (match r with Some l => (true, l, s) | None => (false, lp, s) end)
  | XDR_FREE => Ret (true, lp, s)
  end.

(** The same on the representation of an unsigned long. *)
Definition xdr_u_long : xdrproc Z := λ S _ op ulp s,
  match op with
  | XDR_DECODE =>
      let* (r, s) := x_getlong s in
      Ret (match r with Some l => (true, w32 l, s) | None => (false, ulp, s) end)
  | XDR_ENCODE => let* (ok, s) := x_putlong ulp s in Ret (ok, ulp, s)
  | XDR_FREE => Ret (true, ulp, s)
  end.

Definition xdr_int : xdrproc Z := xdr_long.
Definition xdr_u_int : xdrproc Z := xdr_u_long.

(** The high and the low word of a long long, and a value put together from words. *)
Definition hi_word (v : Z) : Z := s32 (Z.shiftr v 32).
Definition lo_word (v : Z) : Z := s32 v.
Definition join_words (hi lo : Z) : Z := hi * 2 ^ 32 + w32 lo.

Definition join_u_words (hi lo : Z) : Z := w32 hi * 2 ^ 32 + w32 lo.

(** The code of both filters for long longs, which take the object as two words. *)
Definition xdr_two_words (join : Z → Z → Z) : xdrproc Z := λ S _ op hp s,
  match op with
  | XDR_ENCODE =>
      let* (ok, s) := x_putlong (hi_word hp) s in
      if ok : bool then let* (ok, s) := x_putlong (lo_word hp) s in Ret (ok, hp, s)
      else Ret (false, hp, s)
  | XDR_DECODE =>
      let* (r, s) := x_getlong s in
      match r with
      | Some hi =>
          let* (r, s) := x_getlong s in
          Ret (match r with
               | Some lo => (true, join hi lo, s)
               | None => (false, join hi (lo_word hp), s)
               end)
      | None => Ret (false, hp, s)
      end
  | XDR_FREE => Ret (true, hp, s)
  end.

Definition xdr_longlong_t : xdrproc Z := xdr_two_words join_words.
Definition xdr_u_longlong_t : xdrproc Z := xdr_two_words join_u_words.

Definition xdr_short : xdrproc Z := λ S _ op sp s,
  match op with
  | XDR_ENCODE => let* (ok, s) := x_putlong sp s in Ret (ok, sp, s)
  | XDR_DECODE =>
      let* (r, s) := x_getlong s in
      Ret (match r with Some l => (true, s16 l, s) | None => (false, sp, s) end)
  | XDR_FREE => Ret (true, sp, s)
  end.

Definition xdr_u_short : xdrproc Z := λ S _ op usp s,
  match op with
  | XDR_ENCODE => let* (ok, s) := x_putlong usp s in Ret (ok, usp, s)
  | XDR_DECODE =>
      let* (r, s) := x_getlong s in
      Ret (match r with Some l => (true, l `mod` 2 ^ 16, s) | None => (false, usp, s) end)
  | XDR_FREE => Ret (true, usp, s)
  end.

(** [char] is signed. *)
Definition s8 (z : Z) : Z := (z + 2 ^ 7) `mod` 2 ^ 8 - 2 ^ 7.

Definition xdr_char : xdrproc Z := λ S _ op cp s,
  let* (ok, i, s) := xdr_int S _ op cp s in
  if ok : bool then Ret (true, s8 i, s) else Ret (false, cp, s).

Definition xdr_bool : xdrproc Z := λ S _ op bp s,
  match op with
  | XDR_ENCODE => let* (ok, s) := x_putlong (if truthy bp then 1 else 0) s in Ret (ok, bp, s)
  | XDR_DECODE =>
      let* (r, s) := x_getlong s in
      Ret (match r with Some lb => (true, if lb =? 0 then 0 else 1, s) | None => (false, bp, s) end)
  | XDR_FREE => Ret (true, bp, s)
  end.

Definition xdr_enum : xdrproc Z := xdr_long.

(** ** Opaque data *)

Definition xdr_zero : list Z := [0; 0; 0; 0].

(** The bytes that fill up the last unit. *)
Definition rndup_of (cnt : Z) : Z :=
  let rndup := cnt `mod` BYTES_PER_XDR_UNIT in
  if truthy rndup then BYTES_PER_XDR_UNIT - rndup else rndup.

(** [cp] is all the memory behind the pointer; [cnt] is passed on as an [int]. *)
Definition xdr_opaque (cnt : Z) : xdrproc (list Z) := λ S _ op cp s,
  if cnt =? 0 then Ret (true, cp, s)
  else
    let rndup := rndup_of cnt in
    match op with
    | XDR_DECODE =>
        let* (ok, bs, s) := x_getbytes (s32 cnt) s in
        let* cp := put_bytes 0 bs cp in
        if ok : bool then
          if rndup =? 0 then Ret (true, cp, s)
          else let* (ok, _, s) := x_getbytes rndup s in Ret (ok, cp, s)
        else Ret (false, cp, s)
    | XDR_ENCODE =>
        let* (ok, s) := x_putbytes cp (s32 cnt) s in
        if ok : bool then
          if rndup =? 0 then Ret (true, cp, s)
          else let* (ok, s) := x_putbytes xdr_zero rndup s in Ret (ok, cp, s)
        else Ret (false, cp, s)
    | XDR_FREE => Ret (true, cp, s)
    end.

Section Filters.
(** What memory from [mem_alloc] holds. *)
Context (junk : nat → Z).

Definition mem_alloc (n : Z) : list Z := junk <$> seq 0 (Z.to_nat n).

(** [mem_free (sp, n)]: the size has to be that of the memory. *)
Definition mem_free (sp : list Z) (n : Z) : run unit := if zlen sp =? n then Ret tt else Fault.

(** [xdr_bytes]: the object is the pointer and the count. *)
Definition xdr_bytes (maxsize : Z) : xdrproc (ptr (list Z) * Z) := λ S _ op obj s,
  let '(cpp, sizep) := obj in
  let* (ok, nodesize, s) := xdr_u_int S _ op sizep s in
  if negb ok then Ret (false, (cpp, nodesize), s)
  else if (maxsize <? nodesize) && bool_decide (op ≠ XDR_FREE) then Ret (false, (cpp, nodesize), s)
  else
    match op with
    | XDR_DECODE =>
        if nodesize =? 0 then Ret (true, (cpp, nodesize), s)
        else
          match cpp with
          | NULL =>
              let* (ok, sp, s) := xdr_opaque nodesize S _ op (mem_alloc nodesize) s in
              Ret (ok, (At sp, nodesize), s)
          | At sp =>
              let* (ok, sp, s) := xdr_opaque nodesize S _ op sp s in Ret (ok, (At sp, nodesize), s)
          | Freed => Fault
          end
    | XDR_ENCODE =>
        match cpp with
        | At sp => let* (ok, sp, s) := xdr_opaque nodesize S _ op sp s in Ret (ok, (At sp, nodesize), s)
        | _ => if nodesize =? 0 then Ret (true, (cpp, nodesize), s) else Fault
        end
    | XDR_FREE =>
        match cpp with
        | NULL => Ret (true, (NULL, nodesize), s)
        | At sp => let* _ := mem_free sp nodesize in Ret (true, (NULL, nodesize), s)
        | Freed => Fault
        end
    end.

Definition xdr_netobj : xdrproc (ptr (list Z) * Z) := xdr_bytes MAX_NETOBJ_SZ.

(** [strlen]; [None] runs off the memory. *)
Fixpoint strlen (sp : list Z) : option Z :=
  match sp with
  | [] => None
  | c :: sp => if c =? 0 then Some 0 else (λ n, n + 1) <$> strlen sp
  end.

(** What is left of the pointer when decoding fails: storage that the routine
    allocated is forgotten, the caller's is freed under its feet. *)
Definition string_failed (cpp : ptr (list Z)) (sp : list Z) (nodesize : Z) : run (ptr (list Z)) :=
  let* _ := mem_free sp nodesize in
  Ret (match cpp with NULL => NULL | _ => Freed end).

Definition xdr_string_decode (S : Type) (x : XdrStream S) (cpp : ptr (list Z)) (size : Z) (s : S)
    : run (bool * ptr (list Z) * S) :=
  let nodesize := w32 (size + 1) in
  if nodesize =? 0 then Ret (true, cpp, s)
  else
    let* sp := match cpp with NULL => Ret (mem_alloc nodesize) | At sp => Ret sp | Freed => Fault end in
    let* sp := put_bytes size [0] sp in
    let* (ok, sp, s) := xdr_opaque size S x XDR_DECODE sp s in
    if negb ok then let* cpp := string_failed cpp sp nodesize in Ret (false, cpp, s)
    else
      match strlen sp with
      | None => Fault
      | Some n => if negb (n =? size) then let* cpp := string_failed cpp sp nodesize in Ret (false, cpp, s) else Ret (true, At sp, s)
      end.

Definition xdr_string (maxsize : Z) : xdrproc (ptr (list Z)) := λ S x op cpp s,
  match op, cpp with
  | XDR_FREE, NULL => Ret (true, NULL, s)
  | _, _ =>
      let* size :=
        match op, cpp with
        | XDR_DECODE, _ => Ret 0
        | _, NULL => Ret 0
        | _, At sp => match strlen sp with Some n => Ret n | None => Fault end
        | _, Freed => Fault
        end in
      let* (ok, size, s) := xdr_u_int S _ op size s in
      if negb ok then Ret (false, cpp, s)
      else if maxsize <? size then Ret (false, cpp, s)
      else
        match op with
        | XDR_DECODE => xdr_string_decode S x cpp size s
        | XDR_ENCODE =>
            match cpp with
            | At sp => let* (ok, sp, s) := xdr_opaque size S _ op sp s in Ret (ok, At sp, s)
            | _ => Ret (true, cpp, s)
            end
        | XDR_FREE =>
            match cpp with
            | At sp => let* _ := mem_free sp (w32 (size + 1)) in Ret (true, NULL, s)
            | _ => Fault
            end
        end
  end.

Definition xdr_wrapstring : xdrproc (ptr (list Z)) := xdr_string LASTUNSIGNED.

(** ** Arrays, unions, pointers *)

(** An array in memory: its elements and the bytes that were allocated for it. *)
Record array (A : Type) := Array { elems : list A; cap : Z }.
Arguments Array {A} _ _.
Arguments elems {A} _.
Arguments cap {A} _.

Section Constructed.
(** An element of [elsize] bytes, its filter, and what [bzero] makes of it. *)
Context {A : Type} (elsize : Z) (elproc : xdrproc A) (zero : A).

(** The loop of [xdr_array] over [n] elements from the [i]-th on. *)
Fixpoint array_loop (S : Type) (x : XdrStream S) (op : xdr_op) (n i : nat) (t : array A) (s : S)
    : run (bool * array A * S) :=
  match n with
  | O => Ret (true, t, s)
  | Datatypes.S n =>
      if cap t <? (Z.of_nat i + 1) * elsize then Fault
      else
        match elems t !! i with
        | None => Fault
        | Some a =>
            let* (ok, a, s) := elproc S x op a s in
            let t := Array (<[i := a]> (elems t)) (cap t) in
            if ok : bool then array_loop S x op n (Datatypes.S i) t s else Ret (false, t, s)
        end
  end.

Definition xdr_array (maxsize : Z) : xdrproc (ptr (array A) * Z) := λ S x op obj s,
  let '(addrp, sizep) := obj in
  let* (ok, c, s) := xdr_u_int S _ op sizep s in
  if negb ok then Ret (false, (addrp, c), s)
  else if (maxsize <? c) && bool_decide (op ≠ XDR_FREE) then Ret (false, (addrp, c), s)
  else
    let nodesize := w32 (c * elsize) in
    let filter t s :=
      let* (stat, t, s) := array_loop S x op (Z.to_nat c) 0 t s in
      match op with
      | XDR_FREE => if cap t =? nodesize then Ret (stat, (NULL, c), s) else Fault
      | _ => Ret (stat, (At t, c), s)
      end in
    match addrp, op with
    | NULL, XDR_DECODE =>
        if c =? 0 then Ret (true, (NULL, c), s)
        else filter (Array (replicate (Z.to_nat c) zero) nodesize) s
    | NULL, XDR_FREE => Ret (true, (NULL, c), s)
    | NULL, XDR_ENCODE => if c =? 0 then Ret (true, (NULL, c), s) else Fault
    | At t, _ => filter t s
    | Freed, _ => Fault
    end.

(** [xdr_reference] of an object of [size] bytes, which is all its memory. *)
Definition xdr_reference : xdrproc (ptr A) := λ S x op pp s,
  let apply loc s :=
    let* (stat, loc, s) := elproc S x op loc s in
    Ret (stat, match op with XDR_FREE => NULL | _ => At loc end, s) in
  match pp, op with
  | NULL, XDR_FREE => Ret (true, NULL, s)
  | NULL, XDR_DECODE => apply zero s
  | NULL, XDR_ENCODE => Fault
  | At loc, _ => apply loc s
  | Freed, _ => Fault
  end.

Definition xdr_pointer : xdrproc (ptr A) := λ S x op objpp s,
  let more_data := match objpp with NULL => 0 | _ => 1 end in
  let* (ok, more_data, s) := xdr_bool S _ op more_data s in
  if negb ok then Ret (false, objpp, s)
  else if negb (truthy more_data) then Ret (true, NULL, s)
  else xdr_reference S _ op objpp s.

(** [xdr_union]: the object is the discriminant and the arm. *)
Definition xdr_union (choices : list (Z * xdrproc A)) (dfault : option (xdrproc A)) : xdrproc (Z * A) :=
  λ S x op obj s,
  let '(dscm, unp) := obj in
  let* (ok, dscm, s) := xdr_enum S _ op dscm s in
  if negb ok then Ret (false, (dscm, unp), s)
  else
    match List.find (λ c, c.1 =? dscm) choices with
    | Some c => let* (ok, unp, s) := c.2 S x op unp s in Ret (ok, (dscm, unp), s)
    | None =>
        match dfault with
        | None => Ret (false, (dscm, unp), s)
        | Some p => let* (ok, unp, s) := p S x op unp s in Ret (ok, (dscm, unp), s)
        end
    end.
End Constructed.
End Filters.

#[global] Arguments Array {A} _ _.
#[global] Arguments elems {A} _.
#[global] Arguments cap {A} _.

(** ** Memory streams *)

(** A stream on a buffer: all of it, the offset [x_private - x_base], [x_handy]. *)
Record xdrmem := Xdrmem { x_buf : list Z; x_private : Z; x_handy : Z }.

Definition set_handy (h : Z) (x : xdrmem) : xdrmem := Xdrmem (x_buf x) (x_private x) h.
Definition advance (n : Z) (x : xdrmem) : xdrmem := Xdrmem (x_buf x) (x_private x + n) (x_handy x).

Definition xdrmem_create (addr : list Z) : xdrmem := Xdrmem addr 0 (zlen addr).

Definition xdrmem_getlong (xdrs : xdrmem) : run (option Z * xdrmem) :=
  let xdrs := set_handy (s32 (x_handy xdrs - 4)) xdrs in
  if x_handy xdrs <? 0 then Ret (None, xdrs)
  else
    let* bs := get_bytes (x_private xdrs) 4 (x_buf xdrs) in
    Ret (Some (s32 (unbe32 bs)), advance 4 xdrs).

Definition xdrmem_putlong (l : Z) (xdrs : xdrmem) : run (bool * xdrmem) :=
  let xdrs := set_handy (s32 (x_handy xdrs - 4)) xdrs in
  if x_handy xdrs <? 0 then Ret (false, xdrs)
  else
    let* buf := put_bytes (x_private xdrs) (be32 l) (x_buf xdrs) in
    Ret (true, advance 4 (Xdrmem buf (x_private xdrs) (x_handy xdrs))).

(** [bcopy] takes the length as unsigned. *)
Definition xdrmem_getbytes (len : Z) (xdrs : xdrmem) : run (bool * list Z * xdrmem) :=
  let xdrs := set_handy (s32 (x_handy xdrs - len)) xdrs in
  if x_handy xdrs <? 0 then Ret (false, [], xdrs)
  else
    let* bs := get_bytes (x_private xdrs) (w32 len) (x_buf xdrs) in
    Ret (true, bs, advance len xdrs).

Definition xdrmem_putbytes (addr : list Z) (len : Z) (xdrs : xdrmem) : run (bool * xdrmem) :=
  let xdrs := set_handy (s32 (x_handy xdrs - len)) xdrs in
  if x_handy xdrs <? 0 then Ret (false, xdrs)
  else
    let* bs := get_bytes 0 (w32 len) addr in
    let* buf := put_bytes (x_private xdrs) bs (x_buf xdrs) in
    Ret (true, advance len (Xdrmem buf (x_private xdrs) (x_handy xdrs))).

Definition xdrmem_getpos (xdrs : xdrmem) : Z := w32 (x_private xdrs).

(** [base] is the address of the buffer: the code compares addresses as longs. *)
Definition xdrmem_setpos (base pos : Z) (xdrs : xdrmem) : bool * xdrmem :=
  let newaddr := s32 (base + pos) in
  let lastaddr := s32 (base + x_private xdrs + x_handy xdrs) in
  if lastaddr <? newaddr then (false, xdrs)
  else (true, Xdrmem (x_buf xdrs) pos (s32 (lastaddr - newaddr))).

(** The offset of the inline buffer, or NULL. *)
Definition xdrmem_inline (len : Z) (xdrs : xdrmem) : option Z * xdrmem :=
  if len <=? x_handy xdrs then
    (Some (x_private xdrs), advance len (set_handy (s32 (x_handy xdrs - len)) xdrs))
  else (None, xdrs).

Inductive xdr_request := XDR_PEEK | XDR_SKIPBYTES.

(** [x_handy < sizeof (long)] compares unsigned. *)
Definition xdrmem_control (request : xdr_request) (info : Z) (xdrs : xdrmem)
    : run (bool * Z * xdrmem) :=
  match request with
  | XDR_PEEK =>
      if w32 (x_handy xdrs) <? 4 then Ret (false, info, xdrs)
      else
        let* bs := get_bytes (x_private xdrs) 4 (x_buf xdrs) in
        Ret (true, s32 (unbe32 bs), xdrs)
  | XDR_SKIPBYTES =>
      let len := RNDUP s32 info in
      let xdrs := set_handy (s32 (x_handy xdrs - len)) xdrs in
      if x_handy xdrs <? 0 then Ret (false, info, xdrs)
      else Ret (true, info, advance len xdrs)
  end.

#[global] Instance xdrmem_ops : XdrStream xdrmem := {|
  x_getlong := xdrmem_getlong;
  x_putlong := xdrmem_putlong;
  x_getbytes := xdrmem_getbytes;
  x_putbytes := xdrmem_putbytes
|}.
