(* ===== verification/XdrCodec.v ===== *)
(** * What filters promise

    A stream promises to deliver what was put into it ([XdrDecoder],
    [XdrEncoder]); a filter promises to be a codec on every such stream
    ([Codec]).  The filters for constructed types are codecs when the filters of
    their parts are. *)

From S2P Require Import Prelude Bytes Xdr.

(** ** Streams *)

(** A stream to decode from: the bytes to come, and whether it is sound after [k] bytes
    of a unit. *)
Class XdrDecoder (S : Type) `{XdrStream S} := {
  din : S → list Z;
  dok : Z → S → Prop;
  dec_long s : dok 0 s → 4 ≤ zlen (din s) →
    ∃ s', x_getlong s = Ret (Some (s32 (unbe32 (take 4 (din s)))), s') ∧ din s' = drop 4 (din s) ∧ dok 0 s';
  dec_long_short s : dok 0 s → zlen (din s) < 4 → ∃ s', x_getlong s = Ret (None, s');
  dec_bytes k n s : dok k s → 0 ≤ n → n < 2 ^ 31 → n ≤ zlen (din s) →
    ∃ s', x_getbytes n s = Ret (true, take (Z.to_nat n) (din s), s') ∧ din s' = drop (Z.to_nat n) (din s) ∧
      dok ((k + n) `mod` 4) s';
  dec_bytes_short k n s : dok k s → zlen (din s) < n → n < 2 ^ 31 →
    ∃ bs s', x_getbytes n s = Ret (false, bs, s') ∧ zlen bs ≤ n
}.

(** A stream to encode to: the bytes put so far, and how many it has room for at least.  A
    put that fits succeeds; one that succeeds has added the bytes. *)
Class XdrOut (S : Type) := {
  eout : S → list Z;
  eok : S → Prop;
  eroom : S → Z
}.

Definition encoded {S} `{XdrOut S} (s : S) (bytes : list Z) (b : bool) (s' : S) : Prop :=
  (zlen bytes ≤ eroom s → b = true) ∧
  (b = true → eout s' = eout s ++ bytes ∧ eok s' ∧ eroom s - zlen bytes ≤ eroom s').

Class XdrEncoder (S : Type) `{XdrStream S} := {
  #[global] enc_out :: XdrOut S;
  enc_long v s : eok s → ∃ b s', x_putlong v s = Ret (b, s') ∧ encoded s (be32 v) b s';
  enc_bytes bs n s : eok s → 0 ≤ n → n < 2 ^ 31 → n ≤ zlen bs →
    ∃ b s', x_putbytes bs n s = Ret (b, s') ∧ encoded s (take (Z.to_nat n) bs) b s'
}.

(** ** Filters *)

(** [zero] is the object decoded into; [good] objects can be encoded, [wire] is their
    encoding, and [freeable] ones can be given to [xdr_free]. *)
Class Codec {A : Type} (proc : xdrproc A) (zero : A) := {
  good : A → Prop;
  wire : A → list Z;
  freeable : A → Prop;
  c_unit v : good v → zlen (wire v) `mod` 4 = 0;
  c_zero : freeable zero;
  c_good v : good v → freeable v;
  c_encode S `{XdrEncoder S} s v : good v → eok s →
    ∃ b s', proc S _ XDR_ENCODE v s = Ret (b, v, s') ∧ encoded s (wire v) b s';
  c_decode S `{XdrDecoder S} s v rest : good v → dok 0 s → din s = wire v ++ rest →
    ∃ s', proc S _ XDR_DECODE zero s = Ret (true, v, s') ∧ din s' = rest ∧ dok 0 s';
  c_total S `{XdrDecoder S} s : dok 0 s →
    ∃ b v s', proc S _ XDR_DECODE zero s = Ret (b, v, s') ∧ freeable v ∧
      (b = true → good v ∧ dok 0 s' ∧ ∃ used, din s = used ++ din s' ∧ length used = length (wire v));
  c_free S `{XdrStream S} s v : freeable v → ∃ v', proc S _ XDR_FREE v s = Ret (true, v', s)
}.

Arguments good {A} proc zero {_} v.
Arguments wire {A} proc zero {_} v.
Arguments freeable {A} proc zero {_} v.

#[local] Obligation Tactic := idtac.

(** ** Lemmas on streams *)

Lemma encoded_ok {S} `{XdrOut S} (s : S) bytes s' : encoded s bytes true s' → eok s'.
Proof. by intros [_ (? & ? & ?)]. Qed.

Lemma encoded_nil {S} `{XdrOut S} (s : S) : eok s → encoded s [] true s.
Proof. intros. split; [done|]. intros _. rewrite app_nil_r. split_and!; [done|done|simpl; lia]. Qed.

Lemma encoded_fail {S} `{XdrOut S} (s : S) bytes more s' : encoded s bytes false s' → encoded s (bytes ++ more) false s'.
Proof. intros [Hf _]. split; [|done]. rewrite length_app. intros. apply Hf. lia. Qed.

Lemma encoded_seq {S} `{XdrOut S} (s : S) bytes s' more b s'' :
  encoded s bytes true s' → encoded s' more b s'' → encoded s (bytes ++ more) b s''.
Proof.
  intros [_ Ht] [Hf2 Ht2]. destruct (Ht eq_refl) as (Ho & _ & Hr). split; rewrite length_app.
  - intros. apply Hf2. lia.
  - intros Hb. destruct (Ht2 Hb) as (Ho2 & Hok2 & Hr2). rewrite Ho2, Ho, <-app_assoc. split_and!; [done|done|lia].
Qed.

Lemma word_wire v : s32 (unbe32 (be32 v)) = s32 v.
Proof. by rewrite unbe32_be32, s32_w32. Qed.

Lemma get_word S `{XdrDecoder S} s v rest : dok 0 s → din s = be32 v ++ rest →
  ∃ s', x_getlong s = Ret (Some (s32 v), s') ∧ din s' = rest ∧ dok 0 s'.
Proof.
  intros Hok Hd. destruct (dec_long s Hok) as (s' & Hg & Hd' & Hok').
  { rewrite Hd, length_app. change (length (be32 v)) with 4%nat. lia. }
  rewrite Hd in Hg, Hd'. change (take 4 (be32 v ++ rest)) with (be32 v) in Hg. rewrite word_wire in Hg.
  by exists s'.
Qed.

(** The next word of any input. *)
Lemma get_word_total S `{XdrDecoder S} s : dok 0 s →
  (∃ s', x_getlong s = Ret (None, s')) ∨
  ∃ l s' used, x_getlong s = Ret (Some l, s') ∧ in_s32 l ∧ dok 0 s' ∧ din s = used ++ din s' ∧ length used = 4%nat.
Proof.
  intros Hok. destruct (decide (4 ≤ zlen (din s))) as [Hl|Hl].
  - right. destruct (dec_long s Hok Hl) as (s' & Hg & Hd & Hok').
    exists (s32 (unbe32 (take 4 (din s)))), s', (take 4 (din s)). rewrite Hd, take_drop, length_take.
    split; [done|]. split; [apply s32_range|]. split_and!; [done|done|lia].
  - left. apply dec_long_short; [done|lia].
Qed.

Lemma get_bytes_next S `{XdrDecoder S} k n s bs rest : dok k s → 0 ≤ n → n < 2 ^ 31 → zlen bs = n →
  din s = bs ++ rest →
  ∃ s', x_getbytes n s = Ret (true, bs, s') ∧ din s' = rest ∧ dok ((k + n) `mod` 4) s'.
Proof.
  intros Hok Hn Hn2 Hbs Hd. destruct (dec_bytes k n s Hok Hn Hn2) as (s' & Hg & Hd' & Hok').
  { rewrite Hd, length_app. lia. }
  rewrite Hd in Hg, Hd'. rewrite take_app_length' in Hg by lia. rewrite drop_app_length' in Hd' by lia.
  by exists s'.
Qed.

Lemma get_bytes_total S `{XdrDecoder S} k n s : dok k s → 0 ≤ n → n < 2 ^ 31 →
  (∃ bs s', x_getbytes n s = Ret (false, bs, s') ∧ zlen bs ≤ n) ∨
  ∃ bs s', x_getbytes n s = Ret (true, bs, s') ∧ zlen bs = n ∧ dok ((k + n) `mod` 4) s' ∧ din s = bs ++ din s'.
Proof.
  intros Hok Hn Hn2. destruct (decide (n ≤ zlen (din s))) as [Hl|Hl].
  - right. destruct (dec_bytes k n s Hok Hn Hn2 Hl) as (s' & Hg & Hd & Hok').
    exists (take (Z.to_nat n) (din s)), s'. rewrite Hd, take_drop, length_take. split_and!; [done|lia|done|done].
  - left. apply (dec_bytes_short k); [done|lia|done].
Qed.

(** ** Numbers *)

(** The filters for numbers put one word and make a number of one. *)
Definition scalar (enc dec : Z → Z) : xdrproc Z := λ S _ op v s,
  match op with
  | XDR_ENCODE => let* (ok, s) := x_putlong (enc v) s in Ret (ok, v, s)
  | XDR_DECODE =>
      let* (r, s) := x_getlong s in
      Ret (match r with Some l => (true, dec l, s) | None => (false, v, s) end)
  | XDR_FREE => Ret (true, v, s)
  end.

Section Scalar.
Context (enc dec : Z → Z) (ok : Z → Prop) (proc : xdrproc Z).
Hypothesis Hrt : ∀ v, ok v → dec (s32 (enc v)) = v.
Hypothesis Hok : ∀ l, in_s32 l → ok (dec l).
Hypothesis Hproc : ∀ S (x : XdrStream S) op v s, proc S x op v s = scalar enc dec S x op v s.

#[local] Program Instance scalar_codec : Codec proc 0 := {|
  good := ok;
  wire v := be32 (enc v);
  freeable v := True
|}.
Next Obligation. done. Qed.
Next Obligation. done. Qed.
Next Obligation. done. Qed.
Next Obligation.
  intros S ? ? s v Hv He. rewrite Hproc. simpl. destruct (enc_long (enc v) s He) as (b & s' & -> & Hb). by exists b, s'.
Qed.
Next Obligation.
  intros S ? ? s v rest Hv Hd Hin. rewrite Hproc. simpl.
  destruct (get_word S s (enc v) rest Hd Hin) as (s' & -> & ? & ?). cbn [rbind]. exists s'. by rewrite Hrt.
Qed.
Next Obligation.
  intros S ? ? s Hd. rewrite Hproc. simpl.
  destruct (get_word_total S s Hd) as [[s' ->]|(l & s' & used & -> & Hl & ? & ? & ?)]; cbn [rbind].
  - by exists false, 0, s'.
  - exists true, (dec l), s'. split_and!; [done|done|]. intros _. split_and!; [by apply Hok|done|]. by exists used.
Qed.
Next Obligation. intros S ? s v _. rewrite Hproc. by exists v. Qed.
End Scalar.

Definition scalar_instance enc dec ok proc Hrt Hok Hproc : Codec proc 0 :=
  scalar_codec enc dec ok proc Hrt Hok Hproc.

#[export] Instance xdr_long_codec : Codec xdr_long 0.
Proof.
  apply (scalar_instance (λ v, v) (λ l, l) in_s32); [apply s32_id|done|]. by intros S x [] v s.
Defined.

#[export] Instance xdr_u_long_codec : Codec xdr_u_long 0.
Proof.
  apply (scalar_instance (λ v, v) w32 in_u32).
  - intros v Hv. by rewrite w32_s32, w32_id.
  - intros l _. apply w32_range.
  - by intros S x [] v s.
Defined.

Definition in_s16 (z : Z) : Prop := - 2 ^ 15 ≤ z < 2 ^ 15.
Definition in_u16 (z : Z) : Prop := 0 ≤ z < 2 ^ 16.
Definition in_s8 (z : Z) : Prop := - 2 ^ 7 ≤ z < 2 ^ 7.

#[export] Instance xdr_short_codec : Codec xdr_short 0.
Proof.
  apply (scalar_instance (λ v, v) s16 in_s16).
  - intros v Hv. rewrite s32_id by (unfold in_s16, in_s32 in *; lia). by apply s16_id.
  - intros l _. unfold in_s16, s16. pose proof (Z.mod_pos_bound (l + 2 ^ 15) (2 ^ 16)). lia.
  - by intros S x [] v s.
Defined.

#[export] Instance xdr_u_short_codec : Codec xdr_u_short 0.
Proof.
  apply (scalar_instance (λ v, v) (λ l, l `mod` 2 ^ 16) in_u16).
  - intros v Hv. unfold in_u16 in *. rewrite s32_id by (unfold in_s32; lia). apply Z.mod_small. lia.
  - intros l _. unfold in_u16. apply Z.mod_pos_bound. lia.
  - by intros S x [] v s.
Defined.

#[export] Instance xdr_bool_codec : Codec xdr_bool 0.
Proof.
  apply (scalar_instance (λ v, if truthy v then 1 else 0) (λ l, if l =? 0 then 0 else 1) (λ v, v = 0 ∨ v = 1)).
  - by intros v [-> | ->].
  - intros l _. case_if; [by left|by right].
  - by intros S x [] v s.
Defined.

Lemma s8_range l : in_s8 (s8 l).
Proof. unfold in_s8, s8. pose proof (Z.mod_pos_bound (l + 2 ^ 7) (2 ^ 8)). lia. Qed.

Lemma s8_id v : in_s8 v → s8 v = v.
Proof. unfold in_s8, s8. intros. rewrite Z.mod_small; lia. Qed.

#[export] Program Instance xdr_char_codec : Codec xdr_char 0 := {|
  good := in_s8;
  wire v := be32 v;
  freeable v := True
|}.
Next Obligation. done. Qed.
Next Obligation. done. Qed.
Next Obligation. done. Qed.
Next Obligation.
  intros S ? ? s v Hv He. unfold xdr_char, xdr_int, xdr_long.
  destruct (enc_long v s He) as (b & s' & -> & Hb). cbn [rbind]. exists b, s'. rewrite s8_id by done. by destruct b.
Qed.
Next Obligation.
  intros S ? ? s v rest Hv Hd Hin. unfold xdr_char, xdr_int, xdr_long.
  destruct (get_word S s v rest Hd Hin) as (s' & -> & ? & ?). cbn [rbind]. exists s'.
  rewrite s32_id, s8_id by (done || unfold in_s8, in_s32 in *; lia). done.
Qed.
Next Obligation.
  intros S ? ? s Hd. unfold xdr_char, xdr_int, xdr_long.
  destruct (get_word_total S s Hd) as [[s' ->]|(l & s' & used & -> & Hl & ? & ? & ?)]; cbn [rbind].
  - by exists false, 0, s'.
  - exists true, (s8 l), s'. split; [done|]. split; [done|]. intros _.
    split; [apply s8_range|]. split; [done|]. by exists used.
Qed.
Next Obligation. intros S ? s v _. unfold xdr_char, xdr_int, xdr_long. cbn [rbind]. by eexists. Qed.

Definition in_s64 (z : Z) : Prop := - 2 ^ 63 ≤ z < 2 ^ 63.

Lemma join_hi_lo v : in_s64 v → join_words (s32 (hi_word v)) (s32 (lo_word v)) = v.
Proof.
  unfold in_s64, join_words, hi_word, lo_word. intros Hv. rewrite !w32_s32, shiftr_div by lia.
  assert (in_s32 (v / 2 ^ 32)) as Hhi.
  { change (2 ^ 32) with 4294967296. unfold in_s32. Z.to_euclidean_division_equations. lia. }
  rewrite (s32_id (v / 2 ^ 32)), s32_id by done. unfold w32. pose proof (Z_div_mod_eq_full v (2 ^ 32)). lia.
Qed.

Lemma join_range hi lo : in_s32 hi → in_s64 (join_words hi lo).
Proof. unfold in_s32, in_s64, join_words. pose proof (w32_range lo) as Hl. unfold in_u32 in Hl. lia. Qed.

Section TwoWords.
Context (join : Z → Z → Z) (ok : Z → Prop).
Hypothesis Hjoin : ∀ v, ok v → join (s32 (hi_word v)) (s32 (lo_word v)) = v.
Hypothesis Hrange : ∀ hi lo, in_s32 hi → in_s32 lo → ok (join hi lo).

#[local] Program Instance two_words_codec : Codec (xdr_two_words join) 0 := {|
  good := ok;
  wire v := be32 (hi_word v) ++ be32 (lo_word v);
  freeable v := True
|}.
Next Obligation. done. Qed.
Next Obligation. done. Qed.
Next Obligation. done. Qed.
Next Obligation.
  intros S ? ? s v Hv He. unfold xdr_two_words.
  destruct (enc_long (hi_word v) s He) as (b & s1 & -> & Hb). cbn [rbind].
  destruct b; [|exists false, s1; split; [done|by apply encoded_fail]].
  destruct (enc_long (lo_word v) s1 (encoded_ok _ _ _ Hb)) as (b & s2 & -> & Hb2). cbn [rbind].
  exists b, s2. split; [done|]. by eapply encoded_seq.
Qed.
Next Obligation.
  intros S ? ? s v rest Hv Hd Hin. cbv beta in Hin. rewrite <-app_assoc in Hin. unfold xdr_two_words.
  destruct (get_word S s _ _ Hd Hin) as (s1 & -> & Hin1 & Hd1). cbn [rbind].
  destruct (get_word S s1 _ _ Hd1 Hin1) as (s2 & -> & ? & ?). cbn [rbind]. exists s2. by rewrite Hjoin.
Qed.
Next Obligation.
  intros S ? ? s Hd. unfold xdr_two_words.
  destruct (get_word_total S s Hd) as [[s1 ->]|(hi & s1 & u1 & -> & Hhi & Hd1 & Hi1 & Hu1)]; cbn [rbind];
    [by do 3 eexists|].
  destruct (get_word_total S s1 Hd1) as [[s2 ->]|(lo & s2 & u2 & -> & Hlo & Hd2 & Hi2 & Hu2)]; cbn [rbind];
    [by do 3 eexists|].
  exists true, (join hi lo), s2. split; [done|]. split; [done|]. intros _.
  split; [by apply Hrange|]. split; [done|]. exists (u1 ++ u2).
  rewrite <-app_assoc, <-Hi2, length_app, Hu1, Hu2. done.
Qed.
Next Obligation. intros S ? s v _. by eexists. Qed.
End TwoWords.

#[export] Instance xdr_longlong_codec : Codec xdr_longlong_t 0.
Proof. apply (two_words_codec join_words in_s64); [apply join_hi_lo|]. intros. by apply join_range. Defined.

Definition in_u64 (z : Z) : Prop := 0 ≤ z < 2 ^ 64.

Lemma join_u_hi_lo v : in_u64 v → join_u_words (s32 (hi_word v)) (s32 (lo_word v)) = v.
Proof.
  unfold in_u64, join_u_words, hi_word, lo_word. intros Hv. rewrite !w32_s32, shiftr_div by lia.
  assert (in_u32 (v / 2 ^ 32)) as Hhi.
  { change (2 ^ 32) with 4294967296. unfold in_u32. Z.to_euclidean_division_equations. lia. }
  rewrite (w32_id (v / 2 ^ 32)) by done. unfold w32. pose proof (Z_div_mod_eq_full v (2 ^ 32)). lia.
Qed.

#[export] Instance xdr_u_longlong_codec : Codec xdr_u_longlong_t 0.
Proof.
  apply (two_words_codec join_u_words in_u64); [apply join_u_hi_lo|]. intros hi lo _ _.
  unfold in_u64, join_u_words. pose proof (w32_range hi) as Hh. pose proof (w32_range lo) as Hl.
  unfold in_u32 in *. lia.
Defined.

(** ** Opaque data *)

Definition pad (cnt : Z) : list Z := replicate (Z.to_nat (rndup_of cnt)) 0.

Lemma rndup_range cnt : 0 ≤ rndup_of cnt < 4.
Proof.
  unfold rndup_of, BYTES_PER_XDR_UNIT. pose proof (Z.mod_pos_bound cnt 4).
  destruct (truthy (cnt `mod` 4)) eqn:E; [apply truthy_true in E|]; lia.
Qed.

Lemma rndup_unit cnt : (cnt + rndup_of cnt) `mod` 4 = 0.
Proof.
  unfold rndup_of, BYTES_PER_XDR_UNIT. destruct (truthy (cnt `mod` 4)) eqn:E.
  - Z.to_euclidean_division_equations. lia.
  - apply truthy_false in E. rewrite E, Z.add_0_r. done.
Qed.

Lemma pad_len cnt : zlen (pad cnt) = rndup_of cnt.
Proof. unfold pad. rewrite length_replicate. pose proof (rndup_range cnt). lia. Qed.

Lemma pad_zero cnt : take (Z.to_nat (rndup_of cnt)) xdr_zero = pad cnt.
Proof.
  unfold pad. pose proof (rndup_range cnt).
  assert (rndup_of cnt = 0 ∨ rndup_of cnt = 1 ∨ rndup_of cnt = 2 ∨ rndup_of cnt = 3) as [E|[E|[E|E]]] by lia;
    by rewrite E.
Qed.

(** [cp] may have more memory than the bytes put; what it has more is kept. *)
Lemma put_front bs cp : zlen bs ≤ zlen cp → put_bytes 0 bs cp = Ret (bs ++ drop (length bs) cp).
Proof.
  intros H. unfold put_bytes.
  rewrite (proj2 (Z.leb_le 0 0)), (proj2 (Z.leb_le (0 + zlen bs) (zlen cp))) by lia. cbn [andb].
  by rewrite Z.add_0_l, Nat2Z.id.
Qed.

Lemma opaque_encode S `{XdrEncoder S} cnt cp s : 0 ≤ cnt → cnt < 2 ^ 31 → cnt ≤ zlen cp → eok s →
  ∃ b s', xdr_opaque cnt S _ XDR_ENCODE cp s = Ret (b, cp, s') ∧
    encoded s (take (Z.to_nat cnt) cp ++ pad cnt) b s'.
Proof.
  intros Hc0 Hc1 Hlen He. unfold xdr_opaque. destruct (Z.eqb_spec cnt 0) as [->|Hnz].
  { exists true, s. split; [done|]. by apply encoded_nil. }
  rewrite s32_id by (unfold in_s32; lia).
  destruct (enc_bytes cp cnt s He) as (b & s1 & -> & Hb); [done..|]. cbn [rbind].
  destruct b; [|exists false, s1; split; [done|by apply encoded_fail]]. pose proof (encoded_ok _ _ _ Hb) as He1.
  pose proof (rndup_range cnt). destruct (Z.eqb_spec (rndup_of cnt) 0) as [E|E].
  - exists true, s1. split; [done|]. unfold pad. by rewrite E, app_nil_r.
  - destruct (enc_bytes xdr_zero (rndup_of cnt) s1 He1) as (b & s2 & -> & Hb2); [lia|lia|simpl; lia|]. cbn [rbind].
    exists b, s2. split; [done|]. rewrite pad_zero in Hb2. by eapply encoded_seq.
Qed.

(** The filler is not looked at. *)
Lemma opaque_decode_fill S `{XdrDecoder S} cnt bs fill cp rest s : zlen fill = rndup_of cnt → cnt < 2 ^ 31 → zlen bs = cnt → cnt ≤ zlen cp →
  dok 0 s → din s = bs ++ fill ++ rest →
  ∃ s', xdr_opaque cnt S _ XDR_DECODE cp s = Ret (true, bs ++ drop (length bs) cp, s') ∧ din s' = rest ∧ dok 0 s'.
Proof.
  intros Hfill Hc1 Hbs Hlen Hd Hin. unfold xdr_opaque. destruct (Z.eqb_spec cnt 0) as [->|Hnz].
  { destruct bs; [|simpl in Hbs; lia]. destruct fill; [|discriminate]. by exists s. }
  rewrite s32_id by (unfold in_s32; lia).
  destruct (get_bytes_next S 0 cnt s bs (fill ++ rest) Hd) as (s1 & -> & Hin1 & Hd1); [lia|done|done|done|]. cbn [rbind].
  rewrite put_front by lia. cbn [rbind]. pose proof (rndup_range cnt).
  destruct (Z.eqb_spec (rndup_of cnt) 0) as [E|E].
  - exists s1. split; [done|]. rewrite E in Hfill. destruct fill; [|discriminate]. split; [done|].
    pose proof (rndup_unit cnt) as Hu. rewrite E, Z.add_0_r in Hu. by rewrite Z.add_0_l, Hu in Hd1.
  - destruct (get_bytes_next S _ (rndup_of cnt) s1 fill rest Hd1) as (s2 & -> & Hin2 & Hd2);
      [lia|lia|done|done|]. cbn [rbind]. exists s2. split; [done|]. split; [done|].
    by rewrite Z.add_0_l, Zplus_mod_idemp_l, rndup_unit in Hd2.
Qed.

Lemma opaque_decode S `{XdrDecoder S} cnt bs cp rest s : cnt < 2 ^ 31 → zlen bs = cnt → cnt ≤ zlen cp →
  dok 0 s → din s = bs ++ pad cnt ++ rest →
  ∃ s', xdr_opaque cnt S _ XDR_DECODE cp s = Ret (true, bs ++ drop (length bs) cp, s') ∧ din s' = rest ∧ dok 0 s'.
Proof. intros. eapply opaque_decode_fill; [apply pad_len|done..]. Qed.

(** On any input. *)
Lemma opaque_total S `{XdrDecoder S} cnt cp s : 0 ≤ cnt → cnt < 2 ^ 31 → cnt ≤ zlen cp → dok 0 s →
  ∃ b cp' s', xdr_opaque cnt S _ XDR_DECODE cp s = Ret (b, cp', s') ∧ zlen cp' = zlen cp ∧
    (b = true → dok 0 s' ∧ ∃ bs used, zlen bs = cnt ∧ cp' = bs ++ drop (length bs) cp ∧
       din s = used ++ din s' ∧ zlen used = cnt + rndup_of cnt).
Proof.
  intros Hc0 Hc1 Hlen Hd. unfold xdr_opaque. destruct (Z.eqb_spec cnt 0) as [->|Hnz].
  { exists true, cp, s. split_and!; [done|done|]. intros _. split; [done|]. by exists [], []. }
  rewrite s32_id by (unfold in_s32; lia).
  destruct (get_bytes_total S 0 cnt s Hd Hc0 Hc1) as [(bs & s1 & -> & Hbs)|(bs & s1 & -> & Hbs & Hd1 & Hin1)];
    cbn [rbind]; rewrite put_front by lia; cbn [rbind];
    assert (zlen (bs ++ drop (length bs) cp) = zlen cp) as Hl by (rewrite length_app, length_drop; lia).
  { by exists false, (bs ++ drop (length bs) cp), s1. }
  pose proof (rndup_range cnt).
  destruct (Z.eqb_spec (rndup_of cnt) 0) as [E|E].
  - exists true, (bs ++ drop (length bs) cp), s1. split_and!; [done|done|]. intros _.
    pose proof (rndup_unit cnt) as Hu. rewrite E, Z.add_0_r in Hu. rewrite Z.add_0_l, Hu in Hd1.
    split; [done|]. exists bs, bs. rewrite E. split_and!; [done|done|done|lia].
  - destruct (get_bytes_total S _ (rndup_of cnt) s1 Hd1) as [(p & s2 & -> & Hp)|(p & s2 & -> & Hp & Hd2 & Hin2)]; [lia|lia|..];
      cbn [rbind]; [by do 3 eexists|].
    exists true, (bs ++ drop (length bs) cp), s2. split_and!; [done|done|]. intros _.
    rewrite Z.add_0_l, Zplus_mod_idemp_l, rndup_unit in Hd2. split; [done|]. exists bs, (bs ++ p).
    rewrite length_app, <-app_assoc, <-Hin2. split_and!; [done|done|done|lia].
Qed.

Lemma drop_all (bs cp : list Z) : zlen bs = zlen cp → bs ++ drop (length bs) cp = bs.
Proof. intros H. rewrite drop_ge by lia. apply app_nil_r. Qed.

(** A fixed number of bytes, embedded in the object. *)
Definition opaque_zero (cnt : Z) : list Z := replicate (Z.to_nat cnt) 0.

Lemma opaque_zero_len cnt : 0 ≤ cnt → zlen (opaque_zero cnt) = cnt.
Proof. intros. unfold opaque_zero. rewrite length_replicate. lia. Qed.

Program Definition xdr_opaque_codec (cnt : Z) (H0 : 0 ≤ cnt) (H1 : cnt < 2 ^ 31) :
    Codec (xdr_opaque cnt) (opaque_zero cnt) := {|
  good v := zlen v = cnt;
  wire v := v ++ pad cnt;
  freeable v := True
|}.
Next Obligation.
  intros cnt H0 H1 v Hv. cbv beta in *.
  rewrite length_app, Nat2Z.inj_add, Hv, pad_len. apply rndup_unit.
Qed.
Next Obligation. done. Qed.
Next Obligation. done. Qed.
Next Obligation.
  intros cnt H0 H1 S ? ? s v Hv He. cbv beta in *.
  destruct (opaque_encode S cnt v s) as (b & s' & -> & Hb); [done|done|lia|done|].
  exists b, s'. split; [done|]. by rewrite take_ge in Hb by lia.
Qed.
Next Obligation.
  intros cnt H0 H1 S ? ? s v rest Hv Hd Hin. cbv beta in *. rewrite <-app_assoc in Hin.
  destruct (opaque_decode S cnt v (opaque_zero cnt) rest s) as (s' & -> & ? & ?);
    [done|done|rewrite opaque_zero_len by lia; lia|done|done|].
  exists s'. by rewrite drop_all by (rewrite opaque_zero_len by lia; lia).
Qed.
Next Obligation.
  intros cnt H0 H1 S ? ? s Hd. cbv beta in *.
  destruct (opaque_total S cnt (opaque_zero cnt) s) as (b & cp & s' & -> & Hl & Hb);
    [done|done|rewrite opaque_zero_len by lia; lia|done|].
  rewrite opaque_zero_len in Hl by lia. exists b, cp, s'. split_and!; [done|done|]. intros Ht.
  destruct (Hb Ht) as (Hd' & bs & used & Hbs & Hcp & Hin & Hu). split_and!; [done|done|].
  exists used. split; [done|]. rewrite length_app. pose proof (pad_len cnt). lia.
Qed.
Next Obligation. intros cnt H0 H1 S ? s v _. unfold xdr_opaque. destruct (cnt =? 0); by eexists. Qed.

(** ** Counted data *)

Section Counted.
Context (junk : nat → Z).

Lemma mem_alloc_len n : 0 ≤ n → zlen (mem_alloc junk n) = n.
Proof. intros. unfold mem_alloc. rewrite length_fmap, length_seq. lia. Qed.

Definition bytes_good (maxsize : Z) (v : ptr (list Z) * Z) : Prop :=
  v = (NULL, 0) ∨ ∃ sp, v = (At sp, zlen sp) ∧ 0 < zlen sp ≤ maxsize.
Definition bytes_wire (v : ptr (list Z) * Z) : list Z :=
  be32 v.2 ++ match v.1 with At sp => sp ++ pad v.2 | _ => [] end.
Definition bytes_freeable (v : ptr (list Z) * Z) : Prop :=
  v.1 = NULL ∨ ∃ sp, v = (At sp, zlen sp).

Lemma u_int_decode S `{XdrDecoder S} v0 v rest s : in_u32 v → dok 0 s → din s = be32 v ++ rest →
  ∃ s', xdr_u_int S _ XDR_DECODE v0 s = Ret (true, v, s') ∧ din s' = rest ∧ dok 0 s'.
Proof.
  intros Hv Hd Hin. unfold xdr_u_int, xdr_u_long. destruct (get_word S s v rest Hd Hin) as (s' & -> & ? & ?).
  cbn [rbind]. exists s'. by rewrite w32_s32, w32_id.
Qed.

Lemma u_int_total S `{XdrDecoder S} v0 s : dok 0 s →
  (∃ s', xdr_u_int S _ XDR_DECODE v0 s = Ret (false, v0, s')) ∨
  ∃ v s' used, xdr_u_int S _ XDR_DECODE v0 s = Ret (true, v, s') ∧ in_u32 v ∧ dok 0 s' ∧
    din s = used ++ din s' ∧ length used = 4%nat.
Proof.
  intros Hd. unfold xdr_u_int, xdr_u_long.
  destruct (get_word_total S s Hd) as [[s' ->]|(l & s' & used & -> & Hl & ? & ? & ?)]; cbn [rbind].
  - left. by exists s'.
  - right. exists (w32 l), s', used. split; [done|]. split; [apply w32_range|]. done.
Qed.

Lemma u_int_encode S `{XdrEncoder S} v s : eok s →
  ∃ b s', xdr_u_int S _ XDR_ENCODE v s = Ret (b, v, s') ∧ encoded s (be32 v) b s'.
Proof.
  intros He. unfold xdr_u_int, xdr_u_long. destruct (enc_long v s He) as (b & s' & -> & Hb). by exists b, s'.
Qed.

Program Definition xdr_bytes_codec (maxsize : Z) (H0 : 0 ≤ maxsize) (H1 : maxsize < 2 ^ 31) :
    Codec (xdr_bytes junk maxsize) (NULL, 0) := {|
  good := bytes_good maxsize;
  wire := bytes_wire;
  freeable := bytes_freeable
|}.
Next Obligation.
  intros maxsize H0 H1 v [->|(sp & -> & Hs)]; [done|]. unfold bytes_wire. simpl snd. simpl fst.
  rewrite !length_app. pose proof (pad_len (zlen sp)). pose proof (rndup_unit (zlen sp)) as Hu.
  change (length (be32 (zlen sp))) with 4%nat. Z.to_euclidean_division_equations. lia.
Qed.
Next Obligation. intros. by left. Qed.
Next Obligation. intros maxsize H0 H1 v [->|(sp & -> & Hs)]; [by left|right; by exists sp]. Qed.
Next Obligation.
  intros maxsize H0 H1 S ? ? s v Hv He. unfold xdr_bytes. destruct v as [cpp n].
  destruct (u_int_encode S n s He) as (b & s1 & -> & Hb). cbn [rbind].
  destruct b; cbn [negb]; [|exists false, s1; split; [done|by apply encoded_fail]].
  destruct Hv as [[= -> ->]|(sp & [= -> ->] & Hs)]; rewrite (proj2 (Z.ltb_ge _ _)) by lia; cbn [andb].
  - exists true, s1. split; [done|]. unfold bytes_wire. cbn [fst snd]. by rewrite app_nil_r.
  - destruct (opaque_encode S (zlen sp) sp s1) as (b & s2 & -> & Hb2);
      [lia|lia|lia|by eapply encoded_ok|]. cbn [rbind].
    exists b, s2. split; [done|]. rewrite take_ge in Hb2 by lia. by eapply encoded_seq.
Qed.
Next Obligation.
  intros maxsize H0 H1 S ? ? s v rest Hv Hd Hin. unfold xdr_bytes. unfold bytes_wire in Hin.
  rewrite <-app_assoc in Hin.
  assert (in_u32 v.2) as Hn by (destruct Hv as [->|(sp & -> & Hs)]; unfold in_u32; simpl; lia).
  destruct (u_int_decode S 0 v.2 _ s Hn Hd Hin) as (s1 & -> & Hin1 & Hd1). cbn [rbind negb].
  destruct Hv as [->|(sp & -> & Hs)]; cbn [fst snd] in *; rewrite (proj2 (Z.ltb_ge _ _)) by lia; cbn [andb].
  - by exists s1.
  - rewrite (proj2 (Z.eqb_neq _ _)) by lia. rewrite <-app_assoc in Hin1.
    destruct (opaque_decode S (zlen sp) sp (mem_alloc junk (zlen sp)) rest s1) as (s2 & -> & Hin2 & Hd2);
      [lia|done|rewrite mem_alloc_len; lia|done|done|]. cbn [rbind]. exists s2.
    by rewrite drop_all by (rewrite mem_alloc_len; lia).
Qed.
Next Obligation.
  intros maxsize H0 H1 S ? ? s Hd. unfold xdr_bytes.
  destruct (u_int_total S 0 s Hd) as [[s1 ->]|(n & s1 & u1 & -> & Hn & Hd1 & Hi1 & Hu1)]; cbn [rbind negb].
  { exists false, (NULL, 0), s1. split_and!; [done|by left|done]. }
  destruct (Z.ltb_spec maxsize n) as [Hbig|Hfit]; cbn [andb].
  { exists false, (NULL, n), s1. split_and!; [done|by left|done]. }
  destruct (Z.eqb_spec n 0) as [->|Hnz].
  { exists true, (NULL, 0), s1. split_and!; [done|by left|]. intros _. split_and!; [by left|done|].
    exists u1. by rewrite Hu1. }
  unfold in_u32 in Hn.
  destruct (opaque_total S n (mem_alloc junk n) s1) as (b & cp & s2 & -> & Hl & Hb);
    [lia|lia|rewrite mem_alloc_len; lia|done|]. cbn [rbind].
  rewrite mem_alloc_len in Hl by lia. exists b, (At cp, n), s2.
  split_and!; [done|right; exists cp; by rewrite Hl|].
  intros Ht. destruct (Hb Ht) as (Hd2 & bs & used & Hbs & Hcp & Hi2 & Hu2).
  split; [right; exists cp; split; [by rewrite Hl|lia]|]. split; [done|].
  exists (u1 ++ used). rewrite <-app_assoc, <-Hi2. split; [done|].
  unfold bytes_wire. simpl fst. simpl snd. rewrite !length_app. pose proof (pad_len n).
  change (length (be32 n)) with 4%nat. lia.
Qed.
Next Obligation.
  intros maxsize H0 H1 S ? s v [Hv|(sp & ->)]; unfold xdr_bytes.
  - destruct v as [cpp n]. simpl in Hv. subst cpp. cbn. rewrite andb_false_r. by eexists.
  - cbn. rewrite andb_false_r. unfold mem_free. rewrite Z.eqb_refl. by eexists.
Qed.

(** ** Strings *)

Lemma strlen_app cs rest : 0 ∉ cs → strlen (cs ++ 0 :: rest) = Some (zlen cs).
Proof.
  induction cs as [|c cs IH]; intros Hn; simpl; [done|].
  apply not_elem_of_cons in Hn as [Hc Hn]. rewrite (proj2 (Z.eqb_neq c 0)) by congruence.
  rewrite IH by done. simpl. f_equal. lia.
Qed.

(** A string whose length is that of its memory holds no other zero. *)
Lemma strlen_full cs : strlen (cs ++ [0]) = Some (zlen cs) → 0 ∉ cs.
Proof.
  induction cs as [|c cs IH]; simpl; [intros _; apply not_elem_of_nil|].
  destruct (Z.eqb_spec c 0) as [->|Hc]; [intros [= H]; lia|].
  destruct (strlen (cs ++ [0])) as [n|]; [|done]. simpl. intros [= H].
  apply not_elem_of_cons. split; [done|]. apply IH. f_equal. lia.
Qed.

Lemma strlen_some cs : is_Some (strlen (cs ++ [0])).
Proof.
  induction cs as [|c cs [n IH]]; simpl; [by eexists|]. destruct (c =? 0); [by eexists|]. rewrite IH. by eexists.
Qed.

Definition string_good (maxsize : Z) (v : ptr (list Z)) : Prop :=
  ∃ cs, v = At (cs ++ [0]) ∧ (0 ∉ cs) ∧ zlen cs ≤ maxsize.
Definition chars (v : ptr (list Z)) : list Z :=
  match v with At sp => removelast sp | _ => [] end.
Definition string_wire (v : ptr (list Z)) : list Z := be32 (zlen (chars v)) ++ chars v ++ pad (zlen (chars v)).

Lemma chars_snoc cs : chars (At (cs ++ [0])) = cs.
Proof. apply removelast_last. Qed.

(** Fresh memory for a string, terminated. *)
Lemma string_alloc n : 0 ≤ n → ∃ init, put_bytes n [0] (mem_alloc junk (n + 1)) = Ret (init ++ [0]) ∧ zlen init = n.
Proof.
  intros Hn. exists (take (Z.to_nat n) (mem_alloc junk (n + 1))). unfold put_bytes. pose proof (mem_alloc_len (n + 1)).
  rewrite (proj2 (Z.leb_le 0 n)), (proj2 (Z.leb_le (n + zlen [0]) _)) by (simpl; lia). cbn [andb].
  rewrite (drop_ge (mem_alloc junk (n + 1))) by (simpl; lia). rewrite app_nil_r, length_take. split; [done|lia].
Qed.

Lemma drop_init (cs init : list Z) : zlen cs = zlen init → drop (length cs) (init ++ [0]) = [0].
Proof. intros H. rewrite drop_app_length'; [done|lia]. Qed.

Program Definition xdr_string_codec (maxsize : Z) (H0 : 0 ≤ maxsize) (H1 : maxsize < 2 ^ 31) :
    Codec (xdr_string junk maxsize) NULL := {|
  good := string_good maxsize;
  wire := string_wire;
  freeable v := v = NULL ∨ string_good maxsize v
|}.
Next Obligation.
  intros maxsize H0 H1 v (cs & -> & Hn & Hl). unfold string_wire. rewrite chars_snoc, !length_app.
  pose proof (pad_len (zlen cs)). pose proof (rndup_unit (zlen cs)) as Hu.
  change (length (be32 (zlen cs))) with 4%nat. Z.to_euclidean_division_equations. lia.
Qed.
Next Obligation. intros. by left. Qed.
Next Obligation. intros. by right. Qed.
Next Obligation.
  intros maxsize H0 H1 S ? ? s v (cs & -> & Hn & Hl) He. unfold xdr_string.
  rewrite strlen_app by done. cbn [rbind].
  destruct (u_int_encode S (zlen cs) s He) as (b & s1 & -> & Hb). cbn [rbind].
  unfold string_wire. rewrite chars_snoc.
  destruct b; cbn [negb]; [|exists false, s1; split; [done|by apply encoded_fail]].
  rewrite (proj2 (Z.ltb_ge _ _)) by lia.
  destruct (opaque_encode S (zlen cs) (cs ++ [0]) s1) as (b & s2 & -> & Hb2);
    [lia|lia|rewrite length_app; simpl; lia|by eapply encoded_ok|]. cbn [rbind].
  exists b, s2. split; [done|]. rewrite take_app_length' in Hb2 by lia. by eapply encoded_seq.
Qed.
Next Obligation.
  intros maxsize H0 H1 S ? ? s v rest (cs & -> & Hn & Hl) Hd Hin. unfold xdr_string. cbn [rbind].
  unfold string_wire in Hin. rewrite chars_snoc, <-!app_assoc in Hin.
  destruct (u_int_decode S 0 (zlen cs) (cs ++ pad (zlen cs) ++ rest) s) as (s1 & -> & Hin1 & Hd1);
    [unfold in_u32; lia|done|done|]. cbn [rbind negb].
  rewrite (proj2 (Z.ltb_ge _ _)) by lia. unfold xdr_string_decode.
  rewrite w32_id by (unfold in_u32; lia). rewrite (proj2 (Z.eqb_neq _ _)) by lia. cbn [rbind].
  destruct (string_alloc (zlen cs)) as (init & -> & Hi); [lia|]. cbn [rbind].
  destruct (opaque_decode S (zlen cs) cs (init ++ [0]) rest s1) as (s2 & -> & Hin2 & Hd2);
    [lia|done|rewrite length_app; lia|done|done|]. cbn [rbind negb].
  rewrite drop_init by done. rewrite strlen_app, Z.eqb_refl by done. by exists s2.
Qed.
Next Obligation.
  intros maxsize H0 H1 S ? ? s Hd. unfold xdr_string. cbn [rbind].
  destruct (u_int_total S 0 s Hd) as [[s1 ->]|(n & s1 & u1 & -> & Hn & Hd1 & Hi1 & Hu1)]; cbn [rbind negb].
  { exists false, NULL, s1. split_and!; [done|by left|done]. }
  destruct (Z.ltb_spec maxsize n) as [Hbig|Hfit].
  { exists false, NULL, s1. split_and!; [done|by left|done]. }
  unfold xdr_string_decode. unfold in_u32 in Hn.
  rewrite w32_id by (unfold in_u32; lia). rewrite (proj2 (Z.eqb_neq _ _)) by lia. cbn [rbind].
  destruct (string_alloc n) as (init & -> & Hi); [lia|]. cbn [rbind].
  destruct (opaque_total S n (init ++ [0]) s1) as (b & cp & s2 & -> & Hl & Hb);
    [lia|lia|rewrite length_app; lia|done|]. cbn [rbind].
  assert (string_failed NULL cp (n + 1) = Ret NULL) as Hfree.
  { unfold string_failed, mem_free. rewrite length_app in Hl. rewrite (proj2 (Z.eqb_eq _ _)); [done|simpl in *; lia]. }
  destruct b; cbn [negb]; [|rewrite Hfree; exists false, NULL, s2; split_and!; [done|by left|done]].
  destruct (Hb eq_refl) as (Hd2 & bs & used & Hbs & -> & Hi2 & Hu2). rewrite drop_init in Hl, Hfree |- * by lia.
  destruct (strlen_some bs) as [m Hm]. rewrite Hm. destruct (Z.eqb_spec m n) as [->|Hne]; cbn [negb].
  - assert (0 ∉ bs) as Hz by (apply strlen_full; by rewrite Hm, Hbs).
    assert (string_good maxsize (At (bs ++ [0]))) as Hg by (exists bs; split_and!; [done|done|lia]).
    exists true, (At (bs ++ [0])), s2. split_and!; [done|by right|]. intros _. split; [done|]. split; [done|].
    exists (u1 ++ used). rewrite <-app_assoc, <-Hi2. split; [done|].
    unfold string_wire. rewrite chars_snoc, !length_app, Hbs. pose proof (pad_len n).
    change (length (be32 n)) with 4%nat. lia.
  - rewrite Hfree. exists false, NULL, s2. split_and!; [done|by left|done].
Qed.
Next Obligation.
  intros maxsize H0 H1 S ? s v [->|(cs & -> & Hn & Hl)]; unfold xdr_string; [by eexists|].
  rewrite strlen_app by done. cbn. rewrite (proj2 (Z.ltb_ge _ _)) by lia.
  rewrite w32_id by (unfold in_u32; lia). unfold mem_free. rewrite length_app.
  rewrite (proj2 (Z.eqb_eq _ _)) by (simpl; lia). by eexists.
Qed.

(** Without a limit below [2^32] the size of the memory wraps: the longest length stands for
    no string at all, and decoding it succeeds. *)
Lemma xdr_wrapstring_wraps S `{XdrDecoder S} rest s : dok 0 s → din s = be32 LASTUNSIGNED ++ rest →
  ∃ s', xdr_wrapstring junk S _ XDR_DECODE NULL s = Ret (true, NULL, s') ∧ din s' = rest.
Proof.
  intros Hd Hin. unfold xdr_wrapstring, xdr_string. cbn [rbind].
  destruct (u_int_decode S 0 LASTUNSIGNED rest s) as (s1 & -> & Hin1 & _); [split; vm_compute; congruence|done|done|].
  cbn [rbind negb]. rewrite Z.ltb_irrefl. by exists s1.
Qed.
End Counted.

(** ** Arrays *)

Lemma list_insert_middle {A} (dn rest : list A) (x y : A) (n : nat) :
  n = length dn → <[n := y]> (dn ++ x :: rest) = dn ++ y :: rest.
Proof. intros ->. rewrite insert_app_r_alt by lia. by rewrite Nat.sub_diag. Qed.

Section Array.
Context {A : Type} (elproc : xdrproc A) (zero : A) `{!Codec elproc zero}.
Context (elsize maxsize : Z).
Hypothesis Hel : 0 < elsize.
Hypothesis Hmax : 0 ≤ maxsize.
Hypothesis Hfit : maxsize * elsize < 2 ^ 32.

Definition wires (es : list A) : list Z := concat (wire elproc zero <$> es).

Definition array_good (v : ptr (array A) * Z) : Prop :=
  v = (NULL, 0) ∨ ∃ es, v = (At (Array es (zlen es * elsize)), zlen es) ∧ 0 < zlen es ≤ maxsize ∧
    Forall (good elproc zero) es.
Definition array_wire (v : ptr (array A) * Z) : list Z :=
  be32 v.2 ++ match v.1 with At t => wires (elems t) | _ => [] end.
Definition array_freeable (v : ptr (array A) * Z) : Prop :=
  v.1 = NULL ∨ ∃ es, v = (At (Array es (zlen es * elsize)), zlen es) ∧ zlen es * elsize < 2 ^ 32 ∧
    Forall (freeable elproc zero) es.

Lemma wires_cons v es : wires (v :: es) = wire elproc zero v ++ wires es.
Proof. done. Qed.

Lemma wires_unit es : Forall (good elproc zero) es → zlen (wires es) `mod` 4 = 0.
Proof.
  induction 1 as [|v es Hv _ IH]; [done|]. rewrite wires_cons, length_app.
  pose proof (c_unit v Hv). Z.to_euclidean_division_equations. lia.
Qed.

Lemma elsize_u32 : maxsize < 2 ^ 32.
Proof using Hel Hmax Hfit. nia. Qed.

Lemma array_encode S `{XdrEncoder S} es : ∀ dn cp s, Forall (good elproc zero) es → eok s →
  (zlen dn + zlen es) * elsize ≤ cp →
  ∃ b s', array_loop elsize elproc S _ XDR_ENCODE (length es) (length dn) (Array (dn ++ es) cp) s =
      Ret (b, Array (dn ++ es) cp, s') ∧ encoded s (wires es) b s'.
Proof using Hel.
  induction es as [|v es IH]; intros dn cp s Hg He Hcap; simpl.
  { exists true, s. split; [done|]. by apply encoded_nil. }
  simpl in Hcap. rewrite (proj2 (Z.ltb_ge _ _)) by nia.
  rewrite list_lookup_middle by done. apply Forall_cons in Hg as [Hv Hg].
  destruct (c_encode S s v Hv He) as (b & s1 & -> & Hb). cbn [rbind].
  rewrite list_insert_id by (by apply list_lookup_middle). rewrite wires_cons.
  destruct b; [|exists false, s1; split; [done|by apply encoded_fail]].
  destruct (IH (dn ++ [v]) cp s1 Hg (encoded_ok _ _ _ Hb)) as (b & s2 & Hr & Hb2); [rewrite length_app; simpl; lia|].
  rewrite <-app_assoc, length_app in Hr. simpl in Hr. rewrite Nat.add_1_r in Hr. rewrite Hr.
  exists b, s2. split; [done|]. by eapply encoded_seq.
Qed.

Lemma array_decode S `{XdrDecoder S} es : ∀ dn cp s rest, Forall (good elproc zero) es → dok 0 s →
  (zlen dn + zlen es) * elsize ≤ cp → din s = wires es ++ rest →
  ∃ s', array_loop elsize elproc S _ XDR_DECODE (length es) (length dn)
          (Array (dn ++ replicate (length es) zero) cp) s = Ret (true, Array (dn ++ es) cp, s') ∧
    din s' = rest ∧ dok 0 s'.
Proof using Hel.
  induction es as [|v es IH]; intros dn cp s rest Hg Hd Hcap Hin; simpl; [by exists s|].
  simpl in Hcap. rewrite (proj2 (Z.ltb_ge _ _)) by nia.
  rewrite list_lookup_middle by done. apply Forall_cons in Hg as [Hv Hg].
  unfold wires in Hin. simpl in Hin. rewrite <-app_assoc in Hin.
  destruct (c_decode S s v _ Hv Hd Hin) as (s1 & -> & Hin1 & Hd1). cbn [rbind].
  rewrite list_insert_middle by done.
  destruct (IH (dn ++ [v]) cp s1 rest Hg Hd1) as (s2 & Hr & ? & ?); [rewrite length_app; simpl; lia|done|].
  rewrite <-!app_assoc, length_app in Hr. simpl in Hr. rewrite Nat.add_1_r in Hr. rewrite Hr. by exists s2.
Qed.

Lemma array_total S `{XdrDecoder S} n : ∀ dn cp s, dok 0 s → Forall (good elproc zero) dn →
  (zlen dn + Z.of_nat n) * elsize ≤ cp →
  ∃ b es s', array_loop elsize elproc S _ XDR_DECODE n (length dn) (Array (dn ++ replicate n zero) cp) s =
      Ret (b, Array es cp, s') ∧ length es = (length dn + n)%nat ∧ Forall (freeable elproc zero) es ∧
    (b = true → dok 0 s' ∧ Forall (good elproc zero) es ∧
       ∃ vs used, es = dn ++ vs ∧ din s = used ++ din s' ∧ length used = length (wires vs)).
Proof using Hel.
  induction n as [|n IH]; intros dn cp s Hd Hdn Hcap; simpl.
  - exists true, (dn ++ []), s. split; [done|]. rewrite app_nil_r. split_and!; [lia| |].
    { eapply Forall_impl; [exact Hdn|apply c_good]. }
    intros _. split_and!; [done|done|]. exists [], []. by rewrite app_nil_r.
  - rewrite (proj2 (Z.ltb_ge _ _)) by nia. rewrite list_lookup_middle by done.
    destruct (c_total S s Hd) as (b & v & s1 & -> & Hfree & Hb). cbn [rbind].
    rewrite list_insert_middle by done. destruct b.
    + destruct (Hb eq_refl) as (Hv & Hd1 & u1 & Hi1 & Hu1).
      destruct (IH (dn ++ [v]) cp s1 Hd1) as (b & es & s2 & Hr & Hl & Hff & Hb2);
        [apply Forall_app; by split; [|constructor]|rewrite length_app; simpl; lia|].
      rewrite <-app_assoc, !length_app in Hr. simpl in Hr. rewrite Nat.add_1_r in Hr. rewrite Hr.
      rewrite length_app in Hl. simpl in Hl. exists b, es, s2. split_and!; [done|lia|done|].
      intros Ht. destruct (Hb2 Ht) as (Hd2 & Hg2 & vs & u2 & -> & Hi2 & Hu2). split_and!; [done|done|].
      exists (v :: vs), (u1 ++ u2). rewrite <-!app_assoc, <-Hi2. split_and!; [done|done|].
      rewrite wires_cons, !length_app. lia.
    + exists false, (dn ++ v :: replicate n zero), s1. split; [done|].
      rewrite length_app. simpl. rewrite length_replicate. split_and!; [lia| |done].
      apply Forall_app. split; [eapply Forall_impl; [exact Hdn|apply c_good]|].
      constructor; [done|]. apply Forall_replicate, c_zero.
Qed.

Lemma array_free S `{XdrStream S} es : ∀ dn cp s, Forall (freeable elproc zero) es →
  (zlen dn + zlen es) * elsize ≤ cp →
  ∃ es', array_loop elsize elproc S _ XDR_FREE (length es) (length dn) (Array (dn ++ es) cp) s =
      Ret (true, Array es' cp, s).
Proof using Hel.
  induction es as [|v es IH]; intros dn cp s Hf Hcap; simpl; [by eexists|].
  simpl in Hcap. rewrite (proj2 (Z.ltb_ge _ _)) by nia. rewrite list_lookup_middle by done.
  apply Forall_cons in Hf as [Hv Hf]. destruct (c_free S s v Hv) as (v' & ->). cbn [rbind].
  rewrite list_insert_middle by done.
  destruct (IH (dn ++ [v']) cp s Hf) as (es' & Hr); [rewrite length_app; simpl; lia|].
  rewrite <-app_assoc, length_app in Hr. simpl in Hr. rewrite Nat.add_1_r in Hr. rewrite Hr. by exists es'.
Qed.

Program Definition xdr_array_codec : Codec (xdr_array elsize elproc zero maxsize) (NULL, 0) := {|
  good := array_good;
  wire := array_wire;
  freeable := array_freeable
|}.
Next Obligation.
  intros v [->|(es & -> & Hl & Hg)]; [done|]. unfold array_wire. cbn [fst snd elems].
  rewrite length_app. pose proof (wires_unit es Hg). change (length (be32 (zlen es))) with 4%nat.
  Z.to_euclidean_division_equations. lia.
Qed.
Next Obligation. by left. Qed.
Next Obligation.
  intros v [->|(es & -> & Hl & Hg)]; [by left|right]. exists es. split_and!; [done|nia|].
  eapply Forall_impl; [exact Hg|apply c_good].
Qed.
Next Obligation.
  intros S ? ? s [addrp c] Hv He. unfold xdr_array.
  destruct (u_int_encode S c s He) as (b & s1 & -> & Hb). cbn [rbind].
  destruct b; cbn [negb]; [|exists false, s1; split; [done|by apply encoded_fail]].
  destruct Hv as [[= -> ->]|(es & [= -> ->] & Hl & Hg)]; rewrite (proj2 (Z.ltb_ge _ _)) by lia; cbn [andb].
  - exists true, s1. split; [done|]. unfold array_wire. cbn [fst snd]. by rewrite app_nil_r.
  - rewrite Nat2Z.id. destruct (array_encode S es [] (zlen es * elsize) s1 Hg (encoded_ok _ _ _ Hb)) as (b & s2 & Hr & Hb2);
      [simpl; lia|]. simpl length in Hr. simpl app in Hr. rewrite Hr. cbn [rbind].
    exists b, s2. split; [done|]. by eapply encoded_seq.
Qed.
Next Obligation.
  intros S ? ? s v rest Hv Hd Hin. unfold xdr_array. unfold array_wire in Hin. rewrite <-app_assoc in Hin.
  pose proof elsize_u32.
  assert (in_u32 v.2) as Hn by (destruct Hv as [->|(es & -> & Hl & _)]; unfold in_u32; simpl; lia).
  destruct (u_int_decode S 0 v.2 _ s Hn Hd Hin) as (s1 & -> & Hin1 & Hd1). cbn [rbind negb].
  destruct Hv as [->|(es & -> & Hl & Hg)]; cbn [fst snd elems] in *; rewrite (proj2 (Z.ltb_ge _ _)) by lia;
    cbn [andb]; [by exists s1|].
  rewrite (proj2 (Z.eqb_neq _ _)), Nat2Z.id, w32_id by (unfold in_u32; nia).
  destruct (array_decode S es [] (zlen es * elsize) s1 rest Hg Hd1) as (s2 & Hr & ? & ?); [simpl; lia|done|].
  simpl length in Hr. simpl app in Hr. rewrite Hr. cbn [rbind]. by exists s2.
Qed.
Next Obligation.
  intros S ? ? s Hd. unfold xdr_array.
  destruct (u_int_total S 0 s Hd) as [[s1 ->]|(n & s1 & u1 & -> & Hn & Hd1 & Hi1 & Hu1)]; cbn [rbind negb].
  { exists false, (NULL, 0), s1. split_and!; [done|by left|done]. }
  destruct (Z.ltb_spec maxsize n) as [Hbig|Hle]; cbn [andb].
  { exists false, (NULL, n), s1. split_and!; [done|by left|done]. }
  destruct (Z.eqb_spec n 0) as [->|Hnz].
  { exists true, (NULL, 0), s1. split_and!; [done|by left|]. intros _. split_and!; [by left|done|].
    exists u1. by rewrite Hu1. }
  unfold in_u32 in Hn. rewrite w32_id by (unfold in_u32; nia).
  destruct (array_total S (Z.to_nat n) [] (n * elsize) s1 Hd1) as (b & es & s2 & Hr & Hl & Hff & Hb);
    [constructor|simpl; lia|]. simpl length in Hr, Hl. simpl app in Hr. rewrite Hr. cbn [rbind].
  assert (zlen es = n) as Hlen by lia. exists b, (At (Array es (n * elsize)), n), s2. split; [done|].
  split; [right; exists es; rewrite Hlen; split_and!; [done|nia|done]|]. intros Ht.
  destruct (Hb Ht) as (Hd2 & Hg & vs & u2 & -> & Hi2 & Hu2). simpl app in *.
  split; [right; exists vs; rewrite Hlen; split_and!; [done|lia|lia|done]|]. split; [done|].
  exists (u1 ++ u2). rewrite <-app_assoc, <-Hi2. split; [done|].
  unfold array_wire. cbn [fst snd elems]. rewrite !length_app, Hu1, Hu2. done.
Qed.
Next Obligation.
  intros S ? s v [Hv|(es & -> & Hl & Hf)]; unfold xdr_array.
  - destruct v as [addrp c]. simpl in Hv. subst addrp. cbn. rewrite andb_false_r. by eexists.
  - cbn [xdr_u_int xdr_u_long rbind negb]. cbn. rewrite andb_false_r, Nat2Z.id, w32_id by (unfold in_u32; nia).
    destruct (array_free S es [] (zlen es * elsize) s Hf) as (es' & Hr); [simpl; lia|].
    simpl length in Hr. simpl app in Hr. rewrite Hr. cbn [rbind cap]. rewrite Z.eqb_refl. by eexists.
Qed.
End Array.
