(* ===== verification/XdrMem.v ===== *)
(** * Memory streams as streams

    The memory stream of [xdr_mem.c] delivers what was put into it; what happens
    to it at the end of the buffer, and to callers that go on. *)

From S2P Require Import Prelude Bytes Xdr XdrCodec.

(** ** The invariant *)

(** [x_handy] is what is left of a buffer that an [int] can measure. *)
Record mem_ok (s : xdrmem) : Prop := {
  mem_pos : 0 ≤ x_private s;
  mem_handy : 0 ≤ x_handy s;
  mem_len : x_private s + x_handy s = zlen (x_buf s);
  mem_int : zlen (x_buf s) < 2 ^ 31
}.

Definition mem_in (s : xdrmem) : list Z := drop (Z.to_nat (x_private s)) (x_buf s).
Definition mem_out (s : xdrmem) : list Z := take (Z.to_nat (x_private s)) (x_buf s).

Lemma mem_in_len s : mem_ok s → zlen (mem_in s) = x_handy s.
Proof. intros [H1 H2 H3 H4]. unfold mem_in. rewrite length_drop. lia. Qed.

Lemma mem_create_ok addr : zlen addr < 2 ^ 31 → mem_ok (xdrmem_create addr).
Proof. intros. split; simpl; lia. Qed.

Lemma mem_create_in addr : mem_in (xdrmem_create addr) = addr.
Proof. done. Qed.

(** Taking [n] bytes of the [x_handy]. *)
Lemma handy_sub s n : mem_ok s → 0 ≤ n → n < 2 ^ 31 → s32 (x_handy s - n) = x_handy s - n.
Proof. intros [H1 H2 H3 H4] Hn Hn2. apply s32_id. unfold in_s32. lia. Qed.

Lemma mem_getbytes_ok s n : mem_ok s → 0 ≤ n → n < 2 ^ 31 →
  xdrmem_getbytes n s =
    if x_handy s <? n then Ret (false, [], set_handy (x_handy s - n) s)
    else Ret (true, take (Z.to_nat n) (mem_in s), Xdrmem (x_buf s) (x_private s + n) (x_handy s - n)).
Proof.
  intros Hok Hn Hn2. unfold xdrmem_getbytes. rewrite handy_sub by done. cbn [x_handy set_handy].
  destruct Hok as [H1 H2 H3 H4]. destruct (Z.ltb_spec (x_handy s) n) as [Hlt|Hge].
  - by rewrite (proj2 (Z.ltb_lt _ _)) by lia.
  - rewrite (proj2 (Z.ltb_ge _ _)) by lia. rewrite w32_id by (unfold in_u32; lia).
    rewrite get_bytes_ok by (simpl; lia). done.
Qed.

Lemma mem_getlong_ok s : mem_ok s →
  xdrmem_getlong s =
    if x_handy s <? 4 then Ret (None, set_handy (x_handy s - 4) s)
    else Ret (Some (s32 (unbe32 (take 4 (mem_in s)))), Xdrmem (x_buf s) (x_private s + 4) (x_handy s - 4)).
Proof.
  intros Hok. unfold xdrmem_getlong. rewrite handy_sub by (done || lia). cbn [x_handy set_handy].
  destruct Hok as [H1 H2 H3 H4]. destruct (Z.ltb_spec (x_handy s) 4) as [Hlt|Hge].
  - by rewrite (proj2 (Z.ltb_lt _ _)) by lia.
  - rewrite (proj2 (Z.ltb_ge _ _)) by lia. rewrite get_bytes_ok by (simpl; lia). done.
Qed.

Lemma mem_step_ok s n : mem_ok s → 0 ≤ n ≤ x_handy s → mem_ok (Xdrmem (x_buf s) (x_private s + n) (x_handy s - n)).
Proof. intros [H1 H2 H3 H4] Hn. split; simpl; lia. Qed.

Lemma mem_step_in s n : mem_ok s → 0 ≤ n → 
  mem_in (Xdrmem (x_buf s) (x_private s + n) (x_handy s - n)) = drop (Z.to_nat n) (mem_in s).
Proof. intros [H1 H2 H3 H4] Hn. unfold mem_in. simpl. rewrite drop_drop. f_equal. lia. Qed.

#[export] Program Instance xdrmem_decoder : XdrDecoder xdrmem := {|
  din := mem_in;
  dok _ s := mem_ok s
|}.
Next Obligation.
  intros s Hok Hl. rewrite mem_in_len in Hl by done. simpl. rewrite mem_getlong_ok by done.
  rewrite (proj2 (Z.ltb_ge _ _)) by lia. eexists. split; [done|]. split; [by apply mem_step_in|].
  apply mem_step_ok; [done|lia].
Qed.
Next Obligation.
  intros s Hok Hl. rewrite mem_in_len in Hl by done. simpl. rewrite mem_getlong_ok by done.
  rewrite (proj2 (Z.ltb_lt _ _)) by lia. by eexists.
Qed.
Next Obligation.
  intros k n s Hok Hn Hn2 Hl. rewrite mem_in_len in Hl by done. simpl. rewrite mem_getbytes_ok by done.
  rewrite (proj2 (Z.ltb_ge _ _)) by lia. eexists. split; [done|]. split; [by apply mem_step_in|].
  apply mem_step_ok; [done|lia].
Qed.
Next Obligation.
  intros k n s Hok Hl Hn2. rewrite mem_in_len in Hl by done. simpl. destruct Hok as [H1 H2 H3 H4].
  rewrite mem_getbytes_ok by (done || lia). rewrite (proj2 (Z.ltb_lt _ _)) by lia.
  do 2 eexists. split; [done|simpl; lia].
Qed.

(** Putting [n] bytes. *)
Definition mem_put (bs : list Z) (s : xdrmem) : xdrmem :=
  Xdrmem (mem_out s ++ bs ++ drop (Z.to_nat (x_private s + zlen bs)) (x_buf s)) (x_private s + zlen bs)
    (x_handy s - zlen bs).

Lemma mem_putbytes_ok s bs n : mem_ok s → 0 ≤ n → n < 2 ^ 31 → n ≤ zlen bs →
  xdrmem_putbytes bs n s =
    if x_handy s <? n then Ret (false, set_handy (x_handy s - n) s)
    else Ret (true, mem_put (take (Z.to_nat n) bs) s).
Proof.
  intros Hok Hn Hn2 Hbs. unfold xdrmem_putbytes. rewrite handy_sub by done. cbn [x_handy set_handy].
  destruct Hok as [H1 H2 H3 H4]. destruct (Z.ltb_spec (x_handy s) n) as [Hlt|Hge].
  { by rewrite (proj2 (Z.ltb_lt _ _)) by lia. }
  rewrite (proj2 (Z.ltb_ge _ _)) by lia. rewrite w32_id by (unfold in_u32; lia).
  rewrite get_bytes_ok by lia. unfold slice. rewrite drop_0. cbn [rbind x_private x_buf x_handy set_handy].
  assert (zlen (take (Z.to_nat n) bs) = n) as Hl by (rewrite length_take; lia).
  unfold put_bytes, mem_put. rewrite Hl.
  by rewrite (proj2 (Z.leb_le _ _)), (proj2 (Z.leb_le (x_private s + n) _)) by lia.
Qed.

Lemma mem_putlong_ok s v : mem_ok s →
  xdrmem_putlong v s =
    if x_handy s <? 4 then Ret (false, set_handy (x_handy s - 4) s) else Ret (true, mem_put (be32 v) s).
Proof.
  intros Hok. unfold xdrmem_putlong. rewrite handy_sub by (done || lia). cbn [x_handy set_handy].
  destruct Hok as [H1 H2 H3 H4]. destruct (Z.ltb_spec (x_handy s) 4) as [Hlt|Hge].
  { by rewrite (proj2 (Z.ltb_lt _ _)) by lia. }
  rewrite (proj2 (Z.ltb_ge _ _)) by lia. cbn [x_private x_buf x_handy set_handy]. unfold put_bytes, mem_put. rewrite be32_len.
  by rewrite (proj2 (Z.leb_le _ _)), (proj2 (Z.leb_le (x_private s + 4) _)) by lia.
Qed.

Lemma mem_put_ok s bs : mem_ok s → zlen bs ≤ x_handy s → mem_ok (mem_put bs s).
Proof.
  intros [H1 H2 H3 H4] Hbs. unfold mem_put, mem_out.
  split; cbn [x_private x_handy x_buf]; rewrite ?length_app, ?length_take, ?length_drop; lia.
Qed.

Lemma mem_put_out s bs : mem_ok s → zlen bs ≤ x_handy s → mem_out (mem_put bs s) = mem_out s ++ bs.
Proof.
  intros [H1 H2 H3 H4] Hbs. unfold mem_put, mem_out. cbn [x_private x_buf]. rewrite app_assoc.
  apply take_app_length'. rewrite length_app, length_take. lia.
Qed.

#[export] Instance xdrmem_out : XdrOut xdrmem := {| eout := mem_out; eok := mem_ok; eroom := x_handy |}.

Lemma mem_encoded s bs : mem_ok s → zlen bs ≤ x_handy s → encoded s bs true (mem_put bs s).
Proof.
  intros Hok Hbs. split; [done|]. intros _. split; [by apply mem_put_out|]. split; [by apply mem_put_ok|].
  simpl. lia.
Qed.

Lemma mem_not_encoded s bs s' : x_handy s < zlen bs → encoded s bs false s'.
Proof. intros Hbs. split; [simpl; lia|done]. Qed.

#[export] Program Instance xdrmem_encoder : XdrEncoder xdrmem := {| enc_out := xdrmem_out |}.
Next Obligation.
  intros v s Hok. simpl. rewrite mem_putlong_ok by done. destruct (Z.ltb_spec (x_handy s) 4).
  - do 2 eexists. split; [done|]. by apply mem_not_encoded.
  - do 2 eexists. split; [done|]. by apply mem_encoded.
Qed.
Next Obligation.
  intros bs n s Hok Hn Hn2 Hbs. simpl. rewrite mem_putbytes_ok by done.
  assert (zlen (take (Z.to_nat n) bs) = n) as Hl by (rewrite length_take; lia).
  destruct (Z.ltb_spec (x_handy s) n).
  - do 2 eexists. split; [done|]. apply mem_not_encoded. lia.
  - do 2 eexists. split; [done|]. apply mem_encoded; [done|lia].
Qed.

(** ** At the end of the buffer *)

Lemma mem_getlong_short s : mem_ok s → x_handy s < 4 → xdrmem_getlong s = Ret (None, set_handy (x_handy s - 4) s).
Proof. intros Hok Hl. rewrite mem_getlong_ok by done. by rewrite (proj2 (Z.ltb_lt _ _)) by lia. Qed.

(** After a word could not be got from a memory stream, [XDR_PEEK] reads it nevertheless:
    the count of what is left has gone negative and is compared as unsigned, so the four bytes
    are read past the end of the buffer.  Before the failure the same request is refused. *)
Theorem xdrmem_peek_past_end s info : mem_ok s → x_handy s < 4 →
  xdrmem_control XDR_PEEK info s = Ret (false, info, s) ∧
  ∃ s', xdrmem_getlong s = Ret (None, s') ∧ xdrmem_control XDR_PEEK info s' = Fault.
Proof.
  intros Hok Hl. split.
  - unfold xdrmem_control. destruct Hok as [H1 H2 H3 H4]. rewrite w32_id by (unfold in_u32; lia).
    by rewrite (proj2 (Z.ltb_lt _ _)) by lia.
  - rewrite mem_getlong_short by done. eexists. split; [done|]. unfold xdrmem_control. cbn [x_handy set_handy].
    destruct Hok as [H1 H2 H3 H4].
    assert (w32 (x_handy s - 4) = x_handy s - 4 + 2 ^ 32) as ->.
    { unfold w32. rewrite <-(Z_mod_plus_full _ 1), Z.mod_small; lia. }
    rewrite (proj2 (Z.ltb_ge _ _)) by lia. rewrite get_bytes_out by (simpl; lia). done.
Qed.

Lemma xdrmem_peek_past_end_witness :
  ∃ s', xdrmem_getlong (xdrmem_create [1; 2]) = Ret (None, s') ∧ xdrmem_control XDR_PEEK 0 s' = Fault.
Proof. apply (xdrmem_peek_past_end (xdrmem_create [1; 2]) 0); [by apply mem_create_ok|done]. Defined.

(** ** The size of an array *)

(** The least count whose size wraps. *)
Definition wrap_count (elsize : Z) : Z := - ((- 2 ^ 32) / elsize).

Lemma wrap_count_spec elsize : 0 < elsize → 2 ^ 32 ≤ wrap_count elsize * elsize < 2 ^ 32 + elsize.
Proof. intros H. unfold wrap_count. pose proof (Z_div_mod_eq_full (- 2 ^ 32) elsize). pose proof (Z.mod_pos_bound (- 2 ^ 32) elsize). nia. Qed.

Lemma wrap_count_le elsize c : 0 < elsize → 2 ^ 32 ≤ c * elsize → wrap_count elsize ≤ c.
Proof. intros H Hc. pose proof (wrap_count_spec elsize H). nia. Qed.

(** The first element does not fit into what is allocated for that many. *)
Lemma array_wraps {A} (elproc : xdrproc A) (zero : A) elsize maxsize :
  0 < elsize → elsize < 2 ^ 32 → maxsize < 2 ^ 32 → 2 ^ 32 ≤ maxsize * elsize →
  xdr_array elsize elproc zero maxsize xdrmem _ XDR_DECODE (NULL, 0) (xdrmem_create (be32 (wrap_count elsize))) = Fault.
Proof.
  intros He He2 Hm Hbig. pose proof (wrap_count_spec elsize He) as Hw.
  pose proof (wrap_count_le elsize maxsize He Hbig) as Hle. assert (2 ≤ wrap_count elsize) by nia.
  unfold xdr_array.
  destruct (u_int_decode xdrmem 0 (wrap_count elsize) [] (xdrmem_create (be32 (wrap_count elsize)))) as (s' & -> & _);
    [unfold in_u32; lia|by apply mem_create_ok|by rewrite app_nil_r|]. cbn [rbind negb].
  rewrite (proj2 (Z.ltb_ge _ _)) by lia. cbn [andb]. rewrite (proj2 (Z.eqb_neq _ _)) by lia.
  assert (w32 (wrap_count elsize * elsize) = wrap_count elsize * elsize - 2 ^ 32) as ->.
  { unfold w32. rewrite <-(Z_mod_plus_full _ (-1)), Z.mod_small; lia. }
  destruct (Z.to_nat (wrap_count elsize)) eqn:E; [lia|]. cbn [array_loop cap].
  by rewrite (proj2 (Z.ltb_lt _ _)) by lia.
Qed.

(** C36: Decoding a counted array into fresh memory, whatever the input, stays inside the memory
    allocated for it exactly when the limit passed for the count times the size of an element is
    below 2^32.  The product is computed in an unsigned int: with a larger limit a count in the
    input makes it wrap, and already the first element is decoded past the memory. *)
Theorem xdr_array_bounds {A} (elproc : xdrproc A) (zero : A) `{!Codec elproc zero} elsize maxsize :
  0 < elsize → elsize < 2 ^ 32 → 0 ≤ maxsize → maxsize < 2 ^ 32 →
  (∀ s, mem_ok s → xdr_array elsize elproc zero maxsize xdrmem _ XDR_DECODE (NULL, 0) s ≠ Fault) ↔
  maxsize * elsize < 2 ^ 32.
Proof.
  intros He He2 Hm Hm2. split.
  - intros Hsafe. destruct (Z.lt_ge_cases (maxsize * elsize) (2 ^ 32)) as [Hlt|Hge]; [done|].
    exfalso. apply (Hsafe (xdrmem_create (be32 (wrap_count elsize)))); [by apply mem_create_ok|].
    by apply array_wraps.
  - intros Hfit s Hok.
    destruct (@c_total _ _ _ (xdr_array_codec elproc zero elsize maxsize He Hm Hfit) xdrmem _ xdrmem_decoder s Hok)
      as (b & v & s' & Hr & _). by rewrite Hr.
Qed.

Lemma xdr_array_bounds_witness :
  ¬ (∀ s, mem_ok s → xdr_array 64 xdr_long 0 LASTUNSIGNED xdrmem _ XDR_DECODE (NULL, 0) s ≠ Fault).
Proof.
  intros H. apply (xdr_array_bounds xdr_long 0 64 LASTUNSIGNED) in H; [|done..]. by vm_compute in H.
Defined.
