(* ===== verification/XdrTypes.v ===== *)
(** * Filters built from filters

    Pointers and structures, and the types of objects that filters describe: for
    every such type, what its filter puts can be got back, and decoding any input
    gives an object of the type, which can be freed. *)

From S2P Require Import Prelude Bytes Xdr XdrCodec XdrMem.

#[local] Obligation Tactic := idtac.

(** ** Pointers *)

Section Pointer.
Context {A : Type} (elproc : xdrproc A) (zero : A) `{!Codec elproc zero}.

Definition pointer_good (v : ptr A) : Prop :=
  match v with NULL => True | At a => good elproc zero a | Freed => False end.
Definition pointer_wire (v : ptr A) : list Z :=
  match v with At a => be32 1 ++ wire elproc zero a | _ => be32 0 end.
Definition pointer_freeable (v : ptr A) : Prop :=
  match v with NULL => True | At a => freeable elproc zero a | Freed => False end.

Program Definition xdr_pointer_codec : Codec (xdr_pointer elproc zero) NULL := {|
  good := pointer_good;
  wire := pointer_wire;
  freeable := pointer_freeable
|}.
Next Obligation.
  intros [|a|] Ha; [done| |done]. unfold pointer_wire. rewrite length_app. pose proof (c_unit a Ha).
  change (length (be32 1)) with 4%nat. Z.to_euclidean_division_equations. lia.
Qed.
Next Obligation. done. Qed.
Next Obligation. intros [|a|] Ha; [done|by apply c_good|done]. Qed.
Next Obligation.
  intros S ? ? s v Hv He. unfold xdr_pointer, xdr_bool. destruct v as [|a|]; [| |done].
  - change (if truthy 0 then 1 else 0) with 0. destruct (enc_long 0 s He) as (b & s1 & -> & Hb). cbn [rbind]. exists b, s1. by destruct b.
  - change (if truthy 1 then 1 else 0) with 1. destruct (enc_long 1 s He) as (b & s1 & -> & Hb). cbn [rbind].
    destruct b; cbn [negb]; [|exists false, s1; split; [done|by apply encoded_fail]].
    change (truthy 1) with true. cbn [negb xdr_reference].
    destruct (c_encode S s1 a Hv (encoded_ok _ _ _ Hb)) as (b & s2 & -> & Hb2). cbn [rbind].
    exists b, s2. split; [done|]. by eapply encoded_seq.
Qed.
Next Obligation.
  intros S ? ? s v rest Hv Hd Hin. unfold xdr_pointer, xdr_bool. destruct v as [|a|]; [| |done];
    unfold pointer_wire in Hin.
  - destruct (get_word S s 0 rest Hd Hin) as (s1 & -> & ? & ?). cbn. by exists s1.
  - rewrite <-app_assoc in Hin. destruct (get_word S s 1 _ Hd Hin) as (s1 & -> & Hin1 & Hd1). cbn.
    destruct (c_decode S s1 a rest Hv Hd1 Hin1) as (s2 & -> & ? & ?). cbn. by exists s2.
Qed.
Next Obligation.
  intros S ? ? s Hd. unfold xdr_pointer, xdr_bool.
  destruct (get_word_total S s Hd) as [[s1 ->]|(l & s1 & u1 & -> & Hl & Hd1 & Hi1 & Hu1)]; cbn [rbind negb].
  { by exists false, NULL, s1. }
  destruct (Z.eqb_spec l 0) as [->|Hne].
  { cbn. exists true, NULL, s1. split_and!; [done|done|]. intros _. split_and!; [done|done|]. by exists u1. }
  change (truthy 1) with true. cbn [negb xdr_reference].
  destruct (c_total S s1 Hd1) as (b & v & s2 & -> & Hf & Hb). cbn [rbind].
  exists b, (At v), s2. split_and!; [done|done|]. intros Ht. destruct (Hb Ht) as (Hg & Hd2 & u2 & Hi2 & Hu2).
  split_and!; [done|done|]. exists (u1 ++ u2). rewrite <-app_assoc, <-Hi2. split; [done|].
  unfold pointer_wire. rewrite !length_app, Hu1, Hu2. done.
Qed.
Next Obligation.
  intros S ? s [|a|] Hv; [by eexists| |done]. destruct (c_free S s a Hv) as (v' & Hfree). exists NULL.
  unfold xdr_pointer. cbn. by rewrite Hfree.
Qed.
End Pointer.

(** ** Structures *)

(** The filter for a structure applies those of its members in order and stops when one
    fails. *)
Definition xdr_pair {A B} (p : xdrproc A) (q : xdrproc B) : xdrproc (A * B) := λ S x op v s,
  let* (ok, a, s) := p S x op v.1 s in
  if ok : bool then let* (ok, b, s) := q S x op v.2 s in Ret (ok, (a, b), s) else Ret (false, (a, v.2), s).

Section Pair.
Context {A B : Type} (p : xdrproc A) (q : xdrproc B) (za : A) (zb : B) `{!Codec p za} `{!Codec q zb}.

Program Definition xdr_pair_codec : Codec (xdr_pair p q) (za, zb) := {|
  good v := good p za v.1 ∧ good q zb v.2;
  wire v := wire p za v.1 ++ wire q zb v.2;
  freeable v := freeable p za v.1 ∧ freeable q zb v.2
|}.
Next Obligation.
  intros [a b] [Ha Hb]. cbn [fst snd] in *. rewrite length_app. pose proof (c_unit a Ha). pose proof (c_unit b Hb).
  Z.to_euclidean_division_equations. lia.
Qed.
Next Obligation. split; apply c_zero. Qed.
Next Obligation. intros v [? ?]. split; by apply c_good. Qed.
Next Obligation.
  intros S ? ? s [a b] [Ha Hb] He. unfold xdr_pair. cbn [fst snd] in *.
  destruct (c_encode S s a Ha He) as (ok & s1 & -> & H1). cbn [rbind].
  destruct ok; [|exists false, s1; split; [done|by apply encoded_fail]].
  destruct (c_encode S s1 b Hb (encoded_ok _ _ _ H1)) as (ok & s2 & -> & H2). cbn [rbind].
  exists ok, s2. split; [done|]. by eapply encoded_seq.
Qed.
Next Obligation.
  intros S ? ? s [a b] rest [Ha Hb] Hd Hin. unfold xdr_pair. cbn [fst snd] in *. rewrite <-app_assoc in Hin.
  destruct (c_decode S s a _ Ha Hd Hin) as (s1 & -> & Hin1 & Hd1). cbn [rbind].
  destruct (c_decode S s1 b _ Hb Hd1 Hin1) as (s2 & -> & ? & ?). cbn [rbind]. by exists s2.
Qed.
Next Obligation.
  intros S ? ? s Hd. unfold xdr_pair. cbn [fst snd].
  destruct (c_total (proc := p) S s Hd) as (ok & a & s1 & -> & Hfa & H1). cbn [rbind].
  destruct ok; [|exists false, (a, zb), s1; split; [done|]; split; [split; [done|apply c_zero]|done]].
  destruct (H1 eq_refl) as (Ha & Hd1 & u1 & Hi1 & Hu1).
  destruct (c_total (proc := q) S s1 Hd1) as (ok & b & s2 & -> & Hfb & H2). cbn [rbind].
  exists ok, (a, b), s2. split; [done|]. split; [by split|]. intros Ht.
  destruct (H2 Ht) as (Hb & Hd2 & u2 & Hi2 & Hu2). split; [by split|]. split; [done|].
  exists (u1 ++ u2). cbn [fst snd]. rewrite <-app_assoc, <-Hi2, !length_app, Hu1, Hu2. done.
Qed.
Next Obligation.
  intros S ? s [a b] [Ha Hb]. unfold xdr_pair. cbn [fst snd] in *.
  destruct (c_free S s a Ha) as (a' & ->). cbn [rbind]. destruct (c_free S s b Hb) as (b' & ->). cbn [rbind].
  by eexists.
Qed.
End Pair.

(** ** The types of objects *)

(** What a filter is built of.  [elsize] is the size of an element in memory. *)
Inductive xty :=
  | TLong | TULong | TShort | TUShort | TChar | TBool | TLongLong | TULongLong
  | TOpaque (cnt : Z)
  | TBytes (maxsize : Z)
  | TString (maxsize : Z)
  | TArray (elsize maxsize : Z) (t : xty)
  | TPointer (t : xty)
  | TStruct (t u : xty).

Fixpoint xtype (t : xty) : Type :=
  match t with
  | TLong | TULong | TShort | TUShort | TChar | TBool | TLongLong | TULongLong => Z
  | TOpaque _ => list Z
  | TBytes _ => ptr (list Z) * Z
  | TString _ => ptr (list Z)
  | TArray _ _ t => ptr (array (xtype t)) * Z
  | TPointer t => ptr (xtype t)
  | TStruct t u => xtype t * xtype u
  end.

(** The object that a decoder is given: all zero. *)
Fixpoint xzero (t : xty) : xtype t :=
  match t with
  | TLong | TULong | TShort | TUShort | TChar | TBool | TLongLong | TULongLong => 0
  | TOpaque cnt => opaque_zero cnt
  | TBytes _ => (NULL, 0)
  | TString _ => NULL
  | TArray _ _ _ => (NULL, 0)
  | TPointer _ => NULL
  | TStruct t u => (xzero t, xzero u)
  end.

Fixpoint xproc (junk : nat → Z) (t : xty) : xdrproc (xtype t) :=
  match t with
  | TLong => xdr_long
  | TULong => xdr_u_long
  | TShort => xdr_short
  | TUShort => xdr_u_short
  | TChar => xdr_char
  | TBool => xdr_bool
  | TLongLong => xdr_longlong_t
  | TULongLong => xdr_u_longlong_t
  | TOpaque cnt => xdr_opaque cnt
  | TBytes maxsize => xdr_bytes junk maxsize
  | TString maxsize => xdr_string junk maxsize
  | TArray elsize maxsize t => xdr_array elsize (xproc junk t) (xzero t) maxsize
  | TPointer t => xdr_pointer (xproc junk t) (xzero t)
  | TStruct t u => xdr_pair (xproc junk t) (xproc junk u)
  end.

(** Limits under which the sizes that the code computes do not wrap. *)
Fixpoint limits_ok (t : xty) : Prop :=
  match t with
  | TLong | TULong | TShort | TUShort | TChar | TBool | TLongLong | TULongLong => True
  | TOpaque cnt => 0 ≤ cnt < 2 ^ 31
  | TBytes maxsize | TString maxsize => 0 ≤ maxsize < 2 ^ 31
  | TArray elsize maxsize t => 0 < elsize ∧ 0 ≤ maxsize ∧ maxsize * elsize < 2 ^ 32 ∧ limits_ok t
  | TPointer t => limits_ok t
  | TStruct t u => limits_ok t ∧ limits_ok u
  end.

(** The objects of a type: within the ranges and limits, with memory of the right size
    behind their pointers and no count without it. *)
Fixpoint typed (t : xty) : xtype t → Prop :=
  match t with
  | TLong => in_s32
  | TULong => in_u32
  | TShort => in_s16
  | TUShort => in_u16
  | TChar => in_s8
  | TBool => λ v, v = 0 ∨ v = 1
  | TLongLong => in_s64
  | TULongLong => in_u64
  | TOpaque cnt => λ v, zlen v = cnt
  | TBytes maxsize => λ v, v = (NULL, 0) ∨ ∃ sp, v = (At sp, zlen sp) ∧ 0 < zlen sp ≤ maxsize
  | TString maxsize => λ v, ∃ cs, v = At (cs ++ [0]) ∧ (0 ∉ cs) ∧ zlen cs ≤ maxsize
  | TArray elsize maxsize t => λ v,
      v = (NULL, 0) ∨ ∃ es, v = (At (Array es (zlen es * elsize)), zlen es) ∧ 0 < zlen es ≤ maxsize ∧
        Forall (typed t) es
  | TPointer t => λ v, match v with NULL => True | At a => typed t a | Freed => False end
  | TStruct t u => λ v, typed t v.1 ∧ typed u v.2
  end.

(** The bytes of an object: big-endian words, counts before counted data, data filled up
    to a unit, and a boolean before what a pointer points to. *)
Fixpoint encoding (t : xty) : xtype t → list Z :=
  match t with
  | TLong | TULong | TShort | TUShort | TChar => λ v, be32 v
  | TBool => λ v, be32 (if truthy v then 1 else 0)
  | TLongLong | TULongLong => λ v, be32 (hi_word v) ++ be32 (lo_word v)
  | TOpaque cnt => λ v, v ++ pad cnt
  | TBytes _ => bytes_wire
  | TString _ => string_wire
  | TArray _ _ t => λ v, be32 v.2 ++ match v.1 with At a => concat (encoding t <$> elems a) | _ => [] end
  | TPointer t => λ v, match v with At a => be32 1 ++ encoding t a | _ => be32 0 end
  | TStruct t u => λ v, encoding t v.1 ++ encoding u v.2
  end.

Section Types.
Context (junk : nat → Z).

(** The filter of a type is a codec for its objects and their bytes. *)
Record type_codec (t : xty) := {
  codec :: Codec (xproc junk t) (xzero t);
  codec_good v : good (xproc junk t) (xzero t) v ↔ typed t v;
  codec_wire v : wire (xproc junk t) (xzero t) v = encoding t v
}.

Lemma array_types elsize maxsize t : 0 < elsize → 0 ≤ maxsize → maxsize * elsize < 2 ^ 32 →
  type_codec t → type_codec (TArray elsize maxsize t).
Proof.
  intros Hel Hm Hf [C Hg Hw].
  exists (xdr_array_codec (xproc junk t) (xzero t) elsize maxsize Hel Hm Hf).
  - intros v. simpl. unfold array_good. apply or_iff_compat_l. f_equiv. intros es.
    do 2 apply and_iff_compat_l. by apply Forall_iff.
  - intros [[|a|] n]; [done| |done]. cbn [encoding wire xdr_array_codec xproc xzero]. unfold array_wire, wires.
    cbn [fst snd]. do 2 f_equal. apply list_fmap_ext. intros i e _. apply Hw.
Qed.

Lemma pointer_types t : type_codec t → type_codec (TPointer t).
Proof.
  intros [C Hg Hw]. exists (xdr_pointer_codec (xproc junk t) (xzero t)).
  - intros [|a|]; simpl; [done|apply Hg|done].
  - intros [|a|]; simpl; [done|by rewrite Hw|done].
Qed.

Lemma struct_types t u : type_codec t → type_codec u → type_codec (TStruct t u).
Proof.
  intros [C Hg Hw] [D Hg' Hw']. exists (xdr_pair_codec (xproc junk t) (xproc junk u) (xzero t) (xzero u)).
  - intros [a b]. simpl. by rewrite Hg, Hg'.
  - intros [a b]. simpl. by rewrite Hw, Hw'.
Qed.

Lemma xcodec t : limits_ok t → type_codec t.
Proof.
  induction t as [| | | | | | | |cnt|m|m|el m t IH|t IH|t IHt u IHu]; cbn [limits_ok].
  - intros _. by exists xdr_long_codec.
  - intros _. by exists xdr_u_long_codec.
  - intros _. by exists xdr_short_codec.
  - intros _. by exists xdr_u_short_codec.
  - intros _. by exists xdr_char_codec.
  - intros _. by exists xdr_bool_codec.
  - intros _. by exists xdr_longlong_codec.
  - intros _. by exists xdr_u_longlong_codec.
  - intros [H0 H1]. by exists (xdr_opaque_codec cnt H0 H1).
  - intros [H0 H1]. by exists (xdr_bytes_codec junk m H0 H1).
  - intros [H0 H1]. by exists (xdr_string_codec junk m H0 H1).
  - intros (? & ? & ? & ?). apply array_types; auto.
  - intros. by apply pointer_types, IH.
  - intros [? ?]. apply struct_types; auto.
Qed.
End Types.

(** ** Round trips and typing *)

(** C27: What the filter of a type puts, it gets back, if the limits in the type are not too large
    ([limits_ok]: sizes of opaque data, bytes and strings below [2^31], the limit of an array times the
    size of an element below [2^32]).  Encoding an object of the type leaves it
    alone and succeeds whenever the stream has room for its bytes; the bytes put are its encoding;
    and decoding from any stream that delivers them, into an object that is all zero, gives the
    object back and consumes exactly those bytes. *)
Theorem xdr_roundtrip junk (t : xty) (v : xtype t) (S D : Type) `{XdrEncoder S} `{XdrDecoder D}
    (s : S) (d : D) (rest : list Z) :
  limits_ok t → typed t v → eok s → dok 0 d → din d = encoding t v ++ rest →
  (∃ b s', xproc junk t S _ XDR_ENCODE v s = Ret (b, v, s') ∧
     (zlen (encoding t v) ≤ eroom s → b = true) ∧ (b = true → eout s' = eout s ++ encoding t v)) ∧
  ∃ d', xproc junk t D _ XDR_DECODE (xzero t) d = Ret (true, v, d') ∧ din d' = rest ∧ dok 0 d'.
Proof.
  intros Hl Hv He Hd Hin. destruct (xcodec junk t Hl) as [C Hg Hw].
  apply Hg in Hv. rewrite <-Hw in *. split.
  - destruct (c_encode S s v Hv He) as (b & s' & Hr & Hroom & Hput). exists b, s'.
    split_and!; [done|done|]. intros Ht. by destruct (Hput Ht).
  - by apply (c_decode D d v rest).
Qed.

(** C28: Decoding is safe and typed on any input, for a type whose limits are not too large
    ([limits_ok]: sizes of opaque data, bytes and strings below [2^31], the limit of an array times the
    size of an element below [2^32]) and an object that is all zero.
    A filter that decodes from a stream, whatever the bytes in it, does not touch memory outside its object; when it succeeds the object is of
    the type and the bytes consumed are as many as its encoding has; and succeed or fail, the
    object can be given to [xdr_free], which releases memory of the size it was allocated with. *)
Theorem xdr_decode_typed junk (t : xty) (D : Type) `{XdrDecoder D} (d : D) :
  limits_ok t → dok 0 d →
  ∃ b v d', xproc junk t D _ XDR_DECODE (xzero t) d = Ret (b, v, d') ∧
    (b = true → typed t v ∧ ∃ used, din d = used ++ din d' ∧ length used = length (encoding t v)) ∧
    ∃ v', xdr_free (xproc junk t) v = Ret v'.
Proof.
  intros Hl Hd. destruct (xcodec junk t Hl) as [C Hg Hw].
  destruct (c_total (proc := xproc junk t) D d Hd) as (b & v & d' & Hr & Hf & Hb). exists b, v, d'.
  split; [done|]. split; [|destruct (c_free unit tt v Hf) as (v' & Hfree); exists v'; unfold xdr_free; by rewrite Hfree].
  intros Ht. destruct (Hb Ht) as (Hv & _ & used & Hin & Hu). rewrite <-Hw, <-Hg. split; [done|]. by exists used.
Qed.

(** A file name and a list of words behind a pointer, as [bootparams] and credentials have them. *)
Definition sample : xty := TStruct (TString 255) (TPointer (TArray 4 16 TULong)).
Definition sample_obj : xtype sample :=
  (At [104; 105; 0], At (At (Array [7; 4294967295] 8), 2)).

Lemma sample_typed : typed sample sample_obj.
Proof.
  split.
  - exists [104; 105]. split_and!; [done| |simpl; lia]. rewrite !elem_of_cons, elem_of_nil. lia.
  - right. exists [7; 4294967295]. split; [done|]. split; [simpl; lia|]. repeat constructor; simpl; lia.
Qed.

Lemma sample_limits : limits_ok sample.
Proof. simpl. lia. Qed.

Lemma xdr_roundtrip_witness :
  (∃ s', xproc (λ _, 0) sample xdrmem _ XDR_ENCODE sample_obj (xdrmem_create (replicate 24 0)) =
     Ret (true, sample_obj, s') ∧ mem_out s' = encoding sample sample_obj) ∧
  ∃ d', xproc (λ _, 0) sample xdrmem _ XDR_DECODE (xzero sample)
          (xdrmem_create (encoding sample sample_obj ++ [9])) = Ret (true, sample_obj, d') ∧
    mem_in d' = [9] ∧ mem_ok d'.
Proof.
  destruct (xdr_roundtrip (λ _, 0) sample sample_obj xdrmem xdrmem (xdrmem_create (replicate 24 0))
    (xdrmem_create (encoding sample sample_obj ++ [9])) [9]) as [(b & s' & Hr & Hroom & Hout) Hd];
    [apply sample_limits|apply sample_typed|by apply mem_create_ok|by apply mem_create_ok|done|].
  split; [|done]. assert (b = true) as -> by (apply Hroom; vm_compute; done).
  exists s'. split; [done|]. by apply Hout.
Defined.

Lemma xdr_decode_typed_witness :
  ∃ b v d', xproc (λ _, 0) sample xdrmem _ XDR_DECODE (xzero sample) (xdrmem_create [0; 0; 0; 1; 65; 0; 0; 0; 1])
      = Ret (b, v, d') ∧
    ∃ v', xdr_free (xproc (λ _, 0) sample) v = Ret v'.
Proof.
  destruct (xdr_decode_typed (λ _, 0) sample xdrmem (xdrmem_create [0; 0; 0; 1; 65; 0; 0; 0; 1]))
    as (b & v & d' & Hr & _ & Hf); [apply sample_limits|by apply mem_create_ok|].
  by exists b, v, d'.
Defined.
