(* ===== verification/XdrMblk.v ===== *)
(** * XDR streams over message blocks ([uts/common/rpc/xdr_mblk.c])

    A stream on a chain of message blocks of [Mblk]: the blocks before the current
    one, the current one ([x_base]) and its [b_cont] chain.  Encoding allocates the
    blocks it needs.  The assertions of the code are checks that [Panic]. *)

From S2P Require Import Prelude Bytes Mblk Xdr.

(** ** Data *)

Record xdrmblk := Xdrmblk {
  xm_op : xdr_op;
  xm_passed : list mblk;     (* the blocks of the chain before x_base *)
  xm_base : option mblk;     (* x_base *)
  xm_cont : list mblk;       (* its b_cont chain *)
  xm_handy : Z;              (* x_handy *)
  xm_private : Z;            (* x_private, the size of the blocks to add *)
  xm_store : store;
  xm_waits : list bool       (* what the coming calls of strwaitbuf return: true is an error *)
}.

Definition set_xm_handy h x :=
  Xdrmblk (xm_op x) (xm_passed x) (xm_base x) (xm_cont x) h (xm_private x) (xm_store x) (xm_waits x).
Definition set_xm_base m x :=
  Xdrmblk (xm_op x) (xm_passed x) (Some m) (xm_cont x) (xm_handy x) (xm_private x) (xm_store x) (xm_waits x).
Definition set_xm_store st x :=
  Xdrmblk (xm_op x) (xm_passed x) (xm_base x) (xm_cont x) (xm_handy x) (xm_private x) st (xm_waits x).
Definition set_xm_waits w x :=
  Xdrmblk (xm_op x) (xm_passed x) (xm_base x) (xm_cont x) (xm_handy x) (xm_private x) (xm_store x) w.

(** From [m], the current block, to the chain [next] behind it. *)
Definition to_blocks (m : mblk) (next : list mblk) (x : xdrmblk) : xdrmblk :=
  Xdrmblk (xm_op x) (xm_passed x ++ [m]) (head next) (tail next) (xm_handy x) (xm_private x) (xm_store x) (xm_waits x).

(** The memory of a block: a read, and a write that is not checked against [b_rptr] and
    [b_wptr] but has to be inside the data block. *)
Definition peek_block (m : mblk) (off n : Z) (st : store) : run (list Z) :=
  let* d := get_dblk st (b_datap m) in get_bytes off n (db_data d).
Definition poke_block (m : mblk) (off : Z) (bs : list Z) (st : store) : run store :=
  let* d := get_dblk st (b_datap m) in
  let* data := put_bytes off bs (db_data d) in
  Ret (upd_dblk (b_datap m) (set_db_data data) st).
(** [b_datap->db_lim] *)
Definition db_lim (m : mblk) (st : store) : run Z := let* d := get_dblk st (b_datap m) in Ret (zlen (db_data d)).

Definition ASSERT (b : bool) : run unit := if b then Ret tt else Panic.

Definition xdrmblk_init (m : list mblk) (op : xdr_op) (sz : Z) (st : store) (waits : list bool) : run xdrmblk :=
  match m with
  | [] => Fault
  | mp :: cont =>
      let* lim := db_lim mp st in
      Ret (Xdrmblk op [] (Some mp) cont (match op with XDR_DECODE => b_size mp | _ => lim end) sz st waits)
  end.

(** ** Getting *)

Fixpoint getlong_loop (m : mblk) (cont : list mblk) (x : xdrmblk) : run (option Z * xdrmblk) :=
  let h := s32 (xm_handy x - 4) in
  let x := set_xm_handy h x in
  if h <? 0 then
    if negb (h =? -4) then Ret (None, x)
    else
      match cont with
      | [] => Ret (None, set_xm_handy 0 (to_blocks m [] x))
      | m' :: cont' => getlong_loop m' cont' (set_xm_handy (b_size m') (to_blocks m cont x))
      end
  else
    let* bs := peek_block m (b_rptr m) 4 (xm_store x) in
    Ret (Some (s32 (unbe32 bs)), set_xm_base (set_rptr (b_rptr m + 4) m) x).

Definition xdrmblk_getlong (x : xdrmblk) : run (option Z * xdrmblk) :=
  match xm_base x with
  | None => Ret (None, x)
  | Some m => getlong_loop m (xm_cont x) x
  end.

(** [got] is what has been copied to the address; [len] bytes are still to come. *)
Fixpoint getbytes_loop (m : mblk) (cont : list mblk) (got : list Z) (len : Z) (x : xdrmblk)
    : run (bool * list Z * xdrmblk) :=
  let h := s32 (xm_handy x - len) in
  if h <? 0 then
    let h := s32 (h + len) in
    let x := set_xm_handy h x in
    let* (m, got, len) :=
      if 0 <? h then
        let* bs := peek_block m (b_rptr m) h (xm_store x) in
        Ret (set_rptr (b_rptr m + h) m, got ++ bs, len - h)
      else Ret (m, got, len) in
    match cont with
    | [] => Ret (false, got, set_xm_handy 0 (to_blocks m [] x))
    | m' :: cont' => getbytes_loop m' cont' got len (set_xm_handy (b_size m') (to_blocks m cont x))
    end
  else
    let* bs := peek_block m (b_rptr m) (w32 len) (xm_store x) in
    Ret (true, got ++ bs, set_xm_base (set_rptr (b_rptr m + len) m) (set_xm_handy h x)).

Definition xdrmblk_getbytes (len : Z) (x : xdrmblk) : run (bool * list Z * xdrmblk) :=
  match xm_base x with
  | None => Ret (false, [], x)
  | Some m => getbytes_loop m (xm_cont x) [] len x
  end.

(** The count in [xdrmblk_getmblk] of the bytes in a chain. *)
Definition chain_len (m : list mblk) : Z := foldl (λ len mp, s32 (len + b_size mp)) 0 m.

(** Whether it succeeded, the chain and the length it returns, and the stream. *)
Definition xdrmblk_getmblk (x : xdrmblk) : run (bool * option (list mblk * Z) * xdrmblk) :=
  let* (r, x) := xdrmblk_getlong x in
  match r with
  | None => Ret (false, None, x)
  | Some llen =>
      let m := option_list (xm_base x) ++ xm_cont x in
      if chain_len m <? llen then Ret (false, Some (m, w32 llen), x)
      else
        Ret (true, Some (m, w32 llen),
          Xdrmblk (xm_op x) (xm_passed x ++ m) None [] 0 (xm_private x) (xm_store x) (xm_waits x))
  end.

Section Put.
(** As in [Mblk]: the size of a [dblk_t], and what fresh memory holds. *)
Context (sizeof_dblk : Z) (junk : Z → Z → Z).

(** ** Putting *)

(** The loop of [xdrmblk_alloc]. *)
Fixpoint alloc_loop (waits : list bool) (sz : Z) (st : store) : run (option mblk * store * list bool) :=
  let* (mp, st) := allocb sizeof_dblk junk sz st in
  match mp, waits with
  | Some mp, _ => Ret (Some mp, st, waits)
  | None, false :: waits => alloc_loop waits sz st
  | None, _ => Ret (None, st, tail waits)
  end.

Definition xdrmblk_alloc (sz : Z) (waits : list bool) (st : store) : run (option mblk * store * list bool) :=
  if sz =? 0 then Ret (None, st, waits) else alloc_loop waits sz st.

(** The block with its pointers moved, and [x_handy]. *)
Definition XDRMBLK_SETHANDY (mp : mblk) (blen adjust : Z) (st : store) : run (mblk * Z) :=
  let* mpsize := db_lim mp st in
  let* _ := ASSERT ((blen <=? mpsize) && (b_rptr mp =? 0)) in
  let mp := if Z.shiftr mpsize 1 <=? blen then
      set_wptr (b_rptr mp + (mpsize - blen)) (set_rptr (b_rptr mp + (mpsize - blen)) mp)
    else mp in
  Ret (mp, mpsize - b_rptr mp - adjust).

(** To the block behind the current one, [m], which is allocated when there is none;
    [adjust] bytes of it are taken. *)
Definition next_block (m : mblk) (adjust : Z) (x : xdrmblk) : run (option mblk * xdrmblk) :=
  let* (x, r) :=
    match xm_cont x with
    | [] =>
        let* (mp, st, waits) := xdrmblk_alloc (xm_private x) (xm_waits x) (xm_store x) in
        let x := set_xm_waits waits (set_xm_store st x) in
        match mp with
        | None => Ret (set_xm_handy 0 (to_blocks m [] x), None)
        | Some mp =>
            let* (mp, h) := XDRMBLK_SETHANDY mp (xm_private x) adjust st in
            Ret (set_xm_handy h (to_blocks m [mp] x), Some mp)
        end
    | m' :: cont =>
        let* lim := db_lim m' (xm_store x) in
        Ret (set_xm_handy (lim - b_rptr m' - adjust) (to_blocks m (m' :: cont) x), Some m')
    end in
  match r with
  | None => Ret (None, x)
  | Some m' =>
      let* lim := db_lim m' (xm_store x) in
      let* _ := ASSERT ((b_rptr m' =? b_wptr m') && (0 <=? b_rptr m') && (b_rptr m' <? lim)) in
      Ret (Some m', x)
  end.

(** Bytes at [b_wptr], with the last assertion of the code. *)
Definition put_wptr (bs : list Z) (m : mblk) (x : xdrmblk) : run (mblk * xdrmblk) :=
  let* st := poke_block m (b_wptr m) bs (xm_store x) in
  let m := set_wptr (b_wptr m + zlen bs) m in
  Ret (m, set_xm_base m (set_xm_store st x)).

Definition xdrmblk_putlong (l : Z) (x : xdrmblk) : run (bool * xdrmblk) :=
  match xm_base x with
  | None => Ret (false, x)
  | Some m =>
      let h := s32 (xm_handy x - 4) in
      let x := set_xm_handy h x in
      let* (m, x) := if h <? 0 then next_block m 4 x else Ret (Some m, x) in
      match m with
      | None => Ret (false, x)
      | Some m => let* (_, x) := put_wptr (be32 l) m x in Ret (true, x)
      end
  end.

(** The loop of [xdrmblk_putbytes]: [len] of the bytes at [addr] are to be put. *)
Fixpoint putbytes_loop (fuel : nat) (m : mblk) (addr : list Z) (len : Z) (x : xdrmblk) : run (bool * xdrmblk) :=
  match fuel with
  | O => Fault
  | S fuel =>
      let h := s32 (xm_handy x - len) in
      if h <? 0 then
        let h := s32 (h + len) in
        let x := set_xm_handy h x in
        let* (m, x, addr, len) :=
          if 0 <? h then
            let* bs := get_bytes 0 h addr in
            let* (m, x) := put_wptr bs m x in
            Ret (m, x, drop (Z.to_nat h) addr, len - h)
          else Ret (m, x, addr, len) in
        let* (m, x) := next_block m 0 x in
        match m with
        | None => Ret (false, x)
        | Some m => putbytes_loop fuel m addr len x
        end
      else
        let* bs := get_bytes 0 (w32 len) addr in
        let* (_, x) := put_wptr bs m (set_xm_handy h x) in
        Ret (true, x)
  end.

Definition xdrmblk_putbytes (addr : list Z) (len : Z) (x : xdrmblk) : run (bool * xdrmblk) :=
  match xm_base x with
  | None => Ret (false, x)
  | Some m => putbytes_loop (length addr + 2) m addr len x
  end.

(** [m] is the message whose first block is to be added. *)
Definition xdrmblk_putmblk (m : list mblk) (len : Z) (x : xdrmblk) : run (bool * xdrmblk) :=
  match m with
  | [] => Fault
  | mp :: cont =>
      if negb (Z.rem (b_size mp) BYTES_PER_XDR_UNIT =? 0) then Ret (false, x)
      else
        let* (ok, x) := xdrmblk_putlong (s32 len) x in
        if negb ok then Ret (false, x)
        else
          match xm_base x with
          | None => Fault
          | Some last =>
              Ret (true, set_xm_handy 0 (to_blocks last (mp :: cont) x))
          end
  end.

(** ** Positions and requests *)

Definition xdrmblk_getpos (x : xdrmblk) : run Z :=
  match xm_base x with
  | None => Fault
  | Some m => Ret (w32 (match xm_op x with XDR_DECODE => b_rptr m | _ => b_wptr m end))
  end.

(** [base] is the address of the current data block, which the code compares addresses in. *)
Definition xdrmblk_setpos (base pos : Z) (x : xdrmblk) : run (bool * xdrmblk) :=
  match xm_base x with
  | None => Ret (false, x)
  | Some m =>
      let newaddr := w32 (base + pos) in
      match xm_op x with
      | XDR_DECODE =>
          if w32 (base + b_wptr m) <? newaddr then Ret (false, x)
          else Ret (true, set_xm_handy (b_wptr m - (newaddr - base)) (set_xm_base (set_rptr (newaddr - base) m) x))
      | _ =>
          let* lim := db_lim m (xm_store x) in
          if w32 (base + lim) <? newaddr then Ret (false, x)
          else Ret (true, set_xm_handy (lim - (newaddr - base)) (set_xm_base (set_wptr (newaddr - base) m) x))
      end
  end.

(** The offset in the current data block of the inline buffer, or NULL. *)
Definition xdrmblk_inline (len : Z) (x : xdrmblk) : run (option Z * xdrmblk) :=
  match xm_op x with
  | XDR_FREE => Ret (None, x)
  | op =>
      if xm_handy x <? len then Ret (None, x)
      else
        match xm_base x with
        | None => Ret (None, x)
        | Some m =>
            let* d := get_dblk (xm_store x) (b_datap m) in
            if negb (db_ref d =? 1) then Ret (None, x)
            else
              let x := set_xm_handy (s32 (xm_handy x - len)) x in
              match op with
              | XDR_DECODE => Ret (Some (b_rptr m), set_xm_base (set_rptr (b_rptr m + len) m) x)
              | _ => Ret (Some (b_wptr m), set_xm_base (set_wptr (b_wptr m + len) m) x)
              end
        end
  end.

(** The loop of [XDR_SKIPBYTES]. *)
Fixpoint skip_loop (m : mblk) (cont : list mblk) (len : Z) (x : xdrmblk) : bool * xdrmblk :=
  let h := s32 (xm_handy x - len) in
  if h <? 0 then
    let h := s32 (h + len) in
    let (m, len) := if 0 <? h then (set_rptr (b_rptr m + h) m, len - h) else (m, len) in
    match cont with
    | [] => (false, set_xm_handy 0 (to_blocks m [] x))
    | m' :: cont' => skip_loop m' cont' len (set_xm_handy (b_size m') (to_blocks m cont x))
    end
  else (true, set_xm_base (set_rptr (b_rptr m + len) m) (set_xm_handy h x)).

(** [x_handy < sizeof (long)] compares unsigned. *)
Definition xdrmblk_control (request : xdr_request) (info : Z) (x : xdrmblk) : run (bool * Z * xdrmblk) :=
  match request with
  | XDR_PEEK =>
      if w32 (xm_handy x) <? 4 then Ret (false, info, x)
      else
        match xm_base x with
        | None => Ret (false, info, x)
        | Some m =>
            let* bs := peek_block m (b_rptr m) 4 (xm_store x) in
            Ret (true, s32 (unbe32 bs), x)
        end
  | XDR_SKIPBYTES =>
      match xm_base x with
      | None => Ret (false, info, x)
      | Some m => let (ok, x) := skip_loop m (xm_cont x) (RNDUP s32 info) x in Ret (ok, info, x)
      end
  end.

Definition xdrmblk_ops : XdrStream xdrmblk := {|
  x_getlong := xdrmblk_getlong;
  x_putlong := xdrmblk_putlong;
  x_getbytes := xdrmblk_getbytes;
  x_putbytes := xdrmblk_putbytes
|}.
End Put.
