(* ===== verification/XdrMblkOps.v ===== *)
(** * Streams over message blocks deliver what was put into them

    The instances that make the streams of [XdrMblk] sound to decode from and to
    encode to, so that every filter of [Xdr] is a codec over message blocks.  A
    chain can be decoded from when no word is split over two of its blocks; the
    chain of a stream to encode to grows in the store of [Mblk], whose invariant is
    kept. *)

From S2P Require Import Prelude Bytes Mblk MblkOps Xdr XdrCodec XdrMblk.

(** ** Content *)

Definition readable (st : store) (mp : mblk) : Prop := ∃ d, dblks st !! b_datap mp = Some d ∧ in_block d mp.
Definition bdata (st : store) (mp : mblk) : list Z := (view st mp).2.
Definition content (st : store) (m : list mblk) : list Z := m ≫= bdata st.

Lemma content_cons st mp m : content st (mp :: m) = bdata st mp ++ content st m.
Proof. done. Qed.

Lemma content_app st m m' : content st (m ++ m') = content st m ++ content st m'.
Proof. apply bind_app. Qed.

Lemma frame_content s s' M m : frame s s' M → m ⊆ M → content s' m = content s m.
Proof.
  intros Hf Hm. unfold content. induction m as [|mp m IH]; [done|]. rewrite !bind_cons, IH by set_solver.
  f_equal. unfold bdata. rewrite (frame_view s s' M mp); [done|done|set_solver].
Qed.

Lemma readable_inv st mp : readable st mp →
  ∃ d, dblks st !! b_datap mp = Some d ∧ in_block d mp ∧ zlen (bdata st mp) = b_size mp ∧ 0 ≤ b_size mp ∧
    bdata st mp = slice (b_rptr mp) (b_size mp) (db_data d).
Proof.
  intros (d & Hd & [Hb1 Hb2]). exists d. unfold bdata, view. rewrite Hd. cbn [snd].
  split_and!; [done|by split| |unfold b_size; lia|done].
  rewrite length_take, length_drop. unfold b_size. lia.
Qed.

(** Bytes at [b_rptr], and what is left behind them. *)
Lemma peek_front st mp n : readable st mp → 0 ≤ n ≤ b_size mp →
  peek_block mp (b_rptr mp) n st = Ret (take (Z.to_nat n) (bdata st mp)) ∧
  readable st (set_rptr (b_rptr mp + n) mp) ∧
  b_size (set_rptr (b_rptr mp + n) mp) = b_size mp - n ∧
  bdata st (set_rptr (b_rptr mp + n) mp) = drop (Z.to_nat n) (bdata st mp).
Proof.
  intros Hr Hn. destruct (readable_inv st mp Hr) as (d & Hd & [Hb1 Hb2] & Hl & _ & Hv).
  unfold b_size in Hn, Hl. split_and!.
  - unfold peek_block. rewrite (get_dblk_eq _ _ _ Hd). cbn [rbind]. rewrite get_bytes_ok by lia. rewrite Hv.
    unfold slice. rewrite take_take. do 2 f_equal. unfold b_size. lia.
  - exists d. split; [done|]. unfold in_block. simpl. lia.
  - unfold b_size. simpl. lia.
  - rewrite Hv. unfold bdata, view. cbn [b_datap set_rptr]. rewrite Hd. cbn [snd]. unfold slice.
    rewrite skipn_firstn_comm, drop_drop. unfold b_size. cbn [b_rptr b_wptr set_rptr]. do 2 f_equal; lia.
Qed.

(** ** Decoding *)

(** The blocks that are still to be read. *)
Definition to_come (x : xdrmblk) : list mblk := option_list (xm_base x) ++ xm_cont x.

(** At the block [m] of a chain, [k] bytes into a unit. *)
Record dec_at (k : Z) (m : mblk) (x : xdrmblk) : Prop := {
  da_base : xm_base x = Some m;
  da_op : xm_op x = XDR_DECODE;
  da_handy : xm_handy x = b_size m;
  da_read : Forall (readable (xm_store x)) (m :: xm_cont x);
  da_unit : (b_size m + k) `mod` 4 = 0;
  da_units : Forall (λ mp, b_size mp `mod` 4 = 0) (xm_cont x);
  da_int : zlen (content (xm_store x) (m :: xm_cont x)) < 2 ^ 31
}.

Lemma dec_at_to_come k m x : dec_at k m x → to_come x = m :: xm_cont x.
Proof. intros H. unfold to_come. by rewrite (da_base _ _ _ H). Qed.

Lemma dec_at_size k m x : dec_at k m x → 0 ≤ b_size m < 2 ^ 31.
Proof.
  intros H. pose proof (da_read _ _ _ H) as Hr. apply Forall_cons in Hr as [Hr _].
  destruct (readable_inv _ _ Hr) as (d & _ & _ & Hl & Hn & _). pose proof (da_int _ _ _ H) as Hi.
  rewrite content_cons, length_app in Hi. lia.
Qed.

(** [n] bytes of the current block are taken. *)
Lemma dec_at_take k m x n : dec_at k m x → 0 ≤ n ≤ b_size m →
  dec_at ((k + n) `mod` 4) (set_rptr (b_rptr m + n) m)
    (set_xm_base (set_rptr (b_rptr m + n) m) (set_xm_handy (xm_handy x - n) x)) ∧
  content (xm_store x) (set_rptr (b_rptr m + n) m :: xm_cont x) =
    drop (Z.to_nat n) (content (xm_store x) (m :: xm_cont x)).
Proof.
  intros [Hb Hop Hh Hr Hu Hus Hi] Hn. apply Forall_cons in Hr as [Hm Hr].
  destruct (peek_front _ m n Hm Hn) as (_ & Hm' & Hsz & Hv).
  assert (content (xm_store x) (set_rptr (b_rptr m + n) m :: xm_cont x) =
    drop (Z.to_nat n) (content (xm_store x) (m :: xm_cont x))) as Hc.
  { rewrite !content_cons, Hv, drop_app_le; [done|].
    destruct (readable_inv _ _ Hm) as (d & _ & _ & Hl & _). lia. }
  split; [|done]. split; cbn [xm_base xm_handy xm_store xm_cont set_xm_base set_xm_handy].
  - done.
  - done.
  - by rewrite Hh, Hsz.
  - by constructor.
  - rewrite Hsz, Zplus_mod_idemp_r. rewrite <-Hu. f_equal. lia.
  - done.
  - rewrite Hc, length_drop. lia.
Qed.

(** The current block is at its end: on to the next one. *)
Lemma dec_at_next k m m' cont' x : dec_at k m x → b_size m = 0 → xm_cont x = m' :: cont' →
  dec_at 0 m' (set_xm_handy (b_size m') (to_blocks m (m' :: cont') x)) ∧
  content (xm_store x) (m :: m' :: cont') = content (xm_store x) (m' :: cont').
Proof.
  intros [Hb Hop Hh Hr Hu Hus Hi] Hz Hc. rewrite Hc in Hr, Hus, Hi.
  apply Forall_cons in Hr as [Hm Hr]. apply Forall_cons in Hus as [Hu' Hus].
  destruct (readable_inv _ _ Hm) as (d & _ & _ & Hl & _).
  assert (bdata (xm_store x) m = []) as He by (destruct (bdata _ m); [done|simpl in Hl; lia]).
  rewrite content_cons, He. split; [|done]. rewrite content_cons, He in Hi.
  split; cbn [xm_base xm_handy xm_store xm_cont set_xm_handy to_blocks head tail]; [done..| |done|done].
  by rewrite Z.add_0_r.
Qed.

Definition mblk_in (x : xdrmblk) : list Z := content (xm_store x) (to_come x).
Definition mblk_dok (k : Z) (x : xdrmblk) : Prop := ∃ m, dec_at k m x.

Lemma dec_at_in k m x : dec_at k m x → mblk_in x = content (xm_store x) (m :: xm_cont x).
Proof. intros H. unfold mblk_in. by rewrite (dec_at_to_come _ _ _ H). Qed.

(** A read of [n] bytes from the current block. *)
Lemma dec_at_read k m x n : dec_at k m x → 0 ≤ n ≤ b_size m →
  peek_block m (b_rptr m) n (xm_store x) = Ret (take (Z.to_nat n) (mblk_in x)) ∧
  mblk_dok ((k + n) `mod` 4) (set_xm_base (set_rptr (b_rptr m + n) m) (set_xm_handy (xm_handy x - n) x)) ∧
  mblk_in (set_xm_base (set_rptr (b_rptr m + n) m) (set_xm_handy (xm_handy x - n) x)) = drop (Z.to_nat n) (mblk_in x).
Proof.
  intros H Hn. destruct (dec_at_take k m x n H Hn) as [Ht Hc]. pose proof (da_read _ _ _ H) as Hr.
  apply Forall_cons in Hr as [Hm _]. destruct (peek_front _ m n Hm Hn) as (Hp & _).
  destruct (readable_inv _ _ Hm) as (d & _ & _ & Hl & _). rewrite !(dec_at_in _ _ _ H), (dec_at_in _ _ _ Ht). split_and!.
  - rewrite Hp, content_cons, take_app_le; [done|lia].
  - by eexists.
  - exact Hc.
Qed.

Lemma last_block st m : readable st m → content st [m] = bdata st m ∧ zlen (bdata st m) = b_size m.
Proof.
  intros H. destruct (readable_inv _ _ H) as (d & _ & _ & Hl & _). split; [|done].
  rewrite content_cons. apply app_nil_r.
Qed.

Lemma handy_s32 k m x n : dec_at k m x → 0 ≤ n < 2 ^ 31 → s32 (xm_handy x - n) = xm_handy x - n.
Proof. intros H Hn. pose proof (dec_at_size _ _ _ H). rewrite (da_handy _ _ _ H). apply s32_id. unfold in_s32. lia. Qed.

Lemma getlong_loop_ok cont : ∀ m x, dec_at 0 m x → xm_cont x = cont →
  if 4 <=? zlen (mblk_in x) then
    ∃ x', getlong_loop m cont x = Ret (Some (s32 (unbe32 (take 4 (mblk_in x)))), x') ∧
      mblk_in x' = drop 4 (mblk_in x) ∧ mblk_dok 0 x'
  else ∃ x', getlong_loop m cont x = Ret (None, x').
Proof.
  induction cont as [|m' cont' IH]; intros m x H Hc; simpl getlong_loop;
    pose proof (dec_at_size _ _ _ H) as Hsz; rewrite (handy_s32 _ _ _ 4 H) by lia;
    pose proof (da_handy _ _ _ H) as Hh; pose proof (da_unit _ _ _ H) as Hu; rewrite Z.add_0_r in Hu;
    (destruct (Z.ltb_spec (xm_handy x - 4) 0) as [Hlt|Hge]; cycle 1;
     [destruct (dec_at_read 0 m x 4 H) as (Hp & Hok & Hin); [lia|];
      assert (4 ≤ zlen (mblk_in x)) as Hl by (rewrite (dec_at_in _ _ _ H), content_cons, length_app;
        pose proof (da_read _ _ _ H) as Hr; apply Forall_cons in Hr as [Hm _];
        destruct (readable_inv _ _ Hm) as (? & _ & _ & Hlm & _); lia);
      rewrite (proj2 (Z.leb_le _ _) Hl); cbn [xm_store set_xm_handy]; rewrite Hp; cbn [rbind]; by eexists|]);
    assert (b_size m = 0) as Hz by (Z.to_euclidean_division_equations; lia);
    rewrite Hh, Hz; cbn [negb Z.sub Z.add Z.opp Z.eqb Pos.eqb].
  - destruct (Z.leb_spec 4 (zlen (mblk_in x))) as [Hl|Hl]; [|by eexists]. exfalso.
    rewrite (dec_at_in _ _ _ H), Hc in Hl. pose proof (da_read _ _ _ H) as Hr. rewrite Hc in Hr.
    apply Forall_cons in Hr as [Hm _]. destruct (last_block _ _ Hm) as [E1 E2]. rewrite E1, E2 in Hl. lia.
  - destruct (dec_at_next 0 m m' cont' x H Hz Hc) as [H' Hin'].
    rewrite (dec_at_in _ _ _ H), Hc, Hin'. specialize (IH m' _ H' eq_refl). rewrite (dec_at_in _ _ _ H') in IH.
    exact IH.
Qed.

(** The current block is used up, and the read goes on with the next one. *)
Lemma dec_at_skip k m m' cont' x n : dec_at k m x → xm_cont x = m' :: cont' → n = b_size m →
  let m1 := set_rptr (b_rptr m + n) m in
  let x' := set_xm_handy (b_size m') (to_blocks m1 (m' :: cont') x) in
  dec_at 0 m' x' ∧ mblk_in x' = drop (Z.to_nat n) (mblk_in x) ∧ (k + n) `mod` 4 = 0.
Proof.
  intros H Hc -> m1 x'. pose proof (dec_at_size _ _ _ H) as Hsz.
  destruct (dec_at_take k m x (b_size m) H) as [H1 Hc1]; [lia|]. fold m1 in H1, Hc1.
  assert (b_size m1 = 0) as Hz by (unfold m1, b_size; simpl; lia).
  destruct (dec_at_next _ m1 m' cont' _ H1 Hz Hc) as [H2 Hc2].
  assert (dec_at 0 m' x') as H' by exact H2. split; [exact H'|]. split.
  - rewrite (dec_at_in _ _ _ H'), (dec_at_in _ _ _ H), <-Hc1, Hc. symmetry. exact Hc2.
  - rewrite Z.add_comm. apply (da_unit _ _ _ H).
Qed.

Lemma mblk_in_ge k m x : dec_at k m x → b_size m ≤ zlen (mblk_in x) ∧
  (xm_cont x = [] → b_size m = zlen (mblk_in x)).
Proof.
  intros H. rewrite (dec_at_in _ _ _ H). pose proof (da_read _ _ _ H) as Hr. apply Forall_cons in Hr as [Hm _].
  destruct (last_block _ _ Hm) as [E1 E2]. split; [rewrite content_cons, length_app; lia|]. intros ->. by rewrite E1.
Qed.

(** What is left of the current block is read. *)
Lemma read_handy k m x got n : dec_at k m x →
  (if 0 <? b_size m then
     let* bs := peek_block m (b_rptr m) (b_size m) (xm_store x) in
     Ret (set_rptr (b_rptr m + b_size m) m, got ++ bs, n - b_size m)
   else Ret (m, got, n)) =
  Ret (set_rptr (b_rptr m + b_size m) m, got ++ take (Z.to_nat (b_size m)) (mblk_in x), n - b_size m).
Proof.
  intros H. pose proof (dec_at_size _ _ _ H) as Hsz. destruct (Z.ltb_spec 0 (b_size m)) as [Hpos|Hz].
  - destruct (dec_at_read k m x (b_size m) H) as (-> & _); [lia|done].
  - assert (b_size m = 0) as -> by lia. rewrite Z.add_0_r, Z.sub_0_r, app_nil_r. by destruct m.
Qed.

Lemma getbytes_loop_ok cont : ∀ k m got n x, dec_at k m x → xm_cont x = cont → 0 ≤ n < 2 ^ 31 →
  if n <=? zlen (mblk_in x) then
    ∃ x', getbytes_loop m cont got n x = Ret (true, got ++ take (Z.to_nat n) (mblk_in x), x') ∧
      mblk_in x' = drop (Z.to_nat n) (mblk_in x) ∧ mblk_dok ((k + n) `mod` 4) x'
  else ∃ bs x', getbytes_loop m cont got n x = Ret (false, got ++ bs, x') ∧ zlen bs ≤ n.
Proof.
  induction cont as [|m' cont' IH]; intros k m got n x H Hc Hn; simpl getbytes_loop;
    pose proof (dec_at_size _ _ _ H) as Hsz; rewrite (handy_s32 _ _ _ n H) by lia;
    pose proof (da_handy _ _ _ H) as Hh; destruct (mblk_in_ge _ _ _ H) as [Hge0 Hlast];
    (destruct (Z.ltb_spec (xm_handy x - n) 0) as [Hlt|Hge]; cycle 1;
     [destruct (dec_at_read k m x n H) as (Hp & Hok & Hin); [lia|];
      rewrite (proj2 (Z.leb_le n _)), w32_id, Hp by (unfold in_u32; lia); cbn [rbind]; by eexists|]);
    replace (xm_handy x - n + n) with (b_size m) by lia; rewrite (s32_id (b_size m)) by (unfold in_s32; lia);
    cbn [xm_store set_xm_handy]; rewrite (read_handy k m x got n H); cbn [rbind].
  - rewrite (proj2 (Z.leb_gt n _)) by (rewrite <-Hlast; [lia|done]).
    do 2 eexists. split; [done|]. rewrite length_take. lia.
  - destruct (dec_at_skip k m m' cont' x _ H Hc eq_refl) as (H' & Hin & Hk). cbv zeta in *.
    specialize (IH 0 m' (got ++ take (Z.to_nat (b_size m)) (mblk_in x)) (n - b_size m) _ H' eq_refl ltac:(lia)).
    rewrite Hin, length_drop in IH.
    replace (0 + (n - b_size m)) with (n - b_size m) in IH by lia.
    assert ((n - b_size m) `mod` 4 = (k + n) `mod` 4) as Hmod by (Z.to_euclidean_division_equations; lia).
    destruct (Z.leb_spec n (zlen (mblk_in x))) as [Hl|Hl].
    + rewrite (proj2 (Z.leb_le _ _)) in IH by lia. destruct IH as (x' & E & Hin' & Hok'). exists x'.
      rewrite Hmod in Hok'. rewrite drop_drop in Hin'. rewrite <-app_assoc, take_take_drop in E.
      replace (Z.to_nat (b_size m) + Z.to_nat (n - b_size m))%nat with (Z.to_nat n) in E, Hin' by lia.
      split; [exact E|done].
    + rewrite (proj2 (Z.leb_gt _ _)) in IH by lia. destruct IH as (bs & x' & E & Hbs). rewrite <-app_assoc in E.
      do 2 eexists. split; [exact E|]. rewrite length_app, length_take. lia.
Qed.

Section Decoder.
Context (sizeof_dblk : Z) (junk : Z → Z → Z).
#[local] Existing Instance xdrmblk_ops.
#[local] Arguments xdrmblk_ops : clear implicits.

Program Definition xdrmblk_decoder : @XdrDecoder xdrmblk (xdrmblk_ops sizeof_dblk junk) := {|
  din := mblk_in;
  dok := mblk_dok
|}.
Next Obligation.
  intros s [m H] Hl. cbn [x_getlong xdrmblk_ops]. unfold xdrmblk_getlong. rewrite (da_base _ _ _ H).
  pose proof (getlong_loop_ok _ m s H eq_refl) as Hg. by rewrite (proj2 (Z.leb_le _ _) Hl) in Hg.
Qed.
Next Obligation.
  intros s [m H] Hl. cbn [x_getlong xdrmblk_ops]. unfold xdrmblk_getlong. rewrite (da_base _ _ _ H).
  pose proof (getlong_loop_ok _ m s H eq_refl) as Hg. by rewrite (proj2 (Z.leb_gt _ _) Hl) in Hg.
Qed.
Next Obligation.
  intros k n s [m H] Hn Hn2 Hl. cbn [x_getbytes xdrmblk_ops]. unfold xdrmblk_getbytes. rewrite (da_base _ _ _ H).
  pose proof (getbytes_loop_ok _ k m [] n s H eq_refl (conj Hn Hn2)) as Hg. by rewrite (proj2 (Z.leb_le _ _) Hl) in Hg.
Qed.
Next Obligation.
  intros k n s [m H] Hl Hn2. cbn [x_getbytes xdrmblk_ops]. unfold xdrmblk_getbytes. rewrite (da_base _ _ _ H).
  pose proof (getbytes_loop_ok _ k m [] n s H eq_refl ltac:(lia)) as Hg. by rewrite (proj2 (Z.leb_gt _ _) Hl) in Hg.
Qed.
End Decoder.

(** ** The allocator *)

(** The allocations that will succeed before one may not. *)
Fixpoint lead_true (l : list bool) : Z := match l with true :: l => 1 + lead_true l | _ => 0 end.

Lemma lead_true_nonneg l : 0 ≤ lead_true l.
Proof. induction l as [|[] l IH]; simpl; lia. Qed.

Lemma lead_true_drop j l : lead_true l - Z.of_nat j ≤ lead_true (drop j l).
Proof.
  revert l. induction j as [|j IH]; intros [|b l]; simpl; [lia|destruct b; lia|lia|].
  pose proof (IH l). pose proof (lead_true_nonneg (drop j l)). destruct b; lia.
Qed.

Lemma lead_true_two l : 2 ≤ lead_true l → take 2 l = [true; true].
Proof. destruct l as [|[] [|[] l]]; simpl; intros; try lia; done. Qed.

Lemma kmem_alloc_mem s p s' : kmem_alloc s = (p, s') → mem s' = drop 1 (mem s).
Proof. unfold kmem_alloc. destruct (mem s) as [|[] m] eqn:E; intros [= <- <-]; simpl; by rewrite ?E. Qed.

Lemma dblk_cache_max i c : zget dblk_cache i = Ret c → c ≤ DBLK_MAX_CACHE.
Proof.
  unfold zget. destruct (i <? 0); [done|]. destruct (dblk_cache !! Z.to_nat i) as [c'|] eqn:E; [|done]. intros [= <-].
  assert (forallb (λ c, c <=? DBLK_MAX_CACHE) dblk_cache = true) as H by (vm_compute; reflexivity).
  rewrite forallb_forall in H. apply Z.leb_le, H, list_elem_of_In. by eapply list_elem_of_lookup_2.
Qed.

Section Alloc.
Context (sizeof_dblk : Z) (junk : Z → Z → Z).
Hypothesis Hsizeof : 0 < sizeof_dblk ≤ 96 ∧ sizeof_dblk `mod` 4 = 0.

Lemma gesballoc_size base align ref flags lf s r s' : gesballoc base align ref flags lf s = (r, s') →
  mem s' = drop 1 (mem s) ∧
  match r with Some mp => ∃ d, dblks s' !! b_datap mp = Some d ∧ db_data d = base | None => True end.
Proof.
  unfold gesballoc. destruct (kmem_alloc s) as [p s1] eqn:Ek. apply kmem_alloc_mem in Ek.
  destruct p as [a|]; intros [= <- <-]; [|done]. split; [done|]. eexists. simpl. by rewrite lookup_insert_eq.
Qed.

(** An allocation takes two of the allocator at most, and gives a little more than asked. *)
Lemma allocb_size size s r s' : 0 ≤ size < 2 ^ 31 - 31 → allocb sizeof_dblk junk size s = Ret (r, s') →
  (∃ j : nat, (j ≤ 2)%nat ∧ mem s' = drop j (mem s)) ∧
  match r with
  | Some mp => ∃ d, dblks s' !! b_datap mp = Some d ∧ zlen (db_data d) ≤ size + DBLK_MAX_CACHE
  | None => True
  end.
Proof using Hsizeof.
  intros Hsz. unfold allocb. case_if.
  - unfold allocb_oversize. destruct (kmem_alloc s) as [p s1] eqn:Ek. apply kmem_alloc_mem in Ek.
    destruct p as [a|]; [|intros [= <- <-]; split; [exists 1%nat; split; [lia|done]|done]].
    destruct (gesballoc _ _ _ _ _ s1) as [r1 s2] eqn:E2. intros [= <- <-].
    apply gesballoc_size in E2 as [Hm Hr]. split; [exists 2%nat; split; [lia|by rewrite Hm, Ek, drop_drop]|].
    destruct r1 as [mp|]; [|done]. destruct Hr as (d & Hd & Hdat). exists d. split; [done|]. rewrite Hdat.
    change (DBLK_ALIGN - 1) with 31. rewrite w32_id, round_down_32 by (unfold in_u32; lia).
    rewrite fresh_bytes_len by (Z.to_euclidean_division_equations; lia).
    unfold DBLK_MAX_CACHE. Z.to_euclidean_division_equations; lia.
  - destruct (zget dblk_cache _) as [c| |] eqn:Ec; [|done..]. cbn [rbind]. apply dblk_cache_max in Ec.
    destruct (kmem_alloc s) as [p s1] eqn:Ek. apply kmem_alloc_mem in Ek.
    destruct p as [a|]; intros [= <- <-]; (split; [exists 1%nat; split; [lia|done]|]); [|done].
    eexists. simpl. rewrite lookup_insert_eq. split; [done|]. simpl. destruct Hsizeof.
    unfold fresh_bytes. rewrite length_fmap, length_seq. unfold DBLK_MAX_CACHE in *. lia.
Qed.

Lemma alloc_loop_ok waits : ∀ sz st L, store_ok st L → 0 ≤ sz < 2 ^ 30 →
  ∃ r st' waits', alloc_loop sizeof_dblk junk waits sz st = Ret (r, st', waits') ∧ frame st st' L ∧
    lead_true (mem st) - 2 ≤ lead_true (mem st') ∧
    match r with
    | Some mp => store_ok st' (mp :: L) ∧ fresh_block st' L mp sz ∧
        ∃ d, dblks st' !! b_datap mp = Some d ∧ zlen (db_data d) < 2 ^ 31
    | None => store_ok st' L ∧ lead_true (mem st) < 2
    end.
Proof using Hsizeof.
  induction waits as [|w waits IH]; intros sz st L Hok Hsz; simpl alloc_loop;
    destruct (allocb_ok sizeof_dblk junk Hsizeof sz st L Hok) as (r & st1 & Ha & Hf & Hr); [lia| |lia|];
    destruct (allocb_size sz st r st1) as ((j & Hj & Hm) & Hd); [lia|done| |lia|done|]; rewrite Ha; cbn [rbind];
    pose proof (lead_true_drop j (mem st)) as Hl; rewrite <-Hm in Hl;
    (destruct r as [mp|];
     [destruct Hr as [Hok1 Hfr], Hd as (d & Hd & Hdl); do 3 eexists; split; [done|]; split; [done|]; split; [lia|];
      split; [done|]; split; [done|]; exists d; split; [done|unfold DBLK_MAX_CACHE in Hdl; lia]|]);
    destruct Hr as [Hok1 Hno];
    assert (lead_true (mem st) < 2) as Hlt by (destruct (Z.lt_ge_cases (lead_true (mem st)) 2); [done|];
      by destruct Hno; apply lead_true_two).
  - do 3 eexists. split; [done|]. split; [done|]. split; [lia|done].
  - destruct w; [do 3 eexists; split; [done|]; split; [done|]; split; [lia|done]|].
    destruct (IH sz st1 L Hok1 Hsz) as (r & st2 & w2 & -> & Hf2 & Hl2 & Hr).
    do 3 eexists. split; [done|]. split; [by eapply frame_trans|].
    pose proof (lead_true_nonneg (mem st2)). split; [lia|]. destruct r as [mp|]; [done|]. by destruct Hr.
Qed.

End Alloc.

(** ** The chain of a stream to encode to *)

Section Chain.
(** The other message blocks in use, and what the store was when the encoding began. *)
Context (L : list mblk) (st0 : store).

(** The blocks of the chain. *)
Definition chain_of (x : xdrmblk) (m : mblk) : list mblk := xm_passed x ++ m :: xm_cont x.

(** At the block [m] of a chain.  Nothing else refers to it and to the blocks behind it, which
    are empty and have room for a word; [x_handy] is another matter. *)
Record chain_at (m : mblk) (x : xdrmblk) : Prop := {
  ca_base : xm_base x = Some m;
  ca_op : xm_op x = XDR_ENCODE;
  ca_store : store_ok (xm_store x) (chain_of x m ++ L);
  ca_own : Forall (λ mp, refs (b_datap mp) (chain_of x m ++ L) = 1 ∧
    ∃ d, dblks (xm_store x) !! b_datap mp = Some d ∧ zlen (db_data d) < 2 ^ 31) (m :: xm_cont x);
  ca_empty : Forall (λ mp, b_rptr mp = b_wptr mp ∧
    ∃ d, dblks (xm_store x) !! b_datap mp = Some d ∧ b_wptr mp + 4 ≤ zlen (db_data d)) (xm_cont x);
  ca_private : xm_private x = 0 ∨ 4 ≤ xm_private x < 2 ^ 30;
  ca_frame : frame st0 (xm_store x) L
}.

Definition mblk_out (x : xdrmblk) : list Z := content (xm_store x) (xm_passed x ++ option_list (xm_base x)).

(** What the allocator will add for sure; a word does not go over the end of a block. *)
Definition to_add (x : xdrmblk) : Z := lead_true (mem (xm_store x)) / 2 * Z.max 0 (xm_private x - 3).

(** The room of a block. *)
Definition room (st : store) (m : mblk) : Z :=
  match dblks st !! b_datap m with Some d => zlen (db_data d) - b_wptr m | None => 0 end.

Lemma chain_at_room m x : chain_at m x →
  ∃ d, dblks (xm_store x) !! b_datap m = Some d ∧ in_block d m ∧ zlen (db_data d) < 2 ^ 31 ∧
    room (xm_store x) m = zlen (db_data d) - b_wptr m ∧ 0 ≤ room (xm_store x) m < 2 ^ 31.
Proof.
  intros H. destruct (so_mblk _ _ (ca_store _ _ H) m) as (d & Hd & Hb).
  { unfold chain_of. rewrite !elem_of_app. left. right. by left. }
  pose proof (ca_own _ _ H) as Ho. apply Forall_cons in Ho as [(_ & d' & Hd' & Hl) _].
  rewrite Hd in Hd'. injection Hd' as <-. exists d. unfold room. rewrite Hd. destruct Hb as [Hb1 Hb2].
  split; [done|]. split; [by split|]. split; [done|]. split; [done|]. lia.
Qed.

(** A write into the data block of a block that nothing else refers to. *)
Lemma poke_ok s mp R off bs d : store_ok s (mp :: R) → unshared mp R → dblks s !! b_datap mp = Some d →
  0 ≤ off → off + zlen bs ≤ zlen (db_data d) →
  ∃ s' data, poke_block mp off bs s = Ret s' ∧ put_bytes off bs (db_data d) = Ret data ∧
    zlen data = zlen (db_data d) ∧ store_ok s' (mp :: R) ∧ frame s s' R ∧
    dblks s' !! b_datap mp = Some (set_db_data data d) ∧
    (∀ a, a ≠ b_datap mp → dblks s' !! a = dblks s !! a) ∧ mem s' = mem s.
Proof.
  intros Hok Hun Hd Ho Hl. unfold poke_block. rewrite (get_dblk_eq _ _ _ Hd). cbn [rbind].
  destruct (put_bytes_ok off bs (db_data d)) as (data & -> & Hlen & _); [done|done|]. cbn [rbind].
  do 2 eexists. split; [done|]. split; [done|]. split; [done|]. split_and!.
  - eapply store_ok_upd; [exact Hok|done|done| |by intros ? _ []].
    intros x [->|Hx]%elem_of_cons E; [|by destruct (Hun x Hx)]. exists d. split; [done|].
    destruct (so_mblk _ _ Hok mp) as (d' & Hd' & Hb); [by left|]. rewrite Hd in Hd'. injection Hd' as <-.
    unfold in_block in *. simpl. lia.
  - intros x Hx. by rewrite upd_dblk_lookup, decide_False by auto.
  - by rewrite upd_dblk_lookup, decide_True, Hd.
  - intros a Ha. by rewrite upd_dblk_lookup, decide_False.
  - done.
Qed.

Lemma chain_perm x m : chain_of x m ++ L ≡ₚ m :: (xm_passed x ++ xm_cont x ++ L).
Proof. unfold chain_of. rewrite <-app_assoc. simpl. by rewrite <-Permutation_middle. Qed.

Lemma refs_one_unshared mp R : refs (b_datap mp) (mp :: R) = 1 → unshared mp R.
Proof. intros H x Hx. by eapply refs_sole. Qed.

(** The blocks of the chain with the current one moved within its data block. *)
Lemma chain_refs x m m' a : b_datap m' = b_datap m → refs a (chain_of x m' ++ L) = refs a (chain_of x m ++ L).
Proof. intros E. rewrite !(refs_perm a _ _ (chain_perm x _)), !refs_cons. by rewrite E. Qed.

(** The chain after a change of the data of the current block, which may have moved its pointers. *)
Lemma chain_at_upd m m' x st' h : chain_at m x → b_datap m' = b_datap m → b_addr m' = b_addr m →
  store_ok st' (m :: (xm_passed x ++ xm_cont x ++ L)) →
  frame (xm_store x) st' (xm_passed x ++ xm_cont x ++ L) →
  (∃ d d', dblks (xm_store x) !! b_datap m = Some d ∧ dblks st' !! b_datap m = Some d' ∧
     zlen (db_data d') = zlen (db_data d) ∧ in_block d' m') →
  (∀ a, a ≠ b_datap m → dblks st' !! a = dblks (xm_store x) !! a) →
  chain_at m' (set_xm_base m' (set_xm_handy h (set_xm_store st' x))) ∧
  mblk_out (set_xm_base m' (set_xm_handy h (set_xm_store st' x))) =
    content (xm_store x) (xm_passed x) ++ bdata st' m'.
Proof.
  intros H Hda Haddr Hok Hf (d & d' & Hd & Hd' & Hl & Hb) Hother.
  pose proof (ca_own _ _ H) as Ho. apply Forall_cons in Ho as [(Hone & d0 & Hd0 & Hd0l) Ho].
  rewrite (refs_perm _ _ _ (chain_perm x m)) in Hone. pose proof (refs_one_unshared _ _ Hone) as Hun.
  rewrite Hd in Hd0. injection Hd0 as <-.
  split; [split|]; cbn [xm_base xm_store xm_private xm_cont set_xm_base set_xm_handy set_xm_store].
  - done.
  - apply (ca_op _ _ H).
  - change (chain_of (set_xm_base m' (set_xm_handy h (set_xm_store st' x))) m') with (chain_of x m').
    eapply store_ok_perm; [symmetry; apply chain_perm|].
    eapply store_ok_move; [exact Hda|exact Haddr|exact Hok|]. intros d1 Hd1. rewrite Hd' in Hd1. by injection Hd1 as <-.
  - change (chain_of (set_xm_base m' (set_xm_handy h (set_xm_store st' x))) m') with (chain_of x m').
    constructor.
    + split; [rewrite (chain_refs x m m'), Hda, (refs_perm _ _ _ (chain_perm x m)) by done; done|].
      exists d'. rewrite Hda. split; [done|lia].
    + rewrite Forall_forall in Ho |- *. intros mp Hmp. destruct (Ho mp Hmp) as (Hr & d1 & Hd1 & Hl1).
      split; [by rewrite (chain_refs x m m')|]. exists d1.
      by rewrite Hother by (apply Hun; rewrite !elem_of_app; auto).
  - pose proof (ca_empty _ _ H) as He. rewrite Forall_forall in He |- *. intros mp Hmp.
    destruct (He mp Hmp) as (Hrw & d1 & Hd1 & Hl1). split; [done|]. exists d1.
    by rewrite Hother by (apply Hun; rewrite !elem_of_app; auto).
  - apply (ca_private _ _ H).
  - eapply frame_trans; [apply (ca_frame _ _ H)|]. eapply frame_sub; [exact Hf|set_solver].
  - unfold mblk_out. cbn [xm_passed xm_base xm_store set_xm_base set_xm_handy set_xm_store].
    change (option_list (Some m')) with [m']. rewrite content_app, (frame_content _ _ _ _ Hf) by set_solver. by rewrite content_cons, app_nil_r.
Qed.

Lemma chain_out m x : chain_at m x → mblk_out x = content (xm_store x) (xm_passed x) ++ bdata (xm_store x) m.
Proof. intros H. unfold mblk_out. rewrite (ca_base _ _ H), content_app. change (option_list (Some m)) with [m].
  by rewrite content_cons, app_nil_r. Qed.

(** A slice of bytes written behind it. *)
Lemma put_bytes_behind o n off bs data data' : put_bytes off bs data = Ret data' → 0 ≤ o → 0 ≤ n → o + n = off →
  off + zlen bs ≤ zlen data → slice o (n + zlen bs) data' = slice o n data ++ bs.
Proof.
  intros Hp Ho Hn Hoff Hl. destruct (put_bytes_ok off bs data) as (data1 & Hp1 & Hlen & Hold & Hnew); [lia|done|].
  rewrite Hp in Hp1. injection Hp1 as <-. rewrite slice_split by lia. rewrite Hold by lia. f_equal.
  replace (o + n) with (off + 0) by lia. rewrite Hnew by lia. unfold slice. by rewrite drop_0, take_ge by lia.
Qed.

(** Only these change when bytes are put into the current block. *)
Definition same_rest (x x' : xdrmblk) : Prop :=
  xm_passed x' = xm_passed x ∧ xm_cont x' = xm_cont x ∧ xm_private x' = xm_private x ∧ xm_op x' = xm_op x ∧
  mem (xm_store x') = mem (xm_store x).

Lemma put_wptr_ok m x bs : chain_at m x → zlen bs ≤ room (xm_store x) m →
  ∃ m' x', put_wptr bs m x = Ret (m', x') ∧ chain_at m' x' ∧ mblk_out x' = mblk_out x ++ bs ∧
    xm_handy x' = xm_handy x ∧ room (xm_store x') m' = room (xm_store x) m - zlen bs ∧ same_rest x x' ∧
    b_rptr m' = b_rptr m ∧ b_wptr m' = b_wptr m + zlen bs ∧ b_datap m' = b_datap m.
Proof.
  intros H Hroom. destruct (chain_at_room m x H) as (d & Hd & [Hb1 Hb2] & Hl & Hr & _). rewrite Hr in Hroom.
  pose proof (ca_own _ _ H) as Ho. apply Forall_cons in Ho as [(Hone & _) _].
  rewrite (refs_perm _ _ _ (chain_perm x m)) in Hone.
  pose proof (store_ok_perm _ _ _ (chain_perm x m) (ca_store _ _ H)) as Hok.
  destruct (poke_ok (xm_store x) m _ (b_wptr m) bs d Hok (refs_one_unshared _ _ Hone) Hd)
    as (st' & data & Hpoke & Hput & Hlen & Hok' & Hf & Hd' & Hother & Hmem); [lia|lia|].
  unfold put_wptr. rewrite Hpoke. cbn [rbind].
  destruct (chain_at_upd m (set_wptr (b_wptr m + zlen bs) m) x st' (xm_handy x) H) as [Hc Hout]; try done.
  { exists d, (set_db_data data d). split; [done|]. split; [done|]. split; [done|]. unfold in_block. simpl. lia. }
  do 2 eexists. split; [done|]. split; [exact Hc|]. split; [|split; [done|split; [|done]]].
  - etransitivity; [exact Hout|]. rewrite (chain_out _ _ H), <-app_assoc. f_equal.
    unfold bdata, view. cbn [b_datap set_wptr]. rewrite Hd, Hd'. cbn [snd]. unfold b_size. cbn [b_rptr b_wptr set_wptr].
    replace (b_wptr m + zlen bs - b_rptr m) with (b_wptr m - b_rptr m + zlen bs) by lia.
    change (db_data (set_db_data data d)) with data.
    eapply (put_bytes_behind (b_rptr m) _ (b_wptr m)); [exact Hput|lia..].
  - unfold room at 1. cbn [b_datap set_wptr xm_store set_xm_base set_xm_store]. rewrite Hd'. simpl. lia.
Qed.

(** A chain one block on. *)
Lemma chain_next_of m m' x cont h : xm_cont x = m' :: cont →
  chain_of (set_xm_handy h (to_blocks m (m' :: cont) x)) m' = chain_of x m.
Proof. intros Hc. unfold chain_of. cbn [xm_passed xm_cont to_blocks set_xm_handy tail]. by rewrite Hc, <-app_assoc. Qed.

Lemma empty_block st mp : b_rptr mp = b_wptr mp → bdata st mp = [].
Proof.
  intros H. unfold bdata, view. destruct (dblks st !! b_datap mp); [|done]. cbn [snd].
  unfold b_size. rewrite H, Z.sub_diag. done.
Qed.

Lemma chain_at_next m m' x cont h : chain_at m x → xm_cont x = m' :: cont →
  chain_at m' (set_xm_handy h (to_blocks m (m' :: cont) x)) ∧
  mblk_out (set_xm_handy h (to_blocks m (m' :: cont) x)) = mblk_out x ∧
  4 ≤ room (xm_store x) m' ∧ b_rptr m' = b_wptr m'.
Proof.
  intros H Hc. pose proof (ca_empty _ _ H) as He. rewrite Hc in He. apply Forall_cons in He as [(Hrw & d & Hd & Hl) He].
  pose proof (ca_own _ _ H) as Ho. rewrite Hc in Ho. apply Forall_cons in Ho as [_ Ho].
  split; [split|split; [|split; [|done]]]; try rewrite (chain_next_of m m' x cont h Hc);
    cbn [xm_base xm_store xm_cont xm_private set_xm_handy to_blocks head tail].
  - done.
  - apply (ca_op _ _ H).
  - apply (ca_store _ _ H).
  - exact Ho.
  - exact He.
  - apply (ca_private _ _ H).
  - apply (ca_frame _ _ H).
  - unfold mblk_out. cbn [xm_store xm_passed xm_base set_xm_handy to_blocks head]. rewrite (ca_base _ _ H).
    change (option_list (Some m)) with [m]. change (option_list (Some m')) with [m'].
    rewrite (content_app _ (xm_passed x ++ [m])), content_cons, empty_block by done. by rewrite !app_nil_r.
  - unfold room. rewrite Hd. lia.
Qed.

(** A new block at the end of the chain. *)
Lemma chain_at_add m mp x st' w : chain_at m x → xm_cont x = [] → store_ok st' (mp :: (chain_of x m ++ L)) →
  frame (xm_store x) st' (chain_of x m ++ L) → unshared mp (chain_of x m ++ L) → b_rptr mp = b_wptr mp →
  (∃ d, dblks st' !! b_datap mp = Some d ∧ zlen (db_data d) < 2 ^ 31 ∧ b_wptr mp + 4 ≤ zlen (db_data d)) →
  let x' := Xdrmblk (xm_op x) (xm_passed x) (Some m) [mp] (xm_handy x) (xm_private x) st' w in
  chain_at m x' ∧ mblk_out x' = mblk_out x.
Proof.
  intros H Hc Hok Hf Hun Hrw (d & Hd & Hl & Hr) x'.
  assert (chain_of x' m ++ L ≡ₚ mp :: (chain_of x m ++ L)) as Hp.
  { unfold x', chain_of. cbn [xm_passed xm_cont]. rewrite Hc, <-!app_assoc. cbn [app].
    change (m :: mp :: L) with ([m] ++ mp :: L). rewrite app_assoc, <-Permutation_middle, <-app_assoc. done. }
  pose proof (ca_own _ _ H) as Ho. apply Forall_cons in Ho as [(Hone & dm & Hdm & Hdl) _].
  assert (m ∈ chain_of x m ++ L) as Hin by (unfold chain_of; rewrite !elem_of_app; left; right; by left).
  assert (b_datap m ≠ b_datap mp) as Hne by by apply Hun.
  split; [split|]; unfold x'; cbn [xm_base xm_store xm_cont xm_private]; fold x'.
  - done.
  - apply (ca_op _ _ H).
  - by eapply store_ok_perm; [symmetry; exact Hp|].
  - constructor; [|constructor; [|done]].
    + split; [by rewrite (refs_perm _ _ _ Hp), refs_cons, decide_False by done|].
      specialize (Hf m Hin). rewrite Hdm in Hf. destruct (dblks st' !! b_datap m) as [d'|]; [|done].
      unfold obs in Hf. simpl in Hf. injection Hf as Hdd _ _. exists d'. split; [done|]. by rewrite Hdd.
    + split; [|by exists d]. by rewrite (refs_perm _ _ _ Hp), refs_cons, decide_True, refs_zero.
  - constructor; [|done]. split; [done|]. by exists d.
  - apply (ca_private _ _ H).
  - eapply frame_trans; [apply (ca_frame _ _ H)|]. eapply frame_sub; [exact Hf|set_solver].
  - unfold mblk_out. cbn [xm_store xm_passed xm_base]. rewrite (ca_base _ _ H).
    change (option_list (Some m)) with [m]. apply (frame_content _ _ _ _ Hf). unfold chain_of. set_solver.
Qed.

Lemma chain_at_handy m x h : chain_at m x → chain_at m (set_xm_handy h x).
Proof. intros H. split; apply H. Qed.

(** The room of a new block after [XDRMBLK_SETHANDY]. *)
Lemma sethandy_ok mp blen adjust st M d : fresh_block st M mp blen → dblks st !! b_datap mp = Some d → 0 ≤ blen →
  ∃ mp' h, XDRMBLK_SETHANDY mp blen adjust st = Ret (mp', h) ∧ b_datap mp' = b_datap mp ∧ b_addr mp' = b_addr mp ∧
    b_rptr mp' = b_wptr mp' ∧ in_block d mp' ∧ h + adjust = zlen (db_data d) - b_wptr mp' ∧ blen ≤ h + adjust.
Proof.
  intros (Hr & Hw & Hun & d' & Hd' & Hsz & _) Hd Hb. rewrite Hd in Hd'. injection Hd' as <-.
  unfold XDRMBLK_SETHANDY, db_lim. rewrite (get_dblk_eq _ _ _ Hd). cbn [rbind].
  rewrite (proj2 (Z.leb_le _ _) Hsz), Hr. cbn [andb Z.eqb ASSERT rbind].
  do 2 eexists. split; [reflexivity|]. case_if; unfold in_block; cbn [b_datap b_addr b_rptr b_wptr set_wptr set_rptr];
    rewrite ?Hr, ?Hw; split_and!; try done; lia.
Qed.

(** What the next block promises. *)
Definition next_ok (adjust : Z) (x : xdrmblk) (r : option mblk) (x' : xdrmblk) : Prop :=
  match r with
  | Some m' => chain_at m' x' ∧ mblk_out x' = mblk_out x ∧ xm_op x' = xm_op x ∧
      4 ≤ xm_handy x' + adjust ≤ room (xm_store x') m' ∧ to_add x ≤ to_add x' + (xm_handy x' + adjust - 3)
  | None => to_add x = 0
  end.

Definition mblk_eok (x : xdrmblk) : Prop := ∃ m, chain_at m x ∧ 0 ≤ xm_handy x ≤ room (xm_store x) m.

#[local] Instance xdrmblk_out : XdrOut xdrmblk :=
  {| eout := mblk_out; eok := mblk_eok; eroom x := xm_handy x - 3 + to_add x |}.

Lemma same_rest_add x x' : same_rest x x' → to_add x' = to_add x.
Proof. intros (_ & _ & Hp & _ & Hm). unfold to_add. by rewrite Hp, Hm. Qed.

(** Bytes that fit into the current block. *)
Lemma put_here m x bs : chain_at m x → 0 ≤ xm_handy x ≤ room (xm_store x) m → zlen bs ≤ xm_handy x →
  ∃ m' x', put_wptr bs m (set_xm_handy (xm_handy x - zlen bs) x) = Ret (m', x') ∧ encoded x bs true x' ∧
    chain_at m' x' ∧ xm_handy x' = xm_handy x - zlen bs.
Proof.
  intros H Hh Hl.
  destruct (put_wptr_ok m _ bs (chain_at_handy m x (xm_handy x - zlen bs) H))
    as (m' & x' & Hp & Hc & Hout & Hhandy & Hroom & Hrest & _); [cbn [xm_store set_xm_handy]; lia|].
  exists m', x'. split; [done|]. cbn [xm_handy xm_store set_xm_handy] in Hhandy, Hroom. split; [|done].
  split; [done|]. intros _. split; [exact Hout|]. split; [exists m'; split; [done|lia]|].
  cbn [eroom xdrmblk_out]. rewrite (same_rest_add _ _ Hrest). change (to_add (set_xm_handy _ x)) with (to_add x). lia.
Qed.

(** What the current block has room for is put, in the loop of [xdrmblk_putbytes]. *)
Lemma put_handy m x addr n : chain_at m x → 0 ≤ xm_handy x ≤ room (xm_store x) m → xm_handy x < n → n ≤ zlen addr →
  ∃ m' x', (if 0 <? xm_handy x then
       let* bs := get_bytes 0 (xm_handy x) addr in
       let* (m, x') := put_wptr bs m x in
       Ret (m, x', drop (Z.to_nat (xm_handy x)) addr, n - xm_handy x)
     else Ret (m, x, addr, n)) = Ret (m', x', drop (Z.to_nat (xm_handy x)) addr, n - xm_handy x) ∧
    chain_at m' x' ∧ mblk_out x' = mblk_out x ++ take (Z.to_nat (xm_handy x)) addr ∧ to_add x' = to_add x.
Proof.
  intros H Hh Hn Hl. destruct (Z.ltb_spec 0 (xm_handy x)) as [Hpos|Hz].
  - rewrite get_bytes_ok by lia. cbn [rbind]. unfold slice. rewrite drop_0.
    destruct (put_wptr_ok m x (take (Z.to_nat (xm_handy x)) addr) H)
      as (m' & x' & -> & Hc & Hout & _ & _ & Hrest & _); [rewrite length_take; lia|]. cbn [rbind].
    exists m', x'. split; [done|]. split; [done|]. split; [done|]. by apply same_rest_add.
  - assert (xm_handy x = 0) as -> by lia. rewrite Z.sub_0_r, drop_0, take_0, app_nil_r. by exists m, x.
Qed.

End Chain.

Lemma set_xm_handy_id x : set_xm_handy (xm_handy x) x = x.
Proof. by destruct x. Qed.

(** ** Encoding *)

Section Encoder.
Context (sizeof_dblk : Z) (junk : Z → Z → Z).
Hypothesis Hsizeof : 0 < sizeof_dblk ≤ 96 ∧ sizeof_dblk `mod` 4 = 0.
Context (L : list mblk) (st0 : store).

Lemma next_block_ok m x adjust : chain_at L st0 m x → 0 ≤ adjust ≤ 4 →
  ∃ r x', next_block sizeof_dblk junk m adjust x = Ret (r, x') ∧ next_ok L st0 adjust x r x'.
Proof using Hsizeof.
  intros H Hadj. unfold next_block. destruct (xm_cont x) as [|m' cont] eqn:Hc.
  - unfold xdrmblk_alloc. destruct (Z.eqb_spec (xm_private x) 0) as [Hz|Hz]; cbn [rbind].
    { do 2 eexists. split; [done|]. unfold next_ok, to_add. rewrite Hz. simpl. lia. }
    destruct (ca_private _ _ _ _ H) as [?|Hp]; [done|].
    destruct (alloc_loop_ok sizeof_dblk junk Hsizeof (xm_waits x) (xm_private x) (xm_store x) (chain_of x m ++ L) (ca_store _ _ _ _ H))
      as (r & st' & w & -> & Hf & Hlead & Hr); [lia|]. cbn [rbind]. destruct r as [mp|]; cbn [rbind].
    2:{ do 2 eexists. split; [done|]. destruct Hr as [_ Hlt]. unfold next_ok, to_add.
        pose proof (lead_true_nonneg (mem (xm_store x))). rewrite Z.div_small by lia. lia. }
    destruct Hr as (Hok & Hfr & d & Hd & Hdl). cbn [xm_private set_xm_waits set_xm_store].
    destruct (sethandy_ok mp (xm_private x) adjust st' _ d Hfr Hd) as (mp' & h & -> & Hda & Haddr & Hrw & Hin & Hh & Hge);
      [lia|]. cbn [rbind]. cbn [xm_store set_xm_handy to_blocks set_xm_waits set_xm_store].
    unfold db_lim. rewrite Hda, (get_dblk_eq _ _ _ Hd). cbn [rbind].
    rewrite Hrw, Z.eqb_refl. pose proof Hin as [Hin1 Hin2].
    rewrite (proj2 (Z.leb_le _ _)), (proj2 (Z.ltb_lt _ _)) by lia. cbn [andb ASSERT rbind].
    destruct Hfr as (_ & _ & Hun & _).
    destruct (chain_at_add L st0 m mp' x st' w H Hc) as [H1 Hout1].
    { eapply store_ok_move; [exact Hda|exact Haddr|exact Hok|]. intros d1 Hd1. rewrite Hd in Hd1. by injection Hd1 as <-. }
    { exact Hf. } { intros y Hy. rewrite Hda. by apply Hun. } { done. }
    { exists d. rewrite Hda. split_and!; [done|done|lia]. }
    destruct (chain_at_next L st0 m mp' _ [] h H1 eq_refl) as (H2 & Hout2 & Hroom & _). cbn [xm_store] in Hroom.
    do 2 eexists. split; [reflexivity|]. split; [exact H2|]. split; [etransitivity; [exact Hout2|exact Hout1]|].
    split; [done|]. cbn [xm_store xm_handy set_xm_handy to_blocks set_xm_waits set_xm_store].
    unfold room in *. rewrite Hda, Hd in *. split; [lia|].
    unfold to_add. cbn [xm_store xm_private set_xm_handy to_blocks set_xm_waits set_xm_store].
    assert (lead_true (mem (xm_store x)) / 2 ≤ lead_true (mem st') / 2 + 1) by (Z.to_euclidean_division_equations; lia).
    nia.
  - destruct (chain_at_next L st0 m m' x cont (room (xm_store x) m' - adjust) H Hc) as (H2 & Hout2 & Hroom & Hrw).
    destruct (chain_at_room L st0 m' _ H2) as (d & Hd & [Hin1 Hin2] & Hdl & Hr & _). cbn [xm_store set_xm_handy to_blocks] in *.
    unfold db_lim. rewrite (get_dblk_eq _ _ _ Hd). cbn [rbind xm_store set_xm_handy to_blocks].
    rewrite (get_dblk_eq _ _ _ Hd). cbn [rbind].
    rewrite Hrw, Z.eqb_refl, (proj2 (Z.leb_le _ _)), (proj2 (Z.ltb_lt _ _)) by lia. cbn [andb ASSERT rbind].
    rewrite Hr in *. do 2 eexists. split; [reflexivity|]. split; [exact H2|]. split; [exact Hout2|]. split; [done|].
    cbn [xm_store xm_handy set_xm_handy to_blocks]. rewrite Hr.
    unfold to_add. cbn [xm_store xm_private set_xm_handy to_blocks]. lia.
Qed.

Lemma putlong_ok v x : mblk_eok L st0 x →
  ∃ b x', xdrmblk_putlong sizeof_dblk junk v x = Ret (b, x') ∧ @encoded _ (xdrmblk_out L st0) x (be32 v) b x'.
Proof using Hsizeof.
  intros (m & H & Hh). destruct (chain_at_room L st0 m x H) as (_ & _ & _ & _ & _ & Hroom).
  unfold xdrmblk_putlong. rewrite (ca_base _ _ _ _ H). rewrite s32_id by (unfold in_s32; lia).
  destruct (Z.ltb_spec (xm_handy x - 4) 0) as [Hlt|Hge].
  - destruct (next_block_ok m _ 4 (chain_at_handy L st0 m x (xm_handy x - 4) H)) as (r & x1 & -> & Hr); [lia|]. cbn [rbind].
    destruct r as [m1|]; unfold next_ok in Hr; change (to_add (set_xm_handy _ x)) with (to_add x) in Hr.
    2:{ do 2 eexists. split; [done|]. split; [|done]. cbn [eroom xdrmblk_out]. rewrite be32_len. lia. }
    destruct Hr as (H1 & Hout1 & _ & Hh1 & Hadd).
    destruct (put_wptr_ok L st0 m1 x1 (be32 v) H1) as (m2 & x2 & -> & H2 & Hout2 & Hh2 & Hr2 & Hrest & _); [rewrite be32_len; lia|].
    cbn [rbind]. do 2 eexists. split; [done|]. split; [done|]. intros _. rewrite be32_len in *.
    split; [cbn [eout xdrmblk_out]; rewrite Hout2, Hout1; done|]. split; [exists m2; split; [done|lia]|].
    cbn [eroom xdrmblk_out]. rewrite (same_rest_add _ _ Hrest). lia.
  - cbn [rbind]. destruct (put_here L st0 m x (be32 v) H Hh) as (m' & x' & Hp & He & _); [rewrite be32_len; lia|].
    rewrite be32_len in Hp. rewrite Hp. cbn [rbind]. by do 2 eexists.
Qed.

Lemma putbytes_loop_ok fuel : ∀ m addr n x, chain_at L st0 m x → 0 ≤ xm_handy x ≤ room (xm_store x) m →
  0 ≤ n < 2 ^ 31 → n ≤ zlen addr → n + (if xm_handy x =? 0 then 2 else 1) ≤ Z.of_nat fuel →
  ∃ b x', putbytes_loop sizeof_dblk junk fuel m addr n x = Ret (b, x') ∧ @encoded _ (xdrmblk_out L st0) x (take (Z.to_nat n) addr) b x'.
Proof using Hsizeof.
  induction fuel as [|fuel IH]; intros m addr n x H Hh Hn Hl Hfuel; [destruct (xm_handy x =? 0); lia|]. simpl putbytes_loop.
  destruct (chain_at_room L st0 m x H) as (_ & _ & _ & _ & _ & Hroom). rewrite s32_id by (unfold in_s32; lia).
  assert (zlen (take (Z.to_nat n) addr) = n) as Hlen by (rewrite length_take; lia).
  destruct (Z.ltb_spec (xm_handy x - n) 0) as [Hlt|Hge].
  - replace (xm_handy x - n + n) with (xm_handy x) by lia. rewrite s32_id by (unfold in_s32; lia).
    rewrite set_xm_handy_id.
    destruct (put_handy L st0 m x addr n H Hh) as (m1 & x1 & -> & H1 & Hout1 & Hadd1); [lia|done|]. cbn [rbind].
    destruct (next_block_ok m1 x1 0 H1) as (r & x2 & -> & Hr); [lia|]. cbn [rbind].
    destruct r as [m2|]; unfold next_ok in Hr.
    2:{ do 2 eexists. split; [done|]. split; [|done]. cbn [eroom xdrmblk_out]. rewrite Hlen. lia. }
    destruct Hr as (H2 & Hout2 & _ & Hh2 & Hadd2).
    destruct (IH m2 (drop (Z.to_nat (xm_handy x)) addr) (n - xm_handy x) x2 H2) as (b & x3 & -> & Hf & Ht);
      [lia|lia|rewrite length_drop; lia|rewrite (proj2 (Z.eqb_neq _ _)) by lia; destruct (Z.eqb_spec (xm_handy x) 0); lia|].
    do 2 eexists. split; [done|].
    assert (zlen (take (Z.to_nat (n - xm_handy x)) (drop (Z.to_nat (xm_handy x)) addr)) = n - xm_handy x) as Hlen2
      by (rewrite length_take, length_drop; lia).
    cbn [eroom eout xdrmblk_out] in *. rewrite Hlen2 in Hf, Ht.
    split; cbn [eroom eout xdrmblk_out]; rewrite Hlen; [intros Hle; apply Hf; lia|].
    intros Hb. destruct (Ht Hb) as (Ho & Hok3 & Hr3). split; [|split; [exact Hok3|lia]].
    rewrite Ho, Hout2, Hout1, <-app_assoc, take_take_drop. do 2 f_equal. lia.
  - rewrite w32_id by (unfold in_u32; lia). rewrite get_bytes_ok by lia. unfold slice. rewrite drop_0. cbn [rbind].
    destruct (put_here L st0 m x (take (Z.to_nat n) addr) H Hh) as (m' & x' & Hp & He & _); [lia|].
    rewrite Hlen in Hp. rewrite Hp. cbn [rbind]. by do 2 eexists.
Qed.

Program Definition xdrmblk_encoder : @XdrEncoder xdrmblk (xdrmblk_ops sizeof_dblk junk) := {| enc_out := xdrmblk_out L st0 |}.
Next Obligation. intros v s Hok. by apply putlong_ok. Qed.
Next Obligation.
  intros bs n s (m & H & Hh) Hn Hn2 Hl. cbn [x_putbytes xdrmblk_ops]. unfold xdrmblk_putbytes.
  rewrite (ca_base _ _ _ _ H). apply putbytes_loop_ok; [done|done|lia|done|]. destruct (xm_handy s =? 0); lia.
Qed.
End Encoder.
