(* ===== verification/XdrMblkProps.v ===== *)
(** * What XDR over message blocks guarantees

    Objects of every type survive the way over chains of message blocks; the calls
    that pass whole message blocks without copying them. *)

From S2P Require Import Prelude Bytes Mblk MblkOps Xdr XdrCodec XdrTypes XdrMblk XdrMblkOps.

(** ** Chains *)

(** A chain that can be decoded from: no word is split over two blocks. *)
Definition whole_words (st : store) (m : list mblk) : Prop :=
  m ≠ [] ∧ Forall (readable st) m ∧ Forall (λ mp, b_size mp `mod` 4 = 0) m ∧ zlen (content st m) < 2 ^ 31.

Lemma init_decode m sz st waits : whole_words st m →
  ∃ x, xdrmblk_init m XDR_DECODE sz st waits = Ret x ∧ mblk_dok 0 x ∧ mblk_in x = content st m.
Proof.
  intros (Hne & Hr & Hu & Hi). destruct m as [|mp cont]; [done|].
  pose proof Hr as Hr'. apply Forall_cons in Hr' as [(d & Hd & _) _]. pose proof Hu as Hu'. apply Forall_cons in Hu' as [Hu1 Hu2].
  unfold xdrmblk_init, db_lim. rewrite (get_dblk_eq _ _ _ Hd). cbn [rbind]. eexists. split; [done|].
  assert (dec_at 0 mp (Xdrmblk XDR_DECODE [] (Some mp) cont (b_size mp) sz st waits)) as H.
  { split; cbn [xm_base xm_op xm_handy xm_store xm_cont]; try done. by rewrite Z.add_0_r. }
  split; [by eexists|]. by rewrite (dec_at_in _ _ _ H).
Qed.

(** A new message block that nothing else refers to. *)
Definition new_block (st : store) (L : list mblk) (mp : mblk) (size : Z) : Prop :=
  store_ok st (mp :: L) ∧ refs (b_datap mp) (mp :: L) = 1 ∧ b_rptr mp = 0 ∧ b_wptr mp = 0 ∧
  ∃ d, dblks st !! b_datap mp = Some d ∧ zlen (db_data d) = size ∧ size < 2 ^ 31.

Lemma init_encode mp sz st waits L size : new_block st L mp size → sz = 0 ∨ 4 ≤ sz < 2 ^ 30 →
  ∃ x, xdrmblk_init [mp] XDR_ENCODE sz st waits = Ret x ∧ mblk_eok L st x ∧ mblk_out x = [] ∧ xm_handy x = size ∧
    to_add x = lead_true (mem st) / 2 * Z.max 0 (sz - 3).
Proof.
  intros (Hok & Hone & Hr & Hw & d & Hd & Hl & Hs) Hsz. unfold xdrmblk_init, db_lim. rewrite (get_dblk_eq _ _ _ Hd). cbn [rbind].
  eexists. split; [done|]. cbn [xm_handy]. split_and!; [| |done|done];
    [|by etransitivity; [apply content_cons|rewrite empty_block by congruence]].
  exists mp. split; [split|]; cbn [xm_base xm_op xm_store xm_cont xm_private xm_handy]; try done.
  - constructor; [|done]. split; [exact Hone|]. exists d. split; [done|lia].
  - unfold room. rewrite Hd. lia.
Qed.

Section Props.
Context (sizeof_dblk : Z) (junk : Z → Z → Z).
Hypothesis Hsizeof : 0 < sizeof_dblk ≤ 96 ∧ sizeof_dblk `mod` 4 = 0.

(** ** Objects *)

(** C29: Objects survive the way over message blocks.  A filter that encodes a well-typed object, of a
    type whose limits are not too large ([limits_ok]),
    into a fresh message block returns, whatever the allocator does: it succeeds when the
    encoding fits into the block and those that can be allocated (a word is not split, so that
    three bytes of a block may be lost), the chain then carries the encoding and no more, and
    no other message block is changed.  From any chain with words in one piece that carries an
    encoding, however it is cut into blocks, the filter decodes the object, and stops behind it. *)
Theorem xdrmblk_roundtrip fill (t : xty) (v : xtype t) mp sz size st waits L m st' waits' rest :
  limits_ok t → typed t v →
  new_block st L mp size → sz = 0 ∨ 4 ≤ sz < 2 ^ 30 →
  whole_words st' m → content st' m = encoding t v ++ rest →
  (∃ x b x', xdrmblk_init [mp] XDR_ENCODE sz st waits = Ret x ∧
     xproc fill t xdrmblk (xdrmblk_ops sizeof_dblk junk) XDR_ENCODE v x = Ret (b, v, x') ∧
     (zlen (encoding t v) ≤ size - 3 + lead_true (mem st) / 2 * Z.max 0 (sz - 3) → b = true) ∧
     (b = true → ∃ last, xm_base x' = Some last ∧
        content (xm_store x') (xm_passed x' ++ [last]) = encoding t v ∧
        store_ok (xm_store x') (chain_of x' last ++ L) ∧ frame st (xm_store x') L)) ∧
  ∃ y y', xdrmblk_init m XDR_DECODE 0 st' waits' = Ret y ∧
    xproc fill t xdrmblk (xdrmblk_ops sizeof_dblk junk) XDR_DECODE (xzero t) y = Ret (true, v, y') ∧ mblk_in y' = rest.
Proof using Hsizeof.
  intros Hl Hv Hnew Hsz Hw Hc. destruct (xcodec fill t Hl) as [C Hg Hwire].
  apply Hg in Hv. rewrite <-Hwire in *. split.
  - destruct (init_encode mp sz st waits L size Hnew Hsz) as (x & Hx & Hok & Hout & Hh & Hadd).
    destruct (@c_encode _ _ _ C _ _ (xdrmblk_encoder sizeof_dblk junk Hsizeof L st) x v Hv Hok) as (b & x' & Hp & Hroom & Hput).
    exists x, b, x'. split; [done|]. split; [done|]. split; [intros Hle; apply Hroom; cbn; lia|].
    intros Hb. destruct (Hput Hb) as (Ho & (last & Hlast & _) & _). exists last. cbn in Ho. rewrite Hout in Ho.
    pose proof (ca_base _ _ _ _ Hlast) as Hbase. split; [done|]. unfold mblk_out in Ho. rewrite Hbase in Ho.
    split; [exact Ho|]. split; [apply (ca_store _ _ _ _ Hlast)|apply (ca_frame _ _ _ _ Hlast)].
  - destruct (init_decode m 0 st' waits' Hw) as (y & Hy & Hok & Hin). rewrite Hc in Hin.
    destruct (@c_decode _ _ _ C _ _ (xdrmblk_decoder sizeof_dblk junk) y v rest Hv Hok Hin) as (y' & Hp & Hr & _).
    by exists y, y'.
Qed.
End Props.

(** ** Whole message blocks *)

Lemma chain_len_acc st m : ∀ acc, Forall (readable st) m → 0 ≤ acc → acc + zlen (content st m) < 2 ^ 31 →
  foldl (λ len mp, s32 (len + b_size mp)) acc m = acc + zlen (content st m).
Proof.
  induction m as [|mp m IH]; intros acc Hr Ha Hi; simpl foldl; [simpl; lia|].
  apply Forall_cons in Hr as [Hm Hr]. destruct (readable_inv _ _ Hm) as (d & _ & _ & Hl & Hn & _).
  rewrite content_cons, length_app in Hi |- *. rewrite s32_id by (unfold in_s32; lia). rewrite IH; [lia|done|lia|lia].
Qed.

Lemma chain_len_content st m : Forall (readable st) m → zlen (content st m) < 2 ^ 31 → chain_len m = zlen (content st m).
Proof. intros Hr Hi. unfold chain_len. rewrite (chain_len_acc st); [lia|done|lia|lia]. Qed.

(** C30: [xdrmblk_getmblk] takes the length at the front of the data and hands over the rest of
    the chain, and the stream is at its end.  The length it returns is not more than the
    bytes there are, unless the word is negative: such a word passes the check, as an unsigned
    length of 2^31 or more. *)
Theorem xdrmblk_getmblk_length w rest x m : dec_at 0 m x → mblk_in x = be32 w ++ rest →
  ∃ ok chain x', xdrmblk_getmblk x = Ret (ok, Some (chain, w32 w), x') ∧
    content (xm_store x') chain = rest ∧
    (ok = true ↔ s32 w ≤ zlen rest) ∧
    (ok = true → to_come x' = [] ∧ xm_handy x' = 0 ∧ (w32 w ≤ zlen rest ↔ 0 ≤ s32 w)).
Proof.
  intros H Hin. unfold xdrmblk_getmblk, xdrmblk_getlong. rewrite (da_base _ _ _ H).
  pose proof (getlong_loop_ok _ m x H eq_refl) as Hg. rewrite Hin, (proj2 (Z.leb_le _ _)) in Hg
    by (rewrite length_app; change (length (be32 w)) with 4%nat; lia).
  destruct Hg as (x1 & -> & Hin1 & m1 & H1). cbn [rbind].
  change (take 4 (be32 w ++ rest)) with (be32 w). change (drop 4 (be32 w ++ rest)) with rest in Hin1. rewrite word_wire.
  pose proof (dec_at_to_come _ _ _ H1) as Htc. unfold to_come in Htc. rewrite Htc.
  rewrite (dec_at_in _ _ _ H1) in Hin1. pose proof (da_int _ _ _ H1) as Hint.
  rewrite (chain_len_content _ _ (da_read _ _ _ H1) Hint), Hin1. rewrite Hin1 in Hint.
  assert (w32 (s32 w) = w32 w) as -> by apply w32_s32.
  destruct (Z.ltb_spec (zlen rest) (s32 w)) as [Hlt|Hge]; do 3 eexists; (split; [done|]; split; [exact Hin1|]).
  - split; [split; [done|lia]|done].
  - split; [done|]. intros _. split; [done|]. split; [done|].
    pose proof (w32_range w). pose proof (s32_range w). unfold in_s32, in_u32 in *.
    rewrite <-(w32_s32 w) in *. unfold w32 in *. Z.to_euclidean_division_equations. lia.
Qed.

(** ** Witnesses *)

(** A new block of eight bytes, and a chain of twelve bytes and of the rest. *)
Definition ex_new : mblk := Mblk 1 1 0 0 0 0.
Definition ex_new_store : store :=
  Store {[ 1 := Dblk (replicate 8 0) 0 2 M_DATA DBLK_REFMIN 1 true dblk_lastfree_desb ]} 2 (replicate 8 true) [].
Definition ex_in : list Z := encoding sample sample_obj ++ [9; 9; 9; 9].
Definition ex_in_store : store :=
  Store {[ 1 := Dblk (take 12 ex_in) 0 2 M_DATA DBLK_REFMIN 1 true dblk_lastfree_desb;
           2 := Dblk (drop 12 ex_in) 0 2 M_DATA DBLK_REFMIN 2 true dblk_lastfree_desb ]} 3 [] [].
Definition ex_in_chain : list mblk := [Mblk 1 1 0 12 0 0; Mblk 2 2 0 (zlen ex_in - 12) 0 0].

Lemma ex_new_block : new_block ex_new_store [] ex_new 8.
Proof.
  split; [split|].
  - intros mp ->%list_elem_of_singleton. eexists. split; [reflexivity|]. unfold in_block. simpl. lia.
  - intros a d Hd. unfold ex_new_store in Hd. simpl in Hd. apply lookup_singleton_Some in Hd as [<- <-]. by split.
  - split; [done|]. split; [done|]. split; [done|]. eexists. split; [reflexivity|]. done.
Qed.

Lemma ex_in_words : whole_words ex_in_store ex_in_chain.
Proof.
  split; [done|]. split; [|split; [by repeat constructor|done]].
  repeat constructor; eexists; (split; [reflexivity|]); unfold in_block; vm_compute; split_and!; congruence.
Qed.

Lemma xdrmblk_roundtrip_witness :
  (∃ x x', xdrmblk_init [ex_new] XDR_ENCODE 64 ex_new_store [] = Ret x ∧
     xproc (λ _, 0) sample xdrmblk (xdrmblk_ops 56 (λ _ _, 0)) XDR_ENCODE sample_obj x = Ret (true, sample_obj, x')) ∧
  ∃ y y', xdrmblk_init ex_in_chain XDR_DECODE 0 ex_in_store [] = Ret y ∧
    xproc (λ _, 0) sample xdrmblk (xdrmblk_ops 56 (λ _ _, 0)) XDR_DECODE (xzero sample) y =
      Ret (true, sample_obj, y') ∧ mblk_in y' = [9; 9; 9; 9].
Proof.
  destruct (xdrmblk_roundtrip 56 (λ _ _, 0) ltac:(done) (λ _, 0) sample sample_obj ex_new 64 8 ex_new_store [] []
    ex_in_chain ex_in_store [] [9; 9; 9; 9]) as [(x & b & x' & Hx & Hp & Hb & _) Hd];
    [apply sample_limits|apply sample_typed|apply ex_new_block|by right|apply ex_in_words|by vm_compute|].
  split; [|exact Hd]. exists x, x'. split; [exact Hx|]. rewrite Hb in Hp; [exact Hp|]. by vm_compute.
Defined.

(** A word of [-1] in front of two bytes. *)
Definition ex_huge : xdrmblk :=
  Xdrmblk XDR_DECODE [] (Some (Mblk 1 1 0 8 0 0)) [] 8 0
    (Store {[ 1 := Dblk [255; 255; 255; 255; 7; 7; 7; 7] 0 2 M_DATA DBLK_REFMIN 1 true dblk_lastfree_desb ]} 2 [] []) [].

Lemma xdrmblk_getmblk_length_witness :
  ∃ chain x', xdrmblk_getmblk ex_huge = Ret (true, Some (chain, 2 ^ 32 - 1), x') ∧ content (xm_store x') chain = [7; 7; 7; 7].
Proof.
  destruct (xdrmblk_getmblk_length (-1) [7; 7; 7; 7] ex_huge (Mblk 1 1 0 8 0 0)) as (ok & chain & x' & Hr & Hc & Hok & _).
  - split; try done. repeat constructor. eexists. split; [reflexivity|]. unfold in_block. simpl. lia.
  - by vm_compute.
  - exists chain, x'. assert (ok = true) as -> by (apply Hok; vm_compute; congruence). split; [exact Hr|exact Hc].
Defined.
