(* ===== verification/XdrInline.v ===== *)
(** * Inline access to streams ([XDR_INLINE], [IXDR_GET_LONG], [IXDR_PUT_LONG])

    A caller can ask a stream for a pointer to the next bytes of its buffer and
    read or write them itself.  What a stream promises of that is stated by
    [XdrInlineDecoder] and [XdrInlineEncoder]; both streams of the development keep
    it.  [filling] follows a caller that writes piece by piece. *)

From S2P Require Import Prelude Bytes Mblk MblkOps Xdr XdrCodec XdrMem XdrMblk XdrMblkOps.

(** ** The operations *)

(** [x_inline] gives an address in the buffer, which [x_load] and [x_store] work on, or NULL. *)
Class XdrInline (S : Type) := {
  x_inline : Z → S → run (option Z * S);
  x_load : Z → Z → S → run (list Z);
  x_store : Z → list Z → S → run S
}.

Definition IXDR_GET_LONG {S} `{XdrInline S} (buf : Z) (s : S) : run (Z * Z) :=
  let* bs := x_load buf 4 s in Ret (s32 (unbe32 bs), buf + 4).
Definition IXDR_PUT_LONG {S} `{XdrInline S} (buf v : Z) (s : S) : run (Z * S) :=
  let* s := x_store buf (be32 v) s in Ret (buf + 4, s).

(** ** What they promise *)

Class XdrInlineDecoder (S : Type) `{XdrDecoder S} `{!XdrInline S} := {
  dec_inline n s : dok 0 s → 0 ≤ n → n < 2 ^ 31 → n `mod` 4 = 0 →
    ∃ r s', x_inline n s = Ret (r, s') ∧
      match r with
      | None => s' = s
      | Some buf => n ≤ zlen (din s) ∧ din s' = drop (Z.to_nat n) (din s) ∧ dok 0 s' ∧
          ∀ o k, 0 ≤ o → 0 ≤ k → o + k ≤ n → x_load (buf + o) k s' = Ret (slice o k (din s))
      end
}.

(** Bytes written over others. *)
Definition patch (i : Z) (bs l : list Z) : list Z := take (Z.to_nat i) l ++ bs ++ drop (Z.to_nat (i + zlen bs)) l.

(** The addresses of the buffer that hold what has been put go up to [epos]. *)
Class XdrInlineEncoder (S : Type) `{XdrEncoder S} `{!XdrInline S} := {
  elow : S → Z;
  epos : S → Z;
  enc_inline n s : eok s → 0 ≤ n → n < 2 ^ 31 →
    ∃ r s', x_inline n s = Ret (r, s') ∧
      match r with
      | None => s' = s
      | Some buf => (∃ old, zlen old = n ∧ encoded s old true s') ∧ elow s' ≤ buf ∧ epos s' = buf + n
      end;
  enc_store off bs s : eok s → elow s ≤ off → off + zlen bs ≤ epos s →
    ∃ s', x_store off bs s = Ret s' ∧ eok s' ∧ eroom s' = eroom s ∧ elow s' = elow s ∧ epos s' = epos s ∧
      eout s' = patch (zlen (eout s) - (epos s - off)) bs (eout s)
}.

(** ** Writing piece by piece *)

Lemma patch_app pre old bs post : zlen old = zlen bs →
  patch (zlen pre) bs (pre ++ old ++ post) = pre ++ bs ++ post.
Proof.
  intros H. unfold patch. rewrite take_app_length' by lia. f_equal. f_equal.
  rewrite app_assoc, drop_app_length'; [done|]. rewrite length_app. lia.
Qed.

Section Filling.
Context {S : Type} `{XdrInlineEncoder S}.

(** Of a hole asked for in [s0], [dn] has been filled in; [hole] is what the rest holds, at [buf]. *)
Definition filling (s0 : S) (dn hole : list Z) (buf : Z) (s : S) : Prop :=
  encoded s0 (dn ++ hole) true s ∧ elow s ≤ buf ∧ epos s = buf + zlen hole.

Lemma fill_start n s : eok s → 0 ≤ n → n < 2 ^ 31 →
  ∃ r s', x_inline n s = Ret (r, s') ∧
    match r with None => s' = s | Some buf => ∃ hole, zlen hole = n ∧ filling s [] hole buf s' end.
Proof.
  intros Hok Hn Hn2. destruct (enc_inline n s Hok Hn Hn2) as (r & s' & -> & Hr). do 2 eexists. split; [done|].
  destruct r as [buf|]; [|done]. destruct Hr as ((old & Hl & He) & Hlow & Hpos). exists old. split; [done|].
  split; [done|]. lia.
Qed.

Lemma fill_put s0 dn hole buf s bs : filling s0 dn hole buf s → zlen bs ≤ zlen hole →
  ∃ s', x_store buf bs s = Ret s' ∧ filling s0 (dn ++ bs) (drop (length bs) hole) (buf + zlen bs) s'.
Proof.
  intros (He & Hlow & Hpos) Hle. destruct He as [_ Ht].
  destruct (Ht eq_refl) as (Ho & Hok & Hr). rewrite length_app in Hr.
  destruct (enc_store buf bs s Hok Hlow) as (s' & -> & Hok' & Hr' & Hlow' & Hpos' & Ho'); [lia|].
  exists s'. split; [done|]. split; [|rewrite length_drop; split; lia]. split; [done|]. intros _.
  assert (hole = take (length bs) hole ++ drop (length bs) hole) as Hsplit by by rewrite take_drop.
  assert (zlen (take (length bs) hole) = zlen bs) as Htl by (rewrite length_take; lia).
  split; [|split; [done|rewrite !length_app, length_drop; lia]].
  rewrite Ho', Ho, Hpos.
  replace (_ - _) with (zlen (eout s0 ++ dn)) by (rewrite !length_app; lia).
  rewrite Hsplit at 1. rewrite (app_assoc (eout s0)), patch_app by done. by rewrite <-!app_assoc.
Qed.

(** A piece that is left as it is. *)
Lemma fill_skip s0 dn hole buf s n : filling s0 dn hole buf s → 0 ≤ n ≤ zlen hole →
  filling s0 (dn ++ take (Z.to_nat n) hole) (drop (Z.to_nat n) hole) (buf + n) s.
Proof.
  intros (He & Hlow & Hpos) Hle. split; [by rewrite <-app_assoc, take_drop|]. rewrite length_drop. lia.
Qed.

Lemma fill_done s0 dn hole buf s : filling s0 dn hole buf s → zlen hole = 0 → encoded s0 dn true s.
Proof. intros (He & _) Hl. destruct hole; [|simpl in Hl; lia]. by rewrite app_nil_r in He. Qed.

Lemma fill_long s0 dn hole buf s v : filling s0 dn hole buf s → 4 ≤ zlen hole →
  ∃ s', IXDR_PUT_LONG buf v s = Ret (buf + 4, s') ∧ filling s0 (dn ++ be32 v) (drop 4 hole) (buf + 4) s'.
Proof.
  intros Hf Hk. unfold IXDR_PUT_LONG. destruct (fill_put _ _ _ _ _ (be32 v) Hf) as (s' & -> & Hf'); [rewrite be32_len; lia|].
  by exists s'.
Qed.
End Filling.

(** ** Memory streams *)

#[global] Instance xdrmem_inline_ops : XdrInline xdrmem := {|
  x_inline n s := Ret (Xdr.xdrmem_inline n s);
  x_load off n s := get_bytes off n (x_buf s);
  x_store off bs s := let* buf := put_bytes off bs (x_buf s) in Ret (Xdrmem buf (x_private s) (x_handy s))
|}.

Lemma slice_of_drop (p o k : Z) (l : list Z) : 0 ≤ p → 0 ≤ o → slice o k (drop (Z.to_nat p) l) = slice (p + o) k l.
Proof. intros. unfold slice. rewrite drop_drop. do 2 f_equal. lia. Qed.

#[export] Program Instance xdrmem_inline_decoder : XdrInlineDecoder xdrmem.
Next Obligation.
  intros n s Hok Hn Hn2 _. pose proof Hok as [H1 H2 H3 H4]. cbn [x_inline xdrmem_inline_ops]. unfold Xdr.xdrmem_inline.
  destruct (Z.leb_spec n (x_handy s)) as [Hle|Hgt]; [|by do 2 eexists].
  rewrite handy_sub by done. do 2 eexists. split; [done|]. cbn [din dok xdrmem_decoder].
  split; [rewrite mem_in_len by done; lia|]. split; [exact (mem_step_in s n Hok Hn)|]. split; [exact (mem_step_ok s n Hok (conj Hn Hle))|].
  intros o k Ho Hk Hok'. cbn [x_load xdrmem_inline_ops advance set_handy x_buf]. rewrite get_bytes_ok by lia.
  f_equal. symmetry. by apply slice_of_drop.
Qed.

Lemma patch_len i bs l : 0 ≤ i → i + zlen bs ≤ zlen l → zlen (patch i bs l) = zlen l.
Proof. intros. unfold patch. rewrite !length_app, length_take, length_drop. lia. Qed.

Lemma put_bytes_patch off bs data : 0 ≤ off → off + zlen bs ≤ zlen data → put_bytes off bs data = Ret (patch off bs data).
Proof. intros H1 H2. unfold put_bytes. by rewrite (proj2 (Z.leb_le 0 off)), (proj2 (Z.leb_le _ (zlen data))). Qed.

Lemma patch_take i bs l n : 0 ≤ i → i + zlen bs ≤ n → n ≤ zlen l →
  take (Z.to_nat n) (patch i bs l) = patch i bs (take (Z.to_nat n) l).
Proof.
  intros H1 H2 H3. unfold patch. rewrite app_assoc, take_app_ge by (rewrite length_app, length_take; lia).
  rewrite <-app_assoc. f_equal; [rewrite take_take; f_equal; lia|]. f_equal.
  rewrite length_app, length_take, skipn_firstn_comm. f_equal. lia.
Qed.

#[export] Program Instance xdrmem_inline_encoder : XdrInlineEncoder xdrmem := {|
  elow s := 0;
  epos s := x_private s
|}.
Next Obligation.
  intros n s Hok Hn Hn2. pose proof Hok as [H1 H2 H3 H4]. cbn [x_inline xdrmem_inline_ops]. unfold Xdr.xdrmem_inline.
  destruct (Z.leb_spec n (x_handy s)) as [Hle|Hgt]; [|by do 2 eexists].
  rewrite handy_sub by done. do 2 eexists. split; [done|]. split; [|done].
  exists (slice (x_private s) n (x_buf s)). split; [apply slice_len; lia|]. split; [done|]. intros _.
  cbn [eout eok eroom xdrmem_out enc_out xdrmem_encoder]. rewrite slice_len by lia.
  split; [|split; [exact (mem_step_ok s n Hok (conj Hn Hle))|simpl; lia]].
  unfold mem_out, slice. cbn [advance set_handy x_private x_buf]. rewrite take_take_drop. f_equal. lia.
Qed.
Next Obligation.
  intros off bs s Hok Hlow Hpos. pose proof Hok as [H1 H2 H3 H4].
  cbn [eok enc_out xdrmem_encoder xdrmem_out] in *. cbn [x_store xdrmem_inline_ops].
  rewrite put_bytes_patch by lia. cbn [rbind]. eexists. split; [done|].
  split; [split; cbn [x_private x_handy x_buf]; rewrite ?patch_len by lia; lia|]. split; [done|]. split; [done|].
  split; [done|]. cbn [eout xdrmem_out]. unfold mem_out. cbn [x_private x_buf].
  rewrite length_take, patch_take by lia. f_equal. lia.
Qed.

(** ** Streams over message blocks *)

#[global] Instance xdrmblk_inline_ops : XdrInline xdrmblk := {|
  x_inline := xdrmblk_inline;
  x_load off n x := match xm_base x with Some m => peek_block m off n (xm_store x) | None => Fault end;
  x_store off bs x :=
    match xm_base x with
    | Some m => let* st := poke_block m off bs (xm_store x) in Ret (set_xm_store st x)
    | None => Fault
    end
|}.

Lemma slice_in_slice o k r n l : 0 ≤ o → 0 ≤ k → 0 ≤ r → o + k ≤ n → slice o k (slice r n l) = slice (r + o) k l.
Proof.
  intros. unfold slice. rewrite skipn_firstn_comm, take_take, drop_drop. do 2 f_equal; lia.
Qed.

Lemma slice_app_l o k (l l' : list Z) : 0 ≤ o → 0 ≤ k → o + k ≤ zlen l → slice o k (l ++ l') = slice o k l.
Proof. intros. unfold slice. rewrite drop_app_le by lia. apply take_app_le. rewrite length_drop. lia. Qed.

Lemma patch_app_r (a b bs : list Z) i : 0 ≤ i → patch (zlen a + i) bs (a ++ b) = a ++ patch i bs b.
Proof.
  intros. unfold patch. rewrite take_app_ge, drop_app_ge, <-!app_assoc by lia. f_equal. f_equal; [f_equal; lia|].
  f_equal. f_equal. lia.
Qed.

Lemma patch_drop r i bs l : 0 ≤ r → r ≤ i → i ≤ zlen l → drop (Z.to_nat r) (patch i bs l) = patch (i - r) bs (drop (Z.to_nat r) l).
Proof.
  intros. unfold patch. rewrite drop_app_le by (rewrite length_take; lia). rewrite drop_drop, take_drop_commute.
  do 2 f_equal; [do 2 f_equal; lia|]. f_equal. f_equal. lia.
Qed.

Lemma patch_slice r n i bs l : 0 ≤ r → r ≤ i → i + zlen bs ≤ r + n → r + n ≤ zlen l →
  slice r n (patch i bs l) = patch (i - r) bs (slice r n l).
Proof.
  intros. unfold slice. rewrite patch_drop by lia. apply patch_take; [lia|lia|rewrite length_drop; lia].
Qed.

Section Mblk.
Context (sizeof_dblk : Z) (junk : Z → Z → Z).
#[local] Existing Instance xdrmblk_ops.
#[local] Existing Instance xdrmblk_decoder.

Program Definition xdrmblk_inline_decoder :
  @XdrInlineDecoder xdrmblk (xdrmblk_ops sizeof_dblk junk) (xdrmblk_decoder sizeof_dblk junk) _ := {| dec_inline := _ |}.
Next Obligation.
  intros n s [m H] Hn Hn2 Hu. cbn [x_inline xdrmblk_inline_ops]. unfold xdrmblk_inline.
  rewrite (da_op _ _ _ H), (da_base _ _ _ H), (handy_s32 _ _ _ n H) by lia.
  destruct (Z.ltb_spec (xm_handy s) n) as [Hlt|Hge]; [by do 2 eexists|]. rewrite (da_handy _ _ _ H) in Hge.
  pose proof (da_read _ _ _ H) as Hr. apply Forall_cons in Hr as [Hm _].
  destruct (readable_inv _ _ Hm) as (d & Hd & [Hb1 Hb2] & Hl & _ & Hv). rewrite (get_dblk_eq _ _ _ Hd). cbn [rbind].
  destruct (negb (db_ref d =? 1)); [by do 2 eexists|]. do 2 eexists. split; [done|].
  destruct (dec_at_take 0 m s n H) as [H' _]; [lia|]. destruct (dec_at_read 0 m s n H) as (_ & _ & Hin); [lia|].
  rewrite Z.add_0_l, Hu in H'. cbn [din dok xdrmblk_decoder].
  split; [rewrite (dec_at_in _ _ _ H), content_cons, length_app; lia|]. split; [exact Hin|].
  split; [by eexists|]. intros o k Ho Hk Hok. cbn [x_load xdrmblk_inline_ops xm_base xm_store set_xm_base set_xm_handy].
  unfold peek_block. cbn [b_datap set_rptr]. rewrite (get_dblk_eq _ _ _ Hd). cbn [rbind].
  unfold b_size in *. rewrite get_bytes_ok by lia. f_equal. rewrite (dec_at_in _ _ _ H), content_cons.
  rewrite slice_app_l by lia. rewrite Hv. symmetry. unfold b_size. by apply slice_in_slice; lia.
Qed.

Hypothesis Hsizeof : 0 < sizeof_dblk ≤ 96 ∧ sizeof_dblk `mod` 4 = 0.
Context (L : list mblk) (st0 : store).

Program Definition xdrmblk_inline_encoder :
  @XdrInlineEncoder xdrmblk (xdrmblk_ops sizeof_dblk junk) (xdrmblk_encoder sizeof_dblk junk Hsizeof L st0) _ := {|
  elow x := from_option b_rptr 0 (xm_base x);
  epos x := from_option b_wptr 0 (xm_base x)
|}.
Next Obligation.
  intros n s (m & H & Hh) Hn Hn2. cbn [x_inline xdrmblk_inline_ops]. unfold xdrmblk_inline.
  rewrite (ca_op _ _ _ _ H), (ca_base _ _ _ _ H).
  destruct (chain_at_room _ _ m s H) as (d & Hd & [Hb1 Hb2] & Hl & Hr & Hroom).
  destruct (Z.ltb_spec (xm_handy s) n) as [Hlt|Hge]; [by do 2 eexists|].
  rewrite (get_dblk_eq _ _ _ Hd). cbn [rbind].
  destruct (negb (db_ref d =? 1)); [by do 2 eexists|]. rewrite s32_id by (unfold in_s32; lia).
  destruct (chain_at_upd L st0 m (set_wptr (b_wptr m + n) m) s (xm_store s) (xm_handy s - n) H) as [Hc Hout]; try done.
  { eapply store_ok_perm; [apply chain_perm|apply (ca_store _ _ _ _ H)]. }
  { exists d, d. split_and!; try done. split; simpl; lia. }
  do 2 eexists. split; [done|]. split; [|cbn [xm_base set_xm_base from_option b_rptr b_wptr set_wptr]; lia].
  exists (slice (b_wptr m) n (db_data d)). split; [apply slice_len; lia|]. split; [done|]. intros _.
  rewrite slice_len by lia. split; [|split].
  - cbn [eout enc_out xdrmblk_encoder xdrmblk_out]. etransitivity; [exact Hout|].
    rewrite (chain_out _ _ _ _ H), <-app_assoc. f_equal. unfold bdata, view. cbn [b_datap set_wptr]. rewrite Hd.
    cbn [snd]. unfold b_size. cbn [b_rptr b_wptr set_wptr].
    fold (slice (b_rptr m) (b_wptr m + n - b_rptr m) (db_data d)) (slice (b_rptr m) (b_wptr m - b_rptr m) (db_data d)).
    replace (b_wptr m + n - b_rptr m) with (b_wptr m - b_rptr m + n) by lia. rewrite slice_split by lia. do 2 f_equal. lia.
  - eexists. split; [exact Hc|]. unfold room. cbn [xm_handy xm_store set_xm_base set_xm_handy set_xm_store b_datap set_wptr].
    rewrite Hd. simpl. lia.
  - cbn [eroom enc_out xdrmblk_encoder xdrmblk_out xm_handy set_xm_base set_xm_handy].
    change (to_add (set_xm_base _ (set_xm_handy _ s))) with (to_add s). lia.
Qed.
Next Obligation.
  intros off bs s (m & H & Hh) Hlow Hpos. cbn [x_store xdrmblk_inline_ops]. rewrite (ca_base _ _ _ _ H) in *.
  cbn [from_option] in *. destruct (chain_at_room _ _ m s H) as (d & Hd & [Hb1 Hb2] & Hl & Hr & Hroom).
  pose proof (ca_own _ _ _ _ H) as Ho. apply Forall_cons in Ho as [(Hone & _) _].
  rewrite (refs_perm _ _ _ (chain_perm L s m)) in Hone.
  destruct (poke_ok (xm_store s) m _ off bs d (store_ok_perm _ _ _ (chain_perm L s m) (ca_store _ _ _ _ H))
    (refs_one_unshared _ _ Hone) Hd) as (st' & data & Hp & Hput & Hlen & Hok' & Hf & Hd' & Hother & Hmem); [lia|lia|].
  rewrite put_bytes_patch in Hput by lia. injection Hput as <-.
  rewrite Hp. cbn [rbind]. destruct (chain_at_upd L st0 m m s st' (xm_handy s) H) as [Hc Hout]; try done.
  { exists d, (set_db_data (patch off bs (db_data d)) d). split_and!; try done. split; simpl; lia. }
  assert (set_xm_base m (set_xm_handy (xm_handy s) (set_xm_store st' s)) = set_xm_store st' s) as E.
  { destruct s. unfold set_xm_base, set_xm_handy, set_xm_store. simpl. f_equal. symmetry. apply (ca_base _ _ _ _ H). }
  rewrite E in Hc, Hout. eexists. split; [done|]. split.
  { exists m. split; [exact Hc|]. unfold room in *. cbn [xm_handy xm_store set_xm_store]. rewrite Hd'. rewrite Hd in Hh. simpl. lia. }
  split.
  { cbn [eroom enc_out xdrmblk_encoder xdrmblk_out xm_handy set_xm_store]. unfold to_add.
    cbn [xm_store xm_private set_xm_store]. by rewrite Hmem. }
  cbn [xm_base set_xm_store]. rewrite (ca_base _ _ _ _ H). split; [done|]. split; [done|].
  cbn [eout enc_out xdrmblk_encoder xdrmblk_out]. rewrite Hout, (chain_out _ _ _ _ H).
  unfold bdata, view. rewrite Hd, Hd'. cbn [snd]. unfold b_size. change (db_data (set_db_data ?x d)) with x.
  fold (slice (b_rptr m) (b_wptr m - b_rptr m) (patch off bs (db_data d)))
    (slice (b_rptr m) (b_wptr m - b_rptr m) (db_data d)).
  rewrite patch_slice, length_app, Nat2Z.inj_add, slice_len by lia. cbn [from_option].
  replace (_ + _ - _) with (zlen (content (xm_store s) (xm_passed s)) + (off - b_rptr m)) by lia.
  by rewrite patch_app_r by lia.
Qed.
End Mblk.
