(* ===== verification/Rpc.v ===== *)
(** * RPC messages ([uts/common/rpc/rpc_prot.c], [rpc_calmsg.c], [rpc_msg.h])

    The filters for call and reply messages, which read and write the buffer of the
    stream directly when it lets them, and what clients and servers do with a reply.
    The members of a union are constructors; to go through a pointer read as another
    member than was stored is a [Fault], and a number read so is [leftover]. *)

From S2P Require Import Prelude Bytes Xdr XdrInline.

(** ** Data *)

Definition MAX_AUTH_BYTES : Z := 400.
Definition RPC_MSG_VERSION : Z := 2.

(** [enum msg_type], [reply_stat], [accept_stat] and [reject_stat] *)
Definition CALL : Z := 0.
Definition REPLY : Z := 1.
Definition MSG_ACCEPTED : Z := 0.
Definition MSG_DENIED : Z := 1.
Definition SUCCESS : Z := 0.
Definition PROG_UNAVAIL : Z := 1.
Definition PROG_MISMATCH : Z := 2.
Definition PROC_UNAVAIL : Z := 3.
Definition GARBAGE_ARGS : Z := 4.
Definition SYSTEM_ERR : Z := 5.
Definition RPC_MISMATCH : Z := 0.
Definition AUTH_ERROR : Z := 1.

(** [oa_base]: storage of its own, or the bytes it points to in the buffer of a stream, as they are
    when it is set; to decode into such bytes or to free them is not allowed. *)
Inductive oa_ptr := Own (p : ptr (list Z)) | Inline (bs : list Z).

Record opaque_auth := OpaqueAuth { oa_flavor : Z; oa_base : oa_ptr; oa_length : Z }.

Definition _null_auth : opaque_auth := OpaqueAuth 0 (Own NULL) 0.

Definition set_oa_base p ap := OpaqueAuth (oa_flavor ap) p (oa_length ap).

(** [RJ_versions] and [RJ_why] are in the same words: [low] and the reason are the first. *)
Record rejected_reply := RejectedReply { rj_stat : Z; rj_low : Z; rj_high : Z }.
Definition rj_why (rr : rejected_reply) : Z := s32 (rj_low rr).

Record call_body := CallBody {
  cb_rpcvers : Z; cb_prog : Z; cb_vers : Z; cb_proc : Z; cb_cred : opaque_auth; cb_verf : opaque_auth
}.

(** The results are objects of type [R]. *)
Inductive accepted_ru (R : Type) :=
| AR_versions (low high : Z)
| AR_results (where_ : R) (proc : option (xdrproc R)).
Arguments AR_versions {R} low high.
Arguments AR_results {R} where_ proc.

Record accepted_reply (R : Type) := AcceptedReply { ar_verf : opaque_auth; ar_stat : Z; ar_ru : accepted_ru R }.
Arguments AcceptedReply {R} _ _ _.
Arguments ar_verf {R} _.
Arguments ar_stat {R} _.
Arguments ar_ru {R} _.

Inductive reply_ru (R : Type) := RP_ar (ar : accepted_reply R) | RP_dr (rr : rejected_reply).
Arguments RP_ar {R} ar.
Arguments RP_dr {R} rr.

Record reply_body (R : Type) := ReplyBody { rp_stat : Z; rp_ru : reply_ru R }.
Arguments ReplyBody {R} _ _.
Arguments rp_stat {R} _.
Arguments rp_ru {R} _.

Inductive rpc_ru (R : Type) := RM_cmb (c : call_body) | RM_rmb (r : reply_body R).
Arguments RM_cmb {R} c.
Arguments RM_rmb {R} r.

Record rpc_msg (R : Type) := RpcMsg { rm_xid : Z; rm_direction : Z; rm_ru : rpc_ru R }.
Arguments RpcMsg {R} _ _ _.
Arguments rm_xid {R} _.
Arguments rm_direction {R} _.
Arguments rm_ru {R} _.

Definition rm_call {R} (m : rpc_msg R) : run call_body := match rm_ru m with RM_cmb c => Ret c | _ => Fault end.
Definition rm_reply {R} (m : rpc_msg R) : run (reply_body R) := match rm_ru m with RM_rmb r => Ret r | _ => Fault end.
Definition rp_acpt {R} (r : reply_body R) : run (accepted_reply R) :=
  match rp_ru r with RP_ar ar => Ret ar | _ => Fault end.

(** The memory behind [oa_base], up to [oa_length]. *)
Definition oa_bytes (oa : opaque_auth) : run (list Z) :=
  match oa_base oa with
  | Own (At sp) | Inline sp => get_bytes 0 (oa_length oa) sp
  | _ => Fault
  end.

Section Rpc.
Context (junk : nat → Z) (leftover : nat → Z).

(** ** Authentication *)

Definition xdr_opaque_auth : xdrproc opaque_auth := λ S _ op ap s,
  let* (ok, flavor, s) := xdr_enum S _ op (oa_flavor ap) s in
  let ap := OpaqueAuth flavor (oa_base ap) (oa_length ap) in
  if ok : bool then
    match oa_base ap, op with
    | Own p, _ =>
        let* (ok, (p, n), s) := xdr_bytes junk MAX_AUTH_BYTES S _ op (p, oa_length ap) s in
        Ret (ok, OpaqueAuth flavor (Own p) n, s)
    | Inline bs, XDR_ENCODE =>
        let* (ok, _, s) := xdr_bytes junk MAX_AUTH_BYTES S _ op (At bs, oa_length ap) s in Ret (ok, ap, s)
    | Inline _, _ => Fault
    end
  else Ret (false, ap, s).

Definition xdr_des_block : xdrproc (list Z) := xdr_opaque 8.

(** ** Replies *)

Section Reply.
Context {R : Type}.

Definition ar_low (u : accepted_ru R) : Z := match u with AR_versions low _ => low | _ => leftover 0 end.
Definition ar_high (u : accepted_ru R) : Z := match u with AR_versions _ high => high | _ => leftover 1 end.

(** The versions of a [PROG_MISMATCH]; only decoding stores into the union. *)
Definition xdr_ar_vers : xdrproc (accepted_ru R) := λ S _ op u s,
  let* (ok, low, s) := xdr_u_long S _ op (ar_low u) s in
  if ok : bool then
    let high := ar_high u in
    let u := match op with XDR_DECODE => AR_versions low high | _ => u end in
    let* (ok, high, s) := xdr_u_long S _ op high s in
    Ret (ok, match op with XDR_DECODE => AR_versions low high | _ => u end, s)
  else Ret (false, u, s).

(** The results, by the procedure that comes with them. *)
Definition xdr_ar_results : xdrproc (accepted_ru R) := λ S _ op u s,
  match u with
  | AR_results w (Some proc) => let* (ok, w, s) := proc S _ op w s in Ret (ok, AR_results w (Some proc), s)
  | _ => Fault
  end.

(** What follows [ar_stat]. *)
Definition xdr_accepted_rest : xdrproc (accepted_reply R) := λ S _ op ar s,
  if ar_stat ar =? SUCCESS then
    let* (ok, u, s) := xdr_ar_results S _ op (ar_ru ar) s in
    Ret (ok, AcceptedReply (ar_verf ar) (ar_stat ar) u, s)
  else if ar_stat ar =? PROG_MISMATCH then
    let* (ok, u, s) := xdr_ar_vers S _ op (ar_ru ar) s in
    Ret (ok, AcceptedReply (ar_verf ar) (ar_stat ar) u, s)
  else Ret (true, ar, s).

Definition xdr_accepted_reply : xdrproc (accepted_reply R) := λ S _ op ar s,
  let* (ok, verf, s) := xdr_opaque_auth S _ op (ar_verf ar) s in
  let ar := AcceptedReply verf (ar_stat ar) (ar_ru ar) in
  if negb ok then Ret (false, ar, s)
  else
    let* (ok, stat, s) := xdr_enum S _ op (ar_stat ar) s in
    let ar := AcceptedReply verf stat (ar_ru ar) in
    if negb ok then Ret (false, ar, s) else xdr_accepted_rest S _ op ar s.

Definition xdr_rejected_reply : xdrproc rejected_reply := λ S _ op rr s,
  let* (ok, stat, s) := xdr_enum S _ op (rj_stat rr) s in
  let rr := RejectedReply stat (rj_low rr) (rj_high rr) in
  if negb ok then Ret (false, rr, s)
  else if stat =? RPC_MISMATCH then
    let* (ok, low, s) := xdr_u_long S _ op (rj_low rr) s in
    let rr := RejectedReply stat low (rj_high rr) in
    if negb ok then Ret (false, rr, s)
    else
      let* (ok, high, s) := xdr_u_long S _ op (rj_high rr) s in
      Ret (ok, RejectedReply stat low high, s)
  else if stat =? AUTH_ERROR then
    let* (ok, why, s) := xdr_enum S _ op (rj_why rr) s in
    Ret (ok, RejectedReply stat (w32 why) (rj_high rr), s)
  else Ret (false, rr, s).

(** The rejected reply that overlays what the union holds. *)
Definition rp_rjct (u : reply_ru R) : rejected_reply :=
  match u with RP_dr rr => rr | RP_ar _ => RejectedReply (leftover 2) (leftover 3) (leftover 4) end.

(** The two arms of the union of [reply_dscrm]. *)
Definition xdr_arm_accepted : xdrproc (reply_ru R) := λ S _ op u s,
  match u with
  | RP_ar ar => let* (ok, ar, s) := xdr_accepted_reply S _ op ar s in Ret (ok, RP_ar ar, s)
  | RP_dr _ => Fault
  end.
Definition xdr_arm_rejected : xdrproc (reply_ru R) := λ S _ op u s,
  let* (ok, rr, s) := xdr_rejected_reply S _ op (rp_rjct u) s in
  Ret (ok, match op with XDR_DECODE => RP_dr rr | _ => u end, s).
Definition reply_dscrm : list (Z * xdrproc (reply_ru R)) :=
  [(MSG_ACCEPTED, xdr_arm_accepted); (MSG_DENIED, xdr_arm_rejected)].

(** ** Reply messages *)

(** A filter that uses the buffer of the stream. *)
Definition inlineproc (A : Type) : Type := ∀ S, XdrStream S → XdrInline S → xdr_op → A → S → run (bool * A * S).

Definition set_verf (v : opaque_auth) (ar : accepted_reply R) := AcceptedReply v (ar_stat ar) (ar_ru ar).
Definition set_reply (r : reply_body R) (m : rpc_msg R) : rpc_msg R := RpcMsg (rm_xid m) (rm_direction m) (RM_rmb r).

(** The words and the bytes of an authenticator, written through [buf]; [filler] is the
    code for what is after the bytes. *)
Definition put_auth {S} `{XdrInline S} (filler : Z → S → run (Z * S)) (oa : opaque_auth) (buf : Z) (s : S)
    : run (Z * S) :=
  let* (buf, s) := IXDR_PUT_LONG buf (oa_flavor oa) s in
  let* (buf, s) := IXDR_PUT_LONG buf (oa_length oa) s in
  if truthy (oa_length oa) then
    let* bs := oa_bytes oa in
    let* s := x_store buf bs s in
    filler buf s
  else Ret (buf, s).

(** Behind [len] bytes, zeros up to [rndup]. *)
Definition zero_filler {S} `{XdrInline S} (len rndup buf : Z) (s : S) : run (Z * S) :=
  let buf := buf + len in
  let rndup := w32 (rndup - len) in
  if 0 <? rndup then let* s := x_store buf (replicate (Z.to_nat rndup) 0) s in Ret (buf + rndup, s)
  else Ret (buf, s).

(** [xdr_replymsg], when it encodes and has got a buffer. *)
Definition replymsg_encode_inline S (x : XdrStream S) (i : XdrInline S) (rmsg : rpc_msg R) (r : reply_body R)
    (ar : accepted_reply R) (rndup buf : Z) (s : S) : run (bool * rpc_msg R * S) :=
  let* (buf, s) := IXDR_PUT_LONG buf (rm_xid rmsg) s in
  let* (buf, s) := IXDR_PUT_LONG buf (rm_direction rmsg) s in
  let* (buf, s) := IXDR_PUT_LONG buf (rp_stat r) s in
  let* (buf, s) := put_auth (zero_filler (oa_length (ar_verf ar)) rndup) (ar_verf ar) buf s in
  let* (_, s) := IXDR_PUT_LONG buf (ar_stat ar) s in
  let* (ok, ar, s) := xdr_accepted_rest S _ XDR_ENCODE ar s in
  Ret (ok, set_reply (ReplyBody (rp_stat r) (RP_ar ar)) rmsg, s).

(** The flavor and the length of a verifier, inline if the stream lets the caller. *)
Definition get_verf_words S (x : XdrStream S) (i : XdrInline S) (oa : opaque_auth) (s : S)
    : run (bool * opaque_auth * S) :=
  let* (buf, s) := x_inline (2 * BYTES_PER_XDR_UNIT) s in
  match buf with
  | Some buf =>
      let* (flavor, buf) := IXDR_GET_LONG buf s in
      let* (len, _) := IXDR_GET_LONG buf s in
      Ret (true, OpaqueAuth flavor (oa_base oa) (w32 len), s)
  | None =>
      let* (ok, flavor, s) := xdr_enum S _ XDR_DECODE (oa_flavor oa) s in
      let oa := OpaqueAuth flavor (oa_base oa) (oa_length oa) in
      if negb ok then Ret (false, oa, s)
      else
        let* (ok, len, s) := xdr_u_int S _ XDR_DECODE (oa_length oa) s in
        Ret (ok, OpaqueAuth flavor (oa_base oa) len, s)
  end.

(** The bytes of the verifier of a reply, copied to storage of its own. *)
Definition get_verf_copy S (x : XdrStream S) (i : XdrInline S) (oa : opaque_auth) (s : S)
    : run (bool * opaque_auth * S) :=
  if negb (truthy (oa_length oa)) then Ret (true, oa, s)
  else if MAX_AUTH_BYTES <? oa_length oa then Ret (false, oa, s)
  else
    let* base :=
      match oa_base oa with
      | Own NULL => Ret (mem_alloc junk (oa_length oa))
      | Own (At sp) => Ret sp
      | _ => Fault
      end in
    let* (buf, s) := x_inline (RNDUP w32 (oa_length oa)) s in
    match buf with
    | None =>
        let* (ok, base, s) := xdr_opaque (oa_length oa) S _ XDR_DECODE base s in
        Ret (ok, set_oa_base (Own (At base)) oa, s)
    | Some buf =>
        let* bs := x_load buf (oa_length oa) s in
        let* base := put_bytes 0 bs base in
        Ret (true, set_oa_base (Own (At base)) oa, s)
    end.

(** [xdr_replymsg], when it decodes and has got the first three words. *)
Definition replymsg_decode_inline S (x : XdrStream S) (i : XdrInline S) (rmsg : rpc_msg R) (buf : Z) (s : S)
    : run (bool * rpc_msg R * S) :=
  let* (xid, buf) := IXDR_GET_LONG buf s in
  let* (direction, buf) := IXDR_GET_LONG buf s in
  let rmsg := RpcMsg (w32 xid) direction (rm_ru rmsg) in
  if negb (direction =? REPLY) then Ret (false, rmsg, s)
  else
    let* (stat, _) := IXDR_GET_LONG buf s in
    let* r := rm_reply rmsg in
    let reply u := set_reply (ReplyBody stat u) rmsg in
    if negb (stat =? MSG_ACCEPTED) then
      if stat =? MSG_DENIED then
        let* (ok, rr, s) := xdr_rejected_reply S _ XDR_DECODE (rp_rjct (rp_ru r)) s in Ret (ok, reply (RP_dr rr), s)
      else Ret (false, reply (rp_ru r), s)
    else
      let* ar := rp_acpt r in
      let* (ok, oa, s) := get_verf_words S x i (ar_verf ar) s in
      if negb ok then Ret (false, reply (RP_ar (set_verf oa ar)), s)
      else
        let* (ok, oa, s) := get_verf_copy S x i oa s in
        let ar := set_verf oa ar in
        if negb ok then Ret (false, reply (RP_ar ar), s)
        else
          let* (ok, stat, s) := xdr_enum S _ XDR_DECODE (ar_stat ar) s in
          let ar := AcceptedReply (ar_verf ar) stat (ar_ru ar) in
          if negb ok then Ret (false, reply (RP_ar ar), s)
          else
            let* (ok, ar, s) := xdr_accepted_rest S _ XDR_DECODE ar s in Ret (ok, reply (RP_ar ar), s).

(** The general case of [xdr_replymsg]. *)
Definition replymsg_slow : xdrproc (rpc_msg R) := λ S _ op rmsg s,
  let* (ok, xid, s) := xdr_u_long S _ op (rm_xid rmsg) s in
  let rmsg := RpcMsg xid (rm_direction rmsg) (rm_ru rmsg) in
  if negb ok then Ret (false, rmsg, s)
  else
    let* (ok, direction, s) := xdr_enum S _ op (rm_direction rmsg) s in
    let rmsg := RpcMsg xid direction (rm_ru rmsg) in
    if negb (ok && (direction =? REPLY)) then Ret (false, rmsg, s)
    else
      let* r := rm_reply rmsg in
      let* (ok, (stat, u), s) := xdr_union reply_dscrm None S _ op (rp_stat r, rp_ru r) s in
      Ret (ok, set_reply (ReplyBody stat u) rmsg, s).

(** Whether [xdr_replymsg] tries to encode in place, and then the reply. *)
Definition reply_to_encode (op : xdr_op) (rmsg : rpc_msg R) : run (option (reply_body R * accepted_reply R)) :=
  match op with
  | XDR_ENCODE =>
      let* r := rm_reply rmsg in
      if (rp_stat r =? MSG_ACCEPTED) && (rm_direction rmsg =? REPLY) then
        let* ar := rp_acpt r in Ret (Some (r, ar))
      else Ret None
  | _ => Ret None
  end.

Definition xdr_replymsg : inlineproc (rpc_msg R) := λ S x i op rmsg s,
  let* enc := reply_to_encode op rmsg in
  match enc with
  | Some (r, ar) =>
      let rndup := RNDUP w32 (oa_length (ar_verf ar)) in
      let* (buf, s) := x_inline (s32 (6 * BYTES_PER_XDR_UNIT + rndup)) s in
      match buf with
      | Some buf => replymsg_encode_inline S x i rmsg r ar rndup buf s
      | None => replymsg_slow S x op rmsg s
      end
  | None =>
      match op with
      | XDR_DECODE =>
          let* (buf, s) := x_inline (3 * BYTES_PER_XDR_UNIT) s in
          match buf with
          | Some buf => replymsg_decode_inline S x i rmsg buf s
          | None => replymsg_slow S x op rmsg s
          end
      | _ => replymsg_slow S x op rmsg s
      end
  end.

(** The header of a reply, only to encode. *)
Definition xdr_replymsg_hdr : inlineproc (rpc_msg R) := λ S x i op rmsg s,
  let* enc := reply_to_encode op rmsg in
  match enc with
  | None => Ret (false, rmsg, s)
  | Some (r, ar) =>
      let oa := ar_verf ar in
      let* (buf, s) := x_inline (s32 (6 * BYTES_PER_XDR_UNIT + oa_length oa)) s in
      match buf with
      | Some buf =>
          let* (buf, s) := IXDR_PUT_LONG buf (rm_xid rmsg) s in
          let* (buf, s) := IXDR_PUT_LONG buf (rm_direction rmsg) s in
          let* (buf, s) := IXDR_PUT_LONG buf (rp_stat r) s in
          let filler buf s := Ret (buf + RNDUP w32 (oa_length oa), s) in
          let* (buf, s) := put_auth filler oa buf s in
          let* (_, s) := IXDR_PUT_LONG buf (ar_stat ar) s in
          Ret (true, rmsg, s)
      | None =>
          let* (ok, _, s) := xdr_u_long S _ op (rm_xid rmsg) s in
          if negb ok then Ret (false, rmsg, s)
          else
            let* (ok, _, s) := xdr_enum S _ op (rm_direction rmsg) s in
            if negb ok then Ret (false, rmsg, s)
            else
              let* (ok, _, s) := xdr_enum S _ op (rp_stat r) s in
              if negb ok then Ret (false, rmsg, s)
              else
                let* (ok, _, s) := xdr_opaque_auth S _ op oa s in
                if negb ok then Ret (false, rmsg, s)
                else let* (ok, _, s) := xdr_enum S _ op (ar_stat ar) s in Ret (ok, rmsg, s)
      end
  end.

(** The body of a reply, only to encode. *)
Definition xdr_replymsg_body : xdrproc (rpc_msg R) := λ S _ op rmsg s,
  match op with
  | XDR_ENCODE =>
      let* r := rm_reply rmsg in
      let* ar := rp_acpt r in
      match ar_ru ar with
      | AR_results _ None => Ret (true, rmsg, s)
      | u =>
          let* (ok, u, s) := xdr_ar_results S _ op u s in
          Ret (ok, set_reply (ReplyBody (rp_stat r) (RP_ar (AcceptedReply (ar_verf ar) (ar_stat ar) u))) rmsg, s)
      end
  | _ => Ret (false, rmsg, s)
  end.

(** ** Calls *)

Definition set_call (c : call_body) (m : rpc_msg R) : rpc_msg R := RpcMsg (rm_xid m) (rm_direction m) (RM_cmb c).

(** The static part of a call, only to encode; it sets the direction and the version. *)
Definition xdr_callhdr : xdrproc (rpc_msg R) := λ S _ op cmsg s,
  let* c := rm_call cmsg in
  let c := CallBody RPC_MSG_VERSION (cb_prog c) (cb_vers c) (cb_proc c) (cb_cred c) (cb_verf c) in
  let cmsg := RpcMsg (rm_xid cmsg) CALL (RM_cmb c) in
  match op with
  | XDR_ENCODE =>
      let* (ok, _, s) := xdr_u_long S _ op (rm_xid cmsg) s in
      if negb ok then Ret (false, cmsg, s)
      else
        let* (ok, _, s) := xdr_enum S _ op (rm_direction cmsg) s in
        if negb ok then Ret (false, cmsg, s)
        else
          let* (ok, _, s) := xdr_u_long S _ op (cb_rpcvers c) s in
          if negb ok then Ret (false, cmsg, s)
          else
            let* (ok, _, s) := xdr_u_long S _ op (cb_prog c) s in
            if negb ok then Ret (false, cmsg, s)
            else let* (ok, _, s) := xdr_u_long S _ op (cb_vers c) s in Ret (ok, cmsg, s)
  | _ => Ret (false, cmsg, s)
  end.

(** [xdr_callmsg], when it encodes and has got a buffer. *)
Definition callmsg_encode_inline S (i : XdrInline S) (cmsg : rpc_msg R) (c : call_body) (buf : Z) (s : S)
    : run (bool * rpc_msg R * S) :=
  let* (buf, s) := IXDR_PUT_LONG buf (rm_xid cmsg) s in
  let* (buf, s) := IXDR_PUT_LONG buf (rm_direction cmsg) s in
  if negb (rm_direction cmsg =? CALL) then Ret (false, cmsg, s)
  else
    let* (buf, s) := IXDR_PUT_LONG buf (cb_rpcvers c) s in
    if negb (cb_rpcvers c =? RPC_MSG_VERSION) then Ret (false, cmsg, s)
    else
      let* (buf, s) := IXDR_PUT_LONG buf (cb_prog c) s in
      let* (buf, s) := IXDR_PUT_LONG buf (cb_vers c) s in
      let* (buf, s) := IXDR_PUT_LONG buf (cb_proc c) s in
      let* (buf, s) := put_auth (λ buf s, Ret (buf + RNDUP w32 (oa_length (cb_cred c)), s)) (cb_cred c) buf s in
      let* (_, s) := put_auth (λ buf s, Ret (buf, s)) (cb_verf c) buf s in
      Ret (true, cmsg, s).

(** The bytes of an authenticator of a call, which stay in the buffer if the stream lets the
    caller have it. *)
Definition get_auth_body S (x : XdrStream S) (i : XdrInline S) (oa : opaque_auth) (s : S)
    : run (bool * opaque_auth * S) :=
  if negb (truthy (oa_length oa)) then Ret (true, oa, s)
  else if MAX_AUTH_BYTES <? oa_length oa then Ret (false, oa, s)
  else
    let* (buf, s) := x_inline (RNDUP w32 (oa_length oa)) s in
    match buf with
    | None =>
        let* base :=
          match oa_base oa with
          | Own NULL => Ret (mem_alloc junk (oa_length oa))
          | Own (At sp) => Ret sp
          | _ => Fault
          end in
        let* (ok, base, s) := xdr_opaque (oa_length oa) S _ XDR_DECODE base s in
        Ret (ok, set_oa_base (Own (At base)) oa, s)
    | Some buf =>
        let* bs := x_load buf (RNDUP w32 (oa_length oa)) s in
        Ret (true, set_oa_base (Inline bs) oa, s)
    end.

(** [xdr_callmsg], when it decodes and has got the first eight words. *)
Definition callmsg_decode_inline S (x : XdrStream S) (i : XdrInline S) (cmsg : rpc_msg R) (buf : Z) (s : S)
    : run (bool * rpc_msg R * S) :=
  let* (xid, buf) := IXDR_GET_LONG buf s in
  let* (direction, buf) := IXDR_GET_LONG buf s in
  let cmsg := RpcMsg (w32 xid) direction (rm_ru cmsg) in
  if negb (direction =? CALL) then Ret (false, cmsg, s)
  else
    let* c := rm_call cmsg in
    let* (rpcvers, buf) := IXDR_GET_LONG buf s in
    let rpcvers := w32 rpcvers in
    if negb (rpcvers =? RPC_MSG_VERSION) then
      Ret (false, set_call (CallBody rpcvers (cb_prog c) (cb_vers c) (cb_proc c) (cb_cred c) (cb_verf c)) cmsg, s)
    else
      let* (prog, buf) := IXDR_GET_LONG buf s in
      let* (vers, buf) := IXDR_GET_LONG buf s in
      let* (proc, buf) := IXDR_GET_LONG buf s in
      let* (flavor, buf) := IXDR_GET_LONG buf s in
      let* (len, _) := IXDR_GET_LONG buf s in
      let call cred verf := set_call (CallBody rpcvers (w32 prog) (w32 vers) (w32 proc) cred verf) cmsg in
      let* (ok, cred, s) := get_auth_body S x i (OpaqueAuth flavor (oa_base (cb_cred c)) (w32 len)) s in
      if negb ok then Ret (false, call cred (cb_verf c), s)
      else
        let* (ok, verf, s) := get_verf_words S x i (cb_verf c) s in
        if negb ok then Ret (false, call cred verf, s)
        else let* (ok, verf, s) := get_auth_body S x i verf s in Ret (ok, call cred verf, s).

(** The general case of [xdr_callmsg]. *)
Definition callmsg_slow : xdrproc (rpc_msg R) := λ S _ op cmsg s,
  let* (ok, xid, s) := xdr_u_long S _ op (rm_xid cmsg) s in
  let cmsg := RpcMsg xid (rm_direction cmsg) (rm_ru cmsg) in
  if negb ok then Ret (false, cmsg, s)
  else
    let* (ok, direction, s) := xdr_enum S _ op (rm_direction cmsg) s in
    let cmsg := RpcMsg xid direction (rm_ru cmsg) in
    if negb (ok && (direction =? CALL)) then Ret (false, cmsg, s)
    else
      let* c := rm_call cmsg in
      let* (ok, rpcvers, s) := xdr_u_long S _ op (cb_rpcvers c) s in
      let call prog vers proc cred verf := set_call (CallBody rpcvers prog vers proc cred verf) cmsg in
      if negb (ok && (rpcvers =? RPC_MSG_VERSION)) then
        Ret (false, call (cb_prog c) (cb_vers c) (cb_proc c) (cb_cred c) (cb_verf c), s)
      else
        let* (ok, prog, s) := xdr_u_long S _ op (cb_prog c) s in
        if negb ok then Ret (false, call prog (cb_vers c) (cb_proc c) (cb_cred c) (cb_verf c), s)
        else
          let* (ok, vers, s) := xdr_u_long S _ op (cb_vers c) s in
          if negb ok then Ret (false, call prog vers (cb_proc c) (cb_cred c) (cb_verf c), s)
          else
            let* (ok, proc, s) := xdr_u_long S _ op (cb_proc c) s in
            if negb ok then Ret (false, call prog vers proc (cb_cred c) (cb_verf c), s)
            else
              let* (ok, cred, s) := xdr_opaque_auth S _ op (cb_cred c) s in
              if negb ok then Ret (false, call prog vers proc cred (cb_verf c), s)
              else
                let* (ok, verf, s) := xdr_opaque_auth S _ op (cb_verf c) s in
                Ret (ok, call prog vers proc cred verf, s).

Definition xdr_callmsg : inlineproc (rpc_msg R) := λ S x i op cmsg s,
  match op with
  | XDR_ENCODE =>
      let* c := rm_call cmsg in
      if MAX_AUTH_BYTES <? oa_length (cb_cred c) then Ret (false, cmsg, s)
      else if MAX_AUTH_BYTES <? oa_length (cb_verf c) then Ret (false, cmsg, s)
      else
        let* (buf, s) := x_inline (8 * BYTES_PER_XDR_UNIT + RNDUP w32 (oa_length (cb_cred c)) +
          2 * BYTES_PER_XDR_UNIT + RNDUP w32 (oa_length (cb_verf c))) s in
        match buf with
        | Some buf => callmsg_encode_inline S i cmsg c buf s
        | None => callmsg_slow S x op cmsg s
        end
  | XDR_DECODE =>
      let* (buf, s) := x_inline (8 * BYTES_PER_XDR_UNIT) s in
      match buf with
      | Some buf => callmsg_decode_inline S x i cmsg buf s
      | None => callmsg_slow S x op cmsg s
      end
  | XDR_FREE => callmsg_slow S x op cmsg s
  end.

(** ** What becomes of a reply *)

(** [enum clnt_stat], as far as a reply leads to it. *)
Definition RPC_SUCCESS : Z := 0.
Definition RPC_VERSMISMATCH : Z := 6.
Definition RPC_AUTHERROR : Z := 7.
Definition RPC_PROGUNAVAIL : Z := 8.
Definition RPC_PROGVERSMISMATCH : Z := 9.
Definition RPC_PROCUNAVAIL : Z := 10.
Definition RPC_CANTDECODEARGS : Z := 11.
Definition RPC_SYSTEMERROR : Z := 12.
Definition RPC_FAILED : Z := 16.

(** [re_vers], [re_lb] and [re_why] share the two words of a union. *)
Record rpc_err := RpcErr { re_status : Z; re_1 : Z; re_2 : Z }.
Definition set_status v e := RpcErr v (re_1 e) (re_2 e).

Definition accepted (acpt_stat : Z) (error : rpc_err) : rpc_err :=
  if acpt_stat =? PROG_UNAVAIL then set_status RPC_PROGUNAVAIL error
  else if acpt_stat =? PROG_MISMATCH then set_status RPC_PROGVERSMISMATCH error
  else if acpt_stat =? PROC_UNAVAIL then set_status RPC_PROCUNAVAIL error
  else if acpt_stat =? GARBAGE_ARGS then set_status RPC_CANTDECODEARGS error
  else if acpt_stat =? SYSTEM_ERR then set_status RPC_SYSTEMERROR error
  else if acpt_stat =? SUCCESS then set_status RPC_SUCCESS error
  else RpcErr RPC_FAILED MSG_ACCEPTED (w32 acpt_stat).

Definition rejected (rjct_stat : Z) (error : rpc_err) : rpc_err :=
  if rjct_stat =? RPC_VERSMISMATCH then set_status RPC_VERSMISMATCH error
  else if rjct_stat =? AUTH_ERROR then set_status RPC_AUTHERROR error
  else RpcErr RPC_FAILED MSG_DENIED (w32 rjct_stat).

Definition _seterr_reply (msg : rpc_msg R) (error : rpc_err) : run rpc_err :=
  let* r := rm_reply msg in
  let more (error : rpc_err) : run rpc_err :=
    if re_status error =? RPC_VERSMISMATCH then
      Ret (RpcErr (re_status error) (rj_low (rp_rjct (rp_ru r))) (rj_high (rp_rjct (rp_ru r))))
    else if re_status error =? RPC_AUTHERROR then
      Ret (RpcErr (re_status error) (w32 (rj_why (rp_rjct (rp_ru r)))) (re_2 error))
    else if re_status error =? RPC_PROGVERSMISMATCH then
      let* ar := rp_acpt r in Ret (RpcErr (re_status error) (ar_low (ar_ru ar)) (ar_high (ar_ru ar)))
    else Ret error in
  if rp_stat r =? MSG_ACCEPTED then
    let* ar := rp_acpt r in
    if ar_stat ar =? SUCCESS then Ret (set_status RPC_SUCCESS error)
    else more (accepted (ar_stat ar) error)
  else if rp_stat r =? MSG_DENIED then more (rejected (rj_stat (rp_rjct (rp_ru r))) error)
  else more (RpcErr RPC_FAILED (w32 (rp_stat r)) (re_2 error)).

Definition xdr_rpc_free_verifier (S : Type) (x : XdrStream S) (msg : rpc_msg R) (s : S)
    : run (bool * rpc_msg R * S) :=
  if negb (rm_direction msg =? REPLY) then Ret (true, msg, s)
  else
    let* r := rm_reply msg in
    if negb (rp_stat r =? MSG_ACCEPTED) then Ret (true, msg, s)
    else
      let* ar := rp_acpt r in
      match ar_stat ar =? SUCCESS, oa_base (ar_verf ar) with
      | false, _ | true, Own NULL => Ret (true, msg, s)
      | true, _ =>
          let* (ok, verf, s) := xdr_opaque_auth S _ XDR_FREE (ar_verf ar) s in
          Ret (ok, set_reply (ReplyBody (rp_stat r) (RP_ar (set_verf verf ar))) msg, s)
      end.
End Reply.
End Rpc.
