(* ===== verification/RpcOps.v ===== *)
(** * RPC messages on the wire

    What the filters of [Rpc] put on a stream and make of what they get, whether or
    not the stream lets them have its buffer. *)

From S2P Require Import Prelude Bytes Xdr XdrCodec XdrInline Rpc.

(** ** Reading a buffer *)

Section Window.
Context {S : Type} `{XdrInline S}.

(** [n] bytes, the first ones of [l], are in the buffer at [buf]. *)
Definition window (n : Z) (l : list Z) (buf : Z) (s : S) : Prop :=
  ∀ o k, 0 ≤ o → 0 ≤ k → o + k ≤ n → x_load (buf + o) k s = Ret (slice o k l).

Lemma window_take n l buf s k : window n l buf s → 0 ≤ k ≤ n → x_load buf k s = Ret (take (Z.to_nat k) l).
Proof.
  intros Hw Hk. rewrite <-(Z.add_0_r buf). rewrite Hw by lia. unfold slice. by rewrite drop_0.
Qed.

Lemma window_drop n l buf s k : window n l buf s → 0 ≤ k ≤ n → window (n - k) (drop (Z.to_nat k) l) (buf + k) s.
Proof.
  intros Hw Hk o j Ho Hj Hok. rewrite <-Z.add_assoc, Hw by lia. f_equal. symmetry. by apply slice_of_drop; lia.
Qed.

Lemma window_get n l buf s : window n l buf s → 4 ≤ n →
  IXDR_GET_LONG buf s = Ret (s32 (unbe32 (take 4 l)), buf + 4) ∧ window (n - 4) (drop 4 l) (buf + 4) s.
Proof.
  intros Hw Hn. unfold IXDR_GET_LONG. rewrite (window_take n l buf s 4 Hw) by lia. split; [done|].
  by apply (window_drop n l buf s 4).
Qed.

Lemma window_long n v l buf s : window n (be32 v ++ l) buf s → 4 ≤ n →
  IXDR_GET_LONG buf s = Ret (s32 v, buf + 4) ∧ window (n - 4) l (buf + 4) s.
Proof.
  intros Hw Hn. destruct (window_get n _ buf s Hw Hn) as [-> Hw'].
  change (take 4 (be32 v ++ l)) with (be32 v). by rewrite word_wire.
Qed.
End Window.

(** Asking for a buffer to read. *)
Lemma inline_window S `{XdrInlineDecoder S} n s : dok 0 s → 0 ≤ n → n < 2 ^ 31 → n `mod` 4 = 0 →
  x_inline n s = Ret (None, s) ∨
  ∃ buf s', x_inline n s = Ret (Some buf, s') ∧ n ≤ zlen (din s) ∧ din s' = drop (Z.to_nat n) (din s) ∧ dok 0 s' ∧
    window n (din s) buf s'.
Proof.
  intros Hok Hn Hn2 Hu. destruct (dec_inline n s Hok Hn Hn2 Hu) as (r & s' & -> & Hr).
  destruct r as [buf|]; [|left; by rewrite Hr]. right. by exists buf, s'.
Qed.

(** ** Authenticators *)

Lemma RNDUP_w32 n : 0 ≤ n ≤ MAX_AUTH_BYTES → RNDUP w32 n = n + rndup_of n.
Proof.
  unfold MAX_AUTH_BYTES. intros Hn. unfold RNDUP, rndup_of, BYTES_PER_XDR_UNIT.
  rewrite (w32_id (n + 4 - 1)) by (unfold in_u32; lia). rewrite Z.quot_div_nonneg by lia.
  rewrite w32_id by (unfold in_u32; Z.to_euclidean_division_equations; lia).
  destruct (truthy (n `mod` 4)) eqn:E; [apply truthy_true in E|apply truthy_false in E];
    Z.to_euclidean_division_equations; lia.
Qed.

Lemma RNDUP_unit n : 0 ≤ n ≤ MAX_AUTH_BYTES →
  0 ≤ RNDUP w32 n < 2 ^ 31 ∧ RNDUP w32 n `mod` 4 = 0 ∧ n ≤ RNDUP w32 n.
Proof.
  intros Hn. rewrite RNDUP_w32 by done. pose proof (rndup_range n). pose proof (rndup_unit n).
  unfold MAX_AUTH_BYTES in Hn. lia.
Qed.

Definition oa_memory (oa : opaque_auth) : option (list Z) :=
  match oa_base oa with Own (At sp) | Inline sp => Some sp | _ => None end.

(** The bytes of an authenticator. *)
Definition auth_data (oa : opaque_auth) : list Z :=
  if oa_length oa =? 0 then []
  else match oa_memory oa with Some sp => take (Z.to_nat (oa_length oa)) sp | None => [] end.

Definition auth_good (oa : opaque_auth) : Prop :=
  in_s32 (oa_flavor oa) ∧ 0 ≤ oa_length oa ≤ MAX_AUTH_BYTES ∧
  (oa_length oa ≠ 0 → ∃ sp, oa_memory oa = Some sp ∧ oa_length oa ≤ zlen sp).

(** The same to a reader: storage may differ. *)
Definition auth_same (oa oa' : opaque_auth) : Prop :=
  oa_flavor oa' = oa_flavor oa ∧ oa_length oa' = oa_length oa ∧ auth_data oa' = auth_data oa.

(** On the wire, with anything to fill up the last unit. *)
Definition auth_wire (oa : opaque_auth) (fill : list Z) : list Z :=
  be32 (oa_flavor oa) ++ be32 (oa_length oa) ++ auth_data oa ++ fill.
Definition on_wire (oa : opaque_auth) (bs : list Z) : Prop :=
  ∃ fill, zlen fill = rndup_of (oa_length oa) ∧ bs = auth_wire oa fill.

Lemma auth_data_len oa : auth_good oa → zlen (auth_data oa) = oa_length oa.
Proof.
  intros (_ & Hl & Hm). unfold auth_data. destruct (Z.eqb_spec (oa_length oa) 0) as [->|Hnz]; [done|].
  destruct (Hm Hnz) as (sp & -> & Hsp). rewrite length_take. lia.
Qed.

Lemma oa_bytes_ok oa : auth_good oa → oa_length oa ≠ 0 → oa_bytes oa = Ret (auth_data oa).
Proof.
  intros (_ & Hl & Hm) Hnz. unfold oa_bytes, auth_data. rewrite (proj2 (Z.eqb_neq _ _) Hnz).
  destruct (Hm Hnz) as (sp & Hsp & Hle). rewrite Hsp. unfold oa_memory in Hsp.
  destruct (oa_base oa) as [[|sp'|]|sp']; [done| |done|]; injection Hsp as ->;
    rewrite get_bytes_ok by lia; unfold slice; by rewrite drop_0.
Qed.

Lemma pad_zero_len n : n `mod` 4 = 0 → rndup_of n = 0.
Proof. intros H. unfold rndup_of, BYTES_PER_XDR_UNIT. by rewrite H. Qed.

Section Ops.
Context (junk leftover : nat → Z).

(** [xdr_bytes] puts the bytes from the memory, which may be longer. *)
Lemma bytes_encode S `{XdrEncoder S} p n data s : 0 ≤ n ≤ MAX_AUTH_BYTES → eok s →
  (n ≠ 0 → ∃ sp, p = At sp ∧ n ≤ zlen sp ∧ data = take (Z.to_nat n) sp) → (n = 0 → data = []) →
  ∃ b s', xdr_bytes junk MAX_AUTH_BYTES S _ XDR_ENCODE (p, n) s = Ret (b, (p, n), s') ∧
    encoded s (be32 n ++ data ++ pad n) b s'.
Proof.
  unfold MAX_AUTH_BYTES. intros Hn He Hm Hemp. unfold xdr_bytes.
  destruct (u_int_encode S n s He) as (b & s1 & -> & Hb). cbn [rbind].
  destruct b; cbn [negb]; [|exists false, s1; split; [done|by apply encoded_fail]].
  rewrite (proj2 (Z.ltb_ge _ _)) by lia. cbn [andb]. destruct (Z.eqb_spec n 0) as [->|Hnz].
  - rewrite Hemp by done. change (pad 0) with (@nil Z). rewrite app_nil_r.
    destruct p as [|sp|]; cbn [rbind]; by do 2 eexists.
  - destruct (Hm Hnz) as (sp & -> & Hsp & ->).
    destruct (opaque_encode S n sp s1) as (b & s2 & -> & Hb2); [lia|lia|lia|by eapply encoded_ok|]. cbn [rbind].
    exists b, s2. split; [done|]. by eapply encoded_seq.
Qed.

Lemma auth_encode S `{XdrEncoder S} oa s : auth_good oa → eok s →
  ∃ b s', xdr_opaque_auth junk S _ XDR_ENCODE oa s = Ret (b, oa, s') ∧
    encoded s (auth_wire oa (pad (oa_length oa))) b s'.
Proof.
  intros Hg He. pose proof Hg as (Hf & Hl & Hm). unfold xdr_opaque_auth, xdr_enum, xdr_long.
  destruct (enc_long (oa_flavor oa) s He) as (b & s1 & -> & Hb). cbn [rbind]. destruct oa as [fl base n]. cbn [oa_flavor oa_base oa_length] in *.
  destruct b; [|exists false, s1; split; [done|by apply encoded_fail]]. pose proof (encoded_ok _ _ _ Hb) as He1.
  destruct base as [p|bs]; cbn [oa_base oa_length].
  - destruct (bytes_encode S p n (auth_data (OpaqueAuth fl (Own p) n)) s1) as (b & s2 & -> & Hb2); try done.
    + intros Hnz. destruct (Hm Hnz) as (sp & Hsp & Hle). exists sp. unfold auth_data. rewrite Hsp.
      cbn [oa_length]. rewrite (proj2 (Z.eqb_neq _ _) Hnz). unfold oa_memory in Hsp. cbn [oa_base] in Hsp.
      destruct p; [done| |done]. by injection Hsp as ->.
    + by intros ->.
    + cbn [rbind]. do 2 eexists. split; [done|]. by eapply encoded_seq.
  - destruct (bytes_encode S (At bs) n (auth_data (OpaqueAuth fl (Inline bs) n)) s1) as (b & s2 & -> & Hb2); try done.
    + intros Hnz. destruct (Hm Hnz) as (sp & [= ->] & Hle). exists sp. unfold auth_data. cbn [oa_length].
      by rewrite (proj2 (Z.eqb_neq _ _) Hnz).
    + by intros ->.
    + cbn [rbind]. do 2 eexists. split; [done|]. by eapply encoded_seq.
Qed.
End Ops.

(** ** Decoding authenticators *)

Section Decode.
Context (junk leftover : nat → Z).

(** An authenticator that has been read: [data] is what its base points to. *)
Definition auth_read (oa : opaque_auth) (flavor n : Z) (data : list Z) : Prop :=
  oa_flavor oa = flavor ∧ oa_length oa = n ∧ auth_data oa = data.

Lemma auth_read_same oa oa' : auth_read oa' (oa_flavor oa) (oa_length oa) (auth_data oa) → auth_same oa oa'.
Proof. done. Qed.

Lemma auth_read_own fl n data more : zlen data = n → auth_read (OpaqueAuth fl (Own (At (data ++ more))) n) fl n data.
Proof.
  intros Hl. split; [done|]. split; [done|]. unfold auth_data. cbn [oa_length]. destruct (Z.eqb_spec n 0) as [->|Hnz].
  - destruct data; [done|simpl in Hl; lia].
  - unfold oa_memory. cbn [oa_base]. apply take_app_length'. lia.
Qed.

Lemma auth_read_none fl base : auth_read (OpaqueAuth fl base 0) fl 0 [].
Proof. done. Qed.

Lemma bytes_decode S `{XdrDecoder S} n0 n data fill rest s : n ≤ MAX_AUTH_BYTES → zlen data = n →
  zlen fill = rndup_of n → dok 0 s → din s = be32 n ++ data ++ fill ++ rest →
  ∃ p s', xdr_bytes junk MAX_AUTH_BYTES S _ XDR_DECODE (NULL, n0) s = Ret (true, (p, n), s') ∧
    (n = 0 ∨ p = At data) ∧ din s' = rest ∧ dok 0 s'.
Proof.
  unfold MAX_AUTH_BYTES. intros Hn Hl Hfill Hd Hin. unfold xdr_bytes.
  destruct (u_int_decode S n0 n (data ++ fill ++ rest) s) as (s1 & -> & Hin1 & Hd1);
    [unfold in_u32; lia|done|done|]. cbn [rbind negb]. rewrite (proj2 (Z.ltb_ge _ _)) by lia. cbn [andb].
  destruct (Z.eqb_spec n 0) as [->|Hnz].
  - exists NULL, s1. split; [done|]. split; [by left|]. change (rndup_of 0) with 0 in Hfill.
    destruct data; [|discriminate]. destruct fill; [|discriminate]. done.
  - destruct (opaque_decode_fill S n data fill (mem_alloc junk n) rest s1) as (s2 & -> & Hin2 & Hd2);
      [done|lia|done|rewrite mem_alloc_len; lia|done|done|]. cbn [rbind].
    exists (At data), s2. rewrite drop_all by (rewrite mem_alloc_len; lia). split; [done|]. split; [by right|done].
Qed.

Lemma auth_decode S `{XdrDecoder S} oa0 oa bs rest s : auth_good oa → on_wire oa bs → oa_base oa0 = Own NULL →
  dok 0 s → din s = bs ++ rest →
  ∃ oa' s', xdr_opaque_auth junk S _ XDR_DECODE oa0 s = Ret (true, oa', s') ∧ auth_same oa oa' ∧
    din s' = rest ∧ dok 0 s'.
Proof.
  intros Hg (fill & Hfill & ->) Hbase Hd Hin. pose proof Hg as (Hf & Hl & _). pose proof (auth_data_len oa Hg) as Hdl.
  unfold auth_wire in Hin. rewrite <-!app_assoc in Hin. unfold xdr_opaque_auth, xdr_enum, xdr_long.
  destruct (get_word S s _ _ Hd Hin) as (s1 & -> & Hin1 & Hd1). cbn [rbind]. rewrite s32_id by done.
  cbn [oa_base]. rewrite Hbase.
  destruct (bytes_decode S (oa_length oa0) (oa_length oa) (auth_data oa) fill rest s1)
    as (p & s2 & Hr & Hp & Hin2 & Hd2); [lia|done|done|done|done|].
  cbn [oa_length]. rewrite Hr. cbn [rbind]. do 2 eexists. split; [done|]. split; [|done]. apply auth_read_same.
  destruct Hp as [Hz| ->].
  - assert (auth_data oa = []) as -> by (destruct (auth_data oa); [done|simpl in Hdl; lia]). rewrite Hz. apply auth_read_none.
  - rewrite <-(app_nil_r (auth_data oa)) at 1. by apply auth_read_own.
Qed.

Lemma verf_words S `{XdrInlineDecoder S} oa0 fl n rest s : in_s32 fl → in_u32 n → dok 0 s →
  din s = be32 fl ++ be32 n ++ rest →
  ∃ s', get_verf_words S _ _ oa0 s = Ret (true, OpaqueAuth fl (oa_base oa0) n, s') ∧ din s' = rest ∧ dok 0 s'.
Proof.
  intros Hf Hn Hd Hin. unfold get_verf_words. change (2 * BYTES_PER_XDR_UNIT) with 8.
  destruct (inline_window S 8 s Hd) as [->|(buf & s1 & -> & _ & Hin1 & Hd1 & Hw)]; [lia..|done| |]; cbn [rbind].
  - unfold xdr_enum, xdr_long. destruct (get_word S s _ _ Hd Hin) as (s1 & -> & Hin1 & Hd1). cbn [rbind negb].
    rewrite s32_id by done.
    destruct (u_int_decode S (oa_length (OpaqueAuth fl (oa_base oa0) (oa_length oa0))) n rest s1 Hn Hd1 Hin1)
      as (s2 & -> & Hin2 & Hd2). cbn [rbind]. by exists s2.
  - rewrite Hin in Hw, Hin1. destruct (window_long _ _ _ _ _ Hw) as [-> Hw2]; [lia|]. cbn [rbind].
    destruct (window_long _ _ _ _ _ Hw2) as [-> _]; [lia|]. cbn [rbind]. exists s1.
    rewrite s32_id, w32_s32, w32_id by done. done.
Qed.

(** The bytes through a buffer that the stream has given. *)
Lemma body_window S `{XdrInlineDecoder S} n data fill rest s : 0 ≤ n ≤ MAX_AUTH_BYTES → zlen data = n →
  zlen fill = rndup_of n → dok 0 s → din s = data ++ fill ++ rest →
  x_inline (RNDUP w32 n) s = Ret (None, s) ∨
  ∃ buf s', x_inline (RNDUP w32 n) s = Ret (Some buf, s') ∧ din s' = rest ∧ dok 0 s' ∧
    x_load buf n s' = Ret data ∧ x_load buf (RNDUP w32 n) s' = Ret (data ++ fill).
Proof.
  intros Hn Hl Hfill Hd Hin. destruct (RNDUP_unit n Hn) as (Hr1 & Hr2 & Hr3).
  destruct (inline_window S (RNDUP w32 n) s Hd) as [->|(buf & s1 & -> & _ & Hin1 & Hd1 & Hw)]; [lia..|done|by left|].
  right. exists buf, s1. rewrite RNDUP_w32 in * by done.
  rewrite (window_take _ _ _ _ n Hw), (window_take _ _ _ _ _ Hw) by lia.
  rewrite Hin in Hin1 |- *. rewrite app_assoc in Hin1 |- *. rewrite drop_app_length' in Hin1 by (rewrite length_app; lia).
  rewrite <-app_assoc, (take_app_length' data) by lia. rewrite app_assoc, take_app_length' by (rewrite length_app; lia).
  done.
Qed.

Lemma verf_copy S `{XdrInlineDecoder S} fl n data fill rest s : 0 ≤ n ≤ MAX_AUTH_BYTES → zlen data = n →
  zlen fill = rndup_of n → dok 0 s → din s = data ++ fill ++ rest →
  ∃ oa' s', get_verf_copy junk S _ _ (OpaqueAuth fl (Own NULL) n) s = Ret (true, oa', s') ∧
    auth_read oa' fl n data ∧ (∃ p, oa_base oa' = Own p ∧ (n ≠ 0 → p = At data)) ∧ din s' = rest ∧ dok 0 s'.
Proof.
  intros Hn Hl Hfill Hd Hin. unfold get_verf_copy. cbn [oa_length oa_base].
  destruct (truthy n) eqn:E; [apply truthy_true in E|apply truthy_false in E]; cbn [negb].
  2:{ subst n. change (rndup_of 0) with 0 in Hfill. rewrite E in *. destruct data; [|simpl in *; lia].
      destruct fill; [|discriminate]. do 2 eexists. split; [done|]. split; [done|]. split; [by eexists|done]. }
  rewrite (proj2 (Z.ltb_ge _ _)) by lia. cbn [rbind]. unfold MAX_AUTH_BYTES in *.
  destruct (body_window S n data fill rest s) as [->|(buf & s1 & -> & Hin1 & Hd1 & Hload & _)]; try done; cbn [rbind].
  - destruct (opaque_decode_fill S n data fill (mem_alloc junk n) rest s) as (s1 & -> & Hin1 & Hd1);
      [done|lia|done|rewrite mem_alloc_len; lia|done|done|]. cbn [rbind].
    rewrite drop_all by (rewrite mem_alloc_len; lia).
    do 2 eexists. split; [done|]. split; [|split; [by eexists|done]].
    pose proof (auth_read_own fl n data [] Hl) as Ha. by rewrite app_nil_r in Ha.
  - rewrite Hload. cbn [rbind]. rewrite put_front, drop_all by (rewrite mem_alloc_len; lia). cbn [rbind].
    do 2 eexists. split; [done|]. split; [|split; [by eexists|done]].
    pose proof (auth_read_own fl n data [] Hl) as Ha. by rewrite app_nil_r in Ha.
Qed.

Lemma auth_body S `{XdrInlineDecoder S} fl n data fill rest s : 0 ≤ n ≤ MAX_AUTH_BYTES → zlen data = n →
  zlen fill = rndup_of n → dok 0 s → din s = data ++ fill ++ rest →
  ∃ oa' s', get_auth_body junk S _ _ (OpaqueAuth fl (Own NULL) n) s = Ret (true, oa', s') ∧
    auth_read oa' fl n data ∧ din s' = rest ∧ dok 0 s'.
Proof.
  intros Hn Hl Hfill Hd Hin. unfold get_auth_body. cbn [oa_length oa_base].
  destruct (truthy n) eqn:E; [apply truthy_true in E|apply truthy_false in E]; cbn [negb].
  2:{ rewrite E in *. change (rndup_of 0) with 0 in Hfill. destruct data; [|simpl in *; lia].
      destruct fill; [|discriminate]. do 2 eexists. split; [done|]. split; [done|done]. }
  rewrite (proj2 (Z.ltb_ge _ _)) by lia. unfold MAX_AUTH_BYTES in *.
  destruct (body_window S n data fill rest s) as [->|(buf & s1 & -> & Hin1 & Hd1 & _ & Hload)]; try done; cbn [rbind].
  - destruct (opaque_decode_fill S n data fill (mem_alloc junk n) rest s) as (s1 & -> & Hin1 & Hd1);
      [done|lia|done|rewrite mem_alloc_len; lia|done|done|]. cbn [rbind].
    rewrite drop_all by (rewrite mem_alloc_len; lia).
    do 2 eexists. split; [done|]. split; [|done].
    pose proof (auth_read_own fl n data [] Hl) as Ha. by rewrite app_nil_r in Ha.
  - rewrite Hload. cbn [rbind]. do 2 eexists. split; [done|]. split; [|done].
    split; [done|]. split; [done|]. unfold auth_data. cbn [oa_length set_oa_base]. rewrite (proj2 (Z.eqb_neq _ _)) by done.
    unfold oa_memory. cbn [oa_base]. apply take_app_length'. lia.
Qed.
End Decode.

(** ** Steps of an encoder *)

Lemma encoded_step {S A} `{XdrOut S} (s : S) w s1 (m : run (bool * A * S)) r rest : encoded s w true s1 →
  (∃ b s2, m = Ret (b, r, s2) ∧ encoded s1 rest b s2) → ∃ b s2, m = Ret (b, r, s2) ∧ encoded s (w ++ rest) b s2.
Proof. intros Hw (b & s2 & -> & Hb). do 2 eexists. split; [done|]. by eapply encoded_seq. Qed.

Lemma encoded_stop {S A} `{XdrOut S} (s : S) w s1 (r : A) rest : encoded s w false s1 →
  ∃ b s2, Ret (false, r, s1) = Ret (b, r, s2) ∧ encoded s (w ++ rest) b s2.
Proof. intros Hw. do 2 eexists. split; [done|]. by apply encoded_fail. Qed.

Lemma encoded_last {S A} `{XdrOut S} (s : S) w b s1 (r : A) : encoded s w b s1 →
  ∃ b' s2, Ret (b, r, s1) = Ret (b', r, s2) ∧ encoded s w b' s2.
Proof. intros Hw. by do 2 eexists. Qed.

(** Puts the next word of the goal; [He] says that the stream is sound. *)
Ltac enc_word v He :=
  let b := fresh "b" in let s' := fresh "s" in let Hb := fresh "Hb" in
  destruct (enc_long v _ He) as (b & s' & -> & Hb); cbn [rbind negb andb];
  destruct b; cbn [negb andb]; [apply (encoded_step _ _ _ _ _ _ Hb); clear He; pose proof (encoded_ok _ _ _ Hb) as He; clear Hb|by apply encoded_stop].

Ltac enc_last v He :=
  let b := fresh "b" in let s' := fresh "s" in let Hb := fresh "Hb" in
  destruct (enc_long v _ He) as (b & s' & -> & Hb); cbn [rbind]; by apply encoded_last.

(** ** Authenticators through a buffer *)

Section Fill.
Context {S : Type} `{XdrInlineEncoder S}.

(** Up to the end of the bytes, and then the filler. *)
Lemma put_auth_front (filler : Z → S → run (Z * S)) oa s0 dn hole buf s : filling s0 dn hole buf s → auth_good oa →
  8 + oa_length oa ≤ zlen hole →
  ∃ s', put_auth filler oa buf s = (if oa_length oa =? 0 then Ret (buf + 8, s') else filler (buf + 8) s') ∧
    filling s0 (dn ++ be32 (oa_flavor oa) ++ be32 (oa_length oa) ++ auth_data oa)
      (drop (Z.to_nat (8 + oa_length oa)) hole) (buf + 8 + oa_length oa) s'.
Proof.
  intros Hf Hg Hk. pose proof Hg as (_ & Hl & _). pose proof (auth_data_len oa Hg) as Hdl. unfold put_auth.
  destruct (fill_long _ _ _ _ _ (oa_flavor oa) Hf) as (s1 & -> & Hf1); [lia|]. cbn [rbind].
  destruct (fill_long _ _ _ _ _ (oa_length oa) Hf1) as (s2 & -> & Hf2); [rewrite length_drop; lia|]. cbn [rbind].
  rewrite drop_drop in Hf2. change (4 + 4)%nat with 8%nat in Hf2. rewrite <-Z.add_assoc in Hf2 |- *. change (4 + 4) with 8 in *.
  rewrite !app_assoc. destruct (Z.eqb_spec (oa_length oa) 0) as [Hz|Hnz].
  - rewrite (proj2 (truthy_false _)) by done. exists s2. split; [done|].
    assert (auth_data oa = []) as -> by (destruct (auth_data oa); [done|simpl in Hdl; lia]).
    rewrite app_nil_r. replace (8 + oa_length oa) with 8 by lia.
    replace (buf + 8 + oa_length oa) with (buf + 8) by lia. exact Hf2.
  - rewrite (proj2 (truthy_true _)) by done. rewrite oa_bytes_ok by done. cbn [rbind].
    destruct (fill_put _ _ _ _ _ (auth_data oa) Hf2) as (s3 & -> & Hf3); [rewrite length_drop; lia|]. cbn [rbind].
    exists s3. split; [done|]. rewrite drop_drop in Hf3.
    replace (Z.to_nat (8 + oa_length oa)) with (8 + length (auth_data oa))%nat by lia. by rewrite <-Hdl at 2.
Qed.

(** Whatever the caller does behind the bytes, the filler of the last unit stays as it was. *)
Lemma put_auth_ok (g : Z → Z) oa s0 dn hole buf s : filling s0 dn hole buf s → auth_good oa →
  8 + RNDUP w32 (oa_length oa) ≤ zlen hole →
  ∃ s', put_auth (λ buf s, Ret (g buf, s)) oa buf s =
      Ret (if oa_length oa =? 0 then buf + 8 else g (buf + 8), s') ∧
    filling s0 (dn ++ auth_wire oa (slice (8 + oa_length oa) (rndup_of (oa_length oa)) hole))
      (drop (Z.to_nat (8 + RNDUP w32 (oa_length oa))) hole) (buf + (8 + RNDUP w32 (oa_length oa))) s'.
Proof.
  intros Hf Hg Hk. pose proof Hg as (_ & Hl & _). destruct (RNDUP_unit _ Hl) as (_ & _ & Hle).
  pose proof (RNDUP_w32 _ Hl) as Hrn. pose proof (rndup_range (oa_length oa)) as Hrr.
  destruct (put_auth_front (λ buf s, Ret (g buf, s)) oa _ _ _ _ _ Hf Hg) as (s3 & -> & Hf3); [lia|].
  pose proof (fill_skip _ _ _ _ _ (rndup_of (oa_length oa)) Hf3) as Hf4. rewrite length_drop in Hf4.
  specialize (Hf4 ltac:(lia)). exists s3. split; [by destruct (oa_length oa =? 0)|].
  unfold auth_wire. rewrite <-!app_assoc in Hf4. rewrite drop_drop in Hf4. unfold slice.
  replace (buf + (8 + RNDUP w32 (oa_length oa))) with (buf + 8 + oa_length oa + rndup_of (oa_length oa)) by lia.
  replace (Z.to_nat (8 + RNDUP w32 (oa_length oa))) with
    (Z.to_nat (8 + oa_length oa) + Z.to_nat (rndup_of (oa_length oa)))%nat by lia. done.
Qed.
End Fill.

(** ** Any input *)

(** Decoding has used [n] bytes. *)
Definition consumed {S} `{XdrDecoder S} (n : Z) (s s' : S) : Prop := ∃ used, din s = used ++ din s' ∧ zlen used = n.

Lemma consumed_trans {S} `{XdrDecoder S} n k (s s1 s2 : S) : consumed n s s1 → consumed k s1 s2 → consumed (n + k) s s2.
Proof.
  intros (u1 & Hi1 & <-) (u2 & Hi2 & <-). exists (u1 ++ u2). rewrite Hi1, Hi2, <-app_assoc, length_app. split; [done|lia].
Qed.

Lemma consumed_0 {S} `{XdrDecoder S} (s : S) : consumed 0 s s.
Proof. by exists []. Qed.

Lemma consumed_drop {S} `{XdrDecoder S} n (s s' : S) : 0 ≤ n ≤ zlen (din s) → din s' = drop (Z.to_nat n) (din s) → consumed n s s'.
Proof. intros Hn Hd. exists (take (Z.to_nat n) (din s)). rewrite Hd, take_drop, length_take. split; [done|lia]. Qed.

Lemma word_total S `{XdrDecoder S} v0 s : dok 0 s →
  (∃ s', xdr_u_long S _ XDR_DECODE v0 s = Ret (false, v0, s') ∧ xdr_long S _ XDR_DECODE v0 s = Ret (false, v0, s')) ∨
  ∃ l s', xdr_u_long S _ XDR_DECODE v0 s = Ret (true, w32 l, s') ∧ xdr_long S _ XDR_DECODE v0 s = Ret (true, l, s') ∧
    in_s32 l ∧ in_u32 (w32 l) ∧ dok 0 s' ∧ consumed 4 s s'.
Proof.
  intros Hd. unfold xdr_u_long, xdr_long.
  destruct (get_word_total S s Hd) as [[s' ->]|(l & s' & used & -> & Hl & Hd' & Hi & Hu)]; cbn [rbind].
  - left. by exists s'.
  - right. exists l, s'. split; [done|]. split; [done|]. split; [done|]. split; [apply w32_range|]. split; [done|].
    exists used. split; [done|lia].
Qed.

(** What decoding an authenticator gives when it succeeds. *)
Definition auth_got {S} `{XdrDecoder S} (n : Z) (oa : opaque_auth) (s s' : S) : Prop :=
  auth_good oa ∧ dok 0 s' ∧ consumed (n + oa_length oa + rndup_of (oa_length oa)) s s'.

(** Storage of its own, just as long. *)
Definition oa_owned (oa : opaque_auth) : Prop :=
  (oa_base oa = Own NULL ∧ oa_length oa = 0) ∨ ∃ sp, oa_base oa = Own (At sp) ∧ zlen sp = oa_length oa.

Section Any.
Context (junk leftover : nat → Z).

Lemma opaque_got S `{XdrDecoder S} fl n cp s : in_s32 fl → 0 ≤ n ≤ MAX_AUTH_BYTES → n ≤ zlen cp → dok 0 s →
  ∃ b cp' s', xdr_opaque n S _ XDR_DECODE cp s = Ret (b, cp', s') ∧ zlen cp' = zlen cp ∧
    (b = true → auth_got 0 (OpaqueAuth fl (Own (At cp')) n) s s').
Proof.
  intros Hf Hn Hcp Hd. pose proof Hn as Hn'. unfold MAX_AUTH_BYTES in Hn'.
  destruct (opaque_total S n cp s) as (b & cp' & s' & -> & Hl & Hb); [lia|lia|done|done|].
  do 3 eexists. split; [done|]. split; [done|]. intros Ht. destruct (Hb Ht) as (Hd' & bs & used & Hbs & -> & Hi & Hu).
  split; [|split; [done|]].
  - split; [done|]. split; [done|]. intros _. eexists. split; [done|]. cbn [oa_length]. lia.
  - cbn [oa_length]. exists used. split; [done|lia].
Qed.

Lemma auth_total S `{XdrDecoder S} oa0 s : oa_base oa0 = Own NULL → dok 0 s →
  ∃ b oa' s', xdr_opaque_auth junk S _ XDR_DECODE oa0 s = Ret (b, oa', s') ∧
    (b = true → auth_got 8 oa' s s' ∧ oa_owned oa').
Proof.
  intros Hb Hd. unfold xdr_opaque_auth, xdr_enum.
  destruct (word_total S (oa_flavor oa0) s Hd) as [(s1 & _ & ->)|(fl & s1 & _ & -> & Hf & _ & Hd1 & Hc1)]; cbn [rbind];
    [by do 3 eexists|]. cbn [oa_base oa_length]. rewrite Hb. unfold xdr_bytes, xdr_u_int.
  destruct (word_total S (oa_length oa0) s1 Hd1) as [(s2 & -> & _)|(l & s2 & -> & _ & _ & Hu & Hd2 & Hc2)];
    cbn [rbind negb]; [by do 3 eexists|]. set (n := w32 l) in *. pose proof (consumed_trans _ _ _ _ _ Hc1 Hc2) as Hc.
  destruct (Z.ltb_spec MAX_AUTH_BYTES n) as [Hbig|Hle]; cbn [andb negb rbind]; [by do 3 eexists|].
  change (bool_decide (XDR_DECODE ≠ XDR_FREE)) with true. unfold in_u32 in Hu.
  destruct (Z.eqb_spec n 0) as [Hz|Hnz]; cbn [rbind].
  - do 3 eexists. split; [done|]. intros _. split; [|by left]. split; [|split; [done|]]; cbn [oa_length].
    + split; [done|]. split; [cbn [oa_length]; lia|done].
    + rewrite Hz. done.
  - destruct (opaque_got S fl n (mem_alloc junk n) s2) as (b & cp & s3 & -> & Hcp & Hg); [done|lia|rewrite mem_alloc_len; lia|done|].
    cbn [rbind]. do 3 eexists. split; [done|]. intros Ht. destruct (Hg Ht) as (Ha & Hd3 & Hc3).
    rewrite mem_alloc_len in Hcp by lia. split; [|right; by eexists].
    split; [done|]. split; [done|]. cbn [oa_length] in *. replace (8 + n + rndup_of n) with (4 + 4 + (0 + n + rndup_of n)) by lia.
    by eapply consumed_trans.
Qed.

Lemma verf_words_total S `{XdrInlineDecoder S} oa0 s : dok 0 s →
  ∃ b fl n s', get_verf_words S _ _ oa0 s = Ret (b, OpaqueAuth fl (oa_base oa0) n, s') ∧
    (b = true → in_s32 fl ∧ in_u32 n ∧ dok 0 s' ∧ consumed 8 s s').
Proof.
  intros Hd. unfold get_verf_words. change (2 * BYTES_PER_XDR_UNIT) with 8.
  destruct (inline_window S 8 s Hd) as [->|(buf & s1 & -> & Hl & Hin1 & Hd1 & Hw)]; [lia..|done| |]; cbn [rbind].
  - unfold xdr_enum, xdr_u_int.
    destruct (word_total S (oa_flavor oa0) s Hd) as [(s1 & _ & ->)|(fl & s1 & _ & -> & Hf & _ & Hd1 & Hc1)]; cbn [rbind negb];
      [by do 4 eexists|]. cbn [oa_length oa_base].
    destruct (word_total S (oa_length oa0) s1 Hd1) as [(s2 & -> & _)|(l & s2 & -> & _ & _ & Hu & Hd2 & Hc2)];
      cbn [rbind]; [by do 4 eexists|]. do 4 eexists. split; [done|]. intros _. split; [done|]. split; [done|].
    split; [done|]. by eapply (consumed_trans 4 4).
  - destruct (window_get _ _ _ _ Hw) as [-> Hw2]; [lia|]. cbn [rbind].
    destruct (window_get _ _ _ _ Hw2) as [-> _]; [lia|]. cbn [rbind]. do 4 eexists. split; [done|]. intros _.
    split; [apply s32_range|]. split; [apply w32_range|]. split; [done|]. apply consumed_drop; [lia|done].
Qed.

Lemma auth_body_total S `{XdrInlineDecoder S} fl n s : in_s32 fl → in_u32 n → dok 0 s →
  ∃ b oa' s', get_auth_body junk S _ _ (OpaqueAuth fl (Own NULL) n) s = Ret (b, oa', s') ∧
    (b = true → auth_got 0 oa' s s').
Proof.
  intros Hf Hu Hd. unfold in_u32 in Hu. unfold get_auth_body. cbn [oa_length oa_base].
  destruct (truthy n) eqn:E; [apply truthy_true in E|apply truthy_false in E]; cbn [negb].
  2:{ do 3 eexists. split; [done|]. intros _. rewrite E. split; [|split; [done|apply consumed_0]].
      split; [done|]. split; [done|done]. }
  destruct (Z.ltb_spec MAX_AUTH_BYTES n) as [Hbig|Hle]; [by do 3 eexists|].
  destruct (RNDUP_unit n) as (Hr1 & Hr2 & Hr3); [lia|].
  destruct (inline_window S (RNDUP w32 n) s Hd) as [->|(buf & s1 & -> & Hl & Hin1 & Hd1 & Hw)]; [lia..|done| |]; cbn [rbind].
  - destruct (opaque_got S fl n (mem_alloc junk n) s) as (b & cp & s1 & -> & Hcp & Hg); [done|lia|rewrite mem_alloc_len; lia|done|].
    cbn [rbind]. do 3 eexists. split; [done|]. exact Hg.
  - rewrite (window_take _ _ _ _ _ Hw) by lia. cbn [rbind]. do 3 eexists. split; [done|]. intros _.
    split; [|split; [done|]].
    + split; [done|]. split; [cbn [oa_length set_oa_base]; lia|]. intros _. eexists. split; [done|].
      cbn [oa_length set_oa_base]. rewrite length_take. lia.
    + cbn [oa_length set_oa_base]. replace (0 + n + rndup_of n) with (RNDUP w32 n) by (rewrite RNDUP_w32; lia).
      apply consumed_drop; [lia|done].
Qed.

Lemma verf_copy_total S `{XdrInlineDecoder S} fl n s : in_s32 fl → in_u32 n → dok 0 s →
  ∃ b oa' s', get_verf_copy junk S _ _ (OpaqueAuth fl (Own NULL) n) s = Ret (b, oa', s') ∧
    (b = true → auth_got 0 oa' s s' ∧ oa_owned oa').
Proof.
  intros Hf Hu Hd. unfold in_u32 in Hu. unfold get_verf_copy. cbn [oa_length oa_base].
  destruct (truthy n) eqn:E; [apply truthy_true in E|apply truthy_false in E]; cbn [negb].
  2:{ do 3 eexists. split; [done|]. intros _. rewrite E. split; [|by left]. split; [|split; [done|apply consumed_0]].
      split; [done|]. split; [done|done]. }
  destruct (Z.ltb_spec MAX_AUTH_BYTES n) as [Hbig|Hle]; [by do 3 eexists|]. cbn [rbind].
  destruct (RNDUP_unit n) as (Hr1 & Hr2 & Hr3); [lia|].
  destruct (inline_window S (RNDUP w32 n) s Hd) as [->|(buf & s1 & -> & Hl & Hin1 & Hd1 & Hw)]; [lia..|done| |]; cbn [rbind].
  - destruct (opaque_got S fl n (mem_alloc junk n) s) as (b & cp & s1 & -> & Hcp & Hg); [done|lia|rewrite mem_alloc_len; lia|done|].
    cbn [rbind]. do 3 eexists. split; [done|]. intros Ht. rewrite mem_alloc_len in Hcp by lia. split; [by apply Hg|right; by eexists].
  - rewrite (window_take _ _ _ _ _ Hw) by lia. cbn [rbind].
    rewrite put_front by (rewrite length_take, mem_alloc_len; lia). cbn [rbind]. do 3 eexists. split; [done|]. intros _.
    split; [|right; eexists; split; [done|]; cbn [oa_length set_oa_base]; rewrite length_app, length_drop, length_take;
      pose proof (mem_alloc_len junk n); lia].
    split; [|split; [done|]].
    + split; [done|]. split; [cbn [oa_length set_oa_base]; lia|]. intros _. eexists. split; [done|].
      cbn [oa_length set_oa_base]. rewrite length_app, length_take. lia.
    + cbn [oa_length set_oa_base]. replace (0 + n + rndup_of n) with (RNDUP w32 n) by (rewrite RNDUP_w32; lia).
      apply consumed_drop; [lia|done].
Qed.
End Any.
