(* ===== verification/RpcCall.v ===== *)
(** * Call messages

    Encoding and decoding calls over any two streams, whether or not they let the
    filter have their buffers. *)

From S2P Require Import Prelude Bytes Xdr XdrCodec XdrMem XdrInline Rpc RpcOps.

Section Call.
Context (junk : nat → Z) {R : Type}.

(** ** On the wire *)

Definition call_good (m : rpc_msg R) (c : call_body) : Prop :=
  rm_ru m = RM_cmb c ∧ rm_direction m = CALL ∧ cb_rpcvers c = RPC_MSG_VERSION ∧
  in_u32 (rm_xid m) ∧ in_u32 (cb_prog c) ∧ in_u32 (cb_vers c) ∧ in_u32 (cb_proc c) ∧
  auth_good (cb_cred c) ∧ auth_good (cb_verf c).

(** A call with its authenticators as [cb] and [vb]. *)
Definition call_wire (m : rpc_msg R) (c : call_body) (cb vb : list Z) : list Z :=
  be32 (rm_xid m) ++ be32 CALL ++ be32 RPC_MSG_VERSION ++ be32 (cb_prog c) ++ be32 (cb_vers c) ++
  be32 (cb_proc c) ++ cb ++ vb.
Definition call_on_wire (m : rpc_msg R) (c : call_body) (bs : list Z) : Prop :=
  ∃ cb vb, on_wire (cb_cred c) cb ∧ on_wire (cb_verf c) vb ∧ bs = call_wire m c cb vb.

(** How long that is. *)
Definition auth_size (oa : opaque_auth) : Z := 8 + oa_length oa + rndup_of (oa_length oa).
Definition call_size (c : call_body) : Z := 24 + auth_size (cb_cred c) + auth_size (cb_verf c).

(** The same call to a reader. *)
Definition same_call (m : rpc_msg R) (c : call_body) (m' : rpc_msg R) : Prop :=
  ∃ cred verf, auth_same (cb_cred c) cred ∧ auth_same (cb_verf c) verf ∧
    m' = RpcMsg (rm_xid m) CALL (RM_cmb (CallBody RPC_MSG_VERSION (cb_prog c) (cb_vers c) (cb_proc c) cred verf)).

(** A message to decode a call into. *)
Definition call_blank (m : rpc_msg R) : Prop :=
  ∃ c, rm_ru m = RM_cmb c ∧ oa_base (cb_cred c) = Own NULL ∧ oa_base (cb_verf c) = Own NULL.

(** ** Encoding *)

Lemma call_slow_encode S `{XdrEncoder S} m c s : call_good m c → eok s →
  ∃ b s', callmsg_slow junk S _ XDR_ENCODE m s = Ret (b, m, s') ∧
    encoded s (call_wire m c (auth_wire (cb_cred c) (pad (oa_length (cb_cred c))))
      (auth_wire (cb_verf c) (pad (oa_length (cb_verf c))))) b s'.
Proof.
  intros (Hru & Hdir & Hvers & _ & _ & _ & _ & Hcred & Hverf) He.
  destruct m as [xid dir ru], c as [rv prog vers proc cred verf]. cbn [rm_ru rm_direction cb_rpcvers cb_cred cb_verf] in *.
  subst ru dir rv. unfold call_wire, callmsg_slow, xdr_enum, xdr_u_long, xdr_long.
  cbn [rm_xid rm_direction rm_ru cb_rpcvers cb_prog cb_vers cb_proc cb_cred cb_verf].
  enc_word xid He. enc_word CALL He. rewrite Z.eqb_refl. cbn [negb andb rbind rm_call rm_ru cb_rpcvers].
  enc_word RPC_MSG_VERSION He. rewrite Z.eqb_refl. cbn [negb andb cb_prog cb_vers cb_proc cb_cred cb_verf].
  enc_word prog He. enc_word vers He. enc_word proc He.
  destruct (auth_encode junk S cred _ Hcred He) as (b & sa & -> & Hb). cbn [rbind].
  destruct b; cbn [negb]; [|by apply encoded_stop]. apply (encoded_step _ _ _ _ _ _ Hb). apply encoded_ok in Hb.
  destruct (auth_encode junk S verf _ Hverf Hb) as (b & sb & -> & Hb2). cbn [rbind].
  by apply encoded_last.
Qed.

(** The bytes behind the data of the authenticators of a call at [old] in the buffer. *)
Definition stale_cred (c : call_body) (old : list Z) : list Z :=
  slice (32 + oa_length (cb_cred c)) (rndup_of (oa_length (cb_cred c))) old.
Definition stale_verf (c : call_body) (old : list Z) : list Z :=
  slice (24 + auth_size (cb_cred c) + 8 + oa_length (cb_verf c)) (rndup_of (oa_length (cb_verf c))) old.

Lemma slice_drop o n j (l : list Z) : 0 ≤ o → slice o n (drop j l) = slice (Z.of_nat j + o) n l.
Proof. intros. unfold slice. rewrite drop_drop. do 2 f_equal. lia. Qed.

Lemma call_inline_encode S `{XdrInlineEncoder S} m c s0 old buf s : call_good m c → zlen old = call_size c →
  filling s0 [] old buf s →
  ∃ s', callmsg_encode_inline S _ m c buf s = Ret (true, m, s') ∧
    encoded s0 (call_wire m c (auth_wire (cb_cred c) (stale_cred c old)) (auth_wire (cb_verf c) (stale_verf c old))) true s'.
Proof.
  intros (Hru & Hdir & Hvers & _ & _ & _ & _ & Hcred & Hverf) Hold Hf. unfold callmsg_encode_inline.
  pose proof Hcred as (_ & Hcl & _). pose proof Hverf as (_ & Hvl & _). unfold call_size, auth_size in Hold.
  pose proof (RNDUP_w32 _ Hcl) as Hc2. pose proof (RNDUP_w32 _ Hvl) as Hv2.
  pose proof (rndup_range (oa_length (cb_cred c))). pose proof (rndup_range (oa_length (cb_verf c))).
  destruct (fill_long _ _ _ _ _ (rm_xid m) Hf) as (s1 & -> & Hf1); [lia|]. cbn [rbind].
  destruct (fill_long _ _ _ _ _ (rm_direction m) Hf1) as (s2 & -> & Hf2); [rewrite !length_drop; lia|]. cbn [rbind].
  rewrite Hdir in *. rewrite Z.eqb_refl. cbn [negb].
  destruct (fill_long _ _ _ _ _ (cb_rpcvers c) Hf2) as (s3 & -> & Hf3); [rewrite !length_drop; lia|]. cbn [rbind].
  rewrite Hvers in *. rewrite Z.eqb_refl. cbn [negb].
  destruct (fill_long _ _ _ _ _ (cb_prog c) Hf3) as (s4 & -> & Hf4); [rewrite !length_drop; lia|]. cbn [rbind].
  destruct (fill_long _ _ _ _ _ (cb_vers c) Hf4) as (s5 & -> & Hf5); [rewrite !length_drop; lia|]. cbn [rbind].
  destruct (fill_long _ _ _ _ _ (cb_proc c) Hf5) as (s6 & -> & Hf6); [rewrite !length_drop; lia|]. cbn [rbind].
  rewrite !drop_drop in Hf6. cbn [Nat.add] in Hf6.
  destruct (put_auth_ok (λ buf, buf + RNDUP w32 (oa_length (cb_cred c))) (cb_cred c) _ _ _ _ _ Hf6 Hcred)
    as (s7 & -> & Hf7); [rewrite length_drop; lia|]. cbn [rbind].
  assert ((if oa_length (cb_cred c) =? 0 then buf + 4 + 4 + 4 + 4 + 4 + 4 + 8
    else buf + 4 + 4 + 4 + 4 + 4 + 4 + 8 + RNDUP w32 (oa_length (cb_cred c))) =
    buf + 4 + 4 + 4 + 4 + 4 + 4 + (8 + RNDUP w32 (oa_length (cb_cred c)))) as ->.
  { destruct (Z.eqb_spec (oa_length (cb_cred c)) 0) as [->|_]; [change (RNDUP w32 0) with 0|]; lia. }
  destruct (put_auth_ok (λ buf, buf) (cb_verf c) _ _ _ _ _ Hf7 Hverf) as (s8 & -> & Hf8); [rewrite !length_drop; lia|].
  cbn [rbind]. exists s8. split; [done|]. apply fill_done in Hf8; [|rewrite !length_drop; lia].
  rewrite drop_drop, !slice_drop in Hf8 by lia. unfold call_wire, stale_cred, stale_verf, auth_size.
  rewrite <-!app_assoc in Hf8.
  replace (Z.of_nat 24 + (8 + oa_length (cb_cred c))) with (32 + oa_length (cb_cred c)) in Hf8 by lia.
  replace (Z.of_nat (24 + Z.to_nat (8 + RNDUP w32 (oa_length (cb_cred c)))) + (8 + oa_length (cb_verf c))) with
    (24 + (8 + oa_length (cb_cred c) + rndup_of (oa_length (cb_cred c))) + 8 + oa_length (cb_verf c)) in Hf8 by lia.
  exact Hf8.
Qed.

(** What [xdr_callmsg] asks [XDR_INLINE] for. *)
Lemma call_inline_size m c : call_good m c →
  8 * BYTES_PER_XDR_UNIT + RNDUP w32 (oa_length (cb_cred c)) + 2 * BYTES_PER_XDR_UNIT +
    RNDUP w32 (oa_length (cb_verf c)) = call_size c ∧ 0 ≤ call_size c < 2 ^ 31 ∧
  oa_length (cb_cred c) ≤ MAX_AUTH_BYTES ∧ oa_length (cb_verf c) ≤ MAX_AUTH_BYTES.
Proof.
  intros (_ & _ & _ & _ & _ & _ & _ & (_ & Hcl & _) & (_ & Hvl & _)). rewrite !RNDUP_w32 by done.
  unfold call_size, auth_size, BYTES_PER_XDR_UNIT, MAX_AUTH_BYTES in *.
  pose proof (rndup_range (oa_length (cb_cred c))). pose proof (rndup_range (oa_length (cb_verf c))). lia.
Qed.

Lemma stale_len c old m : call_good m c → zlen old = call_size c →
  zlen (stale_cred c old) = rndup_of (oa_length (cb_cred c)) ∧ zlen (stale_verf c old) = rndup_of (oa_length (cb_verf c)).
Proof.
  intros (_ & _ & _ & _ & _ & _ & _ & (_ & Hcl & _) & (_ & Hvl & _)) Hold. unfold stale_cred, stale_verf.
  unfold call_size, auth_size in *.
  pose proof (rndup_range (oa_length (cb_cred c))). pose proof (rndup_range (oa_length (cb_verf c))).
  by rewrite !slice_len by lia.
Qed.

Lemma call_encode S `{XdrInlineEncoder S} m c s : call_good m c → eok s →
  ∃ b s' bs, xdr_callmsg junk S _ _ XDR_ENCODE m s = Ret (b, m, s') ∧ call_on_wire m c bs ∧ encoded s bs b s'.
Proof.
  intros Hg He. pose proof Hg as (Hru & _). destruct (call_inline_size m c Hg) as (Hsz & Hsz2 & Hcl & Hvl).
  unfold xdr_callmsg, rm_call. rewrite Hru. cbn [rbind].
  rewrite (proj2 (Z.ltb_ge _ _)), (proj2 (Z.ltb_ge _ (oa_length (cb_verf c)))), Hsz by lia.
  destruct (fill_start (call_size c) s He) as (r & s1 & -> & Hr); [lia|lia|]. cbn [rbind]. destruct r as [buf|].
  - destruct Hr as (old & Hold & Hf). destruct (stale_len c old m Hg Hold) as [Hl1 Hl2].
    destruct (call_inline_encode S m c s old buf s1 Hg Hold Hf) as (s2 & -> & Hb). do 3 eexists. split; [done|].
    split; [|exact Hb]. do 2 eexists. split; [by eexists|]. split; [by eexists|done].
  - rewrite Hr. destruct (call_slow_encode S m c s Hg He) as (b & s2 & -> & Hb). do 3 eexists. split; [done|].
    split; [|exact Hb]. do 2 eexists. split; [eexists; split; [apply pad_len|done]|].
    split; [eexists; split; [apply pad_len|done]|done].
Qed.

(** ** Decoding *)

Lemma call_slow_decode S `{XdrDecoder S} m c m0 bs rest s : call_good m c → call_on_wire m c bs → call_blank m0 →
  dok 0 s → din s = bs ++ rest →
  ∃ m' s', callmsg_slow junk S _ XDR_DECODE m0 s = Ret (true, m', s') ∧ same_call m c m' ∧ din s' = rest ∧ dok 0 s'.
Proof.
  intros (Hru & Hdir & Hvers & Hx & Hp & Hv & Hpr & Hcred & Hverf) (cb & vb & Hcb & Hvb & ->) (c0 & Hru0 & Hc0 & Hv0) Hd Hin.
  unfold call_wire in Hin. rewrite <-!app_assoc in Hin. unfold callmsg_slow.
  destruct (u_int_decode S (rm_xid m0) _ _ s Hx Hd Hin) as (s1 & Hr1 & Hin1 & Hd1). unfold xdr_u_int in Hr1. rewrite Hr1.
  cbn [rbind negb]. unfold xdr_enum, xdr_long. destruct (get_word S s1 _ _ Hd1 Hin1) as (s2 & -> & Hin2 & Hd2). cbn [rbind].
  change (s32 CALL) with CALL. rewrite Z.eqb_refl. cbn [negb andb]. unfold rm_call. cbn [rm_ru]. rewrite Hru0. cbn [rbind].
  destruct (u_int_decode S (cb_rpcvers c0) RPC_MSG_VERSION _ s2 ltac:(done) Hd2 Hin2) as (s3 & Hr3 & Hin3 & Hd3).
  unfold xdr_u_int in Hr3. rewrite Hr3. cbn [rbind negb andb]. rewrite Z.eqb_refl. cbn [negb].
  destruct (u_int_decode S (cb_prog c0) _ _ s3 Hp Hd3 Hin3) as (s4 & Hr4 & Hin4 & Hd4). unfold xdr_u_int in Hr4.
  rewrite Hr4. cbn [rbind negb].
  destruct (u_int_decode S (cb_vers c0) _ _ s4 Hv Hd4 Hin4) as (s5 & Hr5 & Hin5 & Hd5). unfold xdr_u_int in Hr5.
  rewrite Hr5. cbn [rbind negb].
  destruct (u_int_decode S (cb_proc c0) _ _ s5 Hpr Hd5 Hin5) as (s6 & Hr6 & Hin6 & Hd6). unfold xdr_u_int in Hr6.
  rewrite Hr6. cbn [rbind negb].
  destruct (auth_decode junk S (cb_cred c0) (cb_cred c) cb _ s6 Hcred Hcb Hc0 Hd6 Hin6) as (cred & s7 & -> & Hcs & Hin7 & Hd7).
  cbn [rbind negb].
  destruct (auth_decode junk S (cb_verf c0) (cb_verf c) vb _ s7 Hverf Hvb Hv0 Hd7 Hin7) as (verf & s8 & -> & Hvs & Hin8 & Hd8).
  cbn [rbind]. do 2 eexists. split; [done|]. split; [by exists cred, verf|done].
Qed.

Lemma call_inline_decode S `{XdrInlineDecoder S} m c m0 buf n cb vb rest s : call_good m c →
  on_wire (cb_cred c) cb → on_wire (cb_verf c) vb → call_blank m0 → n = 32 →
  window n (call_wire m c cb vb ++ rest) buf s → dok 0 s → din s = drop 8 cb ++ vb ++ rest →
  ∃ m' s', callmsg_decode_inline junk S _ _ m0 buf s = Ret (true, m', s') ∧ same_call m c m' ∧ din s' = rest ∧ dok 0 s'.
Proof.
  intros (Hru & Hdir & Hvers & Hx & Hp & Hv & Hpr & Hcred & Hverf) (fill & Hfill & ->) (fillv & Hfillv & ->)
    (c0 & Hru0 & Hc0 & Hv0) -> Hw Hd Hin.
  unfold call_wire, auth_wire in Hw. rewrite <-!app_assoc in Hw. unfold callmsg_decode_inline.
  destruct (window_long _ _ _ _ _ Hw) as [-> Hw1]; [lia|]. cbn [rbind].
  destruct (window_long _ _ _ _ _ Hw1) as [-> Hw2]; [lia|]. cbn [rbind].
  change (s32 CALL) with CALL. rewrite Z.eqb_refl. cbn [negb]. unfold rm_call. cbn [rm_ru]. rewrite Hru0. cbn [rbind].
  destruct (window_long _ _ _ _ _ Hw2) as [-> Hw3]; [lia|]. cbn [rbind].
  change (w32 (s32 RPC_MSG_VERSION)) with RPC_MSG_VERSION. rewrite Z.eqb_refl. cbn [negb].
  destruct (window_long _ _ _ _ _ Hw3) as [-> Hw4]; [lia|]. cbn [rbind].
  destruct (window_long _ _ _ _ _ Hw4) as [-> Hw5]; [lia|]. cbn [rbind].
  destruct (window_long _ _ _ _ _ Hw5) as [-> Hw6]; [lia|]. cbn [rbind].
  destruct (window_long _ _ _ _ _ Hw6) as [-> Hw7]; [lia|]. cbn [rbind].
  destruct (window_long _ _ _ _ _ Hw7) as [-> _]; [lia|]. cbn [rbind].
  destruct Hcred as (Hcf & Hcl & Hcm). destruct Hverf as (Hvf & Hvl & Hvm).
  assert (in_u32 (oa_length (cb_cred c)) ∧ in_u32 (oa_length (cb_verf c))) as [Hcu Hvu]
    by (unfold in_u32, MAX_AUTH_BYTES in *; lia).
  rewrite !w32_s32, !w32_id, (s32_id (oa_flavor _)), Hc0 by done.
  change (drop 8 (auth_wire (cb_cred c) fill)) with (auth_data (cb_cred c) ++ fill) in Hin.
  unfold auth_wire in Hin. rewrite <-!app_assoc in Hin.
  destruct (auth_body junk S (oa_flavor (cb_cred c)) _ _ _ _ s Hcl (auth_data_len _ (conj Hcf (conj Hcl Hcm))) Hfill Hd Hin)
    as (cred & s1 & -> & Hcs & Hin1 & Hd1). cbn [rbind negb].
  destruct (verf_words S (cb_verf c0) _ _ _ s1 Hvf Hvu Hd1 Hin1) as (s2 & -> & Hin2 & Hd2). cbn [rbind negb]. rewrite Hv0.
  destruct (auth_body junk S (oa_flavor (cb_verf c)) _ _ _ _ s2 Hvl (auth_data_len _ (conj Hvf (conj Hvl Hvm))) Hfillv Hd2 Hin2)
    as (verf & s3 & -> & Hvs & Hin3 & Hd3). cbn [rbind]. do 2 eexists. split; [done|]. split; [by exists cred, verf|done].
Qed.

Lemma call_decode S `{XdrInlineDecoder S} m c m0 bs rest s : call_good m c → call_on_wire m c bs → call_blank m0 →
  dok 0 s → din s = bs ++ rest →
  ∃ m' s', xdr_callmsg junk S _ _ XDR_DECODE m0 s = Ret (true, m', s') ∧ same_call m c m' ∧ din s' = rest ∧ dok 0 s'.
Proof.
  intros Hg Hw Hb Hd Hin. unfold xdr_callmsg. change (8 * BYTES_PER_XDR_UNIT) with 32.
  destruct (inline_window S 32 s Hd) as [->|(buf & s1 & -> & _ & Hin1 & Hd1 & Hwin)]; [lia..|done| |]; cbn [rbind].
  - by eapply call_slow_decode.
  - destruct Hw as (cb & vb & Hcb & Hvb & ->). eapply call_inline_decode; [done..| |done|].
    + by rewrite Hin in Hwin.
    + rewrite Hin1, Hin. destruct Hcb as (fill & _ & ->). change (drop 8 (auth_wire (cb_cred c) fill)) with (auth_data (cb_cred c) ++ fill).
      unfold call_wire, auth_wire. rewrite <-!app_assoc. reflexivity.
Qed.

(** ** Any input *)

(** What decoding a call gives when it succeeds. *)
Definition call_got {S} `{XdrDecoder S} (m : rpc_msg R) (s s' : S) : Prop :=
  ∃ c, call_good m c ∧ dok 0 s' ∧ consumed (call_size c) s s'.

Ltac call_word v0 s Hd :=
  let l := fresh "l" in let s' := fresh "s" in let Hd' := fresh "Hd" in let Hc := fresh "Hc" in
  let Hl := fresh "Hl" in let Hu := fresh "Hu" in
  destruct (word_total _ v0 s Hd) as [(s' & Ea & Eb)|(l & s' & Ea & Eb & Hl & Hu & Hd' & Hc)];
  cbn [rm_xid rm_direction rm_ru cb_rpcvers cb_prog cb_vers cb_proc cb_cred cb_verf];
  rewrite ?Ea, ?Eb; clear Ea Eb; cbn [rbind negb andb]; [by do 3 eexists|].

Lemma call_slow_total S `{XdrDecoder S} m0 s : call_blank m0 → dok 0 s →
  ∃ b m' s', callmsg_slow junk S _ XDR_DECODE m0 s = Ret (b, m', s') ∧ (b = true → call_got m' s s').
Proof.
  intros (c0 & Hru0 & Hc0 & Hv0) Hd. unfold callmsg_slow, xdr_enum.
  call_word (rm_xid m0) s Hd. call_word (rm_direction m0) s0 Hd0.
  destruct (Z.eqb_spec l0 CALL) as [->|Hne]; cbn [negb]; [|by do 3 eexists].
  unfold rm_call. cbn [rm_ru]. rewrite Hru0. cbn [rbind].
  call_word (cb_rpcvers c0) s1 Hd1. destruct (Z.eqb_spec (w32 l0) RPC_MSG_VERSION) as [Hvers|Hne]; cbn [negb]; [|by do 3 eexists].
  call_word (cb_prog c0) s2 Hd2. call_word (cb_vers c0) s3 Hd3. call_word (cb_proc c0) s4 Hd4.
  destruct (auth_total junk S (cb_cred c0) s5 Hc0 Hd5) as (b & cred & s6 & -> & Hcred). cbn [rbind].
  destruct b; cbn [negb]; [|by do 3 eexists]. destruct (Hcred eq_refl) as ((Hgc & Hd6 & Hcc) & _).
  destruct (auth_total junk S (cb_verf c0) s6 Hv0 Hd6) as (b & verf & s7 & -> & Hverf). cbn [rbind].
  do 3 eexists. split; [done|]. intros ->. destruct (Hverf eq_refl) as ((Hgv & Hd7 & Hcv) & _).
  eexists. split; [|split; [exact Hd7|]].
  - split; [done|]. cbn [rm_xid rm_direction cb_rpcvers cb_prog cb_vers cb_proc cb_cred cb_verf]. done.
  - unfold call_size, auth_size. cbn [cb_cred cb_verf]. replace 24 with (4 + 4 + 4 + 4 + 4 + 4) by done.
    unfold auth_got in *. repeat (eapply consumed_trans; [|eassumption]). eassumption.
Qed.

Ltac window_word Hw :=
  let E := fresh "E" in let Hw' := fresh "Hw" in
  match type of Hw with window _ ?l _ _ => let x := fresh "w" in
    destruct (window_get _ _ _ _ Hw) as [E Hw']; [lia|]; rewrite E; clear E; cbn [rbind];
    pose proof (s32_range (unbe32 (take 4 l))); set (x := s32 (unbe32 (take 4 l))) in *; clearbody x end;
  clear Hw; rename Hw' into Hw.

Lemma call_inline_total S `{XdrInlineDecoder S} m0 buf l s0 s : call_blank m0 → window 32 l buf s → dok 0 s →
  consumed 32 s0 s →
  ∃ b m' s', callmsg_decode_inline junk S _ _ m0 buf s = Ret (b, m', s') ∧ (b = true → call_got m' s0 s').
Proof.
  intros (c0 & Hru0 & Hc0 & Hv0) Hw Hd Hcons. unfold callmsg_decode_inline.
  window_word Hw. window_word Hw. destruct (Z.eqb_spec w0 CALL) as [->|Hne]; cbn [negb]; [|by do 3 eexists].
  unfold rm_call. cbn [rm_ru]. rewrite Hru0. cbn [rbind]. window_word Hw.
  destruct (Z.eqb_spec (w32 w0) RPC_MSG_VERSION) as [Hvers|Hne]; cbn [negb]; [|by do 3 eexists].
  window_word Hw. window_word Hw. window_word Hw. window_word Hw. window_word Hw. rewrite Hc0.
  destruct (auth_body_total junk S w4 (w32 w5) s) as (b & cred & s1 & -> & Hcred); [done|apply w32_range|done|]. cbn [rbind].
  destruct b; cbn [negb]; [|by do 3 eexists]. destruct (Hcred eq_refl) as (Hgc & Hd1 & Hcc).
  destruct (verf_words_total S (cb_verf c0) s1 Hd1) as (b & fl & n & s2 & -> & Hwords). cbn [rbind].
  destruct b; cbn [negb]; [|by do 3 eexists]. destruct (Hwords eq_refl) as (Hfl & Hn & Hd2 & Hc2). rewrite Hv0.
  destruct (auth_body_total junk S fl n s2 Hfl Hn Hd2) as (b & verf & s3 & -> & Hverf). cbn [rbind].
  do 3 eexists. split; [done|]. intros ->. destruct (Hverf eq_refl) as (Hgv & Hd3 & Hcv).
  eexists. split; [|split; [exact Hd3|]].
  - split; [done|]. cbn [rm_xid rm_direction cb_rpcvers cb_prog cb_vers cb_proc cb_cred cb_verf set_call].
    split; [done|]. split; [done|]. do 4 (split; [apply w32_range|]). done.
  - unfold call_size, auth_size. cbn [cb_cred cb_verf].
    replace (24 + _ + _) with (32 + (0 + oa_length cred + rndup_of (oa_length cred)) + 8 +
      (0 + oa_length verf + rndup_of (oa_length verf))) by lia.
    by repeat (eapply consumed_trans; [|eassumption]).
Qed.

Lemma call_total S `{XdrInlineDecoder S} m0 s : call_blank m0 → dok 0 s →
  ∃ b m' s', xdr_callmsg junk S _ _ XDR_DECODE m0 s = Ret (b, m', s') ∧ (b = true → call_got m' s s').
Proof.
  intros Hb Hd. unfold xdr_callmsg. change (8 * BYTES_PER_XDR_UNIT) with 32.
  destruct (inline_window S 32 s Hd) as [->|(buf & s1 & -> & Hl & Hin1 & Hd1 & Hw)]; [lia..|done| |]; cbn [rbind].
  - by apply call_slow_total.
  - apply (call_inline_total S m0 buf _ s s1 Hb Hw Hd1). apply consumed_drop; [lia|done].
Qed.

(** ** The properties *)

(** C32: A call message survives the wire between any two streams, whether or not they let
    [xdr_callmsg] write and read their buffers: it is encoded whenever there is room for it,
    and decoding what was put gives the same call and uses up just those bytes. *)
Theorem xdr_callmsg_roundtrip (S D : Type) `{XdrInlineEncoder S} `{XdrInlineDecoder D} (m : rpc_msg R) (c : call_body)
    (s : S) : call_good m c → eok s →
  ∃ b s' bs, xdr_callmsg junk S _ _ XDR_ENCODE m s = Ret (b, m, s') ∧ encoded s bs b s' ∧ zlen bs = call_size c ∧
    ∀ (d : D) m0 rest, call_blank m0 → dok 0 d → din d = bs ++ rest →
      ∃ m' d', xdr_callmsg junk D _ _ XDR_DECODE m0 d = Ret (true, m', d') ∧ same_call m c m' ∧
        din d' = rest ∧ dok 0 d'.
Proof.
  intros Hg He. destruct (call_encode S m c s Hg He) as (b & s' & bs & Hr & Hw & Hb). exists b, s', bs.
  split; [done|]. split; [done|]. split.
  - destruct Hg as (_ & _ & _ & _ & _ & _ & _ & Hcred & Hverf). destruct Hw as (cb & vb & (f1 & Hf1 & ->) & (f2 & Hf2 & ->) & ->).
    pose proof (auth_data_len _ Hcred). pose proof (auth_data_len _ Hverf).
    unfold call_wire, auth_wire, call_size, auth_size. rewrite !length_app. change (length (be32 ?x)) with 4%nat. lia.
  - intros d m0 rest Hb0 Hd Hin. by eapply call_decode.
Qed.

(** C33: Decoding a call from any input never accesses memory outside the objects, the stream and
    the storage allocated for it.  When it succeeds, the message is a call of RPC version 2 with
    authenticators of at most 400 bytes that are all there, and it has used just the bytes
    that such a call takes. *)
Theorem xdr_callmsg_safe (D : Type) `{XdrInlineDecoder D} (m0 : rpc_msg R) (d : D) : call_blank m0 → dok 0 d →
  ∃ b m' d', xdr_callmsg junk D _ _ XDR_DECODE m0 d = Ret (b, m', d') ∧
    (b = true → ∃ c, call_good m' c ∧ dok 0 d' ∧ consumed (call_size c) d d').
Proof. intros Hb Hd. by apply call_total. Qed.

(** When [xdr_callmsg] writes a call into the buffer of the stream, the bytes that fill up the
    last word of an authenticator keep whatever the buffer held there, and are put with the
    rest: what goes on the wire shows up to three bytes of old memory behind each of them. *)
Theorem xdr_callmsg_stale (S : Type) `{XdrInlineEncoder S} (m : rpc_msg R) (c : call_body) (s s1 : S) (buf : Z)
    (old : list Z) : call_good m c → eok s →
  x_inline (call_size c) s = Ret (Some buf, s1) → eout s1 = eout s ++ old →
  ∃ s', xdr_callmsg junk S _ _ XDR_ENCODE m s = Ret (true, m, s') ∧
    eout s' = eout s ++
      call_wire m c (auth_wire (cb_cred c) (stale_cred c old)) (auth_wire (cb_verf c) (stale_verf c old)).
Proof.
  intros Hg He Hin Hout. pose proof Hg as (Hru & _). destruct (call_inline_size m c Hg) as (Hsz & Hsz2 & Hcl & Hvl).
  unfold xdr_callmsg, rm_call. rewrite Hru. cbn [rbind].
  rewrite (proj2 (Z.ltb_ge _ _)), (proj2 (Z.ltb_ge _ (oa_length (cb_verf c)))), Hsz by lia.
  destruct (fill_start (call_size c) s He) as (r & s1' & Hin' & Hr); [lia|lia|]. rewrite Hin in Hin'.
  injection Hin' as <- <-. rewrite Hin. cbn [rbind]. destruct Hr as (hole & Hold & Hf).
  assert (hole = old) as ->.
  { destruct Hf as ([_ Ht] & _). destruct (Ht eq_refl) as (Ho & _). rewrite Hout in Ho. by apply app_inv_head in Ho. }
  destruct (call_inline_encode S m c s old buf s1 Hg Hold Hf) as (s2 & -> & [_ Ht]). exists s2. split; [done|].
  by destruct (Ht eq_refl) as (-> & _).
Qed.
End Call.

(** ** Witnesses *)

Definition ex_call : call_body :=
  CallBody RPC_MSG_VERSION 100003 2 1 (OpaqueAuth 1 (Own (At [1; 2; 3; 4; 5])) 5) _null_auth.
Definition ex_msg : rpc_msg unit := RpcMsg 77 CALL (RM_cmb ex_call).
Definition ex_blank : rpc_msg unit := RpcMsg 0 0 (RM_cmb (CallBody 0 0 0 0 _null_auth _null_auth)).

Lemma ex_call_good : call_good ex_msg ex_call.
Proof.
  repeat split; try done. simpl. intros _. exists [1; 2; 3; 4; 5]. done.
Qed.

Lemma ex_blank_ok : call_blank ex_blank.
Proof. eexists. split; [reflexivity|]. by split. Qed.

Lemma xdr_callmsg_roundtrip_witness :
  ∃ s' bs, xdr_callmsg (λ _, 0) xdrmem _ _ XDR_ENCODE ex_msg (xdrmem_create (replicate 48 7)) = Ret (true, ex_msg, s') ∧
    mem_out s' = bs ∧
    ∃ m' d', xdr_callmsg (λ _, 0) xdrmem _ _ XDR_DECODE ex_blank (xdrmem_create (bs ++ [9])) = Ret (true, m', d') ∧
      same_call ex_msg ex_call m' ∧ mem_in d' = [9].
Proof.
  destruct (xdr_callmsg_roundtrip (λ _, 0) xdrmem xdrmem ex_msg ex_call (xdrmem_create (replicate 48 7)))
    as (b & s' & bs & Hr & [Hroom Hout] & Hl & Hd); [apply ex_call_good|by apply mem_create_ok|].
  change (call_size ex_call) with 48 in Hl.
  assert (b = true) as -> by (apply Hroom; rewrite Hl; vm_compute; congruence).
  exists s', bs. split; [exact Hr|]. split; [by destruct (Hout eq_refl)|].
  destruct (Hd (xdrmem_create (bs ++ [9])) ex_blank [9]) as (m' & d' & Hr' & Hs & Hin & _).
  - apply ex_blank_ok.
  - apply mem_create_ok. rewrite length_app. simpl. lia.
  - apply mem_create_in.
  - exists m', d'. split; [exact Hr'|]. split; [exact Hs|exact Hin].
Defined.

Lemma xdr_callmsg_safe_witness :
  ∃ b m' d', xdr_callmsg (λ _, 0) xdrmem _ _ XDR_DECODE ex_blank
      (xdrmem_create (replicate 31 0 ++ [2; 0; 0; 0; 9])) = Ret (b, m', d').
Proof.
  destruct (xdr_callmsg_safe (λ _, 0) xdrmem ex_blank (xdrmem_create (replicate 31 0 ++ [2; 0; 0; 0; 9])))
    as (b & m' & d' & Hr & _); [apply ex_blank_ok|by apply mem_create_ok|]. by exists b, m', d'.
Defined.

(** The three bytes of seven are from the memory the stream was made on. *)
Lemma xdr_callmsg_stale_witness :
  ∃ s', xdr_callmsg (λ _, 0) xdrmem _ _ XDR_ENCODE ex_msg (xdrmem_create (replicate 48 7)) = Ret (true, ex_msg, s') ∧
    slice 32 8 (mem_out s') = [1; 2; 3; 4; 5; 7; 7; 7].
Proof.
  destruct (xdr_callmsg_stale (λ _, 0) xdrmem ex_msg ex_call (xdrmem_create (replicate 48 7))
    (Xdrmem (replicate 48 7) 48 0) 0 (replicate 48 7)) as (s' & Hr & Hout);
    [apply ex_call_good|by apply mem_create_ok|by vm_compute|by vm_compute|].
  exists s'. split; [exact Hr|]. refine (eq_trans (f_equal (slice 32 8) Hout) _). by vm_compute.
Defined.
