(* ===== verification/RpcReply.v ===== *)
(** * Reply messages

    Encoding and decoding replies over any two streams, with results of any type
    that has a codec; what a client makes of a reply. *)

From S2P Require Import Prelude Bytes Xdr XdrCodec XdrMem XdrInline Rpc RpcOps.

Section Reply.
Context (junk leftover : nat → Z).
Context {R : Type} (proc : xdrproc R) (zero : R) `{!Codec proc zero}.

(** ** On the wire *)

Definition accepted_good (ar : accepted_reply R) : Prop :=
  auth_good (ar_verf ar) ∧ in_s32 (ar_stat ar) ∧
  (ar_stat ar = SUCCESS → ∃ w, ar_ru ar = AR_results w (Some proc) ∧ good proc zero w) ∧
  (ar_stat ar = PROG_MISMATCH → ∃ low high, ar_ru ar = AR_versions low high ∧ in_u32 low ∧ in_u32 high).
Definition rejected_good (rr : rejected_reply) : Prop :=
  (rj_stat rr = RPC_MISMATCH ∧ in_u32 (rj_low rr) ∧ in_u32 (rj_high rr)) ∨ (rj_stat rr = AUTH_ERROR ∧ in_u32 (rj_low rr)).
Definition body_good (r : reply_body R) : Prop :=
  match rp_ru r with
  | RP_ar ar => rp_stat r = MSG_ACCEPTED ∧ accepted_good ar
  | RP_dr rr => rp_stat r = MSG_DENIED ∧ rejected_good rr
  end.
Definition reply_good (m : rpc_msg R) (r : reply_body R) : Prop :=
  rm_ru m = RM_rmb r ∧ rm_direction m = REPLY ∧ in_u32 (rm_xid m) ∧ body_good r.

Definition rest_wire (ar : accepted_reply R) : list Z :=
  if ar_stat ar =? SUCCESS then match ar_ru ar with AR_results w _ => wire proc zero w | _ => [] end
  else if ar_stat ar =? PROG_MISMATCH then be32 (ar_low leftover (ar_ru ar)) ++ be32 (ar_high leftover (ar_ru ar))
  else [].
Definition rejected_wire (rr : rejected_reply) : list Z :=
  be32 (rj_stat rr) ++ if rj_stat rr =? RPC_MISMATCH then be32 (rj_low rr) ++ be32 (rj_high rr) else be32 (rj_why rr).
(** A verifier is filled up with zeros. *)
Definition verf_wire (oa : opaque_auth) : list Z := auth_wire oa (pad (oa_length oa)).
Definition reply_wire (m : rpc_msg R) (r : reply_body R) : list Z :=
  be32 (rm_xid m) ++ be32 REPLY ++ be32 (rp_stat r) ++
  match rp_ru r with
  | RP_ar ar => verf_wire (ar_verf ar) ++ be32 (ar_stat ar) ++ rest_wire ar
  | RP_dr rr => rejected_wire rr
  end.

(** ** Encoding *)

Lemma rest_encode S `{XdrEncoder S} ar s : accepted_good ar → eok s →
  ∃ b s', xdr_accepted_rest leftover S _ XDR_ENCODE ar s = Ret (b, ar, s') ∧ encoded s (rest_wire ar) b s'.
Proof.
  intros (_ & _ & Hs & Hm) He. unfold xdr_accepted_rest, rest_wire.
  destruct (Z.eqb_spec (ar_stat ar) SUCCESS) as [E|_].
  - destruct (Hs E) as (w & Hu & Hg). destruct ar as [v st u]. cbn [ar_ru ar_stat ar_verf] in *. subst u.
    unfold xdr_ar_results. destruct (c_encode S s w Hg He) as (b & s1 & -> & Hb). cbn [rbind]. by do 2 eexists.
  - destruct (Z.eqb_spec (ar_stat ar) PROG_MISMATCH) as [E|_].
    + destruct (Hm E) as (low & high & Hu & Hl & Hh). destruct ar as [v st u]. cbn [ar_ru ar_stat ar_verf] in *. subst u.
      unfold xdr_ar_vers, xdr_u_long. cbn [ar_low ar_high]. enc_word low He.
      destruct (enc_long high _ He) as (b & s2 & -> & Hb). cbn [rbind]. by apply encoded_last.
    + exists true, s. split; [done|]. by apply encoded_nil.
Qed.

Lemma accepted_encode S `{XdrEncoder S} ar s : accepted_good ar → eok s →
  ∃ b s', xdr_accepted_reply junk leftover S _ XDR_ENCODE ar s = Ret (b, ar, s') ∧
    encoded s (verf_wire (ar_verf ar) ++ be32 (ar_stat ar) ++ rest_wire ar) b s'.
Proof.
  intros Hg He. pose proof Hg as (Hv & _). unfold xdr_accepted_reply.
  destruct (auth_encode junk S (ar_verf ar) s Hv He) as (b & s1 & -> & Hb). cbn [rbind]. destruct ar as [v st u].
  cbn [ar_verf ar_stat ar_ru] in *. destruct b; cbn [negb]; [|by apply encoded_stop].
  apply (encoded_step _ _ _ _ _ _ Hb). apply encoded_ok in Hb as He1. unfold xdr_enum, xdr_long.
  destruct (enc_long st _ He1) as (b & s2 & -> & Hb2). cbn [rbind]. destruct b; cbn [negb]; [|by apply encoded_stop].
  apply (encoded_step _ _ _ _ _ _ Hb2). apply encoded_ok in Hb2 as He2. by apply (rest_encode S (AcceptedReply v st u)).
Qed.

Lemma rejected_encode S `{XdrEncoder S} rr s : rejected_good rr → eok s →
  ∃ b s', xdr_rejected_reply S _ XDR_ENCODE rr s = Ret (b, rr, s') ∧ encoded s (rejected_wire rr) b s'.
Proof.
  intros Hg He. destruct rr as [st low high]. unfold xdr_rejected_reply, rejected_wire, xdr_enum, xdr_long, xdr_u_long.
  cbn [rj_stat rj_low rj_high]. enc_word st He. destruct Hg as [(E & Hl & Hh)|(E & Hl)]; cbn [rj_stat rj_low rj_high] in *; subst st.
  - rewrite Z.eqb_refl. enc_word low He. destruct (enc_long high _ He) as (b & s2 & -> & Hb). cbn [rbind]. by apply encoded_last.
  - change (AUTH_ERROR =? RPC_MISMATCH) with false. change (AUTH_ERROR =? AUTH_ERROR) with true. cbn [rbind].
    destruct (enc_long (rj_why (RejectedReply AUTH_ERROR low high)) _ He) as (b & s2 & -> & Hb). cbn [rbind].
    unfold rj_why at 1 2. cbn [rj_low]. rewrite w32_s32, w32_id by done. by apply encoded_last.
Qed.

Lemma find_accepted : List.find (λ c, c.1 =? MSG_ACCEPTED) (reply_dscrm junk leftover) =
  Some (MSG_ACCEPTED, @xdr_arm_accepted junk leftover R).
Proof. done. Qed.

Lemma find_rejected : List.find (λ c, c.1 =? MSG_DENIED) (reply_dscrm junk leftover) =
  Some (MSG_DENIED, @xdr_arm_rejected leftover R).
Proof. done. Qed.

Lemma reply_slow_encode S `{XdrEncoder S} m r s : reply_good m r → eok s →
  ∃ b s', replymsg_slow junk leftover S _ XDR_ENCODE m s = Ret (b, m, s') ∧ encoded s (reply_wire m r) b s'.
Proof.
  intros (Hru & Hdir & Hx & Hb) He. destruct m as [xid dir ru]. cbn [rm_ru rm_direction rm_xid] in *. subst ru dir.
  unfold replymsg_slow, reply_wire, xdr_enum, xdr_u_long, xdr_long. cbn [rm_xid rm_direction rm_ru].
  enc_word xid He. enc_word REPLY He. rewrite Z.eqb_refl. cbn [negb andb]. unfold rm_reply. cbn [rm_ru rbind].
  unfold xdr_union, xdr_enum, xdr_long. destruct r as [st u]. unfold body_good in Hb. cbn [rp_stat rp_ru] in *.
  enc_word st He. destruct u as [ar|rr]; destruct Hb as [-> Hg].
  - rewrite find_accepted. cbn [snd]. unfold xdr_arm_accepted. destruct (accepted_encode S ar _ Hg He) as (b & sa & -> & Hb). cbn [rbind]. by apply encoded_last.
  - rewrite find_rejected. cbn [snd]. unfold xdr_arm_rejected. cbn [rp_rjct].
    destruct (rejected_encode S rr _ Hg He) as (b & sa & -> & Hb). cbn [rbind]. by apply encoded_last.
Qed.

(** The filler of [replymsg_encode_inline]. *)
Lemma put_auth_zero S `{XdrInlineEncoder S} oa s0 dn hole buf s : filling s0 dn hole buf s → auth_good oa →
  8 + RNDUP w32 (oa_length oa) ≤ zlen hole →
  ∃ s', put_auth (zero_filler (oa_length oa) (RNDUP w32 (oa_length oa))) oa buf s = Ret (buf + (8 + RNDUP w32 (oa_length oa)), s') ∧
    filling s0 (dn ++ verf_wire oa) (drop (Z.to_nat (8 + RNDUP w32 (oa_length oa))) hole)
      (buf + (8 + RNDUP w32 (oa_length oa))) s'.
Proof.
  intros Hf Hg Hk. pose proof Hg as (_ & Hl & _). destruct (RNDUP_unit _ Hl) as (_ & _ & Hle).
  pose proof (RNDUP_w32 _ Hl) as Hrn. pose proof (rndup_range (oa_length oa)) as Hrr.
  destruct (put_auth_front (zero_filler (oa_length oa) (RNDUP w32 (oa_length oa))) oa _ _ _ _ _ Hf Hg) as (s3 & -> & Hf3); [lia|].
  unfold zero_filler. rewrite Hrn. replace (oa_length oa + rndup_of (oa_length oa) - oa_length oa) with (rndup_of (oa_length oa)) by lia.
  rewrite w32_id by (unfold in_u32; lia). unfold verf_wire, auth_wire. fold (pad (oa_length oa)).
  pose proof (pad_len (oa_length oa)) as Hpl.
  destruct (Z.eqb_spec (oa_length oa) 0) as [Hz|Hnz].
  - rewrite Hz in Hf3 |- *. change (rndup_of 0) with 0. exists s3. split; [do 2 f_equal; lia|].
    change (pad 0) with (@nil Z). rewrite app_nil_r. replace (buf + (8 + (0 + 0))) with (buf + 8 + 0) by lia. exact Hf3.
  - destruct (Z.ltb_spec 0 (rndup_of (oa_length oa))) as [Hpos|Hnone].
    + destruct (fill_put _ _ _ _ _ (pad (oa_length oa)) Hf3) as (s4 & -> & Hf4); [rewrite length_drop; lia|]. cbn [rbind].
      exists s4. split; [do 2 f_equal; lia|]. rewrite <-!app_assoc, drop_drop in Hf4.
      replace (Z.to_nat (8 + (oa_length oa + rndup_of (oa_length oa)))) with
        (Z.to_nat (8 + oa_length oa) + length (pad (oa_length oa)))%nat by lia.
      replace (buf + (8 + (oa_length oa + rndup_of (oa_length oa)))) with
        (buf + 8 + oa_length oa + zlen (pad (oa_length oa))) by lia. exact Hf4.
    + assert (rndup_of (oa_length oa) = 0) as Hz by lia. rewrite Hz in Hpl |- *. destruct (pad (oa_length oa)); [|discriminate].
      exists s3. split; [do 2 f_equal; lia|]. rewrite app_nil_r.
      replace (8 + (oa_length oa + 0)) with (8 + oa_length oa) by lia. rewrite Z.add_assoc. exact Hf3.
Qed.

Lemma reply_inline_encode S `{XdrInlineEncoder S} m r ar s0 old buf s : reply_good m r → rp_ru r = RP_ar ar →
  zlen old = 24 + RNDUP w32 (oa_length (ar_verf ar)) → filling s0 [] old buf s →
  ∃ b s', replymsg_encode_inline leftover S _ _ m r ar (RNDUP w32 (oa_length (ar_verf ar))) buf s = Ret (b, m, s') ∧
    encoded s0 (reply_wire m r) b s'.
Proof.
  intros (Hru & Hdir & Hx & Hb) Har Hold Hf. unfold body_good in Hb. rewrite Har in Hb. destruct Hb as [Hst Hg].
  pose proof Hg as (Hv & _). pose proof Hv as (_ & Hl & _). destruct (RNDUP_unit _ Hl) as (Hr1 & _ & _).
  unfold replymsg_encode_inline.
  destruct (fill_long _ _ _ _ _ (rm_xid m) Hf) as (s1 & -> & Hf1); [lia|]. cbn [rbind].
  destruct (fill_long _ _ _ _ _ (rm_direction m) Hf1) as (s2 & -> & Hf2); [rewrite !length_drop; lia|]. cbn [rbind].
  destruct (fill_long _ _ _ _ _ (rp_stat r) Hf2) as (s3 & -> & Hf3); [rewrite !length_drop; lia|]. cbn [rbind].
  destruct (put_auth_zero S (ar_verf ar) _ _ _ _ _ Hf3 Hv) as (s4 & -> & Hf4); [rewrite !length_drop; lia|]. cbn [rbind].
  destruct (fill_long _ _ _ _ _ (ar_stat ar) Hf4) as (s5 & -> & Hf5); [rewrite !length_drop; lia|]. cbn [rbind].
  apply fill_done in Hf5; [|rewrite !length_drop; lia]. pose proof (encoded_ok _ _ _ Hf5) as He.
  destruct (rest_encode S ar s5 Hg He) as (b & s6 & -> & Hb). cbn [rbind]. exists b, s6. split.
  - destruct m as [xid dir ru], r as [st u]. cbn [rm_ru rp_ru rp_stat] in *. by subst.
  - unfold reply_wire. rewrite Har, Hst. rewrite Hdir, Hst in Hf5.
    pose proof (encoded_seq _ _ _ _ _ _ Hf5 Hb) as Hall. rewrite <-!app_assoc in Hall. exact Hall.
Qed.

Lemma reply_encode S `{XdrInlineEncoder S} m r s : reply_good m r → eok s →
  ∃ b s', xdr_replymsg junk leftover S _ _ XDR_ENCODE m s = Ret (b, m, s') ∧ encoded s (reply_wire m r) b s'.
Proof.
  intros Hg He. pose proof Hg as (Hru & Hdir & Hx & Hb). unfold xdr_replymsg, reply_to_encode, rm_reply.
  rewrite Hru. cbn [rbind]. unfold body_good in Hb. destruct (rp_ru r) as [ar|rr] eqn:Er; destruct Hb as [Hst Hgr].
  - rewrite Hst, Hdir. cbn [Z.eqb andb]. change (MSG_ACCEPTED =? MSG_ACCEPTED) with true.
    change (REPLY =? REPLY) with true. cbn [andb]. unfold rp_acpt. rewrite Er. cbn [rbind].
    pose proof Hgr as ((_ & Hl & _) & _). pose proof (RNDUP_w32 _ Hl) as Hrn. pose proof (rndup_range (oa_length (ar_verf ar))).
    unfold MAX_AUTH_BYTES in Hl. change (6 * BYTES_PER_XDR_UNIT) with 24. rewrite s32_id by (unfold in_s32; lia).
    destruct (fill_start (24 + RNDUP w32 (oa_length (ar_verf ar))) s He) as (b & s1 & -> & Hr); [lia|lia|]. cbn [rbind].
    destruct b as [buf|].
    + destruct Hr as (old & Hold & Hf). by eapply reply_inline_encode.
    + rewrite Hr. by apply reply_slow_encode.
  - rewrite Hst. change (MSG_DENIED =? MSG_ACCEPTED) with false. cbn [andb rbind]. by apply reply_slow_encode.
Qed.

(** ** Decoding *)

(** A message to decode a reply into, with what decodes the results. *)
Definition reply_blank (m : rpc_msg R) (r : reply_body R) (ar : accepted_reply R) : Prop :=
  rm_ru m = RM_rmb r ∧ rp_ru r = RP_ar ar ∧ oa_base (ar_verf ar) = Own NULL ∧ ar_ru ar = AR_results zero (Some proc).

(** The same reply to a reader. *)
Definition same_accepted (ar ar' : accepted_reply R) : Prop :=
  auth_same (ar_verf ar) (ar_verf ar') ∧ ar_stat ar' = ar_stat ar ∧
  ar_ru ar' = if (ar_stat ar =? SUCCESS) || (ar_stat ar =? PROG_MISMATCH) then ar_ru ar else AR_results zero (Some proc).
Definition same_rejected (rr rr' : rejected_reply) : Prop :=
  rj_stat rr' = rj_stat rr ∧ rj_low rr' = rj_low rr ∧ (rj_stat rr = RPC_MISMATCH → rj_high rr' = rj_high rr).
Definition same_reply (m : rpc_msg R) (r : reply_body R) (m' : rpc_msg R) : Prop :=
  ∃ u, m' = RpcMsg (rm_xid m) REPLY (RM_rmb (ReplyBody (rp_stat r) u)) ∧
    match rp_ru r, u with
    | RP_ar ar, RP_ar ar' => same_accepted ar ar'
    | RP_dr rr, RP_dr rr' => same_rejected rr rr'
    | _, _ => False
    end.

Lemma u_long_decode S `{XdrDecoder S} v0 v rest s : in_u32 v → dok 0 s → din s = be32 v ++ rest →
  ∃ s', xdr_u_long S _ XDR_DECODE v0 s = Ret (true, v, s') ∧ din s' = rest ∧ dok 0 s'.
Proof. apply u_int_decode. Qed.

Lemma enum_decode S `{XdrDecoder S} v0 v rest s : in_s32 v → dok 0 s → din s = be32 v ++ rest →
  ∃ s', xdr_enum S _ XDR_DECODE v0 s = Ret (true, v, s') ∧ din s' = rest ∧ dok 0 s'.
Proof.
  intros Hv Hd Hin. unfold xdr_enum, xdr_long. destruct (get_word S s _ _ Hd Hin) as (s' & -> & ? & ?). cbn [rbind].
  exists s'. by rewrite s32_id.
Qed.

Lemma rest_decode S `{XdrDecoder S} ar verf rest s : accepted_good ar → dok 0 s → din s = rest_wire ar ++ rest →
  ∃ u s', xdr_accepted_rest leftover S _ XDR_DECODE (AcceptedReply verf (ar_stat ar) (AR_results zero (Some proc))) s =
      Ret (true, AcceptedReply verf (ar_stat ar) u, s') ∧
    u = (if (ar_stat ar =? SUCCESS) || (ar_stat ar =? PROG_MISMATCH) then ar_ru ar else AR_results zero (Some proc)) ∧
    din s' = rest ∧ dok 0 s'.
Proof.
  intros (_ & _ & Hs & Hm) Hd Hin. unfold xdr_accepted_rest. unfold rest_wire in Hin. cbn [ar_stat ar_ru ar_verf].
  destruct (Z.eqb_spec (ar_stat ar) SUCCESS) as [E|_]; cbn [orb].
  - destruct (Hs E) as (w & Hu & Hg). rewrite Hu in Hin |- *. unfold xdr_ar_results.
    destruct (c_decode S s w rest Hg Hd Hin) as (s1 & -> & Hin1 & Hd1). cbn [rbind]. by do 2 eexists.
  - destruct (Z.eqb_spec (ar_stat ar) PROG_MISMATCH) as [E|_].
    + destruct (Hm E) as (low & high & Hu & Hl & Hh). rewrite Hu in Hin |- *. cbn [ar_low ar_high] in Hin.
      rewrite <-app_assoc in Hin. unfold xdr_ar_vers.
      destruct (u_long_decode S (ar_low leftover (AR_results zero (Some proc))) _ _ s Hl Hd Hin) as (s1 & -> & Hin1 & Hd1).
      cbn [rbind]. destruct (u_long_decode S (ar_high leftover (AR_results zero (Some proc))) _ _ s1 Hh Hd1 Hin1)
        as (s2 & -> & Hin2 & Hd2). cbn [rbind]. by do 2 eexists.
    + by do 2 eexists.
Qed.

Lemma rejected_decode S `{XdrDecoder S} rr rr0 rest s : rejected_good rr → dok 0 s → din s = rejected_wire rr ++ rest →
  ∃ rr' s', xdr_rejected_reply S _ XDR_DECODE rr0 s = Ret (true, rr', s') ∧ same_rejected rr rr' ∧ din s' = rest ∧ dok 0 s'.
Proof.
  intros Hg Hd Hin. unfold rejected_wire in Hin. rewrite <-app_assoc in Hin. unfold xdr_rejected_reply.
  assert (in_s32 (rj_stat rr)) as Hst by (destruct Hg as [(-> & _)|(-> & _)]; done).
  destruct (enum_decode S (rj_stat rr0) _ _ s Hst Hd Hin) as (s1 & -> & Hin1 & Hd1). cbn [rbind negb].
  destruct Hg as [(E & Hl & Hh)|(E & Hl)]; rewrite E in *.
  - rewrite Z.eqb_refl in *. rewrite <-app_assoc in Hin1. cbn [rj_low rj_high].
    destruct (u_long_decode S (rj_low rr0) _ _ s1 Hl Hd1 Hin1) as (s2 & -> & Hin2 & Hd2). cbn [rbind negb].
    destruct (u_long_decode S (rj_high rr0) _ _ s2 Hh Hd2 Hin2) as (s3 & -> & Hin3 & Hd3). cbn [rbind].
    do 2 eexists. split; [done|]. split; [|done]. by split.
  - change (AUTH_ERROR =? RPC_MISMATCH) with false in *. change (AUTH_ERROR =? AUTH_ERROR) with true.
    destruct (enum_decode S (rj_why (RejectedReply AUTH_ERROR (rj_low rr0) (rj_high rr0))) (rj_why rr) _ s1
      (s32_range _) Hd1 Hin1) as (s2 & -> & Hin2 & Hd2). cbn [rbind].
    do 2 eexists. split; [done|]. split; [|done]. split; [done|]. cbn [rj_low rj_stat]. unfold rj_why.
    rewrite w32_s32, w32_id by done. split; [done|]. rewrite E. done.
Qed.

Lemma accepted_decode S `{XdrDecoder S} ar ar0 rest s : accepted_good ar → oa_base (ar_verf ar0) = Own NULL →
  ar_ru ar0 = AR_results zero (Some proc) → dok 0 s →
  din s = verf_wire (ar_verf ar) ++ be32 (ar_stat ar) ++ rest_wire ar ++ rest →
  ∃ ar' s', xdr_accepted_reply junk leftover S _ XDR_DECODE ar0 s = Ret (true, ar', s') ∧ same_accepted ar ar' ∧
    din s' = rest ∧ dok 0 s'.
Proof.
  intros Hg Hb Hu Hd Hin. pose proof Hg as (Hv & Hst & _). unfold xdr_accepted_reply.
  destruct (auth_decode junk S (ar_verf ar0) (ar_verf ar) (verf_wire (ar_verf ar)) (be32 (ar_stat ar) ++ rest_wire ar ++ rest) s Hv) as (verf & s1 & -> & Hsame & Hin1 & Hd1);
    [by eexists; split; [apply pad_len|]|done|done|exact Hin|]. cbn [rbind negb ar_stat].
  destruct (enum_decode S (ar_stat ar0) _ _ s1 Hst Hd1 Hin1) as (s2 & -> & Hin2 & Hd2). cbn [rbind negb ar_ru]. rewrite Hu.
  destruct (rest_decode S ar verf rest s2 Hg Hd2 Hin2) as (u & s3 & -> & Hu' & Hin3 & Hd3).
  do 2 eexists. split; [done|]. by split.
Qed.

Lemma reply_slow_decode S `{XdrDecoder S} m r m0 r0 ar0 rest s : reply_good m r → reply_blank m0 r0 ar0 → dok 0 s →
  din s = reply_wire m r ++ rest →
  ∃ m' s', replymsg_slow junk leftover S _ XDR_DECODE m0 s = Ret (true, m', s') ∧ same_reply m r m' ∧ din s' = rest ∧ dok 0 s'.
Proof.
  intros (Hru & Hdir & Hx & Hb) (Hru0 & Har0 & Hv0 & Hu0) Hd Hin. unfold reply_wire in Hin. rewrite <-!app_assoc in Hin.
  unfold replymsg_slow. destruct (u_long_decode S (rm_xid m0) _ _ s Hx Hd Hin) as (s1 & -> & Hin1 & Hd1). cbn [rbind negb].
  destruct (enum_decode S (rm_direction m0) REPLY _ s1 ltac:(done) Hd1 Hin1) as (s2 & E2 & Hin2 & Hd2).
  cbn [rm_direction rm_ru]. rewrite E2. cbn [rbind andb]. rewrite Z.eqb_refl. cbn [negb]. unfold rm_reply. cbn [rm_ru].
  rewrite Hru0. cbn [rbind]. unfold xdr_union. unfold body_good in Hb. unfold same_reply.
  destruct (rp_ru r) as [ar|rr]; destruct Hb as [Hst Hg]; rewrite Hst in *.
  - destruct (enum_decode S (rp_stat r0) MSG_ACCEPTED _ s2 ltac:(done) Hd2 Hin2) as (s3 & -> & Hin3 & Hd3). cbn [rbind negb].
    rewrite find_accepted. cbn [snd]. unfold xdr_arm_accepted. rewrite Har0, <-!app_assoc in *.
    destruct (accepted_decode S ar ar0 rest s3 Hg Hv0 Hu0 Hd3 Hin3) as (ar' & s4 & -> & Hsame & Hin4 & Hd4). cbn [rbind].
    do 2 eexists. split; [done|]. split; [by eexists|done].
  - destruct (enum_decode S (rp_stat r0) MSG_DENIED _ s2 ltac:(done) Hd2 Hin2) as (s3 & -> & Hin3 & Hd3). cbn [rbind negb].
    rewrite find_rejected. cbn [snd]. unfold xdr_arm_rejected.
    destruct (rejected_decode S rr (rp_rjct leftover (rp_ru r0)) rest s3 Hg Hd3 Hin3) as (rr' & s4 & -> & Hsame & Hin4 & Hd4).
    cbn [rbind]. do 2 eexists. split; [done|]. split; [by eexists|done].
Qed.

(** What follows the three words that a reply begins with. *)
Definition body_wire (r : reply_body R) : list Z :=
  match rp_ru r with
  | RP_ar ar => verf_wire (ar_verf ar) ++ be32 (ar_stat ar) ++ rest_wire ar
  | RP_dr rr => rejected_wire rr
  end.

Lemma reply_inline_decode S `{XdrInlineDecoder S} m r m0 r0 ar0 rest buf s : reply_good m r → reply_blank m0 r0 ar0 →
  window 12 (reply_wire m r ++ rest) buf s → dok 0 s → din s = body_wire r ++ rest →
  ∃ m' s', replymsg_decode_inline junk leftover S _ _ m0 buf s = Ret (true, m', s') ∧ same_reply m r m' ∧
    din s' = rest ∧ dok 0 s'.
Proof.
  intros (Hru & Hdir & Hx & Hb) (Hru0 & Har0 & Hv0 & Hu0) Hw Hd Hin. unfold reply_wire in Hw. rewrite <-!app_assoc in Hw.
  unfold replymsg_decode_inline.
  destruct (window_long _ _ _ _ _ Hw) as [-> Hw1]; [lia|]. cbn [rbind].
  destruct (window_long _ _ _ _ _ Hw1) as [-> Hw2]; [lia|]. cbn [rbind].
  change (s32 REPLY) with REPLY. rewrite Z.eqb_refl. cbn [negb].
  destruct (window_long _ _ _ _ _ Hw2) as [-> _]; [lia|]. cbn [rbind]. rewrite w32_s32, w32_id by done.
  unfold rm_reply. cbn [rm_ru]. rewrite Hru0. cbn [rbind]. unfold body_good in Hb. unfold body_wire in Hin. unfold same_reply.
  destruct (rp_ru r) as [ar|rr]; destruct Hb as [Hst Hg]; rewrite Hst.
  - change (s32 MSG_ACCEPTED) with MSG_ACCEPTED. rewrite Z.eqb_refl. cbn [negb]. unfold rp_acpt. rewrite Har0. cbn [rbind].
    pose proof Hg as ((Hfl & Hl & Hm) & Hast & _). pose proof (auth_data_len _ (conj Hfl (conj Hl Hm))) as Hdl.
    unfold verf_wire, auth_wire in Hin. rewrite <-!app_assoc in Hin.
    destruct (verf_words S (ar_verf ar0) (oa_flavor (ar_verf ar)) (oa_length (ar_verf ar))
      (auth_data (ar_verf ar) ++ pad (oa_length (ar_verf ar)) ++ be32 (ar_stat ar) ++ rest_wire ar ++ rest) s Hfl) as (s1 & -> & Hin1 & Hd1);
      [unfold in_u32, MAX_AUTH_BYTES in *; lia|done|exact Hin|]. cbn [rbind negb]. rewrite Hv0.
    destruct (verf_copy junk S (oa_flavor (ar_verf ar)) _ _ _ _ s1 Hl Hdl (pad_len _) Hd1 Hin1)
      as (verf & s2 & -> & Hread & _ & Hin2 & Hd2). cbn [rbind negb ar_stat set_verf].
    destruct (enum_decode S (ar_stat ar0) _ _ s2 Hast Hd2 Hin2) as (s3 & -> & Hin3 & Hd3). cbn [rbind negb ar_verf ar_ru set_verf]. rewrite Hu0.
    destruct (rest_decode S ar verf rest s3 Hg Hd3 Hin3) as (u & s4 & -> & Hu' & Hin4 & Hd4). cbn [rbind].
    do 2 eexists. split; [done|]. split; [|done]. eexists. split; [done|]. by split.
  - change (s32 MSG_DENIED) with MSG_DENIED. change (MSG_DENIED =? MSG_ACCEPTED) with false.
    change (MSG_DENIED =? MSG_DENIED) with true. cbn [negb].
    destruct (rejected_decode S rr (rp_rjct leftover (rp_ru r0)) rest s Hg Hd Hin) as (rr' & s1 & -> & Hsame & Hin1 & Hd1).
    cbn [rbind]. do 2 eexists. split; [done|]. split; [by eexists|done].
Qed.

Lemma reply_decode S `{XdrInlineDecoder S} m r m0 r0 ar0 rest s : reply_good m r → reply_blank m0 r0 ar0 → dok 0 s →
  din s = reply_wire m r ++ rest →
  ∃ m' s', xdr_replymsg junk leftover S _ _ XDR_DECODE m0 s = Ret (true, m', s') ∧ same_reply m r m' ∧
    din s' = rest ∧ dok 0 s'.
Proof.
  intros Hg Hb Hd Hin. unfold xdr_replymsg, reply_to_encode. cbn [rbind]. change (3 * BYTES_PER_XDR_UNIT) with 12.
  destruct (inline_window S 12 s Hd) as [->|(buf & s1 & -> & _ & Hin1 & Hd1 & Hwin)]; [lia..|done| |]; cbn [rbind].
  - by apply (reply_slow_decode S m r m0 r0 ar0).
  - apply (reply_inline_decode S m r m0 r0 ar0 rest buf s1 Hg Hb); [|exact Hd1|].
    + by rewrite Hin in Hwin.
    + rewrite Hin1, Hin. unfold reply_wire. rewrite <-!app_assoc. reflexivity.
Qed.

(** ** Any input *)

Definition rest_good (ar : accepted_reply R) : Prop :=
  (ar_stat ar = SUCCESS → ∃ w, ar_ru ar = AR_results w (Some proc) ∧ good proc zero w) ∧
  (ar_stat ar = PROG_MISMATCH → ∃ low high, ar_ru ar = AR_versions low high ∧ in_u32 low ∧ in_u32 high).

(** Success, with an accepted reply that took [n] bytes less than the rest of it. *)
Definition accepted_got {S} `{XdrDecoder S} (n : Z) (ar : accepted_reply R) (s s' : S) : Prop :=
  rest_good ar ∧ dok 0 s' ∧ consumed (n + zlen (rest_wire ar)) s s'.

Lemma rest_total S `{XdrDecoder S} verf stat s : dok 0 s →
  ∃ b u s', xdr_accepted_rest leftover S _ XDR_DECODE (AcceptedReply verf stat (AR_results zero (Some proc))) s =
      Ret (b, AcceptedReply verf stat u, s') ∧ (b = true → accepted_got 0 (AcceptedReply verf stat u) s s').
Proof.
  intros Hd. unfold xdr_accepted_rest, accepted_got, rest_good, rest_wire. cbn [ar_stat ar_ru ar_verf].
  destruct (Z.eqb_spec stat SUCCESS) as [->|Hne].
  - unfold xdr_ar_results. destruct (c_total S s Hd) as (b & w & s1 & -> & _ & Hb). cbn [rbind]. do 3 eexists. split; [done|].
    intros Ht. destruct (Hb Ht) as (Hg & Hd1 & used & Hi & Hu). split; [split; [by exists w|done]|]. split; [done|].
    exists used. split; [done|]. change (SUCCESS =? SUCCESS) with true. lia.
  - destruct (Z.eqb_spec stat PROG_MISMATCH) as [->|Hne2].
    + unfold xdr_ar_vers.
      destruct (word_total S (ar_low leftover (AR_results zero (Some proc))) s Hd)
        as [(s1 & -> & _)|(l & s1 & -> & _ & _ & Hl & Hd1 & Hc1)]; cbn [rbind]; [by do 3 eexists|].
      destruct (word_total S (ar_high leftover (AR_results zero (Some proc))) s1 Hd1)
        as [(s2 & -> & _)|(h & s2 & -> & _ & _ & Hh & Hd2 & Hc2)]; cbn [rbind]; [by do 3 eexists|].
      do 3 eexists. split; [done|]. intros _. split; [split; [done|by do 2 eexists]|]. split; [done|].
      change (0 + zlen (be32 _ ++ be32 _)) with (4 + 4). by eapply consumed_trans.
    + do 3 eexists. split; [done|]. intros _. split; [by split|]. split; [done|]. apply consumed_0.
Qed.

Lemma rejected_total S `{XdrDecoder S} rr0 s : dok 0 s →
  ∃ b rr s', xdr_rejected_reply S _ XDR_DECODE rr0 s = Ret (b, rr, s') ∧
    (b = true → rejected_good rr ∧ dok 0 s' ∧ consumed (zlen (rejected_wire rr)) s s').
Proof.
  intros Hd. unfold xdr_rejected_reply, xdr_enum.
  destruct (word_total S (rj_stat rr0) s Hd) as [(s1 & _ & ->)|(st & s1 & _ & -> & Hst & _ & Hd1 & Hc1)]; cbn [rbind negb];
    [by do 3 eexists|]. cbn [rj_low rj_high].
  destruct (Z.eqb_spec st RPC_MISMATCH) as [->|Hne].
  - destruct (word_total S (rj_low rr0) s1 Hd1) as [(s2 & -> & _)|(l & s2 & -> & _ & _ & Hl & Hd2 & Hc2)]; cbn [rbind negb];
      [by do 3 eexists|].
    destruct (word_total S (rj_high rr0) s2 Hd2) as [(s3 & -> & _)|(h & s3 & -> & _ & _ & Hh & Hd3 & Hc3)]; cbn [rbind];
      [by do 3 eexists|]. do 3 eexists. split; [done|]. intros _. split; [by left|]. split; [done|].
    match goal with |- consumed ?n _ _ => change n with (4 + 4 + 4) end. by repeat (eapply consumed_trans; [|eassumption]).
  - destruct (Z.eqb_spec st AUTH_ERROR) as [->|Hne2]; [|by do 3 eexists].
    destruct (word_total S (rj_why (RejectedReply AUTH_ERROR (rj_low rr0) (rj_high rr0))) s1 Hd1)
      as [(s2 & _ & ->)|(l & s2 & _ & -> & _ & Hl & Hd2 & Hc2)]; cbn [rbind]; [by do 3 eexists|].
    do 3 eexists. split; [done|]. intros _. split; [by right|]. split; [done|].
    match goal with |- consumed ?n _ _ => change n with (4 + 4) end. by eapply consumed_trans.
Qed.

(** What decoding a reply gives when it succeeds. *)
Definition verf_owned (r : reply_body R) : Prop := match rp_ru r with RP_ar ar => oa_owned (ar_verf ar) | RP_dr _ => True end.
Definition reply_got {S} `{XdrDecoder S} (m : rpc_msg R) (s s' : S) : Prop :=
  ∃ r, reply_good m r ∧ verf_owned r ∧ dok 0 s' ∧ consumed (zlen (reply_wire m r)) s s'.

Lemma verf_wire_len oa : auth_good oa → zlen (verf_wire oa) = 8 + oa_length oa + rndup_of (oa_length oa).
Proof.
  intros Hg. pose proof (auth_data_len oa Hg). pose proof (pad_len (oa_length oa)). unfold verf_wire, auth_wire.
  rewrite !length_app. change (length (be32 ?x)) with 4%nat. lia.
Qed.

Lemma accepted_total S `{XdrDecoder S} ar0 s : oa_base (ar_verf ar0) = Own NULL →
  ar_ru ar0 = AR_results zero (Some proc) → dok 0 s →
  ∃ b ar s', xdr_accepted_reply junk leftover S _ XDR_DECODE ar0 s = Ret (b, ar, s') ∧
    (b = true → accepted_good ar ∧ oa_owned (ar_verf ar) ∧ dok 0 s' ∧
       consumed (zlen (verf_wire (ar_verf ar)) + 4 + zlen (rest_wire ar)) s s').
Proof.
  intros Hb Hu Hd. unfold xdr_accepted_reply.
  destruct (auth_total junk S (ar_verf ar0) s Hb Hd) as (b & verf & s1 & -> & Hv). cbn [rbind].
  destruct b; cbn [negb]; [|by do 3 eexists]. destruct (Hv eq_refl) as ((Hg & Hd1 & Hc1) & How). unfold xdr_enum. cbn [ar_stat].
  destruct (word_total S (ar_stat ar0) s1 Hd1) as [(s2 & _ & ->)|(st & s2 & _ & -> & Hst & _ & Hd2 & Hc2)]; cbn [rbind negb];
    [by do 3 eexists|]. cbn [ar_ru]. rewrite Hu.
  destruct (rest_total S verf st s2 Hd2) as (b & u & s3 & -> & Hr). do 3 eexists. split; [done|]. intros Ht.
  destruct (Hr Ht) as ([Hr1 Hr2] & Hd3 & Hc3). split; [by split|]. split; [done|]. split; [done|].
  cbn [ar_verf]. rewrite verf_wire_len by done. rewrite Z.add_0_l in Hc3. by repeat (eapply consumed_trans; [|eassumption]).
Qed.

Lemma reply_wire_len m r : zlen (reply_wire m r) = 12 + zlen (body_wire r).
Proof. unfold reply_wire, body_wire. rewrite !length_app. change (length (be32 ?x)) with 4%nat. lia. Qed.

Lemma reply_slow_total S `{XdrDecoder S} m0 r0 ar0 s : reply_blank m0 r0 ar0 → dok 0 s →
  ∃ b m' s', replymsg_slow junk leftover S _ XDR_DECODE m0 s = Ret (b, m', s') ∧ (b = true → reply_got m' s s').
Proof.
  intros (Hru0 & Har0 & Hv0 & Hu0) Hd. unfold replymsg_slow, xdr_enum.
  destruct (word_total S (rm_xid m0) s Hd) as [(s1 & -> & _)|(x & s1 & -> & _ & _ & Hx & Hd1 & Hc1)]; cbn [rbind negb];
    [by do 3 eexists|]. cbn [rm_direction rm_ru].
  destruct (word_total S (rm_direction m0) s1 Hd1) as [(s2 & _ & ->)|(dir & s2 & _ & -> & _ & _ & Hd2 & Hc2)];
    cbn [rbind negb andb]; [by do 3 eexists|].
  destruct (Z.eqb_spec dir REPLY) as [->|Hne]; cbn [negb]; [|by do 3 eexists]. unfold rm_reply. cbn [rm_ru]. rewrite Hru0.
  cbn [rbind]. unfold xdr_union, xdr_enum.
  destruct (word_total S (rp_stat r0) s2 Hd2) as [(s3 & _ & ->)|(st & s3 & _ & -> & Hst & _ & Hd3 & Hc3)]; cbn [rbind negb];
    [by do 3 eexists|]. unfold reply_got.
  destruct (decide (st = MSG_ACCEPTED)) as [->|Hne]; [|destruct (decide (st = MSG_DENIED)) as [->|Hne2]].
  - rewrite find_accepted. cbn [snd]. unfold xdr_arm_accepted. rewrite Har0.
    destruct (accepted_total S ar0 s3 Hv0 Hu0 Hd3) as (b & ar & s4 & -> & Ha). cbn [rbind]. do 3 eexists. split; [done|].
    intros Ht. destruct (Ha Ht) as (Hg & How & Hd4 & Hc4). eexists. split; [by split|]. split; [done|]. split; [done|].
    rewrite reply_wire_len. unfold body_wire. cbn [rp_ru]. rewrite !length_app. change (length (be32 _)) with 4%nat.
    replace (12 + _) with (4 + 4 + 4 + (zlen (verf_wire (ar_verf ar)) + 4 + zlen (rest_wire ar))) by lia.
    by repeat (eapply consumed_trans; [|eassumption]).
  - rewrite find_rejected. cbn [snd]. unfold xdr_arm_rejected.
    destruct (rejected_total S (rp_rjct leftover (rp_ru r0)) s3 Hd3) as (b & rr & s4 & -> & Ha). cbn [rbind]. do 3 eexists.
    split; [done|]. intros Ht. destruct (Ha Ht) as (Hg & Hd4 & Hc4). eexists. split; [by split|]. split; [done|]. split; [done|].
    rewrite reply_wire_len. unfold body_wire. cbn [rp_ru]. replace 12 with (4 + 4 + 4) by done.
    by repeat (eapply consumed_trans; [|eassumption]).
  - assert (List.find (λ c, c.1 =? st) (reply_dscrm (R := R) junk leftover) = None) as ->; [|by do 3 eexists].
    unfold reply_dscrm. cbn [List.find fst]. by rewrite !(proj2 (Z.eqb_neq _ _)) by congruence.
Qed.

Lemma reply_inline_total S `{XdrInlineDecoder S} m0 r0 ar0 buf l s0 s : reply_blank m0 r0 ar0 → window 12 l buf s →
  dok 0 s → consumed 12 s0 s →
  ∃ b m' s', replymsg_decode_inline junk leftover S _ _ m0 buf s = Ret (b, m', s') ∧ (b = true → reply_got m' s0 s').
Proof.
  intros (Hru0 & Har0 & Hv0 & Hu0) Hw Hd Hcons. unfold replymsg_decode_inline.
  destruct (window_get _ _ _ _ Hw) as [-> Hw1]; [lia|]. cbn [rbind].
  destruct (window_get _ _ _ _ Hw1) as [-> Hw2]; [lia|]. cbn [rbind].
  destruct (Z.eqb_spec (s32 (unbe32 (take 4 (drop 4 l)))) REPLY) as [->|Hne]; cbn [negb]; [|by do 3 eexists].
  destruct (window_get _ _ _ _ Hw2) as [-> _]; [lia|]. cbn [rbind]. unfold rm_reply. cbn [rm_ru]. rewrite Hru0. cbn [rbind].
  set (st := s32 _). unfold reply_got.
  destruct (Z.eqb_spec st MSG_ACCEPTED) as [E|Hne]; cbn [negb].
  2:{ destruct (Z.eqb_spec st MSG_DENIED) as [E|Hne2]; [|by do 3 eexists].
      destruct (rejected_total S (rp_rjct leftover (rp_ru r0)) s Hd) as (b & rr & s1 & -> & Ha). cbn [rbind]. do 3 eexists.
      split; [done|]. intros Ht. destruct (Ha Ht) as (Hg & Hd1 & Hc1). eexists.
      split; [split; [done|split; [done|split; [apply w32_range|by split]]]|]. split; [done|]. split; [done|].
      rewrite reply_wire_len. unfold body_wire. cbn [rp_ru]. by eapply consumed_trans. }
  unfold rp_acpt. rewrite Har0. cbn [rbind].
  destruct (verf_words_total S (ar_verf ar0) s Hd) as (b & fl & n & s1 & -> & Hwords). cbn [rbind].
  destruct b; cbn [negb]; [|by do 3 eexists]. destruct (Hwords eq_refl) as (Hfl & Hn & Hd1 & Hc1). rewrite Hv0.
  destruct (verf_copy_total junk S fl n s1 Hfl Hn Hd1) as (b & verf & s2 & -> & Hverf). cbn [rbind].
  destruct b; cbn [negb]; [|by do 3 eexists]. destruct (Hverf eq_refl) as ((Hg & Hd2 & Hc2) & How). unfold xdr_enum.
  cbn [ar_stat ar_verf ar_ru set_verf].
  destruct (word_total S (ar_stat ar0) s2 Hd2) as [(s3 & _ & ->)|(ast & s3 & _ & -> & Hast & _ & Hd3 & Hc3)]; cbn [rbind negb];
    [by do 3 eexists|]. rewrite Hu0.
  destruct (rest_total S verf ast s3 Hd3) as (b & u & s4 & -> & Hr). cbn [rbind]. do 3 eexists. split; [done|]. intros Ht.
  destruct (Hr Ht) as ([Hr1 Hr2] & Hd4 & Hc4). eexists.
  split; [split; [done|split; [done|split; [apply w32_range|split; [done|by split]]]]|]. split; [done|]. split; [done|].
  rewrite reply_wire_len. unfold body_wire. cbn [rp_ru ar_verf ar_stat].
  rewrite !length_app. change (length (be32 _)) with 4%nat. pose proof (verf_wire_len verf Hg).
  replace (12 + _) with (12 + 8 + (0 + oa_length verf + rndup_of (oa_length verf)) + 4 +
    (0 + zlen (rest_wire (AcceptedReply verf ast u)))) by lia.
  by repeat (eapply consumed_trans; [|eassumption]).
Qed.

(** ** The properties *)

(** C34: A reply survives the wire between any two streams, whether or not they let
    [xdr_replymsg] have their buffers, with results of any type that has a codec: encoding puts
    the same bytes either way and succeeds whenever there is room, and decoding them gives the
    same reply and uses them up. *)
Theorem xdr_replymsg_roundtrip (S D : Type) `{XdrInlineEncoder S} `{XdrInlineDecoder D} (m : rpc_msg R)
    (r : reply_body R) (s : S) : reply_good m r → eok s →
  ∃ b s', xdr_replymsg junk leftover S _ _ XDR_ENCODE m s = Ret (b, m, s') ∧ encoded s (reply_wire m r) b s' ∧
    ∀ (d : D) m0 r0 ar0 rest, reply_blank m0 r0 ar0 → dok 0 d → din d = reply_wire m r ++ rest →
      ∃ m' d', xdr_replymsg junk leftover D _ _ XDR_DECODE m0 d = Ret (true, m', d') ∧ same_reply m r m' ∧
        din d' = rest ∧ dok 0 d'.
Proof.
  intros Hg He. destruct (reply_encode S m r s Hg He) as (b & s' & Hr & Hb). exists b, s'. split; [done|]. split; [done|].
  intros d m0 r0 ar0 rest Hb0 Hd Hin. by eapply reply_decode.
Qed.

(** C35: Decoding a reply from any input stays inside the objects, the stream and the storage
    allocated for it.  When it succeeds the reply is well-formed, has used just the bytes it
    takes, and its verifier is in storage of its own: [xdr_rpc_free_verifier] then releases that
    storage if the status is [SUCCESS], and leaves it allocated for every other status, though
    it is there to free any verifier that was allocated. *)
Theorem xdr_replymsg_safe (D F : Type) `{XdrInlineDecoder D} (x : XdrStream F) (m0 : rpc_msg R) r0 ar0 (d : D) (f : F) :
  reply_blank m0 r0 ar0 → dok 0 d →
  ∃ b m' d', xdr_replymsg junk leftover D _ _ XDR_DECODE m0 d = Ret (b, m', d') ∧
    (b = true → ∃ r, reply_good m' r ∧ dok 0 d' ∧ consumed (zlen (reply_wire m' r)) d d' ∧
       match rp_ru r with
       | RP_dr _ => xdr_rpc_free_verifier junk F x m' f = Ret (true, m', f)
       | RP_ar ar => oa_owned (ar_verf ar) ∧
           if ar_stat ar =? SUCCESS then
             ∃ m'' ar'', xdr_rpc_free_verifier junk F x m' f = Ret (true, m'', f) ∧
               rm_ru m'' = RM_rmb (ReplyBody MSG_ACCEPTED (RP_ar ar'')) ∧ oa_base (ar_verf ar'') = Own NULL
           else xdr_rpc_free_verifier junk F x m' f = Ret (true, m', f)
       end).
Proof.
  intros Hb Hd. assert (∃ b m' d', xdr_replymsg junk leftover D _ _ XDR_DECODE m0 d = Ret (b, m', d') ∧
    (b = true → reply_got m' d d')) as (b & m' & d' & Hr & Hgot).
  { unfold xdr_replymsg, reply_to_encode. cbn [rbind]. change (3 * BYTES_PER_XDR_UNIT) with 12.
    destruct (inline_window D 12 d Hd) as [->|(buf & s1 & -> & Hl & Hin1 & Hd1 & Hw)]; [lia..|done| |]; cbn [rbind].
    - by eapply reply_slow_total.
    - apply (reply_inline_total D m0 r0 ar0 buf _ d s1 Hb Hw Hd1). apply consumed_drop; [lia|done]. }
  exists b, m', d'. split; [done|]. intros Ht. destruct (Hgot Ht) as (r & Hg & How & Hd' & Hc). exists r.
  split; [done|]. split; [done|]. split; [done|]. destruct Hg as (Hru & Hdir & _ & Hbody).
  unfold xdr_rpc_free_verifier, rm_reply. rewrite Hdir, Hru. cbn [negb rbind]. change (REPLY =? REPLY) with true. cbn [negb].
  unfold body_good in Hbody. unfold verf_owned in How. destruct r as [st u]. cbn [rp_ru rp_stat] in *.
  destruct u as [ar|rr]; destruct Hbody as [-> Hga]; [|done]. split; [done|]. change (MSG_ACCEPTED =? MSG_ACCEPTED) with true.
  cbn [negb rp_acpt rp_ru rbind]. destruct (ar_stat ar =? SUCCESS); [|done].
  destruct ar as [[fl base n] ast u]. cbn [ar_verf oa_base oa_length] in *.
  destruct How as [[Hbase Hz]|(sp & Hbase & Hl)]; cbn [oa_base oa_length] in *; subst base.
  - do 2 eexists. split; [done|]. split; [cbn [rm_ru]; exact Hru|done].
  - unfold xdr_opaque_auth, xdr_enum, xdr_long, xdr_bytes, xdr_u_int, xdr_u_long.
    cbn [rbind oa_base oa_length oa_flavor negb]. rewrite andb_false_r. unfold mem_free. rewrite (proj2 (Z.eqb_eq _ _) Hl).
    cbn [rbind]. do 2 eexists. split; [done|]. split; [done|done].
Qed.

(** The error that a reply means to its client. *)
Definition reply_error (r : reply_body R) (e : rpc_err) : rpc_err :=
  match rp_ru r with
  | RP_ar ar =>
      match ar_ru ar with
      | AR_versions low high =>
          if ar_stat ar =? PROG_MISMATCH then RpcErr RPC_PROGVERSMISMATCH low high else accepted (ar_stat ar) e
      | _ => accepted (ar_stat ar) e
      end
  | RP_dr rr =>
      if rj_stat rr =? AUTH_ERROR then RpcErr RPC_AUTHERROR (rj_low rr) (re_2 e)
      else RpcErr RPC_FAILED MSG_DENIED RPC_MISMATCH
  end.

(** [_seterr_reply] gives each well-formed reply the status that belongs to it, with the
    versions of a program mismatch and the reason of an authentication error, and
    [RPC_FAILED] for statuses that the protocol does not have; except that a reply denied
    because of the RPC version, [RPC_MISMATCH], is not recognised: the client gets
    [RPC_FAILED] and never [RPC_VERSMISMATCH], and the server's versions are lost. *)
Theorem seterr_reply_spec (m : rpc_msg R) (r : reply_body R) (e : rpc_err) : reply_good m r →
  _seterr_reply leftover m e = Ret (reply_error r e) ∧
  (∀ rr, rp_ru r = RP_dr rr → rj_stat rr = RPC_MISMATCH →
     re_status (reply_error r e) = RPC_FAILED ∧ re_status (reply_error r e) ≠ RPC_VERSMISMATCH).
Proof.
  intros (Hru & _ & _ & Hb). split.
  - unfold _seterr_reply, rm_reply. rewrite Hru. cbn [rbind]. unfold body_good in Hb. unfold reply_error.
    destruct r as [st u]. cbn [rp_ru rp_stat] in *. destruct u as [ar|rr]; destruct Hb as [-> Hg].
    + change (MSG_ACCEPTED =? MSG_ACCEPTED) with true. cbn [rp_acpt rp_ru rbind]. destruct Hg as (_ & Hs & Hsuc & Hmis).
      destruct (Z.eqb_spec (ar_stat ar) SUCCESS) as [E|Hne].
      { destruct (Hsuc E) as (w & -> & _). by rewrite E. }
      destruct (Z.eqb_spec (ar_stat ar) PROG_MISMATCH) as [E|Hne2].
      { destruct (Hmis E) as (low & high & -> & _). by rewrite E. }
      assert (accepted (ar_stat ar) e = match ar_ru ar with AR_versions low high => accepted (ar_stat ar) e | _ => accepted (ar_stat ar) e end)
        as <- by by destruct (ar_ru ar).
      unfold accepted. rewrite (proj2 (Z.eqb_neq _ PROG_MISMATCH)), (proj2 (Z.eqb_neq _ SUCCESS)) by done.
      repeat (case_if; [done|]). done.
    + change (MSG_DENIED =? MSG_ACCEPTED) with false. change (MSG_DENIED =? MSG_DENIED) with true. cbn [rp_rjct rp_ru].
      destruct Hg as [(Hst & Hl & _)|(Hst & Hl)]; rewrite Hst; [done|]. cbn. unfold rj_why. by rewrite w32_s32, w32_id.
  - intros rr Hrr Hst. unfold reply_error. rewrite Hrr, Hst. done.
Qed.

(** ** Replies in two parts *)

Definition header_wire (m : rpc_msg R) (ar : accepted_reply R) : list Z :=
  be32 (rm_xid m) ++ be32 REPLY ++ be32 MSG_ACCEPTED ++ verf_wire (ar_verf ar) ++ be32 (ar_stat ar).

Lemma header_inline_encode S `{XdrInlineEncoder S} m r ar s : reply_good m r → rp_ru r = RP_ar ar →
  oa_length (ar_verf ar) `mod` 4 = 0 → eok s →
  (∃ s', x_inline (24 + oa_length (ar_verf ar)) s = Ret (None, s') ∧ s' = s) ∨
  ∃ s', xdr_replymsg_hdr junk S _ _ XDR_ENCODE m s = Ret (true, m, s') ∧ encoded s (header_wire m ar) true s'.
Proof.
  intros (Hru & Hdir & Hx & Hb) Har Hmod He. unfold body_good in Hb. rewrite Har in Hb. destruct Hb as [Hst Hg].
  pose proof Hg as (Hv & _). pose proof Hv as (_ & Hl & _). pose proof (pad_zero_len _ Hmod) as Hpad.
  pose proof (RNDUP_w32 _ Hl) as Hrn. rewrite Hpad, Z.add_0_r in Hrn. pose proof Hl as Hl'. unfold MAX_AUTH_BYTES in Hl'.
  destruct (fill_start (24 + oa_length (ar_verf ar)) s He) as (b & s1 & Hin & Hr); [lia|lia|].
  destruct b as [buf|]; [right|left; by exists s1]. destruct Hr as (old & Hold & Hf).
  unfold xdr_replymsg_hdr, reply_to_encode, rm_reply. rewrite Hru. cbn [rbind]. rewrite Hst, Hdir.
  change ((MSG_ACCEPTED =? MSG_ACCEPTED) && (REPLY =? REPLY)) with true. cbn [rbind rp_acpt]. unfold rp_acpt. rewrite Har. cbn [rbind].
  change (6 * BYTES_PER_XDR_UNIT) with 24. rewrite s32_id by (unfold in_s32; lia). rewrite Hin. cbn [rbind].
  destruct (fill_long _ _ _ _ _ (rm_xid m) Hf) as (s2 & -> & Hf2); [lia|]. cbn [rbind].
  destruct (fill_long _ _ _ _ _ REPLY Hf2) as (s3 & -> & Hf3); [rewrite !length_drop; lia|]. cbn [rbind]. rewrite ?Hst.
  destruct (fill_long _ _ _ _ _ MSG_ACCEPTED Hf3) as (s4 & -> & Hf4); [rewrite !length_drop; lia|]. cbn [rbind].
  destruct (put_auth_ok (λ buf, buf + RNDUP w32 (oa_length (ar_verf ar))) (ar_verf ar) _ _ _ _ _ Hf4 Hv) as (s5 & -> & Hf5);
    [rewrite !length_drop; lia|]. cbn [rbind].
  assert ((if oa_length (ar_verf ar) =? 0 then buf + 4 + 4 + 4 + 8
    else buf + 4 + 4 + 4 + 8 + RNDUP w32 (oa_length (ar_verf ar))) =
    buf + 4 + 4 + 4 + (8 + RNDUP w32 (oa_length (ar_verf ar)))) as ->.
  { destruct (Z.eqb_spec (oa_length (ar_verf ar)) 0) as [->|_]; [change (RNDUP w32 0) with 0|]; lia. }
  destruct (fill_long _ _ _ _ _ (ar_stat ar) Hf5) as (s6 & -> & Hf6); [rewrite !length_drop; lia|]. cbn [rbind].
  exists s6. split; [done|]. apply fill_done in Hf6; [|rewrite !length_drop; lia].
  rewrite Hpad in Hf6. assert (∀ o (l : list Z), slice o 0 l = []) as Hnil by done. rewrite Hnil in Hf6.
  unfold header_wire, verf_wire, pad. rewrite Hpad. rewrite <-!app_assoc in Hf6. exact Hf6.
Qed.

Lemma header_encode S `{XdrInlineEncoder S} m r ar s : reply_good m r → rp_ru r = RP_ar ar →
  oa_length (ar_verf ar) `mod` 4 = 0 → eok s →
  ∃ b s', xdr_replymsg_hdr junk S _ _ XDR_ENCODE m s = Ret (b, m, s') ∧ encoded s (header_wire m ar) b s'.
Proof.
  intros Hg Har Hmod He. destruct (header_inline_encode S m r ar s Hg Har Hmod He) as [(s' & Hin & ->)|(s' & -> & Hb)];
    [|by exists true, s'].
  destruct Hg as (Hru & Hdir & Hx & Hb). unfold body_good in Hb. rewrite Har in Hb. destruct Hb as [Hst Hg].
  pose proof Hg as (Hv & _). pose proof Hv as (_ & Hl & _). unfold MAX_AUTH_BYTES in Hl.
  unfold xdr_replymsg_hdr, reply_to_encode, rm_reply. rewrite Hru. cbn [rbind]. rewrite Hst, Hdir.
  change ((MSG_ACCEPTED =? MSG_ACCEPTED) && (REPLY =? REPLY)) with true. cbn [rbind]. unfold rp_acpt. rewrite Har. cbn [rbind].
  change (6 * BYTES_PER_XDR_UNIT) with 24. rewrite s32_id by (unfold in_s32; lia). rewrite Hin. cbn [rbind]. rewrite ?Hst.
  unfold header_wire, xdr_enum, xdr_u_long, xdr_long. enc_word (rm_xid m) He. enc_word REPLY He. enc_word MSG_ACCEPTED He.
  destruct (auth_encode junk S (ar_verf ar) _ Hv He) as (b & sa & -> & Hb). cbn [rbind].
  destruct b; cbn [negb]; [|by apply encoded_stop]. apply (encoded_step _ _ _ _ _ _ Hb). apply encoded_ok in Hb as He2.
  destruct (enc_long (ar_stat ar) _ He2) as (b & sb & -> & Hb2). cbn [rbind]. by apply encoded_last.
Qed.

(** A server that answers in two parts, [xdr_replymsg_hdr] and then [xdr_replymsg_body], puts the
    same bytes as [xdr_replymsg] for a successful reply, provided that the length of the
    verifier is a multiple of four: the header asks for the buffer with the length that is not
    rounded up, and for any other length puts the status behind what it has asked for. *)
Theorem xdr_replymsg_in_parts (S : Type) `{XdrInlineEncoder S} (m : rpc_msg R) (r : reply_body R)
    (ar : accepted_reply R) (s : S) : reply_good m r → rp_ru r = RP_ar ar → ar_stat ar = SUCCESS →
  oa_length (ar_verf ar) `mod` 4 = 0 → eok s →
  ∃ b s1, xdr_replymsg_hdr junk S _ _ XDR_ENCODE m s = Ret (b, m, s1) ∧
    (b = false → encoded s (reply_wire m r) false s1) ∧
    (b = true → ∃ b' s2, xdr_replymsg_body S _ XDR_ENCODE m s1 = Ret (b', m, s2) ∧ encoded s (reply_wire m r) b' s2).
Proof.
  intros Hg Har Hsuc Hmod He. destruct (header_encode S m r ar s Hg Har Hmod He) as (b & s1 & -> & Hb). exists b, s1.
  destruct Hg as (Hru & Hdir & Hx & Hbody). unfold body_good in Hbody. rewrite Har in Hbody.
  destruct Hbody as [Hst (Hv & _ & Hs & _)]. destruct (Hs Hsuc) as (w & Hu & Hw).
  assert (reply_wire m r = header_wire m ar ++ wire proc zero w) as ->.
  { unfold reply_wire, header_wire. rewrite Har, Hst. unfold rest_wire. rewrite Hsuc, Hu. cbn [Z.eqb].
    change (SUCCESS =? SUCCESS) with true. by rewrite <-!app_assoc. }
  split; [done|]. split; [intros ->; by apply encoded_fail|]. intros ->.
  unfold xdr_replymsg_body, rm_reply. rewrite Hru. cbn [rbind]. unfold rp_acpt. rewrite Har. cbn [rbind]. rewrite Hu.
  unfold xdr_ar_results. destruct (c_encode S s1 w Hw (encoded_ok _ _ _ Hb)) as (b & s2 & -> & Hb2). cbn [rbind].
  exists b, s2. split; [|by eapply encoded_seq].
  destruct m as [xid dir ru], r as [st u], ar as [v ast au]. cbn [rm_ru rp_ru rp_stat ar_ru] in *. by subst.
Qed.
End Reply.

(** ** Witnesses *)

Definition ex_accepted (sp : list Z) : accepted_reply Z :=
  AcceptedReply (OpaqueAuth 2 (Own (At sp)) (zlen sp)) SUCCESS (AR_results 1995 (Some xdr_long)).
Definition ex_body (sp : list Z) : reply_body Z := ReplyBody MSG_ACCEPTED (RP_ar (ex_accepted sp)).
Definition ex_reply (sp : list Z) : rpc_msg Z := RpcMsg 77 REPLY (RM_rmb (ex_body sp)).
Definition blank_accepted : accepted_reply Z := AcceptedReply _null_auth 0 (AR_results 0 (Some xdr_long)).
Definition blank_body : reply_body Z := ReplyBody 0 (RP_ar blank_accepted).
Definition blank_reply : rpc_msg Z := RpcMsg 0 0 (RM_rmb blank_body).
Definition ex_denied : reply_body Z := ReplyBody MSG_DENIED (RP_dr (RejectedReply RPC_MISMATCH 2 3)).

Lemma ex_reply_good sp : zlen sp ≤ 400 → reply_good xdr_long 0 (ex_reply sp) (ex_body sp).
Proof.
  intros Hsp. split; [done|]. split; [done|]. split; [done|]. split; [done|]. split; [|split; [done|split]].
  - split; [done|]. simpl. split; [unfold MAX_AUTH_BYTES; lia|]. intros _. exists sp. split; [done|lia].
  - intros _. exists 1995. split; [done|]. done.
  - done.
Qed.

Lemma blank_ok : reply_blank xdr_long 0 blank_reply blank_body blank_accepted.
Proof. by split_and!. Qed.

Lemma xdr_replymsg_roundtrip_witness :
  ∃ s', xdr_replymsg (λ _, 0) (λ _, 0) xdrmem _ _ XDR_ENCODE (ex_reply [4; 5; 6]) (xdrmem_create (replicate 32 7)) =
      Ret (true, ex_reply [4; 5; 6], s') ∧ mem_out s' = reply_wire (λ _, 0) xdr_long 0 (ex_reply [4; 5; 6]) (ex_body [4; 5; 6]) ∧
    ∃ m' d', xdr_replymsg (λ _, 0) (λ _, 0) xdrmem _ _ XDR_DECODE blank_reply (xdrmem_create (mem_out s' ++ [9])) =
      Ret (true, m', d') ∧ same_reply xdr_long 0 (ex_reply [4; 5; 6]) (ex_body [4; 5; 6]) m' ∧ mem_in d' = [9].
Proof.
  destruct (xdr_replymsg_roundtrip (λ _, 0) (λ _, 0) xdr_long 0 xdrmem xdrmem (ex_reply [4; 5; 6]) (ex_body [4; 5; 6])
    (xdrmem_create (replicate 32 7))) as (b & s' & Hr & [Hroom Hout] & Hd); [by apply ex_reply_good|by apply mem_create_ok|].
  assert (b = true) as -> by (apply Hroom; vm_compute; congruence).
  assert (mem_out s' = reply_wire (λ _, 0) xdr_long 0 (ex_reply [4; 5; 6]) (ex_body [4; 5; 6])) as Ho
    by by destruct (Hout eq_refl).
  exists s'. split; [exact Hr|]. split; [exact Ho|]. rewrite Ho.
  destruct (Hd (xdrmem_create (reply_wire (λ _, 0) xdr_long 0 (ex_reply [4; 5; 6]) (ex_body [4; 5; 6]) ++ [9]))
    blank_reply blank_body blank_accepted [9]) as (m' & d' & Hr' & Hs & Hin & _);
    [apply blank_ok|by apply mem_create_ok|apply mem_create_in|].
  exists m', d'. split; [exact Hr'|]. split; [exact Hs|exact Hin].
Defined.

Lemma xdr_replymsg_safe_witness :
  ∃ b m' d', xdr_replymsg (λ _, 0) (λ _, 0) xdrmem _ _ XDR_DECODE blank_reply
      (xdrmem_create [0; 0; 0; 1; 0; 0; 0; 1; 0; 0; 0; 0; 0; 0; 0; 0; 0; 0; 2]) = Ret (b, m', d').
Proof.
  destruct (xdr_replymsg_safe (λ _, 0) (λ _, 0) xdr_long 0 xdrmem xdrmem _ blank_reply blank_body blank_accepted
    (xdrmem_create [0; 0; 0; 1; 0; 0; 0; 1; 0; 0; 0; 0; 0; 0; 0; 0; 0; 0; 2]) (xdrmem_create []))
    as (b & m' & d' & Hr & _); [apply blank_ok|by apply mem_create_ok|]. by exists b, m', d'.
Defined.

Lemma seterr_reply_spec_witness :
  _seterr_reply (λ _, 0) (RpcMsg 77 REPLY (RM_rmb ex_denied)) (RpcErr 0 0 0) = Ret (RpcErr RPC_FAILED MSG_DENIED RPC_MISMATCH).
Proof.
  refine (proj1 (seterr_reply_spec (λ _, 0) xdr_long 0 (RpcMsg 77 REPLY (RM_rmb ex_denied)) ex_denied (RpcErr 0 0 0) _)).
  split; [done|]. split; [done|]. split; [done|]. split; [done|]. by left.
Defined.

Lemma xdr_replymsg_in_parts_witness :
  ∃ b s1, xdr_replymsg_hdr (λ _, 0) xdrmem _ _ XDR_ENCODE (ex_reply [3; 4; 5; 6]) (xdrmem_create (replicate 32 7)) =
      Ret (b, ex_reply [3; 4; 5; 6], s1) ∧
    (b = true → ∃ b' s2, xdr_replymsg_body xdrmem _ XDR_ENCODE (ex_reply [3; 4; 5; 6]) s1 = Ret (b', ex_reply [3; 4; 5; 6], s2)).
Proof.
  destruct (xdr_replymsg_in_parts (λ _, 0) (λ _, 0) xdr_long 0 xdrmem (ex_reply [3; 4; 5; 6]) (ex_body [3; 4; 5; 6])
    (ex_accepted [3; 4; 5; 6]) (xdrmem_create (replicate 32 7))) as (b & s1 & Hr & _ & Hb);
    [by apply ex_reply_good|done|done|done|by apply mem_create_ok|].
  exists b, s1. split; [exact Hr|]. intros Ht. destruct (Hb Ht) as (b' & s2 & Hr2 & _). by exists b', s2.
Defined.
