(* ===== verification/Dispq.v ===== *)
(** * Dispatch queues ([uts/common/disp/disp.c], [sys/disp.h])

    A dispatch queue has a list of runnable threads for every priority, linked
    through the threads, and a bitmap of the lists that are not empty.  This file
    has the operations on one queue and the memory of threads that its lists run
    through; [Disp] has the processors. *)

From S2P Require Import Prelude Bitmap.

(** ** Threads *)

(** A dispatch queue: that of a processor, or that of a partition for threads that preempt
    the kernel. *)
Inductive dqid := CPUQ (cp : Z) | KPQ (cpp : Z).
#[global] Instance dqid_eq_dec : EqDecision dqid.
Proof. solve_decision. Defined.

Inductive tstate := TS_FREE | TS_SLEEP | TS_RUN | TS_ONPROC | TS_ZOMB | TS_STOPPED.
#[global] Instance tstate_eq_dec : EqDecision tstate.
Proof. solve_decision. Defined.

(** The lock that protects a thread: that of the queue it is on, for one. *)
Inductive tlock := disp_lock (q : dqid) | transition_lock | swapped_lock | cpu_thread_lock (cp : Z) | other_lock.

Definition TS_LOAD : Z := 0x1.
Definition TS_DONT_SWAP : Z := 0x2.
Definition TS_ON_SWAPQ : Z := 0x8.

(** Pointers to threads and to processors are numbers. *)
Record kthread := Kthread {
  t_link : option Z;
  t_pri : Z;
  t_epri : Z;
  t_state : tstate;
  t_schedflag : Z;
  t_bound_cpu : option Z;
  t_cpu : Z;
  t_cpupart : Z;
  t_disp_queue : option dqid;
  t_lockp : tlock;
  t_disp_time : Z;
  t_bind_cpu : option Z;
  t_affinitycnt : Z;
  t_astflag : Z
}.

Abbreviation threads := (gmap Z kthread).

Definition INHERITED (t : kthread) : bool := negb (t_epri t =? 0).
Definition DISP_PRIO (t : kthread) : Z := if INHERITED t then t_epri t else t_pri t.

Definition set_link (v : option Z) (t : kthread) : kthread :=
  Kthread v (t_pri t) (t_epri t) (t_state t) (t_schedflag t) (t_bound_cpu t) (t_cpu t) (t_cpupart t)
    (t_disp_queue t) (t_lockp t) (t_disp_time t)
    (t_bind_cpu t) (t_affinitycnt t) (t_astflag t).
Definition THREAD_SET_STATE (s : tstate) (lp : tlock) (t : kthread) : kthread :=
  Kthread (t_link t) (t_pri t) (t_epri t) s (t_schedflag t) (t_bound_cpu t) (t_cpu t) (t_cpupart t)
    (t_disp_queue t) lp (t_disp_time t)
    (t_bind_cpu t) (t_affinitycnt t) (t_astflag t).
Definition THREAD_RUN (lp : tlock) (t : kthread) : kthread := THREAD_SET_STATE TS_RUN lp t.
Definition thread_transition (t : kthread) : kthread := THREAD_SET_STATE (t_state t) transition_lock t.
Definition set_disp_queue (q : dqid) (t : kthread) : kthread :=
  Kthread (t_link t) (t_pri t) (t_epri t) (t_state t) (t_schedflag t) (t_bound_cpu t) (t_cpu t) (t_cpupart t)
    (Some q) (t_lockp t) (t_disp_time t)
    (t_bind_cpu t) (t_affinitycnt t) (t_astflag t).
Definition set_schedflag (f : Z) (t : kthread) : kthread :=
  Kthread (t_link t) (t_pri t) (t_epri t) (t_state t) f (t_bound_cpu t) (t_cpu t) (t_cpupart t)
    (t_disp_queue t) (t_lockp t) (t_disp_time t)
    (t_bind_cpu t) (t_affinitycnt t) (t_astflag t).

(** [(t_schedflag & (TS_LOAD | TS_ON_SWAPQ)) == TS_LOAD] *)
Definition loaded (t : kthread) : bool := Z.land (t_schedflag t) (Z.lor TS_LOAD TS_ON_SWAPQ) =? TS_LOAD.

Definition tget (th : threads) (t : Z) : run kthread := match th !! t with Some k => Ret k | None => Fault end.
Definition tmod (f : kthread → kthread) (t : Z) (th : threads) : run threads :=
  let* k := tget th t in Ret (<[t := f k]> th).

(** ** Queues *)

Record dispq := Dispq { dq_first : option Z; dq_last : option Z; dq_sruncnt : Z }.

(** [disp_npri] is the length of [disp_q]. *)
Record disp_t := Disp {
  disp_q : list dispq;
  disp_qactmap : list Z;
  disp_maxrunpri : Z;
  disp_max_unbound_pri : Z;
  disp_nrunnable : Z
}.

(** [disp_cpu_init]: a queue of [npri] priorities. *)
Definition disp_cpu_init (npri : Z) : disp_t :=
  Disp (replicate (Z.to_nat npri) (Dispq None None 0)) (replicate (Z.to_nat (npri `div` BT_NBIPUL + 1)) 0) (-1) (-1) 0.

Definition set_dispq (tpri : Z) (dq : dispq) (dp : disp_t) : disp_t :=
  Disp (<[Z.to_nat tpri := dq]> (disp_q dp)) (disp_qactmap dp) (disp_maxrunpri dp) (disp_max_unbound_pri dp)
    (disp_nrunnable dp).
Definition set_actmap (m : list Z) (dp : disp_t) : disp_t :=
  Disp (disp_q dp) m (disp_maxrunpri dp) (disp_max_unbound_pri dp) (disp_nrunnable dp).
Definition set_maxrunpri (p : Z) (dp : disp_t) : disp_t :=
  Disp (disp_q dp) (disp_qactmap dp) p (disp_max_unbound_pri dp) (disp_nrunnable dp).
Definition set_max_unbound (p : Z) (dp : disp_t) : disp_t :=
  Disp (disp_q dp) (disp_qactmap dp) (disp_maxrunpri dp) p (disp_nrunnable dp).
Definition set_nrunnable (n : Z) (dp : disp_t) : disp_t :=
  Disp (disp_q dp) (disp_qactmap dp) (disp_maxrunpri dp) (disp_max_unbound_pri dp) n.

(** ** Putting a thread on a queue *)

(** On the list of a priority, for [setbackdq], for [setfrontdq] and [setkpdq (tp, SETKP_FRONT)],
    and for [setkpdq (tp, SETKP_BACK)], which sets the link only behind another thread. *)
Definition link_behind (tp : Z) (dq : dispq) (th : threads) : run (dispq * threads) :=
  match dq_last dq with
  | Some last =>
      let* th := tmod (set_link (Some tp)) last th in
      Ret (Dispq (dq_first dq) (Some tp) (dq_sruncnt dq + 1), th)
  | None => Fault
  end.

Definition link_back (tp : Z) (dq : dispq) (th : threads) : run (dispq * threads) :=
  let* th := tmod (set_link None) tp th in
  if negb (dq_sruncnt dq =? 0) then link_behind tp dq th
  else Ret (Dispq (Some tp) (Some tp) (dq_sruncnt dq + 1), th).

Definition link_front (tp : Z) (dq : dispq) (th : threads) : run (dispq * threads) :=
  if negb (dq_sruncnt dq =? 0) then
    let* th := tmod (set_link (dq_first dq)) tp th in
    Ret (Dispq (Some tp) (dq_last dq) (dq_sruncnt dq + 1), th)
  else
    let* th := tmod (set_link None) tp th in Ret (Dispq (Some tp) (Some tp) (dq_sruncnt dq + 1), th).

Definition link_kp_back (tp : Z) (dq : dispq) (th : threads) : run (dispq * threads) :=
  if negb (dq_sruncnt dq =? 0) then
    let* th := tmod (set_link None) tp th in link_behind tp dq th
  else Ret (Dispq (Some tp) (Some tp) (dq_sruncnt dq + 1), th).

(** On queue [q]; also whether the list was empty. *)
Definition disp_enq (link : Z → dispq → threads → run (dispq * threads)) (q : dqid) (tp tpri : Z)
    (th : threads) (dp : disp_t) : run (threads * disp_t * bool) :=
  let* th := tmod (THREAD_RUN (disp_lock q)) tp th in
  let* th := tmod (set_disp_queue q) tp th in
  let* dq := zget (disp_q dp) tpri in
  let dp := set_nrunnable (disp_nrunnable dp + 1) dp in
  let* (dq', th) := link tp dq th in
  let dp := set_dispq tpri dq' dp in
  if negb (dq_sruncnt dq =? 0) then Ret (th, dp, false)
  else
    let* m := BT_SET (disp_qactmap dp) tpri in
    Ret (th, set_actmap m dp, true).

(** The end of [setbackdq] and [setfrontdq]: the queue of a processor; also whether
    [cpu_resched] is called. *)
Definition cpu_enq (link : Z → dispq → threads → run (dispq * threads)) (q : dqid) (tp tpri : Z)
    (th : threads) (dp : disp_t) : run (threads * disp_t * bool) :=
  let* (th, dp, was_empty) := disp_enq link q tp tpri th dp in
  let better := was_empty && (disp_maxrunpri dp <? tpri) in
  let dp := if better then set_maxrunpri tpri dp else dp in
  let* k := tget th tp in
  let dp :=
    if bool_decide (t_bound_cpu k = None) && (disp_max_unbound_pri dp <? tpri) then set_max_unbound tpri dp
    else dp in
  Ret (th, dp, better).

(** The beginning of [setkpdq]: the queue of a partition. *)
Definition kp_enq (link : Z → dispq → threads → run (dispq * threads)) (q : dqid) (tp tpri : Z)
    (th : threads) (dp : disp_t) : run (threads * disp_t) :=
  let* (th, dp, was_empty) := disp_enq link q tp tpri th dp in
  if was_empty then
    let dp := if disp_max_unbound_pri dp <? tpri then set_max_unbound tpri dp else dp in
    Ret (th, if disp_maxrunpri dp <? tpri then set_maxrunpri tpri dp else dp)
  else Ret (th, dp).

(** ** Taking a thread off *)

(** The list of [tpri] has become empty. *)
Definition clear_active (tpri : Z) (dp : disp_t) : run disp_t :=
  let* m := BT_CLEAR (disp_qactmap dp) tpri in Ret (set_actmap m dp).

(** [disp_maxrunpri] is computed again, from the word of [pri] downwards. *)
Definition recompute_max (pri : Z) (dp : disp_t) : run disp_t :=
  let* ipri := bt_gethighbit (disp_qactmap dp) (Z.to_nat (Z.shiftr pri BT_ULSHIFT)) in
  let dp := if ipri <? disp_max_unbound_pri dp then set_max_unbound ipri dp else dp in
  Ret (set_maxrunpri ipri dp).

(** The search of [dispdeq]: the thread before [tp], if any.  A list has no more threads
    than there are. *)
Fixpoint dispdeq_find (fuel : nat) (th : threads) (tp : Z) (trp rp : option Z) : run (option Z) :=
  match fuel with
  | O => Fault
  | S fuel =>
      match rp with
      | None => Panic
      | Some r =>
          if r =? tp then Ret trp
          else let* k := tget th r in dispdeq_find fuel th tp (Some r) (t_link k)
      end
  end.

(** The rest of [dispdeq], on the queue that the thread says it is on. *)
Definition dispdeq_from (tp : Z) (th : threads) (dp : disp_t) : run (threads * disp_t) :=
  let* k := tget th tp in
  let tpri := DISP_PRIO k in
  let* dq := zget (disp_q dp) tpri in
  let* trp := dispdeq_find (S (size th)) th tp None (dq_first dq) in
  let* (first, th) :=
    match trp with
    | None => Ret (t_link k, th)
    | Some r => let* th := tmod (set_link (t_link k)) r th in Ret (dq_first dq, th)
    end in
  let last := match t_link k with None => trp | Some _ => dq_last dq end in
  let dp := set_nrunnable (disp_nrunnable dp - 1) dp in
  let dp := set_dispq tpri (Dispq first last (dq_sruncnt dq - 1)) dp in
  let* dp :=
    if dq_sruncnt dq - 1 =? 0 then
      let* dp := clear_active tpri dp in
      if disp_nrunnable dp =? 0 then Ret (set_maxrunpri (-1) (set_max_unbound (-1) dp))
      else if tpri =? disp_maxrunpri dp then recompute_max tpri dp
      else Ret dp
    else Ret dp in
  let* th := tmod (set_link None) tp th in
  let* th := tmod thread_transition tp th in
  Ret (th, dp).

(** The part of [disp] that takes the first thread of the highest list. *)
Definition disp_take (th : threads) (dp : disp_t) : run (Z * threads * disp_t) :=
  let pri := disp_maxrunpri dp in
  let* dq := zget (disp_q dp) pri in
  match dq_first dq with
  | None => Fault
  | Some tp =>
      let* k := tget th tp in
      let dp := set_nrunnable (disp_nrunnable dp - 1) dp in
      match t_link k with
      | None =>
          let dp := set_dispq pri (Dispq None None (dq_sruncnt dq - 1)) dp in
          let* dp := clear_active pri dp in
          let* dp :=
            if disp_nrunnable dp =? 0 then Ret (set_maxrunpri (-1) (set_max_unbound (-1) dp))
            else recompute_max pri dp in
          Ret (tp, th, dp)
      | Some next =>
          let dp := set_dispq pri (Dispq (Some next) (dq_last dq) (dq_sruncnt dq - 1)) dp in
          let* th := tmod (set_link None) tp th in Ret (tp, th, dp)
      end
  end.

(** ** Threads that any processor may run *)

(** The first thread of a list that is not bound. *)
Fixpoint first_unbound (fuel : nat) (th : threads) (tp : option Z) : run (option Z) :=
  match fuel with
  | O => Fault
  | S fuel =>
      match tp with
      | None => Ret None
      | Some t =>
          let* k := tget th t in
          match t_bound_cpu k with
          | None => Ret (Some t)
          | Some _ => first_unbound fuel th (t_link k)
          end
      end
  end.

(** The loop of [disp_fix_unbound_pri]: the next priority below [pri] whose list has an unbound
    thread, or -1.  [pri] decreases. *)
Fixpoint fix_unbound (fuel : nat) (th : threads) (dp : disp_t) (pri : Z) : run Z :=
  match fuel with
  | O => Fault
  | S fuel =>
      let wx := Z.shiftr pri BT_ULSHIFT in
      let* w := zget (disp_qactmap dp) wx in
      let mapword := Z.land w (BT_BIW pri - 1) in
      let* pri :=
        if negb (mapword =? 0) then Ret (Z.shiftl wx BT_ULSHIFT + highbit mapword - 1)
        else if 0 <? wx then bt_gethighbit (disp_qactmap dp) (Z.to_nat (wx - 1))
        else Ret (-1) in
      if pri <? 0 then Ret pri
      else
        let* dq := zget (disp_q dp) pri in
        let* tp := first_unbound (S (size th)) th (dq_first dq) in
        match tp with
        | None => fix_unbound fuel th dp pri
        | Some _ => Ret pri
        end
  end.

Definition disp_fix_unbound_pri (th : threads) (dp : disp_t) (pri : Z) : run disp_t :=
  let* pri := fix_unbound (S (length (disp_q dp))) th dp pri in
  Ret (if negb (disp_max_unbound_pri dp =? pri) then set_max_unbound pri dp else dp).

(** [disp_getbest], up to the thread's being set up on the processor. *)
Definition disp_getbest_from (th : threads) (dp : disp_t) : run (option Z * threads * disp_t) :=
  let pri := disp_max_unbound_pri dp in
  if pri =? -1 then Ret (None, th, dp)
  else
    let* dq := zget (disp_q dp) pri in
    let* tp := first_unbound (S (size th)) th (dq_first dq) in
    match tp with
    | None => let* dp := disp_fix_unbound_pri th dp pri in Ret (None, th, dp)
    | Some t => let* (th, dp) := dispdeq_from t th dp in Ret (Some t, th, dp)
    end.
