(* ===== verification/DispqOps.v ===== *)
(** * What the operations on a dispatch queue do

    The lists of a queue, read off the links, are the abstract state: an
    operation puts a thread at an end of a list or takes one away.  The invariant
    says that counts, bitmap and priorities agree with the lists. *)

From S2P Require Import Prelude Bitmap Dispq.

(** ** Lists *)

(** The threads [l] are linked one after the other from [p] on. *)
Fixpoint linked (th : threads) (p : option Z) (l : list Z) : Prop :=
  match l with
  | [] => p = None
  | t :: l => p = Some t ∧ ∃ k, th !! t = Some k ∧ linked th (t_link k) l
  end.

Lemma linked_frame th th' p l : (∀ t, t ∈ l → th' !! t = th !! t) → linked th p l → linked th' p l.
Proof.
  revert p. induction l as [|t l IH]; intros p Hf; simpl; [done|]. intros (-> & k & Hk & Hl).
  split; [done|]. exists k. split; [rewrite Hf; [done|left]|]. apply IH; [|done]. intros. apply Hf. by right.
Qed.

Lemma linked_inv th p l1 t l2 : linked th p (l1 ++ t :: l2) → ∃ k, th !! t = Some k ∧ linked th (t_link k) l2.
Proof.
  revert p. induction l1 as [|u l1 IH]; intros p; simpl.
  - intros (_ & k & Hk & Hl). by exists k.
  - intros (_ & k & _ & Hl). by eapply IH.
Qed.

Lemma linked_elem th p l t : linked th p l → t ∈ l → is_Some (th !! t).
Proof. intros Hl (l1 & l2 & ->)%list_elem_of_split. apply linked_inv in Hl as (k & -> & _). eauto. Qed.

(** A thread of the list is linked to another one instead. *)
Lemma linked_relink th th' p l1 t l2 l2' k v :
  linked th p (l1 ++ t :: l2) → NoDup (l1 ++ t :: l2) → th !! t = Some k → th' !! t = Some (set_link v k) →
  (∀ u, u ∈ l1 → th' !! u = th !! u) → linked th' v l2' → linked th' p (l1 ++ t :: l2').
Proof.
  intros Hl Hnd Hk Hk' Hf Hl2. revert p Hl Hnd Hf. induction l1 as [|u l1 IH]; intros p Hl Hnd Hf; simpl in *.
  - destruct Hl as (-> & _). split; [done|]. by exists (set_link v k).
  - destruct Hl as (-> & ku & Hu & Hl). apply NoDup_cons in Hnd as [_ Hnd]. split; [done|]. exists ku.
    split; [by rewrite Hf by left|]. apply IH; [done|done|]. intros. apply Hf. by right.
Qed.

(** ** The invariant of a list *)

(** A thread on the list of priority [i] of queue [q]. *)
Definition on_queue (q : dqid) (i : Z) (k : kthread) : Prop :=
  t_state k = TS_RUN ∧ loaded k = true ∧ t_lockp k = disp_lock q ∧ t_disp_queue k = Some q ∧ DISP_PRIO k = i.

Lemma on_queue_link q i v k : on_queue q i k → on_queue q i (set_link v k).
Proof. done. Qed.

Record level_ok (q : dqid) (th : threads) (i : Z) (dq : dispq) (l : list Z) : Prop := {
  lv_linked : linked th (dq_first dq) l;
  lv_last : dq_last dq = last l;
  lv_count : dq_sruncnt dq = zlen l;
  lv_threads t : t ∈ l → ∃ k, th !! t = Some k ∧ on_queue q i k
}.

Lemma level_frame q th th' i dq l : (∀ t, t ∈ l → th' !! t = th !! t) → level_ok q th i dq l → level_ok q th' i dq l.
Proof.
  intros Hf [H1 H2 H3 H4]. split; [by apply (linked_frame th)|done|done|]. intros t Ht. rewrite Hf by done. by apply H4.
Qed.

(** Memories of threads that differ in links only. *)
Definition relinked (th th' : threads) : Prop :=
  ∀ t k, th !! t = Some k → ∃ v, th' !! t = Some (set_link v k).

Lemma set_link_id k : set_link (t_link k) k = k.
Proof. by destruct k. Qed.

Lemma relinked_refl th : relinked th th.
Proof. intros t k Hk. exists (t_link k). by rewrite set_link_id. Qed.

Lemma relinked_trans th th' th'' : relinked th th' → relinked th' th'' → relinked th th''.
Proof. intros H1 H2 t k Hk. destruct (H1 t k Hk) as [v Hv]. destruct (H2 t _ Hv) as [v' Hv']. by exists v'. Qed.

Lemma relinked_insert th t k v : th !! t = Some k → relinked th (<[t := set_link v k]> th).
Proof.
  intros Hk u ku Hu. destruct (decide (u = t)) as [->|Hne].
  - simplify_eq. exists v. apply lookup_insert_eq.
  - exists (t_link ku). rewrite set_link_id. by rewrite lookup_insert_ne.
Qed.

Lemma relinked_threads q i (th th' : threads) (l : list Z) : relinked th th' →
  (∀ t, t ∈ l → ∃ k, th !! t = Some k ∧ on_queue q i k) → ∀ t, t ∈ l → ∃ k, th' !! t = Some k ∧ on_queue q i k.
Proof.
  intros Hr H t Ht. destruct (H t Ht) as (k & Hk & Hq). destruct (Hr t k Hk) as [v Hv].
  exists (set_link v k). split; [done|by apply on_queue_link].
Qed.

(** What linking a thread into a list does: [put] says where it goes, [pre] what it asks of the
    thread. *)
Definition links (link : Z → dispq → threads → run (dispq * threads)) (put : Z → list Z → list Z)
    (pre : kthread → Prop) : Prop :=
  ∀ q th i dq l tp k,
    level_ok q th i dq l → NoDup l → tp ∉ l → th !! tp = Some k → on_queue q i k → pre k →
    ∃ dq' th', link tp dq th = Ret (dq', th') ∧ level_ok q th' i dq' (put tp l) ∧ relinked th th' ∧
      ∀ t, t ∉ l → t ≠ tp → th' !! t = th !! t.

Definition put_back (tp : Z) (l : list Z) : list Z := l ++ [tp].
Definition put_front (tp : Z) (l : list Z) : list Z := tp :: l.

Lemma tmod_ok f t th k : th !! t = Some k → tmod f t th = Ret (<[t := f k]> th).
Proof. intros Hk. unfold tmod, tget. by rewrite Hk. Qed.

(** A thread alone on its list. *)
Lemma level_single q th i tp k : th !! tp = Some k → on_queue q i k → t_link k = None →
  level_ok q th i (Dispq (Some tp) (Some tp) 1) [tp].
Proof.
  intros Hk Hq Hl. split; [|done|done|].
  - split; [done|]. by exists k.
  - intros t ->%list_elem_of_singleton. by exists k.
Qed.

Lemma link_behind_ok q th i dq l tp k :
  level_ok q th i dq l → NoDup l → l ≠ [] → tp ∉ l → th !! tp = Some k → on_queue q i k → t_link k = None →
  ∃ dq' th', link_behind tp dq th = Ret (dq', th') ∧ level_ok q th' i dq' (put_back tp l) ∧ relinked th th' ∧
    ∀ t, t ∉ l → t ≠ tp → th' !! t = th !! t.
Proof.
  intros [H1 H2 H3 H4] Hnd Hne Htp Hk Hq Hlk. destruct (exists_last Hne) as (l' & x & ->).
  unfold link_behind. rewrite H2, last_snoc. destruct (H4 x) as (kx & Hx & Hqx); [apply elem_of_app; right; left|].
  rewrite (tmod_ok _ x th kx) by done. cbn [rbind].
  assert (x ≠ tp) as Hxt by (intros ->; apply Htp, elem_of_app; right; left).
  do 2 eexists. split; [done|]. pose proof (relinked_insert th x kx (Some tp) Hx) as Hr. split; [|split; [done|]].
  - unfold put_back. rewrite <-app_assoc. simpl app. split; cbn [dq_first dq_last dq_sruncnt].
    + apply (linked_relink th _ _ l' x [] [tp] kx (Some tp)); [done|done|done|by rewrite lookup_insert_eq| |].
      * intros u Hu. rewrite lookup_insert_ne; [done|]. intros ->. apply NoDup_app in Hnd as (_ & Hd & _).
        apply (Hd u Hu). left.
      * split; [done|]. exists k. by rewrite lookup_insert_ne.
    + by rewrite last_app.
    + rewrite H3, !length_app. simpl. lia.
    + intros t Ht. apply (relinked_threads q i th _ (l' ++ [x; tp])); [done| |done]. intros u Hu.
      destruct (decide (u = tp)) as [->|Hut]; [by exists k|]. apply H4.
      rewrite elem_of_app, !elem_of_cons, elem_of_nil in Hu. rewrite elem_of_app, elem_of_cons. tauto.
  - intros t Ht _. rewrite lookup_insert_ne; [done|]. intros ->. apply Ht, elem_of_app. right. left.
Qed.

Lemma level_nil q th i dq : level_ok q th i dq [] → dq = Dispq None None 0.
Proof. intros [H1 H2 H3 _]. destruct dq. simpl in *. by subst. Qed.

Lemma level_cons q th i dq t l : level_ok q th i dq (t :: l) → (dq_sruncnt dq =? 0) = false.
Proof. intros [_ _ H3 _]. rewrite H3. apply Z.eqb_neq. simpl. lia. Qed.

(** Changing the link of a thread that is not on the list. *)
Lemma level_new q th i dq l tp k v : level_ok q th i dq l → tp ∉ l → th !! tp = Some k →
  level_ok q (<[tp := set_link v k]> th) i dq l.
Proof.
  intros Hlv Hn Hk. apply (level_frame q th); [|done]. intros t Ht. rewrite lookup_insert_ne; [done|]. by intros ->.
Qed.

Lemma link_back_ok : links link_back put_back (λ _, True).
Proof.
  intros q th i dq l tp k Hlv Hnd Htp Hk Hq _. unfold link_back. rewrite (tmod_ok _ tp th k) by done. cbn [rbind].
  set (th1 := <[tp := set_link None k]> th).
  assert (th1 !! tp = Some (set_link None k)) as Hk1 by apply lookup_insert_eq.
  pose proof (relinked_insert th tp k None Hk) as Hr1.
  assert (∀ t, t ≠ tp → th1 !! t = th !! t) as Hf1 by (intros; by apply lookup_insert_ne).
  destruct l as [|x l].
  - pose proof (level_nil _ _ _ _ Hlv) as ->. simpl. do 2 eexists. split; [done|].
    split; [by eapply level_single|]. split; [done|]. intros; by apply Hf1.
  - rewrite (level_cons _ _ _ _ _ _ Hlv). cbn [negb].
    destruct (link_behind_ok q th1 i dq (x :: l) tp (set_link None k)) as (dq' & th' & -> & Hlv' & Hr & Hf);
      [by apply level_new|done|done|done|done|done|done|].
    do 2 eexists. split; [done|]. split; [done|]. split; [by eapply relinked_trans|].
    intros t Ht Hne. rewrite Hf by done. by apply Hf1.
Qed.

Lemma link_kp_back_ok : links link_kp_back put_back (λ k, t_link k = None).
Proof.
  intros q th i dq l tp k Hlv Hnd Htp Hk Hq Hlk. destruct l as [|x l].
  - unfold link_kp_back. pose proof (level_nil _ _ _ _ Hlv) as ->. simpl. do 2 eexists. split; [done|].
    split; [by eapply level_single|]. split; [apply relinked_refl|done].
  - pose proof (link_back_ok q th i dq (x :: l) tp k Hlv Hnd Htp Hk Hq I) as H.
    unfold link_kp_back, link_back in *. rewrite (level_cons _ _ _ _ _ _ Hlv) in *. exact H.
Qed.

Lemma link_front_ok : links link_front put_front (λ _, True).
Proof.
  intros q th i dq l tp k Hlv Hnd Htp Hk Hq _. unfold link_front. destruct l as [|x l].
  - pose proof (level_nil _ _ _ _ Hlv) as ->. simpl. rewrite (tmod_ok _ tp th k) by done. cbn [rbind].
    do 2 eexists. split; [done|]. split; [by eapply level_single; [apply lookup_insert_eq| |]|].
    split; [by apply relinked_insert|]. intros. by apply lookup_insert_ne.
  - rewrite (level_cons _ _ _ _ _ _ Hlv). cbn [negb]. rewrite (tmod_ok _ tp th k) by done. cbn [rbind].
    do 2 eexists. split; [done|]. split; [|split; [by apply relinked_insert|intros; by apply lookup_insert_ne]].
    destruct (level_new _ _ _ _ _ tp k (dq_first dq) Hlv Htp Hk) as [H1 H2 H3 H4].
    split; cbn [dq_first dq_last dq_sruncnt].
    + split; [done|]. eexists. split; [apply lookup_insert_eq|]. done.
    + rewrite H2. unfold put_front. by destruct l.
    + rewrite H3. unfold put_front. simpl. lia.
    + intros t [->|Ht]%elem_of_cons; [|by apply H4]. eexists. split; [apply lookup_insert_eq|done].
Qed.

(** ** The invariant of a queue *)

(** The list of a priority. *)
Definition lv (ls : list (list Z)) (p : Z) : list Z := ls !!! Z.to_nat p.

(** [r] is the highest priority with a thread, or -1. *)
Definition top_of (ls : list (list Z)) (r : Z) : Prop :=
  (-1 ≤ r ∧ r < zlen ls) ∧ (0 ≤ r → lv ls r ≠ []) ∧ ∀ i, r < i → lv ls i = [].

Record lists_ok (q : dqid) (th : threads) (dqs : list dispq) (ls : list (list Z)) : Prop := {
  ls_len : length dqs = length ls;
  ls_level i dq : 0 ≤ i → dqs !! Z.to_nat i = Some dq → level_ok q th i dq (lv ls i);
  ls_nodup : NoDup (concat ls)
}.

Record counters_ok (dp : disp_t) (ls : list (list Z)) : Prop := {
  co_map : bitmap_ok (disp_qactmap dp) (zlen ls);
  co_bits i : 0 ≤ i → map_bit (disp_qactmap dp) i = bool_decide (lv ls i ≠ []);
  co_run : disp_nrunnable dp = zlen (concat ls)
}.

(** No unbound thread above [m]. *)
Definition unbound_upto (th : threads) (ls : list (list Z)) (m : Z) : Prop :=
  (-1 ≤ m ∧ m < zlen ls) ∧
  ∀ i t k, 0 ≤ i → t ∈ lv ls i → th !! t = Some k → t_bound_cpu k = None → i ≤ m.

Record disp_ok (q : dqid) (th : threads) (dp : disp_t) (ls : list (list Z)) : Prop := {
  do_lists : lists_ok q th (disp_q dp) ls;
  do_counters : counters_ok dp ls;
  do_top : top_of ls (disp_maxrunpri dp);
  do_unbound : unbound_upto th ls (disp_max_unbound_pri dp)
}.

Lemma lv_lookup ls p l : ls !! Z.to_nat p = Some l → lv ls p = l.
Proof. apply list_lookup_total_correct. Qed.

Lemma lv_out ls p : zlen ls ≤ p → lv ls p = [].
Proof. intros. unfold lv. by rewrite list_lookup_total_alt, lookup_ge_None_2 by lia. Qed.

Lemma lv_insert ls p l i : 0 ≤ p → p < zlen ls → 0 ≤ i →
  lv (<[Z.to_nat p := l]> ls) i = if i =? p then l else lv ls i.
Proof.
  intros. unfold lv. destruct (Z.eqb_spec i p) as [->|Hne].
  - apply list_lookup_total_insert_eq. lia.
  - apply list_lookup_total_insert_ne. lia.
Qed.

Lemma concat_level ls p : 0 ≤ p → p < zlen ls →
  ∃ a b, concat ls = a ++ lv ls p ++ b ∧ ∀ l, concat (<[Z.to_nat p := l]> ls) = a ++ l ++ b.
Proof.
  intros Hp Hlen. destruct (lookup_lt_is_Some_2 ls (Z.to_nat p)) as [l0 Hl]; [lia|].
  rewrite (lv_lookup _ _ _ Hl). exists (concat (take (Z.to_nat p) ls)), (concat (drop (S (Z.to_nat p)) ls)). split.
  - rewrite <-(take_drop_middle ls (Z.to_nat p) l0) at 1 by done. by rewrite concat_app.
  - intros l. rewrite insert_take_drop by lia. by rewrite concat_app.
Qed.

Lemma lv_elem ls p t : t ∈ lv ls p → t ∈ concat ls.
Proof.
  intros Ht. destruct (decide (p < 0)) as [Hneg|]; [|destruct (decide (p < zlen ls))].
  - unfold lv in *. replace (Z.to_nat p) with (Z.to_nat 0) in Ht by lia. destruct ls as [|l ls]; [by apply elem_of_nil in Ht|].
    simpl in *. apply elem_of_app. by left.
  - destruct (concat_level ls p) as (a & b & -> & _); [lia|lia|]. rewrite !elem_of_app. tauto.
  - rewrite lv_out in Ht by lia. by apply elem_of_nil in Ht.
Qed.

Lemma elem_lv ls t : t ∈ concat ls → ∃ p, 0 ≤ p ∧ p < zlen ls ∧ t ∈ lv ls p.
Proof.
  intros H. apply list_elem_of_In, in_concat in H as (l & Hl & Ht). apply list_elem_of_In in Hl, Ht.
  apply list_elem_of_lookup in Hl as [i Hi]. exists (Z.of_nat i).
  pose proof (lookup_lt_Some _ _ _ Hi). split_and!; [lia|lia|]. unfold lv.
  by rewrite Nat2Z.id, (list_lookup_total_correct _ _ _ Hi).
Qed.

Lemma level_nodup ls p : 0 ≤ p → NoDup (concat ls) → NoDup (lv ls p).
Proof.
  intros Hp Hnd. destruct (decide (p < zlen ls)); [|rewrite lv_out by lia; constructor].
  destruct (lookup_lt_is_Some_2 ls (Z.to_nat p)) as [lp Hl]; [lia|]. rewrite (lv_lookup _ _ _ Hl).
  rewrite <-(take_drop_middle ls (Z.to_nat p) lp) in Hnd by done.
  rewrite concat_app, NoDup_app in Hnd. destruct Hnd as (_ & _ & Hnd). simpl in Hnd. by apply NoDup_app in Hnd as [? _].
Qed.

(** A thread is on one list: that of its priority. *)
Lemma lists_thread q th dqs ls p t : lists_ok q th dqs ls → 0 ≤ p → t ∈ lv ls p →
  p < zlen ls ∧ ∃ k dq, th !! t = Some k ∧ on_queue q p k ∧ dqs !! Z.to_nat p = Some dq.
Proof.
  intros [H1 H2 H3] Hp Ht. assert (p < zlen ls) as Hl.
  { apply Znot_ge_lt. intros Hge. rewrite lv_out in Ht by lia. by apply elem_of_nil in Ht. }
  split; [done|]. destruct (lookup_lt_is_Some_2 dqs (Z.to_nat p)) as [dq Hdq]; [lia|].
  destruct (lv_threads _ _ _ _ _ (H2 p dq Hp Hdq) t Ht) as (k & Hk & Hq). eauto.
Qed.

Lemma lists_prio q th dqs ls p p' t : lists_ok q th dqs ls → 0 ≤ p → 0 ≤ p' → t ∈ lv ls p → t ∈ lv ls p' → p = p'.
Proof.
  intros H Hp Hp' Ht Ht'. destruct (lists_thread _ _ _ _ _ _ H Hp Ht) as (_ & k & _ & Hk & Hq & _).
  destruct (lists_thread _ _ _ _ _ _ H Hp' Ht') as (_ & k' & _ & Hk' & Hq' & _). simplify_eq.
  destruct Hq as (_ & _ & _ & _ & <-), Hq' as (_ & _ & _ & _ & <-). done.
Qed.

(** Other threads may do what they like. *)
Lemma disp_frame q th th' dp ls : (∀ t, t ∈ concat ls → th' !! t = th !! t) → disp_ok q th dp ls → disp_ok q th' dp ls.
Proof.
  intros Hf [[H1 H2 H3] Hc Ht [Hu Hub]]. split; [|done|done|].
  - split; [done| |done]. intros i dq Hi Hdq. eapply level_frame; [|by apply H2]. intros t Ht'. eapply Hf, lv_elem, Ht'.
  - split; [done|]. intros i t k Hi Ht' Hk. rewrite Hf in Hk by (by eapply lv_elem). by eapply Hub.
Qed.

(** ** Putting a thread on a queue *)

Lemma raise_maxrunpri p dp :
  (if disp_maxrunpri dp <? p then set_maxrunpri p dp else dp) = set_maxrunpri (Z.max (disp_maxrunpri dp) p) dp.
Proof.
  destruct (Z.ltb_spec (disp_maxrunpri dp) p); [by rewrite Z.max_r by lia|].
  rewrite Z.max_l by lia. by destruct dp.
Qed.

Lemma raise_max_unbound p dp :
  (if disp_max_unbound_pri dp <? p then set_max_unbound p dp else dp) =
  set_max_unbound (Z.max (disp_max_unbound_pri dp) p) dp.
Proof.
  destruct (Z.ltb_spec (disp_max_unbound_pri dp) p); [by rewrite Z.max_r by lia|].
  rewrite Z.max_l by lia. by destruct dp.
Qed.

Section Enq.
Context (link : Z → dispq → threads → run (dispq * threads)) (put : Z → list Z → list Z) (pre : kthread → Prop).
Hypothesis Hlink : links link put pre.
Hypothesis Hput : ∀ t l, put t l ≡ₚ t :: l.
Hypothesis Hpre : ∀ q k, pre k → pre (set_disp_queue q (THREAD_RUN (disp_lock q) k)).

Definition enq (p tp : Z) (ls : list (list Z)) : list (list Z) := <[Z.to_nat p := put tp (lv ls p)]> ls.

Lemma put_nonempty t l : put t l ≠ [].
Proof. intros H. pose proof (Hput t l) as HP. rewrite H in HP. by apply Permutation_nil_cons in HP. Qed.

Lemma lv_enq ls p tp i : 0 ≤ p → p < zlen ls → 0 ≤ i →
  lv (enq p tp ls) i = if i =? p then put tp (lv ls p) else lv ls i.
Proof. apply lv_insert. Qed.

Lemma concat_enq ls p tp : 0 ≤ p → p < zlen ls → concat (enq p tp ls) ≡ₚ tp :: concat ls.
Proof.
  intros Hp Hl. destruct (concat_level ls p Hp Hl) as (a & b & -> & E). unfold enq. rewrite E, Hput.
  symmetry. apply Permutation_middle.
Qed.

(** The thread as [THREAD_RUN] and the assignment of [t_disp_queue] leave it. *)
Definition queued (q : dqid) (k : kthread) : kthread := set_disp_queue q (THREAD_RUN (disp_lock q) k).

Lemma enq_lists q th dqs ls tp k p :
  lists_ok q th dqs ls → th !! tp = Some k → loaded k = true → pre k → tp ∉ concat ls →
  DISP_PRIO k = p → 0 ≤ p → p < zlen ls →
  ∃ dq dq' th', dqs !! Z.to_nat p = Some dq ∧ link tp dq (<[tp := queued q k]> th) = Ret (dq', th') ∧
    dq_sruncnt dq = zlen (lv ls p) ∧
    lists_ok q th' (<[Z.to_nat p := dq']> dqs) (enq p tp ls) ∧ relinked (<[tp := queued q k]> th) th' ∧
    ∀ t, t ∉ lv ls p → t ≠ tp → th' !! t = th !! t.
Proof using Hlink Hput Hpre.
  intros [H1 H2 H3] Hk Hload Hp Htp Hprio Hp0 Hp1.
  destruct (lookup_lt_is_Some_2 dqs (Z.to_nat p)) as [dq Hdq]; [lia|].
  set (th1 := <[tp := queued q k]> th).
  assert (∀ i dq l, level_ok q th i dq l → tp ∉ l → level_ok q th1 i dq l) as Hfr.
  { intros i dq0 l Hlv Hn. apply (level_frame q th); [|done]. intros t Ht. unfold th1.
    rewrite lookup_insert_ne; [done|]. by intros ->. }
  assert (∀ i, tp ∉ lv ls i) as Hn by (intros i Hi; by eapply Htp, lv_elem).
  destruct (Hlink q th1 p dq (lv ls p) tp (queued q k)) as (dq' & th' & Hrun & Hlv & Hr & Hf).
  { apply Hfr; [by apply H2|done]. }
  { by apply level_nodup. }
  { done. }
  { apply lookup_insert_eq. }
  { done. }
  { by apply Hpre. }
  assert (∀ t, t ∉ lv ls p → t ≠ tp → th' !! t = th !! t) as Hf'.
  { intros t Ht Hne. rewrite Hf by done. by apply lookup_insert_ne. }
  exists dq, dq', th'. split; [done|]. split; [done|]. split; [by apply (H2 p dq Hp0 Hdq)|]. split; [|done]. split.
  - unfold enq. by rewrite !length_insert.
  - intros i dqi Hi Hdqi. rewrite lv_enq by done. destruct (Z.eqb_spec i p) as [->|Hne].
    + rewrite list_lookup_insert_eq in Hdqi by lia. by simplify_eq.
    + rewrite list_lookup_insert_ne in Hdqi by lia. apply (level_frame q th); [|by apply H2].
      intros t Ht. apply Hf'; [|intros ->; by apply (Hn i)]. intros Ht'. apply Hne.
      eapply (lists_prio q th dqs ls i p t); [by split|done|done|done|done].
  - rewrite concat_enq by done. by apply NoDup_cons.
Qed.

(** Bitmap and count. *)
Lemma enq_counters ls p tp dp m : counters_ok dp ls → 0 ≤ p → p < zlen ls →
  bitmap_ok m (zlen ls) → (∀ j, 0 ≤ j → map_bit m j = (j =? p) || map_bit (disp_qactmap dp) j) →
  counters_ok (Disp (disp_q dp) m (disp_maxrunpri dp) (disp_max_unbound_pri dp) (disp_nrunnable dp + 1)) (enq p tp ls).
Proof using Hput.
  intros [H1 H2 H3] Hp Hl Hm Hbits. split; cbn [disp_qactmap disp_nrunnable].
  - unfold enq. by rewrite length_insert.
  - intros i Hi. rewrite Hbits, lv_enq, H2 by done. destruct (Z.eqb_spec i p) as [->|Hne]; [|done].
    simpl. symmetry. apply bool_decide_eq_true_2, put_nonempty.
  - rewrite H3, (concat_enq ls p tp) by done. simpl. lia.
Qed.

Lemma enq_top ls p tp r : top_of ls r → 0 ≤ p → p < zlen ls → top_of (enq p tp ls) (Z.max r p).
Proof using Hput.
  intros (Hr & Hne & Ha) Hp Hl. split; [unfold enq; rewrite length_insert; lia|]. split.
  - intros _. rewrite lv_enq by lia. destruct (Z.eqb_spec (Z.max r p) p) as [E|E]; [apply put_nonempty|].
    rewrite Z.max_l by lia. apply Hne. lia.
  - intros i Hi. rewrite lv_enq by lia. rewrite (proj2 (Z.eqb_neq _ _)) by lia. apply Ha. lia.
Qed.

Lemma top_above ls r p : top_of ls r → lv ls p ≠ [] → p ≤ r.
Proof. intros (_ & _ & Ha) Hne. apply Znot_gt_le. intros Hgt. apply Hne, Ha. lia. Qed.

Lemma enq_elem ls p tp i t : tp ∉ concat ls → 0 ≤ p → p < zlen ls → 0 ≤ i → t ∈ lv (enq p tp ls) i →
  (i = p ∧ t = tp) ∨ (t ∈ lv ls i ∧ t ≠ tp).
Proof using Hput.
  intros Htp Hp Hl Hi Ht. assert (∀ j, t ∈ lv ls j → t ≠ tp) as Hn by (intros j Hj ->; by eapply Htp, lv_elem).
  rewrite lv_enq in Ht by done. destruct (Z.eqb_spec i p) as [->|]; [|eauto].
  rewrite Hput in Ht. apply elem_of_cons in Ht as [->|Ht]; [by left|eauto].
Qed.

Lemma enq_unbound q th th' dqs ls p tp k m m' :
  unbound_upto th ls m → lists_ok q th dqs ls → tp ∉ concat ls → th !! tp = Some k →
  relinked (<[tp := queued q k]> th) th' → 0 ≤ p → p < zlen ls →
  m ≤ m' → m' < zlen ls → (t_bound_cpu k = None → p ≤ m') → unbound_upto th' (enq p tp ls) m'.
Proof using Hput.
  intros [Hm Hub] Hls Htp Hk Hr Hp Hl Hmm Hm' Hb. split; [unfold enq; rewrite length_insert; lia|].
  intros i t k' Hi Ht Hk' Hbk. apply enq_elem in Ht as [[-> ->]|[Ht Hne]]; [| |done..].
  - destruct (Hr tp (queued q k)) as [v Hv]; [apply lookup_insert_eq|]. apply Hb. by simplify_eq.
  - destruct (lists_thread _ _ _ _ _ _ Hls Hi Ht) as (_ & k0 & _ & Hk0 & _).
    destruct (Hr t k0) as [v Hv]; [by rewrite lookup_insert_ne|]. simplify_eq.
    transitivity m; [by eapply Hub|done].
Qed.

(** [disp_enq], to which its callers add the priorities. *)
Lemma disp_enq_ok q th dp ls tp k p :
  disp_ok q th dp ls → th !! tp = Some k → loaded k = true → pre k → tp ∉ concat ls →
  DISP_PRIO k = p → 0 ≤ p → p < zlen ls →
  ∃ dqs th' m, disp_enq link q tp p th dp =
      Ret (th', Disp dqs m (disp_maxrunpri dp) (disp_max_unbound_pri dp) (disp_nrunnable dp + 1),
           bool_decide (lv ls p = [])) ∧
    lists_ok q th' dqs (enq p tp ls) ∧
    (∀ r u, counters_ok (Disp dqs m r u (disp_nrunnable dp + 1)) (enq p tp ls)) ∧
    relinked (<[tp := queued q k]> th) th' ∧ ∀ t, t ∉ lv ls p → t ≠ tp → th' !! t = th !! t.
Proof using Hlink Hput Hpre.
  intros [Hls Hc Ht Hu] Hk Hload Hp Htp Hprio Hp0 Hp1.
  destruct (enq_lists q th (disp_q dp) ls tp k p Hls Hk Hload Hp Htp Hprio Hp0 Hp1)
    as (dq & dq' & th' & Hdq & Hrun & Hcnt & Hls' & Hr & Hf).
  unfold disp_enq. rewrite (tmod_ok _ tp th k) by done. cbn [rbind].
  rewrite (tmod_ok _ tp _ (THREAD_RUN (disp_lock q) k)) by apply lookup_insert_eq. cbn [rbind].
  rewrite insert_insert_eq. fold (queued q k). rewrite (zget_ok _ _ dq) by done. cbn [rbind].
  rewrite Hrun. cbn [rbind]. rewrite Hcnt.
  destruct Hc as [H1 H2 H3]. destruct (lv ls p) as [|x l] eqn:El.
  - cbn [length Z.of_nat Z.eqb negb set_dispq disp_qactmap set_nrunnable].
    destruct (BT_SET_spec (disp_qactmap dp) (zlen ls) p H1 Hp0 Hp1) as (m & -> & Hm & Hbits). cbn [rbind].
    do 3 eexists. split; [done|]. split; [done|]. split; [|done]. intros r u.
    pose proof (enq_counters ls p tp dp m) as Hcnt'. destruct Hcnt' as [G1 G2 G3]; [by split|done..|]. by split.
  - rewrite (proj2 (Z.eqb_neq _ _)) by (simpl; lia). cbn [negb].
    do 3 eexists. split; [by rewrite bool_decide_eq_false_2|]. split; [done|]. split; [|done]. intros r u.
    pose proof (enq_counters ls p tp dp (disp_qactmap dp)) as Hcnt'. destruct Hcnt' as [G1 G2 G3]; [by split|done..| |by split].
    intros j Hj. destruct (Z.eqb_spec j p) as [->|]; [|done]. rewrite H2, El by done. done.
Qed.

Lemma cpu_enq_ok q th dp ls tp k p :
  disp_ok q th dp ls → th !! tp = Some k → loaded k = true → pre k → tp ∉ concat ls →
  DISP_PRIO k = p → 0 ≤ p → p < zlen ls →
  ∃ th' dp', cpu_enq link q tp p th dp = Ret (th', dp', disp_maxrunpri dp <? p) ∧
    disp_ok q th' dp' (enq p tp ls) ∧ relinked (<[tp := queued q k]> th) th' ∧
    (∀ t, t ∉ lv ls p → t ≠ tp → th' !! t = th !! t) ∧ disp_maxrunpri dp' = Z.max (disp_maxrunpri dp) p.
Proof using Hlink Hput Hpre.
  intros Hok Hk Hload Hp Htp Hprio Hp0 Hp1.
  destruct (disp_enq_ok q th dp ls tp k p Hok Hk Hload Hp Htp Hprio Hp0 Hp1) as (dqs & th' & m & Hrun & Hls' & Hc' & Hr & Hf).
  destruct Hok as [Hls Hc Ht Hu]. unfold cpu_enq. rewrite Hrun. cbn [rbind disp_maxrunpri].
  destruct (Hr tp (queued q k)) as [v Hv]; [apply lookup_insert_eq|].
  assert (bool_decide (lv ls p = []) && (disp_maxrunpri dp <? p) = (disp_maxrunpri dp <? p)) as ->.
  { destruct (Z.ltb_spec (disp_maxrunpri dp) p); [|apply andb_false_r].
    rewrite bool_decide_eq_true_2; [done|]. by apply Ht. }
  unfold tget. rewrite Hv. cbn [rbind]. do 2 eexists. split; [done|].
  set (u := if bool_decide (t_bound_cpu k = None) && (disp_max_unbound_pri dp <? p) then p else disp_max_unbound_pri dp).
  match goal with |- disp_ok _ _ ?D _ ∧ _ =>
    assert (D = Disp dqs m (Z.max (disp_maxrunpri dp) p) u (disp_nrunnable dp + 1)) as -> end.
  { change (t_bound_cpu (set_link v (queued q k))) with (t_bound_cpu k). unfold u.
    destruct (Z.ltb_spec (disp_maxrunpri dp) p); [rewrite Z.max_r by lia|rewrite Z.max_l by lia];
      simpl; by destruct (bool_decide _ && _). }
  split; [split; cbn [disp_q disp_maxrunpri disp_max_unbound_pri]|done].
  - done.
  - apply Hc'.
  - by apply enq_top.
  - eapply (enq_unbound q th th' (disp_q dp)); [exact Hu|done|done|exact Hk|done|done|done|..]; unfold u;
      destruct (bool_decide_reflect (t_bound_cpu k = None)); cbn [andb]; destruct Hu as [[Hu1 Hu2] _];
      destruct (Z.ltb_spec (disp_max_unbound_pri dp) p); try lia; done.
Qed.

Lemma kp_enq_ok q th dp ls tp k p :
  disp_ok q th dp ls → th !! tp = Some k → loaded k = true → pre k → tp ∉ concat ls →
  DISP_PRIO k = p → 0 ≤ p → p < zlen ls →
  (∀ t kt, t ∈ concat ls → th !! t = Some kt → t_bound_cpu kt = None) →
  ∃ th' dp', kp_enq link q tp p th dp = Ret (th', dp') ∧
    disp_ok q th' dp' (enq p tp ls) ∧ relinked (<[tp := queued q k]> th) th' ∧
    (∀ t, t ∉ lv ls p → t ≠ tp → th' !! t = th !! t) ∧ disp_maxrunpri dp' = Z.max (disp_maxrunpri dp) p ∧
    disp_max_unbound_pri dp' = Z.max (disp_max_unbound_pri dp) p.
Proof using Hlink Hput Hpre.
  intros Hok Hk Hload Hp Htp Hprio Hp0 Hp1 Hfree.
  destruct (disp_enq_ok q th dp ls tp k p Hok Hk Hload Hp Htp Hprio Hp0 Hp1) as (dqs & th' & m & Hrun & Hls' & Hc' & Hr & Hf).
  destruct Hok as [Hls Hc Ht Hu]. unfold kp_enq. rewrite Hrun. cbn [rbind].
  assert (∃ dp', (if bool_decide (lv ls p = []) then _ else _) = Ret (th', dp') ∧
    dp' = Disp dqs m (Z.max (disp_maxrunpri dp) p) (Z.max (disp_max_unbound_pri dp) p) (disp_nrunnable dp + 1))
    as (dp' & -> & ->).
  { destruct (bool_decide_reflect (lv ls p = [])) as [E|E]; eexists; (split; [done|]).
    - by rewrite raise_max_unbound, raise_maxrunpri.
    - pose proof (top_above _ _ _ Ht E). destruct (lv ls p) as [|x l] eqn:El; [done|].
      assert (x ∈ lv ls p) as Hx by (rewrite El; left).
      destruct (lists_thread _ _ _ _ _ _ Hls Hp0 Hx) as (_ & kx & _ & Hkx & _).
      assert (p ≤ disp_max_unbound_pri dp) by (eapply Hu; eauto using lv_elem). f_equal; lia. }
  do 2 eexists. split; [done|]. split; [|done]. split; cbn [disp_q disp_maxrunpri disp_max_unbound_pri].
  - done.
  - apply Hc'.
  - by apply enq_top.
  - destruct Hu as [Hu1 Hu2]. eapply (enq_unbound q th th' (disp_q dp)); [by split|done|done|exact Hk|done|done|done|lia..].
Qed.
End Enq.

(** ** Taking a thread off *)

Lemma list_size (th : threads) (l : list Z) : NoDup l → (∀ t, t ∈ l → is_Some (th !! t)) → (length l ≤ size th)%nat.
Proof.
  intros Hnd H. rewrite <-(size_list_to_set (C := gset Z) l) by done. rewrite <-size_dom.
  apply subseteq_size. intros t Ht. apply elem_of_dom, H. by apply elem_of_list_to_set in Ht.
Qed.

(** The thread before a place. *)
Definition before (trp : option Z) (l1 : list Z) : option Z := match last l1 with Some x => Some x | None => trp end.

Lemma before_cons trp u l1 : before (Some u) l1 = before trp (u :: l1).
Proof. unfold before. destruct l1 as [|x l1]; [done|]. rewrite last_cons_cons. by destruct (last (x :: l1)) eqn:E; [|apply last_None in E]. Qed.

Lemma dispdeq_find_ok th tp l1 l2 : ∀ fuel trp p, linked th p (l1 ++ tp :: l2) → tp ∉ l1 → (length l1 < fuel)%nat →
  dispdeq_find fuel th tp trp p = Ret (before trp l1).
Proof.
  induction l1 as [|u l1 IH]; intros [|fuel] trp p Hl Hn Hf; simpl in Hf; try lia; simpl in Hl |- *.
  - destruct Hl as (-> & _). by rewrite Z.eqb_refl.
  - destruct Hl as (-> & k & Hk & Hl). apply not_elem_of_cons in Hn as [Hne Hn].
    rewrite (proj2 (Z.eqb_neq u tp)) by done. unfold tget. rewrite Hk. cbn [rbind].
    rewrite (IH fuel (Some u) (t_link k)); [|done|done|lia]. by rewrite (before_cons trp).
Qed.

Lemma linked_none th p l : linked th p l → p = None ↔ l = [].
Proof. destruct l; simpl; [done|]. intros [-> _]. done. Qed.

(** The list with a thread taken out of it. *)
Definition unlink (t : Z) (l : list Z) : list Z := filter (λ u, u ≠ t) l.

Lemma unlink_notin t l : t ∉ l → unlink t l = l.
Proof.
  unfold unlink. induction l as [|u l IH]; intros Hn; [done|]. apply not_elem_of_cons in Hn as [Hne Hn].
  rewrite filter_cons_True by congruence. by rewrite IH.
Qed.

Lemma unlink_split t l1 l2 : NoDup (l1 ++ t :: l2) → unlink t (l1 ++ t :: l2) = l1 ++ l2.
Proof.
  intros Hnd. apply NoDup_app in Hnd as (_ & Hd & Hnd). apply NoDup_cons in Hnd as [Hn2 _].
  unfold unlink. rewrite filter_app, filter_cons_False by (intros []; done).
  fold (unlink t l1) (unlink t l2). rewrite !unlink_notin; [done|done|]. intros Ht. apply (Hd t Ht). left.
Qed.

Lemma unlink_perm t l : NoDup l → t ∈ l → l ≡ₚ t :: unlink t l.
Proof.
  intros Hnd (l1 & l2 & ->)%list_elem_of_split. rewrite unlink_split by done. symmetry. apply Permutation_middle.
Qed.

Lemma elem_unlink t u l : u ∈ unlink t l ↔ u ≠ t ∧ u ∈ l.
Proof. unfold unlink. by rewrite list_elem_of_filter. Qed.

Definition deq (p tp : Z) (ls : list (list Z)) : list (list Z) := <[Z.to_nat p := unlink tp (lv ls p)]> ls.

Lemma lv_deq ls p tp i : 0 ≤ p → p < zlen ls → 0 ≤ i →
  lv (deq p tp ls) i = if i =? p then unlink tp (lv ls p) else lv ls i.
Proof. apply lv_insert. Qed.

Lemma elem_deq ls p tp i t : 0 ≤ p → p < zlen ls → 0 ≤ i → t ∈ lv (deq p tp ls) i → t ∈ lv ls i.
Proof.
  intros Hp Hl Hi. rewrite lv_deq by done. destruct (Z.eqb_spec i p) as [->|]; [|done]. intros Ht. apply elem_unlink in Ht. tauto.
Qed.

Lemma concat_deq ls p tp : 0 ≤ p → p < zlen ls → NoDup (concat ls) → tp ∈ lv ls p →
  concat ls ≡ₚ tp :: concat (deq p tp ls).
Proof.
  intros Hp Hl Hnd Ht. destruct (concat_level ls p Hp Hl) as (a & b & E & E'). unfold deq. rewrite E, E'.
  rewrite (unlink_perm tp (lv ls p)) at 1 by (done || by apply level_nodup).
  symmetry. apply Permutation_middle.
Qed.

(** The links of [dispdeq]. *)
Lemma unlink_level q th i dq l tp k :
  level_ok q th i dq l → NoDup l → tp ∈ l → th !! tp = Some k →
  ∃ trp first th', dispdeq_find (S (size th)) th tp None (dq_first dq) = Ret trp ∧
    match trp with
    | None => Ret (t_link k, th)
    | Some r => let* th := tmod (set_link (t_link k)) r th in Ret (dq_first dq, th)
    end = Ret (first, th') ∧
    relinked th th' ∧ th' !! tp = Some k ∧ (∀ t, t ∉ l → th' !! t = th !! t) ∧
    let dq' := Dispq first (match t_link k with None => trp | Some _ => dq_last dq end) (dq_sruncnt dq - 1) in
    linked th' first (unlink tp l) ∧ dq_last dq' = last (unlink tp l) ∧ dq_sruncnt dq' = zlen (unlink tp l).
Proof.
  intros [H1 H2 H3 H4] Hnd Htp Hk. pose proof (list_size th l Hnd) as Hsz.
  specialize (Hsz ltac:(intros; by eapply linked_elem)).
  apply list_elem_of_split in Htp as (l1 & l2 & ->). rewrite unlink_split by done. rewrite length_app in Hsz. simpl in Hsz.
  assert (tp ∉ l1) as Hn1.
  { intros Ht. apply NoDup_app in Hnd as (_ & Hd & _). apply (Hd tp Ht). left. }
  rewrite (dispdeq_find_ok th tp l1 l2) by (done || lia).
  destruct (linked_inv _ _ _ _ _ H1) as (k' & Hk' & Hl2). simplify_eq.
  pose proof (linked_none _ _ _ Hl2) as Hnone.
  assert (zlen (l1 ++ tp :: l2) - 1 = zlen (l1 ++ l2)) as Hlen by (rewrite !length_app; simpl; lia).
  destruct (decide (l1 = [])) as [->|Hne].
  - exists None, (t_link k), th. split; [done|]. split; [done|]. split; [apply relinked_refl|]. split; [done|].
    split; [done|]. split; [done|]. cbn [dq_last dq_sruncnt]. rewrite H3, <-Hlen. split; [|done].
    simpl in *. destruct (t_link k) eqn:Elk.
    + destruct l2; [by destruct (proj2 Hnone eq_refl)|]. by rewrite H2, last_cons_cons.
    + by rewrite (proj1 Hnone eq_refl).
  - destruct (exists_last Hne) as (l1' & x & ->). rewrite <-!app_assoc in *. simpl app in *.
    destruct (linked_inv _ _ _ _ _ H1) as (kx & Hx & _). exists (Some x), (dq_first dq), (<[x := set_link (t_link k) kx]> th).
    split; [by unfold before; rewrite last_snoc|]. rewrite (tmod_ok _ x th kx) by done. split; [done|].
    split; [by apply relinked_insert|].
    assert (x ≠ tp) as Hxt by (intros ->; apply Hn1, elem_of_app; right; left).
    split; [by rewrite lookup_insert_ne|]. split.
    { intros t Ht. apply lookup_insert_ne. intros ->. apply Ht, elem_of_app. right. left. }
    split; [|cbn [dq_last dq_sruncnt]; rewrite H3; split; [|done]].
    + apply (linked_relink th _ _ l1' x (tp :: l2) l2 kx (t_link k)); [done|done|done|apply lookup_insert_eq| |].
      * intros u Hu. apply lookup_insert_ne. intros ->. apply NoDup_app in Hnd as (_ & Hd & _). apply (Hd u Hu). left.
      * apply (linked_frame th); [|done]. intros t Ht. apply lookup_insert_ne. intros ->.
        apply NoDup_app in Hnd as (_ & _ & Hnd). apply NoDup_cons in Hnd as [Hn _]. apply Hn. by right.
    + destruct (t_link k) eqn:Elk.
      * destruct l2; [by destruct (proj2 Hnone eq_refl)|]. by rewrite H2, !last_app, !last_cons_cons.
      * rewrite (proj1 Hnone eq_refl). by rewrite last_snoc.
Qed.

(** ** Counts and priorities without a thread *)

Lemma deq_lists q th th' dqs ls p tp dq' :
  lists_ok q th dqs ls → 0 ≤ p → p < zlen ls → tp ∈ lv ls p →
  linked th' (dq_first dq') (unlink tp (lv ls p)) → dq_last dq' = last (unlink tp (lv ls p)) →
  dq_sruncnt dq' = zlen (unlink tp (lv ls p)) →
  (∀ t k, t ≠ tp → th !! t = Some k → ∃ v, th' !! t = Some (set_link v k)) →
  (∀ t, t ∉ lv ls p → th' !! t = th !! t) →
  lists_ok q th' (<[Z.to_nat p := dq']> dqs) (deq p tp ls).
Proof.
  intros Hls Hp Hl Htp G1 G2 G3 Hr Hf. pose proof Hls as [H1 H2 H3]. split.
  - unfold deq. by rewrite !length_insert.
  - intros i dq Hi Hdq. rewrite lv_deq by done. destruct (Z.eqb_spec i p) as [->|Hne].
    + rewrite list_lookup_insert_eq in Hdq by lia. simplify_eq. split; [done..|].
      intros t [Hne Ht]%elem_unlink.
      destruct (lists_thread _ _ _ _ _ _ Hls Hp Ht) as (_ & k & _ & Hk & Hq & _).
      destruct (Hr t k Hne Hk) as [v Hv]. exists (set_link v k). split; [done|by apply on_queue_link].
    + rewrite list_lookup_insert_ne in Hdq by lia. apply (level_frame q th); [|by apply H2].
      intros t Ht. apply Hf. intros Ht'. apply Hne. by eapply (lists_prio q th dqs ls i p t).
  - rewrite (concat_deq ls p tp) in H3 by done. by apply NoDup_cons in H3 as [_ ?].
Qed.

Lemma deq_run dp ls p tp : counters_ok dp ls → NoDup (concat ls) → 0 ≤ p → p < zlen ls → tp ∈ lv ls p →
  disp_nrunnable dp - 1 = zlen (concat (deq p tp ls)).
Proof. intros [_ _ H3] Hnd Hp Hl Ht. rewrite H3, (concat_deq ls p tp) by done. simpl. lia. Qed.

(** The list keeps threads: nothing changes. *)
Lemma deq_more_counters dp ls p tp dqs r u :
  counters_ok dp ls → NoDup (concat ls) → 0 ≤ p → p < zlen ls → tp ∈ lv ls p → unlink tp (lv ls p) ≠ [] →
  counters_ok (Disp dqs (disp_qactmap dp) r u (disp_nrunnable dp - 1)) (deq p tp ls).
Proof.
  intros Hc Hnd Hp Hl Ht Hne. pose proof (deq_run dp ls p tp Hc Hnd Hp Hl Ht). destruct Hc as [H1 H2 H3].
  split; cbn [disp_qactmap disp_nrunnable]; [unfold deq; by rewrite length_insert| |done].
  intros i Hi. rewrite H2, lv_deq by done. destruct (Z.eqb_spec i p) as [->|]; [|done].
  rewrite !bool_decide_eq_true_2; [done|done|]. intros E. rewrite E in Ht. by apply elem_of_nil in Ht.
Qed.

Lemma deq_more_top ls p tp r : top_of ls r → 0 ≤ p → p < zlen ls → (p = r → unlink tp (lv ls p) ≠ []) →
  top_of (deq p tp ls) r.
Proof.
  intros (Hr & Hne & Ha) Hp Hl Hu. split; [unfold deq; by rewrite length_insert|]. split.
  - intros H0. rewrite lv_deq by done. destruct (Z.eqb_spec r p) as [->|]; auto.
  - intros i Hi. rewrite lv_deq by lia. destruct (Z.eqb_spec i p) as [->|]; [|by apply Ha]. by rewrite (Ha p).
Qed.

Lemma deq_unbound th th' ls p tp m m' :
  unbound_upto th ls m → 0 ≤ p → p < zlen ls → tp ∈ lv ls p →
  (∀ t k, t ≠ tp → th !! t = Some k → ∃ v, th' !! t = Some (set_link v k)) →
  (∀ i t, t ∈ lv ls i → is_Some (th !! t)) → NoDup (concat ls) →
  (-1 ≤ m' ∧ m' ≤ m) → (∀ i, m' < i → i ≤ m → lv (deq p tp ls) i = []) →
  unbound_upto th' (deq p tp ls) m'.
Proof.
  intros [Hm Hub] Hp Hl Htp Hr Hdom Hnd Hm' Ha. split; [unfold deq; rewrite length_insert; lia|].
  intros i t k Hi Ht Hk Hb.
  assert (t ≠ tp) as Hne.
  { rewrite (concat_deq ls p tp) in Hnd by done. apply NoDup_cons in Hnd as [Hn _]. intros ->. by eapply Hn, lv_elem. }
  pose proof (elem_deq _ _ _ _ _ Hp Hl Hi Ht) as Ht'. destruct (Hdom i t Ht') as [k0 Hk0].
  destruct (Hr t k0 Hne Hk0) as [v Hv]. simplify_eq. pose proof (Hub i t k0 Hi Ht' Hk0 Hb).
  apply Znot_gt_le. intros Hgt. rewrite Ha in Ht by lia. by apply elem_of_nil in Ht.
Qed.

(** The list becomes empty: its bit is cleared. *)
Lemma clear_active_ok dp ls p tp : counters_ok dp ls → NoDup (concat ls) → 0 ≤ p → p < zlen ls → tp ∈ lv ls p →
  unlink tp (lv ls p) = [] →
  ∃ m, (∀ dqs r u n, clear_active p (Disp dqs (disp_qactmap dp) r u n) = Ret (Disp dqs m r u n)) ∧
    ∀ dqs r u, counters_ok (Disp dqs m r u (disp_nrunnable dp - 1)) (deq p tp ls).
Proof.
  intros Hc Hnd Hp Hl Ht He. pose proof (deq_run dp ls p tp Hc Hnd Hp Hl Ht) as Hrun. destruct Hc as [H1 H2 H3].
  destruct (BT_CLEAR_spec (disp_qactmap dp) (zlen ls) p H1 Hp Hl) as (m & Hm & Hok & Hbits).
  exists m. split; [intros; unfold clear_active; cbn [disp_qactmap]; by rewrite Hm|].
  intros dqs r u. split; cbn [disp_qactmap disp_nrunnable]; [unfold deq; by rewrite length_insert| |done].
  intros i Hi. rewrite Hbits, lv_deq, H2 by done. destruct (Z.eqb_spec i p) as [->|]; [|done].
  by rewrite He.
Qed.

Lemma concat_nil ls : zlen (concat ls) = 0 → ∀ i, lv ls i = [].
Proof.
  intros H i. destruct (lv ls i) as [|x l] eqn:E; [done|]. assert (x ∈ concat ls) as Hx.
  { eapply (lv_elem ls i). rewrite E. left. }
  destruct (concat ls); [by apply elem_of_nil in Hx|]. simpl in H. lia.
Qed.

(** The highest list from the word of [p] downwards is the highest of all when those above [p]
    are empty. *)
Lemma recompute_ok dp ls p : counters_ok dp ls → 0 ≤ p → p < zlen ls → (∀ i, p ≤ i → lv ls i = []) →
  ∃ r, recompute_max p dp = Ret (Disp (disp_q dp) (disp_qactmap dp) r (Z.min r (disp_max_unbound_pri dp)) (disp_nrunnable dp)) ∧
    top_of ls r ∧ r < p.
Proof.
  intros [[Hu Hlen] H2 H3] Hp Hl Ha. unfold recompute_max, BT_ULSHIFT. rewrite shiftr_div by lia. change (2 ^ 5) with 32.
  pose proof (Z.div_pos p 32 Hp ltac:(lia)). pose proof (Z_div_mod_eq_full p 32). pose proof (Z.mod_pos_bound p 32).
  destruct (bt_gethighbit_spec (disp_qactmap dp) (Z.to_nat (p `div` 32)) (32 * zlen (disp_qactmap dp)))
    as (r & -> & Hr); [done|lia|]. cbn [rbind]. rewrite Z2Nat.id in Hr by done. exists r. split.
  { f_equal. unfold set_maxrunpri, set_max_unbound.
    destruct (Z.ltb_spec r (disp_max_unbound_pri dp)); [by rewrite Z.min_l by lia|by rewrite Z.min_r by lia]. }
  assert (∀ i, 0 ≤ i → map_bit (disp_qactmap dp) i = false → lv ls i = []) as Hz.
  { intros i Hi Hb. rewrite H2 in Hb by done. apply bool_decide_eq_false in Hb. destruct (lv ls i); [done|]. by destruct Hb. }
  destruct Hr as [[-> Hall]|(Hr & Hs & Hab)].
  - split; [|lia]. split; [lia|]. split; [lia|]. intros i Hi. destruct (decide (p ≤ i)); [by apply Ha|].
    apply Hz; [lia|]. apply Hall. lia.
  - rewrite H2 in Hs by lia. apply bool_decide_eq_true in Hs.
    assert (r < p) by (apply Znot_ge_lt; intros Hge; apply Hs, Ha; lia).
    split; [|done]. split; [lia|]. split; [done|]. intros i Hi. destruct (decide (p ≤ i)); [by apply Ha|].
    apply Hz; [lia|]. apply Hab. lia.
Qed.

(** What follows the removal of the last thread of a list. *)
Definition after_empty (p : Z) (dp : disp_t) : run disp_t :=
  let* dp := clear_active p dp in
  if disp_nrunnable dp =? 0 then Ret (set_maxrunpri (-1) (set_max_unbound (-1) dp))
  else if p =? disp_maxrunpri dp then recompute_max p dp
  else Ret dp.

Lemma after_empty_ok q th th' dp ls p tp dqs :
  disp_ok q th dp ls → 0 ≤ p → p < zlen ls → tp ∈ lv ls p → unlink tp (lv ls p) = [] →
  (∀ t k, t ≠ tp → th !! t = Some k → ∃ v, th' !! t = Some (set_link v k)) →
  lists_ok q th' dqs (deq p tp ls) →
  ∃ dp', after_empty p (Disp dqs (disp_qactmap dp) (disp_maxrunpri dp) (disp_max_unbound_pri dp) (disp_nrunnable dp - 1))
      = Ret dp' ∧ disp_ok q th' dp' (deq p tp ls) ∧
    (disp_max_unbound_pri dp = disp_maxrunpri dp → disp_max_unbound_pri dp' = disp_maxrunpri dp').
Proof.
  intros [Hls Hc Ht Hu] Hp Hl Htp He Hr Hls'. pose proof (ls_nodup _ _ _ _ Hls) as Hnd.
  destruct (clear_active_ok dp ls p tp Hc Hnd Hp Hl Htp He) as (m & Hclr & Hc'). unfold after_empty.
  rewrite Hclr. cbn [rbind disp_nrunnable disp_maxrunpri]. rewrite (deq_run dp ls p tp) by done.
  assert (zlen (deq p tp ls) = zlen ls) as Hlen by (unfold deq; by rewrite length_insert).
  assert (∀ i t, t ∈ lv ls i → is_Some (th !! t)) as Hdom.
  { intros i t (j & Hj0 & Hj1 & Ht')%lv_elem%elem_lv.
    destruct (lists_thread _ _ _ _ _ _ Hls Hj0 Ht') as (_ & k & _ & -> & _). eauto. }
  destruct Hu as [Hu1 Hu2]. destruct (Z.eqb_spec (zlen (concat (deq p tp ls))) 0) as [E|E].
  - pose proof (concat_nil _ E) as Hnil. eexists. split; [done|]. split; [|done].
    split; cbn [set_maxrunpri set_max_unbound disp_q disp_maxrunpri disp_max_unbound_pri].
    + done.
    + rewrite <-(deq_run dp ls p tp) by done. apply Hc'.
    + split; [lia|]. split; [lia|]. intros. apply Hnil.
    + split; [lia|]. intros i t k Hi Ht'. rewrite Hnil in Ht'. by apply elem_of_nil in Ht'.
  - destruct (Z.eqb_spec p (disp_maxrunpri dp)) as [Ep|Ep].
    + destruct (recompute_ok (Disp dqs m (disp_maxrunpri dp) (disp_max_unbound_pri dp) (disp_nrunnable dp - 1)) (deq p tp ls) p)
        as (r & Hrec & Htop & Hrp); [apply Hc'|done|lia| |].
      { intros i Hi. rewrite lv_deq by lia. destruct (Z.eqb_spec i p) as [->|]; [done|]. apply Ht. lia. }
      rewrite <-(deq_run dp ls p tp) by done. rewrite Hrec. eexists. split; [done|].
      cbn [disp_q disp_qactmap disp_max_unbound_pri disp_nrunnable disp_maxrunpri]. split; [|intros ->; lia].
      split; cbn [disp_q disp_maxrunpri disp_max_unbound_pri]; [done|apply Hc'|done|].
      destruct Htop as (Hr1 & _ & Habove).
      eapply (deq_unbound th th' ls p tp (disp_max_unbound_pri dp)); [by split|done|done|done|done|done|done|lia|].
      intros i Hi1 Hi2. apply Habove. lia.
    + rewrite <-(deq_run dp ls p tp) by done. eexists. split; [done|]. split; [|done].
      split; cbn [disp_q disp_maxrunpri disp_max_unbound_pri]; [done|apply Hc'|by apply deq_more_top|].
      eapply (deq_unbound th th' ls p tp (disp_max_unbound_pri dp)); [by split|done|done|done|done|done|done|lia|lia].
Qed.

(** The list keeps threads. *)
Lemma after_more_ok q th th' dp ls p tp dqs :
  disp_ok q th dp ls → 0 ≤ p → p < zlen ls → tp ∈ lv ls p → unlink tp (lv ls p) ≠ [] →
  (∀ t k, t ≠ tp → th !! t = Some k → ∃ v, th' !! t = Some (set_link v k)) →
  lists_ok q th' dqs (deq p tp ls) →
  disp_ok q th' (Disp dqs (disp_qactmap dp) (disp_maxrunpri dp) (disp_max_unbound_pri dp) (disp_nrunnable dp - 1)) (deq p tp ls).
Proof.
  intros [Hls Hc Ht Hu] Hp Hl Htp He Hr Hls'. pose proof (ls_nodup _ _ _ _ Hls) as Hnd.
  assert (∀ i t, t ∈ lv ls i → is_Some (th !! t)) as Hdom.
  { intros i t (j & Hj0 & Hj1 & Ht')%lv_elem%elem_lv.
    destruct (lists_thread _ _ _ _ _ _ Hls Hj0 Ht') as (_ & k & _ & -> & _). eauto. }
  split; cbn [disp_q disp_maxrunpri disp_max_unbound_pri]; [done| | |].
  - by apply deq_more_counters.
  - by apply deq_more_top.
  - destruct Hu as [Hu1 Hu2].
    eapply (deq_unbound th th' ls p tp (disp_max_unbound_pri dp)); [by split|done|done|done|done|done|done|lia|lia].
Qed.

Lemma set_dispq_nrunnable p dq n dp :
  set_dispq p dq (set_nrunnable n dp) =
  Disp (<[Z.to_nat p := dq]> (disp_q dp)) (disp_qactmap dp) (disp_maxrunpri dp) (disp_max_unbound_pri dp) n.
Proof. done. Qed.

(** [dispdeq] takes the thread out of its list, wherever it is in it. *)
Lemma dispdeq_ok q th dp ls tp k p :
  disp_ok q th dp ls → 0 ≤ p → tp ∈ lv ls p → th !! tp = Some k →
  ∃ th' dp', dispdeq_from tp th dp = Ret (th', dp') ∧ disp_ok q th' dp' (deq p tp ls) ∧
    th' !! tp = Some (set_link None (thread_transition k)) ∧
    (∀ t k, t ≠ tp → th !! t = Some k → ∃ v, th' !! t = Some (set_link v k)) ∧
    (∀ t, t ∉ lv ls p → th' !! t = th !! t) ∧
    (disp_max_unbound_pri dp = disp_maxrunpri dp → disp_max_unbound_pri dp' = disp_maxrunpri dp').
Proof.
  intros Hok Hp Htp Hk. pose proof Hok as [Hls _ _ _]. pose proof Hls as [H1 H2 H3].
  destruct (lists_thread _ _ _ _ _ _ Hls Hp Htp) as (Hl & k' & dq & Hk' & Hq & Hdq). simplify_eq.
  pose proof (level_nodup ls p Hp H3) as Hnd.
  destruct (unlink_level q th p dq (lv ls p) tp k (H2 p dq Hp Hdq) Hnd Htp Hk)
    as (trp & first & th1 & Hfind & Hrel & Hr & Hk1 & Hf & G1 & G2 & G3).
  unfold dispdeq_from, tget. rewrite Hk. cbn [rbind].
  replace (DISP_PRIO k) with p by (symmetry; apply Hq). rewrite (zget_ok _ _ dq) by done. cbn [rbind].
  rewrite Hfind. cbn [rbind]. rewrite Hrel. cbn [rbind].
  set (dq' := Dispq first _ _) in *.
  assert (dq_sruncnt dq - 1 = zlen (unlink tp (lv ls p))) as -> by exact G3.
  set (th' := <[tp := set_link None (thread_transition k)]> th1).
  assert (∀ dp' : disp_t, (let* th := tmod (set_link None) tp th1 in let* th := tmod thread_transition tp th in Ret (th, dp')) =
    Ret (th', dp')) as Hend.
  { intros dp'. rewrite (tmod_ok _ tp th1 k) by done. cbn [rbind].
    rewrite (tmod_ok _ tp _ (set_link None k)) by apply lookup_insert_eq. cbn [rbind]. by rewrite insert_insert_eq. }
  assert (∀ t, t ∉ lv ls p → th' !! t = th !! t) as Hf'.
  { intros t Ht. unfold th'. rewrite lookup_insert_ne by (by intros ->). by apply Hf. }
  assert (∀ t k, t ≠ tp → th !! t = Some k → ∃ v, th' !! t = Some (set_link v k)) as Hr'.
  { intros t kt Hne Hkt. destruct (Hr t kt Hkt) as [v Hv]. exists v. unfold th'. by rewrite lookup_insert_ne. }
  assert (lists_ok q th' (<[Z.to_nat p := dq']> (disp_q dp)) (deq p tp ls)) as Hls'.
  { apply (deq_lists q th); try done. apply (linked_frame th1); [|done]. intros t [Hne _]%elem_unlink.
    unfold th'. by apply lookup_insert_ne. }
  assert (th' !! tp = Some (set_link None (thread_transition k))) as Hk' by apply lookup_insert_eq.
  destruct (Z.eqb_spec (zlen (unlink tp (lv ls p))) 0) as [E|E].
  - assert (unlink tp (lv ls p) = []) as He by (destruct (unlink tp (lv ls p)); [done|simpl in E; lia]).
    destruct (after_empty_ok q th th' dp ls p tp _ Hok Hp Hl Htp He Hr' Hls') as (dp' & Hrun & Hok' & Hmu).
    unfold after_empty in Hrun. rewrite set_dispq_nrunnable, Hrun. cbn [rbind]. rewrite Hend. by exists th', dp'.
  - cbn [rbind]. rewrite Hend. do 2 eexists. split; [done|]. split; [|done].
    apply (after_more_ok q th th' dp ls p tp); try done. intros He. by rewrite He in E.
Qed.

(** [disp] takes the first thread of the highest list. *)
Lemma disp_take_ok q th dp ls tp l :
  disp_ok q th dp ls → 0 ≤ disp_maxrunpri dp → lv ls (disp_maxrunpri dp) = tp :: l →
  ∃ th' dp' k, disp_take th dp = Ret (tp, th', dp') ∧ disp_ok q th' dp' (deq (disp_maxrunpri dp) tp ls) ∧
    th !! tp = Some k ∧ th' = <[tp := set_link None k]> th.
Proof.
  intros Hok Hp Htop. set (p := disp_maxrunpri dp) in *. pose proof Hok as [Hls _ _ _]. pose proof Hls as [H1 H2 H3].
  assert (tp ∈ lv ls p) as Htp by (rewrite Htop; left).
  destruct (lists_thread _ _ _ _ _ _ Hls Hp Htp) as (Hl & k & dq & Hk & Hq & Hdq).
  destruct (H2 p dq Hp Hdq) as [G1 G2 G3 _]. rewrite Htop in G1, G2, G3.
  destruct G1 as (Hfirst & k' & Hk' & Hlk). simplify_eq.
  pose proof (level_nodup ls p Hp H3) as Hnd.
  assert (unlink tp (lv ls p) = l) as Hul by (rewrite Htop in Hnd |- *; by apply (unlink_split tp [] l)).
  assert (tp ∉ l) as Hnin by (rewrite Htop in Hnd; by apply NoDup_cons in Hnd as [? _]).
  pose proof (linked_none _ _ _ Hlk) as Hnone.
  set (th' := <[tp := set_link None k]> th).
  assert (∀ t k, t ≠ tp → th !! t = Some k → ∃ v, th' !! t = Some (set_link v k)) as Hr'.
  { intros t kt Hne Hkt. exists (t_link kt). rewrite set_link_id. unfold th'. by rewrite lookup_insert_ne. }
  assert (linked th' (t_link k) l) as Hlk'.
  { apply (linked_frame th); [|done]. intros t Ht. unfold th'. apply lookup_insert_ne. by intros ->. }
  unfold disp_take. fold p. rewrite (zget_ok _ _ dq) by done. cbn [rbind]. rewrite Hfirst. unfold tget. rewrite Hk. cbn [rbind].
  assert (∀ dq', linked th' (dq_first dq') l → dq_last dq' = last l → dq_sruncnt dq' = zlen l →
    lists_ok q th' (<[Z.to_nat p := dq']> (disp_q dp)) (deq p tp ls)) as Hls'.
  { intros dq' A1 A2 A3. apply (deq_lists q th); rewrite ?Hul; try done. intros t Ht. unfold th'.
    apply lookup_insert_ne. by intros ->. }
  simpl in G3. destruct (t_link k) as [next|] eqn:Elk.
  - destruct l as [|x l]; [by destruct (proj2 Hnone eq_refl)|].
    rewrite (tmod_ok _ tp th k) by done. cbn [rbind]. do 3 eexists. split; [done|]. split; [|done].
    apply (after_more_ok q th th' dp ls p tp); try done; [by rewrite Hul|]. apply Hls'; [done| |simpl in *; lia].
    cbn [dq_last]. by rewrite G2, last_cons_cons.
  - pose proof (proj1 Hnone eq_refl) as ->.
    assert (th' = th) as Hth by (unfold th'; rewrite <-Elk, set_link_id; by apply insert_id).
    destruct (after_empty_ok q th th' dp ls p tp (<[Z.to_nat p := Dispq None None (dq_sruncnt dq - 1)]> (disp_q dp)))
      as (dp' & Hrun & Hok' & _); [done|done|done|done|done|done|apply Hls'; [done|done|simpl in *; lia]|].
    unfold after_empty in Hrun.
    destruct (clear_active p _) as [dp1| |] eqn:Hclr in Hrun; [|done|done]. cbn [rbind] in Hrun.
    assert (disp_maxrunpri dp1 = p) as Hmp.
    { unfold clear_active in Hclr. destruct (BT_CLEAR _ _); cbn [rbind] in Hclr; [|done|done]. by injection Hclr as <-. }
    rewrite Hmp, Z.eqb_refl in Hrun.
    rewrite set_dispq_nrunnable, Hclr. cbn [rbind]. rewrite Hrun. cbn [rbind]. rewrite Hth in Hok'. do 3 eexists. split; [done|].
    split; [done|]. split; [done|]. exact (eq_sym Hth).
Qed.

(** ** Unbound threads *)

Definition is_unbound (th : threads) (t : Z) : bool :=
  match th !! t with Some k => bool_decide (t_bound_cpu k = None) | None => false end.

Lemma first_unbound_ok th l : ∀ fuel p, linked th p l → (length l < fuel)%nat →
  first_unbound fuel th p = Ret (List.find (is_unbound th) l).
Proof.
  induction l as [|t l IH]; intros [|fuel] p Hl Hf; simpl in Hf; try lia; simpl in Hl |- *.
  - by subst.
  - destruct Hl as (-> & k & Hk & Hl). unfold tget, is_unbound at 1. rewrite Hk. cbn [rbind].
    destruct (t_bound_cpu k) eqn:E; [|by rewrite bool_decide_eq_true_2].
    rewrite bool_decide_eq_false_2 by done. apply IH; [done|lia].
Qed.

Lemma first_unbound_level q th dqs ls p dq : lists_ok q th dqs ls → 0 ≤ p → dqs !! Z.to_nat p = Some dq →
  first_unbound (S (size th)) th (dq_first dq) = Ret (List.find (is_unbound th) (lv ls p)).
Proof.
  intros [H1 H2 H3] Hp Hdq. destruct (H2 p dq Hp Hdq) as [G1 _ _ G4]. apply first_unbound_ok; [done|].
  assert (length (lv ls p) ≤ size th)%nat; [|lia]. apply list_size; [by apply level_nodup|].
  intros t Ht. destruct (G4 t Ht) as (k & -> & _). eauto.
Qed.

(** The next list below [pri] that is not empty. *)
Definition next_active (ls : list (list Z)) (pri r : Z) : Prop :=
  -1 ≤ r ∧ r < pri ∧ (0 ≤ r → lv ls r ≠ []) ∧ ∀ i, r < i → i < pri → lv ls i = [].

Lemma mapword_mod w pri : 0 ≤ pri → Z.land w (BT_BIW pri - 1) = w `mod` 2 ^ (pri `mod` 32).
Proof.
  intros. unfold BT_BIW. rewrite BIW_index by done. rewrite Z.shiftl_1_l, Z.sub_1_r, <-Z.ones_equiv.
  apply Z.land_ones, Z.mod_pos_bound. lia.
Qed.

Lemma next_active_ok dp ls pri : counters_ok dp ls → 0 ≤ pri → pri < zlen ls →
  let wx := Z.shiftr pri BT_ULSHIFT in
  ∃ w r, zget (disp_qactmap dp) wx = Ret w ∧
    (if negb (Z.land w (BT_BIW pri - 1) =? 0) then
       Ret (Z.shiftl wx BT_ULSHIFT + highbit (Z.land w (BT_BIW pri - 1)) - 1)
     else if 0 <? wx then bt_gethighbit (disp_qactmap dp) (Z.to_nat (wx - 1))
     else Ret (-1)) = Ret r ∧ next_active ls pri r.
Proof.
  intros Hc Hp Hl wx. pose proof Hc as [Hmap H2 H3]. pose proof Hmap as [Hu Hlen].
  destruct (bitmap_ok_word (disp_qactmap dp) (zlen ls) pri Hmap) as (w & Hw & Hwu & Hg); [lia|].
  assert (wx = pri `div` 32) as -> by (unfold wx, BT_ULSHIFT; by rewrite shiftr_div by lia).
  exists w. rewrite mapword_mod by done. pose proof (Z_div_mod_eq_full pri 32) as Hdm.
  pose proof (Z.mod_pos_bound pri 32 ltac:(lia)) as Hmb. pose proof (Z.div_pos pri 32 Hp ltac:(lia)) as Hd0.
  set (wx := pri `div` 32) in *. set (b := pri `mod` 32) in *.
  assert (∀ i, 0 ≤ i → lv ls i = [] ↔ map_bit (disp_qactmap dp) i = false) as Hbit.
  { intros i Hi. rewrite H2 by done. destruct (bool_decide_reflect (lv ls i ≠ [])) as [Hne|Hne]; [by split|].
    split; [done|]. intros _. destruct (lv ls i); [done|]. by destruct Hne. }
  assert (∀ i, 32 * wx ≤ i → i < pri → map_bit (disp_qactmap dp) i = Z.testbit (w `mod` 2 ^ b) (i - 32 * wx)) as Hword.
  { intros i Hi1 Hi2. replace i with (wx * 32 + (i - 32 * wx)) at 1 by lia.
    rewrite (map_bit_word _ wx w) by (done || lia). by rewrite Z.mod_pow2_bits_low by lia. }
  pose proof (Z.mod_pos_bound w (2 ^ b) ltac:(lia)) as Hmod.
  assert (2 ^ b ≤ 2 ^ 32) by (apply Z.pow_le_mono_r; lia).
  destruct (Z.eqb_spec (w `mod` 2 ^ b) 0) as [E|E]; cbn [negb].
  - assert (∀ i, 32 * wx ≤ i → i < pri → lv ls i = []) as Hz.
    { intros i Hi1 Hi2. apply Hbit; [lia|]. by rewrite Hword, E, Z.bits_0 by lia. }
    destruct (Z.ltb_spec 0 wx) as [Hpos|Hle].
    + destruct (bt_gethighbit_spec (disp_qactmap dp) (Z.to_nat (wx - 1)) (32 * zlen (disp_qactmap dp)))
        as (r & -> & Hr); [done|lia|]. rewrite Z2Nat.id in Hr by lia. replace (wx - 1 + 1) with wx in Hr by lia.
      exists r. split; [done|]. split; [done|]. destruct Hr as [[-> Hall]|(Hr & Hs & Hab)].
      * split; [lia|]. split; [lia|]. split; [lia|]. intros i Hi1 Hi2.
        destruct (decide (i < 32 * wx)); [|apply Hz; lia]. apply Hbit; [lia|]. apply Hall. lia.
      * split; [lia|]. split; [lia|]. split; [intros _ He; apply Hbit in He; [congruence|lia]|]. intros i Hi1 Hi2.
        destruct (decide (i < 32 * wx)); [|apply Hz; lia]. apply Hbit; [lia|]. apply Hab. lia.
    + exists (-1). split; [done|]. split; [done|]. split; [lia|]. split; [lia|]. split; [lia|].
      intros i Hi1 Hi2. apply Hz; lia.
  - eexists. split; [done|]. split; [done|]. rewrite highbit_spec by (unfold in_u32; lia).
    rewrite (proj2 (Z.eqb_neq _ _) E). unfold BT_ULSHIFT. rewrite Z.shiftl_mul_pow2 by lia. change (2 ^ 5) with 32.
    set (h := Z.log2 (w `mod` 2 ^ b)). pose proof (Z.log2_nonneg (w `mod` 2 ^ b)).
    assert (h < b) as Hh by (apply Z.log2_lt_pow2; lia). fold h in H0.
    split; [lia|]. split; [lia|]. split.
    + intros _ He. apply Hbit in He; [|lia]. rewrite Hword in He by lia.
      replace (wx * 32 + (h + 1) - 1 - 32 * wx) with h in He by lia. unfold h in He.
      rewrite Z.bit_log2 in He by lia. done.
    + intros i Hi1 Hi2. apply Hbit; [lia|]. rewrite Hword by lia. apply Z.bits_above_log2; [lia|]. fold h. lia.
Qed.

(** [fix_unbound] finds the next list below with an unbound thread. *)
Lemma fix_unbound_ok q th dp ls : lists_ok q th (disp_q dp) ls → counters_ok dp ls →
  ∀ fuel pri, 0 ≤ pri → pri < zlen ls → pri < Z.of_nat fuel →
  ∃ r, fix_unbound fuel th dp pri = Ret r ∧ (-1 ≤ r ∧ r < pri) ∧
    (0 ≤ r → is_Some (List.find (is_unbound th) (lv ls r))) ∧
    ∀ i, r < i → i < pri → List.find (is_unbound th) (lv ls i) = None.
Proof.
  intros Hls Hc. induction fuel as [|fuel IH]; intros pri Hp Hl Hf; [lia|]. cbn [fix_unbound].
  destruct (next_active_ok dp ls pri Hc Hp Hl) as (w & r & -> & Hrun & Hr1 & Hr2 & Hr3 & Hr4). cbn [rbind].
  rewrite Hrun. cbn [rbind]. assert (∀ i, r < i → i < pri → List.find (is_unbound th) (lv ls i) = None) as Hnone.
  { intros i Hi1 Hi2. by rewrite Hr4. }
  destruct (Z.ltb_spec r 0) as [Hneg|Hpos].
  { exists r. split; [done|]. split; [lia|]. split; [lia|done]. }
  pose proof Hls as [H1 _ _]. destruct (lookup_lt_is_Some_2 (disp_q dp) (Z.to_nat r)) as [dq Hdq]; [lia|].
  rewrite (zget_ok _ _ dq) by done. cbn [rbind]. rewrite (first_unbound_level q th (disp_q dp) ls r) by done. cbn [rbind].
  destruct (List.find (is_unbound th) (lv ls r)) as [t|] eqn:Efind.
  - exists r. split; [done|]. split; [lia|]. split; [intros _; rewrite Efind; eauto|done].
  - destruct (IH r) as (r' & Hrun' & Hr' & Hs & Hn); [lia|lia|lia|]. exists r'. split; [done|]. split; [lia|]. split; [done|].
    intros i Hi1 Hi2. destruct (decide (i < r)); [by apply Hn|]. destruct (decide (i = r)) as [->|]; [done|apply Hnone; lia].
Qed.

Lemma find_none_unbound th l t k : List.find (is_unbound th) l = None → t ∈ l → th !! t = Some k → t_bound_cpu k ≠ None.
Proof.
  intros Hf Ht Hk Hb. apply list_elem_of_In in Ht. pose proof (find_none _ _ Hf t Ht) as H. unfold is_unbound in H.
  rewrite Hk, bool_decide_eq_true_2 in H by done. done.
Qed.

Lemma unbound_above th ls m i : unbound_upto th ls m → (∀ t, t ∈ concat ls → is_Some (th !! t)) → 0 ≤ i → m < i →
  List.find (is_unbound th) (lv ls i) = None.
Proof.
  intros [_ Hub] Hdom Hi Hm. destruct (List.find _ _) as [t|] eqn:E; [|done]. exfalso.
  apply find_some in E as [Ht Hu]. apply list_elem_of_In in Ht. unfold is_unbound in Hu.
  destruct (Hdom t (lv_elem _ _ _ Ht)) as [k Hk]. rewrite Hk in Hu. apply bool_decide_eq_true in Hu.
  pose proof (Hub i t k Hi Ht Hk Hu). lia.
Qed.

(** [disp_getbest] takes the first unbound thread of the highest list that has one; or else
    it corrects [disp_max_unbound_pri], so that the next call does. *)
Lemma getbest_ok q th dp ls : disp_ok q th dp ls →
  ∃ r th' dp', disp_getbest_from th dp = Ret (r, th', dp') ∧
    match r with
    | None => th' = th ∧ disp_ok q th dp' ls ∧ disp_maxrunpri dp' = disp_maxrunpri dp ∧
        (0 ≤ disp_max_unbound_pri dp' → is_Some (List.find (is_unbound th) (lv ls (disp_max_unbound_pri dp')))) ∧
        (0 ≤ disp_max_unbound_pri dp → disp_max_unbound_pri dp' < disp_max_unbound_pri dp ∧
           List.find (is_unbound th) (lv ls (disp_max_unbound_pri dp)) = None)
    | Some t => ∃ p k, p = disp_max_unbound_pri dp ∧ 0 ≤ p ∧ List.find (is_unbound th) (lv ls p) = Some t ∧
        (∀ i, p < i → List.find (is_unbound th) (lv ls i) = None) ∧ disp_ok q th' dp' (deq p t ls) ∧
        th !! t = Some k ∧ th' !! t = Some (set_link None (thread_transition k)) ∧
        (∀ t' k, t' ≠ t → th !! t' = Some k → ∃ v, th' !! t' = Some (set_link v k)) ∧
        (∀ t', t' ∉ lv ls p → th' !! t' = th !! t') ∧
        (disp_max_unbound_pri dp = disp_maxrunpri dp → disp_max_unbound_pri dp' = disp_maxrunpri dp')
    end.
Proof.
  intros Hok. pose proof Hok as [Hls Hc Ht Hu]. unfold disp_getbest_from.
  set (m := disp_max_unbound_pri dp) in *. pose proof Hu as [[Hm1 Hm2] Hub].
  assert (∀ t, t ∈ concat ls → is_Some (th !! t)) as Hdom.
  { intros t (j & Hj0 & Hj1 & Ht')%elem_lv. destruct (lists_thread _ _ _ _ _ _ Hls Hj0 Ht') as (_ & k & _ & -> & _). eauto. }
  destruct (Z.eqb_spec m (-1)) as [E|E].
  { exists None, th, dp. split; [done|]. split; [done|]. split; [done|]. split; [done|]. fold m. split; lia. }
  pose proof Hls as [H1 _ _]. destruct (lookup_lt_is_Some_2 (disp_q dp) (Z.to_nat m)) as [dq Hdq]; [lia|].
  rewrite (zget_ok _ _ dq) by (done || lia). cbn [rbind].
  rewrite (first_unbound_level q th (disp_q dp) ls m) by (done || lia). cbn [rbind].
  destruct (List.find (is_unbound th) (lv ls m)) as [t|] eqn:Ef.
  - pose proof (find_some _ _ Ef) as [Htm _]. apply list_elem_of_In in Htm.
    destruct (lists_thread q th (disp_q dp) ls m t Hls ltac:(lia) Htm) as (_ & k & _ & Hk & _).
    destruct (dispdeq_ok q th dp ls t k m Hok ltac:(lia) Htm Hk) as (th' & dp' & Hrun & Hok' & Hk' & Hr & Hf).
    rewrite Hrun. cbn [rbind]. exists (Some t), th', dp'. split; [done|]. exists m, k.
    split; [done|]. split; [lia|]. split; [done|]. split; [|done]. intros i Hi. by apply (unbound_above th ls m); [|done|lia|].
  - unfold disp_fix_unbound_pri.
    destruct (fix_unbound_ok q th dp ls Hls Hc (S (length (disp_q dp))) m) as (r & -> & Hr & Hs & Hn); [lia|lia|lia|].
    cbn [rbind]. fold m. rewrite (proj2 (Z.eqb_neq m r)) by lia. cbn [negb].
    exists None, th, (set_max_unbound r dp). split; [done|]. split; [done|]. split; [|split; [done|]].
    + split; [done|by destruct Hc|done|]. cbn [set_max_unbound disp_max_unbound_pri]. split; [lia|].
      intros i t k Hi Hti Hk Hb. apply Znot_gt_le. intros Hgt. pose proof (Hub i t k Hi Hti Hk Hb).
      destruct (decide (i = m)) as [->|]; [by eapply find_none_unbound|].
      eapply (find_none_unbound th (lv ls i)); [apply Hn; lia|done|done|done].
    + cbn [set_max_unbound disp_max_unbound_pri]. split; [done|]. intros _. split; [lia|done].
Qed.
