(* ===== verification/Disp.v ===== *)
(** * The dispatcher ([uts/common/disp/disp.c], [uts/common/os/cpu.c])

    Processors, the partitions they are in, and the routines that choose a queue
    for a thread and a thread for a processor.  Every routine runs with the locks
    that it takes; what may happen between them is in [DispSteps]. *)

From S2P Require Import Prelude Bitmap Dispq.

(** ** State *)

Record cpu := Cpu {
  cpu_disp : disp_t;
  cpu_dispthread : Z;
  cpu_idle_thread : Z;
  cpu_runrun : Z;
  cpu_kprunrun : Z;
  cpu_chosen_level : Z;
  cpu_part : Z;
  cpu_next_part : Z;
  cpu_offline : bool
}.

Record cpupart := Cpupart { cp_kp_queue : disp_t; cp_cpulist : Z }.

(** [s_poked] are the processors interrupted so far, the latest first. *)
Record sys := Sys {
  s_threads : threads;
  s_cpus : gmap Z cpu;
  s_parts : gmap Z cpupart;
  wake_sched : Z;
  wake_sched_sec : Z;
  s_poked : list Z
}.

Definition set_cpu_disp (d : disp_t) (c : cpu) : cpu :=
  Cpu d (cpu_dispthread c) (cpu_idle_thread c) (cpu_runrun c) (cpu_kprunrun c) (cpu_chosen_level c)
    (cpu_part c) (cpu_next_part c) (cpu_offline c).
Definition set_dispthread (t : Z) (c : cpu) : cpu :=
  Cpu (cpu_disp c) t (cpu_idle_thread c) (cpu_runrun c) (cpu_kprunrun c) (cpu_chosen_level c)
    (cpu_part c) (cpu_next_part c) (cpu_offline c).
Definition set_runrun (v : Z) (c : cpu) : cpu :=
  Cpu (cpu_disp c) (cpu_dispthread c) (cpu_idle_thread c) v (cpu_kprunrun c) (cpu_chosen_level c)
    (cpu_part c) (cpu_next_part c) (cpu_offline c).
Definition set_kprunrun (v : Z) (c : cpu) : cpu :=
  Cpu (cpu_disp c) (cpu_dispthread c) (cpu_idle_thread c) (cpu_runrun c) v (cpu_chosen_level c)
    (cpu_part c) (cpu_next_part c) (cpu_offline c).
Definition set_chosen_level (v : Z) (c : cpu) : cpu :=
  Cpu (cpu_disp c) (cpu_dispthread c) (cpu_idle_thread c) (cpu_runrun c) (cpu_kprunrun c) v
    (cpu_part c) (cpu_next_part c) (cpu_offline c).
Definition set_kp_queue (d : disp_t) (p : cpupart) : cpupart := Cpupart d (cp_cpulist p).

Definition with_threads (th : threads) (s : sys) : sys :=
  Sys th (s_cpus s) (s_parts s) (wake_sched s) (wake_sched_sec s) (s_poked s).
Definition with_cpus (cs : gmap Z cpu) (s : sys) : sys :=
  Sys (s_threads s) cs (s_parts s) (wake_sched s) (wake_sched_sec s) (s_poked s).
Definition with_parts (ps : gmap Z cpupart) (s : sys) : sys :=
  Sys (s_threads s) (s_cpus s) ps (wake_sched s) (wake_sched_sec s) (s_poked s).
Definition set_wake_sched (v : Z) (s : sys) : sys :=
  Sys (s_threads s) (s_cpus s) (s_parts s) v (wake_sched_sec s) (s_poked s).
Definition set_wake_sched_sec (v : Z) (s : sys) : sys :=
  Sys (s_threads s) (s_cpus s) (s_parts s) (wake_sched s) v (s_poked s).
Definition poke_cpu (c : Z) (s : sys) : sys :=
  Sys (s_threads s) (s_cpus s) (s_parts s) (wake_sched s) (wake_sched_sec s) (c :: s_poked s).

Definition get_thread (t : Z) (s : sys) : run kthread := tget (s_threads s) t.
Definition mod_thread (f : kthread → kthread) (t : Z) (s : sys) : run sys :=
  let* th := tmod f t (s_threads s) in Ret (with_threads th s).
Definition get_cpu (c : Z) (s : sys) : run cpu := match s_cpus s !! c with Some cp => Ret cp | None => Fault end.
Definition put_cpu (c : Z) (cp : cpu) (s : sys) : sys := with_cpus (<[c := cp]> (s_cpus s)) s.
Definition mod_cpu (f : cpu → cpu) (c : Z) (s : sys) : run sys :=
  let* cp := get_cpu c s in Ret (put_cpu c (f cp) s).
Definition get_part (p : Z) (s : sys) : run cpupart := match s_parts s !! p with Some pt => Ret pt | None => Fault end.
Definition put_part (p : Z) (pt : cpupart) (s : sys) : sys := with_parts (<[p := pt]> (s_parts s)) s.

(** The queue with a name. *)
Definition get_disp (q : dqid) (s : sys) : run disp_t :=
  match q with
  | CPUQ c => let* cp := get_cpu c s in Ret (cpu_disp cp)
  | KPQ p => let* pt := get_part p s in Ret (cp_kp_queue pt)
  end.
Definition put_disp (q : dqid) (d : disp_t) (s : sys) : run sys :=
  match q with
  | CPUQ c => mod_cpu (set_cpu_disp d) c s
  | KPQ p => let* pt := get_part p s in Ret (put_part p (set_kp_queue d pt) s)
  end.

(** Who runs the code: the processor, its current thread, and the time. *)
Record ctx := Ctx { CPU : Z; curthread : Z; lbolt : Z }.

Definition set_astflag (v : Z) (t : kthread) : kthread :=
  Kthread (t_link t) (t_pri t) (t_epri t) (t_state t) (t_schedflag t) (t_bound_cpu t) (t_cpu t) (t_cpupart t)
    (t_disp_queue t) (t_lockp t) (t_disp_time t) (t_bind_cpu t) (t_affinitycnt t) v.
Definition aston (t : Z) (s : sys) : run sys := mod_thread (set_astflag 1) t s.
Definition set_tpri (v : Z) (t : kthread) : kthread :=
  Kthread (t_link t) v (t_epri t) (t_state t) (t_schedflag t) (t_bound_cpu t) (t_cpu t) (t_cpupart t)
    (t_disp_queue t) (t_lockp t) (t_disp_time t) (t_bind_cpu t) (t_affinitycnt t) (t_astflag t).
Definition set_binding (bind bound : option Z) (t : kthread) : kthread :=
  Kthread (t_link t) (t_pri t) (t_epri t) (t_state t) (t_schedflag t) bound (t_cpu t) (t_cpupart t)
    (t_disp_queue t) (t_lockp t) (t_disp_time t) bind (t_affinitycnt t) (t_astflag t).
Definition THREAD_ONPROC (c : Z) (t : kthread) : kthread := THREAD_SET_STATE TS_ONPROC (cpu_thread_lock c) t.
Definition DONT_SWAP (t : kthread) : kthread := set_schedflag (Z.lor (t_schedflag t) TS_DONT_SWAP) t.

Definition Q_MATCH_PRI : Z := 16.
Definition MAX_RUNQ_DIFF : Z := 2.
Definition SHRT_MAX : Z := 32767.
Definition CPU_IDLING (pri : Z) : bool := pri =? -1.

Section Disp.
(** The levels at which user and kernel code is preempted, and tunables. *)
Context (ncpus kpreemptpri upreemptpri maxclsyspri rechoose_interval : Z).

(** ** Choosing a processor *)

Definition cpu_resched (me : ctx) (c tpri cpupri : Z) (s : sys) : run sys :=
  if negb (CPU_IDLING cpupri) && (cpupri <? tpri) then
    let* cp := get_cpu c s in
    let* s :=
      if (upreemptpri <=? tpri) && (cpu_runrun cp =? 0) then
        let* s := mod_cpu (set_runrun 1) c s in
        let* s := aston (cpu_dispthread cp) s in
        Ret (if (tpri <? kpreemptpri) && negb (c =? CPU me) then poke_cpu c s else s)
      else Ret s in
    if (kpreemptpri <=? tpri) && (cpu_kprunrun cp =? 0) then
      let* s := mod_cpu (set_kprunrun 1) c s in
      Ret (if negb (c =? CPU me) then poke_cpu c s else s)
    else Ret s
  else Ret s.

(** What the scan of [disp_lowpri_cpu] looks at: the best of the running thread, the queue and
    the level chosen for it. *)
Definition cpu_level (cp : cpu) (s : sys) : run Z :=
  let* k := get_thread (cpu_dispthread cp) s in
  let cpupri := DISP_PRIO k in
  let cpupri := if cpupri <? disp_maxrunpri (cpu_disp cp) then disp_maxrunpri (cpu_disp cp) else cpupri in
  Ret (if cpupri <? cpu_chosen_level cp then cpu_chosen_level cp else cpupri).

(** The scan with [global == 0], round the partition; one turn for every processor is enough. *)
Fixpoint lowpri_scan (fuel : nat) (hint c bestcpu bestpri : Z) (s : sys) : run Z :=
  match fuel with
  | O => Fault
  | S fuel =>
      let* cp := get_cpu c s in
      let* cpupri := cpu_level cp s in
      let '(bestcpu, bestpri) := if cpupri <? bestpri then (c, cpupri) else (bestcpu, bestpri) in
      if cpu_next_part cp =? hint then Ret bestcpu
      else lowpri_scan fuel hint (cpu_next_part cp) bestcpu bestpri s
  end.

Definition disp_lowpri_cpu (hint : Z) (s : sys) : run Z :=
  lowpri_scan (size (s_cpus s)) hint hint hint SHRT_MAX s.

Definition cpu_choose (me : ctx) (t tpri : Z) (s : sys) : run Z :=
  let* k := get_thread t s in
  if (kpreemptpri <=? tpri) || ((rechoose_interval <? s32 (lbolt me - t_disp_time k)) && negb (t =? curthread me))
  then disp_lowpri_cpu (t_cpu k) s
  else Ret (t_cpu k).

(** ** Making a thread runnable *)

Definition disp_swapped_setrun (tp : Z) (s : sys) : run sys :=
  let* k := get_thread tp s in
  match t_state k with
  | TS_SLEEP =>
      let s := if maxclsyspri <? DISP_PRIO k then set_wake_sched 1 s else set_wake_sched_sec 1 s in
      mod_thread (THREAD_RUN swapped_lock) tp s
  | TS_RUN => Ret s
  | _ => Panic
  end.

Definition setkpdq (me : ctx) (link : Z → dispq → threads → run (dispq * threads)) (tp : Z) (s : sys) : run sys :=
  let* k := get_thread tp s in
  let tpri := DISP_PRIO k in
  let q := KPQ (t_cpupart k) in
  let* dp := get_disp q s in
  let* (th, dp) := kp_enq link q tp tpri (s_threads s) dp in
  let* s := put_disp q dp (with_threads th s) in
  let* c := cpu_choose me tp tpri s in
  let* cp := get_cpu c s in
  let* s := if cpu_chosen_level cp <? tpri then mod_cpu (set_chosen_level tpri) c s else Ret s in
  let* k' := get_thread (cpu_dispthread cp) s in
  cpu_resched me c tpri (DISP_PRIO k') s.

(** The common end of [setbackdq] and [setfrontdq]: on the queue of processor [c]. *)
Definition setcpudq (me : ctx) (link : Z → dispq → threads → run (dispq * threads)) (tp c : Z) (s : sys) : run sys :=
  let* k := get_thread tp s in
  let tpri := DISP_PRIO k in
  let* cp := get_cpu c s in
  let* (th, dp, resched) := cpu_enq link (CPUQ c) tp tpri (s_threads s) (cpu_disp cp) in
  let* s := put_disp (CPUQ c) dp (with_threads th s) in
  if resched : bool then
    let* k' := get_thread (cpu_dispthread cp) s in
    cpu_resched me c tpri (DISP_PRIO k') s
  else Ret s.

(** The processor for an unbound thread of [setbackdq]. *)
Definition back_choice (me : ctx) (tp tpri : Z) (k : kthread) (s : sys) : run Z :=
  let* c := cpu_choose me tp tpri s in
  let* cp := get_cpu c s in
  if t_cpupart k =? cpu_part cp then
    let* dq := zget (disp_q (cpu_disp cp)) tpri in
    let qlen := dq_sruncnt dq in
    let qlen := if Q_MATCH_PRI <=? tpri then qlen - MAX_RUNQ_DIFF else qlen in
    if 0 <? qlen then
      let* np := get_cpu (cpu_next_part cp) s in
      let* dq := zget (disp_q (cpu_disp np)) tpri in
      Ret (if dq_sruncnt dq <? qlen then cpu_next_part cp else c)
    else Ret c
  else
    let* pt := get_part (t_cpupart k) s in disp_lowpri_cpu (cp_cpulist pt) s.

Definition setbackdq (me : ctx) (tp : Z) (s : sys) : run sys :=
  let* k := get_thread tp s in
  if negb (loaded k) then disp_swapped_setrun tp s
  else
    let tpri := DISP_PRIO k in
    if ncpus =? 1 then setcpudq me link_back tp (t_cpu k) s
    else
      match t_bound_cpu k with
      | Some c => setcpudq me link_back tp c s
      | None =>
          if kpreemptpri <=? tpri then setkpdq me link_kp_back tp s
          else let* c := back_choice me tp tpri k s in setcpudq me link_back tp c s
      end.

(** The processor for an unbound thread of [setfrontdq]. *)
Definition front_choice (me : ctx) (tp tpri : Z) (k : kthread) (s : sys) : run Z :=
  let* cp := get_cpu (t_cpu k) s in
  if t_cpupart k =? cpu_part cp then
    if tpri <? disp_maxrunpri (cpu_disp cp) then cpu_choose me tp tpri s else Ret (t_cpu k)
  else
    let* pt := get_part (t_cpupart k) s in disp_lowpri_cpu (cp_cpulist pt) s.

Definition setfrontdq (me : ctx) (tp : Z) (s : sys) : run sys :=
  let* k := get_thread tp s in
  if negb (loaded k) then disp_swapped_setrun tp s
  else
    let tpri := DISP_PRIO k in
    if ncpus =? 1 then setcpudq me link_front tp (t_cpu k) s
    else
      match t_bound_cpu k with
      | Some c => setcpudq me link_front tp c s
      | None =>
          if kpreemptpri <=? tpri then setkpdq me link_front tp s
          else let* c := front_choice me tp tpri k s in setcpudq me link_front tp c s
      end.

(** ** Taking a thread off its queue *)

Definition dispdeq (tp : Z) (s : sys) : run (bool * sys) :=
  let* k := get_thread tp s in
  if negb (bool_decide (t_state k = TS_RUN)) then Ret (false, s)
  else if negb (loaded k) then Ret (true, s)
  else
    match t_disp_queue k with
    | None => Fault
    | Some q =>
        let* dp := get_disp q s in
        let* (th, dp) := dispdeq_from tp (s_threads s) dp in
        let* s := put_disp q dp (with_threads th s) in
        Ret (true, s)
    end.

(** ** Choosing a thread *)

Definition disp_getbest (me : ctx) (q : dqid) (s : sys) : run (option Z * sys) :=
  let* dp := get_disp q s in
  let* (r, th, dp) := disp_getbest_from (s_threads s) dp in
  let* s := put_disp q dp (with_threads th s) in
  match r with
  | None => Ret (None, s)
  | Some tp =>
      let* s := mod_thread DONT_SWAP tp s in
      let* s := mod_thread (set_disp_queue (CPUQ (CPU me))) tp s in
      let* s := mod_cpu (set_dispthread tp) (CPU me) s in
      let* s := mod_thread (THREAD_ONPROC (CPU me)) tp s in
      Ret (Some tp, s)
  end.

(** [disp_ratify]: first the requests so far are dropped, ... *)
Definition ratify_clear (me : ctx) (s : sys) : run sys :=
  mod_cpu (λ cp, set_chosen_level (-1) (set_kprunrun 0 (set_runrun 0 cp))) (CPU me) s.

(** ... then the choice is compared with what is queued by now. *)
Definition ratify_check (me : ctx) (tp kpq : Z) (s : sys) : run (option Z * sys) :=
  let* k := get_thread tp s in
  let* cp := get_cpu (CPU me) s in
  let* pt := get_part kpq s in
  let maxpri := disp_maxrunpri (cpu_disp cp) in
  let maxkpri := disp_maxrunpri (cp_kp_queue pt) in
  let maxpri := if maxpri <? maxkpri then maxkpri else maxpri in
  if DISP_PRIO k <? maxpri then
    let* s := mod_cpu (set_dispthread (curthread me)) (CPU me) s in
    let* s := mod_thread thread_transition tp s in
    let* s := setfrontdq me tp s in
    Ret (None, s)
  else Ret (Some tp, s).

Definition disp_ratify (me : ctx) (tp kpq : Z) (s : sys) : run (option Z * sys) :=
  let* s := ratify_clear me s in ratify_check me tp kpq s.

(** The loop of [disp_getwork] over the partition's queue.  It ends when the queue is empty or
    gives a thread; [None] is out of fuel. *)
Fixpoint getwork_kp (fuel : nat) (me : ctx) (kpq : Z) (s : sys) : run (option (option Z * sys)) :=
  match fuel with
  | O => Ret None
  | S fuel =>
      let* pt := get_part kpq s in
      if 0 <=? disp_maxrunpri (cp_kp_queue pt) then
        let* (r, s) := disp_getbest me (KPQ kpq) s in
        match r with
        | Some tp => Ret (Some (Some tp, s))
        | None => getwork_kp fuel me kpq s
        end
      else Ret (Some (None, s))
  end.

(** The scan of the other processors of the partition for the highest unbound thread. *)
Fixpoint getwork_scan (fuel : nat) (c ocp maxpri : Z) (tcp : option Z) (s : sys) : run (option Z) :=
  match fuel with
  | O => Fault
  | S fuel =>
      if ocp =? c then Ret tcp
      else
        let* oc := get_cpu ocp s in
        let pri := disp_max_unbound_pri (cpu_disp oc) in
        let '(maxpri, tcp) :=
          if disp_nrunnable (cpu_disp oc) <=? 1 then (maxpri, tcp)
          else if maxpri <? pri then (pri, Some ocp) else (maxpri, tcp) in
        getwork_scan fuel c (cpu_next_part oc) maxpri tcp s
  end.

(** [disp_getwork]; [None] when the first loop is out of fuel. *)
Definition disp_getwork (fuel : nat) (me : ctx) (s : sys) : run (option (option Z * sys)) :=
  let* cp := get_cpu (CPU me) s in
  let kpq := cpu_part cp in
  let* r := getwork_kp fuel me kpq s in
  match r with
  | None => Ret None
  | Some (Some tp, s) => let* r := disp_ratify me tp kpq s in Ret (Some r)
  | Some (None, s) =>
      let* tcp := getwork_scan (S (size (s_cpus s))) (CPU me) (cpu_next_part cp) (-1) None s in
      match tcp with
      | None => Ret (Some (None, s))
      | Some tc =>
          let* (r, s) := disp_getbest me (CPUQ tc) s in
          match r with
          | Some tp => let* r := disp_ratify me tp kpq s in Ret (Some r)
          | None => Ret (Some (None, s))
          end
      end
  end.

(** The idle thread is chosen. *)
Definition disp_idle (me : ctx) (s : sys) : run (Z * sys) :=
  let* cp := get_cpu (CPU me) s in
  let tp := cpu_idle_thread cp in
  let* s := mod_thread (THREAD_ONPROC (CPU me)) tp s in
  let* s := mod_cpu (λ cp, set_chosen_level (-1) (set_kprunrun 0 (set_runrun 0 (set_dispthread tp cp)))) (CPU me) s in
  Ret (tp, s).

(** The first thread of the processor's own queue is chosen. *)
Definition disp_own (me : ctx) (s : sys) : run (Z * sys) :=
  let* cp := get_cpu (CPU me) s in
  let* (tp, th, dp) := disp_take (s_threads s) (cpu_disp cp) in
  let* s := put_disp (CPUQ (CPU me)) dp (with_threads th s) in
  let* s := mod_thread DONT_SWAP tp s in
  let* s := mod_cpu (set_dispthread tp) (CPU me) s in
  let* s := mod_thread (THREAD_ONPROC (CPU me)) tp s in
  Ret (tp, s).

(** The loop of [disp] over the partition's queue: a thread, or none that is better than the
    processor's own. *)
Fixpoint disp_kp (fuel : nat) (me : ctx) (kpq : Z) (s : sys) : run (option (option Z * sys)) :=
  match fuel with
  | O => Ret None
  | S fuel =>
      let* pt := get_part kpq s in
      let* cp := get_cpu (CPU me) s in
      let pri := disp_maxrunpri (cp_kp_queue pt) in
      if (0 <=? pri) && (disp_maxrunpri (cpu_disp cp) <=? pri) && negb (cpu_offline cp) then
        let* (r, s) := disp_getbest me (KPQ kpq) s in
        match r with
        | None => Ret (Some (None, s))
        | Some tp =>
            let* (r, s) := disp_ratify me tp kpq s in
            match r with
            | Some tp => Ret (Some (Some tp, s))
            | None => disp_kp fuel me kpq s
            end
        end
      else Ret (Some (None, s))
  end.

(** [disp]; [None] when a loop is out of fuel. *)
Fixpoint disp (fuel : nat) (me : ctx) (s : sys) : run (option (Z * sys)) :=
  match fuel with
  | O => Ret None
  | S fuel =>
      let* cp := get_cpu (CPU me) s in
      let kpq := cpu_part cp in
      let* r := disp_kp (S fuel) me kpq s in
      match r with
      | None => Ret None
      | Some (Some tp, s) => Ret (Some (tp, s))
      | Some (None, s) =>
          let* cp := get_cpu (CPU me) s in
          if disp_maxrunpri (cpu_disp cp) =? -1 then
            if negb (cpu_offline cp) then
              let* r := disp_getwork (S fuel) me s in
              match r with
              | None => Ret None
              | Some (Some tp, s) => Ret (Some (tp, s))
              | Some (None, s) => let* r := disp_idle me s in Ret (Some r)
              end
            else let* r := disp_idle me s in Ret (Some r)
          else
            let* (tp, s) := disp_own me s in
            let* (r, s) := disp_ratify me tp kpq s in
            match r with
            | Some tp => Ret (Some (tp, s))
            | None => disp fuel me s
            end
      end
  end.
(** ** Giving up a processor *)

(** [in_user]: the thread runs in user mode, where it will look at its flag itself. *)
Definition cpu_surrender (me : ctx) (in_user : bool) (tp : Z) (s : sys) : run sys :=
  let* k := get_thread tp s in
  if negb (bool_decide (t_state k = TS_ONPROC)) then Ret s
  else
    match t_disp_queue k with
    | Some (CPUQ c) =>
        let* cp := get_cpu c s in
        let* pt := get_part (cpu_part cp) s in
        let max_pri := disp_maxrunpri (cpu_disp cp) in
        let max_run_pri := disp_maxrunpri (cp_kp_queue pt) in
        let max_pri := if max_pri <? max_run_pri then max_run_pri else max_pri in
        let* s := mod_cpu (set_runrun 1) c s in
        let* s := if (kpreemptpri <=? max_pri) && (cpu_kprunrun cp =? 0) then mod_cpu (set_kprunrun 1) c s else Ret s in
        if negb (tp =? curthread me) || negb in_user then
          let* s := aston tp s in Ret (if negb (c =? CPU me) then poke_cpu c s else s)
        else Ret s
    | _ => Fault
    end.

(** ** Swapping *)

Definition disp_swapped_enq (tp : Z) (s : sys) : run sys :=
  let* k := get_thread tp s in
  match t_state k with
  | TS_RUN => mod_thread (THREAD_RUN swapped_lock) tp s
  | TS_ONPROC =>
      let* s := mod_thread thread_transition tp s in
      mod_thread (THREAD_RUN swapped_lock) tp (set_wake_sched_sec 1 s)
  | _ => Panic
  end.

Definition dq_sruninc (me : ctx) (t : Z) (s : sys) : run sys :=
  let* s := mod_thread thread_transition t s in setfrontdq me t s.

Definition dq_srundec (t : Z) (s : sys) : run sys :=
  let* (_, s) := dispdeq t s in disp_swapped_enq t s.

(** ** Emptying queues *)

(** [disp_cpu_inactive]; [None] when out of fuel. *)
Fixpoint disp_cpu_inactive (fuel : nat) (me : ctx) (c : Z) (s : sys) : run (option sys) :=
  match fuel with
  | O => Ret None
  | S fuel =>
      let* cp := get_cpu c s in
      let dp := cpu_disp cp in
      let pri := disp_max_unbound_pri dp in
      if pri =? -1 then Ret (Some s)
      else
        let* dq := zget (disp_q dp) pri in
        let* tp := first_unbound (S (size (s_threads s))) (s_threads s) (dq_first dq) in
        match tp with
        | None =>
            let* dp := disp_fix_unbound_pri (s_threads s) dp pri in
            let* s := put_disp (CPUQ c) dp s in disp_cpu_inactive fuel me c s
        | Some t =>
            let* (_, s) := dispdeq t s in
            let* s := setbackdq me t s in disp_cpu_inactive fuel me c s
        end
  end.

Fixpoint disp_kp_inactive (fuel : nat) (me : ctx) (p : Z) (s : sys) : run (option sys) :=
  match fuel with
  | O => Ret None
  | S fuel =>
      let* pt := get_part p s in
      let dp := cp_kp_queue pt in
      let pri := disp_maxrunpri dp in
      if pri =? -1 then Ret (Some s)
      else
        let* dq := zget (disp_q dp) pri in
        match dq_first dq with
        | None => Fault
        | Some t =>
            let* (_, s) := dispdeq t s in
            let* s := setkpdq me link_kp_back t s in disp_kp_inactive fuel me p s
        end
  end.

(** ** Binding a thread to a processor *)

Inductive pbind := PBIND_QUERY | PBIND_NONE | PBIND_CPU (c : Z).
Inductive bind_err := EPERM | EINVAL.

(** What [cpu_bind_thread] does once the binding has changed: [moved] is whether the thread is
    where it may not be. *)
Definition bind_moved (me : ctx) (moved : bool) (tp : Z) (s : sys) : run sys :=
  if moved then
    let* k := get_thread tp s in
    match t_state k with
    | TS_ONPROC => cpu_surrender me false tp s
    | TS_RUN => let* (_, s) := dispdeq tp s in setbackdq me tp s
    | _ => Ret s
    end
  else Ret s.

(** [permitted]: the thread may be bound by the caller.  The error and the state. *)
Definition cpu_bind_thread (me : ctx) (permitted : bool) (tp : Z) (bind : pbind) (s : sys) : run (option bind_err * sys) :=
  let* k := get_thread tp s in
  match bind with
  | PBIND_QUERY => Ret (None, s)
  | _ =>
      if negb permitted then Ret (Some EPERM, s)
      else
        match bind with
        | PBIND_CPU c =>
            let* cp := get_cpu c s in
            if negb (t_cpupart k =? cpu_part cp) then Ret (Some EINVAL, s)
            else if t_affinitycnt k =? 0 then
              let* s := mod_thread (set_binding (Some c) (Some c)) tp s in
              let* s := bind_moved me (negb (c =? t_cpu k)) tp s in Ret (None, s)
            else let* s := mod_thread (set_binding (Some c) (t_bound_cpu k)) tp s in Ret (None, s)
        | _ =>
            if t_affinitycnt k =? 0 then
              let* s := mod_thread (set_binding None None) tp s in
              let* tc := get_cpu (t_cpu k) s in
              let* s := bind_moved me (negb (cpu_part tc =? t_cpupart k)) tp s in Ret (None, s)
            else let* s := mod_thread (set_binding None (t_bound_cpu k)) tp s in Ret (None, s)
        end
  end.
End Disp.
