(* ===== verification/DispInv.v ===== *)
(** * The invariant of the dispatcher

    Every thread that a dispatch queue's lock protects is on that queue, at its
    priority, and on no other; counts, bitmaps and priorities are right; the
    processors of a partition form a ring.  The steps of the dispatcher's routines
    preserve it. *)

From S2P Require Import Prelude Bitmap Dispq DispqOps Disp.

(** ** The processors of a partition *)

(** What does not change about a processor. *)
Definition cpu_static (cp : cpu) : Z * Z * Z * bool := (cpu_next_part cp, cpu_part cp, cpu_idle_thread cp, cpu_offline cp).
Definition cpu_view (s : sys) : gmap Z (Z * Z * Z * bool) := cpu_static <$> s_cpus s.
Definition part_view (s : sys) : gmap Z Z := cp_cpulist <$> s_parts s.

(** The processors [l], all of partition [p], follow one another from [x] on and lead to [c]. *)
Fixpoint chain (v : gmap Z (Z * Z * Z * bool)) (p x : Z) (l : list Z) (c : Z) : Prop :=
  match l with
  | [] => x = c
  | d :: l => x = d ∧ ∃ n i o, v !! d = Some (n, p, i, o) ∧ chain v p n l c
  end.

(** The ring of processor [c], without it. *)
Definition ring (v : gmap Z (Z * Z * Z * bool)) (p c : Z) (l : list Z) : Prop :=
  ∃ n i o, v !! c = Some (n, p, i, o) ∧ chain v p n l c ∧ NoDup (c :: l).

Record topology (v : gmap Z (Z * Z * Z * bool)) (w : gmap Z Z) : Prop := {
  to_ring c n p i o : v !! c = Some (n, p, i, o) → is_Some (w !! p) ∧ ∃ l, ring v p c l;
  to_part p c : w !! p = Some c → ∃ n i o, v !! c = Some (n, p, i, o)
}.

(** ** Queues *)

Definition disp_of (s : sys) (q : dqid) : option disp_t :=
  match q with CPUQ c => cpu_disp <$> s_cpus s !! c | KPQ p => cp_kp_queue <$> s_parts s !! p end.

Definition queues := dqid → list (list Z).
Definition set_queue (q : dqid) (ls : list (list Z)) (Q : queues) : queues := λ q', if decide (q' = q) then ls else Q q'.

Lemma set_queue_eq q ls Q : set_queue q ls Q q = ls.
Proof. unfold set_queue. by rewrite decide_True. Qed.

Lemma set_queue_ne q q' ls Q : q' ≠ q → set_queue q ls Q q' = Q q'.
Proof. intros. unfold set_queue. by rewrite decide_False. Qed.

(** The queue of a partition has no bound threads, and its two maxima agree. *)
Definition kp_ok (q : dqid) (th : threads) (dp : disp_t) (ls : list (list Z)) : Prop :=
  match q with
  | CPUQ _ => True
  | KPQ _ => disp_max_unbound_pri dp = disp_maxrunpri dp ∧
      ∀ t k, t ∈ concat ls → th !! t = Some k → t_bound_cpu k = None
  end.

Record queue_ok (npri : Z) (th : threads) (q : dqid) (dp : disp_t) (ls : list (list Z)) : Prop := {
  qo_disp : disp_ok q th dp ls;
  qo_npri : zlen ls = npri;
  qo_kp : kp_ok q th dp ls
}.

(** ** The system *)

Definition thread_refs (s : sys) (k : kthread) : Prop :=
  is_Some (s_cpus s !! t_cpu k) ∧ is_Some (s_parts s !! t_cpupart k) ∧
  ∀ c, t_bound_cpu k = Some c → is_Some (s_cpus s !! c).

Record sys_ok (npri : Z) (s : sys) (Q : queues) : Prop := {
  so_queues q dp : disp_of s q = Some dp → queue_ok npri (s_threads s) q dp (Q q);
  so_locked t k q : s_threads s !! t = Some k → t_lockp k = disp_lock q → is_Some (disp_of s q) ∧ t ∈ concat (Q q);
  so_refs t k : s_threads s !! t = Some k → thread_refs s k;
  so_cpus c cp : s_cpus s !! c = Some cp → is_Some (s_threads s !! cpu_dispthread cp) ∧
    ∃ k, s_threads s !! cpu_idle_thread cp = Some k ∧ DISP_PRIO k = -1;
  so_topology : topology (cpu_view s) (part_view s)
}.

(** A thread that no queue has. *)
Definition off_queue (k : kthread) : Prop := ∀ q, t_lockp k ≠ disp_lock q.

Lemma queue_lock npri s Q q dp t : sys_ok npri s Q → disp_of s q = Some dp → t ∈ concat (Q q) →
  ∃ k p, s_threads s !! t = Some k ∧ 0 ≤ p ∧ p < npri ∧ t ∈ lv (Q q) p ∧ on_queue q p k.
Proof.
  intros Hs Hq Ht. destruct (so_queues _ _ _ Hs q dp Hq) as [[Hls _ _ _] Hn _].
  apply elem_lv in Ht as (p & Hp0 & Hp1 & Ht). destruct (lists_thread _ _ _ _ _ _ Hls Hp0 Ht) as (_ & k & _ & Hk & Ho & _).
  exists k, p. by rewrite <-Hn.
Qed.

Lemma off_queue_notin npri s Q q dp t k : sys_ok npri s Q → disp_of s q = Some dp → s_threads s !! t = Some k →
  off_queue k → t ∉ concat (Q q).
Proof.
  intros Hs Hq Hk Hoff Ht. destruct (queue_lock _ _ _ _ _ _ Hs Hq Ht) as (k' & p & Hk' & _ & _ & _ & Ho). simplify_eq.
  destruct Ho as (_ & _ & Hl & _). by apply (Hoff q).
Qed.

(** ** Frames *)

(** Changes of a thread that no queue minds. *)
Definition same_queueing (k k' : kthread) : Prop :=
  t_link k' = t_link k ∧ t_lockp k' = t_lockp k ∧ t_bound_cpu k' = t_bound_cpu k ∧
  (∀ q p, on_queue q p k → on_queue q p k').

Lemma linked_same th th' p l :
  (∀ t k, t ∈ l → th !! t = Some k → ∃ k', th' !! t = Some k' ∧ t_link k' = t_link k) → linked th p l → linked th' p l.
Proof.
  revert p. induction l as [|t l IH]; intros p Hf; simpl; [done|]. intros (-> & k & Hk & Hl). split; [done|].
  destruct (Hf t k) as (k' & Hk' & E); [left|done|]. exists k'. split; [done|]. rewrite E. apply IH; [|done].
  intros u ku Hu. apply Hf. by right.
Qed.

Lemma queue_same npri th th' q dp ls :
  (∀ t k, t ∈ concat ls → th !! t = Some k → ∃ k', th' !! t = Some k' ∧ same_queueing k k') →
  queue_ok npri th q dp ls → queue_ok npri th' q dp ls.
Proof.
  intros Hf [[Hls Hc Ht [Hm Hub]] Hn Hkp]. pose proof Hls as [H1 H2 H3].
  assert (∀ t k', t ∈ concat ls → th' !! t = Some k' → ∃ k, th !! t = Some k ∧ t_bound_cpu k' = t_bound_cpu k) as Hb.
  { intros t k' Hin Hk'. apply elem_lv in Hin as (p & Hp0 & Hp1 & Hin).
    destruct (lists_thread _ _ _ _ _ _ Hls Hp0 Hin) as (_ & k & _ & Hk & _).
    destruct (Hf t k (lv_elem _ _ _ Hin) Hk) as (k2 & Hk2 & _ & _ & E & _). simplify_eq. by exists k. }
  split; [split; [|done|done|]|done|].
  - split; [done| |done]. intros i dq Hi Hdq. destruct (H2 i dq Hi Hdq) as [G1 G2 G3 G4]. split; [|done|done|].
    + apply (linked_same th); [|done]. intros t k Hin Hk.
      destruct (Hf t k (lv_elem _ _ _ Hin) Hk) as (k' & Hk' & E & _). by exists k'.
    + intros t Hin. destruct (G4 t Hin) as (k & Hk & Ho).
      destruct (Hf t k (lv_elem _ _ _ Hin) Hk) as (k' & Hk' & _ & _ & _ & E). exists k'. split; [done|by apply E].
  - split; [done|]. intros i t k' Hi Hin Hk' Hbk. destruct (Hb t k' (lv_elem _ _ _ Hin) Hk') as (k & Hk & E).
    apply (Hub i t k Hi Hin Hk). congruence.
  - destruct q as [c|p]; [done|]. destruct Hkp as [Ek Hkp]. split; [done|]. intros t k' Hin Hk'.
    destruct (Hb t k' Hin Hk') as (k & Hk & E). rewrite E. by apply (Hkp t k).
Qed.

Lemma queue_frame npri th th' q dp ls :
  (∀ t, t ∈ concat ls → th' !! t = th !! t) → queue_ok npri th q dp ls → queue_ok npri th' q dp ls.
Proof.
  intros Hf. apply queue_same. intros t k Ht Hk. exists k. rewrite Hf by done. split; [done|]. done.
Qed.

(** ** Steps that leave the queues alone *)

(** The threads after a step, with what a processor or partition refers to. *)
Definition same_refs (th th' : threads) : Prop :=
  (∀ t k', th' !! t = Some k' → ∃ k, th !! t = Some k ∧ t_cpu k' = t_cpu k ∧ t_cpupart k' = t_cpupart k ∧
     t_bound_cpu k' = t_bound_cpu k ∧ DISP_PRIO k' = DISP_PRIO k) ∧
  ∀ t, is_Some (th !! t) → is_Some (th' !! t).

Lemma same_refs_refl th : same_refs th th.
Proof. split; [|done]. intros t k Hk. by exists k. Qed.

Lemma same_refs_trans th th' th'' : same_refs th th' → same_refs th' th'' → same_refs th th''.
Proof.
  intros [A1 A2] [B1 B2]. split; [|auto]. intros t k'' Hk''. destruct (B1 t k'' Hk'') as (k' & Hk' & ? & ? & ? & ?).
  destruct (A1 t k' Hk') as (k & Hk & ? & ? & ? & ?). exists k. split; [done|]. split_and!; congruence.
Qed.

Lemma same_refs_insert th t k k' : th !! t = Some k → t_cpu k' = t_cpu k → t_cpupart k' = t_cpupart k →
  t_bound_cpu k' = t_bound_cpu k → DISP_PRIO k' = DISP_PRIO k → same_refs th (<[t := k']> th).
Proof.
  intros Hk E1 E2 E3 E4. split.
  - intros u ku. destruct (decide (u = t)) as [->|Hne].
    + rewrite lookup_insert_eq. intros [= <-]. by exists k.
    + rewrite lookup_insert_ne by done. intros Hu. by exists ku.
  - intros u Hu. destruct (decide (u = t)) as [->|Hne]; [rewrite lookup_insert_eq; eauto|by rewrite lookup_insert_ne].
Qed.

(** What a step keeps of the system besides the queues. *)
Record keeps (s s' : sys) : Prop := {
  ke_cpus : cpu_view s' = cpu_view s;
  ke_parts : part_view s' = part_view s;
  ke_threads : same_refs (s_threads s) (s_threads s')
}.

Lemma keeps_refl s : keeps s s.
Proof. split; [done|done|apply same_refs_refl]. Qed.

Lemma keeps_trans s s' s'' : keeps s s' → keeps s' s'' → keeps s s''.
Proof. intros [A1 A2 A3] [B1 B2 B3]. split; [congruence|congruence|by eapply same_refs_trans]. Qed.

Lemma view_lookup s c : cpu_view s !! c = cpu_static <$> s_cpus s !! c.
Proof. apply lookup_fmap. Qed.

Lemma part_view_lookup s p : part_view s !! p = cp_cpulist <$> s_parts s !! p.
Proof. apply lookup_fmap. Qed.

Lemma view_cpu s c x : cpu_view s !! c = Some x → ∃ cp, s_cpus s !! c = Some cp ∧ cpu_static cp = x.
Proof. rewrite view_lookup. intros (cp & Hc & ->)%fmap_Some. by exists cp. Qed.

Lemma keeps_cpu s s' c : keeps s s' → is_Some (s_cpus s !! c) → is_Some (s_cpus s' !! c).
Proof.
  intros [Hv _ _] [cp Hc]. assert (cpu_view s' !! c = Some (cpu_static cp)) as (cp' & Hc' & _)%view_cpu; [|eauto].
  by rewrite Hv, view_lookup, Hc.
Qed.

Lemma keeps_part s s' p : keeps s s' → is_Some (s_parts s !! p) → is_Some (s_parts s' !! p).
Proof.
  intros [_ Hv _] [pt Hp]. assert (part_view s' !! p = Some (cp_cpulist pt)) as H.
  { by rewrite Hv, part_view_lookup, Hp. }
  rewrite part_view_lookup in H. destruct (s_parts s' !! p); [eauto|done].
Qed.

Lemma keeps_refs s s' k k' : keeps s s' → thread_refs s k → t_cpu k' = t_cpu k → t_cpupart k' = t_cpupart k →
  t_bound_cpu k' = t_bound_cpu k → thread_refs s' k'.
Proof.
  intros Hk (H1 & H2 & H3) E1 E2 E3. unfold thread_refs. rewrite E1, E2, E3.
  split_and!; [by eapply keeps_cpu|by eapply keeps_part|]. intros c Hc. eapply keeps_cpu; eauto.
Qed.

(** The general step: queue [q] gets the lists [ls], others keep theirs. *)
Lemma sys_step npri s s' Q Q' :
  sys_ok npri s Q → keeps s s' →
  (∀ q dp, disp_of s' q = Some dp → queue_ok npri (s_threads s') q dp (Q' q)) →
  (∀ t k q, s_threads s' !! t = Some k → t_lockp k = disp_lock q → is_Some (disp_of s q) ∧ t ∈ concat (Q' q)) →
  (∀ q, is_Some (disp_of s q) → is_Some (disp_of s' q)) →
  (∀ c cp', s_cpus s' !! c = Some cp' → is_Some (s_threads s' !! cpu_dispthread cp')) →
  sys_ok npri s' Q'.
Proof.
  intros Hs Hke Hq Hl Hd Hc. split; [done| | | |].
  - intros t k q Hk Hlk. destruct (Hl t k q Hk Hlk). auto.
  - intros t k' Hk'. destruct (proj1 (ke_threads _ _ Hke) t k' Hk') as (k & Hk & E1 & E2 & E3 & _).
    by eapply keeps_refs; [exact Hke|eapply so_refs| | |].
  - intros c cp' Hcp'. split; [by eapply Hc|]. 
    assert (cpu_view s !! c = Some (cpu_static cp')) as (cp & Hcp & E)%view_cpu.
    { by rewrite <-(ke_cpus _ _ Hke), view_lookup, Hcp'. }
    injection E as _ _ <- _. destruct (so_cpus _ _ _ Hs c cp Hcp) as [_ (k & Hk & Ek)].
    destruct (proj2 (ke_threads _ _ Hke) (cpu_idle_thread cp)) as [k' Hk']; [eauto|]. exists k'. split; [done|].
    destruct (proj1 (ke_threads _ _ Hke) _ k' Hk') as (k0 & Hk0 & _ & _ & _ & ->). congruence.
  - rewrite (ke_cpus _ _ Hke), (ke_parts _ _ Hke). by eapply so_topology.
Qed.

(** ** Steps that change flags only *)

Record mild (s s' : sys) : Prop := {
  mi_parts : s_parts s' = s_parts s;
  mi_cpus c cp' : s_cpus s' !! c = Some cp' → ∃ cp, s_cpus s !! c = Some cp ∧ cpu_static cp' = cpu_static cp ∧
    cpu_disp cp' = cpu_disp cp ∧ cpu_dispthread cp' = cpu_dispthread cp ∧ (cpu_runrun cp ≠ 0 → cpu_runrun cp' ≠ 0);
  mi_cpus_dom c : is_Some (s_cpus s !! c) → is_Some (s_cpus s' !! c);
  mi_threads t k' : s_threads s' !! t = Some k' → ∃ k v, s_threads s !! t = Some k ∧ k' = set_astflag v k;
  mi_threads_dom t : is_Some (s_threads s !! t) → is_Some (s_threads s' !! t)
}.

Lemma set_astflag_id k : set_astflag (t_astflag k) k = k.
Proof. by destruct k. Qed.

Lemma mild_refl s : mild s s.
Proof. split; [done| |done| |done]. - intros c cp H. by exists cp. - intros t k H. exists k, (t_astflag k). by rewrite set_astflag_id. Qed.

Lemma mild_trans s s' s'' : mild s s' → mild s' s'' → mild s s''.
Proof.
  intros [A1 A2 A3 A4 A5] [B1 B2 B3 B4 B5]. split; [congruence| |auto| |auto].
  - intros c cp'' H. destruct (B2 c cp'' H) as (cp' & H' & ? & ? & ? & ?). destruct (A2 c cp' H') as (cp & ? & ? & ? & ? & ?).
    exists cp. split_and!; [done|congruence|congruence|congruence|auto].
  - intros t k'' H. destruct (B4 t k'' H) as (k' & v & H' & ->). destruct (A4 t k' H') as (k & w & ? & ->). by exists k, v.
Qed.

(** A processor that runs something less than the best of its queue has been asked to give it
    up; an idle one looks at its queue itself. *)
Definition preempt_ok (s : sys) (c : Z) : Prop :=
  ∀ cp k, s_cpus s !! c = Some cp → s_threads s !! cpu_dispthread cp = Some k →
    DISP_PRIO k = -1 ∨ disp_maxrunpri (cpu_disp cp) ≤ DISP_PRIO k ∨ cpu_runrun cp ≠ 0.

(** What a step does that moves thread [tp] and, on processor [c0], chooses a thread: the new
    queues are right, other threads that are on no queue are left alone but for their flag, and no
    other processor is told to run something else or forgets that it was asked to. *)
Record effect (npri : Z) (c0 : option Z) (tp : Z) (s s' : sys) (Q' : queues) : Prop := {
  ef_ok : sys_ok npri s' Q';
  ef_keeps : keeps s s';
  ef_threads t k : t ≠ tp → s_threads s !! t = Some k → off_queue k → ∃ v, s_threads s' !! t = Some (set_astflag v k);
  ef_cpus c cp' : Some c ≠ c0 → s_cpus s' !! c = Some cp' →
    ∃ cp, s_cpus s !! c = Some cp ∧ cpu_dispthread cp' = cpu_dispthread cp;
  ef_preempt c : Some c ≠ c0 → preempt_ok s c → preempt_ok s' c
}.

Lemma mild_keeps s s' : mild s s' → keeps s s'.
Proof.
  intros [A1 A2 A3 A4 A5]. split.
  - apply map_eq. intros c. rewrite !view_lookup. destruct (s_cpus s' !! c) as [cp'|] eqn:E.
    + destruct (A2 c cp' E) as (cp & -> & Es & _). simpl. by rewrite Es.
    + destruct (s_cpus s !! c) eqn:E'; [|done]. destruct (A3 c) as [? H]; [eauto|congruence].
  - unfold part_view. by rewrite A1.
  - split; [|done]. intros t k' H. destruct (A4 t k' H) as (k & v & ? & ->). by exists k.
Qed.

Lemma mild_disp s s' q : mild s s' → disp_of s' q = disp_of s q.
Proof.
  intros [A1 A2 A3 _ _]. destruct q as [c|p]; simpl; [|by rewrite A1]. destruct (s_cpus s' !! c) as [cp'|] eqn:E.
  - destruct (A2 c cp' E) as (cp & -> & _ & Ed & _). simpl. by rewrite Ed.
  - destruct (s_cpus s !! c) eqn:E'; [|done]. destruct (A3 c) as [? H]; [eauto|congruence].
Qed.

Lemma mild_ok npri s s' Q : sys_ok npri s Q → mild s s' → sys_ok npri s' Q.
Proof.
  intros Hs Hm. eapply (sys_step npri s); [done|by apply mild_keeps| | | |].
  - intros q dp Hq. rewrite (mild_disp s s' q Hm) in Hq. apply (queue_same npri (s_threads s)); [|by apply (so_queues _ _ _ Hs)].
    intros t k _ Hk. destruct (mi_threads_dom _ _ Hm t) as [k' Hk']; [eauto|].
    destruct (mi_threads _ _ Hm t k' Hk') as (k0 & v & Hk0 & ->). rewrite Hk in Hk0. injection Hk0 as <-.
    by exists (set_astflag v k).
  - intros t k' q Hk' Hl. destruct (mi_threads _ _ Hm t k' Hk') as (k & v & Hk & ->). by eapply so_locked.
  - intros q. by rewrite (mild_disp s s' q Hm).
  - intros c cp' Hc. destruct (mi_cpus _ _ Hm c cp' Hc) as (cp & Hcp & _ & _ & -> & _).
    apply (mi_threads_dom _ _ Hm). by eapply so_cpus.
Qed.

Lemma mild_preempt s s' c : mild s s' → preempt_ok s c → preempt_ok s' c.
Proof.
  intros Hm Hp cp' k' Hc Hk'. destruct (mi_cpus _ _ Hm c cp' Hc) as (cp & Hcp & _ & -> & E & Hr). rewrite E in Hk'.
  destruct (mi_threads _ _ Hm _ k' Hk') as (k & v & Hk & ->). change (DISP_PRIO (set_astflag v k)) with (DISP_PRIO k).
  destruct (Hp cp k Hcp Hk) as [?|[?|?]]; auto.
Qed.

Lemma mild_effect npri c0 tp s s' Q : sys_ok npri s Q → mild s s' → effect npri c0 tp s s' Q.
Proof.
  intros Hs Hm. split; [by eapply mild_ok|by apply mild_keeps| | |].
  - intros t k _ Hk _. destruct (mi_threads_dom _ _ Hm t) as [k' Hk']; [eauto|].
    destruct (mi_threads _ _ Hm t k' Hk') as (k0 & v & Hk0 & ->). exists v. congruence.
  - intros c cp' _ Hc. destruct (mi_cpus _ _ Hm c cp' Hc) as (cp & Hcp & _ & _ & E & _). by exists cp.
  - intros c _. by apply mild_preempt.
Qed.

Lemma effect_trans npri c0 tp s s' s'' Q' Q'' :
  effect npri c0 tp s s' Q' → effect npri c0 tp s' s'' Q'' → effect npri c0 tp s s'' Q''.
Proof.
  intros [A1 A2 A3 A4 A5] [B1 B2 B3 B4 B5]. split; [done|by eapply keeps_trans| | |auto].
  - intros t k Hne Hk Hoff. destruct (A3 t k Hne Hk Hoff) as [v Hv].
    destruct (B3 t _ Hne Hv) as [w Hw]; [done|]. by exists w.
  - intros c cp'' Hne Hc. destruct (B4 c cp'' Hne Hc) as (cp' & Hc' & ->). by apply A4.
Qed.

Lemma effect_weaken npri c0 tp s s' Q' : effect npri None tp s s' Q' → effect npri c0 tp s s' Q'.
Proof. intros [A1 A2 A3 A4 A5]. split; [done|done|done| |]; intros; [by apply A4|by apply A5]. Qed.

Lemma mod_cpu_mild f c cp s : s_cpus s !! c = Some cp → cpu_static (f cp) = cpu_static cp → cpu_disp (f cp) = cpu_disp cp →
  cpu_dispthread (f cp) = cpu_dispthread cp → (cpu_runrun cp ≠ 0 → cpu_runrun (f cp) ≠ 0) →
  mod_cpu f c s = Ret (put_cpu c (f cp) s) ∧ mild s (put_cpu c (f cp) s).
Proof.
  intros Hc E1 E2 E3 E4. unfold mod_cpu, get_cpu. rewrite Hc. split; [done|]. split; simpl; [done| | | |done].
  - intros d cd. destruct (decide (d = c)) as [->|Hne].
    + rewrite lookup_insert_eq. intros [= <-]. by exists cp.
    + rewrite lookup_insert_ne by done. intros H. by exists cd.
  - intros d H. destruct (decide (d = c)) as [->|Hne]; [rewrite lookup_insert_eq; eauto|by rewrite lookup_insert_ne].
  - intros t k H. exists k, (t_astflag k). by rewrite set_astflag_id.
Qed.

Lemma aston_mild t k s : s_threads s !! t = Some k →
  ∃ s', aston t s = Ret s' ∧ mild s s' ∧ s_cpus s' = s_cpus s.
Proof.
  intros Hk. unfold aston, mod_thread. rewrite (tmod_ok _ t _ k) by done. cbn [rbind]. eexists. split; [done|].
  split; [|done]. split; simpl; [done| |done| |].
  - intros c cp H. by exists cp.
  - intros u ku. destruct (decide (u = t)) as [->|Hne].
    + rewrite lookup_insert_eq. intros [= <-]. by exists k, 1.
    + rewrite lookup_insert_ne by done. intros H. exists ku, (t_astflag ku). by rewrite set_astflag_id.
  - intros u H. destruct (decide (u = t)) as [->|Hne]; [rewrite lookup_insert_eq; eauto|by rewrite lookup_insert_ne].
Qed.

Lemma poke_mild c s : mild s (poke_cpu c s).
Proof. split; simpl; [done| |done| |done]. - intros d cd H. by exists cd. - intros t k H. exists k, (t_astflag k). by rewrite set_astflag_id. Qed.

(** ** Asking for a processor *)

Section Choose.
Context (kpreemptpri upreemptpri rechoose_interval : Z).

Lemma cpu_resched_ok me npri s Q c cp tpri cpupri : sys_ok npri s Q → s_cpus s !! c = Some cp →
  ∃ s', cpu_resched kpreemptpri upreemptpri me c tpri cpupri s = Ret s' ∧ mild s s' ∧
    (cpupri ≠ -1 → cpupri < tpri → upreemptpri ≤ tpri →
     ∀ cp', s_cpus s' !! c = Some cp' → cpu_runrun cp' ≠ 0).
Proof.
  intros Hs Hc. unfold cpu_resched, CPU_IDLING.
  destruct (Z.eqb_spec cpupri (-1)); cbn [negb andb].
  { exists s. split; [done|]. split; [apply mild_refl|done]. }
  destruct (Z.ltb_spec cpupri tpri) as [Hlt|].
  2: { exists s. split; [done|]. split; [apply mild_refl|lia]. }
  unfold get_cpu at 1. rewrite Hc. cbn [rbind].
  assert (∃ s1 cp1, (if (upreemptpri <=? tpri) && (cpu_runrun cp =? 0) then
        let* s := mod_cpu (set_runrun 1) c s in
        let* s := aston (cpu_dispthread cp) s in
        Ret (if (tpri <? kpreemptpri) && negb (c =? CPU me) then poke_cpu c s else s)
      else Ret s) = Ret s1 ∧ mild s s1 ∧ s_cpus s1 !! c = Some cp1 ∧ cpu_kprunrun cp1 = cpu_kprunrun cp ∧
      (upreemptpri ≤ tpri → cpu_runrun cp1 ≠ 0)) as (s1 & cp1 & -> & Hm1 & Hc1 & Ek & Hr1).
  { destruct ((upreemptpri <=? tpri) && (cpu_runrun cp =? 0)) eqn:E.
    - destruct (mod_cpu_mild (set_runrun 1) c cp s Hc) as [-> Hm]; [done..|]. cbn [rbind].
      destruct (so_cpus _ _ _ Hs c cp Hc) as [[k Hk] _].
      destruct (aston_mild (cpu_dispthread cp) k (put_cpu c (set_runrun 1 cp) s) Hk) as (s2 & -> & Hm2 & Ecs). cbn [rbind].
      assert (s_cpus s2 !! c = Some (set_runrun 1 cp)) as Hc2 by (rewrite Ecs; apply lookup_insert_eq).
      destruct ((tpri <? kpreemptpri) && negb (c =? CPU me)).
      + exists (poke_cpu c s2), (set_runrun 1 cp). split; [done|].
        split; [eapply mild_trans; [exact Hm|]; eapply mild_trans; [exact Hm2|apply poke_mild]|]. done.
      + exists s2, (set_runrun 1 cp). split; [done|]. split; [by eapply mild_trans|]. done.
    - exists s, cp. split; [done|]. split; [apply mild_refl|]. split_and!; [done|done|]. intros Hu.
      rewrite (proj2 (Z.leb_le _ _) Hu) in E. simpl in E. by apply Z.eqb_neq. }
  cbn [rbind]. destruct ((kpreemptpri <=? tpri) && (cpu_kprunrun cp =? 0)).
  - destruct (mod_cpu_mild (set_kprunrun 1) c cp1 s1 Hc1) as [-> Hm]; [done..|]. cbn [rbind].
    assert (s_cpus (put_cpu c (set_kprunrun 1 cp1) s1) !! c = Some (set_kprunrun 1 cp1)) as Hc2 by apply lookup_insert_eq.
    destruct (negb (c =? CPU me)); eexists; (split; [done|]); (split; [|intros _ _ Hu cp' Hc'; simpl in Hc', Hc2; simplify_eq; by apply Hr1]).
    + eapply mild_trans; [exact Hm1|]. eapply mild_trans; [exact Hm|apply poke_mild].
    + by eapply mild_trans.
  - exists s1. split; [done|]. split; [done|]. intros _ _ Hu cp' Hc'. simplify_eq. by apply Hr1.
Qed.

Lemma cpu_level_ok npri s Q c cp : sys_ok npri s Q → s_cpus s !! c = Some cp → ∃ l, cpu_level cp s = Ret l.
Proof.
  intros Hs Hc. destruct (so_cpus _ _ _ Hs c cp Hc) as [[k Hk] _]. unfold cpu_level, get_thread, tget. rewrite Hk. by eexists.
Qed.

(** The scan stays in the partition and ends. *)
Lemma lowpri_scan_ok npri s Q p hint l : sys_ok npri s Q → hint ∉ l →
  ∀ fuel c best bestpri, (length l < fuel)%nat → NoDup (c :: l) →
  (∃ n i o, cpu_view s !! c = Some (n, p, i, o) ∧ chain (cpu_view s) p n l hint) →
  (∃ n i o, cpu_view s !! best = Some (n, p, i, o)) →
  ∃ b, lowpri_scan fuel hint c best bestpri s = Ret b ∧ ∃ n i o, cpu_view s !! b = Some (n, p, i, o).
Proof.
  intros Hs. induction l as [|d l IH]; intros Hh [|fuel] c best bestpri Hf Hnd (n & i & o & Hv & Hch) Hbest;
    simpl in Hf; try lia; cbn [lowpri_scan]; apply view_cpu in Hv as Hv'; destruct Hv' as (cp & Hc & Est);
    unfold get_cpu; rewrite Hc; cbn [rbind]; destruct (cpu_level_ok npri s Q c cp Hs Hc) as [lev ->]; cbn [rbind];
    assert (cpu_next_part cp = n) as -> by (by injection Est); simpl in Hch.
  - subst n. rewrite Z.eqb_refl. destruct (lev <? bestpri); eexists; (split; [done|]); eauto.
  - destruct Hch as (-> & n' & i' & o' & Hd & Hch). apply not_elem_of_cons in Hh as [Hne Hh].
    rewrite (proj2 (Z.eqb_neq d hint)) by done. apply NoDup_cons in Hnd as [_ Hnd].
    destruct (lev <? bestpri); apply IH; try done; [lia|by eauto 10|by eauto|lia|by eauto 10].
Qed.

Lemma ring_size npri s Q p c l : sys_ok npri s Q → ring (cpu_view s) p c l → (length l < size (s_cpus s))%nat.
Proof.
  intros Hs (n & i & o & Hv & Hch & Hnd).
  assert (∀ d, d ∈ c :: l → is_Some (s_cpus s !! d)) as Hin.
  { assert (∀ l x, chain (cpu_view s) p x l c → ∀ d, d ∈ l → is_Some (s_cpus s !! d)) as H.
    { clear. induction l as [|e l IH]; intros x; simpl; [intros _ d Hd; by apply elem_of_nil in Hd|].
      intros (_ & n & i & o & He & Hch) d [->|Hd]%elem_of_cons; [|by eapply IH].
      apply view_cpu in He as (cp & -> & _). eauto. }
    intros d [->|Hd]%elem_of_cons; [|by eapply H]. apply view_cpu in Hv as (cp & -> & _). eauto. }
  rewrite <-size_dom. change (length l < size (dom (s_cpus s)))%nat.
  assert (length (c :: l) ≤ size (dom (D := gset Z) (s_cpus s)))%nat; [|simpl in *; lia].
  rewrite <-(size_list_to_set (C := gset Z) (c :: l)) by done. apply subseteq_size. intros d Hd.
  apply elem_of_dom, Hin. by apply elem_of_list_to_set in Hd.
Qed.

Lemma disp_lowpri_cpu_ok npri s Q hint cp : sys_ok npri s Q → s_cpus s !! hint = Some cp →
  ∃ b bp, disp_lowpri_cpu hint s = Ret b ∧ s_cpus s !! b = Some bp ∧ cpu_part bp = cpu_part cp.
Proof.
  intros Hs Hc. assert (cpu_view s !! hint = Some (cpu_static cp)) as Hv by (by rewrite view_lookup, Hc).
  destruct (to_ring _ _ (so_topology _ _ _ Hs) _ _ _ _ _ Hv) as (_ & l & Hring).
  pose proof (ring_size npri s Q _ _ _ Hs Hring) as Hsz. destruct Hring as (n & i & o & Hv' & Hch & Hnd).
  unfold disp_lowpri_cpu. pose proof Hnd as [Hnin _]%NoDup_cons.
  destruct (lowpri_scan_ok npri s Q (cpu_part cp) hint l Hs Hnin (size (s_cpus s)) hint hint SHRT_MAX)
    as (b & -> & nb & ib & ob & Hb); [done|done|eauto 10|eauto|].
  apply view_cpu in Hb as (bp & Hb & E). exists b, bp. split_and!; [done|done|by injection E].
Qed.

(** A processor of the partition that the thread's last processor is in. *)
Lemma cpu_choose_ok npri s Q me t k tpri cp : sys_ok npri s Q → s_threads s !! t = Some k → s_cpus s !! t_cpu k = Some cp →
  ∃ c bp, cpu_choose kpreemptpri rechoose_interval me t tpri s = Ret c ∧ s_cpus s !! c = Some bp ∧ cpu_part bp = cpu_part cp.
Proof.
  intros Hs Hk Hc. unfold cpu_choose, get_thread, tget. rewrite Hk. cbn [rbind]. case_if; [by eapply disp_lowpri_cpu_ok|eauto].
Qed.

Lemma zget_queue npri s Q c cp p : sys_ok npri s Q → s_cpus s !! c = Some cp → 0 ≤ p → p < npri →
  ∃ dq, zget (disp_q (cpu_disp cp)) p = Ret dq.
Proof.
  intros Hs Hc Hp Hn. destruct (so_queues _ _ _ Hs (CPUQ c) (cpu_disp cp)) as [[[H1 _ _] _ _ _] Hnp _].
  { simpl. by rewrite Hc. }
  destruct (zget_in (disp_q (cpu_disp cp)) p) as (dq & _ & ->); [lia|eauto].
Qed.

Lemma next_cpu npri s Q c cp : sys_ok npri s Q → s_cpus s !! c = Some cp →
  ∃ np, s_cpus s !! cpu_next_part cp = Some np ∧ cpu_part np = cpu_part cp.
Proof.
  intros Hs Hc. assert (cpu_view s !! c = Some (cpu_static cp)) as Hv by (by rewrite view_lookup, Hc).
  destruct (to_ring _ _ (so_topology _ _ _ Hs) _ _ _ _ _ Hv) as (_ & l & n & i & o & Hv' & Hch & _).
  rewrite Hv in Hv'. injection Hv' as <- _ _. destruct l as [|d l]; simpl in Hch.
  - rewrite Hch. eauto.
  - destruct Hch as (-> & n' & i' & o' & Hd & _). apply view_cpu in Hd as (np & Hd & E). exists np. split; [done|by injection E].
Qed.

Lemma part_cpu npri s Q p : sys_ok npri s Q → is_Some (s_parts s !! p) →
  ∃ pt cp, s_parts s !! p = Some pt ∧ s_cpus s !! cp_cpulist pt = Some cp ∧ cpu_part cp = p.
Proof.
  intros Hs [pt Hp]. assert (part_view s !! p = Some (cp_cpulist pt)) as Hv by (by rewrite part_view_lookup, Hp).
  destruct (to_part _ _ (so_topology _ _ _ Hs) _ _ Hv) as (n & i & o & Hc). apply view_cpu in Hc as (cp & Hc & E).
  exists pt, cp. split_and!; [done|done|by injection E].
Qed.

(** [setbackdq] and [setfrontdq] choose a processor of the thread's own partition. *)
Lemma back_choice_ok npri s Q me t k tpri : sys_ok npri s Q → s_threads s !! t = Some k → 0 ≤ tpri → tpri < npri →
  ∃ c bp, back_choice kpreemptpri rechoose_interval me t tpri k s = Ret c ∧ s_cpus s !! c = Some bp ∧ cpu_part bp = t_cpupart k.
Proof.
  intros Hs Hk Hp Hn. destruct (so_refs _ _ _ Hs t k Hk) as ([cp Hc] & Hpart & _). unfold back_choice.
  destruct (cpu_choose_ok npri s Q me t k tpri cp Hs Hk Hc) as (c & bp & -> & Hb & Ep). cbn [rbind].
  unfold get_cpu at 1. rewrite Hb. cbn [rbind]. destruct (Z.eqb_spec (t_cpupart k) (cpu_part bp)) as [E|E].
  - destruct (zget_queue npri s Q c bp tpri Hs Hb Hp Hn) as [dq ->]. cbn [rbind].
    set (qlen := if Q_MATCH_PRI <=? tpri then _ else _). destruct (0 <? qlen); [|by exists c, bp].
    destruct (next_cpu npri s Q c bp Hs Hb) as (np & Hnp & Epn). unfold get_cpu. rewrite Hnp. cbn [rbind].
    destruct (zget_queue npri s Q _ np tpri Hs Hnp Hp Hn) as [dq' ->]. cbn [rbind]. destruct (dq_sruncnt dq' <? qlen); [|by exists c, bp].
    exists (cpu_next_part bp), np. split_and!; [done|done|congruence].
  - destruct (part_cpu npri s Q _ Hs Hpart) as (pt & cl & Hpt & Hcl & Ecl). unfold get_part. rewrite Hpt. cbn [rbind].
    rewrite <-Ecl. by eapply disp_lowpri_cpu_ok.
Qed.

Lemma front_choice_ok npri s Q me t k tpri : sys_ok npri s Q → s_threads s !! t = Some k →
  ∃ c bp, front_choice kpreemptpri rechoose_interval me t tpri k s = Ret c ∧ s_cpus s !! c = Some bp ∧ cpu_part bp = t_cpupart k.
Proof.
  intros Hs Hk. destruct (so_refs _ _ _ Hs t k Hk) as ([cp Hc] & Hpart & _). unfold front_choice.
  unfold get_cpu. rewrite Hc. cbn [rbind]. destruct (Z.eqb_spec (t_cpupart k) (cpu_part cp)) as [E|E].
  - case_if; [|by exists (t_cpu k), cp]. rewrite E. by eapply cpu_choose_ok.
  - destruct (part_cpu npri s Q _ Hs Hpart) as (pt & cl & Hpt & Hcl & Ecl). unfold get_part. rewrite Hpt. cbn [rbind].
    rewrite <-Ecl. by eapply disp_lowpri_cpu_ok.
Qed.
End Choose.

(** ** A queue changes *)

(** Processors after the queue [q] has become [dp']: only that queue is different. *)
Definition cpus_but (q : dqid) (dp' : disp_t) (s s' : sys) : Prop :=
  ∀ c cp', s_cpus s' !! c = Some cp' → ∃ cp, s_cpus s !! c = Some cp ∧
    cpu_dispthread cp' = cpu_dispthread cp ∧ cpu_runrun cp' = cpu_runrun cp ∧
    cpu_disp cp' = if decide (q = CPUQ c) then dp' else cpu_disp cp.

Lemma put_disp_ok q dp dp' th' s : disp_of s q = Some dp → same_refs (s_threads s) th' →
  ∃ s', put_disp q dp' (with_threads th' s) = Ret s' ∧ keeps s s' ∧ s_threads s' = th' ∧ cpus_but q dp' s s' ∧
    ∀ q', disp_of s' q' = if decide (q' = q) then Some dp' else disp_of s q'.
Proof.
  intros Hq Hr. destruct q as [c|p]; simpl in Hq; apply fmap_Some in Hq as (x & Hx & ->).
  - simpl. unfold mod_cpu, get_cpu. simpl. rewrite Hx. cbn [rbind]. eexists. split; [done|]. split; [|split; [done|split]].
    + split; simpl; [|done|done]. unfold cpu_view. simpl. rewrite fmap_insert. apply insert_id. by rewrite lookup_fmap, Hx.
    + intros d cd. simpl. destruct (decide (d = c)) as [->|Hne].
      * rewrite lookup_insert_eq. intros [= <-]. exists x. by rewrite decide_True.
      * rewrite lookup_insert_ne by done. intros H. exists cd. rewrite decide_False by congruence. done.
    + intros [d|p']; [|by rewrite decide_False]. cbn [disp_of put_cpu with_cpus with_threads s_cpus].
      destruct (decide (d = c)) as [->|Hne]; [by rewrite lookup_insert_eq, decide_True|].
      by rewrite lookup_insert_ne, decide_False by congruence.
  - simpl. unfold get_part. simpl. rewrite Hx. cbn [rbind]. eexists. split; [done|]. split; [|split; [done|split]].
    + split; simpl; [done| |done]. unfold part_view. simpl. rewrite fmap_insert. apply insert_id. by rewrite lookup_fmap, Hx.
    + intros d cd Hd. exists cd. by rewrite decide_False.
    + intros [d|p']; [by rewrite decide_False|]. cbn [disp_of put_part with_parts with_threads s_parts].
      destruct (decide (p' = p)) as [->|Hne]; [by rewrite lookup_insert_eq, decide_True|].
      by rewrite lookup_insert_ne, decide_False by congruence.
Qed.

Lemma queue_step npri q dp dp' th' ls' s Q :
  sys_ok npri s Q → disp_of s q = Some dp → queue_ok npri th' q dp' ls' → same_refs (s_threads s) th' →
  (∀ q' t, q' ≠ q → is_Some (disp_of s q') → t ∈ concat (Q q') → th' !! t = s_threads s !! t) →
  (∀ t k' q', th' !! t = Some k' → t_lockp k' = disp_lock q' →
     if decide (q' = q) then t ∈ concat ls' else ∃ k, s_threads s !! t = Some k ∧ t_lockp k = disp_lock q') →
  ∃ s', put_disp q dp' (with_threads th' s) = Ret s' ∧ sys_ok npri s' (set_queue q ls' Q) ∧ keeps s s' ∧
    s_threads s' = th' ∧ cpus_but q dp' s s'.
Proof.
  intros Hs Hq Hok Hr Hf Hl. destruct (put_disp_ok q dp dp' th' s Hq Hr) as (s' & -> & Hk & Hth & Hc & Hd).
  exists s'. split; [done|]. split; [|done]. eapply (sys_step npri s); [done|done| | | |].
  - intros q' dq'. rewrite Hd, Hth. unfold set_queue. destruct (decide (q' = q)) as [->|Hne]; [by intros [= <-]|].
    intros Hq'. apply (queue_frame npri (s_threads s)); [|by apply (so_queues _ _ _ Hs)]. intros t Ht. apply (Hf q'); eauto.
  - intros t k' q'. rewrite Hth. intros Hk' Hlk. specialize (Hl t k' q' Hk' Hlk). unfold set_queue.
    destruct (decide (q' = q)) as [->|Hne]; [eauto|]. destruct Hl as (k & Hkt & Hlt). by eapply so_locked.
  - intros q'. rewrite Hd. destruct (decide (q' = q)); eauto.
  - intros c cp' Hcp'. rewrite Hth. destruct (Hc c cp' Hcp') as (cp & Hcp & -> & _). apply (proj2 Hr). by eapply so_cpus.
Qed.

(** ** Putting a thread on a queue *)

Section SysEnq.
Context (link : Z → dispq → threads → run (dispq * threads)) (put : Z → list Z → list Z) (pre : kthread → Prop).
Hypothesis Hlink : links link put pre.
Hypothesis Hput : ∀ t l, put t l ≡ₚ t :: l.
Hypothesis Hpre : ∀ q k, pre k → pre (set_disp_queue q (THREAD_RUN (disp_lock q) k)).

(** The queues with the thread on one more. *)
Definition enqueued (q : dqid) (p tp : Z) (Q : queues) : queues := set_queue q (enq put p tp (Q q)) Q.

Lemma enq_refs q th th' tp k (l : list Z) : th !! tp = Some k → relinked (<[tp := queued q k]> th) th' →
  (∀ t, t ∉ l → t ≠ tp → th' !! t = th !! t) → (∀ t, t ∈ l → is_Some (th !! t)) → same_refs th th'.
Proof.
  intros Hk Hr Hf Hdom.
  apply (same_refs_trans _ (<[tp := queued q k]> th)); [by apply (same_refs_insert th tp k)|]. split.
  - intros t k' Hk'. destruct (<[tp := queued q k]> th !! t) as [k1|] eqn:E.
    + destruct (Hr t k1 E) as [v Hv]. simplify_eq. by exists k1.
    + exfalso. destruct (decide (t = tp)) as [->|Hne]; [by rewrite lookup_insert_eq in E|]. rewrite lookup_insert_ne in E by done.
      destruct (decide (t ∈ l)) as [Hin|Hin]; [destruct (Hdom t Hin); congruence|]. rewrite Hf in Hk' by done. congruence.
  - intros t [k1 H]. destruct (Hr t k1 H) as [v Hv]. eauto.
Qed.

(** What both kinds of queue need. *)
Lemma enq_step npri s Q q dp dp' th' tp k p :
  sys_ok npri s Q → disp_of s q = Some dp → s_threads s !! tp = Some k → off_queue k → 0 ≤ p → p < npri →
  relinked (<[tp := queued q k]> (s_threads s)) th' → (∀ t, t ∉ lv (Q q) p → t ≠ tp → th' !! t = s_threads s !! t) →
  disp_ok q th' dp' (enq put p tp (Q q)) → kp_ok q th' dp' (enq put p tp (Q q)) →
  ∃ s', put_disp q dp' (with_threads th' s) = Ret s' ∧ sys_ok npri s' (enqueued q p tp Q) ∧ keeps s s' ∧
    s_threads s' = th' ∧ cpus_but q dp' s s' ∧
    ∀ t k, t ≠ tp → s_threads s !! t = Some k → off_queue k → s_threads s' !! t = Some k.
Proof using Hput.
  intros Hs Hq Hk Hoff Hp Hn Hr Hf Hok Hkp. destruct (so_queues _ _ _ Hs q dp Hq) as [Hdq Hnp _].
  assert (∀ t, t ∈ lv (Q q) p → ∃ k, s_threads s !! t = Some k ∧ t_lockp k = disp_lock q) as Hlv.
  { intros t Ht. destruct (lists_thread _ _ _ _ _ _ (do_lists _ _ _ _ Hdq) Hp Ht) as (_ & kt & _ & Hkt & Ho & _).
    exists kt. split; [done|]. apply Ho. }
  destruct (queue_step npri q dp dp' th' (enq put p tp (Q q)) s Q) as (s' & G1 & G2 & G3 & G4 & G5); [done|done| | | | |].
  - split; [done|unfold enq; by rewrite length_insert|done].
  - eapply (enq_refs q _ _ tp k (lv (Q q) p)); [done|done|done|]. intros t Ht. destruct (Hlv t Ht) as (kt & -> & _). eauto.
  - intros q' t Hne [dp1 Hq'] Ht. destruct (queue_lock npri s Q q' dp1 t Hs Hq' Ht) as (kt & i & Hkt & _ & _ & _ & Ho).
    destruct Ho as (_ & _ & Hl & _). apply Hf.
    + intros Hin. destruct (Hlv t Hin) as (kt' & Hkt' & Hl'). simplify_eq. congruence.
    + intros ->. simplify_eq. by apply (Hoff q').
  - intros t k' q' Hk' Hl. rewrite <-Hnp in Hn.
    assert (concat (enq put p tp (Q q)) ≡ₚ tp :: concat (Q q)) as HP by (by apply concat_enq).
    destruct (decide (t = tp)) as [->|Hne].
    + destruct (Hr tp (queued q k)) as [v Hv]; [apply lookup_insert_eq|]. simplify_eq. simpl in Hl. injection Hl as <-.
      rewrite decide_True by done. rewrite HP. left.
    + assert (∃ kt, s_threads s !! t = Some kt ∧ t_lockp kt = disp_lock q') as (kt & Hkt & Hlt).
      { destruct (decide (t ∈ lv (Q q) p)) as [Hin|Hin]; [|rewrite Hf in Hk' by done; eauto].
        destruct (Hlv t Hin) as (kt & Hkt & Hl'). destruct (Hr t kt) as [v Hv]; [by rewrite lookup_insert_ne|].
        simplify_eq. simpl in Hl. eauto. }
      destruct (decide (q' = q)) as [->|]; [|eauto]. rewrite HP. right. by eapply so_locked.
  - exists s'. split; [done|]. split; [done|]. split; [done|]. split; [done|]. split; [done|].
    intros t kt Hne Hkt Hofft. rewrite G4, Hf; [done| |done]. intros Hin. destruct (Hlv t Hin) as (kt' & Hkt' & Hl').
    rewrite Hkt in Hkt'. injection Hkt' as <-. by apply (Hofft q).
Qed.

Context (kpreemptpri upreemptpri rechoose_interval : Z).

(** On the queue of a processor, which is asked to give up what it runs when that is less. *)
Lemma setcpudq_ok npri s Q me tp k c :
  sys_ok npri s Q → s_threads s !! tp = Some k → off_queue k → loaded k = true → pre k →
  0 ≤ DISP_PRIO k → DISP_PRIO k < npri → is_Some (s_cpus s !! c) → upreemptpri ≤ 0 →
  ∃ s', setcpudq kpreemptpri upreemptpri me link tp c s = Ret s' ∧
    effect npri None tp s s' (enqueued (CPUQ c) (DISP_PRIO k) tp Q).
Proof using Hlink Hput Hpre.
  intros Hs Hk Hoff Hload Hp Hp0 Hp1 [cp Hc] Hup. set (p := DISP_PRIO k) in *. set (q := CPUQ c) in *.
  assert (disp_of s q = Some (cpu_disp cp)) as Hq by (simpl; by rewrite Hc).
  destruct (so_queues _ _ _ Hs q _ Hq) as [Hdq Hnp _]. pose proof (off_queue_notin npri s Q q _ tp k Hs Hq Hk Hoff) as Hnin.
  destruct (cpu_enq_ok link put pre Hlink Hput Hpre q (s_threads s) (cpu_disp cp) (Q q) tp k p)
    as (th' & dp' & Hrun & Hok' & Hr & Hf & Hmax); [done..|lia|].
  destruct (enq_step npri s Q q (cpu_disp cp) dp' th' tp k p) as (s1 & Hput1 & Hs1 & Hke1 & Hth1 & Hc1 & Hby); [done..|].
  clear Hnp. unfold setcpudq, get_thread, tget. rewrite Hk. cbn [rbind]. fold p. unfold get_cpu at 1. rewrite Hc. cbn [rbind].
  fold q. rewrite Hrun. cbn [rbind]. rewrite Hput1. cbn [rbind].
  destruct (keeps_cpu s s1 c Hke1) as [cp1 Hcp1]; [eauto|].
  destruct (Hc1 c cp1 Hcp1) as (cp0 & Hcp0 & Edt & Err & Edp). simplify_eq. unfold q in Edp. rewrite decide_True in Edp by done.
  assert (∀ d, d ≠ c → preempt_ok s d → preempt_ok s1 d) as Hother.
  { intros d Hne Hpd cpd kd Hcpd Hkd. destruct (Hc1 d cpd Hcpd) as (cpd0 & Hcpd0 & E1 & -> & E2).
    unfold q in E2. rewrite decide_False in E2 by congruence. rewrite E2, E1 in *.
    destruct (proj1 (ke_threads _ _ Hke1) _ kd Hkd) as (kd0 & Hkd0 & _ & _ & _ & ->). by apply Hpd. }
  destruct (Z.ltb_spec (disp_maxrunpri (cpu_disp cp)) p) as [Hlt|Hge].
  - destruct (so_cpus _ _ _ Hs1 c cp1 Hcp1) as [[kd Hkd] _]. rewrite <-Edt. unfold get_thread, tget. rewrite Hkd. cbn [rbind].
    destruct (cpu_resched_ok kpreemptpri upreemptpri me npri s1 _ c cp1 p (DISP_PRIO kd) Hs1 Hcp1) as (s2 & -> & Hm & Hflag).
    exists s2. split; [done|]. pose proof (mild_effect npri None tp s1 s2 _ Hs1 Hm) as [_ _ Ht2 Hc2 _].
    split; [by eapply mild_ok|eapply keeps_trans; [done|by apply mild_keeps]| | |].
    { intros t kt Hne Hkt Hofft. by apply Ht2; [|apply Hby|]. }
    { intros d cd _ Hcd. destruct (Hc2 d cd) as (cd1 & Hcd1 & ->); [done..|]. by destruct (Hc1 d cd1 Hcd1) as (cd0 & ? & ? & _); eauto. }
    intros d _ Hpd. destruct (decide (d = c)) as [->|Hne]; [|by eapply mild_preempt, Hother].
    intros cp2 k2 Hcp2 Hk2. destruct (mi_cpus _ _ Hm c cp2 Hcp2) as (cp1' & Hcp1' & _ & E2 & E3 & _). simplify_eq.
    rewrite E3 in Hk2. destruct (mi_threads _ _ Hm _ k2 Hk2) as (kd' & v & Hkd' & ->). simplify_eq.
    change (DISP_PRIO (set_astflag v kd)) with (DISP_PRIO kd). rewrite E2, Hmax.
    destruct (decide (DISP_PRIO kd = -1)); [by left|]. destruct (decide (p ≤ DISP_PRIO kd)); [right; left; lia|].
    right; right. eapply Hflag; [done|lia|lia|done].
  - exists s1. split; [done|]. split; [done|done| | |].
    { intros t kt Hne Hkt Hofft. exists (t_astflag kt). rewrite set_astflag_id. by apply Hby. }
    { intros d cd _ Hcd. by destruct (Hc1 d cd Hcd) as (cd0 & ? & ? & _); eauto. }
    intros d _ Hpd. destruct (decide (d = c)) as [->|Hne]; [|by apply Hother]. intros cp2 k2 Hcp2 Hk2. simplify_eq.
    rewrite Edt in Hk2. rewrite Hmax, Err, Z.max_l by lia.
    destruct (proj1 (ke_threads _ _ Hke1) _ k2 Hk2) as (kd0 & Hkd0 & _ & _ & _ & ->). by apply Hpd.
Qed.

(** On the queue of the partition; some processor of it is asked. *)
Lemma setkpdq_ok npri s Q me tp k :
  sys_ok npri s Q → s_threads s !! tp = Some k → off_queue k → loaded k = true → pre k →
  0 ≤ DISP_PRIO k → DISP_PRIO k < npri → t_bound_cpu k = None →
  ∃ s', setkpdq kpreemptpri upreemptpri rechoose_interval me link tp s = Ret s' ∧
    effect npri None tp s s' (enqueued (KPQ (t_cpupart k)) (DISP_PRIO k) tp Q).
Proof using Hlink Hput Hpre.
  intros Hs Hk Hoff Hload Hp Hp0 Hp1 Hb. set (p := DISP_PRIO k) in *. set (q := KPQ (t_cpupart k)) in *.
  destruct (so_refs _ _ _ Hs tp k Hk) as (Hcpu & [pt Hpt] & _).
  assert (disp_of s q = Some (cp_kp_queue pt)) as Hq by (simpl; by rewrite Hpt).
  destruct (so_queues _ _ _ Hs q _ Hq) as [Hdq Hnp [Hkm Hkb]]. pose proof (off_queue_notin npri s Q q _ tp k Hs Hq Hk Hoff) as Hnin.
  destruct (kp_enq_ok link put pre Hlink Hput Hpre q (s_threads s) (cp_kp_queue pt) (Q q) tp k p)
    as (th' & dp' & Hrun & Hok' & Hr & Hf & Hmax & Hunb); [done..|lia|done|].
  assert (kp_ok q th' dp' (enq put p tp (Q q))) as Hkp'.
  { split; [congruence|]. intros t kt Hin Hkt. rewrite (concat_enq put Hput) in Hin by lia.
    destruct (decide (t = tp)) as [->|Hne].
    - destruct (Hr tp (queued q k)) as [v Hv]; [apply lookup_insert_eq|]. rewrite Hv in Hkt. by injection Hkt as <-.
    - apply elem_of_cons in Hin as [?|Hin]; [done|]. destruct (queue_lock npri s Q q _ t Hs Hq Hin) as (k0 & _ & Hk0 & _).
      destruct (Hr t k0) as [v Hv]; [by rewrite lookup_insert_ne|]. rewrite Hv in Hkt. injection Hkt as <-. by apply (Hkb t k0). }
  destruct (enq_step npri s Q q (cp_kp_queue pt) dp' th' tp k p) as (s1 & Hput1 & Hs1 & Hke1 & Hth1 & Hc1 & Hby); [done..|].
  unfold setkpdq, get_thread at 1, tget. rewrite Hk. cbn [rbind]. fold p q. unfold get_disp, q at 1, get_part. rewrite Hpt. cbn [rbind].
  rewrite Hrun. cbn [rbind]. rewrite Hput1. cbn [rbind].
  assert (∃ k1, s_threads s1 !! tp = Some k1) as [k1 Hk1] by (by apply (proj2 (ke_threads _ _ Hke1)); eauto).
  destruct (so_refs _ _ _ Hs1 tp k1 Hk1) as ([cp1 Hcp1] & _).
  destruct (cpu_choose_ok kpreemptpri rechoose_interval npri s1 _ me tp k1 p cp1 Hs1 Hk1 Hcp1) as (c & bp & -> & Hb' & _).
  cbn [rbind]. unfold get_cpu at 1. rewrite Hb'. cbn [rbind].
  assert (∃ s2 bp2, (if cpu_chosen_level bp <? p then mod_cpu (set_chosen_level p) c s1 else Ret s1) = Ret s2 ∧ mild s1 s2 ∧
    s_cpus s2 !! c = Some bp2 ∧ cpu_dispthread bp2 = cpu_dispthread bp) as (s2 & bp2 & -> & Hm2 & Hbp2 & Edt).
  { destruct (cpu_chosen_level bp <? p).
    - destruct (mod_cpu_mild (set_chosen_level p) c bp s1 Hb') as [-> Hm]; [done..|]. eexists _, (set_chosen_level p bp).
      split; [done|]. split; [done|]. split; [apply lookup_insert_eq|done].
    - exists s1, bp. split; [done|]. split; [apply mild_refl|done]. }
  cbn [rbind]. pose proof (mild_ok npri s1 s2 _ Hs1 Hm2) as Hs2.
  destruct (so_cpus _ _ _ Hs2 c bp2 Hbp2) as [[kd Hkd] _]. rewrite <-Edt. unfold get_thread, tget. rewrite Hkd. cbn [rbind].
  destruct (cpu_resched_ok kpreemptpri upreemptpri me npri s2 _ c bp2 p (DISP_PRIO kd) Hs2 Hbp2) as (s3 & -> & Hm3 & _).
  pose proof (mild_trans _ _ _ Hm2 Hm3) as Hm. exists s3. split; [done|].
  apply (effect_trans npri None tp s s1 s3 (enqueued q p tp Q)); [|by apply mild_effect]. split; [done|done| | |].
  { intros t kt Hne Hkt Hofft. exists (t_astflag kt). rewrite set_astflag_id. by apply Hby. }
  { intros d cd _ Hcd. by destruct (Hc1 d cd Hcd) as (cd0 & ? & ? & _); eauto. }
  intros d _ Hpd.
  intros cpd kd' Hcpd Hkd'. destruct (Hc1 d cpd Hcpd) as (cpd0 & Hcpd0 & E1 & -> & E2).
  rewrite decide_False in E2 by done. rewrite E2, E1 in *.
  destruct (proj1 (ke_threads _ _ Hke1) _ kd' Hkd') as (kd0 & Hkd0 & _ & _ & _ & ->). by apply Hpd.
Qed.
End SysEnq.

(** ** Taking a thread off a queue *)

Definition dequeued (q : dqid) (p tp : Z) (Q : queues) : queues := set_queue q (deq p tp (Q q)) Q.

(** What a thread is asked to keep while it changes hands. *)
Definition same_ref (k k' : kthread) : Prop :=
  t_cpu k' = t_cpu k ∧ t_cpupart k' = t_cpupart k ∧ t_bound_cpu k' = t_bound_cpu k ∧ DISP_PRIO k' = DISP_PRIO k.

Lemma top_deq ls p tp r r' : 0 ≤ p → p < zlen ls → top_of ls r → top_of (deq p tp ls) r' → r' ≤ r.
Proof.
  intros Hp Hl ((Hr1 & _) & _ & Ha) (Hr' & Hne & _). destruct (decide (r' < 0)); [lia|].
  apply Znot_gt_le. intros Hgt. apply Hne; [lia|]. rewrite lv_deq by lia.
  destruct (Z.eqb_spec r' p) as [->|]; [|apply Ha; lia]. by rewrite Ha by lia.
Qed.

Lemma deq_step npri s Q q dp dp' th' tp k k' p :
  sys_ok npri s Q → disp_of s q = Some dp → 0 ≤ p → tp ∈ lv (Q q) p → s_threads s !! tp = Some k →
  th' !! tp = Some k' → off_queue k' → same_ref k k' →
  (∀ t kt, t ≠ tp → s_threads s !! t = Some kt → ∃ v, th' !! t = Some (set_link v kt)) →
  (∀ t, t ∉ lv (Q q) p → th' !! t = s_threads s !! t) →
  disp_ok q th' dp' (deq p tp (Q q)) →
  (∀ pp, q = KPQ pp → disp_max_unbound_pri dp = disp_maxrunpri dp → disp_max_unbound_pri dp' = disp_maxrunpri dp') →
  ∃ s', put_disp q dp' (with_threads th' s) = Ret s' ∧ sys_ok npri s' (dequeued q p tp Q) ∧ keeps s s' ∧
    s_threads s' = th' ∧ cpus_but q dp' s s' ∧ effect npri None tp s s' (dequeued q p tp Q).
Proof.
  intros Hs Hq Hp Htp Hk Hk' Hoff (R1 & R2 & R3 & R4) Hr Hf Hok Hmu.
  destruct (so_queues _ _ _ Hs q dp Hq) as [Hdq Hnp Hkp]. pose proof (do_lists _ _ _ _ Hdq) as Hls.
  pose proof (ls_nodup _ _ _ _ Hls) as Hnd. destruct (lists_thread _ _ _ _ _ _ Hls Hp Htp) as (Hl & _).
  pose proof (concat_deq (Q q) p tp Hp Hl Hnd Htp) as HP.
  assert (∀ t, t ∈ lv (Q q) p → ∃ k, s_threads s !! t = Some k ∧ t_lockp k = disp_lock q) as Hlv.
  { intros t Ht. destruct (lists_thread _ _ _ _ _ _ Hls Hp Ht) as (_ & kt & _ & Hkt & Ho & _).
    exists kt. split; [done|]. apply Ho. }
  assert (∀ t kt', th' !! t = Some kt' → t = tp ∨ ∃ kt v, t ≠ tp ∧ s_threads s !! t = Some kt ∧ kt' = set_link v kt) as Hinv.
  { intros t kt' Hkt'. destruct (decide (t = tp)) as [->|Hne]; [by left|right].
    destruct (s_threads s !! t) as [kt|] eqn:E; [|exfalso].
    - destruct (Hr t kt Hne E) as [v Hv]. rewrite Hv in Hkt'. injection Hkt' as <-. by exists kt, v.
    - destruct (decide (t ∈ lv (Q q) p)) as [Hin|Hin]; [destruct (Hlv t Hin) as (? & ? & _); congruence|].
      rewrite Hf in Hkt' by done. congruence. }
  assert (same_refs (s_threads s) th') as Hsame.
  { split.
    - intros t kt' Hkt'. destruct (Hinv t kt' Hkt') as [->|(kt & v & Hne & Hkt & ->)].
      + rewrite Hk' in Hkt'. injection Hkt' as <-. by exists k.
      + by exists kt.
    - intros t [kt Hkt]. destruct (decide (t = tp)) as [->|Hne]; [eauto|]. destruct (Hr t kt Hne Hkt) as [v Hv]. eauto. }
  destruct (queue_step npri q dp dp' th' (deq p tp (Q q)) s Q) as (s' & Hrun & Hs' & Hke & Hth & Hc); [done|done| |done| | |].
  - split; [done|unfold deq; by rewrite length_insert|]. destruct q as [c|pp]; [done|]. destruct Hkp as [Ekp Hkp].
    split; [by apply (Hmu pp)|]. intros t kt Hin Hkt. assert (t ∈ concat (Q (KPQ pp))) as Hin' by (rewrite HP; by right).
    destruct (proj1 Hsame t kt Hkt) as (kt0 & Hkt0 & _ & _ & -> & _). by apply (Hkp t).
  - intros q' t Hne [dp1 Hq'] Ht. destruct (queue_lock npri s Q q' dp1 t Hs Hq' Ht) as (kt & i & Hkt & _ & _ & _ & Ho).
    destruct Ho as (_ & _ & Hlk & _). apply Hf. intros Hin. destruct (Hlv t Hin) as (kt' & Hkt' & Hl'). congruence.
  - intros t kt' q' Hkt' Hlk. destruct (Hinv t kt' Hkt') as [->|(kt & v & Hne & Hkt & ->)].
    { rewrite Hk' in Hkt'. injection Hkt' as <-. exfalso. by apply (Hoff q'). }
    destruct (decide (q' = q)) as [->|]; [|eauto]. destruct (so_locked _ _ _ Hs t kt q Hkt Hlk) as [_ Hin].
    rewrite HP in Hin. by apply elem_of_cons in Hin as [?|?].
  - exists s'. split; [done|]. split; [done|]. split; [done|]. split; [done|]. split; [done|]. split; [done|done| | |].
    { intros t kt Hne Hkt Hofft. exists (t_astflag kt). rewrite set_astflag_id, Hth, Hf; [done|]. intros Hin.
      destruct (Hlv t Hin) as (kt' & Hkt' & Hl'). rewrite Hkt in Hkt'. injection Hkt' as <-. by apply (Hofft q). }
    { intros d cd _ Hcd. by destruct (Hc d cd Hcd) as (cd0 & ? & ? & _); eauto. }
    intros d _ Hpd cp' kd Hcp' Hkd. destruct (Hc d cp' Hcp') as (cp & Hcp & E1 & -> & E2). rewrite E1 in Hkd.
    destruct (proj1 (ke_threads _ _ Hke) _ kd Hkd) as (kd0 & Hkd0 & _ & _ & _ & ->).
    assert (disp_maxrunpri (cpu_disp cp') ≤ disp_maxrunpri (cpu_disp cp)) as Hle.
    { rewrite E2. destruct (decide (q = CPUQ d)) as [->|]; [|lia]. simpl in Hq. rewrite Hcp in Hq. injection Hq as <-.
      eapply (top_deq (Q (CPUQ d)) p tp); [done|done|apply Hdq|apply Hok]. }
    destruct (Hpd cp kd0 Hcp Hkd0) as [?|[?|?]]; [by left|right; left; lia|by right; right].
Qed.

Lemma dispdeq_sys_ok npri s Q tp k q :
  sys_ok npri s Q → s_threads s !! tp = Some k → t_lockp k = disp_lock q →
  0 ≤ DISP_PRIO k ∧ tp ∈ lv (Q q) (DISP_PRIO k) ∧
  ∃ s', dispdeq tp s = Ret (true, s') ∧ effect npri None tp s s' (dequeued q (DISP_PRIO k) tp Q) ∧
    s_threads s' !! tp = Some (set_link None (thread_transition k)).
Proof.
  intros Hs Hk Hl. destruct (so_locked _ _ _ Hs tp k q Hk Hl) as [[dp Hq] Hin].
  destruct (queue_lock npri s Q q dp tp Hs Hq Hin) as (k' & p & Hk' & Hp & _ & Htp & Ho).
  rewrite Hk in Hk'. injection Hk' as <-. destruct Ho as (Hst & Hload & _ & Hdq & <-). split; [done|]. split; [done|].
  destruct (so_queues _ _ _ Hs q dp Hq) as [Hok Hnp Hkp].
  destruct (dispdeq_ok q (s_threads s) dp (Q q) tp k (DISP_PRIO k) Hok Hp Htp Hk)
    as (th' & dp' & Hrun & Hok' & Hk1 & Hr & Hf & Hmu).
  destruct (deq_step npri s Q q dp dp' th' tp k (set_link None (thread_transition k)) (DISP_PRIO k))
    as (s' & Hput & Hs' & Hke & Hth & _ & Heff); [done..|].
  exists s'. unfold dispdeq, get_thread, tget. rewrite Hk. cbn [rbind]. rewrite bool_decide_eq_true_2 by done. cbn [negb].
  rewrite Hload. cbn [negb]. rewrite Hdq.
  assert (get_disp q s = Ret dp) as ->.
  { destruct q as [c|pp]; simpl in Hq |- *; unfold get_cpu, get_part; apply fmap_Some in Hq as (x & -> & ->); done. }
  cbn [rbind]. rewrite Hrun. cbn [rbind]. rewrite Hput. cbn [rbind]. split; [done|]. split; [done|]. by rewrite Hth.
Qed.

(** ** A thread between queues *)

Lemma mod_off_ok npri s Q f t k : sys_ok npri s Q → s_threads s !! t = Some k → off_queue k → off_queue (f k) →
  same_ref k (f k) →
  let s' := with_threads (<[t := f k]> (s_threads s)) s in
  mod_thread f t s = Ret s' ∧ effect npri None t s s' Q.
Proof.
  intros Hs Hk Hoff Hoff' (R1 & R2 & R3 & R4) s'. unfold mod_thread. rewrite (tmod_ok _ t _ k) by done. cbn [rbind].
  assert (keeps s s') as Hke by (split; [done|done|by apply (same_refs_insert _ t k)]).
  split; [done|]. split; [|done| | |].
  - eapply (sys_step npri s); [done|done| | | |].
    + intros q dp Hq. apply (queue_frame npri (s_threads s)); [|by apply (so_queues _ _ _ Hs)]. intros u Hu. simpl.
      apply lookup_insert_ne. intros <-. by eapply off_queue_notin.
    + intros u ku q. simpl. destruct (decide (u = t)) as [->|Hne].
      * rewrite lookup_insert_eq. intros [= <-] Hl. exfalso. by apply (Hoff' q).
      * rewrite lookup_insert_ne by done. intros Hu Hl. by eapply so_locked.
    + done.
    + intros c cp Hc. apply (proj2 (ke_threads _ _ Hke)). by eapply so_cpus.
  - intros u ku Hne Hu _. exists (t_astflag ku). rewrite set_astflag_id. simpl. by rewrite lookup_insert_ne.
  - intros c cp _ Hc. by exists cp.
  - intros d _ Hpd cp kd Hcp Hkd. destruct (proj1 (ke_threads _ _ Hke) _ kd Hkd) as (kd0 & Hkd0 & _ & _ & _ & ->). by apply Hpd.
Qed.

Lemma mod_dispatch_ok npri s Q f c cp : sys_ok npri s Q → s_cpus s !! c = Some cp →
  cpu_static (f cp) = cpu_static cp → cpu_disp (f cp) = cpu_disp cp → is_Some (s_threads s !! cpu_dispthread (f cp)) →
  mod_cpu f c s = Ret (put_cpu c (f cp) s) ∧ ∀ t, effect npri (Some c) t s (put_cpu c (f cp) s) Q.
Proof.
  intros Hs Hc E1 E2 Ht. unfold mod_cpu, get_cpu. rewrite Hc. cbn [rbind].
  assert (keeps s (put_cpu c (f cp) s)) as Hke.
  { split; simpl; [|done|apply same_refs_refl]. unfold cpu_view. simpl. rewrite fmap_insert, E1. apply insert_id.
    by rewrite lookup_fmap, Hc. }
  assert (∀ q, disp_of (put_cpu c (f cp) s) q = disp_of s q) as Hd.
  { intros [d|p]; [|done]. cbn [disp_of put_cpu with_cpus s_cpus]. destruct (decide (d = c)) as [->|Hne].
    - by rewrite lookup_insert_eq, Hc; simpl; rewrite E2.
    - by rewrite lookup_insert_ne. }
  split; [done|]. intros t0. split; [|done| | |].
  - eapply (sys_step npri s); [done|done| | | |].
    + intros q dp. rewrite Hd. apply (so_queues _ _ _ Hs).
    + intros t k q Hk Hl. by eapply so_locked.
    + intros q. by rewrite Hd.
    + intros d cd. simpl. destruct (decide (d = c)) as [->|Hne].
      * rewrite lookup_insert_eq. by intros [= <-].
      * rewrite lookup_insert_ne by done. intros Hcd. by eapply so_cpus.
  - intros u ku _ Hu _. exists (t_astflag ku). by rewrite set_astflag_id.
  - intros d cd Hne. simpl. rewrite lookup_insert_ne by congruence. intros Hcd. by exists cd.
  - intros d Hne Hpd cd kd Hcd Hkd. simpl in Hcd, Hkd. rewrite lookup_insert_ne in Hcd by congruence. by apply Hpd.
Qed.

(** Any change of a thread on no queue. *)
Lemma change_ok npri s Q tp k0 k : sys_ok npri s Q → s_threads s !! tp = Some k0 → off_queue k0 → off_queue k → thread_refs s k →
  (∀ c cp, s_cpus s !! c = Some cp → cpu_idle_thread cp ≠ tp) → sys_ok npri (with_threads (<[tp := k]> (s_threads s)) s) Q.
Proof.
  intros Hs Hk0 Hoff0 Hoff Href Hidle. pose proof Hs as [H1 H2 H3 H4 H5].
  assert (∀ t, t ≠ tp → <[tp := k]> (s_threads s) !! t = s_threads s !! t) as Hne by (intros; by apply lookup_insert_ne).
  assert (∀ t, is_Some (s_threads s !! t) → is_Some (<[tp := k]> (s_threads s) !! t)) as Hdom.
  { intros t Ht. destruct (decide (t = tp)) as [->|]; [rewrite lookup_insert_eq; eauto|by rewrite Hne]. }
  split; [| | | |done]; simpl.
  - intros q dp Hq. apply (queue_frame npri (s_threads s)); [|by apply H1]. intros t Ht. apply Hne. intros ->.
    by eapply off_queue_notin.
  - intros t kt q. destruct (decide (t = tp)) as [->|]; [|rewrite Hne by done; by apply H2].
    rewrite lookup_insert_eq. intros [= <-] Hl. by destruct (Hoff q).
  - intros t kt. destruct (decide (t = tp)) as [->|]; [|rewrite Hne by done; by apply H3].
    rewrite lookup_insert_eq. by intros [= <-].
  - intros c cp Hc. destruct (H4 c cp Hc) as [Ha (ki & Hki & Ei)]. split; [by apply Hdom|]. exists ki. split; [|done].
    rewrite Hne; [done|]. by apply (Hidle c cp Hc).
Qed.

(** ** [cpu_surrender] *)

Lemma surrender_ok kpreemptpri npri s Q me user tp k c cp : sys_ok npri s Q → s_threads s !! tp = Some k →
  t_state k = TS_ONPROC → t_disp_queue k = Some (CPUQ c) → s_cpus s !! c = Some cp →
  ∃ s', cpu_surrender kpreemptpri me user tp s = Ret s' ∧ mild s s' ∧ ∀ cp', s_cpus s' !! c = Some cp' → cpu_runrun cp' ≠ 0.
Proof.
  intros Hs Hk Hst Hq Hc. unfold cpu_surrender, get_thread, tget. rewrite Hk. cbn [rbind].
  rewrite bool_decide_eq_true_2 by done. cbn [negb]. rewrite Hq. unfold get_cpu at 1. rewrite Hc. cbn [rbind].
  assert (∃ pt, s_parts s !! cpu_part cp = Some pt) as [pt Hpt].
  { assert (cpu_view s !! c = Some (cpu_static cp)) as Hv by (by rewrite view_lookup, Hc).
    destruct (to_ring _ _ (so_topology _ _ _ Hs) _ _ _ _ _ Hv) as ([x Hx] & _). rewrite part_view_lookup in Hx.
    destruct (s_parts s !! cpu_part cp) as [pt|]; [by exists pt|done]. }
  unfold get_part. rewrite Hpt. cbn [rbind]. set (b := if disp_maxrunpri (cpu_disp cp) <? _ then _ else _).
  destruct (mod_cpu_mild (set_runrun 1) c cp s Hc) as [-> Hm1]; [done..|]. cbn [rbind].
  set (s1 := put_cpu c (set_runrun 1 cp) s) in *.
  assert (s_cpus s1 !! c = Some (set_runrun 1 cp)) as Hc1 by apply lookup_insert_eq.
  assert (∃ s2 cp2, (if (kpreemptpri <=? b) && (cpu_kprunrun cp =? 0) then mod_cpu (set_kprunrun 1) c s1 else Ret s1) = Ret s2 ∧
    mild s1 s2 ∧ s_cpus s2 !! c = Some cp2 ∧ cpu_runrun cp2 ≠ 0 ∧ s_threads s2 = s_threads s) as (s2 & cp2 & -> & Hm2 & Hc2 & Hr & Hth).
  { case_match.
    - destruct (mod_cpu_mild (set_kprunrun 1) c _ s1 Hc1) as [-> Hm2]; [done..|]. do 2 eexists. split; [done|]. split; [done|].
      split; [apply lookup_insert_eq|done].
    - exists s1, (set_runrun 1 cp). split; [done|]. split; [apply mild_refl|done]. }
  cbn [rbind]. pose proof (mild_trans _ _ _ Hm1 Hm2) as Hm. case_match.
  - destruct (aston_mild tp k s2) as (s3 & -> & Hm3 & Ecs); [by rewrite Hth|]. cbn [rbind]. pose proof (mild_trans _ _ _ Hm Hm3) as Hm'.
    destruct (negb (c =? CPU me)).
    + eexists. split; [done|]. split; [eapply mild_trans; [done|apply poke_mild]|]. simpl. rewrite Ecs, Hc2. by intros ? [= <-].
    + exists s3. split; [done|]. split; [done|]. rewrite Ecs, Hc2. by intros ? [= <-].
  - exists s2. split; [done|]. split; [done|]. rewrite Hc2. by intros ? [= <-].
Qed.

(** ** [setbackdq] and [setfrontdq] *)

(** What is asked of a thread to be made runnable. *)
Record runnable (npri : Z) (k : kthread) : Prop := {
  ru_off : off_queue k;
  ru_loaded : loaded k = true;
  ru_link : t_link k = None;
  ru_prio : 0 ≤ DISP_PRIO k ∧ DISP_PRIO k < npri
}.

Section SetRun.
Context (ncpus kpreemptpri upreemptpri maxclsyspri rechoose_interval : Z).

(** Where a thread may be queued: at the processor it is bound to; with its partition when it
    preempts the kernel; or else at a processor of its partition. *)
Definition allowed (s : sys) (k : kthread) (q : dqid) : Prop :=
  if ncpus =? 1 then q = CPUQ (t_cpu k)
  else
    match t_bound_cpu k with
    | Some c => q = CPUQ c
    | None =>
        if kpreemptpri <=? DISP_PRIO k then q = KPQ (t_cpupart k)
        else ∃ c cp, q = CPUQ c ∧ s_cpus s !! c = Some cp ∧ cpu_part cp = t_cpupart k
    end.

Lemma allowed_queue npri s Q t k q : sys_ok npri s Q → s_threads s !! t = Some k → allowed s k q → is_Some (disp_of s q).
Proof.
  intros Hs Hk. destruct (so_refs _ _ _ Hs t k Hk) as (Hcpu & Hpart & Hb). unfold allowed.
  assert (∀ c, is_Some (s_cpus s !! c) → is_Some (disp_of s (CPUQ c))) as Hq by (intros c [cp Hc]; simpl; rewrite Hc; eauto).
  destruct (ncpus =? 1); [intros ->; auto|]. destruct (t_bound_cpu k) as [b|]; [intros ->; auto|].
  destruct (kpreemptpri <=? DISP_PRIO k); [intros ->|intros (c & cp & -> & Hc & _); eauto].
  simpl. destruct Hpart as [pt ->]. eauto.
Qed.

Lemma set_ok npri s Q me tp k link klink put pre kpre choose :
  links link put pre → links klink put kpre → (∀ t l, put t l ≡ₚ t :: l) →
  (∀ q k, pre k → pre (set_disp_queue q (THREAD_RUN (disp_lock q) k))) →
  (∀ q k, kpre k → kpre (set_disp_queue q (THREAD_RUN (disp_lock q) k))) → pre k → kpre k →
  (∃ c bp, choose = Ret c ∧ s_cpus s !! c = Some bp ∧ cpu_part bp = t_cpupart k) →
  sys_ok npri s Q → s_threads s !! tp = Some k → runnable npri k → upreemptpri ≤ 0 →
  ∃ s' q,
    (if ncpus =? 1 then setcpudq kpreemptpri upreemptpri me link tp (t_cpu k) s
     else
       match t_bound_cpu k with
       | Some c => setcpudq kpreemptpri upreemptpri me link tp c s
       | None =>
           if kpreemptpri <=? DISP_PRIO k then setkpdq kpreemptpri upreemptpri rechoose_interval me klink tp s
           else let* c := choose in setcpudq kpreemptpri upreemptpri me link tp c s
       end) = Ret s' ∧
    allowed s k q ∧ effect npri None tp s s' (enqueued put q (DISP_PRIO k) tp Q).
Proof.
  intros Hl Hkl Hput Hpre Hkpre Hp Hkp (c & bp & Ec & Hc & Epart) Hs Hk [Hoff Hload Hlink [Hp0 Hp1]] Hup.
  destruct (so_refs _ _ _ Hs tp k Hk) as (Hcpu & Hpart & Hbound). unfold allowed.
  assert (∀ c, is_Some (s_cpus s !! c) → ∃ s', setcpudq kpreemptpri upreemptpri me link tp c s = Ret s' ∧
    effect npri None tp s s' (enqueued put (CPUQ c) (DISP_PRIO k) tp Q)) as Hcq.
  { intros d Hd. by apply (setcpudq_ok link put pre Hl Hput Hpre). }
  destruct (ncpus =? 1).
  { destruct (Hcq _ Hcpu) as (s' & H & ?). by exists s', (CPUQ (t_cpu k)). }
  destruct (t_bound_cpu k) as [b|] eqn:Eb.
  { destruct (Hcq b) as (s' & H & ?); [by apply Hbound|]. by exists s', (CPUQ b). }
  destruct (kpreemptpri <=? DISP_PRIO k).
  - destruct (setkpdq_ok klink put kpre Hkl Hput Hkpre kpreemptpri upreemptpri rechoose_interval npri s Q me tp k)
      as (s' & H & ?); [done..|]. by exists s', (KPQ (t_cpupart k)).
  - rewrite Ec. cbn [rbind]. destruct (Hcq c) as (s' & H & Hrest); [eauto|]. exists s', (CPUQ c).
    split; [done|]. split; [|done]. by exists c, bp.
Qed.

Lemma put_back_perm t l : put_back t l ≡ₚ t :: l.
Proof. unfold put_back. by rewrite Permutation_app_comm. Qed.

(** A thread that is swapped out is not queued, but the swapper is told. *)
Definition swapped (k : kthread) : Prop := off_queue k ∧ loaded k = false ∧ (t_state k = TS_SLEEP ∨ t_state k = TS_RUN).

Lemma swapped_ok npri s Q tp k : sys_ok npri s Q → s_threads s !! tp = Some k → swapped k →
  ∃ s', disp_swapped_setrun maxclsyspri tp s = Ret s' ∧ effect npri None tp s s' Q.
Proof.
  intros Hs Hk (Hoff & _ & Hst). unfold disp_swapped_setrun, get_thread, tget. rewrite Hk. cbn [rbind]. destruct Hst as [-> | ->].
  - set (s1 := if maxclsyspri <? DISP_PRIO k then _ else _).
    assert (mild s s1) as Hm.
    { unfold s1. destruct (maxclsyspri <? DISP_PRIO k); (split; simpl; [done| |done| |done]);
        [intros c cp H; by exists cp|intros t kt H; exists kt, (t_astflag kt); by rewrite set_astflag_id|
         intros c cp H; by exists cp|intros t kt H; exists kt, (t_astflag kt); by rewrite set_astflag_id]. }
    assert (s_threads s1 !! tp = Some k) as Hk1 by (unfold s1; by destruct (maxclsyspri <? DISP_PRIO k)).
    destruct (mod_off_ok npri s1 Q (THREAD_RUN swapped_lock) tp k) as [Hrun He]; [by eapply mild_ok|done|done|done|done|].
    eexists. split; [exact Hrun|]. eapply effect_trans; [by apply mild_effect|exact He].
  - exists s. split; [done|]. apply mild_effect; [done|apply mild_refl].
Qed.

Lemma setbackdq_ok npri s Q me tp k :
  sys_ok npri s Q → s_threads s !! tp = Some k → runnable npri k → upreemptpri ≤ 0 →
  ∃ s' q, setbackdq ncpus kpreemptpri upreemptpri maxclsyspri rechoose_interval me tp s = Ret s' ∧ allowed s k q ∧
    effect npri None tp s s' (enqueued put_back q (DISP_PRIO k) tp Q).
Proof.
  intros Hs Hk Hr Hup. unfold setbackdq, get_thread, tget. rewrite Hk. cbn [rbind].
  rewrite (ru_loaded _ _ Hr). cbn [negb].
  apply (set_ok npri s Q me tp k link_back link_kp_back put_back (λ _, True) (λ k, t_link k = None)); try done.
  - apply link_back_ok.
  - apply link_kp_back_ok.
  - apply put_back_perm.
  - apply Hr.
  - by apply (back_choice_ok _ _ npri s Q); [| |apply Hr..].
Qed.

Lemma setfrontdq_ok npri s Q me tp k :
  sys_ok npri s Q → s_threads s !! tp = Some k → runnable npri k → upreemptpri ≤ 0 →
  ∃ s' q, setfrontdq ncpus kpreemptpri upreemptpri maxclsyspri rechoose_interval me tp s = Ret s' ∧ allowed s k q ∧
    effect npri None tp s s' (enqueued put_front q (DISP_PRIO k) tp Q).
Proof.
  intros Hs Hk Hr Hup. unfold setfrontdq, get_thread, tget. rewrite Hk. cbn [rbind].
  rewrite (ru_loaded _ _ Hr). cbn [negb].
  apply (set_ok npri s Q me tp k link_front link_front put_front (λ _, True) (λ _, True)); try done.
  - apply link_front_ok.
  - apply link_front_ok.
  - by apply (front_choice_ok _ _ npri s Q).
Qed.
End SetRun.
