(* ===== verification/DispSteps.v ===== *)
(** * Choosing threads, and what happens in between

    A processor in [disp] takes a thread, drops the requests to give up the
    processor, and then compares its choice with what is queued by then; other
    processors run between these steps.  The invariant holds in every state that
    they reach together. *)

From S2P Require Import Prelude Bitmap Dispq DispqOps Disp DispInv.

(** ** Taking a thread to run *)

(** A thread that processor [c] has taken. *)
Definition taken (c : Z) (k : kthread) : Prop :=
  off_queue k ∧ loaded k = true ∧ t_link k = None ∧ t_state k = TS_ONPROC ∧ t_disp_queue k = Some (CPUQ c).

Lemma loaded_DONT_SWAP k : loaded (DONT_SWAP k) = loaded k.
Proof.
  unfold loaded, DONT_SWAP, set_schedflag. cbn [t_schedflag]. rewrite Z.land_lor_distr_l.
  change (Z.land TS_DONT_SWAP (Z.lor TS_LOAD TS_ON_SWAPQ)) with 0. by rewrite Z.lor_0_r.
Qed.

Lemma taken_final c k : loaded k = true →
  taken c (THREAD_ONPROC c (set_disp_queue (CPUQ c) (DONT_SWAP (set_link None k)))).
Proof. intros Hl. split; [done|]. split; [by rewrite <-Hl, <-(loaded_DONT_SWAP k)|done]. Qed.

Lemma sys_ok_ext npri s Q Q' : (∀ q, Q' q = Q q) → sys_ok npri s Q → sys_ok npri s Q'.
Proof.
  intros E [H1 H2 H3 H4 H5]. split; [|  |done|done|done].
  - intros q dp Hq. rewrite E. by apply H1.
  - intros t k q Hk Hl. rewrite E. by eapply H2.
Qed.

Lemma get_disp_ok s q dp : disp_of s q = Some dp → get_disp q s = Ret dp.
Proof.
  destruct q; simpl; unfold get_cpu, get_part; intros (x & -> & ->)%fmap_Some; done.
Qed.

(** [disp_max_unbound_pri] is corrected. *)
Lemma fix_effect npri tp s Q q dp dp' : sys_ok npri s Q → disp_of s q = Some dp →
  disp_ok q (s_threads s) dp' (Q q) → kp_ok q (s_threads s) dp' (Q q) → disp_maxrunpri dp' = disp_maxrunpri dp →
  ∃ s', put_disp q dp' (with_threads (s_threads s) s) = Ret s' ∧ effect npri None tp s s' Q ∧
    s_threads s' = s_threads s ∧ disp_of s' q = Some dp'.
Proof.
  intros Hs Hq Hok Hkp Hmax. destruct (so_queues _ _ _ Hs q dp Hq) as [_ Hnp _].
  destruct (put_disp_ok q dp dp' (s_threads s) s Hq (same_refs_refl _)) as (s1 & Hrun1 & _ & _ & _ & Hd).
  destruct (queue_step npri q dp dp' (s_threads s) (Q q) s Q) as (s' & Hrun & Hs' & Hke & Hth & Hc);
    [done|done|done|apply same_refs_refl|done| |].
  { intros t k q' Hk Hl. destruct (so_locked _ _ _ Hs t k q' Hk Hl) as [_ Hin]. destruct (decide (q' = q)) as [->|]; eauto. }
  rewrite Hrun1 in Hrun. injection Hrun as ->. exists s'. split; [done|]. split; [|split; [done|by rewrite Hd, decide_True]].
  split.
  - apply (sys_ok_ext npri s' (set_queue q (Q q) Q)); [|done]. intros q'. unfold set_queue.
    by destruct (decide (q' = q)) as [->|].
  - done.
  - intros t k _ Hk _. exists (t_astflag k). by rewrite set_astflag_id, Hth.
  - intros d cd _ Hcd. by destruct (Hc d cd Hcd) as (cd0 & ? & ? & _); eauto.
  - intros d _ Hpd cp' kd Hcp' Hkd. destruct (Hc d cp' Hcp') as (cp & Hcp & E1 & -> & E2). rewrite E1, Hth in Hkd.
    assert (disp_maxrunpri (cpu_disp cp') = disp_maxrunpri (cpu_disp cp)) as ->; [|by apply Hpd].
    rewrite E2. destruct (decide (q = CPUQ d)) as [->|]; [|done]. simpl in Hq. rewrite Hcp in Hq. injection Hq as <-. done.
Qed.

(** The thread is set up on the processor. *)
Lemma onproc_effect npri s Q c cp tp k f :
  sys_ok npri s Q → s_cpus s !! c = Some cp → s_threads s !! tp = Some k → off_queue k → off_queue (f k) → same_ref k (f k) →
  ∃ s', (let* s := mod_thread f tp s in
         let* s := mod_cpu (set_dispthread tp) c s in
         mod_thread (THREAD_ONPROC c) tp s) = Ret s' ∧
    effect npri (Some c) tp s s' Q ∧ s_threads s' !! tp = Some (THREAD_ONPROC c (f k)) ∧
    ∃ cp', s_cpus s' !! c = Some cp' ∧ cpu_dispthread cp' = tp ∧ cpu_disp cp' = cpu_disp cp.
Proof.
  intros Hs Hc Hk Hoff Hoff' Href.
  destruct (mod_off_ok npri s Q f tp k Hs Hk Hoff Hoff' Href) as [-> He1]. cbn [rbind].
  set (s1 := with_threads (<[tp := f k]> (s_threads s)) s) in *.
  assert (s_threads s1 !! tp = Some (f k)) as Hk1 by apply lookup_insert_eq.
  destruct (mod_dispatch_ok npri s1 Q (set_dispthread tp) c cp) as [-> He2]; [apply He1|done|done|done|simpl; by rewrite lookup_insert_eq|].
  cbn [rbind]. set (s2 := put_cpu c (set_dispthread tp cp) s1) in *. specialize (He2 tp).
  destruct (mod_off_ok npri s2 Q (THREAD_ONPROC c) tp (f k)) as [-> He3]; [apply He2|done|done|done|done|].
  eexists. split; [done|]. split; [|split].
  - eapply effect_trans; [apply effect_weaken; exact He1|]. eapply effect_trans; [exact He2|apply effect_weaken; exact He3].
  - apply lookup_insert_eq.
  - exists (set_dispthread tp cp). split; [apply lookup_insert_eq|done].
Qed.

Lemma getbest_sys npri s Q me q dp cp :
  sys_ok npri s Q → disp_of s q = Some dp → s_cpus s !! CPU me = Some cp →
  ∃ r s', disp_getbest me q s = Ret (r, s') ∧
    match r with
    | None => (∀ tp, effect npri None tp s s' Q) ∧ s_threads s' = s_threads s ∧
        (0 ≤ disp_max_unbound_pri dp →
          List.find (is_unbound (s_threads s)) (lv (Q q) (disp_max_unbound_pri dp)) = None) ∧
        ∃ dp', disp_of s' q = Some dp' ∧
          (0 ≤ disp_max_unbound_pri dp' →
            is_Some (List.find (is_unbound (s_threads s)) (lv (Q q) (disp_max_unbound_pri dp'))))
    | Some tp => ∃ p k k' cp', p = disp_max_unbound_pri dp ∧ 0 ≤ p ∧
        List.find (is_unbound (s_threads s)) (lv (Q q) p) = Some tp ∧
        (∀ i, p < i → List.find (is_unbound (s_threads s)) (lv (Q q) i) = None) ∧
        s_threads s !! tp = Some k ∧ DISP_PRIO k = p ∧ s_threads s' !! tp = Some k' ∧ taken (CPU me) k' ∧
        s_cpus s' !! CPU me = Some cp' ∧ cpu_dispthread cp' = tp ∧
        effect npri (Some (CPU me)) tp s s' (dequeued q p tp Q)
    end.
Proof.
  intros Hs Hq Hc. destruct (so_queues _ _ _ Hs q dp Hq) as [Hok Hnp Hkp].
  unfold disp_getbest. rewrite (get_disp_ok s q dp Hq). cbn [rbind].
  destruct (getbest_ok q (s_threads s) dp (Q q) Hok) as (r & th' & dp' & -> & Hr). cbn [rbind]. destruct r as [tp|].
  - destruct Hr as (p & k & Ep & Hp & Hfind & Habove & Hok' & Hk & Hk1 & Hrel & Hf & Hmu).
    pose proof (find_some _ _ Hfind) as [Hin _]. apply list_elem_of_In in Hin.
    destruct (lists_thread _ _ _ _ _ _ (do_lists _ _ _ _ Hok) Hp Hin) as (_ & k0 & _ & Hk0 & Ho & _).
    rewrite Hk in Hk0. injection Hk0 as <-. destruct Ho as (Hst & Hload & _ & _ & Hprio).
    destruct (deq_step npri s Q q dp dp' th' tp k (set_link None (thread_transition k)) p)
      as (s1 & -> & Hs1 & Hke1 & Hth1 & Hc1 & He1); [done..|]. cbn [rbind].
    destruct (keeps_cpu s s1 (CPU me) Hke1) as [cp1 Hcp1]; [eauto|]. rewrite <-Hth1 in Hk1.
    set (k1 := set_link None (thread_transition k)) in *.
    destruct (mod_off_ok npri s1 (dequeued q p tp Q) DONT_SWAP tp k1) as [-> He2]; [done|done|done|done|done|]. cbn [rbind].
    set (s2 := with_threads (<[tp := DONT_SWAP k1]> (s_threads s1)) s1) in *.
    destruct (onproc_effect npri s2 (dequeued q p tp Q) (CPU me) cp1 tp (DONT_SWAP k1) (set_disp_queue (CPUQ (CPU me))))
      as (s3 & Hrun & He3 & Hk3 & cp3 & Hcp3 & Ed & _); [apply He2|done|apply lookup_insert_eq|done|done|done|].
    destruct (mod_thread (set_disp_queue (CPUQ (CPU me))) tp s2) as [sa| |]; [|done|done]. cbn [rbind] in Hrun |- *.
    destruct (mod_cpu (set_dispthread tp) (CPU me) sa) as [sb| |]; [|done|done]. cbn [rbind] in Hrun |- *.
    rewrite Hrun. cbn [rbind]. exists (Some tp), s3. split; [done|]. exists p, k, (THREAD_ONPROC (CPU me) (set_disp_queue (CPUQ (CPU me)) (DONT_SWAP k1))), cp3.
    split_and!; try done.
    + apply (taken_final (CPU me) (thread_transition k)). done.
    + eapply effect_trans; [apply effect_weaken; exact He1|]. eapply effect_trans; [apply effect_weaken; exact He2|exact He3].
  - destruct Hr as (-> & Hok' & Hmax & Hs1 & Hs2).
    assert (kp_ok q (s_threads s) dp' (Q q)) as Hkp'.
    { destruct q as [c|pp]; [done|]. destruct Hkp as [Ekp Hkp]. split; [|done].
      destruct (decide (0 ≤ disp_max_unbound_pri dp)) as [H0|H0].
      - exfalso. destruct (Hs2 H0) as [_ Hnone]. rewrite Ekp in *.
        pose proof (do_top _ _ _ _ Hok) as (_ & Hne & _). specialize (Hne H0).
        destruct (lv (Q (KPQ pp)) (disp_maxrunpri dp)) as [|t l] eqn:El; [done|].
        assert (t ∈ concat (Q (KPQ pp))) as Hin by (apply (lv_elem _ (disp_maxrunpri dp)); rewrite El; left).
        destruct (queue_lock npri s Q _ dp t Hs Hq Hin) as (k & _ & Hk & _).
        simpl in Hnone. unfold is_unbound in Hnone. rewrite Hk, bool_decide_eq_true_2 in Hnone by (by eapply Hkp). done.
      - unfold disp_getbest_from in *. pose proof (do_unbound _ _ _ _ Hok') as [[G1 _] _].
        pose proof (do_unbound _ _ _ _ Hok) as [[G2 _] _]. pose proof (do_top _ _ _ _ Hok') as ((G3 & _) & G4 & _).
        assert (disp_maxrunpri dp' = -1) as -> by lia. destruct (decide (0 ≤ disp_max_unbound_pri dp')) as [H1|]; [|lia].
        exfalso. destruct (Hs1 H1) as [t Ht]. pose proof (find_some _ _ Ht) as [Hin _]. apply list_elem_of_In in Hin.
        pose proof (do_top _ _ _ _ Hok) as (_ & _ & Hab). rewrite Hab in Hin by lia. by apply elem_of_nil in Hin. }
    assert (∀ tp, ∃ s', put_disp q dp' (with_threads (s_threads s) s) = Ret s' ∧ effect npri None tp s s' Q ∧
      s_threads s' = s_threads s ∧ disp_of s' q = Some dp') as Hfix by (intros tp; by apply (fix_effect npri tp s Q q dp dp')).
    destruct (Hfix 0) as (s' & Hrun & _ & Hth & Hd). rewrite Hrun. cbn [rbind]. exists None, s'. split; [done|].
    split; [|split; [done|split; [intros H0; by apply Hs2|by exists dp']]].
    intros tp. destruct (Hfix tp) as (s2 & Hrun2 & He & _). rewrite Hrun in Hrun2. by injection Hrun2 as <-.
Qed.

(** [disp_own] takes the first thread of the highest list of the processor's queue. *)
Lemma own_sys npri s Q me cp :
  sys_ok npri s Q → s_cpus s !! CPU me = Some cp → 0 ≤ disp_maxrunpri (cpu_disp cp) →
  ∃ tp s' k k' cp' l, disp_own me s = Ret (tp, s') ∧
    lv (Q (CPUQ (CPU me))) (disp_maxrunpri (cpu_disp cp)) = tp :: l ∧
    s_threads s !! tp = Some k ∧ DISP_PRIO k = disp_maxrunpri (cpu_disp cp) ∧
    s_threads s' !! tp = Some k' ∧ taken (CPU me) k' ∧ s_cpus s' !! CPU me = Some cp' ∧ cpu_dispthread cp' = tp ∧
    effect npri (Some (CPU me)) tp s s' (dequeued (CPUQ (CPU me)) (disp_maxrunpri (cpu_disp cp)) tp Q).
Proof.
  intros Hs Hc Hp. set (c := CPU me) in *. set (q := CPUQ c) in *. set (p := disp_maxrunpri (cpu_disp cp)) in *.
  assert (disp_of s q = Some (cpu_disp cp)) as Hq by (simpl; by rewrite Hc).
  destruct (so_queues _ _ _ Hs q _ Hq) as [Hok Hnp _].
  pose proof (do_top _ _ _ _ Hok) as (_ & Hne & _). specialize (Hne Hp). fold p in Hne.
  destruct (lv (Q q) p) as [|tp l] eqn:El; [done|].
  destruct (disp_take_ok q (s_threads s) (cpu_disp cp) (Q q) tp l Hok Hp El) as (th' & dp' & k & Htake & Hok' & Hk & Eth).
  assert (tp ∈ lv (Q q) p) as Hin by (rewrite El; left).
  destruct (lists_thread _ _ _ _ _ _ (do_lists _ _ _ _ Hok) Hp Hin) as (Hl & k0 & _ & Hk0 & Ho & _).
  rewrite Hk in Hk0. injection Hk0 as <-. destruct Ho as (_ & Hload & _ & Hdq & Hprio).
  set (k' := THREAD_ONPROC c (DONT_SWAP (set_link None k))).
  set (th2 := <[tp := k']> (s_threads s)).
  assert (tp ∉ concat (deq p tp (Q q))) as Hnin.
  { pose proof (ls_nodup _ _ _ _ (do_lists _ _ _ _ Hok)) as Hnd. rewrite (concat_deq (Q q) p tp Hp Hl Hnd Hin) in Hnd.
    by apply NoDup_cons in Hnd as [? _]. }
  assert (disp_ok q th2 dp' (deq p tp (Q q))) as Hok2.
  { apply (disp_frame q th'); [|done]. intros t Ht. rewrite Eth. unfold th2. rewrite !lookup_insert_ne; [done|..]; by intros ->. }
  destruct (deq_step npri s Q q (cpu_disp cp) dp' th2 tp k k' p) as (s1 & Hput & Hs1 & Hke1 & Hth1 & Hc1 & He1);
    [done|done|done|done|done|apply lookup_insert_eq|done|done| | |done|done|].
  { intros t kt Hnet Hkt. exists (t_link kt). rewrite set_link_id. unfold th2. by rewrite lookup_insert_ne. }
  { intros t Ht. unfold th2. apply lookup_insert_ne. by intros ->. }
  destruct (keeps_cpu s s1 c Hke1) as [cp1 Hcp1]; [eauto|].
  destruct (mod_dispatch_ok npri s1 (dequeued q p tp Q) (set_dispthread tp) c cp1) as [Hmd He2];
    [done|done|done|done|simpl; rewrite Hth1; unfold th2; rewrite lookup_insert_eq; eauto|]. specialize (He2 tp).
  exists tp, (put_cpu c (set_dispthread tp cp1) s1), k, k', (set_dispthread tp cp1), l.
  assert (cp1 = set_cpu_disp dp' cp ∧ s1 = put_cpu c (set_cpu_disp dp' cp) (with_threads th2 s)) as [-> ->].
  { unfold put_disp, q, mod_cpu, get_cpu in Hput. simpl in Hput. rewrite Hc in Hput. cbn [rbind] in Hput.
    injection Hput as <-. simpl in Hcp1. rewrite lookup_insert_eq in Hcp1. by injection Hcp1 as <-. }
  split.
  { unfold disp_own, get_cpu at 1. fold c. rewrite Hc. cbn [rbind]. rewrite Htake. cbn [rbind].
    unfold put_disp, mod_cpu at 1, get_cpu. cbn [with_threads s_cpus]. rewrite Hc. cbn [rbind].
    unfold mod_thread at 1. cbn [put_cpu with_cpus with_threads s_threads]. rewrite Eth.
    rewrite (tmod_ok _ tp _ (set_link None k)) by apply lookup_insert_eq. cbn [rbind].
    unfold mod_cpu, get_cpu. cbn [put_cpu with_cpus with_threads s_threads s_cpus]. rewrite lookup_insert_eq. cbn [rbind].
    unfold mod_thread. cbn [put_cpu with_cpus with_threads s_threads s_cpus]. rewrite insert_insert_eq.
    rewrite (tmod_ok _ tp _ (DONT_SWAP (set_link None k))) by apply lookup_insert_eq. cbn [rbind].
    unfold put_cpu, with_threads, with_cpus. cbn [s_threads s_cpus s_parts wake_sched wake_sched_sec s_poked].
    rewrite !insert_insert_eq. done. }
  split; [done|]. split; [done|]. split; [done|]. split; [apply lookup_insert_eq|].
  split.
  { split; [done|]. split; [|done]. unfold k'. change (loaded (DONT_SWAP (set_link None k)) = true). by rewrite loaded_DONT_SWAP. }
  split; [apply lookup_insert_eq|]. split; [done|].
  eapply effect_trans; [apply effect_weaken; exact He1|exact He2].
Qed.

(** ** Dropping requests, and the check *)

Section Ratify.
Context (ncpus kpreemptpri upreemptpri maxclsyspri rechoose_interval : Z).

Lemma ratify_clear_sys npri s Q me cp : sys_ok npri s Q → s_cpus s !! CPU me = Some cp →
  ∃ s', ratify_clear me s = Ret s' ∧ (∀ tp, effect npri (Some (CPU me)) tp s s' Q) ∧ s_threads s' = s_threads s ∧
    s_parts s' = s_parts s ∧
    ∃ cp', s_cpus s' !! CPU me = Some cp' ∧ cpu_dispthread cp' = cpu_dispthread cp ∧ cpu_disp cp' = cpu_disp cp ∧
      cpu_part cp' = cpu_part cp.
Proof.
  intros Hs Hc. unfold ratify_clear. set (f := λ cp, set_chosen_level (-1) (set_kprunrun 0 (set_runrun 0 cp))).
  destruct (mod_dispatch_ok npri s Q f (CPU me) cp Hs Hc) as [-> He]; [done|done|by apply (so_cpus _ _ _ Hs (CPU me) cp)|].
  eexists. split; [done|]. split; [done|]. split; [done|]. split; [done|]. exists (f cp). split; [apply lookup_insert_eq|done].
Qed.

Lemma ratify_check_sys npri s Q me tp k cp :
  sys_ok npri s Q → upreemptpri ≤ 0 → s_cpus s !! CPU me = Some cp → s_threads s !! tp = Some k → taken (CPU me) k →
  0 ≤ DISP_PRIO k → DISP_PRIO k < npri → is_Some (s_threads s !! curthread me) →
  ∃ pt, s_parts s !! cpu_part cp = Some pt ∧
    let best := Z.max (disp_maxrunpri (cpu_disp cp)) (disp_maxrunpri (cp_kp_queue pt)) in
    if DISP_PRIO k <? best then
      ∃ s' q, ratify_check ncpus kpreemptpri upreemptpri maxclsyspri rechoose_interval me tp (cpu_part cp) s = Ret (None, s') ∧
        allowed ncpus kpreemptpri s k q ∧ effect npri (Some (CPU me)) tp s s' (enqueued put_front q (DISP_PRIO k) tp Q)
    else ratify_check ncpus kpreemptpri upreemptpri maxclsyspri rechoose_interval me tp (cpu_part cp) s = Ret (Some tp, s).
Proof.
  intros Hs Hup Hc Hk (Hoff & Hload & Hlink & Hst & Hdq) Hp0 Hp1 Hcur.
  assert (cpu_view s !! CPU me = Some (cpu_static cp)) as Hv by (by rewrite view_lookup, Hc).
  destruct (to_ring _ _ (so_topology _ _ _ Hs) _ _ _ _ _ Hv) as ([x Hx] & _).
  rewrite part_view_lookup in Hx. destruct (s_parts s !! cpu_part cp) as [pt|] eqn:Hpt; [|done]. exists pt. split; [done|].
  unfold ratify_check, get_thread, tget. rewrite Hk. cbn [rbind]. unfold get_cpu. rewrite Hc. cbn [rbind].
  unfold get_part. rewrite Hpt. cbn [rbind].
  replace (if disp_maxrunpri (cpu_disp cp) <? disp_maxrunpri (cp_kp_queue pt) then disp_maxrunpri (cp_kp_queue pt)
           else disp_maxrunpri (cpu_disp cp)) with (Z.max (disp_maxrunpri (cpu_disp cp)) (disp_maxrunpri (cp_kp_queue pt))).
  2: { destruct (Z.ltb_spec (disp_maxrunpri (cpu_disp cp)) (disp_maxrunpri (cp_kp_queue pt))); lia. }
  cbv zeta. destruct (DISP_PRIO k <? _); [|done].
  destruct (mod_dispatch_ok npri s Q (set_dispthread (curthread me)) (CPU me) cp Hs Hc) as [-> He1]; [done|done|done|].
  cbn [rbind]. specialize (He1 tp). set (s1 := put_cpu _ _ s) in *.
  destruct (mod_off_ok npri s1 Q thread_transition tp k) as [-> He2]; [apply He1|done|done|done|done|]. cbn [rbind].
  set (s2 := with_threads (<[tp := thread_transition k]> (s_threads s1)) s1) in *.
  destruct (setfrontdq_ok ncpus kpreemptpri upreemptpri maxclsyspri rechoose_interval npri s2 Q me tp (thread_transition k))
    as (s3 & q & -> & Hallow & He3); [apply He2|apply lookup_insert_eq|by split|done|]. cbn [rbind].
  exists s3, q. split; [done|]. split.
  - unfold allowed in *. change (t_cpu (thread_transition k)) with (t_cpu k) in Hallow.
    change (t_bound_cpu (thread_transition k)) with (t_bound_cpu k) in Hallow.
    change (DISP_PRIO (thread_transition k)) with (DISP_PRIO k) in Hallow.
    change (t_cpupart (thread_transition k)) with (t_cpupart k) in Hallow.
    destruct (ncpus =? 1); [done|]. destruct (t_bound_cpu k); [done|]. destruct (kpreemptpri <=? DISP_PRIO k); [done|].
    destruct Hallow as (c & cp2 & -> & Hc2 & Epart). simpl in Hc2. exists c. destruct (decide (c = CPU me)) as [->|Hne].
    + rewrite lookup_insert_eq in Hc2. injection Hc2 as <-. exists cp. done.
    + rewrite lookup_insert_ne in Hc2 by done. by exists cp2.
  - eapply effect_trans; [exact He1|]. eapply effect_trans; apply effect_weaken; [exact He2|exact He3].
Qed.
End Ratify.

(** The idle thread. *)
Lemma idle_sys npri s Q me cp : sys_ok npri s Q → s_cpus s !! CPU me = Some cp →
  ∃ tp s', disp_idle me s = Ret (tp, s') ∧ tp = cpu_idle_thread cp ∧ effect npri (Some (CPU me)) tp s s' Q ∧
    preempt_ok s' (CPU me) ∧ ∃ cp', s_cpus s' !! CPU me = Some cp' ∧ cpu_dispthread cp' = tp.
Proof.
  intros Hs Hc. destruct (so_cpus _ _ _ Hs _ cp Hc) as [_ (k & Hk & Ek)]. set (tp := cpu_idle_thread cp) in *.
  assert (off_queue k) as Hoff.
  { intros q Hl. destruct (so_locked _ _ _ Hs tp k q Hk Hl) as [[dp Hq] Hin].
    destruct (queue_lock npri s Q q dp tp Hs Hq Hin) as (k' & p & Hk' & Hp & _ & _ & Ho).
    rewrite Hk in Hk'. injection Hk' as <-. destruct Ho as (_ & _ & _ & _ & E). lia. }
  unfold disp_idle, get_cpu at 1. rewrite Hc. cbn [rbind]. fold tp.
  destruct (mod_off_ok npri s Q (THREAD_ONPROC (CPU me)) tp k Hs Hk Hoff) as [-> He1]; [done|done|]. cbn [rbind].
  set (s1 := with_threads _ s) in *. set (f := λ cp, set_chosen_level (-1) (set_kprunrun 0 (set_runrun 0 (set_dispthread tp cp)))).
  destruct (mod_dispatch_ok npri s1 Q f (CPU me) cp) as [-> He2];
    [apply He1|done|done|done|simpl; rewrite lookup_insert_eq; eauto|]. cbn [rbind].
  exists tp. eexists. split; [done|]. split; [done|]. split.
  - eapply effect_trans; [apply effect_weaken; exact He1|apply He2].
  - split; [|exists (f cp); split; [apply lookup_insert_eq|done]].
    intros cp' k' Hc' Hk'. simpl in Hc'. rewrite lookup_insert_eq in Hc'. injection Hc' as <-.
    simpl in Hk'. rewrite lookup_insert_eq in Hk'. injection Hk' as <-. by left.
Qed.
