(* ===== verification/DispSched.v ===== *)
(** * Processors that dispatch at the same time

    The machine that the dispatcher's routines run on: every processor is in a phase,
    and an event is one of the routines, from taking its locks to dropping them, by
    some processor.  What holds in every state that a sequence of events reaches. *)

From S2P Require Import Prelude Bitmap Dispq DispqOps Disp DispInv DispSteps.

(** ** The machine *)

(** A processor runs its thread, is in [disp], has taken a thread, or has then dropped the
    requests for it to give up the processor. *)
Inductive phase := Running | Dispatching | Chosen (t : Z) | Cleared (t : Z).

Record mach := Mach { m_sys : sys; m_phase : Z → phase }.

Definition upd (c : Z) (p : phase) (ph : Z → phase) : Z → phase := λ d, if d =? c then p else ph d.

(** [Change] is anything that happens to a thread on no queue: it blocks, wakes up, is bound,
    moved or given another priority.  [Reprio] is a new priority for a thread that a processor runs
    or has taken, and the processor's being made to give it up where that is asked for; [Ast] is
    [aston].  [Swtch] is the point from which a processor is on its way to [disp]. *)
Inductive event :=
| Setback (me : ctx) (tp : Z)
| Setfront (me : ctx) (tp : Z)
| Deq (tp : Z)
| Change (tp : Z) (k : kthread)
| Reprio (me : ctx) (user : bool) (tp pri : Z) (surrender : bool)
| Ast (tp : Z)
| Swtch (c : Z)
| Getbest (me : ctx) (q : dqid)
| Own (me : ctx)
| Idle (me : ctx)
| Clear (me : ctx)
| Verify (me : ctx).

Definition claimed (ph : Z → phase) (t : Z) : Prop := ∃ c, ph c = Chosen t ∨ ph c = Cleared t.

Section Machine.
Context (ncpus kpreemptpri upreemptpri maxclsyspri rechoose_interval npri : Z).

Definition exec (e : event) (m : mach) : run mach :=
  let 'Mach s ph := m in
  match e with
  | Setback me tp =>
      let* s := setbackdq ncpus kpreemptpri upreemptpri maxclsyspri rechoose_interval me tp s in Ret (Mach s ph)
  | Setfront me tp =>
      let* s := setfrontdq ncpus kpreemptpri upreemptpri maxclsyspri rechoose_interval me tp s in Ret (Mach s ph)
  | Deq tp => let* (_, s) := dispdeq tp s in Ret (Mach s ph)
  | Change tp k => let* s := mod_thread (λ _, k) tp s in Ret (Mach s ph)
  | Reprio me user tp pri surrender =>
      let* s := mod_thread (set_tpri pri) tp s in
      let* s := if surrender then cpu_surrender kpreemptpri me user tp s else Ret s in Ret (Mach s ph)
  | Ast tp => let* s := aston tp s in Ret (Mach s ph)
  | Swtch c => Ret (Mach s (upd c Dispatching ph))
  | Getbest me q =>
      let* (r, s) := disp_getbest me q s in
      Ret (Mach s (upd (CPU me) (match r with Some t => Chosen t | None => Dispatching end) ph))
  | Own me => let* (t, s) := disp_own me s in Ret (Mach s (upd (CPU me) (Chosen t) ph))
  | Idle me => let* (_, s) := disp_idle me s in Ret (Mach s (upd (CPU me) Running ph))
  | Clear me =>
      match ph (CPU me) with
      | Chosen t => let* s := ratify_clear me s in Ret (Mach s (upd (CPU me) (Cleared t) ph))
      | _ => Fault
      end
  | Verify me =>
      match ph (CPU me) with
      | Cleared t =>
          let* cp := get_cpu (CPU me) s in
          let* (r, s) :=
            ratify_check ncpus kpreemptpri upreemptpri maxclsyspri rechoose_interval me t (cpu_part cp) s in
          Ret (Mach s (upd (CPU me) (match r with Some _ => Running | None => Dispatching end) ph))
      | _ => Fault
      end
  end.

(** A thread that may be made runnable, or whose being so may be told the swapper. *)
Definition wakeable (k : kthread) : Prop := runnable npri k ∨ swapped k.

(** When an event may happen: what the callers of the routine see to. *)
Definition enabled (e : event) (m : mach) : Prop :=
  let s := m_sys m in let ph := m_phase m in
  match e with
  | Setback _ tp | Setfront _ tp => ∃ k, s_threads s !! tp = Some k ∧ wakeable k ∧ ¬ claimed ph tp
  | Deq tp => ∃ k q, s_threads s !! tp = Some k ∧ t_lockp k = disp_lock q
  | Change tp k => ∃ k0, s_threads s !! tp = Some k0 ∧ off_queue k0 ∧ off_queue k ∧ thread_refs s k ∧ ¬ claimed ph tp ∧
      ∀ c cp, s_cpus s !! c = Some cp → cpu_idle_thread cp ≠ tp ∧ (ph c = Running → cpu_dispthread cp ≠ tp)
  | Reprio _ _ tp pri surrender => ∃ k c cp, s_threads s !! tp = Some k ∧ off_queue k ∧ t_state k = TS_ONPROC ∧
      t_disp_queue k = Some (CPUQ c) ∧ s_cpus s !! c = Some cp ∧ 0 ≤ DISP_PRIO (set_tpri pri k) ∧ DISP_PRIO (set_tpri pri k) < npri ∧
      (∀ d cd, s_cpus s !! d = Some cd → cpu_idle_thread cd ≠ tp ∧ (ph d = Running → cpu_dispthread cd = tp → d = c)) ∧
      (surrender = false → disp_maxrunpri (cpu_disp cp) ≤ DISP_PRIO (set_tpri pri k))
  | Ast tp => is_Some (s_threads s !! tp)
  | Swtch c => is_Some (s_cpus s !! c) ∧ ph c = Running
  | Getbest me q => is_Some (s_cpus s !! CPU me) ∧ ph (CPU me) = Dispatching ∧ is_Some (disp_of s q)
  | Own me => ∃ cp, s_cpus s !! CPU me = Some cp ∧ ph (CPU me) = Dispatching ∧ 0 ≤ disp_maxrunpri (cpu_disp cp)
  | Idle me => is_Some (s_cpus s !! CPU me) ∧ ph (CPU me) = Dispatching
  | Clear me => is_Some (s_cpus s !! CPU me) ∧ ∃ t, ph (CPU me) = Chosen t
  | Verify me => is_Some (s_cpus s !! CPU me) ∧ (∃ t, ph (CPU me) = Cleared t) ∧ is_Some (s_threads s !! curthread me)
  end.

Inductive reachable (m : mach) : mach → Prop :=
| reach_here : reachable m m
| reach_step m1 m2 e : reachable m m1 → enabled e m1 → exec e m1 = Ret m2 → reachable m m2.

(** Empty queues, as [disp_cpu_init] makes them; no thread is on any. *)
Record initial (m : mach) : Prop := {
  in_queues q dp : disp_of (m_sys m) q = Some dp → dp = disp_cpu_init npri;
  in_threads t k : s_threads (m_sys m) !! t = Some k → off_queue k ∧ thread_refs (m_sys m) k ∧ -1 ≤ DISP_PRIO k;
  in_cpus c cp : s_cpus (m_sys m) !! c = Some cp → is_Some (s_threads (m_sys m) !! cpu_dispthread cp) ∧
    ∃ k, s_threads (m_sys m) !! cpu_idle_thread cp = Some k ∧ DISP_PRIO k = -1;
  in_topology : topology (cpu_view (m_sys m)) (part_view (m_sys m));
  in_phase c : m_phase m c = Running ∨ m_phase m c = Dispatching
}.

(** ** The invariant *)

Definition phase_ok (s : sys) (p : phase) (c : Z) : Prop :=
  match p with
  | Running => preempt_ok s c
  | Dispatching => True
  | Chosen t | Cleared t => ∃ cp k, s_cpus s !! c = Some cp ∧ cpu_dispthread cp = t ∧ s_threads s !! t = Some k ∧
      taken c k ∧ 0 ≤ DISP_PRIO k ∧ DISP_PRIO k < npri
  end.

Definition mach_ok (m : mach) : Prop :=
  (∃ Q, sys_ok npri (m_sys m) Q) ∧ ∀ c, is_Some (s_cpus (m_sys m) !! c) → phase_ok (m_sys m) (m_phase m c) c.

Lemma chosen_ok (s : sys) p c t : phase_ok s p c → p = Chosen t ∨ p = Cleared t →
  ∃ cp k, s_cpus s !! c = Some cp ∧ cpu_dispthread cp = t ∧ s_threads s !! t = Some k ∧ taken c k ∧
    0 ≤ DISP_PRIO k ∧ DISP_PRIO k < npri.
Proof. intros H [-> | ->]; exact H. Qed.

Lemma phase_chosen (s : sys) p c t : p = Chosen t ∨ p = Cleared t →
  (∃ cp k, s_cpus s !! c = Some cp ∧ cpu_dispthread cp = t ∧ s_threads s !! t = Some k ∧ taken c k ∧
    0 ≤ DISP_PRIO k ∧ DISP_PRIO k < npri) → phase_ok s p c.
Proof. by intros [-> | ->]. Qed.

Lemma mild_phase s s' p c : mild s s' → phase_ok s p c → phase_ok s' p c.
Proof.
  intros Hm Hp. assert (∀ t, p = Chosen t ∨ p = Cleared t → phase_ok s' p c) as Ht.
  { intros t Ht. destruct (chosen_ok s p c t Hp Ht) as (cp & k & Hcp & Ed & Hk & Htk & Hprio). apply (phase_chosen s' p c t Ht).
    destruct (mi_cpus_dom _ _ Hm c) as [cp' Hcp']; [eauto|]. destruct (mi_cpus _ _ Hm c cp' Hcp') as (cp0 & Hcp0 & _ & _ & Et & _).
    destruct (mi_threads_dom _ _ Hm t) as [k' Hk']; [eauto|]. destruct (mi_threads _ _ Hm t k' Hk') as (k0 & v & Hk0 & ->).
    rewrite Hcp in Hcp0. injection Hcp0 as <-. rewrite Hk in Hk0. injection Hk0 as <-.
    exists cp', (set_astflag v k). split; [done|]. split; [congruence|]. done. }
  destruct p as [| |t|t]; [by eapply mild_preempt|done|eauto..].
Qed.

Lemma phase_effect c0 tp s s' Q' p c : effect npri c0 tp s s' Q' → Some c ≠ c0 →
  (∀ t, p = Chosen t ∨ p = Cleared t → t ≠ tp) → phase_ok s p c → phase_ok s' p c.
Proof.
  intros He Hc Hne Hp.
  assert (∀ t, p = Chosen t ∨ p = Cleared t → ∃ cp k, s_cpus s' !! c = Some cp ∧ cpu_dispthread cp = t ∧
    s_threads s' !! t = Some k ∧ taken c k ∧ 0 ≤ DISP_PRIO k ∧ DISP_PRIO k < npri) as Ht.
  { intros t Ht. destruct (chosen_ok s p c t Hp Ht) as (cp & k & Hcp & Ed & Hk & Htk & Hprio).
    destruct (keeps_cpu s s' c (ef_keeps _ _ _ _ _ _ He)) as [cp' Hcp']; [eauto|].
    destruct (ef_cpus _ _ _ _ _ _ He c cp' Hc Hcp') as (cp1 & Hcp1 & E). rewrite Hcp in Hcp1. injection Hcp1 as <-.
    destruct (ef_threads _ _ _ _ _ _ He t k) as [v Hv]; [by apply Hne|done|apply Htk|].
    exists cp', (set_astflag v k). split; [done|]. split; [congruence|]. done. }
  destruct p as [| |t|t]; [by apply (ef_preempt _ _ _ _ _ _ He)|done|apply Ht; by left|apply Ht; by right].
Qed.

Lemma upd_eq c p ph : upd c p ph c = p.
Proof. unfold upd. by rewrite Z.eqb_refl. Qed.

Lemma upd_ne c d p ph : d ≠ c → upd c p ph d = ph d.
Proof. intros. unfold upd. by rewrite (proj2 (Z.eqb_neq d c)). Qed.

Lemma cpu_before s s' d : keeps s s' → is_Some (s_cpus s' !! d) → is_Some (s_cpus s !! d).
Proof.
  intros Hke [cd Hcd]. assert (is_Some (cpu_view s' !! d)) as Hv by (rewrite view_lookup, Hcd; eauto).
  rewrite (ke_cpus _ _ Hke), view_lookup in Hv. by destruct (s_cpus s !! d); [eauto|destruct Hv].
Qed.

(** An event that moves [tp] and takes processor [c] to phase [p]. *)
Lemma event_ok c tp s s' Q' ph p : mach_ok (Mach s ph) → effect npri (Some c) tp s s' Q' →
  (∀ d t, d ≠ c → ph d = Chosen t ∨ ph d = Cleared t → is_Some (s_cpus s !! d) → t ≠ tp) → phase_ok s' p c →
  mach_ok (Mach s' (upd c p ph)).
Proof.
  intros [_ Hph] He Hne Hp. split; [eexists; apply He|]. simpl in *. intros d Hd.
  pose proof (cpu_before _ _ _ (ef_keeps _ _ _ _ _ _ He) Hd) as Hd'.
  destruct (decide (d = c)) as [->|Hdc]; [by rewrite upd_eq|]. rewrite upd_ne by done.
  eapply phase_effect; [exact He|congruence|by eauto|by apply Hph].
Qed.

Lemma event_all tp s s' Q' ph : mach_ok (Mach s ph) → effect npri None tp s s' Q' →
  (∀ d t, ph d = Chosen t ∨ ph d = Cleared t → is_Some (s_cpus s !! d) → t ≠ tp) → mach_ok (Mach s' ph).
Proof.
  intros [_ Hph] He Hne. split; [eexists; apply He|]. simpl in *. intros d Hd.
  pose proof (cpu_before _ _ _ (ef_keeps _ _ _ _ _ _ He) Hd) as Hd'.
  eapply phase_effect; [exact He|done|by eauto|by apply Hph].
Qed.

(** A chosen thread is on no queue. *)
Lemma chosen_not_queued s Q q dp ph d t tp : sys_ok npri s Q → mach_ok (Mach s ph) → ph d = Chosen t ∨ ph d = Cleared t →
  is_Some (s_cpus s !! d) → disp_of s q = Some dp → tp ∈ concat (Q q) → t ≠ tp.
Proof.
  intros Hs [_ Hph] Ht Hd Hq Hin ->. destruct (chosen_ok _ _ _ _ (Hph d Hd) Ht) as (_ & k & _ & _ & Hk & (Hoff & _) & _).
  by eapply off_queue_notin.
Qed.

Lemma mild_event s s' ph : mach_ok (Mach s ph) → mild s s' → mach_ok (Mach s' ph).
Proof.
  intros [[Q Hs] Hok] Hm. split; [exists Q; by eapply mild_ok|]. intros d Hd. eapply mild_phase; [done|]. apply Hok.
  eapply cpu_before; [by apply mild_keeps|done].
Qed.

Lemma event_any c s s' Q' ph p : mach_ok (Mach s ph) → (∀ tp, effect npri (Some c) tp s s' Q') → phase_ok s' p c →
  mach_ok (Mach s' (upd c p ph)).
Proof.
  intros [_ Hph] He Hp. split; [eexists; apply (He 0)|]. simpl in *. intros d Hd.
  destruct (decide (d = c)) as [->|Hdc]; [by rewrite upd_eq|]. rewrite upd_ne by done.
  pose proof (cpu_before _ _ _ (ef_keeps _ _ _ _ _ _ (He 0)) Hd) as Hd'.
  assert (∃ tp, ∀ t, ph d = Chosen t ∨ ph d = Cleared t → t ≠ tp) as [tp Hne].
  { destruct (ph d) as [| |t|t]; [exists 0; by intros t [?|?]|exists 0; by intros t [?|?]|exists (t + 1)..]; intros u [?|?]; simplify_eq; lia. }
  eapply phase_effect; [apply (He tp)|congruence|done|by apply Hph].
Qed.

(** A thread that has been taken off queue [q]. *)
Lemma taken_ok s s' Q Q' q dp c0 c tp k' cp' p : sys_ok npri s Q → disp_of s q = Some dp → tp ∈ concat (Q q) →
  effect npri c0 tp s s' Q' → s_cpus s' !! c = Some cp' → cpu_dispthread cp' = tp → s_threads s' !! tp = Some k' → taken c k' →
  p = Chosen tp ∨ p = Cleared tp → phase_ok s' p c.
Proof.
  intros Hs Hq Hin He Hc Ed Hk Htk Hp.
  destruct (proj1 (ke_threads _ _ (ef_keeps _ _ _ _ _ _ He)) tp k' Hk) as (k & Hk0 & _ & _ & _ & E).
  destruct (queue_lock npri s Q q dp tp Hs Hq Hin) as (k1 & p1 & Hk1 & Hp0 & Hp1 & _ & Ho).
  rewrite Hk0 in Hk1. injection Hk1 as <-. destruct Ho as (_ & _ & _ & _ & E1).
  assert (∃ cp k, s_cpus s' !! c = Some cp ∧ cpu_dispthread cp = tp ∧ s_threads s' !! tp = Some k ∧ taken c k ∧
    0 ≤ DISP_PRIO k ∧ DISP_PRIO k < npri) as H by (exists cp', k'; split_and!; first [done|lia]).
  destruct Hp as [-> | ->]; exact H.
Qed.

Lemma claimed_ne ph tp d t : ¬ claimed ph tp → ph d = Chosen t ∨ ph d = Cleared t → t ≠ tp.
Proof. intros Hn Ht ->. apply Hn. by exists d. Qed.

Lemma preempt_running s c cp k : s_cpus s !! c = Some cp → s_threads s !! cpu_dispthread cp = Some k →
  disp_maxrunpri (cpu_disp cp) ≤ DISP_PRIO k → preempt_ok s c.
Proof. intros Hc Hk H cp' k' Hc' Hk'. rewrite Hc in Hc'. injection Hc' as <-. rewrite Hk in Hk'. injection Hk' as <-. auto. Qed.

Lemma disp_of_cpu s c cp : s_cpus s !! c = Some cp → disp_of s (CPUQ c) = Some (cpu_disp cp).
Proof. intros H. simpl. by rewrite H. Qed.

(** ** Each event *)

Section Events.
Context (Hup : upreemptpri ≤ 0).

Lemma set_steps s Q me tp k : sys_ok npri s Q → s_threads s !! tp = Some k → wakeable k →
  (∃ s' Q', setbackdq ncpus kpreemptpri upreemptpri maxclsyspri rechoose_interval me tp s = Ret s' ∧ effect npri None tp s s' Q') ∧
  ∃ s' Q', setfrontdq ncpus kpreemptpri upreemptpri maxclsyspri rechoose_interval me tp s = Ret s' ∧ effect npri None tp s s' Q'.
Proof using Hup.
  intros Hs Hk [Hr|Hsw].
  - destruct (setbackdq_ok ncpus kpreemptpri upreemptpri maxclsyspri rechoose_interval npri s Q me tp k) as (s1 & q1 & H1 & _ & He1); [done..|].
    destruct (setfrontdq_ok ncpus kpreemptpri upreemptpri maxclsyspri rechoose_interval npri s Q me tp k) as (s2 & q2 & H2 & _ & He2); [done..|].
    split; eauto.
  - destruct (swapped_ok maxclsyspri npri s Q tp k Hs Hk Hsw) as (s' & Hrun & He). destruct Hsw as (_ & Hl & _).
    unfold setbackdq, setfrontdq, get_thread, tget. rewrite Hk. cbn [rbind]. rewrite Hl. cbn [negb]. split; eauto.
Qed.

Lemma set_event s ph me tp :
  mach_ok (Mach s ph) → enabled (Setback me tp) (Mach s ph) →
  (∃ m', exec (Setback me tp) (Mach s ph) = Ret m' ∧ mach_ok m') ∧ ∃ m', exec (Setfront me tp) (Mach s ph) = Ret m' ∧ mach_ok m'.
Proof using Hup.
  intros Hm (k & Hk & Hr & Hn). pose proof Hm as [[Q Hs] _]. simpl in *.
  destruct (set_steps s Q me tp k Hs Hk Hr) as [(s1 & Q1 & -> & He1) (s2 & Q2 & -> & He2)].
  split; (eexists; split; [done|]); (eapply event_all; [done|done|]); intros d t Ht _; by eapply claimed_ne.
Qed.

Lemma deq_event m tp : mach_ok m → enabled (Deq tp) m → ∃ m', exec (Deq tp) m = Ret m' ∧ mach_ok m'.
Proof using Type.
  destruct m as [s ph]. intros Hm (k & q & Hk & Hl). pose proof Hm as [[Q Hs] _]. simpl in *.
  destruct (dispdeq_sys_ok npri s Q tp k q Hs Hk Hl) as (Hp & Hin & s' & -> & He & _). eexists. split; [done|].
  eapply event_all; [done|exact He|]. intros d t Ht Hd. destruct (so_locked _ _ _ Hs tp k q Hk Hl) as [[dp Hq] Hin'].
  by eapply chosen_not_queued.
Qed.

Lemma getbest_event m me q : mach_ok m → enabled (Getbest me q) m → ∃ m', exec (Getbest me q) m = Ret m' ∧ mach_ok m'.
Proof using Type.
  destruct m as [s ph]. intros Hm ([cp Hc] & Hph & [dp Hq]). pose proof Hm as [[Q Hs] _]. simpl in *.
  destruct (getbest_sys npri s Q me q dp cp Hs Hq Hc) as (r & s' & -> & Hr). cbn [rbind]. eexists. split; [done|].
  destruct r as [tp|].
  - destruct Hr as (p & k & k' & cp' & _ & Hp & Hf & _ & Hk & Ek & Hk' & Htk & Hc' & Ed & He).
    pose proof (find_some _ _ Hf) as [Hin _]. apply list_elem_of_In in Hin.
    assert (tp ∈ concat (Q q)) as Hin' by (by eapply lv_elem).
    eapply event_ok; [done|exact He| |].
    + intros d t _ Ht Hd. by eapply chosen_not_queued.
    + eapply (taken_ok s); eauto.
  - destruct Hr as [He _]. eapply event_any; [done| |done]. intros tp. apply effect_weaken, He.
Qed.

Lemma own_event m me : mach_ok m → enabled (Own me) m → ∃ m', exec (Own me) m = Ret m' ∧ mach_ok m'.
Proof using Type.
  destruct m as [s ph]. intros Hm (cp & Hc & Hph & Hp). pose proof Hm as [[Q Hs] _]. simpl in *.
  destruct (own_sys npri s Q me cp Hs Hc Hp) as (tp & s' & k & k' & cp' & l & -> & Hl & Hk & Ek & Hk' & Htk & Hc' & Ed & He).
  cbn [rbind]. eexists. split; [done|]. pose proof (disp_of_cpu s _ cp Hc) as Hq.
  assert (tp ∈ concat (Q (CPUQ (CPU me)))) as Hin by (eapply lv_elem; rewrite Hl; left).
  eapply event_ok; [done|exact He| |].
  - intros d t _ Ht Hd. by eapply chosen_not_queued.
  - eapply (taken_ok s); eauto.
Qed.

Lemma idle_event m me : mach_ok m → enabled (Idle me) m → ∃ m', exec (Idle me) m = Ret m' ∧ mach_ok m'.
Proof using Type.
  destruct m as [s ph]. intros Hm ([cp Hc] & Hph). pose proof Hm as [[Q Hs] Hok]. simpl in *.
  destruct (idle_sys npri s Q me cp Hs Hc) as (tp & s' & -> & -> & He & Hpre & _). cbn [rbind]. eexists. split; [done|].
  eapply event_ok; [done|exact He| |done]. intros d t _ Ht Hd ->.
  destruct (chosen_ok _ _ _ _ (Hok d Hd) Ht) as (_ & k & _ & _ & Hk & _ & Hk0 & _).
  destruct (so_cpus _ _ _ Hs _ cp Hc) as [_ (k' & Hk' & Ek)]. rewrite Hk in Hk'. injection Hk' as <-. lia.
Qed.

Lemma clear_event m me : mach_ok m → enabled (Clear me) m → ∃ m', exec (Clear me) m = Ret m' ∧ mach_ok m'.
Proof using Type.
  destruct m as [s ph]. intros Hm ([cp Hc] & t & Hph). pose proof Hm as [[Q Hs] Hok]. simpl in *. rewrite Hph.
  destruct (ratify_clear_sys npri s Q me cp Hs Hc) as (s' & -> & He & Hth & _ & cp' & Hc' & Ed & _). cbn [rbind].
  eexists. split; [done|]. eapply event_any; [done|done|].
  destruct (chosen_ok _ _ _ t (Hok (CPU me) ltac:(eauto)) ltac:(by left)) as (cp0 & k & Hcp0 & Et & Hk & Htk & Hprio).
  rewrite Hc in Hcp0. injection Hcp0 as <-. exists cp', k. rewrite Hth, Ed. done.
Qed.

Lemma verify_event m me : mach_ok m → enabled (Verify me) m → ∃ m', exec (Verify me) m = Ret m' ∧ mach_ok m'.
Proof using Hup.
  destruct m as [s ph]. intros Hm ([cp Hc] & [t Hph] & Hcur). pose proof Hm as [[Q Hs] Hok]. simpl in *. rewrite Hph.
  destruct (chosen_ok _ _ _ t (Hok (CPU me) ltac:(eauto)) ltac:(by right)) as (cp0 & k & Hcp0 & Et & Hk & Htk & Hp0 & Hp1).
  rewrite Hc in Hcp0. injection Hcp0 as <-. unfold get_cpu. rewrite Hc. cbn [rbind].
  destruct (ratify_check_sys ncpus kpreemptpri upreemptpri maxclsyspri rechoose_interval npri s Q me t k cp)
    as (pt & _ & Hr); [done..|]. cbv zeta in Hr.
  destruct (Z.ltb_spec (DISP_PRIO k) (Z.max (disp_maxrunpri (cpu_disp cp)) (disp_maxrunpri (cp_kp_queue pt)))) as [Hlt|Hge].
  - destruct Hr as (s' & q & -> & _ & He). cbn [rbind]. eexists. split; [done|]. eapply event_ok; [done|exact He| |done].
    intros d t' Hd Ht' Hcd ->. destruct (chosen_ok _ _ _ t (Hok d Hcd) Ht') as (_ & k' & _ & _ & Hk' & Htk' & _).
    rewrite Hk in Hk'. injection Hk' as <-. destruct Htk as (_ & _ & _ & _ & E1), Htk' as (_ & _ & _ & _ & E2).
    rewrite E1 in E2. by injection E2.
  - rewrite Hr. cbn [rbind]. eexists. split; [done|]. split; [by exists Q|]. simpl. intros d Hd.
    destruct (decide (d = CPU me)) as [->|Hne]; [rewrite upd_eq|by rewrite upd_ne; [apply Hok|]].
    apply (preempt_running s (CPU me) cp k); [done|congruence|lia].
Qed.

Lemma change_event m tp k : mach_ok m → enabled (Change tp k) m → ∃ m', exec (Change tp k) m = Ret m' ∧ mach_ok m'.
Proof using Type.
  destruct m as [s ph]. intros Hm (k0 & Hk0 & Hoff0 & Hoff & Href & Hn & Hcpus). pose proof Hm as [[Q Hs] Hok]. simpl in *.
  unfold mod_thread. rewrite (tmod_ok _ tp _ k0) by done. cbn [rbind]. eexists. split; [done|].
  assert (∀ t, t ≠ tp → <[tp := k]> (s_threads s) !! t = s_threads s !! t) as Hne by (intros; by apply lookup_insert_ne).
  split; [exists Q; apply (change_ok npri s Q tp k0); try done; intros c cp Hc; by apply (Hcpus c cp)|].
  - intros c Hc. specialize (Hok c Hc). simpl in *.
    assert (∀ t, ph c = Chosen t ∨ ph c = Cleared t → ∃ cp kt, s_cpus s !! c = Some cp ∧ cpu_dispthread cp = t ∧
      <[tp := k]> (s_threads s) !! t = Some kt ∧ taken c kt ∧ 0 ≤ DISP_PRIO kt ∧ DISP_PRIO kt < npri) as Ht.
    { intros t Ht. destruct (chosen_ok s _ c t Hok Ht) as (cp & kt & Hcp & Ed & Hkt & Hrest). exists cp, kt.
      split; [done|]. split; [done|]. split; [|done]. rewrite lookup_insert_ne; [done|].
      intros E. eapply (claimed_ne ph tp c t); done. }
    destruct (ph c) as [| |t|t] eqn:E; [|done| |].
    + intros cp kd Hcp. simpl. destruct (Hcpus c cp Hcp) as [_ Hd]. rewrite Hne by (by apply Hd). by apply Hok.
    + exact (Ht t (or_introl eq_refl)).
    + exact (Ht t (or_intror eq_refl)).
Qed.

Lemma ast_event m tp : mach_ok m → enabled (Ast tp) m → ∃ m', exec (Ast tp) m = Ret m' ∧ mach_ok m'.
Proof using Type.
  destruct m as [s ph]. intros Hm [k Hk]. pose proof Hm as [[Q Hs] _]. simpl in *.
  destruct (aston_mild tp k s Hk) as (s' & -> & Hmild & _). eexists. split; [done|]. by eapply mild_event.
Qed.

Lemma reprio_event m me user tp pri b : mach_ok m → enabled (Reprio me user tp pri b) m →
  ∃ m', exec (Reprio me user tp pri b) m = Ret m' ∧ mach_ok m'.
Proof using Type.
  destruct m as [s ph]. intros Hm (k & c & cp & Hk & Hoff & Hst & Hq & Hc & Hp0 & Hp1 & Hcpus & Hb). pose proof Hm as [[Q Hs] Hok].
  simpl in *. unfold mod_thread. rewrite (tmod_ok _ tp _ k) by done. cbn [rbind]. set (k' := set_tpri pri k) in *.
  set (s1 := with_threads (<[tp := k']> (s_threads s)) s).
  assert (sys_ok npri s1 Q) as Hs1.
  { apply (change_ok npri s Q tp k); try done; [by apply (so_refs _ _ _ Hs tp k)|]. intros d cd Hd. by apply (Hcpus d cd). }
  assert (∃ s2, (if b then cpu_surrender kpreemptpri me user tp s1 else Ret s1) = Ret s2 ∧ mild s1 s2 ∧
    (b = true → ∀ cp', s_cpus s2 !! c = Some cp' → cpu_runrun cp' ≠ 0)) as (s2 & -> & Hmild & Hflag).
  { destruct b; [|exists s1; split; [done|]; split; [apply mild_refl|done]].
    destruct (surrender_ok kpreemptpri npri s1 Q me user tp k' c cp) as (s2 & -> & ? & ?); [done|apply lookup_insert_eq|done..|].
    by exists s2. }
  cbn [rbind]. eexists. split; [done|]. split; [exists Q; by eapply mild_ok|]. simpl. intros d Hd.
  assert (is_Some (s_cpus s !! d)) as Hd0 by (eapply (cpu_before s1), Hd; by apply mild_keeps).
  specialize (Hok d Hd0). simpl in Hok.
  assert (∀ t, ph d = Chosen t ∨ ph d = Cleared t → phase_ok s1 (ph d) d) as Hch.
  { intros t Ht. destruct (chosen_ok s _ d t Hok Ht) as (cd & kt & Hcd & Ed & Hkt & Htk & Hp).
    apply (phase_chosen s1 _ _ t Ht). destruct (decide (t = tp)) as [->|Hne].
    - rewrite Hk in Hkt. injection Hkt as <-. exists cd, k'. split; [done|]. split; [done|]. split; [apply lookup_insert_eq|done].
    - exists cd, kt. split; [done|]. split; [done|]. split; [simpl; by rewrite lookup_insert_ne|done]. }
  destruct (ph d) as [| |t|t] eqn:E; [|done|eapply mild_phase, Hch; eauto..].
  - intros cd2 kd Hcd2 Hkd. destruct (mi_cpus _ _ Hmild d cd2 Hcd2) as (cd & Hcd & _ & Ed & Et & Hr). rewrite Et in Hkd.
    destruct (mi_threads _ _ Hmild _ kd Hkd) as (kd1 & v & Hkd1 & ->). change (DISP_PRIO (set_astflag v kd1)) with (DISP_PRIO kd1).
    simpl in Hcd, Hkd1. destruct (decide (cpu_dispthread cd = tp)) as [Etp|Hne].
    + destruct (Hcpus d cd Hcd) as [_ Hdc]. pose proof (Hdc E Etp) as ->. rewrite Hc in Hcd. injection Hcd as <-.
      rewrite Etp, lookup_insert_eq in Hkd1. injection Hkd1 as <-. destruct b; [right; right; by apply Hflag|].
      right; left. rewrite Ed. by apply Hb.
    + rewrite lookup_insert_ne in Hkd1 by congruence. destruct (Hok cd kd1 Hcd Hkd1) as [?|[?|?]]; [by left|right; left; congruence|].
      right; right. by apply Hr.
Qed.

Lemma swtch_event m c : mach_ok m → ∃ m', exec (Swtch c) m = Ret m' ∧ mach_ok m'.
Proof using Type.
  destruct m as [s ph]. intros [Hq Hok]. eexists. split; [done|]. split; [done|]. simpl in *. intros d Hd.
  destruct (decide (d = c)) as [->|Hne]; [by rewrite upd_eq|rewrite upd_ne by done; by apply Hok].
Qed.

Lemma event_preserves e m : mach_ok m → enabled e m → ∃ m', exec e m = Ret m' ∧ mach_ok m'.
Proof using Hup.
  destruct e; eauto using deq_event, change_event, reprio_event, ast_event, swtch_event, getbest_event, own_event, idle_event, clear_event, verify_event;
    destruct m; intros; by apply set_event.
Qed.
End Events.

(** ** Empty queues *)

Lemma lv_empty n i : lv (replicate n []) i = [].
Proof.
  unfold lv. rewrite list_lookup_total_alt. destruct (replicate n [] !! Z.to_nat i) as [l|] eqn:E; [|done].
  by apply lookup_replicate in E as [-> _].
Qed.

Lemma concat_empty n : concat (replicate n ([] : list Z)) = [].
Proof. induction n; [done|simpl]. done. Qed.

Lemma disp_cpu_init_ok th q : 0 ≤ npri → queue_ok npri th q (disp_cpu_init npri) (replicate (Z.to_nat npri) []).
Proof.
  intros Hn. assert (zlen (replicate (Z.to_nat npri) ([] : list Z)) = npri) as Hlen by (rewrite length_replicate; lia).
  split; [|done|].
  - split.
    + split; [simpl; by rewrite !length_replicate| |rewrite concat_empty; constructor].
      intros i dq Hi [-> _]%lookup_replicate. rewrite lv_empty. split; [done|done|done|]. intros t Ht. by apply elem_of_nil in Ht.
    + split; [split| |by rewrite concat_empty].
      * apply Forall_replicate. split; lia.
      * rewrite Hlen. cbn [disp_cpu_init disp_qactmap]. rewrite length_replicate. unfold BT_NBIPUL. pose proof (Z_div_mod_eq_full npri 32).
        pose proof (Z.mod_pos_bound npri 32). lia.
      * intros i Hi. rewrite lv_empty, bool_decide_eq_false_2 by (intros H; by apply H). simpl. unfold map_bit.
        destruct (replicate _ 0 !! _) as [w|] eqn:E; [|done]. apply lookup_replicate in E as [-> _]. apply Z.bits_0.
    + simpl. split_and!; [lia|rewrite Hlen; lia|lia|]. intros i _. apply lv_empty.
    + split; [simpl; rewrite Hlen; lia|]. intros i t k _ Ht. rewrite lv_empty in Ht. by apply elem_of_nil in Ht.
  - destruct q; [done|]. split; [done|]. intros t k Ht. rewrite concat_empty in Ht. by apply elem_of_nil in Ht.
Qed.

Lemma initial_ok m : 0 ≤ npri → initial m → mach_ok m.
Proof.
  intros Hn [H1 H2 H3 H4 H5]. split.
  - exists (λ _, replicate (Z.to_nat npri) []). split; [|  |by apply H2|done|done].
    + intros q dp Hq. rewrite (H1 q dp Hq). by apply disp_cpu_init_ok.
    + intros t k q Hk Hl. by destruct (proj1 (H2 t k Hk) q).
  - intros c [cp Hc]. destruct (H5 c) as [-> | ->]; [|done]. intros cp' k Hc' Hk. rewrite Hc in Hc'. injection Hc' as <-.
    right; left. rewrite (H1 (CPUQ c) (cpu_disp cp)) by (by apply disp_of_cpu). by apply (H2 _ k Hk).
Qed.

Lemma reachable_ok m m' : upreemptpri ≤ 0 → mach_ok m → reachable m m' → mach_ok m'.
Proof.
  intros Hup Hm Hr. induction Hr as [|m1 m2 e _ IH He Hx]; [done|]. destruct (event_preserves Hup e m1 IH He) as (m3 & Hx' & H3).
  rewrite Hx in Hx'. by injection Hx' as <-.
Qed.
End Machine.
