(* ===== verification/DispSafe.v ===== *)
(** * No processor forgets to give itself up

    The theorem on the machine of [DispSched], and a system of two processors on which
    this and the other theorems of the dispatcher are applied. *)

From S2P Require Import Prelude Bitmap Dispq DispqOps Disp DispInv DispSteps DispSched.

(** C6: Whatever processors do at the same time, in every state that is reached from empty
    queues, the queues are right, every routine that may be called ends without a fault, and no
    processor goes on running a thread with a better one on its queue without having been asked to
    give the processor up. *)
Theorem dispatcher_safe ncpus kpreemptpri upreemptpri maxclsyspri rechoose_interval npri m0 m :
  0 ≤ npri → upreemptpri ≤ 0 → initial npri m0 →
  reachable ncpus kpreemptpri upreemptpri maxclsyspri rechoose_interval npri m0 m →
  (∃ Q, sys_ok npri (m_sys m) Q) ∧
  (∀ c, is_Some (s_cpus (m_sys m) !! c) → m_phase m c = Running → preempt_ok (m_sys m) c) ∧
  ∀ e, enabled npri e m → ∃ m', exec ncpus kpreemptpri upreemptpri maxclsyspri rechoose_interval e m = Ret m'.
Proof.
  intros Hn Hup Hi Hr.
  pose proof (reachable_ok _ _ _ _ _ npri m0 m Hup (initial_ok npri m0 Hn Hi) Hr) as Hok. split; [apply Hok|]. split.
  - intros c Hc Hph. pose proof (proj2 Hok c Hc) as H. by rewrite Hph in H.
  - intros e He. by destruct (event_preserves ncpus kpreemptpri upreemptpri maxclsyspri rechoose_interval npri Hup e m Hok He)
      as (m' & ? & _); exists m'.
Qed.

(** ** Two processors *)

(** Processors 0 and 1 in partition 0, with idle threads 100 and 101; threads 1, 2 and 3 of
    priorities 62, 10 and 20; the kernel is preempted from 60 on. *)
Definition ex_thread (pri : Z) : kthread :=
  Kthread None pri 0 TS_SLEEP TS_LOAD None 0 0 None other_lock 0 None 0 0.
Definition ex_cpu (idle next : Z) : cpu := Cpu (disp_cpu_init 64) idle idle 0 0 (-1) 0 next false.
Definition ex_sys : sys :=
  Sys (list_to_map [(100, ex_thread (-1)); (101, ex_thread (-1)); (1, ex_thread 62); (2, ex_thread 10); (3, ex_thread 20)])
    (list_to_map [(0, ex_cpu 100 1); (1, ex_cpu 101 0)]) (list_to_map [(0, Cpupart (disp_cpu_init 64) 0)]) 0 0 [].
Definition ex_mach : mach := Mach ex_sys (λ _, Dispatching).

(** On processor [c]. *)
Definition ex_me (c : Z) : ctx := Ctx c (100 + c) 0.

Lemma ex_thread_cases t k : s_threads ex_sys !! t = Some k → ∃ pri, -1 ≤ pri ∧ k = ex_thread pri.
Proof.
  intros H%elem_of_list_to_map_2. unfold ex_sys in H. rewrite !elem_of_cons in H.
  destruct H as [[= _ ->]|[[= _ ->]|[[= _ ->]|[[= _ ->]|[[= _ ->]|H]]]]]; try (eexists; split; [|done]; lia).
  by apply elem_of_nil in H.
Qed.

Lemma ex_cpu_cases c cp : s_cpus ex_sys !! c = Some cp → (c = 0 ∧ cp = ex_cpu 100 1) ∨ (c = 1 ∧ cp = ex_cpu 101 0).
Proof.
  intros H%elem_of_list_to_map_2. unfold ex_sys in H. rewrite !elem_of_cons in H.
  destruct H as [[= -> ->]|[[= -> ->]|H]]; [by left|by right|by apply elem_of_nil in H].
Qed.

Lemma ex_part_cases p pt : s_parts ex_sys !! p = Some pt → p = 0 ∧ pt = Cpupart (disp_cpu_init 64) 0.
Proof.
  intros H%elem_of_list_to_map_2. unfold ex_sys in H. rewrite !elem_of_cons in H.
  destruct H as [[= -> ->]|H]; [done|by apply elem_of_nil in H].
Qed.

Lemma ex_initial : initial 64 ex_mach.
Proof.
  split; simpl.
  - intros [c|p] dp; unfold disp_of; intros (x & Hx & ->)%fmap_Some.
    + by apply ex_cpu_cases in Hx as [[_ ->]|[_ ->]].
    + by apply ex_part_cases in Hx as [_ ->].
  - intros t k Hk. apply ex_thread_cases in Hk as (pri & Hp & ->). split; [done|]. split; [|done]. by split_and!; vm_compute; eauto.
  - intros c cp Hc. apply ex_cpu_cases in Hc as [[-> ->]|[-> ->]]; (split; [by vm_compute; eauto|by eexists]).
  - split.
    + intros c n p i o Hv. apply view_cpu in Hv as (cp & Hc & E).
      apply ex_cpu_cases in Hc as [[-> ->]|[-> ->]]; injection E as <- <- _ _; (split; [by vm_compute; eauto|]).
      * exists [1], 1, 100, false. split; [done|]. split; [|apply NoDup_cons; split; [apply not_elem_of_cons; split; [done|apply not_elem_of_nil]|apply NoDup_singleton]]. split; [done|]. by exists 0, 101, false.
      * exists [0], 0, 101, false. split; [done|]. split; [|apply NoDup_cons; split; [apply not_elem_of_cons; split; [done|apply not_elem_of_nil]|apply NoDup_singleton]]. split; [done|]. by exists 1, 100, false.
    + intros p c Hv. rewrite part_view_lookup in Hv. apply fmap_Some in Hv as (pt & Hp & ->).
      apply ex_part_cases in Hp as [-> ->]. by exists 1, 100, false.
  - by right.
Qed.

(** The machine after some events. *)
Definition ex_exec := exec 2 60 0 59 3.
Definition ex_step (e : event) (m : mach) : mach := match ex_exec e m with Ret m' => m' | _ => m end.
Definition ex_steps (es : list event) (m : mach) : mach := foldl (λ m e, ex_step e m) m es.

Abbreviation ex_reachable := (reachable 2 60 0 59 3 64).

Lemma ex_reach m e : ex_reachable ex_mach m → ex_exec e m = Ret (ex_step e m) → enabled 64 e m → ex_reachable ex_mach (ex_step e m).
Proof. intros. by eapply reach_step. Qed.

Lemma ex_unclaimed m tp :
  (∀ c, m_phase m c = Running ∨ m_phase m c = Dispatching ∨ ∃ t, t ≠ tp ∧ (m_phase m c = Chosen t ∨ m_phase m c = Cleared t)) →
  ¬ claimed (m_phase m) tp.
Proof. intros H (c & Hc). destruct (H c) as [E|[E|(t & Hne & [E|E])]]; rewrite E in Hc; destruct Hc; congruence. Qed.

(** The conditions of an event on a concrete machine. *)
Ltac ex_get := eexists; split; [vm_compute; reflexivity|].
Ltac ex_set :=
  ex_get; split;
  [left; split; [intros q H; vm_compute in H; discriminate|reflexivity|reflexivity|split; [vm_compute; discriminate|reflexivity]]|];
  apply ex_unclaimed; intros c; destruct c; vm_compute; eauto 10; right; right; eexists; (split; [|eauto]); discriminate.
Ltac ex_own := ex_get; split; [reflexivity|vm_compute; discriminate].
Ltac ex_cpu := split; [eexists; vm_compute; reflexivity|].
Ltac ex_event tac := apply ex_reach; [|vm_compute; reflexivity|tac].

(** A better thread arrives after the first has been chosen, and before the requests are dropped. *)
Lemma ex_race : ex_reachable ex_mach
  (ex_steps [Setback (ex_me 0) 2; Own (ex_me 0); Setback (ex_me 1) 3; Clear (ex_me 0); Verify (ex_me 0);
    Own (ex_me 0); Clear (ex_me 0); Verify (ex_me 0)] ex_mach).
Proof.
  cbn [ex_steps foldl].
  ex_event ltac:(ex_cpu; split; [eexists; vm_compute; reflexivity|eexists; vm_compute; reflexivity]).
  ex_event ltac:(ex_cpu; eexists; vm_compute; reflexivity).
  ex_event ex_own.
  ex_event ltac:(ex_cpu; split; [eexists; vm_compute; reflexivity|eexists; vm_compute; reflexivity]).
  ex_event ltac:(ex_cpu; eexists; vm_compute; reflexivity).
  ex_event ex_set.
  ex_event ex_own.
  ex_event ex_set.
  constructor.
Qed.

(** Threads 2 and 3 wait for processor 0. *)
Definition ex_two : mach := ex_steps [Setback (ex_me 1) 2; Setback (ex_me 1) 3] ex_mach.

Lemma ex_two_ok : mach_ok 64 ex_two.
Proof.
  apply (reachable_ok 2 60 0 59 3 64 ex_mach); [lia|by apply initial_ok, ex_initial|].
  unfold ex_two. cbn [ex_steps foldl]. ex_event ex_set. ex_event ex_set. constructor.
Qed.

Lemma dispatcher_safe_witness :
  ∃ m, ex_reachable ex_mach m ∧ m_phase m 0 = Running ∧ option_map cpu_dispthread (s_cpus (m_sys m) !! 0) = Some 3 ∧
    preempt_ok (m_sys m) 0.
Proof.
  eexists. split; [exact ex_race|]. split; [vm_compute; reflexivity|]. split; [vm_compute; reflexivity|].
  eapply (dispatcher_safe 2 60 0 59 3 64); [lia|lia|exact ex_initial|exact ex_race|eexists; vm_compute; reflexivity|vm_compute; reflexivity].
Defined.
