(* ===== verification/DispChoose.v ===== *)
(** * What [disp] chooses

    A processor that is left alone runs the first thread of the highest list, of its
    partition's queue or its own; when both are empty it takes an unbound thread from
    the processor of its partition that has the best one, or idles.  No loop turns
    twice. *)

From S2P Require Import Prelude Bitmap Dispq DispqOps Disp DispInv DispSteps DispSched DispSafe.

(** ** Priorities afterwards *)

Lemma top_unique ls r r' : top_of ls r → top_of ls r' → r = r'.
Proof.
  intros ((H1 & _) & H2 & H3) ((G1 & _) & G2 & G3). destruct (Z.lt_trichotomy r r') as [H|[H|H]]; [|done|].
  - exfalso. apply G2; [lia|]. by apply H3.
  - exfalso. apply H2; [lia|]. by apply G3.
Qed.

Lemma sys_top npri s Q q dp : sys_ok npri s Q → disp_of s q = Some dp → top_of (Q q) (disp_maxrunpri dp).
Proof. intros Hs Hq. apply (so_queues _ _ _ Hs q dp Hq). Qed.

(** Taking a thread makes no maximum greater. *)
Lemma deq_max npri s Q c0 tp s' q p q1 dp1 dp1' : sys_ok npri s Q → effect npri c0 tp s s' (dequeued q p tp Q) →
  tp ∈ lv (Q q) p → 0 ≤ p → disp_of s q1 = Some dp1 → disp_of s' q1 = Some dp1' → disp_maxrunpri dp1' ≤ disp_maxrunpri dp1.
Proof.
  intros Hs He Hin Hp H1 H1'. pose proof (sys_top _ _ _ _ _ Hs H1) as T.
  pose proof (sys_top _ _ _ _ _ (ef_ok _ _ _ _ _ _ He) H1') as T'. unfold dequeued in T'.
  destruct (decide (q1 = q)) as [->|Hne]; [rewrite set_queue_eq in T'|rewrite set_queue_ne in T' by done].
  - assert (p < zlen (Q q)) as Hl.
    { destruct (decide (p < zlen (Q q))); [done|]. rewrite lv_out in Hin by lia. by apply elem_of_nil in Hin. }
    by eapply (top_deq (Q q) p tp).
  - by rewrite (top_unique _ _ _ T T').
Qed.

Lemma keeps_part_of s s' c cp cp' : keeps s s' → s_cpus s !! c = Some cp → s_cpus s' !! c = Some cp' →
  cpu_static cp' = cpu_static cp.
Proof.
  intros Hke Hc Hc'. assert (cpu_view s' !! c = cpu_view s !! c) as E by (by rewrite (ke_cpus _ _ Hke)).
  rewrite !view_lookup, Hc, Hc' in E. simpl in E. congruence.
Qed.

Lemma part_of_cpu npri s Q c cp : sys_ok npri s Q → s_cpus s !! c = Some cp → ∃ pt, s_parts s !! cpu_part cp = Some pt.
Proof.
  intros Hs Hc. assert (cpu_view s !! c = Some (cpu_static cp)) as Hv by (by rewrite view_lookup, Hc).
  destruct (to_ring _ _ (so_topology _ _ _ Hs) _ _ _ _ _ Hv) as ([x Hx] & _).
  rewrite part_view_lookup in Hx. destruct (s_parts s !! cpu_part cp) as [pt|]; [by exists pt|done].
Qed.

Section Choose.
Context (ncpus kpreemptpri upreemptpri maxclsyspri rechoose_interval npri : Z).
Hypothesis Hup : upreemptpri ≤ 0.

(** ** The choice stands *)

(** Nothing better is queued than the thread that was taken. *)
Lemma ratify_now s Q me tp k cp pt :
  sys_ok npri s Q → s_cpus s !! CPU me = Some cp → s_parts s !! cpu_part cp = Some pt → s_threads s !! tp = Some k →
  taken (CPU me) k → cpu_dispthread cp = tp → 0 ≤ DISP_PRIO k → DISP_PRIO k < npri → is_Some (s_threads s !! curthread me) →
  disp_maxrunpri (cpu_disp cp) ≤ DISP_PRIO k → disp_maxrunpri (cp_kp_queue pt) ≤ DISP_PRIO k →
  ∃ s', disp_ratify ncpus kpreemptpri upreemptpri maxclsyspri rechoose_interval me tp (cpu_part cp) s = Ret (Some tp, s') ∧
    (∀ t, effect npri (Some (CPU me)) t s s' Q) ∧ preempt_ok s' (CPU me) ∧
    ∃ cp', s_cpus s' !! CPU me = Some cp' ∧ cpu_dispthread cp' = tp.
Proof using Hup.
  intros Hs Hc Hpt Hk Htk Hd Hp0 Hp1 Hcur Ho Hkp.
  destruct (ratify_clear_sys npri s Q me cp Hs Hc) as (s1 & Hrun & He & Hth & Hps & cp1 & Hc1 & Ed & Edp & Epart).
  unfold disp_ratify. rewrite Hrun. cbn [rbind]. rewrite <-Epart.
  destruct (ratify_check_sys ncpus kpreemptpri upreemptpri maxclsyspri rechoose_interval npri s1 Q me tp k cp1)
    as (pt1 & Hpt1 & Hr); [apply (He tp)|done|done|by rewrite Hth|done|done|done|by rewrite Hth|].
  rewrite Hps, Epart, Hpt in Hpt1. injection Hpt1 as <-. cbv zeta in Hr. rewrite Edp in Hr.
  rewrite (proj2 (Z.ltb_ge _ _)) in Hr by lia. rewrite Hr. exists s1. split; [done|]. split; [done|]. split; [|by exists cp1; rewrite Ed].
  intros cp' k' Hc' Hk'. rewrite Hc1 in Hc'. injection Hc' as <-. rewrite Hth, Ed, Hd, Hk in Hk'. injection Hk' as <-.
  right; left. by rewrite Edp.
Qed.

(** A thread that has just been taken from the list of priority [p] of queue [q]. *)
Lemma ratify_taken s Q s1 me q p tp k k1 cp pt cp1 :
  sys_ok npri s Q → s_cpus s !! CPU me = Some cp → s_parts s !! cpu_part cp = Some pt →
  is_Some (disp_of s q) → 0 ≤ p → tp ∈ lv (Q q) p → s_threads s !! tp = Some k → DISP_PRIO k = p →
  s_threads s1 !! tp = Some k1 → taken (CPU me) k1 → s_cpus s1 !! CPU me = Some cp1 → cpu_dispthread cp1 = tp →
  effect npri (Some (CPU me)) tp s s1 (dequeued q p tp Q) → is_Some (s_threads s !! curthread me) →
  disp_maxrunpri (cpu_disp cp) ≤ p → disp_maxrunpri (cp_kp_queue pt) ≤ p →
  ∃ s', disp_ratify ncpus kpreemptpri upreemptpri maxclsyspri rechoose_interval me tp (cpu_part cp) s1 = Ret (Some tp, s') ∧
    effect npri (Some (CPU me)) tp s s' (dequeued q p tp Q) ∧ preempt_ok s' (CPU me) ∧
    ∃ cp', s_cpus s' !! CPU me = Some cp' ∧ cpu_dispthread cp' = tp.
Proof using Hup.
  intros Hs Hc Hpt [dq Hq] Hp Hin Hk Ek Hk1 Htk Hc1 Ed He Hcur Ho Hkp. pose proof (ef_keeps _ _ _ _ _ _ He) as Hke.
  pose proof (keeps_part_of _ _ _ _ _ Hke Hc Hc1) as Est. injection Est as _ Epart _ _.
  destruct (part_of_cpu npri s1 _ _ cp1 (ef_ok _ _ _ _ _ _ He) Hc1) as [pt1 Hpt1].
  assert (DISP_PRIO k1 = p) as Ek1.
  { destruct (proj1 (ke_threads _ _ Hke) tp k1 Hk1) as (k0 & Hk0 & _ & _ & _ & ->). congruence. }
  assert (p < npri) as Hn.
  { destruct (queue_lock npri s Q q dq tp Hs Hq) as (k0 & p0 & Hk0 & _ & Hp0 & _ & Ho'); [by eapply lv_elem|].
    rewrite Hk in Hk0. injection Hk0 as <-. destruct Ho' as (_ & _ & _ & _ & E). lia. }
  destruct (ratify_now s1 (dequeued q p tp Q) me tp k1 cp1 pt1) as (s' & Hrun & He' & Hpre & Hd);
    [apply He|done|done|done|done|done|lia|lia|by apply (proj2 (ke_threads _ _ Hke))| | |].
  - rewrite Ek1. etrans; [|exact Ho]. eapply (deq_max npri s Q _ tp s1 q p (CPUQ (CPU me))); [done..| |];
      simpl; [by rewrite Hc|by rewrite Hc1].
  - rewrite Ek1. etrans; [|exact Hkp]. eapply (deq_max npri s Q _ tp s1 q p (KPQ (cpu_part cp))); [done..| |];
      simpl; [by rewrite Hpt|by rewrite <-Epart, Hpt1].
  - rewrite <-Epart. exists s'. split; [done|]. split; [|done]. eapply effect_trans; [exact He|apply He'].
Qed.
End Choose.

(** ** Looking for work *)

(** The processor of [l] with more than one thread that has the best unbound one above [m]. *)
Definition best_other (s : sys) (l : list Z) (m : Z) (d : Z) (cd : cpu) : Prop :=
  d ∈ l ∧ s_cpus s !! d = Some cd ∧ 1 < disp_nrunnable (cpu_disp cd) ∧ m < disp_max_unbound_pri (cpu_disp cd) ∧
  ∀ e ce, e ∈ l → s_cpus s !! e = Some ce → 1 < disp_nrunnable (cpu_disp ce) →
    disp_max_unbound_pri (cpu_disp ce) ≤ disp_max_unbound_pri (cpu_disp cd).

Definition none_other (s : sys) (l : list Z) (m : Z) : Prop :=
  ∀ e ce, e ∈ l → s_cpus s !! e = Some ce → 1 < disp_nrunnable (cpu_disp ce) → disp_max_unbound_pri (cpu_disp ce) ≤ m.

Lemma getwork_scan_ok s p c : ∀ l fuel x m tcp, (length l < fuel)%nat → c ∉ l → chain (cpu_view s) p x l c →
  ∃ r, getwork_scan fuel c x m tcp s = Ret r ∧
    ((r = tcp ∧ none_other s l m) ∨ ∃ d cd, r = Some d ∧ best_other s l m d cd).
Proof.
  induction l as [|y l IH]; intros [|fuel] x m tcp Hf Hc Hch; simpl in Hf; try lia; cbn [getwork_scan].
  - simpl in Hch. subst x. rewrite Z.eqb_refl. exists tcp. split; [done|]. left. split; [done|]. intros e ce He. by apply elem_of_nil in He.
  - destruct Hch as (-> & n & i & o & Hy & Hch). apply not_elem_of_cons in Hc as [Hne Hc].
    rewrite (proj2 (Z.eqb_neq y c)) by done. apply view_cpu in Hy as (cy & Hy & Est). unfold get_cpu. rewrite Hy. cbn [rbind].
    injection Est as <- _ _ _. set (u := disp_max_unbound_pri (cpu_disp cy)).
    destruct (if disp_nrunnable (cpu_disp cy) <=? 1 then (m, tcp) else if m <? u then (u, Some y) else (m, tcp)) as [m' tcp'] eqn:E.
    destruct (IH fuel (cpu_next_part cy) m' tcp') as (r & -> & Hr); [lia|done|done|]. exists r. split; [done|].
    destruct (Z.leb_spec (disp_nrunnable (cpu_disp cy)) 1) as [H1|H1].
    { injection E as <- <-. destruct Hr as [[-> Hn]|(d & cd & -> & Hd & Hcd & ? & ? & Hb)]; [left|right].
      - split; [done|]. intros e ce [->|He]%elem_of_cons Hce Hrun; [|by eapply Hn]. rewrite Hy in Hce. injection Hce as <-. lia.
      - exists d, cd. split; [done|]. split; [by right|]. split_and!; [done..|].
        intros e ce [->|He]%elem_of_cons Hce Hrun; [|by eapply Hb]. rewrite Hy in Hce. injection Hce as <-. lia. }
    destruct (Z.ltb_spec m u) as [H2|H2]; injection E as <- <-.
    + right. destruct Hr as [[-> Hn]|(d & cd & -> & Hd & Hcd & ? & ? & Hb)].
      * exists y, cy. split; [done|]. split; [by left|]. split_and!; [done|lia|lia|].
        intros e ce [->|He]%elem_of_cons Hce Hrun; [|by eapply Hn]. rewrite Hy in Hce. by injection Hce as <-.
      * exists d, cd. split; [done|]. split; [by right|]. split_and!; [done|done|lia|].
        intros e ce [->|He]%elem_of_cons Hce Hrun; [|by eapply Hb]. rewrite Hy in Hce. injection Hce as <-. fold u. lia.
    + destruct Hr as [[-> Hn]|(d & cd & -> & Hd & Hcd & ? & ? & Hb)]; [left|right].
      * split; [done|]. intros e ce [->|He]%elem_of_cons Hce Hrun; [|by eapply Hn]. rewrite Hy in Hce. by injection Hce as <-.
      * exists d, cd. split; [done|]. split; [by right|]. split_and!; [done..|].
        intros e ce [->|He]%elem_of_cons Hce Hrun; [|by eapply Hb]. rewrite Hy in Hce. injection Hce as <-. fold u. lia.
Qed.

(** ** [disp] *)

Section Outcome.
Context (ncpus kpreemptpri upreemptpri maxclsyspri rechoose_interval npri : Z).
Hypothesis Hup : upreemptpri ≤ 0.

(** The first thread of a list runs; or the first one there that is not bound. *)
Definition runs_first (me : ctx) (s s' : sys) (Q : queues) (q : dqid) (p tp : Z) : Prop :=
  (∃ l, lv (Q q) p = tp :: l) ∧ effect npri (Some (CPU me)) tp s s' (dequeued q p tp Q).
Definition steals (me : ctx) (s s' : sys) (Q : queues) (q : dqid) (p tp : Z) : Prop :=
  List.find (is_unbound (s_threads s)) (lv (Q q) p) = Some tp ∧ effect npri (Some (CPU me)) tp s s' (dequeued q p tp Q).
Definition idles (me : ctx) (s s' : sys) (Q : queues) (tp : Z) : Prop :=
  cpu_idle_thread <$> s_cpus s !! CPU me = Some tp ∧ effect npri (Some (CPU me)) tp s s' Q.

(** What becomes of a processor with nothing on its queues. *)
Definition finds_work (me : ctx) (s s' : sys) (Q : queues) (cp : cpu) (tp : Z) : Prop :=
  ∃ l, ring (cpu_view s) (cpu_part cp) (CPU me) l ∧
    ((none_other s l (-1) ∧ idles me s s' Q tp) ∨
     ∃ d cd, best_other s l (-1) d cd ∧
       let p := disp_max_unbound_pri (cpu_disp cd) in
       (steals me s s' Q (CPUQ d) p tp ∨
        (List.find (is_unbound (s_threads s)) (lv (Q (CPUQ d)) p) = None ∧ idles me s s' Q tp))).

(** What holds of the processor when [disp] has returned. *)
Definition dispatched (me : ctx) (s' : sys) (tp : Z) : Prop :=
  preempt_ok s' (CPU me) ∧ ∃ cp', s_cpus s' !! CPU me = Some cp' ∧ cpu_dispthread cp' = tp.

Section One.
Context (s : sys) (Q : queues) (me : ctx) (cp : cpu) (pt : cpupart).
Hypothesis (Hs : sys_ok npri s Q) (Hc : s_cpus s !! CPU me = Some cp) (Hpt : s_parts s !! cpu_part cp = Some pt).
Hypothesis Hcur : is_Some (s_threads s !! curthread me).

Let own := disp_maxrunpri (cpu_disp cp).
Let kp := disp_maxrunpri (cp_kp_queue pt).

Lemma kp_of : disp_of s (KPQ (cpu_part cp)) = Some (cp_kp_queue pt).
Proof using Hpt. simpl. by rewrite Hpt. Qed.

Lemma own_of : disp_of s (CPUQ (CPU me)) = Some (cpu_disp cp).
Proof using Hc. simpl. by rewrite Hc. Qed.

(** The partition's queue gives its first thread, since none there is bound. *)
Lemma kp_best : 0 ≤ kp → own ≤ kp →
  ∃ tp s1 s', disp_getbest me (KPQ (cpu_part cp)) s = Ret (Some tp, s1) ∧
    disp_ratify ncpus kpreemptpri upreemptpri maxclsyspri rechoose_interval me tp (cpu_part cp) s1 = Ret (Some tp, s') ∧
    runs_first me s s' Q (KPQ (cpu_part cp)) kp tp ∧ dispatched me s' tp.
Proof using Hup Hs Hc Hpt Hcur.
  intros Hk Ho. pose proof kp_of as Hq. destruct (so_queues _ _ _ Hs _ _ Hq) as [Hok _ [Eu Hub]].
  pose proof (do_top _ _ _ _ Hok) as (_ & Hne & _). specialize (Hne Hk). fold kp in Hne, Eu.
  destruct (lv (Q (KPQ (cpu_part cp))) kp) as [|t0 l] eqn:El; [done|].
  assert (List.find (is_unbound (s_threads s)) (t0 :: l) = Some t0) as Hf0.
  { assert (t0 ∈ concat (Q (KPQ (cpu_part cp)))) as Hin by (eapply lv_elem; rewrite El; left).
    destruct (queue_lock npri s Q _ _ t0 Hs Hq Hin) as (k & _ & Hkt & _). simpl. unfold is_unbound. rewrite Hkt.
    by rewrite (Hub t0 k Hin Hkt). }
  destruct (getbest_sys npri s Q me _ _ cp Hs Hq Hc) as (r & s1 & Hrun & Hr). rewrite Eu in Hr. destruct r as [tp|].
  2: { destruct Hr as (_ & _ & Hn & _). specialize (Hn Hk). rewrite El, Hf0 in Hn. done. }
  destruct Hr as (p & k & k' & cp1 & -> & _ & Hf & _ & Hkt & Ek & Hk' & Htk & Hc1 & Ed & He).
  rewrite El, Hf0 in Hf. injection Hf as <-.
  destruct (ratify_taken ncpus kpreemptpri upreemptpri maxclsyspri rechoose_interval npri Hup s Q s1 me (KPQ (cpu_part cp)) kp t0 k k' cp pt cp1)
    as (s' & Hrat & He' & Hpre & Hd); [done|done|done|by rewrite Hq|done|rewrite El; left|done..|].
  exists t0, s1, s'. split; [done|]. split; [done|]. split; [|by split]. split; [by exists l|done].
Qed.

Lemma own_best : 0 ≤ own → kp ≤ own →
  ∃ tp s1 s', disp_own me s = Ret (tp, s1) ∧
    disp_ratify ncpus kpreemptpri upreemptpri maxclsyspri rechoose_interval me tp (cpu_part cp) s1 = Ret (Some tp, s') ∧
    runs_first me s s' Q (CPUQ (CPU me)) own tp ∧ dispatched me s' tp.
Proof using Hup Hs Hc Hpt Hcur.
  intros Ho Hk. destruct (own_sys npri s Q me cp Hs Hc Ho) as (tp & s1 & k & k' & cp1 & l & Hrun & El & Hkt & Ek & Hk' & Htk & Hc1 & Ed & He).
  fold own in El, Ek, He.
  destruct (ratify_taken ncpus kpreemptpri upreemptpri maxclsyspri rechoose_interval npri Hup s Q s1 me (CPUQ (CPU me)) own tp k k' cp pt cp1)
    as (s' & Hrat & He' & Hpre & Hd); [done|done|done|by rewrite own_of|done|rewrite El; left|done..|].
  exists tp, s1, s'. split; [done|]. split; [done|]. split; [|by split]. split; [by exists l|done].
Qed.

(** Nothing queued here: another processor's thread, or the idle thread. *)
Lemma getwork_best fuel : own < 0 → kp < 0 →
  ∃ r s1, disp_getwork ncpus kpreemptpri upreemptpri maxclsyspri rechoose_interval (S fuel) me s = Ret (Some (r, s1)) ∧
    match r with
    | Some tp => finds_work me s s1 Q cp tp ∧ dispatched me s1 tp
    | None => ∃ tp s', disp_idle me s1 = Ret (tp, s') ∧ finds_work me s s' Q cp tp ∧ dispatched me s' tp
    end.
Proof using Hup Hs Hc Hpt Hcur.
  intros Ho Hk. unfold disp_getwork, get_cpu. rewrite Hc. cbn [rbind getwork_kp]. unfold get_part. rewrite Hpt. cbn [rbind].
  fold kp. rewrite (proj2 (Z.leb_gt 0 kp)) by lia. cbn [rbind].
  assert (cpu_view s !! CPU me = Some (cpu_static cp)) as Hv by (by rewrite view_lookup, Hc).
  destruct (to_ring _ _ (so_topology _ _ _ Hs) _ _ _ _ _ Hv) as (_ & l & Hring).
  pose proof (ring_size npri s Q _ _ _ Hs Hring) as Hsz. pose proof Hring as (n & i & o & Hv' & Hch & [Hnin _]%NoDup_cons).
  rewrite Hv in Hv'. injection Hv' as <- _ _.
  destruct (getwork_scan_ok s (cpu_part cp) (CPU me) l (S (size (s_cpus s))) (cpu_next_part cp) (-1) None)
    as (r & -> & Hr); [lia|done|done|]. cbn [rbind].
  assert (∀ s1, (∀ t, effect npri None t s s1 Q) → ∃ tp s', disp_idle me s1 = Ret (tp, s') ∧ idles me s s' Q tp ∧ dispatched me s' tp) as Hidle.
  { intros s1 He. destruct (keeps_cpu s s1 (CPU me)) as [cp1 Hc1]; [apply (He 0)|eauto|].
    destruct (idle_sys npri s1 Q me cp1) as (tp & s' & Hrun & Etp & He' & Hpre & Hd); [apply (He 0)|done|].
    exists tp, s'. split; [done|]. split; [split|by split].
    - rewrite Hc. pose proof (keeps_part_of _ _ _ _ _ (ef_keeps _ _ _ _ _ _ (He 0)) Hc Hc1) as E. injection E as _ _ E _.
      simpl. by rewrite <-E, <-Etp.
    - eapply effect_trans; [apply effect_weaken, He|done]. }
  destruct Hr as [[-> Hn]|(d & cd & -> & Hd)].
  { exists None, s. split; [done|]. destruct (Hidle s) as (tp & s' & ? & ? & ?).
    { intros t. apply mild_effect; [done|apply mild_refl]. }
    exists tp, s'. split; [done|]. split; [|done]. exists l. split; [done|]. by left. }
  pose proof Hd as (_ & Hcd & _ & Hm & _).
  assert (disp_of s (CPUQ d) = Some (cpu_disp cd)) as Hq by (simpl; by rewrite Hcd).
  destruct (getbest_sys npri s Q me (CPUQ d) _ cp Hs Hq Hc) as (r & s1 & -> & Hr). cbn [rbind]. destruct r as [tp|].
  - destruct Hr as (p & k & k' & cp1 & -> & Hp & Hf & _ & Hkt & Ek & Hk' & Htk & Hc1 & Ed & He).
    pose proof (find_some _ _ Hf) as [Hin _]. apply list_elem_of_In in Hin.
    destruct (ratify_taken ncpus kpreemptpri upreemptpri maxclsyspri rechoose_interval npri Hup s Q s1 me (CPUQ d)
      (disp_max_unbound_pri (cpu_disp cd)) tp k k' cp pt cp1) as (s' & -> & He' & Hpre & Hdt);
      [done|done|done|by rewrite Hq|done|done|done|done|done|done|done|done|done|done|fold own; lia|fold kp; lia|].
    cbn [rbind]. exists (Some tp), s'. split; [done|]. split; [|by split]. exists l. split; [done|]. right. exists d, cd.
    split; [done|]. left. by split.
  - destruct Hr as (He & Hth & Hn & _). exists None, s1. split; [done|].
    destruct (Hidle s1 He) as (tp & s' & ? & ? & ?). exists tp, s'. split; [done|]. split; [|done]. exists l. split; [done|].
    right. exists d, cd. split; [done|]. right. split; [apply Hn; lia|done].
Qed.
End One.

(** The thread [tp] that [disp] picks, and the state [s'] it leaves. *)
Definition picks (me : ctx) (s s' : sys) (Q : queues) (cp : cpu) (pt : cpupart) (tp : Z) : Prop :=
  let own := disp_maxrunpri (cpu_disp cp) in
  let kp := disp_maxrunpri (cp_kp_queue pt) in
  if (0 <=? kp) && (own <=? kp) then runs_first me s s' Q (KPQ (cpu_part cp)) kp tp
  else if 0 <=? own then runs_first me s s' Q (CPUQ (CPU me)) own tp
  else finds_work me s s' Q cp tp.

Lemma disp_outcome fuel s Q me cp pt :
  sys_ok npri s Q → s_cpus s !! CPU me = Some cp → s_parts s !! cpu_part cp = Some pt → cpu_offline cp = false →
  is_Some (s_threads s !! curthread me) →
  ∃ tp s', disp ncpus kpreemptpri upreemptpri maxclsyspri rechoose_interval (S fuel) me s = Ret (Some (tp, s')) ∧
    dispatched me s' tp ∧ picks me s s' Q cp pt tp.
Proof using Hup.
  unfold picks. intros Hs Hc Hpt Hoff Hcur. cbn [disp]. unfold get_cpu at 1. rewrite Hc. cbn [rbind disp_kp].
  unfold get_part at 1. rewrite Hpt. cbn [rbind]. unfold get_cpu at 1. rewrite Hc. cbn [rbind]. rewrite Hoff. cbn [negb]. rewrite andb_true_r.
  pose proof (sys_top _ _ _ _ _ Hs (own_of s me cp Hc)) as ((Ho & _) & _).
  destruct ((0 <=? disp_maxrunpri (cp_kp_queue pt)) && (disp_maxrunpri (cpu_disp cp) <=? disp_maxrunpri (cp_kp_queue pt))) eqn:E.
  { apply andb_true_iff in E as [E1%Z.leb_le E2%Z.leb_le].
    destruct (kp_best s Q me cp pt) as (tp & s1 & s' & -> & H2 & H3 & H4); [done..|]. cbn [rbind]. rewrite H2. cbn [rbind].
    by exists tp, s'. }
  apply andb_false_iff in E. rewrite !Z.leb_gt in E. cbn [rbind]. unfold get_cpu at 1. rewrite Hc. cbn [rbind].
  destruct (Z.leb_spec 0 (disp_maxrunpri (cpu_disp cp))) as [H0|H0].
  - rewrite (proj2 (Z.eqb_neq _ (-1))) by lia.
    destruct (own_best s Q me cp pt) as (tp & s1 & s' & -> & H2 & H3 & H4); [done..|lia|]. cbn [rbind]. rewrite H2. cbn [rbind].
    by exists tp, s'.
  - rewrite (proj2 (Z.eqb_eq _ (-1))) by lia. rewrite Hoff. cbn [negb].
    destruct (getwork_best s Q me cp pt Hs Hc Hpt Hcur fuel) as (r & s1 & -> & Hr); [lia|lia|]. cbn [rbind].
    destruct r as [tp|]; [destruct Hr; by exists tp, s1|]. destruct Hr as (tp & s' & -> & ? & ?). cbn [rbind]. by exists tp, s'.
Qed.
(** C7: [disp] on a processor that is on line returns a thread, whatever fuel it is given: the
    first one of the partition's highest list when that is at least as high as the processor's own
    highest list, or the first one of that list; with both queues empty, the first unbound thread
    of the best list of the processor in the partition that has the best among those with more than
    one thread, or the idle thread.  Queues and threads are otherwise as they were, and nothing
    better than the thread is left on the processor's queue. *)
Theorem disp_runs_best fuel s Q me cp pt :
  sys_ok npri s Q → s_cpus s !! CPU me = Some cp → s_parts s !! cpu_part cp = Some pt → cpu_offline cp = false →
  is_Some (s_threads s !! curthread me) →
  ∃ tp s', disp ncpus kpreemptpri upreemptpri maxclsyspri rechoose_interval (S fuel) me s = Ret (Some (tp, s')) ∧
    dispatched me s' tp ∧
    let own := disp_maxrunpri (cpu_disp cp) in
    let kp := disp_maxrunpri (cp_kp_queue pt) in
    if (0 <=? kp) && (own <=? kp) then runs_first me s s' Q (KPQ (cpu_part cp)) kp tp
    else if 0 <=? own then runs_first me s s' Q (CPUQ (CPU me)) own tp
    else finds_work me s s' Q cp tp.
Proof using Hup. intros. by eapply disp_outcome. Qed.
End Outcome.

(** Of the two threads that wait for processor 0 it runs the better one. *)
Lemma disp_runs_best_witness : ∃ Q tp s', sys_ok 64 (m_sys ex_two) Q ∧
  disp 2 60 0 59 3 1 (ex_me 0) (m_sys ex_two) = Ret (Some (tp, s')) ∧ runs_first 64 (ex_me 0) (m_sys ex_two) s' Q (CPUQ 0) 20 tp ∧
  dispatched (ex_me 0) s' tp.
Proof.
  destruct (proj1 ex_two_ok) as [Q HQ].
  destruct (disp_runs_best 2 60 0 59 3 64 ltac:(lia) 0 (m_sys ex_two) Q (ex_me 0)
    (default (ex_cpu 100 1) (s_cpus (m_sys ex_two) !! 0)) (Cpupart (disp_cpu_init 64) 0) HQ) as (tp & s' & H & Hd & Hr);
    [vm_compute; reflexivity|vm_compute; reflexivity|vm_compute; reflexivity|eexists; vm_compute; reflexivity|].
  exists Q, tp, s'. split; [exact HQ|]. split; [exact H|]. split; [exact Hr|exact Hd].
Defined.
