(* ===== verification/DispRefine.v ===== *)
(** * [disp] as a sequence of events

    The routine [disp], with its loops, does nothing but the events of the machine,
    one after the other: other processors could have acted between any two of them.
    With what it picks ([disp_outcome]) this makes it refine the machine. *)

From S2P Require Import Prelude Bitmap Dispq DispqOps Disp DispInv DispSteps DispSched DispSafe DispChoose.

Section Refine.
Context (ncpus kpreemptpri upreemptpri maxclsyspri rechoose_interval npri : Z).
Hypothesis Hup : upreemptpri ≤ 0.

#[local] Abbreviation mach_ok := (mach_ok npri).
#[local] Abbreviation reachable := (reachable ncpus kpreemptpri upreemptpri maxclsyspri rechoose_interval npri).
#[local] Abbreviation exec := (exec ncpus kpreemptpri upreemptpri maxclsyspri rechoose_interval).
#[local] Abbreviation enabled := (enabled npri).
#[local] Abbreviation disp_ratify := (disp_ratify ncpus kpreemptpri upreemptpri maxclsyspri rechoose_interval).
#[local] Abbreviation disp_getwork := (disp_getwork ncpus kpreemptpri upreemptpri maxclsyspri rechoose_interval).
#[local] Abbreviation disp_kp := (disp_kp ncpus kpreemptpri upreemptpri maxclsyspri rechoose_interval).
#[local] Abbreviation disp := (disp ncpus kpreemptpri upreemptpri maxclsyspri rechoose_interval).

Lemma reachable_trans m1 m2 m3 : reachable m1 m2 → reachable m2 m3 → reachable m1 m3.
Proof using Type. intros H12 H23. induction H23; [done|by econstructor]. Qed.

Context (me : ctx).

(** What processor [me] keeps while it is in [disp]. *)
Record here (m : mach) : Prop := {
  he_ok : mach_ok m;
  he_cpu : is_Some (s_cpus (m_sys m) !! CPU me);
  he_thread : is_Some (s_threads (m_sys m) !! curthread me)
}.

Definition mypart (s : sys) : option Z := cpu_part <$> s_cpus s !! CPU me.

(** From [m], events lead to state [s] with the processor in phase [p]. *)
Definition leads (m : mach) (s : sys) (p : phase) : Prop :=
  ∃ ph, reachable m (Mach s ph) ∧ ph (CPU me) = p ∧ here (Mach s ph) ∧ mypart s = mypart (m_sys m).

Lemma leads_refl s ph p : here (Mach s ph) → ph (CPU me) = p → leads (Mach s ph) s p.
Proof using Type. intros. exists ph. split; [constructor|done]. Qed.

Lemma leads_trans m s p s' p' : leads m s p → (∀ ph, here (Mach s ph) → ph (CPU me) = p → leads (Mach s ph) s' p') → leads m s' p'.
Proof using Type.
  intros (ph & Hr & Hp & Hh & Em) H. destruct (H ph Hh Hp) as (ph' & Hr' & Hp' & Hh' & Em'). exists ph'.
  split; [by eapply reachable_trans|]. simpl in Em'. split_and!; [done|done|congruence].
Qed.

Lemma leads_event e m m' Q' c0 tp : here m → enabled e m → exec e m = Ret m' → effect npri c0 tp (m_sys m) (m_sys m') Q' →
  leads m (m_sys m') (m_phase m' (CPU me)).
Proof using Hup.
  intros Hm He Hx Heff. destruct (event_preserves ncpus kpreemptpri upreemptpri maxclsyspri rechoose_interval npri Hup e m (he_ok _ Hm) He) as (m2 & Hx2 & Hok).
  rewrite Hx in Hx2. injection Hx2 as <-. pose proof (ef_keeps _ _ _ _ _ _ Heff) as Hke. destruct m' as [s' ph']. simpl in *. exists ph'.
  split; [eapply reach_step; [constructor|done|done]|]. split; [done|]. split; [split; [done| |]|].
  - simpl. eapply keeps_cpu; [done|apply Hm].
  - simpl. apply (proj2 (ke_threads _ _ Hke)), Hm.
  - assert (cpu_view s' !! CPU me = cpu_view (m_sys m) !! CPU me) as E by (by rewrite (ke_cpus _ _ Hke)).
    rewrite !view_lookup in E. unfold mypart. destruct (s_cpus s' !! CPU me), (s_cpus (m_sys m) !! CPU me); try done.
    injection E as _ E _ _. simpl. by rewrite E.
Qed.

(** ** The parts of [disp] *)

Lemma clear_leads s ph t s' : here (Mach s ph) → ph (CPU me) = Chosen t → ratify_clear me s = Ret s' →
  leads (Mach s ph) s' (Cleared t).
Proof using Hup.
  intros Hh Hp Hrun. pose proof Hh as [[[Q Hs] _] [cp Hc] _]. simpl in *.
  destruct (ratify_clear_sys npri s Q me cp Hs Hc) as (s1 & Hrun1 & He & _). rewrite Hrun in Hrun1. injection Hrun1 as <-.
  pose proof (leads_event (Clear me) (Mach s ph) (Mach s' (upd (CPU me) (Cleared t) ph)) Q (Some (CPU me)) 0 Hh) as H. simpl in H.
  rewrite upd_eq in H. apply H; [by split; [exists cp|exists t]|by rewrite Hp, Hrun|apply He].
Qed.

Lemma check_leads s ph t kpq r s' : here (Mach s ph) → ph (CPU me) = Cleared t → mypart s = Some kpq →
  ratify_check ncpus kpreemptpri upreemptpri maxclsyspri rechoose_interval me t kpq s = Ret (r, s') →
  leads (Mach s ph) s' (match r with Some _ => Running | None => Dispatching end) ∧
  match r with Some t' => t' = t ∧ cpu_dispthread <$> s_cpus s' !! CPU me = Some t | None => True end.
Proof using Hup.
  intros Hh Hp Hpart Hrun. pose proof Hh as [[[Q Hs] Hok] [cp Hc] Hcur]. simpl in *. unfold mypart in Hpart. rewrite Hc in Hpart.
  injection Hpart as <-. specialize (Hok (CPU me) ltac:(eauto)). rewrite Hp in Hok. destruct Hok as (cp0 & k & Hcp0 & Ed & Hk & Htk & Hp0 & Hp1).
  rewrite Hc in Hcp0. injection Hcp0 as <-.
  set (m' := Mach s' (upd (CPU me) (match r with Some _ => Running | None => Dispatching end) ph)).
  assert (enabled (Verify me) (Mach s ph)) as Hen by (split; [by exists cp|split; [by exists t|done]]).
  assert (exec (Verify me) (Mach s ph) = Ret m') as Hx.
  { simpl. rewrite Hp. unfold get_cpu. rewrite Hc. cbn [rbind]. by rewrite Hrun. }
  assert (∃ Q' c0, effect npri c0 t s s' Q' ∧ match r with Some t' => t' = t ∧ s' = s | None => True end) as (Q' & c0 & He & Hr').
  { destruct (ratify_check_sys ncpus kpreemptpri upreemptpri maxclsyspri rechoose_interval npri s Q me t k cp)
      as (pt & _ & Hr); [done..|]. cbv zeta in Hr.
    destruct (DISP_PRIO k <? Z.max (disp_maxrunpri (cpu_disp cp)) (disp_maxrunpri (cp_kp_queue pt))).
    - destruct Hr as (s2 & q & Hrun2 & _ & He). rewrite Hrun in Hrun2. injection Hrun2 as -> <-. eauto.
    - rewrite Hrun in Hr. injection Hr as -> ->. exists Q, None. split; [|done]. apply mild_effect; [done|apply mild_refl]. }
  pose proof (leads_event (Verify me) (Mach s ph) m' Q' c0 t Hh Hen Hx He) as H. simpl in H. rewrite upd_eq in H. split; [done|].
  destruct r as [t'|]; [|done]. destruct Hr' as [-> ->]. split; [done|]. by rewrite Hc; simpl; rewrite Ed.
Qed.

Lemma ratify_leads s ph t kpq r s' : here (Mach s ph) → ph (CPU me) = Chosen t → mypart s = Some kpq →
  disp_ratify me t kpq s = Ret (r, s') →
  leads (Mach s ph) s' (match r with Some _ => Running | None => Dispatching end) ∧
  match r with Some t' => cpu_dispthread <$> s_cpus s' !! CPU me = Some t' | None => True end.
Proof using Hup.
  intros Hh Hp Hpart Hrun. unfold Disp.disp_ratify in Hrun. apply rbind_Ret_inv in Hrun as (s1 & Hcl & Hck).
  pose proof (clear_leads s ph t s1 Hh Hp Hcl) as (ph1 & Hr1 & Hp1 & Hh1 & Em1). simpl in Em1.
  destruct (check_leads s1 ph1 t kpq r s' Hh1 Hp1) as [H Hr]; [congruence|done|]. split.
  - destruct H as (ph2 & Hr2 & Hp2 & Hh2 & Em2). exists ph2. split; [by eapply reachable_trans|]. simpl in *.
    split_and!; [done|done|congruence].
  - destruct r as [t'|]; [|done]. by destruct Hr as [-> ?].
Qed.

Lemma getbest_of q s r s' : disp_getbest me q s = Ret (r, s') → is_Some (disp_of s q).
Proof using Type.
  unfold disp_getbest, get_disp, get_cpu, get_part. destruct q as [c|p]; simpl;
    [destruct (s_cpus s !! c)|destruct (s_parts s !! p)]; simpl; eauto; done.
Qed.

Lemma getbest_leads s ph q r s' : here (Mach s ph) → ph (CPU me) = Dispatching →
  disp_getbest me q s = Ret (r, s') → leads (Mach s ph) s' (match r with Some t => Chosen t | None => Dispatching end).
Proof using Hup.
  intros Hh Hp Hrun. destruct (getbest_of _ _ _ _ Hrun) as [dp Hq]. pose proof Hh as [[[Q Hs] _] [cp Hc] _]. simpl in *.
  destruct (getbest_sys npri s Q me q dp cp Hs Hq Hc) as (r' & s1 & Hrun1 & Hr). rewrite Hrun in Hrun1. injection Hrun1 as <- <-.
  set (p := match r with Some t => Chosen t | None => Dispatching end).
  assert (∃ Q' c0 tp, effect npri c0 tp s s' Q') as (Q' & c0 & tp & He).
  { destruct r as [tp|]; [|destruct Hr as [He _]; exists Q, None, 0; apply He].
    destruct Hr as (p' & k & k' & cp' & _ & _ & _ & _ & _ & _ & _ & _ & _ & _ & He). eauto. }
  pose proof (leads_event (Getbest me q) (Mach s ph) (Mach s' (upd (CPU me) p ph)) Q' c0 tp Hh) as H. simpl in H.
  rewrite upd_eq in H. apply H; [by split_and!; [exists cp| |exists dp]|by rewrite Hrun|done].
Qed.

Lemma own_leads s ph cp t s' : here (Mach s ph) → ph (CPU me) = Dispatching → s_cpus s !! CPU me = Some cp →
  0 ≤ disp_maxrunpri (cpu_disp cp) → disp_own me s = Ret (t, s') → leads (Mach s ph) s' (Chosen t).
Proof using Hup.
  intros Hh Hp Hc H0 Hrun. pose proof Hh as [[[Q Hs] _] _ _]. simpl in *.
  destruct (own_sys npri s Q me cp Hs Hc H0) as (tp & s1 & k & k' & cp' & l & Hrun1 & _ & _ & _ & _ & _ & _ & _ & He).
  rewrite Hrun in Hrun1. injection Hrun1 as <- <-. epose proof (leads_event (Own me) (Mach s ph) (Mach s' (upd (CPU me) (Chosen t) ph)) _ _ _ Hh) as H.
  simpl in H. rewrite upd_eq in H. eapply H; [by exists cp|by rewrite Hrun|exact He].
Qed.

Lemma idle_leads s ph t s' : here (Mach s ph) → ph (CPU me) = Dispatching → disp_idle me s = Ret (t, s') →
  leads (Mach s ph) s' Running ∧ cpu_dispthread <$> s_cpus s' !! CPU me = Some t.
Proof using Hup.
  intros Hh Hp Hrun. pose proof Hh as [[[Q Hs] _] [cp Hc] _]. simpl in *.
  destruct (idle_sys npri s Q me cp Hs Hc) as (tp & s1 & Hrun1 & _ & He & _ & cp' & Hc' & Ed).
  rewrite Hrun in Hrun1. injection Hrun1 as <- <-. split; [|by rewrite Hc'; simpl; rewrite Ed].
  epose proof (leads_event (Idle me) (Mach s ph) (Mach s' (upd (CPU me) Running ph)) _ _ _ Hh) as H.
  simpl in H. rewrite upd_eq in H. eapply H; [by split; [exists cp|]|by rewrite Hrun|exact He].
Qed.

(** What [disp] or a part of it that ends with [r] has done. *)
Definition ended (m : mach) (r : option Z) (s' : sys) : Prop :=
  leads m s' (match r with Some _ => Running | None => Dispatching end) ∧
  match r with Some t => cpu_dispthread <$> s_cpus s' !! CPU me = Some t | None => True end.

Lemma ended_trans m s p s' r : leads m s p → (∀ ph, here (Mach s ph) → ph (CPU me) = p → ended (Mach s ph) r s') → ended m r s'.
Proof using Type.
  intros (ph & Hr & Hp & Hh & Em) H. destruct (H ph Hh Hp) as [(ph' & Hr' & Hp' & Hh' & Em') Hd]. split; [|done]. exists ph'.
  split; [by eapply reachable_trans|]. simpl in Em'. split_and!; [done|done|congruence].
Qed.

(** Take a thread from a queue and check the choice. *)
Lemma take_ends m s t kpq r s' : leads m s (Chosen t) → mypart (m_sys m) = Some kpq → disp_ratify me t kpq s = Ret (r, s') → ended m r s'.
Proof using Hup.
  intros Hl Hm Hrun. pose proof Hl as (_ & _ & _ & _ & Em). eapply ended_trans; [exact Hl|]. intros ph Hh Hp.
  eapply ratify_leads; [done..| |done]. congruence.
Qed.

Lemma kp_ends kpq : ∀ fuel s ph r s', here (Mach s ph) → ph (CPU me) = Dispatching → mypart s = Some kpq →
  disp_kp fuel me kpq s = Ret (Some (r, s')) → ended (Mach s ph) r s'.
Proof using Hup.
  induction fuel as [|fuel IH]; intros s ph r s' Hh Hp Hm Hrun; cbn [Disp.disp_kp] in Hrun; [done|].
  apply rbind_Ret_inv in Hrun as (pt & _ & Hrun). apply rbind_Ret_inv in Hrun as (cp & _ & Hrun). case_match.
  - apply rbind_Ret_inv in Hrun as ([g s1] & Hg & Hrun).
    pose proof (getbest_leads s ph (KPQ kpq) g s1 Hh Hp Hg) as Hl. destruct g as [t|].
    + apply rbind_Ret_inv in Hrun as ([r1 s2] & Hrat & Hrun).
      pose proof (take_ends _ _ _ _ _ _ Hl Hm Hrat) as He. destruct r1 as [t1|].
      * by injection Hrun as <- <-.
      * pose proof (proj1 He) as Hl2. pose proof Hl2 as (_ & _ & _ & _ & Em). eapply ended_trans; [exact Hl2|]. intros ph2 Hh2 Hp2.
        eapply IH; [done..| |exact Hrun]. simpl in Em. congruence.
    + injection Hrun as <- <-. by split.
  - injection Hrun as <- <-. split; [by apply leads_refl|done].
Qed.

Lemma getwork_kp_ends kpq : ∀ fuel s ph r s', here (Mach s ph) → ph (CPU me) = Dispatching → mypart s = Some kpq →
  getwork_kp fuel me kpq s = Ret (Some (r, s')) → leads (Mach s ph) s' (match r with Some t => Chosen t | None => Dispatching end).
Proof using Hup.
  induction fuel as [|fuel IH]; intros s ph r s' Hh Hp Hm Hrun; cbn [getwork_kp] in Hrun; [done|].
  apply rbind_Ret_inv in Hrun as (pt & _ & Hrun). case_match; [|injection Hrun as <- <-; by apply leads_refl].
  apply rbind_Ret_inv in Hrun as ([g s1] & Hg & Hrun).
  pose proof (getbest_leads s ph (KPQ kpq) g s1 Hh Hp Hg) as Hl.
  destruct g as [t|]; [by injection Hrun as <- <-|]. pose proof Hl as (_ & _ & _ & _ & Em).
  eapply leads_trans; [exact Hl|]. intros ph1 Hh1 Hp1. eapply IH; [done..| |exact Hrun]. simpl in Em. congruence.
Qed.

Lemma getwork_ends fuel s ph r s' : here (Mach s ph) → ph (CPU me) = Dispatching →
  disp_getwork fuel me s = Ret (Some (r, s')) → ended (Mach s ph) r s'.
Proof using Hup.
  intros Hh Hp Hrun. unfold Disp.disp_getwork in Hrun. apply rbind_Ret_inv in Hrun as (cp & Hc & Hrun).
  assert (mypart s = Some (cpu_part cp)) as Hm.
  { unfold get_cpu in Hc. unfold mypart. destruct (s_cpus s !! CPU me); [by injection Hc as <-|done]. }
  apply rbind_Ret_inv in Hrun as (w & Hw & Hrun). destruct w as [[g s1]|]; [|done].
  pose proof (getwork_kp_ends _ _ _ _ _ _ Hh Hp Hm Hw) as Hl. destruct g as [t|].
  { apply rbind_Ret_inv in Hrun as ([r1 s2] & Hrat & Hrun). injection Hrun as <- <-. by eapply take_ends. }
  eapply ended_trans; [exact Hl|]. intros ph1 Hh1 Hp1. pose proof Hl as (_ & _ & _ & _ & Em). simpl in Em.
  apply rbind_Ret_inv in Hrun as (tcp & _ & Hrun). destruct tcp as [tc|].
  2: { injection Hrun as <- <-. split; [by apply leads_refl|done]. }
  apply rbind_Ret_inv in Hrun as ([g s2] & Hg & Hrun).
  pose proof (getbest_leads s1 ph1 (CPUQ tc) g s2 Hh1 Hp1 Hg) as Hl2. destruct g as [t|].
  - apply rbind_Ret_inv in Hrun as ([r1 s3] & Hrat & Hrun). injection Hrun as <- <-. eapply take_ends; [exact Hl2| |exact Hrat].
    simpl. congruence.
  - injection Hrun as <- <-. by split.
Qed.

Lemma idle_ends s ph t s' : here (Mach s ph) → ph (CPU me) = Dispatching → disp_idle me s = Ret (t, s') → ended (Mach s ph) (Some t) s'.
Proof using Hup. apply idle_leads. Qed.

(** The last part of [disp], for the processor's own queue. *)
Lemma disp_ends : ∀ fuel s ph t s', here (Mach s ph) → ph (CPU me) = Dispatching →
  disp fuel me s = Ret (Some (t, s')) → ended (Mach s ph) (Some t) s'.
Proof using Hup.
  induction fuel as [|fuel IH]; intros s ph t s' Hh Hp Hrun; cbn [Disp.disp] in Hrun; [done|].
  apply rbind_Ret_inv in Hrun as (cp & Hc & Hrun).
  assert (mypart s = Some (cpu_part cp)) as Hm.
  { unfold get_cpu in Hc. unfold mypart. destruct (s_cpus s !! CPU me); [by injection Hc as <-|done]. }
  apply rbind_Ret_inv in Hrun as (w & Hw & Hrun). destruct w as [[g s1]|]; [|done].
  pose proof (kp_ends _ _ _ _ _ _ Hh Hp Hm Hw) as He. destruct g as [t1|]; [by injection Hrun as <- <-|].
  pose proof (proj1 He) as Hl. pose proof Hl as (_ & _ & _ & _ & Em). simpl in Em.
  eapply ended_trans; [exact Hl|]. clear ph Hh Hp He Hl Hw. intros ph Hh Hp.
  apply rbind_Ret_inv in Hrun as (cp1 & Hc1 & Hrun). destruct (Z.eqb_spec (disp_maxrunpri (cpu_disp cp1)) (-1)) as [E|E].
  - destruct (negb (cpu_offline cp1)).
    2: { apply rbind_Ret_inv in Hrun as ([t1 s2] & Hi & Hrun). injection Hrun as <- <-. by eapply idle_ends. }
    apply rbind_Ret_inv in Hrun as (w & Hw & Hrun). destruct w as [[g s2]|]; [|done].
    pose proof (getwork_ends _ _ _ _ _ Hh Hp Hw) as He. destruct g as [t1|]; [by injection Hrun as <- <-|].
    apply rbind_Ret_inv in Hrun as ([t1 s3] & Hi & Hrun). injection Hrun as <- <-.
    eapply ended_trans; [apply He|]. intros ph2 Hh2 Hp2. by eapply idle_ends.
  - apply rbind_Ret_inv in Hrun as ([t1 s2] & Ho & Hrun). apply rbind_Ret_inv in Hrun as ([r s3] & Hrat & Hrun).
    unfold get_cpu in Hc1. destruct (s_cpus s1 !! CPU me) as [cpx|] eqn:Hcx; [|done]. injection Hc1 as ->.
    pose proof Hh as [[[Q Hs] _] _ _]. simpl in Hs.
    pose proof (do_top _ _ _ _ (qo_disp _ _ _ _ _ (so_queues _ _ _ Hs (CPUQ (CPU me)) _ (disp_of_cpu s1 _ _ Hcx)))) as ((Hge & _) & _).
    pose proof (own_leads s1 ph cp1 t1 s2 Hh Hp Hcx ltac:(lia) Ho) as Hl.
    assert (ended (Mach s1 ph) r s3) as He by (eapply take_ends; [exact Hl| |exact Hrat]; simpl; congruence).
    destruct r as [t2|]; [by injection Hrun as <- <-|].
    eapply ended_trans; [apply He|]. intros ph2 Hh2 Hp2. by eapply IH.
Qed.

(** C31: From any state that the machine keeps to, what [disp] does is a sequence of the machine's
    events, between which other processors may act.  Whatever it returns, at any fuel, is the result
    of such a sequence that leaves the processor running the thread returned.  And on a processor
    that is on line it does return, at any fuel, the thread that it is to pick ([picks]: the first
    one of the highest list of the partition or of the processor; with both queues empty the best unbound
    thread of another processor, and the idle thread only if there is none), with nothing better
    left on the processor's queue. *)
Theorem disp_refines_events s ph Q cp pt : sys_ok npri s Q → mach_ok (Mach s ph) → ph (CPU me) = Dispatching →
  s_cpus s !! CPU me = Some cp → s_parts s !! cpu_part cp = Some pt → is_Some (s_threads s !! curthread me) →
  (∀ fuel t s', disp fuel me s = Ret (Some (t, s')) →
    ∃ ph', reachable (Mach s ph) (Mach s' ph') ∧ ph' (CPU me) = Running ∧ cpu_dispthread <$> s_cpus s' !! CPU me = Some t) ∧
  (cpu_offline cp = false → ∀ fuel, ∃ t s', disp (S fuel) me s = Ret (Some (t, s')) ∧
    dispatched me s' t ∧ picks npri me s s' Q cp pt t ∧
    ∃ ph', reachable (Mach s ph) (Mach s' ph') ∧ ph' (CPU me) = Running).
Proof using Hup.
  intros Hs Hok Hp Hc Hpt Hcur.
  assert (∀ fuel t s', disp fuel me s = Ret (Some (t, s')) → ended (Mach s ph) (Some t) s') as Hends.
  { intros fuel t s'. apply disp_ends; [split; [done|by exists cp|done]|done]. }
  split.
  - intros fuel t s' Hrun. destruct (Hends _ _ _ Hrun) as [(ph' & Hr & Hp' & _) Hd]. by exists ph'.
  - intros Hoff fuel.
    destruct (disp_outcome ncpus kpreemptpri upreemptpri maxclsyspri rechoose_interval npri Hup fuel s Q me cp pt)
      as (t & s' & Hrun & Hd & Hpk); [done..|].
    exists t, s'. split; [done|]. split; [done|]. split; [done|].
    destruct (Hends _ _ _ Hrun) as [(ph' & Hr & Hp' & _) _]. by exists ph'.
Qed.
End Refine.

(** Of the two threads that wait for processor 0 the better one runs. *)
Lemma disp_refines_events_witness : ∃ Q t s', sys_ok 64 (m_sys ex_two) Q ∧
  disp 2 60 0 59 3 1 (ex_me 0) (m_sys ex_two) = Ret (Some (t, s')) ∧ t = 3 ∧
  runs_first 64 (ex_me 0) (m_sys ex_two) s' Q (CPUQ 0) 20 t ∧
  ∃ ph', ex_reachable ex_two (Mach s' ph') ∧ ph' 0 = Running.
Proof.
  destruct (proj1 ex_two_ok) as [Q HQ].
  destruct (disp_refines_events 2 60 0 59 3 64 ltac:(lia) (ex_me 0) (m_sys ex_two) (m_phase ex_two) Q
    (default (ex_cpu 100 1) (s_cpus (m_sys ex_two) !! 0)) (Cpupart (disp_cpu_init 64) 0)) as [_ H];
    [exact HQ|exact ex_two_ok|reflexivity|vm_compute; reflexivity|vm_compute; reflexivity|eexists; vm_compute; reflexivity|].
  destruct (H ltac:(vm_compute; reflexivity) 0%nat) as (t & s' & Hrun & _ & Hpk & Hr).
  exists Q, t, s'. split; [exact HQ|]. split; [exact Hrun|]. split; [|split; [exact Hpk|exact Hr]].
  vm_compute in Hrun. by injection Hrun.
Defined.
