(* ===== verification/DispBind.v ===== *)
(** * Queueing a thread, and binding one that is queued

    Where [setbackdq] puts a thread; and what a thread does to its partition that is
    bound to a processor while it waits on the partition's queue. *)

From S2P Require Import Prelude Bitmap Dispq DispqOps Disp DispInv DispSteps DispSched DispSafe.

(** [setbackdq] puts a loaded thread at the end of the list of its priority, on the queue of the
    processor that it is bound to, on that of its partition when it preempts the kernel, or on that
    of a processor of its partition; all other lists stay as they are, the queues are right again,
    and no running processor is left with a better thread on its queue and no request. *)
Theorem setbackdq_places ncpus kpreemptpri upreemptpri maxclsyspri rechoose_interval npri s Q me tp k :
  sys_ok npri s Q → s_threads s !! tp = Some k → runnable npri k → upreemptpri ≤ 0 →
  ∃ s' q Q', setbackdq ncpus kpreemptpri upreemptpri maxclsyspri rechoose_interval me tp s = Ret s' ∧
    sys_ok npri s' Q' ∧ allowed ncpus kpreemptpri s k q ∧
    lv (Q' q) (DISP_PRIO k) = lv (Q q) (DISP_PRIO k) ++ [tp] ∧
    (∀ q' i, 0 ≤ i → q' ≠ q ∨ i ≠ DISP_PRIO k → lv (Q' q') i = lv (Q q') i) ∧
    ∀ c, preempt_ok s c → preempt_ok s' c.
Proof.
  intros Hs Hk Hr Hup.
  destruct (setbackdq_ok ncpus kpreemptpri upreemptpri maxclsyspri rechoose_interval npri s Q me tp k Hs Hk Hr Hup)
    as (s' & q & Hrun & Hal & [Hok _ _ _ Hpre]).
  exists s', q, (enqueued put_back q (DISP_PRIO k) tp Q). split; [done|]. split; [done|]. split; [done|].
  destruct (ru_prio _ _ Hr) as [H0 H1].
  assert (is_Some (disp_of s q)) as [dp Hq] by (by eapply allowed_queue).
  pose proof (qo_npri _ _ _ _ _ (so_queues _ _ _ Hs q dp Hq)) as Hn. unfold enqueued. split; [|split].
  - rewrite set_queue_eq, lv_enq, Z.eqb_refl by lia. done.
  - intros q' i Hi Hne. unfold set_queue. destruct (decide (q' = q)) as [->|]; [|done]. rewrite lv_enq by lia.
    destruct Hne as [?|?]; [done|]. by rewrite (proj2 (Z.eqb_neq i _)).
  - intros c. by apply Hpre.
Qed.

(** ** A bound thread on the queue of a partition *)

Section Bound.
Context (ncpus kpreemptpri upreemptpri maxclsyspri rechoose_interval : Z).

(** A thread waits on the partition's queue, and no thread there is known as unbound. *)
Definition stuck (s : sys) (p : Z) : Prop :=
  ∃ pt, s_parts s !! p = Some pt ∧ 0 ≤ disp_maxrunpri (cp_kp_queue pt) ∧ disp_max_unbound_pri (cp_kp_queue pt) = -1.

Lemma stuck_getbest me s p : stuck s p → ∃ s', disp_getbest me (KPQ p) s = Ret (None, s') ∧ stuck s' p.
Proof.
  intros (pt & Hp & H0 & Hu). unfold disp_getbest, get_disp, get_part. rewrite Hp. cbn [rbind]. unfold disp_getbest_from.
  rewrite Hu. cbn [Z.eqb Pos.eqb rbind put_disp]. unfold get_part. cbn [with_threads s_parts]. rewrite Hp. cbn [rbind].
  eexists. split; [done|]. exists pt. split; [|done]. simpl. rewrite lookup_insert_eq. by destruct pt.
Qed.

Lemma stuck_getwork me p : ∀ fuel s, stuck s p → getwork_kp fuel me p s = Ret None.
Proof.
  induction fuel as [|fuel IH]; intros s Hs; [done|]. cbn [getwork_kp]. pose proof Hs as (pt & Hp & H0 & _).
  unfold get_part. rewrite Hp. cbn [rbind]. rewrite (proj2 (Z.leb_le _ _)) by done.
  destruct (stuck_getbest me s p Hs) as (s' & -> & Hs'). cbn [rbind]. by apply IH.
Qed.

(** All threads on the partition's queue are bound. *)
Lemma bound_getbest me s p pt ls : s_parts s !! p = Some pt → disp_ok (KPQ p) (s_threads s) (cp_kp_queue pt) ls →
  0 ≤ disp_maxrunpri (cp_kp_queue pt) → (∀ i, List.find (is_unbound (s_threads s)) (lv ls i) = None) →
  ∃ s', disp_getbest me (KPQ p) s = Ret (None, s') ∧ stuck s' p ∧ s_cpus s' = s_cpus s.
Proof.
  intros Hp Hok H0 Hnone. unfold disp_getbest, get_disp, get_part. rewrite Hp. cbn [rbind].
  destruct (getbest_ok _ _ _ _ Hok) as (r & th' & dp' & -> & Hr). cbn [rbind]. destruct r as [t|].
  { destruct Hr as (i & k & _ & _ & Hf & _). by rewrite Hnone in Hf. }
  destruct Hr as (-> & Hok' & Hmax & Hf & _). cbn [put_disp]. unfold get_part. cbn [with_threads s_parts]. rewrite Hp. cbn [rbind].
  eexists. split; [done|]. split; [|done]. exists (set_kp_queue dp' pt). split; [simpl; by rewrite lookup_insert_eq|].
  split; [simpl; lia|]. simpl. pose proof (do_unbound _ _ _ _ Hok') as [[H1 _] _].
  destruct (decide (0 ≤ disp_max_unbound_pri dp')) as [H2|]; [|lia]. destruct (Hf H2) as [t Ht]. by rewrite Hnone in Ht.
Qed.

Lemma bound_disp fuel me s cp pt ls : s_cpus s !! CPU me = Some cp → s_parts s !! cpu_part cp = Some pt →
  disp_maxrunpri (cpu_disp cp) = -1 → cpu_offline cp = false → disp_ok (KPQ (cpu_part cp)) (s_threads s) (cp_kp_queue pt) ls →
  0 ≤ disp_maxrunpri (cp_kp_queue pt) → (∀ i, List.find (is_unbound (s_threads s)) (lv ls i) = None) →
  disp ncpus kpreemptpri upreemptpri maxclsyspri rechoose_interval fuel me s = Ret None.
Proof.
  intros Hc Hp Hown Hoff Hok H0 Hnone. destruct fuel as [|fuel]; [done|]. cbn [disp]. unfold get_cpu at 1. rewrite Hc. cbn [rbind disp_kp].
  unfold get_part at 1. rewrite Hp. cbn [rbind]. unfold get_cpu at 1. rewrite Hc. cbn [rbind].
  rewrite (proj2 (Z.leb_le 0 _)), (proj2 (Z.leb_le (disp_maxrunpri (cpu_disp cp)) _)), Hoff by lia. cbn [negb andb].
  destruct (bound_getbest me s _ pt ls Hp Hok H0 Hnone) as (s' & -> & Hst & Ecpus). cbn [rbind].
  unfold get_cpu at 1. rewrite Ecpus, Hc. cbn [rbind]. rewrite Hown, Hoff. cbn [Z.eqb Pos.eqb negb].
  unfold disp_getwork, get_cpu. rewrite Ecpus, Hc. cbn [rbind]. by rewrite stuck_getwork.
Qed.

(** Binding does not move a thread. *)
Lemma disp_ok_bind q th dp ls t k bind c : disp_ok q th dp ls → th !! t = Some k →
  disp_ok q (<[t := set_binding bind (Some c) k]> th) dp ls.
Proof.
  intros [[H1 H2 H3] Hc Ht [Hm Hu]] Hk.
  assert (∀ u ku, th !! u = Some ku → ∃ ku', <[t := set_binding bind (Some c) k]> th !! u = Some ku' ∧ t_link ku' = t_link ku ∧
    ∀ q i, on_queue q i ku → on_queue q i ku') as Hf.
  { intros u ku Hku. destruct (decide (u = t)) as [->|Hne].
    - rewrite Hk in Hku. injection Hku as <-. rewrite lookup_insert_eq. by eexists.
    - exists ku. by rewrite lookup_insert_ne. }
  split; [|done|done|].
  - split; [done| |done]. intros i dq Hi Hdq. destruct (H2 i dq Hi Hdq) as [G1 G2 G3 G4]. split; [|done|done|].
    + apply (linked_same th); [|done]. intros u ku _ Hku. destruct (Hf u ku Hku) as (ku' & ? & ? & _). by exists ku'.
    + intros u Hin. destruct (G4 u Hin) as (ku & Hku & Ho). destruct (Hf u ku Hku) as (ku' & ? & _ & Ho'). exists ku'. auto.
  - split; [done|]. intros i u ku Hi Hin Hku Hb. destruct (decide (u = t)) as [->|Hne].
    + rewrite lookup_insert_eq in Hku. by injection Hku as <-.
    + rewrite lookup_insert_ne in Hku by done. by apply (Hu i u ku).
Qed.
End Bound.

(** C38: A thread that waits alone on its partition's queue is bound to the processor that it last
    ran on: [cpu_bind_thread] leaves it there, where no processor may take it, and from then on
    [disp] does not return, at any fuel, on any processor of the partition that has nothing else to
    run. *)
Theorem bound_waiter_hangs ncpus kpreemptpri upreemptpri maxclsyspri rechoose_interval npri s Q me tp k p c :
  sys_ok npri s Q → s_threads s !! tp = Some k → t_lockp k = disp_lock (KPQ p) → concat (Q (KPQ p)) = [tp] →
  t_cpupart k = p → t_cpu k = c → t_affinitycnt k = 0 → cpu_part <$> s_cpus s !! c = Some p →
  ∃ s', cpu_bind_thread ncpus kpreemptpri upreemptpri maxclsyspri rechoose_interval me true tp (PBIND_CPU c) s = Ret (None, s') ∧
    ∀ me' cp fuel, s_cpus s' !! CPU me' = Some cp → cpu_part cp = p → disp_maxrunpri (cpu_disp cp) = -1 →
      cpu_offline cp = false → disp ncpus kpreemptpri upreemptpri maxclsyspri rechoose_interval fuel me' s' = Ret None.
Proof.
  intros Hs Hk Hl Hone Hpart Hcpu Haff (cp0 & Hc0 & Ep)%fmap_Some.
  unfold cpu_bind_thread, get_thread at 1, tget. rewrite Hk. cbn [rbind negb]. unfold get_cpu. rewrite Hc0. cbn [rbind].
  rewrite <-Ep, Hpart, Z.eqb_refl, Haff. cbn [Z.eqb negb]. unfold mod_thread. rewrite (tmod_ok _ tp _ k) by done. cbn [rbind].
  rewrite Hcpu, Z.eqb_refl. cbn [negb bind_moved rbind]. eexists. split; [done|]. intros me' cp fuel Hc Epart Hown Hoff.
  destruct (so_locked _ _ _ Hs tp k _ Hk Hl) as [[dp Hq] Hin]. pose proof Hq as (pt & Hpt & Edp)%fmap_Some.
  pose proof (so_queues _ _ _ Hs _ _ Hq) as [Hok _ _].
  apply (bound_disp _ _ _ _ _ fuel me' _ cp pt (Q (KPQ p))); simpl; [done|by rewrite Epart|done|done| | |].
  - rewrite Epart, <-Edp. by apply disp_ok_bind.
  - rewrite <-Edp. apply elem_lv in Hin as (i & Hi & _ & Hin). destruct (do_top _ _ _ _ Hok) as (_ & _ & Hab).
    destruct (decide (0 ≤ disp_maxrunpri dp)); [done|]. rewrite Hab in Hin by lia. by apply elem_of_nil in Hin.
  - intros i. destruct (List.find _ (lv (Q (KPQ p)) i)) as [t|] eqn:E; [|done]. apply find_some in E as [Ht Hu].
    apply list_elem_of_In, lv_elem in Ht. rewrite Hone in Ht. apply list_elem_of_singleton in Ht as ->.
    unfold is_unbound in Hu. by rewrite lookup_insert_eq in Hu.
Qed.

(** ** Both on two processors *)

Lemma ex_mach_ok : mach_ok 64 ex_mach.
Proof. by apply initial_ok, ex_initial. Qed.

Lemma ex_runnable pri : 0 ≤ pri → pri < 64 → runnable 64 (ex_thread pri).
Proof. intros. by split. Qed.

Lemma setbackdq_places_witness : ∃ Q s' q Q', sys_ok 64 ex_sys Q ∧ setbackdq 2 60 0 59 3 (ex_me 0) 2 ex_sys = Ret s' ∧
  sys_ok 64 s' Q' ∧ allowed 2 60 ex_sys (ex_thread 10) q ∧ lv (Q' q) 10 = lv (Q q) 10 ++ [2].
Proof.
  destruct (proj1 ex_mach_ok) as [Q HQ].
  destruct (setbackdq_places 2 60 0 59 3 64 ex_sys Q (ex_me 0) 2 (ex_thread 10)) as (s' & q & Q' & Hrun & Hok & Hal & Hlv & _);
    [exact HQ|vm_compute; reflexivity|by apply ex_runnable|lia|].
  exists Q, s', q, Q'. split; [exact HQ|]. split; [exact Hrun|]. split; [exact Hok|]. split; [exact Hal|exact Hlv].
Defined.

(** Thread 1 alone on the partition's queue. *)
Definition ex_waiting : sys := match setbackdq 2 60 0 59 3 (ex_me 0) 1 ex_sys with Ret s => s | _ => ex_sys end.

Lemma ex_waiting_ok : ∃ Q k, sys_ok 64 ex_waiting Q ∧ concat (Q (KPQ 0)) = [1] ∧ s_threads ex_waiting !! 1 = Some k ∧
  t_lockp k = disp_lock (KPQ 0) ∧ t_cpupart k = 0 ∧ t_cpu k = 0 ∧ t_affinitycnt k = 0.
Proof.
  destruct (proj1 ex_mach_ok) as [Q HQ]. pose proof (so_queues _ _ _ HQ (KPQ 0) (disp_cpu_init 64) eq_refl) as [Hok _ _].
  destruct (setbackdq_ok 2 60 0 59 3 64 ex_sys Q (ex_me 0) 1 (ex_thread 62)) as (s' & q & Hrun & Hal & He);
    [exact HQ|vm_compute; reflexivity|by apply ex_runnable|lia|].
  assert (s' = ex_waiting) as ->.
  { unfold ex_waiting. by rewrite Hrun. }
  change (q = KPQ 0) in Hal. subst q. exists (enqueued put_back (KPQ 0) 62 1 Q). eexists. split; [apply He|]. split.
  - unfold enqueued. rewrite set_queue_eq. apply Permutation_singleton_r. etrans; [apply (concat_enq put_back put_back_perm)|].
    + lia.
    + pose proof (qo_npri _ _ _ _ _ (so_queues _ _ _ HQ (KPQ 0) (disp_cpu_init 64) eq_refl)). lia.
    + apply perm_skip. pose proof (co_run _ _ (do_counters _ _ _ _ Hok)) as Hn. simpl in Hn. by destruct (concat (Q (KPQ 0))).
  - split; [vm_compute; reflexivity|done].
Qed.

Lemma bound_waiter_hangs_witness : ∃ s', cpu_bind_thread 2 60 0 59 3 (ex_me 1) true 1 (PBIND_CPU 0) ex_waiting = Ret (None, s') ∧
  ∀ fuel, disp 2 60 0 59 3 fuel (ex_me 1) s' = Ret None.
Proof.
  destruct ex_waiting_ok as (Q & k & HQ & Hone & Hk & Hl & Hp & Hcpu & Haff).
  destruct (bound_waiter_hangs 2 60 0 59 3 64 ex_waiting Q (ex_me 1) 1 k 0 0) as (s' & Hrun & Hh);
    [exact HQ|exact Hk|exact Hl|exact Hone|exact Hp|exact Hcpu|exact Haff|vm_compute; reflexivity|].
  exists s'. split; [exact Hrun|]. intros fuel. vm_compute in Hrun. injection Hrun as <-.
  eapply Hh; [vm_compute; reflexivity|reflexivity|reflexivity|reflexivity].
Defined.
