(* ===== verification/Ts.v ===== *)
(** * The time-sharing class ([uts/common/disp/ts.c], [sys/ts.h], [disp/ts_dptbl.c])

    Threads of the time-sharing and interactive classes: how their priorities follow
    the time they run and wait, and when they are put on a dispatch queue or made to
    give up a processor.  The dispatcher is that of [Disp]. *)

From S2P Require Import Prelude Bitmap Dispq Disp.

(** ** The table of priority levels *)

Record tsdpent := Tsdpent {
  ts_globpri : Z;
  ts_quantum : Z;
  ts_tqexp : Z;
  ts_slpret : Z;
  ts_maxwait : Z;
  ts_lwait : Z
}.

(** The levels from [p] on with the same entries but [tqexp], which goes up by one from [x]; or
    which stays. *)
Definition rows_up (p x quantum slpret lwait : Z) (n : nat) : list tsdpent :=
  (λ i, Tsdpent (p + Z.of_nat i) quantum (x + Z.of_nat i) slpret 0 lwait) <$> seq 0 n.
Definition rows_same (p tqexp quantum slpret lwait : Z) (n : nat) : list tsdpent :=
  (λ i, Tsdpent (p + Z.of_nat i) quantum tqexp slpret 0 lwait) <$> seq 0 n.

Definition config_ts_dptbl : list tsdpent :=
  rows_same 0 0 20 50 50 10 ++ rows_up 10 0 16 51 51 10 ++ rows_up 20 10 12 52 52 10 ++
  rows_up 30 20 8 53 53 5 ++ rows_up 35 25 8 54 54 5 ++ rows_up 40 30 4 55 55 5 ++
  [Tsdpent 45 4 35 56 0 56; Tsdpent 46 4 36 57 0 57; Tsdpent 47 4 37 58 0 58; Tsdpent 48 4 38 58 0 58] ++
  rows_up 49 39 4 58 59 10 ++ [Tsdpent 59 2 49 59 32000 59].

Definition TSGPKP0 : Z := 60.
Definition config_ts_kmdpris : list Z := (λ i, TSGPKP0 + Z.of_nat i) <$> seq 0 40.
Definition config_ts_maxumdpri : Z := zlen config_ts_dptbl - 1.

(** ** Threads of the class *)

Definition TSKPRI : Z := 0x01.
Definition TSBACKQ : Z := 0x02.
Definition TSIA : Z := 0x04.
Definition TSIASET : Z := 0x08.
Definition NZERO : Z := 20.
Definition SC_MAX_TICKS : Z := 2.
Definition TS_NOCHANGE : Z := -32768.
Definition TS_SWAPENQ : Z := 0x4.
Definition ts_maxupri : Z := 60.
Definition ia_maxupri : Z := 60.
Definition ia_boost : Z := 10.

(** [char]. *)
Definition s8 (z : Z) : Z := (z + 2 ^ 7) `mod` 2 ^ 8 - 2 ^ 7.

(** The class's structure of a thread, with the fields of the thread that only the class uses:
    whether the thread is still in the class, [t_kpri_req], [t_trapret], [t_stime], whether its lwp,
    if any, is in user mode, and [sc_nopreempt] and [sc_yield] when preemption control is on. *)
Record tsproc := Tsproc {
  ts_timeleft : Z;
  ts_dispwait : Z;
  ts_cpupri : Z;
  ts_uprilim : Z;
  ts_upri : Z;
  ts_umdpri : Z;
  ts_nice : Z;
  ts_boost : Z;
  ts_flags : Z;
  ts_inclass : bool;
  t_kpri_req : Z;
  t_trapret : Z;
  t_stime : Z;
  t_lwp : option bool;
  t_schedctl : option (Z * Z)
}.

Definition set_timeleft (v : Z) (p : tsproc) : tsproc :=
  Tsproc v (ts_dispwait p) (ts_cpupri p) (ts_uprilim p) (ts_upri p) (ts_umdpri p) (ts_nice p) (ts_boost p) (ts_flags p)
    (ts_inclass p) (t_kpri_req p) (t_trapret p) (t_stime p) (t_lwp p) (t_schedctl p).
Definition set_dispwait (v : Z) (p : tsproc) : tsproc :=
  Tsproc (ts_timeleft p) v (ts_cpupri p) (ts_uprilim p) (ts_upri p) (ts_umdpri p) (ts_nice p) (ts_boost p) (ts_flags p)
    (ts_inclass p) (t_kpri_req p) (t_trapret p) (t_stime p) (t_lwp p) (t_schedctl p).
Definition set_cpupri (v : Z) (p : tsproc) : tsproc :=
  Tsproc (ts_timeleft p) (ts_dispwait p) v (ts_uprilim p) (ts_upri p) (ts_umdpri p) (ts_nice p) (ts_boost p) (ts_flags p)
    (ts_inclass p) (t_kpri_req p) (t_trapret p) (t_stime p) (t_lwp p) (t_schedctl p).
Definition set_upris (lim upri : Z) (p : tsproc) : tsproc :=
  Tsproc (ts_timeleft p) (ts_dispwait p) (ts_cpupri p) lim upri (ts_umdpri p) (ts_nice p) (ts_boost p) (ts_flags p)
    (ts_inclass p) (t_kpri_req p) (t_trapret p) (t_stime p) (t_lwp p) (t_schedctl p).
Definition set_umdpri (v : Z) (p : tsproc) : tsproc :=
  Tsproc (ts_timeleft p) (ts_dispwait p) (ts_cpupri p) (ts_uprilim p) (ts_upri p) v (ts_nice p) (ts_boost p) (ts_flags p)
    (ts_inclass p) (t_kpri_req p) (t_trapret p) (t_stime p) (t_lwp p) (t_schedctl p).
Definition set_nice (v : Z) (p : tsproc) : tsproc :=
  Tsproc (ts_timeleft p) (ts_dispwait p) (ts_cpupri p) (ts_uprilim p) (ts_upri p) (ts_umdpri p) v (ts_boost p) (ts_flags p)
    (ts_inclass p) (t_kpri_req p) (t_trapret p) (t_stime p) (t_lwp p) (t_schedctl p).
Definition set_boost (v : Z) (p : tsproc) : tsproc :=
  Tsproc (ts_timeleft p) (ts_dispwait p) (ts_cpupri p) (ts_uprilim p) (ts_upri p) (ts_umdpri p) (ts_nice p) v (ts_flags p)
    (ts_inclass p) (t_kpri_req p) (t_trapret p) (t_stime p) (t_lwp p) (t_schedctl p).
Definition set_flags (v : Z) (p : tsproc) : tsproc :=
  Tsproc (ts_timeleft p) (ts_dispwait p) (ts_cpupri p) (ts_uprilim p) (ts_upri p) (ts_umdpri p) (ts_nice p) (ts_boost p) v
    (ts_inclass p) (t_kpri_req p) (t_trapret p) (t_stime p) (t_lwp p) (t_schedctl p).
Definition set_kpri_req (v : Z) (p : tsproc) : tsproc :=
  Tsproc (ts_timeleft p) (ts_dispwait p) (ts_cpupri p) (ts_uprilim p) (ts_upri p) (ts_umdpri p) (ts_nice p) (ts_boost p)
    (ts_flags p) (ts_inclass p) v (t_trapret p) (t_stime p) (t_lwp p) (t_schedctl p).
Definition set_trapret (v : Z) (p : tsproc) : tsproc :=
  Tsproc (ts_timeleft p) (ts_dispwait p) (ts_cpupri p) (ts_uprilim p) (ts_upri p) (ts_umdpri p) (ts_nice p) (ts_boost p)
    (ts_flags p) (ts_inclass p) (t_kpri_req p) v (t_stime p) (t_lwp p) (t_schedctl p).
Definition set_stime (v : Z) (p : tsproc) : tsproc :=
  Tsproc (ts_timeleft p) (ts_dispwait p) (ts_cpupri p) (ts_uprilim p) (ts_upri p) (ts_umdpri p) (ts_nice p) (ts_boost p)
    (ts_flags p) (ts_inclass p) (t_kpri_req p) (t_trapret p) v (t_lwp p) (t_schedctl p).
Definition set_schedctl (v : option (Z * Z)) (p : tsproc) : tsproc :=
  Tsproc (ts_timeleft p) (ts_dispwait p) (ts_cpupri p) (ts_uprilim p) (ts_upri p) (ts_umdpri p) (ts_nice p) (ts_boost p)
    (ts_flags p) (ts_inclass p) (t_kpri_req p) (t_trapret p) (t_stime p) (t_lwp p) v.

(** [ts_flags & f], [ts_flags |= f] and [ts_flags &= ~f]. *)
Definition has (f : Z) (p : tsproc) : bool := truthy (Z.land (ts_flags p) f).
Definition raise (f : Z) (p : tsproc) : tsproc := set_flags (Z.lor (ts_flags p) f) p.
Definition drop_flag (f : Z) (p : tsproc) : tsproc := set_flags (Z.ldiff (ts_flags p) f) p.

(** The thread of the class is in user mode. *)
Definition in_user (p : tsproc) : bool := bool_decide (t_lwp p = Some true).

(** [schedctl_check (t, SC_PREEMPT) && schedctl_get_nopreempt (t)] *)
Definition nopreempt (p : tsproc) : bool :=
  match t_schedctl p with Some (np, _) => truthy np | None => false end.
Definition schedctl_set_nopreempt (v : Z) (p : tsproc) : tsproc :=
  match t_schedctl p with Some (_, y) => set_schedctl (Some (v, y)) p | None => p end.
Definition schedctl_set_yield (v : Z) (p : tsproc) : tsproc :=
  match t_schedctl p with Some (np, _) => set_schedctl (Some (np, v)) p | None => p end.

(** [ts_list] is the list at [ts_plisthead]. *)
Record tstate := Tstate { t_sys : sys; t_proc : gmap Z tsproc; ts_list : list Z }.

Definition on_sys (f : sys → run sys) (st : tstate) : run tstate :=
  let* s := f (t_sys st) in Ret (Tstate s (t_proc st) (ts_list st)).
Definition get_ts (t : Z) (st : tstate) : run tsproc := match t_proc st !! t with Some p => Ret p | None => Fault end.
Definition put_ts (t : Z) (p : tsproc) (st : tstate) : tstate := Tstate (t_sys st) (<[t := p]> (t_proc st)) (ts_list st).
Definition with_ts_list (l : list Z) (st : tstate) : tstate := Tstate (t_sys st) (t_proc st) l.

Definition clear_dont_swap (t : kthread) : kthread := set_schedflag (Z.ldiff (t_schedflag t) TS_DONT_SWAP) t.

Section Ts.
(** Parameters of the dispatcher; and the tables and limits of the class. *)
Context (ncpus kpreemptpri upreemptpri maxclsyspri rechoose_interval : Z).
Context (ts_dptbl : list tsdpent) (ts_kmdpris : list Z) (ts_maxumdpri ts_maxkmdpri : Z).

Definition setbackdq_ts (me : ctx) (t : Z) : tstate → run tstate :=
  on_sys (setbackdq ncpus kpreemptpri upreemptpri maxclsyspri rechoose_interval me t).
Definition setfrontdq_ts (me : ctx) (t : Z) : tstate → run tstate :=
  on_sys (setfrontdq ncpus kpreemptpri upreemptpri maxclsyspri rechoose_interval me t).
Definition surrender_ts (me : ctx) (t : Z) (p : tsproc) : tstate → run tstate :=
  on_sys (cpu_surrender kpreemptpri me (in_user p) t).

(** [ts_dptbl [i]]. *)
Definition dpt (i : Z) : run tsdpent := zget ts_dptbl i.

Definition tsmedumdpri : Z := Z.shiftr ts_maxumdpri 1.

Definition TS_NEWUMDPRI (p : tsproc) : tsproc :=
  let pri := s16 (ts_cpupri p + ts_upri p + ts_boost p) in
  set_umdpri (if ts_maxumdpri <? pri then ts_maxumdpri else if pri <? 0 then 0 else pri) p.

(** [t->t_pri = ts_dptbl [tspp->ts_umdpri].ts_globpri] *)
Definition set_globpri (t : Z) (p : tsproc) (st : tstate) : run tstate :=
  let* e := dpt (ts_umdpri p) in on_sys (mod_thread (set_tpri (ts_globpri e)) t) st.

(** A full quantum at the level [ts_cpupri]. *)
Definition full_quantum (p : tsproc) : run tsproc :=
  let* e := dpt (ts_cpupri p) in Ret (set_timeleft (ts_quantum e) p).

(** The thread has waited for more than [ts_maxwait]. *)
Definition overdue (p : tsproc) : run bool :=
  let* e := dpt (ts_umdpri p) in Ret (ts_maxwait e <? ts_dispwait p).

(** What it gets for it when it has slept. *)
Definition ts_slept (p : tsproc) : run tsproc :=
  let* e := dpt (ts_cpupri p) in
  let p := TS_NEWUMDPRI (set_cpupri (ts_slpret e) p) in
  let* p := full_quantum p in Ret (set_dispwait 0 p).

(** [DISP_MAXRUNPRI (t)] *)
Definition DISP_MAXRUNPRI (t : Z) (s : sys) : run Z :=
  let* k := get_thread t s in
  match t_disp_queue k with
  | None => Fault
  | Some q => let* dp := get_disp q s in Ret (disp_maxrunpri dp)
  end.

Definition ts_change_priority (me : ctx) (t : Z) (st : tstate) : run tstate :=
  let* p := get_ts t st in
  let* k := get_thread t (t_sys st) in
  if (t =? curthread me) || bool_decide (t_state k = TS_ONPROC) then
    let* st := set_globpri t p st in
    let* k := get_thread t (t_sys st) in
    let* m := DISP_MAXRUNPRI t (t_sys st) in
    if m <? DISP_PRIO k then let* p := full_quantum p in Ret (put_ts t p st)
    else surrender_ts me t p (put_ts t (raise TSBACKQ p) st)
  else
    let* (wasonq, s) := dispdeq t (t_sys st) in
    let* st := set_globpri t p (Tstate s (t_proc st) (ts_list st)) in
    if wasonq : bool then
      let* p := full_quantum p in
      let st := put_ts t p st in
      if has TSIASET p then setfrontdq_ts me t st else setbackdq_ts me t st
    else Ret (put_ts t (raise TSBACKQ p) st).

(** The common end of [ts_setrun] and [ts_wakeup]: on the queue. *)
Definition ts_requeue (me : ctx) (t : Z) (p : tsproc) (st : tstate) : run tstate :=
  let p := drop_flag TSBACKQ p in
  let st := put_ts t p st in
  if has TSIA p then
    if has TSIASET p then setfrontdq_ts me t st else setbackdq_ts me t st
  else
    let* k := get_thread t (t_sys st) in
    if negb (t_disp_time k =? lbolt me) then setbackdq_ts me t st else setfrontdq_ts me t st.

Definition ts_setrun (me : ctx) (t : Z) (st : tstate) : run tstate :=
  let* p := get_ts t st in
  let* late := overdue p in
  let* (p, st) :=
    if late : bool then
      let* p := ts_slept p in
      if negb (has TSKPRI p) then let* st := set_globpri t p st in Ret (p, st) else Ret (p, st)
    else Ret (p, st) in
  ts_requeue me t p st.

Definition ts_wakeup (me : ctx) (t : Z) (st : tstate) : run tstate :=
  let* p := get_ts t st in
  let p := set_stime (lbolt me) p in
  if has TSKPRI p then
    let p := drop_flag TSBACKQ p in
    let st := put_ts t p st in
    if has TSIASET p then setfrontdq_ts me t st else setbackdq_ts me t st
  else
    let* late := overdue p in
    let* (p, st) :=
      if late : bool then let* p := ts_slept p in let* st := set_globpri t p st in Ret (p, st)
      else Ret (p, st) in
    ts_requeue me t p st.

Definition ts_preempt (me : ctx) (t : Z) (st : tstate) : run tstate :=
  let* p := get_ts t st in
  let* (p, st) :=
    if negb (has TSKPRI p) && negb (bool_decide (t_lwp p = None)) && truthy (t_kpri_req p) then
      let* pri := zget ts_kmdpris 0 in
      let* st := on_sys (mod_thread (set_tpri pri) t) st in
      let* st := on_sys (aston t) st in
      Ret (set_trapret 1 (raise TSKPRI p), st)
    else Ret (p, st) in
  let* st := if in_user p then on_sys (mod_thread clear_dont_swap t) st else Ret st in
  if nopreempt p && (- SC_MAX_TICKS <? ts_timeleft p) then
    let* (p, st) :=
      if negb (has TSKPRI p) then
        let* st := on_sys (mod_thread (set_tpri ts_maxumdpri) t) st in
        let* st := on_sys (mod_thread DONT_SWAP t) st in
        Ret (schedctl_set_yield 1 p, st)
      else Ret (p, st) in
    setfrontdq_ts me t (put_ts t p st)
  else
    let p := if nopreempt p then schedctl_set_nopreempt 0 p else p in
    if has TSBACKQ p then
      let* p := if has TSKPRI p then Ret p else let* p := full_quantum p in Ret (set_dispwait 0 p) in
      setbackdq_ts me t (put_ts t (drop_flag TSBACKQ p) st)
    else setfrontdq_ts me t (put_ts t p st).

(** What [ts_sleep] and [ts_trapret] do about the priority of a thread that leaves the kernel. *)
Definition ts_leave_kernel (me : ctx) (t : Z) (p : tsproc) (st : tstate) : run tstate :=
  let* st := set_globpri t p st in
  let p := drop_flag TSKPRI p in
  let st := put_ts t p st in
  let* k := get_thread t (t_sys st) in
  let* m := DISP_MAXRUNPRI t (t_sys st) in
  if DISP_PRIO k <? m then surrender_ts me t p st else Ret st.

Definition ts_sleep (me : ctx) (t disp : Z) (st : tstate) : run tstate :=
  let* p := get_ts t st in
  let* st :=
    if truthy (t_kpri_req p) then
      let disp := if ts_maxkmdpri <? disp then ts_maxkmdpri else disp in
      let* pri := zget ts_kmdpris disp in
      let* st := on_sys (mod_thread (set_tpri pri) t) st in
      let* st := on_sys (aston t) st in
      Ret (put_ts t (set_trapret 1 (raise TSKPRI p)) st)
    else
      let* late := overdue p in
      if late : bool then let* p := ts_slept p in ts_leave_kernel me t p st
      else if has TSKPRI p then ts_leave_kernel me t p st
      else Ret (put_ts t p st) in
  let* p := get_ts t st in
  Ret (put_ts t (set_stime (lbolt me) p) st).

(** Also whether [swapout_lwp] is called. *)
Definition ts_trapret (me : ctx) (t : Z) (st : tstate) : run (bool * tstate) :=
  let* p := get_ts t st in
  let p := set_kpri_req 0 p in
  let* late := overdue p in
  let* st :=
    if late : bool then let* p := ts_slept p in ts_leave_kernel me t p st
    else if has TSKPRI p then ts_leave_kernel me t p st
    else Ret (put_ts t p st) in
  let* p := get_ts t st in
  let* k := get_thread t (t_sys st) in
  Ret (truthy (Z.land (t_schedflag k) TS_SWAPENQ) && negb (has TSIASET p), st).

Definition ts_tick (me : ctx) (t : Z) (st : tstate) : run tstate :=
  let* p := get_ts t st in
  if has TSKPRI p then Ret st
  else
    let p := set_timeleft (s32 (ts_timeleft p - 1)) p in
    if ts_timeleft p <=? 0 then
      if nopreempt p && (- SC_MAX_TICKS <? ts_timeleft p) then Ret (put_ts t (schedctl_set_yield 1 p) st)
      else
        let* e := dpt (ts_cpupri p) in
        let p := set_dispwait 0 (TS_NEWUMDPRI (set_cpupri (ts_tqexp e) p)) in
        let* (wasonq, s) := dispdeq t (t_sys st) in
        let* st := set_globpri t p (Tstate s (t_proc st) (ts_list st)) in
        if wasonq : bool then
          let* k := get_thread t (t_sys st) in
          let* st :=
            if truthy (Z.land (t_schedflag k) TS_LOAD) && in_user p then on_sys (mod_thread clear_dont_swap t) st
            else Ret st in
          let* p := full_quantum p in
          setbackdq_ts me t (put_ts t p st)
        else surrender_ts me t p (put_ts t (raise TSBACKQ p) st)
    else
      let* k := get_thread t (t_sys st) in
      let* m := DISP_MAXRUNPRI t (t_sys st) in
      if t_pri k <? m then surrender_ts me t p (put_ts t (raise TSBACKQ p) st)
      else Ret (put_ts t p st).

Definition ts_yield (me : ctx) (t : Z) (st : tstate) : run tstate :=
  let* p := get_ts t st in
  let p := schedctl_set_yield 0 p in
  let* (p, st) :=
    if ts_timeleft p <? 0 then
      let* e := dpt (ts_cpupri p) in
      let p := TS_NEWUMDPRI (set_cpupri (ts_tqexp e) p) in
      let* st := set_globpri t p st in Ret (p, st)
    else Ret (p, st) in
  setbackdq_ts me t (put_ts t (drop_flag TSBACKQ p) st).

(** [ts_update]: once a second, for every thread on the list. *)
Definition ts_update_one (me : ctx) (t : Z) (st : tstate) : run tstate :=
  let* p := get_ts t st in
  if negb (ts_inclass p) then Ret st
  else
    let p := set_dispwait (s32 (ts_dispwait p + 1)) p in
    if has TSKPRI p then Ret (put_ts t p st)
    else
      let* late := overdue p in
      if negb late then Ret (put_ts t p st)
      else
        let* k := get_thread t (t_sys st) in
        if negb (bool_decide (t_state k = TS_RUN)) then on_sys (aston t) (put_ts t (set_trapret 1 p) st)
        else
          let* e := dpt (ts_cpupri p) in
          let p := set_dispwait 0 (TS_NEWUMDPRI (set_cpupri (ts_lwait e) p)) in
          let* e := dpt (ts_umdpri p) in
          let st := put_ts t p st in
          if negb (t_pri k =? ts_globpri e) then ts_change_priority me t st else Ret st.

Fixpoint ts_update_list (me : ctx) (l : list Z) (st : tstate) : run tstate :=
  match l with
  | [] => Ret st
  | t :: l => let* st := ts_update_one me t st in ts_update_list me l st
  end.
Definition ts_update (me : ctx) (st : tstate) : run tstate := ts_update_list me (ts_list st) st.

(** ** User priorities *)

Inductive ts_err := TS_EPERM | TS_EINVAL.

(** The nice value for a user priority; [int] division truncates. *)
Definition nice_of (upri : Z) : Z := s8 (NZERO - Z.quot (upri * NZERO) ts_maxupri).

(** [ts_parmsin]; [cred] is whether the caller is the super-user, when there are permissions to check;
    [target] is the limit of the thread when it is time-sharing. *)
Definition ts_parmsin (uprilim upri : Z) (cred : option bool) (target : option Z) : option ts_err :=
  if ((ts_maxupri <? uprilim) || (uprilim <? - ts_maxupri)) && negb (uprilim =? TS_NOCHANGE) then Some TS_EINVAL
  else if ((ts_maxupri <? upri) || (upri <? - ts_maxupri)) && negb (upri =? TS_NOCHANGE) then Some TS_EINVAL
  else
    match cred with
    | None => None
    | Some root =>
        if uprilim =? TS_NOCHANGE then None
        else
          match target with
          | Some lim => if (lim <? uprilim) && negb root then Some TS_EPERM else None
          | None => if (0 <? uprilim) && negb root then Some TS_EPERM else None
          end
    end.

Definition ts_parmsset (me : ctx) (t uprilim upri : Z) (cred : option bool) (st : tstate) : run (option ts_err * tstate) :=
  let* p := get_ts t st in
  let reqlim := if uprilim =? TS_NOCHANGE then ts_uprilim p else uprilim in
  let requpri := if upri =? TS_NOCHANGE then ts_upri p else upri in
  let requpri := if reqlim <? requpri then reqlim else requpri in
  if match cred with Some root => (ts_uprilim p <? reqlim) && negb root | None => false end then Ret (Some TS_EPERM, st)
  else
    let nice := nice_of requpri in
    let nice := if 2 * NZERO <=? nice then 2 * NZERO - 1 else nice in
    let p := set_nice nice (TS_NEWUMDPRI (set_upris reqlim requpri p)) in
    if has TSKPRI p then Ret (None, put_ts t p st)
    else
      let* st := ts_change_priority me t (put_ts t (set_dispwait 0 p) st) in Ret (None, st).

(** The value returned through [retvalp], too. *)
Definition ts_donice (me : ctx) (t incr : Z) (root : bool) (st : tstate) : run (option ts_err * Z * tstate) :=
  let* p := get_ts t st in
  if incr =? 0 then Ret (None, ts_nice p - NZERO, st)
  else if ((incr <? 0) || (2 * NZERO <? incr)) && negb root then Ret (Some TS_EPERM, 0, st)
  else
    let incr := if 2 * NZERO - 1 <? incr then 2 * NZERO - 1 else incr in
    let newnice := ts_nice p + incr in
    let newnice := if 2 * NZERO <=? newnice then 2 * NZERO - 1 else if newnice <? 0 then 0 else newnice in
    let upri := Z.quot (- ((newnice - NZERO) * ts_maxupri)) NZERO in
    let* (_, st) := ts_parmsset me t upri upri None st in
    let* p := get_ts t st in
    Ret (None, newnice - NZERO, put_ts t (set_nice (s8 newnice) p) st).

(** The interactive mode of a thread is switched on or off. *)
Definition ia_turn (me : ctx) (on : bool) (t : Z) (st : tstate) : run tstate :=
  let* p := get_ts t st in
  let p := if on then set_boost ia_boost (raise TSIASET p) else set_boost (- ia_boost) (drop_flag TSIASET p) in
  let p := TS_NEWUMDPRI p in
  if has TSKPRI p then Ret (put_ts t p st)
  else ts_change_priority me t (put_ts t (set_dispwait 0 p) st).

(** The global priority that a thread would get on entering the class. *)
Definition ts_globpri_of (p : tsproc) : run Z :=
  let tspri := tsmedumdpri + ts_upri p in
  let tspri := if ts_maxumdpri <? tspri then ts_maxumdpri else if tspri <? 0 then 0 else tspri in
  let* e := dpt tspri in Ret (ts_globpri e).

(** ** Entering and leaving the class *)

(** [buf]: the structure as it is allocated, with the fields of the thread. *)
Definition ts_enterclass (me : ctx) (t : Z) (ia root group : bool) (parms : option (Z * Z)) (buf : tsproc) (st : tstate) :
    run (option ts_err * tstate) :=
  let p := set_cpupri tsmedumdpri buf in
  if ia && negb root && negb group then Ret (Some TS_EPERM, st)
  else
    let p := if ia then set_boost ia_boost (set_flags (Z.lor TSIA TSIASET) p) else set_boost 0 (set_flags 0 p) in
    let r :=
      match parms with
      | None => inr (set_nice NZERO (set_upris 0 0 p))
      | Some (lim, upri) =>
          if negb (lim =? TS_NOCHANGE) && (0 <? lim) && negb root then inl TS_EPERM
          else
            let lim := if lim =? TS_NOCHANGE then 0 else lim in
            if negb (upri =? TS_NOCHANGE) && (0 <? upri) && negb root then inl TS_EPERM
            else
              let upri := if upri =? TS_NOCHANGE then lim else if lim <? upri then lim else upri in
              inr (set_nice (nice_of upri) (set_upris lim upri p))
      end in
    match r with
    | inl e => Ret (Some e, st)
    | inr p =>
        let p := set_timeleft 0 (set_dispwait 0 (TS_NEWUMDPRI p)) in
        let* st := ts_change_priority me t (put_ts t p st) in
        Ret (None, with_ts_list (t :: ts_list st) st)
    end.

Definition ts_exitclass (t : Z) (st : tstate) : tstate :=
  Tstate (t_sys st) (delete t (t_proc st)) (filter (λ u, u ≠ t) (ts_list st)).

(** [buf] again has the fields of the child's thread. *)
Definition ts_fork (t ct : Z) (buf : tsproc) (st : tstate) : run tstate :=
  let* pp := get_ts t st in
  let* e := dpt (ts_cpupri pp) in
  let cp := set_upris (ts_uprilim pp) (ts_upri pp) (set_boost (ts_boost pp) (set_cpupri (ts_cpupri pp)
              (set_timeleft (ts_quantum e) buf))) in
  let cp := set_flags (ts_flags pp) (set_dispwait 0 (set_nice (ts_nice pp) (TS_NEWUMDPRI cp))) in
  let* (cp, st) :=
    if has TSKPRI cp then let* st := on_sys (aston ct) st in Ret (set_trapret 1 cp, st) else Ret (cp, st) in
  Ret (with_ts_list (ct :: ts_list st) (put_ts ct cp st)).

(** What [ts_forkret] does to the parent, once the processes have been continued. *)
Definition ts_forkret (me : ctx) (t : Z) (st : tstate) : run tstate :=
  let* p := get_ts t st in
  let* e := dpt (ts_cpupri p) in
  let p := TS_NEWUMDPRI (set_cpupri (ts_tqexp e) p) in
  let* p := full_quantum p in
  let p := set_dispwait 0 p in
  let* st := set_globpri t p st in
  let st := put_ts t (drop_flag TSKPRI p) st in
  let* st := on_sys (mod_thread thread_transition t) st in
  ts_setrun me t st.

(** ** The table *)

(** [ts_admin] with [TS_SETDPTBL]: the table that the user gives is checked; global priorities stay. *)
Definition dpent_valid (e : tsdpent) : bool :=
  negb (ts_quantum e <=? 0) && negb ((ts_maxumdpri <? ts_tqexp e) || (ts_tqexp e <? 0)) &&
  negb ((ts_maxumdpri <? ts_slpret e) || (ts_slpret e <? 0)) && negb (ts_maxwait e <? 0) &&
  negb ((ts_maxumdpri <? ts_lwait e) || (ts_lwait e <? 0)).
Definition dpent_set (old new : tsdpent) : tsdpent :=
  Tsdpent (ts_globpri old) (ts_quantum new) (ts_tqexp new) (ts_slpret new) (ts_maxwait new) (ts_lwait new).
Definition ts_setdptbl (root : bool) (tbl : list tsdpent) : ts_err + list tsdpent :=
  if negb root then inl TS_EPERM
  else if negb (zlen tbl =? ts_maxumdpri + 1) then inl TS_EINVAL
  else if forallb dpent_valid tbl then inr (zip_with dpent_set ts_dptbl tbl)
  else inl TS_EINVAL.

(** [ts_init]: the highest global priority of the class. *)
Definition ts_maxglobpri : run Z :=
  let* k := zget ts_kmdpris ts_maxkmdpri in
  let* e := dpt ts_maxumdpri in Ret (Z.max k (ts_globpri e)).
End Ts.
