(* ===== verification/TsSched.v ===== *)
(** * The time-sharing class on the dispatcher's machine

    Every operation of the class is a sequence of events of the machine of [DispSched]:
    so a thread's changing its level never loses a request to give up a processor, and
    the priorities that the class gives out are within its tables. *)

From S2P Require Import Prelude Bitmap Dispq DispqOps Disp DispInv DispSteps DispSched Ts.

Section TsSched.
Context (ncpus kpreemptpri upreemptpri maxclsyspri rechoose_interval npri : Z).
Context (ts_dptbl : list tsdpent) (ts_kmdpris : list Z) (ts_maxumdpri ts_maxkmdpri maxglobpri : Z).
Hypothesis Hup : upreemptpri ≤ 0.

(** ** Tables and levels *)

Record entry_ok (e : tsdpent) : Prop := {
  en_globpri : 0 ≤ ts_globpri e ∧ ts_globpri e ≤ maxglobpri;
  en_quantum : 0 < ts_quantum e;
  en_tqexp : 0 ≤ ts_tqexp e ∧ ts_tqexp e ≤ ts_maxumdpri;
  en_slpret : 0 ≤ ts_slpret e ∧ ts_slpret e ≤ ts_maxumdpri;
  en_maxwait : 0 ≤ ts_maxwait e;
  en_lwait : 0 ≤ ts_lwait e ∧ ts_lwait e ≤ ts_maxumdpri
}.

Record tables_ok : Prop := {
  tb_len : zlen ts_dptbl = ts_maxumdpri + 1;
  tb_entries e : e ∈ ts_dptbl → entry_ok e;
  tb_kmdpris : zlen ts_kmdpris = ts_maxkmdpri + 1;
  tb_kmpri p : p ∈ ts_kmdpris → 0 ≤ p ∧ p ≤ maxglobpri;
  tb_max : 0 ≤ ts_maxumdpri ∧ ts_maxumdpri ≤ maxglobpri ∧ 0 ≤ ts_maxkmdpri;
  tb_npri : maxglobpri < npri
}.
Hypothesis Htb : tables_ok.

Definition level_in (p : tsproc) : Prop :=
  (0 ≤ ts_cpupri p ∧ ts_cpupri p ≤ ts_maxumdpri) ∧ ts_umdpri p = ts_umdpri (TS_NEWUMDPRI ts_maxumdpri p).

Lemma umdpri_range p : level_in p → 0 ≤ ts_umdpri p ∧ ts_umdpri p ≤ ts_maxumdpri.
Proof using Htb.
  intros [_ ->]. pose proof (tb_max Htb). simpl. destruct (Z.ltb_spec ts_maxumdpri (s16 (ts_cpupri p + ts_upri p + ts_boost p))); [lia|].
  destruct (Z.ltb_spec (s16 (ts_cpupri p + ts_upri p + ts_boost p)) 0); lia.
Qed.

Lemma newumdpri_level c p : 0 ≤ c → c ≤ ts_maxumdpri → level_in (TS_NEWUMDPRI ts_maxumdpri (set_cpupri c p)).
Proof using Type. intros H0 H1. by split. Qed.

Lemma dpt_ok i : 0 ≤ i → i ≤ ts_maxumdpri → ∃ e, dpt ts_dptbl i = Ret e ∧ entry_ok e.
Proof using Htb.
  intros H0 H1. pose proof (tb_len Htb). destruct (zget_in ts_dptbl i) as (e & He & E); [lia|].
  exists e. split; [exact E|]. apply (tb_entries Htb). by eapply list_elem_of_lookup_2.
Qed.

(** What the state of the class keeps to. *)
Definition prio_in (k : kthread) : Prop := 0 ≤ DISP_PRIO k ∧ DISP_PRIO k < npri.
Definition ts_ok (st : tstate) : Prop :=
  ∀ t p, t_proc st !! t = Some p → level_in p ∧ ∃ k, s_threads (t_sys st) !! t = Some k ∧ prio_in k.

Lemma tpri_in p k : prio_in k → 0 ≤ p → p ≤ maxglobpri → prio_in (set_tpri p k).
Proof using Htb.
  intros [H0 H1] Hp Hm. pose proof (tb_npri Htb). unfold prio_in, DISP_PRIO, INHERITED in *. simpl. destruct (negb (t_epri k =? 0)); lia.
Qed.

Lemma put_ts_ok st t p : ts_ok st → level_in p → is_Some (t_proc st !! t) → ts_ok (put_ts t p st).
Proof using Type.
  intros Hok Hp [p0 Hp0] u pu. simpl. destruct (decide (u = t)) as [->|Hne].
  - rewrite lookup_insert_eq. intros [= <-]. split; [done|]. by apply (Hok t p0).
  - rewrite lookup_insert_ne by done. apply Hok.
Qed.

(** ** Places *)

(** No processor idles with the thread, and none that has not called [disp] runs it. *)
Definition nobody (s : sys) (ph : Z → phase) (t : Z) : Prop :=
  ∀ c cp, s_cpus s !! c = Some cp → cpu_idle_thread cp ≠ t ∧ (ph c = Running → cpu_dispthread cp ≠ t).

(** It runs on processor [c], or has been taken by it. *)
Definition on_cpu (s : sys) (ph : Z → phase) (t c : Z) (k : kthread) : Prop :=
  off_queue k ∧ t_state k = TS_ONPROC ∧ t_disp_queue k = Some (CPUQ c) ∧ is_Some (s_cpus s !! c) ∧
  ∀ d cd, s_cpus s !! d = Some cd → cpu_idle_thread cd ≠ t ∧ (ph d = Running → cpu_dispthread cd = t → d = c).

(** Where a thread is that is locked. *)
Inductive place (s : sys) (ph : Z → phase) (me : ctx) (t : Z) (k : kthread) : Prop :=
| pl_cpu c : on_cpu s ph t c k → place s ph me t k
| pl_queue q : t_lockp k = disp_lock q → curthread me ≠ t → nobody s ph t → ¬ claimed ph t → place s ph me t k
| pl_out : swapped k → t_state k = TS_RUN → curthread me ≠ t → nobody s ph t → ¬ claimed ph t → place s ph me t k
| pl_off : off_queue k → t_state k ≠ TS_ONPROC → t_state k ≠ TS_RUN → curthread me ≠ t → nobody s ph t → ¬ claimed ph t →
    place s ph me t k.

(** The thread that runs on processor [CPU me], loaded and not chosen elsewhere. *)
Definition current (s : sys) (ph : Z → phase) (me : ctx) (t : Z) (k : kthread) : Prop :=
  on_cpu s ph t (CPU me) k ∧ ph (CPU me) = Running ∧ loaded k = true ∧ t_link k = None ∧ ¬ claimed ph t.

(** ** Steps *)

#[local] Abbreviation mach_ok := (mach_ok npri).
#[local] Abbreviation reachable := (reachable ncpus kpreemptpri upreemptpri maxclsyspri rechoose_interval npri).
#[local] Abbreviation exec := (exec ncpus kpreemptpri upreemptpri maxclsyspri rechoose_interval).
#[local] Abbreviation enabled := (enabled npri).

Definition good (st : tstate) (ph : Z → phase) : Prop := mach_ok (Mach (t_sys st) ph) ∧ ts_ok st.
Definition leads (st : tstate) (ph : Z → phase) (st' : tstate) (ph' : Z → phase) : Prop :=
  reachable (Mach (t_sys st) ph) (Mach (t_sys st') ph') ∧ good st' ph'.

Lemma ts_leads_refl st ph : good st ph → leads st ph st ph.
Proof using Type. split; [constructor|done]. Qed.

Lemma leads_put st ph st' ph' t p : leads st ph st' ph' → level_in p → is_Some (t_proc st' !! t) → leads st ph (put_ts t p st') ph'.
Proof using Type. intros [Hr [Hm Ht]] Hp Hs. split; [done|]. split; [done|]. by apply put_ts_ok. Qed.

Lemma put_good st ph t p : good st ph → level_in p → is_Some (t_proc st !! t) → good (put_ts t p st) ph.
Proof using Type. intros [Hm Ht] Hp Hs. split; [done|]. by apply put_ts_ok. Qed.

Lemma ts_leads_trans st ph st1 ph1 st2 ph2 : leads st ph st1 ph1 → leads st1 ph1 st2 ph2 → leads st ph st2 ph2.
Proof using Type.
  intros [H1 _] [H2 G2]. split; [|done]. clear G2. induction H2; [done|by econstructor].
Qed.

(** Threads keep their priorities but [t], of which we know. *)
Lemma event_leads e st ph s' ph' t :
  good st ph → enabled e (Mach (t_sys st) ph) → exec e (Mach (t_sys st) ph) = Ret (Mach s' ph') →
  (∀ u k, u ≠ t → s_threads (t_sys st) !! u = Some k → prio_in k → ∃ k', s_threads s' !! u = Some k' ∧ prio_in k') →
  (∀ p, t_proc st !! t = Some p → ∃ k', s_threads s' !! t = Some k' ∧ prio_in k') →
  leads st ph (Tstate s' (t_proc st) (ts_list st)) ph'.
Proof using Hup.
  intros [Hm Ht] He Hx Hother Hself.
  destruct (event_preserves ncpus kpreemptpri upreemptpri maxclsyspri rechoose_interval npri Hup e _ Hm He) as (m' & Hx' & Hm').
  rewrite Hx in Hx'. injection Hx' as <-. split; [eapply reach_step; [constructor|done|done]|]. split; [done|].
  intros u p Hp. destruct (Ht u p Hp) as [Hl (k & Hk & Hpr)]. split; [done|].
  destruct (decide (u = t)) as [->|Hne]; [by eapply Hself|by eapply Hother].
Qed.

Lemma keeps_prio s s' u k : keeps s s' → s_threads s !! u = Some k → prio_in k → ∃ k', s_threads s' !! u = Some k' ∧ prio_in k'.
Proof using Type.
  intros Hke Hk Hp. destruct (proj2 (ke_threads _ _ Hke) u) as [k' Hk']; [eauto|]. exists k'. split; [done|].
  destruct (proj1 (ke_threads _ _ Hke) u k' Hk') as (k0 & Hk0 & _ & _ & _ & E). rewrite Hk in Hk0. injection Hk0 as <-.
  unfold prio_in. by rewrite E.
Qed.

Lemma on_sys_put f st st' t p : on_sys f st = Ret st' → on_sys f (put_ts t p st) = Ret (put_ts t p st').
Proof using Type. unfold on_sys. simpl. destruct (f (t_sys st)); simpl; [|done|done]. by intros [= <-]. Qed.

Lemma leads_effect e st ph s' ph' c0 t Q' : good st ph → enabled e (Mach (t_sys st) ph) → exec e (Mach (t_sys st) ph) = Ret (Mach s' ph') →
  effect npri c0 t (t_sys st) s' Q' → leads st ph (Tstate s' (t_proc st) (ts_list st)) ph'.
Proof using Hup.
  intros Hg He Hx Heff. pose proof (ef_keeps _ _ _ _ _ _ Heff) as Hke. eapply (event_leads e st ph s' ph' t); [done..| |].
  - intros u k _ Hk Hp. by eapply keeps_prio.
  - intros p Hp. destruct (proj2 Hg t p Hp) as [_ (k & Hk & Hpr)]. by eapply keeps_prio.
Qed.

(** On a dispatch queue. *)
Lemma set_leads st ph me t k : good st ph → s_threads (t_sys st) !! t = Some k → wakeable npri k → ¬ claimed ph t →
  (∃ st', setbackdq_ts ncpus kpreemptpri upreemptpri maxclsyspri rechoose_interval me t st = Ret st' ∧ leads st ph st' ph ∧
    t_proc st' = t_proc st) ∧
  ∃ st', setfrontdq_ts ncpus kpreemptpri upreemptpri maxclsyspri rechoose_interval me t st = Ret st' ∧ leads st ph st' ph ∧
    t_proc st' = t_proc st.
Proof using Hup.
  intros Hg Hk Hw Hn. pose proof Hg as [[[Q Hs] _] _]. simpl in Hs.
  destruct (set_steps ncpus kpreemptpri upreemptpri maxclsyspri rechoose_interval npri Hup _ Q me t k Hs Hk Hw)
    as [(s1 & Q1 & H1 & He1) (s2 & Q2 & H2 & He2)].
  unfold setbackdq_ts, setfrontdq_ts, on_sys. rewrite H1, H2. cbn [rbind]. split; (eexists; split; [done|]; split; [|done]).
  - eapply (leads_effect (Setback me t)); [done|by exists k|simpl; by rewrite H1|done].
  - eapply (leads_effect (Setfront me t)); [done|by exists k|simpl; by rewrite H2|done].
Qed.

Lemma nobody_effect s s' ph t Q' : effect npri None t s s' Q' → nobody s ph t → nobody s' ph t.
Proof using Type.
  intros He Hn c cp' Hc'. destruct (ef_cpus _ _ _ _ _ _ He c cp') as (cp & Hc & Ed); [done..|]. rewrite Ed.
  destruct (Hn c cp Hc) as [Hi Hr]. split; [|done].
  assert (cpu_view s' !! c = cpu_view s !! c) as E by (by rewrite (ke_cpus _ _ (ef_keeps _ _ _ _ _ _ He))).
  rewrite !view_lookup, Hc, Hc' in E. injection E as _ _ -> _. done.
Qed.

(** Off its queue. *)
Lemma deq_leads st ph t k q : good st ph → s_threads (t_sys st) !! t = Some k → t_lockp k = disp_lock q → nobody (t_sys st) ph t →
  ∃ s', dispdeq t (t_sys st) = Ret (true, s') ∧ leads st ph (Tstate s' (t_proc st) (ts_list st)) ph ∧
    s_threads s' !! t = Some (set_link None (thread_transition k)) ∧ nobody s' ph t ∧ loaded k = true.
Proof using Hup.
  intros Hg Hk Hl Hn. pose proof Hg as [[[Q Hs] _] _]. simpl in Hs.
  destruct (dispdeq_sys_ok npri _ Q t k q Hs Hk Hl) as (_ & Hin & s' & Hrun & He & Hk'). exists s'. split; [done|]. split; [|split; [done|split]].
  - eapply (leads_effect (Deq t)); [done|by exists k, q|simpl; by rewrite Hrun|done].
  - by eapply nobody_effect.
  - destruct (so_locked _ _ _ Hs t k q Hk Hl) as [[dp Hq] Hin'].
    destruct (queue_lock npri _ Q q dp t Hs Hq Hin') as (k0 & p & Hk0 & _ & _ & _ & Ho). rewrite Hk in Hk0. injection Hk0 as <-. apply Ho.
Qed.

(** A thread that no queue has and no processor runs changes. *)
Lemma chg_leads st ph f t k : good st ph → s_threads (t_sys st) !! t = Some k → off_queue k → nobody (t_sys st) ph t → ¬ claimed ph t →
  off_queue (f k) → t_cpu (f k) = t_cpu k → t_cpupart (f k) = t_cpupart k → t_bound_cpu (f k) = t_bound_cpu k → prio_in (f k) →
  ∃ st', on_sys (mod_thread f t) st = Ret st' ∧ leads st ph st' ph ∧ t_proc st' = t_proc st ∧
    s_threads (t_sys st') !! t = Some (f k) ∧ nobody (t_sys st') ph t.
Proof using Hup.
  intros Hg Hk Hoff Hn Hcl Hoff' E1 E2 E3 Hp. pose proof Hg as [[[Q Hs] _] _]. simpl in Hs.
  unfold on_sys, mod_thread. rewrite (tmod_ok _ t _ k) by done. cbn [rbind]. eexists. split; [done|].
  split; [|split; [done|split; [apply lookup_insert_eq|exact Hn]]].
  destruct (so_refs _ _ _ Hs t k Hk) as (R1 & R2 & R3).
  eapply (event_leads (Change t (f k))); [done| | | |].
  - exists k. split; [done|]. split; [done|]. split; [done|]. split; [|by split].
    unfold thread_refs. rewrite E1, E2, E3. done.
  - simpl. unfold mod_thread. by rewrite (tmod_ok _ t _ k).
  - intros u ku Hne Hku Hpu. exists ku. simpl. by rewrite lookup_insert_ne.
  - intros p _. exists (f k). split; [apply lookup_insert_eq|done].
Qed.

(** A thread that a processor runs gets another priority. *)
Lemma reprio_leads st ph me p t c k pri (b : bool) : good st ph → s_threads (t_sys st) !! t = Some k → on_cpu (t_sys st) ph t c k →
  prio_in (set_tpri pri k) →
  (b = false → ∀ cp, s_cpus (t_sys st) !! c = Some cp → disp_maxrunpri (cpu_disp cp) ≤ DISP_PRIO (set_tpri pri k)) →
  let st1 := Tstate (with_threads (<[t := set_tpri pri k]> (s_threads (t_sys st))) (t_sys st)) (t_proc st) (ts_list st) in
  ∃ st', (if b then surrender_ts kpreemptpri me t p st1 else Ret st1) = Ret st' ∧ leads st ph st' ph ∧ t_proc st' = t_proc st ∧
    ∃ v, s_threads (t_sys st') !! t = Some (set_astflag v (set_tpri pri k)).
Proof using Hup.
  intros Hg Hk (Hoff & Hst & Hq & [cp Hc] & Hcpus) Hp Hb st1. pose proof Hg as [Hm _].
  assert (enabled (Reprio me (in_user p) t pri b) (Mach (t_sys st) ph)) as Hen.
  { exists k, c, cp. split_and!; try done; [apply Hp|apply Hp|]. intros E. by apply Hb. }
  destruct (event_preserves ncpus kpreemptpri upreemptpri maxclsyspri rechoose_interval npri Hup _ _ Hm Hen) as ([s' ph'] & Hx & _).
  pose proof Hx as Hx'. simpl in Hx. unfold mod_thread in Hx. rewrite (tmod_ok _ t _ k) in Hx by done. cbn [rbind] in Hx.
  set (s1 := with_threads (<[t := set_tpri pri k]> (s_threads (t_sys st))) (t_sys st)) in *.
  assert (mild s1 s' ∧ ph' = ph ∧ (if b then surrender_ts kpreemptpri me t p st1 else Ret st1) = Ret (Tstate s' (t_proc st) (ts_list st)))
    as (Hmild & -> & Hrun).
  { pose proof Hg as [[[Q Hs] _] _]. simpl in Hs.
    assert (sys_ok npri s1 Q) as Hs1.
    { apply (change_ok npri _ Q t k); try done; [by apply (so_refs _ _ _ Hs t k)|]. intros d cd Hd. by apply (Hcpus d cd). }
    destruct b.
    - destruct (surrender_ok kpreemptpri npri s1 Q me (in_user p) t (set_tpri pri k) c cp Hs1) as (s2 & Hr2 & Hm2 & _);
        [apply lookup_insert_eq|done..|].
      rewrite Hr2 in Hx. cbn [rbind] in Hx. injection Hx as <- <-. split; [done|]. split; [done|].
      unfold surrender_ts, on_sys. simpl. fold s1. by rewrite Hr2.
    - cbn [rbind] in Hx. injection Hx as <- <-. split; [apply mild_refl|]. split; [done|]. done. }
  assert (s_threads s1 !! t = Some (set_tpri pri k)) as Hk1 by apply lookup_insert_eq.
  destruct (mi_threads_dom _ _ Hmild t) as [k' Hk']; [eauto|]. destruct (mi_threads _ _ Hmild t k' Hk') as (k0 & v & Hk0 & ->).
  rewrite Hk1 in Hk0. injection Hk0 as <-.
  exists (Tstate s' (t_proc st) (ts_list st)). split; [exact Hrun|]. split; [|split; [done|by exists v]].
  eapply (event_leads (Reprio me (in_user p) t pri b)); [done|done|exact Hx'| |].
  - intros u ku Hne Hku Hpu. eapply keeps_prio; [by apply mild_keeps|simpl; by rewrite lookup_insert_ne|done].
  - intros _ _. by exists (set_astflag v (set_tpri pri k)).
Qed.

(** ** Priorities from the table *)

#[local] Abbreviation set_globpri := (set_globpri ts_dptbl).
#[local] Abbreviation full_quantum := (full_quantum ts_dptbl).
#[local] Abbreviation TS_NEWUMDPRI := (TS_NEWUMDPRI ts_maxumdpri).
#[local] Abbreviation ts_change_priority :=
  (ts_change_priority ncpus kpreemptpri upreemptpri maxclsyspri rechoose_interval ts_dptbl).

(** What the class decides from: the structure but for the quantum left and the flags. *)
Definition same_level (p p' : tsproc) : Prop :=
  ts_cpupri p' = ts_cpupri p ∧ ts_umdpri p' = ts_umdpri p ∧ ts_dispwait p' = ts_dispwait p ∧ ts_upri p' = ts_upri p ∧
  ts_uprilim p' = ts_uprilim p ∧ ts_boost p' = ts_boost p ∧ ts_nice p' = ts_nice p ∧ ts_inclass p' = ts_inclass p.

Lemma full_quantum_ok p : level_in p → ∃ e, full_quantum p = Ret (set_timeleft (ts_quantum e) p) ∧ entry_ok e.
Proof using Htb. intros [[H0 H1] _]. destruct (dpt_ok _ H0 H1) as (e & He & Hok). exists e. unfold Ts.full_quantum. by rewrite He. Qed.

Lemma globpri_ok p : level_in p → ∃ e, dpt ts_dptbl (ts_umdpri p) = Ret e ∧ entry_ok e.
Proof using Htb. intros Hp. destruct (umdpri_range p Hp). by apply dpt_ok. Qed.

Lemma maxrunpri_cpu t s k c cp : s_threads s !! t = Some k → t_disp_queue k = Some (CPUQ c) → s_cpus s !! c = Some cp →
  DISP_MAXRUNPRI t s = Ret (disp_maxrunpri (cpu_disp cp)).
Proof using Type. intros Hk Hq Hc. unfold DISP_MAXRUNPRI, get_thread, tget. rewrite Hk. cbn [rbind]. rewrite Hq. simpl. unfold get_cpu. by rewrite Hc. Qed.

Lemma off_runnable k : off_queue k → loaded k = true → t_link k = None → prio_in k → wakeable npri k.
Proof using Type. intros. by left. Qed.

(** A thread that no queue has, and that nobody runs. *)
Definition floating (st : tstate) (ph : Z → phase) (t : Z) (k : kthread) : Prop :=
  s_threads (t_sys st) !! t = Some k ∧ off_queue k ∧ nobody (t_sys st) ph t ∧ ¬ claimed ph t ∧ prio_in k.

Definition ready (k : kthread) : Prop :=
  (loaded k = true ∧ t_link k = None) ∨ (loaded k = false ∧ (t_state k = TS_SLEEP ∨ t_state k = TS_RUN)).

Lemma floating_put st ph t k u p : floating st ph t k → floating (put_ts u p st) ph t k.
Proof using Type. done. Qed.

Lemma float_chg st ph f t k : good st ph → floating st ph t k → off_queue (f k) → t_cpu (f k) = t_cpu k →
  t_cpupart (f k) = t_cpupart k → t_bound_cpu (f k) = t_bound_cpu k → prio_in (f k) →
  ∃ st', on_sys (mod_thread f t) st = Ret st' ∧ leads st ph st' ph ∧ t_proc st' = t_proc st ∧ floating st' ph t (f k).
Proof using Hup.
  intros Hg (Hk & Hoff & Hn & Hcl & Hp) Hoff' E1 E2 E3 Hp'.
  destruct (chg_leads st ph f t k) as (st' & ? & ? & ? & ? & ?); [done..|]. by exists st'.
Qed.

(** It is queued, at the front or at the back; or the swapper has it. *)
Lemma float_set st ph me t k (b : bool) : good st ph → floating st ph t k → ready k →
  ∃ st', (if b then setfrontdq_ts ncpus kpreemptpri upreemptpri maxclsyspri rechoose_interval me t st
    else setbackdq_ts ncpus kpreemptpri upreemptpri maxclsyspri rechoose_interval me t st) = Ret st' ∧ leads st ph st' ph ∧
    t_proc st' = t_proc st.
Proof using Hup.
  intros Hg (Hk & Hoff & Hn & Hcl & Hp) Hr.
  assert (wakeable npri k) as Hw by (destruct Hr as [[??]|[??]]; [by left|by right]).
  destruct (set_leads st ph me t k Hg Hk Hw Hcl) as [Hb Hf]. by destruct b.
Qed.

(** [dispdeq] of a thread that no processor runs. *)
Lemma deq_floats st ph me t k : good st ph → s_threads (t_sys st) !! t = Some k → prio_in k → place (t_sys st) ph me t k →
  (∃ c, on_cpu (t_sys st) ph t c k ∧ dispdeq t (t_sys st) = Ret (false, t_sys st)) ∨
  (curthread me ≠ t ∧ t_state k ≠ TS_ONPROC ∧ ∃ b s1 k1, let st1 := Tstate s1 (t_proc st) (ts_list st) in
    dispdeq t (t_sys st) = Ret (b, s1) ∧ leads st ph st1 ph ∧ floating st1 ph t k1 ∧ (b = true → ready k1) ∧ t_state k1 = t_state k ∧ t_epri k1 = t_epri k ∧
    (t_state k = TS_RUN → b = true)).
Proof using Hup.
  intros Hg Hk Hp. pose proof Hg as [[[Q Hs] _] _]. simpl in Hs.
  assert (∀ k, s_threads (t_sys st) !! t = Some k → t_state k ≠ TS_RUN → dispdeq t (t_sys st) = Ret (false, t_sys st)) as Hdeq.
  { intros k0 Hk0 Hst. unfold dispdeq, get_thread, tget. rewrite Hk0. cbn [rbind]. by rewrite bool_decide_eq_false_2. }
  assert (Tstate (t_sys st) (t_proc st) (ts_list st) = st) as Est by (by destruct st).
  intros [c Hcpu|q Hl Hcur Hnob Hcl|Hsw Hst Hcur Hnob Hcl|Hoff Hst1 Hst2 Hcur Hnob Hcl].
  - left. exists c. split; [done|]. apply (Hdeq k Hk). destruct Hcpu as (_ & -> & _). done.
  - right. destruct (so_locked _ _ _ Hs t k q Hk Hl) as [[dp Hq] Hin].
    destruct (queue_lock npri _ Q q dp t Hs Hq Hin) as (k0 & i & Hk0 & _ & _ & _ & (Est' & _)). rewrite Hk in Hk0. injection Hk0 as <-.
    split; [done|]. split; [congruence|]. destruct (deq_leads st ph t k q Hg Hk Hl Hnob) as (s1 & -> & Hl1 & Hk1 & Hn1 & Hload).
    eexists _, _, _. split; [done|]. split; [done|]. split; [split_and!; try done; apply Hp|]. split; [intros _; by left|done].
  - right. split; [done|]. split; [congruence|]. pose proof Hsw as (Hoff & Hload & _). exists true, (t_sys st), k. simpl. rewrite Est.
    split; [|split; [by apply ts_leads_refl|split; [done|split; [intros _; right; auto|done]]]].
    unfold dispdeq, get_thread, tget. rewrite Hk. cbn [rbind]. rewrite bool_decide_eq_true_2 by done. cbn [negb]. by rewrite Hload.
  - right. split; [done|]. split; [done|]. exists false, (t_sys st), k. simpl. rewrite Est.
    split; [by apply (Hdeq k)|]. split; [by apply ts_leads_refl|done].
Qed.

(** A thread on a processor gets the priority of its level; the processor may be made to give it up. *)
Lemma cpu_globpri st ph me t p k c (e : tsdpent) : good st ph → t_proc st !! t = Some p → s_threads (t_sys st) !! t = Some k →
  on_cpu (t_sys st) ph t c k → prio_in k → entry_ok e → ∃ cp st1, s_cpus (t_sys st) !! c = Some cp ∧
    on_sys (mod_thread (set_tpri (ts_globpri e)) t) st = Ret st1 ∧ t_proc st1 = t_proc st ∧
    s_threads (t_sys st1) !! t = Some (set_tpri (ts_globpri e) k) ∧ DISP_MAXRUNPRI t (t_sys st1) = Ret (disp_maxrunpri (cpu_disp cp)) ∧
    (disp_maxrunpri (cpu_disp cp) ≤ DISP_PRIO (set_tpri (ts_globpri e) k) → leads st ph st1 ph) ∧
    (∀ pu, ∃ st2, surrender_ts kpreemptpri me t pu st1 = Ret st2 ∧ leads st ph st2 ph ∧ t_proc st2 = t_proc st).
Proof using Hup Htb.
  intros Hg Hp Hk Hcpu Hpr Hent. pose proof Hcpu as (_ & Hst & Hq & [cp Hc] & _).
  pose proof (tpri_in (ts_globpri e) k Hpr (proj1 (en_globpri _ Hent)) (proj2 (en_globpri _ Hent))) as Hpr'.
  set (st1 := Tstate (with_threads (<[t := set_tpri (ts_globpri e) k]> (s_threads (t_sys st))) (t_sys st)) (t_proc st) (ts_list st)).
  exists cp, st1. split; [done|]. split; [unfold on_sys, mod_thread; by rewrite (tmod_ok _ t _ k)|]. split; [done|].
  split; [apply lookup_insert_eq|]. split; [by apply (maxrunpri_cpu _ _ (set_tpri (ts_globpri e) k) c); [apply lookup_insert_eq| |]|]. split.
  - intros Hle. destruct (reprio_leads st ph me p t c k (ts_globpri e) false) as (st' & [= <-] & Hlead & _); [done..| |done].
    intros _ cp' Hc'. rewrite Hc in Hc'. by injection Hc' as <-.
  - intros pu. by destruct (reprio_leads st ph me pu t c k (ts_globpri e) true) as (st' & Hrun & Hlead & Etp & _); [..|exists st'].
Qed.

Lemma change_priority_leads st ph me t p k : good st ph → t_proc st !! t = Some p → s_threads (t_sys st) !! t = Some k →
  place (t_sys st) ph me t k →
  ∃ st' p', ts_change_priority me t st = Ret st' ∧ leads st ph st' ph ∧ t_proc st' = <[t := p']> (t_proc st) ∧ same_level p p'.
Proof using Hup Htb.
  intros Hg Hp Hk Hpl. destruct (proj2 Hg t p Hp) as [Hlev (k0 & Hk0 & Hpr)]. rewrite Hk in Hk0. injection Hk0 as <-.
  destruct (globpri_ok p Hlev) as (e & He & Hent). destruct (full_quantum_ok p Hlev) as (eq & Hfq & _).
  unfold Ts.ts_change_priority, get_ts. rewrite Hp. cbn [rbind]. unfold get_thread at 1, tget. rewrite Hk. cbn [rbind].
  unfold Ts.set_globpri. rewrite He. cbn [rbind].
  destruct (deq_floats st ph me t k Hg Hk Hpr Hpl) as [(c & Hcpu & _)|(Hcur & Hst & b & s1 & k1 & Hdeq & Hl1 & Hfl & Hready & _)].
  - pose proof Hcpu as (_ & Hst & _). rewrite (bool_decide_eq_true_2 _ Hst), orb_true_r.
    destruct (cpu_globpri st ph me t p k c e) as (cp & st1 & Hc & -> & Et1 & Hk1 & Hmax & Hl1 & Hsur); [done..|]. cbn [rbind].
    unfold get_thread, tget. rewrite Hk1. cbn [rbind]. rewrite Hmax. cbn [rbind].
    destruct (Z.ltb_spec (disp_maxrunpri (cpu_disp cp)) (DISP_PRIO (set_tpri (ts_globpri e) k))) as [Hlt|Hge].
    + rewrite Hfq. cbn [rbind]. do 2 eexists. split; [done|].
      split; [apply leads_put; [apply Hl1; lia|exact Hlev|rewrite Et1; eauto]|]. simpl. by rewrite Et1.
    + destruct (Hsur p) as (st2 & Hrun & Hl2 & Et2). unfold surrender_ts in *. erewrite on_sys_put by exact Hrun.
      do 2 eexists. split; [done|]. split; [apply leads_put; [exact Hl2|exact Hlev|rewrite Et2; eauto]|]. simpl. by rewrite Et2.
  - rewrite (proj2 (Z.eqb_neq t (curthread me))) by congruence. rewrite bool_decide_eq_false_2 by done. cbn [orb].
    rewrite Hdeq. cbn [rbind]. set (st1 := Tstate s1 (t_proc st) (ts_list st)) in *. pose proof Hfl as (_ & Hoff1 & _ & _ & Hpr1).
    destruct (float_chg st1 ph (set_tpri (ts_globpri e)) t k1) as (st2 & -> & Hl2 & Et2 & Hfl2);
      [apply Hl1|done|done|done|done|done|apply tpri_in; [done|apply Hent..]|]. cbn [rbind].
    pose proof (ts_leads_trans _ _ _ _ _ _ Hl1 Hl2) as Hl12. destruct b.
    + rewrite Hfq. cbn [rbind].
      destruct (float_set (put_ts t (set_timeleft (ts_quantum eq) p) st2) ph me t (set_tpri (ts_globpri e) k1)
        (has TSIASET (set_timeleft (ts_quantum eq) p))) as (st3 & -> & Hl3 & Et3);
        [apply put_good; [apply Hl2|exact Hlev|rewrite Et2; simpl; eauto]|done|by apply Hready|].
      do 2 eexists. split; [done|]. split; [by eapply ts_leads_trans|]. by rewrite Et3; simpl; rewrite Et2.
    + do 2 eexists. split; [done|]. split; [apply leads_put; [exact Hl12|exact Hlev|rewrite Et2; simpl; eauto]|].
      simpl. by rewrite Et2.
Qed.

(** [cpu_surrender] for a thread with the priority it has. *)
Lemma surrender_leads st ph me t p k pu : good st ph → t_proc st !! t = Some p → s_threads (t_sys st) !! t = Some k →
  place (t_sys st) ph me t k → ∃ st', surrender_ts kpreemptpri me t pu st = Ret st' ∧ leads st ph st' ph ∧ t_proc st' = t_proc st.
Proof using Hup.
  intros Hg Hp Hk Hpl. destruct (proj2 Hg t p Hp) as [_ (k0 & Hk0 & Hpr)]. rewrite Hk in Hk0. injection Hk0 as <-.
  assert (set_tpri (t_pri k) k = k) as Ek by (by destruct k).
  assert (Tstate (with_threads (<[t := set_tpri (t_pri k) k]> (s_threads (t_sys st))) (t_sys st)) (t_proc st) (ts_list st) = st) as Est.
  { rewrite Ek, insert_id by done. destruct st as [[]]. done. }
  destruct (deq_floats st ph me t k Hg Hk Hpr Hpl) as [(c & Hcpu & _)|(Hcur & Hst & _)].
  - destruct (reprio_leads st ph me pu t c k (t_pri k) true Hg Hk Hcpu) as (st' & Hrun & Hl & Et & _); [by rewrite Ek|done|].
    rewrite Est in Hrun. by exists st'.
  - exists st. split; [|split; [by apply ts_leads_refl|done]]. unfold surrender_ts, on_sys, cpu_surrender, get_thread, tget.
    rewrite Hk. cbn [rbind]. rewrite bool_decide_eq_false_2 by done. by destruct st.
Qed.

(** ** Ticks *)

#[local] Abbreviation ts_tick :=
  (ts_tick ncpus kpreemptpri upreemptpri maxclsyspri rechoose_interval ts_dptbl ts_maxumdpri).

Lemma yield_level v p : level_in p → level_in (schedctl_set_yield v p).
Proof using Type. unfold schedctl_set_yield. by destruct (t_schedctl p) as [[np y]|]. Qed.

Lemma loaded_clear k : loaded (clear_dont_swap k) = loaded k.
Proof using Type.
  unfold loaded, clear_dont_swap, set_schedflag. cbn [t_schedflag].
  replace (Z.land (Z.ldiff (t_schedflag k) TS_DONT_SWAP) (Z.lor TS_LOAD TS_ON_SWAPQ))
    with (Z.land (t_schedflag k) (Z.lor TS_LOAD TS_ON_SWAPQ)); [done|].
  rewrite Z.ldiff_land, <-Z.land_assoc. by replace (Z.land (Z.lnot TS_DONT_SWAP) (Z.lor TS_LOAD TS_ON_SWAPQ)) with (Z.lor TS_LOAD TS_ON_SWAPQ).
Qed.

Lemma ready_clear k : ready k → ready (clear_dont_swap k).
Proof using Type. unfold ready. rewrite loaded_clear. done. Qed.

(** A new level for a thread wherever it is, with the rest of [ts_tick]. *)
Lemma tick_expired st ph me t p k p2 : good st ph → t_proc st !! t = Some p → s_threads (t_sys st) !! t = Some k →
  place (t_sys st) ph me t k → level_in p2 →
  ∃ st', (let* (wasonq, s) := dispdeq t (t_sys st) in
        let* st := set_globpri t p2 (Tstate s (t_proc st) (ts_list st)) in
        if wasonq : bool then
          let* k := get_thread t (t_sys st) in
          let* st :=
            if truthy (Z.land (t_schedflag k) TS_LOAD) && in_user p2 then on_sys (mod_thread clear_dont_swap t) st
            else Ret st in
          let* p := full_quantum p2 in
          setbackdq_ts ncpus kpreemptpri upreemptpri maxclsyspri rechoose_interval me t (put_ts t p st)
        else surrender_ts kpreemptpri me t p2 (put_ts t (raise TSBACKQ p2) st)) = Ret st' ∧
    leads st ph st' ph ∧ ∃ p', t_proc st' = <[t := p']> (t_proc st) ∧ same_level p2 p'.
Proof using Hup Htb.
  intros Hg Hp Hk Hpl Hlev. destruct (proj2 Hg t p Hp) as [_ (k0 & Hk0 & Hpr)]. rewrite Hk in Hk0. injection Hk0 as <-.
  destruct (globpri_ok p2 Hlev) as (e & He & Hent). destruct (full_quantum_ok p2 Hlev) as (eq & Hfq & _).
  unfold Ts.set_globpri. rewrite He. cbn [rbind].
  destruct (deq_floats st ph me t k Hg Hk Hpr Hpl) as [(c & Hcpu & ->)|(Hcur & Hst & b & s1 & k1 & -> & Hl1 & Hfl & Hready & Est & _)]; cbn [rbind].
  - replace (Tstate (t_sys st) (t_proc st) (ts_list st)) with st by (by destruct st).
    destruct (cpu_globpri st ph me t p k c e) as (cp & st1 & Hc & -> & Et1 & Hk1 & _ & _ & Hsur); [done..|]. cbn [rbind].
    destruct (Hsur p2) as (st2 & Hrun & Hl2 & Et2). unfold surrender_ts in *. erewrite on_sys_put by exact Hrun.
    eexists. split; [done|]. split; [apply leads_put; [exact Hl2|exact Hlev|rewrite Et2; eauto]|]. eexists. simpl. by rewrite Et2.
  - set (st1 := Tstate s1 (t_proc st) (ts_list st)) in *. pose proof Hfl as (_ & Hoff1 & _ & _ & Hpr1).
    destruct (float_chg st1 ph (set_tpri (ts_globpri e)) t k1) as (st2 & -> & Hl2 & Et2 & Hfl2);
      [apply Hl1|done|done|done|done|done|apply tpri_in; [done|apply Hent..]|]. cbn [rbind].
    pose proof (ts_leads_trans _ _ _ _ _ _ Hl1 Hl2) as Hl12. destruct b; cbn [rbind].
    + pose proof Hfl2 as (Hk2 & Hoff2 & _ & _ & Hpr2). unfold get_thread, tget. rewrite Hk2. cbn [rbind].
      assert (∃ st3 k3, (if truthy (Z.land (t_schedflag (set_tpri (ts_globpri e) k1)) TS_LOAD) && in_user p2
        then on_sys (mod_thread clear_dont_swap t) st2 else Ret st2) = Ret st3 ∧ leads st ph st3 ph ∧ t_proc st3 = t_proc st ∧
        floating st3 ph t k3 ∧ ready k3) as (st3 & k3 & -> & Hl3 & Et3 & Hfl3 & Hr3).
      { case_match.
        - destruct (float_chg st2 ph clear_dont_swap t (set_tpri (ts_globpri e) k1)) as (st3 & Hrun & Hl3 & Et3 & Hfl3);
            [apply Hl2|done|done|done|done|done|done|]. exists st3, (clear_dont_swap (set_tpri (ts_globpri e) k1)).
          split; [done|]. split; [by eapply ts_leads_trans|]. split; [by rewrite Et3|]. split; [done|]. apply ready_clear. by apply Hready.
        - exists st2, (set_tpri (ts_globpri e) k1). split; [done|]. split; [done|]. split; [by rewrite Et2|]. split; [done|by apply Hready]. }
      cbn [rbind]. rewrite Hfq. cbn [rbind].
      destruct (float_set (put_ts t (set_timeleft (ts_quantum eq) p2) st3) ph me t k3 false) as (st4 & -> & Hl4 & Et4);
        [apply put_good; [apply Hl3|exact Hlev|rewrite Et3; eauto]|done|done|].
      eexists. split; [done|]. split; [by eapply ts_leads_trans|]. eexists. rewrite Et4. simpl. by rewrite Et3.
    + assert (on_sys (cpu_surrender kpreemptpri me (in_user p2) t) st2 = Ret st2) as Hsur.
      { destruct Hfl2 as (Hk2 & _). unfold on_sys, cpu_surrender, get_thread, tget. rewrite Hk2. cbn [rbind].
        rewrite bool_decide_eq_false_2; [by destruct st2|]. simpl. congruence. }
      unfold surrender_ts. erewrite on_sys_put by exact Hsur. eexists. split; [done|].
      split; [apply leads_put; [exact Hl12|exact Hlev|rewrite Et2; simpl; eauto]|]. eexists. simpl. by rewrite Et2.
Qed.

Lemma tick_leads st ph me t p k : good st ph → t_proc st !! t = Some p → s_threads (t_sys st) !! t = Some k →
  place (t_sys st) ph me t k → is_Some (t_disp_queue k) → (∀ q, t_disp_queue k = Some q → is_Some (disp_of (t_sys st) q)) →
  ∃ st', ts_tick me t st = Ret st' ∧ leads st ph st' ph.
Proof using Hup Htb.
  intros Hg Hp Hk Hpl [q Hq] Hdq. destruct (proj2 Hg t p Hp) as [Hlev (k0 & Hk0 & Hpr)]. rewrite Hk in Hk0. injection Hk0 as <-.
  unfold Ts.ts_tick, get_ts. rewrite Hp. cbn [rbind]. destruct (has TSKPRI p); [exists st; split; [done|by apply ts_leads_refl]|].
  set (p1 := set_timeleft (s32 (ts_timeleft p - 1)) p). assert (is_Some (t_proc st !! t)) as Hps by eauto.
  destruct (ts_timeleft p1 <=? 0).
  - destruct (nopreempt p1 && (- SC_MAX_TICKS <? ts_timeleft p1)).
    + eexists. split; [done|]. apply leads_put; [by apply ts_leads_refl|by apply yield_level|done].
    + destruct Hlev as [[H0 H1] _]. change (ts_cpupri p1) with (ts_cpupri p). destruct (dpt_ok _ H0 H1) as (e & -> & Hent). cbn [rbind].
      destruct (tick_expired st ph me t p k (set_dispwait 0 (TS_NEWUMDPRI (set_cpupri (ts_tqexp e) p1))) Hg Hp Hk Hpl)
        as (st' & Hrun & Hl & _); [by apply (newumdpri_level (ts_tqexp e)); apply Hent|]. by exists st'.
  - destruct (Hdq q Hq) as [dp Hdp]. unfold get_thread at 1, tget. rewrite Hk. cbn [rbind].
    unfold DISP_MAXRUNPRI, get_thread, tget. rewrite Hk. cbn [rbind]. rewrite Hq, (get_disp_ok _ _ dp) by done. cbn [rbind].
    destruct (t_pri k <? disp_maxrunpri dp); [|eexists; split; [done|]; by apply leads_put; [apply ts_leads_refl| |]].
    destruct (surrender_leads st ph me t p k p1 Hg Hp Hk Hpl) as (st' & Hrun & Hl & Et).
    unfold surrender_ts in *. erewrite on_sys_put by exact Hrun. eexists. split; [done|]. apply leads_put; [exact Hl|done|by rewrite Et].
Qed.

(** ** Leaving the kernel, sleeping and waking up *)

#[local] Abbreviation ts_slept := (ts_slept ts_dptbl ts_maxumdpri).
#[local] Abbreviation overdue := (overdue ts_dptbl).
#[local] Abbreviation ts_leave_kernel := (ts_leave_kernel kpreemptpri ts_dptbl).

Lemma slept_ok p : level_in p → ∃ p', ts_slept p = Ret p' ∧ level_in p'.
Proof using Htb.
  intros [[H0 H1] _]. unfold Ts.ts_slept. destruct (dpt_ok _ H0 H1) as (e & -> & Hent). cbn [rbind].
  assert (level_in (TS_NEWUMDPRI (set_cpupri (ts_slpret e) p))) as Hlev by (apply newumdpri_level; apply Hent).
  destruct (full_quantum_ok _ Hlev) as (eq & -> & _). cbn [rbind]. by eexists.
Qed.

Lemma overdue_ok p : level_in p → ∃ b, overdue p = Ret b.
Proof using Htb. intros Hp. destruct (globpri_ok p Hp) as (e & He & _). unfold Ts.overdue. rewrite He. by eexists. Qed.

Lemma leave_leads st ph me t p0 p k c : good st ph → t_proc st !! t = Some p0 → s_threads (t_sys st) !! t = Some k →
  on_cpu (t_sys st) ph t c k → level_in p →
  ∃ st' p', ts_leave_kernel me t p st = Ret st' ∧ leads st ph st' ph ∧ t_proc st' !! t = Some p'.
Proof using Hup Htb.
  intros Hg Hp Hk Hcpu Hlev. destruct (proj2 Hg t p0 Hp) as [_ (k0 & Hk0 & Hpr)]. rewrite Hk in Hk0. injection Hk0 as <-.
  destruct (globpri_ok p Hlev) as (e & He & Hent).
  unfold Ts.ts_leave_kernel, Ts.set_globpri. rewrite He. cbn [rbind].
  destruct (cpu_globpri st ph me t p0 k c e) as (cp & st1 & Hc & -> & Et1 & Hk1 & Hmax & Hl1 & Hsur); [done..|]. cbn [rbind].
  unfold get_thread, tget. change (t_sys (put_ts t (drop_flag TSKPRI p) st1)) with (t_sys st1). rewrite Hk1. cbn [rbind].
  rewrite Hmax. cbn [rbind].
  destruct (Z.ltb_spec (DISP_PRIO (set_tpri (ts_globpri e) k)) (disp_maxrunpri (cpu_disp cp))) as [Hlt|Hge].
  - destruct (Hsur (drop_flag TSKPRI p)) as (st2 & Hrun & Hl2 & Et2). unfold surrender_ts in *. erewrite on_sys_put by exact Hrun.
    do 2 eexists. split; [done|]. split; [apply leads_put; [exact Hl2|exact Hlev|rewrite Et2; eauto]|apply lookup_insert_eq].
  - do 2 eexists. split; [done|]. split; [apply leads_put; [by apply Hl1|exact Hlev|rewrite Et1; eauto]|apply lookup_insert_eq].
Qed.

Lemma trapret_leads st ph me t p k c : good st ph → t_proc st !! t = Some p → s_threads (t_sys st) !! t = Some k →
  on_cpu (t_sys st) ph t c k →
  ∃ b st', ts_trapret kpreemptpri ts_dptbl ts_maxumdpri me t st = Ret (b, st') ∧ leads st ph st' ph.
Proof using Hup Htb.
  intros Hg Hp Hk Hcpu. destruct (proj2 Hg t p Hp) as [Hlev _]. unfold Ts.ts_trapret, get_ts at 1. rewrite Hp. cbn [rbind].
  set (p1 := set_kpri_req 0 p). destruct (overdue_ok p1) as [late ->]; [exact Hlev|]. cbn [rbind].
  assert (∃ st' p', (if late then let* p := ts_slept p1 in ts_leave_kernel me t p st
    else if has TSKPRI p1 then ts_leave_kernel me t p1 st else Ret (put_ts t p1 st)) = Ret st' ∧ leads st ph st' ph ∧
    t_proc st' !! t = Some p') as (st' & p' & -> & Hl & Hp').
  { destruct late; [destruct (slept_ok p1 Hlev) as (p2 & -> & Hlev2); by eapply leave_leads|].
    destruct (has TSKPRI p1); [by eapply leave_leads|]. do 2 eexists. split; [done|].
    split; [apply leads_put; [by apply ts_leads_refl|exact Hlev|eauto]|apply lookup_insert_eq]. }
  cbn [rbind]. unfold get_ts. rewrite Hp'. cbn [rbind]. destruct (proj2 (proj2 Hl) t p' Hp') as [_ (k' & Hk' & _)].
  unfold get_thread, tget. rewrite Hk'. cbn [rbind]. by do 2 eexists.
Qed.

(** The thread that a processor runs, once the processor is on its way to [disp]. *)
Lemma swtch_leads st ph me t p k : good st ph → t_proc st !! t = Some p → s_threads (t_sys st) !! t = Some k →
  current (t_sys st) ph me t k → let ph' := upd (CPU me) Dispatching ph in
  leads st ph st ph' ∧ floating st ph' t k ∧ on_cpu (t_sys st) ph' t (CPU me) k ∧ ready k.
Proof using Hup.
  intros Hg Hp Hk ((Hoff & Hst & Hq & Hc & Hcpus) & Hrun & Hload & Hlink & Hncl) ph'.
  destruct (proj2 Hg t p Hp) as [_ (k0 & Hk0 & Hpr)]. rewrite Hk in Hk0. injection Hk0 as <-.
  assert (∀ d, ph' d = Running → ph d = Running ∧ d ≠ CPU me) as Hd.
  { intros d. unfold ph'. destruct (decide (d = CPU me)) as [->|Hne]; [by rewrite upd_eq|]. by rewrite upd_ne. }
  split_and!.
  - replace st with (Tstate (t_sys st) (t_proc st) (ts_list st)) at 2 by (by destruct st).
    eapply (event_leads (Swtch (CPU me)) st ph (t_sys st) ph' t); [done|done|done|intros; eauto|intros; eauto].
  - split; [done|]. split; [done|]. split; [|split; [|done]].
    + intros d cd Hcd. destruct (Hcpus d cd Hcd) as [Hi Hr]. split; [done|]. intros Hd' E. destruct (Hd d Hd') as [H1 H2]. by apply H2, Hr.
    + intros (d & Hcl). apply Hncl. exists d. destruct (decide (d = CPU me)) as [->|Hne].
      * unfold ph' in Hcl. rewrite upd_eq in Hcl. by destruct Hcl.
      * unfold ph' in Hcl. by rewrite upd_ne in Hcl.
  - split_and!; try done. intros d cd Hcd. destruct (Hcpus d cd Hcd) as [Hi Hr]. split; [done|]. intros Hd' E.
    destruct (Hd d Hd') as [H1 H2]. by apply Hr.
  - by left.
Qed.

Lemma kmpri_ok i : 0 ≤ i → i ≤ ts_maxkmdpri → ∃ p, zget ts_kmdpris i = Ret p ∧ 0 ≤ p ∧ p ≤ maxglobpri.
Proof using Htb.
  intros H0 H1. pose proof (tb_kmdpris Htb). destruct (zget_in ts_kmdpris i) as (p & Hp & ->); [lia|]. exists p. split; [done|].
  apply (tb_kmpri Htb). by eapply list_elem_of_lookup_2.
Qed.

Lemma sleep_leads st ph me t p k disp : good st ph → t_proc st !! t = Some p → s_threads (t_sys st) !! t = Some k →
  current (t_sys st) ph me t k → 0 ≤ disp →
  ∃ st', ts_sleep kpreemptpri ts_dptbl ts_kmdpris ts_maxumdpri ts_maxkmdpri me t disp st = Ret st' ∧ leads st ph st' (upd (CPU me) Dispatching ph).
Proof using Hup Htb.
  intros Hg Hp Hk Hcur Hdisp. destruct (proj2 Hg t p Hp) as [Hlev _].
  destruct (swtch_leads st ph me t p k Hg Hp Hk Hcur) as (Hl0 & Hfl & Hcpu & _). set (ph' := upd (CPU me) Dispatching ph) in *.
  pose proof (proj2 Hl0) as Hg0. unfold Ts.ts_sleep, get_ts at 1. rewrite Hp. cbn [rbind].
  assert (∀ st' p', leads st ph st' ph' → t_proc st' !! t = Some p' → level_in p' →
    leads st ph (put_ts t (set_stime (lbolt me) p') st') ph') as Hend by (intros; apply leads_put; eauto).
  assert (∃ st' p', (if truthy (t_kpri_req p) then
      let* pri := zget ts_kmdpris (if ts_maxkmdpri <? disp then ts_maxkmdpri else disp) in
      let* st := on_sys (mod_thread (set_tpri pri) t) st in
      let* st := on_sys (aston t) st in
      Ret (put_ts t (set_trapret 1 (raise TSKPRI p)) st)
    else
      let* late := overdue p in
      if late : bool then let* p := ts_slept p in ts_leave_kernel me t p st
      else if has TSKPRI p then ts_leave_kernel me t p st
      else Ret (put_ts t p st)) = Ret st' ∧ leads st ph st' ph' ∧ t_proc st' !! t = Some p') as (st' & p' & -> & Hl & Hp').
  { destruct (truthy (t_kpri_req p)).
    - pose proof (tb_max Htb) as (_ & _ & Hkm). set (i := if ts_maxkmdpri <? disp then ts_maxkmdpri else disp).
      destruct (kmpri_ok i) as (pri & -> & Hpri0 & Hpri1); [unfold i; case_match; lia..|]. cbn [rbind]. pose proof Hfl as (_ & Hoff & _ & _ & Hpr).
      destruct (float_chg st ph' (set_tpri pri) t k) as (st1 & -> & Hl1 & Et1 & Hfl1); [done|done|done|done|done|done|by apply tpri_in|].
      cbn [rbind]. destruct (float_chg st1 ph' (set_astflag 1) t (set_tpri pri k)) as (st2 & Hrun & Hl2 & Et2 & Hfl2);
        [apply Hl1|done|done|done|done|done|apply Hfl1|]. change (aston t) with (mod_thread (set_astflag 1) t). rewrite Hrun. cbn [rbind]. do 2 eexists. split; [done|].
      split; [|apply lookup_insert_eq]. apply leads_put; [|exact Hlev|rewrite Et2, Et1; eauto].
      eapply ts_leads_trans; [exact Hl0|]. by eapply ts_leads_trans.
    - destruct (overdue_ok p Hlev) as [late ->]. cbn [rbind]. destruct late.
      + destruct (slept_ok p Hlev) as (p2 & -> & Hlev2). cbn [rbind].
        destruct (leave_leads st ph' me t p p2 k (CPU me)) as (st' & p' & -> & Hl & Hp'); [done..|]. exists st', p'.
        split; [done|]. split; [by eapply ts_leads_trans|done].
      + destruct (has TSKPRI p).
        * destruct (leave_leads st ph' me t p p k (CPU me)) as (st' & p' & -> & Hl & Hp'); [done..|]. exists st', p'.
          split; [done|]. split; [by eapply ts_leads_trans|done].
        * do 2 eexists. split; [done|]. split; [apply leads_put; eauto|apply lookup_insert_eq]. }
  cbn [rbind]. unfold get_ts. rewrite Hp'. cbn [rbind]. eexists. split; [done|]. apply Hend; [done|done|].
  by apply (proj2 (proj2 Hl) t p').
Qed.

#[local] Abbreviation ts_requeue := (ts_requeue ncpus kpreemptpri upreemptpri maxclsyspri rechoose_interval).

Lemma requeue_leads st ph me t p k : good st ph → is_Some (t_proc st !! t) → floating st ph t k → ready k → level_in p →
  ∃ st', ts_requeue me t p st = Ret st' ∧ leads st ph st' ph.
Proof using Hup.
  intros Hg Hs Hfl Hr Hlev. unfold Ts.ts_requeue. set (st1 := put_ts t (drop_flag TSBACKQ p) st).
  assert (good st1 ph) as Hg1 by (by apply put_good). pose proof Hfl as (Hk & _).
  assert (∀ b : bool, ∃ st', (if b then setfrontdq_ts ncpus kpreemptpri upreemptpri maxclsyspri rechoose_interval me t st1
    else setbackdq_ts ncpus kpreemptpri upreemptpri maxclsyspri rechoose_interval me t st1) = Ret st' ∧ leads st ph st' ph) as Hset.
  { intros b. by destruct (float_set st1 ph me t k b) as (st' & ? & ? & _); [..|exists st']. }
  destruct (has TSIA _); [apply Hset|]. unfold get_thread, tget. cbn [t_sys put_ts st1]. rewrite Hk. cbn [rbind].
  destruct (t_disp_time k =? lbolt me); cbn [negb]; [apply (Hset true)|apply (Hset false)].
Qed.

(** A new priority on the way. *)
Lemma float_globpri st ph t p k : good st ph → floating st ph t k → ready k → level_in p →
  ∃ st' k', set_globpri t p st = Ret st' ∧ leads st ph st' ph ∧ t_proc st' = t_proc st ∧ floating st' ph t k' ∧ ready k'.
Proof using Hup Htb.
  intros Hg Hfl Hr Hlev. destruct (globpri_ok p Hlev) as (e & He & Hent). unfold Ts.set_globpri. rewrite He. cbn [rbind].
  pose proof Hfl as (_ & Hoff & _ & _ & Hpr).
  destruct (float_chg st ph (set_tpri (ts_globpri e)) t k) as (st' & Hrun & Hl & Et & Hfl');
    [done|done|done|done|done|done|apply tpri_in; [done|apply Hent..]|]. by exists st', (set_tpri (ts_globpri e) k).
Qed.

Lemma setrun_leads st ph me t p k : good st ph → t_proc st !! t = Some p → floating st ph t k → ready k →
  ∃ st', ts_setrun ncpus kpreemptpri upreemptpri maxclsyspri rechoose_interval ts_dptbl ts_maxumdpri me t st = Ret st' ∧ leads st ph st' ph.
Proof using Hup Htb.
  intros Hg Hp Hfl Hr. destruct (proj2 Hg t p Hp) as [Hlev _]. unfold Ts.ts_setrun, get_ts. rewrite Hp. cbn [rbind].
  destruct (overdue_ok p Hlev) as [late ->]. cbn [rbind]. destruct late; cbn [rbind]; [|by eapply requeue_leads; eauto].
  destruct (slept_ok p Hlev) as (p2 & -> & Hlev2). cbn [rbind]. destruct (has TSKPRI p2); cbn [rbind negb]; [by eapply requeue_leads; eauto|].
  destruct (float_globpri st ph t p2 k Hg Hfl Hr Hlev2) as (st1 & k1 & -> & Hl1 & Et1 & Hfl1 & Hr1). cbn [rbind].
  destruct (requeue_leads st1 ph me t p2 k1) as (st2 & -> & Hl2); [apply Hl1|rewrite Et1; eauto|done..|]. eexists. split; [done|].
  by eapply ts_leads_trans.
Qed.

Lemma wakeup_leads st ph me t p k : good st ph → t_proc st !! t = Some p → floating st ph t k → ready k →
  ∃ st', ts_wakeup ncpus kpreemptpri upreemptpri maxclsyspri rechoose_interval ts_dptbl ts_maxumdpri me t st = Ret st' ∧ leads st ph st' ph.
Proof using Hup Htb.
  intros Hg Hp Hfl Hr. destruct (proj2 Hg t p Hp) as [Hlev _]. unfold Ts.ts_wakeup, get_ts. rewrite Hp. cbn [rbind].
  set (p1 := set_stime (lbolt me) p). destruct (has TSKPRI p1).
  { destruct (float_set (put_ts t (drop_flag TSBACKQ p1) st) ph me t k (has TSIASET (drop_flag TSBACKQ p1))) as (st' & -> & Hl & _);
      [apply put_good; [done|exact Hlev|eauto]|done|done|]. by exists st'. }
  destruct (overdue_ok p1) as [late ->]; [exact Hlev|]. cbn [rbind]. destruct late; cbn [rbind]; [|eapply requeue_leads; eauto].
  destruct (slept_ok p1 Hlev) as (p2 & -> & Hlev2). cbn [rbind].
  destruct (float_globpri st ph t p2 k Hg Hfl Hr Hlev2) as (st1 & k1 & -> & Hl1 & Et1 & Hfl1 & Hr1). cbn [rbind].
  destruct (requeue_leads st1 ph me t p2 k1) as (st2 & -> & Hl2); [apply Hl1|rewrite Et1; eauto|done..|]. eexists. split; [done|].
  by eapply ts_leads_trans.
Qed.

(** ** The running thread gives up its processor *)

#[local] Abbreviation ts_yield := (ts_yield ncpus kpreemptpri upreemptpri maxclsyspri rechoose_interval ts_dptbl ts_maxumdpri).

Lemma yield_leads st ph me t p k : good st ph → t_proc st !! t = Some p → s_threads (t_sys st) !! t = Some k →
  current (t_sys st) ph me t k → ∃ st', ts_yield me t st = Ret st' ∧ leads st ph st' (upd (CPU me) Dispatching ph).
Proof using Hup Htb.
  intros Hg Hp Hk Hcur. destruct (proj2 Hg t p Hp) as [Hlev _].
  destruct (swtch_leads st ph me t p k Hg Hp Hk Hcur) as (Hl0 & Hfl & _ & Hr). set (ph' := upd (CPU me) Dispatching ph) in *.
  pose proof (proj2 Hl0) as Hg0. unfold Ts.ts_yield, get_ts. rewrite Hp. cbn [rbind]. set (p1 := schedctl_set_yield 0 p).
  assert (level_in p1) as Hlev1 by (by apply yield_level).
  assert (∃ p2 st2 k2, (if ts_timeleft p1 <? 0 then
      let* e := dpt ts_dptbl (ts_cpupri p1) in
      let* st := set_globpri t (TS_NEWUMDPRI (set_cpupri (ts_tqexp e) p1)) st in Ret (TS_NEWUMDPRI (set_cpupri (ts_tqexp e) p1), st)
    else Ret (p1, st)) = Ret (p2, st2) ∧ leads st ph st2 ph' ∧ t_proc st2 = t_proc st ∧ floating st2 ph' t k2 ∧ ready k2 ∧ level_in p2)
    as (p2 & st2 & k2 & -> & Hl2 & Et2 & Hfl2 & Hr2 & Hlev2).
  { destruct (ts_timeleft p1 <? 0); [|by exists p1, st, k].
    destruct Hlev1 as [[H0 H1] _]. destruct (dpt_ok _ H0 H1) as (e & -> & Hent). cbn [rbind].
    assert (level_in (TS_NEWUMDPRI (set_cpupri (ts_tqexp e) p1))) as Hlev2 by (apply newumdpri_level; apply Hent).
    destruct (float_globpri st ph' t _ k Hg0 Hfl Hr Hlev2) as (st1 & k1 & -> & Hl1 & Et1 & Hfl1 & Hr1). cbn [rbind].
    do 3 eexists. split; [done|]. split; [by eapply ts_leads_trans|done]. }
  cbn [rbind]. destruct (float_set (put_ts t (drop_flag TSBACKQ p2) st2) ph' me t k2 false) as (st' & -> & Hl & _);
    [apply put_good; [apply Hl2|exact Hlev2|rewrite Et2; eauto]|done|done|].
  eexists. split; [done|]. by eapply ts_leads_trans.
Qed.

Lemma forkret_leads st ph me t p k : good st ph → t_proc st !! t = Some p → s_threads (t_sys st) !! t = Some k →
  current (t_sys st) ph me t k →
  ∃ st', ts_forkret ncpus kpreemptpri upreemptpri maxclsyspri rechoose_interval ts_dptbl ts_maxumdpri me t st = Ret st' ∧
    leads st ph st' (upd (CPU me) Dispatching ph).
Proof using Hup Htb.
  intros Hg Hp Hk Hcur. destruct (proj2 Hg t p Hp) as [Hlev _].
  destruct (swtch_leads st ph me t p k Hg Hp Hk Hcur) as (Hl0 & Hfl & _ & Hr). set (ph' := upd (CPU me) Dispatching ph) in *.
  pose proof (proj2 Hl0) as Hg0. unfold Ts.ts_forkret, get_ts. rewrite Hp. cbn [rbind].
  destruct Hlev as [[H0 H1] _]. destruct (dpt_ok _ H0 H1) as (e & -> & Hent). cbn [rbind].
  assert (level_in (TS_NEWUMDPRI (set_cpupri (ts_tqexp e) p))) as Hlev2 by (apply newumdpri_level; apply Hent).
  destruct (full_quantum_ok _ Hlev2) as (eq & -> & _). cbn [rbind]. set (p2 := set_dispwait 0 _).
  destruct (float_globpri st ph' t p2 k Hg0 Hfl Hr) as (st1 & k1 & -> & Hl1 & Et1 & Hfl1 & Hr1); [exact Hlev2|]. cbn [rbind].
  set (st2 := put_ts t (drop_flag TSKPRI p2) st1). assert (good st2 ph') as Hg2 by (apply put_good; [apply Hl1|exact Hlev2|rewrite Et1; eauto]).
  pose proof Hfl1 as (_ & _ & _ & _ & Hpr1).
  destruct (float_chg st2 ph' thread_transition t k1) as (st3 & -> & Hl3 & Et3 & Hfl3); [done..|]. cbn [rbind].
  destruct (setrun_leads st3 ph' me t (drop_flag TSKPRI p2) (thread_transition k1)) as (st4 & -> & Hl4);
    [apply Hl3|rewrite Et3; apply lookup_insert_eq|done|done|].
  eexists. split; [done|]. eapply ts_leads_trans; [exact Hl0|]. eapply ts_leads_trans; [exact Hl1|]. eapply ts_leads_trans; [exact Hl3|done].
Qed.

#[local] Abbreviation ts_preempt :=
  (ts_preempt ncpus kpreemptpri upreemptpri maxclsyspri rechoose_interval ts_dptbl ts_kmdpris ts_maxumdpri).

Lemma ready_dont_swap k : ready k → ready (DONT_SWAP k).
Proof using Type. unfold ready. by rewrite loaded_DONT_SWAP. Qed.

Lemma nopreempt_level v p : level_in p → level_in (schedctl_set_nopreempt v p).
Proof using Type. unfold schedctl_set_nopreempt. by destruct (t_schedctl p) as [[np y]|]. Qed.

(** Sequences of changes of a floating thread. *)
Lemma float_step st ph st1 t k f : leads st ph st1 ph → t_proc st1 = t_proc st → floating st1 ph t k → ready k →
  off_queue (f k) → t_cpu (f k) = t_cpu k → t_cpupart (f k) = t_cpupart k → t_bound_cpu (f k) = t_bound_cpu k → prio_in (f k) →
  ready (f k) → ∃ st2, on_sys (mod_thread f t) st1 = Ret st2 ∧ leads st ph st2 ph ∧ t_proc st2 = t_proc st ∧
    floating st2 ph t (f k) ∧ ready (f k).
Proof using Hup.
  intros Hl Et Hfl Hr ??????. destruct (float_chg st1 ph f t k) as (st2 & Hrun & Hl2 & Et2 & Hfl2); [apply Hl|done..|].
  exists st2. split; [done|]. split; [by eapply ts_leads_trans|]. split; [congruence|done].
Qed.

Lemma preempt_leads st ph me t p k : good st ph → t_proc st !! t = Some p → s_threads (t_sys st) !! t = Some k →
  current (t_sys st) ph me t k → ∃ st', ts_preempt me t st = Ret st' ∧ leads st ph st' (upd (CPU me) Dispatching ph).
Proof using Hup Htb.
  intros Hg Hp Hk Hcur. destruct (proj2 Hg t p Hp) as [Hlev _]. pose proof (tb_max Htb) as (Hm0 & Hm1 & Hm2).
  destruct (swtch_leads st ph me t p k Hg Hp Hk Hcur) as (Hl0 & Hfl & _ & Hr). set (ph' := upd (CPU me) Dispatching ph) in *.
  pose proof (ts_leads_refl _ _ (proj2 Hl0)) as Hl.
  assert (∀ st1 p1 k1 b, leads st ph' st1 ph' → t_proc st1 = t_proc st → floating st1 ph' t k1 → ready k1 → level_in p1 →
    ∃ st', (if b : bool then setfrontdq_ts ncpus kpreemptpri upreemptpri maxclsyspri rechoose_interval me t (put_ts t p1 st1)
      else setbackdq_ts ncpus kpreemptpri upreemptpri maxclsyspri rechoose_interval me t (put_ts t p1 st1)) = Ret st' ∧
      leads st ph st' ph') as Hend.
  { intros st1 p1 k1 b Hl1 Et1 Hfl1 Hr1 Hlev1. destruct (float_set (put_ts t p1 st1) ph' me t k1 b) as (st' & Hrun & Hl' & _);
      [apply put_good; [apply Hl1|done|rewrite Et1; eauto]|done|done|]. exists st'. split; [done|].
    eapply ts_leads_trans; [exact Hl0|]. by eapply ts_leads_trans. }
  unfold Ts.ts_preempt, get_ts. rewrite Hp. cbn [rbind].
  assert (∃ p1 st1 k1, (if negb (has TSKPRI p) && negb (bool_decide (t_lwp p = None)) && truthy (t_kpri_req p) then
      let* pri := zget ts_kmdpris 0 in
      let* st := on_sys (mod_thread (set_tpri pri) t) st in
      let* st := on_sys (aston t) st in
      Ret (set_trapret 1 (raise TSKPRI p), st)
    else Ret (p, st)) = Ret (p1, st1) ∧ leads st ph' st1 ph' ∧ t_proc st1 = t_proc st ∧ floating st1 ph' t k1 ∧ ready k1 ∧ level_in p1)
    as (p1 & st1 & k1 & -> & Hl1 & Et1 & Hfl1 & Hr1 & Hlev1).
  { case_match; [|by exists p, st, k]. destruct (kmpri_ok 0) as (pri & -> & Hpri0 & Hpri1); [lia..|]. cbn [rbind].
    pose proof Hfl as (_ & Hoff & _ & _ & Hpr).
    destruct (float_step st ph' st t k (set_tpri pri)) as (st1 & -> & Hl1 & Et1 & Hfl1 & Hr1); [done..|by apply tpri_in|done|]. cbn [rbind].
    destruct (float_step st ph' st1 t _ (set_astflag 1) Hl1 Et1 Hfl1 Hr1) as (st2 & Hrun & Hl2 & Et2 & Hfl2 & Hr2); [done..|apply Hfl1|done|].
    change (aston t) with (mod_thread (set_astflag 1) t). rewrite Hrun. by do 3 eexists. }
  cbn [rbind].
  assert (∃ st2 k2, (if in_user p1 then on_sys (mod_thread clear_dont_swap t) st1 else Ret st1) = Ret st2 ∧ leads st ph' st2 ph' ∧
    t_proc st2 = t_proc st ∧ floating st2 ph' t k2 ∧ ready k2) as (st2 & k2 & -> & Hl2 & Et2 & Hfl2 & Hr2).
  { destruct (in_user p1); [|by exists st1, k1]. pose proof Hfl1 as (_ & Hoff & _ & _ & Hpr).
    destruct (float_step st ph' st1 t k1 clear_dont_swap Hl1 Et1 Hfl1 Hr1) as (st2 & ? & ?); [done..|by apply ready_clear|].
    by exists st2, (clear_dont_swap k1). }
  cbn [rbind]. pose proof Hfl2 as (_ & Hoff2 & _ & _ & Hpr2).
  destruct (nopreempt p1 && _).
  - destruct (has TSKPRI p1); cbn [negb rbind]; [by apply (Hend st2 p1 k2 true)|].
    destruct (float_step st ph' st2 t k2 (set_tpri ts_maxumdpri) Hl2 Et2 Hfl2 Hr2) as (st3 & -> & Hl3 & Et3 & Hfl3 & Hr3);
      [done..|by apply tpri_in|done|]. cbn [rbind].
    destruct (float_step st ph' st3 t _ DONT_SWAP Hl3 Et3 Hfl3 Hr3) as (st4 & -> & Hl4 & Et4 & Hfl4 & Hr4);
      [done..|apply Hfl3|by apply ready_dont_swap|]. cbn [rbind].
    apply (Hend st4 (schedctl_set_yield 1 p1) _ true Hl4 Et4 Hfl4 Hr4). by apply yield_level.
  - set (p3 := if nopreempt p1 then _ else _). assert (level_in p3) as Hlev3 by (unfold p3; case_match; [by apply nopreempt_level|done]).
    destruct (has TSBACKQ p3); [|by apply (Hend st2 p3 k2 true)].
    destruct (has TSKPRI p3); cbn [rbind]; [by apply (Hend st2 (drop_flag TSBACKQ p3) k2 false)|].
    destruct (full_quantum_ok p3 Hlev3) as (e & -> & _). cbn [rbind]. by apply (Hend st2 _ k2 false).
Qed.

(** ** Once a second, and on request *)

#[local] Abbreviation ts_update_one :=
  (ts_update_one ncpus kpreemptpri upreemptpri maxclsyspri rechoose_interval ts_dptbl ts_maxumdpri).
#[local] Abbreviation ts_parmsset :=
  (ts_parmsset ncpus kpreemptpri upreemptpri maxclsyspri rechoose_interval ts_dptbl ts_maxumdpri).
#[local] Abbreviation ts_donice :=
  (ts_donice ncpus kpreemptpri upreemptpri maxclsyspri rechoose_interval ts_dptbl ts_maxumdpri).
#[local] Abbreviation ia_turn :=
  (ia_turn ncpus kpreemptpri upreemptpri maxclsyspri rechoose_interval ts_dptbl ts_maxumdpri).

(** A structure with a new level is put, and the priority follows. *)
Lemma relevel_leads st ph me t p k p1 : good st ph → t_proc st !! t = Some p → s_threads (t_sys st) !! t = Some k →
  place (t_sys st) ph me t k → level_in p1 →
  ∃ st' p', ts_change_priority me t (put_ts t p1 st) = Ret st' ∧ leads st ph st' ph ∧ t_proc st' = <[t := p']> (t_proc st) ∧ same_level p1 p'.
Proof using Hup Htb.
  intros Hg Hp Hk Hpl Hlev. assert (good (put_ts t p1 st) ph) as Hg1 by (apply put_good; eauto).
  destruct (change_priority_leads (put_ts t p1 st) ph me t p1 k Hg1) as (st' & p' & Hrun & Hl & Et & Hsame);
    [apply lookup_insert_eq|done|done|].
  exists st', p'. split; [done|]. split; [done|]. split; [|done]. rewrite Et. simpl. by rewrite insert_insert_eq.
Qed.

Lemma ast_leads st ph t p : good st ph → t_proc st !! t = Some p →
  ∃ st', on_sys (aston t) st = Ret st' ∧ leads st ph st' ph ∧ t_proc st' = t_proc st.
Proof using Hup.
  intros Hg Hp. destruct (proj2 Hg t p Hp) as [_ (k & Hk & Hpr)]. unfold on_sys, aston, mod_thread. rewrite (tmod_ok _ t _ k) by done.
  cbn [rbind]. eexists. split; [done|]. split; [|done].
  eapply (event_leads (Ast t) st ph _ ph t); [done|by exists k|simpl; unfold aston, mod_thread; by rewrite (tmod_ok _ t _ k)| |].
  - intros u ku Hne Hku Hpu. exists ku. simpl. by rewrite lookup_insert_ne.
  - intros _ _. eexists. split; [apply lookup_insert_eq|done].
Qed.

Lemma update_one_leads st ph me t p k : good st ph → t_proc st !! t = Some p → s_threads (t_sys st) !! t = Some k →
  (t_state k = TS_RUN → place (t_sys st) ph me t k) →
  ∃ st', ts_update_one me t st = Ret st' ∧ leads st ph st' ph.
Proof using Hup Htb.
  intros Hg Hp Hk Hpl. destruct (proj2 Hg t p Hp) as [Hlev _]. assert (is_Some (t_proc st !! t)) as Hs by eauto.
  unfold Ts.ts_update_one, get_ts. rewrite Hp. cbn [rbind].
  destruct (ts_inclass p); cbn [negb]; [|exists st; split; [done|by apply ts_leads_refl]].
  set (p1 := set_dispwait _ p). assert (∃ st', Ret (put_ts t p1 st) = Ret st' ∧ leads st ph st' ph) as Hput.
  { eexists. split; [done|]. apply leads_put; [by apply ts_leads_refl|exact Hlev|done]. }
  destruct (has TSKPRI p1); [done|]. destruct (overdue_ok p1) as [late ->]; [exact Hlev|]. cbn [rbind].
  destruct late; cbn [negb]; [|done]. unfold get_thread, tget. rewrite Hk. cbn [rbind].
  destruct (bool_decide_reflect (t_state k = TS_RUN)) as [Hst|_]; cbn [negb].
  - destruct Hlev as [[H0 H1] _]. change (ts_cpupri p1) with (ts_cpupri p). destruct (dpt_ok _ H0 H1) as (e & -> & Hent). cbn [rbind].
    set (p2 := set_dispwait 0 _). assert (level_in p2) as Hlev2 by (apply (newumdpri_level (ts_lwait e)); apply Hent).
    destruct (globpri_ok p2 Hlev2) as (e2 & -> & _). cbn [rbind]. destruct (t_pri k =? ts_globpri e2); cbn [negb].
    + eexists. split; [done|]. apply leads_put; [by apply ts_leads_refl|done|done].
    + destruct (relevel_leads st ph me t p k p2 Hg Hp Hk) as (st' & p' & -> & Hl & _); [by apply Hpl|done|]. by exists st'.
  - destruct (ast_leads st ph t p Hg Hp) as (st' & Hrun & Hl & Et). erewrite on_sys_put by exact Hrun. eexists. split; [done|].
    apply leads_put; [done|exact Hlev|by rewrite Et].
Qed.

Lemma parmsset_leads st ph me t p k lim upri cred : good st ph → t_proc st !! t = Some p → s_threads (t_sys st) !! t = Some k →
  place (t_sys st) ph me t k →
  ∃ r st' p', ts_parmsset me t lim upri cred st = Ret (r, st') ∧ leads st ph st' ph ∧ t_proc st' !! t = Some p'.
Proof using Hup Htb.
  intros Hg Hp Hk Hpl. destruct (proj2 Hg t p Hp) as [[Hlev _] _]. unfold Ts.ts_parmsset, get_ts. rewrite Hp. cbn [rbind].
  case_match; [do 3 eexists; split; [done|]; split; [by apply ts_leads_refl|done]|].
  set (p1 := set_nice _ _). assert (level_in p1) as Hlev1 by (split; done).
  destruct (has TSKPRI p1).
  - do 3 eexists. split; [done|]. split; [apply leads_put; [by apply ts_leads_refl|done|eauto]|apply lookup_insert_eq].
  - destruct (relevel_leads st ph me t p k (set_dispwait 0 p1) Hg Hp Hk Hpl) as (st' & p' & -> & Hl & Et & _); [exact Hlev1|]. cbn [rbind].
    do 3 eexists. split; [done|]. split; [done|]. rewrite Et. apply lookup_insert_eq.
Qed.

Lemma donice_leads st ph me t p k incr root : good st ph → t_proc st !! t = Some p → s_threads (t_sys st) !! t = Some k →
  place (t_sys st) ph me t k →
  ∃ r st', ts_donice me t incr root st = Ret (r, st') ∧ leads st ph st' ph.
Proof using Hup Htb.
  intros Hg Hp Hk Hpl. unfold Ts.ts_donice, get_ts at 1. rewrite Hp. cbn [rbind].
  destruct (incr =? 0); [do 2 eexists; split; [done|by apply ts_leads_refl]|].
  case_match; [do 2 eexists; split; [done|by apply ts_leads_refl]|]. cbv zeta.
  match goal with |- context [Ts.ts_parmsset _ _ _ _ _ _ _ me t ?lim ?u None st] =>
    destruct (parmsset_leads st ph me t p k lim u None Hg Hp Hk Hpl) as (r & st' & p' & -> & Hl & Hp') end.
  cbn [rbind]. unfold get_ts. rewrite Hp'. cbn [rbind]. do 2 eexists. split; [done|].
  apply leads_put; [done| |eauto]. destruct (proj2 (proj2 Hl) t p' Hp') as [[Hlev E] _]. split; [exact Hlev|exact E].
Qed.

Lemma turn_leads st ph me t p k on : good st ph → t_proc st !! t = Some p → s_threads (t_sys st) !! t = Some k →
  place (t_sys st) ph me t k → ∃ st', ia_turn me on t st = Ret st' ∧ leads st ph st' ph.
Proof using Hup Htb.
  intros Hg Hp Hk Hpl. destruct (proj2 Hg t p Hp) as [[Hlev _] _]. unfold Ts.ia_turn, get_ts. rewrite Hp. cbn [rbind].
  set (p1 := Ts.TS_NEWUMDPRI _ _). assert (level_in p1) as Hlev1 by (unfold p1; destruct on; done).
  destruct (has TSKPRI p1).
  - eexists. split; [done|]. apply leads_put; [by apply ts_leads_refl|done|eauto].
  - destruct (relevel_leads st ph me t p k (set_dispwait 0 p1) Hg Hp Hk Hpl) as (st' & p' & Hrun & Hl & _); [exact Hlev1|].
    by exists st'.
Qed.

(** ** Entering the class *)

#[local] Abbreviation ts_enterclass :=
  (ts_enterclass ncpus kpreemptpri upreemptpri maxclsyspri rechoose_interval ts_dptbl ts_maxumdpri).

Lemma put_new_good st ph t p k : good st ph → level_in p → s_threads (t_sys st) !! t = Some k → prio_in k → good (put_ts t p st) ph.
Proof using Type.
  intros [Hm Ht] Hp Hk Hpr. split; [done|]. intros u pu. simpl. destruct (decide (u = t)) as [->|Hne].
  - rewrite lookup_insert_eq. intros [= <-]. eauto.
  - rewrite lookup_insert_ne by done. apply Ht.
Qed.

Lemma medumdpri_in : 0 ≤ tsmedumdpri ts_maxumdpri ∧ tsmedumdpri ts_maxumdpri ≤ ts_maxumdpri.
Proof using Htb.
  pose proof (tb_max Htb) as (H & _). unfold tsmedumdpri. rewrite Z.shiftr_div_pow2 by lia. change (2 ^ 1) with 2.
  split; [by apply Z.div_pos|apply Z.div_le_upper_bound; lia].
Qed.

Lemma enter_leads st ph me t k ia root group parms buf : good st ph → s_threads (t_sys st) !! t = Some k → prio_in k →
  place (t_sys st) ph me t k →
  ∃ r st', ts_enterclass me t ia root group parms buf st = Ret (r, st') ∧ leads st ph st' ph ∧
    (r = None → is_Some (t_proc st' !! t)).
Proof using Hup Htb.
  intros Hg Hk Hpr Hpl. pose proof medumdpri_in as [H0 H1]. unfold Ts.ts_enterclass.
  assert (∀ e : ts_err, ∃ r st', Ret (Some e, st) = Ret (r, st') ∧ leads st ph st' ph ∧ (r = None → is_Some (t_proc st' !! t))) as Herr.
  { intros e. do 2 eexists. split; [done|]. split; [by apply ts_leads_refl|done]. }
  case_match; [apply Herr|]. set (p0 := if ia then _ else _). cbv zeta. assert (ts_cpupri p0 = tsmedumdpri ts_maxumdpri) as Ep0 by (unfold p0; by destruct ia).
  assert (∀ p1, ts_cpupri p1 = tsmedumdpri ts_maxumdpri → ∃ st',
    ts_change_priority me t (put_ts t (set_timeleft 0 (set_dispwait 0 (TS_NEWUMDPRI p1))) st) = Ret st' ∧ leads st ph st' ph ∧
    is_Some (t_proc st' !! t)) as Hput.
  { intros p1 E1. set (p2 := set_timeleft 0 _). assert (level_in p2) as Hlev by (split; [simpl; by rewrite E1|done]).
    pose proof (put_new_good st ph t p2 k Hg Hlev Hk Hpr) as Hg1.
    destruct (change_priority_leads (put_ts t p2 st) ph me t p2 k Hg1) as (st' & p' & Hrun & Hl & Et & _);
      [apply lookup_insert_eq|done|done|]. exists st'. split; [done|]. split; [done|]. rewrite Et. rewrite lookup_insert_eq. eauto. }
  assert (∀ p1, ts_cpupri p1 = tsmedumdpri ts_maxumdpri → ∃ r st', (let* st0 := ts_change_priority me t
      (put_ts t (set_timeleft 0 (set_dispwait 0 (TS_NEWUMDPRI p1))) st) in Ret (@None ts_err, with_ts_list (t :: ts_list st0) st0)) =
      Ret (r, st') ∧ leads st ph st' ph ∧ (r = None → is_Some (t_proc st' !! t))) as Hin.
  { intros p1 E1. destruct (Hput p1 E1) as (st' & -> & Hl & Hs). do 2 eexists. split; [done|]. by split. }
  destruct parms as [[lim upri]|]; [|by apply Hin].
  destruct (negb (lim =? TS_NOCHANGE) && (0 <? lim) && negb root); [apply Herr|].
  destruct (negb (upri =? TS_NOCHANGE) && (0 <? upri) && negb root); [apply Herr|]. by apply Hin.
Qed.

Lemma fork_leads st ph t p ct ck buf : good st ph → t_proc st !! t = Some p → s_threads (t_sys st) !! ct = Some ck → prio_in ck →
  ∃ st', ts_fork ts_dptbl ts_maxumdpri t ct buf st = Ret st' ∧ leads st ph st' ph ∧ is_Some (t_proc st' !! ct).
Proof using Hup Htb.
  intros Hg Hp Hck Hpr. destruct (proj2 Hg t p Hp) as [[[H0 H1] _] _]. unfold ts_fork, get_ts. rewrite Hp. cbn [rbind].
  destruct (dpt_ok _ H0 H1) as (e & -> & _). cbn [rbind]. set (cp := set_flags (ts_flags p) _).
  assert (level_in cp) as Hlev by done.
  destruct (has TSKPRI cp); cbn [rbind].
  - pose proof (put_new_good st ph ct (set_trapret 1 cp) ck Hg Hlev Hck Hpr) as Hg1.
    destruct (ast_leads (put_ts ct (set_trapret 1 cp) st) ph ct _ Hg1 (lookup_insert_eq _ _ _)) as (st' & Hrun & Hl & Et).
    assert (∃ st1, on_sys (aston ct) st = Ret st1 ∧ st' = put_ts ct (set_trapret 1 cp) st1) as (st1 & -> & ->).
    { revert Hrun. unfold on_sys. simpl. destruct (aston ct (t_sys st)); simpl; [|done|done]. intros [= <-]. by eexists. }
    eexists. split; [done|]. split; [exact Hl|]. simpl. rewrite lookup_insert_eq. eauto.
  - eexists. split; [done|]. split; [|simpl; rewrite lookup_insert_eq; eauto]. split; [constructor|]. by apply put_new_good with ck.
Qed.

Lemma exit_leads st ph t : good st ph → leads st ph (ts_exitclass t st) ph.
Proof using Type.
  intros [Hm Ht]. split; [constructor|]. split; [done|]. intros u p Hp. simpl in *. apply lookup_delete_Some in Hp as [_ Hp].
  by apply (Ht u p).
Qed.

(** ** Runnable threads *)

Lemma set_prio st ph me t k (b : bool) st' : good st ph → floating st ph t k → ready k →
  (if b then setfrontdq_ts ncpus kpreemptpri upreemptpri maxclsyspri rechoose_interval me t st
    else setbackdq_ts ncpus kpreemptpri upreemptpri maxclsyspri rechoose_interval me t st) = Ret st' →
  ∃ k', s_threads (t_sys st') !! t = Some k' ∧ DISP_PRIO k' = DISP_PRIO k.
Proof using Hup.
  intros Hg (Hk & Hoff & Hn & Hcl & Hp) Hr Hrun. pose proof Hg as [[[Q Hs] _] _]. simpl in Hs.
  assert (wakeable npri k) as Hw by (destruct Hr as [[??]|[??]]; [by left|by right]).
  destruct (set_steps ncpus kpreemptpri upreemptpri maxclsyspri rechoose_interval npri Hup _ Q me t k Hs Hk Hw)
    as [(s1 & Q1 & H1 & He1) (s2 & Q2 & H2 & He2)].
  assert (∃ s Q', t_sys st' = s ∧ effect npri None t (t_sys st) s Q') as (s & Q' & -> & He).
  { unfold setbackdq_ts, setfrontdq_ts, on_sys in Hrun. rewrite H1, H2 in Hrun. destruct b; cbn [rbind] in Hrun; injection Hrun as <-; eauto. }
  destruct (ke_threads _ _ (ef_keeps _ _ _ _ _ _ He)) as [Hth Hdom]. destruct (Hdom t) as [k' Hk']; [eauto|]. exists k'. split; [done|].
  destruct (Hth t k' Hk') as (k0 & Hk0 & _ & _ & _ & E). rewrite Hk in Hk0. by injection Hk0 as <-.
Qed.

(** [ts_change_priority] for a thread that waits on a queue, or for the swapper. *)
Lemma change_priority_run st ph me t p k e : good st ph → t_proc st !! t = Some p → s_threads (t_sys st) !! t = Some k →
  place (t_sys st) ph me t k → t_state k = TS_RUN → dpt ts_dptbl (ts_umdpri p) = Ret e →
  ∃ st' k', ts_change_priority me t st = Ret st' ∧ s_threads (t_sys st') !! t = Some k' ∧
    DISP_PRIO k' = DISP_PRIO (set_tpri (ts_globpri e) k).
Proof using Hup Htb.
  intros Hg Hp Hk Hpl Hrun He. destruct (proj2 Hg t p Hp) as [Hlev (k0 & Hk0 & Hpr)]. rewrite Hk in Hk0. injection Hk0 as <-.
  destruct (globpri_ok p Hlev) as (e0 & He0 & Hent). rewrite He in He0. injection He0 as <-. destruct (full_quantum_ok p Hlev) as (eq & Hfq & _).
  unfold Ts.ts_change_priority, get_ts. rewrite Hp. cbn [rbind]. unfold get_thread at 1, tget. rewrite Hk. cbn [rbind].
  unfold Ts.set_globpri. rewrite He. cbn [rbind].
  destruct (deq_floats st ph me t k Hg Hk Hpr Hpl) as [(c & (_ & Hst & _) & _)|(Hcur & Hst & b & s1 & k1 & Hdeq & Hl1 & Hfl & Hready & Est & Eep & Hb)];
    [congruence|]. specialize (Hb Hrun) as ->. specialize (Hready eq_refl).
  rewrite (proj2 (Z.eqb_neq t (curthread me))) by congruence. rewrite bool_decide_eq_false_2 by done. cbn [orb].
  rewrite Hdeq. cbn [rbind]. set (st1 := Tstate s1 (t_proc st) (ts_list st)) in *. pose proof Hfl as (_ & Hoff1 & _ & _ & Hpr1).
  destruct (float_chg st1 ph (set_tpri (ts_globpri e)) t k1) as (st2 & -> & Hl2 & Et2 & Hfl2);
    [apply Hl1|done|done|done|done|done|apply tpri_in; [done|apply Hent..]|]. cbn [rbind]. rewrite Hfq. cbn [rbind].
  assert (good (put_ts t (set_timeleft (ts_quantum eq) p) st2) ph) as Hg2 by (apply put_good; [apply Hl2|exact Hlev|rewrite Et2; simpl; eauto]).
  destruct (float_set (put_ts t (set_timeleft (ts_quantum eq) p) st2) ph me t (set_tpri (ts_globpri e) k1)
    (has TSIASET (set_timeleft (ts_quantum eq) p)) Hg2) as (st3 & Hst3 & _); [done..|].
  destruct (set_prio _ ph me t _ _ st3 Hg2 Hfl2 Hready Hst3) as (k' & Hk' & E). exists st3, k'. split; [done|]. split; [done|].
  rewrite E. unfold DISP_PRIO, INHERITED. simpl. by rewrite Eep.
Qed.

(** Once a second. *)
Lemma update_one_waits st me t p e : t_proc st !! t = Some p → ts_inclass p = true → has TSKPRI p = false →
  dpt ts_dptbl (ts_umdpri p) = Ret e → 0 ≤ ts_dispwait p → ts_dispwait p < ts_maxwait e → ts_maxwait e < 2 ^ 31 →
  ts_update_one me t st = Ret (put_ts t (set_dispwait (ts_dispwait p + 1) p) st).
Proof using Type.
  intros Hp Hin Hk He H0 H1 H2. unfold Ts.ts_update_one, get_ts. rewrite Hp. cbn [rbind]. rewrite Hin. cbn [negb].
  assert (s32 (ts_dispwait p + 1) = ts_dispwait p + 1) as -> by (apply s32_id; unfold in_s32; lia).
  change (has TSKPRI (set_dispwait (ts_dispwait p + 1) p)) with (has TSKPRI p). rewrite Hk. unfold Ts.overdue. simpl. rewrite He. cbn [rbind].
  by rewrite (proj2 (Z.ltb_ge _ _)) by (simpl; lia).
Qed.

Lemma update_one_boosts st ph me t p k e el : good st ph → t_proc st !! t = Some p → s_threads (t_sys st) !! t = Some k →
  place (t_sys st) ph me t k → t_state k = TS_RUN → ts_inclass p = true → has TSKPRI p = false →
  dpt ts_dptbl (ts_umdpri p) = Ret e → dpt ts_dptbl (ts_cpupri p) = Ret el →
  0 ≤ ts_dispwait p → ts_maxwait e ≤ ts_dispwait p → ts_dispwait p < 2 ^ 31 - 1 →
  ∃ st' p' k' e', ts_update_one me t st = Ret st' ∧ t_proc st' !! t = Some p' ∧
    same_level (set_dispwait 0 (TS_NEWUMDPRI (set_cpupri (ts_lwait el) p))) p' ∧ s_threads (t_sys st') !! t = Some k' ∧
    dpt ts_dptbl (ts_umdpri p') = Ret e' ∧ DISP_PRIO k' = DISP_PRIO (set_tpri (ts_globpri e') k).
Proof using Hup Htb.
  intros Hg Hp Hk Hpl Hrun Hin Hkp He Hel H0 H1 H2. unfold Ts.ts_update_one, get_ts. rewrite Hp. cbn [rbind]. rewrite Hin. cbn [negb].
  assert (s32 (ts_dispwait p + 1) = ts_dispwait p + 1) as -> by (apply s32_id; unfold in_s32; lia).
  change (has TSKPRI (set_dispwait (ts_dispwait p + 1) p)) with (has TSKPRI p). rewrite Hkp.
  unfold Ts.overdue at 1. change (ts_umdpri (set_dispwait (ts_dispwait p + 1) p)) with (ts_umdpri p). rewrite He. cbn [rbind]. rewrite (proj2 (Z.ltb_lt _ _)) by (simpl; lia). cbn [negb].
  unfold get_thread, tget. rewrite Hk. cbn [rbind]. rewrite bool_decide_eq_true_2 by done. cbn [negb]. change (ts_cpupri (set_dispwait (ts_dispwait p + 1) p)) with (ts_cpupri p). rewrite Hel. cbn [rbind].
  set (p2 := set_dispwait 0 (TS_NEWUMDPRI (set_cpupri (ts_lwait el) (set_dispwait (ts_dispwait p + 1) p)))). destruct (proj2 Hg t p Hp) as [[[Hc0 Hc1] _] (k0 & Hk0 & Hpr)]. rewrite Hk in Hk0. injection Hk0 as <-.
  destruct (dpt_ok _ Hc0 Hc1) as (el' & Hel' & Hent). rewrite Hel in Hel'. injection Hel' as <-.
  assert (level_in p2) as Hlev2 by (apply (newumdpri_level (ts_lwait el)); apply Hent).
  destruct (globpri_ok p2 Hlev2) as (e2 & He2 & _). rewrite He2. cbn [rbind].
  destruct (Z.eqb_spec (t_pri k) (ts_globpri e2)) as [E|_]; cbn [negb].
  - do 4 eexists. split; [done|]. split; [apply lookup_insert_eq|]. split; [done|]. split; [exact Hk|]. split; [exact He2|].
    rewrite <-E. by destruct k.
  - assert (good (put_ts t p2 st) ph) as Hg2 by (apply put_good; eauto).
    destruct (relevel_leads st ph me t p k p2 Hg Hp Hk Hpl Hlev2) as (st' & p' & Hx & _ & Et & Hsame).
    destruct (change_priority_run (put_ts t p2 st) ph me t p2 k e2 Hg2 (lookup_insert_eq _ _ _) Hk Hpl Hrun He2) as (st1 & k' & Hx1 & Hk' & Hp').
    rewrite Hx in Hx1. injection Hx1 as <-. exists st', p', k', e2. split; [done|]. split; [rewrite Et; apply lookup_insert_eq|].
    split; [done|]. split; [done|]. split; [|done]. by destruct Hsame as (_ & -> & _).
Qed.
End TsSched.
