(* ===== verification/TsMachine.v ===== *)
(** * The class and the dispatcher as one machine

    The operations of the class, each from taking the thread's lock to dropping it, and the
    events of the dispatcher, by any processors in any order: what holds in every state that
    they reach. *)

From S2P Require Import Prelude Bitmap Dispq DispqOps Disp DispInv DispSteps DispSched Ts TsSched.

(** ** The machine *)

(** By processor [me] on thread [t], unless it is an event of the dispatcher. *)
Inductive ts_op :=
| OpTick (me : ctx) (t : Z)
| OpPreempt (me : ctx) (t : Z)
| OpYield (me : ctx) (t : Z)
| OpSleep (me : ctx) (t disp : Z)
| OpForkret (me : ctx) (t : Z)
| OpSetrun (me : ctx) (t : Z)
| OpWakeup (me : ctx) (t : Z)
| OpTrapret (me : ctx) (t : Z)
| OpUpdate (me : ctx) (t : Z)
| OpParmsset (me : ctx) (t uprilim upri : Z) (cred : option bool)
| OpDonice (me : ctx) (t incr : Z) (root : bool)
| OpTurn (me : ctx) (on : bool) (t : Z)
| OpEnter (me : ctx) (t : Z) (ia root group : bool) (parms : option (Z * Z)) (buf : tsproc)
| OpFork (t ct : Z) (buf : tsproc)
| OpExit (t : Z)
| OpDisp (e : event).

Record tmach := Tmach { tm_st : tstate; tm_phase : Z → phase }.

(** The thread whose structure the operation writes. *)
Definition op_thread (op : ts_op) : option Z :=
  match op with
  | OpTick _ t | OpPreempt _ t | OpYield _ t | OpSleep _ t _ | OpForkret _ t | OpSetrun _ t | OpWakeup _ t | OpTrapret _ t
  | OpUpdate _ t | OpParmsset _ t _ _ _ | OpDonice _ t _ _ | OpTurn _ _ t | OpEnter _ t _ _ _ _ _ | OpExit t => Some t
  | OpFork _ ct _ => Some ct
  | OpDisp _ => None
  end.

Section TsMachine.
Context (ncpus kpreemptpri upreemptpri maxclsyspri rechoose_interval npri : Z).
Context (ts_dptbl : list tsdpent) (ts_kmdpris : list Z) (ts_maxumdpri ts_maxkmdpri maxglobpri : Z).

#[local] Abbreviation on_disp f := (f ncpus kpreemptpri upreemptpri maxclsyspri rechoose_interval).
#[local] Abbreviation tables_ok := (tables_ok npri ts_dptbl ts_kmdpris ts_maxumdpri ts_maxkmdpri maxglobpri).
#[local] Abbreviation good := (good npri ts_maxumdpri).

(** The operation on the state; those of the thread that gives up its processor leave the processor
    on its way to [disp]. *)
Definition off_cpu (me : ctx) (ph : Z → phase) (r : run tstate) : run tmach :=
  let* st := r in Ret (Tmach st (upd (CPU me) Dispatching ph)).
Definition stays (ph : Z → phase) (r : run tstate) : run tmach := let* st := r in Ret (Tmach st ph).

Definition ts_exec (op : ts_op) (m : tmach) : run tmach :=
  let 'Tmach st ph := m in
  match op with
  | OpTick me t => stays ph (on_disp ts_tick ts_dptbl ts_maxumdpri me t st)
  | OpPreempt me t => off_cpu me ph (on_disp ts_preempt ts_dptbl ts_kmdpris ts_maxumdpri me t st)
  | OpYield me t => off_cpu me ph (on_disp ts_yield ts_dptbl ts_maxumdpri me t st)
  | OpSleep me t disp => off_cpu me ph (ts_sleep kpreemptpri ts_dptbl ts_kmdpris ts_maxumdpri ts_maxkmdpri me t disp st)
  | OpForkret me t => off_cpu me ph (on_disp ts_forkret ts_dptbl ts_maxumdpri me t st)
  | OpSetrun me t => stays ph (on_disp ts_setrun ts_dptbl ts_maxumdpri me t st)
  | OpWakeup me t => stays ph (on_disp ts_wakeup ts_dptbl ts_maxumdpri me t st)
  | OpTrapret me t => stays ph (let* (_, st) := ts_trapret kpreemptpri ts_dptbl ts_maxumdpri me t st in Ret st)
  | OpUpdate me t => stays ph (on_disp ts_update_one ts_dptbl ts_maxumdpri me t st)
  | OpParmsset me t lim upri cred => stays ph (let* (_, st) := on_disp ts_parmsset ts_dptbl ts_maxumdpri me t lim upri cred st in Ret st)
  | OpDonice me t incr root => stays ph (let* (_, st) := on_disp ts_donice ts_dptbl ts_maxumdpri me t incr root st in Ret st)
  | OpTurn me on t => stays ph (on_disp ia_turn ts_dptbl ts_maxumdpri me on t st)
  | OpEnter me t ia root group parms buf =>
      stays ph (let* (_, st) := on_disp ts_enterclass ts_dptbl ts_maxumdpri me t ia root group parms buf st in Ret st)
  | OpFork t ct buf => stays ph (ts_fork ts_dptbl ts_maxumdpri t ct buf st)
  | OpExit t => Ret (Tmach (ts_exitclass t st) ph)
  | OpDisp e =>
      let* m := exec ncpus kpreemptpri upreemptpri maxclsyspri rechoose_interval e (Mach (t_sys st) ph) in
      Ret (Tmach (Tstate (m_sys m) (t_proc st) (ts_list st)) (m_phase m))
  end.

(** The thread is where its lock says, in the state the caller has it in. *)
Definition locked (st : tstate) (ph : Z → phase) (me : ctx) (t : Z) : Prop :=
  ∃ k, s_threads (t_sys st) !! t = Some k ∧ place (t_sys st) ph me t k.
Definition running (st : tstate) (ph : Z → phase) (me : ctx) (t : Z) : Prop :=
  ∃ k, s_threads (t_sys st) !! t = Some k ∧ current (t_sys st) ph me t k.
Definition waking (st : tstate) (ph : Z → phase) (t : Z) : Prop := ∃ k, floating npri st ph t k ∧ ready k.
Definition in_class (st : tstate) (t : Z) : Prop := is_Some (t_proc st !! t).

Definition ts_enabled (op : ts_op) (m : tmach) : Prop :=
  let 'Tmach st ph := m in
  match op with
  | OpTick me t => in_class st t ∧ ∃ k q, s_threads (t_sys st) !! t = Some k ∧ place (t_sys st) ph me t k ∧
      t_disp_queue k = Some q ∧ is_Some (disp_of (t_sys st) q)
  | OpPreempt me t | OpYield me t | OpForkret me t => in_class st t ∧ running st ph me t
  | OpSleep me t disp => in_class st t ∧ running st ph me t ∧ 0 ≤ disp
  | OpSetrun me t | OpWakeup me t => in_class st t ∧ waking st ph t
  | OpTrapret me t => in_class st t ∧ ∃ k c, s_threads (t_sys st) !! t = Some k ∧ on_cpu (t_sys st) ph t c k
  | OpUpdate me t => in_class st t ∧ ∃ k, s_threads (t_sys st) !! t = Some k ∧ (t_state k = TS_RUN → place (t_sys st) ph me t k)
  | OpParmsset me t _ _ _ | OpDonice me t _ _ | OpTurn me _ t => in_class st t ∧ locked st ph me t
  | OpEnter me t _ _ _ _ _ => ¬ in_class st t ∧ ∃ k, s_threads (t_sys st) !! t = Some k ∧ prio_in npri k ∧ place (t_sys st) ph me t k
  | OpFork t ct _ => in_class st t ∧ ¬ in_class st ct ∧ ∃ k, s_threads (t_sys st) !! ct = Some k ∧ prio_in npri k
  | OpExit t => in_class st t
  | OpDisp e => enabled npri e (Mach (t_sys st) ph) ∧ ∀ t k, e = Change t k → in_class st t → prio_in npri k
  end.

Inductive ts_steps : tmach → list ts_op → tmach → Prop :=
| steps_nil m : ts_steps m [] m
| steps_cons m m1 m2 op ops : ts_enabled op m → ts_exec op m = Ret m1 → ts_steps m1 ops m2 → ts_steps m (op :: ops) m2.

(** ** Events of the dispatcher *)

(** No routine changes the priority that a thread is dispatched at, but the two that are to. *)
Lemma event_keeps e s ph s' ph' : upreemptpri ≤ 0 → mach_ok npri (Mach s ph) → enabled npri e (Mach s ph) →
  exec ncpus kpreemptpri upreemptpri maxclsyspri rechoose_interval e (Mach s ph) = Ret (Mach s' ph') →
  keeps s s' ∨ (∃ t k, e = Change t k) ∨ ∃ me u t pri b, e = Reprio me u t pri b.
Proof using Type.
  intros Hup Hm He Hx. pose proof Hm as [[Q Hs] Hok]. simpl in Hs, Hok.
  destruct e as [me tp|me tp|tp|tp k|me u tp pri b|tp|c|me q|me|me|me|me]; simpl in He, Hx;
    try (right; left; by eauto); try (right; right; by eauto 10); left.
  - destruct He as (k & Hk & Hw & _). destruct (set_steps ncpus kpreemptpri upreemptpri maxclsyspri rechoose_interval npri Hup s Q me tp k)
      as [(s1 & Q1 & E & Hef) _]; [done..|]. rewrite E in Hx. injection Hx as <- _. apply Hef.
  - destruct He as (k & Hk & Hw & _). destruct (set_steps ncpus kpreemptpri upreemptpri maxclsyspri rechoose_interval npri Hup s Q me tp k)
      as [_ (s1 & Q1 & E & Hef)]; [done..|]. rewrite E in Hx. injection Hx as <- _. apply Hef.
  - destruct He as (k & q & Hk & Hl). destruct (dispdeq_sys_ok npri s Q tp k q Hs Hk Hl) as (_ & _ & s1 & E & Hef & _).
    rewrite E in Hx. injection Hx as <- _. apply Hef.
  - destruct He as [k Hk]. destruct (aston_mild tp k s Hk) as (s1 & E & Hmild & _). rewrite E in Hx. injection Hx as <- _.
    by apply mild_keeps.
  - injection Hx as <- _. apply keeps_refl.
  - destruct He as ([cp Hc] & _ & [dp Hq]). destruct (getbest_sys npri s Q me q dp cp Hs Hq Hc) as (r & s1 & E & Hr).
    rewrite E in Hx. cbn [rbind] in Hx. injection Hx as <- _. destruct r; [|eapply (ef_keeps _ None 0), Hr].
    destruct Hr as (p & k & k' & cp' & _ & _ & _ & _ & _ & _ & _ & _ & _ & _ & Hef). apply Hef.
  - destruct He as (cp & Hc & _ & Hp). destruct (own_sys npri s Q me cp Hs Hc Hp) as (tp & s1 & k & k' & cp' & l & E & _ & _ & _ & _ & _ & _ & _ & Hef).
    rewrite E in Hx. cbn [rbind] in Hx. injection Hx as <- _. apply Hef.
  - destruct He as ([cp Hc] & _). destruct (idle_sys npri s Q me cp Hs Hc) as (tp & s1 & E & _ & Hef & _).
    rewrite E in Hx. cbn [rbind] in Hx. injection Hx as <- _. apply Hef.
  - destruct He as ([cp Hc] & t & Hph). rewrite Hph in Hx. destruct (ratify_clear_sys npri s Q me cp Hs Hc) as (s1 & E & Hef & _).
    rewrite E in Hx. cbn [rbind] in Hx. injection Hx as <- _. apply (Hef 0).
  - destruct He as ([cp Hc] & [t Hph] & Hcur). rewrite Hph in Hx. unfold get_cpu in Hx. rewrite Hc in Hx. cbn [rbind] in Hx.
    destruct (chosen_ok npri _ _ _ t (Hok (CPU me) ltac:(eauto)) ltac:(by right)) as (cp0 & k & Hcp0 & Et & Hk & Htk & Hp0 & Hp1).
    rewrite Hc in Hcp0. injection Hcp0 as <-.
    destruct (ratify_check_sys ncpus kpreemptpri upreemptpri maxclsyspri rechoose_interval npri s Q me t k cp)
      as (pt & _ & Hr); [done..|]. cbv zeta in Hr.
    destruct (DISP_PRIO k <? Z.max (disp_maxrunpri (cpu_disp cp)) (disp_maxrunpri (cp_kp_queue pt))).
    + destruct Hr as (s1 & q & E & _ & Hef). rewrite E in Hx. cbn [rbind] in Hx. injection Hx as <- _. apply Hef.
    + rewrite Hr in Hx. cbn [rbind] in Hx. injection Hx as <- _. apply keeps_refl.
Qed.

Lemma event_prio e s ph s' ph' t k : upreemptpri ≤ 0 → mach_ok npri (Mach s ph) → enabled npri e (Mach s ph) →
  exec ncpus kpreemptpri upreemptpri maxclsyspri rechoose_interval e (Mach s ph) = Ret (Mach s' ph') →
  s_threads s !! t = Some k → prio_in npri k → (∀ k', e = Change t k' → prio_in npri k') →
  ∃ k', s_threads s' !! t = Some k' ∧ prio_in npri k'.
Proof using Type.
  intros Hup Hm He Hx Hk Hp Hch. destruct (event_keeps e s ph s' ph' Hup Hm He Hx) as [Hke|[(tp & k1 & ->)|(me & u & tp & pri & b & ->)]].
  - by eapply keeps_prio.
  - simpl in Hx. destruct He as (k0 & Hk0 & _). simpl in Hk0. unfold mod_thread in Hx. rewrite (tmod_ok _ tp _ k0) in Hx by done.
    cbn [rbind] in Hx. injection Hx as <- _. simpl. destruct (decide (tp = t)) as [->|Hne].
    + rewrite lookup_insert_eq. eexists. split; [done|]. by apply Hch.
    + rewrite lookup_insert_ne by done. eauto.
  - destruct He as (k0 & c & cp & Hk0 & Hoff & Hst & Hq & Hc & H0 & H1 & Hcpus & Hb). simpl in *. pose proof Hm as [[Q Hs] _].
    unfold mod_thread in Hx. rewrite (tmod_ok _ tp _ k0) in Hx by done. cbn [rbind] in Hx. set (s1 := with_threads _ s) in Hx.
    assert (sys_ok npri s1 Q) as Hs1.
    { apply (change_ok npri _ Q tp k0); try done; [by apply (so_refs _ _ _ Hs tp k0)|]. intros d cd Hd. by apply (Hcpus d cd). }
    assert (mild s1 s') as Hmild.
    { destruct b; cbn [rbind] in Hx; [|injection Hx as <- _; apply mild_refl].
      destruct (surrender_ok kpreemptpri npri s1 Q me u tp (set_tpri pri k0) c cp Hs1) as (s2 & E & Hm2 & _);
        [apply lookup_insert_eq|done..|]. rewrite E in Hx. cbn [rbind] in Hx. by injection Hx as <- _. }
    eapply (keeps_prio npri s1 s' t (if decide (tp = t) then set_tpri pri k0 else k)); [by apply mild_keeps| |].
    + simpl. destruct (decide (tp = t)) as [->|Hne]; [apply lookup_insert_eq|by rewrite lookup_insert_ne].
    + by destruct (decide (tp = t)).
Qed.

(** ** Each operation *)

#[local] Abbreviation reachable := (reachable ncpus kpreemptpri upreemptpri maxclsyspri rechoose_interval npri).
Context (Hup : upreemptpri ≤ 0) (Htb : tables_ok).

(** It does not fault, the dispatcher sees events that it allows, and what holds goes on to hold. *)
Definition op_ends (op : ts_op) (m : tmach) : Prop :=
  ∃ st' ph', ts_exec op m = Ret (Tmach st' ph') ∧ good st' ph' ∧
    reachable (Mach (t_sys (tm_st m)) (tm_phase m)) (Mach (t_sys st') ph').

Lemma stays_ends op st ph (r : run tstate) : ts_exec op (Tmach st ph) = stays ph r →
  (∃ st', r = Ret st' ∧ leads ncpus kpreemptpri upreemptpri maxclsyspri rechoose_interval npri ts_maxumdpri st ph st' ph) → op_ends op (Tmach st ph).
Proof using Type. intros E (st' & -> & Hr & Hg). exists st', ph. by rewrite E. Qed.

Lemma off_ends op me st ph (r : run tstate) : ts_exec op (Tmach st ph) = off_cpu me ph r →
  (∃ st', r = Ret st' ∧
    leads ncpus kpreemptpri upreemptpri maxclsyspri rechoose_interval npri ts_maxumdpri st ph st' (upd (CPU me) Dispatching ph)) →
  op_ends op (Tmach st ph).
Proof using Type. intros E (st' & -> & Hr & Hg). exists st', (upd (CPU me) Dispatching ph). by rewrite E. Qed.

Lemma op_disp_ends e st ph : good st ph → ts_enabled (OpDisp e) (Tmach st ph) → op_ends (OpDisp e) (Tmach st ph).
Proof using Hup.
  intros Hg [He Hch]. pose proof Hg as [Hm Ht].
  destruct (event_preserves ncpus kpreemptpri upreemptpri maxclsyspri rechoose_interval npri Hup e _ Hm He) as ([s' ph'] & Hx & Hm').
  exists (Tstate s' (t_proc st) (ts_list st)), ph'. split; [unfold ts_exec; by rewrite Hx|]. split; [|by eapply reach_step; [constructor|..]].
  split; [done|]. intros t p Hp. destruct (Ht t p Hp) as [Hlev (k & Hk & Hpr)]. split; [done|].
  eapply (event_prio e); [done|exact Hm|done|exact Hx|done|done|]. intros k' ->. eapply Hch; [done|by exists p].
Qed.

Lemma op_ok op m : good (tm_st m) (tm_phase m) → ts_enabled op m → op_ends op m.
Proof using Hup Htb.
  destruct m as [st ph]. intros Hg He. simpl in Hg.
  destruct op; try (by apply op_disp_ends); destruct He as [Hin He]; try destruct Hin as [p Hp];
    try (eapply stays_ends; [reflexivity|]); try (eapply off_ends; [reflexivity|]).
  - destruct He as (k & q & Hk & Hpl & Hq & Hd). eapply tick_leads; eauto. intros q' Hq'. congruence.
  - destruct He as (k & Hk & Hcur). by eapply preempt_leads.
  - destruct He as (k & Hk & Hcur). by eapply yield_leads.
  - destruct He as ((k & Hk & Hcur) & Hd). by eapply sleep_leads.
  - destruct He as (k & Hk & Hcur). by eapply forkret_leads.
  - destruct He as (k & Hfl & Hr). by eapply setrun_leads.
  - destruct He as (k & Hfl & Hr). by eapply wakeup_leads.
  - destruct He as (k & c & Hk & Hcpu).
    edestruct trapret_leads as (b & st' & E & Hl); [done..|]. rewrite E. by exists st'.
  - destruct He as (k & Hk & Hpl). by eapply update_one_leads.
  - destruct He as (k & Hk & Hpl). edestruct parmsset_leads as (r & st' & p' & E & Hl & _); [done..|]. rewrite E. by exists st'.
  - destruct He as (k & Hk & Hpl). edestruct donice_leads as (r & st' & E & Hl); [done..|]. rewrite E. by exists st'.
  - destruct He as (k & Hk & Hpl). by eapply turn_leads.
  - destruct He as (k & Hk & Hpr & Hpl). edestruct enter_leads as (r & st' & E & Hl & _); [done..|]. rewrite E. by exists st'.
  - destruct He as (Hnin & k & Hk & Hpr). edestruct fork_leads as (st' & E & Hl & _); [done..|]. rewrite E. by exists st'.
  - destruct (exit_leads ncpus kpreemptpri upreemptpri maxclsyspri rechoose_interval npri ts_maxumdpri st ph t) as [Hr Hg']; [done|].
    by exists (ts_exitclass t st), ph.
Qed.

(** ** What an operation leaves alone *)

(** The structures of the other threads, and the list. *)
Record kept (t : Z) (st st' : tstate) : Prop := {
  kp_list : ts_list st' = ts_list st;
  kp_other u : u ≠ t → t_proc st' !! u = t_proc st !! u;
  kp_self : is_Some (t_proc st !! t) → is_Some (t_proc st' !! t)
}.

Lemma kept_refl t st : kept t st st.
Proof using Type. by split. Qed.

Lemma kept_put t st st' p : kept t st st' → kept t st (put_ts t p st').
Proof using Type.
  intros [H1 H2 H3]. split; [done| |]; simpl.
  - intros u Hu. rewrite lookup_insert_ne by done. by apply H2.
  - intros _. rewrite lookup_insert_eq. eauto.
Qed.

Lemma kept_trans t st st1 st2 : kept t st st1 → kept t st1 st2 → kept t st st2.
Proof using Type.
  intros [A1 A2 A3] [B1 B2 B3]. split; [congruence| |by auto]. intros u Hu. rewrite B2, A2 by done. done.
Qed.

Lemma on_sys_kept t st0 f st st' : on_sys f st = Ret st' → kept t st0 st → kept t st0 st'.
Proof using Type. unfold on_sys. intros H [H1 H2 H3]. destruct (f (t_sys st)); [|done|done]. injection H as <-. by split. Qed.

Lemma sys_kept t st0 st s : kept t st0 st → kept t st0 (Tstate s (t_proc st) (ts_list st)).
Proof using Type. intros [H1 H2 H3]. by split. Qed.

(** The steps of a run that has ended. *)
Ltac run_inv := repeat match goal with
  | H : (let* _ := ?r in _) = Ret _ |- _ => let E := fresh "E" in destruct r eqn:E; cbn [rbind] in H; [|discriminate H|discriminate H]
  | H : (let '(_, _) := ?p in _) = Ret _ |- _ => destruct p
  | H : (if ?b then _ else _) = Ret _ |- _ => destruct b
  | H : Ret _ = Ret _ |- _ => injection H; clear H; intros; subst
  end.
Ltac kept_tac := repeat first
  [ eassumption | apply kept_refl | apply kept_put | apply sys_kept
  | match goal with H : on_sys _ ?a = Ret ?b |- kept _ _ ?b => apply (on_sys_kept _ _ _ _ _ H) end ].

Lemma globpri_kept t u st0 p st st' : set_globpri ts_dptbl u p st = Ret st' → kept t st0 st → kept t st0 st'.
Proof using Type. unfold set_globpri. intros H ?. run_inv. kept_tac. Qed.

Lemma change_kept me t st0 st st' : on_disp ts_change_priority ts_dptbl me t st = Ret st' → kept t st0 st → kept t st0 st'.
Proof using Type.
  unfold ts_change_priority, setbackdq_ts, setfrontdq_ts, surrender_ts. intros H ?. cbv zeta in H. run_inv;
    match goal with H : set_globpri _ _ _ _ = _ |- _ => eapply globpri_kept in H end; kept_tac.
Qed.

(** Closes the goals that follow from what the parts of a run keep. *)
Ltac kept_step := repeat first
  [ eassumption | apply kept_refl | apply kept_put | apply sys_kept
  | match goal with
    | H : on_sys _ ?a = Ret ?b |- kept _ _ ?b => apply (on_sys_kept _ _ _ _ _ H)
    | H : set_globpri _ _ _ ?a = Ret ?b |- kept _ _ ?b => apply (globpri_kept _ _ _ _ _ _ H)
    | H : on_disp ts_change_priority _ _ _ ?a = Ret ?b |- kept _ _ ?b => apply (change_kept _ _ _ _ _ H)
    end ].
Ltac kept_run H := cbv zeta in H; run_inv; kept_step.

Lemma leave_kept me t p st0 st st' : ts_leave_kernel kpreemptpri ts_dptbl me t p st = Ret st' → kept t st0 st → kept t st0 st'.
Proof using Type. unfold ts_leave_kernel, surrender_ts. intros H ?. kept_run H. Qed.

Lemma requeue_kept me t p st0 st st' : on_disp ts_requeue me t p st = Ret st' → kept t st0 st → kept t st0 st'.
Proof using Type. unfold ts_requeue, setbackdq_ts, setfrontdq_ts. intros H ?. kept_run H. Qed.

Lemma setrun_kept me t st0 st st' : on_disp ts_setrun ts_dptbl ts_maxumdpri me t st = Ret st' → kept t st0 st → kept t st0 st'.
Proof using Type.
  unfold ts_setrun. intros H ?. cbv zeta in H. run_inv; (eapply requeue_kept; [eassumption|]); kept_step.
Qed.

Lemma wakeup_kept me t st0 st st' : on_disp ts_wakeup ts_dptbl ts_maxumdpri me t st = Ret st' → kept t st0 st → kept t st0 st'.
Proof using Type.
  unfold ts_wakeup, setbackdq_ts, setfrontdq_ts. intros H ?. cbv zeta in H. run_inv; try (eapply requeue_kept; [eassumption|]); kept_step.
Qed.

Lemma preempt_kept me t st0 st st' : on_disp ts_preempt ts_dptbl ts_kmdpris ts_maxumdpri me t st = Ret st' → kept t st0 st → kept t st0 st'.
Proof using Type. unfold ts_preempt, setbackdq_ts, setfrontdq_ts. intros H ?. kept_run H. Qed.

Lemma yield_kept me t st0 st st' : on_disp ts_yield ts_dptbl ts_maxumdpri me t st = Ret st' → kept t st0 st → kept t st0 st'.
Proof using Type. unfold ts_yield, setbackdq_ts. intros H ?. kept_run H. Qed.

Lemma sleep_kept me t disp st0 st st' : ts_sleep kpreemptpri ts_dptbl ts_kmdpris ts_maxumdpri ts_maxkmdpri me t disp st = Ret st' →
  kept t st0 st → kept t st0 st'.
Proof using Type.
  unfold ts_sleep. intros H ?. cbv zeta in H. run_inv; apply kept_put; try (eapply leave_kept; [eassumption|]); kept_step.
Qed.

Lemma trapret_kept me t b st0 st st' : ts_trapret kpreemptpri ts_dptbl ts_maxumdpri me t st = Ret (b, st') → kept t st0 st → kept t st0 st'.
Proof using Type.
  unfold ts_trapret. intros H ?. cbv zeta in H. run_inv; try (eapply leave_kept; [eassumption|]); kept_step.
Qed.

Lemma tick_kept me t st0 st st' : on_disp ts_tick ts_dptbl ts_maxumdpri me t st = Ret st' → kept t st0 st → kept t st0 st'.
Proof using Type. unfold ts_tick, setbackdq_ts, surrender_ts. intros H ?. kept_run H. Qed.

Lemma forkret_kept me t st0 st st' : on_disp ts_forkret ts_dptbl ts_maxumdpri me t st = Ret st' → kept t st0 st → kept t st0 st'.
Proof using Type. unfold ts_forkret. intros H ?. cbv zeta in H. run_inv. eapply setrun_kept; [eassumption|]. kept_step. Qed.

Lemma update_one_kept me t st0 st st' : on_disp ts_update_one ts_dptbl ts_maxumdpri me t st = Ret st' → kept t st0 st → kept t st0 st'.
Proof using Type. unfold ts_update_one. intros H ?. kept_run H. Qed.

Lemma parmsset_kept me t lim upri cred r st0 st st' : on_disp ts_parmsset ts_dptbl ts_maxumdpri me t lim upri cred st = Ret (r, st') →
  kept t st0 st → kept t st0 st'.
Proof using Type. unfold ts_parmsset. intros H ?. kept_run H. Qed.

Lemma donice_kept me t incr root r st0 st st' : on_disp ts_donice ts_dptbl ts_maxumdpri me t incr root st = Ret (r, st') →
  kept t st0 st → kept t st0 st'.
Proof using Type.
  unfold ts_donice. intros H ?. cbv zeta in H. run_inv; try (apply kept_put; eapply parmsset_kept; [eassumption|]); kept_step.
Qed.

Lemma turn_kept me on t st0 st st' : on_disp ia_turn ts_dptbl ts_maxumdpri me on t st = Ret st' → kept t st0 st → kept t st0 st'.
Proof using Type. unfold ia_turn. intros H ?. kept_run H. Qed.

Lemma enter_kept me t ia root group parms buf r st st' :
  on_disp ts_enterclass ts_dptbl ts_maxumdpri me t ia root group parms buf st = Ret (r, st') →
  (is_Some r ∧ st' = st) ∨ (r = None ∧ ∃ p st1, kept t (put_ts t p st) st1 ∧ st' = with_ts_list (t :: ts_list st1) st1).
Proof using Type.
  unfold ts_enterclass. intros H. cbv zeta in H. destruct (ia && negb root && negb group); [injection H as <- <-; left; eauto|].
  match type of H with match ?x with _ => _ end = _ => destruct x as [e|p] end; [injection H as <- <-; left; eauto|].
  run_inv. right. split; [done|]. do 2 eexists. split; [|reflexivity]. eapply change_kept; [eassumption|]. apply kept_refl.
Qed.

Lemma fork_kept t ct buf st st' : ts_fork ts_dptbl ts_maxumdpri t ct buf st = Ret st' →
  ∃ p st1, kept ct st st1 ∧ st' = with_ts_list (ct :: ts_list st1) (put_ts ct p st1).
Proof using Type. unfold ts_fork. intros H. cbv zeta in H. run_inv; do 2 eexists; (split; [|reflexivity]); kept_step. Qed.

(** The list has the threads of the class, each once. *)
Definition listed (st : tstate) : Prop := NoDup (ts_list st) ∧ ∀ t, t ∈ ts_list st ↔ in_class st t.

Lemma kept_listed t st st' : kept t st st' → in_class st t → listed st → listed st'.
Proof using Type.
  intros [H1 H2 H3] Hin [Hnd Hl]. unfold listed, in_class in *. rewrite H1. split; [done|]. intros u. rewrite Hl.
  destruct (decide (u = t)) as [->|Hne]; [|by rewrite H2]. split; auto.
Qed.

Lemma new_listed t st st1 : (∀ u, u ≠ t → t_proc st1 !! u = t_proc st !! u) → is_Some (t_proc st1 !! t) → ts_list st1 = t :: ts_list st →
  ¬ in_class st t → listed st → listed st1.
Proof using Type.
  intros Hu Ht El Hn [Hnd Hl]. unfold listed, in_class in *. rewrite El. split.
  - constructor; [by rewrite Hl|done].
  - intros u. rewrite elem_of_cons, Hl. destruct (decide (u = t)) as [->|Hne]; [by split; auto|]. rewrite Hu by done. by split; [intros [?|?]|auto].
Qed.

Lemma stays_inv ph r m' : stays ph r = Ret m' → ∃ st', r = Ret st' ∧ m' = Tmach st' ph.
Proof using Type. unfold stays. intros H. run_inv. eauto. Qed.

Lemma off_inv me ph r m' : off_cpu me ph r = Ret m' → ∃ st', r = Ret st' ∧ m' = Tmach st' (upd (CPU me) Dispatching ph).
Proof using Type. unfold off_cpu. intros H. run_inv. eauto. Qed.

(** An operation on a thread that is in the class and stays there. *)
Definition stays_in (op : ts_op) : Prop :=
  match op with OpEnter _ _ _ _ _ _ _ | OpFork _ _ _ | OpExit _ | OpDisp _ => False | _ => True end.

Lemma op_kept op t m m' : stays_in op → op_thread op = Some t → ts_exec op m = Ret m' → kept t (tm_st m) (tm_st m').
Proof using Type.
  destruct m as [st ph]. intros Hs Ho Hx.
  destruct op; simpl in Hs; try done; injection Ho as ->; simpl in Hx;
    first [apply stays_inv in Hx as (st' & Hx & ->)|apply off_inv in Hx as (st' & Hx & ->)]; simpl.
  - eapply tick_kept; [exact Hx|apply kept_refl].
  - eapply preempt_kept; [exact Hx|apply kept_refl].
  - eapply yield_kept; [exact Hx|apply kept_refl].
  - eapply sleep_kept; [exact Hx|apply kept_refl].
  - eapply forkret_kept; [exact Hx|apply kept_refl].
  - eapply setrun_kept; [exact Hx|apply kept_refl].
  - eapply wakeup_kept; [exact Hx|apply kept_refl].
  - run_inv. eapply trapret_kept; [eassumption|apply kept_refl].
  - eapply update_one_kept; [exact Hx|apply kept_refl].
  - run_inv. eapply parmsset_kept; [eassumption|apply kept_refl].
  - run_inv. eapply donice_kept; [eassumption|apply kept_refl].
  - eapply turn_kept; [exact Hx|apply kept_refl].
Qed.

Lemma op_frame op u m m' : op_thread op ≠ Some u → ts_exec op m = Ret m' → t_proc (tm_st m') !! u = t_proc (tm_st m) !! u.
Proof using Type.
  intros Hu Hx. assert (∀ t, stays_in op → op_thread op = Some t → t_proc (tm_st m') !! u = t_proc (tm_st m) !! u) as H.
  { intros t Hs Ht. apply (kp_other t _ _ (op_kept op t m m' Hs Ht Hx)). congruence. }
  destruct m as [st ph]. destruct op; try (by eapply H); simpl in Hu, Hx; simpl.
  - apply stays_inv in Hx as (st' & Hx & ->). run_inv.
    match goal with E : _ = Ret (_, _) |- _ => apply enter_kept in E as [[_ ->]|(_ & p & st1 & Hk & ->)] end; [done|].
    simpl. rewrite (kp_other _ _ _ Hk) by congruence. simpl. by rewrite lookup_insert_ne by congruence.
  - apply stays_inv in Hx as (st' & Hx & ->). apply fork_kept in Hx as (p & st1 & Hk & ->). simpl.
    rewrite lookup_insert_ne by congruence. by apply (kp_other _ _ _ Hk); congruence.
  - injection Hx as <-. simpl. by rewrite lookup_delete_ne by congruence.
  - run_inv. done.
Qed.

Lemma op_listed op m m' : ts_enabled op m → ts_exec op m = Ret m' → listed (tm_st m) → listed (tm_st m').
Proof using Type.
  destruct m as [st ph]. intros He Hx Hl. assert (∀ t, stays_in op → op_thread op = Some t → in_class st t → listed (tm_st m')) as H.
  { intros t Hs Ht Hin. eapply kept_listed; [by apply (op_kept op t (Tmach st ph) m')|done|done]. }
  destruct op; try (by destruct He as [? _]; eapply H); simpl in He, Hx.
  - apply stays_inv in Hx as (st' & Hx & ->). run_inv. destruct He as [Hn _].
    match goal with E : _ = Ret (_, _) |- _ => apply enter_kept in E as [[_ ->]|(_ & p & st1 & Hk & ->)] end; [done|]. simpl.
    eapply (new_listed t st); [| |simpl; by rewrite (kp_list _ _ _ Hk)|done|done].
    + intros u Hu. simpl. rewrite (kp_other _ _ _ Hk) by done. simpl. by rewrite lookup_insert_ne.
    + simpl. apply (kp_self _ _ _ Hk). simpl. rewrite lookup_insert_eq. eauto.
  - apply stays_inv in Hx as (st' & Hx & ->). apply fork_kept in Hx as (p & st1 & Hk & ->). destruct He as (_ & Hn & _).
    eapply (new_listed ct st); [| |simpl; by rewrite (kp_list _ _ _ Hk)|done|done].
    + intros u Hu. simpl. rewrite lookup_insert_ne by done. by apply (kp_other _ _ _ Hk).
    + simpl. rewrite lookup_insert_eq. eauto.
  - injection Hx as <-. destruct Hl as [Hnd Hl]. unfold listed, in_class in *. simpl. split; [by apply NoDup_filter|].
    intros u. rewrite list_elem_of_filter, Hl. destruct (decide (u = t)) as [->|Hne].
    + rewrite lookup_delete_eq. split; [by intros [? _]|by intros [? ?]].
    + rewrite lookup_delete_ne by done. by split; [intros [_ ?]|].
  - run_inv. exact Hl.
Qed.

(** ** Sequences *)

Lemma steps_ok m ops m' : good (tm_st m) (tm_phase m) → ts_steps m ops m' →
  good (tm_st m') (tm_phase m') ∧ reachable (Mach (t_sys (tm_st m)) (tm_phase m)) (Mach (t_sys (tm_st m')) (tm_phase m')).
Proof using Hup Htb.
  intros Hg Hs. induction Hs as [m|m m1 m2 op ops He Hx Hs IH]; [split; [done|constructor]|].
  destruct (op_ok op m Hg He) as (st1 & ph1 & Hx1 & Hg1 & Hr1). rewrite Hx in Hx1. injection Hx1 as ->.
  destruct (IH Hg1) as [Hg2 Hr2]. split; [done|]. simpl in Hr2. clear -Hr1 Hr2. induction Hr2; [done|by econstructor].
Qed.

Lemma steps_listed m ops m' : listed (tm_st m) → ts_steps m ops m' → listed (tm_st m').
Proof using Type. intros Hl Hs. induction Hs; [done|]. apply IHHs. by eapply op_listed. Qed.

(** From [m], [ts_update] comes to thread [t] [n] times, and finds it runnable; other threads and the
    dispatcher do what they may. *)
Inductive waits (t : Z) : tmach → nat → tmach → Prop :=
| waits_nil m : waits t m 0 m
| waits_other m m1 m2 op n : ts_enabled op m → ts_exec op m = Ret m1 → op_thread op ≠ Some t → waits t m1 n m2 → waits t m n m2
| waits_second m m1 m2 me n k : ts_enabled (OpUpdate me t) m → ts_exec (OpUpdate me t) m = Ret m1 →
    s_threads (t_sys (tm_st m)) !! t = Some k → t_state k = TS_RUN → waits t m1 n m2 → waits t m (S n) m2.

(** The structure while the thread waits. *)
Lemma waits_dispwait t m n m' p e : waits t m n m' → good (tm_st m) (tm_phase m) → t_proc (tm_st m) !! t = Some p →
  ts_inclass p = true → has TSKPRI p = false → dpt ts_dptbl (ts_umdpri p) = Ret e → 0 ≤ ts_dispwait p →
  n = 0%nat ∨ ts_dispwait p + Z.of_nat n ≤ ts_maxwait e → ts_maxwait e < 2 ^ 31 →
  good (tm_st m') (tm_phase m') ∧ t_proc (tm_st m') !! t = Some (set_dispwait (ts_dispwait p + Z.of_nat n) p).
Proof using Hup Htb.
  intros Hw. revert p. induction Hw as [m|m m1 m2 op n He Hx Ho Hw IH|m m1 m2 me n k He Hx Hk Hrun Hw IH]; intros p Hg Hp Hin Hkp He0 H0 H1 H2.
  - split; [done|]. rewrite Z.add_0_r. by destruct p.
  - destruct (op_ok op m Hg He) as (st1 & ph1 & Hx1 & Hg1 & _). rewrite Hx in Hx1. injection Hx1 as ->.
    apply IH; try done. by rewrite (op_frame op t m _ Ho Hx).
  - destruct (op_ok _ m Hg He) as (st1 & ph1 & Hx1 & Hg1 & _). rewrite Hx in Hx1. injection Hx1 as ->. destruct m as [st ph]. simpl in *.
    rewrite (update_one_waits ncpus kpreemptpri upreemptpri maxclsyspri rechoose_interval ts_dptbl ts_maxumdpri st me t p e) in Hx by (done || lia).
    injection Hx as <- <-. destruct (IH (set_dispwait (ts_dispwait p + 1) p)) as [Hg2 Hp2]; try done; [apply lookup_insert_eq|simpl; lia|right; simpl; lia|].
    split; [done|]. rewrite Hp2. simpl. by replace (ts_dispwait p + 1 + Z.of_nat n) with (ts_dispwait p + Z.of_nat (S n)) by lia.
Qed.
End TsMachine.
