(* ===== verification/TsProps.v ===== *)
(** * Properties of the time-sharing class

    Theorems on the machine of [TsMachine], on the parameters of the class and on its table,
    with two threads of the class on the two processors of [DispSafe]. *)

From S2P Require Import Prelude Bitmap Dispq DispqOps Disp DispInv DispSteps DispSched DispSafe Ts TsSched TsMachine.

(** ** Tables *)

Definition entry_okb (ts_maxumdpri maxglobpri : Z) (e : tsdpent) : bool :=
  (0 <=? ts_globpri e) && (ts_globpri e <=? maxglobpri) && (0 <? ts_quantum e) && (0 <=? ts_tqexp e) && (ts_tqexp e <=? ts_maxumdpri) &&
  (0 <=? ts_slpret e) && (ts_slpret e <=? ts_maxumdpri) && (0 <=? ts_maxwait e) && (0 <=? ts_lwait e) && (ts_lwait e <=? ts_maxumdpri).

Lemma entry_okb_ok m g e : entry_okb m g e = true → entry_ok m g e.
Proof. unfold entry_okb. rewrite !andb_true_iff, !Z.leb_le, Z.ltb_lt. intros H. split; lia. Qed.

Definition tables_okb (npri : Z) (tbl : list tsdpent) (kmd : list Z) (ts_maxumdpri ts_maxkmdpri maxglobpri : Z) : bool :=
  (zlen tbl =? ts_maxumdpri + 1) && forallb (entry_okb ts_maxumdpri maxglobpri) tbl && (zlen kmd =? ts_maxkmdpri + 1) &&
  forallb (λ p, (0 <=? p) && (p <=? maxglobpri)) kmd &&
  ((0 <=? ts_maxumdpri) && (ts_maxumdpri <=? maxglobpri) && (0 <=? ts_maxkmdpri)) && (maxglobpri <? npri).

Lemma tables_okb_ok npri tbl kmd m km g : tables_okb npri tbl kmd m km g = true → tables_ok npri tbl kmd m km g.
Proof.
  unfold tables_okb. rewrite !andb_true_iff, !forallb_forall, !Z.eqb_eq, !Z.leb_le, Z.ltb_lt.
  intros (((((H1 & H2) & H3) & H4) & H5) & H6). split; try done; [|intros p Hp%list_elem_of_In|lia].
  - intros e He%list_elem_of_In. by apply entry_okb_ok, H2.
  - specialize (H4 p Hp). rewrite andb_true_iff, !Z.leb_le in H4. done.
Qed.

(** What [ts_dptbl.c] gives out. *)
Lemma config_tables_ok : tables_ok 160 config_ts_dptbl config_ts_kmdpris config_ts_maxumdpri 39 99.
Proof. apply tables_okb_ok. vm_compute. reflexivity. Qed.

(** ** Two threads of the class *)

(** Thread 3 runs on processor 0 and thread 2 waits for it; level [l] is dispatched at priority [l],
    and a thread may wait for two seconds. *)
Definition ex_tbl : list tsdpent :=
  (λ e, Tsdpent (ts_globpri e) (ts_quantum e) (ts_tqexp e) (ts_slpret e) 2 (ts_lwait e)) <$> config_ts_dptbl.
Definition ex_kmd : list Z := [60; 61; 62; 63].
Definition ex_proc (level left : Z) : tsproc :=
  Tsproc left 0 level 0 0 level NZERO 0 0 true 0 0 0 (Some true) None.
Definition ex_events : list event :=
  [Setback (ex_me 0) 2; Own (ex_me 0); Setback (ex_me 1) 3; Clear (ex_me 0); Verify (ex_me 0); Own (ex_me 0); Clear (ex_me 0); Verify (ex_me 0)].
Definition ex_m : mach := ex_steps ex_events ex_mach.
Definition ex_tm : tmach :=
  Tmach (Tstate (m_sys ex_m) (list_to_map [(2, ex_proc 10 16); (3, ex_proc 20 3)]) [2; 3]) (m_phase ex_m).

Abbreviation ex_with f := (f 2 60 0 59 3).

Lemma ex_tables_ok : tables_ok 64 ex_tbl ex_kmd 59 3 63.
Proof. apply tables_okb_ok. vm_compute. reflexivity. Qed.

Lemma mach_eta m : Mach (m_sys m) (m_phase m) = m.
Proof. by destruct m. Qed.

Lemma ex_tm_good : good 64 59 (tm_st ex_tm) (tm_phase ex_tm).
Proof.
  split.
  - apply (reachable_ok 2 60 0 59 3 64 ex_mach); [lia|by apply initial_ok, ex_initial|].
    unfold ex_tm. cbn [tm_st t_sys tm_phase]. rewrite mach_eta. exact ex_race.
  - intros t p Hp. change (t_proc (tm_st ex_tm)) with (list_to_map (M := gmap Z tsproc) [(2, ex_proc 10 16); (3, ex_proc 20 3)]) in Hp.
    apply elem_of_list_to_map_2 in Hp. rewrite !elem_of_cons in Hp.
    destruct Hp as [[= -> ->]|[[= -> ->]|Hp]]; [| |by apply elem_of_nil in Hp];
      (split; [split; [split; vm_compute; discriminate|reflexivity]|]); eexists; (split; [vm_compute; reflexivity|]); by vm_compute.
Qed.

Lemma ex_tm_listed : listed (tm_st ex_tm).
Proof.
  split; [apply NoDup_cons; split; [by rewrite list_elem_of_singleton|apply NoDup_singleton]|]. intros t. unfold in_class. simpl.
  rewrite !elem_of_cons, elem_of_nil. change (t_proc (tm_st ex_tm)) with (list_to_map (M := gmap Z tsproc) [(2, ex_proc 10 16); (3, ex_proc 20 3)]).
  simpl. destruct (decide (t = 2)) as [->|H2]; [rewrite lookup_insert_eq; split; eauto|]. rewrite lookup_insert_ne by done.
  destruct (decide (t = 3)) as [->|H3]; [rewrite lookup_insert_eq; split; eauto|]. rewrite lookup_insert_ne by done.
  rewrite lookup_empty. split; [by intros [|[|]]|by intros []].
Qed.

(** What every processor of a concrete machine must satisfy. *)
Lemma ex_all_cpus (s : sys) (P : Z → cpu → Prop) `{∀ c cp, Decision (P c cp)} : bool_decide (map_Forall P (s_cpus s)) = true →
  ∀ c cp, s_cpus s !! c = Some cp → P c cp.
Proof. intros Hb%bool_decide_eq_true c cp Hc. by apply Hb. Qed.

Lemma ex_runs : ∃ k, s_threads (t_sys (tm_st ex_tm)) !! 3 = Some k ∧ on_cpu (t_sys (tm_st ex_tm)) (tm_phase ex_tm) 3 0 k.
Proof.
  eexists. split; [vm_compute; reflexivity|]. split; [intros q H; vm_compute in H; discriminate|]. split; [reflexivity|].
  split; [reflexivity|]. split; [eexists; vm_compute; reflexivity|].
  intros d cd Hd. apply (ex_all_cpus _ (λ d cd, cpu_idle_thread cd ≠ 3 ∧ (cpu_dispthread cd = 3 → d = 0))) in Hd as [H1 H2];
    [by split; auto|vm_compute; reflexivity].
Qed.

(** The conditions on a thread of a concrete machine that runs on processor 0. *)
Ltac ex_on_cpu :=
  split; [intros q Hq; vm_compute in Hq; discriminate|]; split; [reflexivity|]; split; [reflexivity|];
  split; [eexists; vm_compute; reflexivity|];
  let d := fresh "d" in let cd := fresh "cd" in let Hd := fresh "Hd" in intros d cd Hd;
  match goal with |- _ ≠ ?t ∧ (_ → _ → _ = ?c) =>
    apply (ex_all_cpus _ (λ d cd, cpu_idle_thread cd ≠ t ∧ (cpu_dispthread cd = t → d = c))) in Hd as [? ?];
    [by split; auto|vm_compute; reflexivity]
  end.

(** ** The machine *)

Section Machine.
Context (ncpus kpreemptpri upreemptpri maxclsyspri rechoose_interval npri : Z).
Context (ts_dptbl : list tsdpent) (ts_kmdpris : list Z) (ts_maxumdpri ts_maxkmdpri maxglobpri : Z).
Context (Hup : upreemptpri ≤ 0).
Context (Htb : tables_ok npri ts_dptbl ts_kmdpris ts_maxumdpri ts_maxkmdpri maxglobpri).

#[local] Abbreviation good := (good npri ts_maxumdpri).
#[local] Abbreviation ts_exec := (ts_exec ncpus kpreemptpri upreemptpri maxclsyspri rechoose_interval ts_dptbl ts_kmdpris ts_maxumdpri ts_maxkmdpri).
#[local] Abbreviation ts_enabled := (ts_enabled npri).
#[local] Abbreviation ts_steps :=
  (ts_steps ncpus kpreemptpri upreemptpri maxclsyspri rechoose_interval npri ts_dptbl ts_kmdpris ts_maxumdpri ts_maxkmdpri).
#[local] Abbreviation waits :=
  (waits ncpus kpreemptpri upreemptpri maxclsyspri rechoose_interval npri ts_dptbl ts_kmdpris ts_maxumdpri ts_maxkmdpri).

(** A class without threads on an empty dispatcher is where all this starts from. *)
Lemma empty_good st ph : 0 ≤ npri → initial npri (Mach (t_sys st) ph) → t_proc st = ∅ → ts_list st = [] → good st ph ∧ listed st.
Proof using Type.
  intros Hn Hi Hp Hl. split; [split; [by apply initial_ok|]|].
  - intros t p. rewrite Hp. by rewrite lookup_empty.
  - split; rewrite Hl; [constructor|]. intros t. unfold in_class. rewrite Hp, lookup_empty. split; [by intros ?%elem_of_nil|by intros []].
Qed.

(** C8: Whatever operations of the time-sharing class and events of the dispatcher happen, by
    any processors in any order, the level of every thread of the class stays within the table, its
    priority within the queues, the class's list has its threads once each, no processor goes on
    running a thread with a better one on its queue without having been asked to give it up, and
    every operation that may be called ends without a fault.  What the operations do to the
    dispatcher is a sequence of its own events, so that what holds in every state that the events
    reach holds with the class on top. *)
Theorem ts_machine_safe m0 ops m : good (tm_st m0) (tm_phase m0) → listed (tm_st m0) → ts_steps m0 ops m →
  (∀ t p, t_proc (tm_st m) !! t = Some p → 0 ≤ ts_cpupri p ≤ ts_maxumdpri ∧ 0 ≤ ts_umdpri p ≤ ts_maxumdpri ∧
    ∃ k, s_threads (t_sys (tm_st m)) !! t = Some k ∧ 0 ≤ DISP_PRIO k < npri) ∧
  (NoDup (ts_list (tm_st m)) ∧ ∀ t, t ∈ ts_list (tm_st m) ↔ is_Some (t_proc (tm_st m) !! t)) ∧
  (∀ c, is_Some (s_cpus (t_sys (tm_st m)) !! c) → tm_phase m c = Running → preempt_ok (t_sys (tm_st m)) c) ∧
  (∀ op, ts_enabled op m → ∃ m', ts_exec op m = Ret m') ∧
  reachable ncpus kpreemptpri upreemptpri maxclsyspri rechoose_interval npri
    (Mach (t_sys (tm_st m0)) (tm_phase m0)) (Mach (t_sys (tm_st m)) (tm_phase m)).
Proof using Hup Htb.
  intros Hg Hl Hs. destruct (steps_ok _ _ _ _ _ _ _ _ _ _ _ Hup Htb m0 ops m Hg Hs) as [Hgm Hr].
  split; [|split; [by eapply steps_listed|split; [|split; [|exact Hr]]]].
  - intros t p Hp. destruct (proj2 Hgm t p Hp) as [Hlev Hk]. split; [apply Hlev|]. split; [by eapply umdpri_range|exact Hk].
  - intros c Hc Hph. pose proof (proj2 (proj1 Hgm) c Hc) as H. simpl in H. by rewrite Hph in H.
  - intros op He. destruct (op_ok ncpus kpreemptpri upreemptpri maxclsyspri rechoose_interval _ _ _ _ _ _ Hup Htb op m Hgm He) as (st' & ph' & Hx & _). by exists (Tmach st' ph').
Qed.

(** C20: A thread in user mode does not starve: when [ts_update] has found it runnable for more
    than [ts_maxwait] seconds in a row, while anything happens to other threads and processors,
    its system component [ts_cpupri] becomes [ts_lwait] of the entry of the level it was; its user-mode level
    [ts_umdpri] is this plus its user priority and boost, cut to the levels there are (the comments
    of [ts.h] have [ts_lwait] assigned to [ts_umdpri] itself); and its priority is that of the user-mode level,
    or the inherited one if it has inherited any. *)
Theorem ts_no_starvation t m n m1 me p e el k : waits t m n m1 → good (tm_st m) (tm_phase m) → t_proc (tm_st m) !! t = Some p →
  ts_inclass p = true → has TSKPRI p = false → dpt ts_dptbl (ts_umdpri p) = Ret e → dpt ts_dptbl (ts_cpupri p) = Ret el →
  0 ≤ ts_dispwait p ≤ ts_maxwait e → ts_maxwait e ≤ 32767 → Z.of_nat n = ts_maxwait e - ts_dispwait p →
  ts_enabled (OpUpdate me t) m1 → s_threads (t_sys (tm_st m1)) !! t = Some k → t_state k = TS_RUN →
  ∃ m' p' k' e', ts_exec (OpUpdate me t) m1 = Ret m' ∧ t_proc (tm_st m') !! t = Some p' ∧
    ts_cpupri p' = ts_lwait el ∧ ts_dispwait p' = 0 ∧
    ts_umdpri p' = Z.max 0 (Z.min ts_maxumdpri (s16 (ts_lwait el + ts_upri p + ts_boost p))) ∧
    s_threads (t_sys (tm_st m')) !! t = Some k' ∧ dpt ts_dptbl (ts_umdpri p') = Ret e' ∧
    DISP_PRIO k' = if INHERITED k then t_epri k else ts_globpri e'.
Proof using Hup Htb.
  intros Hw Hg Hp Hin Hkp He Hel H0 H1 Hn Hen Hk Hrun.
  destruct (waits_dispwait _ _ _ _ _ _ _ _ _ _ _ Hup Htb t m n m1 p e Hw Hg Hp) as [Hg1 Hp1]; [done|done|done|lia|lia|lia|].
  rewrite Hn in Hp1. replace (ts_dispwait p + (ts_maxwait e - ts_dispwait p)) with (ts_maxwait e) in Hp1 by lia.
  destruct m1 as [st ph]. simpl in *. destruct Hen as (_ & k0 & Hk0 & Hpl). rewrite Hk in Hk0. injection Hk0 as <-.
  destruct (update_one_boosts ncpus kpreemptpri upreemptpri maxclsyspri rechoose_interval npri ts_dptbl ts_kmdpris ts_maxumdpri ts_maxkmdpri
    maxglobpri Hup Htb st ph me t (set_dispwait (ts_maxwait e) p) k e el Hg1 Hp1 Hk) as (st' & p' & k' & e' & Hx & Hp' & Hsame & Hk' & He' & Hpri);
    try done; [by apply Hpl|simpl; lia|simpl; lia|].
  exists (Tmach st' ph), p', k', e'. rewrite Hx. destruct Hsame as (E1 & E2 & E3 & _). split; [done|]. split; [done|].
  split; [by rewrite E1|]. split; [by rewrite E3|]. split; [|split; [done|split; [done|by rewrite Hpri]]].
  rewrite E2. simpl. pose proof (tb_max _ _ _ _ _ _ Htb). destruct (Z.ltb_spec ts_maxumdpri (s16 (ts_lwait el + ts_upri p + ts_boost p))); [lia|].
  destruct (Z.ltb_spec (s16 (ts_lwait el + ts_upri p + ts_boost p)) 0); lia.
Qed.
End Machine.

(** ** On the example *)

Definition ex_ts_exec := ts_exec 2 60 0 59 3 ex_tbl ex_kmd 59 3.
Definition ex_ts_step (op : ts_op) (m : tmach) : tmach := match ex_ts_exec op m with Ret m' => m' | _ => m end.
Abbreviation ex_ts_steps := (ts_steps 2 60 0 59 3 64 ex_tbl ex_kmd 59 3).

Lemma ex_ts_cons op ops m m' : ts_enabled 64 op (Tmach (tm_st m) (tm_phase m)) → ex_ts_exec op m = Ret (ex_ts_step op m) → ex_ts_steps (ex_ts_step op m) ops m' →
  ex_ts_steps m (op :: ops) m'.
Proof. destruct m. intros. by eapply steps_cons. Qed.

Ltac ex_in_class := split; [eexists; vm_compute; reflexivity|].

(** The running thread is charged a tick, and yields. *)
Definition ex_ops : list ts_op := [OpTick (ex_me 0) 3; OpYield (ex_me 0) 3].
Definition ex_end : tmach := foldl (λ m op, ex_ts_step op m) ex_tm ex_ops.

Lemma ex_steps_ok : ex_ts_steps ex_tm ex_ops ex_end.
Proof.
  unfold ex_end, ex_ops. cbn [foldl]. apply ex_ts_cons; [|vm_compute; reflexivity|].
  - ex_in_class. do 2 eexists. split; [vm_compute; reflexivity|]. split; [apply (pl_cpu _ _ _ _ _ 0); ex_on_cpu|].
    split; [vm_compute; reflexivity|eexists; vm_compute; reflexivity].
  - apply ex_ts_cons; [|vm_compute; reflexivity|constructor]. ex_in_class. eexists. split; [vm_compute; reflexivity|].
    split; [ex_on_cpu|]. split; [vm_compute; reflexivity|]. split; [reflexivity|]. split; [reflexivity|].
    intros (c & Hc). destruct c as [|c|c]; vm_compute in Hc; destruct Hc; discriminate.
Qed.

Lemma ts_machine_safe_witness : NoDup (ts_list (tm_st ex_end)) ∧ reachable 2 60 0 59 3 64
    (Mach (t_sys (tm_st ex_tm)) (tm_phase ex_tm)) (Mach (t_sys (tm_st ex_end)) (tm_phase ex_end)) ∧ tm_phase ex_end 0 = Dispatching ∧
  ∃ p, t_proc (tm_st ex_end) !! 3 = Some p ∧ ts_timeleft p = 2 ∧ 0 ≤ ts_umdpri p ≤ 59.
Proof.
  destruct (ts_machine_safe 2 60 0 59 3 64 ex_tbl ex_kmd 59 3 63 ltac:(lia) ex_tables_ok ex_tm ex_ops ex_end)
    as (H1 & H2 & _ & _ & H4); [exact ex_tm_good|exact ex_tm_listed|exact ex_steps_ok|].
  split; [apply H2|]. split; [exact H4|]. split; [vm_compute; reflexivity|]. eexists. split; [vm_compute; reflexivity|].
  split; [reflexivity|]. split; vm_compute; discriminate.
Defined.

(** Thread 2 waits for three seconds, in which thread 3 is charged a tick. *)
Abbreviation ex_waits := (waits 2 60 0 59 3 64 ex_tbl ex_kmd 59 3).

Lemma ex_waits_tick op t n m m' : ts_enabled 64 op (Tmach (tm_st m) (tm_phase m)) → ex_ts_exec op m = Ret (ex_ts_step op m) →
  op_thread op ≠ Some t → ex_waits t (ex_ts_step op m) n m' → ex_waits t m n m'.
Proof. destruct m. intros. by eapply waits_other. Qed.

Lemma ex_waits_second me t n m m' : ts_enabled 64 (OpUpdate me t) (Tmach (tm_st m) (tm_phase m)) →
  ex_ts_exec (OpUpdate me t) m = Ret (ex_ts_step (OpUpdate me t) m) →
  (∃ k, s_threads (t_sys (tm_st m)) !! t = Some k ∧ t_state k = TS_RUN) → ex_waits t (ex_ts_step (OpUpdate me t) m) n m' →
  ex_waits t m (S n) m'.
Proof. destruct m. intros ?? (k & ? & ?) ?. by eapply waits_second. Qed.

Ltac ex_queued :=
  eexists; split; [vm_compute; reflexivity|]; intros _; apply (pl_queue _ _ _ _ _ (CPUQ 0));
  [vm_compute; reflexivity|vm_compute; discriminate| |];
  [let c := fresh "c" in let cp := fresh "cp" in let Hc := fresh "Hc" in intros c cp Hc;
   apply (ex_all_cpus _ (λ _ cp, cpu_idle_thread cp ≠ 2 ∧ cpu_dispthread cp ≠ 2)) in Hc as [? ?]; [by split|vm_compute; reflexivity]
  |intros (c & Hc); destruct c as [|c|c]; vm_compute in Hc; destruct Hc; discriminate].

Definition ex_update : ts_op := OpUpdate (ex_me 1) 2.
Definition ex_late : tmach := foldl (λ m op, ex_ts_step op m) ex_tm [ex_update; OpTick (ex_me 0) 3; ex_update].

Lemma ex_waits_ok : ex_waits 2 ex_tm 2 ex_late.
Proof.
  unfold ex_late. cbn [foldl]. eapply (ex_waits_second (ex_me 1)); [|vm_compute; reflexivity|eexists; split; vm_compute; reflexivity|].
  { ex_in_class. ex_queued. }
  apply (ex_waits_tick (OpTick (ex_me 0) 3)); [|vm_compute; reflexivity|done|].
  { ex_in_class. do 2 eexists. split; [vm_compute; reflexivity|]. split; [apply (pl_cpu _ _ _ _ _ 0); ex_on_cpu|].
    split; [vm_compute; reflexivity|eexists; vm_compute; reflexivity]. }
  eapply (ex_waits_second (ex_me 1)); [|vm_compute; reflexivity|eexists; split; vm_compute; reflexivity|constructor].
  ex_in_class. ex_queued.
Qed.

Lemma ex_late_enabled : ts_enabled 64 (OpUpdate (ex_me 1) 2) ex_late.
Proof.
  assert (∀ m, ts_enabled 64 (OpUpdate (ex_me 1) 2) (Tmach (tm_st m) (tm_phase m)) → ts_enabled 64 (OpUpdate (ex_me 1) 2) m) as H by (by intros []).
  apply H. ex_in_class. ex_queued.
Qed.

Lemma ts_no_starvation_witness : ∃ m' p' k', ex_ts_exec (OpUpdate (ex_me 1) 2) ex_late = Ret m' ∧
  t_proc (tm_st m') !! 2 = Some p' ∧ ts_umdpri p' = 51 ∧ s_threads (t_sys (tm_st m')) !! 2 = Some k' ∧ DISP_PRIO k' = 51.
Proof.
  edestruct (ts_no_starvation 2 60 0 59 3 64 ex_tbl ex_kmd 59 3 63 ltac:(lia) ex_tables_ok 2 ex_tm 2 ex_late (ex_me 1) (ex_proc 10 16))
    as (m' & p' & k' & e' & Hx & Hp & _ & _ & Hu & Hk & He & Hpri);
    [exact ex_waits_ok|exact ex_tm_good|vm_compute; reflexivity|reflexivity|reflexivity|vm_compute; reflexivity|vm_compute; reflexivity
    |split; vm_compute; discriminate|vm_compute; discriminate|reflexivity|exact ex_late_enabled|vm_compute; reflexivity|vm_compute; reflexivity|].
  exists m', p', k'. split; [exact Hx|]. split; [exact Hp|]. split; [rewrite Hu; vm_compute; reflexivity|]. split; [exact Hk|].
  rewrite Hpri. rewrite Hu in He. vm_compute in He. injection He as <-. vm_compute. reflexivity.
Defined.

(** ** Setting the table *)

(** Only the super-user sets the table, and only to one of the same length whose quanta are
    positive, whose waits are not negative and whose levels are all within it; then the global
    priorities stay and everything else is the new table's, so that the table is one that the
    class can run on. *)
Theorem ts_setdptbl_ok npri old kmd ts_maxumdpri km g root tbl : tables_ok npri old kmd ts_maxumdpri km g →
  match ts_setdptbl old ts_maxumdpri root tbl with
  | inl TS_EPERM => root = false
  | inl TS_EINVAL => root = true ∧ ¬ (zlen tbl = zlen old ∧ ∀ e, e ∈ tbl → 0 < ts_quantum e ∧ 0 ≤ ts_maxwait e ∧
      0 ≤ ts_tqexp e ≤ ts_maxumdpri ∧ 0 ≤ ts_slpret e ≤ ts_maxumdpri ∧ 0 ≤ ts_lwait e ≤ ts_maxumdpri)
  | inr new => root = true ∧ tables_ok npri new kmd ts_maxumdpri km g ∧ ts_globpri <$> new = ts_globpri <$> old ∧
      ∀ i e, tbl !! i = Some e → ∃ e', new !! i = Some e' ∧ ts_quantum e' = ts_quantum e ∧ ts_tqexp e' = ts_tqexp e ∧
        ts_slpret e' = ts_slpret e ∧ ts_maxwait e' = ts_maxwait e ∧ ts_lwait e' = ts_lwait e
  end.
Proof.
  intros [T1 T2 T3 T4 T5 T6]. unfold ts_setdptbl. destruct root; cbn [negb]; [|done].
  assert (∀ e, dpent_valid ts_maxumdpri e = true ↔ (0 < ts_quantum e ∧ 0 ≤ ts_maxwait e ∧
      0 ≤ ts_tqexp e ≤ ts_maxumdpri ∧ 0 ≤ ts_slpret e ≤ ts_maxumdpri ∧ 0 ≤ ts_lwait e ≤ ts_maxumdpri)) as Hv.
  { intros e. unfold dpent_valid. rewrite !andb_true_iff, !negb_true_iff, !orb_false_iff, !Z.ltb_ge, Z.leb_gt. lia. }
  destruct (Z.eqb_spec (zlen tbl) (ts_maxumdpri + 1)) as [El|El]; cbn [negb]; [|split; [done|]; rewrite T1; by intros []].
  destruct (forallb (dpent_valid ts_maxumdpri) tbl) eqn:Ef.
  - rewrite forallb_forall in Ef. assert (length old = length tbl) as Hlen by lia. split; [done|]. split; [|split].
    + split; try done; [rewrite length_zip_with; lia|]. intros e He.
      apply list_elem_of_lookup in He as [i Hi]. apply lookup_zip_with_Some in Hi as (a & b & -> & Ha & Hb).
      apply list_elem_of_lookup_2 in Ha, Hb. destruct (T2 a Ha) as [H1 _ _ _ _ _]. apply list_elem_of_In, Ef, Hv in Hb.
      split; simpl; tauto.
    + clear -Hlen. revert tbl Hlen. induction old as [|a old IH]; intros [|b tbl] Hlen; [done|done|done|]. simpl. f_equal. apply IH. by injection Hlen.
    + intros i e Hi. destruct (lookup_lt_is_Some_2 old i) as [a Ha]; [rewrite Hlen; by eapply lookup_lt_Some|].
      exists (dpent_set a e). split; [|done]. apply lookup_zip_with_Some. eauto.
  - split; [done|]. intros [_ H]. assert (forallb (dpent_valid ts_maxumdpri) tbl = true) as Ht; [|congruence].
    apply forallb_forall. intros e He. apply Hv, H. by apply list_elem_of_In.
Qed.

Lemma ts_setdptbl_ok_witness : ∃ new, ts_setdptbl config_ts_dptbl 59 true ex_tbl = inr new ∧ tables_ok 160 new config_ts_kmdpris 59 39 99.
Proof.
  pose proof (ts_setdptbl_ok 160 config_ts_dptbl config_ts_kmdpris 59 39 99 true ex_tbl config_tables_ok) as H.
  destruct (ts_setdptbl config_ts_dptbl 59 true ex_tbl) as [e|new] eqn:E; [vm_compute in E; discriminate|]. exists new. split; [done|apply H].
Defined.

(** ** Nice values *)

Section Nice.
Context (ncpus kpreemptpri upreemptpri maxclsyspri rechoose_interval npri : Z).
Context (ts_dptbl : list tsdpent) (ts_kmdpris : list Z) (ts_maxumdpri ts_maxkmdpri maxglobpri : Z).
Context (Hup : upreemptpri ≤ 0).
Context (Htb : tables_ok npri ts_dptbl ts_kmdpris ts_maxumdpri ts_maxkmdpri maxglobpri).

(** The kernel sets the user priority and its limit. *)
Lemma parmsset_user st ph me t p u : good npri ts_maxumdpri st ph → t_proc st !! t = Some p → locked st ph me t →
  - ts_maxupri ≤ u ≤ ts_maxupri →
  ∃ st' p', ts_parmsset ncpus kpreemptpri upreemptpri maxclsyspri rechoose_interval ts_dptbl ts_maxumdpri me t u u None st = Ret (None, st') ∧
    t_proc st' !! t = Some p' ∧ ts_upri p' = u ∧ ts_uprilim p' = u ∧ ts_cpupri p' = ts_cpupri p ∧ ts_boost p' = ts_boost p ∧
    ts_umdpri p' = ts_umdpri (TS_NEWUMDPRI ts_maxumdpri (set_upris u u p)).
Proof using Hup Htb.
  unfold ts_maxupri. intros Hg Hp (k & Hk & Hpl) Hu. unfold ts_parmsset, get_ts. rewrite Hp. cbn [rbind].
  rewrite (proj2 (Z.eqb_neq u TS_NOCHANGE)) by (unfold TS_NOCHANGE; lia). rewrite Z.ltb_irrefl.
  set (p1 := set_nice _ _). destruct (has TSKPRI p1).
  - do 2 eexists. split; [done|]. split; [apply lookup_insert_eq|]. by split_and!.
  - destruct (relevel_leads ncpus kpreemptpri upreemptpri maxclsyspri rechoose_interval npri ts_dptbl ts_kmdpris ts_maxumdpri ts_maxkmdpri
      maxglobpri Hup Htb st ph me t p k (set_dispwait 0 p1) Hg Hp Hk Hpl) as (st' & p' & -> & _ & Et & (E1 & E2 & _ & E4 & E5 & E6 & _)).
    { destruct (proj2 Hg t p Hp) as [[Hlev _] _]. by split. }
    cbn [rbind]. exists st', p'. split; [done|]. split; [rewrite Et; apply lookup_insert_eq|]. by split_and!.
Qed.

(** [ts_donice] moves the nice value by [incr], clamped to 0 to 39, and gives back the value
    less 20; the user priority is set to the one that has that very nice value. *)
Theorem ts_donice_ok st ph me t p incr root : good npri ts_maxumdpri st ph → t_proc st !! t = Some p → locked st ph me t →
  0 ≤ ts_nice p ≤ 39 → ∃ r st', ts_donice ncpus kpreemptpri upreemptpri maxclsyspri rechoose_interval ts_dptbl ts_maxumdpri me t incr root st = Ret (r, st') ∧
    if incr =? 0 then r = (None, ts_nice p - 20) ∧ st' = st
    else if ((incr <? 0) || (40 <? incr)) && negb root then r = (Some TS_EPERM, 0) ∧ st' = st
    else let nice := Z.max 0 (Z.min 39 (ts_nice p + Z.min 39 incr)) in
      r = (None, nice - 20) ∧ ∃ p', t_proc st' !! t = Some p' ∧ ts_nice p' = nice ∧ ts_upri p' = 3 * (20 - nice) ∧
        nice_of (ts_upri p') = ts_nice p' ∧ ts_cpupri p' = ts_cpupri p ∧
        ts_umdpri p' = ts_umdpri (TS_NEWUMDPRI ts_maxumdpri (set_upris (3 * (20 - nice)) (3 * (20 - nice)) p)).
Proof using Hup Htb.
  intros Hg Hp Hl Hn. unfold ts_donice, get_ts at 1. rewrite Hp. cbn [rbind].
  destruct (incr =? 0); [by do 2 eexists|]. change (2 * NZERO) with 40. change (2 * NZERO - 1) with 39. change NZERO with 20.
  destruct (((incr <? 0) || (40 <? incr)) && negb root); [by do 2 eexists|]. cbv zeta.
  set (n := if 40 <=? ts_nice p + _ then _ else _).
  assert (n = Z.max 0 (Z.min 39 (ts_nice p + Z.min 39 incr))) as En.
  { unfold n. destruct (Z.ltb_spec 39 incr); (destruct (Z.leb_spec 40 (ts_nice p + 39)) + idtac); repeat case_match; lia. }
  rewrite <-En. assert (0 ≤ n ≤ 39) as Hn' by lia. clearbody n.
  assert (Z.quot (- ((n - 20) * ts_maxupri)) 20 = 3 * (20 - n)) as ->.
  { unfold ts_maxupri. replace (- ((n - 20) * 60)) with (3 * (20 - n) * 20) by lia. by rewrite Z.quot_mul. }
  destruct (parmsset_user st ph me t p (3 * (20 - n)) Hg Hp Hl) as (st' & p' & -> & Hp' & Eu & El & Ec & Eb & Em); [unfold ts_maxupri; lia|].
  cbn [rbind]. unfold get_ts. rewrite Hp'. cbn [rbind]. do 2 eexists. split; [done|]. split; [done|]. eexists. split; [apply lookup_insert_eq|].
  assert (s8 n = n) as Es by (unfold s8; change (2 ^ 7) with 128; change (2 ^ 8) with 256; rewrite Z.mod_small; lia).
  simpl. rewrite Es, Eu. split_and!; try done. unfold nice_of, NZERO, ts_maxupri.
  replace (3 * (20 - n) * 20) with ((20 - n) * 60) by lia. rewrite Z.quot_mul by lia. by replace (20 - (20 - n)) with n by lia.
Qed.
End Nice.

(** Thread 3 becomes nicer by 5. *)
Lemma ts_donice_ok_witness : ∃ st' p', ts_donice 2 60 0 59 3 ex_tbl 59 (ex_me 0) 3 5 false (tm_st ex_tm) = Ret (None, 5, st') ∧
  t_proc st' !! 3 = Some p' ∧ ts_nice p' = 25 ∧ ts_umdpri p' = 5.
Proof.
  destruct (ts_donice_ok 2 60 0 59 3 64 ex_tbl ex_kmd 59 3 63 ltac:(lia) ex_tables_ok (tm_st ex_tm) (tm_phase ex_tm) (ex_me 0) 3 (ex_proc 20 3) 5 false)
    as (r & st' & Hx & Hr & p' & Hp & En & _ & _ & _ & Em);
    [exact ex_tm_good|vm_compute; reflexivity| |split; vm_compute; discriminate|].
  { destruct ex_runs as (k & Hk & Hcpu). exists k. split; [exact Hk|]. by apply (pl_cpu _ _ _ _ _ 0). }
  exists st', p'. rewrite Hx, Hr. split; [reflexivity|]. split; [exact Hp|]. split; [rewrite En; vm_compute; reflexivity|].
  rewrite Em. vm_compute. reflexivity.
Defined.

(** Thread 1 enters the class with the lowest user priority. *)
Definition ex_entered : tstate :=
  match ts_enterclass 2 60 0 59 3 ex_tbl 59 (ex_me 0) 1 false true false (Some (-60, -60)) (ex_proc 0 0) (tm_st ex_tm) with
  | Ret (None, st) => st
  | _ => tm_st ex_tm
  end.

(** It gets a nice value that is out of range, which [ts_parmsset] does not give for the same
    user priority. *)
Lemma enterclass_nice_out : option_map (λ p, (ts_upri p, ts_nice p)) (t_proc ex_entered !! 1) = Some (-60, 2 * NZERO) ∧
  match ts_parmsset 2 60 0 59 3 ex_tbl 59 (ex_me 0) 1 (-60) (-60) None ex_entered with
  | Ret (None, st) => option_map (λ p, (ts_upri p, ts_nice p)) (t_proc st !! 1) = Some (-60, 2 * NZERO - 1)
  | _ => False
  end.
Proof. split; vm_compute; reflexivity. Qed.

(** ** The quantum *)

Section Quantum.
Context (ncpus kpreemptpri upreemptpri maxclsyspri rechoose_interval npri : Z).
Context (ts_dptbl : list tsdpent) (ts_kmdpris : list Z) (ts_maxumdpri ts_maxkmdpri maxglobpri : Z).
Context (Htb : tables_ok npri ts_dptbl ts_kmdpris ts_maxumdpri ts_maxkmdpri maxglobpri).

#[local] Abbreviation ts_tick := (ts_tick ncpus kpreemptpri upreemptpri maxclsyspri rechoose_interval ts_dptbl ts_maxumdpri).

Fixpoint ticks (n : nat) (me : ctx) (t : Z) (st : tstate) : run tstate :=
  match n with O => Ret st | S n => let* st := ts_tick me t st in ticks n me t st end.

(** A tick that the quantum lasts for, with nothing better on the queue. *)
Lemma tick_charges st ph me t p k c cp : t_proc st !! t = Some p → s_threads (t_sys st) !! t = Some k → on_cpu (t_sys st) ph t c k →
  s_cpus (t_sys st) !! c = Some cp → has TSKPRI p = false → 1 < ts_timeleft p → ts_timeleft p < 2 ^ 31 →
  disp_maxrunpri (cpu_disp cp) ≤ t_pri k →
  ts_tick me t st = Ret (put_ts t (set_timeleft (ts_timeleft p - 1) p) st).
Proof using Type.
  intros Hp Hk (_ & _ & Hq & _) Hc Hkp H1 H2 Hm. unfold Ts.ts_tick, get_ts. rewrite Hp. cbn [rbind]. rewrite Hkp.
  assert (s32 (ts_timeleft p - 1) = ts_timeleft p - 1) as -> by (apply s32_id; unfold in_s32; lia).
  simpl (ts_timeleft (set_timeleft _ _)). rewrite (proj2 (Z.leb_gt _ _)) by lia. unfold get_thread, tget. rewrite Hk. cbn [rbind].
  rewrite (maxrunpri_cpu _ _ k c cp) by done. cbn [rbind]. by rewrite (proj2 (Z.ltb_ge _ _)).
Qed.

Lemma ticks_charge st ph me t k c cp n : s_threads (t_sys st) !! t = Some k → on_cpu (t_sys st) ph t c k →
  s_cpus (t_sys st) !! c = Some cp → disp_maxrunpri (cpu_disp cp) ≤ t_pri k → ∀ p, t_proc st !! t = Some p → has TSKPRI p = false →
  Z.of_nat n < ts_timeleft p → ts_timeleft p < 2 ^ 31 →
  ticks n me t st = Ret (put_ts t (set_timeleft (ts_timeleft p - Z.of_nat n) p) st).
Proof using Type.
  revert st. induction n as [|n IH]; intros st Hk Hcpu Hc Hm p Hp Hkp H1 H2.
  - simpl. f_equal. rewrite Z.sub_0_r. unfold put_ts. rewrite insert_id; [by destruct st|]. rewrite Hp. by destruct p.
  - cbn [ticks]. rewrite (tick_charges st ph me t p k c cp) by (done || lia). cbn [rbind].
    rewrite (IH (put_ts t (set_timeleft (ts_timeleft p - 1) p) st)) with (p := set_timeleft (ts_timeleft p - 1) p); try done;
      [|apply lookup_insert_eq|simpl; lia|simpl; lia].
    unfold put_ts. simpl. rewrite insert_insert_eq. by replace (ts_timeleft p - 1 - Z.of_nat n) with (ts_timeleft p - Z.of_nat (S n)) by lia.
Qed.

(** A thread that runs on a processor without a better one waiting there, and that is neither
    at a kernel priority nor under preemption control, is charged every tick until its quantum
    is used up; the tick that uses it up takes it to the level [ts_tqexp] of its entry, marks it
    for the back of the queue, gives it the priority of the new level and makes the processor
    reschedule. *)
Theorem ts_quantum_used st ph me t p k c cp n el : good npri ts_maxumdpri st ph → t_proc st !! t = Some p →
  s_threads (t_sys st) !! t = Some k → on_cpu (t_sys st) ph t c k → s_cpus (t_sys st) !! c = Some cp →
  disp_maxrunpri (cpu_disp cp) ≤ t_pri k → has TSKPRI p = false → nopreempt p = false → dpt ts_dptbl (ts_cpupri p) = Ret el →
  ts_timeleft p = Z.of_nat (S n) → ts_timeleft p < 2 ^ 31 →
  ∃ st1 st2 p2 k2 e2, ticks n me t st = Ret st1 ∧ t_sys st1 = t_sys st ∧ t_proc st1 !! t = Some (set_timeleft 1 p) ∧
    ts_tick me t st1 = Ret st2 ∧ t_proc st2 !! t = Some p2 ∧ ts_cpupri p2 = ts_tqexp el ∧ ts_dispwait p2 = 0 ∧ has TSBACKQ p2 = true ∧
    s_threads (t_sys st2) !! t = Some k2 ∧ dpt ts_dptbl (ts_umdpri p2) = Ret e2 ∧ t_pri k2 = ts_globpri e2 ∧
    ∀ cp2, s_cpus (t_sys st2) !! c = Some cp2 → cpu_runrun cp2 ≠ 0.
Proof using Htb.
  intros Hg Hp Hk Hcpu Hc Hm Hkp Hnp Hel Hleft H31. pose proof Hg as [[[Q Hs] _] _]. simpl in Hs.
  rewrite (ticks_charge st ph me t k c cp n Hk Hcpu Hc Hm p Hp Hkp) by lia. replace (ts_timeleft p - Z.of_nat n) with 1 by lia.
  pose proof Hcpu as (Hoff & Hst & Hq & _ & Hcpus). destruct (proj2 Hg t p Hp) as [[[Hc0 Hc1] _] _].
  destruct (dpt_ok _ _ _ _ _ _ Htb _ Hc0 Hc1) as (el' & Hel' & Hent). rewrite Hel in Hel'. injection Hel' as <-.
  set (p2 := set_dispwait 0 (TS_NEWUMDPRI ts_maxumdpri (set_cpupri (ts_tqexp el) (set_timeleft 0 p)))).
  assert (level_in ts_maxumdpri p2) as Hlev2 by (apply (newumdpri_level ts_maxumdpri (ts_tqexp el)); apply Hent).
  destruct (globpri_ok _ _ _ _ _ _ Htb p2 Hlev2) as (e2 & He2 & _).
  set (s1 := with_threads (<[t := set_tpri (ts_globpri e2) k]> (s_threads (t_sys st))) (t_sys st)).
  assert (sys_ok npri s1 Q) as Hs1.
  { apply (change_ok npri _ Q t k); try done; [by apply (so_refs _ _ _ Hs t k)|]. intros d cd Hd. by apply (Hcpus d cd). }
  destruct (surrender_ok kpreemptpri npri s1 Q me (in_user p2) t (set_tpri (ts_globpri e2) k) c cp Hs1) as (s2 & Hrun & Hmild & Hflag);
    [apply lookup_insert_eq|done..|].
  destruct (mi_threads_dom _ _ Hmild t) as [k2 Hk2]; [simpl; rewrite lookup_insert_eq; eauto|].
  exists (put_ts t (set_timeleft 1 p) st), (Tstate s2 (<[t := raise TSBACKQ p2]> (<[t := set_timeleft 1 p]> (t_proc st))) (ts_list st)), (raise TSBACKQ p2), k2, e2.
  split; [done|]. split; [done|]. split; [apply lookup_insert_eq|]. split; [|split; [apply lookup_insert_eq|split; [done|split; [done|split]]]].
  - unfold Ts.ts_tick, get_ts. simpl (t_proc _). rewrite lookup_insert_eq. cbn [rbind]. change (has TSKPRI (set_timeleft 1 p)) with (has TSKPRI p).
    rewrite Hkp. change (set_timeleft (s32 (ts_timeleft (set_timeleft 1 p) - 1)) (set_timeleft 1 p)) with (set_timeleft 0 p).
    change (nopreempt (set_timeleft 0 p)) with (nopreempt p). rewrite Hnp. simpl (ts_timeleft _ <=? 0). cbn [andb].
    change (ts_cpupri (set_timeleft 0 p)) with (ts_cpupri p). rewrite Hel. cbn [rbind]. fold p2.
    unfold dispdeq, get_thread, tget. simpl (t_sys _). rewrite Hk. cbn [rbind]. rewrite bool_decide_eq_false_2 by congruence. cbn [negb rbind].
    unfold set_globpri. rewrite He2. cbn [rbind]. unfold on_sys, mod_thread at 1. simpl (t_sys _). rewrite (tmod_ok _ t _ k) by done. cbn [rbind].
    fold s1. unfold surrender_ts, on_sys. simpl (t_sys _). change (in_user (raise TSBACKQ p2)) with (in_user p2). by rewrite Hrun.
  - unfold has, raise. simpl. unfold truthy. rewrite Z.land_lor_distr_l. change (Z.land TSBACKQ TSBACKQ) with TSBACKQ.
    apply negb_true_iff, Z.eqb_neq. intros H. assert (Z.testbit (Z.lor (Z.land (ts_flags p) TSBACKQ) TSBACKQ) 1 = false) as H' by (by rewrite H).
    rewrite Z.lor_spec in H'. apply orb_false_iff in H' as [_ H']. discriminate.
  - destruct (mi_threads _ _ Hmild t k2 Hk2) as (k0 & v & Hk0 & ->). simpl in Hk0. rewrite lookup_insert_eq in Hk0. injection Hk0 as <-.
    split; [done|]. split; [exact He2|]. split; [done|]. exact Hflag.
Qed.
End Quantum.

(** Thread 3 has three ticks left. *)
Lemma ts_quantum_used_witness : ∃ st1 st2 p2, ticks 2 60 0 59 3 ex_tbl 59 2 (ex_me 0) 3 (tm_st ex_tm) = Ret st1 ∧
  ts_tick 2 60 0 59 3 ex_tbl 59 (ex_me 0) 3 st1 = Ret st2 ∧ t_proc st2 !! 3 = Some p2 ∧ ts_cpupri p2 = 10 ∧ has TSBACKQ p2 = true.
Proof.
  destruct ex_runs as (k & Hk & Hcpu).
  assert (∃ cp, s_cpus (t_sys (tm_st ex_tm)) !! 0 = Some cp ∧ disp_maxrunpri (cpu_disp cp) = 10) as (cp & Hc & Em)
    by (eexists; split; vm_compute; reflexivity).
  assert (t_pri k = 20) as Ek by (vm_compute in Hk; injection Hk as <-; reflexivity).
  edestruct (ts_quantum_used 2 60 0 59 3 64 ex_tbl ex_kmd 59 3 63 ex_tables_ok (tm_st ex_tm) (tm_phase ex_tm) (ex_me 0) 3 (ex_proc 20 3) k 0 cp 2)
    as (st1 & st2 & p2 & k2 & e2 & H1 & _ & _ & H2 & Hp2 & E1 & _ & E2 & _);
    [exact ex_tm_good|vm_compute; reflexivity|exact Hk|exact Hcpu|exact Hc|lia|reflexivity|reflexivity|vm_compute; reflexivity|reflexivity|vm_compute; reflexivity|].
  exists st1, st2, p2. split; [exact H1|]. split; [exact H2|]. split; [exact Hp2|]. split; [exact E1|exact E2].
Defined.
