(* ===== verification/Sem.v ===== *)
(** * System V semaphores ([uts/common/syscall/sem.c], [os/ipc.c], [sys/sem.h], [sys/ipc.h])

    The system calls on sets of semaphores, with the adjustments that are undone when a
    process exits.  A call that has to wait ends at the wait: the waiting itself is that of
    [SemMachine].  The semaphores come from a resource map, which is that of [Rmap]. *)

From S2P Require Import Prelude Rmap.

(** ** Data *)

Inductive sem_errno := E2BIG | EFAULT | EINVAL | EACCES | EFBIG | ERANGE | ENOSPC | EAGAIN | EINTR | EIDRM | EPERM | EEXIST | ENOENT.

Record ipc_perm := Ipc_perm { uid : Z; gid : Z; cuid : Z; cgid : Z; mode : Z; seq_ : Z; key : Z }.

Record semid_ds := Semid_ds {
  sem_perm : ipc_perm;
  sem_base : Z;
  sem_nsems : Z;
  sem_otime : Z;
  sem_ctime : Z;
  sem_binary : Z
}.

Record sem := Sem { semval : Z; sempid : Z; semncnt : Z; semzcnt : Z }.

Record undo := Undo { un_aoe : Z; un_num : Z; un_id : Z }.

Record sembuf := Sembuf { sem_num : Z; sem_op : Z; sem_flg : Z }.

Record seminfo := Seminfo {
  semmni : Z;
  semmsl : Z;
  semopm : Z;
  semume : Z;
  semvmx : Z;
  semaem : Z
}.

Record cred := Cred { cr_uid : Z; cr_gid : Z; cr_groups : list Z }.

(** The caller: its credentials, its process's slot and identifier, and the time. *)
Record caller := Caller { cr : cred; p_slot : Z; p_pid : Z; now : Z }.

(** [cv_signal] and [cv_broadcast] on the condition variables of semaphore [i]: [semzcnt_cv] if [zero],
    or else [semncnt_cv]. *)
Inductive cv_op := Signal (zero : bool) (i : Z) | Broadcast (zero : bool) (i : Z).

(** [s_undo] has the entries of the processes that have an undo structure, [semunp] the processes
    on the active list, [semfup] the number of free structures, [cvs] the operations on condition
    variables, the last first. *)
Record semsys := Semsys {
  sema : list semid_ds;
  s_sem : list sem;
  semmap : rmap;
  s_undo : gmap Z (list undo);
  semunp : list Z;
  semfup : Z;
  cvs : list cv_op
}.

Definition set_sema (l : list semid_ds) (s : semsys) : semsys := Semsys l (s_sem s) (semmap s) (s_undo s) (semunp s) (semfup s) (cvs s).
Definition set_sem (l : list sem) (s : semsys) : semsys := Semsys (sema s) l (semmap s) (s_undo s) (semunp s) (semfup s) (cvs s).
Definition set_semmap (m : rmap) (s : semsys) : semsys := Semsys (sema s) (s_sem s) m (s_undo s) (semunp s) (semfup s) (cvs s).
Definition set_undo (u : gmap Z (list undo)) (s : semsys) : semsys := Semsys (sema s) (s_sem s) (semmap s) u (semunp s) (semfup s) (cvs s).
Definition set_semunp (l : list Z) (s : semsys) : semsys := Semsys (sema s) (s_sem s) (semmap s) (s_undo s) l (semfup s) (cvs s).
Definition set_semfup (n : Z) (s : semsys) : semsys := Semsys (sema s) (s_sem s) (semmap s) (s_undo s) (semunp s) n (cvs s).
Definition emit (c : cv_op) (s : semsys) : semsys :=
  Semsys (sema s) (s_sem s) (semmap s) (s_undo s) (semunp s) (semfup s) (c :: cvs s).

Definition set_semval (v : Z) (x : sem) : sem := Sem v (sempid x) (semncnt x) (semzcnt x).
Definition set_sempid (v : Z) (x : sem) : sem := Sem (semval x) v (semncnt x) (semzcnt x).
Definition set_cnt (zero : bool) (v : Z) (x : sem) : sem :=
  if zero then Sem (semval x) (sempid x) (semncnt x) v else Sem (semval x) (sempid x) v (semzcnt x).
Definition cnt (zero : bool) (x : sem) : Z := if zero then semzcnt x else semncnt x.

Definition get_sem (i : Z) (s : semsys) : run sem := zget (s_sem s) i.
Definition mod_sem (f : sem → sem) (i : Z) (s : semsys) : run semsys :=
  let* x := get_sem i s in let* l := zset (s_sem s) i (f x) in Ret (set_sem l s).

Definition set_perm (p : ipc_perm) (sp : semid_ds) : semid_ds :=
  Semid_ds p (sem_base sp) (sem_nsems sp) (sem_otime sp) (sem_ctime sp) (sem_binary sp).
Definition set_otime (v : Z) (sp : semid_ds) : semid_ds :=
  Semid_ds (sem_perm sp) (sem_base sp) (sem_nsems sp) v (sem_ctime sp) (sem_binary sp).
Definition set_binary (v : Z) (sp : semid_ds) : semid_ds :=
  Semid_ds (sem_perm sp) (sem_base sp) (sem_nsems sp) (sem_otime sp) (sem_ctime sp) v.
Definition set_mode (v : Z) (p : ipc_perm) : ipc_perm := Ipc_perm (uid p) (gid p) (cuid p) (cgid p) v (seq_ p) (key p).
Definition set_seq (v : Z) (p : ipc_perm) : ipc_perm := Ipc_perm (uid p) (gid p) (cuid p) (cgid p) (mode p) v (key p).

Definition mod_sema (f : semid_ds → semid_ds) (idx : Z) (s : semsys) : run semsys :=
  let* sp := zget (sema s) idx in let* l := zset (sema s) idx (f sp) in Ret (set_sema l s).

(** ** Flags and permissions *)

Definition SEM_A : Z := 0x80.
Definition SEM_R : Z := 0x100.
Definition SEM_UNDO : Z := 0x1000.
Definition IPC_ALLOC : Z := 0x8000.
Definition IPC_CREAT : Z := 0x200.
Definition IPC_EXCL : Z := 0x400.
Definition IPC_NOWAIT : Z := 0x800.
Definition IPC_PRIVATE : Z := 0.
Definition SEMA_INDEX_MASK : Z := 0xffff.
Definition SEMA_SEQ_MAX : Z := 0x7fff.
Definition SEMA_SEQ_MASK : Z := 0x7fff.
Definition SEMA_SEQ_SHIFT : Z := 16.

Definition suser (c : cred) : bool := cr_uid c =? 0.
Definition groupmember (g : Z) (c : cred) : bool := (g =? cr_gid c) || existsb (Z.eqb g) (cr_groups c).

Definition ipcaccess (p : ipc_perm) (m : Z) (c : cred) : option sem_errno :=
  if cr_uid c =? 0 then None
  else
    let m :=
      if negb (cr_uid c =? uid p) && negb (cr_uid c =? cuid p) then
        let m := Z.shiftr m 3 in
        if negb (groupmember (gid p) c) && negb (groupmember (cgid p) c) then Z.shiftr m 3 else m
      else m in
    if truthy (Z.land m (mode p)) then None else Some EACCES.

Definition allocated (sp : semid_ds) : bool := truthy (Z.land (mode (sem_perm sp)) IPC_ALLOC).

Definition sema_index (semid : Z) : Z := Z.land semid SEMA_INDEX_MASK.
Definition sema_seq (semid : Z) : Z := Z.land (Z.shiftr semid SEMA_SEQ_SHIFT) SEMA_SEQ_MASK.

Section Sem.
Context (si : seminfo).

(** ** Adjustments on exit *)

(** The entries before those for semaphore [num] of [id], and the others. *)
Definition aoe_before (id num : Z) (e : undo) : bool := (un_id e <? id) || ((un_id e =? id) && (un_num e <? num)).
Definition aoe_is (id num : Z) (e : undo) : bool := (un_id e =? id) && (un_num e =? num).
Fixpoint aoe_split (id num : Z) (l : list undo) : list undo * list undo :=
  match l with
  | e :: l' => if aoe_before id num e then let (a, b) := aoe_split id num l' in (e :: a, b) else ([], l)
  | [] => ([], [])
  end.

Definition drop_active (p : Z) (s : semsys) : semsys := set_semunp (filter (λ q, q ≠ p) (semunp s)) s.

(** The entry for the semaphore among the entries that are not before it. *)
Definition aoe_found (id num : Z) (l : list undo) : option (undo * list undo) :=
  match l with
  | e :: l' => if aoe_is id num e then Some (e, l') else None
  | [] => None
  end.

(** [semaoe], once process [p] has an undo structure with the entries [l]. *)
Definition semaoe_in (p val id num : Z) (l : list undo) (s : semsys) : option sem_errno * semsys :=
  let (l1, l2) := aoe_split id num l in
  match aoe_found id num l2 with
  | None =>
      if semume si <=? zlen l then (Some EINVAL, s)
      else
        let s := match l with [] => set_semunp (p :: semunp s) s | _ => s end in
        (None, set_undo (<[p := l1 ++ Undo (s16 (- val)) num id :: l2]> (s_undo s)) s)
  | Some (e, l2) =>
      let aoe := s16 (un_aoe e - val) in
      if (semaem si <? aoe) || (aoe <? - semaem si) then (Some ERANGE, s)
      else if aoe =? 0 then
        let s := set_undo (<[p := l1 ++ l2]> (s_undo s)) s in
        (None, match l1 ++ l2 with [] => drop_active p s | _ => s end)
      else (None, set_undo (<[p := l1 ++ Undo aoe num id :: l2]> (s_undo s)) s)
  end.

Definition semaoe (p val id num : Z) (s : semsys) : option sem_errno * semsys :=
  if val =? 0 then (None, s)
  else if (semaem si <? val) || (val <? - semaem si) then (Some ERANGE, s)
  else
    match s_undo s !! p with
    | Some l => semaoe_in p val id num l s
    | None =>
        if semfup s =? 0 then (Some ENOSPC, s)
        else semaoe_in p val id num [] (set_undo (<[p := []]> (s_undo s)) (set_semfup (semfup s - 1) s))
    end.

(** The entries that [semunrm] leaves of one structure. *)
Fixpoint semunrm_ents (id low high : Z) (l : list undo) : list undo :=
  match l with
  | [] => []
  | e :: l' =>
      if id <? un_id e then l
      else if (un_id e <? id) || (un_num e <? low) then e :: semunrm_ents id low high l'
      else if high <? un_num e then l
      else semunrm_ents id low high l'
  end.

Fixpoint semunrm_list (id low high : Z) (ps : list Z) (s : semsys) : run semsys :=
  match ps with
  | [] => Ret s
  | p :: ps =>
      match s_undo s !! p with
      | None => Fault
      | Some l =>
          let l := semunrm_ents id low high l in
          let s := set_undo (<[p := l]> (s_undo s)) s in
          semunrm_list id low high ps (match l with [] => drop_active p s | _ => s end)
      end
  end.
Definition semunrm (id low high : Z) (s : semsys) : run semsys := semunrm_list id low high (semunp s) s.

(** [semundo]: [done] has the operations that were done, the last first. *)
Fixpoint semundo (c : caller) (id base : Z) (done : list sembuf) (s : semsys) : run semsys :=
  match done with
  | [] => Ret s
  | op :: done =>
      if sem_op op =? 0 then semundo c id base done s
      else
        let* s := mod_sem (λ x, set_semval (w16 (semval x - sem_op op)) x) (base + sem_num op) s in
        let s := if truthy (Z.land (sem_flg op) SEM_UNDO) then snd (semaoe (p_slot c) (s16 (- sem_op op)) id (sem_num op) s) else s in
        semundo c id base done s
  end.

(** ** Identifiers *)

Definition semconv_lock (semid : Z) (s : semsys) : run (option semid_ds) :=
  if semmni si <=? sema_index semid then Ret None
  else
    let* sp := zget (sema s) (sema_index semid) in
    Ret (if negb (allocated sp) || negb (sema_seq semid =? seq_ (sem_perm sp)) then None else Some sp).

Definition semconv (semid : Z) (s : semsys) : run (option sem_errno) :=
  let* r := semconv_lock semid s in Ret (match r with None => Some EINVAL | Some _ => None end).

(** ** Waking *)

(** [if (semp->semncnt) ...], or the same with [semzcnt]: all that wait, or one. *)
Definition wake (zero signal : bool) (i : Z) (s : semsys) : run semsys :=
  let* x := get_sem i s in
  if cnt zero x =? 0 then Ret s
  else if signal then let* s := mod_sem (set_cnt zero (w16 (cnt zero x - 1))) i s in Ret (emit (Signal zero i) s)
  else let* s := mod_sem (set_cnt zero 0) i s in Ret (emit (Broadcast zero i) s).

(** [if (semp->semzcnt && !semp->semval) ...] *)
Definition wake_zero (signal : bool) (i : Z) (s : semsys) : run semsys :=
  let* x := get_sem i s in if semval x =? 0 then wake true signal i s else Ret s.

(** ** [semop] *)

(** How a pass over the operations ends: asleep for semaphore [i]. *)
Inductive outcome := Done | Failed (e : sem_errno) | Asleep (zero : bool) (i : Z).

Definition undo_and (c : caller) (id base : Z) (done : list sembuf) (o : outcome) (s : semsys) : run (outcome * semsys) :=
  let* s := semundo c id base done s in Ret (o, s).

Definition aoe_if (c : caller) (id : Z) (op : sembuf) (s : semsys) : option sem_errno * semsys :=
  if truthy (Z.land (sem_flg op) SEM_UNDO) then semaoe (p_slot c) (sem_op op) id (sem_num op) s else (None, s).

(** An operation that cannot be done now. *)
Definition sem_wait (c : caller) (id base : Z) (done : list sembuf) (op : sembuf) (zero : bool) (s : semsys) : run (outcome * semsys) :=
  let i := base + sem_num op in
  let* s := semundo c id base done s in
  if truthy (Z.land (sem_flg op) IPC_NOWAIT) then Ret (Failed EAGAIN, s)
  else
    let* s := mod_sem (λ x, set_cnt zero (w16 (cnt zero x + 1)) x) i s in
    let* s := if negb zero && (sem_op op <? -1) then mod_sema (set_binary 0) (sema_index id) s else Ret s in
    Ret (Asleep zero i, s).

Fixpoint semop_ops (c : caller) (id base : Z) (binary : bool) (done todo : list sembuf) (s : semsys) : run (outcome * semsys) :=
  match todo with
  | [] => Ret (Done, s)
  | op :: todo =>
      let i := base + sem_num op in
      let* x := get_sem i s in
      if 0 <? sem_op op then
        if semvmx si <? sem_op op + semval x then undo_and c id base done (Failed ERANGE) s
        else
          let (e, s) := aoe_if c id op s in
          match e with
          | Some e => undo_and c id base done (Failed e) s
          | None =>
              let* s := mod_sem (λ x, set_semval (w16 (semval x + sem_op op)) x) i s in
              let signal := (sem_op op =? 1) && binary in
              let* s := wake false signal i s in
              let* s := wake_zero signal i s in
              semop_ops c id base binary (op :: done) todo s
          end
      else if sem_op op <? 0 then
        if - sem_op op <=? semval x then
          let (e, s) := aoe_if c id op s in
          match e with
          | Some e => undo_and c id base done (Failed e) s
          | None =>
              let* s := mod_sem (λ x, set_semval (w16 (semval x + sem_op op)) x) i s in
              let* s := wake_zero false i s in
              semop_ops c id base binary (op :: done) todo s
          end
        else sem_wait c id base done op false s
      else if truthy (semval x) then sem_wait c id base done op true s
      else semop_ops c id base binary (op :: done) todo s
  end.

Fixpoint set_pids (c : caller) (base : Z) (ops : list sembuf) (s : semsys) : run semsys :=
  match ops with
  | [] => Ret s
  | op :: ops => let* s := mod_sem (set_sempid (p_pid c)) (base + sem_num op) s in set_pids c base ops s
  end.

(** From [check] on, with the set there. *)
Definition semop_check (c : caller) (id : Z) (ops : list sembuf) (s : semsys) : run (outcome * semsys) :=
  let* sp := zget (sema s) (sema_index id) in
  let binary := truthy (sem_binary sp) && (sem_nsems sp =? 1) in
  let* (o, s) := semop_ops c id (sem_base sp) binary [] ops s in
  match o with
  | Done =>
      let* s := set_pids c (sem_base sp) ops s in
      let* s := mod_sema (set_otime (now c)) (sema_index id) s in Ret (Done, s)
  | _ => Ret (o, s)
  end.

Fixpoint semop_access (c : caller) (sp : semid_ds) (ops : list sembuf) : option sem_errno :=
  match ops with
  | [] => None
  | op :: ops =>
      match ipcaccess (sem_perm sp) (if truthy (sem_op op) then SEM_A else SEM_R) (cr c) with
      | Some e => Some e
      | None => if sem_nsems sp <=? sem_num op then Some EFBIG else semop_access c sp ops
      end
  end.

(** [ops]: what [copyin] gets of the [nsops] operations. *)
Definition semop (c : caller) (id nsops : Z) (ops : option (list sembuf)) (s : semsys) : run (outcome * semsys) :=
  if semopm si <? nsops then Ret (Failed E2BIG, s)
  else if nsops =? 0 then Ret (Done, s)
  else
    match ops with
    | None => Ret (Failed EFAULT, s)
    | Some ops =>
        let* r := semconv_lock id s in
        match r with
        | None => Ret (Failed EINVAL, s)
        | Some sp =>
            match semop_access c sp ops with
            | Some e => Ret (Failed e, s)
            | None => semop_check c id ops s
            end
        end
    end.

(** After [cv_wait_sig]: the thread goes back to [check], or was interrupted. *)
Definition semop_again (c : caller) (id : Z) (ops : list sembuf) (s : semsys) : run (outcome * semsys) :=
  let* r := semconv id s in
  match r with Some _ => Ret (Failed EIDRM, s) | None => semop_check c id ops s end.
Definition semop_eintr (zero : bool) (i : Z) (s : semsys) : run (outcome * semsys) :=
  let* x := get_sem i s in
  if cnt zero x <=? 1 then let* s := mod_sem (set_cnt zero 0) i s in Ret (Failed EINTR, emit (Broadcast zero i) s)
  else let* s := mod_sem (set_cnt zero (w16 (cnt zero x - 1))) i s in Ret (Failed EINTR, s).

(** ** [semctl] *)

Inductive sem_cmd :=
| IPC_RMID
| IPC_SET (ids : option (Z * Z * Z))
| IPC_STAT
| GETNCNT | GETPID | GETVAL | GETZCNT
| GETALL
| SETVAL (arg : Z)
| SETALL (vals : option (list Z)).

(** What a command gives back, besides an error: a number, the values of the set, or its structure. *)
Inductive sem_reply := RNum (v : Z) | RVals (l : list Z) | RStat (sp : semid_ds) | RErr (e : sem_errno).

Definition owner (c : caller) (sp : semid_ds) : bool :=
  (cr_uid (cr c) =? uid (sem_perm sp)) || (cr_uid (cr c) =? cuid (sem_perm sp)) || suser (cr c).

Definition MAXUID : Z := 2147483647.

(** All that wait for the semaphore are woken, and it is cleared. *)
Definition sem_clear (i : Z) (s : semsys) : run semsys :=
  let* s := mod_sem (λ x, set_sempid 0 (set_semval 0 x)) i s in
  let* s := wake false false i s in wake true false i s.

Fixpoint sems_do (f : Z → semsys → run semsys) (i : Z) (n : nat) (s : semsys) : run semsys :=
  match n with
  | O => Ret s
  | S n => let* s := f i s in sems_do f (i + 1) n s
  end.

(** A new value, and those that wait for it. *)
Definition sem_setval (c : caller) (i v : Z) (s : semsys) : run semsys :=
  let* s := mod_sem (set_semval v) i s in
  let* s := if truthy v then wake false false i s else wake true false i s in
  mod_sem (set_sempid (p_pid c)) i s.

Fixpoint sem_setall (c : caller) (i : Z) (vals : list Z) (s : semsys) : run semsys :=
  match vals with
  | [] => Ret s
  | v :: vals => let* s := sem_setval c i v s in sem_setall c (i + 1) vals s
  end.

Fixpoint sem_getall (i : Z) (n : nat) (s : semsys) : run (list Z) :=
  match n with
  | O => Ret []
  | S n => let* x := get_sem i s in let* l := sem_getall (i + 1) n s in Ret (semval x :: l)
  end.

(** A command on one semaphore, which it must have the right to. *)
Definition sem_one (c : caller) (m num : Z) (sp : semid_ds) (s : semsys) (f : Z → run (sem_reply * semsys)) : run (sem_reply * semsys) :=
  match ipcaccess (sem_perm sp) m (cr c) with
  | Some e => Ret (RErr e, s)
  | None => if sem_nsems sp <=? num then Ret (RErr EINVAL, s) else f (sem_base sp + num)
  end.
Definition sem_get (c : caller) (num : Z) (sp : semid_ds) (s : semsys) (g : sem → Z) : run (sem_reply * semsys) :=
  sem_one c SEM_R num sp s (λ i, let* x := get_sem i s in Ret (RNum (g x), s)).

Definition sem_rmid (c : caller) (id : Z) (sp : semid_ds) (s : semsys) : run (sem_reply * semsys) :=
  if negb (owner c sp) then Ret (RErr EPERM, s)
  else
    let* s := semunrm id 0 (sem_nsems sp) s in
    let* s := sems_do sem_clear (sem_base sp) (Z.to_nat (sem_nsems sp)) s in
    let* r := rmfree (semmap s) (sem_nsems sp) (sem_base sp + 1) in
    match r with
    | None => Fault
    | Some (m, _) =>
        let seq := if sema_seq id =? SEMA_SEQ_MAX then 0 else w32 (seq_ (sem_perm sp) + 1) in
        let* s := mod_sema (λ sp, set_perm (set_mode 0 (set_seq seq (sem_perm sp))) sp) (sema_index id) (set_semmap m s) in
        Ret (RNum 0, s)
    end.

Definition semctl (c : caller) (id semnum : Z) (cmd : sem_cmd) (s : semsys) : run (sem_reply * semsys) :=
  let* r := semconv_lock id s in
  match r with
  | None => Ret (RErr EINVAL, s)
  | Some sp =>
      match cmd with
      | IPC_RMID => sem_rmid c id sp s
      | IPC_SET ids =>
          if negb (owner c sp) then Ret (RErr EPERM, s)
          else
            match ids with
            | None => Ret (RErr EFAULT, s)
            | Some (u, g, m) =>
                if (u <? 0) || (MAXUID <? u) || (g <? 0) || (MAXUID <? g) then Ret (RErr EINVAL, s)
                else
                  let* s := mod_sema (λ sp, let p := sem_perm sp in
                    Semid_ds (Ipc_perm u g (cuid p) (cgid p) (Z.lor (Z.land m 0x1ff) IPC_ALLOC) (seq_ p) (key p))
                      (sem_base sp) (sem_nsems sp) (sem_otime sp) (now c) (sem_binary sp)) (sema_index id) s in
                  Ret (RNum 0, s)
            end
      | IPC_STAT =>
          match ipcaccess (sem_perm sp) SEM_R (cr c) with Some e => Ret (RErr e, s) | None => Ret (RStat sp, s) end
      | GETNCNT => sem_get c semnum sp s semncnt
      | GETPID => sem_get c semnum sp s sempid
      | GETVAL => sem_get c semnum sp s semval
      | GETZCNT => sem_get c semnum sp s semzcnt
      | GETALL =>
          match ipcaccess (sem_perm sp) SEM_R (cr c) with
          | Some e => Ret (RErr e, s)
          | None => let* l := sem_getall (sem_base sp) (Z.to_nat (sem_nsems sp)) s in Ret (RVals l, s)
          end
      | SETVAL arg =>
          sem_one c SEM_A semnum sp s (λ i,
            if semvmx si <? w32 arg then Ret (RErr ERANGE, s)
            else
              let* s := sem_setval c i (w16 arg) s in
              let* s := semunrm id (w16 semnum) (w16 semnum) s in Ret (RNum 0, s))
      | SETALL vals =>
          match ipcaccess (sem_perm sp) SEM_A (cr c) with
          | Some e => Ret (RErr e, s)
          | None =>
              match vals with
              | None => Ret (RErr EFAULT, s)
              | Some vals =>
                  if existsb (Z.ltb (semvmx si)) vals then Ret (RErr ERANGE, s)
                  else
                    let* s := semunrm id 0 (sem_nsems sp) s in
                    let* s := sem_setall c (sem_base sp) vals s in Ret (RNum 0, s)
              end
          end
      end
  end.

(** ** Exit *)

(** The adjustment of one entry. *)
Definition semexit_one (e : undo) (s : semsys) : run semsys :=
  let* r := semconv_lock (un_id e) s in
  match r with
  | None => Ret s
  | Some sp =>
      let i := sem_base sp + un_num e in
      let* x := get_sem i s in
      let v := semval x + un_aoe e in
      if (v <? 0) || (semvmx si <? v) then Ret s
      else
        let* s := mod_sem (set_semval (w16 v)) i s in
        let* s := if v =? 0 then wake true false i s else Ret s in
        if 0 <? un_aoe e then wake false false i s else Ret s
  end.

(** From the last entry to the first. *)
Fixpoint semexit_list (l : list undo) (s : semsys) : run semsys :=
  match l with
  | [] => Ret s
  | e :: l => let* s := semexit_one e s in semexit_list l s
  end.

Definition semexit (c : caller) (s : semsys) : run semsys :=
  let p := p_slot c in
  match s_undo s !! p with
  | None => Ret s
  | Some l =>
      let* s := semexit_list (rev l) s in
      let s := match l with [] => s | _ => drop_active p s end in
      Ret (set_semfup (semfup s + 1) (set_undo (delete p (s_undo s)) s))
  end.

(** ** [semget] *)

(** [ipcget] on the permissions of the entries of a facility. *)
Definition ipc_alloc (p : ipc_perm) : bool := truthy (Z.land (mode p) IPC_ALLOC).
Definition ipc_free (p : ipc_perm) : bool := negb (ipc_alloc p).
Fixpoint ipc_find (f : ipc_perm → bool) (i : Z) (l : list ipc_perm) : option Z :=
  match l with
  | [] => None
  | p :: l => if f p then Some i else ipc_find f (i + 1) l
  end.

Definition ipc_init (c : caller) (k flag : Z) (p : ipc_perm) : ipc_perm :=
  Ipc_perm (cr_uid (cr c)) (cr_gid (cr c)) (cr_uid (cr c)) (cr_gid (cr c)) (Z.lor IPC_ALLOC (Z.land flag 0x1ff)) (seq_ p) k.

(** Whether the entry is new, its index, and its permissions. *)
Definition ipcget (c : caller) (k flag : Z) (l : list ipc_perm) : sem_errno + (bool * Z * ipc_perm) :=
  let make :=
    match ipc_find ipc_free 0 l with
    | None => inl ENOSPC
    | Some i => match l !! Z.to_nat i with Some p => inr (true, i, ipc_init c k flag p) | None => inl ENOSPC end
    end in
  if k =? IPC_PRIVATE then make
  else
    match ipc_find (λ p, ipc_alloc p && (key p =? k)) 0 l with
    | Some i =>
        if Z.land flag (Z.lor IPC_CREAT IPC_EXCL) =? Z.lor IPC_CREAT IPC_EXCL then inl EEXIST
        else
          match l !! Z.to_nat i with
          | Some p => if truthy (Z.ldiff (Z.land flag 0x1ff) (mode p)) then inl EACCES else inr (false, i, p)
          | None => inl ENOENT
          end
    | None => if negb (truthy (Z.land flag IPC_CREAT)) then inl ENOENT else make
    end.

Definition sem_name (i : Z) (sp : semid_ds) : Z := w32 (Z.shiftl (seq_ (sem_perm sp)) SEMA_SEQ_SHIFT + i).

Definition semget (c : caller) (k nsems semflg : Z) (s : semsys) : run (sem_reply * semsys) :=
  match ipcget c k semflg (sem_perm <$> sema s) with
  | inl e => Ret (RErr e, s)
  | inr (isnew, i, p) =>
      if isnew : bool then
        let* s := mod_sema (set_perm p) i s in
        let drop s := mod_sema (λ sp, set_perm (set_mode 0 (sem_perm sp)) sp) i s in
        if (nsems <=? 0) || (semmsl si <? nsems) then let* s := drop s in Ret (RErr EINVAL, s)
        else
          let* (m, a) := rmalloc (semmap s) nsems in
          if a =? 0 then let* s := drop (set_semmap m s) in Ret (RErr ENOSPC, s)
          else
            let* s := mod_sema (λ sp, Semid_ds (sem_perm sp) (a - 1) (w16 nsems) 0 (now c) 1) i (set_semmap m s) in
            let* sp := zget (sema s) i in Ret (RNum (sem_name i sp), s)
      else
        let* sp := zget (sema s) i in
        if truthy nsems && (sem_nsems sp <? w32 nsems) then Ret (RErr EINVAL, s) else Ret (RNum (sem_name i sp), s)
  end.
End Sem.
