(* ===== verification/SemOps.v ===== *)
(** * One call on a set of semaphores

    What the parts of [semop] do to the values of the semaphores and to the adjustments of the
    process: above all, that the operations done are undone when one of them cannot be done. *)

From S2P Require Import Prelude Rmap Sem.

(** ** Entries *)

Lemma s16_range z : - 2 ^ 15 ≤ s16 z < 2 ^ 15.
Proof. unfold s16. pose proof (Z.mod_pos_bound (z + 2 ^ 15) (2 ^ 16)). lia. Qed.

(** The order of entries. *)
Definition undo_lt (a b : undo) : Prop := un_id a < un_id b ∨ (un_id a = un_id b ∧ un_num a < un_num b).

Lemma before_lt id num e : aoe_before id num e = true ↔ un_id e < id ∨ (un_id e = id ∧ un_num e < num).
Proof. unfold aoe_before. rewrite orb_true_iff, andb_true_iff, !Z.ltb_lt, Z.eqb_eq. done. Qed.

Lemma is_eq id num e : aoe_is id num e = true ↔ un_id e = id ∧ un_num e = num.
Proof. unfold aoe_is. by rewrite andb_true_iff, !Z.eqb_eq. Qed.

(** No entry of [l] is before semaphore [num] of [id], at its head. *)
Definition from (id num : Z) (l : list undo) : Prop := ∀ e, head l = Some e → aoe_before id num e = false.

Lemma split_ok id num l l1 l2 : aoe_split id num l = (l1, l2) → l = l1 ++ l2 ∧ Forall (λ e, aoe_before id num e = true) l1 ∧ from id num l2.
Proof.
  revert l1 l2. induction l as [|e l IH]; intros l1 l2 H; simpl in H; [by injection H as <- <-|].
  destruct (aoe_before id num e) eqn:E.
  - destruct (aoe_split id num l) as [a b]. injection H as <- <-. destruct (IH a b eq_refl) as (-> & Ha & Hb). split; [done|]. by split; [constructor|].
  - injection H as <- <-. split; [done|]. split; [constructor|]. intros e' [= <-]. done.
Qed.

Lemma split_app id num l1 l2 : Forall (λ e, aoe_before id num e = true) l1 → from id num l2 → aoe_split id num (l1 ++ l2) = (l1, l2).
Proof.
  intros H1 H2. induction H1 as [|e l1 He _ IH]; simpl.
  - destruct l2 as [|e l2]; [done|]. simpl. by rewrite (H2 e eq_refl).
  - by rewrite He, IH.
Qed.

Lemma is_from id num e l : aoe_is id num e = true → from id num (e :: l).
Proof.
  intros [E1 E2]%is_eq e' [= <-]. apply not_true_iff_false. rewrite before_lt. lia.
Qed.

Section Aoe.
Context (si : seminfo).

(** What [semaoe] makes of the entries of the process, if it does not fail. *)
Definition aoe_upd (val id num : Z) (l : list undo) : option (list undo) :=
  if val =? 0 then Some l
  else if (semaem si <? val) || (val <? - semaem si) then None
  else
    let (l1, l2) := aoe_split id num l in
    match aoe_found id num l2 with
    | None => if semume si <=? zlen l then None else Some (l1 ++ Undo (s16 (- val)) num id :: l2)
    | Some (e, l2) =>
        let aoe := s16 (un_aoe e - val) in
        if (semaem si <? aoe) || (aoe <? - semaem si) then None
        else if aoe =? 0 then Some (l1 ++ l2) else Some (l1 ++ Undo aoe num id :: l2)
    end.

Lemma aoe_upd_range val id num l : (val =? 0) = false → (semaem si <? val) || (val <? - semaem si) = true → aoe_upd val id num l = None.
Proof. intros E1 E2. unfold aoe_upd. by rewrite E1, E2. Qed.

Record ents_ok (l : list undo) : Prop := {
  eo_sorted : StronglySorted undo_lt l;
  eo_aoe e : e ∈ l → un_aoe e ≠ 0 ∧ - semaem si ≤ un_aoe e ≤ semaem si;
  eo_len : zlen l ≤ semume si
}.
Hypothesis Hsi : 0 ≤ semaem si ≤ 16384.

Lemma sorted_app_inv l1 l2 : StronglySorted undo_lt (l1 ++ l2) →
  StronglySorted undo_lt l1 ∧ StronglySorted undo_lt l2 ∧ ∀ a b, a ∈ l1 → b ∈ l2 → undo_lt a b.
Proof using Type. intros H. split_and!; [by eapply StronglySorted_app_1_l|by eapply StronglySorted_app_1_r|]. intros. by eapply StronglySorted_app_1_elem_of. Qed.

Lemma found_some id num l e l' : aoe_found id num l = Some (e, l') → l = e :: l' ∧ aoe_is id num e = true.
Proof using Type. unfold aoe_found. destruct l as [|a l]; [done|]. destruct (aoe_is id num a) eqn:E; [|done]. by intros [= -> ->]. Qed.

Lemma found_none id num l e l' : aoe_found id num l = None → l = e :: l' → aoe_is id num e = false.
Proof using Type. unfold aoe_found. intros H ->. by destruct (aoe_is id num e). Qed.

Lemma found_is id num e l : aoe_is id num e = true → aoe_found id num (e :: l) = Some (e, l).
Proof using Type. unfold aoe_found. by intros ->. Qed.

#[local] Instance undo_lt_trans : Transitive undo_lt.
Proof using Type. intros a b c. unfold undo_lt. lia. Qed.

(** Entries at one place: those before it, perhaps its own, those after it. *)
Lemma sorted_mid e l1 l2 : StronglySorted undo_lt (l1 ++ l2) → (∀ a, a ∈ l1 → undo_lt a e) → (∀ b, b ∈ l2 → undo_lt e b) →
  StronglySorted undo_lt (l1 ++ e :: l2).
Proof using Type.
  intros (S1 & S2 & H12)%sorted_app_inv H1 H2. apply StronglySorted_app. split_and!; [|done|constructor; [done|by apply Forall_forall]].
  intros a b Ha [->|Hb]%elem_of_cons; [by apply H1|by apply H12].
Qed.

Lemma sorted_drop e l1 l2 : StronglySorted undo_lt (l1 ++ e :: l2) → StronglySorted undo_lt (l1 ++ l2).
Proof using Type.
  intros (S1 & S2 & H12)%sorted_app_inv. apply StronglySorted_inv in S2 as [S2 _]. apply StronglySorted_app. split_and!; [|done|done].
  intros a b Ha Hb. apply H12; [done|by right].
Qed.

Lemma before_forall id num l e : Forall (λ e, aoe_before id num e = true) l → un_id e = id → un_num e = num → ∀ a, a ∈ l → undo_lt a e.
Proof using Type. intros H <- <- a Ha. rewrite Forall_forall in H. apply H, before_lt in Ha. exact Ha. Qed.

Lemma sorted_before id num e l1 l2 : StronglySorted undo_lt (l1 ++ e :: l2) → aoe_is id num e = true → Forall (λ e, aoe_before id num e = true) l1.
Proof using Type.
  intros (_ & _ & H)%sorted_app_inv [<- <-]%is_eq. apply Forall_forall. intros a Ha. apply before_lt. apply (H a e); [done|left].
Qed.

Lemma sorted_from id num e l1 l2 : StronglySorted undo_lt (l1 ++ e :: l2) → aoe_is id num e = true →
  from id num l2 ∧ aoe_found id num l2 = None.
Proof using Type.
  intros (_ & S2 & _)%sorted_app_inv [<- <-]%is_eq. apply StronglySorted_inv in S2 as [_ H]. destruct l2 as [|b l2]; [by split|].
  apply Forall_cons in H as [H _]. unfold undo_lt in H. split.
  - intros b' [= <-]. apply not_true_iff_false. rewrite before_lt. lia.
  - simpl. destruct (aoe_is (un_id e) (un_num e) b) eqn:E; [|done]. apply is_eq in E. lia.
Qed.

(** A new entry goes where its place is. *)
Lemma sorted_new id num l1 l2 v : StronglySorted undo_lt (l1 ++ l2) → Forall (λ e, aoe_before id num e = true) l1 → from id num l2 →
  aoe_found id num l2 = None → StronglySorted undo_lt (l1 ++ Undo v num id :: l2).
Proof using Type.
  intros Hs H1 H2 Hf. apply sorted_mid; [done|by eapply before_forall|].
  apply sorted_app_inv in Hs as (_ & S2 & _). destruct l2 as [|b l2]; [intros b []%elem_of_nil|].
  assert (undo_lt (Undo v num id) b) as Hb.
  { pose proof (H2 b eq_refl) as Hb. apply not_true_iff_false in Hb. rewrite before_lt in Hb.
    assert (aoe_is id num b = false) as Hi by (by eapply found_none). apply not_true_iff_false in Hi. rewrite is_eq in Hi.
    unfold undo_lt. simpl. lia. }
  apply StronglySorted_inv in S2 as [_ Hall]. rewrite Forall_forall in Hall.
  intros c [->|Hc]%elem_of_cons; [done|]. etrans; [exact Hb|]. by apply Hall.
Qed.

Lemma ents_change e a l1 l2 : ents_ok (l1 ++ e :: l2) → a ≠ 0 → - semaem si ≤ a ≤ semaem si →
  ents_ok (l1 ++ Undo a (un_num e) (un_id e) :: l2).
Proof using Type.
  intros [H1 H2 H3] Ha Hr. split.
  - pose proof (sorted_drop _ _ _ H1) as Hd. apply sorted_app_inv in H1 as (_ & S2 & H12). apply StronglySorted_inv in S2 as [_ Hall].
    rewrite Forall_forall in Hall. apply sorted_mid; [done| |].
    + intros b Hb. exact (H12 b e Hb ltac:(left)).
    + intros b Hb. exact (Hall b Hb).
  - intros b. rewrite elem_of_app, elem_of_cons. intros [Hb|[->|Hb]]; [apply H2, elem_of_app; by left|done|apply H2, elem_of_app; right; by right].
  - rewrite length_app in *. simpl in *. lia.
Qed.

Lemma ents_drop e l1 l2 : ents_ok (l1 ++ e :: l2) → ents_ok (l1 ++ l2).
Proof using Hsi.
  intros [H1 H2 H3]. split; [by eapply sorted_drop| |rewrite length_app in *; simpl in *; lia].
  intros b. rewrite elem_of_app. intros Hb. apply H2. rewrite elem_of_app, elem_of_cons. tauto.
Qed.

Lemma ents_new id num a l1 l2 : ents_ok (l1 ++ l2) → Forall (λ e, aoe_before id num e = true) l1 → from id num l2 →
  aoe_found id num l2 = None → a ≠ 0 → - semaem si ≤ a ≤ semaem si → zlen (l1 ++ l2) < semume si → ents_ok (l1 ++ Undo a num id :: l2).
Proof using Type.
  intros [H1 H2 H3] Hb Hf Hn Ha Hr Hlen. split; [by apply sorted_new| |rewrite length_app in *; simpl in *; lia].
  intros b. rewrite elem_of_app, elem_of_cons. intros [Hx|[->|Hx]]; [apply H2, elem_of_app; by left|done|apply H2, elem_of_app; by right].
Qed.

Lemma aoe_upd_ok val id num l l' : ents_ok l → aoe_upd val id num l = Some l' → ents_ok l' ∧ aoe_upd (s16 (- val)) id num l' = Some l.
Proof using Hsi.
  intros Hok. unfold aoe_upd at 1. destruct (Z.eqb_spec val 0) as [->|Hv]; [intros [= <-]; split; [done|]; reflexivity|].
  destruct ((semaem si <? val) || (val <? - semaem si)) eqn:Er; [done|]. zb. destruct (aoe_split id num l) as [l1 l2] eqn:Es.
  apply split_ok in Es as (-> & Hb & Hf).
  assert (s16 (- val) = - val) as Ev by (apply s16_id; lia).
  assert (∀ l0, aoe_upd (s16 (- val)) id num l0 = let (l1, l2) := aoe_split id num l0 in
    match aoe_found id num l2 with
    | None => if semume si <=? zlen l0 then None else Some (l1 ++ Undo (s16 (- - val)) num id :: l2)
    | Some (e, l2) =>
        let aoe := s16 (un_aoe e - - val) in
        if (semaem si <? aoe) || (aoe <? - semaem si) then None
        else if aoe =? 0 then Some (l1 ++ l2) else Some (l1 ++ Undo aoe num id :: l2)
    end) as Hupd.
  { intros l0. unfold aoe_upd. rewrite Ev. destruct (Z.eqb_spec (- val) 0); [lia|].
    by rewrite (proj2 (Z.ltb_ge _ (- val))), (proj2 (Z.ltb_ge (- val) _)) by lia. }
  destruct (aoe_found id num l2) as [[e l2']|] eqn:Ef.
  - apply found_some in Ef as [-> He]. pose proof He as [<- <-]%is_eq.
    destruct (eo_aoe _ Hok e) as [He0 He1]; [apply elem_of_app; right; left|].
    cbv zeta. destruct ((semaem si <? s16 (un_aoe e - val)) || (s16 (un_aoe e - val) <? - semaem si)) eqn:Ea; [done|]. zb.
    assert (s16 (un_aoe e - val) = un_aoe e - val) as Eaoe.
    { apply s16_id. assert (un_aoe e - val = 2 ^ 15 ∨ - 2 ^ 15 ≤ un_aoe e - val < 2 ^ 15) as [E15|]; [lia| |done].
      exfalso. rewrite E15 in *. replace (s16 (2 ^ 15)) with (- 2 ^ 15) in * by reflexivity. lia. }
    rewrite Eaoe in *. destruct (Z.eqb_spec (un_aoe e - val) 0) as [E0|E0]; intros [= <-].
    + split; [by eapply ents_drop|]. destruct (sorted_from _ _ _ _ _ (eo_sorted _ Hok) He) as [Hf2 Hn2].
      rewrite Hupd, split_app by done. rewrite Hn2. pose proof (eo_len _ Hok) as Hlen. rewrite length_app in *. simpl in Hlen.
      rewrite (proj2 (Z.leb_gt _ _)) by lia. replace (s16 (- - val)) with (un_aoe e) by (rewrite s16_id; lia). by destruct e.
    + split; [by apply ents_change|]. assert (aoe_is (un_id e) (un_num e) (Undo (un_aoe e - val) (un_num e) (un_id e)) = true) as Hi by (by apply is_eq).
      rewrite Hupd, split_app by (done || by apply is_from). rewrite (found_is _ _ _ _ Hi). cbn [un_aoe].
      replace (un_aoe e - val - - val) with (un_aoe e) by lia. rewrite (s16_id (un_aoe e)) by lia.
      rewrite (proj2 (Z.ltb_ge _ _)), (proj2 (Z.ltb_ge _ _)), (proj2 (Z.eqb_neq _ _)) by lia. by destruct e.
  - destruct (Z.leb_spec (semume si) (zlen (l1 ++ l2))) as [Hlen|Hlen]; [done|]. intros [= <-].
    split; [rewrite Ev; apply ents_new; [done..|lia|lia|lia]|].
    assert (aoe_is id num (Undo (s16 (- val)) num id) = true) as Hi by (by apply is_eq).
    rewrite Hupd, split_app by (done || by apply is_from). rewrite (found_is _ _ _ _ Hi). cbn [un_aoe]. rewrite Ev.
    replace (- val - - val) with 0 by lia. change (s16 0) with 0. rewrite (proj2 (Z.ltb_ge _ _)), (proj2 (Z.ltb_ge _ _)) by lia. done.
Qed.

(** ** The undo structures *)

(** Entries of process [p]. *)
Definition ents (s : semsys) (p : Z) : list undo := default [] (s_undo s !! p).

Record undo_ok (s : semsys) : Prop := {
  uo_ents p l : s_undo s !! p = Some l → ents_ok l;
  uo_nodup : NoDup (semunp s);
  uo_active p : p ∈ semunp s ↔ ents s p ≠ [];
  uo_free : 0 ≤ semfup s
}.

(** Everything but the undo structures of [p]. *)
Record aoe_frame (p : Z) (s s' : semsys) : Prop := {
  af_sema : sema s' = sema s;
  af_sem : s_sem s' = s_sem s;
  af_cvs : cvs s' = cvs s;
  af_map : semmap s' = semmap s;
  af_undo q : q ≠ p → s_undo s' !! q = s_undo s !! q
}.

Lemma ents_nil_ok : 0 ≤ semume si → ents_ok [].
Proof using Type. intros H. split; [constructor|by intros e ?%elem_of_nil|done]. Qed.

Lemma ents_insert p q l s : ents (set_undo (<[p := l]> (s_undo s)) s) q = if decide (q = p) then l else ents s q.
Proof using Type.
  unfold ents. simpl. destruct (decide (q = p)) as [->|Hne]; [by rewrite lookup_insert_eq|by rewrite lookup_insert_ne].
Qed.

(** New entries of a process that has a structure; the active list follows. *)
Definition put_ents (p : Z) (l : list undo) (s : semsys) : semsys :=
  let s1 := set_undo (<[p := l]> (s_undo s)) s in
  match ents s p, l with
  | [], _ :: _ => set_semunp (p :: semunp s) s1
  | _ :: _, [] => drop_active p s1
  | _, _ => s1
  end.

Lemma put_ents_frame p l s : aoe_frame p s (put_ents p l s) ∧ s_undo (put_ents p l s) !! p = Some l ∧ semfup (put_ents p l s) = semfup s.
Proof using Type.
  unfold put_ents. split; [|split].
  - assert (∀ s1, aoe_frame p s (set_undo (<[p := l]> (s_undo s)) s) → s1 = set_undo (<[p := l]> (s_undo s)) s ∨
      (∃ x, s1 = set_semunp x (set_undo (<[p := l]> (s_undo s)) s)) → aoe_frame p s s1) as H.
    { intros s1 [] [->|(x & ->)]; by split. }
    apply H; [split; try done; intros q Hq; simpl; by rewrite lookup_insert_ne|].
    destruct (ents s p), l; eauto.
  - destruct (ents s p), l; simpl; apply lookup_insert_eq.
  - by destruct (ents s p), l.
Qed.

Lemma put_ents_ok p l s : undo_ok s → ents_ok l → undo_ok (put_ents p l s) ∧ ∀ q, ents (put_ents p l s) q = if decide (q = p) then l else ents s q.
Proof using Hsi.
  intros [H1 H2 H3 H4] Hl.
  assert (∀ q, ents (put_ents p l s) q = if decide (q = p) then l else ents s q) as He.
  { intros q. rewrite <-ents_insert. unfold put_ents. by destruct (ents s p), l. }
  split; [|done]. split.
  - intros q lq Hq. assert (s_undo (put_ents p l s) = <[p := l]> (s_undo s)) as E by (unfold put_ents; by destruct (ents s p), l).
    rewrite E in Hq. apply lookup_insert_Some in Hq as [[<- <-]|[_ Hq]]; [done|by eapply H1].
  - unfold put_ents. destruct (ents s p) eqn:Ep, l; simpl; try done; [constructor; [|done]|by apply NoDup_filter].
    rewrite H3, Ep. intros H. by apply H.
  - intros q. rewrite He. unfold put_ents. destruct (decide (q = p)) as [->|Hne].
    + destruct (ents s p) eqn:Ep, l as [|e1 l1]; simpl.
      * rewrite H3, Ep. done.
      * rewrite elem_of_cons. split; [done|by left].
      * rewrite list_elem_of_filter. split; [by intros [? _]|done].
      * rewrite H3, Ep. done.
    + destruct (ents s p) eqn:Ep, l as [|e1 l1]; simpl; rewrite ?elem_of_cons, ?list_elem_of_filter, H3; tauto.
  - by rewrite (proj2 (proj2 (put_ents_frame p l s))).
Qed.

(** [semaoe] once the process has a structure. *)
Lemma semaoe_in_ok p val id num s l : s_undo s !! p = Some l → val ≠ 0 → (semaem si <? val) || (val <? - semaem si) = false →
  semaoe_in si p val id num l s = match aoe_upd val id num l with Some l' => (None, put_ents p l' s) | None =>
    (fst (semaoe_in si p val id num l s), s) end ∧
  (aoe_upd val id num l = None → is_Some (fst (semaoe_in si p val id num l s))).
Proof using Type.
  intros Hl Hv Er. unfold semaoe_in, aoe_upd. rewrite (proj2 (Z.eqb_neq val 0)), Er by done.
  destruct (aoe_split id num l) as [l1 l2] eqn:Es. apply split_ok in Es as (-> & Hb & Hf).
  assert (ents s p = l1 ++ l2) as Ep by (unfold ents; by rewrite Hl).
  destruct (aoe_found id num l2) as [[e l2']|] eqn:Ef.
  - apply found_some in Ef as [-> He]. cbv zeta. destruct ((semaem si <? s16 (un_aoe e - val)) || (s16 (un_aoe e - val) <? - semaem si)); [split; [done|intros _; by eexists]|].
    destruct (s16 (un_aoe e - val) =? 0); (split; [|done]); unfold put_ents; rewrite Ep.
    + destruct l1, l2'; simpl; done.
    + destruct l1; simpl; done.
  - destruct (semume si <=? zlen (l1 ++ l2)); [split; [done|intros _; by eexists]|]. split; [|done]. unfold put_ents. rewrite Ep.
    destruct l1, l2; simpl; done.
Qed.

Lemma aoe_frame_refl p s : aoe_frame p s s.
Proof using Type. by split. Qed.

Lemma aoe_frame_trans p s s1 s2 : aoe_frame p s s1 → aoe_frame p s1 s2 → aoe_frame p s s2.
Proof using Type.
  intros [A1 A2 A3 A4 A5] [B1 B2 B3 B4 B5]. split; [congruence..|]. intros q Hq. by rewrite B5, A5.
Qed.

Context (Hume : 0 ≤ semume si).

(** A free structure for the process. *)
Definition take_undo (p : Z) (s : semsys) : semsys := set_undo (<[p := []]> (s_undo s)) (set_semfup (semfup s - 1) s).

Lemma take_undo_ok p s : undo_ok s → s_undo s !! p = None → semfup s ≠ 0 →
  undo_ok (take_undo p s) ∧ aoe_frame p s (take_undo p s) ∧ ents s p = [] ∧ s_undo (take_undo p s) !! p = Some [].
Proof using Hume.
  intros [H1 H2 H3 H4] Hp Hf. assert (ents s p = []) as Ep by (unfold ents; by rewrite Hp).
  assert (∀ q, ents (take_undo p s) q = ents s q) as He.
  { intros q. unfold ents. simpl. destruct (decide (q = p)) as [->|Hne]; [by rewrite lookup_insert_eq, Hp|by rewrite lookup_insert_ne]. }
  split; [|split; [|split; [done|apply lookup_insert_eq]]].
  - split; [|done| |simpl; lia].
    + intros q l Hq. simpl in Hq. apply lookup_insert_Some in Hq as [[<- <-]|[_ Hq]]; [by apply ents_nil_ok|by eapply H1].
    + intros q. rewrite He. apply H3.
  - split; try done. intros q Hq. simpl. by rewrite lookup_insert_ne.
Qed.

(** What [semaoe] does, when the process has a structure and when it has none. *)
Lemma semaoe_has p val id num s l : undo_ok s → s_undo s !! p = Some l →
  match aoe_upd val id num l with
  | Some l' => ∃ s', semaoe si p val id num s = (None, s') ∧ undo_ok s' ∧ aoe_frame p s s' ∧ s_undo s' !! p = Some l'
  | None => ∃ e, semaoe si p val id num s = (Some e, s)
  end.
Proof using Hsi.
  intros Hok Hl. pose proof (uo_ents _ Hok p l Hl) as Hents. unfold semaoe. rewrite Hl.
  destruct (Z.eqb_spec val 0) as [->|Hv]; [unfold aoe_upd; simpl; exists s; split; [done|]; split; [done|]; by split; [apply aoe_frame_refl|]|].
  destruct ((semaem si <? val) || (val <? - semaem si)) eqn:Er.
  { unfold aoe_upd. rewrite (proj2 (Z.eqb_neq _ _) Hv), Er. by eexists. }
  destruct (semaoe_in_ok p val id num s l Hl Hv Er) as [E1 E2]. rewrite E1.
  destruct (aoe_upd val id num l) as [l'|] eqn:Eu.
  - exists (put_ents p l' s). split; [done|]. destruct (aoe_upd_ok _ _ _ _ _ Hents Eu) as [Hl' _].
    split; [by apply put_ents_ok|]. split; apply put_ents_frame.
  - destruct (E2 eq_refl) as [e ->]. by exists e.
Qed.

Lemma semaoe_ok p val id num s : undo_ok s → ∃ r s', semaoe si p val id num s = (r, s') ∧ undo_ok s' ∧ aoe_frame p s s' ∧
  (val ≠ 0 → r = None → is_Some (s_undo s' !! p)) ∧
  match r with None => aoe_upd val id num (ents s p) = Some (ents s' p) | Some _ => ents s' p = ents s p end.
Proof using Hsi Hume.
  intros Hok. destruct (s_undo s !! p) as [l|] eqn:El.
  - pose proof (semaoe_has p val id num s l Hok El) as H. assert (ents s p = l) as -> by (unfold ents; by rewrite El).
    destruct (aoe_upd val id num l) as [l'|] eqn:Eu.
    + destruct H as (s' & -> & Hok' & Hf & Hl'). exists None, s'. split; [done|]. split; [done|]. split; [done|].
      split; [eauto|]. unfold ents. by rewrite Hl'.
    + destruct H as (e & ->). exists (Some e), s. split; [done|]. split; [done|]. split; [apply aoe_frame_refl|]. split; [done|].
      unfold ents. by rewrite El.
  - assert (ents s p = []) as Ep by (unfold ents; by rewrite El).
    destruct (Z.eqb_spec val 0) as [->|Hv].
    { exists None, s. split; [done|]. split; [done|]. split; [apply aoe_frame_refl|]. split; [done|]. done. }
    destruct ((semaem si <? val) || (val <? - semaem si)) eqn:Er.
    { exists (Some ERANGE), s. unfold semaoe. rewrite (proj2 (Z.eqb_neq _ _) Hv), Er. split; [done|]. split; [done|].
      split; [apply aoe_frame_refl|done]. }
    destruct (Z.eqb_spec (semfup s) 0) as [E0|E0].
    { exists (Some ENOSPC), s. unfold semaoe. rewrite (proj2 (Z.eqb_neq _ _) Hv), Er, El, E0. split; [done|]. split; [done|].
      split; [apply aoe_frame_refl|done]. }
    destruct (take_undo_ok p s Hok El E0) as (Hok1 & Hf1 & _ & Hl1).
    pose proof (semaoe_has p val id num (take_undo p s) [] Hok1 Hl1) as H.
    assert (semaoe si p val id num s = semaoe si p val id num (take_undo p s)) as ->.
    { unfold semaoe. rewrite (proj2 (Z.eqb_neq _ _) Hv), Er, El, Hl1. by rewrite (proj2 (Z.eqb_neq _ _) E0). }
    rewrite Ep. destruct (aoe_upd val id num []) as [l'|] eqn:Eu.
    + destruct H as (s' & -> & Hok' & Hf & Hl'). exists None, s'. split; [done|]. split; [done|].
      split; [by eapply aoe_frame_trans|]. split; [eauto|]. unfold ents. by rewrite Hl'.
    + destruct H as (e & ->). exists (Some e), (take_undo p s). split; [done|]. split; [done|]. split; [done|]. split; [done|].
      unfold ents. by rewrite Hl1.
Qed.

(** The adjustment is taken back. *)
Lemma semaoe_back p val id num s l : undo_ok s → is_Some (s_undo s !! p) → ents_ok l → aoe_upd val id num l = Some (ents s p) →
  ∃ s', semaoe si p (s16 (- val)) id num s = (None, s') ∧ undo_ok s' ∧ aoe_frame p s s' ∧ s_undo s' !! p = Some l.
Proof using Hsi.
  intros Hok [l' Hl'] Hl Hu. assert (ents s p = l') as Ep by (unfold ents; by rewrite Hl'). rewrite Ep in Hu.
  destruct (aoe_upd_ok _ _ _ _ _ Hl Hu) as [_ Hb]. pose proof (semaoe_has p (s16 (- val)) id num s l' Hok Hl') as H.
  by rewrite Hb in H.
Qed.
End Aoe.

(** ** Semaphores *)

Definition sem_at (s : semsys) (i : Z) : option sem := if i <? 0 then None else s_sem s !! Z.to_nat i.

(** The values, and what else there is of a semaphore. *)
Definition vals (s : semsys) : list Z := semval <$> s_sem s.
Definition rest (x : sem) : Z * Z * Z := (sempid x, semncnt x, semzcnt x).

Lemma sem_at_get s i x : sem_at s i = Some x → get_sem i s = Ret x.
Proof. unfold sem_at, get_sem, zget. destruct (i <? 0); [done|]. by intros ->. Qed.

Lemma mod_sem_ok f s i x : sem_at s i = Some x → mod_sem f i s = Ret (set_sem (<[Z.to_nat i := f x]> (s_sem s)) s).
Proof.
  intros H. unfold mod_sem. rewrite (sem_at_get s i x H). cbn [rbind]. unfold sem_at in H. destruct (Z.ltb_spec i 0); [done|].
  apply lookup_lt_Some in H. rewrite zset_in by lia. done.
Qed.

Lemma sem_at_set s i f x j : sem_at s i = Some x →
  sem_at (set_sem (<[Z.to_nat i := f]> (s_sem s)) s) j = if decide (j = i) then Some f else sem_at s j.
Proof.
  unfold sem_at. simpl. intros Hx. destruct (Z.ltb_spec i 0); [done|]. destruct (Z.ltb_spec j 0), (decide (j = i)) as [->|Hne]; try lia; [done|..].
  - apply list_lookup_insert_eq. by eapply lookup_lt_Some.
  - apply list_lookup_insert_ne. lia.
Qed.

Lemma vals_set s i f : vals (set_sem (<[i := f]> (s_sem s)) s) = <[i := semval f]> (vals s).
Proof. unfold vals. simpl. apply list_fmap_insert. Qed.

Lemma vals_at s i x : sem_at s i = Some x → vals s !! Z.to_nat i = Some (semval x) ∧ 0 ≤ i.
Proof.
  unfold sem_at, vals. destruct (Z.ltb_spec i 0) as [|Hi]; [done|]. intros Hx. split; [|done]. by rewrite list_lookup_fmap, Hx.
Qed.

Lemma at_vals s i v : vals s !! Z.to_nat i = Some v → 0 ≤ i → ∃ x, sem_at s i = Some x ∧ semval x = v.
Proof.
  unfold sem_at, vals. intros H Hi. rewrite (proj2 (Z.ltb_ge i 0)) by done. rewrite list_lookup_fmap in H.
  destruct (s_sem s !! Z.to_nat i) as [x|]; [|done]. injection H as <-. by exists x.
Qed.

Lemma rest_set_val s i x v : sem_at s i = Some x → rest <$> <[Z.to_nat i := set_semval v x]> (s_sem s) = rest <$> s_sem s.
Proof.
  unfold sem_at. intros H. destruct (i <? 0); [done|]. rewrite list_fmap_insert, list_insert_id; [done|].
  rewrite list_lookup_fmap, H. done.
Qed.

(** ** Waking *)

Definition cv_sem (e : cv_op) : Z := match e with Signal _ i | Broadcast _ i => i end.
Definition is_signal (e : cv_op) : bool := match e with Signal _ _ => true | Broadcast _ _ => false end.

(** A count, after the operations [E] on condition variables, the last first. *)
Fixpoint cnt_after (zero : bool) (i : Z) (E : list cv_op) (n : Z) : Z :=
  match E with
  | [] => n
  | Signal z j :: E => if bool_decide (z = zero ∧ j = i) then cnt_after zero i E n - 1 else cnt_after zero i E n
  | Broadcast z j :: E => if bool_decide (z = zero ∧ j = i) then 0 else cnt_after zero i E n
  end.

Lemma cnt_after_app zero i E E' n : cnt_after zero i (E ++ E') n = cnt_after zero i E (cnt_after zero i E' n).
Proof. induction E as [|[z j|z j] E IH]; simpl; [done|..]; case_bool_decide; by rewrite ?IH. Qed.

Lemma cnt_after_other zero i E n : (∀ e, e ∈ E → cv_sem e ≠ i) → cnt_after zero i E n = n.
Proof.
  induction E as [|e E IH]; intros H; [done|]. assert (cv_sem e ≠ i) as He by (apply H; left).
  destruct e as [z j|z j]; simpl in *; (rewrite bool_decide_eq_false_2 by (intros [_ ->]; done)); apply IH; intros; apply H; by right.
Qed.

(** Semaphore [i] has become [x']; [E] has happened. *)
Record sem_step (i : Z) (x' : sem) (E : list cv_op) (s s' : semsys) : Prop := {
  ss_at j : sem_at s' j = if decide (j = i) then Some x' else sem_at s j;
  ss_len : length (s_sem s') = length (s_sem s);
  ss_cvs : cvs s' = E ++ cvs s;
  ss_sema : sema s' = sema s;
  ss_map : semmap s' = semmap s;
  ss_undo : s_undo s' = s_undo s ∧ semunp s' = semunp s ∧ semfup s' = semfup s
}.

Lemma sem_step_trans i x1 x2 E1 E2 s s1 s2 : sem_step i x1 E1 s s1 → sem_step i x2 E2 s1 s2 → sem_step i x2 (E2 ++ E1) s s2.
Proof.
  intros [A1 A2 A3 A4 A5 (A6 & A7 & A8)] [B1 B2 B3 B4 B5 (B6 & B7 & B8)]. split; [|congruence| |congruence|congruence|split_and!; congruence].
  - intros j. rewrite B1, A1. by destruct (decide (j = i)).
  - by rewrite B3, A3, app_assoc.
Qed.

Lemma sem_step_self i x' E s s' : sem_step i x' E s s' → sem_at s' i = Some x'.
Proof. intros H. rewrite (ss_at _ _ _ _ _ H). by rewrite decide_True. Qed.

Lemma set_step s i x x' : sem_at s i = Some x → sem_step i x' [] s (set_sem (<[Z.to_nat i := x']> (s_sem s)) s).
Proof.
  intros H. split; try done; [|simpl; apply length_insert]. intros j. by apply sem_at_set with x.
Qed.

Lemma step_refl s i x : sem_at s i = Some x → sem_step i x [] s s.
Proof. intros H. split; try done. intros j. by destruct (decide (j = i)) as [->|]. Qed.

Lemma mod_step f s i x : sem_at s i = Some x → ∃ s', mod_sem f i s = Ret s' ∧ sem_step i (f x) [] s s'.
Proof. intros H. eexists. split; [by apply mod_sem_ok|]. by eapply set_step. Qed.

Lemma emit_step i x' E s s' e : sem_step i x' E s s' → sem_step i x' (e :: E) s (emit e s').
Proof. intros [A1 A2 A3 A4 A5 A6]. split; try done. simpl. by rewrite A3. Qed.

Definition cnts_in (x : sem) : Prop := (0 ≤ semncnt x < 2 ^ 16) ∧ 0 ≤ semzcnt x < 2 ^ 16.

Lemma cnt_in zero x : cnts_in x → 0 ≤ cnt zero x < 2 ^ 16.
Proof. by intros []; destruct zero. Qed.

Lemma set_cnt_in zero v x : cnts_in x → 0 ≤ v < 2 ^ 16 → cnts_in (set_cnt zero v x).
Proof. intros [] Hv. by destruct zero. Qed.

Lemma cnt_set zero zero' v x : cnt zero (set_cnt zero' v x) = if bool_decide (zero' = zero) then v else cnt zero x.
Proof. by destruct zero, zero'. Qed.

Lemma semval_set_cnt zero v x : semval (set_cnt zero v x) = semval x ∧ sempid (set_cnt zero v x) = sempid x.
Proof. by destruct zero. Qed.

Lemma wake_ok zero signal i s x : sem_at s i = Some x → cnts_in x →
  ∃ s' x' E, wake zero signal i s = Ret s' ∧ sem_step i x' E s s' ∧ semval x' = semval x ∧ sempid x' = sempid x ∧ cnts_in x' ∧
    (∀ z, cnt z x' = cnt_after z i E (cnt z x)) ∧ (∀ e, e ∈ E → cv_sem e = i ∧ (is_signal e = true → signal = true)) ∧
    (signal = false → cnt zero x' = 0) ∧ ∀ z, z ≠ zero → cnt z x' = cnt z x.
Proof.
  intros Hx Hin. unfold wake. rewrite (sem_at_get s i x Hx). cbn [rbind]. pose proof (cnt_in zero x Hin) as Hc.
  destruct (Z.eqb_spec (cnt zero x) 0) as [E0|E0].
  { exists s, x, []. split; [done|]. split; [|split_and!; try done; intros e He; by apply elem_of_nil in He].
    by apply step_refl. }
  destruct signal.
  - destruct (mod_step (set_cnt zero (w16 (cnt zero x - 1))) s i x Hx) as (s1 & -> & Hs1). cbn [rbind].
    rewrite w16_id in Hs1 by lia. exists (emit (Signal zero i) s1), (set_cnt zero (cnt zero x - 1) x), [Signal zero i].
    split; [done|]. split; [by apply emit_step|]. destruct (semval_set_cnt zero (cnt zero x - 1) x) as [-> ->].
    split; [done|]. split; [done|]. split; [apply set_cnt_in; [done|lia]|]. split; [|split; [|split; [done|]]].
    + intros z. rewrite cnt_set. simpl. repeat case_bool_decide; (done || tauto || congruence).
    + intros e [->|[]%elem_of_nil]%elem_of_cons. done.
    + intros z Hz. rewrite cnt_set. by case_bool_decide.
  - destruct (mod_step (set_cnt zero 0) s i x Hx) as (s1 & -> & Hs1). cbn [rbind].
    exists (emit (Broadcast zero i) s1), (set_cnt zero 0 x), [Broadcast zero i].
    split; [done|]. split; [by apply emit_step|]. destruct (semval_set_cnt zero 0 x) as [-> ->].
    split; [done|]. split; [done|]. split; [apply set_cnt_in; [done|lia]|]. split; [|split; [|split; [|]]].
    + intros z. rewrite cnt_set. simpl. repeat case_bool_decide; (done || tauto || congruence).
    + intros e [->|[]%elem_of_nil]%elem_of_cons. done.
    + intros _. rewrite cnt_set. by case_bool_decide.
    + intros z Hz. rewrite cnt_set. by case_bool_decide.
Qed.

Lemma wake_zero_ok signal i s x : sem_at s i = Some x → cnts_in x →
  ∃ s' x' E, wake_zero signal i s = Ret s' ∧ sem_step i x' E s s' ∧ semval x' = semval x ∧ sempid x' = sempid x ∧ cnts_in x' ∧
    (∀ z, cnt z x' = cnt_after z i E (cnt z x)) ∧ (∀ e, e ∈ E → cv_sem e = i ∧ (is_signal e = true → signal = true)) ∧
    (signal = false → semval x = 0 → semzcnt x' = 0) ∧ semncnt x' = semncnt x.
Proof.
  intros Hx Hin. unfold wake_zero. rewrite (sem_at_get s i x Hx). cbn [rbind]. destruct (Z.eqb_spec (semval x) 0) as [E0|E0].
  - destruct (wake_ok true signal i s x Hx Hin) as (s' & x' & E & -> & H1 & H2 & H3 & H4 & H5 & H6 & H7 & H8).
    exists s', x', E. split_and!; try done; [intros Hs _; exact (H7 Hs)|exact (H8 false ltac:(done))].
  - exists s, x, []. split; [done|]. split; [by apply step_refl|]. split_and!; try done. intros e He. by apply elem_of_nil in He.
Qed.

(** ** Passes *)

Section Pass.
Context (si : seminfo).
Hypothesis Hsi : 0 ≤ semaem si ≤ 16384 ∧ 0 ≤ semume si ∧ 0 ≤ semvmx si < 2 ^ 16.

#[local] Abbreviation undo_ok := (undo_ok si).
#[local] Abbreviation ents_ok := (ents_ok si).
#[local] Abbreviation aoe_upd := (aoe_upd si).

Definition undone (op : sembuf) : bool := negb (sem_op op =? 0) && truthy (Z.land (sem_flg op) SEM_UNDO).

(** One operation on the values [V] and the adjustments [L] of the process. *)
Definition op_step (id base : Z) (op : sembuf) (V : list Z) (L : list undo) (V' : list Z) (L' : list undo) : Prop :=
  ∃ v, V !! Z.to_nat (base + sem_num op) = Some v ∧ 0 ≤ base + sem_num op ∧ V' = <[Z.to_nat (base + sem_num op) := v + sem_op op]> V ∧
    (0 ≤ v + sem_op op ≤ semvmx si) ∧ 0 ≤ v ≤ semvmx si ∧ (sem_op op = 0 → v = 0) ∧ - 2 ^ 15 ≤ sem_op op < 2 ^ 15 ∧
    if undone op then aoe_upd (sem_op op) id (sem_num op) L = Some L' else L' = L.

(** The operations [done], the last first, from [V0] and [L0]. *)
Inductive trail (id base : Z) (V0 : list Z) (L0 : list undo) : list sembuf → list Z → list undo → Prop :=
| trail_nil : trail id base V0 L0 [] V0 L0
| trail_cons op done V L V' L' : trail id base V0 L0 done V L → op_step id base op V L V' L' → trail id base V0 L0 (op :: done) V' L'.

Lemma trail_ents id base V0 L0 done V L : trail id base V0 L0 done V L → ents_ok L0 → ents_ok L.
Proof using Hsi.
  intros Ht H0. induction Ht as [|op done V L V' L' _ IH (v & _ & _ & _ & _ & _ & _ & _ & Hu)]; [done|].
  destruct (undone op); [|congruence]. eapply aoe_upd_ok; [apply Hsi|by apply IH|exact Hu].
Qed.

(** Only values and the adjustments of process [p] change. *)
Record pass_frame (p : Z) (s s' : semsys) : Prop := {
  pf_sema : sema s' = sema s;
  pf_rest : rest <$> s_sem s' = rest <$> s_sem s;
  pf_cvs : cvs s' = cvs s;
  pf_map : semmap s' = semmap s;
  pf_undo q : q ≠ p → s_undo s' !! q = s_undo s !! q
}.

Lemma pass_frame_refl p s : pass_frame p s s.
Proof using Type. by split. Qed.

Lemma pass_frame_trans p s s1 s2 : pass_frame p s s1 → pass_frame p s1 s2 → pass_frame p s s2.
Proof using Type. intros [A1 A2 A3 A4 A5] [B1 B2 B3 B4 B5]. split; [congruence..|]. intros q Hq. by rewrite B5, A5. Qed.

Lemma aoe_pass p s s' : aoe_frame p s s' → pass_frame p s s'.
Proof using Type. intros [A1 A2 A3 A4 A5]. split; [done|congruence|done..]. Qed.

Lemma val_pass p s i x v : sem_at s i = Some x → pass_frame p s (set_sem (<[Z.to_nat i := set_semval v x]> (s_sem s)) s).
Proof using Type. intros H. split; try done. simpl. by apply rest_set_val. Qed.

Lemma semundo_ok c id base V0 L0 done s V L : trail id base V0 L0 done V L → V = vals s → L = ents s (p_slot c) → undo_ok s → ents_ok L0 →
  (∀ op, op ∈ done → undone op = true → is_Some (s_undo s !! p_slot c)) →
  ∃ s', semundo si c id base done s = Ret s' ∧ vals s' = V0 ∧ ents s' (p_slot c) = L0 ∧ undo_ok s' ∧ pass_frame (p_slot c) s s'.
Proof using Hsi.
  intros Ht. revert s. induction Ht as [|op done V L V' L' Ht IH (v & Hv & Hi & -> & Hr & Hr0 & Hz & Hs & Hu)]; intros s EV EL Hok H0 Hsome; simpl.
  { exists s. split; [done|]. split; [done|]. split; [done|]. split; [done|apply pass_frame_refl]. }
  pose proof (trail_ents _ _ _ _ _ _ _ Ht H0) as HL. unfold undone in *. destruct (Z.eqb_spec (sem_op op) 0) as [E0|E0]; cbn [negb andb] in *.
  { subst L'. rewrite E0, Z.add_0_r, list_insert_id in EV by done. apply IH; try done. intros op' Hin. apply Hsome. by right. }
  assert (vals s !! Z.to_nat (base + sem_num op) = Some (v + sem_op op)) as Hget by (rewrite <-EV; apply list_lookup_insert_eq; by eapply lookup_lt_Some).
  destruct (at_vals s _ _ Hget Hi) as (x & Hx & Ex). rewrite (mod_sem_ok _ s _ x Hx). cbn [rbind]. rewrite Ex.
  replace (v + sem_op op - sem_op op) with v by lia. rewrite w16_id by lia.
  set (s1 := set_sem (<[Z.to_nat (base + sem_num op) := set_semval v x]> (s_sem s)) s).
  assert (vals s1 = V) as E1.
  { unfold s1. rewrite vals_set, <-EV, list_insert_insert_eq. simpl. by apply list_insert_id. }
  assert (undo_ok s1) as Hok1 by (destruct Hok as [A1 A2 A3 A4]; by split).
  pose proof (val_pass (p_slot c) s _ x v Hx) as Hf1. fold s1 in Hf1.
  destruct (truthy (Z.land (sem_flg op) SEM_UNDO)) eqn:Eu.
  - subst L'. destruct (semaoe_back si ltac:(lia) (p_slot c) (sem_op op) id (sem_num op) s1 L Hok1) as (s2 & -> & Hok2 & Hf2 & Hl2);
      [apply (Hsome op ltac:(left)); by rewrite (proj2 (Z.eqb_neq _ _) E0)|done|exact Hu|]. cbn [snd].
    destruct (IH s2) as (s' & -> & H1 & H2 & H3 & H4); try done;
      [unfold vals; by rewrite (af_sem _ _ _ Hf2)|unfold ents; by rewrite Hl2|].
    exists s'. split; [done|]. split; [done|]. split; [done|]. split; [done|].
    eapply pass_frame_trans; [exact Hf1|]. eapply pass_frame_trans; [by apply aoe_pass|done].
  - subst L'. destruct (IH s1) as (s' & -> & H1 & H2 & H3 & H4); try done; [intros op' Hin; apply Hsome; by right|].
    exists s'. split; [done|]. split; [done|]. split; [done|]. split; [done|]. by eapply pass_frame_trans.
Qed.

(** The operations [done] have been done since [s0], for process [p], and [E] has happened. *)
Record passed (p id base : Z) (binary : bool) (s0 : semsys) (done : list sembuf) (s : semsys) (E : list cv_op) : Prop := {
  pd_trail : trail id base (vals s0) (ents s0 p) done (vals s) (ents s p);
  pd_ok : undo_ok s;
  pd_has op : op ∈ done → undone op = true → is_Some (s_undo s !! p);
  pd_sema : sema s = sema s0;
  pd_map : semmap s = semmap s0;
  pd_undo q : q ≠ p → s_undo s !! q = s_undo s0 !! q;
  pd_cvs : cvs s = E ++ cvs s0;
  pd_ev e : e ∈ E → (∃ op, op ∈ done ∧ cv_sem e = base + sem_num op) ∧ (is_signal e = true → binary = true);
  pd_len : length (s_sem s) = length (s_sem s0);
  pd_in i x : sem_at s i = Some x → cnts_in x;
  pd_cnt i x0 x : sem_at s0 i = Some x0 → sem_at s i = Some x → sempid x = sempid x0 ∧ ∀ z, cnt z x = cnt_after z i E (cnt z x0);
  pd_up op x : binary = false → op ∈ done → 0 < sem_op op → sem_at s (base + sem_num op) = Some x → semncnt x = 0;
  pd_zero i x0 x : binary = false → sem_at s0 i = Some x0 → sem_at s i = Some x → semval x = 0 → semval x0 = 0 ∨ semzcnt x = 0
}.

Lemma passed_nil p id base binary s : undo_ok s → (∀ i x, sem_at s i = Some x → cnts_in x) → passed p id base binary s [] s [].
Proof using Type.
  intros Hok Hin. split; try done; try (by constructor).
  - intros op H. by apply elem_of_nil in H.
  - intros e He. by apply elem_of_nil in He.
  - intros i x0 x H0 H1. rewrite H0 in H1. by injection H1 as <-.
  - intros op x _ H. by apply elem_of_nil in H.
  - intros i x0 x _ H0 H1. rewrite H0 in H1. injection H1 as <-. by left.
Qed.

(** After [semaoe] and the change of the value, the waking. *)
Definition op_done (binary : bool) (op : sembuf) (x x' : sem) (E : list cv_op) (i : Z) : Prop :=
  semval x' = semval x + sem_op op ∧ sempid x' = sempid x ∧ cnts_in x' ∧ (∀ z, cnt z x' = cnt_after z i E (cnt z x)) ∧
  (∀ e, e ∈ E → cv_sem e = i ∧ (is_signal e = true → binary = true)) ∧
  (binary = false → 0 < sem_op op → semncnt x' = 0) ∧ (semncnt x = 0 → binary = false → semncnt x' = 0) ∧
  (binary = false → semval x' = 0 → (semval x = 0 ∧ semzcnt x' = semzcnt x) ∨ semzcnt x' = 0).

Lemma vals_step i x' E s s' x : sem_step i x' E s s' → sem_at s i = Some x → vals s' = <[Z.to_nat i := semval x']> (vals s).
Proof using Type.
  intros Hs Hx. unfold vals. rewrite <-list_fmap_insert. f_equal. apply list_eq. intros n.
  assert (∀ s n, sem_at s (Z.of_nat n) = s_sem s !! n) as Hn.
  { intros s1 n1. unfold sem_at. rewrite (proj2 (Z.ltb_ge _ 0)) by lia. by rewrite Nat2Z.id. }
  rewrite <-Hn, (ss_at _ _ _ _ _ Hs). destruct (vals_at _ _ _ Hx) as [Hv Hi]. unfold vals in Hv.
  destruct (decide (Z.of_nat n = i)) as [<-|Hne].
  - rewrite Nat2Z.id, list_lookup_insert_eq; [done|]. rewrite Nat2Z.id in Hv. apply lookup_lt_Some in Hv. by rewrite length_fmap in Hv.
  - rewrite list_lookup_insert_ne by lia. apply Hn.
Qed.

(** One more operation: the structures first, then the value and the waking. *)
Lemma passed_step p id base binary s0 done s E op x s1 s2 x' E' :
  passed p id base binary s0 done s E → sem_at s (base + sem_num op) = Some x → aoe_frame p s s1 → undo_ok s1 →
  (undone op = true → is_Some (s_undo s1 !! p)) → (is_Some (s_undo s !! p) → is_Some (s_undo s1 !! p)) →
  (if undone op then aoe_upd (sem_op op) id (sem_num op) (ents s p) = Some (ents s1 p) else ents s1 p = ents s p) →
  sem_step (base + sem_num op) x' E' s1 s2 → op_done binary op x x' E' (base + sem_num op) →
  0 ≤ semval x + sem_op op ≤ semvmx si → 0 ≤ semval x ≤ semvmx si → (sem_op op = 0 → semval x = 0) → - 2 ^ 15 ≤ sem_op op < 2 ^ 15 →
  passed p id base binary s0 (op :: done) s2 (E' ++ E).
Proof using Type.
  intros [P1 P2 P3 P4 P5 P6 P7 P8 P9 P10 P11 P12 P13] Hx Hf Hok1 Hhas Hkeep Hu Hs (Ev & Ep & Hin & Hc & He & Hup & Hup0 & Hz) Hr Hr0 Hz0 H15.
  assert (sem_at s1 (base + sem_num op) = Some x) as Hx1 by (unfold sem_at; by rewrite (af_sem _ _ _ Hf)).
  assert (∀ j, sem_at s2 j = if decide (j = base + sem_num op) then Some x' else sem_at s j) as Hat.
  { intros j. rewrite (ss_at _ _ _ _ _ Hs). destruct (decide _); [done|]. unfold sem_at. by rewrite (af_sem _ _ _ Hf). }
  destruct (ss_undo _ _ _ _ _ Hs) as (U1 & U2 & U3). split.
  - eapply trail_cons; [exact P1|]. destruct (vals_at _ _ _ Hx) as [Hv Hi]. exists (semval x). split; [done|]. split; [done|].
    rewrite (vals_step _ _ _ _ _ _ Hs Hx1), Ev. unfold vals at 1. rewrite (af_sem _ _ _ Hf). split; [done|]. split; [done|]. split; [done|].
    split; [done|]. split; [done|]. unfold ents in *. rewrite U1. done.
  - destruct Hok1 as [A1 A2 A3 A4]. split; [by rewrite U1|by rewrite U2|intros q; unfold ents in *; rewrite U1, U2; apply A3|by rewrite U3].
  - intros op'. rewrite U1. intros [->|Hin']%elem_of_cons Hun; [by apply Hhas|]. apply Hkeep. by eapply P3.
  - by rewrite (ss_sema _ _ _ _ _ Hs), (af_sema _ _ _ Hf).
  - by rewrite (ss_map _ _ _ _ _ Hs), (af_map _ _ _ Hf).
  - intros q Hq. rewrite U1, (af_undo _ _ _ Hf) by done. by apply P6.
  - by rewrite (ss_cvs _ _ _ _ _ Hs), (af_cvs _ _ _ Hf), P7, app_assoc.
  - intros e [H|H]%elem_of_app.
    + destruct (He e H) as [-> Hsig]. split; [|done]. exists op. split; [left|done].
    + destruct (P8 e H) as [(op' & H1 & H2) Hsig]. split; [|done]. exists op'. split; [by right|done].
  - by rewrite (ss_len _ _ _ _ _ Hs), (af_sem _ _ _ Hf).
  - intros i xi. rewrite Hat. destruct (decide _); [by intros [= <-]|apply P10].
  - intros i x0 xi H0. rewrite Hat. destruct (decide (i = base + sem_num op)) as [->|Hne].
    + intros [= <-]. destruct (P11 _ x0 x H0 Hx) as [Q1 Q2]. split; [congruence|]. intros z. by rewrite cnt_after_app, <-Q2.
    + intros H1. destruct (P11 i x0 xi H0 H1) as [Q1 Q2]. split; [done|]. intros z. rewrite Q2, cnt_after_app.
      rewrite (cnt_after_other z i E'); [done|]. intros e H. destruct (He e H) as [-> _]. congruence.
  - intros op' xi Hb Hin' Hpos. rewrite Hat. destruct (decide _) as [E1|Hne].
    + intros [= <-]. apply elem_of_cons in Hin' as [->|Hin']; [by apply Hup|]. apply Hup0; [|done]. eapply P12; [done|done|done|]. by rewrite E1.
    + apply elem_of_cons in Hin' as [->|Hin']; [done|]. by apply P12.
  - intros i x0 xi Hb H0. rewrite Hat. destruct (decide (i = base + sem_num op)) as [->|Hne].
    + intros [= <-] Hv. destruct (Hz Hb Hv) as [[Hz1 Hz2]|Hz1]; [|by right]. rewrite Hz2. by eapply P13.
    + intros H1 Hv. by eapply P13.
Qed.

(** Values stay in range. *)
Definition vals_in (V : list Z) : Prop := ∀ n v, V !! n = Some v → 0 ≤ v ≤ semvmx si.

Lemma trail_in id base V0 L0 done V L : trail id base V0 L0 done V L → vals_in V0 → vals_in V.
Proof using Type.
  intros Ht H0. induction Ht as [|op done V L V' L' _ IH (v & _ & _ & -> & Hr & _)]; [done|].
  intros n u [(_ & <- & _)|[_ Hu]]%list_lookup_insert_Some; [done|]. by eapply IH.
Qed.

(** ** The end of a pass *)

(** The values and the entries of process [p] are those of [s0]; [E] has happened. *)
Record restored (p : Z) (binary : bool) (s0 s : semsys) (E : list cv_op) : Prop := {
  rs_vals : vals s = vals s0;
  rs_ents : ents s p = ents s0 p;
  rs_ok : undo_ok s;
  rs_sema : sema s = sema s0;
  rs_map : semmap s = semmap s0;
  rs_undo q : q ≠ p → s_undo s !! q = s_undo s0 !! q;
  rs_cvs : cvs s = E ++ cvs s0;
  rs_ev e : e ∈ E → is_signal e = true → binary = true;
  rs_in i x : sem_at s i = Some x → cnts_in x;
  rs_cnt i x0 x : sem_at s0 i = Some x0 → sem_at s i = Some x → sempid x = sempid x0 ∧ ∀ z, cnt z x = cnt_after z i E (cnt z x0)
}.

Lemma rest_at s s' i x' : rest <$> s_sem s' = rest <$> s_sem s → sem_at s' i = Some x' → ∃ x, sem_at s i = Some x ∧ rest x' = rest x.
Proof using Type.
  unfold sem_at. intros H. destruct (i <? 0); [done|]. intros Hx. assert ((rest <$> s_sem s') !! Z.to_nat i = Some (rest x')) as H1 by (by rewrite list_lookup_fmap, Hx).
  rewrite H, list_lookup_fmap in H1. destruct (s_sem s !! Z.to_nat i) as [x|]; [|done]. apply (inj Some) in H1. by exists x.
Qed.

Lemma rest_cnt x x' : rest x' = rest x → sempid x' = sempid x ∧ (∀ z, cnt z x' = cnt z x) ∧ (cnts_in x → cnts_in x').
Proof using Type. unfold rest, cnts_in. intros [= -> E1 E2]. split; [done|]. split; [intros []; simpl; congruence|by rewrite E1, E2]. Qed.

Lemma passed_undo c id base binary s0 done s E : passed (p_slot c) id base binary s0 done s E → ents_ok (ents s0 (p_slot c)) →
  ∃ s', semundo si c id base done s = Ret s' ∧ restored (p_slot c) binary s0 s' E.
Proof using Hsi.
  intros Hp H0. destruct (semundo_ok c id base _ _ done s _ _ (pd_trail _ _ _ _ _ _ _ _ Hp)) as (s' & Hs' & H1 & H2 & H3 & [F1 F2 F3 F4 F5]);
    [done|done|apply Hp|done|by apply Hp|].
  exists s'. split; [done|]. destruct Hp as [P1 P2 P3 P4 P5 P6 P7 P8 P9 P10 P11 P12 P13]. split; try done; try congruence.
  - intros q Hq. rewrite F5 by done. by apply P6.
  - intros e He. by apply P8.
  - intros i x Hx. destruct (rest_at _ _ _ _ F2 Hx) as (x1 & Hx1 & Hr). eapply (rest_cnt _ _ Hr). by eapply P10.
  - intros i x0 x Hx0 Hx. destruct (rest_at _ _ _ _ F2 Hx) as (x1 & Hx1 & Hr). destruct (rest_cnt _ _ Hr) as (Ep & Ec & _).
    destruct (P11 i x0 x1 Hx0 Hx1) as [Q1 Q2]. split; [congruence|]. intros z. by rewrite Ec.
Qed.

(** [op] cannot be done now with value [v]. *)
Definition blocked (zero : bool) (op : sembuf) (v : Z) : Prop :=
  if zero then sem_op op = 0 ∧ v ≠ 0 else sem_op op < 0 ∧ v < - sem_op op.

Definition nowait (op : sembuf) : bool := truthy (Z.land (sem_flg op) IPC_NOWAIT).

(** Why [op] fails with value [v] and the entries [L]. *)
Definition refused (e : sem_errno) (id : Z) (op : sembuf) (v : Z) (L : list undo) : Prop :=
  (e = ERANGE ∧ 0 < sem_op op ∧ semvmx si < v + sem_op op) ∨
  (e = EAGAIN ∧ nowait op = true ∧ ∃ zero, blocked zero op v) ∨
  (undone op = true ∧ (aoe_upd (sem_op op) id (sem_num op) L = None ∨ e = ENOSPC)).

(** One more waits for semaphore [i]. *)
Definition asleep (zero : bool) (idx : Z) (op : sembuf) (i : Z) (x : sem) (s s' : semsys) : Prop :=
  ∃ s1 sp, sem_step i (set_cnt zero (w16 (cnt zero x + 1)) x) [] s s1 ∧ sema s !! Z.to_nat idx = Some sp ∧
    s' = if negb zero && (sem_op op <? -1) then set_sema (<[Z.to_nat idx := set_binary 0 sp]> (sema s)) s1 else s1.

Inductive pass_end (p id base : Z) (binary : bool) (s0 : semsys) (ops : list sembuf) : outcome → semsys → Prop :=
| pe_done s E : passed p id base binary s0 (rev ops) s E → pass_end p id base binary s0 ops Done s
| pe_failed pre op post V L v e s E :
    ops = pre ++ op :: post → trail id base (vals s0) (ents s0 p) (rev pre) V L → V !! Z.to_nat (base + sem_num op) = Some v →
    refused e id op v L → restored p binary s0 s E → pass_end p id base binary s0 ops (Failed e) s
| pe_asleep pre op post V L v zero s1 E x s :
    ops = pre ++ op :: post → trail id base (vals s0) (ents s0 p) (rev pre) V L → V !! Z.to_nat (base + sem_num op) = Some v →
    blocked zero op v → nowait op = false → restored p binary s0 s1 E → sem_at s1 (base + sem_num op) = Some x →
    asleep zero (sema_index id) op (base + sem_num op) x s1 s → pass_end p id base binary s0 ops (Asleep zero (base + sem_num op)) s.

(** ** [semop_ops] *)

Lemma semaoe_more p val id num s r s' : undo_ok s → semaoe si p val id num s = (r, s') →
  (is_Some (s_undo s !! p) → is_Some (s_undo s' !! p)) ∧ (∀ e, r = Some e → aoe_upd val id num (ents s p) = None ∨ e = ENOSPC).
Proof using Hsi.
  intros Hok. destruct (s_undo s !! p) as [l|] eqn:El.
  - pose proof (semaoe_has si ltac:(lia) p val id num s l Hok El) as H. replace (ents s p) with l by (unfold ents; by rewrite El).
    destruct (aoe_upd val id num l) as [l'|].
    + destruct H as (s1 & -> & _ & _ & Hl). intros [= <- <-]. split; [by rewrite Hl|done].
    + destruct H as (e & ->). intros [= <- <-]. split; [by rewrite El|by left].
  - intros H. split; [by intros []|]. intros e ->. assert (ents s p = []) as -> by (unfold ents; by rewrite El).
    unfold semaoe in H. rewrite El in H. destruct (val =? 0) eqn:E0; [done|].
    destruct ((semaem si <? val) || (val <? - semaem si)) eqn:Er; [left; by apply aoe_upd_range|].
    destruct (semfup s =? 0); [right; congruence|]. left.
    assert (s_undo (take_undo p s) !! p = Some []) as Hl by apply lookup_insert_eq.
    destruct (semaoe_in_ok si p val id num _ [] Hl ltac:(by apply Z.eqb_neq) Er) as [H1 _].
    fold (take_undo p s) in H. rewrite H in H1. by destruct (aoe_upd val id num []).
Qed.

Lemma aoe_if_ok c id op s : undo_ok s → sem_op op ≠ 0 → ∃ r s1, aoe_if si c id op s = (r, s1) ∧ undo_ok s1 ∧ aoe_frame (p_slot c) s s1 ∧
  (is_Some (s_undo s !! p_slot c) → is_Some (s_undo s1 !! p_slot c)) ∧
  match r with
  | None => (undone op = true → is_Some (s_undo s1 !! p_slot c)) ∧
      if undone op then aoe_upd (sem_op op) id (sem_num op) (ents s (p_slot c)) = Some (ents s1 (p_slot c))
      else ents s1 (p_slot c) = ents s (p_slot c)
  | Some e => ents s1 (p_slot c) = ents s (p_slot c) ∧ undone op = true ∧ (aoe_upd (sem_op op) id (sem_num op) (ents s (p_slot c)) = None ∨ e = ENOSPC)
  end.
Proof using Hsi.
  intros Hok H0. unfold aoe_if, undone. rewrite (proj2 (Z.eqb_neq _ _) H0). cbn [negb andb].
  destruct (truthy (Z.land (sem_flg op) SEM_UNDO)); [|exists None, s; split_and!; try done; apply aoe_frame_refl].
  destruct (semaoe_ok si ltac:(lia) ltac:(lia) (p_slot c) (sem_op op) id (sem_num op) s Hok) as (r & s1 & Ha & H1 & H2 & H3 & H4).
  destruct (semaoe_more _ _ _ _ _ _ _ Hok Ha) as [H5 H6]. exists r, s1. split; [done|]. split; [done|]. split; [done|]. split; [done|].
  destruct r as [e|]; [split; [done|]; split; [done|by apply H6]|]. split; [intros _; by apply H3|done].
Qed.

Lemma passed_aoe p id base binary s0 done s E s1 : passed p id base binary s0 done s E → aoe_frame p s s1 → undo_ok s1 →
  ents s1 p = ents s p → (is_Some (s_undo s !! p) → is_Some (s_undo s1 !! p)) → passed p id base binary s0 done s1 E.
Proof using Type.
  intros [P1 P2 P3 P4 P5 P6 P7 P8 P9 P10 P11 P12 P13] [F1 F2 F3 F4 F5] Hok He Hk. unfold sem_at in *. split; try done; try congruence; rewrite ?F2; try done.
  - unfold vals in *. rewrite F2, He. done.
  - intros op Hin Hu. apply Hk. by eapply P3.
  - intros q Hq. rewrite F5 by done. by apply P6.
  - unfold sem_at. by rewrite F2.
  - unfold sem_at. by rewrite F2.
  - unfold sem_at. by rewrite F2.
  - unfold sem_at. by rewrite F2.
Qed.

(** The change of the value, and those it wakes: [semop] after a successful [semaoe]. *)
Lemma v_done binary op i s x : sem_at s i = Some x → cnts_in x → 0 ≤ semval x + sem_op op < 2 ^ 16 →
  let signal := (sem_op op =? 1) && binary in
  ∃ s' x' E, (let* s := mod_sem (λ x, set_semval (w16 (semval x + sem_op op)) x) i s in
              let* s := wake false signal i s in wake_zero signal i s) = Ret s' ∧
    sem_step i x' E s s' ∧ op_done binary op x x' E i.
Proof using Type.
  intros Hx Hin Hr signal. destruct (mod_step (λ x, set_semval (w16 (semval x + sem_op op)) x) s i x Hx) as (s1 & -> & Hs1). cbn [rbind].
  rewrite w16_id in Hs1 by lia. pose proof (sem_step_self _ _ _ _ _ Hs1) as Hx1.
  destruct (wake_ok false signal i s1 _ Hx1 Hin) as (s2 & x2 & E2 & -> & Hs2 & V2 & P2 & I2 & C2 & Ev2 & Z2 & O2). cbn [rbind].
  pose proof (sem_step_self _ _ _ _ _ Hs2) as Hx2.
  destruct (wake_zero_ok signal i s2 x2 Hx2 I2) as (s3 & x3 & E3 & -> & Hs3 & V3 & P3 & I3 & C3 & Ev3 & Z3 & O3).
  exists s3, x3, (E3 ++ E2 ++ []). split; [done|]. split; [eapply sem_step_trans; [eapply sem_step_trans; [exact Hs1|exact Hs2]|exact Hs3]|].
  rewrite app_nil_r. assert (binary = false → signal = false) as Hsig by (intros ->; unfold signal; apply andb_false_r).
  split; [by rewrite V3, V2|]. split; [by rewrite P3, P2|]. split; [done|]. split; [intros z; rewrite cnt_after_app, C3, C2; by destruct z|]. split.
  { intros e [He|He]%elem_of_app; [destruct (Ev3 e He) as [-> Hs]|destruct (Ev2 e He) as [-> Hs]]; (split; [done|]); intros Hg; specialize (Hs Hg);
    unfold signal in Hs; apply andb_prop in Hs; apply Hs. }
  split_and!.
  - intros Hb _. rewrite O3. exact (Z2 (Hsig Hb)).
  - intros _ Hb. rewrite O3. exact (Z2 (Hsig Hb)).
  - intros Hb Hv. right. apply Z3; [by apply Hsig|congruence].
Qed.

Lemma p_done binary op i s x : sem_at s i = Some x → cnts_in x → sem_op op < 0 → 0 ≤ semval x + sem_op op < 2 ^ 16 →
  ∃ s' x' E, (let* s := mod_sem (λ x, set_semval (w16 (semval x + sem_op op)) x) i s in wake_zero false i s) = Ret s' ∧
    sem_step i x' E s s' ∧ op_done binary op x x' E i.
Proof using Type.
  intros Hx Hin Hneg Hr. destruct (mod_step (λ x, set_semval (w16 (semval x + sem_op op)) x) s i x Hx) as (s1 & -> & Hs1). cbn [rbind].
  rewrite w16_id in Hs1 by lia. pose proof (sem_step_self _ _ _ _ _ Hs1) as Hx1.
  destruct (wake_zero_ok false i s1 _ Hx1 Hin) as (s3 & x3 & E3 & -> & Hs3 & V3 & P3 & I3 & C3 & Ev3 & Z3 & O3).
  exists s3, x3, (E3 ++ []). split; [done|]. split; [by eapply sem_step_trans|].
  rewrite app_nil_r. split; [by rewrite V3|]. split; [by rewrite P3|]. split; [done|]. split; [intros z; rewrite C3; by destruct z|]. split.
  { intros e He. destruct (Ev3 e He) as [-> Hs]. split; [done|]. intros Hg. specialize (Hs Hg). done. }
  split_and!; [lia|rewrite O3; done|]. intros Hb Hv. right. apply Z3; [done|congruence].
Qed.

(** The operation [op] of [ops] with the operations [done] before it. *)
Record op_in (base : Z) (s0 : semsys) (op : sembuf) : Prop := {
  oi_num : 0 ≤ base + sem_num op < zlen (s_sem s0);
  oi_op : - 2 ^ 15 ≤ sem_op op < 2 ^ 15
}.

Lemma op_in_at base s0 s op : op_in base s0 op → length (s_sem s) = length (s_sem s0) → ∃ x, sem_at s (base + sem_num op) = Some x.
Proof using Type.
  intros [H _] Hl. unfold sem_at. rewrite (proj2 (Z.ltb_ge _ 0)) by lia. apply lookup_lt_is_Some. lia.
Qed.

Section Ends.
Context (c : caller) (id base : Z) (binary : bool) (s0 : semsys) (ops : list sembuf).
#[local] Abbreviation p := (p_slot c).
Hypothesis Hents : ents_ok (ents s0 p).
Hypothesis Hvals : vals_in (vals s0).

Lemma end_failed done op todo s E s1 x e : ops = rev done ++ op :: todo → passed p id base binary s0 done s E →
  passed p id base binary s0 done s1 E → sem_at s (base + sem_num op) = Some x → refused e id op (semval x) (ents s p) →
  ∃ o s', undo_and si c id base done (Failed e) s1 = Ret (o, s') ∧ pass_end p id base binary s0 ops o s'.
Proof using Hsi Hents.
  intros Ho Hp Hp1 Hx Hr. unfold undo_and. destruct (passed_undo c _ _ _ _ _ _ _ Hp1 Hents) as (s' & -> & Hs'). cbn [rbind].
  eexists _, _. split; [done|]. eapply pe_failed; [exact Ho| | |exact Hr|exact Hs'].
  - rewrite rev_involutive. apply Hp.
  - by apply vals_at.
Qed.

Hypothesis Hidx : is_Some (sema s0 !! Z.to_nat (sema_index id)).

Lemma sema_index_pos n : 0 ≤ sema_index n.
Proof using Type. unfold sema_index. apply Z.land_nonneg. by right. Qed.

Lemma mod_sema_ok f s sp : sema s !! Z.to_nat (sema_index id) = Some sp →
  mod_sema f (sema_index id) s = Ret (set_sema (<[Z.to_nat (sema_index id) := f sp]> (sema s)) s).
Proof using Type.
  intros H. unfold mod_sema, zget. pose proof (sema_index_pos id). rewrite (proj2 (Z.ltb_ge _ 0)), H by lia. cbn [rbind].
  apply lookup_lt_Some in H. by rewrite zset_in by lia.
Qed.

Lemma end_wait done op todo s E x zero : ops = rev done ++ op :: todo → passed p id base binary s0 done s E → op_in base s0 op →
  sem_at s (base + sem_num op) = Some x → blocked zero op (semval x) →
  ∃ o s', sem_wait si c id base done op zero s = Ret (o, s') ∧ pass_end p id base binary s0 ops o s'.
Proof using Hsi Hents Hidx.
  intros Ho Hp Hin Hx Hb. unfold sem_wait. destruct (passed_undo c _ _ _ _ _ _ _ Hp Hents) as (s1 & -> & Hs1). cbn [rbind].
  destruct (vals_at _ _ _ Hx) as [Hv _]. fold (nowait op). destruct (nowait op) eqn:En.
  { eexists _, _. split; [done|]. eapply pe_failed; [exact Ho|rewrite rev_involutive; by apply Hp|exact Hv| |exact Hs1].
    right. left. split; [done|]. split; [done|]. by exists zero. }
  destruct (op_in_at base s0 s1 op Hin) as [x1 Hx1].
  { rewrite <-(length_fmap semval (s_sem s1)), <-(length_fmap semval (s_sem s0)). f_equal. by apply Hs1. }
  destruct (mod_step (λ x, set_cnt zero (w16 (cnt zero x + 1)) x) s1 _ x1 Hx1) as (s2 & -> & Hs2). cbn [rbind].
  destruct Hidx as [sp Hsp]. rewrite <-(rs_sema _ _ _ _ _ Hs1) in Hsp. pose proof Hsp as Hsp2. rewrite <-(ss_sema _ _ _ _ _ Hs2) in Hsp2.
  eexists (Asleep zero (base + sem_num op)), _. split; [|eapply pe_asleep with (s1 := s1);
    [exact Ho|rewrite rev_involutive; by apply Hp|exact Hv|exact Hb|exact En|exact Hs1|exact Hx1|exists s2, sp; split; [exact Hs2|split; [exact Hsp|done]]]].
  destruct (negb zero && (sem_op op <? -1)); [|done]. rewrite (mod_sema_ok _ _ _ Hsp2). cbn [rbind]. by rewrite (ss_sema _ _ _ _ _ Hs2).
Qed.

Lemma semop_ops_ok todo done s E : ops = rev done ++ todo → Forall (op_in base s0) todo → passed p id base binary s0 done s E →
  ∃ o s', semop_ops si c id base binary done todo s = Ret (o, s') ∧ pass_end p id base binary s0 ops o s'.
Proof using Hsi Hents Hvals Hidx.
  revert done s E. induction todo as [|op todo IH]; intros done s E Ho Hall Hp; simpl.
  { exists Done, s. split; [done|]. eapply pe_done. rewrite Ho, app_nil_r, rev_involutive. exact Hp. }
  apply Forall_cons in Hall as [Hin Hall]. destruct (op_in_at base s0 s op Hin ltac:(by apply Hp)) as [x Hx].
  rewrite (sem_at_get _ _ _ Hx). cbn [rbind].
  assert (ops = rev (op :: done) ++ todo) as Ho' by (simpl; by rewrite <-app_assoc).
  assert (0 ≤ semval x ≤ semvmx si) as Hr.
  { destruct (vals_at _ _ _ Hx) as [Hv _]. eapply trail_in; [by apply Hp|exact Hvals|exact Hv]. }
  assert (cnts_in x) as Hc by (by eapply Hp). pose proof (oi_op _ _ _ Hin) as H15.
  destruct (Z.ltb_spec 0 (sem_op op)) as [Hpos|Hnpos].
  - destruct (Z.ltb_spec (semvmx si) (sem_op op + semval x)) as [Hbig|Hfit].
    { eapply end_failed; try done. left. split; [done|]. lia. }
    destruct (aoe_if_ok c id op s (pd_ok _ _ _ _ _ _ _ _ Hp) ltac:(lia)) as (r & s1 & -> & Hok1 & Hf1 & Hk1 & Hr1).
    destruct r as [e|].
    { destruct Hr1 as (He & Hu & Hwhy). eapply (end_failed done op todo s E s1); try done; [by eapply passed_aoe|]. right. by right. }
    assert (sem_at s1 (base + sem_num op) = Some x) as Hx1 by (unfold sem_at; by rewrite (af_sem _ _ _ Hf1)).
    destruct (v_done binary op _ s1 x Hx1 Hc ltac:(lia)) as (s2 & x2 & E2 & Hrun & Hs2 & Hd). destruct Hr1 as [Hh1 Hu1].
    assert (passed p id base binary s0 (op :: done) s2 (E2 ++ E)) as Hp2 by (eapply passed_step; try done; lia).
    destruct (IH _ _ _ Ho' Hall Hp2) as (o & s' & Hgo & Hend). exists o, s'. split; [|done].
    rewrite <-Hgo. revert Hrun. clear. destruct (mod_sem _ _ _) as [s3| |]; cbn [rbind]; [|done..].
    destruct (wake _ _ _ s3) as [s4| |]; cbn [rbind]; [|done..]. by intros ->.
  - destruct (Z.ltb_spec (sem_op op) 0) as [Hneg|Hz].
    + destruct (Z.leb_spec (- sem_op op) (semval x)) as [Hfit|Hsmall]; [|eapply end_wait; try done; by split].
      destruct (aoe_if_ok c id op s (pd_ok _ _ _ _ _ _ _ _ Hp) ltac:(lia)) as (r & s1 & -> & Hok1 & Hf1 & Hk1 & Hr1).
      destruct r as [e|].
      { destruct Hr1 as (He & Hu & Hwhy). eapply (end_failed done op todo s E s1); try done; [by eapply passed_aoe|]. right. by right. }
      assert (sem_at s1 (base + sem_num op) = Some x) as Hx1 by (unfold sem_at; by rewrite (af_sem _ _ _ Hf1)).
      destruct (p_done binary op _ s1 x Hx1 Hc Hneg ltac:(lia)) as (s2 & x2 & E2 & Hrun & Hs2 & Hd). destruct Hr1 as [Hh1 Hu1].
      assert (passed p id base binary s0 (op :: done) s2 (E2 ++ E)) as Hp2 by (eapply passed_step; try done; lia).
      destruct (IH _ _ _ Ho' Hall Hp2) as (o & s' & Hgo & Hend). exists o, s'. split; [|done].
      rewrite <-Hgo. revert Hrun. clear. destruct (mod_sem _ _ _) as [s3| |]; cbn [rbind]; [|done..]. by intros ->.
    + assert (sem_op op = 0) as E0 by lia. destruct (truthy (semval x)) eqn:Et; [eapply end_wait; try done; by apply truthy_true in Et|].
      apply truthy_false in Et.
      assert (passed p id base binary s0 (op :: done) s ([] ++ E)) as Hp2.
      { eapply (passed_step _ _ _ _ _ _ s E op x s s x []); try done; try lia; [by apply Hp| | |by apply step_refl|].
        - unfold undone. by rewrite E0.
        - unfold undone. by rewrite E0.
        - split; [lia|]. split; [done|]. split; [done|]. split; [done|]. split; [intros e He; by apply elem_of_nil in He|].
          split; [lia|]. split; [done|]. intros _ _. left. by split. }
      exact (IH _ _ _ Ho' Hall Hp2).
Qed.
End Ends.

(** ** The call *)

(** The sets lie among the semaphores; values, counts and adjustments are in range. *)
Record sem_ok (s : semsys) : Prop := {
  so_undo : undo_ok s;
  so_vals : vals_in (vals s);
  so_cnts i x : sem_at s i = Some x → cnts_in x;
  so_mni : zlen (sema s) = semmni si;
  so_sets n sp : sema s !! n = Some sp → allocated sp = true → 0 ≤ sem_base sp ∧ 0 ≤ sem_nsems sp ∧ sem_base sp + sem_nsems sp ≤ zlen (s_sem s)
}.

Lemma semconv_lock_ok id s : sem_ok s → ∃ r, semconv_lock si id s = Ret r ∧
  ∀ sp, r = Some sp → sema s !! Z.to_nat (sema_index id) = Some sp ∧ allocated sp = true ∧ sema_seq id = seq_ (sem_perm sp).
Proof using Type.
  intros Hs. unfold semconv_lock, zget. pose proof (sema_index_pos id). destruct (Z.leb_spec (semmni si) (sema_index id)) as [Hbig|Hlt]; [by exists None|].
  rewrite (proj2 (Z.ltb_ge _ 0)) by lia. destruct (lookup_lt_is_Some_2 (sema s) (Z.to_nat (sema_index id))) as [sp Hsp]; [pose proof (so_mni s Hs); lia|].
  rewrite Hsp. cbn [rbind]. eexists. split; [done|]. intros sp'. destruct (allocated sp) eqn:Ea; [|done]. destruct (Z.eqb_spec (sema_seq id) (seq_ (sem_perm sp))); [|done].
  by intros [= <-].
Qed.

(** The sets of [s] have the same place in [s']. *)
Definition same_sets (s s' : semsys) : Prop := ∀ n sp', sema s' !! n = Some sp' → ∃ sp, sema s !! n = Some sp ∧
  sem_perm sp' = sem_perm sp ∧ sem_base sp' = sem_base sp ∧ sem_nsems sp' = sem_nsems sp.

Lemma same_sets_refl s s' : sema s' = sema s → same_sets s s'.
Proof using Type. intros H n sp Hsp. exists sp. rewrite <-H. done. Qed.

Lemma same_sets_trans s s1 s2 : same_sets s s1 → same_sets s1 s2 → same_sets s s2.
Proof using Type.
  intros H1 H2 n sp Hsp. destruct (H2 n sp Hsp) as (sp1 & Hsp1 & E1 & E2 & E3). destruct (H1 n sp1 Hsp1) as (sp0 & Hsp0 & E4 & E5 & E6).
  exists sp0. split; [done|]. split_and!; congruence.
Qed.

Lemma same_sets_upd s s' i sp sp1 : sema s !! i = Some sp → sema s' = <[i := sp1]> (sema s) →
  sem_perm sp1 = sem_perm sp → sem_base sp1 = sem_base sp → sem_nsems sp1 = sem_nsems sp → same_sets s s'.
Proof using Type.
  intros Hsp E H1 H2 H3 n sp'. rewrite E. intros [(-> & <- & _)|[_ Hn]]%list_lookup_insert_Some; [by exists sp|by exists sp'].
Qed.

Lemma sem_ok_keep s s' : sem_ok s → undo_ok s' → vals_in (vals s') → (∀ i x, sem_at s' i = Some x → cnts_in x) →
  length (s_sem s') = length (s_sem s) → length (sema s') = length (sema s) → same_sets s s' → sem_ok s'.
Proof using Type.
  intros [H1 H2 H3 H4 H5] U1 U2 U3 U4 U5 Hss. split; try done; [by rewrite U5|].
  intros n sp' Hn Ha. destruct (Hss n sp' Hn) as (sp & Hsp & E1 & E2 & E3). rewrite E2, E3, U4. apply (H5 n sp Hsp). unfold allocated in *. by rewrite <-E1.
Qed.

Lemma vals_len s : length (s_sem s) = length (vals s).
Proof using Type. symmetry. apply length_fmap. Qed.

Lemma undo_ok_eq s s' : s_undo s' = s_undo s ∧ semunp s' = semunp s ∧ semfup s' = semfup s → undo_ok s → undo_ok s'.
Proof using Type.
  intros (E1 & E2 & E3) [A1 A2 A3 A4]. split; [by rewrite E1|by rewrite E2|intros q; unfold ents in *; rewrite E1, E2; apply A3|by rewrite E3].
Qed.

Lemma asleep_ok zero idx op i x s s' : asleep zero idx op i x s s' → sem_at s i = Some x → cnts_in x →
  vals s' = vals s ∧ (s_undo s' = s_undo s ∧ semunp s' = semunp s ∧ semfup s' = semfup s) ∧ same_sets s s' ∧ length (sema s') = length (sema s) ∧
  cvs s' = cvs s ∧ ∀ j, sem_at s' j = if decide (j = i) then Some (set_cnt zero (w16 (cnt zero x + 1)) x) else sem_at s j.
Proof using Type.
  intros (s1 & sp & Hs & Hsp & ->) Hx Hc. pose proof (vals_step _ _ _ _ _ _ Hs Hx) as Hv.
  destruct (vals_at _ _ _ Hx) as [Hx1 _]. rewrite (proj1 (semval_set_cnt _ _ _)), list_insert_id in Hv by done.
  destruct Hs as [A1 A2 A3 A4 A5 A6]. destruct (negb zero && (sem_op op <? -1)); split_and!; try done; try apply A6.
  - by apply (same_sets_upd _ _ _ _ (set_binary 0 sp) Hsp).
  - simpl. apply length_insert.
  - by apply same_sets_refl.
  - by rewrite A4.
Qed.

Lemma pass_end_ok p id base binary s0 ops o s : pass_end p id base binary s0 ops o s → sem_ok s0 → sem_ok s ∧ same_sets s0 s.
Proof using Type.
  intros Hend Hok. destruct Hend as [s E Hp|pre op post V L v e s E _ _ _ _ Hr|pre op post V L v zero s1 E x s _ _ _ _ _ Hr Hx Ha].
  - assert (same_sets s0 s) as Hss by (by apply same_sets_refl, Hp). split; [|done].
    apply (sem_ok_keep s0); try done; try apply Hp; [|by rewrite (pd_sema _ _ _ _ _ _ _ _ Hp)]. eapply trail_in; [apply Hp|apply Hok].
  - assert (same_sets s0 s) as Hss by (by apply same_sets_refl, Hr). split; [|done].
    apply (sem_ok_keep s0); try done; try apply Hr; rewrite ?(rs_sema _ _ _ _ _ Hr), ?vals_len, ?(rs_vals _ _ _ _ _ Hr); try done. apply Hok.
  - destruct (asleep_ok _ _ _ _ _ _ _ Ha Hx) as (E1 & E2 & E3 & E4 & E5 & E6); [by eapply rs_in|].
    assert (same_sets s0 s) as Hss by (eapply same_sets_trans; [|exact E3]; by apply same_sets_refl, Hr). split; [|done].
    apply (sem_ok_keep s0); try done; rewrite ?E4, ?vals_len, ?E1, ?(rs_sema _ _ _ _ _ Hr), ?(rs_vals _ _ _ _ _ Hr); try done.
    + eapply undo_ok_eq; [exact E2|apply Hr].
    + apply Hok.
    + intros j y. rewrite E6. destruct (decide (j = _)); [|by eapply rs_in]. intros [= <-]. apply set_cnt_in; [by eapply rs_in|]. apply Z.mod_pos_bound. lia.
Qed.

(** The identifiers of the last process change, and nothing else. *)
Record pids_only (s s' : semsys) : Prop := {
  po_vals : vals s' = vals s;
  po_cnts i x' : sem_at s' i = Some x' → ∃ x, sem_at s i = Some x ∧ ∀ z, cnt z x' = cnt z x;
  po_sema : sema s' = sema s;
  po_undo : s_undo s' = s_undo s ∧ semunp s' = semunp s ∧ semfup s' = semfup s;
  po_cvs : cvs s' = cvs s
}.

Lemma set_pids_ok c base ops s : Forall (op_in base s) ops → ∃ s', set_pids c base ops s = Ret s' ∧ pids_only s s'.
Proof using Type.
  revert s. induction ops as [|op ops IH]; intros s Hall; simpl.
  { exists s. split; [done|]. split; try done. intros i x Hx. by exists x. }
  apply Forall_cons in Hall as [Hin Hall]. destruct (op_in_at base s s op Hin eq_refl) as [x Hx].
  destruct (mod_step (set_sempid (p_pid c)) s _ x Hx) as (s1 & -> & Hs1). cbn [rbind].
  destruct (IH s1) as (s' & -> & [P1 P2 P3 P4 P5]).
  { eapply Forall_impl; [exact Hall|]. intros o [A1 A2]. split; [|done]. by rewrite (ss_len _ _ _ _ _ Hs1). }
  exists s'. split; [done|]. pose proof (vals_step _ _ _ _ _ _ Hs1 Hx) as Hv. destruct (vals_at _ _ _ Hx) as [Hx1 _].
  destruct Hs1 as [A1 A2 A3 A4 A5 (A6 & A7 & A8)]. split; [|..].
  - rewrite P1, Hv. by apply list_insert_id.
  - intros i y Hy. destruct (P2 i y Hy) as (y1 & Hy1 & Hc). rewrite A1 in Hy1. destruct (decide _) as [->|]; [|by exists y1].
    injection Hy1 as <-. exists x. split; [done|]. intros z. rewrite Hc. by destruct z.
  - by rewrite P3.
  - destruct P4 as (E1 & E2 & E3). split_and!; congruence.
  - by rewrite P5.
Qed.

(** How a call ends: every operation has been done, one after the other, or none. *)
Definition op_none (p id : Z) (sp : semid_ds) (s s' : semsys) : Prop :=
  vals s' = vals s ∧ ents s' p = ents s p ∧ ∀ q, q ≠ p → s_undo s' !! q = s_undo s !! q.

Definition reason (p id : Z) (sp : semid_ds) (s : semsys) (ops : list sembuf) (P : sembuf → Z → list undo → Prop) : Prop :=
  ∃ pre op post V L v, ops = pre ++ op :: post ∧ trail id (sem_base sp) (vals s) (ents s p) (rev pre) V L ∧
    V !! Z.to_nat (sem_base sp + sem_num op) = Some v ∧ P op v L.

Definition semop_end (p id : Z) (sp : semid_ds) (s : semsys) (ops : list sembuf) (o : outcome) (s' : semsys) : Prop :=
  match o with
  | Done => trail id (sem_base sp) (vals s) (ents s p) (rev ops) (vals s') (ents s' p) ∧ ∀ q, q ≠ p → s_undo s' !! q = s_undo s !! q
  | Failed e => op_none p id sp s s' ∧ reason p id sp s ops (refused e id)
  | Asleep zero i => op_none p id sp s s' ∧ reason p id sp s ops (λ op v _, i = sem_base sp + sem_num op ∧ blocked zero op v ∧ nowait op = false)
  end.

Lemma pass_semop p id sp binary s ops o s' : pass_end p id (sem_base sp) binary s ops o s' → semop_end p id sp s ops o s'.
Proof using Type.
  intros [s1 E Hp|pre op post V L v e s1 E Ho Ht Hv Hw Hr|pre op post V L v zero s1 E x s2 Ho Ht Hv Hb Hn Hr Hx Ha]; simpl.
  - split; apply Hp.
  - split; [split_and!; apply Hr|]. by exists pre, op, post, V, L, v.
  - destruct (asleep_ok _ _ _ _ _ _ _ Ha Hx) as (E1 & (E2 & _) & _); [by eapply rs_in|]. split; [|by exists pre, op, post, V, L, v].
    unfold op_none, ents. rewrite E1, E2. split_and!; apply Hr.
Qed.

(** [ops] on the set [sp]. *)
Definition ops_of (sp : semid_ds) (op : sembuf) : Prop := 0 ≤ sem_num op < sem_nsems sp ∧ - 2 ^ 15 ≤ sem_op op < 2 ^ 15.

Lemma semop_check_ok c id ops s sp : sem_ok s → sema s !! Z.to_nat (sema_index id) = Some sp → allocated sp = true → Forall (ops_of sp) ops →
  ∃ o s', semop_check si c id ops s = Ret (o, s') ∧ semop_end (p_slot c) id sp s ops o s' ∧ sem_ok s' ∧ same_sets s s' ∧
    ∃ s1, pass_end (p_slot c) id (sem_base sp) (truthy (sem_binary sp) && (sem_nsems sp =? 1)) s ops o s1 ∧ cvs s' = cvs s1 ∧ vals s' = vals s1 ∧
      ∀ i x', sem_at s' i = Some x' → ∃ x, sem_at s1 i = Some x ∧ ∀ z, cnt z x' = cnt z x.
Proof using Hsi.
  intros Hok Hsp Ha Hops. unfold semop_check, zget. pose proof (sema_index_pos id). rewrite (proj2 (Z.ltb_ge _ 0)), Hsp by lia. cbn [rbind].
  destruct (so_sets _ Hok _ _ Hsp Ha) as (B1 & B2 & B3). set (binary := truthy (sem_binary sp) && (sem_nsems sp =? 1)).
  assert (Forall (op_in (sem_base sp) s) ops) as Hin by (eapply Forall_impl; [exact Hops|]; intros op [H1 H2]; split; lia).
  assert (ents_ok (ents s (p_slot c))) as Hents.
  { unfold ents. destruct (s_undo s !! p_slot c) as [l|] eqn:El; [by eapply uo_ents; [apply Hok|]|]. apply ents_nil_ok. lia. }
  destruct (semop_ops_ok c id (sem_base sp) binary s ops Hents (so_vals _ Hok) (ex_intro _ sp Hsp) ops [] s []) as (o & s1 & -> & Hend);
    [done|done|apply passed_nil; apply Hok|]. cbn [rbind].
  destruct (pass_end_ok _ _ _ _ _ _ _ _ Hend Hok) as [Hok1 Hss]. pose proof (pass_semop _ _ _ _ _ _ _ _ Hend) as Hsem.
  assert (∀ i x', sem_at s1 i = Some x' → ∃ x, sem_at s1 i = Some x ∧ ∀ z, cnt z x' = cnt z x) as Hself by (intros i x' ?; by exists x').
  destruct o as [|e|zero i]; [|exists (Failed e), s1; split_and!; try done; by exists s1|exists (Asleep zero i), s1; split_and!; try done; by exists s1].
  destruct (set_pids_ok c (sem_base sp) ops s1) as (s2 & -> & [P1 P2 P3 P4 P5]).
  { eapply Forall_impl; [exact Hin|]. intros op [A1 A2]. split; [|done]. inversion Hend as [s3 E Hp| |]; subst. by rewrite (pd_len _ _ _ _ _ _ _ _ Hp). }
  cbn [rbind]. assert (sema s1 = sema s) as Es by (inversion Hend as [s3 E Hp| |]; subst; apply Hp).
  assert (sema s2 !! Z.to_nat (sema_index id) = Some sp) as Hsp2 by (by rewrite P3, Es).
  rewrite (mod_sema_ok id (set_otime (now c)) s2 sp Hsp2). cbn [rbind]. eexists Done, _. split; [done|].
  set (s3 := set_sema _ s2). assert (same_sets s1 s3) as H3.
  { apply (same_sets_upd s1 s3 (Z.to_nat (sema_index id)) sp (set_otime (now c) sp)); try done; [by rewrite <-P3|]. simpl. by rewrite P3. }
  split; [|split; [|split; [by eapply same_sets_trans|by exists s1]]].
  - simpl in *. unfold ents. simpl. destruct P4 as (-> & _). replace (vals s3) with (vals s1) by (by rewrite <-P1). exact Hsem.
  - apply (sem_ok_keep s1); try done.
    + eapply undo_ok_eq; [|apply Hok1]. exact P4.
    + change (vals s3) with (vals s2). rewrite P1. apply Hok1.
    + intros i x' Hx'. destruct (P2 i x' Hx') as (x & Hx & Hc). destruct (so_cnts _ Hok1 i x Hx). pose proof (Hc false). pose proof (Hc true). unfold cnt, cnts_in in *. lia.
    + change (s_sem s3) with (s_sem s2). by rewrite !vals_len, P1.
    + simpl. by rewrite length_insert, P3.
Qed.

Lemma semop_access_ok c sp ops : semop_access c sp ops = None → Forall (λ op, sem_num op < sem_nsems sp) ops.
Proof using Type.
  induction ops as [|op ops IH]; simpl; [constructor|]. destruct (ipcaccess _ _ _); [done|].
  destruct (Z.leb_spec (sem_nsems sp) (sem_num op)); [done|]. intros H1. constructor; [lia|by apply IH].
Qed.

(** Fields of a [sembuf]: an unsigned and a signed short. *)
Definition op_fits (op : sembuf) : Prop := 0 ≤ sem_num op < 2 ^ 16 ∧ - 2 ^ 15 ≤ sem_op op < 2 ^ 15.

(** The errors found before any operation is tried. *)
Definition semop_early (c : caller) (id : Z) (ops : list sembuf) (s : semsys) (o : outcome) : Prop :=
  (o = Failed E2BIG ∧ semopm si < zlen ops) ∨ (o = Done ∧ ops = []) ∨ (o = Failed EINVAL ∧ semconv_lock si id s = Ret None) ∨
  ∃ sp e, semconv_lock si id s = Ret (Some sp) ∧ semop_access c sp ops = Some e ∧ o = Failed e.
End Pass.

(** C11: [semop] on a sound state returns, leaves a sound state, and is atomic: unless one of the checks
    at its start fails, either it succeeds, and the values and the adjustments of the process are what
    its operations make of them one after the other; or it fails or sleeps, all values and all
    adjustments are as before the call, however many operations had been done and undone, and there
    is an operation that fails or has to wait once those before it are done. *)
Theorem semop_atomic si c id ops s (Hsi : 0 ≤ semaem si ≤ 16384 ∧ 0 ≤ semume si ∧ 0 ≤ semvmx si < 2 ^ 16)
  (Hok : sem_ok si s) (Hops : Forall op_fits ops) :
  ∃ o s', semop si c id (zlen ops) (Some ops) s = Ret (o, s') ∧ sem_ok si s' ∧
    ((s' = s ∧ semop_early si c id ops s o) ∨
     ∃ sp, semconv_lock si id s = Ret (Some sp) ∧ semop_access c sp ops = None ∧ semop_end si (p_slot c) id sp s ops o s').
Proof.
  unfold semop, semop_early. destruct (Z.ltb_spec (semopm si) (zlen ops)); [exists (Failed E2BIG), s; split; [done|]; split; [done|]; left; split; [done|]; by left|].
  destruct (Z.eqb_spec (zlen ops) 0) as [E0|E0].
  { exists Done, s. split; [done|]. split; [done|]. left. split; [done|]. right. left. split; [done|]. apply nil_length_inv. lia. }
  destruct (semconv_lock_ok si id s Hok) as (r & Hr & Hsp). rewrite Hr. cbn [rbind].
  destruct r as [sp|]; [|exists (Failed EINVAL), s; split; [done|]; split; [done|]; left; split; [done|]; right; right; by left].
  destruct (Hsp sp eq_refl) as (H1 & H2 & _). destruct (semop_access c sp ops) as [e|] eqn:Ea.
  { exists (Failed e), s. split; [done|]. split; [done|]. left. split; [done|]. do 3 right. by exists sp, e. }
  destruct (semop_check_ok si Hsi c id ops s sp Hok H1 H2) as (o & s' & Hrun & Hend & Hok' & _).
  { apply semop_access_ok in Ea. rewrite Forall_forall in *. intros op Hin. split; [split; [by apply Hops|by apply Ea]|by apply Hops]. }
  exists o, s'. split; [exact Hrun|]. split; [done|]. right. by exists sp.
Qed.

(** A system with one set of two semaphores, 5 and 0, and a process that asks for two from the first and waits for the other. *)
Definition si0 : seminfo := Seminfo 1 25 10 10 32767 16384.
Definition cred0 : cred := Cred 0 0 [].
Definition caller0 : caller := Caller cred0 7 107 1000.
Definition set0 : semid_ds := Semid_ds (Ipc_perm 0 0 0 0 (Z.lor IPC_ALLOC 0x1b6) 0 17) 0 2 0 0 1.
Definition sys0 : semsys := Semsys [set0] [Sem 5 0 0 0; Sem 0 0 0 0] (Rmap 0 0 0 []) ∅ [] 3 [].

Lemma sys0_ok : sem_ok si0 sys0.
Proof.
  split.
  - split; [done|constructor| |done]. intros p. split; [by intros ?%elem_of_nil|done].
  - intros [|[|n]] v; cbn; [intros [= <-]; lia|intros [= <-]; lia|done].
  - intros i x. unfold sem_at. destruct (i <? 0); [done|]. destruct (Z.to_nat i) as [|[|n]]; cbn; [intros [= <-]; unfold cnts_in; simpl; lia|intros [= <-]; unfold cnts_in; simpl; lia|done].
  - done.
  - intros [|n] sp; cbn; [intros [= <-] _; cbn; lia|done].
Qed.

Lemma semop_atomic_witness : ∃ o s', semop si0 caller0 0 2 (Some [Sembuf 0 (-2) SEM_UNDO; Sembuf 1 (-1) 0]) sys0 = Ret (o, s') ∧ sem_ok si0 s' ∧
  o = Asleep false 1 ∧ vals s' = [5; 0].
Proof.
  destruct (semop_atomic si0 caller0 0 [Sembuf 0 (-2) SEM_UNDO; Sembuf 1 (-1) 0] sys0 ltac:(cbn; lia) sys0_ok
    ltac:(repeat constructor; cbn; lia)) as (o & s' & H & Hok & _).
  exists o, s'. split; [exact H|]. split; [exact Hok|]. vm_compute in H. by injection H as <- <-.
Defined.
