(* ===== verification/SemMachine.v ===== *)
(** * Processes asleep in [semop] ([uts/common/syscall/sem.c])

    The machine in which several processes call [semop]: a call that sleeps is on the queue of a condition
    variable, a signal or a broadcast in another call takes it off, it may be interrupted, and later it
    goes on in [semop_again] or [semop_eintr].  The sleepers are of one priority, so that a queue is in the order of
    arrival. *)

From S2P Require Import Prelude Rmap Sem SemOps.

(** A call asleep for semaphore [w_sem], or on its way back. *)
Record waiter := Waiter { w_caller : caller; w_id : Z; w_ops : list sembuf; w_zero : bool; w_sem : Z }.

Record smach := Smach { m_sys : semsys; m_asleep : list waiter; m_woken : list waiter }.

Definition no_cvs (s : semsys) : semsys := Semsys (sema s) (s_sem s) (semmap s) (s_undo s) (semunp s) (semfup s) [].

Section Machine.
Context (si : seminfo).

(** ** The machine *)

Definition waits_on (zero : bool) (i : Z) (w : waiter) : bool := Bool.eqb (w_zero w) zero && (w_sem w =? i).

(** The first that waits on a condition variable, and the others. *)
Fixpoint take_first (zero : bool) (i : Z) (l : list waiter) : list waiter * list waiter :=
  match l with
  | [] => ([], [])
  | w :: l => if waits_on zero i w then ([w], l) else let (a, b) := take_first zero i l in (a, w :: b)
  end.

Definition cv_effect (e : cv_op) (m : smach) : smach :=
  match e with
  | Signal zero i => let (a, b) := take_first zero i (m_asleep m) in Smach (m_sys m) b (m_woken m ++ a)
  | Broadcast zero i =>
      Smach (m_sys m) (filter (λ w, waits_on zero i w = false) (m_asleep m)) (m_woken m ++ filter (λ w, waits_on zero i w = true) (m_asleep m))
  end.

(** The call of [c] with [ops] has ended, or sleeps. *)
Definition settle (c : caller) (id : Z) (ops : list sembuf) (r : outcome * semsys) (m : smach) : smach :=
  let '(o, s) := r in
  let m := foldr cv_effect (Smach (no_cvs s) (m_asleep m) (m_woken m)) (cvs s) in
  match o with
  | Asleep zero i => Smach (m_sys m) (m_asleep m ++ [Waiter c id ops zero i]) (m_woken m)
  | _ => m
  end.

Inductive sevent :=
| Semop (c : caller) (id : Z) (ops : list sembuf)
| Interrupt (k : nat)
| Again (k : nat)
| Eintr (k : nat).

(** [Interrupt] takes a sleeper off its queue; [Again] and [Eintr] are the two ways on from [cv_wait_sig]. *)
Definition sexec (e : sevent) (m : smach) : run smach :=
  match e with
  | Semop c id ops => let* r := semop si c id (zlen ops) (Some ops) (m_sys m) in Ret (settle c id ops r m)
  | Interrupt k =>
      match m_asleep m !! k with
      | Some w => Ret (Smach (m_sys m) (delete k (m_asleep m)) (m_woken m ++ [w]))
      | None => Fault
      end
  | Again k =>
      match m_woken m !! k with
      | Some w =>
          let* r := semop_again si (w_caller w) (w_id w) (w_ops w) (m_sys m) in
          Ret (settle (w_caller w) (w_id w) (w_ops w) r (Smach (m_sys m) (m_asleep m) (delete k (m_woken m))))
      | None => Fault
      end
  | Eintr k =>
      match m_woken m !! k with
      | Some w =>
          let* r := semop_eintr (w_zero w) (w_sem w) (m_sys m) in
          Ret (settle (w_caller w) (w_id w) (w_ops w) r (Smach (m_sys m) (m_asleep m) (delete k (m_woken m))))
      | None => Fault
      end
  end.

(** Calls name each semaphore once; the counts of sleepers do not overflow. *)
Definition senabled (e : sevent) (m : smach) : Prop :=
  match e with
  | Semop _ _ ops => Forall op_fits ops ∧ NoDup (sem_num <$> ops) ∧ ∀ i x zero, sem_at (m_sys m) i = Some x → cnt zero x < 65535
  | Interrupt k => is_Some (m_asleep m !! k)
  | Again k => is_Some (m_woken m !! k) ∧ ∀ i x zero, sem_at (m_sys m) i = Some x → cnt zero x < 65535
  | Eintr k => is_Some (m_woken m !! k)
  end.

(** No call sleeps; no set is of one semaphore. *)
Record sinitial (m : smach) : Prop := {
  sn_ok : sem_ok si (m_sys m);
  sn_sets n sp : sema (m_sys m) !! n = Some sp → sem_nsems sp ≠ 1;
  sn_cvs : cvs (m_sys m) = [];
  sn_none : m_asleep m = [] ∧ m_woken m = []
}.

Inductive sreachable (m0 : smach) : smach → Prop :=
| sreach_here : sreachable m0 m0
| sreach_step m e m' : sreachable m0 m → senabled e m → sexec e m = Ret m' → sreachable m0 m'.

#[local] Instance cv_op_eq_dec : EqDecision cv_op.
Proof using Type. solve_decision. Defined.

(** ** What a pass does to the semaphores that others sleep for *)

#[local] Abbreviation blocked_at s zero op i := (∃ x, sem_at s i = Some x ∧ blocked zero op (semval x)).

(** What is left of those that sleep after a pass that has done [E] to condition variables. *)
Definition still (zero : bool) (i : Z) (E : list cv_op) (x0 x : sem) : Prop :=
  Broadcast zero i ∈ E ∨ (cnt zero x0 ≠ 0 → cnt zero x ≠ 0 ∧ ∀ op, blocked zero op (semval x0) → blocked zero op (semval x)).

Lemma cnt_after_bcast zero i E n : (∀ e, e ∈ E → is_signal e = false) → Broadcast zero i ∉ E → cnt_after zero i E n = n.
Proof using Type.
  induction E as [|e E IH]; intros Hs Hn; [done|]. apply not_elem_of_cons in Hn as [Hne Hn]. assert (is_signal e = false) as He by (apply Hs; left).
  destruct e as [z j|z j]; [done|]. simpl. rewrite bool_decide_eq_false_2 by (intros [-> ->]; done). apply IH; [|done]. intros e He'. apply Hs. by right.
Qed.

(** A value that no operation raises does not rise. *)
Lemma trail_le id base V0 L0 done V L i v0 v : trail si id base V0 L0 done V L → (∀ op, op ∈ done → base + sem_num op = i → sem_op op ≤ 0) → 0 ≤ i →
  V0 !! Z.to_nat i = Some v0 → V !! Z.to_nat i = Some v → v ≤ v0.
Proof using Type.
  intros Ht. revert v. induction Ht as [|op done V L V' L' Ht IH (u & Hu & Hpos & -> & _)]; intros v Hle Hi H0 Hv; [rewrite H0 in Hv; injection Hv; lia|].
  assert (∀ op, op ∈ done → base + sem_num op = i → sem_op op ≤ 0) as Hle' by (intros; apply Hle; [by right|done]).
  destruct (decide (base + sem_num op = i)) as [E|Hne].
  - rewrite E in *. rewrite list_lookup_insert_eq in Hv by (by eapply lookup_lt_Some). injection Hv as <-.
    specialize (IH u Hle' Hi H0 Hu). specialize (Hle op ltac:(left) E). lia.
  - rewrite list_lookup_insert_ne in Hv by lia. by apply IH.
Qed.

Lemma trail_other id base V0 L0 done V L i : trail si id base V0 L0 done V L → (∀ op, op ∈ done → base + sem_num op ≠ i) → 0 ≤ i →
  V !! Z.to_nat i = V0 !! Z.to_nat i.
Proof using Type.
  intros Ht. induction Ht as [|op done V L V' L' Ht IH (u & Hu & Hpos & -> & _)]; intros Hne Hi; [done|].
  rewrite list_lookup_insert_ne; [|assert (base + sem_num op ≠ i) by (apply Hne; left); lia]. apply IH; [|done]. intros; apply Hne. by right.
Qed.

Lemma cnt_after_le zero i E n : (∀ e, e ∈ E → is_signal e = false) → 0 ≤ n → 0 ≤ cnt_after zero i E n ≤ n.
Proof using Type.
  intros Hs Hn. induction E as [|e E IH]; [simpl; lia|]. assert (is_signal e = false) as He by (apply Hs; left).
  specialize (IH ltac:(intros; apply Hs; by right)). destruct e as [z j|z j]; [done|]. simpl. case_bool_decide; lia.
Qed.

Lemma done_still p id base s0 done s E zero i x0 x : passed si p id base false s0 done s E → (∀ e, e ∈ E → is_signal e = false) →
  sem_at s0 i = Some x0 → sem_at s i = Some x → still zero i E x0 x.
Proof using Type.
  intros Hp Hns H0 Hx. destruct (decide (Broadcast zero i ∈ E)) as [|Hn]; [by left|right]. intros Hc.
  destruct (pd_cnt _ _ _ _ _ _ _ _ _ Hp i x0 x H0 Hx) as [_ Hcnt]. specialize (Hcnt zero). rewrite (cnt_after_bcast _ _ _ _ Hns Hn) in Hcnt.
  split; [congruence|]. destruct (vals_at _ _ _ H0) as [Hv0 Hi], (vals_at _ _ _ Hx) as [Hv _]. intros op. destruct zero; simpl in *.
  - intros [E0 Hne]. split; [done|]. intros Ez. destruct (pd_zero _ _ _ _ _ _ _ _ _ Hp i x0 x eq_refl H0 Hx Ez); congruence.
  - intros [Hneg Hlt]. split; [done|]. assert (semval x ≤ semval x0); [|lia].
    eapply trail_le; [apply Hp| |exact Hi|exact Hv0|exact Hv]. intros op' Hin Eop. destruct (Z.leb_spec (sem_op op') 0) as [|Hpos]; [done|].
    rewrite <-Eop in Hx. pose proof (pd_up _ _ _ _ _ _ _ _ _ Hp op' x eq_refl Hin Hpos Hx). congruence.
Qed.

Lemma restored_still p s0 s E zero i x0 x : restored si p false s0 s E → (∀ e, e ∈ E → is_signal e = false) →
  sem_at s0 i = Some x0 → sem_at s i = Some x → semval x = semval x0 ∧ still zero i E x0 x.
Proof using Type.
  intros Hr Hns H0 Hx. destruct (vals_at _ _ _ H0) as [Hv0 Hi], (vals_at _ _ _ Hx) as [Hv _]. rewrite (rs_vals _ _ _ _ _ _ Hr), Hv0 in Hv.
  injection Hv as Ev. split; [done|]. destruct (decide (Broadcast zero i ∈ E)) as [|Hn]; [by left|right]. intros Hc.
  destruct (rs_cnt _ _ _ _ _ _ Hr i x0 x H0 Hx) as [_ Hcnt]. rewrite Hcnt, (cnt_after_bcast _ _ _ _ Hns Hn). split; [done|]. by rewrite Ev.
Qed.

Lemma signals_none (E : list cv_op) : (∀ e, e ∈ E → is_signal e = true → false = true) → ∀ e, e ∈ E → is_signal e = false.
Proof using Type. intros H e He. destruct (is_signal e) eqn:Es; [|done]. by specialize (H e He Es). Qed.

(** A pass over a set that is not binary. *)
Lemma pass_still p id base s0 ops o s : pass_end si p id base false s0 ops o s →
  (∀ i x zero, sem_at s0 i = Some x → 0 ≤ cnt zero x < 65535) →
  ∃ E, cvs s = E ++ cvs s0 ∧ (∀ e, e ∈ E → is_signal e = false) ∧
    ∀ zero i x0 x, sem_at s0 i = Some x0 → sem_at s i = Some x → still zero i E x0 x ∧ (o = Asleep zero i → cnt zero x ≠ 0).
Proof using Type.
  intros Hend Hmax. destruct Hend as [s E Hp|pre op post V L v e s E _ _ _ _ Hr|pre op post V L v zero s1 E x1 s _ _ _ _ _ Hr Hx1 Ha].
  - assert (∀ e, e ∈ E → is_signal e = false) as Hns by (apply signals_none; intros e He; by apply (pd_ev _ _ _ _ _ _ _ _ _ Hp)).
    exists E. split; [apply Hp|]. split; [done|]. intros zero i x0 x H0 Hx. split; [by eapply done_still|done].
  - assert (∀ e, e ∈ E → is_signal e = false) as Hns by (apply signals_none; intros e' He; by apply (rs_ev _ _ _ _ _ _ Hr)).
    exists E. split; [apply Hr|]. split; [done|]. intros zero i x0 x H0 Hx. split; [by eapply restored_still|done].
  - assert (∀ e, e ∈ E → is_signal e = false) as Hns by (apply signals_none; intros e' He; by apply (rs_ev _ _ _ _ _ _ Hr)).
    destruct (asleep_ok _ _ _ _ _ _ _ Ha Hx1) as (Ev & _ & _ & _ & Ecv & Hat); [by eapply rs_in|].
    exists E. split; [rewrite Ecv; apply Hr|]. split; [done|]. intros z i x0 x H0 Hx. rewrite Hat in Hx.
    destruct (decide (i = base + sem_num op)) as [->|Hne]; [|split; [by eapply restored_still|intros [= _ Ei]; by rewrite Ei in Hne]].
    injection Hx as <-. destruct (restored_still p s0 s1 E z _ x0 x1 Hr Hns H0 Hx1) as [Evx Hst].
    destruct (rs_cnt _ _ _ _ _ _ Hr _ x0 x1 H0 Hx1) as [_ Hcnt]. specialize (Hmax _ x0 zero H0). specialize (Hcnt zero).
    pose proof (cnt_after_le zero (base + sem_num op) E (cnt zero x0) Hns ltac:(lia)). rewrite w16_id by lia.
    split; [|intros [= <-]; rewrite cnt_set, bool_decide_eq_true_2 by done; lia].
    destruct Hst as [|Hst]; [by left|right]. intros Hc. destruct (Hst Hc) as [Hc1 Hb]. rewrite cnt_set, (proj1 (semval_set_cnt _ _ _)).
    split; [case_bool_decide; [|done]; lia|done].
Qed.

(** A new sleeper cannot go on, when it names its semaphores once. *)
Lemma pass_blocked p id base binary s0 ops zero i s : pass_end si p id base binary s0 ops (Asleep zero i) s → NoDup (sem_num <$> ops) →
  ∃ op x, op ∈ ops ∧ i = base + sem_num op ∧ sem_at s i = Some x ∧ blocked zero op (semval x).
Proof using Type.
  intros Hend Hnd. inversion Hend as [| |pre op post V L v zero' s1 E x1 s' Ho Ht Hv Hb Hnw Hr Hx1 Ha]; subst.
  destruct (asleep_ok _ _ _ _ _ _ _ Ha Hx1) as (Ev & _ & _ & _ & _ & Hat); [by eapply rs_in|].
  eexists op, _. split; [apply elem_of_app; right; left|]. split; [done|]. split; [by rewrite Hat, decide_True|].
  rewrite (proj1 (semval_set_cnt _ _ _)). destruct (vals_at _ _ _ Hx1) as [Hv1 Hi]. rewrite (rs_vals _ _ _ _ _ _ Hr) in Hv1.
  rewrite (trail_other _ _ _ _ _ _ _ (base + sem_num op) Ht) in Hv; [|..|done].
  - rewrite Hv1 in Hv. by injection Hv as ->.
  - intros op' Hin Eop. rewrite list_elem_of_In, <-in_rev, <-list_elem_of_In in Hin. rewrite fmap_app, fmap_cons in Hnd. apply NoDup_app in Hnd as (_ & Hdis & _).
    apply (Hdis (sem_num op')); [by apply list_elem_of_fmap_2|]. replace (sem_num op') with (sem_num op) by lia. left.
Qed.

(** ** The invariant *)

Definition set_of (id : Z) (s : semsys) (sp : semid_ds) : Prop := sema s !! Z.to_nat (sema_index id) = Some sp.

(** The operations of a call are those of a set that is there. *)
Definition call_ok (s : semsys) (w : waiter) : Prop :=
  (∃ sp, set_of (w_id w) s sp ∧ allocated sp = true ∧ Forall (ops_of sp) (w_ops w)) ∧ is_Some (sem_at s (w_sem w)) ∧ NoDup (sem_num <$> w_ops w).

(** An operation of [w] cannot be done, and [w] is counted. *)
Definition stuck (s : semsys) (w : waiter) : Prop :=
  ∃ op x sp, op ∈ w_ops w ∧ set_of (w_id w) s sp ∧ w_sem w = sem_base sp + sem_num op ∧ sem_at s (w_sem w) = Some x ∧
    blocked (w_zero w) op (semval x) ∧ cnt (w_zero w) x ≠ 0.

Record smach_ok (m : smach) : Prop := {
  mo_sys : sem_ok si (m_sys m);
  mo_sets n sp : sema (m_sys m) !! n = Some sp → sem_nsems sp ≠ 1;
  mo_cvs : cvs (m_sys m) = [];
  mo_calls w : w ∈ m_asleep m ++ m_woken m → call_ok (m_sys m) w;
  mo_stuck w : w ∈ m_asleep m → stuck (m_sys m) w
}.

Lemma fold_effect E m : (∀ e, e ∈ E → is_signal e = false) → let m' := foldr cv_effect m E in m_sys m' = m_sys m ∧
  (∀ w, w ∈ m_asleep m' → w ∈ m_asleep m ∧ Broadcast (w_zero w) (w_sem w) ∉ E) ∧ ∀ w, w ∈ m_asleep m' ++ m_woken m' → w ∈ m_asleep m ++ m_woken m.
Proof using Type.
  intros Hs. induction E as [|e E IH]; [split; [done|]; split; [|done]; intros w Hw; split; [done|apply not_elem_of_nil]|].
  destruct IH as (I1 & I2 & I3); [intros; apply Hs; by right|]. assert (is_signal e = false) as He by (apply Hs; left). destruct e as [z i|z i]; [done|].
  simpl in *. split; [done|]. split.
  - intros w [Hw Hin]%list_elem_of_filter. destruct (I2 w Hin) as [J1 J2]. split; [done|]. intros [[= Ez Ei]|?]%elem_of_cons; [|done].
    unfold waits_on in Hw. by rewrite Ez, Ei, Bool.eqb_reflx, Z.eqb_refl in Hw.
  - intros w. rewrite !elem_of_app, !list_elem_of_filter. intros Hw. rewrite <-elem_of_app. apply I3. rewrite elem_of_app. tauto.
Qed.

(** The system has gone from [s] to [s'], which had no operations on condition variables to tell. *)
Record goes (s s' : semsys) : Prop := {
  gs_ok : sem_ok si s';
  gs_sets : same_sets s s';
  gs_len : length (s_sem s') = length (s_sem s);
  gs_signal e : e ∈ cvs s' → is_signal e = false;
  gs_still zero i x0 x : sem_at s i = Some x0 → sem_at s' i = Some x → still zero i (cvs s') x0 x
}.

Lemma sem_at_len s s' i x : length (s_sem s') = length (s_sem s) → sem_at s i = Some x → is_Some (sem_at s' i).
Proof using Type. unfold sem_at. intros El. destruct (i <? 0); [done|]. intros Hx. apply lookup_lt_is_Some. apply lookup_lt_Some in Hx. lia. Qed.

Lemma same_sets_len s s' n sp : same_sets s s' → length (sema s') = length (sema s) → sema s !! n = Some sp →
  ∃ sp', sema s' !! n = Some sp' ∧ sem_perm sp' = sem_perm sp ∧ sem_base sp' = sem_base sp ∧ sem_nsems sp' = sem_nsems sp.
Proof using Type.
  intros Hss El Hsp. destruct (lookup_lt_is_Some_2 (sema s') n) as [sp' Hsp']; [apply lookup_lt_Some in Hsp; lia|].
  exists sp'. split; [done|]. destruct (Hss n sp' Hsp') as (sp0 & Hsp0 & E1 & E2 & E3). rewrite Hsp in Hsp0. by injection Hsp0 as ->.
Qed.

Lemma goes_sema s s' : sem_ok si s → goes s s' → length (sema s') = length (sema s).
Proof using Type. intros Hs Hg. pose proof (so_mni _ _ Hs). pose proof (so_mni _ _ (gs_ok _ _ Hg)). lia. Qed.

Lemma call_goes s s' w : sem_ok si s → goes s s' → call_ok s w → call_ok s' w.
Proof using Type.
  intros Hs Hg ((sp & Hsp & Ha & Hops) & [x Hx] & Hnd).
  destruct (same_sets_len _ _ _ _ (gs_sets _ _ Hg) (goes_sema _ _ Hs Hg) Hsp) as (sp' & Hsp' & E1 & E2 & E3). split; [|split; [|done]].
  - exists sp'. split; [done|]. split; [unfold allocated in *; by rewrite E1|]. eapply Forall_impl; [exact Hops|]. intros op. unfold ops_of. by rewrite E3.
  - eapply sem_at_len; [apply Hg|done].
Qed.

Lemma stuck_goes s s' w : sem_ok si s → goes s s' → stuck s w → Broadcast (w_zero w) (w_sem w) ∉ cvs s' → stuck s' w.
Proof using Type.
  intros Hs Hg (op & x & sp & Hin & Hsp & Ew & Hx & Hb & Hc) Hn.
  destruct (same_sets_len _ _ _ _ (gs_sets _ _ Hg) (goes_sema _ _ Hs Hg) Hsp) as (sp' & Hsp' & E1 & E2 & E3).
  destruct (sem_at_len s s' (w_sem w) x (gs_len _ _ Hg) Hx) as [x' Hx']. destruct (gs_still _ _ Hg (w_zero w) _ x x' Hx Hx') as [|Hst]; [done|].
  destruct (Hst Hc) as [Hc' Hb']. exists op, x', sp'. split; [done|]. split; [done|]. split; [by rewrite E2|]. split; [done|]. split; [by apply Hb'|done].
Qed.

Lemma settle_ok c id ops o s' m : smach_ok m → goes (m_sys m) s' →
  (∀ zero i, o = Asleep zero i → call_ok s' (Waiter c id ops zero i) ∧ stuck s' (Waiter c id ops zero i)) → smach_ok (settle c id ops (o, s') m).
Proof using Type.
  intros [M1 M2 M3 M4 M5] Hg Ho. unfold settle. destruct (fold_effect (cvs s') (Smach (no_cvs s') (m_asleep m) (m_woken m)) (gs_signal _ _ Hg)) as (F1 & F2 & F3).
  set (m1 := foldr cv_effect _ (cvs s')) in *. cbn [m_sys m_asleep m_woken] in F1, F2, F3.
  assert (sem_ok si (m_sys m1)) as Hok by (rewrite F1; destruct (gs_ok _ _ Hg) as [[A1 A2 A3 A4] ? ? ? ?]; by split).
  assert (∀ n sp, sema (m_sys m1) !! n = Some sp → sem_nsems sp ≠ 1) as Hsets.
  { rewrite F1. intros n sp Hsp. destruct (gs_sets _ _ Hg n sp Hsp) as (sp0 & Hsp0 & _ & _ & ->). by eapply M2. }
  assert (∀ w, w ∈ m_asleep m1 ++ m_woken m1 → call_ok (m_sys m1) w) as Hcalls.
  { intros w Hw. rewrite F1. apply (call_goes (m_sys m) s' w M1 Hg). by apply M4, F3. }
  assert (∀ w, w ∈ m_asleep m1 → stuck (m_sys m1) w) as Hstuck.
  { intros w Hw. rewrite F1. destruct (F2 w Hw) as [G1 G2]. apply (stuck_goes (m_sys m) s' w M1 Hg); [by apply M5|done]. }
  assert (cvs (m_sys m1) = []) as Hcvs by (by rewrite F1).
  destruct o as [|e|zero i]; [by split|by split|]. destruct (Ho zero i eq_refl) as [N1 N2]. split; cbn [m_sys m_asleep m_woken]; [done|done|done| |].
  - intros w. rewrite <-(assoc_L app), !elem_of_app. rewrite F1. rewrite F1 in Hcalls. intros [Hw|[->%list_elem_of_singleton|Hw]]; [|exact N1|]; apply Hcalls, elem_of_app; tauto.
  - intros w [Hw| ->%list_elem_of_singleton]%elem_of_app; [by apply Hstuck|]. by rewrite F1.
Qed.

(** ** Every event keeps the invariant *)

Lemma trail_len id base V0 L0 done V L : trail si id base V0 L0 done V L → length V = length V0.
Proof using Type. induction 1 as [|op done V L V' L' _ IH (v & _ & _ & -> & _)]; [done|]. by rewrite length_insert. Qed.

Lemma goes_refl s : sem_ok si s → cvs s = [] → goes s s.
Proof using Type.
  intros Hs Hc. split; [done|by apply same_sets_refl|done|rewrite Hc; intros e He; by apply elem_of_nil in He|].
  intros zero i x0 x H0 Hx. rewrite H0 in Hx. injection Hx as <-. by right.
Qed.

Hypothesis Hsi : 0 ≤ semaem si ≤ 16384 ∧ 0 ≤ semume si ∧ 0 ≤ semvmx si < 2 ^ 16.

Lemma check_goes c id ops s sp : sem_ok si s → cvs s = [] → (∀ i x zero, sem_at s i = Some x → cnt zero x < 65535) →
  set_of id s sp → allocated sp = true → sem_nsems sp ≠ 1 → Forall (ops_of sp) ops → NoDup (sem_num <$> ops) →
  ∃ o s', semop_check si c id ops s = Ret (o, s') ∧ goes s s' ∧
    ∀ zero i, o = Asleep zero i → call_ok s' (Waiter c id ops zero i) ∧ stuck s' (Waiter c id ops zero i).
Proof using Hsi.
  intros Hs Hcv Hmax Hsp Ha Hns Hops Hnd.
  destruct (semop_check_ok si Hsi c id ops s sp Hs Hsp Ha Hops) as (o & s' & Hrun & Hend & Hok & Hss & s1 & Hpass & Ecv & Ev & Hcnt).
  rewrite (proj2 (Z.eqb_neq _ 1)), andb_false_r in Hpass by done.
  destruct (pass_still _ _ _ _ _ _ _ Hpass) as (E & EE & Hsig & Hst).
  { intros i x zero Hx. specialize (Hmax i x zero Hx). destruct (so_cnts _ _ Hs i x Hx). destruct zero; simpl in *; lia. }
  rewrite Hcv, app_nil_r in EE.
  assert (length (s_sem s') = length (s_sem s)) as El.
  { rewrite !vals_len. destruct o; simpl in Hend; [by eapply trail_len, Hend|f_equal; apply Hend..]. }
  assert (∀ i x', sem_at s' i = Some x' → ∃ x, sem_at s1 i = Some x ∧ semval x' = semval x ∧ ∀ z, cnt z x' = cnt z x) as Hat.
  { intros i x' Hx'. destruct (Hcnt i x' Hx') as (x & Hx & Hz). exists x. split; [done|]. split; [|done].
    destruct (vals_at _ _ _ Hx') as [V1 _], (vals_at _ _ _ Hx) as [V2 _]. rewrite Ev, V2 in V1. by injection V1. }
  assert (goes s s') as Hg.
  { split; [done|done|done|by rewrite Ecv, EE|]. intros zero i x0 x' H0 Hx'. destruct (Hat i x' Hx') as (x & Hx & V & C). rewrite Ecv, EE.
    destruct (Hst zero i x0 x H0 Hx) as [[|Hr] _]; [by left|right]. intros Hc. rewrite C, V. by apply Hr. }
  exists o, s'. split; [done|]. split; [done|]. intros zero i ->.
  destruct (pass_blocked _ _ _ _ _ _ _ _ _ Hpass Hnd) as (op & x1 & Hin & Ei & Hx1 & Hb). subst i.
  assert (is_Some (sem_at s (sem_base sp + sem_num op))) as [x0 H0].
  { eapply sem_at_len; [|exact Hx1]. rewrite !vals_len, <-Ev, <-!vals_len. by symmetry. }
  destruct (sem_at_len s s' _ x0 El H0) as [x' Hx']. destruct (Hat _ x' Hx') as (x & Hx & V & C). rewrite Hx1 in Hx. injection Hx as <-.
  split.
  - apply (call_goes s s'); [done|done|]. split; [by exists sp|]. split; [by exists x0|done].
  - destruct (same_sets_len _ _ _ _ Hss (goes_sema _ _ Hs Hg) Hsp) as (sp' & Hsp' & _ & Eb & _).
    exists op, x', sp'. cbn [w_ops w_id w_sem w_zero]. split; [done|]. split; [done|]. split; [by rewrite Eb|]. split; [done|]. rewrite V, C.
    split; [done|]. by apply (Hst zero _ x0 x1 H0 Hx1).
Qed.

Lemma semop_cases c id ops s : sem_ok si s → Forall op_fits ops →
  (∃ o, semop si c id (zlen ops) (Some ops) s = Ret (o, s) ∧ ∀ zero i, o ≠ Asleep zero i) ∨
  ∃ sp, set_of id s sp ∧ allocated sp = true ∧ Forall (ops_of sp) ops ∧ semop si c id (zlen ops) (Some ops) s = semop_check si c id ops s.
Proof using Type.
  intros Hs Hops. unfold semop. destruct (_ <? _); [left; by eexists|]. destruct (_ =? 0); [left; by eexists|].
  destruct (semconv_lock_ok si id s Hs) as (r & -> & Hsp). cbn [rbind]. destruct r as [sp|]; [|left; by eexists].
  destruct (Hsp sp eq_refl) as (H1 & H2 & _). destruct (semop_access c sp ops) as [e|] eqn:Ea; [left; by eexists|right].
  exists sp. split; [done|]. split; [done|]. split; [|done]. apply semop_access_ok in Ea. rewrite Forall_forall in *.
  intros op Hin. destruct (Hops op Hin). split; [split; [lia|by apply Ea]|done].
Qed.

Lemma eintr_goes zero i s : sem_ok si s → cvs s = [] → is_Some (sem_at s i) → ∃ s', semop_eintr zero i s = Ret (Failed EINTR, s') ∧ goes s s'.
Proof using Type.
  intros Hs Hcv [x Hx]. unfold semop_eintr. rewrite (sem_at_get _ _ _ Hx). cbn [rbind]. pose proof (cnt_in zero x (so_cnts _ _ Hs i x Hx)) as Hc.
  assert (∀ v E s', sem_step i (set_cnt zero v x) E s s' → 0 ≤ v < 2 ^ 16 → (∀ e, e ∈ E → is_signal e = false) → Broadcast zero i ∈ E ∨ v ≠ 0 → goes s s') as Hgo.
  { intros v E s' Hst Hv HE Hw. pose proof (vals_step _ _ _ _ _ _ Hst Hx) as Hvals. rewrite (proj1 (semval_set_cnt _ _ _)), list_insert_id in Hvals by (by apply vals_at).
    assert (∀ j y, sem_at s' j = Some y → if decide (j = i) then y = set_cnt zero v x else sem_at s j = Some y) as Hat.
    { intros j y. rewrite (ss_at _ _ _ _ _ Hst). destruct (decide (j = i)); [by intros [= <-]|done]. }
    assert (same_sets s s') as Hss by (apply same_sets_refl, Hst). rewrite <-(app_nil_r E), <-Hcv in HE, Hw.
    split; [|done|apply Hst|by rewrite (ss_cvs _ _ _ _ _ Hst)|].
    - apply (sem_ok_keep si s); try done; [eapply undo_ok_eq; [apply Hst|apply Hs]|rewrite Hvals; apply Hs| |apply Hst|by rewrite (ss_sema _ _ _ _ _ Hst)].
      intros j y Hy. specialize (Hat j y Hy). destruct (decide (j = i)); [|by eapply so_cnts]. subst y. apply set_cnt_in; [by eapply so_cnts|done].
    - intros z j x0 y H0 Hy. specialize (Hat j y Hy). rewrite (ss_cvs _ _ _ _ _ Hst). unfold still.
      destruct (decide (j = i)) as [->|]; [subst y|rewrite H0 in Hat; injection Hat as ->; by right].
      rewrite Hx in H0. injection H0 as ->. rewrite cnt_set, (proj1 (semval_set_cnt _ _ _)). case_bool_decide as Ez; [subst z|by right].
      destruct Hw as [Hw|Hw]; [by left|right]. done. }
  destruct (Z.leb_spec (cnt zero x) 1) as [Hle|Hgt].
  - destruct (mod_step (set_cnt zero 0) s i x Hx) as (s1 & -> & Hs1). cbn [rbind]. eexists. split; [done|].
    eapply Hgo; [by apply emit_step|lia| |left; left]. intros e [->|?%elem_of_nil]%elem_of_cons; done.
  - destruct (mod_step (set_cnt zero (w16 (cnt zero x - 1))) s i x Hx) as (s1 & -> & Hs1). cbn [rbind]. eexists. split; [done|].
    rewrite w16_id in Hs1 by lia. eapply Hgo; [exact Hs1|lia|intros e He; by apply elem_of_nil in He|right; lia].
Qed.

Lemma delete_in (l : list waiter) k w : w ∈ delete k l → w ∈ l.
Proof using Type. intros [i Hi]%list_elem_of_lookup. rewrite list_lookup_delete in Hi. case_decide; by eapply list_elem_of_lookup_2. Qed.

(** A call on its way back is with its operation system as before. *)
Lemma without_woken m k : smach_ok m → smach_ok (Smach (m_sys m) (m_asleep m) (delete k (m_woken m))).
Proof using Type.
  intros [M1 M2 M3 M4 M5]. split; [done|done|done| |done]. intros w Hw. apply M4. cbn [m_asleep m_woken] in Hw. rewrite !elem_of_app in *.
  destruct Hw as [Hw|Hw%delete_in]; [by left|by right].
Qed.

Lemma sevent_ok e m : smach_ok m → senabled e m → ∃ m', sexec e m = Ret m' ∧ smach_ok m'.
Proof using Hsi.
  intros Hm He. pose proof Hm as [M1 M2 M3 M4 M5]. destruct e as [c id ops|k|k|k]; cbn [senabled sexec] in *.
  - destruct He as (Hfit & Hnd & Hmax). destruct (semop_cases c id ops _ M1 Hfit) as [(o & -> & Ho)|(sp & Hsp & Ha & Hops & ->)]; cbn [rbind].
    + eexists. split; [done|]. apply settle_ok; [done|by apply goes_refl|]. intros zero i E. by destruct (Ho zero i).
    + destruct (check_goes c id ops _ sp M1 M3 Hmax Hsp Ha (M2 _ _ Hsp) Hops Hnd) as (o & s' & -> & Hg & Hw). cbn [rbind].
      eexists. split; [done|]. by apply settle_ok.
  - destruct He as [w Hw]. rewrite Hw. eexists. split; [done|]. split; [done|done|done| |].
    + intros u. cbn [m_sys m_asleep m_woken]. rewrite !elem_of_app. intros [Hu%delete_in|[Hu| ->%list_elem_of_singleton]]; apply M4, elem_of_app; [by left|by right|].
      left. by eapply list_elem_of_lookup_2.
    + intros u Hu%delete_in. by apply M5.
  - destruct He as ([w Hw] & Hmax). rewrite Hw. pose proof (without_woken m k Hm) as Hm1.
    destruct (M4 w) as ((sp & Hsp & Ha & Hops) & _ & Hnd); [apply elem_of_app; right; by eapply list_elem_of_lookup_2|].
    unfold semop_again, semconv. destruct (semconv_lock_ok si (w_id w) _ M1) as (r & -> & _). cbn [rbind]. destruct r as [sp0|].
    + destruct (check_goes (w_caller w) (w_id w) (w_ops w) _ sp M1 M3 Hmax Hsp Ha (M2 _ _ Hsp) Hops Hnd) as (o & s' & -> & Hg & Hgo). cbn [rbind].
      eexists. split; [done|]. by apply settle_ok.
    + eexists. split; [done|]. apply settle_ok; [done|by apply goes_refl|done].
  - destruct He as [w Hw]. rewrite Hw. pose proof (without_woken m k Hm) as Hm1.
    destruct (M4 w) as (_ & Hat & _); [apply elem_of_app; right; by eapply list_elem_of_lookup_2|].
    destruct (eintr_goes (w_zero w) (w_sem w) _ M1 M3 Hat) as (s' & -> & Hg). cbn [rbind]. eexists. split; [done|]. by apply settle_ok.
Qed.

Lemma sinitial_ok m : sinitial m → smach_ok m.
Proof using Type.
  intros [H1 H2 H3 [H4 H5]]. split; [done|done|done|rewrite H4, H5; intros w Hw; by apply elem_of_nil in Hw|rewrite H4; intros w Hw; by apply elem_of_nil in Hw].
Qed.

Lemma sreachable_ok m0 m : sinitial m0 → sreachable m0 m → smach_ok m.
Proof using Hsi.
  intros H1 H2. induction H2 as [|m e m' _ IH He Hx]; [by apply sinitial_ok|].
  destruct (sevent_ok e m IH He) as (m1 & Hrun & Hok). rewrite Hx in Hrun. by injection Hrun as ->.
Qed.

(** An operation that cannot be done makes the call fail or sleep. *)
Lemma step_in id base V0 L0 done V L op : trail si id base V0 L0 done V L → op ∈ done → NoDup (sem_num <$> done) →
  ∀ v, V0 !! Z.to_nat (base + sem_num op) = Some v → ∀ zero, ¬ blocked zero op v.
Proof using Type.
  intros Ht. induction Ht as [|op' done V L V' L' Ht IH (u & Hu & Hpos & _ & Hr & _ & Hz & _)]; intros Hin Hnd v Hv zero Hb; [by apply elem_of_nil in Hin|].
  apply NoDup_cons in Hnd as [Hnot Hnd]. apply elem_of_cons in Hin as [->|Hin]; [|by eapply IH].
  rewrite (trail_other _ _ _ _ _ _ _ (base + sem_num op') Ht), Hv in Hu; [injection Hu as ->| |done].
  - destruct zero; destruct Hb as [Hb1 Hb2]; [by apply Hb2, Hz|clear Hsi; lia].
  - intros o Ho E. apply Hnot. replace (sem_num op') with (sem_num o) by (clear Hsi; lia). by apply list_elem_of_fmap_2.
Qed.

Lemma stuck_not_done s w : sem_ok si s → call_ok s w → stuck s w →
  ∀ s', semop_check si (w_caller w) (w_id w) (w_ops w) s ≠ Ret (Done, s').
Proof using Hsi.
  intros Hs ((sp & Hsp & Ha & Hops) & _ & Hnd) (op & x & sp' & Hin & Hsp' & Ei & Hx & Hb & _) s' Hrun.
  unfold set_of in *. rewrite Hsp in Hsp'. injection Hsp' as <-.
  destruct (semop_check_ok si Hsi (w_caller w) (w_id w) (w_ops w) s sp Hs Hsp Ha Hops) as (o & s1 & Hrun1 & Hend & _). rewrite Hrun in Hrun1. injection Hrun1 as <- <-.
  destruct Hend as [Ht _]. destruct (vals_at _ _ _ Hx) as [Hv Hpos]. rewrite Ei in Hv. eapply step_in; [exact Ht| | |exact Hv|exact Hb]; [|by rewrite <-(Permutation_rev (w_ops w))].
  by rewrite list_elem_of_In, <-in_rev, <-list_elem_of_In.
Qed.
End Machine.

(** C13: Processes that call [semop] with no two operations on the same semaphore, on sets of several semaphores, are
    never left asleep while they could go on: in every reachable state, whatever interruptions there were, every
    call that sleeps is counted as a sleeper of its semaphore and, if it went on now, would not succeed; and every event
    that can happen does happen without a fault. *)
Theorem semop_no_lost_wakeup si (m0 m : smach) (Hsi : 0 ≤ semaem si ≤ 16384 ∧ 0 ≤ semume si ∧ 0 ≤ semvmx si < 2 ^ 16) :
  sinitial si m0 → sreachable si m0 m →
  (∀ e, senabled e m → ∃ m', sexec si e m = Ret m') ∧
  ∀ w, w ∈ m_asleep m → (∃ x, sem_at (m_sys m) (w_sem w) = Some x ∧ cnt (w_zero w) x ≠ 0) ∧
    ∀ s', semop_check si (w_caller w) (w_id w) (w_ops w) (m_sys m) ≠ Ret (Done, s').
Proof.
  intros Hi Hr. pose proof (sreachable_ok si Hsi m0 m Hi Hr) as Hm. split.
  - intros e He. destruct (sevent_ok si Hsi e m Hm He) as (m' & Hrun & _). by exists m'.
  - intros w Hw. pose proof (mo_stuck _ _ Hm w Hw) as Hst. split.
    + destruct Hst as (op & x & sp & _ & _ & _ & Hx & _ & Hc). by exists x.
    + apply (stuck_not_done si Hsi); [apply Hm| |done]. apply (mo_calls _ _ Hm), elem_of_app. by left.
Qed.

(** ** A set of two semaphores *)

Definition ex_start : smach := Smach sys0 [] [].
Definition ex_sleep : sevent := Semop caller0 0 [Sembuf 1 (-1) 0].
Definition ex_slept : smach := match sexec si0 ex_sleep ex_start with Ret m => m | _ => ex_start end.

Lemma semop_no_lost_wakeup_witness : sreachable si0 ex_start ex_slept ∧ m_asleep ex_slept = [Waiter caller0 0 [Sembuf 1 (-1) 0] false 1] ∧
  ∀ s', semop_check si0 caller0 0 [Sembuf 1 (-1) 0] (m_sys ex_slept) ≠ Ret (Done, s').
Proof.
  assert (sreachable si0 ex_start ex_slept) as Hr.
  { apply (sreach_step si0 ex_start ex_start ex_sleep); [apply sreach_here| |vm_compute; reflexivity]. split.
    - apply Forall_singleton. by split_and!.
    - split; [apply NoDup_singleton|]. intros i x zero Hx. unfold sem_at in Hx. destruct (i <? 0); [done|].
      apply list_elem_of_lookup_2 in Hx. change (x ∈ [Sem 5 0 0 0; Sem 0 0 0 0]) in Hx. rewrite !elem_of_cons, elem_of_nil in Hx.
      destruct Hx as [->|[->|[]]]; by destruct zero. }
  assert (m_asleep ex_slept = [Waiter caller0 0 [Sembuf 1 (-1) 0] false 1]) as Ha by (vm_compute; reflexivity).
  split; [exact Hr|]. split; [exact Ha|].
  destruct (semop_no_lost_wakeup si0 ex_start ex_slept ltac:(by split_and!)) as [_ Hw].
  - split; [exact sys0_ok| |done|done]. intros n sp Hsp. apply list_elem_of_lookup_2 in Hsp. change (sp ∈ [set0]) in Hsp.
    by apply list_elem_of_singleton in Hsp as ->.
  - exact Hr.
  - apply (Hw (Waiter caller0 0 [Sembuf 1 (-1) 0] false 1)). rewrite Ha. left.
Defined.

(** ** Where the restrictions matter *)

(** Everyone has been told, and a call sleeps that would succeed now. *)
Definition strandedb (m : smach) : bool :=
  match m_woken m with
  | [] => existsb (λ w, match semop_check si0 (w_caller w) (w_id w) (w_ops w) (m_sys m) with Ret (Done, _) => true | _ => false end) (m_asleep m)
  | _ => false
  end.

Fixpoint sruns (l : list sevent) (m : smach) : run smach :=
  match l with [] => Ret m | e :: l => let* m := sexec si0 e m in sruns l m end.

(** The events happen, and strand a call. *)
Definition stranded_after (l : list sevent) (m : smach) : bool := match sruns l m with Ret m => strandedb m | _ => false end.

(** A set of one semaphore, 0, and processes that take one or give one. *)
Definition set1 : semid_ds := Semid_ds (Ipc_perm 0 0 0 0 (Z.lor IPC_ALLOC 0x1b6) 0 17) 0 1 0 0 1.
Definition ex_one : smach := Smach (Semsys [set1] [Sem 0 0 0 0] (Rmap 0 0 0 []) ∅ [] 3 []) [] [].
Definition P_one : sevent := Semop caller0 0 [Sembuf 0 (-1) 0].
Definition V_one : sevent := Semop caller0 0 [Sembuf 0 1 0].

(** Calls are left asleep that could go on, in three ways.  On a set of one semaphore one sleeper is signalled for
    each permit: if it is interrupted as well, with two more asleep, it takes the wakeup with it; if it needs more than there is it
    goes back to sleep, and the next is not told.  And a call that waits for zero after an operation of its own on the same semaphore is woken only
    when the semaphore itself is zero. *)
Theorem semop_sleepers_stranded :
  stranded_after [P_one; P_one; P_one; V_one; Eintr 0] ex_one = true ∧
  stranded_after [Semop caller0 0 [Sembuf 0 (-1) 0; Sembuf 0 (-1) 0]; P_one; V_one; Again 0] ex_one = true ∧
  stranded_after [Semop caller0 0 [Sembuf 0 (-4) 0; Sembuf 0 0 0]; P_one] ex_start = true.
Proof. split_and!; vm_compute; reflexivity. Qed.
