(* ===== verification/Msg.v ===== *)
(** * System V message queues ([uts/common/os/msg.c], [sys/msg.h])

    The queues, the headers of messages, which are linked through [msg_next] into queues and into the list of
    free ones, and the pool of text that a resource map divides.  The system calls are cut where the
    code takes and drops the locks of the pool and of the free headers, and where it waits; [MsgMachine] interleaves the
    pieces.  A pointer to a header is its index in [msgh] plus one, 0 is [NULL]. *)

From S2P Require Import Prelude Bytes Rmap Sem.

(** ** Data *)

Inductive msg_errno := Ipc (e : sem_errno) | ENOMSG | EOVERFLOW | ENOMEM.
#[global] Coercion Ipc : sem_errno >-> msg_errno.

Record msg := Msg { msg_next : Z; msg_type : Z; msg_ts : Z; msg_spot : Z }.

Record msqid_ds := Msqid_ds {
  msg_perm : ipc_perm;
  msg_first : Z;
  msg_last : Z;
  msg_cbytes : Z;
  msg_qnum : Z;
  msg_qbytes : Z;
  msg_lspid : Z;
  msg_lrpid : Z;
  msg_stime : Z;
  msg_rtime : Z;
  msg_ctime : Z
}.

(** The tunables; [msgmap], the number of slots of the map, is [msgmapsz] here. *)
Record msginfo := Msginfo {
  msgmapsz : Z;
  msgmax : Z;
  msgmnb : Z;
  msgmni : Z;
  msgssz : Z;
  msgtql : Z;
  msgseg : Z
}.

(** The condition variables: those of a queue for senders and for receivers, that of the free headers and that of the map. *)
Inductive chan := Msg_cv (q : Z) | Msg_qnum_cv (q : Z) | Msgfp_cv | Map_cv.

(** [bcasts] has the broadcasts on condition variables. *)
Record msgsys := Msgsys {
  msgque : list msqid_ds;
  msgh : list msg;
  msgfp : Z;
  msgmap : rmap;
  pool : list Z;
  hrestime : Z;
  bcasts : list chan
}.

Definition set_que (l : list msqid_ds) (s : msgsys) : msgsys := Msgsys l (msgh s) (msgfp s) (msgmap s) (pool s) (hrestime s) (bcasts s).
Definition set_msgh (l : list msg) (s : msgsys) : msgsys := Msgsys (msgque s) l (msgfp s) (msgmap s) (pool s) (hrestime s) (bcasts s).
Definition set_msgfp (p : Z) (s : msgsys) : msgsys := Msgsys (msgque s) (msgh s) p (msgmap s) (pool s) (hrestime s) (bcasts s).
Definition set_msgmap (m : rmap) (s : msgsys) : msgsys := Msgsys (msgque s) (msgh s) (msgfp s) m (pool s) (hrestime s) (bcasts s).
Definition set_pool (t : list Z) (s : msgsys) : msgsys := Msgsys (msgque s) (msgh s) (msgfp s) (msgmap s) t (hrestime s) (bcasts s).
Definition set_bcasts (l : list chan) (s : msgsys) : msgsys := Msgsys (msgque s) (msgh s) (msgfp s) (msgmap s) (pool s) (hrestime s) l.
Definition set_hrestime (t : Z) (s : msgsys) : msgsys := Msgsys (msgque s) (msgh s) (msgfp s) (msgmap s) (pool s) t (bcasts s).
Definition bcast (c : chan) (s : msgsys) : msgsys := set_bcasts (c :: bcasts s) s.

Definition set_next (p : Z) (m : msg) : msg := Msg p (msg_type m) (msg_ts m) (msg_spot m).

Definition set_mperm (p : ipc_perm) (x : msqid_ds) : msqid_ds :=
  Msqid_ds p (msg_first x) (msg_last x) (msg_cbytes x) (msg_qnum x) (msg_qbytes x) (msg_lspid x) (msg_lrpid x) (msg_stime x) (msg_rtime x) (msg_ctime x).
Definition set_first (p : Z) (x : msqid_ds) : msqid_ds :=
  Msqid_ds (msg_perm x) p (msg_last x) (msg_cbytes x) (msg_qnum x) (msg_qbytes x) (msg_lspid x) (msg_lrpid x) (msg_stime x) (msg_rtime x) (msg_ctime x).
Definition set_last (p : Z) (x : msqid_ds) : msqid_ds :=
  Msqid_ds (msg_perm x) (msg_first x) p (msg_cbytes x) (msg_qnum x) (msg_qbytes x) (msg_lspid x) (msg_lrpid x) (msg_stime x) (msg_rtime x) (msg_ctime x).
Definition set_cbytes (v : Z) (x : msqid_ds) : msqid_ds :=
  Msqid_ds (msg_perm x) (msg_first x) (msg_last x) v (msg_qnum x) (msg_qbytes x) (msg_lspid x) (msg_lrpid x) (msg_stime x) (msg_rtime x) (msg_ctime x).
Definition set_qnum (v : Z) (x : msqid_ds) : msqid_ds :=
  Msqid_ds (msg_perm x) (msg_first x) (msg_last x) (msg_cbytes x) v (msg_qbytes x) (msg_lspid x) (msg_lrpid x) (msg_stime x) (msg_rtime x) (msg_ctime x).
Definition set_mmode (f : Z → Z) (x : msqid_ds) : msqid_ds := set_mperm (set_mode (f (mode (msg_perm x))) (msg_perm x)) x.

Definition NULL : Z := 0.
Definition get_q (q : Z) (s : msgsys) : run msqid_ds := zget (msgque s) q.
Definition mod_q (f : msqid_ds → msqid_ds) (q : Z) (s : msgsys) : run msgsys :=
  let* x := get_q q s in let* l := zset (msgque s) q (f x) in Ret (set_que l s).
Definition get_h (p : Z) (s : msgsys) : run msg := zget (msgh s) (p - 1).
Definition mod_h (f : msg → msg) (p : Z) (s : msgsys) : run msgsys :=
  let* m := get_h p s in let* l := zset (msgh s) (p - 1) (f m) in Ret (set_msgh l s).

Definition MSG_R : Z := 0x100.
Definition MSG_W : Z := 0x80.
Definition MSG_RWAIT : Z := 0x200.
Definition MSG_WWAIT : Z := 0x400.
Definition MSG_NOERROR : Z := 0x1000.
#[global] Instance msg_rwait_bit : IsBit MSG_RWAIT := is_bit_pow 9 MSG_RWAIT eq_refl.
#[global] Instance msg_wwait_bit : IsBit MSG_WWAIT := is_bit_pow 10 MSG_WWAIT eq_refl.
#[global] Instance ipc_alloc_bit : IsBit IPC_ALLOC := is_bit_pow 15 IPC_ALLOC eq_refl.

Section Msg.
Context (mi : msginfo).

(** ** Loading *)

(** [struct msg], [struct map] and [int] of the 32-bit kernel; the other sizes are those of the machine. *)
Definition sizeof_msg : Z := 12.
Definition INTRND (x : Z) : Z := (x + 3) / 4 * 4.

Section Init.
Context (sizeof_map_head sizeof_msqid_ds sizeof_msglock : Z).

Definition msg_memory : Z :=
  INTRND (msgseg mi * msgssz mi) + msgmapsz mi * sizeof_map + msgmni mi * sizeof_msqid_ds + INTRND (msgmni mi * sizeof_msglock) +
  msgtql mi * sizeof_msg.

(** The free headers, each linked to the one behind it. *)
Fixpoint link_free (i : Z) (n : nat) : list msg :=
  match n with
  | O => []
  | S O => [Msg NULL 0 0 0]
  | S n => Msg (i + 1) 0 0 0 :: link_free (i + 1) n
  end.

Definition zero_perm : ipc_perm := Ipc_perm 0 0 0 0 0 0 0.
Definition zero_ds : msqid_ds := Msqid_ds zero_perm NULL NULL 0 0 0 0 0 0 0 0.

(** [_init], when the module is installed: an error, or the first state. *)
Definition msg_init (kmem_maxavail now : Z) : run (msg_errno + msgsys) :=
  if kmem_maxavail / 4 <? msg_memory then Ret (inl ENOMEM)
  else
    let slots := replicate (Z.to_nat (msgmapsz mi - (MAP_OVERHEAD sizeof_map_head - 1))) (Mapent 0 0) in
    let* m := mapinit sizeof_map_head slots (msgseg mi) 1 (msgmapsz mi) in
    Ret (inr (Msgsys (replicate (Z.to_nat (msgmni mi)) zero_ds) (link_free 1 (Z.to_nat (msgtql mi))) 1 m
                (replicate (Z.to_nat (INTRND (msgseg mi * msgssz mi))) 0) now [])).
End Init.

(** ** Headers, text and queues *)

Definition btoq (n : Z) : Z := (n + msgssz mi - 1) / msgssz mi.

(** A header goes back to the list of free ones, under [msg_lock]. *)
Definition put_hdr (mp : Z) (s : msgsys) : run msgsys :=
  let* s := mod_h (set_next (msgfp s)) mp s in
  Ret (set_msgfp mp (if msgfp s =? NULL then bcast Msgfp_cv s else s)).

(** [rmfree (msgmap, btoq (n), addr)] with its broadcast. *)
Definition free_text (n addr : Z) (s : msgsys) : run msgsys :=
  let* r := rmfree (msgmap s) (btoq n) addr in
  match r with
  | Some (m, woke) => Ret (if woke : bool then bcast Map_cv (set_msgmap m s) else set_msgmap m s)
  | None => Fault
  end.

(** The three parts of [msgfree]. *)
Definition msgfree_unlink (q pmp mp : Z) (s : msgsys) : run msgsys :=
  let* m := get_h mp s in
  let* s := if pmp =? NULL then mod_q (set_first (msg_next m)) q s else mod_h (set_next (msg_next m)) pmp s in
  let* s := if msg_next m =? NULL then mod_q (set_last pmp) q s else Ret s in
  let* s := mod_q (λ x, set_qnum (w32 (msg_qnum x - 1)) x) q s in
  let* x := get_q q s in
  if has (mode (msg_perm x)) MSG_WWAIT then
    let* s := mod_q (set_mmode (clr_bits MSG_WWAIT)) q s in Ret (bcast (Msg_cv q) s)
  else Ret s.

Definition msgfree_text (mp : Z) (s : msgsys) : run msgsys :=
  let* m := get_h mp s in
  if truthy (msg_ts m) then free_text (msg_ts m) (w32 (msg_spot m + 1)) s else Ret s.

Definition msgfree (q pmp mp : Z) (s : msgsys) : run msgsys :=
  let* s := msgfree_unlink q pmp mp s in
  let* s := msgfree_text mp s in
  put_hdr mp s.

(** ** Identifiers *)

(** The queue has been removed, or is another: what is checked after a wait. *)
Definition msg_gone (id : Z) (x : msqid_ds) : bool :=
  negb (has (mode (msg_perm x)) IPC_ALLOC) || negb (id / msgmni mi =? seq_ (msg_perm x)).

Definition msg_slot (id : Z) : Z := id mod msgmni mi.

(** [msgconv]: the queue, or [None] for [EINVAL]. *)
Definition msgconv (id : Z) (s : msgsys) : run (option Z) :=
  if id <? 0 then Ret None
  else
    let* x := get_q (msg_slot id) s in
    Ret (if msg_gone id x then None else Some (msg_slot id)).

Definition msg_name (q : Z) (x : msqid_ds) : Z := s32 (seq_ (msg_perm x) * msgmni mi + q).

(** What a call gives back: a number, an error, a message, or the structure of a queue. *)
Inductive msg_reply := MNum (v : Z) | MErr (e : msg_errno) | MMsg (type : Z) (text : list Z) | MStat (x : msqid_ds).

(** How a call stands: it has ended, or waits. *)
Inductive moutcome := MDone (r : msg_reply) | MWait (ch : chan).

(** ** [msgrcv] *)

(** [MSG_NOERROR] and [IPC_NOWAIT] are in [r_flg]; the last two say whether the copies to the caller's memory work. *)
Record rcvreq := Rcvreq { r_msgsz : Z; r_typ : Z; r_flg : Z; r_type_ok : bool; r_text_ok : bool }.

(** The loop of [findmsg]; [s32 (- typ)] is [- LONG_MIN] too. *)
Fixpoint findmsg_loop (fuel : nat) (typ pmp mp spmp smp : Z) (s : msgsys) : run (Z * Z) :=
  match fuel with
  | O => Fault
  | S fuel =>
      if mp =? NULL then Ret (spmp, smp)
      else
        let* m := get_h mp s in
        if 0 <? typ then
          if typ =? msg_type m then Ret (pmp, mp) else findmsg_loop fuel typ mp (msg_next m) spmp smp s
        else if msg_type m <=? s32 (- typ) then
          let* keep := if smp =? NULL then Ret false else let* sm := get_h smp s in Ret (msg_type sm <=? msg_type m) in
          if keep : bool then findmsg_loop fuel typ mp (msg_next m) spmp smp s
          else findmsg_loop fuel typ mp (msg_next m) pmp mp s
        else findmsg_loop fuel typ mp (msg_next m) spmp smp s
  end.

(** The message chosen and the one before it. *)
Definition findmsg (q typ : Z) (s : msgsys) : run (Z * Z) :=
  let* x := get_q q s in
  if typ =? 0 then Ret (NULL, msg_first x)
  else findmsg_loop (S (length (msgh s))) typ NULL (msg_first x) NULL NULL s.

(** From [findmsg] on: an error, a wait, or a message taken, which is then freed. *)
Inductive rcv_step := RStop (o : moutcome) | RTake (pmp mp type : Z) (text : list Z).

Definition msgrcv_find (c : caller) (q : Z) (r : rcvreq) (s : msgsys) : run (rcv_step * msgsys) :=
  let* (spmp, smp) := findmsg q (r_typ r) s in
  if smp =? NULL then
    if has (r_flg r) IPC_NOWAIT then Ret (RStop (MDone (MErr ENOMSG)), s)
    else let* s := mod_q (set_mmode (set_bits MSG_RWAIT)) q s in Ret (RStop (MWait (Msg_qnum_cv q)), s)
  else
    let* m := get_h smp s in
    if (w32 (r_msgsz r) <? msg_ts m) && negb (has (r_flg r) MSG_NOERROR) then Ret (RStop (MDone (MErr E2BIG)), s)
    else
      let sz := if w32 (r_msgsz r) <? msg_ts m then r_msgsz r else msg_ts m in
      if negb (r_type_ok r) then Ret (RStop (MDone (MErr EFAULT)), s)
      else
        let* text := if truthy sz then get_bytes (msgssz mi * msg_spot m) sz (pool s) else Ret [] in
        if truthy sz && negb (r_text_ok r) then Ret (RStop (MDone (MErr EFAULT)), s)
        else
          let* s := mod_q (λ x, Msqid_ds (msg_perm x) (msg_first x) (msg_last x) (w32 (msg_cbytes x - msg_ts m)) (msg_qnum x)
            (msg_qbytes x) (msg_lspid x) (p_pid c) (msg_stime x) (hrestime s) (msg_ctime x)) q s in
          Ret (RTake spmp smp (msg_type m) text, s).

Definition msgrcv_take (c : caller) (q : Z) (r : rcvreq) (s : msgsys) : run (moutcome * msgsys) :=
  let* (k, s) := msgrcv_find c q r s in
  match k with
  | RStop o => Ret (o, s)
  | RTake pmp mp type text => let* s := msgfree q pmp mp s in Ret (MDone (MMsg type text), s)
  end.

(** Before [findmsg]. *)
Definition msgrcv_enter (c : caller) (id : Z) (r : rcvreq) (s : msgsys) : run (msg_errno + Z) :=
  let* o := msgconv id s in
  match o with
  | None => Ret (inl (Ipc EINVAL))
  | Some q =>
      let* x := get_q q s in
      match ipcaccess (msg_perm x) MSG_R (cr c) with
      | Some e => Ret (inl (Ipc e))
      | None => if r_msgsz r <? 0 then Ret (inl (Ipc EINVAL)) else Ret (inr q)
      end
  end.

Definition msgrcv (c : caller) (id : Z) (r : rcvreq) (s : msgsys) : run (moutcome * msgsys) :=
  let* o := msgrcv_enter c id r s in
  match o with
  | inl e => Ret (MDone (MErr e), s)
  | inr q => msgrcv_take c q r s
  end.

(** After the wait. *)
Definition msgrcv_again (id q : Z) (s : msgsys) : run (msg_errno + Z) :=
  let* x := get_q q s in Ret (if msg_gone id x then inl (Ipc EIDRM) else inr q).

(** ** [msgsnd] *)

(** What [copyin] gets of the type and of the [n_msgsz] bytes of the text. *)
Record sndreq := Sndreq { n_msgsz : Z; n_type : option Z; n_text : option (list Z); n_flg : Z }.
Definition snd_type (r : sndreq) : Z := default 0 (n_type r).

(** Before [getres]. *)
Definition msgsnd_enter (c : caller) (id : Z) (r : sndreq) (s : msgsys) : run (msg_errno + Z) :=
  let* o := msgconv id s in
  match o with
  | None => Ret (inl (Ipc EINVAL))
  | Some q =>
      let* x := get_q q s in
      match ipcaccess (msg_perm x) MSG_W (cr c) with
      | Some e => Ret (inl (Ipc e))
      | None =>
          if (n_msgsz r <? 0) || (msgmax mi <? n_msgsz r) then Ret (inl (Ipc EINVAL))
          else
            match n_type r with
            | None => Ret (inl (Ipc EFAULT))
            | Some type => if type <? 1 then Ret (inl (Ipc EINVAL)) else Ret (inr q)
            end
      end
  end.

(** [getres]: room on the queue and a header. *)
Inductive snd_step := SStop (o : moutcome) | SHdr (mp : Z).

Definition msgsnd_getres (q : Z) (r : sndreq) (s : msgsys) : run (snd_step * msgsys) :=
  let* x := get_q q s in
  if w32 (msg_qbytes x) <? w32 (n_msgsz r + msg_cbytes x) then
    if has (n_flg r) IPC_NOWAIT then Ret (SStop (MDone (MErr EAGAIN)), s)
    else let* s := mod_q (set_mmode (set_bits MSG_WWAIT)) q s in Ret (SStop (MWait (Msg_cv q)), s)
  else if msgfp s =? NULL then
    Ret (SStop (if has (n_flg r) IPC_NOWAIT then MDone (MErr EAGAIN) else MWait Msgfp_cv), s)
  else
    let* m := get_h (msgfp s) s in Ret (SHdr (msgfp s), set_msgfp (msg_next m) s).

(** Space for the text.  Without any, the header goes back; [spot] is undefined for an empty text. *)
Inductive map_step := SSpot (spot : Z) | SOut1 (e : msg_errno) | SMapWait.

Definition msgsnd_map (mp : Z) (r : sndreq) (s : msgsys) : run (map_step * msgsys) :=
  if truthy (n_msgsz r) then
    let* (m, spot) := rmalloc_locked (msgmap s) (btoq (n_msgsz r)) in
    let s := set_msgmap m s in
    if spot =? 0 then
      if has (n_flg r) IPC_NOWAIT then Ret (SOut1 EAGAIN, s)
      else
        let* s := put_hdr mp (set_msgmap (set_m_want (w32 (m_want m + 1)) m) s) in Ret (SMapWait, s)
    else Ret (SSpot spot, s)
  else Ret (SSpot 0, s).

(** The message goes to the end of the queue. *)
Definition msgsnd_link (c : caller) (q mp spot : Z) (r : sndreq) (s : msgsys) : run msgsys :=
  let cnt := n_msgsz r in
  let* s := mod_q (λ x, Msqid_ds (msg_perm x) (msg_first x) (msg_last x) (w32 (msg_cbytes x + cnt)) (w32 (msg_qnum x + 1))
    (msg_qbytes x) (p_pid c) (msg_lrpid x) (hrestime s) (msg_rtime x) (msg_ctime x)) q s in
  let* s := mod_h (λ _, Msg NULL (snd_type r) (w16 cnt) (s16 (if truthy cnt then spot else -1))) mp s in
  let* x := get_q q s in
  let* s :=
    if msg_last x =? NULL then mod_q (λ x, set_last mp (set_first mp x)) q s
    else let* s := mod_h (set_next mp) (msg_last x) s in mod_q (set_last mp) q s in
  let* x := get_q q s in
  if has (mode (msg_perm x)) MSG_RWAIT then
    let* s := mod_q (set_mmode (clr_bits MSG_RWAIT)) q s in Ret (bcast (Msg_qnum_cv q) s)
  else Ret s.

(** The text is copied in and the message put on the queue; [false] when the copy fails, with the text freed again. *)
Definition msgsnd_put (c : caller) (q mp spot : Z) (r : sndreq) (s : msgsys) : run (bool * msgsys) :=
  if truthy (n_msgsz r) then
    match n_text r with
    | None => let* s := free_text (n_msgsz r) spot s in Ret (false, s)
    | Some text =>
        let* t := put_bytes (msgssz mi * (spot - 1)) text (pool s) in
        let* s := msgsnd_link c q mp (spot - 1) r (set_pool t s) in Ret (true, s)
    end
  else let* s := msgsnd_link c q mp spot r s in Ret (true, s).

(** From [getres] to the end. *)
Definition msgsnd_go (c : caller) (q : Z) (r : sndreq) (s : msgsys) : run (moutcome * msgsys) :=
  let* (k, s) := msgsnd_getres q r s in
  match k with
  | SStop o => Ret (o, s)
  | SHdr mp =>
      let* (k, s) := msgsnd_map mp r s in
      match k with
      | SMapWait => Ret (MWait Map_cv, s)
      | SOut1 e => let* s := put_hdr mp s in Ret (MDone (MErr e), s)
      | SSpot spot =>
          let* (ok, s) := msgsnd_put c q mp spot r s in
          if ok : bool then Ret (MDone (MNum 0), s) else let* s := put_hdr mp s in Ret (MDone (MErr EFAULT), s)
      end
  end.

Definition msgsnd (c : caller) (id : Z) (r : sndreq) (s : msgsys) : run (moutcome * msgsys) :=
  let* o := msgsnd_enter c id r s in
  match o with
  | inl e => Ret (MDone (MErr e), s)
  | inr q => msgsnd_go c q r s
  end.

(** After a wait: on the queue, with its lock, or for a header or text. *)
Definition msgsnd_again (ch : chan) (id : Z) (s : msgsys) : run (msg_errno + Z) :=
  match ch with
  | Msg_cv q => let* x := get_q q s in Ret (if msg_gone id x then inl (Ipc EIDRM) else inr q)
  | _ => let* o := msgconv id s in Ret (match o with Some q => inr q | None => inl (Ipc EIDRM) end)
  end.

(** A wait that a signal ends.  When the queue is gone by then, [qp1] is not set. *)
Definition msgsnd_eintr (ch : chan) (id : Z) (s : msgsys) : run (msg_errno * msgsys) :=
  let* o := msgconv id s in
  match ch, o with
  | Msg_cv q, None => Fault
  | Msg_cv q, Some _ =>
      let* s := mod_q (set_mmode (clr_bits MSG_WWAIT)) q s in Ret (Ipc EINTR, bcast (Msg_cv q) s)
  | Msgfp_cv, None => Ret (Ipc EINVAL, s)
  | _, None => Ret (Ipc EIDRM, s)
  | _, Some _ => Ret (Ipc EINTR, s)
  end.

(** ** [msgctl] and [msgget] *)

(** What the caller's structure has for [IPC_SET]. *)
Record msgset := Msgset { ms_uid : Z; ms_gid : Z; ms_mode : Z; ms_qbytes : Z }.

(** The commands, with what [copyin] gets, or whether [copyout] works; [IPC_O_RMID] is [IPC_RMID]. *)
Inductive msg_cmd :=
| IPC_RMID
| IPC_SET (ds : option msgset)
| IPC_O_SET (ods : option msgset)
| IPC_STAT (ok : bool)
| IPC_O_STAT (ok : bool)
| IPC_BAD.

Definition msg_owner (c : caller) (x : msqid_ds) : bool :=
  (cr_uid (cr c) =? uid (msg_perm x)) || (cr_uid (cr c) =? cuid (msg_perm x)) || suser (cr c).

Definition USHRT_MAX : Z := 65535.
Definition SHRT_MAX : Z := 32767.

(** [while (qp->msg_first) msgfree (...)], with fuel. *)
Fixpoint msg_purge (fuel : nat) (q : Z) (s : msgsys) : run msgsys :=
  match fuel with
  | O => Fault
  | S fuel =>
      let* x := get_q q s in
      if msg_first x =? NULL then Ret s
      else let* s := msgfree q NULL (msg_first x) s in msg_purge fuel q s
  end.

(** The rest of [IPC_RMID]. *)
Definition msg_rmid (id q : Z) (s : msgsys) : run msgsys :=
  let* s := mod_q (λ x, let x := set_cbytes 0 x in
    let seq := if s32 (id + msgmni mi) <? 0 then 0 else w32 (seq_ (msg_perm x) + 1) in set_mperm (set_seq seq (msg_perm x)) x) q s in
  let* x := get_q q s in
  let s := if has (mode (msg_perm x)) MSG_RWAIT then bcast (Msg_qnum_cv q) s else s in
  let s := if has (mode (msg_perm x)) MSG_WWAIT then bcast (Msg_cv q) s else s in
  mod_q (set_mmode (λ _, 0)) q s.

(** [IPC_SET] once the values are found right. *)
Definition msg_set (q : Z) (ds : msgset) (s : msgsys) : run msgsys :=
  mod_q (λ x, let p := msg_perm x in
    Msqid_ds (Ipc_perm (ms_uid ds) (ms_gid ds) (cuid p) (cgid p) (Z.lor (Z.ldiff (mode p) 0x1ff) (Z.land (ms_mode ds) 0x1ff)) (seq_ p) (key p))
      (msg_first x) (msg_last x) (msg_cbytes x) (msg_qnum x) (ms_qbytes ds) (msg_lspid x) (msg_lrpid x) (msg_stime x) (msg_rtime x)
      (hrestime s)) q s.

(** [IPC_SET] and [IPC_O_SET]: [bad] is the check of the identifiers. *)
Definition msgctl_set (c : caller) (q : Z) (bad : msgset → option msg_errno) (ds : option msgset) (s : msgsys) : run (msg_reply * msgsys) :=
  let* x := get_q q s in
  if negb (msg_owner c x) then Ret (MErr EPERM, s)
  else
    match ds with
    | None => Ret (MErr EFAULT, s)
    | Some ds =>
        if (msg_qbytes x <? ms_qbytes ds) && negb (suser (cr c)) then Ret (MErr EPERM, s)
        else
          match bad ds with
          | Some e => Ret (MErr e, s)
          | None => let* s := msg_set q ds s in Ret (MNum 0, s)
          end
    end.

Definition set_bad (ds : msgset) : option msg_errno :=
  if (ms_uid ds <? 0) || (MAXUID <? ms_uid ds) || (ms_gid ds <? 0) || (MAXUID <? ms_gid ds) then Some (Ipc EINVAL) else None.

Definition o_set_bad (ods : msgset) : option msg_errno :=
  if (USHRT_MAX <=? w32 (ms_uid ods)) || (USHRT_MAX <=? w32 (ms_gid ods)) then Some EOVERFLOW
  else if (MAXUID <? w32 (ms_uid ods)) || (MAXUID <? w32 (ms_gid ods)) then Some (Ipc EINVAL) else None.

(** The structure of SVR3, when all values fit. *)
Definition o_stat_bad (x : msqid_ds) : bool :=
  let p := msg_perm x in
  (USHRT_MAX <? w32 (uid p)) || (USHRT_MAX <? w32 (gid p)) || (USHRT_MAX <? w32 (cuid p)) || (USHRT_MAX <? w32 (cgid p)) ||
  (USHRT_MAX <? w32 (seq_ p)) || (USHRT_MAX <? w32 (msg_cbytes x)) || (USHRT_MAX <? w32 (msg_qnum x)) ||
  (USHRT_MAX <? w32 (msg_qbytes x)) || (SHRT_MAX <? w32 (msg_lspid x)) || (SHRT_MAX <? w32 (msg_lrpid x)).

Definition o_stat (x : msqid_ds) : msqid_ds :=
  let p := msg_perm x in
  Msqid_ds (Ipc_perm (w16 (uid p)) (w16 (gid p)) (w16 (cuid p)) (w16 (cgid p)) (w16 (mode p)) (w16 (seq_ p)) (key p))
    NULL NULL (w16 (msg_cbytes x)) (w16 (msg_qnum x)) (w16 (msg_qbytes x)) (s16 (msg_lspid x)) (s16 (msg_lrpid x))
    (msg_stime x) (msg_rtime x) (msg_ctime x).

(** The commands but [IPC_RMID]. *)
Definition msgctl_other (c : caller) (q : Z) (cmd : msg_cmd) (s : msgsys) : run (msg_reply * msgsys) :=
  let* x := get_q q s in
  match cmd with
  | IPC_SET ds => msgctl_set c q set_bad ds s
  | IPC_O_SET ods => msgctl_set c q o_set_bad ods s
  | IPC_STAT ok =>
      match ipcaccess (msg_perm x) MSG_R (cr c) with
      | Some e => Ret (MErr e, s)
      | None => Ret (if ok then MStat x else MErr EFAULT, s)
      end
  | IPC_O_STAT ok =>
      match ipcaccess (msg_perm x) MSG_R (cr c) with
      | Some e => Ret (MErr e, s)
      | None => Ret (if o_stat_bad x then MErr EOVERFLOW else if ok then MStat (o_stat x) else MErr EFAULT, s)
      end
  | _ => Ret (MErr EINVAL, s)
  end.

Definition msgctl (c : caller) (id : Z) (cmd : msg_cmd) (s : msgsys) : run (msg_reply * msgsys) :=
  let* o := msgconv id s in
  match o with
  | None => Ret (MErr EINVAL, s)
  | Some q =>
      match cmd with
      | IPC_RMID =>
          let* x := get_q q s in
          if negb (msg_owner c x) then Ret (MErr EPERM, s)
          else
            let* s := msg_purge (S (length (msgh s))) q s in
            let* s := msg_rmid id q s in Ret (MNum 0, s)
      | _ => msgctl_other c q cmd s
      end
  end.

(** A new queue is finished. *)
Definition msgget_init (q : Z) (s : msgsys) : run msgsys :=
  mod_q (λ x, Msqid_ds (msg_perm x) NULL NULL (msg_cbytes x) 0 (msgmnb mi) 0 0 0 0 (hrestime s)) q s.

Definition msgget (c : caller) (k msgflg : Z) (s : msgsys) : run (msg_reply * msgsys) :=
  match ipcget c k msgflg (msg_perm <$> msgque s) with
  | inl e => Ret (MErr e, s)
  | inr (isnew, q, p) =>
      let* s := if isnew : bool then let* s := mod_q (set_mperm p) q s in msgget_init q s else Ret s in
      let* x := get_q q s in Ret (MNum (msg_name q x), s)
  end.

End Msg.
