(* ===== verification/MsgInv.v ===== *)
(** * The invariant of message queues ([uts/common/os/msg.c])

    Every header is on the list of free ones, on one queue, or in the hands of a call; every unit of text that a header
    or a call has is its own and not free in the map. *)

From S2P Require Import Prelude Bytes Rmap Sem Msg.

(** ** Headers *)

Definition hdr_at (h : list msg) (p : Z) : option msg := if p <=? 0 then None else h !! Z.to_nat (p - 1).
Definition hset (p : Z) (m : msg) (h : list msg) : list msg := <[Z.to_nat (p - 1) := m]> h.

Lemma hdr_at_pos h p m : hdr_at h p = Some m → 0 < p ≤ zlen h.
Proof. unfold hdr_at. case_if; [done|]. intros H%lookup_lt_Some. lia. Qed.

Lemma hdr_at_some h p : 0 < p ≤ zlen h → ∃ m, hdr_at h p = Some m.
Proof. intros Hp. unfold hdr_at. case_if; [lia|]. apply lookup_lt_is_Some_2. lia. Qed.

Lemma hset_len p m h : length (hset p m h) = length h.
Proof. apply length_insert. Qed.

Lemma hdr_at_hset p p' m h : 0 < p ≤ zlen h → hdr_at (hset p m h) p' = if decide (p' = p) then Some m else hdr_at h p'.
Proof.
  intros Hp. unfold hdr_at, hset. destruct (Z.leb_spec p' 0); [by rewrite decide_False by lia|].
  destruct (decide (p' = p)) as [->|]; [apply list_lookup_insert_eq; lia|apply list_lookup_insert_ne; lia].
Qed.

Lemma hdr_at_hset_eq p m h : 0 < p ≤ zlen h → hdr_at (hset p m h) p = Some m.
Proof. intros. by rewrite hdr_at_hset, decide_True. Qed.

Lemma hdr_at_hset_ne p p' m h : 0 < p ≤ zlen h → p' ≠ p → hdr_at (hset p m h) p' = hdr_at h p'.
Proof. intros. by rewrite hdr_at_hset, decide_False. Qed.

Lemma get_h_ok p s m : hdr_at (msgh s) p = Some m → get_h p s = Ret m.
Proof. intros H. pose proof (hdr_at_pos _ _ _ H). unfold hdr_at in H. rewrite (proj2 (Z.leb_gt _ _)) in H by lia. apply zget_ok; [lia|done]. Qed.

Lemma mod_h_ok f p s m : hdr_at (msgh s) p = Some m → mod_h f p s = Ret (set_msgh (hset p (f m) (msgh s)) s).
Proof.
  intros H. pose proof (hdr_at_pos _ _ _ H). unfold mod_h. rewrite (get_h_ok _ _ _ H). simpl. by rewrite zset_in by lia.
Qed.

Lemma get_q_ok q s x : 0 ≤ q → msgque s !! Z.to_nat q = Some x → get_q q s = Ret x.
Proof. apply zget_ok. Qed.

Lemma mod_q_ok f q s x : 0 ≤ q → msgque s !! Z.to_nat q = Some x → mod_q f q s = Ret (set_que (<[Z.to_nat q := f x]> (msgque s)) s).
Proof.
  intros Hq H. unfold mod_q. rewrite (get_q_ok _ _ _ Hq H). simpl. apply lookup_lt_Some in H. by rewrite zset_in by lia.
Qed.

(** [ps] are the headers from [p] to [e] by their links. *)
Fixpoint hseg (h : list msg) (p : Z) (ps : list Z) (e : Z) : Prop :=
  match ps with
  | [] => p = e
  | a :: ps => p = a ∧ ∃ m, hdr_at h a = Some m ∧ hseg h (msg_next m) ps e
  end.

Lemma hseg_app h p l1 l2 e : hseg h p (l1 ++ l2) e ↔ ∃ a, hseg h p l1 a ∧ hseg h a l2 e.
Proof.
  revert p. induction l1 as [|b l1 IH]; intros p; simpl.
  - split; [by exists p|]. by intros (a & -> & ?).
  - setoid_rewrite IH. split.
    + intros (-> & m & Hm & a & H1 & H2). exists a. eauto.
    + intros (a & (-> & m & Hm & H1) & H2). split; [done|]. exists m. eauto.
Qed.

Lemma hseg_frame h p ps e b m : 0 < b ≤ zlen h → b ∉ ps → hseg h p ps e → hseg (hset b m h) p ps e.
Proof.
  intros Hb. revert p. induction ps as [|a ps IH]; intros p Hn; simpl; [done|].
  apply not_elem_of_cons in Hn as [Hne Hn]. intros (-> & m' & Hm & H). split; [done|]. exists m'.
  rewrite hdr_at_hset_ne by done. auto.
Qed.

Lemma hseg_in h p ps e a : hseg h p ps e → a ∈ ps → ∃ m, hdr_at h a = Some m.
Proof.
  revert p. induction ps as [|b ps IH]; intros p H Hin; [by apply not_elem_of_nil in Hin|].
  destruct H as (-> & m & Hm & H). apply elem_of_cons in Hin as [->|Hin]; eauto.
Qed.

(** The last of a segment linked to another end. *)
Lemma hseg_relink h p l a m e e' : hseg h p (l ++ [a]) e → NoDup (l ++ [a]) → hdr_at h a = Some m →
  hseg (hset a (set_next e' m) h) p (l ++ [a]) e'.
Proof.
  intros H Hnd Hm. pose proof (hdr_at_pos _ _ _ Hm). apply hseg_app in H as (b & H1 & H2). apply NoDup_app in Hnd as (_ & Hd & _).
  apply hseg_app. exists b. split.
  - apply hseg_frame; [done| |done]. intros Ha. apply (Hd a Ha). left.
  - destruct H2 as (-> & _). split; [done|]. exists (set_next e' m). split; [by apply hdr_at_hset_eq|done].
Qed.

Lemma hseg_head h p a ps e : hseg h p (a :: ps) e → p = a.
Proof. by intros (-> & _). Qed.

Lemma hseg_nil_inv h ps : hseg h 0 ps 0 → ps = [].
Proof. destruct ps as [|a ps]; [done|]. intros (<- & m & Hm & _). apply hdr_at_pos in Hm. lia. Qed.

Lemma hseg_null h p ps : hseg h p ps 0 → p = 0 ↔ ps = [].
Proof. intros H. split; [intros ->; by eapply hseg_nil_inv|intros ->; done]. Qed.

(** ** What headers say *)

Section Inv.
Context (mi : msginfo).

Definition units (m : msg) : list Z := if msg_ts m =? 0 then [] else seqZ (msg_spot m + 1) (btoq mi (msg_ts m)).
Definition units_at (h : list msg) (p : Z) : list Z := default [] (units <$> hdr_at h p).
Definition ts_at (h : list msg) (p : Z) : Z := default 0 (msg_ts <$> hdr_at h p).

(** The type and the text of a message. *)
Definition message (t : list Z) (m : msg) : Z * list Z := (msg_type m, slice (msgssz mi * msg_spot m) (msg_ts m) t).
Definition message_at (h : list msg) (t : list Z) (p : Z) : Z * list Z := default (0, []) (message t <$> hdr_at h p).

Definition sumz (f : Z → Z) (l : list Z) : Z := foldr (λ p n, f p + n) 0 l.

(** Headers that differ in their links only. *)
Definition same_body (m m' : msg) : Prop := msg_type m = msg_type m' ∧ msg_ts m = msg_ts m' ∧ msg_spot m = msg_spot m'.
Definition same_bodies (h h' : list msg) (ps : list Z) : Prop :=
  ∀ p, p ∈ ps → match hdr_at h p, hdr_at h' p with Some m, Some m' => same_body m m' | None, None => True | _, _ => False end.

Lemma same_bodies_units h h' ps : same_bodies h h' ps → (∀ p, p ∈ ps → units_at h' p = units_at h p).
Proof using Type.
  intros H p Hp. specialize (H p Hp). unfold units_at, units. destruct (hdr_at h p), (hdr_at h' p); try done.
  destruct H as (_ & Et & Es). simpl. by rewrite Et, Es.
Qed.

Lemma same_bodies_ts h h' ps : same_bodies h h' ps → (∀ p, p ∈ ps → ts_at h' p = ts_at h p).
Proof using Type.
  intros H p Hp. specialize (H p Hp). unfold ts_at. destruct (hdr_at h p), (hdr_at h' p); try done. by destruct H as (_ & Et & _).
Qed.

Lemma same_bodies_message h h' t ps : same_bodies h h' ps → (∀ p, p ∈ ps → message_at h' t p = message_at h t p).
Proof using Type.
  intros H p Hp. specialize (H p Hp). unfold message_at, message. destruct (hdr_at h p), (hdr_at h' p); try done.
  destruct H as (Ey & Et & Es). simpl. by rewrite Ey, Et, Es.
Qed.

Lemma same_bodies_frame h p m ps : 0 < p ≤ zlen h → p ∉ ps → same_bodies h (hset p m h) ps.
Proof using Type.
  intros Hp Hn a Ha. rewrite hdr_at_hset_ne by (done || by intros ->). destruct (hdr_at h a); [by split_and!|done].
Qed.

Lemma same_bodies_next h p m e ps : hdr_at h p = Some m → same_bodies h (hset p (set_next e m) h) ps.
Proof using Type.
  intros Hm a _. pose proof (hdr_at_pos _ _ _ Hm). rewrite hdr_at_hset by done. destruct (decide (a = p)) as [->|].
  - rewrite Hm. by split_and!.
  - destruct (hdr_at h a); [by split_and!|done].
Qed.

Lemma same_bodies_trans h1 h2 h3 ps : same_bodies h1 h2 ps → same_bodies h2 h3 ps → same_bodies h1 h3 ps.
Proof using Type.
  intros H1 H2 p Hp. specialize (H1 p Hp). specialize (H2 p Hp). destruct (hdr_at h1 p), (hdr_at h2 p), (hdr_at h3 p); try done.
  destruct H1 as (? & ? & ?), H2 as (? & ? & ?). split_and!; congruence.
Qed.

Lemma same_bodies_refl h ps : same_bodies h h ps.
Proof using Type. intros p _. destruct (hdr_at h p); [by split_and!|done]. Qed.

Lemma same_bodies_sub h h' ps ps' : (∀ p, p ∈ ps' → p ∈ ps) → same_bodies h h' ps → same_bodies h h' ps'.
Proof using Type. intros Hs H p Hp. apply H; auto. Qed.

(** ** Tunables *)

(** A header has the size of a text in 16 bits and its place in 15; the pool is addressed with [int]. *)
Record info_ok : Prop := {
  io_ssz : 0 < msgssz mi;
  io_max : 0 ≤ msgmax mi < 2 ^ 16;
  io_mni : 0 < msgmni mi < 2 ^ 31;
  io_seg : 0 ≤ msgseg mi < 2 ^ 15;
  io_pool : msgseg mi * msgssz mi < 2 ^ 31;
  io_mnb : 0 ≤ msgmnb mi < 2 ^ 31;
  io_tql : 0 < msgtql mi < 2 ^ 31
}.

Lemma btoq_pos n : 0 < msgssz mi → 0 < n → 0 < btoq mi n ∧ n ≤ msgssz mi * btoq mi n.
Proof using Type.
  intros Hs Hn. unfold btoq. pose proof (Z.div_mod (n + msgssz mi - 1) (msgssz mi)). pose proof (Z.mod_pos_bound (n + msgssz mi - 1) (msgssz mi)). nia.
Qed.

(** ** The text *)

Definition header_ok (m : msg) : Prop := 1 ≤ msg_type m < 2 ^ 31 ∧ 0 ≤ msg_ts m ≤ msgmax mi ∧ (msg_ts m ≠ 0 → 0 ≤ msg_spot m).

(** The units of the headers [P], and others that calls have. *)
Definition owned (h : list msg) (P us : list Z) : list Z := (P ≫= units_at h) ++ us.

Record text_ok (m : rmap) (t : list Z) (h : list msg) (P us : list Z) (segs : list mapent) : Prop := {
  tx_rep : map_rep m segs;
  tx_slots : 2 ≤ h_size m;
  tx_pool : msgseg mi * msgssz mi ≤ zlen t;
  tx_in : ∀ u, u ∈ owned h P us ∨ covers segs u → 1 ≤ u ≤ msgseg mi;
  tx_nodup : NoDup (owned h P us);
  tx_free : ∀ u, u ∈ owned h P us → ¬ covers segs u;
  tx_hdrs : ∀ p, p ∈ P → ∃ m, hdr_at h p = Some m ∧ header_ok m
}.

Lemma bind_ext (f g : Z → list Z) (l : list Z) : (∀ p, p ∈ l → f p = g p) → l ≫= f = l ≫= g.
Proof using Type.
  induction l as [|a l IH]; intros H; [done|]. rewrite !bind_cons, (H a) by left. f_equal. apply IH. intros p Hp. apply H. by right.
Qed.

Lemma header_ok_same m m' : same_body m m' → header_ok m → header_ok m'.
Proof using Type. unfold header_ok. intros (-> & -> & ->). done. Qed.

Lemma tx_change m t t' h h' P P' us us' segs : owned h P us ≡ₚ owned h' P' us' → zlen t' = zlen t →
  (∀ p, p ∈ P' → ∃ m, hdr_at h' p = Some m ∧ header_ok m) →
  text_ok m t h P us segs → text_ok m t' h' P' us' segs.
Proof using Type.
  intros Ho Ht Hh [H1 H2 H3 H4 H5 H6 H7]. split; [done|done|lia|..|done].
  - intros u. rewrite <-Ho. apply H4.
  - by rewrite <-Ho.
  - intros u. rewrite <-Ho. apply H6.
Qed.

Lemma text_ok_perm m t h h' P P' us us' segs : same_bodies h h' P → P ≡ₚ P' → us ≡ₚ us' →
  text_ok m t h P us segs → text_ok m t h' P' us' segs.
Proof using Type.
  intros Hb HP Hu Ht. eapply tx_change; [..|exact Ht]; [|done|].
  - unfold owned. rewrite <-HP, <-Hu. apply reflexive_eq. f_equal. apply bind_ext. intros p Hp. symmetry. by eapply same_bodies_units.
  - intros p. rewrite <-HP. intros Hp. destruct (tx_hdrs _ _ _ _ _ _ Ht p Hp) as (x & Hx & Hok). specialize (Hb p Hp). rewrite Hx in Hb.
    destruct (hdr_at h' p) as [x'|]; [|done]. exists x'. split; [done|]. by eapply header_ok_same.
Qed.

(** A header that takes over units, and one that gives them up. *)
Lemma text_ok_take m t h P us segs p x : 0 < p ≤ zlen h → p ∉ P → header_ok x →
  text_ok m t h P (units x ++ us) segs → text_ok m t (hset p x h) (p :: P) us segs.
Proof using Type.
  intros Hp Hn Hx Ht. eapply tx_change; [..|exact Ht]; [|done|].
  - unfold owned. rewrite bind_cons. unfold units_at at 2. rewrite hdr_at_hset_eq by done. simpl.
    rewrite (bind_ext (units_at (hset p x h)) (units_at h) P).
    + by rewrite !app_assoc, (Permutation_app_comm (units x)).
    + intros a Ha. unfold units_at. rewrite hdr_at_hset_ne by (done || by intros ->). done.
  - intros a [->|Ha]%elem_of_cons; [exists x; split; [by apply hdr_at_hset_eq|done]|].
    rewrite hdr_at_hset_ne by (done || by intros ->). by apply (tx_hdrs _ _ _ _ _ _ Ht).
Qed.

Lemma text_ok_give m t h P us segs p x : hdr_at h p = Some x →
  text_ok m t h (p :: P) us segs → text_ok m t h P (units x ++ us) segs.
Proof using Type.
  intros Hx Ht. eapply tx_change; [..|exact Ht]; [|done|].
  - unfold owned. rewrite bind_cons. unfold units_at at 1. rewrite Hx. simpl.
    by rewrite !app_assoc, (Permutation_app_comm (units x)).
  - intros a Ha. apply (tx_hdrs _ _ _ _ _ _ Ht). by right.
Qed.

(** Allocation. *)
Lemma text_alloc m t h P us segs n : text_ok m t h P us segs → 0 < n < 2 ^ 31 →
  (rmalloc_locked m n = Ret (m, 0) ∧ Forall (λ e, m_size e < n) segs) ∨
  ∃ m' segs' a, rmalloc_locked m n = Ret (m', a) ∧ 0 < a ∧ a + n ≤ msgseg mi + 1 ∧ m_want m' = m_want m ∧
    text_ok m' t h P (seqZ a n ++ us) segs' ∧ (∀ k, Forall (λ e, m_size e < k) segs → Forall (λ e, m_size e < k) segs').
Proof using Type.
  intros Ht Hn. destruct (rmalloc_locked_ok _ _ n (tx_rep _ _ _ _ _ _ Ht) Hn) as [?|(m' & segs' & l & e & r & He & Hrep & Hs & _ & Hsz & Hpos & Hw & Hh & Hk & Hx)];
    [by left|right]. exists m', segs', (m_addr e).
  assert (∀ u, u ∈ seqZ (m_addr e) n → covers segs u) as Hin.
  { intros u Hu%elem_of_seqZ. apply Hx. by right. }
  assert (owned h P (seqZ (m_addr e) n ++ us) ≡ₚ seqZ (m_addr e) n ++ owned h P us) as Ho.
  { unfold owned. by rewrite !app_assoc, (Permutation_app_comm (P ≫= _)). }
  split_and!; [done|done| |done| |done].
  { assert (1 ≤ m_addr e + n - 1 ≤ msgseg mi); [|lia]. apply (tx_in _ _ _ _ _ _ Ht). right. apply Hin, elem_of_seqZ. lia. }
  destruct Ht as [H1 H2 H3 H4 H5 H6 H7]. split; [done|lia|done|..|done].
  - intros u. rewrite Ho, elem_of_app. intros [[Hu|Hu]|Hu]; apply H4; [right; auto|by left|right; apply Hx; by left].
  - rewrite Ho. apply NoDup_app. split_and!; [apply NoDup_seqZ| |done]. intros u Hu Hu'. apply (H6 u Hu'). auto.
  - intros u. rewrite Ho, elem_of_app. intros [Hu|Hu] Hc.
    + apply elem_of_seqZ in Hu. by apply (Hx u).
    + apply (H6 u Hu), Hx. by left.
Qed.

(** Freeing. *)
Lemma text_free m t h P us segs a n : info_ok → text_ok m t h P (seqZ a n ++ us) segs → 0 < n →
  ∃ m' segs', rmfree m n a = Ret (Some (m', truthy (m_want m))) ∧ m_want m' = 0 ∧ text_ok m' t h P us segs'.
Proof using Type.
  intros [] Ht Hn.
  assert (owned h P (seqZ a n ++ us) ≡ₚ seqZ a n ++ owned h P us) as Ho.
  { unfold owned. by rewrite !app_assoc, (Permutation_app_comm (P ≫= _)). }
  pose proof (tx_in _ _ _ _ _ _ Ht) as Hin. pose proof (tx_free _ _ _ _ _ _ Ht) as Hfr. pose proof (tx_nodup _ _ _ _ _ _ Ht) as Hnd.
  setoid_rewrite Ho in Hin. setoid_rewrite Ho in Hfr. rewrite Ho in Hnd. apply NoDup_app in Hnd as (_ & Hdis & Hnd).
  assert (∀ u, in_range a n u → u ∈ seqZ a n ++ owned h P us) as Hr.
  { intros u Hu. apply elem_of_app. left. by apply elem_of_seqZ. }
  pose proof (Hin a (or_introl (Hr a ltac:(unfold in_range; lia)))).
  pose proof (Hin (a + n - 1) (or_introl (Hr (a + n - 1) ltac:(unfold in_range; lia)))).
  destruct (rmfree_ok m segs a n) as (m' & segs' & He & Hrep & Hw & Hh & Hc);
    [apply Ht|apply Ht|lia|lia|lia|intros u Hu; by apply Hfr, Hr|].
  exists m', segs'. split_and!; [done..|]. split; [done|rewrite Hh; apply Ht|apply Ht|..|apply Ht].
  - intros u [Hu|[Hu|Hu]%Hc]; apply Hin; [left; apply elem_of_app; by right|by right|left; by apply Hr].
  - done.
  - intros u Hu [Hx|Hx]%Hc; [by apply (Hfr u); [apply elem_of_app; right|]|].
    apply (Hdis u); [by apply elem_of_seqZ|done].
Qed.

(** ** Queues *)

(** [removing]: the queue is being removed, and [msg_cbytes] is not kept. *)
Record queue_ok (h : list msg) (q : Z) (x : msqid_ds) (ps : list Z) (removing : Prop) : Prop := {
  qo_seg : hseg h (msg_first x) ps 0;
  qo_last : msg_last x = default 0 (last ps);
  qo_num : msg_qnum x = zlen ps;
  qo_cb : ¬ removing → msg_cbytes x = sumz (ts_at h) ps;
  qo_free : has (mode (msg_perm x)) IPC_ALLOC = false → ps = [] ∧ mode (msg_perm x) = 0;
  qo_seq : 0 ≤ seq_ (msg_perm x) ∧ seq_ (msg_perm x) * msgmni mi + q < 2 ^ 31;
  qo_bytes : 0 ≤ msg_qbytes x < 2 ^ 32
}.

(** Every header is free, on a queue ([qs]), unlinked with its text still to be freed ([tx]), or held without text ([hs]);
    [us] are units of calls, [rm] the queues that are being removed. *)
Record msg_inv (s : msgsys) (hs tx us : list Z) (qs : list (list Z)) (rm : list Z) : Prop := {
  mi_nq : length qs = length (msgque s);
  mi_mni : zlen (msgque s) = msgmni mi;
  mi_tql : zlen (msgh s) = msgtql mi;
  mi_hdr : ∃ fr, hseg (msgh s) (msgfp s) fr 0 ∧ fr ++ concat qs ++ tx ++ hs ≡ₚ seqZ 1 (zlen (msgh s));
  mi_text : ∃ segs, text_ok (msgmap s) (pool s) (msgh s) (concat qs ++ tx) us segs;
  mi_q : ∀ q x ps, 0 ≤ q → msgque s !! Z.to_nat q = Some x → qs !! Z.to_nat q = Some ps → queue_ok (msgh s) q x ps (q ∈ rm)
}.

(** What the queues hold, as the program sees it: types and texts, in order. *)
Fixpoint msgs_from (fuel : nat) (h : list msg) (t : list Z) (p : Z) : list (Z * list Z) :=
  match fuel with
  | O => []
  | S fuel => match hdr_at h p with Some m => message t m :: msgs_from fuel h t (msg_next m) | None => [] end
  end.
Definition contents (s : msgsys) : list (list (Z * list Z)) :=
  (λ x, msgs_from (length (msgh s)) (msgh s) (pool s) (msg_first x)) <$> msgque s.

Lemma msgs_from_seg fuel h t p ps : hseg h p ps 0 → (length ps ≤ fuel)%nat → msgs_from fuel h t p = message_at h t <$> ps.
Proof using Type.
  revert p fuel. induction ps as [|a ps IH]; intros p fuel H Hl.
  - simpl in H. subst. by destruct fuel.
  - destruct H as (-> & m & Hm & H). destruct fuel as [|fuel]; simpl in *; [lia|]. rewrite Hm. rewrite IH by (done || lia).
    f_equal. unfold message_at. by rewrite Hm.
Qed.

Lemma concat_split (qs : list (list Z)) q ps : qs !! q = Some ps →
  ∃ rest, concat qs ≡ₚ ps ++ rest ∧ ∀ ps', concat (<[q := ps']> qs) ≡ₚ ps' ++ rest.
Proof using Type.
  intros H. exists (concat (take q qs) ++ concat (drop (S q) qs)).
  rewrite <-(take_drop_middle qs q ps H) at 1. rewrite concat_app. simpl. split.
  - by rewrite Permutation_app_swap_app.
  - intros ps'. rewrite insert_take_drop by (by eapply lookup_lt_Some). rewrite concat_app. simpl. by rewrite Permutation_app_swap_app.
Qed.

Lemma inv_hdr_nodup s hs tx us qs rm : msg_inv s hs tx us qs rm → NoDup (concat qs ++ tx ++ hs) ∧ ∀ p, p ∈ concat qs ++ tx ++ hs → 0 < p ≤ zlen (msgh s).
Proof using Type.
  intros Hi. destruct (mi_hdr _ _ _ _ _ _ Hi) as (fr & _ & Hp). split.
  - assert (NoDup (fr ++ concat qs ++ tx ++ hs)) as Hnd by (rewrite Hp; apply NoDup_seqZ). by apply NoDup_app in Hnd as (_ & _ & ?).
  - intros p Hin. assert (p ∈ seqZ 1 (zlen (msgh s))) as Hs by (rewrite <-Hp; apply elem_of_app; by right). apply elem_of_seqZ in Hs. lia.
Qed.

Lemma inv_queue_len s hs tx us qs rm q ps : msg_inv s hs tx us qs rm → qs !! q = Some ps → (length ps ≤ length (msgh s))%nat.
Proof using Type.
  intros Hi Hq. destruct (mi_hdr _ _ _ _ _ _ Hi) as (fr & _ & Hp). destruct (concat_split _ _ _ Hq) as (rest & Hc & _).
  apply Permutation_length in Hp. apply Permutation_length in Hc. rewrite !length_app, length_seqZ in Hp. rewrite length_app in Hc. lia.
Qed.

Lemma contents_inv s hs tx us qs rm : msg_inv s hs tx us qs rm → contents s = (λ ps : list Z, message_at (msgh s) (pool s) <$> ps) <$> qs.
Proof using Type.
  intros Hi. apply list_eq. intros q. unfold contents. rewrite !list_lookup_fmap. pose proof (mi_nq _ _ _ _ _ _ Hi) as Hl.
  destruct (msgque s !! q) as [x|] eqn:Hx.
  - destruct (lookup_lt_is_Some_2 qs q) as [ps Hps]; [apply lookup_lt_Some in Hx; lia|]. rewrite Hps. simpl. f_equal.
    apply msgs_from_seg; [|by eapply inv_queue_len]. rewrite <-(Nat2Z.id q) in Hx, Hps.
    by apply (qo_seg _ _ _ _ _ (mi_q _ _ _ _ _ _ Hi (Z.of_nat q) x ps ltac:(lia) Hx Hps)).
  - apply lookup_ge_None in Hx. by rewrite (proj2 (lookup_ge_None qs q)) by lia.
Qed.

(** The bytes on a queue are in the pool. *)
Lemma sumz_units h l : info_ok → (∀ p, p ∈ l → ∃ m, hdr_at h p = Some m ∧ header_ok m) →
  0 ≤ sumz (ts_at h) l ≤ msgssz mi * zlen (l ≫= units_at h).
Proof using Type.
  intros [] Hh. induction l as [|p l IH]; [simpl; lia|]. rewrite bind_cons, length_app. simpl.
  specialize (IH ltac:(intros; apply Hh; by right)). destruct (Hh p ltac:(left)) as (m & Hm & _ & Ht & _).
  unfold ts_at at 1 3, units_at at 1. rewrite Hm. simpl. unfold units. destruct (Z.eqb_spec (msg_ts m) 0) as [E|]; [simpl; lia|].
  rewrite length_seqZ. destruct (btoq_pos (msg_ts m)); [done|lia|]. nia.
Qed.

Lemma sumz_pool m t h P us segs l rest : info_ok → text_ok m t h P us segs → P ≡ₚ l ++ rest →
  0 ≤ sumz (ts_at h) l ≤ msgseg mi * msgssz mi.
Proof using Type.
  intros Hio Ht HP. destruct (sumz_units h l Hio) as [H0 H1].
  { intros p Hp. apply (tx_hdrs _ _ _ _ _ _ Ht). rewrite HP. apply elem_of_app. by left. }
  assert (l ≫= units_at h ⊆+ seqZ 1 (msgseg mi)) as Hs.
  { apply NoDup_submseteq.
    - pose proof (tx_nodup _ _ _ _ _ _ Ht) as Hnd. unfold owned in Hnd. rewrite HP, bind_app in Hnd.
      by apply NoDup_app in Hnd as [[? _]%NoDup_app _].
    - intros u Hu. apply elem_of_seqZ. assert (1 ≤ u ≤ msgseg mi); [|lia]. apply (tx_in _ _ _ _ _ _ Ht). left.
      unfold owned. rewrite HP, bind_app, !elem_of_app. tauto. }
  apply submseteq_length in Hs. rewrite length_seqZ in Hs. destruct Hio. nia.
Qed.
End Inv.
