(* ===== verification/MsgOps.v ===== *)
(** * What the pieces of the calls on message queues do ([uts/common/os/msg.c])

    Each piece between two locks keeps the invariant of [MsgInv] and does to the messages what it should. *)

From S2P Require Import Prelude Bytes Rmap Sem Msg MsgInv.

Section Ops.
Context (mi : msginfo) (Hio : info_ok mi).

Definition same_msgs (s s' : msgsys) (ps : list Z) : Prop :=
  ∀ p, p ∈ ps → message_at mi (msgh s') (pool s') p = message_at mi (msgh s) (pool s) p.

(** ** Steps that change one part *)

Lemma inv_ext s s' hs tx us qs rm : msgque s' = msgque s → msgh s' = msgh s → msgfp s' = msgfp s → msgmap s' = msgmap s → pool s' = pool s →
  msg_inv mi s hs tx us qs rm → msg_inv mi s' hs tx us qs rm.
Proof using Type. intros E1 E2 E3 E4 E5 []. split; rewrite ?E1, ?E2, ?E3, ?E4, ?E5; done. Qed.

Lemma inv_set_que s hs tx us qs rm rm' q x x' ps : msg_inv mi s hs tx us qs rm → 0 ≤ q → msgque s !! Z.to_nat q = Some x →
  qs !! Z.to_nat q = Some ps → queue_ok mi (msgh s) q x' ps (q ∈ rm') → (∀ q', q' ≠ q → q' ∈ rm ↔ q' ∈ rm') →
  msg_inv mi (set_que (<[Z.to_nat q := x']> (msgque s)) s) hs tx us qs rm'.
Proof using Type.
  intros [H1 H2 H2' H3 H4 H5] Hq Hx Hps Hok Hrm. split; simpl; rewrite ?length_insert; [done..|].
  intros q' y ps' Hq' Hy Hps'. destruct (decide (q' = q)) as [->|Hne].
  - rewrite list_lookup_insert_eq in Hy by (by eapply lookup_lt_Some). simplify_eq. done.
  - rewrite list_lookup_insert_ne in Hy by lia. destruct (H5 q' y ps' Hq' Hy Hps'). split; [done..| |done|done|done].
    intros Hn. apply qo_cb. by rewrite Hrm.
Qed.

Lemma queue_ok_frame h q x ps r p m : 0 < p ≤ zlen h → p ∉ ps → queue_ok mi h q x ps r → queue_ok mi (hset p m h) q x ps r.
Proof using Type.
  intros Hp Hn []. split; [by apply hseg_frame|done..| |done|done|done].
  intros Hr. rewrite qo_cb by done. clear - Hp Hn. induction ps as [|a ps IH]; [done|]. apply not_elem_of_cons in Hn as [Hne Hn]. simpl.
  rewrite <-IH by done. f_equal. unfold ts_at. by rewrite hdr_at_hset_ne by done.
Qed.

Lemma inv_lookup s hs tx us qs rm q x : msg_inv mi s hs tx us qs rm → msgque s !! q = Some x → ∃ ps, qs !! q = Some ps.
Proof using Type. intros Hi Hx. apply lookup_lt_is_Some_2. rewrite (mi_nq _ _ _ _ _ _ _ Hi). by eapply lookup_lt_Some. Qed.

Lemma inv_slot s hs tx us qs rm q : msg_inv mi s hs tx us qs rm → 0 ≤ q < msgmni mi →
  ∃ x ps, msgque s !! Z.to_nat q = Some x ∧ qs !! Z.to_nat q = Some ps ∧ queue_ok mi (msgh s) q x ps (q ∈ rm).
Proof using Type.
  intros Hi Hq. destruct (lookup_lt_is_Some_2 (msgque s) (Z.to_nat q)) as [x Hx]; [pose proof (mi_mni _ _ _ _ _ _ _ Hi); lia|].
  destruct (inv_lookup _ _ _ _ _ _ _ _ Hi Hx) as [ps Hps]. exists x, ps. split_and!; [done..|]. by apply (mi_q _ _ _ _ _ _ _ Hi); [lia|..].
Qed.

Lemma slot_range id : 0 ≤ msg_slot mi id < msgmni mi.
Proof using Hio. apply Z.mod_pos_bound. destruct Hio. lia. Qed.

Lemma msg_conv s hs tx us qs rm id : msg_inv mi s hs tx us qs rm →
  ∃ x ps, msgque s !! Z.to_nat (msg_slot mi id) = Some x ∧ qs !! Z.to_nat (msg_slot mi id) = Some ps ∧
    queue_ok mi (msgh s) (msg_slot mi id) x ps (msg_slot mi id ∈ rm) ∧
    msgconv mi id s = Ret (if (id <? 0) || msg_gone mi id x then None else Some (msg_slot mi id)).
Proof using Hio.
  intros Hi. pose proof (slot_range id) as Hs. destruct (inv_slot _ _ _ _ _ _ _ Hi Hs) as (x & ps & Hx & Hps & Hok). exists x, ps. split_and!; [done..|].
  unfold msgconv. destruct (id <? 0); [done|]. rewrite (get_q_ok _ _ _ (proj1 Hs) Hx). done.
Qed.

(** ** Free headers *)

Lemma put_hdr_ok s hs tx us qs rm mp : msg_inv mi s (mp :: hs) tx us qs rm →
  ∃ h', put_hdr mp s = Ret (set_msgfp mp (if msgfp s =? NULL then bcast Msgfp_cv (set_msgh h' s) else set_msgh h' s)) ∧
    (∀ b, msg_inv mi (set_bcasts b (set_msgfp mp (set_msgh h' s))) hs tx us qs rm) ∧ 0 < mp ∧ same_bodies (msgh s) h' (concat qs).
Proof using Type.
  intros Hi. destruct (inv_hdr_nodup _ _ _ _ _ _ _ Hi) as [Hnd Hin].
  assert (mp ∈ concat qs ++ tx ++ mp :: hs) as Hmp by (rewrite !elem_of_app, elem_of_cons; tauto). pose proof (Hin mp Hmp) as Hr.
  destruct (hdr_at_some (msgh s) mp) as [m Hm]; [lia|]. unfold put_hdr. rewrite (mod_h_ok _ _ _ _ Hm). simpl.
  eexists. split; [reflexivity|]. split_and!; [intros b|lia|by apply same_bodies_next].
  destruct Hi as [H1 H2 H2' (fr & Hf & Hp) (segs & Ht) H5]. split; simpl; [done|done|by rewrite hset_len|..].
  - exists (mp :: fr). split.
    + split; [done|]. exists (set_next (msgfp s) m). split; [by apply hdr_at_hset_eq|]. simpl. apply hseg_frame; [lia| |done].
      intros Hfr. assert (NoDup (fr ++ concat qs ++ tx ++ mp :: hs)) as H by (rewrite Hp; apply NoDup_seqZ).
      apply NoDup_app in H as (_ & H & _). by apply (H mp Hfr).
    + rewrite hset_len, <-Hp. simpl. rewrite !app_assoc. by rewrite Permutation_middle.
  - exists segs. eapply text_ok_perm; [by apply same_bodies_next|done..].
  - intros q x ps Hq Hx Hps. apply queue_ok_frame; [lia| |by apply H5]. intros Hin'.
    apply NoDup_app in Hnd as (_ & Hd & _). apply (Hd mp); [|apply elem_of_app; right; left].
    destruct (concat_split _ _ _ Hps) as (rest & Hc & _). rewrite Hc. apply elem_of_app. by left.
Qed.

(** [getres]. *)
Definition no_room (x : msqid_ds) (cnt : Z) : bool := w32 (msg_qbytes x) <? w32 (cnt + msg_cbytes x).

Lemma getres_hdr s hs tx us qs rm : msg_inv mi s hs tx us qs rm → msgfp s ≠ NULL →
  ∃ m, get_h (msgfp s) s = Ret m ∧ msg_inv mi (set_msgfp (msg_next m) s) (msgfp s :: hs) tx us qs rm.
Proof using Type.
  intros [H1 H2 H2' (fr & Hf & Hp) H4 H5] Hne. destruct fr as [|a fr]; [done|]. destruct Hf as (E & m & Hm & Hf). rewrite E. exists m.
  split; [by apply get_h_ok|]. split; simpl; [done|done|done| |done|done]. exists fr. split; [done|]. rewrite <-Hp. simpl. rewrite !app_assoc.
  by rewrite Permutation_middle.
Qed.

(** ** Text *)

Definition freed_state (m : rmap) (s : msgsys) : msgsys := if truthy (m_want (msgmap s)) then bcast Map_cv (set_msgmap m s) else set_msgmap m s.

Lemma inv_text s hs tx us qs rm m segs : msg_inv mi s hs tx us qs rm → ∀ hs' tx' us',
  concat qs ++ tx' ++ hs' ≡ₚ concat qs ++ tx ++ hs →
  text_ok mi m (pool s) (msgh s) (concat qs ++ tx') us' segs → msg_inv mi (set_msgmap m s) hs' tx' us' qs rm.
Proof using Type.
  intros [H1 H2 H2' (fr & Hf & Hp) H4 H5] hs' tx' us' Hperm Ht. split; simpl; [done|done|done| |by exists segs|done].
  exists fr. split; [done|]. by rewrite Hperm.
Qed.

Lemma inv_freed s hs tx us qs rm m : msg_inv mi (set_msgmap m s) hs tx us qs rm → msg_inv mi (freed_state m s) hs tx us qs rm.
Proof using Type. unfold freed_state. destruct (truthy _); [|done]. by apply inv_ext. Qed.

Lemma free_text_ok s hs tx us qs rm a n : msg_inv mi s hs tx (seqZ a (btoq mi n) ++ us) qs rm → 0 < n →
  ∃ m, free_text mi n a s = Ret (freed_state m s) ∧ m_want m = 0 ∧ msg_inv mi (freed_state m s) hs tx us qs rm.
Proof using Hio.
  intros Hi Hn. destruct (mi_text _ _ _ _ _ _ _ Hi) as (segs & Ht).
  destruct (text_free _ _ _ _ _ _ _ _ _ Hio Ht) as (m & segs' & He & Hw & Ht'); [by apply btoq_pos; [apply Hio|]|].
  exists m. unfold free_text, freed_state at 1. rewrite He. simpl. split; [by destruct (truthy _)|]. split; [done|].
  apply inv_freed. by eapply inv_text.
Qed.

Lemma tx_range m t h P us segs p x : text_ok mi m t h P us segs → p ∈ P → hdr_at h p = Some x → msg_ts x ≠ 0 →
  0 ≤ msg_spot x ∧ msg_spot x + btoq mi (msg_ts x) ≤ msgseg mi ∧ 0 < msg_ts x ∧ header_ok mi x.
Proof using Hio.
  intros Ht Hp Hx Hne. destruct (tx_hdrs _ _ _ _ _ _ _ Ht p Hp) as (x' & Hx' & Hok). rewrite Hx in Hx'. injection Hx' as <-.
  pose proof Hok as (_ & Hts & Hsp). destruct (btoq_pos mi (msg_ts x)) as [Hb _]; [apply Hio|lia|].
  split_and!; [by apply Hsp| |lia|done].
  assert (1 ≤ msg_spot x + btoq mi (msg_ts x) ≤ msgseg mi); [|lia]. apply (tx_in _ _ _ _ _ _ _ Ht). left. apply elem_of_app. left.
  apply list_elem_of_bind. exists p. split; [|done]. unfold units_at, units. rewrite Hx. simpl. rewrite (proj2 (Z.eqb_neq _ _)) by done.
  apply elem_of_seqZ. specialize (Hsp Hne). lia.
Qed.

Lemma msgfree_text_ok s hs tx us qs rm mp : msg_inv mi s hs (mp :: tx) us qs rm →
  ∃ s', msgfree_text mi mp s = Ret s' ∧ (s' = s ∨ ∃ m, s' = freed_state m s ∧ m_want m = 0) ∧ msg_inv mi s' (mp :: hs) tx us qs rm.
Proof using Hio.
  intros Hi. destruct (mi_text _ _ _ _ _ _ _ Hi) as (segs & Ht).
  assert (mp ∈ concat qs ++ mp :: tx) as Hin by (apply elem_of_app; right; left).
  destruct (tx_hdrs _ _ _ _ _ _ _ Ht mp Hin) as (x & Hx & Hok). unfold msgfree_text. rewrite (get_h_ok _ _ _ Hx). simpl.
  apply (text_ok_perm _ _ _ _ (msgh s) _ (mp :: concat qs ++ tx) us us) in Ht as Ht1; [|apply same_bodies_refl|by rewrite Permutation_middle|done].
  pose proof (text_ok_give _ _ _ _ _ _ _ _ _ Hx Ht1) as Ht2.
  assert (msg_inv mi s (mp :: hs) tx (units mi x ++ us) qs rm) as Hi'.
  { pose proof (inv_text _ _ _ _ _ _ (msgmap s) segs Hi (mp :: hs) tx (units mi x ++ us)) as H.
    eapply inv_ext; [..|apply H]; try done. by rewrite <-Permutation_middle. }
  unfold units in Hi'. destruct (truthy (msg_ts x)) eqn:E.
  - apply truthy_true in E. destruct (tx_range _ _ _ _ _ _ _ _ Ht Hin Hx E) as (? & ? & ? & _).
    rewrite (proj2 (Z.eqb_neq _ _) E) in Hi'. rewrite w32_id by (unfold in_u32; destruct Hio; destruct (btoq_pos mi (msg_ts x)); lia).
    destruct (free_text_ok _ _ _ _ _ _ _ _ Hi') as (m & He & Hw & Hi2); [done|]. eexists. split; [done|]. split; [right; by exists m|done].
  - apply truthy_false in E. rewrite (proj2 (Z.eqb_eq _ _) E) in Hi'. exists s. split; [done|]. split; [by left|done].
Qed.

(** [msgsnd_map]: a place, or not enough room. *)
Lemma snd_map_ok s hs tx us qs rm mp r : msg_inv mi s (mp :: hs) tx us qs rm → 0 ≤ n_msgsz r ≤ msgmax mi →
  (∃ m spot, msgsnd_map mi mp r s = Ret (SSpot spot, set_msgmap m s) ∧ m_want m = m_want (msgmap s) ∧
     (∀ n, 0 < n < 2 ^ 31 → rmalloc_locked (msgmap s) n = Ret (msgmap s, 0) → rmalloc_locked m n = Ret (m, 0)) ∧
     msg_inv mi (set_msgmap m s) (mp :: hs) tx ((if n_msgsz r =? 0 then [] else seqZ spot (btoq mi (n_msgsz r))) ++ us) qs rm) ∨
  (0 < n_msgsz r ∧ rmalloc_locked (msgmap s) (btoq mi (n_msgsz r)) = Ret (msgmap s, 0) ∧
   msgsnd_map mi mp r s = if has (n_flg r) IPC_NOWAIT then Ret (SOut1 EAGAIN, s)
     else let* s := put_hdr mp (set_msgmap (set_m_want (w32 (m_want (msgmap s) + 1)) (msgmap s)) s) in Ret (SMapWait, s)).
Proof using Hio.
  intros Hi Hsz. unfold msgsnd_map. destruct (truthy (n_msgsz r)) eqn:E.
  - apply truthy_true in E. destruct (mi_text _ _ _ _ _ _ _ Hi) as (segs & Ht).
    destruct (btoq_pos mi (n_msgsz r)) as [Hb1 Hb2]; [apply Hio|lia|].
    assert (btoq mi (n_msgsz r) < 2 ^ 31) as Hb3.
    { unfold btoq. destruct Hio. apply Z.div_lt_upper_bound; nia. }
    destruct (text_alloc _ _ _ _ _ _ _ _ Ht (conj Hb1 Hb3)) as [[He Hall]|(m & segs' & a & He & Ha & Hle & Hw & Ht' & Hk)].
    + right. split_and!; [lia|done|]. rewrite He. cbn [rbind]. rewrite Z.eqb_refl.
      destruct s; simpl. by destruct (has _ _).
    + left. exists m, a. rewrite He. cbn [rbind]. rewrite (proj2 (Z.eqb_neq a 0)) by lia. rewrite (proj2 (Z.eqb_neq _ _) E).
      split_and!; [done|done| |by eapply inv_text]. intros n Hn Hf.
      destruct (rmalloc_locked_ok _ _ n (tx_rep _ _ _ _ _ _ _ Ht) Hn) as [[_ Hn1]|(m1 & ? & ? & e & ? & He1 & _ & _ & _ & _ & Hpos & _)]; [|rewrite Hf in He1; injection He1; lia].
      destruct (rmalloc_locked_ok _ _ n (tx_rep _ _ _ _ _ _ _ Ht') Hn) as [[? _]|(m1 & ? & l & e & ? & He1 & _ & Hs & _ & Hge & _)]; [done|].
      apply Hk in Hn1. rewrite Hs in Hn1. apply Forall_app in Hn1 as [_ Hn1]. apply Forall_cons in Hn1 as [Hn1 _]. lia.
  - apply truthy_false in E. rewrite E. left. exists (msgmap s), 0. split_and!; [by destruct s|done|done|]. by eapply inv_ext; [..|exact Hi].
Qed.

(** ** Choosing a message *)

(** The messages that [msgrcv] may take, and the one that it takes: the first of them, or the first of the lowest type. *)
Definition wanted (typ : Z) (m : Z * list Z) : Prop := typ = 0 ∨ (0 < typ ∧ m.1 = typ) ∨ (typ < 0 ∧ m.1 ≤ - typ).
Definition chosen (typ : Z) (l1 : list (Z * list Z)) (m : Z * list Z) (l2 : list (Z * list Z)) : Prop :=
  wanted typ m ∧
  if typ <? 0 then Forall (λ x, m.1 < x.1) l1 ∧ Forall (λ x, m.1 ≤ x.1) l2 else Forall (λ x, ¬ wanted typ x) l1.

#[local] Abbreviation msgs s ps := (message_at mi (msgh s) (pool s) <$> ps).

(** The best of the messages that have been looked at. *)
Definition best (s : msgsys) (typ : Z) (done : list Z) (spmp smp : Z) : Prop :=
  (smp = NULL ∧ Forall (λ m, ¬ wanted typ m) (msgs s done)) ∨
  (smp ≠ NULL ∧ ∃ l1 l2, done = l1 ++ smp :: l2 ∧ spmp = default 0 (last l1) ∧
     chosen typ (msgs s l1) (message_at mi (msgh s) (pool s) smp) (msgs s l2)).

Lemma best_skip s typ done spmp smp a : best s typ done spmp smp →
  ¬ wanted typ (message_at mi (msgh s) (pool s) a) ∨ (smp ≠ NULL ∧ (message_at mi (msgh s) (pool s) smp).1 ≤ (message_at mi (msgh s) (pool s) a).1) →
  typ ≠ 0 → best s typ (done ++ [a]) spmp smp.
Proof using Type.
  intros [[-> Hn]|(Hne & l1 & l2 & -> & -> & Hw & Hc)] Ha H0.
  - left. split; [done|]. rewrite fmap_app, Forall_app. split; [done|]. destruct Ha as [Ha|[Ha _]]; [|done]. by constructor.
  - right. split; [done|]. exists l1, (l2 ++ [a]). split; [by rewrite <-app_assoc|]. split; [done|]. split; [done|].
    destruct (Z.ltb_spec typ 0); [|done]. destruct Hc as [H1 H2]. split; [done|]. rewrite fmap_app, Forall_app. split; [done|].
    constructor; [|done]. unfold wanted in *. destruct Ha as [Ha|[_ Ha]]; lia.
Qed.

(** A better one, for the negative types. *)
Lemma best_take s typ done spmp smp a : best s typ done spmp smp → wanted typ (message_at mi (msgh s) (pool s) a) → a ≠ NULL →
  smp = NULL ∨ (message_at mi (msgh s) (pool s) a).1 < (message_at mi (msgh s) (pool s) smp).1 → typ < 0 →
  best s typ (done ++ [a]) (default 0 (last done)) a.
Proof using Type.
  intros Hb Hw Hne Hlt Ht. right. split; [done|]. exists done, []. split; [done|]. split; [done|]. split; [done|].
  rewrite (proj2 (Z.ltb_lt _ _)) by done. split; [|constructor]. destruct Hb as [[_ Hn]|(Hne' & l1 & l2 & -> & _ & Hws & Hc)].
  - eapply Forall_impl; [exact Hn|]. intros m Hm. unfold wanted in *. lia.
  - rewrite (proj2 (Z.ltb_lt _ _)) in Hc by done. destruct Hc as [Hc1 Hc2]. destruct Hlt as [|Hlt]; [done|].
    rewrite fmap_app, fmap_cons, Forall_app, Forall_cons. split_and!; [|done|].
    + eapply Forall_impl; [exact Hc1|]. intros m Hm. simpl in Hm. lia.
    + eapply Forall_impl; [exact Hc2|]. intros m Hm. simpl in Hm. lia.
Qed.

Lemma findmsg_loop_ok fuel s typ done rest mp spmp smp : hseg (msgh s) mp rest 0 → (length rest < fuel)%nat → typ ≠ 0 → - 2 ^ 31 < typ →
  (∀ p, p ∈ rest → ∃ m, hdr_at (msgh s) p = Some m) →
  best s typ done spmp smp → (0 < typ → smp = NULL) → (smp = NULL ∨ ∃ m, hdr_at (msgh s) smp = Some m) →
  ∃ pmp' smp', findmsg_loop fuel typ (default 0 (last done)) mp spmp smp s = Ret (pmp', smp') ∧ best s typ (done ++ rest) pmp' smp'.
Proof using Type.
  revert done rest mp spmp smp. induction fuel as [|fuel IH]; intros done rest mp spmp smp Hs Hf H0 Hlo Hh Hb Hp Hsm; [lia|].
  simpl. destruct rest as [|a rest].
  { simpl in Hs. subst mp. rewrite app_nil_r. by exists spmp, smp. }
  destruct Hs as (-> & m & Hm & Hs). pose proof (hdr_at_pos _ _ _ Hm). rewrite (proj2 (Z.eqb_neq a NULL)) by (unfold NULL; lia).
  rewrite (get_h_ok _ _ _ Hm). cbn [rbind].
  assert (message_at mi (msgh s) (pool s) a = message mi (pool s) m) as Em by (unfold message_at; by rewrite Hm).
  assert (∀ spmp smp, best s typ (done ++ [a]) spmp smp → (0 < typ → smp = NULL) → (smp = NULL ∨ ∃ m, hdr_at (msgh s) smp = Some m) →
    ∃ pmp' smp', findmsg_loop fuel typ a (msg_next m) spmp smp s = Ret (pmp', smp') ∧ best s typ (done ++ a :: rest) pmp' smp') as Hgo.
  { intros sp sm Hb' Hp' Hsm'. destruct (IH (done ++ [a]) rest (msg_next m) sp sm) as (p1 & p2 & He & Hbest);
      [done|simpl in Hf; lia|done|done|intros p Hin; apply Hh; by right|done|done|done|].
    rewrite last_snoc in He. simpl in He. rewrite <-app_assoc in Hbest. by exists p1, p2. }
  destruct (Z.ltb_spec 0 typ).
  - destruct (Z.eqb_spec typ (msg_type m)) as [E|Hne].
    + exists (default 0 (last done)), a. split; [done|]. right. split; [unfold NULL; lia|]. exists done, rest. split; [done|]. split; [done|].
      rewrite Em. split; [right; left; simpl; lia|]. rewrite (proj2 (Z.ltb_ge _ _)) by lia.
      destruct Hb as [[_ ?]|[Hne _]]; [done|]. by rewrite Hp in Hne.
    + apply Hgo; [|done|done]. eapply best_skip; [done| |done]. left. rewrite Em. unfold wanted. simpl. lia.
  - rewrite s32_id by (unfold in_s32; lia). destruct (Z.leb_spec (msg_type m) (- typ)).
    + assert (wanted typ (message_at mi (msgh s) (pool s) a)) as Hw by (rewrite Em; unfold wanted; simpl; lia).
      destruct (Z.eqb_spec smp NULL) as [->|Hne]; cbn [rbind].
      * apply Hgo; [|lia|right; by exists m]. eapply best_take; [done|done|unfold NULL; lia|by left|lia].
      * destruct Hsm as [|[sm Hsm]]; [done|]. rewrite (get_h_ok _ _ _ Hsm). cbn [rbind].
        assert (message_at mi (msgh s) (pool s) smp = message mi (pool s) sm) as Es by (unfold message_at; by rewrite Hsm).
        destruct (Z.leb_spec (msg_type sm) (msg_type m)).
        -- apply Hgo; [|lia|right; by exists sm]. eapply best_skip; [done| |done]. right. rewrite Es, Em. by split.
        -- apply Hgo; [|lia|right; by exists m]. eapply best_take; [done|done|unfold NULL; lia| |lia]. right. by rewrite Es, Em.
    + apply Hgo; [|done|done]. eapply best_skip; [done| |done]. left. rewrite Em. unfold wanted. simpl. lia.
Qed.

(** [findmsg] on a queue. *)
Lemma findmsg_ok s hs tx us qs rm q x ps typ : msg_inv mi s hs tx us qs rm → 0 ≤ q → msgque s !! Z.to_nat q = Some x →
  qs !! Z.to_nat q = Some ps → - 2 ^ 31 < typ →
  ∃ pmp smp, findmsg q typ s = Ret (pmp, smp) ∧ best s typ ps pmp smp.
Proof using Type.
  intros Hi Hq Hx Hps Hlo. pose proof (mi_q _ _ _ _ _ _ _ Hi q x ps Hq Hx Hps) as Hok. pose proof (qo_seg _ _ _ _ _ _ Hok) as Hs.
  unfold findmsg. rewrite (get_q_ok _ _ _ Hq Hx). cbn [rbind]. destruct (Z.eqb_spec typ 0) as [->|Hne].
  - exists NULL, (msg_first x). split; [done|]. destruct ps as [|a ps].
    + left. by rewrite (proj2 (hseg_null _ _ _ Hs)).
    + destruct Hs as (-> & m & Hm & Hs). apply hdr_at_pos in Hm. right. split; [unfold NULL; lia|].
      exists [], ps. split; [done|]. split; [done|]. split; [by left|]. constructor.
  - eapply (findmsg_loop_ok _ _ _ []); try done.
    + pose proof (inv_queue_len _ _ _ _ _ _ _ _ _ Hi Hps). lia.
    + intros p Hp. destruct (hseg_in _ _ _ _ _ Hs Hp) as [m Hm]. by exists m.
    + left. by split.
    + by left.
Qed.

(** ** Sending *)

Lemma slice_exact off (bs l : list Z) : slice off (zlen bs) l = slice 0 (zlen bs) bs → slice off (zlen bs) l = bs.
Proof using Type. intros ->. unfold slice. by rewrite drop_0, take_ge by lia. Qed.

(** The text goes into units that no message has. *)
Lemma pool_put_ok s hs tx us qs rm a text : msg_inv mi s hs tx (seqZ a (btoq mi (zlen text)) ++ us) qs rm → 0 < zlen text →
  ∃ t, put_bytes (msgssz mi * (a - 1)) text (pool s) = Ret t ∧ slice (msgssz mi * (a - 1)) (zlen text) t = text ∧
    (∀ p, p ∈ concat qs ++ tx → message_at mi (msgh s) t p = message_at mi (msgh s) (pool s) p) ∧
    msg_inv mi (set_pool t s) hs tx (seqZ a (btoq mi (zlen text)) ++ us) qs rm.
Proof using Hio.
  intros Hi Hn. pose proof (mi_text _ _ _ _ _ _ _ Hi) as (segs & Ht). pose proof (io_ssz _ Hio) as Hssz.
  destruct (btoq_pos mi (zlen text)) as [Hb Hle]; [done|done|]. set (n := btoq mi (zlen text)) in *.
  assert (∀ u, a ≤ u < a + n → u ∈ owned mi (msgh s) (concat qs ++ tx) (seqZ a n ++ us)) as Hown.
  { intros u Hu. unfold owned. rewrite !elem_of_app. right. left. by apply elem_of_seqZ. }
  pose proof (tx_in _ _ _ _ _ _ _ Ht a (or_introl (Hown a ltac:(lia)))). pose proof (tx_in _ _ _ _ _ _ _ Ht (a + n - 1) (or_introl (Hown (a + n - 1) ltac:(lia)))).
  pose proof (tx_pool _ _ _ _ _ _ _ Ht) as Hpool.
  destruct (put_bytes_ok (msgssz mi * (a - 1)) text (pool s)) as (t & He & Hlen & Hbefore & Hin); [nia|nia|].
  exists t. split_and!; [done| | |].
  - apply slice_exact. rewrite <-(Hin 0 (zlen text)) by lia. f_equal. lia.
  - intros p Hp. destruct (tx_hdrs _ _ _ _ _ _ _ Ht p Hp) as (m & Hm & Hok). unfold message_at. rewrite Hm. simpl. unfold message. f_equal.
    destruct (decide (msg_ts m = 0)) as [E|Hne]; [rewrite E; unfold slice; done|].
    destruct (tx_range _ _ _ _ _ _ _ _ Ht Hp Hm Hne) as (H1 & H2 & H3 & _). destruct (btoq_pos mi (msg_ts m)) as [Hb' Hle']; [done|lia|].
    assert (∀ u, u ∈ seqZ a n → u ∉ seqZ (msg_spot m + 1) (btoq mi (msg_ts m))) as Hdis.
    { intros u Hu Hu'. pose proof (tx_nodup _ _ _ _ _ _ _ Ht) as Hnd. unfold owned in Hnd. apply NoDup_app in Hnd as (_ & Hd & _).
      apply (Hd u); [|apply elem_of_app; by left]. apply list_elem_of_bind. exists p. split; [|done]. unfold units_at, units. rewrite Hm. simpl.
      by rewrite (proj2 (Z.eqb_neq _ _)) by done. }
    assert (msg_spot m + btoq mi (msg_ts m) < a ∨ a + n - 1 < msg_spot m + 1) as [Hlt|Hlt].
    { pose proof (Hdis a) as D1. pose proof (Hdis (msg_spot m + 1)) as D2. rewrite !elem_of_seqZ in D1, D2.
      destruct (decide (msg_spot m + btoq mi (msg_ts m) < a)); [by left|right]. destruct (decide (msg_spot m + 1 ≤ a)); [exfalso; apply D1; lia|].
      destruct (decide (a + n - 1 < msg_spot m + 1)); [done|]. exfalso. apply D2; lia. }
    + apply Hbefore; nia.
    + eapply put_bytes_after; [exact He|nia|nia].
  - destruct Hi as [H1 H2 H2' H3 _ H5]. split; simpl; [done..| |done]. exists segs.
    apply (tx_change mi _ (pool s) t (msgh s) (msgh s) (concat qs ++ tx) _ (seqZ a n ++ us)); [done|lia|apply Ht|done].
Qed.

(** The queue with another first, last and number, and the flag [b] of its mode cleared if it was set. *)
Definition clr_if (b : Z) (x : msqid_ds) : msqid_ds := if has (mode (msg_perm x)) b then set_mmode (clr_bits b) x else x.

Lemma clr_if_fields b x : msg_first (clr_if b x) = msg_first x ∧ msg_last (clr_if b x) = msg_last x ∧ msg_cbytes (clr_if b x) = msg_cbytes x ∧
  msg_qnum (clr_if b x) = msg_qnum x ∧ msg_qbytes (clr_if b x) = msg_qbytes x ∧ seq_ (msg_perm (clr_if b x)) = seq_ (msg_perm x).
Proof using Type. unfold clr_if. destruct (has _ _); by split_and!. Qed.

Lemma clr_if_mode b c x `{!IsBit b, !IsBit c} : has (mode (msg_perm (clr_if b x))) c = negb (b =? c) && has (mode (msg_perm x)) c.
Proof using Type.
  unfold clr_if. destruct (has (mode (msg_perm x)) b) eqn:E; simpl.
  - by rewrite has_clr.
  - destruct (Z.eqb_spec b c) as [<-|]; [by rewrite E|done].
Qed.

(** A queue as it is after a change of its list; the rest of the record is the code's business. *)
Record requeued (b : Z) (x x' : msqid_ds) : Prop := {
  rq_mode : ∀ c, IsBit c → has (mode (msg_perm x')) c = negb (b =? c) && has (mode (msg_perm x)) c;
  rq_zero : mode (msg_perm x) = 0 → mode (msg_perm x') = 0;
  rq_seq : seq_ (msg_perm x') = seq_ (msg_perm x);
  rq_bytes : msg_qbytes x' = msg_qbytes x
}.

Lemma requeued_clr b `{!IsBit b} x y : msg_perm y = msg_perm x → msg_qbytes y = msg_qbytes x → requeued b x (clr_if b y).
Proof using Type.
  intros Ep Eq. destruct (clr_if_fields b y) as (_ & _ & _ & _ & Eb & Es). split.
  - intros c Hc. rewrite clr_if_mode by done. by rewrite Ep.
  - intros E. unfold clr_if. rewrite Ep, E. simpl. rewrite Ep. done.
  - by rewrite Es, Ep.
  - by rewrite Eb.
Qed.

Lemma hseg_ext h h' p ps e : (∀ a, a ∈ ps → hdr_at h' a = hdr_at h a) → hseg h p ps e → hseg h' p ps e.
Proof using Type.
  revert p. induction ps as [|a ps IH]; intros p He; simpl; [done|]. intros (-> & m & Hm & H). split; [done|]. exists m.
  rewrite He by left. split; [done|]. apply IH; [|done]. intros b Hb. apply He. by right.
Qed.

Lemma queue_ok_ext h h' q x ps r : (∀ a, a ∈ ps → hdr_at h' a = hdr_at h a) → queue_ok mi h q x ps r → queue_ok mi h' q x ps r.
Proof using Type.
  intros He []. split; [by eapply hseg_ext|done..| |done|done|done]. intros Hr. rewrite qo_cb by done. clear - He.
  induction ps as [|a ps IH]; [done|]. simpl. rewrite IH by (intros b Hb; apply He; by right). unfold ts_at. by rewrite He by left.
Qed.

Lemma elem_of_concat (qs : list (list Z)) i l a : qs !! i = Some l → a ∈ l → a ∈ concat qs.
Proof using Type. intros Hi Ha. destruct (concat_split _ _ _ Hi) as (rest & Hc & _). rewrite Hc. apply elem_of_app. by left. Qed.

Lemma concat_disjoint (qs : list (list Z)) i j l1 l2 a : NoDup (concat qs) → qs !! i = Some l1 → qs !! j = Some l2 → a ∈ l1 → a ∈ l2 → i = j.
Proof using Type.
  intros Hnd Hi Hj H1 H2. destruct (decide (i = j)) as [|Hne]; [done|]. exfalso. destruct (concat_split _ _ _ Hi) as (rest & Hc & Hins).
  rewrite Hc in Hnd. apply NoDup_app in Hnd as (_ & Hd & _). apply (Hd a H1). specialize (Hins []). simpl in Hins. rewrite <-Hins.
  eapply (elem_of_concat _ j); [|exact H2]. by rewrite list_lookup_insert_ne.
Qed.

(** A change of one queue and of headers that are on it or held. *)
Lemma inv_requeue s hs tx us qs rm q x x' ps ps' h' hs' tx' us' segs : msg_inv mi s hs tx us qs rm → 0 ≤ q →
  msgque s !! Z.to_nat q = Some x → qs !! Z.to_nat q = Some ps →
  concat (<[Z.to_nat q := ps']> qs) ++ tx' ++ hs' ≡ₚ concat qs ++ tx ++ hs →
  length h' = length (msgh s) → (∀ p, p ∉ ps → p ∉ hs → hdr_at h' p = hdr_at (msgh s) p) →
  text_ok mi (msgmap s) (pool s) h' (concat (<[Z.to_nat q := ps']> qs) ++ tx') us' segs →
  queue_ok mi h' q x' ps' (q ∈ rm) →
  msg_inv mi (set_msgh h' (set_que (<[Z.to_nat q := x']> (msgque s)) s)) hs' tx' us' (<[Z.to_nat q := ps']> qs) rm.
Proof using Type.
  intros Hi Hq Hx Hps Hperm Hlen Hsame Ht Hok. destruct (inv_hdr_nodup _ _ _ _ _ _ _ Hi) as [Hnd _].
  destruct (concat_split _ _ _ Hps) as (rest & Hc & _). destruct Hi as [H1 H2 H2' (fr & Hf & Hp) H4 H5].
  split; simpl; rewrite ?length_insert; [done|done|lia| |by exists segs|].
  - exists fr. rewrite Hperm, Hlen. split; [|done]. eapply hseg_ext; [|done]. intros a Ha.
    assert (NoDup (fr ++ concat qs ++ tx ++ hs)) as H by (rewrite Hp; apply NoDup_seqZ). apply NoDup_app in H as (_ & H & _).
    specialize (H a Ha). rewrite Hc, !elem_of_app in H. apply Hsame; tauto.
  - intros q' y ps1 Hq' Hy Hps1. destruct (decide (q' = q)) as [->|Hne].
    + rewrite list_lookup_insert_eq in Hy by (by eapply lookup_lt_Some). rewrite list_lookup_insert_eq in Hps1 by (by eapply lookup_lt_Some). by simplify_eq.
    + rewrite list_lookup_insert_ne in Hy by lia. rewrite list_lookup_insert_ne in Hps1 by lia.
      eapply queue_ok_ext; [|by apply H5]. intros a Ha.
      assert (a ∉ ps) as Hn.
      { intros Ha'. apply NoDup_app in Hnd as (Hnd & _). pose proof (concat_disjoint _ _ _ _ _ _ Hnd Hps1 Hps Ha Ha'). lia. }
      apply Hsame; [done|]. apply NoDup_app in Hnd as (_ & Hd & _). intros Hb. apply (Hd a); [|rewrite elem_of_app; by right].
      eapply elem_of_concat; [exact Hps1|done].
Qed.

(** ** Code that works on one queue *)

Definition upd (h : list msg) (y : msqid_ds) (q : Z) (s : msgsys) : msgsys := set_msgh h (set_que (<[Z.to_nat q := y]> (msgque s)) s).

Lemma mupd_id s q x : msgque s !! Z.to_nat q = Some x → s = upd (msgh s) x q s.
Proof using Type. intros Hx. unfold upd, set_msgh, set_que. simpl. rewrite list_insert_id by done. by destruct s. Qed.

Lemma get_q_upd h y q s : 0 ≤ q < zlen (msgque s) → get_q q (upd h y q s) = Ret y.
Proof using Type. intros Hq. apply get_q_ok; [lia|]. simpl. apply list_lookup_insert_eq. lia. Qed.

Lemma mod_q_upd f h y q s : 0 ≤ q < zlen (msgque s) → mod_q f q (upd h y q s) = Ret (upd h (f y) q s).
Proof using Type.
  intros Hq. rewrite (mod_q_ok _ _ _ y); [|lia|simpl; apply list_lookup_insert_eq; lia].
  f_equal. unfold upd, set_msgh, set_que. simpl. by rewrite list_insert_insert_eq.
Qed.

Lemma get_h_upd h y q s p m : hdr_at h p = Some m → get_h p (upd h y q s) = Ret m.
Proof using Type. intros Hm. by apply get_h_ok. Qed.

Lemma mod_h_upd f h y q s p m : hdr_at h p = Some m → mod_h f p (upd h y q s) = Ret (upd (hset p (f m) h) y q s).
Proof using Type. intros Hm. by rewrite (mod_h_ok _ _ _ m). Qed.

Lemma clr_upd b ch h y q s : 0 ≤ q < zlen (msgque s) →
  (let* x := get_q q (upd h y q s) in
   if has (mode (msg_perm x)) b then let* s := mod_q (set_mmode (clr_bits b)) q (upd h y q s) in Ret (bcast ch s) else Ret (upd h y q s)) =
  Ret (if has (mode (msg_perm y)) b then bcast ch (upd h (clr_if b y) q s) else upd h (clr_if b y) q s).
Proof using Type.
  intros Hq. rewrite get_q_upd by done. cbn [rbind]. rewrite mod_q_upd by done. unfold clr_if. by destruct (has _ _).
Qed.

(** [msgfree_unlink] on a queue [l1 ++ mp :: l2]. *)
Lemma unlink_upd h x q s l1 mp l2 : 0 ≤ q < zlen (msgque s) → hseg h (msg_first x) (l1 ++ mp :: l2) 0 → NoDup (l1 ++ mp :: l2) →
  msg_last x = default 0 (last (l1 ++ mp :: l2)) →
  ∃ h' y, msgfree_unlink q (default 0 (last l1)) mp (upd h x q s) =
      Ret (if has (mode (msg_perm x)) MSG_WWAIT then bcast (Msg_cv q) (upd h' (clr_if MSG_WWAIT y) q s) else upd h' (clr_if MSG_WWAIT y) q s) ∧
    msg_perm y = msg_perm x ∧ msg_qbytes y = msg_qbytes x ∧ msg_cbytes y = msg_cbytes x ∧ msg_qnum y = w32 (msg_qnum x - 1) ∧
    hseg h' (msg_first y) (l1 ++ l2) 0 ∧ msg_last y = default 0 (last (l1 ++ l2)) ∧
    length h' = length h ∧ (∀ p, p ∉ l1 → hdr_at h' p = hdr_at h p) ∧ ∀ ps, same_bodies h h' ps.
Proof using Type.
  intros Hq Hs Hnd Hlast. apply hseg_app in Hs as (b & Hs1 & -> & m & Hm & Hs2). pose proof (hdr_at_pos _ _ _ Hm).
  unfold msgfree_unlink. rewrite (get_h_upd _ _ _ _ _ _ Hm). cbn [rbind].
  set (pmp := default 0 (last l1)).
  assert (∃ h' y, (if pmp =? NULL then mod_q (set_first (msg_next m)) q (upd h x q s) else mod_h (set_next (msg_next m)) pmp (upd h x q s)) = Ret (upd h' y q s) ∧
    msg_perm y = msg_perm x ∧ msg_qbytes y = msg_qbytes x ∧ msg_cbytes y = msg_cbytes x ∧ msg_qnum y = msg_qnum x ∧ msg_last y = msg_last x ∧
    hseg h' (msg_first y) (l1 ++ l2) 0 ∧ length h' = length h ∧ (∀ p, p ∉ l1 → hdr_at h' p = hdr_at h p) ∧ ∀ ps, same_bodies h h' ps)
    as (h' & y & -> & Ep & Eb & Ec & En & El & Hs & Hlen & Hfr & Hsb).
  { destruct l1 as [|a l1 _] using rev_ind.
    - exists h, (set_first (msg_next m) x). simpl. rewrite mod_q_upd by done. split_and!; try done. intros ps. apply same_bodies_refl.
    - destruct (hseg_in _ _ _ _ a Hs1) as [ma Hma]; [apply elem_of_app; right; left|]. pose proof (hdr_at_pos _ _ _ Hma).
      subst pmp. rewrite last_snoc. simpl. rewrite (proj2 (Z.eqb_neq a NULL)) by (unfold NULL; lia). rewrite (mod_h_upd _ _ _ _ _ _ _ Hma).
      apply NoDup_app in Hnd as (Hnd & Hd & _).
      exists (hset a (set_next (msg_next m) ma) h), x. split_and!; try done.
      + apply hseg_app. exists (msg_next m). split; [by eapply hseg_relink|]. apply hseg_frame; [done| |done].
        intros Ha. apply (Hd a); [apply elem_of_app; right; left|by right].
      + apply hset_len.
      + intros p Hp. apply hdr_at_hset_ne; [done|]. intros ->. apply Hp, elem_of_app. right. left.
      + intros ps. by apply same_bodies_next. }
  cbn [rbind].
  assert (∃ z, (if msg_next m =? NULL then mod_q (set_last pmp) q (upd h' y q s) else Ret (upd h' y q s)) = Ret (upd h' z q s) ∧
    msg_perm z = msg_perm y ∧ msg_qbytes z = msg_qbytes y ∧ msg_cbytes z = msg_cbytes y ∧ msg_qnum z = msg_qnum y ∧ msg_first z = msg_first y ∧
    msg_last z = default 0 (last (l1 ++ l2))) as (z & -> & Ep' & Eb' & Ec' & En' & Ef' & El').
  { destruct (Z.eqb_spec (msg_next m) NULL) as [E|Hne].
    - exists (set_last pmp y). rewrite mod_q_upd by done. split_and!; try done. unfold NULL in E. rewrite E in Hs2. apply hseg_nil_inv in Hs2 as ->. by rewrite app_nil_r.
    - exists y. split_and!; try done. rewrite El, Hlast. rewrite !last_app. simpl. destruct l2; [simpl in Hs2; done|done]. }
  cbn [rbind]. rewrite mod_q_upd by done. cbn [rbind]. rewrite clr_upd by done.
  exists h', (set_qnum (w32 (msg_qnum z - 1)) z). simpl. rewrite Ep', Ep, Ef'. split_and!; try done; congruence.
Qed.

Lemma sumz_app f l1 l2 : sumz f (l1 ++ l2) = sumz f l1 + sumz f l2.
Proof using Type. induction l1 as [|a l1 IH]; simpl; lia. Qed.

Lemma sumz_ext f g l : (∀ p, p ∈ l → f p = g p) → sumz f l = sumz g l.
Proof using Type.
  induction l as [|a l IH]; intros H; [done|]. simpl. rewrite (H a) by left. rewrite IH; [done|]. intros p Hp. apply H. by right.
Qed.

(** The first half of [msgfree], with the record [x0] that the caller has made of the queue's. *)
Lemma msg_unlink_ok s hs tx us qs rm q x x0 l1 mp l2 : msg_inv mi s hs tx us qs rm → 0 ≤ q → msgque s !! Z.to_nat q = Some x →
  qs !! Z.to_nat q = Some (l1 ++ mp :: l2) → msg_perm x0 = msg_perm x → msg_qbytes x0 = msg_qbytes x → msg_first x0 = msg_first x →
  msg_last x0 = msg_last x → msg_qnum x0 = msg_qnum x → (q ∉ rm → msg_cbytes x0 = sumz (ts_at (msgh s)) (l1 ++ l2)) →
  ∃ h' x', msgfree_unlink q (default 0 (last l1)) mp (upd (msgh s) x0 q s) =
      Ret (if has (mode (msg_perm x)) MSG_WWAIT then bcast (Msg_cv q) (upd h' x' q s) else upd h' x' q s) ∧
    requeued MSG_WWAIT x x' ∧ (∀ ps, same_bodies (msgh s) h' ps) ∧
    msg_inv mi (upd h' x' q s) hs (mp :: tx) us (<[Z.to_nat q := l1 ++ l2]> qs) rm.
Proof using Hio.
  intros Hi Hq Hx Hps E1 E2 E3 E4 E5 Ecb. pose proof (mi_q _ _ _ _ _ _ _ Hi q x _ Hq Hx Hps) as Hok.
  assert (0 ≤ q < zlen (msgque s)) as Hql by (apply lookup_lt_Some in Hx; lia).
  destruct (inv_hdr_nodup _ _ _ _ _ _ _ Hi) as [Hnd Hin]. destruct (concat_split _ _ _ Hps) as (rest & Hc & Hins).
  assert (NoDup (l1 ++ mp :: l2)) as Hndl.
  { rewrite Hc in Hnd. by apply NoDup_app in Hnd as [[? _]%NoDup_app _]. }
  destruct (unlink_upd (msgh s) x0 q s l1 mp l2) as (h' & y & He & Ep & Eb & Ecy & En & Hs & Hl & Hlen & Hfr & Hsb);
    [done|by rewrite E3; apply Hok|done|by rewrite E4; apply Hok|].
  rewrite E1 in He. exists h', (clr_if MSG_WWAIT y). split; [done|]. split; [apply requeued_clr; [apply _|congruence..]|]. split; [done|].
  destruct (mi_text _ _ _ _ _ _ _ Hi) as (segs & Ht). destruct (clr_if_fields MSG_WWAIT y) as (F1 & F2 & F3 & F4 & F5 & F6).
  eapply (inv_requeue _ _ _ _ _ _ _ _ _ _ _ _ _ _ _ segs); try done.
  - rewrite Hins, Hc. rewrite <-!app_assoc. simpl. rewrite <-(Permutation_middle rest), <-(Permutation_middle l1). simpl.
    rewrite <-!Permutation_middle. done.
  - intros p Hp _. apply Hfr. intros Hp'. apply Hp, elem_of_app. by left.
  - eapply text_ok_perm; [apply Hsb| |reflexivity|exact Ht]. rewrite Hins, Hc. rewrite <-!app_assoc. simpl.
    rewrite <-(Permutation_middle l1), <-!Permutation_middle. done.
  - pose proof (requeued_clr MSG_WWAIT x y ltac:(congruence) ltac:(congruence)) as [].
    split; [by rewrite F1|by rewrite F2| | |..].
    + rewrite F4, En, E5, (qo_num _ _ _ _ _ _ Hok). rewrite !length_app. simpl.
      pose proof (inv_queue_len _ _ _ _ _ _ _ _ _ Hi Hps) as Hle. rewrite length_app in Hle. simpl in Hle.
      pose proof (mi_tql _ _ _ _ _ _ _ Hi). pose proof (io_tql _ Hio). rewrite w32_id; [lia|]. unfold in_u32. lia.
    + intros Hr. rewrite F3, Ecy, Ecb by done. apply sumz_ext. intros p _. symmetry. eapply same_bodies_ts; [apply (Hsb [p])|left].
    + rewrite (rq_mode0 IPC_ALLOC) by apply _. simpl. intros Ha. destruct (qo_free _ _ _ _ _ _ Hok Ha) as [Hnil _]. by destruct l1.
    + rewrite rq_seq0. apply Hok.
    + rewrite rq_bytes0. apply Hok.
Qed.

(** [msgsnd_link] on a queue. *)
Lemma same_bodies_set h h' p m ps : 0 < p ≤ zlen h → p ∉ ps → (∀ l, same_bodies (hset p m h) h' l) → same_bodies h h' ps.
Proof using Type. intros Hp Hn H. eapply same_bodies_trans; [by apply same_bodies_frame|apply H]. Qed.

Lemma link_upd c h x q s mp spot r ps H : 0 ≤ q < zlen (msgque s) → hseg h (msg_first x) ps 0 → mp ∉ ps → NoDup ps → 0 < mp ≤ zlen h →
  msg_last x = default 0 (last ps) → H = Msg NULL (snd_type r) (w16 (n_msgsz r)) (s16 (if truthy (n_msgsz r) then spot else -1)) →
  ∃ h' y, msgsnd_link c q mp spot r (upd h x q s) =
      Ret (if has (mode (msg_perm x)) MSG_RWAIT then bcast (Msg_qnum_cv q) (upd h' (clr_if MSG_RWAIT y) q s) else upd h' (clr_if MSG_RWAIT y) q s) ∧
    msg_perm y = msg_perm x ∧ msg_qbytes y = msg_qbytes x ∧ msg_cbytes y = w32 (msg_cbytes x + n_msgsz r) ∧ msg_qnum y = w32 (msg_qnum x + 1) ∧
    hseg h' (msg_first y) (ps ++ [mp]) 0 ∧ msg_last y = mp ∧
    length h' = length h ∧ (∀ p, p ∉ mp :: ps → hdr_at h' p = hdr_at h p) ∧ ∀ ps, same_bodies (hset mp H h) h' ps.
Proof using Type.
  intros Hq Hs Hn Hnd Hmp Hlast ->. destruct (hdr_at_some h mp) as [m0 Hm0]; [done|]. unfold msgsnd_link.
  rewrite mod_q_upd by done. cbn [rbind]. rewrite (mod_h_upd _ _ _ _ _ _ _ Hm0). cbn [rbind]. rewrite get_q_upd by done. cbn [rbind].
  set (H := Msg _ _ _ _). set (x1 := Msqid_ds _ _ _ _ _ _ _ _ _ _ _). change (msg_last x1) with (msg_last x).
  assert (hseg (hset mp H h) (msg_first x) ps 0) as Hs1 by (by apply hseg_frame).
  assert (hdr_at (hset mp H h) mp = Some H) as HH by (by apply hdr_at_hset_eq).
  assert (∃ h' y, (if msg_last x =? NULL then mod_q (λ x, set_last mp (set_first mp x)) q (upd (hset mp H h) x1 q s)
      else let* s := mod_h (set_next mp) (msg_last x) (upd (hset mp H h) x1 q s) in mod_q (set_last mp) q s) = Ret (upd h' y q s) ∧
    msg_perm y = msg_perm x ∧ msg_qbytes y = msg_qbytes x ∧ msg_cbytes y = msg_cbytes x1 ∧ msg_qnum y = msg_qnum x1 ∧
    hseg h' (msg_first y) (ps ++ [mp]) 0 ∧ msg_last y = mp ∧
    length h' = length h ∧ (∀ p, p ∉ mp :: ps → hdr_at h' p = hdr_at h p) ∧ ∀ ps, same_bodies (hset mp H h) h' ps)
    as (h' & y & -> & Ep & Eb & Ec & En & Hs' & El & Hlen & Hfr & Hsb).
  { destruct ps as [|a ps _] using rev_ind.
    - rewrite Hlast. change (default 0 (last (@nil Z)) =? NULL) with true. cbv iota. rewrite mod_q_upd by done. exists (hset mp H h), (set_last mp (set_first mp x1)). split_and!; try done.
      + simpl. split; [done|]. exists H. by split.
      + apply hset_len.
      + intros p Hp%not_elem_of_cons. apply hdr_at_hset_ne; tauto.
      + intros ps. apply same_bodies_refl.
    - rewrite last_snoc in Hlast. simpl in Hlast. rewrite Hlast.
      destruct (hseg_in _ _ _ _ a Hs1) as [ma Hma]; [apply elem_of_app; right; left|]. pose proof (hdr_at_pos _ _ _ Hma). rewrite hset_len in *.
      rewrite (proj2 (Z.eqb_neq a NULL)) by (unfold NULL; lia). rewrite (mod_h_upd _ _ _ _ _ _ _ Hma). cbn [rbind]. rewrite mod_q_upd by done.
      apply not_elem_of_app in Hn as [Hn1 Hn2]. rewrite list_elem_of_singleton in Hn2.
      exists (hset a (set_next mp ma) (hset mp H h)), (set_last mp x1). split_and!; try done.
      + apply hseg_app. exists mp. split; [by eapply hseg_relink|]. split; [done|]. exists H. split; [|done].
        rewrite hdr_at_hset_ne; [done|rewrite hset_len; done|done].
      + by rewrite !hset_len.
      + intros p Hp. apply not_elem_of_cons in Hp as [Hp1 Hp2]. rewrite not_elem_of_app, list_elem_of_singleton in Hp2.
        rewrite !hdr_at_hset_ne; rewrite ?hset_len; tauto.
      + intros ps'. by apply same_bodies_next. }
  cbn [rbind]. rewrite clr_upd by done. rewrite Ep. exists h', y. by split_and!.
Qed.

Lemma msg_link_ok c s hs tx us qs rm q x ps mp spot r H : msg_inv mi s (mp :: hs) tx (units mi H ++ us) qs rm → 0 ≤ q → msgque s !! Z.to_nat q = Some x →
  qs !! Z.to_nat q = Some ps → has (mode (msg_perm x)) IPC_ALLOC = true → q ∉ rm → msg_ts H = n_msgsz r → header_ok mi H →
  H = Msg NULL (snd_type r) (w16 (n_msgsz r)) (s16 (if truthy (n_msgsz r) then spot else -1)) →
  ∃ h' x', msgsnd_link c q mp spot r s =
      Ret (if has (mode (msg_perm x)) MSG_RWAIT then bcast (Msg_qnum_cv q) (upd h' x' q s) else upd h' x' q s) ∧
    requeued MSG_RWAIT x x' ∧ msg_cbytes x' = w32 (msg_cbytes x + n_msgsz r) ∧ (∀ ps, mp ∉ ps → same_bodies (msgh s) h' ps) ∧ (∃ m, hdr_at h' mp = Some m ∧ same_body H m) ∧
    msg_inv mi (upd h' x' q s) hs tx us (<[Z.to_nat q := ps ++ [mp]]> qs) rm.
Proof using Hio.
  intros Hi Hq Hx Hps Ha Hrm Ets Hok1 EH. pose proof (mi_q _ _ _ _ _ _ _ Hi q x _ Hq Hx Hps) as Hok.
  assert (0 ≤ q < zlen (msgque s)) as Hql by (apply lookup_lt_Some in Hx; lia).
  destruct (inv_hdr_nodup _ _ _ _ _ _ _ Hi) as [Hnd Hin]. destruct (concat_split _ _ _ Hps) as (rest & Hc & Hins).
  assert (0 < mp ≤ zlen (msgh s)) as Hmp by (apply Hin; rewrite !elem_of_app; right; right; left).
  assert (mp ∉ concat qs ++ tx) as Hmpn.
  { rewrite app_assoc in Hnd. apply NoDup_app in Hnd as (_ & Hd & _). intros Hin'. apply (Hd mp Hin'). left. }
  assert ((mp ∉ ps) ∧ NoDup ps) as [Hnp Hndp].
  { split; [intros Hp; apply Hmpn; rewrite Hc, !elem_of_app; tauto|]. rewrite Hc in Hnd. by apply NoDup_app in Hnd as [[? _]%NoDup_app _]. }
  assert (msgsnd_link c q mp spot r s = msgsnd_link c q mp spot r (upd (msgh s) x q s)) as -> by (f_equal; by apply mupd_id).
  destruct (link_upd c (msgh s) x q s mp spot r ps H) as (h' & y & He & Ep & Eb & Ec & En & Hs & El & Hlen & Hfr & Hsb);
    [done|apply Hok|done|done|done|apply Hok|done|].
  exists h', (clr_if MSG_RWAIT y). split; [done|]. split; [apply requeued_clr; [apply _|done..]|].
  split; [by rewrite (proj1 (proj2 (proj2 (clr_if_fields MSG_RWAIT y))))|].
  split; [intros l Hl; by eapply same_bodies_set|].
  destruct (mi_text _ _ _ _ _ _ _ Hi) as (segs & Ht).
  split.
  { pose proof (Hsb [mp] mp ltac:(left)) as Hb. rewrite hdr_at_hset_eq in Hb by done. destruct (hdr_at h' mp) as [m|]; [|done]. by exists m. }
  destruct (clr_if_fields MSG_RWAIT y) as (F1 & F2 & F3 & F4 & F5 & F6).
  assert (concat (<[Z.to_nat q := ps ++ [mp]]> qs) ++ tx ≡ₚ mp :: concat qs ++ tx) as Hperm.
  { rewrite Hins, Hc. rewrite <-!app_assoc. simpl. by rewrite <-!Permutation_middle. }
  assert (text_ok mi (msgmap s) (pool s) h' (concat (<[Z.to_nat q := ps ++ [mp]]> qs) ++ tx) us segs) as Ht'.
  { eapply text_ok_perm; [apply Hsb|symmetry; exact Hperm|reflexivity|]. by apply text_ok_take. }
  assert (ts_at h' mp = n_msgsz r ∧ ∀ p, p ∈ ps → ts_at h' p = ts_at (msgh s) p) as [Tm Tp].
  { split.
    - rewrite (same_bodies_ts _ _ _ (Hsb [mp]) mp) by left. unfold ts_at. by rewrite hdr_at_hset_eq.
    - intros p Hp. rewrite (same_bodies_ts _ _ _ (Hsb [p]) p) by left. unfold ts_at. rewrite hdr_at_hset_ne; [done|done|by intros ->]. }
  assert (0 ≤ sumz (ts_at h') (ps ++ [mp]) ≤ msgseg mi * msgssz mi) as Hsum.
  { eapply sumz_pool; [done|exact Ht'|]. rewrite Hins. rewrite <-app_assoc. reflexivity. }
  rewrite sumz_app in Hsum. simpl in Hsum. rewrite Tm, (sumz_ext (ts_at h') (ts_at (msgh s)) ps Tp) in Hsum.
  eapply (inv_requeue _ (mp :: hs) _ _ _ _ _ _ _ _ _ _ _ _ _ segs); try done.
  - rewrite app_assoc, Hperm. simpl. rewrite <-!app_assoc. by rewrite <-!Permutation_middle.
  - intros p Hp1 Hp2. apply Hfr. apply not_elem_of_cons in Hp2. apply not_elem_of_cons. tauto.
  - pose proof (requeued_clr MSG_RWAIT x y Ep Eb) as [].
    split; [by rewrite F1|by rewrite F2, El, last_snoc| | |..].
    + rewrite F4, En, (qo_num _ _ _ _ _ _ Hok), length_app. simpl.
      pose proof (inv_queue_len _ _ _ _ _ _ _ _ _ Hi Hps) as Hle. pose proof (mi_tql _ _ _ _ _ _ _ Hi). pose proof (io_tql _ Hio).
      rewrite w32_id; [lia|]. unfold in_u32. lia.
    + intros Hr. rewrite F3, Ec, (qo_cb _ _ _ _ _ _ Hok) by done. rewrite sumz_app. simpl. rewrite Tm, (sumz_ext (ts_at h') (ts_at (msgh s)) ps Tp).
      pose proof (io_pool _ Hio). rewrite w32_id; [lia|]. unfold in_u32. lia.
    + rewrite (rq_mode0 IPC_ALLOC) by apply _. simpl. by rewrite Ha.
    + rewrite rq_seq0. apply Hok.
    + rewrite rq_bytes0. apply Hok.
Qed.

Definition snd_text (r : sndreq) : list Z := if n_msgsz r =? 0 then [] else default [] (n_text r).

(** A request that [msgsnd_enter] lets pass; [copyin] gets as many bytes as are asked for. *)
Record sndreq_ok (r : sndreq) : Prop := {
  sr_size : 0 ≤ n_msgsz r ≤ msgmax mi;
  sr_type : 1 ≤ snd_type r < 2 ^ 31;
  sr_text t : n_text r = Some t → zlen t = n_msgsz r
}.

Definition own_units (r : sndreq) (spot : Z) : list Z := if n_msgsz r =? 0 then [] else seqZ spot (btoq mi (n_msgsz r)).

Lemma snd_put_ok c s hs tx us qs rm q x ps mp spot r : msg_inv mi s (mp :: hs) tx (own_units r spot ++ us) qs rm → sndreq_ok r → 0 ≤ q →
  msgque s !! Z.to_nat q = Some x → qs !! Z.to_nat q = Some ps → has (mode (msg_perm x)) IPC_ALLOC = true → q ∉ rm →
  (∃ m, msgsnd_put mi c q mp spot r s = Ret (false, freed_state m s) ∧ m_want m = 0 ∧ msg_inv mi (freed_state m s) (mp :: hs) tx us qs rm) ∨
  ∃ t h' x', msgsnd_put mi c q mp spot r s =
      Ret (true, if has (mode (msg_perm x)) MSG_RWAIT then bcast (Msg_qnum_cv q) (upd h' x' q (set_pool t s)) else upd h' x' q (set_pool t s)) ∧
    requeued MSG_RWAIT x x' ∧ msg_cbytes x' = w32 (msg_cbytes x + n_msgsz r) ∧ (∀ p, p ∈ concat qs ++ tx → message_at mi h' t p = message_at mi (msgh s) (pool s) p) ∧
    message_at mi h' t mp = (snd_type r, snd_text r) ∧ msg_inv mi (upd h' x' q (set_pool t s)) hs tx us (<[Z.to_nat q := ps ++ [mp]]> qs) rm.
Proof using Hio.
  intros Hi [Hsz Hty Htx] Hq Hx Hps Ha Hrm. unfold msgsnd_put, own_units, snd_text in *. pose proof (io_max _ Hio) as Hmax.
  assert (∀ p, p ∈ concat qs ++ tx → p ≠ mp) as Hne.
  { intros p Hp ->. destruct (inv_hdr_nodup _ _ _ _ _ _ _ Hi) as [Hnd _]. rewrite app_assoc in Hnd. apply NoDup_app in Hnd as (_ & Hd & _). apply (Hd mp Hp). left. }
  assert (∀ h' t H m, hdr_at h' mp = Some m → same_body H m → message_at mi h' t mp = message mi t H) as Hmsg.
  { intros h' t H m Hm (E1 & E2 & E3). unfold message_at. rewrite Hm. simpl. unfold message. by rewrite E1, E2, E3. }
  destruct (truthy (n_msgsz r)) eqn:E.
  - apply truthy_true in E as Hnz. rewrite (proj2 (Z.eqb_neq _ _) Hnz) in *. destruct (n_text r) as [text|] eqn:Et.
    + right. specialize (Htx text eq_refl). rewrite <-Htx in Hi.
      destruct (pool_put_ok _ _ _ _ _ _ _ _ Hi) as (t & He & Hsl & Hkeep & Hi2); [lia|]. rewrite He. cbn [rbind].
      destruct (mi_text _ _ _ _ _ _ _ Hi) as (segs & Ht).
      assert (1 ≤ spot ≤ msgseg mi) as Hspot.
      { apply (tx_in _ _ _ _ _ _ _ Ht). left. unfold owned. rewrite !elem_of_app. right. left. apply elem_of_seqZ.
        destruct (btoq_pos mi (zlen text)); [apply Hio|lia|lia]. }
      pose proof (io_seg _ Hio) as Hseg.
      set (H := Msg NULL (snd_type r) (zlen text) (spot - 1)).
      destruct (msg_link_ok c (set_pool t s) hs tx us qs rm q x ps mp (spot - 1) r H) as (h' & x' & He' & Hrq & Hcb & Hsb & (m & Hm & Hb) & Hi3); try done.
      * unfold units. simpl. rewrite (proj2 (Z.eqb_neq _ _)) by lia. by replace (spot - 1 + 1) with spot by lia.
      * split_and!; simpl; lia.
      * unfold H. rewrite E, <-Htx, w16_id, s16_id by lia. done.
      * rewrite He'. cbn [rbind]. exists t, h', x'. split; [done|]. split; [done|]. split; [done|]. split; [|split; [|done]].
        -- intros p Hp. rewrite <-Hkeep by done. eapply same_bodies_message; [apply (Hsb [p])|left]. rewrite list_elem_of_singleton. intros <-. by apply (Hne mp).
        -- rewrite (Hmsg _ _ _ _ Hm Hb). unfold message. simpl. f_equal. by rewrite Hsl.
    + left. destruct (free_text_ok _ _ _ _ _ _ _ _ Hi) as (m & He & Hw & Hi2); [lia|]. exists m. rewrite He. by split_and!.
  - apply truthy_false in E as Hz. rewrite Hz in *. simpl in *. right.
    set (H := Msg NULL (snd_type r) 0 (-1)).
    destruct (msg_link_ok c s hs tx us qs rm q x ps mp spot r H) as (h' & x' & He' & Hrq & Hcb & Hsb & (m & Hm & Hb) & Hi3); try done.
    * unfold H. by rewrite Hz.
    * rewrite He'. cbn [rbind]. assert (set_pool (pool s) s = s) as Ep by (by destruct s). exists (pool s), h', x'. rewrite Ep.
      split; [done|]. split; [done|]. split; [by rewrite Hcb, Hz|]. split; [|split; [|done]].
      -- intros p Hp. eapply same_bodies_message; [apply (Hsb [p])|left]. rewrite list_elem_of_singleton. intros <-. by apply (Hne mp).
      -- rewrite (Hmsg _ _ _ _ Hm Hb). done.
Qed.

(** ** Receiving *)

(** A message taken off the queue by [msgrcv]. *)
Lemma rcv_find_ok c s hs tx us qs rm q x ps r : msg_inv mi s hs tx us qs rm → 0 ≤ q → msgque s !! Z.to_nat q = Some x →
  qs !! Z.to_nat q = Some ps → q ∉ rm → 0 ≤ r_msgsz r < 2 ^ 31 → - 2 ^ 31 < r_typ r →
  (Forall (λ m, ¬ wanted (r_typ r) m) (msgs s ps) ∧
   msgrcv_find mi c q r s = if has (r_flg r) IPC_NOWAIT then Ret (RStop (MDone (MErr ENOMSG)), s)
     else Ret (RStop (MWait (Msg_qnum_cv q)), upd (msgh s) (set_mmode (set_bits MSG_RWAIT) x) q s)) ∨
  ∃ l1 mp l2, ps = l1 ++ mp :: l2 ∧ let m := message_at mi (msgh s) (pool s) mp in
    chosen (r_typ r) (msgs s l1) m (msgs s l2) ∧
    ((r_msgsz r < zlen m.2 ∧ has (r_flg r) MSG_NOERROR = false ∧ msgrcv_find mi c q r s = Ret (RStop (MDone (MErr E2BIG)), s)) ∨
     (r_type_ok r && r_text_ok r = false ∧ msgrcv_find mi c q r s = Ret (RStop (MDone (MErr EFAULT)), s)) ∨
     ((zlen m.2 ≤ r_msgsz r ∨ has (r_flg r) MSG_NOERROR = true) ∧
      ∃ x0, msgrcv_find mi c q r s = Ret (RTake (default 0 (last l1)) mp m.1 (take (Z.to_nat (r_msgsz r)) m.2), upd (msgh s) x0 q s) ∧
        msg_perm x0 = msg_perm x ∧ msg_qbytes x0 = msg_qbytes x ∧ msg_first x0 = msg_first x ∧ msg_last x0 = msg_last x ∧ msg_qnum x0 = msg_qnum x ∧
        msg_cbytes x0 = sumz (ts_at (msgh s)) (l1 ++ l2))).
Proof using Hio.
  intros Hi Hq Hx Hps Hrm Hsz Hty. assert (0 ≤ q < zlen (msgque s)) as Hql by (apply lookup_lt_Some in Hx; lia).
  pose proof (mi_q _ _ _ _ _ _ _ Hi q x _ Hq Hx Hps) as Hok. destruct (mi_text _ _ _ _ _ _ _ Hi) as (segs & Ht).
  destruct (concat_split _ _ _ Hps) as (rest & Hc & _).
  destruct (findmsg_ok _ _ _ _ _ _ _ _ _ (r_typ r) Hi Hq Hx Hps Hty) as (pmp & smp & He & [[-> Hn]|(Hne & l1 & l2 & -> & -> & Hch)]);
    unfold msgrcv_find; rewrite He; cbn [rbind].
  - left. split; [done|]. rewrite Z.eqb_refl. destruct (has _ _); [done|]. rewrite (mod_q_ok _ _ _ _ Hq Hx). done.
  - right. exists l1, smp, l2. split; [done|]. split; [done|]. rewrite (proj2 (Z.eqb_neq _ _) Hne).
    assert (smp ∈ concat qs ++ tx) as Hin by (rewrite Hc, !elem_of_app, elem_of_cons; tauto).
    destruct (tx_hdrs _ _ _ _ _ _ _ Ht smp Hin) as (m & Hm & Hmok). rewrite (get_h_ok _ _ _ Hm). cbn [rbind]. rewrite (w32_id (r_msgsz r)) by (unfold in_u32; lia).
    assert (message_at mi (msgh s) (pool s) smp = message mi (pool s) m) as Em by (unfold message_at; by rewrite Hm). rewrite Em. simpl.
    destruct Hmok as (_ & Hts & Hsp).
    assert (msg_ts m ≠ 0 → 0 ≤ msg_spot m ∧ msgssz mi * msg_spot m + msg_ts m ≤ zlen (pool s)) as Hfit.
    { intros Hnz. destruct (tx_range _ _ _ _ _ _ _ _ Ht Hin Hm Hnz) as (H1 & H2 & H3 & _). pose proof (tx_pool _ _ _ _ _ _ _ Ht).
      destruct (btoq_pos mi (msg_ts m)) as [Hb Hle]; [apply Hio|done|]. pose proof (io_ssz _ Hio). split; [done|nia]. }
    assert (zlen (slice (msgssz mi * msg_spot m) (msg_ts m) (pool s)) = msg_ts m) as Hzl.
    { destruct (decide (msg_ts m = 0)) as [E0|Hnz]; [by rewrite E0|]. destruct (Hfit Hnz) as [H1 H2]. pose proof (io_ssz _ Hio). apply slice_len; nia. }
    rewrite Hzl. set (sz := if r_msgsz r <? msg_ts m then r_msgsz r else msg_ts m).
    assert (0 ≤ sz ≤ msg_ts m ∧ take (Z.to_nat (r_msgsz r)) (slice (msgssz mi * msg_spot m) (msg_ts m) (pool s)) = slice (msgssz mi * msg_spot m) sz (pool s))
      as [Hsz' Htk].
    { subst sz. destruct (Z.ltb_spec (r_msgsz r) (msg_ts m)).
      - split; [lia|]. unfold slice. rewrite take_take. f_equal. lia.
      - split; [lia|]. apply take_ge. lia. }
    destruct ((r_msgsz r <? msg_ts m) && negb (has (r_flg r) MSG_NOERROR)) eqn:Ebig; zb; [by left|right].
    assert (msg_ts m ≤ r_msgsz r ∨ has (r_flg r) MSG_NOERROR = true) as Hbig by (destruct Ebig; zb; [left; lia|by right]).
    destruct (r_type_ok r); simpl; [|by left].
    assert ((if truthy sz then get_bytes (msgssz mi * msg_spot m) sz (pool s) else Ret []) = Ret (slice (msgssz mi * msg_spot m) sz (pool s))) as ->.
    { destruct (truthy sz) eqn:Et; [|apply truthy_false in Et; by rewrite Et]. apply truthy_true in Et. destruct (Hfit ltac:(lia)) as [H1 H2].
      pose proof (io_ssz _ Hio). apply get_bytes_ok; nia. }
    cbn [rbind]. destruct (r_text_ok r) eqn:Eok; [|destruct (truthy sz)].
    2: by left.
    all: right; split; [done|]; rewrite ?andb_false_r; cbn [andb negb]; rewrite (mod_q_ok _ _ _ _ Hq Hx); cbn [rbind];
      rewrite Htk; eexists; split; [reflexivity|]; split_and!; try done; cbn [msg_cbytes];
      rewrite (qo_cb _ _ _ _ _ _ Hok) by done;
      assert (0 ≤ sumz (ts_at (msgh s)) (l1 ++ smp :: l2) ≤ msgseg mi * msgssz mi) as Hs by (eapply sumz_pool; [done|exact Ht|rewrite Hc, <-app_assoc; reflexivity]);
      assert (0 ≤ sumz (ts_at (msgh s)) (l1 ++ l2)) as Hs2 by (apply (sumz_units mi); [done|];
        intros p Hp; apply (tx_hdrs _ _ _ _ _ _ _ Ht); rewrite Hc, !elem_of_app, elem_of_cons; apply elem_of_app in Hp; tauto);
      rewrite !sumz_app in *; simpl in *; assert (ts_at (msgh s) smp = msg_ts m) as Es by (unfold ts_at; by rewrite Hm);
      pose proof (io_pool _ Hio); rewrite Es in *; rewrite w32_id; [lia|unfold in_u32; lia].
Qed.
End Ops.
