(* ===== verification/MsgCalls.v ===== *)
(** * Commands, new queues and the checks of the calls on message queues ([uts/common/os/msg.c], [os/ipc.c]) *)

From S2P Require Import Prelude Bytes Rmap Sem Msg MsgInv MsgOps.

(** ** [ipcget] *)

Lemma ipc_find_some f i l j : ipc_find f i l = Some j → ∃ p, i ≤ j < i + zlen l ∧ l !! Z.to_nat (j - i) = Some p ∧ f p = true.
Proof.
  revert i. induction l as [|p l IH]; intros i; simpl; [done|]. destruct (f p) eqn:E.
  - intros [= <-]. exists p. split; [lia|]. rewrite Z.sub_diag. by split.
  - intros (p' & Hr & Hl & Hf)%IH. exists p'. split; [lia|]. split; [|done].
    replace (Z.to_nat (j - i)) with (S (Z.to_nat (j - (i + 1)))) by lia. done.
Qed.

Lemma ipcget_ok c k flag l isnew q p : ipcget c k flag l = inr (isnew, q, p) →
  ∃ p0, 0 ≤ q < zlen l ∧ l !! Z.to_nat q = Some p0 ∧ if isnew then ipc_alloc p0 = false ∧ p = ipc_init c k flag p0 else ipc_alloc p0 = true ∧ p = p0.
Proof.
  unfold ipcget. set (make := match ipc_find ipc_free 0 l with None => _ | Some i => _ end).
  assert (make = inr (isnew, q, p) → ∃ p0, 0 ≤ q < zlen l ∧ l !! Z.to_nat q = Some p0 ∧
    if isnew then ipc_alloc p0 = false ∧ p = ipc_init c k flag p0 else ipc_alloc p0 = true ∧ p = p0) as Hmake.
  { subst make. destruct (ipc_find ipc_free 0 l) as [i|] eqn:Ef; [|done]. apply ipc_find_some in Ef as (p0 & Hr & Hl & Hf).
    rewrite Z.sub_0_r in Hl. rewrite Hl. intros [= <- <- <-]. exists p0. split; [lia|]. split; [done|]. split; [|done].
    unfold ipc_free in Hf. by apply negb_true_iff in Hf. }
  clearbody make. destruct (k =? IPC_PRIVATE); [done|]. destruct (ipc_find _ 0 l) as [i|] eqn:Ef; [|destruct (negb (truthy (Z.land flag IPC_CREAT))); [done|exact Hmake]].
  apply ipc_find_some in Ef as (p0 & Hr & Hl & Hf). rewrite Z.sub_0_r in Hl. rewrite Hl.
  destruct (Z.land flag (Z.lor IPC_CREAT IPC_EXCL) =? Z.lor IPC_CREAT IPC_EXCL); [done|]. destruct (truthy (Z.ldiff (Z.land flag 0x1ff) (mode p0))); [done|].
  intros [= <- <- <-]. exists p0. split; [lia|]. split; [done|]. by apply andb_prop in Hf as [? _].
Qed.

Section Calls.
Context (mi : msginfo) (Hio : info_ok mi).

#[local] Abbreviation alloc x := (has (mode (msg_perm x)) IPC_ALLOC).

(** ** Flags of the mode *)

Lemma has_or m n b `{!IsBit b} : has (Z.lor m n) b = has m b || has n b.
Proof using Type. destruct (is_bit (b := b)) as (i & Hi & ->). rewrite !has_testbit by done. apply Z.lor_spec. Qed.

(** The nine bits of permissions are apart from the flags. *)
Lemma has_perm m i : 9 ≤ i → has (Z.land m 0x1ff) (2 ^ i) = false.
Proof using Type.
  intros Hi. rewrite has_testbit by lia. change 0x1ff with (Z.ones 9). rewrite Z.land_ones by lia. apply Z.mod_pow2_bits_high. lia.
Qed.

Lemma has_set_perm m n i : 9 ≤ i → has (Z.lor (Z.ldiff m 0x1ff) (Z.land n 0x1ff)) (2 ^ i) = has m (2 ^ i).
Proof using Type.
  intros Hi. rewrite !has_testbit, Z.lor_spec, Z.ldiff_spec by lia. rewrite <-(has_testbit (Z.land n 0x1ff)), has_perm, orb_false_r by lia.
  change 0x1ff with (Z.ones 9). rewrite Z.ones_spec_high by lia. apply andb_true_r.
Qed.

Lemma flag_bits : IPC_ALLOC = 2 ^ 15 ∧ MSG_RWAIT = 2 ^ 9 ∧ MSG_WWAIT = 2 ^ 10.
Proof using Type. by split_and!. Qed.

(** ** Removal *)

Lemma slot_id id x : 0 ≤ id < 2 ^ 31 → id / msgmni mi = seq_ (msg_perm x) → seq_ (msg_perm x) * msgmni mi + msg_slot mi id = id.
Proof using Hio. intros Hid <-. unfold msg_slot. pose proof (Z.div_mod id (msgmni mi)). destruct Hio. lia. Qed.

Lemma msg_gone_false id x : msg_gone mi id x = false ↔ alloc x = true ∧ id / msgmni mi = seq_ (msg_perm x).
Proof using Type. unfold msg_gone. rewrite orb_false_iff, !negb_false_iff, Z.eqb_eq. done. Qed.

Lemma rmid_ok s hs tx us qs rm id x : let q := msg_slot mi id in
  msg_inv mi s hs tx us qs (q :: rm) → 0 ≤ id < 2 ^ 31 → msgque s !! Z.to_nat q = Some x → qs !! Z.to_nat q = Some [] →
  msg_gone mi id x = false →
  ∃ x' b, msg_rmid mi id q s = Ret (set_bcasts b (upd (msgh s) x' q s)) ∧ mode (msg_perm x') = 0 ∧
    (has (mode (msg_perm x)) MSG_RWAIT = true → Msg_qnum_cv q ∈ b) ∧ (has (mode (msg_perm x)) MSG_WWAIT = true → Msg_cv q ∈ b) ∧
    (∀ ch, ch ∈ bcasts s → ch ∈ b) ∧ msg_inv mi (upd (msgh s) x' q s) hs tx us qs rm.
Proof using Hio.
  intros q Hi Hid Hx Hps [Ha Hseq]%msg_gone_false. pose proof (slot_range _ Hio id) as Hq. fold q in Hq.
  pose proof (mi_q _ _ _ _ _ _ _ Hi q x _ (proj1 Hq) Hx Hps) as Hok.
  assert (0 ≤ q < zlen (msgque s)) as Hql by (rewrite (mi_mni _ _ _ _ _ _ _ Hi); done).
  unfold msg_rmid. rewrite (mod_q_ok _ _ _ _ (proj1 Hq) Hx). cbn [rbind]. change (set_que (<[Z.to_nat q := ?y]> (msgque s)) s) with (upd (msgh s) y q s).
  rewrite get_q_upd by done. cbn [rbind].
  set (x1 := let x := set_cbytes 0 x in set_mperm _ _). change (mode (msg_perm x1)) with (mode (msg_perm x)).
  set (s1 := if has _ MSG_RWAIT then _ else _). set (s2 := if has _ MSG_WWAIT then _ else _).
  assert (s2 = set_bcasts (bcasts s2) (upd (msgh s) x1 q s)) as E by (subst s2 s1; by destruct (has _ MSG_WWAIT), (has _ MSG_RWAIT)).
  exists (set_mmode (λ _, 0) x1), (bcasts s2). split_and!.
  - rewrite E. transitivity (let* s := mod_q (set_mmode (λ _, 0)) q (upd (msgh s) x1 q s) in Ret (set_bcasts (bcasts s2) s)).
    + rewrite (mod_q_ok _ _ _ x1); [|lia|simpl; apply list_lookup_insert_eq; lia].
      rewrite (mod_q_ok _ _ _ x1); [done|lia|simpl; apply list_lookup_insert_eq; lia].
    + by rewrite mod_q_upd.
  - done.
  - intros Hr. subst s2 s1. rewrite Hr. destruct (has _ MSG_WWAIT); [right|]; left.
  - intros Hw. subst s2. rewrite Hw. left.
  - intros ch Hch. subst s2 s1. destruct (has _ MSG_WWAIT), (has _ MSG_RWAIT); simpl; rewrite ?elem_of_cons; tauto.
  - apply inv_ext with (s := set_que (<[Z.to_nat q := set_mmode (λ _, 0) x1]> (msgque s)) s); try done.
    eapply (inv_set_que _ _ _ _ _ _ (q :: rm)); [done|lia|done|done| |intros q' Hne; rewrite elem_of_cons; tauto].
    destruct Hok as [K1 K2 K3 K4 K5 [K6 K7] K8]. split; simpl; [done|done|done|done|done| |done].
    pose proof (slot_id id x Hid Hseq) as Es. fold q in Es. destruct Hio. pose proof (Z.mod_pos_bound id (msgmni mi)).
    destruct (Z.ltb_spec (s32 (id + msgmni mi)) 0) as [Hneg|Hpos].
    + split; [lia|]. simpl. lia.
    + assert (id + msgmni mi < 2 ^ 31) as Hlt.
      { destruct (Z.lt_ge_cases (id + msgmni mi) (2 ^ 31)); [done|]. rewrite s32_high in Hpos by lia. lia. }
      rewrite w32_id; [split; [lia|nia]|]. unfold in_u32. nia.
Qed.

(** ** The other commands *)

Definition cmd_ok (cmd : msg_cmd) : Prop :=
  match cmd with IPC_SET (Some ds) | IPC_O_SET (Some ds) => 0 ≤ ms_qbytes ds < 2 ^ 32 | _ => True end.

(** A queue after [IPC_SET]. *)
Record reset (ds : msgset) (x x' : msqid_ds) : Prop := {
  rt_flags : ∀ i, 9 ≤ i → has (mode (msg_perm x')) (2 ^ i) = has (mode (msg_perm x)) (2 ^ i);
  rt_seq : seq_ (msg_perm x') = seq_ (msg_perm x);
  rt_cbytes : msg_cbytes x' = msg_cbytes x;
  rt_qbytes : msg_qbytes x' = ms_qbytes ds
}.

Lemma ctl_set_ok c s hs tx us qs rm q x bad ds : msg_inv mi s hs tx us qs rm → 0 ≤ q → msgque s !! Z.to_nat q = Some x → alloc x = true →
  (∀ d, ds = Some d → 0 ≤ ms_qbytes d < 2 ^ 32) →
  ∃ rep s', msgctl_set c q bad ds s = Ret (rep, s') ∧ msg_inv mi s' hs tx us qs rm ∧
    (s' = s ∨ ∃ d x', ds = Some d ∧ s' = upd (msgh s) x' q s ∧ reset d x x').
Proof using Type.
  intros Hi Hq Hx Ha Hds. unfold msgctl_set. rewrite (get_q_ok _ _ _ Hq Hx). cbn [rbind].
  destruct (negb (msg_owner c x)); [eexists _, s; split; [done|]; split; [done|by left]|].
  destruct ds as [d|]; [|eexists _, s; split; [done|]; split; [done|by left]].
  destruct ((msg_qbytes x <? ms_qbytes d) && negb (suser (cr c))); [eexists _, s; split; [done|]; split; [done|by left]|].
  destruct (bad d) as [e|]; [eexists _, s; split; [done|]; split; [done|by left]|].
  unfold msg_set. rewrite (mod_q_ok _ _ _ _ Hq Hx). cbn [rbind]. eexists _, _. split; [reflexivity|].
  set (x' := Msqid_ds _ _ _ _ _ _ _ _ _ _ _).
  assert (reset d x x') as Hr by (split; [intros i Hi'; by apply has_set_perm|done..]).
  split; [|right; by exists d, x'].
  destruct (inv_lookup _ _ _ _ _ _ _ _ _ Hi Hx) as [ps Hps]. pose proof (mi_q _ _ _ _ _ _ _ Hi q x ps Hq Hx Hps) as [].
  eapply inv_set_que; [done..| |done]. destruct Hr. split; [done|done|done|done| |done|by apply Hds].
  intros E. change IPC_ALLOC with (2 ^ 15) in *. rewrite rt_flags0 in E by lia. congruence.
Qed.

Lemma ctl_other_ok c s hs tx us qs rm q x cmd : msg_inv mi s hs tx us qs rm → 0 ≤ q → msgque s !! Z.to_nat q = Some x → alloc x = true → cmd_ok cmd →
  ∃ rep s', msgctl_other c q cmd s = Ret (rep, s') ∧ msg_inv mi s' hs tx us qs rm ∧
    (s' = s ∨ ∃ d x', (cmd = IPC_SET (Some d) ∨ cmd = IPC_O_SET (Some d)) ∧ s' = upd (msgh s) x' q s ∧ reset d x x').
Proof using Type.
  intros Hi Hq Hx Ha Hc. unfold msgctl_other. rewrite (get_q_ok _ _ _ Hq Hx). cbn [rbind].
  assert (∀ bad ds, (∀ d, ds = Some d → 0 ≤ ms_qbytes d < 2 ^ 32) → (∀ d, ds = Some d → cmd = IPC_SET (Some d) ∨ cmd = IPC_O_SET (Some d)) →
    ∃ rep s', msgctl_set c q bad ds s = Ret (rep, s') ∧ msg_inv mi s' hs tx us qs rm ∧
    (s' = s ∨ ∃ d x', (cmd = IPC_SET (Some d) ∨ cmd = IPC_O_SET (Some d)) ∧ s' = upd (msgh s) x' q s ∧ reset d x x')) as Hset.
  { intros bad ds H1 H2. destruct (ctl_set_ok c s hs tx us qs rm q x bad ds Hi Hq Hx Ha H1) as (rep & s' & He & Hi' & Hs').
    exists rep, s'. split; [done|]. split; [done|]. destruct Hs' as [->|(d & x' & Ed & ? & ?)]; [by left|right]. exists d, x'. split; [by apply H2|done]. }
  destruct cmd as [|ds|ds|ok|ok|].
  - eexists _, s. split; [done|]. split; [done|by left].
  - apply Hset; intros d ->; [done|by left].
  - apply Hset; intros d ->; [done|by right].
  - destruct (ipcaccess _ _ _); eexists _, s; (split; [done|]); split; [done|by left|done|by left].
  - destruct (ipcaccess _ _ _); eexists _, s; (split; [done|]); split; [done|by left|done|by left].
  - eexists _, s. split; [done|]. split; [done|by left].
Qed.

(** ** [msgget] *)

Lemma name_ok q x : 0 ≤ q < msgmni mi → 0 ≤ seq_ (msg_perm x) ∧ seq_ (msg_perm x) * msgmni mi + q < 2 ^ 31 → alloc x = true →
  0 ≤ msg_name mi q x < 2 ^ 31 ∧ msg_slot mi (msg_name mi q x) = q ∧ msg_gone mi (msg_name mi q x) x = false.
Proof using Type.
  intros Hq [Hs Hb] Ha. unfold msg_name. rewrite s32_id by (unfold in_s32; nia). split; [nia|].
  unfold msg_slot. rewrite Z.add_comm, Z.mod_add, Z.mod_small by lia. split; [done|]. apply msg_gone_false. split; [done|].
  rewrite Z.div_add, Z.div_small by lia. done.
Qed.

Lemma get_ok c s hs tx us qs rm k flag : msg_inv mi s hs tx us qs rm →
  ∃ rep s', msgget mi c k flag s = Ret (rep, s') ∧ msg_inv mi s' hs tx us qs rm ∧
    (s' = s ∧ (∃ e, rep = MErr e) ∨
     ∃ q id x x', rep = MNum id ∧ 0 ≤ id < 2 ^ 31 ∧ 0 ≤ q < msgmni mi ∧ msgque s !! Z.to_nat q = Some x ∧ msgconv mi id s' = Ret (Some q) ∧
       s' = upd (msgh s) x' q s ∧ alloc x' = true ∧
       (x' = x ∨ alloc x = false ∧ mode (msg_perm x) = 0 ∧ qs !! Z.to_nat q = Some [] ∧ key (msg_perm x') = k ∧ msg_qbytes x' = msgmnb mi)).
Proof using Hio.
  intros Hi. unfold msgget. destruct (ipcget c k flag (msg_perm <$> msgque s)) as [e|[[isnew q] p]] eqn:Eg.
  { eexists _, s. split; [done|]. split; [done|]. left. split; [done|by eexists]. }
  apply ipcget_ok in Eg as (p0 & Hq & Hl & Hp). rewrite length_fmap in Hq. rewrite list_lookup_fmap in Hl.
  destruct (msgque s !! Z.to_nat q) as [x|] eqn:Hx; [|done]. injection Hl as <-.
  destruct (inv_lookup _ _ _ _ _ _ _ _ _ Hi Hx) as [ps Hps]. pose proof (mi_q _ _ _ _ _ _ _ Hi q x ps (proj1 Hq) Hx Hps) as Hok.
  pose proof (mi_mni _ _ _ _ _ _ _ Hi) as Hmni.
  assert (∀ x' s', s' = upd (msgh s) x' q s → alloc x' = true → seq_ (msg_perm x') = seq_ (msg_perm x) →
    0 ≤ msg_name mi q x' < 2 ^ 31 ∧ msgconv mi (msg_name mi q x') s' = Ret (Some q)) as Hname.
  { intros x' s' -> Ha Es. destruct (name_ok q x') as (N1 & N2 & N3); [lia|rewrite Es; apply Hok|done|]. split; [done|].
    unfold msgconv. rewrite (proj2 (Z.ltb_ge _ _)) by lia. rewrite N2, get_q_upd by done. cbn [rbind]. by rewrite N3. }
  destruct isnew.
  - destruct Hp as [Hfree ->]. pose proof (qo_free _ _ _ _ _ _ Hok Hfree) as [-> Hm0].
    set (s1 := mod_q (set_mperm (ipc_init c k flag (msg_perm x))) q s).
    assert (s1 = Ret (upd (msgh s) (set_mperm (ipc_init c k flag (msg_perm x)) x) q s)) as -> by (subst s1; by rewrite (mod_q_ok _ _ _ _ (proj1 Hq) Hx)).
    cbn [rbind]. unfold msgget_init. rewrite mod_q_upd by done. cbn [rbind]. rewrite get_q_upd by done. cbn [rbind].
    set (x' := Msqid_ds _ _ _ _ _ _ _ _ _ _ _).
    assert (alloc x' = true) as Ha.
    { subst x'. unfold set_mperm, ipc_init. cbn [msg_perm mode]. by rewrite has_or by apply _. }
    eexists _, _. split; [reflexivity|]. destruct (Hname x' _ eq_refl Ha eq_refl) as [N1 N2]. split.
    + destruct Hok as [K1 K2 K3 K4 K5 K6 K7].
      apply inv_ext with (s := set_que (<[Z.to_nat q := x']> (msgque s)) s); try done.
      eapply inv_set_que; [done|lia|done|done| |done]. split; [done|done|done|done|by rewrite Ha|done|pose proof (io_mnb _ Hio); simpl; lia].
    + right. eexists q, _, x, x'. split; [done|]. split_and!; try done; try lia. right. by split_and!.
  - destruct Hp as [Ha ->]. cbn [rbind]. rewrite (get_q_ok _ _ _ (proj1 Hq) Hx). cbn [rbind].
    eexists _, s. split; [reflexivity|]. split; [done|]. right. eexists q, _, x, x. split; [done|].
    destruct (Hname x s) as [N1 N2]; [by apply mupd_id|done|done|]. split_and!; try done; try lia; [by apply mupd_id|by left].
Qed.

(** ** The checks *)

Definition rcvreq_ok (r : rcvreq) : Prop := in_s32 (r_msgsz r) ∧ - 2 ^ 31 < r_typ r.

Lemma ipcaccess_err p m c e : ipcaccess p m c = Some e → e = EACCES.
Proof using Type. unfold ipcaccess. destruct (cr_uid c =? 0); [done|]. destruct (truthy _); [done|]. by intros [= <-]. Qed.

Lemma rcv_enter_ok c s hs tx us qs rm id r : msg_inv mi s hs tx us qs rm →
  (∃ e, msgrcv_enter mi c id r s = Ret (inl (Ipc e)) ∧ (e = EINVAL ∨ e = EACCES)) ∨
  ∃ x ps, msgrcv_enter mi c id r s = Ret (inr (msg_slot mi id)) ∧ 0 ≤ id ∧ msgque s !! Z.to_nat (msg_slot mi id) = Some x ∧
    qs !! Z.to_nat (msg_slot mi id) = Some ps ∧ msg_gone mi id x = false ∧ 0 ≤ r_msgsz r.
Proof using Hio.
  intros Hi. destruct (msg_conv _ Hio _ _ _ _ _ _ id Hi) as (x & ps & Hx & Hps & Hok & Hc). unfold msgrcv_enter. rewrite Hc. cbn [rbind].
  destruct ((id <? 0) || msg_gone mi id x) eqn:E; [left; exists EINVAL; split; [done|by left]|]. zb. pose proof (slot_range _ Hio id) as Hq.
  rewrite (get_q_ok _ _ _ (proj1 Hq) Hx). cbn [rbind]. destruct (ipcaccess _ _ _) as [e|] eqn:Ee; [left; exists e; split; [done|right; by eapply ipcaccess_err]|].
  destruct (Z.ltb_spec (r_msgsz r) 0); [left; exists EINVAL; split; [done|by left]|]. right. by exists x, ps.
Qed.

(** What [copyin] can give for a request. *)
Definition snd_args_ok (r : sndreq) : Prop :=
  (∀ ty, n_type r = Some ty → in_s32 ty) ∧ ∀ t, n_text r = Some t → zlen t = n_msgsz r.

Lemma snd_enter_ok c s hs tx us qs rm id r : msg_inv mi s hs tx us qs rm → snd_args_ok r →
  (∃ e, msgsnd_enter mi c id r s = Ret (inl e)) ∨
  ∃ x ps, msgsnd_enter mi c id r s = Ret (inr (msg_slot mi id)) ∧ 0 ≤ id ∧ msgque s !! Z.to_nat (msg_slot mi id) = Some x ∧
    qs !! Z.to_nat (msg_slot mi id) = Some ps ∧ msg_gone mi id x = false ∧ sndreq_ok mi r.
Proof using Hio.
  intros Hi [Hty Htx]. destruct (msg_conv _ Hio _ _ _ _ _ _ id Hi) as (x & ps & Hx & Hps & Hok & Hc). unfold msgsnd_enter. rewrite Hc. cbn [rbind].
  destruct ((id <? 0) || msg_gone mi id x) eqn:E; [left; by eexists|]. zb. pose proof (slot_range _ Hio id) as Hq.
  rewrite (get_q_ok _ _ _ (proj1 Hq) Hx). cbn [rbind]. destruct (ipcaccess _ _ _); [left; by eexists|].
  destruct ((n_msgsz r <? 0) || (msgmax mi <? n_msgsz r)) eqn:Es; [left; by eexists|]. zb.
  destruct (n_type r) as [ty|] eqn:Et; [|left; by eexists]. destruct (Z.ltb_spec ty 1); [left; by eexists|].
  right. exists x, ps. split_and!; try done. specialize (Hty ty eq_refl). unfold in_s32 in Hty. split; [lia| |done]. unfold snd_type. rewrite Et. simpl. lia.
Qed.
End Calls.
