(* ===== verification/MsgMachine.v ===== *)
(** * Threads in the calls on message queues ([uts/common/os/msg.c])

    Threads that call [msgsnd], [msgrcv], [msgctl] and [msgget] at the same time.  A thread that is in the middle of a call is at one of
    the places of [pc]: between two pieces of [Msg] it has the lock of a queue, and others may take and give
    headers and text; asleep, or on its way back from [cv_wait_sig], it has no lock.  A broadcast wakes all that sleep on a condition
    variable, a signal interrupts one.  [msgget] is one step: see [msgget_unlocked] in [MsgProps]. *)

From S2P Require Import Prelude Rmap Sem Msg.

Inductive call := Snd (r : sndreq) | Rcv (r : rcvreq) | Ctl (cmd : msg_cmd) | Get (k flag : Z).

(** [FreeText] and [FreeHdr] are in [msgfree], for [msgrcv] with its reply or for the loop of [IPC_RMID]; [Intr] is after a signal. *)
Inductive pc :=
| Start
| SndMap (q mp : Z)
| SndPut (q mp spot : Z)
| SndOut1 (q mp : Z) (e : msg_errno)
| FreeText (q mp : Z) (k : option msg_reply)
| FreeHdr (q mp : Z) (k : option msg_reply)
| Purge (q : Z)
| Sleep (ch : chan)
| Woken (ch : chan)
| Intr (ch : chan)
| Finished (rep : msg_reply).

Record thread := Thread { t_caller : caller; t_id : Z; t_call : call; t_pc : pc }.
Definition set_pc (p : pc) (t : thread) : thread := Thread (t_caller t) (t_id t) (t_call t) p.

Record mmach := Mmach { m_sys : msgsys; m_threads : list thread }.

#[global] Instance chan_eq_dec : EqDecision chan.
Proof. solve_decision. Defined.

Definition wake_pc (chs : list chan) (p : pc) : pc :=
  match p with Sleep ch => if bool_decide (ch ∈ chs) then Woken ch else p | _ => p end.
Definition wake_thread (chs : list chan) (t : thread) : thread := set_pc (wake_pc chs (t_pc t)) t.

(** The queue whose lock a thread has. *)
Definition holds (t : thread) : option Z :=
  match t_pc t with
  | SndMap q _ | SndPut q _ _ | SndOut1 q _ _ | FreeText q _ _ | FreeHdr q _ _ | Purge q => Some q
  | _ => None
  end.

Section Machine.
Context (mi : msginfo).

(** The queue whose lock a thread takes when it goes on. *)
Definition takes (t : thread) : option Z :=
  match t_pc t, t_call t with
  | (Start | Woken _ | Intr _), (Snd _ | Rcv _ | Ctl _) => if t_id t <? 0 then None else Some (msg_slot mi (t_id t))
  | _, _ => None
  end.

Definition snd_go (q : Z) (r : sndreq) (s : msgsys) : run (pc * msgsys) :=
  let* (k, s) := msgsnd_getres q r s in
  Ret (match k with SStop (MDone rep) => Finished rep | SStop (MWait ch) => Sleep ch | SHdr mp => SndMap q mp end, s).

Definition rcv_go (c : caller) (q : Z) (r : rcvreq) (s : msgsys) : run (pc * msgsys) :=
  let* (k, s) := msgrcv_find mi c q r s in
  match k with
  | RStop (MDone rep) => Ret (Finished rep, s)
  | RStop (MWait ch) => Ret (Sleep ch, s)
  | RTake pmp mp type text => let* s := msgfree_unlink q pmp mp s in Ret (FreeText q mp (Some (MMsg type text)), s)
  end.

(** What a call does when it begins. *)
Definition start (c : caller) (id : Z) (what : call) (s : msgsys) : run (pc * msgsys) :=
  match what with
  | Snd r =>
      let* o := msgsnd_enter mi c id r s in
      match o with inl e => Ret (Finished (MErr e), s) | inr q => snd_go q r s end
  | Rcv r =>
      let* o := msgrcv_enter mi c id r s in
      match o with inl e => Ret (Finished (MErr e), s) | inr q => rcv_go c q r s end
  | Ctl cmd =>
      let* o := msgconv mi id s in
      match o with
      | None => Ret (Finished (MErr EINVAL), s)
      | Some q =>
          match cmd with
          | IPC_RMID => let* x := get_q q s in Ret (if msg_owner c x then Purge q else Finished (MErr EPERM), s)
          | _ => let* (rep, s) := msgctl_other c q cmd s in Ret (Finished rep, s)
          end
      end
  | Get k flag => let* (rep, s) := msgget mi c k flag s in Ret (Finished rep, s)
  end.

(** What it does when it has been woken. *)
Definition resume (c : caller) (id : Z) (what : call) (ch : chan) (s : msgsys) : run (pc * msgsys) :=
  match what, ch with
  | Snd r, _ =>
      let* o := msgsnd_again mi ch id s in
      match o with inl e => Ret (Finished (MErr e), s) | inr q => snd_go q r s end
  | Rcv r, Msg_qnum_cv q =>
      let* o := msgrcv_again mi id q s in
      match o with inl e => Ret (Finished (MErr e), s) | inr q => rcv_go c q r s end
  | _, _ => Fault
  end.

Definition interrupted (id : Z) (what : call) (ch : chan) (s : msgsys) : run (pc * msgsys) :=
  match what with
  | Snd r => let* (e, s) := msgsnd_eintr mi ch id s in Ret (Finished (MErr e), s)
  | _ => Ret (Finished (MErr EINTR), s)
  end.

(** The next piece of a call. *)
Definition advance (t : thread) (s : msgsys) : run (pc * msgsys) :=
  let c := t_caller t in
  let id := t_id t in
  match t_pc t, t_call t with
  | Start, what => start c id what s
  | SndMap q mp, Snd r =>
      let* (k, s) := msgsnd_map mi mp r s in
      Ret (match k with SSpot spot => SndPut q mp spot | SOut1 e => SndOut1 q mp e | SMapWait => Sleep Map_cv end, s)
  | SndPut q mp spot, Snd r =>
      let* (ok, s) := msgsnd_put mi c q mp spot r s in
      Ret (if ok : bool then Finished (MNum 0) else SndOut1 q mp EFAULT, s)
  | SndOut1 q mp e, _ => let* s := put_hdr mp s in Ret (Finished (MErr e), s)
  | FreeText q mp k, _ => let* s := msgfree_text mi mp s in Ret (FreeHdr q mp k, s)
  | FreeHdr q mp k, _ =>
      let* s := put_hdr mp s in Ret (match k with Some rep => Finished rep | None => Purge q end, s)
  | Purge q, _ =>
      let* x := get_q q s in
      if msg_first x =? NULL then let* s := msg_rmid mi id q s in Ret (Finished (MNum 0), s)
      else let* s := msgfree_unlink q NULL (msg_first x) s in Ret (FreeText q (msg_first x) None, s)
  | Woken ch, what => resume c id what ch s
  | Intr ch, what => interrupted id what ch s
  | _, _ => Fault
  end.

Inductive mevent :=
| Call (c : caller) (id : Z) (what : call)
| Run (i : nat)
| Interrupt (i : nat)
| Tick (now : Z).

Definition mexec (e : mevent) (m : mmach) : run mmach :=
  match e with
  | Call c id what => Ret (Mmach (m_sys m) (m_threads m ++ [Thread c id what Start]))
  | Run i =>
      match m_threads m !! i with
      | Some t =>
          let* (p, s) := advance t (m_sys m) in
          Ret (Mmach (set_bcasts [] s) (<[i := set_pc p t]> (wake_thread (bcasts s) <$> m_threads m)))
      | None => Fault
      end
  | Interrupt i =>
      match m_threads m !! i with
      | Some t =>
          match t_pc t with
          | Sleep ch => Ret (Mmach (m_sys m) (<[i := set_pc (Intr ch) t]> (m_threads m)))
          | _ => Fault
          end
      | None => Fault
      end
  | Tick now => Ret (Mmach (set_hrestime now (m_sys m)) (m_threads m))
  end.
End Machine.
