(* ===== verification/MsgSafe.v ===== *)
(** * Message queues: safety of all interleavings ([uts/common/os/msg.c])

    The invariant of the machine of [MsgMachine], and what every piece of a call does to the messages and to those that sleep. *)

From S2P Require Import Prelude Bytes Rmap Sem Msg MsgInv MsgOps MsgCalls MsgMachine.

Section Safe.
(** [nosets]: no call changes the limit of a queue. *)
Context (mi : msginfo) (Hio : info_ok mi) (nosets : Prop).

#[local] Abbreviation gone := (msg_gone mi).
#[local] Abbreviation slot := (msg_slot mi).

(** ** The invariant *)

Definition pc_hs (p : pc) : list Z :=
  match p with SndMap _ mp | SndPut _ mp _ | SndOut1 _ mp _ | FreeHdr _ mp _ => [mp] | _ => [] end.
Definition pc_tx (p : pc) : list Z := match p with FreeText _ mp _ => [mp] | _ => [] end.
Definition pc_rm (p : pc) : list Z := match p with Purge q | FreeText q _ None | FreeHdr q _ None => [q] | _ => [] end.
Definition pc_us (what : call) (p : pc) : list Z := match p, what with SndPut _ _ spot, Snd r => own_units mi r spot | _, _ => [] end.

Definition no_set (cmd : msg_cmd) : Prop := match cmd with IPC_SET _ | IPC_O_SET _ => False | _ => True end.

Definition call_ok (what : call) : Prop :=
  match what with
  | Snd r => snd_args_ok r
  | Rcv r => rcvreq_ok r
  | Ctl cmd => cmd_ok cmd ∧ (nosets → no_set cmd)
  | Get _ _ => True
  end.

(** The queue of a call is there. *)
Definition live (s : msgsys) (id q : Z) : Prop :=
  q = slot id ∧ 0 ≤ id ∧ ∃ x, msgque s !! Z.to_nat q = Some x ∧ gone id x = false.

Definition waits (t : thread) (ch : chan) : Prop :=
  0 ≤ t_id t ∧
  match t_call t with
  | Snd r => sndreq_ok mi r ∧ match ch with Msg_cv q => q = slot (t_id t) | Msg_qnum_cv _ => False | _ => True end
  | Rcv r => rcvreq_ok r ∧ 0 ≤ r_msgsz r ∧ ch = Msg_qnum_cv (slot (t_id t))
  | _ => False
  end.

Definition map_full (s : msgsys) (n : Z) : Prop := rmalloc_locked (msgmap s) n = Ret (msgmap s, 0).

(** A thread that sleeps could not go on. *)
Definition asleep (s : msgsys) (t : thread) (ch : chan) : Prop :=
  match ch, t_call t with
  | Msg_qnum_cv q, Rcv r => ∃ x l, msgque s !! Z.to_nat q = Some x ∧ contents mi s !! Z.to_nat q = Some l ∧
      has (mode (msg_perm x)) MSG_RWAIT = true ∧ Forall (λ m, ¬ wanted (r_typ r) m) l
  | Msg_cv q, Snd r => ∃ x, msgque s !! Z.to_nat q = Some x ∧ has (mode (msg_perm x)) MSG_WWAIT = true ∧ (nosets → no_room x (n_msgsz r) = true)
  | Msgfp_cv, Snd _ => msgfp s = NULL
  | Map_cv, Snd r => m_want (msgmap s) ≠ 0 ∧ 0 < n_msgsz r ∧ map_full s (btoq mi (n_msgsz r))
  | _, _ => False
  end.

Definition thread_ok (s : msgsys) (t : thread) : Prop :=
  in_s32 (t_id t) ∧
  match t_pc t with
  | Start => call_ok (t_call t)
  | SndMap q _ | SndPut q _ _ | SndOut1 q _ _ => live s (t_id t) q ∧ ∃ r, t_call t = Snd r ∧ sndreq_ok mi r
  | FreeText q _ k | FreeHdr q _ k =>
      live s (t_id t) q ∧ match k with Some rep => ∃ r type text, t_call t = Rcv r ∧ rep = MMsg type text | None => t_call t = Ctl IPC_RMID end
  | Purge q => live s (t_id t) q ∧ t_call t = Ctl IPC_RMID
  | Sleep ch => waits t ch ∧ asleep s t ch
  | Woken ch | Intr ch => waits t ch
  | Finished _ => True
  end.

Record minv (m : mmach) : Prop := {
  mv_bcasts : bcasts (m_sys m) = [];
  mv_locks : NoDup (omap holds (m_threads m));
  mv_threads : Forall (thread_ok (m_sys m)) (m_threads m);
  mv_sys : ∃ qs, msg_inv mi (m_sys m) (m_threads m ≫= λ t, pc_hs (t_pc t)) (m_threads m ≫= λ t, pc_tx (t_pc t))
    (m_threads m ≫= λ t, pc_us (t_call t) (t_pc t)) qs (m_threads m ≫= λ t, pc_rm (t_pc t))
}.

(** ** What a piece leaves alone *)

(** [h] is the queue that the piece has the lock of. *)
Record frame (h : option Z) (s s' : msgsys) : Prop := {
  fr_q : ∀ q x l, 0 ≤ q → msgque s !! Z.to_nat q = Some x → contents mi s !! Z.to_nat q = Some l →
    ∃ x' l', msgque s' !! Z.to_nat q = Some x' ∧ contents mi s' !! Z.to_nat q = Some l' ∧
      (h ≠ Some q → ∀ id, gone id x = false → gone id x' = false) ∧
      (has (mode (msg_perm x)) MSG_RWAIT = true →
         Msg_qnum_cv q ∈ bcasts s' ∨ has (mode (msg_perm x')) MSG_RWAIT = true ∧ ∀ m, m ∈ l' → m ∈ l) ∧
      (has (mode (msg_perm x)) MSG_WWAIT = true →
         Msg_cv q ∈ bcasts s' ∨ has (mode (msg_perm x')) MSG_WWAIT = true ∧
           (nosets → ∀ cnt, 0 ≤ cnt ≤ msgmax mi → no_room x cnt = true → no_room x' cnt = true));
  fr_fp : msgfp s = NULL → Msgfp_cv ∈ bcasts s' ∨ msgfp s' = NULL;
  fr_map : m_want (msgmap s) ≠ 0 → Map_cv ∈ bcasts s' ∨ m_want (msgmap s') ≠ 0 ∧ ∀ n, 0 < n < 2 ^ 31 → map_full s n → map_full s' n
}.

Lemma contents_len s q x : msgque s !! q = Some x → ∃ l, contents mi s !! q = Some l.
Proof using Type. intros Hx. unfold contents. rewrite list_lookup_fmap, Hx. by eexists. Qed.

Lemma btoq_bound r : sndreq_ok mi r → 0 < n_msgsz r → 0 < btoq mi (n_msgsz r) < 2 ^ 31.
Proof using Hio.
  intros [Hsz _ _] Hn. destruct (btoq_pos mi (n_msgsz r)); [apply Hio|done|]. split; [done|]. unfold btoq. destruct Hio. apply Z.div_lt_upper_bound; nia.
Qed.

(** A thread at another place. *)
Lemma thread_frame h s s' t : frame h s s' → thread_ok s t → (∀ q, holds t = Some q → h ≠ Some q) →
  thread_ok (set_bcasts [] s') (wake_thread (bcasts s') t).
Proof using Hio.
  intros Hf [Hid Ht] Hh. split; [done|]. destruct t as [c id what p]. unfold wake_thread, set_pc, holds in *. simpl in *.
  assert (∀ q, Some q = match p with SndMap q _ | SndPut q _ _ | SndOut1 q _ _ | FreeText q _ _ | FreeHdr q _ _ | Purge q => Some q | _ => None end →
    live s id q → live (set_bcasts [] s') id q) as Hlive.
  { intros q Hq (-> & H0 & x & Hx & Hg). split; [done|]. split; [done|]. simpl. destruct (contents_len _ _ _ Hx) as [l Hl].
    destruct (fr_q _ _ _ Hf (slot id) x l) as (x' & l' & Hx' & _ & Hg' & _); [by apply slot_range|done|done|]. exists x'. split; [done|].
    apply Hg'; [|done]. by apply Hh. }
  destruct p as [|q mp|q mp spot|q mp e|q mp k|q mp k|q|ch|ch|ch|rep]; simpl; try done;
    try (destruct Ht as [Hl ?]; split; [by apply Hlive|done]).
  destruct Ht as [Hw Ha]. destruct (bool_decide (ch ∈ bcasts s')) eqn:Eb; [done|]. apply bool_decide_eq_false in Eb. split; [done|].
  destruct Hw as [H0 Hw]. simpl in H0, Hw. unfold asleep in *. simpl in *. destruct ch as [q|q| |], what as [r|r|cmd|k f]; try done.
  - destruct Ha as (x & Hx & Hb & Hn). destruct Hw as [Hr ->]. destruct (contents_len _ _ _ Hx) as [l Hl].
    destruct (fr_q _ _ _ Hf (slot id) x l) as (x' & l' & Hx' & _ & _ & _ & Hw'); [by apply slot_range|done|done|].
    destruct (Hw' Hb) as [?|[Hb' Hn']]; [done|]. exists x'. split; [done|]. split; [done|]. intros H. apply Hn'; [done|apply Hr|by apply Hn].
  - destruct Ha as (x & l & Hx & Hl & Hb & Hn). destruct Hw as (_ & _ & [= ->]).
    destruct (fr_q _ _ _ Hf (slot id) x l) as (x' & l' & Hx' & Hl' & _ & Hw' & _); [by apply slot_range|done|done|].
    destruct (Hw' Hb) as [?|[Hb' Hsub]]; [done|]. exists x', l'. split_and!; [done..|]. rewrite Forall_forall in Hn |- *. intros m Hm. by apply Hn, Hsub.
  - by destruct (fr_fp _ _ _ Hf Ha).
  - destruct Ha as (Hm & Hpos & Hfull). destruct (fr_map _ _ _ Hf Hm) as [?|[Hm' Hk]]; [done|]. split; [done|]. split; [done|].
    apply (Hk _ (btoq_bound r (proj1 Hw) Hpos) Hfull).
Qed.

(** Pieces that change no queue. *)
Lemma frame_same s s' h : msgque s' = msgque s → contents mi s' = contents mi s →
  (msgfp s = NULL → Msgfp_cv ∈ bcasts s' ∨ msgfp s' = NULL) →
  (m_want (msgmap s) ≠ 0 → Map_cv ∈ bcasts s' ∨ m_want (msgmap s') ≠ 0 ∧ ∀ n, 0 < n < 2 ^ 31 → map_full s n → map_full s' n) → frame h s s'.
Proof using Type.
  intros Eq Ec Hf Hm. split; [|done|done]. intros q x l Hq Hx Hl. exists x, l. rewrite Eq, Ec. split; [done|]. split; [done|].
  split; [done|]. split; intros Hb; right; [done|]. by split.
Qed.

Lemma qframe_refl h s : frame h s s.
Proof using Type. apply frame_same; [done|done|by right|]. intros H. right. by split. Qed.

(** Pieces that change one queue. *)
Lemma qframe_upd s s' h q x x' l l' : 0 ≤ q → msgque s !! Z.to_nat q = Some x → contents mi s !! Z.to_nat q = Some l →
  msgque s' = <[Z.to_nat q := x']> (msgque s) → contents mi s' = <[Z.to_nat q := l']> (contents mi s) →
  msgfp s' = msgfp s → msgmap s' = msgmap s →
  (h ≠ Some q → ∀ id, gone id x = false → gone id x' = false) →
  (has (mode (msg_perm x)) MSG_RWAIT = true → Msg_qnum_cv q ∈ bcasts s' ∨ has (mode (msg_perm x')) MSG_RWAIT = true ∧ ∀ m, m ∈ l' → m ∈ l) →
  (has (mode (msg_perm x)) MSG_WWAIT = true → Msg_cv q ∈ bcasts s' ∨ has (mode (msg_perm x')) MSG_WWAIT = true ∧
     (nosets → ∀ cnt, 0 ≤ cnt ≤ msgmax mi → no_room x cnt = true → no_room x' cnt = true)) → frame h s s'.
Proof using Type.
  intros Hq Hx Hl Eq Ec Ef Em Hg Hr Hw. split.
  - intros q' y l1 Hq' Hy Hl1. rewrite Eq, Ec. destruct (decide (q' = q)) as [->|Hne].
    + simplify_eq. exists x', l'. rewrite !list_lookup_insert_eq by (by eapply lookup_lt_Some). by split_and!.
    + exists y, l1. rewrite !list_lookup_insert_ne by lia. split; [done|]. split; [done|]. split; [done|]. split; intros Hb; right; [done|]. by split.
  - rewrite Ef. by right.
  - rewrite Em. intros H. right. split; [done|]. intros n Hn. unfold map_full. by rewrite Em.
Qed.

(** ** The messages after a piece *)

Lemma contents_upd s s' hs tx us qs rm hs' tx' us' rm' q ps' : msg_inv mi s hs tx us qs rm → msg_inv mi s' hs' tx' us' (<[q := ps']> qs) rm' →
  same_msgs mi s s' (concat qs) → contents mi s' = <[q := message_at mi (msgh s') (pool s') <$> ps']> (contents mi s).
Proof using Type.
  intros Hi Hi' Hs. rewrite (contents_inv _ _ _ _ _ _ _ Hi), (contents_inv _ _ _ _ _ _ _ Hi'), list_fmap_insert. f_equal.
  apply list_eq. intros i. rewrite !list_lookup_fmap. destruct (qs !! i) as [ps|] eqn:Hps; [|done]. simpl. f_equal.
  apply list_fmap_ext. intros j p Hp. apply Hs. eapply elem_of_concat; [exact Hps|by eapply list_elem_of_lookup_2].
Qed.

Lemma contents_same s s' hs tx us qs rm hs' tx' us' rm' : msg_inv mi s hs tx us qs rm → msg_inv mi s' hs' tx' us' qs rm' →
  same_msgs mi s s' (concat qs) → contents mi s' = contents mi s.
Proof using Type.
  intros Hi Hi' Hs. rewrite (contents_inv _ _ _ _ _ _ _ Hi), (contents_inv _ _ _ _ _ _ _ Hi').
  apply list_eq. intros i. rewrite !list_lookup_fmap. destruct (qs !! i) as [ps|] eqn:Hps; [|done]. simpl. f_equal.
  apply list_fmap_ext. intros j p Hp. apply Hs. eapply elem_of_concat; [exact Hps|by eapply list_elem_of_lookup_2].
Qed.

Lemma contents_at s hs tx us qs rm q ps : msg_inv mi s hs tx us qs rm → qs !! q = Some ps →
  contents mi s !! q = Some (message_at mi (msgh s) (pool s) <$> ps).
Proof using Type. intros Hi Hps. rewrite (contents_inv _ _ _ _ _ _ _ Hi), list_lookup_fmap, Hps. done. Qed.

(** ** The pieces *)

(** What is common to the results: the invariant, the messages, and what others see. *)
Record piece (h : option Z) (s s' : msgsys) (hs tx us : list Z) (qs : list (list Z)) (rm : list Z) : Prop := {
  pi_inv : msg_inv mi s' hs tx us qs rm;
  pi_frame : frame h s s'
}.

Lemma p_put_hdr h s hs tx us qs rm mp : msg_inv mi s (mp :: hs) tx us qs rm →
  ∃ s', put_hdr mp s = Ret s' ∧ piece h s s' hs tx us qs rm ∧ contents mi s' = contents mi s ∧ msgque s' = msgque s ∧ msgmap s' = msgmap s ∧
    ∀ ch, ch ∈ bcasts s → ch ∈ bcasts s'.
Proof using Type.
  intros Hi. destruct (put_hdr_ok _ _ _ _ _ _ _ _ Hi) as (h' & He & Hi' & Hpos & Hsb). rewrite He. eexists. split; [reflexivity|].
  assert (∀ b, contents mi (set_bcasts b (set_msgfp mp (set_msgh h' s))) = contents mi s) as Hc.
  { intros b. eapply contents_same; [exact Hi|apply Hi'|]. intros p Hp. by eapply same_bodies_message. }
  destruct (Z.eqb_spec (msgfp s) NULL) as [E|Hne].
  - split; [split; [apply (Hi' (Msgfp_cv :: bcasts s))|]|].
    + apply frame_same; [done|apply (Hc (Msgfp_cv :: bcasts s))|intros _; left; left|]. intros Hm. right. by split.
    + split; [apply (Hc (Msgfp_cv :: bcasts s))|]. split; [done|]. split; [done|]. intros ch Hch. by right.
  - split; [split; [apply (Hi' (bcasts s))|]|].
    + apply frame_same; [done|apply (Hc (bcasts s))|done|]. intros Hm. right. by split.
    + split; [apply (Hc (bcasts s))|]. by split_and!.
Qed.

Lemma freed_frame h s m : contents mi (freed_state m s) = contents mi s ∧ msgque (freed_state m s) = msgque s ∧ frame h s (freed_state m s).
Proof using Type.
  unfold freed_state. destruct (truthy (m_want (msgmap s))) eqn:E; (split; [done|]; split; [done|]); apply frame_same; try done; try by right.
  - intros _. left. left.
  - intros H. by apply truthy_false in E.
Qed.

Lemma p_free_text h s hs tx us qs rm mp : msg_inv mi s hs (mp :: tx) us qs rm →
  ∃ s', msgfree_text mi mp s = Ret s' ∧ piece h s s' (mp :: hs) tx us qs rm ∧ contents mi s' = contents mi s ∧ msgque s' = msgque s.
Proof using Hio.
  intros Hi. destruct (msgfree_text_ok _ Hio _ _ _ _ _ _ _ Hi) as (s' & He & Hs & Hi'). exists s'. split; [done|].
  destruct Hs as [->|(m & -> & Hw)].
  - split; [by split; [|apply qframe_refl]|done].
  - destruct (freed_frame h s m) as (E1 & E2 & E3). by split; [split|].
Qed.

(** A queue of the same list. *)
Lemma p_set h s hs tx us qs rm q x x' ps : msg_inv mi s hs tx us qs rm → 0 ≤ q → msgque s !! Z.to_nat q = Some x → qs !! Z.to_nat q = Some ps →
  msg_inv mi (upd (msgh s) x' q s) hs tx us qs rm →
  (h ≠ Some q → ∀ id, gone id x = false → gone id x' = false) →
  (has (mode (msg_perm x)) MSG_RWAIT = true → has (mode (msg_perm x')) MSG_RWAIT = true) →
  (has (mode (msg_perm x)) MSG_WWAIT = true → has (mode (msg_perm x')) MSG_WWAIT = true ∧
     (nosets → ∀ cnt, 0 ≤ cnt ≤ msgmax mi → no_room x cnt = true → no_room x' cnt = true)) →
  piece h s (upd (msgh s) x' q s) hs tx us qs rm ∧ contents mi (upd (msgh s) x' q s) = contents mi s.
Proof using Type.
  intros Hi Hq Hx Hps Hi' Hg Hr Hw. assert (contents mi (upd (msgh s) x' q s) = contents mi s) as Hc by (eapply contents_same; [exact Hi|exact Hi'|done]).
  split; [|done]. split; [done|]. pose proof (contents_at _ _ _ _ _ _ _ _ Hi Hps) as Hl.
  eapply (qframe_upd _ _ _ q x x'); [done|done|exact Hl|done|rewrite Hc; by rewrite list_insert_id|done|done|done|..].
  - intros H. right. split; [by apply Hr|done].
  - intros H. right. by apply Hw.
Qed.

Lemma requeued_gone b x x' id `{!IsBit b} : requeued b x x' → (b =? IPC_ALLOC) = false → gone id x = false → gone id x' = false.
Proof using Type.
  intros [Hm _ Hs _] Hne. rewrite !msg_gone_false. intros [Ha E]. rewrite Hs. split; [|done]. rewrite (Hm IPC_ALLOC) by apply _.
  by rewrite Hne.
Qed.

(** [msgfree_unlink]: the message leaves the queue, and all that wait to send are woken. *)
Lemma p_unlink h s hs tx us qs rm q x x0 l1 mp l2 : msg_inv mi s hs tx us qs rm → 0 ≤ q → msgque s !! Z.to_nat q = Some x →
  qs !! Z.to_nat q = Some (l1 ++ mp :: l2) → msg_perm x0 = msg_perm x → msg_qbytes x0 = msg_qbytes x → msg_first x0 = msg_first x →
  msg_last x0 = msg_last x → msg_qnum x0 = msg_qnum x → (q ∉ rm → msg_cbytes x0 = sumz (ts_at (msgh s)) (l1 ++ l2)) →
  ∃ s' x', msgfree_unlink q (default 0 (last l1)) mp (upd (msgh s) x0 q s) = Ret s' ∧
    piece h s s' hs (mp :: tx) us (<[Z.to_nat q := l1 ++ l2]> qs) rm ∧
    contents mi s' = <[Z.to_nat q := message_at mi (msgh s) (pool s) <$> (l1 ++ l2)]> (contents mi s) ∧
    msgque s' !! Z.to_nat q = Some x' ∧ ∀ id, gone id x = false → gone id x' = false.
Proof using Hio.
  intros Hi Hq Hx Hps E1 E2 E3 E4 E5 Ecb.
  destruct (msg_unlink_ok _ Hio _ _ _ _ _ _ _ _ _ _ _ _ Hi Hq Hx Hps E1 E2 E3 E4 E5 Ecb) as (h' & x' & He & Hrq & Hsb & Hi').
  set (s' := if has _ MSG_WWAIT then _ else _) in He. exists s', x'. split; [done|].
  assert (msgque s' = <[Z.to_nat q := x']> (msgque s) ∧ msgh s' = h' ∧ pool s' = pool s ∧ msgfp s' = msgfp s ∧ msgmap s' = msgmap s)
    as (Eq & Eh & Ep & Ef & Em) by (subst s'; by destruct (has _ _)).
  assert (msg_inv mi s' hs (mp :: tx) us (<[Z.to_nat q := l1 ++ l2]> qs) rm) as Hi2 by (eapply inv_ext; [..|exact Hi']; by rewrite ?Eh).
  assert (∀ p, message_at mi (msgh s') (pool s') p = message_at mi (msgh s) (pool s) p) as Hmsg.
  { intros p. rewrite Eh, Ep. eapply same_bodies_message; [apply (Hsb [p])|left]. }
  assert (contents mi s' = <[Z.to_nat q := message_at mi (msgh s) (pool s) <$> (l1 ++ l2)]> (contents mi s)) as Hc.
  { rewrite (contents_upd _ _ _ _ _ _ _ _ _ _ _ _ _ Hi Hi2) by (intros p _; apply Hmsg). f_equal. apply list_fmap_ext. intros. apply Hmsg. }
  assert (∀ id, gone id x = false → gone id x' = false) as Hg by exact (λ id, requeued_gone MSG_WWAIT x x' id Hrq eq_refl).
  split; [split; [done|]|].
  - eapply (qframe_upd _ _ _ q x x'); [done|done|by eapply contents_at|done|exact Hc|done|done|done|..].
    + intros Hr. right. rewrite (rq_mode _ _ _ Hrq MSG_RWAIT) by apply _. split; [done|]. intros m. rewrite !fmap_app, fmap_cons, !elem_of_app, elem_of_cons. tauto.
    + intros Hw. left. subst s'. rewrite Hw. left.
  - split; [done|]. split; [|done]. rewrite Eq. apply list_lookup_insert_eq. by eapply lookup_lt_Some.
Qed.

(** ** What a piece of a call does to the messages *)

Definition effect (t : thread) (p' : pc) (A A' : list (list (Z * list Z))) : Prop :=
  let q := Z.to_nat (slot (t_id t)) in
  match t_call t, p' with
  | Snd r, Finished (MNum _) => ∃ l, A !! q = Some l ∧ A' = <[q := l ++ [(snd_type r, snd_text r)]]> A
  | Rcv r, FreeText _ _ (Some (MMsg type text)) =>
      ∃ l1 m l2, A !! q = Some (l1 ++ m :: l2) ∧ chosen (r_typ r) l1 m l2 ∧ type = m.1 ∧ text = take (Z.to_nat (r_msgsz r)) m.2 ∧
        (zlen m.2 ≤ r_msgsz r ∨ has (r_flg r) MSG_NOERROR = true) ∧ A' = <[q := l1 ++ l2]> A
  | Rcv r, (Sleep _ | Finished (MErr ENOMSG)) => A' = A ∧ ∃ l, A !! q = Some l ∧ Forall (λ m, ¬ wanted (r_typ r) m) l
  | Rcv r, Finished (MErr (Ipc E2BIG)) =>
      A' = A ∧ ∃ l1 m l2, A !! q = Some (l1 ++ m :: l2) ∧ chosen (r_typ r) l1 m l2 ∧ r_msgsz r < zlen m.2 ∧ has (r_flg r) MSG_NOERROR = false
  | Ctl IPC_RMID, FreeText _ _ None => ∃ m l, A !! q = Some (m :: l) ∧ A' = <[q := l]> A
  | Ctl IPC_RMID, Finished (MNum _) => A' = A ∧ A !! q = Some []
  | _, _ => A' = A
  end.

(** A thread at the place [p'] in the state [s'], with [hs], [tx], [us] and [rm] of the others. *)
Record advanced (t : thread) (p' : pc) (h : option Z) (s s' : msgsys) (hs tx us rm : list Z) : Prop := {
  av_inv : ∃ qs, msg_inv mi s' (pc_hs p' ++ hs) (pc_tx p' ++ tx) (pc_us (t_call t) p' ++ us) qs (pc_rm p' ++ rm);
  av_frame : frame h s s';
  av_thread : thread_ok (set_bcasts [] s') (set_pc p' t);
  av_effect : effect t p' (contents mi s) (contents mi s');
  av_holds : ∀ q, holds (set_pc p' t) = Some q → h = Some q
}.

Lemma advanced_finished t rep h s s' hs tx us qs rm : in_s32 (t_id t) → msg_inv mi s' hs tx us qs rm → frame h s s' →
  effect t (Finished rep) (contents mi s) (contents mi s') → advanced t (Finished rep) h s s' hs tx us rm.
Proof using Type. intros Hid Hi Hf He. split; [by exists qs|done|by split|done|done]. Qed.

Lemma frame_none h s s' : frame None s s' → frame h s s'.
Proof using Type.
  intros [H1 H2 H3]. split; [|done|done]. intros q x l Hq Hx Hl. destruct (H1 q x l Hq Hx Hl) as (x' & l' & ? & ? & Hg & ?).
  exists x', l'. split_and!; try done; [|tauto..]. intros _. by apply Hg.
Qed.

(** [getres]. *)
Lemma snd_go_ok c id r s hs tx us qs rm : let q := slot id in let t := λ p, Thread c id (Snd r) p in
  msg_inv mi s hs tx us qs rm → in_s32 id → live s id q → sndreq_ok mi r → ∀ p0,
  ∃ p' s', snd_go q r s = Ret (p', s') ∧ advanced (t p0) p' (Some q) s s' hs tx us rm.
Proof using Hio.
  intros q t Hi Hid Hlive Hr p0. pose proof Hlive as (_ & H0 & x & Hx & Hg). pose proof (slot_range _ Hio id) as Hq. fold q in Hq.
  destruct (inv_lookup _ _ _ _ _ _ _ _ _ Hi Hx) as [ps Hps]. unfold snd_go, msgsnd_getres. rewrite (get_q_ok _ _ _ (proj1 Hq) Hx). cbn [rbind].
  fold (no_room x (n_msgsz r)). destruct (no_room x (n_msgsz r)) eqn:Er.
  - destruct (has (n_flg r) IPC_NOWAIT).
    { eexists _, s. split; [reflexivity|]. eapply advanced_finished; [done|done|apply qframe_refl|done]. }
    rewrite (mod_q_ok _ _ _ _ (proj1 Hq) Hx). cbn [rbind]. eexists _, _. split; [reflexivity|].
    set (x' := set_mmode _ x). change (set_que (<[Z.to_nat q := x']> (msgque s)) s) with (upd (msgh s) x' q s).
    assert (∀ b, IsBit b → has (mode (msg_perm x')) b = (MSG_WWAIT =? b) || has (mode (msg_perm x)) b) as Hm by (intros b Hb; simpl; by rewrite has_set by apply _).
    assert (∀ id, gone id x = false → gone id x' = false) as Hg'.
    { intros i. rewrite !msg_gone_false. rewrite Hm by apply _. done. }
    assert (msg_inv mi (upd (msgh s) x' q s) hs tx us qs rm) as Hi'.
    { apply inv_ext with (s := set_que (<[Z.to_nat q := x']> (msgque s)) s); try done. eapply inv_set_que; [done|lia|done|done| |done].
      destruct (mi_q _ _ _ _ _ _ _ Hi q x ps (proj1 Hq) Hx Hps). split; try done. rewrite Hm by apply _. simpl. intros Ha.
      apply msg_gone_false in Hg as [Hg _]. congruence. }
    destruct (p_set (Some q) _ _ _ _ _ _ _ _ _ _ Hi (proj1 Hq) Hx Hps Hi') as [[_ Hf] Hc].
    + done.
    + intros Hb. rewrite Hm, Hb by apply _. done.
    + intros Hb. rewrite Hm, Hb by apply _. split; [done|]. intros _ cnt _ Hn. exact Hn.
    + split; [by exists qs|done| |by simpl; rewrite Hc|done]. split; [done|]. split; [by split; [|split]|].
      simpl. exists x'. split; [apply list_lookup_insert_eq; by eapply lookup_lt_Some|]. rewrite Hm by apply _. split; [done|]. intros _. done.
  - destruct (Z.eqb_spec (msgfp s) NULL) as [Ef|Hne].
    + destruct (has (n_flg r) IPC_NOWAIT); (eexists _, s; split; [reflexivity|]).
      * eapply advanced_finished; [done|done|apply qframe_refl|done].
      * split; [by exists qs|apply qframe_refl| |done|done]. split; [done|]. by split.
    + destruct (getres_hdr _ _ _ _ _ _ _ Hi Hne) as (m & Hm & Hi'). rewrite Hm. cbn [rbind]. eexists _, _. split; [reflexivity|].
      split; [by exists qs| | | |by intros q' [= <-]].
      * apply frame_same; [done|done|done|]. intros H. right. by split.
      * split; [done|]. split; [by split; [|split; [|exists x]]|]. by exists r.
      * done.
Qed.

(** [findmsg]. *)
Lemma rcv_go_ok c id r s hs tx us qs rm : let q := slot id in let t := λ p, Thread c id (Rcv r) p in
  msg_inv mi s hs tx us qs rm → in_s32 id → live s id q → rcvreq_ok r → 0 ≤ r_msgsz r → q ∉ rm → ∀ p0,
  ∃ p' s', rcv_go mi c q r s = Ret (p', s') ∧ advanced (t p0) p' (Some q) s s' hs tx us rm.
Proof using Hio.
  intros q t Hi Hid Hlive Hr Hsz Hrm p0. pose proof Hlive as (_ & H0 & x & Hx & Hg). pose proof (slot_range _ Hio id) as Hq. fold q in Hq.
  destruct (inv_lookup _ _ _ _ _ _ _ _ _ Hi Hx) as [ps Hps]. pose proof (contents_at _ _ _ _ _ _ _ _ Hi Hps) as Hl. unfold rcv_go.
  destruct (rcv_find_ok _ Hio c _ _ _ _ _ _ _ _ _ r Hi (proj1 Hq) Hx Hps Hrm) as [[Hn ->]|(l1 & mp & l2 & -> & Hch & Hcases)]; [destruct Hr as [[_ ?] _]; lia|apply Hr|..].
  - destruct (has (r_flg r) IPC_NOWAIT); cbn [rbind].
    { eexists _, s. split; [reflexivity|]. eapply advanced_finished; [done|done|apply qframe_refl|]. simpl. split; [done|]. by eexists. }
    eexists _, _. split; [reflexivity|]. set (x' := set_mmode _ x).
    assert (∀ b, IsBit b → has (mode (msg_perm x')) b = (MSG_RWAIT =? b) || has (mode (msg_perm x)) b) as Hm by (intros b Hb; simpl; by rewrite has_set by apply _).
    assert (msg_inv mi (upd (msgh s) x' q s) hs tx us qs rm) as Hi'.
    { apply inv_ext with (s := set_que (<[Z.to_nat q := x']> (msgque s)) s); try done. eapply inv_set_que; [done|lia|done|done| |done].
      destruct (mi_q _ _ _ _ _ _ _ Hi q x ps (proj1 Hq) Hx Hps). split; try done. rewrite Hm by apply _. simpl. intros Ha.
      apply msg_gone_false in Hg as [Hg _]. congruence. }
    destruct (p_set (Some q) _ _ _ _ _ _ _ _ _ _ Hi (proj1 Hq) Hx Hps Hi') as [[_ Hf] Hc].
    + done.
    + intros Hb. rewrite Hm, Hb by apply _. done.
    + intros Hb. rewrite Hm, Hb by apply _. split; [done|]. intros _ cnt _ Hno. exact Hno.
    + split; [by exists qs|done| |simpl; rewrite Hc; split; [done|]; by eexists|done]. split; [done|]. split; [by split|].
      simpl. exists x', (message_at mi (msgh s) (pool s) <$> ps). split; [apply list_lookup_insert_eq; by eapply lookup_lt_Some|].
      split; [|split; [by rewrite Hm by apply _|done]]. change (contents mi (upd (msgh s) x' q s) !! Z.to_nat q = Some (message_at mi (msgh s) (pool s) <$> ps)).
      by rewrite Hc.
  - destruct Hcases as [(Hlt & Hno & ->)|[[_ ->]|(Hfit & x0 & -> & E1 & E2 & E3 & E4 & E5 & Ecb)]]; cbn [rbind].
    + eexists _, s. split; [reflexivity|]. eapply advanced_finished; [done|done|apply qframe_refl|]. simpl. split; [done|].
      rewrite fmap_app, fmap_cons in Hl. eexists _, _, _. split; [exact Hl|]. by split_and!.
    + eexists _, s. split; [reflexivity|]. eapply advanced_finished; [done|done|apply qframe_refl|done].
    + destruct (p_unlink (Some q) _ _ _ _ _ _ _ _ _ _ _ _ Hi (proj1 Hq) Hx Hps E1 E2 E3 E4 E5 (λ _, Ecb)) as (s' & x' & He & [Hi' Hf] & Hc & Hx' & Hg').
      rewrite He. cbn [rbind]. eexists _, s'. split; [reflexivity|]. split; [by eexists|done| | |by intros q' [= <-]].
      * split; [done|]. split; [|by eexists _, _, _]. split; [done|]. split; [done|]. exists x'. split; [done|by apply Hg'].
      * simpl. rewrite fmap_app, fmap_cons in Hl. eexists _, _, _. split; [exact Hl|]. split; [done|]. split; [done|]. split; [done|]. split; [done|].
        by rewrite Hc, fmap_app.
Qed.

(** [msgsnd_map]. *)
Lemma snd_map_piece c id r s hs tx us qs rm q mp : let t := Thread c id (Snd r) (SndMap q mp) in
  msg_inv mi s (mp :: hs) tx us qs rm → in_s32 id → live s id q → sndreq_ok mi r → 0 ≤ m_want (msgmap s) < 2 ^ 32 - 1 →
  ∃ p' s', advance mi t s = Ret (p', s') ∧ advanced t p' (Some q) s s' hs tx us rm.
Proof using Hio.
  intros t Hi Hid Hlive Hr Hw. unfold advance. simpl.
  destruct (snd_map_ok _ Hio _ _ _ _ _ _ _ _ Hi (sr_size _ _ Hr)) as [(m & spot & -> & Hwant & Hfull & Hi')|(Hpos & Hf & ->)]; cbn [rbind].
  - eexists _, _. split; [reflexivity|]. split; [by exists qs| | |done|by intros q' [= <-]].
    + apply frame_same; [done|done|by right|]. intros Hne. right. simpl. rewrite Hwant. split; [done|]. intros n Hn Hmf. by apply Hfull.
    + split; [done|]. by split; [|exists r].
  - destruct (has (n_flg r) IPC_NOWAIT); cbn [rbind].
    + eexists _, s. split; [reflexivity|]. split; [by exists qs|apply qframe_refl| |done|by intros q' [= <-]]. split; [done|]. by split; [|exists r].
    + set (s1 := set_msgmap _ s).
      assert (msg_inv mi s1 (mp :: hs) tx us qs rm) as Hi1.
      { destruct (mi_text _ _ _ _ _ _ _ Hi) as (segs & [T1 T2 T3 T4 T5 T6 T7]). eapply (inv_text _ _ _ _ _ _ _ _ segs Hi); [done|]. split; done. }
      destruct (p_put_hdr (Some q) _ _ _ _ _ _ _ Hi1) as (s' & -> & [Hi' Hfr] & Hc & Hque & Hmap & _). cbn [rbind].
      assert (w32 (m_want (msgmap s) + 1) = m_want (msgmap s) + 1) as Ew by (apply w32_id; unfold in_u32; lia).
      assert (∀ n, map_full s n → map_full s1 n) as Hmf.
      { intros n. unfold map_full, s1. simpl. unfold rmalloc_locked. destruct (msgmap s) as [f w h l]. simpl.
        destruct (rmalloc_scan n l) as [[[[a fr] l']|]| |]; simpl; try done.
        destruct fr; intros H; injection H; intros; unfold set_m_free, set_m_map, set_m_want; simpl; congruence. }
      eexists _, s'. split; [reflexivity|]. split; [by exists qs| | | |done].
      * destruct Hfr as [F1 F2 F3]. split; [exact F1|exact F2|]. intros Hne. right. rewrite Hmap. simpl. split; [lia|]. intros n Hn Hfl.
        unfold map_full. rewrite Hmap. by apply Hmf.
      * split; [done|]. split; [split; [apply Hlive|by split]|]. simpl. rewrite Hmap. simpl. split; [lia|]. split; [done|].
        unfold map_full. simpl. rewrite Hmap. by apply Hmf.
      * exact Hc.
Qed.

(** [msgsnd_put]. *)
Lemma snd_put_piece c id r s hs tx us qs rm q mp spot : let t := Thread c id (Snd r) (SndPut q mp spot) in
  msg_inv mi s (mp :: hs) tx (own_units mi r spot ++ us) qs rm → in_s32 id → live s id q → sndreq_ok mi r → q ∉ rm →
  ∃ p' s', advance mi t s = Ret (p', s') ∧ advanced t p' (Some q) s s' hs tx us rm.
Proof using Hio.
  intros t Hi Hid Hlive Hr Hrm. pose proof Hlive as (-> & H0 & x & Hx & Hg). pose proof (slot_range _ Hio id) as Hq.
  destruct (inv_lookup _ _ _ _ _ _ _ _ _ Hi Hx) as [ps Hps]. pose proof (proj1 (proj1 (msg_gone_false _ _ _) Hg)) as Ha.
  pose proof (contents_at _ _ _ _ _ _ _ _ Hi Hps) as Hl. unfold advance. simpl.
  destruct (snd_put_ok _ Hio c _ _ _ _ _ _ _ _ _ _ _ _ Hi Hr (proj1 Hq) Hx Hps Ha Hrm) as [(m & -> & _ & Hi')|(txt & h' & x' & He & Hrq & Hcb & Hkeep & Hmp & Hi')].
  - cbn [rbind]. destruct (freed_frame (Some (slot id)) s m) as (E1 & E2 & E3). eexists _, _. split; [reflexivity|].
    split; [by exists qs|done| |by simpl|by intros q' [= <-]]. split; [done|]. split; [|by exists r]. split; [done|]. split; [done|]. exists x. split; [rewrite <-Hx; exact (f_equal (λ l, l !! Z.to_nat (slot id)) E2)|done].
  - rewrite He. cbn [rbind]. set (s' := if has _ MSG_RWAIT then _ else _). eexists _, s'. split; [reflexivity|].
    assert (msgque s' = <[Z.to_nat (slot id) := x']> (msgque s) ∧ msgh s' = h' ∧ pool s' = txt ∧ msgfp s' = msgfp s ∧ msgmap s' = msgmap s)
      as (Eq & Eh & Ep & Ef & Em) by (subst s'; destruct (has (mode (msg_perm x)) MSG_RWAIT); split_and!; reflexivity).
    assert (msg_inv mi s' hs tx us (<[Z.to_nat (slot id) := ps ++ [mp]]> qs) rm) as Hi2 by (eapply inv_ext; [..|exact Hi']; by rewrite ?Eh, ?Ep).
    assert (contents mi s' = <[Z.to_nat (slot id) := (message_at mi (msgh s) (pool s) <$> ps) ++ [(snd_type r, snd_text r)]]> (contents mi s)) as Hc.
    { rewrite (contents_upd _ _ _ _ _ _ _ _ _ _ _ _ _ Hi Hi2).
      - f_equal. rewrite fmap_app, Eh, Ep. simpl. rewrite Hmp. f_equal. apply list_fmap_ext. intros j p Hp. apply Hkeep. apply elem_of_app. left.
        eapply elem_of_concat; [exact Hps|by eapply list_elem_of_lookup_2].
      - intros p Hp. rewrite Eh, Ep. apply Hkeep. apply elem_of_app. by left. }
    eapply advanced_finished; [done|exact Hi2| |by exists (message_at mi (msgh s) (pool s) <$> ps)].
    eapply (qframe_upd _ _ _ (slot id) x x'); [lia|done|exact Hl|done|exact Hc|done|done|done|..].
    + intros Hb. left. subst s'. rewrite Hb. left.
    + intros Hb. right. rewrite (rq_mode _ _ _ Hrq MSG_WWAIT) by apply _. split; [done|]. intros _ cnt Hcnt. unfold no_room. rewrite (rq_bytes _ _ _ Hrq).
      pose proof (mi_q _ _ _ _ _ _ _ Hi _ x ps (proj1 Hq) Hx Hps) as K. destruct (mi_text _ _ _ _ _ _ _ Hi) as (segs & Ht).
      destruct (concat_split _ _ _ Hps) as (rest & Hc1 & _).
      assert (0 ≤ msg_cbytes x ≤ msgseg mi * msgssz mi) as B1.
      { rewrite (qo_cb _ _ _ _ _ _ K) by done. eapply sumz_pool; [done|exact Ht|rewrite Hc1, <-app_assoc; reflexivity]. }
      destruct Hr as [Hsz _ _]. pose proof (io_pool _ Hio). pose proof (io_max _ Hio).
      rewrite Hcb, (w32_id (msg_cbytes x + n_msgsz r)), !(w32_id (cnt + _)) by (unfold in_u32; lia). rewrite !Z.ltb_lt. lia.
Qed.

(** A place in the middle of a call with the same queue and the same request. *)
Lemma live_same s s' id q b : msgque s' = msgque s → live s id q → live (set_bcasts b s') id q.
Proof using Type. intros E (-> & H0 & x & Hx & Hg). split; [done|]. split; [done|]. exists x. split; [|done]. change (msgque s' !! Z.to_nat (slot id) = Some x). by rewrite E. Qed.

(** [msgfree] for [msgrcv] and for [IPC_RMID]: the text. *)
Lemma free_text_piece c id what s hs tx us qs rm q mp k : let t := Thread c id what (FreeText q mp k) in
  msg_inv mi s hs (mp :: tx) us qs (pc_rm (FreeText q mp k) ++ rm) → thread_ok s t →
  ∃ p' s', advance mi t s = Ret (p', s') ∧ advanced t p' (Some q) s s' hs tx us rm.
Proof using Hio.
  intros t Hi (Hid & Hlive & Hk). simpl in *. destruct (p_free_text (Some q) _ _ _ _ _ _ _ Hi) as (s' & He & [Hi' Hf] & Hc & Hque).
  unfold advance. simpl. rewrite He. cbn [rbind]. eexists _, s'. split; [reflexivity|].
  split; [by exists qs|done| | |by intros q' [= <-]].
  - split; [done|]. split; [by eapply live_same|done].
  - unfold effect. simpl. by destruct what as [r|r|[]|k' f].
Qed.

(** The header: of a message that was freed, or of one that could not be sent. *)
Lemma free_hdr_piece c id what s hs tx us qs rm q mp k : let t := Thread c id what (FreeHdr q mp k) in
  msg_inv mi s (mp :: hs) tx us qs (pc_rm (FreeHdr q mp k) ++ rm) → thread_ok s t →
  ∃ p' s', advance mi t s = Ret (p', s') ∧ advanced t p' (Some q) s s' hs tx us rm.
Proof using Type.
  intros t Hi (Hid & Hlive & Hk). simpl in *. destruct (p_put_hdr (Some q) _ _ _ _ _ _ _ Hi) as (s' & He & [Hi' Hf] & Hc & Hque & _).
  unfold advance. simpl. rewrite He. cbn [rbind]. eexists _, s'. split; [reflexivity|]. destruct k as [rep|].
  - eapply advanced_finished; [done|done|done|]. destruct Hk as (r & type & text & -> & ->). done.
  - split; [by exists qs|done| |by subst t; rewrite Hk|by intros q' [= <-]]. split; [done|]. split; [by eapply live_same|done].
Qed.

Lemma snd_out1_piece c id r s hs tx us qs rm q mp e : let t := Thread c id (Snd r) (SndOut1 q mp e) in
  msg_inv mi s (mp :: hs) tx us qs rm → in_s32 id →
  ∃ p' s', advance mi t s = Ret (p', s') ∧ advanced t p' (Some q) s s' hs tx us rm.
Proof using Type.
  intros t Hi Hid. destruct (p_put_hdr (Some q) _ _ _ _ _ _ _ Hi) as (s' & He & [Hi' Hf] & Hc & _).
  unfold advance. simpl. rewrite He. cbn [rbind]. eexists _, s'. split; [reflexivity|]. by eapply advanced_finished.
Qed.

(** The loop of [IPC_RMID] and its end. *)
Lemma purge_piece c id s hs tx us qs rm q : let t := Thread c id (Ctl IPC_RMID) (Purge q) in
  msg_inv mi s hs tx us qs (q :: rm) → thread_ok s t →
  ∃ p' s', advance mi t s = Ret (p', s') ∧ advanced t p' (Some q) s s' hs tx us rm.
Proof using Hio.
  intros t Hi Ht. subst t. destruct Ht as (Hid & Hlive & _). simpl in *. pose proof Hlive as (-> & H0 & x & Hx & Hg). pose proof (slot_range _ Hio id) as Hq.
  destruct (inv_lookup _ _ _ _ _ _ _ _ _ Hi Hx) as [ps Hps]. pose proof (mi_q _ _ _ _ _ _ _ Hi _ x ps (proj1 Hq) Hx Hps) as Hok.
  pose proof (contents_at _ _ _ _ _ _ _ _ Hi Hps) as Hl.
  unfold advance. simpl. rewrite (get_q_ok _ _ _ (proj1 Hq) Hx). cbn [rbind]. destruct ps as [|mp ps].
  - rewrite (proj2 (hseg_null _ _ _ (qo_seg _ _ _ _ _ _ Hok)) eq_refl). cbn [Z.eqb NULL].
    destruct (rmid_ok _ Hio _ _ _ _ _ _ id x Hi) as (x' & b & He & Hm & Hr & Hw & Hb & Hi'); [unfold in_s32 in Hid; lia|done|done|done|].
    rewrite He. cbn [rbind]. eexists _, _. split; [reflexivity|].
    assert (contents mi (set_bcasts b (upd (msgh s) x' (slot id) s)) = contents mi s) as Hc by (eapply contents_same; [exact Hi|eapply inv_ext; [..|exact Hi']; done|done]).
    eapply advanced_finished; [done|eapply inv_ext; [..|exact Hi']; done| |simpl; by rewrite Hc].
    eapply (qframe_upd _ _ _ (slot id) x x'); [lia|done|exact Hl|done|rewrite Hc; by rewrite list_insert_id|done|done|done|..].
    + intros H. left. by apply Hr.
    + intros H. left. by apply Hw.
  - rewrite (hseg_head _ _ _ _ _ (qo_seg _ _ _ _ _ _ Hok)). pose proof (hseg_in _ _ _ _ mp (qo_seg _ _ _ _ _ _ Hok) ltac:(left)) as [m Hm].
    apply hdr_at_pos in Hm. rewrite (proj2 (Z.eqb_neq mp NULL)) by (unfold NULL; lia).
    destruct (p_unlink (Some (slot id)) _ _ _ _ _ _ _ x x [] mp ps Hi (proj1 Hq) Hx Hps) as (s' & x' & He & [Hi' Hf] & Hc & Hx' & Hg'); try done.
    { intros Hn. by destruct Hn; left. }
    rewrite <-mupd_id in He by done. simpl in He. unfold NULL. rewrite He. cbn [rbind]. eexists _, s'. split; [reflexivity|].
    split; [by eexists|done| | |by intros q' [= <-]].
    + split; [done|]. split; [|done]. split; [done|]. split; [done|]. exists x'. split; [done|by apply Hg'].
    + simpl. eexists _, _. split; [exact Hl|]. exact Hc.
Qed.

(** ** The beginning of a call, and what follows a wait *)

Lemma inv_removing s hs tx us qs rm q : msg_inv mi s hs tx us qs rm → msg_inv mi s hs tx us qs (q :: rm).
Proof using Type.
  intros [H1 H2 H2' H3 H4 H5]. split; try done. intros q' x ps Hq' Hx Hps. destruct (H5 q' x ps Hq' Hx Hps). split; try done.
  intros Hn. apply qo_cb. intros Hin. apply Hn. by right.
Qed.

Lemma takes_slot t : takes mi t = None ∨ (0 ≤ t_id t ∧ takes mi t = Some (slot (t_id t))).
Proof using Type.
  unfold takes. destruct (t_pc t); try by left. all: destruct (t_call t); try by left.
  all: destruct (Z.ltb_spec (t_id t) 0); [by left|by right].
Qed.

Lemma takes_start c id what p : (p = Start ∨ ∃ ch, p = Woken ch ∨ p = Intr ch) → (∀ k f, what ≠ Get k f) → 0 ≤ id →
  takes mi (Thread c id what p) = Some (slot id).
Proof using Type.
  intros Hp Hw H0. unfold takes. simpl. rewrite (proj2 (Z.ltb_ge id 0)) by done.
  destruct Hp as [->|(ch & [->| ->])]; destruct what; try done; by destruct (Hw k flag).
Qed.

Lemma start_snd c id r s hs tx us qs rm : let t := Thread c id (Snd r) Start in
  msg_inv mi s hs tx us qs rm → thread_ok s t →
  ∃ p' s', start mi c id (Snd r) s = Ret (p', s') ∧ advanced t p' (takes mi t) s s' hs tx us rm.
Proof using Hio.
  intros t Hi (Hid & Hc). simpl in *.
  destruct (snd_enter_ok _ Hio c _ _ _ _ _ _ id r Hi Hc) as [(e & ->)|(x & ps & -> & H0 & Hx & Hps & Hg & Hr)]; cbn [rbind].
  - eexists _, s. split; [reflexivity|]. eapply advanced_finished; [done|done|apply qframe_refl|done].
  - assert (takes mi t = Some (slot id)) as -> by (apply takes_start; [by left|done|done]). eapply snd_go_ok; [done..| |done]. split; [done|]. split; [done|]. by exists x.
Qed.

Lemma start_rcv c id r s hs tx us qs rm : let t := Thread c id (Rcv r) Start in
  msg_inv mi s hs tx us qs rm → thread_ok s t → (∀ q, takes mi t = Some q → q ∉ rm) →
  ∃ p' s', start mi c id (Rcv r) s = Ret (p', s') ∧ advanced t p' (takes mi t) s s' hs tx us rm.
Proof using Hio.
  intros t Hi (Hid & Hc) Hrm. simpl in *.
  destruct (rcv_enter_ok _ Hio c _ _ _ _ _ _ id r Hi) as [(e & -> & He)|(x & ps & -> & H0 & Hx & Hps & Hg & Hr)]; cbn [rbind].
  - eexists _, s. split; [reflexivity|]. eapply advanced_finished; [done|done|apply qframe_refl|]. simpl. by destruct He as [->| ->].
  - assert (takes mi t = Some (slot id)) as Et by (apply takes_start; [by left|done|done]). rewrite Et in *.
    eapply rcv_go_ok; [done..| |done|done|by apply Hrm]. split; [done|]. split; [done|]. by exists x.
Qed.

Lemma reset_gone ds x x' id : reset ds x x' → gone id x = false → gone id x' = false.
Proof using Type. intros [Hf Hs _ _]. rewrite !msg_gone_false, Hs. change IPC_ALLOC with (2 ^ 15). by rewrite Hf by lia. Qed.

Lemma start_ctl c id cmd s hs tx us qs rm : let t := Thread c id (Ctl cmd) Start in
  msg_inv mi s hs tx us qs rm → thread_ok s t →
  ∃ p' s', start mi c id (Ctl cmd) s = Ret (p', s') ∧ advanced t p' (takes mi t) s s' hs tx us rm.
Proof using Hio.
  intros t Hi (Hid & Hc). simpl in Hid, Hc. unfold start.
  destruct (msg_conv _ Hio _ _ _ _ _ _ id Hi) as (x & ps & Hx & Hps & Hok & ->). cbn [rbind].
  destruct ((id <? 0) || gone id x) eqn:E.
  { eexists _, s. split; [reflexivity|]. eapply advanced_finished; [done|done|apply qframe_refl|]. simpl. by destruct cmd. }
  apply orb_false_iff in E as [H0%Z.ltb_ge Hg]. pose proof (slot_range _ Hio id) as Hq.
  assert (takes mi t = Some (slot id)) as Et by (apply takes_start; [by left|done|done]).
  assert (alloc : has (mode (msg_perm x)) IPC_ALLOC = true) by (by apply msg_gone_false in Hg as [? _]).
  assert (cmd = IPC_RMID ∨ cmd ≠ IPC_RMID ∧ ∃ p' s', (let* (rep, s) := msgctl_other c (slot id) cmd s in Ret (Finished rep, s)) = Ret (p', s') ∧
    advanced t p' (takes mi t) s s' hs tx us rm) as Hother.
  { destruct (ctl_other_ok _ c _ _ _ _ _ _ _ _ cmd Hi (proj1 Hq) Hx alloc (proj1 Hc)) as (rep & s' & -> & Hi' & Hs'). cbn [rbind].
    assert (cmd = IPC_RMID ∨ cmd ≠ IPC_RMID) as [|Hne] by (destruct cmd; auto); [by left|right]. split; [done|]. eexists _, s'. split; [reflexivity|].
    assert (contents mi s' = contents mi s → effect t (Finished rep) (contents mi s) (contents mi s')) as Heff by (intros Ec; simpl; by destruct cmd).
    destruct Hs' as [->|(d & x' & Hcmd & -> & Hrs)].
    - eapply advanced_finished; [done|done|apply qframe_refl|by apply Heff].
    - destruct (p_set (takes mi t) _ _ _ _ _ _ _ _ _ _ Hi (proj1 Hq) Hx Hps Hi') as [[_ Hf] Ec].
      + intros _ i. by eapply reset_gone.
      + change MSG_RWAIT with (2 ^ 9). by rewrite (rt_flags _ _ _ Hrs) by lia.
      + change MSG_WWAIT with (2 ^ 10). rewrite (rt_flags _ _ _ Hrs) by lia. intros H. split; [done|]. intros Hn. exfalso. pose proof (proj2 Hc Hn) as Hns.
        by destruct Hcmd as [Ec|Ec]; rewrite Ec in Hns.
      + by eapply advanced_finished; [done|done|done|apply Heff]. }
  destruct Hother as [->|[Hne Hother]]; [|by destruct cmd].
  rewrite (get_q_ok _ _ _ (proj1 Hq) Hx). cbn [rbind]. eexists _, s. split; [reflexivity|]. destruct (msg_owner c x).
  - rewrite Et. split; [exists qs; by apply inv_removing|apply qframe_refl| |done|by intros q' [= <-]].
    split; [done|]. split; [|done]. split; [done|]. split; [done|]. by exists x.
  - eapply advanced_finished; [done|done|apply qframe_refl|done].
Qed.

Lemma start_get c id k f s hs tx us qs rm : let t := Thread c id (Get k f) Start in
  msg_inv mi s hs tx us qs rm → thread_ok s t →
  ∃ p' s', start mi c id (Get k f) s = Ret (p', s') ∧ advanced t p' (takes mi t) s s' hs tx us rm.
Proof using Hio.
  intros t Hi (Hid & _). unfold start.
  destruct (get_ok _ Hio c _ _ _ _ _ _ k f Hi) as (rep & s' & -> & Hi' & Hs'). cbn [rbind]. eexists _, s'. split; [reflexivity|].
  destruct Hs' as [[-> _]|(q & i & x & x' & _ & _ & Hq & Hx & _ & -> & _ & Hx')].
  - eapply advanced_finished; [done|done|apply qframe_refl|done].
  - destruct (inv_lookup _ _ _ _ _ _ _ _ _ Hi Hx) as [ps Hps].
    destruct (p_set (takes mi t) _ _ _ _ _ _ _ _ _ _ Hi (proj1 Hq) Hx Hps Hi') as [[_ Hf] Ec].
    + intros _ j Hg. destruct Hx' as [->|(Ha & _)]; [done|]. apply msg_gone_false in Hg as [Hg _]. congruence.
    + intros Hb. destruct Hx' as [->|(_ & E & _)]; [done|]. by rewrite E in Hb.
    + intros Hb. destruct Hx' as [->|(_ & E & _)]; [by split|]. by rewrite E in Hb.
    + by eapply advanced_finished.
Qed.
End Safe.
