(* ===== verification/MsgRun.v ===== *)
(** * Message queues: every step of the machine ([uts/common/os/msg.c])

    What follows a wait, and the invariant of [MsgSafe] over the steps of [MsgMachine]. *)

From S2P Require Import Prelude Bytes Rmap Sem Msg MsgInv MsgOps MsgCalls MsgMachine MsgSafe.

Section Run.
Context (mi : msginfo) (Hio : info_ok mi) (nosets : Prop).

#[local] Abbreviation gone := (msg_gone mi).
#[local] Abbreviation slot := (msg_slot mi).
#[local] Abbreviation frame := (frame mi nosets).
#[local] Abbreviation thread_ok := (thread_ok mi nosets).
#[local] Abbreviation advanced := (advanced mi nosets).
#[local] Abbreviation minv := (minv mi nosets).
#[local] Abbreviation pc_us := (pc_us mi).

(** The lock that a step is made with. *)
Definition lock (t : thread) : option Z := match holds t with Some q => Some q | None => takes mi t end.

(** ** After a wait *)

(** A sender on a queue that is gone, interrupted by a signal: [qp1] is not set there. *)
Definition unset_qp (t : thread) (s : msgsys) : Prop :=
  ∃ r q, t_call t = Snd r ∧ t_pc t = Intr (Msg_cv q) ∧ msgconv mi (t_id t) s = Ret None.

Lemma conv_live s hs tx us qs rm id q : msg_inv mi s hs tx us qs rm → msgconv mi id s = Ret (Some q) → live mi s id q.
Proof using Hio.
  intros Hi. destruct (msg_conv _ Hio _ _ _ _ _ _ id Hi) as (x & ps & Hx & _ & _ & ->).
  destruct ((id <? 0) || gone id x) eqn:E; [done|]. intros [= <-]. apply orb_false_iff in E as [H0%Z.ltb_ge Hg].
  split; [done|]. split; [done|]. by exists x.
Qed.

Lemma takes_woken c id what p : (∃ ch, p = Woken ch ∨ p = Intr ch) → (∀ k f, what ≠ Get k f) → 0 ≤ id →
  lock (Thread c id what p) = Some (slot id).
Proof using Type.
  intros Hp Hw H0. unfold lock, holds. simpl. destruct Hp as (ch & [-> | ->]); apply takes_start; try done; right; eauto.
Qed.

Lemma resume_piece c id what ch s hs tx us qs rm : let t := Thread c id what (Woken ch) in
  msg_inv mi s hs tx us qs rm → thread_ok s t → (∀ q, lock t = Some q → q ∉ rm) →
  ∃ p' s', advance mi t s = Ret (p', s') ∧ advanced t p' (lock t) s s' hs tx us rm.
Proof using Hio.
  intros t Hi (Hid & H0 & Hw) Hrm. simpl in Hid, H0, Hw. unfold advance. simpl.
  assert ((∀ k f, what ≠ Get k f) → lock t = Some (slot id)) as El by (intros; apply takes_woken; eauto).
  pose proof (msg_conv _ Hio _ _ _ _ _ _ id Hi) as (x & ps & Hx & Hps & _ & Hconv). pose proof (slot_range _ Hio id) as Hq.
  destruct what as [r|r|cmd|k f]; [|..|done|done]; specialize (El ltac:(done)); rewrite El in *; unfold resume.
  - destruct Hw as [Hr Hch].
    assert (msgsnd_again mi ch id s = Ret (if gone id x then inl (Ipc EIDRM) else inr (slot id))) as ->.
    { unfold msgsnd_again. destruct ch as [q|q| |]; [subst q|done|..].
      - rewrite (get_q_ok _ _ _ (proj1 Hq) Hx). done.
      - rewrite Hconv, (proj2 (Z.ltb_ge _ _)) by done. simpl. by destruct (gone id x).
      - rewrite Hconv, (proj2 (Z.ltb_ge _ _)) by done. simpl. by destruct (gone id x). }
    cbn [rbind]. destruct (gone id x) eqn:Hg.
    + eexists _, s. split; [reflexivity|]. eapply advanced_finished; [done|done|apply qframe_refl|done].
    + eapply snd_go_ok; [done..| |done]. split; [done|]. split; [done|]. by exists x.
  - destruct Hw as (Hr & Hsz & ->). unfold msgrcv_again. rewrite (get_q_ok _ _ _ (proj1 Hq) Hx). cbn [rbind].
    destruct (gone id x) eqn:Hg.
    + eexists _, s. split; [reflexivity|]. eapply advanced_finished; [done|done|apply qframe_refl|done].
    + eapply rcv_go_ok; [done..| |done|done|by apply Hrm]. split; [done|]. split; [done|]. by exists x.
Qed.

(** A sender that gives up: all that wait for room look again. *)
Lemma eintr_room s hs tx us qs rm id h : let q := slot id in live mi s id q → msg_inv mi s hs tx us qs rm →
  ∃ s', msgsnd_eintr mi (Msg_cv q) id s = Ret (Ipc EINTR, s') ∧ msg_inv mi s' hs tx us qs rm ∧ frame h s s' ∧ contents mi s' = contents mi s.
Proof using Hio.
  intros q (_ & H0 & x & Hx & Hg) Hi. pose proof (slot_range _ Hio id) as Hq. fold q in Hq.
  destruct (msg_conv _ Hio _ _ _ _ _ _ id Hi) as (x0 & ps & Hx0 & Hps & Hok & Hconv). fold q in Hx0, Hps. rewrite Hx in Hx0. injection Hx0 as <-.
  unfold msgsnd_eintr. rewrite Hconv, Hg, (proj2 (Z.ltb_ge _ _)) by done. cbn [rbind orb].
  rewrite (mod_q_ok _ _ _ _ (proj1 Hq) Hx). cbn [rbind]. eexists. split; [reflexivity|].
  set (x' := set_mmode _ x). set (s' := bcast _ _).
  assert (∀ b, IsBit b → has (mode (msg_perm x')) b = negb (MSG_WWAIT =? b) && has (mode (msg_perm x)) b) as Hm
    by (intros b Hb; simpl; by rewrite has_clr by apply _).
  assert (msg_inv mi s' hs tx us qs rm) as Hi'.
  { apply inv_ext with (s := set_que (<[Z.to_nat q := x']> (msgque s)) s); try done. eapply inv_set_que; [done|lia|done|done| |done].
    destruct Hok. split; try done. rewrite Hm by apply _. simpl. intros Ha. apply msg_gone_false in Hg as [Hg _]. congruence. }
  assert (contents mi s' = contents mi s) as Hc by (eapply contents_same; [exact Hi|exact Hi'|done]).
  split; [done|]. split; [|done]. pose proof (contents_at _ _ _ _ _ _ _ _ _ Hi Hps) as Hl.
  eapply (qframe_upd _ _ _ _ _ q x x'); [lia|done|exact Hl|done|rewrite Hc; by rewrite list_insert_id|done|done|..].
  - intros _ i. rewrite !msg_gone_false, Hm by apply _. done.
  - intros Hb. right. rewrite Hm, Hb by apply _. done.
  - intros _. left. left.
Qed.

Lemma interrupted_piece c id what ch s hs tx us qs rm : let t := Thread c id what (Intr ch) in
  msg_inv mi s hs tx us qs rm → thread_ok s t → ¬ unset_qp t s →
  ∃ p' s', advance mi t s = Ret (p', s') ∧ advanced t p' (lock t) s s' hs tx us rm.
Proof using Hio.
  intros t Hi (Hid & H0 & Hw) Hn. simpl in Hid, H0, Hw. unfold advance. simpl. unfold interrupted.
  destruct what as [r|r|cmd|k f]; [|..|done|done].
  2: { eexists _, s. split; [reflexivity|]. eapply advanced_finished; [done|done|apply qframe_refl|done]. }
  destruct Hw as [Hr Hch]. destruct (msg_conv _ Hio _ _ _ _ _ _ id Hi) as (x & ps & Hx & Hps & Hok & Hconv).
  destruct ch as [q|q| |]; [subst q|done|..].
  - assert (live mi s id (slot id)) as Hl.
    { eapply conv_live; [exact Hi|]. rewrite Hconv. destruct ((id <? 0) || gone id x); [|done]. destruct Hn. by exists r, (slot id). }
    destruct (eintr_room s hs tx us qs rm id (lock t) Hl Hi) as (s' & -> & Hi' & Hf & Hc). cbn [rbind].
    eexists _, s'. split; [reflexivity|]. by eapply advanced_finished.
  - unfold msgsnd_eintr. rewrite Hconv. cbn [rbind].
    destruct ((id <? 0) || gone id x); cbn [rbind]; (eexists _, s; split; [reflexivity|]); (eapply advanced_finished; [done|done|apply qframe_refl|done]).
  - unfold msgsnd_eintr. rewrite Hconv. cbn [rbind].
    destruct ((id <? 0) || gone id x); cbn [rbind]; (eexists _, s; split; [reflexivity|]); (eapply advanced_finished; [done|done|apply qframe_refl|done]).
Qed.

(** ** Any piece *)

Definition can_run (t : thread) : Prop := match t_pc t with Sleep _ | Finished _ => False | _ => True end.

Lemma advance_ok t s hs tx us qs rm :
  msg_inv mi s (pc_hs (t_pc t) ++ hs) (pc_tx (t_pc t) ++ tx) (pc_us (t_call t) (t_pc t) ++ us) qs (pc_rm (t_pc t) ++ rm) →
  thread_ok s t → can_run t → ¬ unset_qp t s → (∀ q, lock t = Some q → q ∉ rm) → 0 ≤ m_want (msgmap s) < 2 ^ 32 - 1 →
  ∃ p' s', advance mi t s = Ret (p', s') ∧ advanced t p' (lock t) s s' hs tx us rm.
Proof using Hio.
  destruct t as [c id what p]. unfold can_run. simpl. intros Hi Ht Hc Hn Hrm Hw. destruct p as [|q mp|q mp spot|q mp e|q mp k|q mp k|q|ch|ch|ch|rep]; try done.
  - assert (lock (Thread c id what Start) = takes mi (Thread c id what Start)) as El by done. rewrite El in *.
    destruct what as [r|r|cmd|k f]; [by eapply start_snd|by eapply start_rcv|by eapply start_ctl|by eapply start_get].
  - destruct Ht as (Hid & Hl & r & E & Hr). simpl in E. subst what. by eapply snd_map_piece.
  - destruct Ht as (Hid & Hl & r & E & Hr). simpl in E. subst what. simpl in Hi. eapply snd_put_piece; [done..|by apply Hrm].
  - destruct Ht as (Hid & Hl & r & E & Hr). simpl in E. subst what. by eapply snd_out1_piece.
  - by eapply free_text_piece.
  - by eapply free_hdr_piece.
  - pose proof Ht as (_ & _ & E). simpl in E. subst what. by eapply purge_piece.
  - by eapply resume_piece.
  - by eapply interrupted_piece.
Qed.
(** ** The machine *)

Lemma inv_perm s hs hs' tx tx' us us' qs rm rm' : hs ≡ₚ hs' → tx ≡ₚ tx' → us ≡ₚ us' → rm ≡ₚ rm' →
  msg_inv mi s hs tx us qs rm → msg_inv mi s hs' tx' us' qs rm'.
Proof using Type.
  intros Eh Et Eu Er [H1 H2 H2' (fr & Hf & Hp) (segs & Ht) H5]. split; try done.
  - exists fr. split; [done|]. by rewrite <-Eh, <-Et.
  - exists segs. eapply text_ok_perm; [apply same_bodies_refl|by rewrite <-Et|exact Eu|exact Ht].
  - intros q x ps Hq Hx Hps. destruct (H5 q x ps Hq Hx Hps). split; try done. by rewrite <-Er.
Qed.

(** The events that can happen: a step needs the lock that it is made with.  Fewer than [2^32 - 1] calls in a row begin
    to wait for text while none is freed, so that [m_want] does not wrap. *)
Definition menabled (e : mevent) (m : mmach) : Prop :=
  match e with
  | Call c id what => in_s32 id ∧ call_ok nosets what
  | Run i => ∃ t, m_threads m !! i = Some t ∧ can_run t ∧
      (∀ j u q, j ≠ i → m_threads m !! j = Some u → lock t = Some q → holds u ≠ Some q) ∧ 0 ≤ m_want (msgmap (m_sys m)) < 2 ^ 32 - 1
  | Interrupt i => ∃ t ch, m_threads m !! i = Some t ∧ t_pc t = Sleep ch
  | Tick _ => True
  end.

(** What the event does to the messages. *)
Definition mchange (e : mevent) (m m' : mmach) : Prop :=
  match e with
  | Run i => ∃ t t', m_threads m !! i = Some t ∧ m_threads m' !! i = Some t' ∧
      effect mi t (t_pc t') (contents mi (m_sys m)) (contents mi (m_sys m'))
  | _ => contents mi (m_sys m') = contents mi (m_sys m)
  end.

Definition unset_step (e : mevent) (m : mmach) : Prop :=
  match e with Run i => ∃ t, m_threads m !! i = Some t ∧ unset_qp t (m_sys m) | _ => False end.

Lemma bind_wake {A} (f : thread → list A) bc l : (∀ t, f (wake_thread bc t) = f t) → (wake_thread bc <$> l) ≫= f = l ≫= f.
Proof using Type. intros Hf. induction l as [|t l IH]; [done|]. rewrite fmap_cons, !bind_cons, Hf. by rewrite IH. Qed.

Lemma wake_pc_eq {A} (f : pc → A) bc t : (∀ ch, f (Sleep ch) = f (Woken ch)) → f (t_pc (wake_thread bc t)) = f (t_pc t).
Proof using Type. intros Hf. destruct t as [c id what p]. simpl. destruct p; try done. simpl. by case_match. Qed.

Lemma holds_wake bc t : holds (wake_thread bc t) = holds t.
Proof using Type. destruct t as [c id what p]. unfold holds. simpl. destruct p; try done. simpl. by destruct (bool_decide _). Qed.

Lemma omap_holds_wake bc (l : list thread) : omap holds (wake_thread bc <$> l) = omap holds l.
Proof using Type. induction l as [|t l IH]; [done|]. simpl. rewrite holds_wake. destruct (holds t); [f_equal|]; exact IH. Qed.

Lemma wake_none (l : list thread) : wake_thread [] <$> l = l.
Proof using Type.
  induction l as [|[c id what p] l IH]; [done|]. rewrite fmap_cons, IH. f_equal. by destruct p.
Qed.

Lemma split_threads (ts : list thread) i t t' bc : ts !! i = Some t → ∃ l1 l2, ts = l1 ++ t :: l2 ∧ i = length l1 ∧
  <[i := t']> (wake_thread bc <$> ts) = (wake_thread bc <$> l1) ++ t' :: (wake_thread bc <$> l2).
Proof using Type.
  intros Ht. destruct (list_elem_of_split_length _ _ _ Ht) as (l1 & l2 & -> & ->). exists l1, l2. split; [done|]. split; [done|].
  rewrite fmap_app, fmap_cons, insert_app_r_alt, length_fmap, Nat.sub_diag by (by rewrite length_fmap). done.
Qed.

Lemma bind_middle {A} (f : thread → list A) l1 t l2 : (l1 ++ t :: l2) ≫= f ≡ₚ f t ++ (l1 ++ l2) ≫= f.
Proof using Type. rewrite !bind_app, bind_cons. by rewrite Permutation_app_swap_app. Qed.

(** A queue that is being removed is locked. *)
Lemma rm_held q l : q ∈ (l ≫= λ t, pc_rm (t_pc t)) → ∃ u, u ∈ l ∧ holds u = Some q.
Proof using Type.
  intros (u & Hq & Hu)%list_elem_of_bind. exists u. split; [done|]. unfold holds.
  destruct (t_pc u) as [| | | |? ? [|]|? ? [|]| | | | |]; simpl in Hq; try (by apply not_elem_of_nil in Hq); by apply list_elem_of_singleton in Hq as ->.
Qed.

(** The thread [t] makes a step, between [l1] and [l2]. *)
Lemma step_inv s l1 t l2 : minv (Mmach s (l1 ++ t :: l2)) → can_run t → ¬ unset_qp t s →
  (∀ u q, u ∈ l1 ++ l2 → lock t = Some q → holds u ≠ Some q) → 0 ≤ m_want (msgmap s) < 2 ^ 32 - 1 →
  ∃ p' s', advance mi t s = Ret (p', s') ∧ effect mi t p' (contents mi s) (contents mi s') ∧
    minv (Mmach (set_bcasts [] s') ((wake_thread (bcasts s') <$> l1) ++ set_pc p' t :: (wake_thread (bcasts s') <$> l2))).
Proof using Hio.
  intros [Hb Hlk Hth (qs & Hi)] Hc Hn Hex Hw. simpl in Hb, Hlk, Hth, Hi.
  assert (thread_ok s t) as Ht by (apply Forall_app in Hth as [_ [Ht _]%Forall_cons]; exact Ht).
  eapply inv_perm in Hi; [|apply bind_middle..].
  destruct (advance_ok t s _ _ _ qs _ Hi Ht Hc Hn) as (p' & s' & Hrun & [(qs' & Hi') Hf Ht' He Hh]); [|done|].
  { intros q Hq Hrm. destruct (rm_held q _ Hrm) as (u & Hu & Hhu). by apply (Hex u q Hu Hq). }
  exists p', s'. split; [done|]. split; [done|]. split; simpl.
  - done.
  - rewrite omap_app. simpl. rewrite !omap_holds_wake. rewrite omap_app in Hlk. simpl in Hlk.
    assert (NoDup (omap holds l1 ++ omap holds l2)) as Hnd.
    { destruct (holds t); [|done]. rewrite <-Permutation_middle in Hlk. by apply NoDup_cons in Hlk as [_ ?]. }
    destruct (holds (set_pc p' t)) as [q|] eqn:Hq; [|done]. rewrite <-Permutation_middle. apply NoDup_cons. split; [|done].
    rewrite <-omap_app. intros (u & Hu & Hhu)%list_elem_of_omap. apply (Hex u q Hu); [|done]. symmetry. by rewrite <-(Hh q).
  - assert (∀ u, u ∈ l1 ++ l2 → thread_ok (set_bcasts [] s') (wake_thread (bcasts s') u)) as Ho.
    { intros u Hu. eapply thread_frame; [exact Hio|exact Hf| |].
      - rewrite Forall_forall in Hth. apply Hth. rewrite elem_of_app in Hu |- *. rewrite elem_of_cons. tauto.
      - intros q Hq E. by apply (Hex u q Hu E). }
    apply Forall_app. split; [|apply Forall_cons; split; [done|]]; apply Forall_fmap, Forall_forall; intros u Hu; apply Ho, elem_of_app; auto.
  - exists qs'. eapply inv_ext; [..|eapply inv_perm; [..|exact Hi']]; try done.
    all: rewrite bind_middle, !bind_app, !bind_wake; [done|..]; intros u.
    + by apply (wake_pc_eq pc_hs).
    + by apply (wake_pc_eq pc_hs).
    + by apply (wake_pc_eq pc_tx).
    + by apply (wake_pc_eq pc_tx).
    + by apply (wake_pc_eq (pc_us (t_call u))).
    + by apply (wake_pc_eq (pc_us (t_call u))).
    + by apply (wake_pc_eq pc_rm).
    + by apply (wake_pc_eq pc_rm).
Qed.
Lemma msg_step_ok e m : minv m → menabled e m → ¬ unset_step e m → ∃ m', mexec mi e m = Ret m' ∧ minv m' ∧ mchange e m m'.
Proof using Hio.
  destruct m as [s ts]. intros Hm He Hn. destruct e as [c id what|i|i|now]; simpl in *.
  - eexists. split; [reflexivity|]. split; [|done]. destruct Hm as [Hb Hlk Hth (qs & Hi)]. simpl in *. split; simpl.
    + done.
    + rewrite omap_app. simpl. by rewrite app_nil_r.
    + apply Forall_app. split; [done|]. apply Forall_singleton. exact He.
    + exists qs. rewrite !bind_app. simpl. by rewrite !app_nil_r.
  - destruct He as (t & Ht & Hc & Hex & Hw). rewrite Ht.
    assert (¬ unset_qp t s) as Hnu by (intros Hu; apply Hn; by exists t).
    destruct (split_threads ts i t t [] Ht) as (l1 & l2 & -> & -> & _).
    destruct (step_inv s l1 t l2 Hm Hc Hnu) as (p' & s' & -> & He & Hm'); [|done|].
    { intros u q Hu. apply elem_of_app in Hu as [Hu|Hu]; apply list_elem_of_lookup_1 in Hu as [j Hj].
      - apply (Hex j u q); [apply lookup_lt_Some in Hj; lia|]. by rewrite lookup_app_l by (by eapply lookup_lt_Some).
      - apply (Hex (length l1 + S j)%nat u q); [lia|]. rewrite lookup_app_r by lia.
        by replace (length l1 + S j - length l1)%nat with (S j) by lia. }
    cbn [rbind]. destruct (split_threads _ _ _ (set_pc p' t) (bcasts s') Ht) as (k1 & k2 & E & El & ->).
    apply app_inj_1 in E as [<- [= <-]]; [|done]. eexists. split; [reflexivity|]. split; [done|].
    exists t, (set_pc p' t). split; [done|]. split; [|done]. simpl. rewrite lookup_app_r by (by rewrite length_fmap). by rewrite length_fmap, Nat.sub_diag.
  - destruct He as (t & ch & Ht & Ep). rewrite Ht, Ep. eexists. split; [reflexivity|]. split; [|done].
    destruct (split_threads ts i t (set_pc (Intr ch) t) [] Ht) as (l1 & l2 & -> & -> & E). rewrite !wake_none in E. rewrite E.
    destruct Hm as [Hb Hlk Hth (qs & Hi)]. simpl in *. split; simpl.
    + done.
    + rewrite omap_app in Hlk |- *. simpl in *. unfold holds at 2. unfold holds at 2 in Hlk. rewrite Ep in Hlk. done.
    + apply Forall_app in Hth as [H1 [H2 H3]%Forall_cons]. apply Forall_app. split; [done|]. apply Forall_cons. split; [|done].
      destruct H2 as [Hid H2]. rewrite Ep in H2. split; [done|]. by destruct H2.
    + exists qs. eapply inv_perm; [..|exact Hi]; rewrite !bind_middle, Ep; done.
  - eexists. split; [reflexivity|]. split; [|done]. destruct Hm as [Hb Hlk Hth (qs & Hi)]. simpl in *. split; simpl; [done|done|exact Hth|].
    exists qs. eapply inv_ext; [..|exact Hi]; done.
Qed.
End Run.
