(* ===== verification/MsgProps.v ===== *)
(** * Message queues: the calls from the start ([uts/common/os/msg.c])

    The state that [_init] leaves satisfies the invariant of [MsgSafe], so that what [MsgRun] shows of steps
    holds of all that threads do from there on. *)

From S2P Require Import Prelude Bytes Rmap Sem Msg MsgInv MsgOps MsgCalls MsgMachine MsgSafe MsgRun.

(** ** The first state *)

Lemma link_free_seg n : ∀ i h, 0 < i → (0 < n)%nat → (∀ k, (k < n)%nat → hdr_at h (i + Z.of_nat k) = link_free i n !! k) →
  hseg h i (seqZ i (Z.of_nat n)) 0.
Proof.
  induction n as [|n IH]; intros i h Hi Hn Hh; [lia|]. rewrite seqZ_cons by lia. split; [done|].
  pose proof (Hh 0%nat ltac:(lia)) as H0. rewrite Z.add_0_r in H0. destruct n as [|n].
  - exists (Msg NULL 0 0 0). by split.
  - exists (Msg (i + 1) 0 0 0). split; [done|]. cbn [msg_next].
    replace (Z.pred (Z.of_nat (S (S n)))) with (Z.of_nat (S n)) by lia. apply IH; [lia|lia|].
    intros k Hk. replace (Z.succ i) with (i + 1) by lia. specialize (Hh (S k) ltac:(lia)). by replace (i + 1 + Z.of_nat k) with (i + Z.of_nat (S k)) by lia.
Qed.

Lemma link_free_len n : ∀ i, length (link_free i n) = n.
Proof. induction n as [|[|n] IH]; intros i; [done|done|]. cbn [link_free length]. f_equal. apply IH. Qed.

Lemma concat_nils {A} n : concat (replicate n ([] : list A)) = [].
Proof. by induction n. Qed.

Section Props.
Context (mi : msginfo) (Hio : info_ok mi) (nosets : Prop).

Lemma mapinit_ok hd : 0 ≤ hd → MAP_OVERHEAD hd + 2 ≤ msgmapsz mi < 2 ^ 31 →
  ∃ m segs, mapinit hd (replicate (Z.to_nat (msgmapsz mi - (MAP_OVERHEAD hd - 1))) (Mapent 0 0)) (msgseg mi) 1 (msgmapsz mi) = Ret m ∧
    map_rep m segs ∧ 2 ≤ h_size m ∧ ∀ u, covers segs u → 1 ≤ u ≤ msgseg mi.
Proof using Hio.
  intros H0 Hm. unfold mapinit. rewrite (proj2 (Z.ltb_ge _ _)) by lia.
  assert (0 ≤ MAP_OVERHEAD hd) as Hov by (unfold MAP_OVERHEAD, sizeof_map; apply Z.div_pos; lia).
  set (n := msgmapsz mi - MAP_OVERHEAD hd) in *.
  replace (Z.to_nat (msgmapsz mi - (MAP_OVERHEAD hd - 1))) with (S (Z.to_nat n)) by lia. cbn [replicate].
  rewrite (w32_id n) by (unfold in_u32; lia). pose proof (io_seg _ Hio).
  destruct (truthy (msgseg mi)) eqn:E.
  - apply truthy_true in E. rewrite w32_id by (unfold in_u32; lia). eexists _, [Mapent (msgseg mi) 1]. split; [reflexivity|]. split; [|split; [simpl; lia|]].
    + split_and!; simpl; try done; try lia. { unfold e_end; simpl; lia. }
      exists (replicate (Z.to_nat n) (Mapent 0 0)). split; [done|]. split; [by apply Forall_replicate|]. rewrite length_replicate. lia.
    + intros u (e & ->%list_elem_of_singleton & He). unfold e_end in He. simpl in He. lia.
  - apply truthy_false in E. rewrite E. eexists _, []. split; [reflexivity|]. split; [|split; [simpl; lia|]].
    + split_and!; simpl; try done; try lia.
      exists (Mapent 0 1 :: replicate (Z.to_nat n) (Mapent 0 0)). split; [done|]. split; [constructor; [done|by apply Forall_replicate]|].
      simpl. by rewrite length_replicate.
    + intros u []%covers_nil.
Qed.

Lemma zero_ds_ok h q : 0 ≤ q < msgmni mi → queue_ok mi h q zero_ds [] (q ∈ ([] : list Z)).
Proof using Hio. intros Hq. pose proof (io_mni _ Hio). split; simpl; try done; lia. Qed.

Lemma init_ok hd ds lk kmem now : 0 ≤ hd → MAP_OVERHEAD hd + 2 ≤ msgmapsz mi < 2 ^ 31 → msg_memory mi ds lk ≤ kmem / 4 →
  ∃ s, msg_init mi hd ds lk kmem now = Ret (inr s) ∧ minv mi nosets (Mmach s []).
Proof using Hio.
  intros H0 Hm Hk. unfold msg_init. rewrite (proj2 (Z.ltb_ge _ _)) by done.
  destruct (mapinit_ok hd H0 Hm) as (m & segs & -> & Hrep & Hh & Hc). cbn [rbind]. eexists. split; [reflexivity|].
  pose proof (io_mni _ Hio). pose proof (io_tql _ Hio). pose proof (io_ssz _ Hio). pose proof (io_seg _ Hio).
  split; simpl; [done|constructor|constructor|]. exists (replicate (Z.to_nat (msgmni mi)) []).
  split; simpl; rewrite ?length_replicate, ?link_free_len, ?concat_nils; [done|lia|lia|..].
  - exists (seqZ 1 (msgtql mi)). rewrite app_nil_r, Z2Nat.id by lia. split; [|done].
    rewrite <-(Z2Nat.id (msgtql mi)) at 2 by lia. apply link_free_seg; [lia|lia|]. intros k Hk'. unfold hdr_at.
    rewrite (proj2 (Z.leb_gt _ _)) by lia. by replace (Z.to_nat (1 + Z.of_nat k - 1)) with k by lia.
  - exists segs. split; try done.
    + rewrite length_replicate. unfold INTRND. pose proof (Z.div_mod (msgseg mi * msgssz mi + 3) 4). pose proof (Z.mod_pos_bound (msgseg mi * msgssz mi + 3) 4). nia.
    + intros u [Hu|Hu]; [by apply not_elem_of_nil in Hu|by apply Hc].
    + constructor.
    + intros u Hu. by apply not_elem_of_nil in Hu.
    + intros p Hp. by apply not_elem_of_nil in Hp.
  - intros q x ps Hq Hx Hps. apply lookup_replicate in Hx as [-> Hlt]. apply lookup_replicate in Hps as [-> _]. apply zero_ds_ok. lia.
Qed.

(** ** Reachable states *)

(** The module has been loaded, on a machine with its sizes and memory for the tables. *)
Definition minitial (m : mmach) : Prop :=
  ∃ hd ds lk kmem now s, 0 ≤ hd ∧ MAP_OVERHEAD hd + 2 ≤ msgmapsz mi < 2 ^ 31 ∧ msg_memory mi ds lk ≤ kmem / 4 ∧
    msg_init mi hd ds lk kmem now = Ret (inr s) ∧ m = Mmach s [].

Inductive mreachable : mmach → Prop :=
| mr_initial m : minitial m → mreachable m
| mr_step m e m' : mreachable m → menabled mi nosets e m → mexec mi e m = Ret m' → mreachable m'.

Lemma unset_faults e m : unset_step mi e m → mexec mi e m = Fault.
Proof using Type.
  destruct e as [c id what|i|i|now]; try done. intros (t & Ht & r & q & Ec & Ep & Hcv). unfold mexec. rewrite Ht.
  unfold advance. rewrite Ep, Ec. unfold interrupted, msgsnd_eintr. by rewrite Hcv.
Qed.

Lemma reachable_minv m : mreachable m → minv mi nosets m.
Proof using Hio.
  induction 1 as [m (hd & ds & lk & kmem & now & s & H0 & Hm & Hk & Hi & ->)|m e m' Hr IH He Hx].
  - destruct (init_ok hd ds lk kmem now H0 Hm Hk) as (s' & Hi' & Hv). rewrite Hi in Hi'. by injection Hi' as <-.
  - destruct (msg_step_ok mi Hio nosets e m IH He) as (m1 & Hx1 & Hv & _).
    + intros Hu. by rewrite (unset_faults _ _ Hu) in Hx.
    + rewrite Hx in Hx1. by injection Hx1 as <-.
Qed.
Lemma unset_dec e m : minv mi nosets m → menabled mi nosets e m → unset_step mi e m ∨ ¬ unset_step mi e m.
Proof using Hio.
  intros [_ _ _ (qs & Hi)] He. destruct e as [c id what|i|i|nw]; [right; by intros []| |right; by intros []..].
  destruct He as (t & Ht & _ & _). simpl. rewrite Ht.
  assert (unset_qp mi t (m_sys m) ∨ ¬ unset_qp mi t (m_sys m)) as [Hu|Hn]; [|left; by exists t|right; by intros (? & [= <-] & ?)].
  unfold unset_qp. destruct (t_call t) as [r|r|cmd|k f]; [|right; by intros (? & ? & ? & _)..].
  destruct (t_pc t) as [| | | | | | | | |ch|]; try (right; by intros (? & ? & _ & ? & _)).
  destruct ch as [q|q| |]; try (right; by intros (? & ? & _ & ? & _)).
  destruct (msg_conv _ Hio _ _ _ _ _ _ (t_id t) Hi) as (x & ps & _ & _ & _ & ->).
  destruct ((t_id t <? 0) || msg_gone mi (t_id t) x); [left; by exists r, q|right; by intros (? & ? & _ & _ & ?)].
Qed.

(** ** Properties *)


End Props.

(** ** An example *)

Definition ex_mi : msginfo := Msginfo 20 8 16 2 4 2 4.
Lemma ex_mi_ok : info_ok ex_mi.
Proof. split; simpl; lia. Qed.

Definition ex_s0 : msgsys := match msg_init ex_mi 8 112 8 8192 100 with Ret (inr s) => s | _ => Msgsys [] [] 0 (Rmap 0 0 0 []) [] 0 [] end.
Definition ex_m0 : mmach := Mmach ex_s0 [].
Definition ex_caller : caller := Caller (Cred 0 0 []) 1 50 100.
Definition mafter (e : mevent) (m : mmach) : mmach := match mexec ex_mi e m with Ret m' => m' | _ => m end.
#[local] Abbreviation ex_reachable := (mreachable ex_mi False).

(** The lock of a step is free, as a computation. *)
Definition step_free (i : nat) (m : mmach) : bool :=
  match m_threads m !! i with
  | Some t =>
      match t_pc t with Sleep _ | Finished _ => false | _ => true end &&
      forallb (λ u, match lock ex_mi t, holds u with Some q, Some q' => negb (q =? q') | _, _ => true end) (delete i (m_threads m)) &&
      (0 <=? m_want (msgmap (m_sys m))) && (m_want (msgmap (m_sys m)) <? 2 ^ 32 - 1)
  | None => false
  end.

Lemma step_free_ok i m : step_free i m = true → menabled ex_mi False (Run i) m.
Proof.
  unfold step_free. destruct (m_threads m !! i) as [t|] eqn:Ht; [|done]. rewrite !andb_true_iff, forallb_forall.
  intros (((Hc & Hl) & H0) & H1). zb. exists t. split; [done|]. split; [unfold can_run; by destruct (t_pc t)|]. split; [|done].
  intros j u q Hj Hu Hq Hh. assert (u ∈ delete i (m_threads m)) as Hin.
  { rewrite delete_take_drop. apply elem_of_app. destruct (decide (j < i)%nat).
    - left. apply (list_elem_of_lookup_2 _ j). by rewrite lookup_take_lt by lia.
    - right. apply (list_elem_of_lookup_2 _ (j - S i)%nat). rewrite lookup_drop. by replace (S i + (j - S i))%nat with j by lia. }
  apply list_elem_of_In in Hin. specialize (Hl u Hin). rewrite Hq, Hh, Z.eqb_refl in Hl. done.
Qed.

Lemma ex_run i m : ex_reachable m → step_free i m = true → mexec ex_mi (Run i) m = Ret (mafter (Run i) m) → ex_reachable (mafter (Run i) m).
Proof. intros Hr Hc Hx. eapply mr_step; [exact Hr|by apply step_free_ok|exact Hx]. Qed.

Lemma ex_call what m : ex_reachable m → call_ok False what → ex_reachable (mafter (Call ex_caller 0 what) m).
Proof. intros Hr Hc. apply (mr_step _ _ m (Call ex_caller 0 what)); [exact Hr| |reflexivity]. split; [split; lia|done]. Qed.

Definition ex_get : call := Get IPC_PRIVATE 0x1b6.
Definition ex_rcv : call := Rcv (Rcvreq 8 (-5) 0 true true).
Definition ex_snd : call := Snd (Sndreq 3 (Some 5) (Some [97; 98; 99]) 0).
(** A queue is made, and a receiver waits on it. *)
Definition ex_m1 : mmach := mafter (Run 0) (mafter (Call ex_caller 0 ex_get) ex_m0).
Definition ex_m2 : mmach := mafter (Run 1) (mafter (Call ex_caller 0 ex_rcv) ex_m1).
(** A sender has a header and room for the text. *)
Definition ex_sent : mmach := mafter (Call ex_caller 0 ex_snd) ex_m2.
Definition ex_m3 : mmach := mafter (Run 2) (mafter (Run 2) ex_sent).

Lemma ex_m2_reachable : ex_reachable ex_m2.
Proof.
  unfold ex_m2, ex_m1. apply ex_run; [apply ex_call; [apply ex_run; [apply ex_call|..]|]|..]; try (vm_compute; reflexivity).
  - apply mr_initial. exists 8, 112, 8, 8192, 100, ex_s0. split_and!; [lia|vm_compute; congruence..|reflexivity|done].
  - by split; [split|].
Qed.

Lemma ex_sent_reachable : ex_reachable ex_sent.
Proof. apply (ex_call ex_snd ex_m2 ex_m2_reachable). split; [by intros ty [= <-]|by intros t [= <-]]. Qed.

Lemma ex_m3_reachable : ex_reachable ex_m3.
Proof.
  apply (ex_run 2 (mafter (Run 2) ex_sent)); [|vm_compute; reflexivity..].
  apply (ex_run 2 ex_sent ex_sent_reachable); vm_compute; reflexivity.
Qed.



(** [msgget] is one step here, though it finishes a new queue without the queue's lock: a message that is sent between its
    two halves, by somebody who guesses the identifier, is lost. *)
Definition msgget_raced : run (list (list (Z * list Z)) * list (list (Z * list Z))) :=
  match ipcget ex_caller IPC_PRIVATE 0x1b6 (msg_perm <$> msgque ex_s0) with
  | inr (_, q, p) =>
      let* s := mod_q (set_mperm p) q ex_s0 in
      let* s := mod_q (λ x, Msqid_ds (msg_perm x) 0 0 0 0 16 0 0 0 0 0) q s in
      let* (_, s) := msgsnd ex_mi ex_caller 0 (Sndreq 3 (Some 5) (Some [97; 98; 99]) 0) s in
      let* s' := msgget_init ex_mi q s in
      Ret (contents ex_mi s, contents ex_mi s')
  | inl _ => Fault
  end.

Lemma msgget_unlocked : msgget_raced = Ret ([[(5, [97; 98; 99])]; []], [[]; []]).
Proof. vm_compute. reflexivity. Qed.
