(* ===== verification/Sleepq.v ===== *)
(** * Sleep queues ([uts/common/os/sleepq.c], [sys/sleepq.h], [os/tblock_chan.c], [os/slp.c])

    Threads asleep on a condition variable or a channel are on one of 512 sleep queues, linked
    by the field that also links dispatch queues, the best priority first.  The scheduling
    class decides what becomes of a thread that is woken: it is the interface [SchedClass],
    which [Sysclass] implements with the dispatcher. *)

From S2P Require Import Prelude Dispq DispqOps Disp DispInv.

(** ** Threads that wait *)

(** The operations vector of what a thread is asleep on. *)
Inductive sobj := sleep_sops | cv_sops | sema_sops.
#[global] Instance sobj_eq_dec : EqDecision sobj.
Proof. solve_decision. Defined.

Record wait := Wait { t_wchan : Z; t_wchan0 : Z; t_sobj_ops : option sobj }.
Definition no_wait : wait := Wait 0 0 None.

(** A sleep queue: [sleepq_head[i]], or [s_slpq] of semaphore [s]. *)
Abbreviation sqid := (Z + Z)%type.
Abbreviation SLEEPQ := (inl : Z → sqid).
Abbreviation SLPQ := (inr : Z → sqid).

(** ** The scheduling class *)

(** [S] is the state that the class and the dispatcher work on, the threads among it. *)
Class SchedClass (S : Type) := {
  sc_threads : S → threads;
  sc_put : Z → kthread → S → S;
  CL_WAKEUP : ctx → Z → S → run S;
  CL_SETRUN : ctx → Z → S → run S;
  CL_SLEEP : ctx → Z → S → run S
}.

(** A change of a thread that is on no dispatch queue and stays so. *)
Record movable (k k' : kthread) : Prop := {
  mv_off : off_queue k;
  mv_off' : off_queue k';
  mv_prio : 0 ≤ DISP_PRIO k;
  mv_refs : t_cpu k' = t_cpu k ∧ t_cpupart k' = t_cpupart k ∧ t_bound_cpu k' = t_bound_cpu k
}.

Definition asleep (npri : Z) (k : kthread) : Prop := t_state k = TS_SLEEP ∧ off_queue k ∧ 0 ≤ DISP_PRIO k < npri.

(** A class made thread [t] runnable: other threads that are on no dispatch queue are left alone,
    but for the flag that asks them to give up the processor. *)
Record made_runnable {S} `{SchedClass S} (t : Z) (s s' : S) : Prop := {
  mr_thread : ∃ k', sc_threads s' !! t = Some k' ∧ t_state k' = TS_RUN;
  mr_frame u k : u ≠ t → sc_threads s !! u = Some k → off_queue k → ∃ v, sc_threads s' !! u = Some (set_astflag v k);
  mr_runs u k : sc_threads s !! u = Some k → t_state k = TS_RUN → ∃ k', sc_threads s' !! u = Some k' ∧ t_state k' = TS_RUN;
  mr_dom u : is_Some (sc_threads s' !! u) → is_Some (sc_threads s !! u)
}.

(** What sleep queues ask of a class; [ok] is its invariant. *)
Class SchedClassLaws (S : Type) `{SchedClass S} (npri : Z) (ok : S → Prop) : Prop := {
  sc_put_threads t k s : sc_threads (sc_put t k s) = <[t := k]> (sc_threads s);
  sc_move s t k k' : ok s → sc_threads s !! t = Some k → movable k k' → ok (sc_put t k' s);
  sc_wakeup me s t k : ok s → sc_threads s !! t = Some k → asleep npri k → t_link k = None →
    ∃ s', CL_WAKEUP me t s = Ret s' ∧ ok s' ∧ made_runnable t s s';
  sc_setrun me s t k : ok s → sc_threads s !! t = Some k → asleep npri k → t_link k = None →
    ∃ s', CL_SETRUN me t s = Ret s' ∧ ok s' ∧ made_runnable t s s';
  sc_sleep me s t k : ok s → sc_threads s !! t = Some k → t_state k = TS_ONPROC → off_queue k → 0 ≤ DISP_PRIO k < npri →
    ∃ s' k', CL_SLEEP me t s = Ret s' ∧ ok s' ∧ sc_threads s' !! t = Some k' ∧ t_state k' = TS_ONPROC ∧ off_queue k' ∧
      0 ≤ DISP_PRIO k' < npri ∧ (∀ u, u ≠ t → sc_threads s' !! u = sc_threads s !! u)
}.

(** ** The operations *)

(** [b_cv] has [cv_waiters] of every condition variable, [b_count] the count of every semaphore. *)
Record bsys (S : Type) := Bsys {
  b_sys : S;
  b_wait : gmap Z wait;
  b_sq : gmap sqid Z;
  b_cv : gmap Z Z;
  b_count : gmap Z Z
}.
Arguments Bsys {S}.
Arguments b_sys {S}.
Arguments b_wait {S}.
Arguments b_sq {S}.
Arguments b_cv {S}.
Arguments b_count {S}.

Definition sqhashindex (x : Z) : Z := Z.land (w32 (Z.shiftr x 2 + Z.shiftr x 9)) 511.
Definition sqhash (chan : Z) : sqid := SLEEPQ (sqhashindex chan).

Definition set_epri (v : Z) (k : kthread) : kthread :=
  Kthread (t_link k) (t_pri k) v (t_state k) (t_schedflag k) (t_bound_cpu k) (t_cpu k) (t_cpupart k)
    (t_disp_queue k) (t_lockp k) (t_disp_time k) (t_bind_cpu k) (t_affinitycnt k) (t_astflag k).

Section Ops.
Context {S : Type} `{SchedClass S}.
#[local] Abbreviation bsys := (bsys S).

Definition with_sys (s : S) (b : bsys) : bsys := Bsys s (b_wait b) (b_sq b) (b_cv b) (b_count b).
Definition with_wait (t : Z) (w : wait) (b : bsys) : bsys := Bsys (b_sys b) (<[t := w]> (b_wait b)) (b_sq b) (b_cv b) (b_count b).
Definition with_sq (q : sqid) (v : option Z) (b : bsys) : bsys :=
  Bsys (b_sys b) (b_wait b) (partial_alter (λ _, v) q (b_sq b)) (b_cv b) (b_count b).
Definition with_cv (c n : Z) (b : bsys) : bsys := Bsys (b_sys b) (b_wait b) (b_sq b) (<[c := n]> (b_cv b)) (b_count b).
Definition with_count (s n : Z) (b : bsys) : bsys := Bsys (b_sys b) (b_wait b) (b_sq b) (b_cv b) (<[s := n]> (b_count b)).

Definition th (b : bsys) : threads := sc_threads (b_sys b).
Definition wait_of (t : Z) (b : bsys) : wait := default no_wait (b_wait b !! t).
Definition on_class (f : S → run S) (b : bsys) : run bsys := let* s := f (b_sys b) in Ret (with_sys s b).
Definition b_mod (f : kthread → kthread) (t : Z) (b : bsys) : run bsys :=
  let* k := tget (th b) t in Ret (with_sys (sc_put t (f k) (b_sys b)) b).

(** [*tpp], where [tpp] is the head of queue [q] or the link of a thread. *)
Definition load (q : sqid) (tpp : option Z) (b : bsys) : run (option Z) :=
  match tpp with None => Ret (b_sq b !! q) | Some p => let* k := tget (th b) p in Ret (t_link k) end.
Definition store (q : sqid) (tpp v : option Z) (b : bsys) : run bsys :=
  match tpp with None => Ret (with_sq q v b) | Some p => b_mod (set_link v) p b end.

(** The loops [while ((tp = *tpp) != NULL)] that stop at a thread that [stop] holds of. *)
Fixpoint sq_find (fuel : nat) (stop : Z → kthread → bool) (tpp tp : option Z) (b : bsys) : run (option Z * option Z) :=
  match tp with
  | None => Ret (tpp, None)
  | Some t =>
      match fuel with
      | O => Fault
      | Datatypes.S fuel =>
          let* k := tget (th b) t in
          if stop t k then Ret (tpp, Some t) else sq_find fuel stop (Some t) (t_link k) b
      end
  end.
Definition sq_search (stop : Z → kthread → bool) (q : sqid) (b : bsys) : run (option Z * option Z) :=
  let* tp := load q None b in sq_find (size (th b)) stop None tp b.

Definition sleepq_insert (q : sqid) (c : Z) (b : bsys) : run bsys :=
  let* kc := tget (th b) c in
  let* (tpp, tp) := sq_search (λ _ k, DISP_PRIO k <? DISP_PRIO kc) q b in
  let* b := store q tpp (Some c) b in
  b_mod (set_link tp) c b.

(** [*tpp = tp->t_link; tp->t_link = NULL;] *)
Definition sq_unlink (q : sqid) (tpp : option Z) (t : Z) (b : bsys) : run bsys :=
  let* k := tget (th b) t in
  let* b := store q tpp (t_link k) b in
  b_mod (set_link None) t b.

Definition THREAD_CLEAN (t : Z) (b : bsys) : bsys := with_wait t no_wait b.

Definition sleepq_wakeone (me : ctx) (q : sqid) (b : bsys) : run bsys :=
  let* tp := load q None b in
  match tp with
  | None => Ret b
  | Some t => let* b := sq_unlink q None t b in on_class (CL_WAKEUP me t) (THREAD_CLEAN t b)
  end.

Fixpoint wakeall_loop (fuel : nat) (me : ctx) (q : sqid) (b : bsys) : run bsys :=
  let* tp := load q None b in
  match tp with
  | None => Ret (with_sq q None b)
  | Some t =>
      match fuel with
      | O => Fault
      | Datatypes.S fuel =>
          let* b := sq_unlink q None t b in
          let* b := on_class (CL_WAKEUP me t) (THREAD_CLEAN t b) in wakeall_loop fuel me q b
      end
  end.
Definition sleepq_wakeall (me : ctx) (q : sqid) (b : bsys) : run bsys := wakeall_loop (size (th b)) me q b.

(** The thread found, and the state. *)
Definition sleepq_dequeue (q : sqid) (t : Z) (b : bsys) : run (option Z * bsys) :=
  let* (tpp, tp) := sq_search (λ u _, u =? t) q b in
  match tp with
  | None => Ret (None, b)
  | Some _ => let* b := sq_unlink q tpp t b in Ret (Some t, b)
  end.

Definition sleepq_unsleep (q : sqid) (t : Z) (b : bsys) : run (option Z * bsys) :=
  let* (r, b) := sleepq_dequeue q t b in
  match r with
  | None => Ret (None, b)
  | Some _ => let* b := b_mod thread_transition t (THREAD_CLEAN t b) in Ret (Some t, b)
  end.

Definition on_chan (chan : Z) (t : Z) (b : bsys) : bool :=
  (t_wchan (wait_of t b) =? chan) && (t_wchan0 (wait_of t b) =? 0).

(** A thread found by its channel: unlinked, cleaned and woken. *)
Definition chan_wake (me : ctx) (q : sqid) (tpp : option Z) (t : Z) (b : bsys) : run bsys :=
  let* b := sq_unlink q tpp t b in
  on_class (CL_WAKEUP me t) (with_wait t (Wait 0 (t_wchan0 (wait_of t b)) None) b).

Definition sleepq_wakeone_chan (me : ctx) (q : sqid) (chan : Z) (b : bsys) : run bsys :=
  let* (tpp, tp) := sq_search (λ t _, on_chan chan t b) q b in
  match tp with None => Ret b | Some t => chan_wake me q tpp t b end.

Fixpoint wakeall_chan_loop (fuel : nat) (me : ctx) (q : sqid) (chan : Z) (tpp : option Z) (b : bsys) : run bsys :=
  let* tp := load q tpp b in
  match tp with
  | None => Ret b
  | Some t =>
      match fuel with
      | O => Fault
      | Datatypes.S fuel =>
          if on_chan chan t b then let* b := chan_wake me q tpp t b in wakeall_chan_loop fuel me q chan tpp b
          else wakeall_chan_loop fuel me q chan (Some t) b
      end
  end.
Definition sleepq_wakeall_chan (me : ctx) (q : sqid) (chan : Z) (b : bsys) : run bsys :=
  wakeall_chan_loop (size (th b)) me q chan None b.

(** ** Channels *)

(** The body of [t_block_chan], [cv_block] and [SEMA_BLOCK], for the current thread: what it waits for,
    and [count], what is done to the object before the thread is on its queue. *)
Definition t_block (me : ctx) (chan : Z) (ops : sobj) (q : sqid) (count : bsys → run bsys) (b : bsys) : run bsys :=
  let t := curthread me in
  let* b := on_class (CL_SLEEP me t) b in
  let* b := count (with_wait t (Wait chan (t_wchan0 (wait_of t b)) (Some ops)) b) in
  let* b := b_mod (THREAD_SET_STATE TS_SLEEP other_lock) t b in
  sleepq_insert q t b.

Definition t_block_chan (me : ctx) (chan : Z) : bsys → run bsys := t_block me chan sleep_sops (sqhash chan) Ret.
Definition t_release_chan (me : ctx) (chan : Z) (b : bsys) : run bsys := sleepq_wakeone_chan me (sqhash chan) chan b.
Definition t_release_all_chan (me : ctx) (chan : Z) (b : bsys) : run bsys := sleepq_wakeall_chan me (sqhash chan) chan b.
Definition wakeup (me : ctx) (chan : Z) (b : bsys) : run bsys := t_release_all_chan me chan b.
Definition t_waitqempty_chan (chan : Z) (b : bsys) : run bool :=
  let* (_, tp) := sq_search (λ t _, on_chan chan t b) (sqhash chan) b in
  Ret (match tp with None => true | Some _ => false end).

Definition unsleep (me : ctx) (t : Z) (b : bsys) : run bsys :=
  let chan := t_wchan (wait_of t b) in
  if chan =? 0 then Panic
  else
    let* (r, b) := sleepq_unsleep (sqhash chan) t b in
    match r with None => Panic | Some _ => on_class (CL_SETRUN me t) b end.

(** A new priority for a thread on queue [q]. *)
Definition requeue (q : sqid) (t pri : Z) (b : bsys) : run bsys :=
  let* (_, b) := sleepq_dequeue q t b in
  let* b := b_mod (set_epri pri) t b in
  sleepq_insert q t b.
Definition changepri (t pri : Z) (b : bsys) : run bsys :=
  let chan := t_wchan (wait_of t b) in
  if chan =? 0 then Panic else requeue (sqhash chan) t pri b.
End Ops.
