(* ===== verification/SleepqOps.v ===== *)
(** * What the operations on sleep queues do

    The list of a queue, read off the links, is the abstract state.  The invariant: a thread
    waits for something exactly when it is on the queue of what it waits for, and queues are
    sorted by priority. *)

From S2P Require Import Prelude Dispq DispqOps Disp DispInv Sleepq.

(** ** Insertion by priority *)

(** Behind those of its priority or a better one. *)
Fixpoint insert_pri (pr : Z → Z) (c : Z) (l : list Z) : list Z :=
  match l with
  | [] => [c]
  | t :: l' => if pr t <? pr c then c :: l else t :: insert_pri pr c l'
  end.

Definition by_pri (pr : Z → Z) : list Z → Prop := StronglySorted (λ t u, pr u ≤ pr t).

Lemma insert_split pr c l1 l2 : Forall (λ t, pr c ≤ pr t) l1 → (∀ t, head l2 = Some t → pr t < pr c) → insert_pri pr c (l1 ++ l2) = l1 ++ c :: l2.
Proof.
  intros H1 H2. induction H1 as [|t l1 Ht _ IH]; simpl.
  - destruct l2 as [|t l2]; [done|]. simpl. by rewrite (proj2 (Z.ltb_lt _ _)) by (by apply H2).
  - by rewrite (proj2 (Z.ltb_ge _ _)), IH by lia.
Qed.

Lemma insert_perm pr c l : insert_pri pr c l ≡ₚ c :: l.
Proof.
  induction l as [|t l IH]; simpl; [done|]. destruct (pr t <? pr c); [done|]. rewrite IH. by constructor.
Qed.

Lemma insert_sorted pr c l : by_pri pr l → by_pri pr (insert_pri pr c l).
Proof.
  intros Hs. induction Hs as [|t l Hs IH Ht]; simpl; [repeat constructor|]. destruct (Z.ltb_spec (pr t) (pr c)).
  - constructor; [by constructor|]. constructor; [lia|]. eapply Forall_impl; [exact Ht|]. intros u ?. simpl in *. lia.
  - constructor; [done|]. rewrite insert_perm. by constructor.
Qed.

Lemma insert_sorted_inv pr c l : by_pri pr (insert_pri pr c l) → by_pri pr l.
Proof.
  induction l as [|t l IH]; simpl; [constructor|]. destruct (pr t <? pr c); intros [H1 H2]%StronglySorted_inv; [done|].
  constructor; [by apply IH|]. rewrite insert_perm in H2. by apply Forall_cons in H2 as [_ H2].
Qed.

(** Taking some threads of a sorted list away commutes with insertion. *)
Lemma insert_filter pr c l (P : Z → Prop) `{!∀ t, Decision (P t)} : by_pri pr l → P c → filter P (insert_pri pr c l) = insert_pri pr c (filter P l).
Proof.
  intros Hs Hc. induction Hs as [|t l Hs IH Ht]; simpl; [by rewrite filter_cons_True|].
  destruct (Z.ltb_spec (pr t) (pr c)) as [Hlt|Hge].
  - rewrite (filter_cons_True P c) by done. assert (∀ u, u ∈ filter P (t :: l) → pr u < pr c) as Hall.
    { intros u [_ [->|Hu]%elem_of_cons]%list_elem_of_filter; [done|]. rewrite Forall_forall in Ht. specialize (Ht u Hu). simpl in Ht. lia. }
    destruct (filter P (t :: l)) as [|u fl]; [done|]. simpl. rewrite (proj2 (Z.ltb_lt _ _)); [done|]. apply Hall. left.
  - destruct (decide (P t)); [rewrite !filter_cons_True by done; simpl; rewrite (proj2 (Z.ltb_ge _ _)) by done; by rewrite IH|by rewrite !filter_cons_False].
Qed.

Lemma filter_insert_other pr c l (P : Z → Prop) `{!∀ t, Decision (P t)} : ¬ P c → filter P (insert_pri pr c l) = filter P l.
Proof.
  intros Hc. induction l as [|t l IH]; simpl; [by rewrite filter_cons_False|]. destruct (pr t <? pr c); [by rewrite filter_cons_False|].
  destruct (decide (P t)); [rewrite !filter_cons_True by done; by rewrite IH|by rewrite !filter_cons_False].
Qed.

Lemma sq_filter_all (P : Z → Prop) `{!∀ t, Decision (P t)} (l : list Z) : (∀ t, t ∈ l → P t) → filter P l = l.
Proof.
  induction l as [|t l IH]; intros Hp; [done|]. rewrite filter_cons_True by (apply Hp; left). f_equal. apply IH. intros u Hu. apply Hp. by right.
Qed.

Lemma sq_filter_none (P : Z → Prop) `{!∀ t, Decision (P t)} (l : list Z) : (∀ t, t ∈ l → ¬ P t) → filter P l = [].
Proof.
  induction l as [|t l IH]; intros Hp; [done|]. rewrite filter_cons_False by (apply Hp; left). apply IH. intros u Hu. apply Hp. by right.
Qed.

Lemma insert_ext pr pr' c l : (∀ t, t ∈ c :: l → pr t = pr' t) → insert_pri pr c l = insert_pri pr' c l.
Proof.
  induction l as [|t l IH]; intros H; [done|]. simpl. rewrite (H t), (H c) by set_solver. destruct (pr' t <? pr' c); [done|].
  f_equal. apply IH. intros u Hu. apply H. set_solver.
Qed.

Lemma by_pri_ext pr pr' l : (∀ t, t ∈ l → pr t = pr' t) → by_pri pr l → by_pri pr' l.
Proof.
  intros H Hs. induction Hs as [|t l Hs IH Ht]; [constructor|]. constructor; [apply IH; intros; apply H; by right|].
  rewrite Forall_forall in *. intros u Hu. rewrite <-!H by set_solver. by apply Ht.
Qed.

Lemma by_pri_drop pr l1 t l2 : by_pri pr (l1 ++ t :: l2) → by_pri pr (l1 ++ l2).
Proof.
  unfold by_pri. rewrite !StronglySorted_app. intros (H12 & S1 & S2). apply StronglySorted_inv in S2 as [S2 _].
  split_and!; [|done|done]. intros a b Ha Hb. apply H12; [done|by right].
Qed.

(** ** Links *)

Section Links.
Context {S : Type} `{SchedClassLaws S npri ok}.
#[local] Abbreviation bsys := (bsys S).

(** Searching: the threads before the one found do not stop the search. *)
Lemma find_ok stop fuel tpp p b l : linked (th b) p l → (length l ≤ fuel)%nat →
  ∃ l1 l2, l = l1 ++ l2 ∧ sq_find fuel stop tpp p b = Ret (match last l1 with None => tpp | x => x end, head l2) ∧
    (∀ t k, t ∈ l1 → th b !! t = Some k → stop t k = false) ∧ (∀ t, head l2 = Some t → ∃ k, th b !! t = Some k ∧ stop t k = true).
Proof using Type.
  revert fuel tpp p. induction l as [|t l IH]; intros fuel tpp p Hl Hf; simpl in Hl.
  - subst p. exists [], []. destruct fuel; (split; [done|]; split; [done|]); (split; [by intros ? ? ?%elem_of_nil|done]).
  - destruct Hl as (-> & k & Hk & Hl). destruct fuel as [|fuel]; [simpl in Hf; lia|]. simpl. unfold tget. rewrite Hk. cbn [rbind].
    destruct (stop t k) eqn:Es.
    + exists [], (t :: l). split; [done|]. split; [done|]. split; [by intros ? ? ?%elem_of_nil|]. intros t' [= <-]. by exists k.
    + destruct (IH fuel (Some t) (t_link k) Hl ltac:(simpl in Hf; lia)) as (l1 & l2 & -> & Hrun & H1 & H2). exists (t :: l1), l2. split; [done|].
      split; [|split; [|done]].
      * rewrite Hrun. destruct l1 as [|u l1]; [done|]. rewrite (last_cons_cons t u). by destruct (last (u :: l1)) eqn:El; [|apply last_None in El].
      * intros t' k' [->|Hin]%elem_of_cons Hk'; [congruence|by eapply H1].
Qed.

Lemma b_mod_ok f t b k : th b !! t = Some k → b_mod f t b = Ret (with_sys (sc_put t (f k) (b_sys b)) b).
Proof using Type. intros Hk. unfold b_mod, tget. by rewrite Hk. Qed.

Lemma th_put b t k : th (with_sys (sc_put t k (b_sys b)) b) = <[t := k]> (th b).
Proof using H0. unfold th. simpl. apply sc_put_threads. Qed.

Lemma relink_id (k : kthread) v : movable k k → movable k (set_link v k).
Proof using Type. intros [A1 A2 A3 A4]. by split. Qed.

(** What else is left alone by changes of links. *)
Record links_only (b b' : bsys) : Prop := {
  lo_th : relinked (th b) (th b');
  lo_dom t : th b !! t = None → th b' !! t = None;
  lo_wait : b_wait b' = b_wait b;
  lo_cv : b_cv b' = b_cv b;
  lo_count : b_count b' = b_count b
}.

Lemma links_only_refl b : links_only b b.
Proof using Type. split; [apply relinked_refl|done..]. Qed.

Lemma links_only_trans b b1 b2 : links_only b b1 → links_only b1 b2 → links_only b b2.
Proof using Type. intros [A1 A2 A3 A4 A5] [B1 B2 B3 B4 B5]. split; [by eapply relinked_trans|auto|congruence..]. Qed.

Lemma links_only_put b t k v : th b !! t = Some k → links_only b (with_sys (sc_put t (set_link v k) (b_sys b)) b).
Proof using H0.
  intros Hk. split; [|..]; try done; rewrite ?th_put; [by apply relinked_insert|]. intros u Hu. rewrite lookup_insert_ne; [done|]. intros ->. congruence.
Qed.

Definition sleeper (b : bsys) (t : Z) : Prop := ∃ k, th b !! t = Some k ∧ asleep npri k.

Lemma asleep_movable k v : asleep npri k → movable k (set_link v k).
Proof using Type. intros (H1 & H2 & H3). split; [done|done|lia|done]. Qed.

Lemma sleeper_links b b' t : links_only b b' → sleeper b t → sleeper b' t.
Proof using Type. intros Hl (k & Hk & Ha). destruct (lo_th _ _ Hl t k Hk) as [v Hv]. by exists (set_link v k). Qed.

Definition prio (b : bsys) (t : Z) : Z := match th b !! t with Some k => DISP_PRIO k | None => 0 end.

Lemma prio_links b b' t : links_only b b' → is_Some (th b !! t) → prio b' t = prio b t.
Proof using Type. unfold prio. intros Hl [k Hk]. destruct (lo_th _ _ Hl t k Hk) as [v Hv]. by rewrite Hk, Hv. Qed.

Lemma linked_suffix (h : threads) p l1 l2 : linked h p (l1 ++ l2) → linked h (head l2) l2.
Proof using Type.
  revert p. induction l1 as [|u l1 IH]; intros p; simpl; [|intros (_ & k & _ & Hl); by apply (IH (t_link k))].
  destruct l2 as [|t l2]; [done|]. by intros (_ & Hl).
Qed.

(** [*tpp = v], after the threads [l1]. *)
Lemma store_ok q b l1 l2 v : ok (b_sys b) → linked (th b) (b_sq b !! q) (l1 ++ l2) → NoDup (l1 ++ l2) → (∀ t, t ∈ l1 → sleeper b t) →
  ∃ b', store q (last l1) v b = Ret b' ∧ ok (b_sys b') ∧ links_only b b' ∧
    (∀ th2 l2', (∀ u, u ∈ l1 → th2 !! u = th b' !! u) → linked th2 v l2' → linked th2 (b_sq b' !! q) (l1 ++ l2')) ∧
    (∀ q', q' ≠ q → b_sq b' !! q' = b_sq b !! q') ∧ (∀ u, u ∉ l1 → th b' !! u = th b !! u).
Proof using H0.
  intros Hok Hl Hnd Hsl. destruct l1 as [|t l0 _] using rev_ind.
  - exists (with_sq q v b). split; [done|]. split; [done|]. split; [split; [apply relinked_refl|done..]|]. simpl.
    split; [intros th2 l2' _; by rewrite lookup_partial_alter_eq|]. split; [|done]. intros q' Hq. by rewrite lookup_partial_alter_ne.
  - rewrite last_snoc. simpl. destruct (Hsl t ltac:(set_solver)) as (k & Hk & Ha). rewrite (b_mod_ok _ _ _ _ Hk). eexists. split; [done|].
    split; [simpl; eapply sc_move; [done|exact Hk|by apply asleep_movable]|]. split; [by apply links_only_put|]. rewrite th_put. split; [|split; [done|]].
    + intros th2 l2' Hu Hv. simpl. rewrite <-!(assoc_L app) in *. simpl in *. eapply (linked_relink (th b) _ _ l0 t l2 l2' k v); [done|done|done| | |done].
      * rewrite Hu by set_solver. apply lookup_insert_eq.
      * intros u Hin. rewrite Hu by set_solver. apply lookup_insert_ne. intros ->. apply NoDup_app in Hnd as (_ & Hnd & _). apply (Hnd u Hin). left.
    + intros u Hu. apply lookup_insert_ne. intros ->. apply Hu. set_solver.
Qed.

(** ** The invariant *)

(** The queue of what a thread waits for. *)
Definition place (t : Z) (b : bsys) : sqid :=
  match t_sobj_ops (wait_of t b) with Some sema_sops => SLPQ (t_wchan (wait_of t b)) | _ => sqhash (t_wchan (wait_of t b)) end.

Definition waiting (t : Z) (b : bsys) : Prop := t_wchan (wait_of t b) ≠ 0 ∧ is_Some (t_sobj_ops (wait_of t b)).

(** [x] is a thread on its way to or from a queue. *)
Record sleep_ok (x : option Z) (b : bsys) (L : sqid → list Z) : Prop := {
  sl_class : ok (b_sys b);
  sl_linked q : linked (th b) (b_sq b !! q) (L q);
  sl_nodup q : NoDup (L q);
  sl_in q t : t ∈ L q → sleeper b t ∧ place t b = q ∧ waiting t b ∧ x ≠ Some t;
  sl_all t : Some t ≠ x → t_wchan (wait_of t b) ≠ 0 → t ∈ L (place t b);
  sl_sorted q : by_pri (prio b) (L q);
  sl_wchan0 t : t_wchan0 (wait_of t b) = 0
}.

Definition setq (q : sqid) (l : list Z) (L : sqid → list Z) : sqid → list Z := λ q', if decide (q' = q) then l else L q'.

Lemma setq_eq q l L : setq q l L q = l.
Proof using Type. unfold setq. by rewrite decide_True. Qed.

Lemma setq_ne q q' l L : q' ≠ q → setq q l L q' = L q'.
Proof using Type. intros. unfold setq. by rewrite decide_False. Qed.

Lemma wait_links b b' t : links_only b b' → wait_of t b' = wait_of t b.
Proof using Type. intros Hl. unfold wait_of. by rewrite (lo_wait _ _ Hl). Qed.

Lemma place_links b b' t : links_only b b' → place t b' = place t b.
Proof using Type. intros Hl. unfold place. by rewrite (wait_links b b' t Hl). Qed.

Lemma waiting_links b b' t : links_only b b' → waiting t b → waiting t b'.
Proof using Type. intros Hl. unfold waiting. by rewrite (wait_links b b' t Hl). Qed.

Lemma sl_other x b L q q' t : sleep_ok x b L → t ∈ L q → q' ≠ q → t ∉ L q'.
Proof using Type. intros Hs Hq Hne Hq'. destruct (sl_in _ _ _ Hs q t Hq) as (_ & <- & _). destruct (sl_in _ _ _ Hs q' t Hq') as (_ & <- & _). done. Qed.

Lemma sl_exists x b L q t : sleep_ok x b L → t ∈ L q → is_Some (th b !! t).
Proof using Type. intros Hs Hq. destruct (sl_in _ _ _ Hs q t Hq) as ((k & Hk & _) & _). eauto. Qed.

Lemma sl_size x b L q : sleep_ok x b L → (length (L q) ≤ size (th b))%nat.
Proof using Type. intros Hs. apply list_size; [apply Hs|]. intros t Ht. by eapply sl_exists. Qed.

Lemma sorted_links b b' l : links_only b b' → (∀ t, t ∈ l → is_Some (th b !! t)) → by_pri (prio b) l → by_pri (prio b') l.
Proof using Type. intros Hl Hex. apply by_pri_ext. intros t Ht. symmetry. apply prio_links; [done|by apply Hex]. Qed.

(** Other queues stay linked. *)
Lemma linked_others b b' L q q' x (l : list Z) : sleep_ok x b L → q' ≠ q → (∀ u, u ∉ l → th b' !! u = th b !! u) → (∀ u, u ∈ l → u ∉ L q') →
  b_sq b' !! q' = b_sq b !! q' → linked (th b') (b_sq b' !! q') (L q').
Proof using Type.
  intros Hs Hne Hf Hl ->. eapply linked_frame; [|by apply (sl_linked _ _ _ Hs)]. intros t Ht. apply Hf. intros Hin. by apply (Hl t).
Qed.

Lemma search_ok stop q b L x : sleep_ok x b L → ∃ l1 l2, L q = l1 ++ l2 ∧ sq_search stop q b = Ret (last l1, head l2) ∧
  (∀ t k, t ∈ l1 → th b !! t = Some k → stop t k = false) ∧ (∀ t, head l2 = Some t → ∃ k, th b !! t = Some k ∧ stop t k = true).
Proof using Type.
  intros Hs. destruct (find_ok stop (size (th b)) None _ b _ (sl_linked _ _ _ Hs q) (sl_size _ _ _ q Hs)) as (l1 & l2 & E & Hrun & H1 & H2).
  exists l1, l2. split; [done|]. split; [|done]. unfold sq_search. cbn [load rbind]. rewrite Hrun. by destruct (last l1).
Qed.

(** A thread on its way is put on its queue. *)
Lemma insert_ok b L q c : sleep_ok (Some c) b L → sleeper b c → place c b = q → waiting c b →
  ∃ b', sleepq_insert q c b = Ret b' ∧ sleep_ok None b' (setq q (insert_pri (prio b) c (L q)) L) ∧ links_only b b' ∧
    ∀ u, u ∉ L q → u ≠ c → th b' !! u = th b !! u.
Proof using H0.
  intros Hs (kc & Hkc & Hac) Hq Hw. unfold sleepq_insert, tget. rewrite Hkc. cbn [rbind].
  destruct (search_ok (λ _ k, DISP_PRIO k <? DISP_PRIO kc) q b L _ Hs) as (l1 & l2 & EL & -> & H1 & H2). cbn [rbind].
  assert (∀ q', c ∉ L q') as Hc by (intros q' Hin; by destruct (sl_in _ _ _ Hs q' c Hin) as (_ & _ & _ & ?)).
  assert (insert_pri (prio b) c (L q) = l1 ++ c :: l2) as Eins.
  { rewrite EL. apply insert_split.
    - apply Forall_forall. intros t Ht. destruct (sl_exists _ _ _ q t Hs) as [k Hk]; [rewrite EL; set_solver|]. specialize (H1 t k Ht Hk).
      unfold prio. rewrite Hk, Hkc. apply Z.ltb_ge in H1. lia.
    - intros t Ht. destruct (H2 t Ht) as (k & Hk & Hlt). unfold prio. rewrite Hk, Hkc. by apply Z.ltb_lt. }
  pose proof (sl_nodup _ _ _ Hs q) as Hnd. pose proof (sl_linked _ _ _ Hs q) as Hl. rewrite EL in Hnd, Hl.
  destruct (store_ok q b l1 l2 (Some c) (sl_class _ _ _ Hs) Hl Hnd) as (b1 & -> & Hok1 & Hlo1 & Hln1 & Hsq1 & Hf1).
  { intros t Ht. apply (sl_in _ _ _ Hs q t). rewrite EL. set_solver. }
  cbn [rbind]. assert (c ∉ l1) as Hc1 by (intros ?; apply (Hc q); rewrite EL; set_solver).
  assert (th b1 !! c = Some kc) as Hkc1 by (by rewrite Hf1).
  rewrite (b_mod_ok _ _ _ _ Hkc1). eexists. split; [done|]. set (b2 := with_sys _ b1).
  assert (links_only b b2) as Hlo by (eapply links_only_trans; [exact Hlo1|by apply links_only_put]).
  assert (∀ u, u ≠ c → th b2 !! u = th b1 !! u) as Hf2 by (intros u Hu; unfold b2; rewrite th_put; by apply lookup_insert_ne).
  split; [|split; [done|]].
  - split; simpl.
    + eapply sc_move; [done|exact Hkc1|by apply asleep_movable].
    + intros q'. destruct (decide (q' = q)) as [->|Hne].
      * rewrite setq_eq, Eins. apply Hln1; [intros u Hu; apply Hf2; congruence|]. split; [done|]. exists (set_link (head l2) kc).
        split; [unfold b2; rewrite th_put; apply lookup_insert_eq|]. simpl. eapply (linked_frame (th b)).
        -- intros u Hu. rewrite Hf2, Hf1; [done| |].
           ++ apply NoDup_app in Hnd as (_ & Hnd & _). intros Hin. by apply (Hnd u).
           ++ intros ->. apply (Hc q). rewrite EL. set_solver.
        -- by eapply linked_suffix.
      * rewrite setq_ne by done. apply (linked_others b b2 L q q' (Some c) (c :: l1)); [done|done| | |exact (Hsq1 q' Hne)].
        -- intros u Hu. rewrite not_elem_of_cons in Hu. destruct Hu as [Hu1 Hu2]. by rewrite Hf2, Hf1.
        -- intros u [->|Hu]%elem_of_cons; [apply Hc|]. apply (sl_other _ _ _ q q' u Hs); [rewrite EL; set_solver|done].
    + intros q'. destruct (decide (q' = q)) as [->|Hne]; [|rewrite setq_ne by done; apply Hs]. rewrite setq_eq, insert_perm. constructor; [apply Hc|apply Hs].
    + intros q' t Ht. assert (t = c ∧ q' = q ∨ t ∈ L q') as [[-> ->]|Ht'].
      { destruct (decide (q' = q)) as [->|Hne]; [|rewrite setq_ne in Ht by done; by right]. rewrite setq_eq, insert_perm in Ht. apply elem_of_cons in Ht as [->|?]; auto. }
      * split; [by apply (sleeper_links b); [|exists kc]|]. split; [by rewrite (place_links b)|]. split; [by apply (waiting_links b)|done].
      * destruct (sl_in _ _ _ Hs q' t Ht') as (A1 & A2 & A3 & A4). split; [by apply (sleeper_links b)|]. split; [by rewrite (place_links b)|].
        split; [by apply (waiting_links b)|done].
    + intros t _ Ht. rewrite (wait_links b) in Ht by done. rewrite (place_links b) by done. destruct (decide (t = c)) as [->|Hne].
      * rewrite Hq, setq_eq, insert_perm. left.
      * pose proof (sl_all _ _ _ Hs t ltac:(congruence) Ht) as Hin. destruct (decide (place t b = q)) as [Ep|Hneq]; [|by rewrite setq_ne].
        rewrite Ep, setq_eq, insert_perm. rewrite Ep in Hin. by right.
    + intros q'. destruct (decide (q' = q)) as [->|Hne].
      * rewrite setq_eq. apply (sorted_links b); [done| |apply insert_sorted, Hs]. intros t. rewrite insert_perm. intros [->|Ht]%elem_of_cons; [eauto|by eapply sl_exists].
      * rewrite setq_ne by done. apply (sorted_links b); [done| |apply Hs]. intros t Ht. by eapply sl_exists.
    + intros t. rewrite (wait_links b) by done. apply Hs.
  - intros u Hu Hne. rewrite Hf2, Hf1; [done| |done]. intros Hin. apply Hu. rewrite EL. set_solver.
Qed.

(** A thread is taken off its queue. *)
Lemma remove_ok b L q l1 t l2 : sleep_ok None b L → L q = l1 ++ t :: l2 →
  ∃ b', sq_unlink q (last l1) t b = Ret b' ∧ sleep_ok (Some t) b' (setq q (l1 ++ l2) L) ∧ links_only b b' ∧
    (∃ k', th b' !! t = Some k' ∧ asleep npri k' ∧ t_link k' = None) ∧ ∀ u, u ∉ L q → th b' !! u = th b !! u.
Proof using H0.
  intros Hs EL. pose proof (sl_nodup _ _ _ Hs q) as Hnd. pose proof (sl_linked _ _ _ Hs q) as Hl. rewrite EL in Hnd, Hl.
  destruct (linked_inv _ _ _ _ _ Hl) as (k & Hk & Hl2). destruct (sl_in _ _ _ Hs q t) as ((k' & Hk' & Ha) & _); [rewrite EL; set_solver|].
  rewrite Hk in Hk'. injection Hk' as <-. unfold sq_unlink, tget. rewrite Hk. cbn [rbind].
  destruct (store_ok q b l1 (t :: l2) (t_link k) (sl_class _ _ _ Hs) Hl Hnd) as (b1 & -> & Hok1 & Hlo1 & Hln1 & Hsq1 & Hf1).
  { intros u Hu. apply (sl_in _ _ _ Hs q u). rewrite EL. set_solver. }
  cbn [rbind]. apply NoDup_app in Hnd as (Hnd1 & Hnd12 & Hnd2). apply NoDup_cons in Hnd2 as [Ht2 Hnd2].
  assert (t ∉ l1) as Ht1 by (intros Hin; apply (Hnd12 t Hin); left).
  assert (th b1 !! t = Some k) as Hk1 by (by rewrite Hf1).
  rewrite (b_mod_ok _ _ _ _ Hk1). eexists. split; [done|]. set (b2 := with_sys _ b1).
  assert (links_only b b2) as Hlo by (eapply links_only_trans; [exact Hlo1|by apply links_only_put]).
  assert (∀ u, u ≠ t → th b2 !! u = th b1 !! u) as Hf2 by (intros u Hu; unfold b2; rewrite th_put; by apply lookup_insert_ne).
  assert (∀ u, u ∉ L q → th b2 !! u = th b !! u) as Hf.
  { intros u Hu. rewrite EL in Hu. rewrite Hf2, Hf1 by set_solver. done. }
  split; [|split; [done|split; [|done]]].
  - assert (∀ q' u, u ∈ setq q (l1 ++ l2) L q' → u ∈ L q' ∧ u ≠ t) as Hin.
    { intros q' u Hu. destruct (decide (q' = q)) as [->|Hne].
      - rewrite setq_eq in Hu. split; [rewrite EL; set_solver|]. intros ->. set_solver.
      - rewrite setq_ne in Hu by done. split; [done|]. intros ->. apply (sl_other _ _ _ q q' t Hs); [rewrite EL; set_solver|done|done]. }
    split; simpl.
    + eapply sc_move; [done|exact Hk1|by apply asleep_movable].
    + intros q'. destruct (decide (q' = q)) as [->|Hne].
      * rewrite setq_eq. apply Hln1; [intros u Hu; apply Hf2; set_solver|]. apply (linked_frame (th b)); [|done].
        intros u Hu. rewrite Hf2, Hf1; [done|set_solver|set_solver].
      * rewrite setq_ne by done. apply (linked_others b b2 L q q' None (L q)); [done|done|done| |exact (Hsq1 q' Hne)].
        intros u Hu. by apply (sl_other _ _ _ q q' u Hs).
    + intros q'. destruct (decide (q' = q)) as [->|Hne]; [|rewrite setq_ne by done; apply Hs]. rewrite setq_eq. apply NoDup_app.
      split; [done|]. split; [set_solver|done].
    + intros q' u Hu. destruct (Hin q' u Hu) as [Hu' Hne]. destruct (sl_in _ _ _ Hs q' u Hu') as (A1 & A2 & A3 & _).
      split; [by apply (sleeper_links b)|]. split; [by rewrite (place_links b)|]. split; [by apply (waiting_links b)|congruence].
    + intros u Hu Hw. rewrite (wait_links b) in Hw by done. rewrite (place_links b) by done. pose proof (sl_all _ _ _ Hs u ltac:(done) Hw) as Hin'.
      destruct (decide (place u b = q)) as [Ep|]; [|by rewrite setq_ne]. rewrite Ep in *. rewrite setq_eq. rewrite EL in Hin'. set_solver.
    + intros q'. apply (sorted_links b); [done|intros u Hu; apply Hin in Hu as [Hu _]; by eapply sl_exists|].
      destruct (decide (q' = q)) as [->|Hne]; [|rewrite setq_ne by done; apply Hs]. rewrite setq_eq. apply (by_pri_drop _ l1 t l2). rewrite <-EL. apply Hs.
    + intros u. rewrite (wait_links b) by done. apply Hs.
  - exists (set_link None k). split; [|by split]. unfold b2. rewrite th_put. apply lookup_insert_eq.
Qed.

(** ** Threads on no queue *)

Definition outside (t : Z) (L : sqid → list Z) : Prop := ∀ q, t ∉ L q.

Lemma transit_outside b L t : sleep_ok (Some t) b L → outside t L.
Proof using Type. intros Hs q Hin. by destruct (sl_in _ _ _ Hs q t Hin) as (_ & _ & _ & ?). Qed.

Lemma removed_outside b L q l1 t l2 : sleep_ok None b L → L q = l1 ++ t :: l2 → outside t (setq q (l1 ++ l2) L).
Proof using H0.
  intros Hs EL q'. destruct (decide (q' = q)) as [->|Hne].
  - rewrite setq_eq. pose proof (sl_nodup _ _ _ Hs q) as Hnd. rewrite EL in Hnd. apply NoDup_app in Hnd as (_ & H1 & H2%NoDup_cons). set_solver.
  - rewrite setq_ne by done. apply (sl_other _ _ _ q q' t Hs); [rewrite EL; set_solver|done].
Qed.

(** States that agree on what queues are made of. *)
Lemma sleep_frame x b b' L : sleep_ok x b L → ok (b_sys b') → b_sq b' = b_sq b → b_wait b' = b_wait b →
  (∀ q t k, t ∈ L q → th b !! t = Some k → ∃ v, th b' !! t = Some (set_astflag v k)) → sleep_ok x b' L.
Proof using Type.
  intros Hs Hok Hsq Hw Hf. assert (∀ t, wait_of t b' = wait_of t b) as Ew by (intros t; unfold wait_of; by rewrite Hw).
  assert (∀ t, place t b' = place t b) as Ep by (intros t; unfold place; by rewrite Ew).
  split; [done| |apply Hs| | | |].
  - intros q. rewrite Hsq. apply (linked_same (th b)); [|apply Hs]. intros t k Ht Hk. destruct (Hf q t k Ht Hk) as [v Hv]. eauto.
  - intros q t Ht. destruct (sl_in _ _ _ Hs q t Ht) as ((k & Hk & Ha) & A2 & A3 & A4). destruct (Hf q t k Ht Hk) as [v Hv].
    split; [by exists (set_astflag v k)|]. rewrite Ep. unfold waiting. by rewrite Ew.
  - intros t. rewrite Ew, Ep. apply Hs.
  - intros q. apply (by_pri_ext (prio b)); [|apply Hs]. intros t Ht. destruct (sl_exists _ _ _ q t Hs Ht) as [k Hk].
    destruct (Hf q t k Ht Hk) as [v Hv]. unfold prio. by rewrite Hk, Hv.
  - intros t. rewrite Ew. apply Hs.
Qed.

Lemma put_outside x b L t k k' : sleep_ok x b L → outside t L → th b !! t = Some k → movable k k' →
  sleep_ok x (with_sys (sc_put t k' (b_sys b)) b) L.
Proof using H0.
  intros Hs Ht Hk Hm. apply (sleep_frame x b); [done|simpl; by eapply sc_move; [apply Hs| |]|done|done|].
  intros q u ku Hu Hku. exists (t_astflag ku). rewrite th_put, set_astflag_id, lookup_insert_ne; [done|]. intros ->. by apply (Ht q).
Qed.

Lemma wait_insert (b : bsys) t w u : wait_of u (with_wait t w b) = if decide (u = t) then w else wait_of u b.
Proof using Type. unfold wait_of. simpl. destruct (decide (u = t)) as [->|]; [by rewrite lookup_insert_eq|by rewrite lookup_insert_ne]. Qed.

Lemma wait_outside x (b : bsys) L t w : sleep_ok x b L → outside t L → t_wchan0 w = 0 → (∀ u, x = Some u → u = t) →
  sleep_ok (if t_wchan w =? 0 then None else Some t) (with_wait t w b) L.
Proof using Type.
  intros Hs Ht Hw Hx. assert (∀ u, u ≠ t → wait_of u (with_wait t w b) = wait_of u b) as Ew by (intros u Hu; rewrite wait_insert; by rewrite decide_False).
  assert (∀ u, u ≠ t → place u (with_wait t w b) = place u b) as Ep by (intros u Hu; unfold place; by rewrite Ew).
  split; try apply Hs.
  - intros q u Hu. assert (u ≠ t) as Hne by (intros ->; by apply (Ht q)). destruct (sl_in _ _ _ Hs q u Hu) as (A1 & A2 & A3 & A4).
    split; [done|]. split; [by rewrite Ep|]. unfold waiting. rewrite Ew by done. split; [done|]. destruct (t_wchan w =? 0); congruence.
  - intros u Hu Hwu. destruct (decide (u = t)) as [->|Hne].
    + rewrite wait_insert, decide_True in Hwu by done. apply Z.eqb_neq in Hwu. by rewrite Hwu in Hu.
    + rewrite Ew in Hwu by done. rewrite Ep by done. apply (sl_all _ _ _ Hs); [|done]. intros E. symmetry in E. apply Hne. by apply Hx.
  - intros u. rewrite wait_insert. destruct (decide (u = t)); [done|apply Hs].
Qed.

(** ** Waking *)

(** Thread [t] is with its class. *)
Definition runs (t : Z) (b : bsys) : Prop := ∃ k, th b !! t = Some k ∧ t_state k = TS_RUN.
Definition woken (t : Z) (b b' : bsys) : Prop :=
  runs t b' ∧ (∀ u, runs u b → runs u b') ∧
  (∀ u k, u ≠ t → th b !! u = Some k → off_queue k → ∃ v, th b' !! u = Some (set_astflag v k)).

Lemma runnable_ok b L t s' : sleep_ok None b L → outside t L → ok s' → made_runnable t (b_sys b) s' →
  sleep_ok None (with_sys s' b) L ∧ woken t b (with_sys s' b).
Proof using Type.
  intros Hs Ht Hok [H1 H2 Hr _]. split; [|split; [done|split; [intros u (k & Hk & Hst); by apply (Hr u k)|done]]].
  apply (sleep_frame None b); try done.
  intros q u k Hu Hk. apply (H2 u k); [|done|].
  - intros ->. by apply (Ht q).
  - destruct (sl_in _ _ _ Hs q u Hu) as ((k' & Hk' & _ & Hoff & _) & _). by simplify_eq.
Qed.

(** A thread that is taken off its queue is cleaned and given to its class by [f], [CL_WAKEUP] or [CL_SETRUN]. *)
Lemma off_and_run (f : ctx → Z → S → run S) me b L q l1 t l2 w :
  (∀ s k, ok s → sc_threads s !! t = Some k → asleep npri k → t_link k = None → ∃ s', f me t s = Ret s' ∧ ok s' ∧ made_runnable t s s') →
  sleep_ok None b L → L q = l1 ++ t :: l2 → t_wchan w = 0 → t_wchan0 w = 0 →
  ∃ b1 b2, sq_unlink q (last l1) t b = Ret b1 ∧ links_only b b1 ∧ on_class (f me t) (with_wait t w b1) = Ret b2 ∧
    sleep_ok None b2 (setq q (l1 ++ l2) L) ∧ b_wait b2 = <[t := w]> (b_wait b) ∧ b_cv b2 = b_cv b ∧ b_count b2 = b_count b ∧
    (∀ u k, u ≠ t → th b !! u = Some k → off_queue k → ∃ v v', th b2 !! u = Some (set_astflag v (set_link v' k))) ∧
    runs t b2 ∧ ∀ u, runs u b → runs u b2.
Proof using H0.
  intros Hf Hs EL Hw Hw0. destruct (remove_ok b L q l1 t l2 Hs EL) as (b1 & -> & Hs1 & Hlo & (k1 & Hk1 & Ha1 & Hl1) & _).
  pose proof (transit_outside _ _ _ Hs1) as Hout.
  pose proof (wait_outside _ _ _ t w Hs1 Hout Hw0 ltac:(intros u [= ->]; done)) as Hs2. rewrite Hw in Hs2. cbn [Z.eqb] in Hs2.
  destruct (Hf (b_sys b1) k1 (sl_class _ _ _ Hs1) Hk1 Ha1 Hl1) as (s' & Hrun & Hok' & Hmr).
  destruct (runnable_ok (with_wait t w b1) _ t s' Hs2 Hout Hok' Hmr) as [Hs3 (Ht3 & Hr3 & Hu3)].
  exists b1. eexists. split; [done|]. split; [done|]. unfold on_class. cbn [b_sys with_wait]. rewrite Hrun. cbn [rbind].
  split; [done|]. split; [done|]. simpl. rewrite (lo_wait _ _ Hlo), (lo_cv _ _ Hlo), (lo_count _ _ Hlo). split; [done|]. split; [done|]. split; [done|].
  assert (∀ u, runs u b → runs u b1) as Hrl by (intros u (k & Hk & Hst); destruct (lo_th _ _ Hlo u k Hk) as [v Hv]; by exists (set_link v k)).
  split; [|split; [done|intros u Hu; by apply Hr3, Hrl]]. intros u k Hu Hk Hoff. destruct (lo_th _ _ Hlo u k Hk) as [v' Hv']. destruct (Hu3 u _ Hu Hv' Hoff) as [v Hv]. eauto.
Qed.

(** ** Threads that a channel's threads leave alone *)

(** Thread [u] differs in its link and in the flag that asks it to give up the processor, at most. *)
Definition kept_thread (u : Z) (b b' : bsys) : Prop :=
  ∀ k, th b !! u = Some k → off_queue k → ∃ v v', th b' !! u = Some (set_astflag v (set_link v' k)).

Lemma kept_thread_refl u b : kept_thread u b b.
Proof using Type. intros k Hk _. exists (t_astflag k), (t_link k). rewrite set_link_id, set_astflag_id. done. Qed.

Lemma kept_thread_trans u b b1 b2 : kept_thread u b b1 → kept_thread u b1 b2 → kept_thread u b b2.
Proof using Type. intros H1 H2 k Hk Hoff. destruct (H1 k Hk Hoff) as (v & v' & Hv). destruct (H2 _ Hv Hoff) as (w & w' & Hw). exists w, w'. exact Hw. Qed.

Lemma kept_links u b b' : links_only b b' → kept_thread u b b'.
Proof using Type. intros Hl k Hk _. destruct (lo_th _ _ Hl u k Hk) as [v Hv]. exists (t_astflag k), v. by rewrite Hv. Qed.

Lemma kept_prio u b b' : kept_thread u b b' → sleeper b u → prio b' u = prio b u.
Proof using Type. intros Hk (k & E & _ & Hoff & _). destruct (Hk k E Hoff) as (v & v' & E'). unfold prio. by rewrite E, E'. Qed.

(** ** Channels *)

Lemma sleep_ext x b L L' : sleep_ok x b L → (∀ q, L' q = L q) → sleep_ok x b L'.
Proof using Type. intros [A1 A2 A3 A4 A5 A6 A7] E. split; try done; intros; rewrite ?E in *; auto. Qed.

Lemma filter_ext_in (P Q : Z → Prop) `{!∀ t, Decision (P t)} `{!∀ t, Decision (Q t)} (l : list Z) : (∀ t, t ∈ l → P t ↔ Q t) → filter P l = filter Q l.
Proof using Type.
  induction l as [|t l IH]; intros E; [done|]. rewrite !filter_cons. rewrite IH by (intros; apply E; by right).
  assert (P t ↔ Q t) as Ht by (apply E; left). destruct (decide (P t)), (decide (Q t)); tauto.
Qed.

Lemma on_chan_iff chan t x b L : sleep_ok x b L → on_chan chan t b = true ↔ t_wchan (wait_of t b) = chan.
Proof using Type. intros Hs. unfold on_chan. rewrite (sl_wchan0 _ _ _ Hs). rewrite andb_true_r. apply Z.eqb_eq. Qed.

(** What waking the thread [t] on queue [q] does; [l1] and [l2] are those before and behind it. *)
Lemma chan_wake_ok me b L q l1 t l2 : sleep_ok None b L → L q = l1 ++ t :: l2 →
  ∃ b', chan_wake me q (last l1) t b = Ret b' ∧ sleep_ok None b' (setq q (l1 ++ l2) L) ∧ b_wait b' = <[t := no_wait]> (b_wait b) ∧
    b_cv b' = b_cv b ∧ b_count b' = b_count b ∧ runs t b' ∧ (∀ u, runs u b → runs u b') ∧ ∀ u, u ≠ t → kept_thread u b b'.
Proof using H0.
  intros Hs EL. destruct (off_and_run CL_WAKEUP me b L q l1 t l2 no_wait (λ s k, sc_wakeup me s t k) Hs EL)
    as (b1 & b2 & Hun & Hlo & Hrun & Hs2 & Hw & Hcv & Hco & Hk & Ht & Hrr); [done|done|].
  exists b2. unfold chan_wake. rewrite Hun. cbn [rbind]. rewrite (wait_links b b1) by done. rewrite (sl_wchan0 _ _ _ Hs).
  change (Wait 0 0 None) with no_wait. rewrite Hrun. split; [done|]. split; [done|]. split; [done|]. split; [done|]. split; [done|].
  split; [done|]. split; [done|]. intros u Hu k. by apply Hk.
Qed.

Lemma wakeone_chan_ok me b L q chan : sleep_ok None b L →
  ∃ b' l1 l2, sleepq_wakeone_chan me q chan b = Ret b' ∧ L q = l1 ++ l2 ∧ Forall (λ t, t_wchan (wait_of t b) ≠ chan) l1 ∧
    match l2 with
    | [] => b' = b
    | t :: l2 => t_wchan (wait_of t b) = chan ∧ sleep_ok None b' (setq q (l1 ++ l2) L) ∧ b_wait b' = <[t := no_wait]> (b_wait b) ∧
        b_cv b' = b_cv b ∧ b_count b' = b_count b ∧ runs t b' ∧ (∀ u, runs u b → runs u b') ∧ ∀ u, u ≠ t → kept_thread u b b'
    end.
Proof using H0.
  intros Hs. unfold sleepq_wakeone_chan. destruct (search_ok (λ t _, on_chan chan t b) q b L _ Hs) as (l1 & l2 & EL & -> & H1 & H2). cbn [rbind].
  assert (Forall (λ t, t_wchan (wait_of t b) ≠ chan) l1) as Hl1.
  { apply Forall_forall. intros t Ht. destruct (sl_exists _ _ _ q t Hs) as [k Hk]; [rewrite EL; apply elem_of_app; by left|].
    intros E. specialize (H1 t k Ht Hk). apply (on_chan_iff _ _ _ _ _ Hs) in E. congruence. }
  destruct l2 as [|t l2]; [by exists b, l1, []|]. cbn [head]. destruct (chan_wake_ok me b L q l1 t l2 Hs EL) as (b' & Hrun & Hrest).
  exists b', l1, (t :: l2). split; [done|]. split; [done|]. split; [done|]. split; [|done].
  destruct (H2 t eq_refl) as (k & _ & Ht). by apply (on_chan_iff _ _ _ _ _ Hs).
Qed.

Lemma load_ok q b l1 l2 : linked (th b) (b_sq b !! q) (l1 ++ l2) → load q (last l1) b = Ret (head l2).
Proof using Type.
  intros Hl. destruct l1 as [|t l1 _] using rev_ind.
  - simpl in *. destruct l2 as [|t l2]; simpl in Hl; [by rewrite Hl|]. by destruct Hl as [-> _].
  - rewrite last_snoc. simpl. rewrite <-(assoc_L app) in Hl. apply linked_inv in Hl as (k & Hk & Hl). unfold tget. rewrite Hk. cbn [rbind]. f_equal.
    destruct l2 as [|u l2]; simpl in Hl; [done|]. by destruct Hl as [-> _].
Qed.

(** The loop of [sleepq_wakeall_chan], when it has passed the threads [l1]. *)
Lemma wakeall_loop_ok me q chan fuel : ∀ b L l1 l2, sleep_ok None b L → L q = l1 ++ l2 → (length l2 ≤ fuel)%nat →
  let ts := filter (λ t, t_wchan (wait_of t b) = chan) l2 in
  ∃ b', wakeall_chan_loop fuel me q chan (last l1) b = Ret b' ∧
    sleep_ok None b' (setq q (l1 ++ filter (λ t, t_wchan (wait_of t b) ≠ chan) l2) L) ∧
    (∀ u, wait_of u b' = if decide (u ∈ ts) then no_wait else wait_of u b) ∧
    b_cv b' = b_cv b ∧ b_count b' = b_count b ∧ (∀ t, t ∈ ts ∨ runs t b → runs t b') ∧ ∀ u, u ∉ ts → kept_thread u b b'.
Proof using H0.
  induction fuel as [|fuel IH]; intros b L l1 l2 Hs EL Hf ts; pose proof (sl_linked _ _ _ Hs q) as Hl; rewrite EL in Hl;
    cbn [wakeall_chan_loop]; rewrite (load_ok q b l1 l2 Hl); cbn [rbind]; destruct l2 as [|t l2]; cbn [head]; try (simpl in Hf; lia).
  1, 2: exists b; split; [done|]; split; [eapply sleep_ext; [exact Hs|]; intros q'; unfold setq; case_decide as E; [|done]; rewrite E, EL; done|];
    split; [intros u; rewrite decide_False by apply not_elem_of_nil; done|]; split; [done|]; split; [done|]; split;
    [intros u [Hu|Hu]; [by apply elem_of_nil in Hu|done]|intros u _; apply kept_thread_refl].
  pose proof (sl_nodup _ _ _ Hs q) as Hnd. rewrite EL in Hnd. apply NoDup_app in Hnd as (_ & Hnd12 & [Ht2 _]%NoDup_cons).
  destruct (on_chan chan t b) eqn:Eo.
  - apply (on_chan_iff _ _ _ _ _ Hs) in Eo. destruct (chan_wake_ok me b L q l1 t l2 Hs EL) as (b1 & -> & Hs1 & Hw1 & Hcv1 & Hco1 & Hr1 & Hrr1 & Hk1). cbn [rbind].
    assert (∀ u, wait_of u b1 = if decide (u = t) then no_wait else wait_of u b) as Ew.
    { intros u. unfold wait_of. rewrite Hw1. case_decide as E; [rewrite E; by rewrite lookup_insert_eq|by rewrite lookup_insert_ne]. }
    assert (∀ u, u ∈ l2 → wait_of u b1 = wait_of u b) as Ew2 by (intros u Hu; rewrite Ew, decide_False; [done|by intros ->]).
    destruct (IH b1 _ l1 l2 Hs1) as (b' & Hrun & Hs' & Hw' & Hcv' & Hco' & Hr' & Hk'); [by rewrite setq_eq|simpl in Hf; lia|].
    assert (filter (λ u, t_wchan (wait_of u b1) = chan) l2 = filter (λ u, t_wchan (wait_of u b) = chan) l2) as E1.
    { apply filter_ext_in. intros u Hu. by rewrite Ew2. }
    assert (filter (λ u, t_wchan (wait_of u b1) ≠ chan) l2 = filter (λ u, t_wchan (wait_of u b) ≠ chan) l2) as E2.
    { apply filter_ext_in. intros u Hu. by rewrite Ew2. }
    rewrite E1 in *. rewrite E2 in *. assert (ts = t :: filter (λ u, t_wchan (wait_of u b) = chan) l2) as Ets by (unfold ts; by rewrite filter_cons_True).
    rewrite Ets. exists b'. split; [exact Hrun|]. split.
    { eapply sleep_ext; [exact Hs'|]. intros q'. unfold setq. case_decide; [|done]. rewrite filter_cons_False; [done|]. intros Hne. by apply Hne. }
    split; [|split; [congruence|split; [congruence|split]]].
    + intros u. rewrite Hw'. rewrite Ew. destruct (decide (u = t)) as [->|Hne]; [rewrite (decide_True (P := t ∈ t :: _)) by left; by case_decide|].
      destruct (decide (u ∈ filter _ l2)) as [Hu|Hu]; [by rewrite decide_True by (by right)|]. rewrite decide_False; [done|]. by intros [?|?]%elem_of_cons.
    + intros u [[->|Hu]%elem_of_cons|Hu]; apply Hr'; auto.
    + intros u [Hu1 Hu2]%not_elem_of_cons. eapply kept_thread_trans; [by apply Hk1|by apply Hk'].
  - assert (t_wchan (wait_of t b) ≠ chan) as Hne by (intros E; apply (on_chan_iff _ _ _ _ _ Hs) in E; congruence).
    destruct (IH b L (l1 ++ [t]) l2 Hs) as (b' & Hrun & Hs' & Hrest); [by rewrite <-(assoc_L app)|simpl in Hf; lia|].
    rewrite last_snoc in Hrun. assert (ts = filter (λ u, t_wchan (wait_of u b) = chan) l2) as -> by (unfold ts; by rewrite filter_cons_False).
    exists b'. split; [exact Hrun|]. split; [|done]. eapply sleep_ext; [exact Hs'|]. intros q'. unfold setq. case_decide; [|done].
    rewrite filter_cons_True by done. by rewrite <-(assoc_L app).
Qed.

Lemma wakeall_chan_ok me b L q chan : sleep_ok None b L →
  let ts := filter (λ t, t_wchan (wait_of t b) = chan) (L q) in
  ∃ b', sleepq_wakeall_chan me q chan b = Ret b' ∧ sleep_ok None b' (setq q (filter (λ t, t_wchan (wait_of t b) ≠ chan) (L q)) L) ∧
    (∀ u, wait_of u b' = if decide (u ∈ ts) then no_wait else wait_of u b) ∧
    b_cv b' = b_cv b ∧ b_count b' = b_count b ∧ (∀ t, t ∈ ts ∨ runs t b → runs t b') ∧ ∀ u, u ∉ ts → kept_thread u b b'.
Proof using H0.
  intros Hs. exact (wakeall_loop_ok me q chan (size (th b)) b L [] (L q) Hs eq_refl (sl_size _ _ _ q Hs)).
Qed.

(** ** One thread *)

(** The thread [t], found on queue [q]. *)
Lemma dequeue_ok b L q t : sleep_ok None b L → t ∈ L q →
  ∃ b' l1 l2, sleepq_dequeue q t b = Ret (Some t, b') ∧ L q = l1 ++ t :: l2 ∧ sleep_ok (Some t) b' (setq q (l1 ++ l2) L) ∧ links_only b b' ∧
    (∃ k', th b' !! t = Some k' ∧ asleep npri k' ∧ t_link k' = None) ∧ ∀ u, u ∉ L q → th b' !! u = th b !! u.
Proof using H0.
  intros Hs Ht. unfold sleepq_dequeue. destruct (search_ok (λ u _, u =? t) q b L _ Hs) as (l1 & l2 & EL & -> & H1 & H2). cbn [rbind].
  assert (t ∉ l1) as Hnt.
  { intros Hin. destruct (sl_exists _ _ _ q t Hs Ht) as [k Hk]. specialize (H1 t k Hin Hk). by rewrite Z.eqb_refl in H1. }
  rewrite EL in Ht. apply elem_of_app in Ht as [Ht|Ht]; [done|]. destruct l2 as [|u l2]; [by apply elem_of_nil in Ht|].
  destruct (H2 u eq_refl) as (k & _ & Eu). apply Z.eqb_eq in Eu. subst u. cbn [head].
  destruct (remove_ok b L q l1 t l2 Hs EL) as (b' & -> & Hrest). cbn [rbind]. by exists b', l1, l2.
Qed.

Lemma unsleep_ok b L q t : sleep_ok None b L → t ∈ L q →
  ∃ b' l1 l2, sleepq_unsleep q t b = Ret (Some t, b') ∧ L q = l1 ++ t :: l2 ∧ sleep_ok None b' (setq q (l1 ++ l2) L) ∧
    b_wait b' = <[t := no_wait]> (b_wait b) ∧ b_cv b' = b_cv b ∧ b_count b' = b_count b ∧
    (∃ k', th b' !! t = Some k' ∧ asleep npri k' ∧ t_link k' = None) ∧ (∀ u, runs u b → runs u b') ∧ ∀ u, u ≠ t → kept_thread u b b'.
Proof using H0.
  intros Hs Ht. destruct (dequeue_ok b L q t Hs Ht) as (b1 & l1 & l2 & Hd & EL & Hs1 & Hlo & (k1 & Hk1 & Ha1 & Hl1) & _).
  unfold sleepq_unsleep. rewrite Hd. cbn [rbind]. pose proof (transit_outside _ _ _ Hs1) as Hout.
  rewrite (b_mod_ok thread_transition t (THREAD_CLEAN t b1) k1) by done. cbn [rbind].
  set (b2 := with_sys _ (THREAD_CLEAN t b1)). assert (th b2 = <[t := thread_transition k1]> (th b1)) as Hth by exact (th_put (THREAD_CLEAN t b1) t _).
  exists b2, l1, l2. split; [done|]. split; [exact EL|].
  assert (movable k1 (thread_transition k1)) as Hm by (destruct Ha1 as (A1 & A2 & A3); split; [done|by intros ?|lia|done]).
  split.
  { eapply (put_outside None); [|exact Hout|exact Hk1|exact Hm].
    exact (wait_outside _ _ _ t no_wait Hs1 Hout eq_refl ltac:(intros u [= ->]; done)). }
  simpl. rewrite (lo_wait _ _ Hlo), (lo_cv _ _ Hlo), (lo_count _ _ Hlo). split; [done|]. split; [done|]. split; [done|]. split; [|split].
  - exists (thread_transition k1). rewrite Hth. split; [apply lookup_insert_eq|]. split; [|done]. destruct Ha1 as (A1 & A2 & A3). by split.
  - intros u (k & Hk & Hst). destruct (decide (u = t)) as [->|Hne].
    { destruct (lo_th _ _ Hlo t k Hk) as [v Hv]. rewrite Hk1 in Hv. injection Hv as ->. destruct Ha1 as (A1 & _). simpl in A1. congruence. }
    destruct (lo_th _ _ Hlo u k Hk) as [v Hv]. exists (set_link v k). rewrite Hth, lookup_insert_ne; done.
  - intros u Hu k Hk Hoff. destruct (kept_links u b b1 Hlo k Hk Hoff) as (v & v' & Hv). exists v, v'. rewrite Hth, lookup_insert_ne; done.
Qed.

Lemma not_there_ok b L q t : sleep_ok None b L → t ∉ L q → sleepq_dequeue q t b = Ret (None, b).
Proof using Type.
  intros Hs Ht. unfold sleepq_dequeue. destruct (search_ok (λ u _, u =? t) q b L _ Hs) as (l1 & l2 & EL & -> & H1 & H2). cbn [rbind].
  destruct l2 as [|u l2]; [done|]. destruct (H2 u eq_refl) as (k & _ & Eu). apply Z.eqb_eq in Eu. subst u. exfalso. apply Ht. rewrite EL.
  apply elem_of_app. right. left.
Qed.

(** The class makes a thread runnable that was taken off its queue. *)
Lemma setrun_ok me b L t k : sleep_ok None b L → outside t L → th b !! t = Some k → asleep npri k → t_link k = None →
  ∃ s', on_class (CL_SETRUN me t) b = Ret (with_sys s' b) ∧ sleep_ok None (with_sys s' b) L ∧ woken t b (with_sys s' b).
Proof using H0.
  intros Hs Ht Hk Ha Hl. destruct (sc_setrun me (b_sys b) t k (sl_class _ _ _ Hs) Hk Ha Hl) as (s' & Hrun & Hok & Hmr).
  exists s'. unfold on_class. rewrite Hrun. split; [done|]. by apply runnable_ok.
Qed.

(** Counts of waiters are no part of the queues. *)
Lemma sleep_counts x b L cv co : sleep_ok x b L → sleep_ok x (Bsys (b_sys b) (b_wait b) (b_sq b) cv co) L.
Proof using Type.
  intros Hs. apply (sleep_frame x b); try done; [apply Hs|]. intros q t k _ Hk. exists (t_astflag k). rewrite set_astflag_id. exact Hk.
Qed.

(** A thread on queue [q] gets another priority. *)
Lemma requeue_ok b L q t pri : sleep_ok None b L → t ∈ L q → 0 < pri < npri →
  ∃ b' l1 l2, requeue q t pri b = Ret b' ∧ L q = l1 ++ t :: l2 ∧
    sleep_ok None b' (setq q (insert_pri (prio b') t (l1 ++ l2)) L) ∧ b_wait b' = b_wait b ∧ b_cv b' = b_cv b ∧ b_count b' = b_count b ∧
    prio b' t = pri ∧ (∀ u, runs u b → runs u b') ∧ ∀ u, u ≠ t → kept_thread u b b'.
Proof using H0.
  intros Hs Ht Hp. destruct (sl_in _ _ _ Hs q t Ht) as (_ & Hpl & Hwt & _).
  destruct (dequeue_ok b L q t Hs Ht) as (b1 & l1 & l2 & Hd & EL & Hs1 & Hlo & (k1 & Hk1 & Ha1 & Hl1) & _).
  unfold requeue. rewrite Hd. cbn [rbind]. rewrite (b_mod_ok _ _ _ _ Hk1). cbn [rbind]. set (b2 := with_sys _ b1).
  pose proof (transit_outside _ _ _ Hs1) as Hout. pose proof Ha1 as (A1 & A2 & A3).
  assert (DISP_PRIO (set_epri pri k1) = pri) as Epri by (unfold DISP_PRIO, INHERITED; simpl; by rewrite (proj2 (Z.eqb_neq pri 0)) by lia).
  assert (sleep_ok (Some t) b2 (setq q (l1 ++ l2) L)) as Hs2.
  { eapply put_outside; [exact Hs1|exact Hout|exact Hk1|]. split; [done|done|lia|done]. }
  assert (th b2 !! t = Some (set_epri pri k1)) as Hk2 by (unfold b2; rewrite th_put; apply lookup_insert_eq).
  assert (sleeper b2 t) as Hsl by (exists (set_epri pri k1); split; [done|]; split; [done|]; split; [done|]; by rewrite Epri; lia).
  destruct (insert_ok b2 _ q t Hs2 Hsl) as (b3 & -> & Hs3 & Hlo3 & _).
  { rewrite <-Hpl. by apply (place_links b b1). } { by apply (waiting_links b b1). }
  rewrite setq_eq in Hs3. exists b3, l1, l2. split; [done|]. split; [done|].
  assert (∀ u, u ∈ t :: l1 ++ l2 → prio b2 u = prio b3 u) as Epr.
  { intros u Hu. symmetry. apply prio_links; [done|]. apply elem_of_cons in Hu as [->|Hu]; [rewrite Hk2; eauto|].
    apply (sl_exists _ _ _ q u Hs2). by rewrite setq_eq. }
  split.
  { eapply sleep_ext; [exact Hs3|]. intros q'. unfold setq. case_decide; [|done]. symmetry. by apply insert_ext. }
  rewrite (lo_wait _ _ Hlo3), (lo_cv _ _ Hlo3), (lo_count _ _ Hlo3). simpl. rewrite (lo_wait _ _ Hlo), (lo_cv _ _ Hlo), (lo_count _ _ Hlo).
  split; [done|]. split; [done|]. split; [done|]. split; [rewrite <-Epr by left; unfold prio; by rewrite Hk2|]. split.
  - intros u (k & Hk & Hst). destruct (lo_th _ _ Hlo u k Hk) as [v Hv]. assert (u ≠ t) as Hne.
    { intros ->. rewrite Hk1 in Hv. injection Hv as ->. simpl in A1. congruence. }
    destruct (lo_th _ _ Hlo3 u (set_link v k)) as [v3 Hv3]; [unfold b2; rewrite th_put; by rewrite lookup_insert_ne|]. by exists (set_link v3 (set_link v k)).
  - intros u Hu. eapply kept_thread_trans; [by apply kept_links|]. eapply kept_thread_trans; [|by apply kept_links].
    intros k Hk _. exists (t_astflag k), (t_link k). rewrite set_link_id, set_astflag_id. unfold b2. rewrite th_put. by rewrite lookup_insert_ne.
Qed.

(** ** Going to sleep *)

Definition home (ops : sobj) (chan : Z) : sqid := match ops with sema_sops => SLPQ chan | _ => sqhash chan end.

Lemma block_ok me chan ops count b L k cv co : sleep_ok None b L → th b !! curthread me = Some k → t_state k = TS_ONPROC → off_queue k →
  0 ≤ DISP_PRIO k < npri → t_wchan (wait_of (curthread me) b) = 0 → chan ≠ 0 →
  (∀ b1, b_cv b1 = b_cv b → b_count b1 = b_count b → count b1 = Ret (Bsys (b_sys b1) (b_wait b1) (b_sq b1) cv co)) →
  ∃ b', t_block me chan ops (home ops chan) count b = Ret b' ∧
    sleep_ok None b' (setq (home ops chan) (insert_pri (prio b') (curthread me) (L (home ops chan))) L) ∧
    b_wait b' = <[curthread me := Wait chan 0 (Some ops)]> (b_wait b) ∧ b_cv b' = cv ∧ b_count b' = co ∧
    (∀ u, runs u b → runs u b') ∧ ∀ u, u ≠ curthread me → kept_thread u b b'.
Proof using H0.
  intros Hs Hk Hst Hoff Hp Hw Hch Hcount. unfold t_block. set (t := curthread me) in *. set (q := home ops chan).
  destruct (sc_sleep me (b_sys b) t k (sl_class _ _ _ Hs) Hk Hst Hoff Hp) as (s1 & k1 & Hsl & Hok1 & Hk1 & Hst1 & Hoff1 & Hp1 & Hf1).
  unfold on_class. rewrite Hsl. cbn [rbind]. set (b1 := with_sys s1 b).
  assert (outside t L) as Hout.
  { intros q' Hin. by destruct (sl_in _ _ _ Hs q' t Hin) as (_ & _ & [? _] & _). }
  assert (sleep_ok None b1 L) as Hs1.
  { apply (sleep_frame None b); try done. intros q' u ku Hu Hku. exists (t_astflag ku). rewrite set_astflag_id. unfold th. simpl.
    rewrite Hf1; [done|]. intros ->. by apply (Hout q'). }
  rewrite (sl_wchan0 _ _ _ Hs1). set (w := Wait chan 0 (Some ops)).
  pose proof (wait_outside _ _ _ t w Hs1 Hout eq_refl ltac:(done)) as Hs2. change (t_wchan w) with chan in Hs2. rewrite (proj2 (Z.eqb_neq _ _) Hch) in Hs2.
  rewrite Hcount by done. cbn [rbind]. set (b2 := Bsys _ _ _ cv co).
  assert (sleep_ok (Some t) b2 L) as Hs3 by (by apply (sleep_counts (Some t) (with_wait t w b1))).
  assert (th b2 !! t = Some k1) as Hk2 by exact Hk1. rewrite (b_mod_ok _ _ _ _ Hk2). cbn [rbind]. set (b3 := with_sys _ b2).
  set (k3 := THREAD_SET_STATE TS_SLEEP other_lock k1).
  assert (sleep_ok (Some t) b3 L) as Hs4.
  { eapply put_outside; [exact Hs3|exact Hout|exact Hk2|]. split; [done|by intros ?|lia|done]. }
  assert (th b3 !! t = Some k3) as Hk3 by (unfold b3; rewrite th_put; apply lookup_insert_eq).
  assert (wait_of t b3 = w) as Hw3 by (unfold wait_of; simpl; by rewrite lookup_insert_eq).
  destruct (insert_ok b3 L q t Hs4) as (b4 & -> & Hs5 & Hlo & Hf4).
  { exists k3. split; [done|]. split; [done|]. split; [by intros ?|done]. }
  { unfold place. rewrite Hw3. simpl. by destruct ops. } { unfold waiting. rewrite Hw3. by split. }
  exists b4. split; [done|]. split.
  { eapply sleep_ext; [exact Hs5|]. intros q'. unfold setq. case_decide; [|done]. apply insert_ext. intros u Hu. apply prio_links; [done|].
    apply elem_of_cons in Hu as [->|Hu]; [rewrite Hk3; eauto|by eapply sl_exists]. }
  rewrite (lo_wait _ _ Hlo), (lo_cv _ _ Hlo), (lo_count _ _ Hlo). split; [done|]. split; [done|]. split; [done|].
  assert (∀ u, u ≠ t → th b3 !! u = th b !! u) as Hf3.
  { intros u Hu. unfold b3. rewrite th_put, lookup_insert_ne by done. unfold b2, th. simpl. by apply Hf1. }
  split.
  - intros u (ku & Hku & Hru). assert (u ≠ t) as Hne by (intros ->; congruence). destruct (lo_th _ _ Hlo u ku) as [v Hv]; [by rewrite Hf3|].
    by exists (set_link v ku).
  - intros u Hu. eapply kept_thread_trans; [|by apply kept_links]. intros ku Hku _. exists (t_astflag ku), (t_link ku).
    rewrite set_link_id, set_astflag_id. by rewrite Hf3.
Qed.
End Links.
