(* ===== verification/Condvar.v ===== *)
(** * Condition variables and sleep channels ([uts/common/os/condvar.c], [sys/condvar_impl.h])

    A condition variable is a count of waiters and an address: those that wait are on the sleep
    queue that the address hashes to, among others.  The abstract state is one queue for every
    address, sorted by priority and then by time of arrival, which the operations implement. *)

From S2P Require Import Prelude Dispq DispqOps Disp DispInv Sleepq SleepqOps.

(** ** The operations *)

Section Condvar.
Context {S : Type} `{SchedClass S}.
#[local] Abbreviation bsys := (bsys S).

Definition cv_waiters (c : Z) (b : bsys) : run Z := match b_cv b !! c with Some n => Ret n | None => Fault end.

(** With type [CV_DEFAULT] or [CV_DRIVER]. *)
Definition cv_init (c : Z) (b : bsys) : bsys := with_cv c 0 b.

Definition cv_block (me : ctx) (c : Z) : bsys → run bsys :=
  t_block me c cv_sops (sqhash c) (λ b, let* n := cv_waiters c b in Ret (with_cv c (w16 (n + 1)) b)).

Definition cv_signal (me : ctx) (c : Z) (b : bsys) : run bsys :=
  let* n := cv_waiters c b in
  if 0 <? n then sleepq_wakeone_chan me (sqhash c) c (with_cv c (w16 (n - 1)) b) else Ret b.

Definition cv_broadcast (me : ctx) (c : Z) (b : bsys) : run bsys :=
  let* n := cv_waiters c b in
  if 0 <? n then sleepq_wakeall_chan me (sqhash c) c (with_cv c 0 b) else Ret b.

Definition cv_unsleep (me : ctx) (t : Z) (b : bsys) : run bsys :=
  let c := t_wchan (wait_of t b) in
  if c =? 0 then Panic
  else
    let* (r, b) := sleepq_unsleep (sqhash c) t b in
    match r with
    | None => Panic
    | Some _ => let* n := cv_waiters c b in on_class (CL_SETRUN me t) (with_cv c (w16 (n - 1)) b)
    end.

Definition cv_changepri (t pri : Z) (b : bsys) : run bsys :=
  let c := t_wchan (wait_of t b) in
  if c =? 0 then Panic else requeue (sqhash c) t pri b.

(** ** Operations in any order *)

(** On condition variables ([cv]) and on channels. *)
Inductive slpop :=
| Block (me : ctx) (cv : bool) (chan : Z)
| Wakeone (me : ctx) (cv : bool) (chan : Z)
| Wakeall (me : ctx) (cv : bool) (chan : Z)
| Unsleep (me : ctx) (t : Z)
| Changepri (t pri : Z).

Definition is_cv (t : Z) (b : bsys) : bool := bool_decide (t_sobj_ops (wait_of t b) = Some cv_sops).

Definition exec (op : slpop) (b : bsys) : run bsys :=
  match op with
  | Block me cv chan => if cv then cv_block me chan b else t_block_chan me chan b
  | Wakeone me cv chan => if cv then cv_signal me chan b else t_release_chan me chan b
  | Wakeall me cv chan => if cv then cv_broadcast me chan b else t_release_all_chan me chan b
  | Unsleep me t => if is_cv t b then cv_unsleep me t b else unsleep me t b
  | Changepri t pri => if is_cv t b then cv_changepri t pri b else changepri t pri b
  end.

(** ** The abstract queues *)

(** The list that a queue's links make. *)
Fixpoint walk (fuel : nat) (p : option Z) (h : threads) : list Z :=
  match fuel, p with
  | Datatypes.S fuel, Some t => t :: walk fuel (h !! t ≫= t_link) h
  | _, _ => []
  end.

(** Those that wait on a channel, the next to be woken first. *)
Definition waiters (b : bsys) (chan : Z) : list Z :=
  filter (λ t, t_wchan (wait_of t b) = chan) (walk (size (th b)) (b_sq b !! sqhash chan) (th b)).

Definition queues := Z → list Z.
Definition put (chan : Z) (l : list Z) (A : queues) : queues := λ c, if c =? chan then l else A c.

(** The queues after an operation, and the threads that it wakes, in order; [pr] has the priorities. *)
Definition spec (pr : Z → Z) (chan_of : Z → Z) (op : slpop) (A : queues) : queues * list Z :=
  match op with
  | Block me _ chan => (put chan (insert_pri pr (curthread me) (A chan)) A, [])
  | Wakeone _ _ chan => (put chan (tail (A chan)) A, take 1 (A chan))
  | Wakeall _ _ chan => (put chan [] A, A chan)
  | Unsleep _ t => (put (chan_of t) (filter (λ u, u ≠ t) (A (chan_of t))) A, [t])
  | Changepri t _ => (put (chan_of t) (insert_pri pr t (filter (λ u, u ≠ t) (A (chan_of t)))) A, [])
  end.
End Condvar.

(** ** The invariant *)

Section Inv.
Context {S : Type} `{SchedClassLaws S npri ok}.
#[local] Abbreviation bsys := (bsys S).

#[local] Abbreviation sleep_ok := (SleepqOps.sleep_ok (npri := npri) (ok := ok)).
#[local] Abbreviation sleeper := (SleepqOps.sleeper (npri := npri)).

(** Those of [L] that wait on [chan]. *)
Definition on (b : bsys) (L : sqid → list Z) (chan : Z) : list Z := filter (λ t, t_wchan (wait_of t b) = chan) (L (sqhash chan)).

(** [cv_waiters] counts the threads that wait; an address is used as a condition variable or as a channel. *)
Record cv_ok (b : bsys) (L : sqid → list Z) : Prop := {
  co_sleep : sleep_ok None b L;
  co_count c n : b_cv b !! c = Some n → n = zlen (on b L c) ∧ n < 2 ^ 16;
  co_kind t : waiting t b → t_sobj_ops (wait_of t b) = Some cv_sops ↔ is_Some (b_cv b !! t_wchan (wait_of t b));
  co_null : b_cv b !! 0 = None
}.

Lemma walk_ok h p l fuel : linked h p l → (length l ≤ fuel)%nat → walk fuel p h = l.
Proof using Type.
  revert fuel p. induction l as [|t l IH]; intros fuel p; simpl.
  - intros -> _. by destruct fuel.
  - intros (-> & k & Hk & Hl) Hf. destruct fuel as [|fuel]; [lia|]. simpl. rewrite Hk. cbn. f_equal. apply IH; [done|lia].
Qed.

Lemma waiters_on b L chan : cv_ok b L → waiters b chan = on b L chan.
Proof using Type.
  intros Hc. unfold waiters, on. f_equal. apply walk_ok; [apply (co_sleep _ _ Hc)|]. eapply sl_size, Hc.
Qed.

Lemma on_waiting b L chan t : cv_ok b L → t ∈ on b L chan → waiting t b ∧ sleeper b t ∧ t ∈ L (sqhash chan) ∧ t_wchan (wait_of t b) = chan.
Proof using Type. intros Hc [E Ht]%list_elem_of_filter. destruct (sl_in _ _ _ (co_sleep _ _ Hc) _ t Ht) as (A1 & A2 & A3 & A4). done. Qed.

Lemma on_nodup b L chan : cv_ok b L → NoDup (on b L chan).
Proof using Type. intros Hc. apply NoDup_filter, (co_sleep _ _ Hc). Qed.

(** A thread on a sleep queue is on that of its channel. *)
Lemma hashed b L q t : cv_ok b L → t ∈ L q → t_sobj_ops (wait_of t b) ≠ Some sema_sops → q = sqhash (t_wchan (wait_of t b)).
Proof using Type.
  intros Hc Ht Hne. destruct (sl_in _ _ _ (co_sleep _ _ Hc) _ t Ht) as (_ & <- & _). unfold place.
  by destruct (t_sobj_ops _) as [[]|].
Qed.

(** The queue of channel [c] has lost the threads [ts] of [c], whose waits are over. *)
Lemma cv_drop b L b' c (ts : list Z) : cv_ok b L → (∀ t, t ∈ ts → t ∈ on b L c) →
  sleep_ok None b' (setq (sqhash c) (filter (λ t, t ∉ ts) (L (sqhash c))) L) → (∀ u, wait_of u b' = if decide (u ∈ ts) then no_wait else wait_of u b) →
  b_cv b' = alter (λ _, zlen (filter (λ t, t ∉ ts) (on b L c))) c (b_cv b) →
  cv_ok b' (setq (sqhash c) (filter (λ t, t ∉ ts) (L (sqhash c))) L) ∧
  ∀ ch, on b' (setq (sqhash c) (filter (λ t, t ∉ ts) (L (sqhash c))) L) ch = put c (filter (λ t, t ∉ ts) (on b L c)) (on b L) ch.
Proof using Type.
  intros Hc Hts Hs Hw Hcv. set (L' := setq _ _ L) in *.
  assert (∀ ch, on b' L' ch = put c (filter (λ t, t ∉ ts) (on b L c)) (on b L) ch) as Hon.
  { intros ch. assert (∀ t, t ∈ ts → t_wchan (wait_of t b) = c) as Htc by (intros t Ht; by apply Hts, list_elem_of_filter in Ht as [? _]).
    assert (on b' L' ch = filter (λ t, t ∉ ts) (on b L ch)) as ->.
    { unfold on, L', setq. case_decide as E.
      - rewrite E, !list_filter_filter. apply filter_ext_in. intros t Ht. rewrite Hw. case_decide; [|tauto]. tauto.
      - rewrite list_filter_filter. apply filter_ext_in. intros t Ht. rewrite Hw. case_decide as Ein; [|tauto].
        exfalso. apply E. destruct (on_waiting b L c t Hc (Hts t Ein)) as (_ & _ & Hq & _). destruct (decide (sqhash ch = sqhash c)); [done|].
        by destruct (sl_other _ _ _ _ _ _ (co_sleep _ _ Hc) Ht ltac:(done)). }
    unfold put. destruct (Z.eqb_spec ch c) as [->|Hne]; [done|]. apply sq_filter_all. intros t Ht Hin.
    apply list_elem_of_filter in Ht as [E _]. rewrite <-E in Hne. apply Hne. by apply Htc. }
  split; [|exact Hon]. split; [done| | |].
  - intros c' n. rewrite Hon, Hcv. unfold put. destruct (Z.eqb_spec c' c) as [->|Hne].
    + rewrite lookup_alter_eq. destruct (b_cv b !! c) as [m|] eqn:Em; [|done]. intros [= <-]. split; [done|].
      destruct (co_count _ _ Hc c m Em) as [-> Hlt]. pose proof (length_filter (λ t, t ∉ ts) (on b L c)). lia.
    + rewrite lookup_alter_ne by done. by apply (co_count _ _ Hc).
  - intros t. unfold waiting. rewrite Hw. case_decide; [by intros [? _]|]. intros Ht. rewrite (co_kind _ _ Hc t Ht), Hcv. by rewrite lookup_alter_is_Some.
  - rewrite Hcv. destruct (decide (c = 0)) as [->|]; [by rewrite lookup_alter_eq, (co_null _ _ Hc)|by rewrite lookup_alter_ne, (co_null _ _ Hc)].
Qed.

(** Thread [t], on no queue but perhaps that of [c], has been put on the queue of [c]. *)
Lemma cv_insert b L b' c t : cv_ok b L → (∀ q, q ≠ sqhash c → t ∉ L q) → (∀ ch, ch ≠ c → t ∉ on b L ch) →
  sleep_ok None b' (setq (sqhash c) (insert_pri (prio b') t (filter (λ u, u ≠ t) (L (sqhash c)))) L) →
  (∀ u, u ≠ t → wait_of u b' = wait_of u b) → t_wchan (wait_of t b') = c →
  ∀ ch, on b' (setq (sqhash c) (insert_pri (prio b') t (filter (λ u, u ≠ t) (L (sqhash c)))) L) ch =
    put c (insert_pri (prio b') t (filter (λ u, u ≠ t) (on b L c))) (on b L) ch.
Proof using Type.
  intros Hc Hq Hch Hs Hw Ht ch. unfold on, setq. set (l := filter (λ u, u ≠ t) (L (sqhash c))) in *. case_decide as E.
  - assert (by_pri (prio b') l) as Hl.
    { pose proof (sl_sorted _ _ _ Hs (sqhash c)) as H1. rewrite setq_eq in H1. by apply insert_sorted_inv in H1. }
    assert (∀ u, u ∈ l → wait_of u b' = wait_of u b) as Hwl by (intros u [Hu _]%list_elem_of_filter; by apply Hw).
    unfold put. destruct (Z.eqb_spec ch c) as [->|Hne].
    + rewrite insert_filter by done. f_equal. unfold l. rewrite !list_filter_filter. apply filter_ext_in. intros u Hu.
      split; [intros [H1 H2]; rewrite Hw in H1 by done; done|]. intros [H1 H2]. by rewrite Hw.
    + rewrite filter_insert_other by congruence. rewrite E. unfold l. rewrite list_filter_filter. apply filter_ext_in. intros u Hu.
      destruct (decide (u = t)) as [->|Hu']; [|rewrite Hw by done; tauto]. split; [by intros [_ ?]|]. intros Etc. exfalso. apply (Hch ch Hne).
      unfold on. rewrite E. by apply list_elem_of_filter.
  - unfold put. destruct (Z.eqb_spec ch c) as [->|_]; [done|]. apply filter_ext_in. intros u Hu. rewrite Hw; [done|]. intros ->. by apply (Hq _ E).
Qed.

(** ** Every operation implements its specification *)

Definition chan_of (b : bsys) (t : Z) : Z := t_wchan (wait_of t b).

(** The thread that an operation is on. *)
Definition subject (op : slpop) : option Z :=
  match op with Block me _ _ => Some (curthread me) | Unsleep _ t | Changepri t _ => Some t | _ => None end.

(** When the code may call an operation: the current thread runs and waits for nothing; the count of
    waiters does not overflow; an address is used in one way. *)
Definition used_as (cv : bool) (chan : Z) (b : bsys) : Prop :=
  if cv then is_Some (b_cv b !! chan) else b_cv b !! chan = None.
Definition enabled (op : slpop) (b : bsys) : Prop :=
  match op with
  | Block me cv chan => chan ≠ 0 ∧ used_as cv chan b ∧ (∀ n, b_cv b !! chan = Some n → n < 65535) ∧ chan_of b (curthread me) = 0 ∧
      ∃ k, th b !! curthread me = Some k ∧ t_state k = TS_ONPROC ∧ off_queue k ∧ 0 ≤ DISP_PRIO k < npri
  | Wakeone _ cv chan | Wakeall _ cv chan => chan ≠ 0 ∧ used_as cv chan b
  | Unsleep _ t => waiting t b ∧ t_sobj_ops (wait_of t b) ≠ Some sema_sops
  | Changepri t pri => waiting t b ∧ t_sobj_ops (wait_of t b) ≠ Some sema_sops ∧ 0 < pri < npri
  end.

Definition implements (op : slpop) (b : bsys) (L : sqid → list Z) (b' : bsys) : Prop :=
  ∃ L', cv_ok b' L' ∧
    let '(A, woken) := spec (prio b') (chan_of b) op (on b L) in
    (∀ ch, on b' L' ch = A ch) ∧ (∀ t, t ∈ woken ∨ runs t b → runs t b') ∧
    ∀ u, u ∉ woken → Some u ≠ subject op → kept_thread u b b'.

Lemma alter_count (m : gmap Z Z) c n v : m !! c = Some n → <[c := v]> m = alter (λ _, v) c m.
Proof using Type.
  intros E. apply map_eq. intros i. destruct (decide (i = c)) as [->|Hne]; [by rewrite lookup_insert_eq, lookup_alter_eq, E|].
  by rewrite lookup_insert_ne, lookup_alter_ne.
Qed.

Lemma alter_none (m : gmap Z Z) c v : m !! c = None → m = alter (λ _, v) c m.
Proof using Type.
  intros E. apply map_eq. intros i. destruct (decide (i = c)) as [->|Hne]; [by rewrite lookup_alter_eq, E|by rewrite lookup_alter_ne].
Qed.

Lemma drop_one (t : Z) l1 l2 : t ∉ l1 → t ∉ l2 → filter (λ u, u ∉ [t]) (l1 ++ t :: l2) = l1 ++ l2.
Proof using Type.
  intros H1 H2. rewrite filter_app, filter_cons_False; [|intros Hn; apply Hn; left]. f_equal; apply sq_filter_all; intros u Hu ->%list_elem_of_singleton; done.
Qed.

Lemma with_cv_ok x b L c n : sleep_ok x b L → sleep_ok x (with_cv c n b) L.
Proof using Type. intros Hs. by apply sleep_counts. Qed.

(** The one thread [t] of channel [c] is woken or taken away. *)
Lemma one_gone b L b' c l1 t l2 : cv_ok b L → t ∈ on b L c → L (sqhash c) = l1 ++ t :: l2 → sleep_ok None b' (setq (sqhash c) (l1 ++ l2) L) →
  b_wait b' = <[t := no_wait]> (b_wait b) → (∀ n, b_cv b !! c = Some n → b_cv b' = <[c := n - 1]> (b_cv b)) → (b_cv b !! c = None → b_cv b' = b_cv b) →
  ∃ L', cv_ok b' L' ∧ ∀ ch, on b' L' ch = put c (filter (λ u, u ∉ [t]) (on b L c)) (on b L) ch.
Proof using Type.
  intros Hc Ht EL Hs Hw Hn Hnone. pose proof (sl_nodup _ _ _ (co_sleep _ _ Hc) (sqhash c)) as Hnd. rewrite EL in Hnd.
  apply NoDup_app in Hnd as (_ & H12 & [Ht2 _]%NoDup_cons). assert (t ∉ l1) as Ht1 by (intros Hin; apply (H12 t Hin); left).
  assert (filter (λ u, u ∉ [t]) (L (sqhash c)) = l1 ++ l2) as Ef by (rewrite EL; by apply drop_one).
  destruct (cv_drop b L b' c [t] Hc) as [Hok Hon]; [intros u ->%list_elem_of_singleton; done|by rewrite Ef| | |].
  - intros u. unfold wait_of. rewrite Hw. case_decide as E; [apply list_elem_of_singleton in E as ->; by rewrite lookup_insert_eq|].
    rewrite lookup_insert_ne; [done|]. intros ->. apply E. left.
  - assert (zlen (filter (λ u, u ∉ [t]) (on b L c)) = zlen (on b L c) - 1) as Elen.
    { pose proof (on_nodup b L c Hc) as Hnd. apply list_elem_of_split in Ht as (m1 & m2 & Em). rewrite Em in *.
      apply NoDup_app in Hnd as (_ & G12 & [G2 _]%NoDup_cons). rewrite drop_one by (done || (intros Hin; apply (G12 t Hin); left)).
      rewrite !length_app. simpl. lia. }
    destruct (b_cv b !! c) as [n|] eqn:En.
    + rewrite (Hn n eq_refl), Elen. destruct (co_count _ _ Hc c n En) as [-> _]. by eapply alter_count.
    + rewrite (Hnone eq_refl). by apply alter_none.
  - by exists (setq (sqhash c) (filter (λ u, u ∉ [t]) (L (sqhash c))) L).
Qed.

Lemma wakeone_ok me b L c : cv_ok b L → ∀ b1, b1 = b ∨ (∃ n, b_cv b !! c = Some n ∧ b1 = with_cv c (n - 1) b ∧ 0 < n) → (b1 = b → b_cv b !! c = None) →
  ∃ b', sleepq_wakeone_chan me (sqhash c) c b1 = Ret b' ∧
    match on b L c with
    | [] => b' = b1 ∧ b1 = b
    | t :: l => (∃ L', cv_ok b' L' ∧ ∀ ch, on b' L' ch = put c l (on b L) ch) ∧ (∀ u, u = t ∨ runs u b → runs u b') ∧ ∀ u, u ≠ t → kept_thread u b b'
    end.
Proof using H0.
  intros Hc b1 Hb1 Hnone. assert (sleep_ok None b1 L) as Hs1 by (destruct Hb1 as [-> |(n & _ & -> & _)]; [apply Hc|apply with_cv_ok, Hc]).
  assert (∀ u, wait_of u b1 = wait_of u b) as Ew by (intros u; by destruct Hb1 as [-> |(n & _ & -> & _)]).
  destruct (wakeone_chan_ok me b1 L (sqhash c) c Hs1) as (b' & l1 & l2 & -> & EL & Hl1 & Hl2). exists b'. split; [done|].
  assert (on b L c = filter (λ t, t_wchan (wait_of t b) = c) l2) as Eon.
  { unfold on. rewrite EL, filter_app. rewrite (sq_filter_none _ l1); [done|]. rewrite Forall_forall in Hl1. intros t Ht. rewrite <-Ew. by apply Hl1. }
  rewrite Eon. destruct l2 as [|t l2].
  { split; [exact Hl2|]. destruct Hb1 as [->|(n & En & _ & Hpos)]; [done|]. destruct (co_count _ _ Hc c n En) as [-> _]. rewrite Eon in Hpos. simpl in Hpos. lia. }
  destruct Hl2 as (Et & Hs' & Hw' & Hcv' & _ & Hr & Hrr & Hk). rewrite Ew in Et. rewrite filter_cons_True in * by done.
  split; [|split; [intros u [->|Hu]; [done|by apply Hrr; destruct Hb1 as [-> |(n & _ & -> & _)]]|intros u Hu k Hk1; by apply Hk; destruct Hb1 as [-> |(n & _ & -> & _)]]].
  destruct (one_gone b L b' c l1 t l2 Hc) as (L' & Hok & Hon); try done; [rewrite Eon; left| | | |].
  - rewrite Hw'. by destruct Hb1 as [-> |(n & _ & -> & _)].
  - intros n En. rewrite Hcv'. destruct Hb1 as [-> |(m & Em & -> & _)]; [rewrite (Hnone eq_refl) in En; done|]. rewrite En in Em. by injection Em as ->.
  - intros En. rewrite Hcv'. destruct Hb1 as [-> |(m & Em & -> & _)]; [done|congruence].
  - exists L'. split; [done|]. intros ch. rewrite Hon, Eon. unfold put. case_match; [|done]. pose proof (on_nodup b L c Hc) as Hnd. rewrite Eon in Hnd.
    apply NoDup_cons in Hnd as [Hnt _]. exact (drop_one t [] _ (not_elem_of_nil t) Hnt).
Qed.

Lemma wakeall_ok me b L c : cv_ok b L → ∀ b1, b1 = b ∨ (is_Some (b_cv b !! c) ∧ b1 = with_cv c 0 b) → (b1 = b → b_cv b !! c = None) →
  ∃ b' L', sleepq_wakeall_chan me (sqhash c) c b1 = Ret b' ∧ cv_ok b' L' ∧ (∀ ch, on b' L' ch = put c [] (on b L) ch) ∧
    (∀ u, u ∈ on b L c ∨ runs u b → runs u b') ∧ ∀ u, u ∉ on b L c → kept_thread u b b'.
Proof using H0.
  intros Hc b1 Hb1 Hnone. assert (sleep_ok None b1 L) as Hs1 by (destruct Hb1 as [-> |(_ & ->)]; [apply Hc|apply with_cv_ok, Hc]).
  assert (∀ u, wait_of u b1 = wait_of u b) as Ew by (intros u; by destruct Hb1 as [-> |(_ & ->)]).
  assert (∀ u, runs u b → runs u b1) as Er by (intros u Hu; by destruct Hb1 as [-> |(_ & ->)]).
  destruct (wakeall_chan_ok me b1 L (sqhash c) c Hs1) as (b' & -> & Hs' & Hw' & Hcv' & _ & Hr & Hk).
  assert (filter (λ t, t_wchan (wait_of t b1) = c) (L (sqhash c)) = on b L c) as Eon by (apply filter_ext_in; intros t _; by rewrite Ew).
  assert (filter (λ t, t_wchan (wait_of t b1) ≠ c) (L (sqhash c)) = filter (λ t, t ∉ on b L c) (L (sqhash c))) as Eno.
  { apply filter_ext_in. intros t Ht. rewrite Ew. unfold on. rewrite list_elem_of_filter. tauto. }
  rewrite Eon in *. rewrite Eno in Hs'.
  assert (filter (λ t, t ∉ on b L c) (on b L c) = []) as Enil by (apply sq_filter_none; intros t Ht Hn; done).
  destruct (cv_drop b L b' c (on b L c) Hc) as [Hok Hon]; [done|exact Hs'|intros u; by rewrite Hw', Ew| |].
  { rewrite Hcv', Enil. destruct Hb1 as [-> |([n En] & ->)]; [by apply alter_none, Hnone|]. by eapply alter_count. }
  rewrite Enil in Hon. exists b'. eexists. split; [done|]. split; [exact Hok|]. split; [exact Hon|]. split.
  - intros u [Hu|Hu]; apply Hr; [by left|right; by apply Er].
  - intros u Hu k Hk1. apply (Hk u Hu). by destruct Hb1 as [-> |(_ & ->)].
Qed.

Lemma unsleep_step me b L t : cv_ok b L → waiting t b → t_sobj_ops (wait_of t b) ≠ Some sema_sops →
  ∃ b', exec (Unsleep me t) b = Ret b' ∧ implements (Unsleep me t) b L b'.
Proof using H0.
  intros Hc Hw Hsem. set (c := chan_of b t). assert (t ∈ L (sqhash c)) as Ht.
  { pose proof (sl_all _ _ _ (co_sleep _ _ Hc) t ltac:(done) (proj1 Hw)) as Hin. unfold place in Hin. unfold c, chan_of. by destruct (t_sobj_ops _) as [[]|]. }
  assert (t ∈ on b L c) as Hton by (by apply list_elem_of_filter).
  destruct (unsleep_ok b L _ t (co_sleep _ _ Hc) Ht) as (b1 & l1 & l2 & Hun & EL & Hs1 & Hw1 & Hcv1 & Hco1 & (k1 & Hk1 & Ha1 & Hl1) & Hr1 & Hkept).
  pose proof (removed_outside _ _ _ _ _ _ (co_sleep _ _ Hc) EL) as Hout.
  assert (∃ b2 n, b2 = (if is_cv t b then with_cv c n b1 else b1) ∧ (is_cv t b = true → b_cv b !! c = Some (n + 1)) ∧
    exec (Unsleep me t) b = on_class (CL_SETRUN me t) b2) as (b2 & n & Eb2 & En & ->).
  { simpl. unfold cv_unsleep, unsleep. fold (chan_of b t) c. rewrite (proj2 (Z.eqb_neq c 0)), Hun by apply Hw. cbn [rbind]. unfold cv_waiters.
    destruct (is_cv t b) eqn:Ei; [|by exists b1, 0]. apply bool_decide_eq_true in Ei. apply (co_kind _ _ Hc t Hw) in Ei as [n En].
    fold (chan_of b t) c in En. rewrite Hcv1, En. cbn [rbind]. exists (with_cv c (n - 1) b1), (n - 1). split; [|split; [intros _; f_equal; lia|]]; [done|].
    destruct (co_count _ _ Hc c n En) as [En' Hlt]. rewrite w16_id; [done|]. destruct (on b L c); [by apply elem_of_nil in Hton|]. simpl in En'. lia. }
  assert (sleep_ok None b2 (setq (sqhash c) (l1 ++ l2) L)) as Hs2 by (rewrite Eb2; destruct (is_cv t b); [by apply with_cv_ok|done]).
  assert (th b2 = th b1) as Eth by (rewrite Eb2; by destruct (is_cv t b)).
  destruct (setrun_ok me b2 _ t k1 Hs2 Hout) as (s' & -> & Hs3 & (Ht3 & Hr3 & Hu3)); [by rewrite Eth|done|done|].
  exists (with_sys s' b2). split; [done|]. destruct (one_gone b L (with_sys s' b2) c l1 t l2 Hc Hton EL Hs3) as (L' & Hok & Hon).
  - rewrite <-Hw1, Eb2. by destruct (is_cv t b).
  - intros m Em. rewrite Eb2. destruct (is_cv t b) eqn:Ei; [rewrite (En eq_refl) in Em; injection Em as <-; simpl; by rewrite Hcv1, Z.add_simpl_r|].
    apply bool_decide_eq_false in Ei. exfalso. apply Ei. apply (co_kind _ _ Hc t Hw). fold (chan_of b t) c. by rewrite Em.
  - intros Em. rewrite Eb2. destruct (is_cv t b) eqn:Ei; [by rewrite (En eq_refl) in Em|done].
  - exists L'. split; [done|]. cbn [spec subject]. fold c. split; [|split].
    + intros ch. rewrite Hon. unfold put. destruct (ch =? c); [|done]. apply filter_ext_in. intros u _. by rewrite list_elem_of_singleton.
    + intros u [->%list_elem_of_singleton|Hu]; [done|]. apply Hr3. destruct (Hr1 u Hu) as (k & Hk & Hst). exists k. by rewrite Eth.
    + intros u _ Hne. eapply kept_thread_trans; [apply Hkept; congruence|]. intros k Hk Hoff. rewrite <-Eth in Hk.
      destruct (Hu3 u k ltac:(congruence) Hk Hoff) as [v Hv]. exists v, (t_link k). by rewrite set_link_id.
Qed.

Lemma changepri_step b L t pri : cv_ok b L → enabled (Changepri t pri) b →
  ∃ b', exec (Changepri t pri) b = Ret b' ∧ implements (Changepri t pri) b L b'.
Proof using H0.
  intros Hc (Hw & Hsem & Hp). set (c := chan_of b t). assert (t ∈ L (sqhash c)) as Ht.
  { pose proof (sl_all _ _ _ (co_sleep _ _ Hc) t ltac:(done) (proj1 Hw)) as Hin. unfold place in Hin. unfold c, chan_of. by destruct (t_sobj_ops _) as [[]|]. }
  assert (exec (Changepri t pri) b = requeue (sqhash c) t pri b) as ->.
  { simpl. unfold cv_changepri, changepri. fold (chan_of b t) c. rewrite (proj2 (Z.eqb_neq c 0)) by apply Hw. by destruct (is_cv t b). }
  destruct (requeue_ok b L _ t pri (co_sleep _ _ Hc) Ht Hp) as (b' & l1 & l2 & -> & EL & Hs' & Hw' & Hcv' & _ & Hpr & Hr & Hk).
  exists b'. split; [done|].
  pose proof (sl_nodup _ _ _ (co_sleep _ _ Hc) (sqhash c)) as Hnd. rewrite EL in Hnd.
  apply NoDup_app in Hnd as (_ & H12 & [Ht2 _]%NoDup_cons). assert (t ∉ l1) as Ht1 by (intros Hin; apply (H12 t Hin); left).
  assert (l1 ++ l2 = filter (λ u, u ≠ t) (L (sqhash c))) as Ef.
  { rewrite EL, <-(drop_one t l1 l2) by done. apply filter_ext_in. intros u _. by rewrite list_elem_of_singleton. }
  rewrite Ef in Hs'. assert (∀ u, wait_of u b' = wait_of u b) as Ew by (intros u; unfold wait_of; by rewrite Hw').
  assert (∀ ch, on b' (setq (sqhash c) (insert_pri (prio b') t (filter (λ u, u ≠ t) (L (sqhash c)))) L) ch =
    put c (insert_pri (prio b') t (filter (λ u, u ≠ t) (on b L c))) (on b L) ch) as Hon.
  { apply cv_insert; try done; [| |by rewrite Ew].
    - intros q Hq Hin. by apply (sl_other _ _ _ _ _ _ (co_sleep _ _ Hc) Ht Hq).
    - intros ch Hne Hin. apply list_elem_of_filter in Hin as [Hin _]. by apply Hne. }
  eexists. split; [|cbn [spec subject]; fold c; split; [exact Hon|split; [|intros u _ Hne; apply Hk; intros ->; by apply Hne]]].
  - split; [exact Hs'| | |by rewrite Hcv', (co_null _ _ Hc)].
    + intros c' n. rewrite Hcv'. intros Hn. destruct (co_count _ _ Hc c' n Hn) as [-> Hlt]. rewrite Hon. unfold put.
      destruct (Z.eqb_spec c' c) as [->|]; [|done]. rewrite insert_perm. cbn [length]. split; [|done].
      assert (t ∈ on b L c) as Hton by (by apply list_elem_of_filter). pose proof (on_nodup b L c Hc) as Hnd.
      apply list_elem_of_split in Hton as (m1 & m2 & Em). rewrite Em in *. apply NoDup_app in Hnd as (_ & G12 & [G2 _]%NoDup_cons).
      assert (filter (λ u, u ≠ t) (m1 ++ t :: m2) = m1 ++ m2) as ->.
      { rewrite <-(drop_one t m1 m2) by (done || (intros Hin; apply (G12 t Hin); left)). apply filter_ext_in. intros u _. by rewrite list_elem_of_singleton. }
      rewrite !length_app. simpl. lia.
    + intros u. unfold waiting. rewrite Ew, Hcv'. apply Hc.
  - intros u [[]%elem_of_nil|Hu]. by apply Hr.
Qed.

Lemma block_step me cv chan b L : cv_ok b L → enabled (Block me cv chan) b →
  ∃ b', exec (Block me cv chan) b = Ret b' ∧ implements (Block me cv chan) b L b'.
Proof using H0.
  intros Hc (Hch & Hused & Hmax & Hfree & k & Hk & Hst & Hoff & Hp). set (t := curthread me) in *.
  set (ops := if cv then cv_sops else sleep_sops). assert (home ops chan = sqhash chan) as Eh by (by destruct cv).
  set (m := alter (λ n, n + 1) chan (b_cv b)).
  assert (∃ count, exec (Block me cv chan) b = t_block me chan ops (home ops chan) count b ∧
    ∀ b1, b_cv b1 = b_cv b → b_count b1 = b_count b → count b1 = Ret (Bsys (b_sys b1) (b_wait b1) (b_sq b1) m (b_count b))) as (count & -> & Hcount).
  { rewrite Eh. simpl. unfold cv_block, t_block_chan, ops. destruct cv; eexists; (split; [done|]); intros b1 E1 E2; simpl.
    - unfold cv_waiters. rewrite E1. destruct Hused as [n En]. rewrite En. cbn [rbind]. unfold with_cv. rewrite E1, E2. do 2 f_equal.
      destruct (co_count _ _ Hc chan n En) as [E _]. rewrite w16_id by (specialize (Hmax n En); lia). unfold m. apply map_eq. intros i.
      destruct (decide (i = chan)) as [->|]; [by rewrite lookup_insert_eq, lookup_alter_eq, En|by rewrite lookup_insert_ne, lookup_alter_ne].
    - destruct b1 as [s1 w1 q1 c1 o1]. simpl in *. subst. do 2 f_equal. unfold m. apply map_eq. intros i.
      destruct (decide (i = chan)) as [->|]; [by rewrite lookup_alter_eq, Hused|by rewrite lookup_alter_ne]. }
  destruct (block_ok me chan ops count b L k m (b_count b) (co_sleep _ _ Hc) Hk Hst Hoff Hp Hfree Hch Hcount) as (b' & -> & Hs' & Hw' & Hcv' & _ & Hr & Hkept).
  fold t in Hs', Hw'. rewrite Eh in Hs'. exists b'. split; [done|].
  assert (∀ q, t ∉ L q) as Hout by (intros q Hin; destruct (sl_in _ _ _ (co_sleep _ _ Hc) q t Hin) as (_ & _ & [? _] & _); done).
  assert (L (sqhash chan) = filter (λ u, u ≠ t) (L (sqhash chan))) as Ef.
  { symmetry. apply sq_filter_all. intros u Hu ->. by apply (Hout (sqhash chan)). }
  rewrite Ef in Hs' at 1. assert (∀ u, u ≠ t → wait_of u b' = wait_of u b) as Ew by (intros u Hu; unfold wait_of; rewrite Hw'; by rewrite lookup_insert_ne).
  assert (wait_of t b' = Wait chan 0 (Some ops)) as Ewt by (unfold wait_of; rewrite Hw'; by rewrite lookup_insert_eq).
  assert (t ∉ on b L chan) as Hnon by (intros [_ Hin]%list_elem_of_filter; by apply (Hout (sqhash chan))).
  assert (∀ ch, on b' (setq (sqhash chan) (insert_pri (prio b') t (filter (λ u, u ≠ t) (L (sqhash chan)))) L) ch =
    put chan (insert_pri (prio b') t (on b L chan)) (on b L) ch) as Hon.
  { intros ch. rewrite (cv_insert b L b' chan t Hc); try done; [| |by rewrite Ewt].
    - rewrite (sq_filter_all _ (on b L chan)); [done|]. by intros u Hu ->.
    - intros ch' _ [_ Hin]%list_elem_of_filter. by apply (Hout (sqhash ch')). }
  eexists. split; [|cbn [spec subject]; fold t; split; [exact Hon|split; [intros u [[]%elem_of_nil|Hu]; by apply Hr|intros u _ Hne; apply Hkept; intros ->; by apply Hne]]].
  split; [exact Hs'| | |].
  - intros c' n. rewrite Hcv', Hon. unfold m, put. destruct (Z.eqb_spec c' chan) as [->|Hne].
    + rewrite lookup_alter_eq. destruct (b_cv b !! chan) as [n0|] eqn:En; [|done]. intros [= <-]. rewrite insert_perm. cbn [length].
      destruct (co_count _ _ Hc chan n0 En) as [-> _]. specialize (Hmax _ eq_refl). lia.
    + rewrite lookup_alter_ne by done. by apply (co_count _ _ Hc).
  - intros u. unfold waiting. destruct (decide (u = t)) as [->|Hne].
    + rewrite Ewt, Hcv'. intros _. simpl. unfold m. rewrite lookup_alter_is_Some. unfold ops. destruct cv; simpl in Hused; [by split|].
      rewrite Hused. split; [done|by intros []].
    + rewrite Ew, Hcv' by done. unfold m. rewrite lookup_alter_is_Some. apply (co_kind _ _ Hc).
  - rewrite Hcv'. unfold m. by rewrite lookup_alter_ne, (co_null _ _ Hc).
Qed.

Lemma used_counts cv chan b L : cv_ok b L → used_as cv chan b → if cv then ∃ n, b_cv b !! chan = Some n ∧ n = zlen (on b L chan) ∧ 0 ≤ n < 2 ^ 16 else b_cv b !! chan = None.
Proof using Type. intros Hc. destruct cv; [|done]. intros [n En]. exists n. split; [done|]. destruct (co_count _ _ Hc chan n En). lia. Qed.

Lemma wakeone_step me cv chan b L : cv_ok b L → enabled (Wakeone me cv chan) b →
  ∃ b', exec (Wakeone me cv chan) b = Ret b' ∧ implements (Wakeone me cv chan) b L b'.
Proof using H0.
  intros Hc [Hch Hu]. pose proof (used_counts _ _ _ _ Hc Hu) as Hn.
  assert (exec (Wakeone me cv chan) b = Ret b ∧ on b L chan = [] ∨ ∃ b1, exec (Wakeone me cv chan) b = sleepq_wakeone_chan me (sqhash chan) chan b1 ∧
    (b1 = b ∨ ∃ n, b_cv b !! chan = Some n ∧ b1 = with_cv chan (n - 1) b ∧ 0 < n) ∧ (b1 = b → b_cv b !! chan = None)) as [[-> Eon]|(b1 & -> & Hb1 & Hnone)].
  { simpl. destruct cv; [|right; exists b; split; [done|]; split; [by left|done]]. destruct Hn as (n & En & -> & Hr). unfold cv_signal, cv_waiters. rewrite En. cbn [rbind].
    destruct (Z.ltb_spec 0 (zlen (on b L chan))) as [Hpos|Hz]; [right|left; split; [done|]; apply nil_length_inv; lia].
    rewrite w16_id by lia. eexists. split; [done|]. split; [right; by eexists|]. intros E. exfalso. assert (b_cv b !! chan = Some (zlen (on b L chan) - 1)) as E'.
    { rewrite <-E at 1. simpl. by rewrite lookup_insert_eq. } rewrite En in E'. injection E'. lia. }
  - exists b. split; [done|]. exists L. split; [done|]. cbn [spec]. rewrite Eon. cbn [tail]. split; [|split; [by intros t [?%elem_of_nil|?]|intros; apply kept_thread_refl]].
    intros ch. unfold put. destruct (Z.eqb_spec ch chan) as [->|]; done.
  - destruct (wakeone_ok me b L chan Hc b1 Hb1 Hnone) as (b' & -> & Hw). exists b'. split; [done|]. unfold implements. cbn [spec]. destruct (on b L chan) as [|t l] eqn:Eon.
    + destruct Hw as [-> ->]. exists L. split; [done|]. split; [|split; [by intros t [?%elem_of_nil|?]|intros; apply kept_thread_refl]].
      intros ch. unfold put. destruct (Z.eqb_spec ch chan) as [->|]; done.
    + destruct Hw as ((L' & Hok & Hon) & Hr & Hk). exists L'. split; [done|]. split; [done|]. split.
      * intros u [->%list_elem_of_singleton|Hu']; apply Hr; auto.
      * intros u Hne _. apply Hk. intros ->. apply Hne. left.
Qed.

Lemma wakeall_step me cv chan b L : cv_ok b L → enabled (Wakeall me cv chan) b →
  ∃ b', exec (Wakeall me cv chan) b = Ret b' ∧ implements (Wakeall me cv chan) b L b'.
Proof using H0.
  intros Hc [Hch Hu]. pose proof (used_counts _ _ _ _ Hc Hu) as Hn.
  assert (exec (Wakeall me cv chan) b = Ret b ∧ on b L chan = [] ∨ ∃ b1, exec (Wakeall me cv chan) b = sleepq_wakeall_chan me (sqhash chan) chan b1 ∧
    (b1 = b ∨ is_Some (b_cv b !! chan) ∧ b1 = with_cv chan 0 b) ∧ (b1 = b → b_cv b !! chan = None)) as [[-> Eon]|(b1 & -> & Hb1 & Hnone)].
  { simpl. destruct cv; [|right; exists b; split; [done|]; split; [by left|done]]. destruct Hn as (n & En & -> & Hr). unfold cv_broadcast, cv_waiters. rewrite En. cbn [rbind].
    destruct (Z.ltb_spec 0 (zlen (on b L chan))) as [Hpos|Hz]; [right|left; split; [done|]; apply nil_length_inv; lia].
    eexists. split; [done|]. split; [right; split; [by eexists|done]|]. intros E. exfalso. assert (b_cv b !! chan = Some 0) as E'.
    { rewrite <-E at 1. simpl. by rewrite lookup_insert_eq. } rewrite En in E'. injection E'. lia. }
  - exists b. split; [done|]. exists L. split; [done|]. cbn [spec]. rewrite Eon. split; [|split; [by intros t [?%elem_of_nil|?]|intros; apply kept_thread_refl]].
    intros ch. unfold put. destruct (Z.eqb_spec ch chan) as [->|]; done.
  - destruct (wakeall_ok me b L chan Hc b1 Hb1 Hnone) as (b' & L' & -> & Hok & Hon & Hr & Hk). exists b'. split; [done|]. exists L'. split; [done|].
    cbn [spec]. split; [done|]. split; [done|]. intros u Hne _. by apply Hk.
Qed.

Lemma step_ok op b L : cv_ok b L → enabled op b → ∃ b', exec op b = Ret b' ∧ implements op b L b'.
Proof using H0.
  intros Hc He. destruct op as [me cv chan|me cv chan|me cv chan|me t|t pri].
  - by apply block_step.
  - by apply wakeone_step.
  - by apply wakeall_step.
  - by apply unsleep_step; [|apply He..].
  - by apply changepri_step.
Qed.

(** ** Reachable states *)

(** No thread waits. *)
Record initial (b : bsys) : Prop := {
  in_class : ok (b_sys b);
  in_wait t : wait_of t b = no_wait;
  in_sq q : b_sq b !! q = None;
  in_cv c n : b_cv b !! c = Some n → c ≠ 0 ∧ n = 0
}.

Inductive reachable (b0 : bsys) : bsys → Prop :=
| reach_here : reachable b0 b0
| reach_step b b' op : reachable b0 b → enabled op b → exec op b = Ret b' → reachable b0 b'.

Lemma cv_initial_ok b : initial b → cv_ok b (λ _, []).
Proof using Type.
  intros [H1 H2 H3 H4]. split.
  - split; try done.
    + intros q. constructor.
    + intros q t Ht. by apply elem_of_nil in Ht.
    + intros t _. by rewrite H2.
    + intros q. constructor.
    + intros t. by rewrite H2.
  - intros c n Hn. destruct (H4 c n Hn) as [_ ->]. done.
  - intros t [Hw _]. by rewrite H2 in Hw.
  - destruct (b_cv b !! 0) as [n|] eqn:E; [|done]. by destruct (H4 0 n E).
Qed.

Lemma cv_reachable_ok b0 b : initial b0 → reachable b0 b → ∃ L, cv_ok b L.
Proof using H0.
  intros H1 H2. induction H2 as [|b b' op _ [L IH] He Hx]; [eexists; by apply cv_initial_ok|].
  destruct (step_ok op b L IH He) as (b1 & Hrun & L' & Hok & _). rewrite Hx in Hrun. injection Hrun as ->. by exists L'.
Qed.

Lemma spec_ext pr f op A A' : (∀ ch, A ch = A' ch) → snd (spec pr f op A) = snd (spec pr f op A') ∧ ∀ ch, fst (spec pr f op A) ch = fst (spec pr f op A') ch.
Proof using Type.
  intros E. destruct op; simpl; rewrite ?E; (split; [done|]); intros ch; unfold put; destruct (_ =? _); by rewrite ?E.
Qed.
End Inv.

(** C9: In every reachable state of the sleep queues each operation on a condition variable or a channel that its callers
    may make returns, and does to the queues of waiters what the abstract queues, one for every address,
    each sorted by priority and then by arrival, prescribe: blocking inserts the current thread, a signal takes
    the first thread, a broadcast all, a signal to a thread takes that one, and a new priority moves
    it.  The threads taken are runnable, the other threads, those of other addresses on the same hash
    queue among them, are left alone, and the count of every condition variable is the number of those that wait. *)
Theorem condvar_refines (S : Type) (H : SchedClass S) npri (ok : S → Prop) (Hlaws : SchedClassLaws S npri ok) (b0 b : bsys S) op :
  initial (ok := ok) b0 → reachable (npri := npri) b0 b → enabled (npri := npri) op b →
  ∃ b', exec op b = Ret b' ∧
    let '(A, woken) := spec (prio b') (chan_of b) op (waiters b) in
    (∀ ch, waiters b' ch = A ch) ∧ (∀ t, t ∈ woken → runs t b') ∧ (∀ c n, b_cv b' !! c = Some n → n = zlen (waiters b' c)) ∧
    ∀ u, u ∉ woken → Some u ≠ subject op → kept_thread u b b'.
Proof.
  intros Hi Hr He. destruct (cv_reachable_ok b0 b Hi Hr) as [L Hc]. destruct (step_ok op b L Hc He) as (b' & Hrun & L' & Hc' & Himp).
  exists b'. split; [done|]. destruct (spec_ext (prio b') (chan_of b) op (waiters b) (on b L)) as [E1 E2]; [intros ch; exact (waiters_on b L ch Hc)|].
  destruct (spec _ _ op (waiters b)) as [A w], (spec _ _ op (on b L)) as [A' w']. simpl in E1, E2. subst w'. destruct Himp as (Hon & Hrs & Hk).
  split; [intros ch; by rewrite (waiters_on b' L' ch Hc'), Hon, E2|]. split; [intros t Ht; apply Hrs; by left|]. split; [|done].
  intros c n Hn. rewrite (waiters_on b' L' c Hc'). by apply Hc'.
Qed.
