(* ===== verification/Ksema.v ===== *)
(** * Kernel semaphores ([uts/common/os/semaphore.c], [sys/sema_impl.h]) and [setrun] ([os/slp.c])

    A semaphore has a queue of its own for the threads that wait, and a count: how many may
    still pass, or, negative, how many wait.  A thread that gives a permit back hands it to
    the first that waits.  The panicking kernel ([panicstr]) is not modelled. *)

From S2P Require Import Prelude Dispq DispqOps Disp DispInv Sleepq SleepqOps Condvar.

(** ** The operations *)

Section Ksema.
Context {S : Type} `{SchedClass S}.
#[local] Abbreviation bsys := (bsys S).

Definition s_count (s : Z) (b : bsys) : run Z := match b_count b !! s with Some n => Ret n | None => Fault end.

(** With type [SEMA_DEFAULT] or [SEMA_DRIVER]. *)
Definition sema_init (s count : Z) (b : bsys) : bsys := with_sq (SLPQ s) None (with_count s (s32 count) b).

Definition SEMA_BLOCK (me : ctx) (s : Z) : bsys → run bsys := t_block me s sema_sops (SLPQ s) Ret.

Definition sema_queue (s t : Z) (b : bsys) : run bsys := sleepq_insert (SLPQ s) t b.
Definition sema_dequeue (s t : Z) (b : bsys) : run bsys := let* (_, b) := sleepq_dequeue (SLPQ s) t b in Ret b.

Definition sema_unsleep (me : ctx) (t : Z) (b : bsys) : run bsys :=
  let s := t_wchan (wait_of t b) in
  let* _ := s_count s b in
  let* (r, b) := sleepq_unsleep (SLPQ s) t b in
  match r with None => Ret b | Some _ => on_class (CL_SETRUN me t) b end.

Definition sema_changepri (t pri : Z) (b : bsys) : run bsys :=
  let s := t_wchan (wait_of t b) in
  if s =? 0 then Panic
  else
    let* b := sema_dequeue s t b in
    let* b := b_mod (set_epri pri) t b in
    sema_queue s t b.

(** The answer is whether the thread goes on; if not it sleeps, and goes on when it is woken. *)
Definition sema_p (me : ctx) (s : Z) (b : bsys) : run (bool * bsys) :=
  let* n := s_count s b in
  let b := with_count s (s32 (n - 1)) b in
  if 0 <? n then Ret (true, b) else let* b := SEMA_BLOCK me s b in Ret (false, b).

(** [CL_WAKEUP] comes before the queue is told of the rest. *)
Definition sema_v (me : ctx) (s : Z) (b : bsys) : run bsys :=
  let* n := s_count s b in
  let b := with_count s (s32 (n + 1)) b in
  if n <? 0 then
    match b_sq b !! SLPQ s with
    | None => Panic
    | Some tp =>
        let* k := tget (th b) tp in
        let sq := t_link k in
        let* b := b_mod (set_link None) tp b in
        let b := with_wait tp (Wait 0 (t_wchan0 (wait_of tp b)) None) b in
        let* b := on_class (CL_WAKEUP me tp) b in
        Ret (with_sq (SLPQ s) sq b)
    end
  else Ret b.

Definition sema_tryp (s : Z) (b : bsys) : run (bool * bsys) :=
  let* n := s_count s b in
  if 0 <? n then Ret (true, with_count s (s32 (n - 1)) b) else Ret (false, b).

Definition sema_held (s : Z) (b : bsys) : run bool := let* n := s_count s b in Ret (n <=? 0).

(** ** [setrun] *)

Definition TS_ALLSTART : Z := Z.lor (Z.lor (Z.lor (Z.lor 0x0100 0x0200) 0x0400) 0x0800) 0x1000.

Definition SOBJ_UNSLEEP (me : ctx) (t : Z) (b : bsys) : run bsys :=
  match t_sobj_ops (wait_of t b) with
  | Some sleep_sops => unsleep me t b
  | Some cv_sops => cv_unsleep me t b
  | Some sema_sops => sema_unsleep me t b
  | None => Fault
  end.

Definition setrun_locked (me : ctx) (t : Z) (b : bsys) : run bsys :=
  let* k := tget (th b) t in
  match t_state k with
  | TS_SLEEP => SOBJ_UNSLEEP me t b
  | TS_STOPPED =>
      if Z.land (t_schedflag k) TS_ALLSTART =? TS_ALLSTART then
        let* b := b_mod (λ k, set_schedflag (Z.land (t_schedflag k) (Z.lnot TS_ALLSTART)) k) t b in
        let* b := b_mod thread_transition t b in
        on_class (CL_SETRUN me t) b
      else Ret b
  | _ => Ret b
  end.
Definition setrun (me : ctx) (t : Z) (b : bsys) : run bsys := setrun_locked me t b.

(** ** The interruptible wait *)

(** The loop of [sema_p_sig], up to [swtch]; [looking] says that [ISSIG(t, JUSTLOOKING)] or [ISHOLD(p)].  The answer is
    [Some 0] if the call returns 0, and [None] if the thread sleeps. *)
Definition sema_p_sig_loop (me : ctx) (s : Z) (looking : bool) (b : bsys) : run (option Z * bsys) :=
  let* n := s_count s b in
  if n <? 0 then
    let* b := SEMA_BLOCK me s b in
    let* b := if looking then setrun me (curthread me) b else Ret b in
    Ret (None, b)
  else Ret (Some 0, b).

Definition sema_p_sig (me : ctx) (s : Z) (lwp looking : bool) (b : bsys) : run (option Z * bsys) :=
  if lwp then
    let* n := s_count s b in sema_p_sig_loop me s looking (with_count s (s32 (n - 1)) b)
  else
    let* (r, b) := sema_p me s b in Ret (if r then Some 0 else None, b).

(** From [swtch] on, when the thread runs again; [issig] says that there is a signal to take. *)
Definition sema_p_sig_woken (me : ctx) (s : Z) (issig looking : bool) (b : bsys) : run (option Z * bsys) :=
  if issig then let* n := s_count s b in Ret (Some 1, with_count s (s32 (n + 1)) b)
  else sema_p_sig_loop me s looking b.

(** ** Uninterruptible waits in any order *)

(** [Give] is [sema_v]. *)
Inductive ksemop :=
| Take (me : ctx) (s : Z)
| Trytake (s : Z)
| Give (me : ctx) (s : Z)
| Reprio (t pri : Z).

(** The answer is whether a thread that takes may go on. *)
Definition ksem_exec (op : ksemop) (b : bsys) : run (bool * bsys) :=
  match op with
  | Take me s => sema_p me s b
  | Trytake s => sema_tryp s b
  | Give me s => let* b := sema_v me s b in Ret (true, b)
  | Reprio t pri => let* b := sema_changepri t pri b in Ret (true, b)
  end.

(** ** The abstract semaphore *)

(** The permits that are left, and the threads that wait, the next to get one first. *)
Record semaphore := Semaphore { permits : Z; sleepers : list Z }.

Definition semaphore_of (b : bsys) (s : Z) : semaphore :=
  Semaphore (Z.max 0 (default 0 (b_count b !! s))) (walk (size (th b)) (b_sq b !! SLPQ s) (th b)).

Definition semaphores := Z → semaphore.
Definition set_sem (s : Z) (v : semaphore) (A : semaphores) : semaphores := λ i, if i =? s then v else A i.

(** The semaphores after an operation, its answer, and the thread that gets a permit. *)
Definition ksem_spec (pr chan_of : Z → Z) (op : ksemop) (A : semaphores) : semaphores * bool * option Z :=
  match op with
  | Take me s =>
      let '(Semaphore n q) := A s in
      if 0 <? n then (set_sem s (Semaphore (n - 1) q) A, true, None)
      else (set_sem s (Semaphore n (insert_pri pr (curthread me) q)) A, false, None)
  | Trytake s =>
      let '(Semaphore n q) := A s in
      if 0 <? n then (set_sem s (Semaphore (n - 1) q) A, true, None) else (A, false, None)
  | Give _ s =>
      let '(Semaphore n q) := A s in
      match q with
      | [] => (set_sem s (Semaphore (n + 1) []) A, true, None)
      | t :: q => (set_sem s (Semaphore n q) A, true, Some t)
      end
  | Reprio t _ =>
      let s := chan_of t in
      let '(Semaphore n q) := A s in
      (set_sem s (Semaphore n (insert_pri pr t (filter (λ u, u ≠ t) q))) A, true, None)
  end.
End Ksema.

(** ** The invariant *)

Section Inv.
Context {S : Type} `{SchedClassLaws S npri ok}.
#[local] Abbreviation bsys := (bsys S).
#[local] Abbreviation sleep_ok := (SleepqOps.sleep_ok (npri := npri) (ok := ok)).

(** Of the numbers that a count may have, the negative ones say how many threads wait. *)
Record ksem_ok (b : bsys) (L : sqid → list Z) : Prop := {
  ko_sleep : sleep_ok None b L;
  ko_count s n : b_count b !! s = Some n → s ≠ 0 ∧ in_s32 n ∧ zlen (L (SLPQ s)) = Z.max 0 (- n);
  ko_kind t : t_sobj_ops (wait_of t b) = Some sema_sops → is_Some (b_count b !! t_wchan (wait_of t b))
}.

Lemma semaphore_ok b L s : ksem_ok b L → semaphore_of b s = Semaphore (Z.max 0 (default 0 (b_count b !! s))) (L (SLPQ s)).
Proof using Type.
  intros Hk. unfold semaphore_of. f_equal. apply walk_ok; [apply (ko_sleep _ _ Hk)|]. eapply sl_size, Hk.
Qed.

(** When the code may call an operation. *)
Definition ksem_enabled (op : ksemop) (b : bsys) : Prop :=
  match op with
  | Take me s => (∃ n, b_count b !! s = Some n ∧ - 2 ^ 31 < n) ∧ chan_of b (curthread me) = 0 ∧
      ∃ k, th b !! curthread me = Some k ∧ t_state k = TS_ONPROC ∧ off_queue k ∧ 0 ≤ DISP_PRIO k < npri
  | Trytake s => is_Some (b_count b !! s)
  | Give _ s => ∃ n, b_count b !! s = Some n ∧ n < 2 ^ 31 - 1
  | Reprio t pri => waiting t b ∧ t_sobj_ops (wait_of t b) = Some sema_sops ∧ 0 < pri < npri
  end.

Definition ksem_subject (op : ksemop) : option Z :=
  match op with Take me _ => Some (curthread me) | Reprio t _ => Some t | _ => None end.

Definition ksem_implements (op : ksemop) (b : bsys) (L : sqid → list Z) (r : bool) (b' : bsys) : Prop :=
  ∃ L', ksem_ok b' L' ∧
    let '(A, r', got) := ksem_spec (prio b') (chan_of b) op (semaphore_of b) in
    r = r' ∧ (∀ s, semaphore_of b' s = A s) ∧ (∀ t, got = Some t ∨ runs t b → runs t b') ∧
    ∀ u, got ≠ Some u → Some u ≠ ksem_subject op → kept_thread u b b'.

(** ** Every operation implements its specification *)

(** Semaphore [s] gets the count [n] and the queue [l]. *)
Lemma sem_update b L b' s n l : ksem_ok b L → is_Some (b_count b !! s) → sleep_ok None b' (setq (SLPQ s) l L) → b_count b' = <[s := n]> (b_count b) →
  in_s32 n → zlen l = Z.max 0 (- n) →
  (∀ u, wait_of u b' = wait_of u b ∨ (t_sobj_ops (wait_of u b') = Some sema_sops → t_wchan (wait_of u b') = s)) →
  ksem_ok b' (setq (SLPQ s) l L) ∧ ∀ i, semaphore_of b' i = set_sem s (Semaphore (Z.max 0 n) l) (semaphore_of b) i.
Proof using Type.
  intros Hk [m Em] Hs Hcnt Hn Hl Hw. assert (ksem_ok b' (setq (SLPQ s) l L)) as Hok.
  { split; [exact Hs| |].
    - intros i v. rewrite Hcnt. destruct (decide (i = s)) as [->|Hne].
      + rewrite lookup_insert_eq, setq_eq. intros [= <-]. destruct (ko_count _ _ Hk s m Em) as (? & _). done.
      + rewrite lookup_insert_ne, setq_ne by congruence. apply Hk.
    - intros u. rewrite Hcnt, lookup_insert_is_Some'. destruct (Hw u) as [->|Hu]; [intros Hu; right; by apply (ko_kind _ _ Hk)|].
      intros Eu. left. symmetry. by apply Hu. }
  split; [exact Hok|]. intros i. rewrite (semaphore_ok _ _ _ Hok), Hcnt. unfold set_sem. destruct (Z.eqb_spec i s) as [->|Hne].
  - by rewrite lookup_insert_eq, setq_eq.
  - rewrite lookup_insert_ne, setq_ne by congruence. by rewrite (semaphore_ok _ _ _ Hk).
Qed.

Lemma with_count_ok b L s n : sleep_ok None b L → sleep_ok None (with_count s n b) L.
Proof using Type. intros Hs. by apply (sleep_counts None b). Qed.

(** A queue that does not change. *)
Lemma setq_same (L : sqid → list Z) q q' : setq q (L q) L q' = L q'.
Proof using Type. unfold setq. case_decide as E; by rewrite ?E. Qed.

(** A permit is taken or given where none waits. *)
Lemma count_step b L s n n' : ksem_ok b L → b_count b !! s = Some n → 0 ≤ n → 0 ≤ n' → in_s32 n' →
  ∃ L', ksem_ok (with_count s n' b) L' ∧ ∀ i, semaphore_of (with_count s n' b) i = set_sem s (Semaphore n' []) (semaphore_of b) i.
Proof using Type.
  intros Hk En H1 H2 Hr. destruct (ko_count _ _ Hk s n En) as (_ & _ & El). assert (L (SLPQ s) = []) as Enil by (apply nil_length_inv; lia).
  destruct (sem_update b L (with_count s n' b) s n' [] Hk) as [Hok Hsem]; [by eexists| |done|done|simpl; lia|intros u; by left|].
  - eapply sleep_ext; [apply with_count_ok, Hk|]. intros q. rewrite <-Enil. apply setq_same.
  - rewrite Z.max_r in Hsem by lia. by eexists.
Qed.

Lemma trytake_step s b L : ksem_ok b L → ksem_enabled (Trytake s) b →
  ∃ r b', ksem_exec (Trytake s) b = Ret (r, b') ∧ ksem_implements (Trytake s) b L r b'.
Proof using Type.
  intros Hk [n En]. cbn [ksem_exec]. unfold sema_tryp, s_count. rewrite En. cbn [rbind]. destruct (ko_count _ _ Hk s n En) as (_ & Hr & El).
  unfold ksem_implements. cbn [ksem_spec]. rewrite (semaphore_ok _ _ _ Hk), En. cbn [from_option id]. destruct (Z.ltb_spec 0 n) as [Hpos|Hneg].
  - unfold in_s32 in Hr. do 2 eexists. split; [done|]. rewrite s32_id by (unfold in_s32; lia).
    destruct (count_step b L s n (n - 1) Hk En) as (L' & Hok & Hsem); [lia|lia|unfold in_s32; lia|]. exists L'. split; [done|].
    rewrite (Z.max_r 0 n) by lia. rewrite (proj2 (Z.ltb_lt 0 n)) by done. assert (L (SLPQ s) = []) as -> by (apply nil_length_inv; lia).
    split; [done|]. split; [done|]. split; [by intros t [[=]|?]|intros u _ _; exact (kept_thread_refl u b)].
  - do 2 eexists. split; [done|]. exists L. split; [done|]. rewrite (Z.max_l 0 n) by lia. cbn. split; [done|]. split; [done|].
    split; [by intros t [[=]|?]|intros u _ _; exact (kept_thread_refl u b)].
Qed.

Lemma take_step me s b L : ksem_ok b L → ksem_enabled (Take me s) b →
  ∃ r b', ksem_exec (Take me s) b = Ret (r, b') ∧ ksem_implements (Take me s) b L r b'.
Proof using H0.
  intros Hk ((n & En & Hmin) & Hfree & k & Hth & Hst & Hoff & Hp). cbn [ksem_exec]. unfold sema_p, s_count. rewrite En. cbn [rbind].
  destruct (ko_count _ _ Hk s n En) as (Hs0 & Hr & El). unfold in_s32 in Hr. rewrite s32_id by (unfold in_s32; lia).
  unfold ksem_implements. cbn [ksem_spec]. rewrite (semaphore_ok _ _ _ Hk), En. cbn [from_option id]. destruct (Z.ltb_spec 0 n) as [Hpos|Hneg].
  - do 2 eexists. split; [done|]. destruct (count_step b L s n (n - 1) Hk En) as (L' & Hok & Hsem); [lia|lia|unfold in_s32; lia|]. exists L'. split; [done|].
    rewrite (Z.max_r 0 n) by lia. rewrite (proj2 (Z.ltb_lt 0 n)) by done. assert (L (SLPQ s) = []) as -> by (apply nil_length_inv; lia).
    split; [done|]. split; [done|]. split; [by intros t [[=]|?]|intros u _ _; exact (kept_thread_refl u b)].
  - destruct (block_ok me s sema_sops Ret (with_count s (n - 1) b) L k (b_cv b) (<[s := n - 1]> (b_count b)) (with_count_ok _ _ _ _ (ko_sleep _ _ Hk)) Hth Hst Hoff Hp Hfree Hs0)
      as (b' & Hrun & Hs' & Hw' & _ & Hco & Hrs & Hkept). { intros [s1 w1 q1 c1 o1] E1 E2. cbn in *. by subst. }
    unfold SEMA_BLOCK. cbn [home] in Hrun, Hs'. rewrite Hrun. cbn [rbind]. exists false, b'. split; [done|]. set (t := curthread me) in *. eexists.
    destruct (sem_update b L b' s (n - 1) (insert_pri (prio b') t (L (SLPQ s))) Hk) as [Hok Hsem]; [by eexists|done|done|unfold in_s32; lia| | |].
    + rewrite insert_perm. cbn [length]. lia.
    + intros u. unfold wait_of. rewrite Hw'. destruct (decide (u = t)) as [->|Hne]; [right; by rewrite lookup_insert_eq|left; by rewrite lookup_insert_ne].
    + split; [exact Hok|]. rewrite (Z.max_l 0 n) by lia. cbn [Z.ltb Z.compare]. rewrite Z.max_l in Hsem by lia.
      split; [done|]. split; [exact Hsem|]. split; [intros u [[=]|Hu]; by apply Hrs|]. intros u _ Hne. apply Hkept. intros ->. by apply Hne.
Qed.

(** [sema_v] takes the first thread off the queue, as [chan_wake] does but for the order of the last two steps. *)
Lemma give_wakes me s b n t l k : b_count b !! s = Some n → n < 0 → b_sq b !! SLPQ s = Some t → th b !! t = Some k →
  sema_v me s b = l → l = chan_wake me (SLPQ s) None t (with_count s (s32 (n + 1)) b).
Proof using Type.
  intros En Hn Eq Ek <-. unfold sema_v, s_count. rewrite En. cbn [rbind]. rewrite (proj2 (Z.ltb_lt n 0)) by done. cbn [b_sq with_count]. rewrite Eq.
  unfold chan_wake, sq_unlink, tget. set (b1 := with_count s (s32 (n + 1)) b). change (th b1) with (th b). rewrite Ek. cbn [rbind store].
  rewrite (b_mod_ok (set_link None) t b1 k Ek). rewrite (b_mod_ok (set_link None) t (with_sq (SLPQ s) (t_link k) b1) k Ek). cbn [rbind].
  unfold on_class. cbn [b_sys with_wait with_sys with_sq]. change (b_sys b1) with (b_sys b).
  by destruct (CL_WAKEUP me t (sc_put t (set_link None k) (b_sys b))).
Qed.

Lemma give_step me s b L : ksem_ok b L → ksem_enabled (Give me s) b →
  ∃ r b', ksem_exec (Give me s) b = Ret (r, b') ∧ ksem_implements (Give me s) b L r b'.
Proof using H0.
  intros Hk (n & En & Hmax). cbn [ksem_exec]. destruct (ko_count _ _ Hk s n En) as (Hs0 & Hr & El). unfold in_s32 in Hr.
  assert (s32 (n + 1) = n + 1) as Es by (apply s32_id; unfold in_s32; lia).
  unfold ksem_implements. cbn [ksem_spec]. rewrite (semaphore_ok _ _ _ Hk), En. cbn [from_option id]. destruct (Z.ltb_spec n 0) as [Hneg|Hpos].
  - pose proof (sl_linked _ _ _ (ko_sleep _ _ Hk) (SLPQ s)) as Hl. destruct (L (SLPQ s)) as [|t l] eqn:Eq; [simpl in El; lia|].
    destruct Hl as (Eh & k & Ek & _). rewrite (give_wakes me s b n t _ k En Hneg Eh Ek eq_refl), Es.
    destruct (chan_wake_ok me (with_count s (n + 1) b) L (SLPQ s) [] t l (with_count_ok _ _ _ _ (ko_sleep _ _ Hk)) Eq)
      as (b' & Hrun & Hs' & Hw' & _ & Hco & Ht & Hrs & Hkept). cbn [last] in Hrun. rewrite Hrun. cbn [rbind app] in *. do 2 eexists. split; [done|]. eexists.
    destruct (sem_update b L b' s (n + 1) l Hk) as [Hok Hsem]; [by eexists|exact Hs'|done|unfold in_s32; lia|simpl in El; lia| |].
    + intros u. unfold wait_of. rewrite Hw'. destruct (decide (u = t)) as [->|Hne]; [right; by rewrite lookup_insert_eq|left; by rewrite lookup_insert_ne].
    + split; [exact Hok|]. rewrite (Z.max_l 0 n) by lia. rewrite Z.max_l in Hsem by lia. split; [done|]. split; [exact Hsem|].
      split; [intros u [[= <-]|Hu]; [done|by apply Hrs]|]. intros u Hne _. apply Hkept. congruence.
  - unfold sema_v, s_count. rewrite En. cbn [rbind]. rewrite (proj2 (Z.ltb_ge n 0)), Es by done. cbn [rbind].
    assert (L (SLPQ s) = []) as -> by (apply nil_length_inv; lia). destruct (count_step b L s n (n + 1) Hk En) as (L' & Hok & Hsem); [lia|lia|unfold in_s32; lia|].
    do 2 eexists. split; [done|]. exists L'. rewrite (Z.max_r 0 n) by lia. split; [done|]. split; [done|]. split; [done|].
    split; [by intros t [[=]|?]|intros u _ _; exact (kept_thread_refl u b)].
Qed.

Lemma reprio_step t pri b L : ksem_ok b L → ksem_enabled (Reprio t pri) b →
  ∃ r b', ksem_exec (Reprio t pri) b = Ret (r, b') ∧ ksem_implements (Reprio t pri) b L r b'.
Proof using H0.
  intros Hk (Hw & Hsem & Hp). cbn [ksem_exec]. set (s := chan_of b t).
  assert (t ∈ L (SLPQ s)) as Ht.
  { pose proof (sl_all _ _ _ (ko_sleep _ _ Hk) t ltac:(done) (proj1 Hw)) as Hin. unfold place in Hin. by rewrite Hsem in Hin. }
  assert (sema_changepri t pri b = requeue (SLPQ s) t pri b) as ->.
  { unfold sema_changepri, sema_dequeue, requeue. fold (chan_of b t) s. rewrite (proj2 (Z.eqb_neq s 0)) by apply Hw.
    by destruct (sleepq_dequeue (SLPQ s) t b) as [[r b1]| |]. }
  destruct (requeue_ok b L _ t pri (ko_sleep _ _ Hk) Ht Hp) as (b' & l1 & l2 & -> & EL & Hs' & Hw' & _ & Hco & _ & Hr & Hkept).
  destruct (ko_kind _ _ Hk t Hsem) as [n En]. fold (chan_of b t) s in En. destruct (ko_count _ _ Hk s n En) as (_ & Hrange & El).
  assert (l1 ++ l2 = filter (λ u, u ≠ t) (L (SLPQ s))) as Ef.
  { pose proof (sl_nodup _ _ _ (ko_sleep _ _ Hk) (SLPQ s)) as Hnd. rewrite EL in *. apply NoDup_app in Hnd as (_ & H12 & [Ht2 _]%NoDup_cons).
    rewrite <-(drop_one t l1 l2); [|intros Hin; apply (H12 t Hin); left|done]. apply filter_ext_in. intros u _. by rewrite list_elem_of_singleton. }
  cbn [rbind]. do 2 eexists. split; [done|]. eexists. unfold ksem_implements. cbn [ksem_spec ksem_subject]. fold s. rewrite (semaphore_ok _ _ _ Hk), En, <-Ef.
  destruct (sem_update b L b' s n (insert_pri (prio b') t (l1 ++ l2)) Hk) as [Hok Hsm]; [by eexists|done|by rewrite insert_id|done| | |].
  - rewrite insert_perm. rewrite EL, length_app in El. cbn [length] in *. rewrite length_app. lia.
  - intros u. left. unfold wait_of. by rewrite Hw'.
  - split; [exact Hok|]. split; [done|]. split; [exact Hsm|]. split; [intros u [[=]|Hu]; by apply Hr|]. intros u _ Hne. apply Hkept. intros ->. by apply Hne.
Qed.

Lemma ksem_step op b L : ksem_ok b L → ksem_enabled op b → ∃ r b', ksem_exec op b = Ret (r, b') ∧ ksem_implements op b L r b'.
Proof using H0.
  intros Hk He. destruct op as [me s|s|me s|t pri]; [by apply take_step|by apply trytake_step|by apply give_step|by apply reprio_step].
Qed.

(** ** Reachable states *)

(** No thread waits. *)
Record ksem_initial (b : bsys) : Prop := {
  ki_class : ok (b_sys b);
  ki_wait t : wait_of t b = no_wait;
  ki_sq q : b_sq b !! q = None;
  ki_count s n : b_count b !! s = Some n → s ≠ 0 ∧ 0 ≤ n < 2 ^ 31
}.

Inductive ksem_reachable (b0 : bsys) : bsys → Prop :=
| ksem_here : ksem_reachable b0 b0
| ksem_next b r b' op : ksem_reachable b0 b → ksem_enabled op b → ksem_exec op b = Ret (r, b') → ksem_reachable b0 b'.

Lemma ksem_initial_ok b : ksem_initial b → ksem_ok b (λ _, []).
Proof using Type.
  intros [H1 H2 H3 H4]. split.
  - split; try done.
    + intros q. constructor.
    + intros q t Ht. by apply elem_of_nil in Ht.
    + intros t _. by rewrite H2.
    + intros q. constructor.
    + intros t. by rewrite H2.
  - intros s n Hn. destruct (H4 s n Hn) as [Hs Hr]. split; [done|]. split; [unfold in_s32; lia|]. simpl. lia.
  - intros t. by rewrite H2.
Qed.

Lemma ksem_reachable_ok b0 b : ksem_initial b0 → ksem_reachable b0 b → ∃ L, ksem_ok b L.
Proof using H0.
  intros H1 H2. induction H2 as [|b r b' op _ [L IH] He Hx]; [eexists; by apply ksem_initial_ok|].
  destruct (ksem_step op b L IH He) as (r1 & b1 & Hrun & L' & Hok & _). rewrite Hx in Hrun. injection Hrun as -> ->. by exists L'.
Qed.

(** No permit is left while a thread waits. *)
Lemma ksem_no_idle b L s : ksem_ok b L → is_Some (b_count b !! s) → 0 < permits (semaphore_of b s) → sleepers (semaphore_of b s) = [].
Proof using Type.
  intros Hk [n En]. destruct (ko_count _ _ Hk s n En) as (_ & _ & El). rewrite (semaphore_ok _ _ _ Hk), En. cbn. intros Hn. apply nil_length_inv. lia.
Qed.
End Inv.

(** C10: In every reachable state of semaphores that threads wait for without being interrupted, [sema_p], [sema_v],
    [sema_tryp] and a new priority return and do what an abstract semaphore does, of permits left and a queue
    sorted by priority and then by arrival: a permit goes to the first thread that waits, which is
    made runnable and need not look at the semaphore again (the comment on [sema_v], that it re-tries to acquire the
    semaphore, is not what the code does), or is kept if none waits; no permit is kept while a
    thread waits; [sema_v] never finds the queue empty, where it would panic; other threads are left alone. *)
Theorem ksema_refines (S : Type) (H : SchedClass S) npri (ok : S → Prop) (Hlaws : SchedClassLaws S npri ok) (b0 b : bsys S) op :
  ksem_initial (ok := ok) b0 → ksem_reachable (npri := npri) b0 b → ksem_enabled (npri := npri) op b →
  ∃ r b', ksem_exec op b = Ret (r, b') ∧
    let '(A, r', got) := ksem_spec (prio b') (chan_of b) op (semaphore_of b) in
    r = r' ∧ (∀ s, semaphore_of b' s = A s) ∧ (∀ t, got = Some t → runs t b') ∧
    (∀ s, is_Some (b_count b' !! s) → 0 < permits (semaphore_of b' s) → sleepers (semaphore_of b' s) = []) ∧
    ∀ u, got ≠ Some u → Some u ≠ ksem_subject op → kept_thread u b b'.
Proof.
  intros Hi Hr He. destruct (ksem_reachable_ok b0 b Hi Hr) as [L Hk]. destruct (ksem_step op b L Hk He) as (r & b' & Hrun & L' & Hk' & Himp).
  exists r, b'. split; [done|]. destruct (ksem_spec _ _ op _) as [[A r'] got]. destruct Himp as (-> & Hsem & Hrs & Hkept).
  split; [done|]. split; [done|]. split; [intros t Ht; apply Hrs; by left|]. split; [|done]. intros s. exact (ksem_no_idle b' L' s Hk').
Qed.
