(* ===== verification/Sysclass.v ===== *)
(** * The system class ([uts/common/disp/sysclass.c]) and sleep queues on the dispatcher

    Threads of the system class are put at the back of a dispatch queue when they wake up: with the
    dispatcher of [Disp] this is a class as sleep queues ask for it, so that what is proved of
    condition variables holds of the two together. *)

From S2P Require Import Prelude Bitmap Dispq DispqOps Disp DispInv DispSteps DispSched DispSafe Sleepq SleepqOps Condvar Ksema.

Section Sysclass.
Context (ncpus kpreemptpri upreemptpri maxclsyspri rechoose_interval : Z).

(** [sys_classfuncs]: [setbackdq] to set a thread running and to wake it up, nothing when it goes to sleep. *)
#[export] Instance sys_classfuncs : SchedClass sys := {
  sc_threads := s_threads;
  sc_put t k s := with_threads (<[t := k]> (s_threads s)) s;
  CL_WAKEUP := setbackdq ncpus kpreemptpri upreemptpri maxclsyspri rechoose_interval;
  CL_SETRUN := setbackdq ncpus kpreemptpri upreemptpri maxclsyspri rechoose_interval;
  CL_SLEEP _ _ s := Ret s
}.

Context (npri : Z) (Hup : upreemptpri ≤ 0).

(** The invariant of the dispatcher. *)
Definition queues_ok (s : sys) : Prop := ∃ Q, sys_ok npri s Q.

Lemma enqueued_elem q p tp (Q : DispInv.queues) q' t : 0 ≤ p → p < zlen (Q q) → t ∈ concat (Q q') → t ∈ concat (enqueued put_back q p tp Q q').
Proof using Type.
  intros H1 H2 Ht. unfold enqueued, set_queue. case_decide as E; [|done]. rewrite E in Ht.
  rewrite (concat_enq put_back put_back_perm) by done. by right.
Qed.

Lemma keeps_disp s s' q : keeps s s' → is_Some (disp_of s q) → is_Some (disp_of s' q).
Proof using Type.
  intros [Hc Hp _] [dp Hq]. destruct q as [c|p]; simpl in *.
  - destruct (s_cpus s !! c) as [cp|] eqn:E; [|done]. assert (cpu_view s' !! c = Some (cpu_static cp)) as (cp' & Hcp' & _)%view_cpu by (by rewrite Hc, view_lookup, E).
    rewrite Hcp'. eauto.
  - destruct (s_parts s !! p) as [pt|] eqn:E; [|done]. assert (is_Some (part_view s' !! p)) as [x Hx] by (rewrite Hp, part_view_lookup, E; eauto).
    rewrite part_view_lookup in Hx. destruct (s_parts s' !! p); [eauto|done].
Qed.

(** What a step that queues [t], or tells the swapper of it, does for the other threads. *)
Lemma effect_runnable t k s s' Q Q' : sys_ok npri s Q → effect npri None t s s' Q' → s_threads s !! t = Some k → t_state k = TS_SLEEP →
  (∀ q u, u ∈ concat (Q q) → u ∈ concat (Q' q)) → (∃ k', s_threads s' !! t = Some k' ∧ t_state k' = TS_RUN) → made_runnable t s s'.
Proof using Type.
  intros Hs [Hok Hke Hth _ _] Hk Hst Hsub Ht. split; [exact Ht|by intros; apply Hth| |].
  - intros u ku Hku Hru. simpl in Hku. assert (u ≠ t) as Hne by (intros ->; congruence).
    destruct (t_lockp ku) as [q| | | |] eqn:El; try (destruct (Hth u ku Hne Hku) as [v Hv]; [by intros q'; rewrite El|by exists (set_astflag v ku)]).
    destruct (so_locked _ _ _ Hs u ku q Hku El) as [Hq Hu]. destruct (keeps_disp s s' q Hke Hq) as [dp' Hq'].
    destruct (queue_lock _ _ _ _ _ _ Hok Hq' (Hsub q u Hu)) as (k' & p & Hk' & _ & _ & _ & (Hr & _)). by exists k'.
  - intros u [k' Hk']. destruct (proj1 (ke_threads _ _ Hke) u k' Hk') as (k0 & Hk0 & _). eauto.
Qed.

(** [setbackdq] makes a thread that is asleep runnable. *)
Lemma setback_runs me s t k : queues_ok s → s_threads s !! t = Some k → asleep npri k → t_link k = None →
  ∃ s', setbackdq ncpus kpreemptpri upreemptpri maxclsyspri rechoose_interval me t s = Ret s' ∧ queues_ok s' ∧ made_runnable t s s'.
Proof using Hup.
  intros [Q Hs] Hk (Hst & Hoff & Hp) Hl. destruct (loaded k) eqn:Eload.
  - destruct (setbackdq_ok ncpus kpreemptpri upreemptpri maxclsyspri rechoose_interval npri s Q me t k Hs Hk) as (s' & q & Hrun & Hal & He);
      [split; [done|done|done|lia]|done|]. pose proof (ef_ok _ _ _ _ _ _ He) as Hok.
    exists s'. split; [done|]. split; [by eexists|].
    assert (is_Some (disp_of s q)) as Hq by (by eapply allowed_queue). pose proof Hq as [dp Hdp].
    pose proof (qo_npri _ _ _ _ _ (so_queues _ _ _ Hs q dp Hdp)) as Hn.
    apply (effect_runnable t k s s' Q _ Hs He Hk Hst); [intros q' u; apply enqueued_elem; lia|].
    destruct (keeps_disp s s' q (ef_keeps _ _ _ _ _ _ He) Hq) as [dp' Hq'].
    destruct (queue_lock npri s' _ q dp' t Hok Hq') as (k' & p & Hk' & _ & _ & _ & (Hr & _)); [|by exists k'].
    unfold enqueued. rewrite set_queue_eq, (concat_enq put_back put_back_perm) by lia. left.
  - destruct (swapped_ok maxclsyspri npri s Q t k Hs Hk) as (s' & Hrun & He); [split; [done|]; split; [done|by left]|].
    exists s'. unfold setbackdq, get_thread, tget. rewrite Hk. cbn [rbind]. rewrite Eload. cbn [negb]. split; [done|].
    split; [exists Q; apply He|]. apply (effect_runnable t k s s' Q Q Hs He Hk Hst); [done|].
    unfold disp_swapped_setrun, get_thread, tget in Hrun. rewrite Hk in Hrun. cbn [rbind] in Hrun. rewrite Hst in Hrun. unfold mod_thread in Hrun.
    exists (THREAD_RUN swapped_lock k). split; [|done]. destruct (maxclsyspri <? DISP_PRIO k); cbn in Hrun; unfold tmod, tget in Hrun;
      cbn in Hrun; rewrite Hk in Hrun; cbn in Hrun; injection Hrun as <-; cbn; apply lookup_insert_eq.
Qed.

#[export] Instance sys_class_laws : SchedClassLaws sys npri queues_ok.
Proof using Hup.
  split.
  - done.
  - intros s t k k' [Q Hs] Hk [Hoff Hoff' Hp (E1 & E2 & E3)]. exists Q. apply (change_ok npri s Q t k); [done|exact Hk|done|done| |].
    + destruct (so_refs _ _ _ Hs t k Hk) as (R1 & R2 & R3). split; [by rewrite E1|]. split; [by rewrite E2|]. by rewrite E3.
    + intros c cp Hc Hid. destruct (so_cpus _ _ _ Hs c cp Hc) as [_ (ki & Hki & Ei)]. rewrite Hid in Hki. simpl in Hk. rewrite Hk in Hki. injection Hki as ->. lia.
  - intros me s t k. apply setback_runs.
  - intros me s t k. apply setback_runs.
  - intros me s t k Hs Hk Hst Hoff Hp. exists s, k. done.
Qed.
End Sysclass.

(** ** Three threads on two processors *)

#[local] Instance ex_class : SchedClass sys := sys_classfuncs 2 60 0 59 3.
#[local] Instance ex_laws : SchedClassLaws sys 64 (queues_ok 64).
Proof. apply sys_class_laws. done. Qed.

(** The threads of [DispSafe] run; there is a condition variable at 4096. *)
Definition ex_running (t pri : Z) (s : sys) : sys := sc_put t (THREAD_SET_STATE TS_ONPROC other_lock (ex_thread pri)) s.
Definition ex_runners : sys := ex_running 1 62 (ex_running 2 10 (ex_running 3 20 ex_sys)).
Definition ex_blocks : bsys sys :=
  Bsys ex_runners ∅ ∅ {[4096 := 0]} ∅.
Definition ex_exec (op : slpop) (b : bsys sys) : bsys sys := match exec op b with Ret b => b | _ => b end.

Lemma ex_running_ok t pri s : queues_ok 64 s → s_threads s !! t = Some (ex_thread pri) → 0 ≤ pri → queues_ok 64 (ex_running t pri s).
Proof. intros Hs Ht Hp. apply (sc_move (npri := 64) s t (ex_thread pri)); [done|done|]. split; done. Qed.

Lemma ex_runners_ok : queues_ok 64 ex_runners.
Proof.
  destruct (DispSched.initial_ok 64 ex_mach ltac:(done) ex_initial) as [Hs _]. cbn [m_sys ex_mach] in Hs.
  apply ex_running_ok; [|vm_compute; reflexivity|done]. apply ex_running_ok; [|vm_compute; reflexivity|done].
  apply ex_running_ok; [exact Hs|vm_compute; reflexivity|done].
Qed.

Lemma ex_blocks_initial : initial (ok := queues_ok 64) ex_blocks.
Proof.
  split; [exact ex_runners_ok|done|done|].
  intros c n Hn. change (({[4096 := 0]} : gmap Z Z) !! c = Some n) in Hn. by apply lookup_singleton_Some in Hn as [<- <-].
Qed.

(** Thread [t] on processor 0. *)
Definition ex_on (t : Z) : ctx := Ctx 0 t 0.

Lemma ex_block b t k : th b !! t = Some k → t_state k = TS_ONPROC → t_lockp k = other_lock → 0 ≤ DISP_PRIO k < 64 → b_cv b !! 4096 = Some (zlen (waiters b 4096)) →
  zlen (waiters b 4096) < 65535 → chan_of b t = 0 → enabled (npri := 64) (Block (ex_on t) true 4096) b.
Proof.
  intros Hk Hst Hl Hp Hcv Hlt Hw. split; [done|]. split; [by eexists|]. split; [intros n Hn; rewrite Hcv in Hn; by injection Hn as <-|].
  split; [done|]. exists k. split; [done|]. split; [done|]. split; [|done]. intros q. by rewrite Hl.
Qed.

Definition ex_b1 : bsys sys := ex_exec (Block (ex_on 2) true 4096) ex_blocks.
Definition ex_b2 : bsys sys := ex_exec (Block (ex_on 3) true 4096) ex_b1.
Definition ex_b3 : bsys sys := ex_exec (Block (ex_on 1) true 4096) ex_b2.

Lemma ex_b3_reached : reachable (npri := 64) ex_blocks ex_b3.
Proof.
  apply (reach_step _ ex_b2 _ (Block (ex_on 1) true 4096)).
  - apply (reach_step _ ex_b1 _ (Block (ex_on 3) true 4096)).
    + apply (reach_step _ ex_blocks _ (Block (ex_on 2) true 4096)); [apply reach_here| |vm_compute; reflexivity].
      eapply ex_block; try (vm_compute; reflexivity). by split; vm_compute.
    + eapply ex_block; try (vm_compute; reflexivity). by split; vm_compute.
    + vm_compute; reflexivity.
  - eapply ex_block; try (vm_compute; reflexivity). by split; vm_compute.
  - vm_compute; reflexivity.
Qed.

Lemma condvar_refines_witness :
  reachable (npri := 64) ex_blocks ex_b3 ∧ waiters ex_b3 4096 = [1; 3; 2] ∧
  ∃ b', exec (Wakeone (ex_on 4) true 4096) ex_b3 = Ret b' ∧ waiters b' 4096 = [3; 2] ∧ runs 1 b'.
Proof.
  split; [exact ex_b3_reached|]. assert (waiters ex_b3 4096 = [1; 3; 2]) as Ew by (vm_compute; reflexivity). split; [exact Ew|].
  destruct (condvar_refines sys ex_class 64 (queues_ok 64) ex_laws ex_blocks ex_b3 (Wakeone (ex_on 4) true 4096)) as (b' & Hrun & Hspec).
  - exact ex_blocks_initial.
  - exact ex_b3_reached.
  - split; [done|]. exists 3. vm_compute. reflexivity.
  - exists b'. split; [exact Hrun|]. cbn [spec] in Hspec. rewrite Ew in Hspec. destruct Hspec as (Hq & Hr & _).
    split; [exact (Hq 4096)|]. apply Hr. left.
Defined.

(** ** A semaphore whose waiters can be interrupted *)

(** There is a semaphore at 8192, with [n] permits. *)
Definition ex_sems (n : Z) : bsys sys :=
  Bsys ex_runners ∅ ∅ ∅ {[8192 := n]}.

(** Thread [t] has been chosen by processor 0. *)
Definition dispatched (t : Z) (b : bsys sys) : run (bsys sys) :=
  let* r := disp 2 60 0 59 3 10 (ex_me 0) (b_sys b) in
  match r with Some (u, s) => if u =? t then Ret (with_sys s b) else Fault | None => Fault end.

(** Thread 1 waits with [sema_p_sig]; it is woken by a signal before another thread gives a permit. *)
Definition sema_signal_run : run (bsys sys) :=
  let* (_, b) := sema_p_sig (ex_on 1) 8192 true false (ex_sems 0) in
  let* b := setrun (ex_on 3) 1 b in
  sema_v (ex_on 3) 8192 b.

(** Threads 1 and 2 wait with [sema_p_sig]; thread 3 gives three permits, and thread 1 goes on from its
    wait whenever it is woken.  The answers are those of thread 1's two turns. *)
Definition sema_retry_run : run (option Z * option Z * bsys sys) :=
  let* (_, b) := sema_p_sig (ex_on 1) 8192 true false (ex_sems 0) in
  let* (_, b) := sema_p_sig (ex_on 2) 8192 true false b in
  let* b := sema_v (ex_on 3) 8192 b in
  let* b := dispatched 1 b in
  let* (r1, b) := sema_p_sig_woken (ex_on 1) 8192 false false b in
  let* b := sema_v (ex_on 3) 8192 b in
  let* b := dispatched 1 b in
  let* (r2, b) := sema_p_sig_woken (ex_on 1) 8192 false false b in
  let* b := sema_v (ex_on 3) 8192 b in
  Ret (r1, r2, b).

(** With interruptible waits the protocol of semaphores breaks, in two ways.  A thread that a signal took off
    the queue is counted until it runs again, and a permit given before that panics the kernel.  A thread that is handed a
    permit while others wait finds the count negative and goes back to sleep, so that the permit is lost: after three
    permits one thread of two has passed, and the other sleeps though there is a permit. *)
Theorem sema_p_sig_unsound :
  sema_signal_run = Panic ∧
  ∃ b, sema_retry_run = Ret (None, Some 0, b) ∧ semaphore_of b 8192 = Semaphore 1 [2].
Proof. split; [vm_compute; reflexivity|]. eexists. split; vm_compute; reflexivity. Qed.

(** ** Threads that take turns *)

Lemma ex_sems_initial : ksem_initial (ok := queues_ok 64) (ex_sems 0).
Proof.
  split; [exact ex_runners_ok|done|done|].
  intros s n Hn. change (({[8192 := 0]} : gmap Z Z) !! s = Some n) in Hn. apply lookup_singleton_Some in Hn as [<- <-]. lia.
Qed.

Definition ksem_after (op : ksemop) (b : bsys sys) : bsys sys := match ksem_exec op b with Ret (_, b) => b | _ => b end.
Definition ex_s1 : bsys sys := ksem_after (Take (ex_on 2) 8192) (ex_sems 0).
Definition ex_s2 : bsys sys := ksem_after (Take (ex_on 3) 8192) ex_s1.

Lemma ex_take b t n k : b_count b !! 8192 = Some n → - 2 ^ 31 < n → chan_of b t = 0 → th b !! t = Some k → t_state k = TS_ONPROC →
  t_lockp k = other_lock → 0 ≤ DISP_PRIO k < 64 → ksem_enabled (npri := 64) (Take (ex_on t) 8192) b.
Proof. intros Hn Hlt Hw Hk Hst Hl Hp. split; [by exists n|]. split; [done|]. exists k. split_and!; try done; try lia. intros q. by rewrite Hl. Qed.

Lemma ex_s2_reached : ksem_reachable (npri := 64) (ex_sems 0) ex_s2.
Proof.
  apply (ksem_next _ ex_s1 false _ (Take (ex_on 3) 8192)); [|eapply ex_take; try (vm_compute; reflexivity); by split; vm_compute|vm_compute; reflexivity].
  apply (ksem_next _ (ex_sems 0) false _ (Take (ex_on 2) 8192)); [apply ksem_here| |vm_compute; reflexivity].
  eapply ex_take; try (vm_compute; reflexivity); by split; vm_compute.
Qed.

Lemma ksema_refines_witness : ∃ b', ksem_exec (Give (ex_on 1) 8192) ex_s2 = Ret (true, b') ∧ semaphore_of b' 8192 = Semaphore 0 [2] ∧ runs 3 b'.
Proof.
  assert (semaphore_of ex_s2 8192 = Semaphore 0 [3; 2]) as Es by (vm_compute; reflexivity).
  destruct (ksema_refines sys ex_class 64 (queues_ok 64) ex_laws (ex_sems 0) ex_s2 (Give (ex_on 1) 8192)) as (r & b' & Hrun & Hspec).
  - exact ex_sems_initial.
  - exact ex_s2_reached.
  - exists (-2). split; vm_compute; reflexivity.
  - cbn [ksem_spec] in Hspec. rewrite Es in Hspec. destruct Hspec as (-> & Hsem & Hgot & _). exists b'. split; [exact Hrun|].
    split; [exact (Hsem 8192)|]. by apply Hgot.
Defined.
