(* ===== verification/Flock.v ===== *)
(** * Record locks ([uts/common/os/flock.c], [sys/flock_impl.h], [sys/flock.h])

    Locks on ranges of files, of one hash chain of vnodes: the lists of active locks and
    of requests that sleep, the graph of which lock waits for which, and the graph of
    which process waits for which, with the search for deadlocks; the requests are in
    [FlockReq].  A descriptor is an
    address in the store of [locks]; one that is not in the store reads as blank, and
    the invariants of the development show that no list and no edge refers to such.  An
    edge is kept as its end in the list of the other end; a position in such a list is
    the rest of the list.  [cv_signal] has no model of its own: a thread that waits tests
    the flags that are set just before it. *)

From S2P Require Import Prelude.

(** ** Data *)

Inductive flk_errno := EBADF | EINVAL | EAGAIN | EDEADLK | EINTR | ENOLCK.

Definition F_RDLCK : Z := 1.
Definition F_WRLCK : Z := 2.
Definition F_UNLCK : Z := 3.
Definition F_UNLKSYS : Z := 4.

Definition INOFLCK : Z := 1.
Definition SETFLCK : Z := 2.
Definition SLPFLCK : Z := 4.
Definition RCMDLCK : Z := 8.
Definition IGN_PID : Z := -1.

(** [off64_t] and [offset_t] are signed and [u_offset_t] unsigned, of 64 bits; [u_off_t] has 32. *)
Definition w64 (z : Z) : Z := z `mod` 2 ^ 64.
Definition s64 (z : Z) : Z := (z + 2 ^ 63) `mod` 2 ^ 64 - 2 ^ 63.
Definition MAX_U_OFF_T : Z := 2 ^ 32 - 1.
Definition MAX_U_OFFSET_T : Z := 2 ^ 64 - 1.
Definition MAXEND : Z := 2 ^ 63 - 1.

Record flock64 := Flock64 { f_type : Z; f_whence : Z; f_start : Z; f_len : Z; f_sysid : Z; f_pid : Z }.
Definition set_f_type v f := Flock64 v (f_whence f) (f_start f) (f_len f) (f_sysid f) (f_pid f).

(** [l_adj] has where the edges of the lock go to, [l_in] where edges to it come from. *)
Record lockd := Lockd {
  l_vnode : Z;
  l_type : Z;
  l_state : Z;
  l_start : Z;
  l_end : Z;
  l_flock : flock64;
  l_color : Z;
  l_index : Z;
  l_sedge : list Z;
  pvertex : Z;
  l_adj : list Z;
  l_in : list Z
}.

Definition set_l_type v d := Lockd (l_vnode d) v (l_state d) (l_start d) (l_end d) (l_flock d) (l_color d) (l_index d) (l_sedge d) (pvertex d) (l_adj d) (l_in d).
Definition set_l_state v d := Lockd (l_vnode d) (l_type d) v (l_start d) (l_end d) (l_flock d) (l_color d) (l_index d) (l_sedge d) (pvertex d) (l_adj d) (l_in d).
Definition set_l_start v d := Lockd (l_vnode d) (l_type d) (l_state d) v (l_end d) (l_flock d) (l_color d) (l_index d) (l_sedge d) (pvertex d) (l_adj d) (l_in d).
Definition set_l_end v d := Lockd (l_vnode d) (l_type d) (l_state d) (l_start d) v (l_flock d) (l_color d) (l_index d) (l_sedge d) (pvertex d) (l_adj d) (l_in d).
Definition set_l_flock v d := Lockd (l_vnode d) (l_type d) (l_state d) (l_start d) (l_end d) v (l_color d) (l_index d) (l_sedge d) (pvertex d) (l_adj d) (l_in d).
Definition set_l_color v d := Lockd (l_vnode d) (l_type d) (l_state d) (l_start d) (l_end d) (l_flock d) v (l_index d) (l_sedge d) (pvertex d) (l_adj d) (l_in d).
Definition set_l_index v d := Lockd (l_vnode d) (l_type d) (l_state d) (l_start d) (l_end d) (l_flock d) (l_color d) v (l_sedge d) (pvertex d) (l_adj d) (l_in d).
Definition set_l_sedge v d := Lockd (l_vnode d) (l_type d) (l_state d) (l_start d) (l_end d) (l_flock d) (l_color d) (l_index d) v (pvertex d) (l_adj d) (l_in d).
Definition set_pvertex v d := Lockd (l_vnode d) (l_type d) (l_state d) (l_start d) (l_end d) (l_flock d) (l_color d) (l_index d) (l_sedge d) v (l_adj d) (l_in d).
Definition set_l_adj v d := Lockd (l_vnode d) (l_type d) (l_state d) (l_start d) (l_end d) (l_flock d) (l_color d) (l_index d) (l_sedge d) (pvertex d) v (l_in d).
Definition set_l_in v d := Lockd (l_vnode d) (l_type d) (l_state d) (l_start d) (l_end d) (l_flock d) (l_color d) (l_index d) (l_sedge d) (pvertex d) (l_adj d) v.

(** The flags of [l_state]. *)
Definition ACTIVE_LOCK : Z := 0x0001.
Definition SLEEPING_LOCK : Z := 0x0002.
Definition IO_LOCK : Z := 0x0004.
Definition REFERENCED_LOCK : Z := 0x0008.
Definition QUERY_LOCK : Z := 0x0010.
Definition WILLING_TO_SLEEP_LOCK : Z := 0x0020.
Definition RECOMPUTE_LOCK : Z := 0x0040.
Definition RECOMPUTE_DONE : Z := 0x0080.
Definition BARRIER_LOCK : Z := 0x0100.
Definition GRANTED_LOCK : Z := 0x0200.
Definition CANCELLED_LOCK : Z := 0x0400.
Definition DELETED_LOCK : Z := 0x0800.
Definition INTERRUPTED_LOCK : Z := 0x1000.
Definition LOCKMGR_LOCK : Z := 0x2000.

Definition has (flag : Z) (d : lockd) : bool := truthy (Z.land (l_state d) flag).
Definition set_flag (flag : Z) (d : lockd) : lockd := set_l_state (Z.lor (l_state d) flag) d.
Definition clr_flag (flag : Z) (d : lockd) : lockd := set_l_state (Z.ldiff (l_state d) flag) d.

Definition blank : lockd := Lockd 0 0 0 0 0 (Flock64 0 0 0 0 0 0) 0 0 [] 0 [] [].

(** [struct proc_vertex]; an edge is the vertex it goes to and its [refcount]. *)
Record proc_vertex := ProcVertex {
  pv_pid : Z;
  pv_sysid : Z;
  pv_edge : list (Z * Z);
  incount : Z;
  p_sedge : list (Z * Z);
  atime : Z;
  dtime : Z;
  pv_index : Z
}.
Definition set_pv_edge v p := ProcVertex (pv_pid p) (pv_sysid p) v (incount p) (p_sedge p) (atime p) (dtime p) (pv_index p).
Definition set_incount v p := ProcVertex (pv_pid p) (pv_sysid p) (pv_edge p) v (p_sedge p) (atime p) (dtime p) (pv_index p).
Definition set_p_sedge v p := ProcVertex (pv_pid p) (pv_sysid p) (pv_edge p) (incount p) v (atime p) (dtime p) (pv_index p).
Definition set_atime v p := ProcVertex (pv_pid p) (pv_sysid p) (pv_edge p) (incount p) (p_sedge p) v (dtime p) (pv_index p).
Definition set_dtime v p := ProcVertex (pv_pid p) (pv_sysid p) (pv_edge p) (incount p) (p_sedge p) (atime p) v (pv_index p).
Definition set_pv_index v p := ProcVertex (pv_pid p) (pv_sysid p) (pv_edge p) (incount p) (p_sedge p) (atime p) (dtime p) v.

(** [struct proc_graph]: [proc] has [gcount] slots; [pvs] are the vertices that are allocated. *)
Record proc_graph := ProcGraph {
  proc : list (option Z);
  p_free : Z;
  p_mark : Z;
  pvs : gmap Z proc_vertex;
  next_pv : Z
}.
Definition PROC_CHUNK : nat := 100.

Inductive flk_lockmgr_status_t := FLK_LOCKMGR_UP | FLK_WAKEUP_SLEEPERS | FLK_LOCKMGR_DOWN.

Definition is_up (st : flk_lockmgr_status_t) : bool := match st with FLK_LOCKMGR_UP => true | _ => false end.

(** One graph with the vnodes of its chain ([v_filocks]) and the process graph. *)
Record graph := Graph {
  locks : gmap Z lockd;
  next_lock : Z;
  active_locks : list Z;
  sleeping_locks : list Z;
  v_filocks : gmap Z Z;
  g_mark : Z;
  lockmgr_status : flk_lockmgr_status_t;
  pgraph : proc_graph
}.

Definition set_locks v s := Graph v (next_lock s) (active_locks s) (sleeping_locks s) (v_filocks s) (g_mark s) (lockmgr_status s) (pgraph s).
Definition set_active v s := Graph (locks s) (next_lock s) v (sleeping_locks s) (v_filocks s) (g_mark s) (lockmgr_status s) (pgraph s).
Definition set_sleeping v s := Graph (locks s) (next_lock s) (active_locks s) v (v_filocks s) (g_mark s) (lockmgr_status s) (pgraph s).
Definition set_filocks v s := Graph (locks s) (next_lock s) (active_locks s) (sleeping_locks s) v (g_mark s) (lockmgr_status s) (pgraph s).
Definition set_mark v s := Graph (locks s) (next_lock s) (active_locks s) (sleeping_locks s) (v_filocks s) v (lockmgr_status s) (pgraph s).
Definition set_status v s := Graph (locks s) (next_lock s) (active_locks s) (sleeping_locks s) (v_filocks s) (g_mark s) v (pgraph s).
Definition set_pgraph v s := Graph (locks s) (next_lock s) (active_locks s) (sleeping_locks s) (v_filocks s) (g_mark s) (lockmgr_status s) v.

(** Descriptors in the store. *)
Definition lk (s : graph) (l : Z) : lockd := default blank (locks s !! l).
Definition upd (l : Z) (f : lockd → lockd) (s : graph) : graph := set_locks (<[l := f (lk s l)]> (locks s)) s.

Definition UINT_MAX : Z := 2 ^ 32 - 1.

(** ** Macros *)

Definition SAME_OWNER (d1 d2 : lockd) : bool :=
  (f_pid (l_flock d1) =? f_pid (l_flock d2)) && (f_sysid (l_flock d1) =? f_sysid (l_flock d2)).
Definition OVERLAP (d1 d2 : lockd) : bool :=
  ((l_start d1 <=? l_start d2) && (l_start d2 <=? l_end d1)) ||
  ((l_start d2 <=? l_start d1) && (l_start d1 <=? l_end d2)).
Definition BLOCKS (d1 d2 : lockd) : bool :=
  negb (SAME_OWNER d1 d2) && ((l_type d1 =? F_WRLCK) || (l_type d2 =? F_WRLCK)) && OVERLAP d1 d2.
Definition COVERS (d1 d2 : lockd) : bool := (l_start d1 <=? l_start d2) && (l_end d2 <=? l_end d1).
Definition NOT_BLOCKED (d : lockd) : bool := bool_decide (l_adj d = []) && negb (has GRANTED_LOCK d).
Definition NO_DEPENDENTS (d : lockd) : bool := bool_decide (l_in d = []).
Definition NO_COLOR : Z := 0.
Definition COLORED (s : graph) (l : Z) : bool := l_color (lk s l) =? g_mark s.
Definition COLOR (l : Z) (s : graph) : graph := upd l (set_l_color (g_mark s)) s.
Definition GRANT_WAKEUP (l : Z) (s : graph) : graph := upd l (set_flag GRANTED_LOCK) s.
Definition CANCEL_WAKEUP (l : Z) (s : graph) : graph := upd l (set_flag CANCELLED_LOCK) s.
Definition INTERRUPT_WAKEUP (l : Z) (s : graph) : graph := upd l (set_flag INTERRUPTED_LOCK) s.
Definition IS_LOCAL (d : lockd) : bool := f_sysid (l_flock d) =? 0.
Definition IS_REMOTE (d : lockd) : bool := negb (IS_LOCAL d).

(** One edge leaves a list. *)
Fixpoint remove_one (x : Z) (l : list Z) : list Z :=
  match l with [] => [] | y :: l => if x =? y then l else y :: remove_one x l end.
(** [ADJ_LIST_REMOVE] and [IN_LIST_REMOVE] of the edge between two locks. *)
Definition ADJ_LIST_REMOVE (from to : Z) (s : graph) : graph := upd from (λ d, set_l_adj (remove_one to (l_adj d)) d) s.
Definition IN_LIST_REMOVE (from to : Z) (s : graph) : graph := upd to (λ d, set_l_in (remove_one from (l_in d)) d) s.
Definition REMOVE_SLEEP_QUEUE (l : Z) (s : graph) : graph :=
  set_sleeping (remove_one l (sleeping_locks s)) (upd l (clr_flag SLEEPING_LOCK) s).

(** What an element of a circular list is linked to; [None] is the head of the list. *)
Fixpoint l_next (l : Z) (q : list Z) : option Z :=
  match q with [] => None | x :: q => if x =? l then head q else l_next l q end.

(** The locks of a vnode from [l] on, in a list. *)
Fixpoint run_of (s : graph) (vp : Z) (q : list Z) : list Z :=
  match q with [] => [] | x :: q => if l_vnode (lk s x) =? vp then x :: run_of s vp q else [] end.
Fixpoint from (l : Z) (q : list Z) : list Z :=
  match q with [] => [] | x :: q' => if x =? l then q else from l q' end.
(** [SET_LOCK_TO_FIRST_ACTIVE_VP], with the locks that a loop from there goes over. *)
Definition active_vp (s : graph) (vp : Z) : list Z :=
  match v_filocks s !! vp with None => [] | Some l => run_of s vp (from l (active_locks s)) end.
(** [SET_LOCK_TO_FIRST_SLEEP_VP] *)
Fixpoint sleep_vp_from (s : graph) (vp : Z) (q : list Z) : list Z :=
  match q with
  | [] => []
  | x :: q' => if l_vnode (lk s x) =? vp then run_of s vp q else sleep_vp_from s vp q'
  end.
Definition sleep_vp (s : graph) (vp : Z) : list Z := sleep_vp_from s vp (sleeping_locks s).

(** ** Descriptors *)

Definition flk_get_lock (s : graph) : Z * graph :=
  let l := next_lock s in
  (l, Graph (<[l := set_pvertex (-1) blank]> (locks s)) (l + 1) (active_locks s) (sleeping_locks s) (v_filocks s)
        (g_mark s) (lockmgr_status s) (pgraph s)).

Definition flk_free_lock (l : Z) (s : graph) : graph :=
  if has REFERENCED_LOCK (lk s l) then upd l (set_flag DELETED_LOCK) s
  else set_locks (delete l (locks s)) s.

(** [COPY] *)
Definition COPY (d1 d2 : lockd) : lockd :=
  Lockd (l_vnode d2) (l_type d2) (l_state d1) (l_start d2) (l_end d2) (l_flock d2) (l_color d1) (l_index d1) (l_sedge d1)
    (pvertex d2) (l_adj d1) (l_in d1).

(** ** The lists *)

(** Where [flk_insert_active_lock] links the lock in: at the end, or in the run of the vnode. *)
Fixpoint insert_before (p : Z → bool) (x : Z) (q : list Z) : list Z :=
  match q with [] => [x] | y :: q' => if p y then x :: q else y :: insert_before p x q' end.

Fixpoint insert_from (first : Z) (p : Z → bool) (x : Z) (q : list Z) : list Z :=
  match q with
  | [] => [x]
  | y :: q' => if y =? first then insert_before p x q else y :: insert_from first p x q'
  end.

Definition flk_insert_active_lock (new_lock : Z) (s : graph) : graph :=
  let d := lk s new_lock in
  let vp := l_vnode d in
  let s' :=
    match v_filocks s !! vp with
    | None => set_filocks (<[vp := new_lock]> (v_filocks s)) (set_active (active_locks s ++ [new_lock]) s)
    | Some first =>
        let stop l := negb ((l_vnode (lk s l) =? vp) && (l_start (lk s l) <? l_start d)) in
        let s' := set_active (insert_from first stop new_lock (active_locks s)) s in
        if l_start d <=? l_start (lk s first) then set_filocks (<[vp := new_lock]> (v_filocks s)) s' else s'
    end in
  upd new_lock (set_flag ACTIVE_LOCK) s'.

Definition flk_delete_active_lock (lock : Z) (free_lock : bool) (s : graph) : graph :=
  let vp := l_vnode (lk s lock) in
  let filocks :=
    if bool_decide (v_filocks s !! vp = Some lock) then
      match l_next lock (active_locks s) with
      | Some n => if l_vnode (lk s n) =? vp then <[vp := n]> (v_filocks s) else delete vp (v_filocks s)
      | None => delete vp (v_filocks s)
      end
    else v_filocks s in
  let s := upd lock (clr_flag ACTIVE_LOCK) (set_active (remove_one lock (active_locks s)) (set_filocks filocks s)) in
  if free_lock then flk_free_lock lock s else s.

Definition flk_insert_sleeping_lock (request : Z) (s : graph) : graph :=
  let stop l := negb (l_vnode (lk s l) <? l_vnode (lk s request)) in
  upd request (set_flag SLEEPING_LOCK) (set_sleeping (insert_before stop request (sleeping_locks s)) s).

(** ** The process graph *)

Definition blank_vertex : proc_vertex := ProcVertex 0 0 [] 0 [] 0 0 0.
Definition pv (g : proc_graph) (p : Z) : proc_vertex := default blank_vertex (pvs g !! p).
Definition set_proc v g := ProcGraph v (p_free g) (p_mark g) (pvs g) (next_pv g).
Definition set_p_free v g := ProcGraph (proc g) v (p_mark g) (pvs g) (next_pv g).
Definition set_p_mark v g := ProcGraph (proc g) (p_free g) v (pvs g) (next_pv g).
Definition set_pvs v g := ProcGraph (proc g) (p_free g) (p_mark g) v (next_pv g).
Definition updv (p : Z) (f : proc_vertex → proc_vertex) (g : proc_graph) : proc_graph := set_pvs (<[p := f (pv g p)]> (pvs g)) g.
Definition pgupd (f : proc_graph → proc_graph) (s : graph) : graph := set_pgraph (f (pgraph s)) s.

Definition PROC_SAME_OWNER (d : lockd) (p : proc_vertex) : bool :=
  (f_pid (l_flock d) =? pv_pid p) && (f_sysid (l_flock d) =? pv_sysid p).
Definition PROC_ARRIVE (p : Z) (g : proc_graph) : proc_graph := updv p (set_atime (p_mark g)) g.
Definition PROC_DEPART (p : Z) (g : proc_graph) : proc_graph := updv p (set_dtime (p_mark g)) g.
Definition PROC_ARRIVED (g : proc_graph) (p : Z) : bool := atime (pv g p) =? p_mark g.
Definition PROC_DEPARTED (g : proc_graph) (p : Z) : bool := dtime (pv g p) =? p_mark g.

(** The first slot, from [i] on, with such a content. *)
Fixpoint find_slot (p : option Z → bool) (i : Z) (slots : list (option Z)) : option (Z * option Z) :=
  match slots with
  | [] => None
  | o :: slots => if p o then Some (i, o) else find_slot p (i + 1) slots
  end.

Definition owned_by (d : lockd) (g : proc_graph) (o : option Z) : bool :=
  match o with Some p => PROC_SAME_OWNER d (pv g p) | None => false end.

(** A new vertex in slot [i] of [slots]. *)
Definition new_vertex (lock i : Z) (slots : list (option Z)) (free : Z) (s : graph) : Z * graph :=
  let g := pgraph s in
  let p := next_pv g in
  let fl := l_flock (lk s lock) in
  (p, upd lock (set_pvertex i)
        (set_pgraph (ProcGraph (<[Z.to_nat i := Some p]> slots) free (p_mark g)
           (<[p := ProcVertex (f_pid fl) (f_sysid fl) [] 0 [] 0 0 i]> (pvs g)) (p + 1)) s)).

Definition flk_get_proc_vertex (lock : Z) (s : graph) : run (Z * graph) :=
  let g := pgraph s in
  let d := lk s lock in
  let* cached :=
    if pvertex d =? -1 then Ret None
    else if pvertex d <? 0 then Fault
    else
      match proc g !! Z.to_nat (pvertex d) with
      | None => Fault
      | Some o => Ret (if owned_by d g o then o else None)
      end in
  match cached with
  | Some p => Ret (p, s)
  | None =>
      match find_slot (owned_by d g) 0 (proc g) with
      | Some (i, Some p) => Ret (p, upd lock (set_pvertex i) (pgupd (updv p (set_pv_index i)) s))
      | _ =>
          let grow :=
            new_vertex lock (zlen (proc g)) (proc g ++ replicate PROC_CHUNK None) (p_free g + (Z.of_nat PROC_CHUNK - 1)) s in
          if p_free g =? 0 then Ret grow
          else
            match find_slot (λ o, bool_decide (o = None)) 0 (proc g) with
            | Some (i, _) => Ret (new_vertex lock i (proc g) (p_free g - 1) s)
            | None => Ret grow
            end
      end
  end.

Definition flk_proc_release (p : Z) (g : proc_graph) : run proc_graph :=
  let v := pv g p in
  if bool_decide (pv_edge v = []) && (incount v =? 0) then
    match proc g !! Z.to_nat (pv_index v) with
    | None => Fault
    | Some _ =>
        Ret (ProcGraph (<[Z.to_nat (pv_index v) := None]> (proc g)) (p_free g + 1) (p_mark g) (delete p (pvs g)) (next_pv g))
    end
  else Ret g.

(** The edge to [p] in a list of edges. *)
Fixpoint find_edge (p : Z) (es : list (Z * Z)) : option Z :=
  match es with [] => None | (q, n) :: es => if q =? p then Some n else find_edge p es end.
Fixpoint set_edge (p n : Z) (es : list (Z * Z)) : list (Z * Z) :=
  match es with [] => [] | (q, m) :: es => if q =? p then (q, n) :: es else (q, m) :: set_edge p n es end.
Fixpoint drop_edge (p : Z) (es : list (Z * Z)) : list (Z * Z) :=
  match es with [] => [] | (q, m) :: es => if q =? p then es else (q, m) :: drop_edge p es end.

(** One more, or one less, edge between locks of two processes. *)
Definition add_proc_edge (fromp top : Z) (g : proc_graph) : proc_graph :=
  match find_edge top (pv_edge (pv g fromp)) with
  | Some n => updv fromp (λ v, set_pv_edge (set_edge top (n + 1) (pv_edge v)) v) g
  | None =>
      updv fromp (λ v, set_pv_edge ((top, 1) :: pv_edge v) v) (updv top (λ v, set_incount (incount v + 1) v) g)
  end.
(** [rel] is the vertex that is released when the edge goes. *)
Definition del_proc_edge (fromp top rel : Z) (g : proc_graph) : run proc_graph :=
  match find_edge top (pv_edge (pv g fromp)) with
  | None => Ret g
  | Some n =>
      if n - 1 =? 0 then
        flk_proc_release rel
          (updv top (λ v, set_incount (incount v - 1) v) (updv fromp (λ v, set_pv_edge (drop_edge top (pv_edge v)) v) g))
      else Ret (updv fromp (λ v, set_pv_edge (set_edge top (n - 1) (pv_edge v)) v) g)
  end.

Definition flk_update_proc_graph (from_vertex to_vertex : Z) (del : bool) (s : graph) : run graph :=
  let* (toproc, s) := flk_get_proc_vertex to_vertex s in
  let* (fromproc, s) := flk_get_proc_vertex from_vertex s in
  if del then
    let* g := del_proc_edge fromproc toproc toproc (pgraph s) in
    let* g := flk_proc_release fromproc g in
    Ret (set_pgraph g s)
  else Ret (pgupd (add_proc_edge fromproc toproc) s).

Definition flk_proc_graph_uncolor (g : proc_graph) : proc_graph :=
  if p_mark g =? UINT_MAX then
    set_p_mark 1
      (foldl (λ g o, match o with Some p => updv p (λ v, set_dtime 0 (set_atime 0 v)) g | None => g end) g (proc g))
  else set_p_mark (p_mark g + 1) g.

(** One look at the edges of the vertex on top: the first that was not arrived at is pushed. *)
Inductive look := Push (dvertex : Z) (rest : list (Z * Z)) | Deadlock | Done.
Fixpoint look_at (g : proc_graph) (es : list (Z * Z)) : look :=
  match es with
  | [] => Done
  | (dvertex, _) :: rest =>
      if negb (PROC_ARRIVED g dvertex) then Push dvertex rest
      else if negb (PROC_DEPARTED g dvertex) then Deadlock
      else look_at g rest
  end.

(** The search of [flk_check_deadlock]: whether it has found a cycle. *)
Fixpoint deadlock_search (fuel : nat) (process_stack : list Z) (g : proc_graph) : run (bool * proc_graph) :=
  match process_stack with
  | [] => Ret (false, g)
  | pvertex :: rest =>
      match fuel with
      | O => Fault
      | S fuel =>
          match look_at g (p_sedge (pv g pvertex)) with
          | Push dvertex es =>
              let g := updv dvertex (λ v, set_p_sedge (pv_edge v) v) g in
              deadlock_search fuel (dvertex :: process_stack) (updv pvertex (set_p_sedge es) (PROC_ARRIVE pvertex g))
          | Deadlock => Ret (true, g)
          | Done => deadlock_search fuel rest (PROC_DEPART pvertex g)
          end
      end
  end.

(** A push goes along an edge of a vertex that is not pushed again, so that this many steps are enough. *)
Definition search_fuel (g : proc_graph) : nat :=
  (2 * (1 + sum_list ((λ p, length (pv_edge p.2)) <$> map_to_list (pvs g))))%nat.

(** The edges of a lock go into the process graph. *)
Fixpoint out_proc_edges (start_vertex : Z) (adj : list Z) (s : graph) : run graph :=
  match adj with
  | [] => Ret s
  | to :: adj =>
      let* (adj_proc, s) := flk_get_proc_vertex to s in
      out_proc_edges start_vertex adj (pgupd (add_proc_edge start_vertex adj_proc) s)
  end.
Fixpoint in_proc_edges (start_vertex : Z) (ins : list Z) (s : graph) : run graph :=
  match ins with
  | [] => Ret s
  | fr :: ins =>
      let* (in_proc, s) := flk_get_proc_vertex fr s in
      in_proc_edges start_vertex ins (pgupd (add_proc_edge in_proc start_vertex) s)
  end.

(** And out again, with the edges themselves. *)
Fixpoint undo_out (lock start_vertex : Z) (adj : list Z) (s : graph) : run graph :=
  match adj with
  | [] => Ret s
  | to :: adj =>
      let* (adj_proc, s) := flk_get_proc_vertex to s in
      let s := ADJ_LIST_REMOVE lock to (IN_LIST_REMOVE lock to s) in
      let* g := del_proc_edge start_vertex adj_proc adj_proc (pgraph s) in
      undo_out lock start_vertex adj (set_pgraph g s)
  end.
Fixpoint undo_in (lock start_vertex : Z) (ins : list Z) (s : graph) : run graph :=
  match ins with
  | [] => Ret s
  | fr :: ins =>
      let* (in_proc, s) := flk_get_proc_vertex fr s in
      let s := ADJ_LIST_REMOVE fr lock (IN_LIST_REMOVE fr lock s) in
      let* g := del_proc_edge in_proc start_vertex in_proc (pgraph s) in
      undo_in lock start_vertex ins (set_pgraph g s)
  end.

Definition flk_check_deadlock (lock : Z) (s : graph) : run (bool * graph) :=
  let* (start_vertex, s) := flk_get_proc_vertex lock s in
  let* s := out_proc_edges start_vertex (l_adj (lk s lock)) s in
  let* s := in_proc_edges start_vertex (l_in (lk s lock)) s in
  if incount (pv (pgraph s) start_vertex) =? 0 then Ret (false, s)
  else
    let g := flk_proc_graph_uncolor (pgraph s) in
    let g := updv start_vertex (λ v, set_p_sedge (pv_edge v) v) g in
    let* (found, g) := deadlock_search (search_fuel g) [start_vertex] g in
    let s := set_pgraph g s in
    if found then
      let* s := undo_out lock start_vertex (l_adj (lk s lock)) s in
      let* s := undo_in lock start_vertex (l_in (lk s lock)) s in
      let* g := flk_proc_release start_vertex (pgraph s) in
      Ret (true, set_pgraph g s)
    else Ret (false, s).

(** ** The graph of locks *)

Definition flk_graph_uncolor (s : graph) : graph :=
  if g_mark s =? UINT_MAX then
    foldl (λ s l, upd l (set_l_color 0) s) (set_mark 1 s) (active_locks s ++ sleeping_locks s)
  else set_mark (g_mark s + 1) s.

(** A search from a stack that colors: [onnew] is for a vertex that is met for the first
    time and then pushed, [onold] for one that is met again. *)
Section Search.
Context {A : Type} (edges : lockd → list Z) (onold onnew : Z → A * graph → A * graph).

Fixpoint scan (vs : list Z) (stack : list Z) (a : A * graph) : list Z * (A * graph) :=
  match vs with
  | [] => (stack, a)
  | v :: vs =>
      if COLORED a.2 v then scan vs stack (onold v a)
      else scan vs (v :: stack) (onnew v (a.1, COLOR v a.2))
  end.

Fixpoint search (fuel : nat) (stack : list Z) (a : A * graph) : run (A * graph) :=
  match stack with
  | [] => Ret a
  | v :: stack =>
      match fuel with
      | O => Fault
      | S fuel => let (stack, a) := scan (edges (lk a.2 v)) stack a in search fuel stack a
      end
  end.
End Search.

(** A vertex is pushed once. *)
Definition colors (s : graph) : nat := S (size (locks s)).

Definition flk_color_reachables (vertex : Z) (s : graph) : run (Z * graph) :=
  search l_adj (λ _ a, a)
    (λ lock '(count, s), (if has RECOMPUTE_LOCK (lk s lock) then count + 1 else count, s))
    (colors s) [vertex] (0, s).

Definition update_barrier (lck : Z) (s : graph) : graph :=
  if has BARRIER_LOCK (lk s lck) then
    let s := upd lck (λ d, set_l_index (l_index d - 1) d) s in
    if l_index (lk s lck) =? 0 then upd lck (clr_flag BARRIER_LOCK) s else s
  else s.
Definition flk_update_barriers (lock : Z) (s : graph) : run graph :=
  let* (_, s) := search l_in (λ lck '(u, s), (u, update_barrier lck s)) (λ lck '(u, s), (u, update_barrier lck s))
    (colors s) [lock] (tt, s) in
  Ret s.

Definition flk_find_barriers (lock : Z) (s : graph) : run (bool * graph) :=
  search l_in
    (λ lck '(_, s), (true, upd lck (λ d, set_l_index (l_index d + 1) (set_flag BARRIER_LOCK d)) s))
    (λ lck '(found, s), (found, upd lck (set_l_index 0) s))
    (colors s) [lock] (false, s).

(** The check of [flk_add_edge]: whether a lock of the owner of [from_lock] can be reached. *)
Fixpoint cycle_scan (from_lock : Z) (vs : list Z) (stack : list Z) (s : graph) : option (list Z) * graph :=
  match vs with
  | [] => (Some stack, s)
  | v :: vs =>
      if COLORED s v then cycle_scan from_lock vs stack s
      else
        let s := COLOR v s in
        if SAME_OWNER (lk s v) (lk s from_lock) then (None, s) else cycle_scan from_lock vs (v :: stack) s
  end.
Fixpoint cycle_search (fuel : nat) (from_lock : Z) (stack : list Z) (s : graph) : run (bool * graph) :=
  match stack with
  | [] => Ret (false, s)
  | v :: stack =>
      match fuel with
      | O => Fault
      | S fuel =>
          match cycle_scan from_lock (l_adj (lk s v)) stack s with
          | (None, s) => Ret (true, s)
          | (Some stack, s) => cycle_search fuel from_lock stack s
          end
      end
  end.

Definition flk_add_edge (from_lock to_lock : Z) (check_cycle update_graph : bool) (s : graph) : run (option flk_errno * graph) :=
  if COLORED s to_lock then Ret (None, s)
  else
    let s := upd from_lock (λ d, set_l_adj (to_lock :: l_adj d) d) s in
    let s := upd to_lock (λ d, set_l_in (from_lock :: l_in d) d) s in
    if update_graph then let* s := flk_update_proc_graph from_lock to_lock false s in Ret (None, s)
    else if negb check_cycle then Ret (None, s)
    else
      let* (dead, s) := cycle_search (colors s) from_lock [from_lock] s in
      if dead then
        Ret (Some EDEADLK,
          foldl (λ s to, ADJ_LIST_REMOVE from_lock to (IN_LIST_REMOVE from_lock to s)) s (l_adj (lk s from_lock)))
      else Ret (None, s).

(** The loop of [flk_recompute_dependencies] over [topology], for one vertex. *)
Fixpoint recompute_vertex (vertex : Z) (topology : list Z) (update_graph : bool) (count : Z) (s : graph) : run (Z * graph) :=
  match topology with
  | [] => Ret (count, s)
  | lock :: topology =>
      if COLORED s lock then recompute_vertex vertex topology update_graph count s
      else if BLOCKS (lk s lock) (lk s vertex) then
        let* (_, s) := flk_add_edge vertex lock false update_graph s in
        let s := COLOR lock s in
        let* (n, s) := flk_color_reachables lock s in
        recompute_vertex vertex topology update_graph (count + 1 + n) s
      else recompute_vertex vertex topology update_graph count s
  end.

Fixpoint recompute_loop (fuel : nat) (topology : list Z) (update_graph barrier_found : bool) (vertex_stack : list Z)
    (s : graph) : run graph :=
  match vertex_stack with
  | [] => Ret s
  | vertex :: rest =>
      match fuel with
      | O => Fault
      | S fuel =>
          let loop := recompute_loop fuel topology update_graph barrier_found in
          let next_in_edge count s :=
            match l_sedge (lk s vertex) with
            | lock :: ins =>
                if count =? zlen topology then
                  let s := upd vertex (clr_flag RECOMPUTE_DONE) s in
                  let* s := if barrier_found then flk_update_barriers vertex (flk_graph_uncolor s) else Ret s in
                  loop rest s
                else
                  let s := upd lock (λ d, set_l_sedge (l_in d) d) s in
                  loop (lock :: vertex_stack) (upd vertex (set_l_sedge ins) s)
            | [] => loop rest (upd vertex (clr_flag RECOMPUTE_DONE) s)
            end in
          let d := lk s vertex in
          if has RECOMPUTE_DONE d then next_in_edge 0 s
          else if has BARRIER_LOCK d && truthy (l_index d) then
            let s := upd vertex (set_l_index (l_index d - 1)) s in
            loop rest (if l_index d - 1 =? 0 then upd vertex (clr_flag BARRIER_LOCK) s else s)
          else
            let s := flk_graph_uncolor (upd vertex (set_flag RECOMPUTE_DONE) s) in
            let* (count, s) := flk_color_reachables vertex s in
            let* (count, s) := recompute_vertex vertex topology update_graph count s in
            next_in_edge count s
      end
  end.

Definition flk_recompute_dependencies (fuel : nat) (request : Z) (topology : list Z) (update_graph : bool) (s : graph) : run graph :=
  if bool_decide (topology = []) then Ret s
  else
    let* (barrier_found, s) := flk_find_barriers request (flk_graph_uncolor s) in
    let s := upd request (λ d, set_l_sedge (l_in d) (set_flag RECOMPUTE_DONE d)) s in
    recompute_loop fuel topology update_graph barrier_found [request] s.

(** The edges to a lock are taken away, one after the other. *)
Fixpoint wakeup_loop (lock : Z) (adj_list_remove : bool) (ins : list Z) (s : graph) : run graph :=
  match ins with
  | [] => Ret s
  | lck :: ins =>
      let s := if adj_list_remove then ADJ_LIST_REMOVE lck lock s else s in
      let* s := flk_update_proc_graph lck lock true s in
      let s := if NOT_BLOCKED (lk s lck) then GRANT_WAKEUP lck s else s in
      wakeup_loop lock adj_list_remove ins (IN_LIST_REMOVE lck lock s)
  end.
Definition flk_wakeup (lock : Z) (adj_list_remove : bool) (s : graph) : run graph :=
  wakeup_loop lock adj_list_remove (l_in (lk s lock)) s.

(** A descriptor that is changed. *)
Lemma lk_upd l f s k : lk (upd l f s) k = if decide (k = l) then f (lk s l) else lk s k.
Proof.
  unfold lk at 1, upd. simpl. case_decide as E; [subst; by rewrite lookup_insert_eq|by rewrite lookup_insert_ne].
Qed.
