(* ===== verification/FlockReq.v ===== *)
(** * Requests for record locks ([uts/common/os/flock.c], [fs/fs_subr.c])

    What a request does to the locks of its owner, the waiting, the cancelling, the
    conversion of ranges and [reclock], on the lists and graphs of [Flock].  [fuel] is for
    the loops over the graph of locks, which has no cycle. *)

From S2P Require Import Prelude Flock.

(** ** A request against a lock of the same owner *)

Inductive effect := UNLOCK | DOWNGRADE | UPGRADE | STAY_SAME.
#[export] Instance effect_eq_dec : EqDecision effect.
Proof. solve_decision. Defined.

Definition lock_effect (lock request : lockd) : effect :=
  if l_type request =? F_UNLCK then UNLOCK
  else if (l_type request =? F_RDLCK) && (l_type lock =? F_WRLCK) then DOWNGRADE
  else if (l_type request =? F_WRLCK) && (l_type lock =? F_RDLCK) then UPGRADE
  else STAY_SAME.

(** A copy of [lock] with other ends. *)
Definition new_part (lock : Z) (f : lockd → lockd) (s : graph) : Z * graph :=
  let (l, s) := flk_get_lock s in (l, upd l (λ d, f (COPY d (lk s lock))) s).

(** What the comparison of the ranges comes to: the locks to recompute and the request with
    its new range, or an early end. *)
Inductive cmp := Topology (topology : list Z) | Return (done_searching : bool) | Exact.

Definition relation_cmp (lock request : Z) (s : graph) : cmp * graph :=
  let k := lk s lock in
  let r := lk s request in
  let stay := bool_decide (lock_effect k r = STAY_SAME) in
  let extend f := (Topology [request], upd request f s) in
  let keep := (Topology [request], s) in
  let above f s := new_part lock (λ d, set_l_start (w64 (l_end r + 1)) (f d)) s in
  let below s := new_part lock (set_l_end (w64 (l_start r - 1))) s in
  if l_end k <? l_start r then
    if (l_end k =? w64 (l_start r - 1)) && stay then extend (set_l_start (l_start k)) else (Return false, s)
  else if l_end r <? l_start k then
    if (l_end r =? w64 (l_start k - 1)) && stay then extend (set_l_end (l_end k)) else (Return true, s)
  else if l_end r <? l_end k then
    if l_start k <? l_start r then
      if stay then extend (λ d, set_l_end (l_end k) (set_l_start (l_start k) d))
      else
        let (lock1, s) := below s in
        let (lock2, s) := above id s in
        (Topology [lock1; lock2; request], s)
    else if l_start r <? l_start k then
      if stay then extend (set_l_end (l_end k))
      else let (lock1, s) := above id s in (Topology [lock1; request], s)
    else
      if stay then extend (λ d, set_l_end (l_end k) (set_l_start (l_start k) d))
      else let (lock1, s) := above id s in (Topology [lock1; request], s)
  else if l_end k <? l_end r then
    if l_start k <? l_start r then
      if stay then extend (set_l_start (l_start k))
      else let (lock1, s) := below s in (Topology [lock1; request], s)
    else keep
  else
    if l_start k <? l_start r then
      if stay then extend (set_l_start (l_start k))
      else let (lock1, s) := below s in (Topology [lock1; request], s)
    else if l_start r <? l_start k then keep
    else if negb (bool_decide (lock_effect k r = UNLOCK)) then keep
    else (Exact, s).

Definition for_all (f : Z → graph → graph) (ls : list Z) (s : graph) : graph := foldl (λ s l, f l s) s ls.

(** The edges to a lock are taken away without waking those that wait. *)
Fixpoint drop_in_edges (lock : Z) (ins : list Z) (s : graph) : run graph :=
  match ins with
  | [] => Ret s
  | lck :: ins =>
      let* s := flk_update_proc_graph lck lock true (IN_LIST_REMOVE lck lock s) in
      drop_in_edges lock ins s
  end.

(** [true] when the request has to do with no further lock. *)
Definition flk_relation (fuel : nat) (lock request : Z) (s : graph) : run (bool * graph) :=
  let eff := lock_effect (lk s lock) (lk s request) in
  let (c, s) := relation_cmp lock request s in
  match c with
  | Return b => Ret (b, s)
  | Exact =>
      let* s := flk_wakeup lock true (flk_delete_active_lock lock false s) in
      Ret (true, flk_free_lock lock s)
  | Topology parts =>
      let topology := if decide (eff = UNLOCK) then removelast parts else parts in
      let s := for_all (λ l, upd l (λ d, set_l_color NO_COLOR (set_flag RECOMPUTE_LOCK d))) topology s in
      let s := for_all (λ lck, ADJ_LIST_REMOVE lck lock) (l_in (lk s lock)) s in
      let s := flk_delete_active_lock lock false s in
      let* s := flk_recompute_dependencies fuel lock topology true s in
      let s := for_all (λ l, upd l (λ d, set_l_color NO_COLOR (clr_flag RECOMPUTE_LOCK d))) topology s in
      let s := for_all flk_insert_active_lock (removelast parts) s in
      let* s :=
        if decide (eff = DOWNGRADE ∨ eff = UNLOCK) then flk_wakeup lock false s
        else drop_in_edges lock (l_in (lk s lock)) s in
      Ret (false, flk_free_lock lock s)
  end.

(** ** Requests *)

Fixpoint execute_loop (fuel : nat) (request lock : Z) (s : graph) : run graph :=
  match fuel with
  | O => Fault
  | S fuel =>
      let lock1 := l_next lock (active_locks s) in
      let* (done_searching, s) :=
        if SAME_OWNER (lk s request) (lk s lock) then flk_relation fuel lock request s else Ret (false, s) in
      match lock1 with
      | Some lock1 =>
          if (l_vnode (lk s lock1) =? l_vnode (lk s request)) && negb done_searching then execute_loop fuel request lock1 s
          else Ret s
      | None => Ret s
      end
  end.

Definition flk_execute_request (fuel : nat) (request : Z) (s : graph) : run graph :=
  let r := lk s request in
  if has IO_LOCK r then Ret s
  else
    match v_filocks s !! l_vnode r with
    | None => if l_type r =? F_UNLCK then Ret s else Ret (flk_insert_active_lock request s)
    | Some lock =>
        let* s := execute_loop fuel request lock s in
        Ret (if l_type r =? F_UNLCK then s else flk_insert_active_lock request s)
    end.

Fixpoint recompute_all (fuel : nat) (request : Z) (ls : list Z) (s : graph) : run graph :=
  match ls with
  | [] => Ret s
  | lock :: ls =>
      let* s := flk_recompute_dependencies fuel lock [request] false s in recompute_all fuel request ls s
  end.

(** What the first loop of [flk_process_request] over the active locks finds. *)
Inductive active_check := Blocked | Covered | Free.
Fixpoint check_active (r : lockd) (s : graph) (ls : list Z) : active_check :=
  match ls with
  | [] => Free
  | lock :: ls =>
      if BLOCKS (lk s lock) r then Blocked
      else if SAME_OWNER (lk s lock) r && COVERS (lk s lock) r && (l_type r =? F_RDLCK) then Covered
      else check_active r s ls
  end.

(** The loop over the sleeping locks that gives the request its edges; [found_covering_lock] and
    [covered_by] as in the code. *)
Fixpoint block_sleeping (request : Z) (will_wait : bool) (found : Z) (covered_by : Z) (ls : list Z) (s : graph)
    : run (option flk_errno * Z * Z * graph) :=
  match ls with
  | [] => Ret (None, found, covered_by, s)
  | lock :: ls =>
      let r := lk s request in
      let d := lk s lock in
      if BLOCKS d r then
        if negb will_wait then Ret (Some EAGAIN, found, covered_by, s)
        else
          let covers := COVERS d r && (l_type d =? F_WRLCK) in
          if covers && truthy found && negb (SAME_OWNER d (lk s covered_by)) then Ret (None, found + 1, covered_by, s)
          else
            let found := if covers then 1 else found in
            let covered_by := if covers then lock else covered_by in
            if truthy found && negb (SAME_OWNER d (lk s covered_by)) then
              block_sleeping request will_wait found covered_by ls s
            else
              let* (error, s) := flk_add_edge request lock (negb (truthy found)) false s in
              match error with
              | Some e => Ret (Some e, found, covered_by, s)
              | None => block_sleeping request will_wait found covered_by ls s
              end
      else block_sleeping request will_wait found covered_by ls s
  end.

Fixpoint block_active (request : Z) (found : Z) (covered_by : Z) (ls : list Z) (s : graph) : run (option flk_errno * graph) :=
  match ls with
  | [] => Ret (None, s)
  | lock :: ls =>
      let d := lk s lock in
      if BLOCKS d (lk s request) && negb (truthy found && negb (SAME_OWNER d (lk s covered_by))) then
        let* (error, s) := flk_add_edge request lock true false s in
        match error with
        | Some e => Ret (Some e, s)
        | None => block_active request found covered_by ls s
        end
      else block_active request found covered_by ls s
  end.

(** A request has ended, with an error or not, or its thread waits in [wait_for_lock]. *)
Inductive outcome := Ended (error : option flk_errno) | Waits.

(** [flk_cancel_sleeping_lock]: the locks that can be reached are marked, and collected in order. *)
Fixpoint mark_scan (vs : list Z) (stack : list Z) (s : graph) : list Z * graph :=
  match vs with
  | [] => (stack, s)
  | v :: vs =>
      if has RECOMPUTE_LOCK (lk s v) then mark_scan vs stack s
      else mark_scan vs (v :: stack) (upd v (set_flag RECOMPUTE_LOCK) s)
  end.
Fixpoint mark_reachables (fuel : nat) (stack : list Z) (s : graph) : run graph :=
  match stack with
  | [] => Ret s
  | v :: stack =>
      match fuel with
      | O => Fault
      | S fuel => let (stack, s) := mark_scan (l_adj (lk s v)) stack s in mark_reachables fuel stack s
      end
  end.
Fixpoint collect (ls : list Z) (nvertex : Z) (s : graph) : list Z * Z * graph :=
  match ls with
  | [] => ([], nvertex, s)
  | lock :: ls =>
      let marked := has RECOMPUTE_LOCK (lk s lock) in
      let s := if marked then upd lock (set_l_index nvertex) s else s in
      let '(topology, n, s) := collect ls (if marked then nvertex + 1 else nvertex) (upd lock (set_l_color NO_COLOR) s) in
      (if marked then lock :: topology else topology, n, s)
  end.
Fixpoint drop_out_edges (request : Z) (adj : list Z) (s : graph) : run graph :=
  match adj with
  | [] => Ret s
  | to :: adj =>
      let s := ADJ_LIST_REMOVE request to (IN_LIST_REMOVE request to s) in
      let* s := flk_update_proc_graph request to true s in drop_out_edges request adj s
  end.

Definition flk_cancel_sleeping_lock (fuel : nat) (request : Z) (remove_from_queue : bool) (s : graph) : run graph :=
  let vp := l_vnode (lk s request) in
  let* s := mark_reachables (colors s) [request] s in
  let '(topology1, n, s) := collect (sleep_vp s vp) 0 s in
  let '(topology2, _, s) := collect (active_vp s vp) n s in
  let topology := topology1 ++ topology2 in
  let s := for_all (λ lck, ADJ_LIST_REMOVE lck request) (l_in (lk s request)) s in
  let s := if remove_from_queue then REMOVE_SLEEP_QUEUE request s else s in
  let* s := flk_recompute_dependencies fuel request topology true s in
  let* s := drop_out_edges request (l_adj (lk s request)) s in
  let s := for_all (λ l, upd l (clr_flag RECOMPUTE_LOCK)) topology s in
  let* s := flk_wakeup request false s in
  Ret (flk_free_lock request s).

(** Up to the wait; what follows a wait is [flk_wait_resume]. *)
Definition flk_wait_execute_request (fuel : nat) (request : Z) (s : graph) : run (outcome * graph) :=
  let s := flk_insert_sleeping_lock request s in
  if negb (is_up (lockmgr_status s)) && has LOCKMGR_LOCK (lk s request) then
    let* s := flk_cancel_sleeping_lock fuel request true s in Ret (Ended (Some ENOLCK), s)
  else Ret (Waits, s).

(** [flk_wait_execute_request] after [wait_for_lock] has returned. *)
Definition flk_wait_resume (fuel : nat) (request : Z) (s : graph) : run (option flk_errno * graph) :=
  let r := lk s request in
  let cancel_with e := let* s := flk_cancel_sleeping_lock fuel request true s in Ret (Some e, s) in
  if negb (is_up (lockmgr_status s)) && has LOCKMGR_LOCK r &&
     negb (has GRANTED_LOCK r) then cancel_with ENOLCK
  else if has INTERRUPTED_LOCK r then cancel_with EINTR
  else if has CANCELLED_LOCK r then cancel_with EBADF
  else
    let s := REMOVE_SLEEP_QUEUE request (upd request (clr_flag GRANTED_LOCK) s) in
    let* s := flk_execute_request fuel request s in
    Ret (None, s).

(** The condition that [wait_for_lock] waits for. *)
Definition wait_over (d : lockd) : bool := has GRANTED_LOCK d || has CANCELLED_LOCK d || has INTERRUPTED_LOCK d.

Definition flk_process_request (fuel : nat) (request : Z) (s : graph) : run (outcome * graph) :=
  let vp := l_vnode (lk s request) in
  let will_wait := has WILLING_TO_SLEEP_LOCK (lk s request) in
  let execute s := let* s := flk_execute_request fuel request s in Ret (Ended None, s) in
  let block by_active s :=
    let s := if will_wait then flk_graph_uncolor s else s in
    let* (error, found, covered_by, s) := block_sleeping request will_wait 0 0 (sleep_vp s vp) s in
    match error with
    | Some e => Ret (Ended (Some e), s)
    | None =>
        let* (error, s) :=
          if by_active && negb (found =? 2) then block_active request found covered_by (active_vp s vp) s else Ret (None, s) in
        match error with
        | Some e => Ret (Ended (Some e), s)
        | None =>
            if NOT_BLOCKED (lk s request) then execute s
            else
              let* (dead, s) := flk_check_deadlock request s in
              if dead then Ret (Ended (Some EDEADLK), s)
              else flk_wait_execute_request fuel request s
        end
    end in
  match check_active (lk s request) s (active_vp s vp) with
  | Covered => execute s
  | Blocked => if negb will_wait then Ret (Ended (Some EAGAIN), s) else block true s
  | Free =>
      let granted l := BLOCKS (lk s l) (lk s request) && has GRANTED_LOCK (lk s l) in
      if existsb granted (sleep_vp s vp) then block false s
      else
        let s := upd request (set_flag RECOMPUTE_LOCK) s in
        let* s := recompute_all fuel request (active_vp s vp) s in
        let* s := recompute_all fuel request (filter (λ l, has GRANTED_LOCK (lk s l)) (rev (sleep_vp s vp))) s in
        let s := upd request (clr_flag RECOMPUTE_LOCK) s in
        if NO_DEPENDENTS (lk s request) then execute s
        else
          let* (dead, s) := flk_check_deadlock request s in
          if dead then Ret (Ended (Some EDEADLK), s) else execute s
  end.

(** ** Ranges *)

(** The answer of [VOP_GETATTR]: an error or the size. *)
Definition flk_convert_lock_data (getattr : flk_errno + Z) (flp : flock64) (offset max : Z) : flk_errno + Z * Z :=
  let range start :=
    if f_len flp =? 0 then inr (start, max)
    else if 0 <? f_len flp then inr (start, w64 (start + (f_len flp - 1)))
    else inr (w64 (w64 (start + f_len flp) + 1), start) in
  if f_whence flp =? 0 then range (w64 (f_start flp))
  else if f_whence flp =? 1 then range (w64 (f_start flp + offset))
  else if f_whence flp =? 2 then
    match getattr with inl e => inl e | inr va_size => range (w64 (f_start flp + va_size)) end
  else inl EINVAL.

Definition flk_check_lock_data (start stop max : Z) : option flk_errno :=
  if (max <? start) || ((max <? stop) && negb (stop =? MAX_U_OFF_T)) then Some EINVAL
  else if stop <? start then Some EINVAL
  else None.

Definition report_blocker (blocker request : lockd) : flock64 :=
  let fl start len := Flock64 (l_type blocker) 0 start len (f_sysid (l_flock blocker)) (f_pid (l_flock blocker)) in
  if has LOCKMGR_LOCK request then
    fl (s64 (l_start blocker)) (if l_end blocker =? MAX_U_OFF_T then 0 else s64 (l_end blocker - l_start blocker + 1))
  else if MAXEND <? l_start blocker then fl MAXEND 0
  else fl (s64 (l_start blocker)) (if MAXEND <=? l_end blocker then 0 else s64 (l_end blocker - l_start blocker + 1)).

Definition create_flock (d : lockd) : flock64 :=
  Flock64 (l_type d) 0 (s64 (l_start d)) (if l_end d =? MAX_U_OFF_T then 0 else s64 (l_end d - l_start d + 1))
    (f_sysid (l_flock d)) (f_pid (l_flock d)).

Definition flk_get_first_blocking_lock (request : Z) (s : graph) : graph :=
  let r := lk s request in
  match find (λ l, BLOCKS (lk s l) r) (active_vp s (l_vnode r)) with
  | Some blocker => upd request (set_l_flock (report_blocker (lk s blocker) r)) s
  | None => upd request (set_l_flock (set_f_type F_UNLCK (l_flock r))) s
  end.

(** ** Whole graphs *)

Definition flk_canceled (request : Z) (s : graph) : bool * graph :=
  let r := lk s request in
  match
    find (λ l, SAME_OWNER (lk s l) r && (l_start (lk s l) =? l_start r) && (l_end (lk s l) =? l_end r)) (sleep_vp s (l_vnode r))
  with
  | Some lock => (true, INTERRUPT_WAKEUP lock s)
  | None => (false, s)
  end.

(** The active locks with a property are released, one after the other: the next one is looked up
    before. *)
Fixpoint release_each (fuel : nat) (p : lockd → bool) (lock : option Z) (s : graph) : run graph :=
  match lock with
  | None => Ret s
  | Some lock =>
      match fuel with
      | O => Fault
      | S fuel =>
          let nlock := l_next lock (active_locks s) in
          if p (lk s lock) then
            let* s := flk_wakeup lock true (flk_delete_active_lock lock false s) in
            release_each fuel p nlock (flk_free_lock lock s)
          else release_each fuel p nlock s
      end
  end.
Definition release_active (p : lockd → bool) (s : graph) : run graph :=
  release_each (S (length (active_locks s))) p (head (active_locks s)) s.
Definition poke (p : lockd → bool) (f : Z → graph → graph) (ls : list Z) (s : graph) : graph :=
  for_all (λ l s, if p (lk s l) then f l s else s) ls s.

(** [flk_delete_locks_by_sysid], for one graph. *)
Definition delete_by_sysid (sysid : Z) (s : graph) : run graph :=
  let of_sysid d := f_sysid (l_flock d) =? sysid in
  release_active of_sysid (poke of_sysid INTERRUPT_WAKEUP (sleeping_locks s) s).

(** [cleanlocks], with the graph locked. *)
Definition clean_graph (vp pid sysid : Z) (s : graph) : run graph :=
  let of_owner d := ((f_pid (l_flock d) =? pid) || (pid =? IGN_PID)) && (f_sysid (l_flock d) =? sysid) in
  let s := poke of_owner CANCEL_WAKEUP (sleep_vp s vp) s in
  let link_stack := rev (filter (λ l, of_owner (lk s l)) (active_vp s vp)) in
  let s := for_all (λ l, flk_delete_active_lock l false) (rev link_stack) s in
  let fix finish ls s :=
    match ls with
    | [] => Ret s
    | lock :: ls => let* s := flk_wakeup lock true s in finish ls (flk_free_lock lock s)
    end in
  finish link_stack s.

(** ** The system *)

Definition HASH_SIZE : nat := 32.
Definition HASH_INDEX (vp : Z) : nat := Z.to_nat (Z.land (Z.shiftr (s32 vp) 7) 31).

(** [lock_graph], with the one [pgraph] of the system; that of a graph is stale while it is here. *)
Record flksys := Flksys {
  lock_graph : list (option graph);
  sys_pgraph : proc_graph;
  flk_lockmgr_status : flk_lockmgr_status_t
}.

(** The code under the mutex of graph [i]. *)
Definition under_mutex {A} (i : nat) (gp : graph) (f : graph → run (A * graph)) (y : flksys) : run (A * flksys) :=
  let* (a, gp) := f (set_pgraph (sys_pgraph y) gp) in
  Ret (a, Flksys (<[i := Some gp]> (lock_graph y)) (pgraph gp) (flk_lockmgr_status y)).

(** The loops over all graphs. *)
Fixpoint each_graph (ixs : list nat) (f : graph → run graph) (y : flksys) : run flksys :=
  match ixs with
  | [] => Ret y
  | i :: ixs =>
      match mjoin (lock_graph y !! i) with
      | None => each_graph ixs f y
      | Some gp => let* (_, y) := under_mutex i gp (λ s, let* s := f s in Ret (tt, s)) y in each_graph ixs f y
      end
  end.
Definition all_graphs (f : graph → run graph) (y : flksys) : run flksys := each_graph (seq 0 HASH_SIZE) f y.

Definition flk_delete_locks_by_sysid (sysid : Z) (y : flksys) : run flksys := all_graphs (delete_by_sysid sysid) y.

Definition wakeup_sleeping_lockmgr_locks (y : flksys) : run flksys :=
  all_graphs (λ s, Ret (poke (has LOCKMGR_LOCK) INTERRUPT_WAKEUP (sleeping_locks s) (set_status FLK_WAKEUP_SLEEPERS s))) y.
Definition unlock_lockmgr_granted (y : flksys) : run flksys :=
  all_graphs (λ s, release_active (has LOCKMGR_LOCK) (set_status FLK_LOCKMGR_DOWN s)) y.
Definition flk_set_lockmgr_status (status : flk_lockmgr_status_t) (y : flksys) : run flksys :=
  let y := Flksys (lock_graph y) (sys_pgraph y) status in
  match status with
  | FLK_LOCKMGR_UP => all_graphs (λ s, Ret (set_status status s)) y
  | FLK_WAKEUP_SLEEPERS => wakeup_sleeping_lockmgr_locks y
  | FLK_LOCKMGR_DOWN => unlock_lockmgr_granted y
  end.

Definition flk_has_remote_locks (vp : Z) (y : flksys) : bool :=
  match mjoin (lock_graph y !! HASH_INDEX vp) with
  | None => false
  | Some s => existsb (λ l, IS_REMOTE (lk s l)) (active_vp s vp ++ sleep_vp s vp)
  end.
Definition graph_has (p : lockd → bool) (s : graph) : bool :=
  existsb (λ l, p (lk s l)) (active_locks s) || existsb (λ l, p (lk s l)) (sleeping_locks s).
Definition flk_sysid_has_locks (sysid : Z) (y : flksys) : bool :=
  existsb (λ o, match o with Some s => graph_has (λ d, f_sysid (l_flock d) =? sysid) s | None => false end) (lock_graph y).
(** [vfs] is the file system of a vnode. *)
Definition flk_vfs_has_locks (vfs : Z → Z) (vfsp : Z) (y : flksys) : bool :=
  existsb (λ o, match o with Some s => graph_has (λ d, vfs (l_vnode d) =? vfsp) s | None => false end) (lock_graph y).

(** The vnodes, which are held, and the locks on them. *)
Definition get_lock_list (sleeping : bool) (sysid pid : Z) (y : flksys) : list (Z * flock64) :=
  lock_graph y ≫= λ o,
    match o with
    | None => []
    | Some s =>
        let wanted l := (f_sysid (l_flock (lk s l)) =? sysid) && ((pid =? -1) || (f_pid (l_flock (lk s l)) =? pid)) in
        (λ l, (l_vnode (lk s l), create_flock (lk s l))) <$>
          filter (λ l, wanted l) (if sleeping then sleeping_locks s else active_locks s)
    end.
Definition flk_get_sleeping_locks := get_lock_list true.
Definition flk_get_active_locks := get_lock_list false.

Definition cleanlocks (vp pid sysid : Z) (y : flksys) : run flksys :=
  match mjoin (lock_graph y !! HASH_INDEX vp) with
  | None => Ret y
  | Some gp => let* (_, y) := under_mutex (HASH_INDEX vp) gp (λ s, let* s := clean_graph vp pid sysid s in Ret (tt, s)) y in Ret y
  end.

(** ** [reclock] *)

Definition new_graph (st : flk_lockmgr_status_t) (g : proc_graph) : graph := Graph ∅ 1 [] [] ∅ 0 st g.

Definition new_system : flksys := Flksys (replicate HASH_SIZE None) (ProcGraph [] 0 0 ∅ 1) FLK_LOCKMGR_UP.

(** The end of [reclock], from the point where the error is known; [stack] if the request is the
    [stack_lock_request]. *)
Definition reclock_end (stack : bool) (request : Z) (lckdat : flock64) (error : option flk_errno) (s : graph)
    : run (flock64 * graph) :=
  let io := has IO_LOCK (lk s request) in
  let failed := bool_decide (is_Some error) in
  let* s :=
    if io && negb failed then let* s := flk_wakeup request true s in Ret (flk_free_lock request s) else Ret s in
  let s := upd request (clr_flag REFERENCED_LOCK) s in
  let s := if (failed && negb stack) || has DELETED_LOCK (lk s request) then flk_free_lock request s else s in
  let s := if stack then set_locks (delete request (locks s)) s else s in
  Ret (if io && negb failed then set_f_type F_UNLCK lckdat else lckdat, s).

(** The flags of a request. *)
Definition request_state (cmd type : Z) : Z :=
  Z.lor (if truthy (Z.land cmd INOFLCK) then IO_LOCK else 0)
    (Z.lor (if truthy (Z.land cmd SLPFLCK) then WILLING_TO_SLEEP_LOCK else 0)
       (Z.lor (if truthy (Z.land cmd RCMDLCK) then LOCKMGR_LOCK else 0)
          (if negb (truthy (Z.land cmd SETFLCK) || truthy (Z.land cmd INOFLCK)) && ((type =? F_RDLCK) || (type =? F_WRLCK))
           then QUERY_LOCK else 0))).

(** What a call has come to: it is over, or it waits with its request in graph [i], and goes on with
    [reclock_resume]. *)
Inductive called := Over (error : option flk_errno) (lckdat : flock64) | Sleeps (i : nat) (request : Z).

(** The part of [reclock] in which the graph is locked, but for [F_UNLKSYS]. *)
Definition reclock_locked (fuel : nat) (i : nat) (stack : bool) (lckdat : flock64) (request : Z) (s : graph) : run (called * graph) :=
  let finish error lckdat s :=
    let* (lckdat, s) := reclock_end stack request lckdat error s in Ret (Over error lckdat, s) in
  let s := upd request (set_flag REFERENCED_LOCK) s in
  let d := lk s request in
  if (l_type d =? F_RDLCK) || (l_type d =? F_WRLCK) then
    if has QUERY_LOCK d then
      let s := flk_get_first_blocking_lock request s in finish None (l_flock (lk s request)) s
    else
      let* (r, s) := flk_process_request fuel request s in
      match r with Ended error => finish error lckdat s | Waits => Ret (Sleeps i request, s) end
  else if l_type d =? F_UNLCK then
    let (canceled, s) := if has LOCKMGR_LOCK d then flk_canceled request s else (false, s) in
    if canceled then finish None lckdat s else let* s := flk_execute_request fuel request s in finish None lckdat s
  else finish (Some EINVAL) lckdat s.

Definition reclock_resume (fuel : nat) (i : nat) (request : Z) (lckdat : flock64) (y : flksys) : run (called * flksys) :=
  match mjoin (lock_graph y !! i) with
  | None => Fault
  | Some gp =>
      under_mutex i gp (λ s,
        let* (error, s) := flk_wait_resume fuel request s in
        let* (lckdat, s) := reclock_end false request lckdat error s in Ret (Over error lckdat, s)) y
  end.

(** A new descriptor for the request. *)
Definition make_request (vp : Z) (lckdat : flock64) (cmd start stop : Z) (stack : bool) (s : graph) : Z * graph :=
  let (l, s) := flk_get_lock s in
  (l, upd l (λ d, Lockd vp (f_type lckdat) (request_state cmd (f_type lckdat)) start stop lckdat 0 0 []
        (if stack then 0 else -1) [] []) s).

Definition FREAD : Z := 1.
Definition FWRITE : Z := 2.

Definition reclock (fuel : nat) (getattr : flk_errno + Z) (vp : Z) (lckdat : flock64) (cmd flag offset : Z) (y : flksys)
    : run (called * flksys) :=
  let is_set f := truthy (Z.land cmd f) in
  if is_set SETFLCK && (((f_type lckdat =? F_RDLCK) && (Z.land flag FREAD =? 0)) ||
       ((f_type lckdat =? F_WRLCK) && (Z.land flag FWRITE =? 0))) then Ret (Over (Some EBADF) lckdat, y)
  else
    let stack := (f_type lckdat =? F_UNLCK) || negb (is_set INOFLCK || is_set SETFLCK) in
    let ends :=
      if is_set RCMDLCK then
        inr (w64 (f_start lckdat),
          if f_len lckdat =? 0 then MAX_U_OFFSET_T else w64 (f_start lckdat + (f_len lckdat - 1)))
      else
        match flk_convert_lock_data getattr lckdat offset MAXEND with
        | inl e => inl e
        | inr (start, stop) =>
            match flk_check_lock_data start stop MAXEND with Some e => inl e | None => inr (start, stop) end
        end in
    match ends with
    | inl e => Ret (Over (Some e) lckdat, y)
    | inr (start, stop) =>
        if negb (is_up (flk_lockmgr_status y)) && is_set RCMDLCK then Ret (Over (Some ENOLCK) lckdat, y)
        else
          let i := HASH_INDEX vp in
          let gp := default (new_graph (flk_lockmgr_status y) (sys_pgraph y)) (mjoin (lock_graph y !! i)) in
          if f_type lckdat =? F_UNLKSYS then
            let y := Flksys (<[i := Some gp]> (lock_graph y)) (sys_pgraph y) (flk_lockmgr_status y) in
            let* y := flk_delete_locks_by_sysid (f_sysid lckdat) y in
            (* flk_free_lock is called for the request, wherever it is *)
            if stack then Fault else Ret (Over None lckdat, y)
          else
            under_mutex i gp (λ s,
              let (request, s) := make_request vp lckdat cmd start stop stack s in
              reclock_locked fuel i stack lckdat request s) y
    end.

(** ** The callers of [reclock] *)

Definition FNDELAY : Z := 0x04.
Definition FNONBLOCK : Z := 0x80.

(** The lock that [chklock] asks for, and what it makes of the answer; [pid] is the process that calls. *)
Definition chklock_lock (pid iomode offset len : Z) : flock64 :=
  Flock64 (if truthy (Z.land iomode FWRITE) then F_WRLCK else F_RDLCK) 0 (s64 offset) len 0 pid.
Definition chklock_error (c : called) : option (option flk_errno) :=
  match c with
  | Sleeps _ _ => None
  | Over (Some e) _ => Some (Some e)
  | Over None bf => Some (if f_type bf =? F_UNLCK then None else Some EAGAIN)
  end.
Definition chklock (fuel : nat) (getattr : flk_errno + Z) (pid vp iomode offset len fmode : Z) (y : flksys) : run (called * flksys) :=
  let i := if truthy (Z.land fmode (Z.lor FNDELAY FNONBLOCK)) then INOFLCK else Z.lor INOFLCK SLPFLCK in
  reclock fuel getattr vp (chklock_lock pid iomode offset len) i 0 offset y.

Definition set_f_start v f := Flock64 (f_type f) (f_whence f) v (f_len f) (f_sysid f) (f_pid f).
Definition set_f_whence v f := Flock64 (f_type f) v (f_start f) (f_len f) (f_sysid f) (f_pid f).
Definition set_f_owner pid sysid f := Flock64 (f_type f) (f_whence f) (f_start f) (f_len f) sysid pid.

Definition convoff (getattr : flk_errno + Z) (lckdat : flock64) (whence offset : Z) : option flk_errno * flock64 :=
  let with_size va_size :=
    let moved :=
      if f_whence lckdat =? 1 then Some (s64 (f_start lckdat + offset))
      else if f_whence lckdat =? 2 then Some (s64 (f_start lckdat + va_size))
      else if f_whence lckdat =? 0 then Some (f_start lckdat)
      else None in
    match moved with
    | None => (Some EINVAL, lckdat)
    | Some start =>
        let lckdat := set_f_start start lckdat in
        if start <? 0 then (Some EINVAL, lckdat)
        else if whence =? 1 then (None, set_f_whence whence (set_f_start (s64 (start - offset)) lckdat))
        else if whence =? 2 then (None, set_f_whence whence (set_f_start (s64 (start - va_size)) lckdat))
        else if whence =? 0 then (None, set_f_whence whence lckdat)
        else (Some EINVAL, lckdat)
    end in
  if (f_whence lckdat =? 2) || (whence =? 2) then
    match getattr with inl e => (Some e, lckdat) | inr va_size => with_size va_size end
  else with_size 0.

Definition F_O_GETLK : Z := 5.
Definition F_SETLK : Z := 6.
Definition F_SETLKW : Z := 7.
Definition F_GETLK : Z := 14.
Definition F_RSETLK : Z := 20.
Definition F_RGETLK : Z := 21.
Definition F_RSETLKW : Z := 22.
Definition F_HASREMOTELOCKS : Z := 26.

(** The command of [reclock], and whether the owner is the process that calls. *)
Definition frlock_cmd (cmd : Z) : option (Z * bool) :=
  if (cmd =? F_GETLK) || (cmd =? F_O_GETLK) then Some (0, true)
  else if cmd =? F_RGETLK then Some (RCMDLCK, false)
  else if cmd =? F_SETLK then Some (SETFLCK, true)
  else if cmd =? F_RSETLK then Some (Z.lor SETFLCK RCMDLCK, false)
  else if cmd =? F_SETLKW then Some (Z.lor SETFLCK SLPFLCK, true)
  else if cmd =? F_RSETLKW then Some (Z.lor (Z.lor SETFLCK SLPFLCK) RCMDLCK, false)
  else None.

(** The right of the sum is what [l_has_rmt] is set to. *)
Definition fs_frlock (fuel : nat) (getattr : flk_errno + Z) (pid vp cmd : Z) (bfp : flock64) (flag offset : Z) (y : flksys)
    : run ((called + bool) * flksys) :=
  match frlock_cmd cmd with
  | Some (frcmd, own) =>
      let bfp := if own then set_f_owner pid 0 bfp else bfp in
      let* (c, y) := reclock fuel getattr vp bfp frcmd flag (w64 offset) y in Ret (inl c, y)
  | None =>
      if cmd =? F_HASREMOTELOCKS then Ret (inr (flk_has_remote_locks vp y), y)
      else Ret (inl (Over (Some EINVAL) bfp), y)
  end.
