(* ===== verification/FlockProc.v ===== *)
(** * The process graph of record locks

    The search of [flk_check_deadlock] finds a cycle if there is one; the process graph
    is a graph of owners with counted edges, and [flk_check_deadlock] adds the edges of
    a lock to it unless that would close a cycle. *)

From stdpp Require Import relations.
From S2P Require Import Prelude Flock.

(** ** The search *)

Definition edge (g : proc_graph) (p q : Z) : Prop := q ∈ (pv_edge (pv g p)).*1.

(** What the search leaves alone. *)
Definition kept (v : proc_vertex) : Z * Z * list (Z * Z) * Z * Z := (pv_pid v, pv_sysid v, pv_edge v, incount v, pv_index v).
Record same_procs (g g' : proc_graph) : Prop := {
  sp_kept p : kept (pv g' p) = kept (pv g p);
  sp_dom : dom (pvs g') = dom (pvs g);
  sp_proc : proc g' = proc g;
  sp_free : p_free g' = p_free g;
  sp_mark : p_mark g' = p_mark g;
  sp_next : next_pv g' = next_pv g
}.

Lemma same_procs_refl g : same_procs g g.
Proof. by split. Qed.

Lemma same_procs_trans g1 g2 g3 : same_procs g1 g2 → same_procs g2 g3 → same_procs g1 g3.
Proof. intros [H1 ?????] [H2 ?????]. split; [intros p; by rewrite H2|congruence..]. Qed.

Lemma pv_updv g p f q : pv (updv p f g) q = if decide (q = p) then f (pv g p) else pv g q.
Proof.
  unfold pv at 1, updv. simpl. destruct (decide (q = p)) as [->|Hne]; [by rewrite lookup_insert_eq|].
  by rewrite lookup_insert_ne.
Qed.

Lemma updv_same g p f : p ∈ dom (pvs g) → (∀ v, kept (f v) = kept v) → same_procs g (updv p f g).
Proof.
  intros Hp Hf. split; try done.
  - intros q. rewrite pv_updv. case_decide; [subst; apply Hf|done].
  - simpl. rewrite dom_insert_L. set_solver.
Qed.

Lemma edge_same g g' p q : same_procs g g' → edge g' p q ↔ edge g p q.
Proof. intros H. pose proof (sp_kept _ _ H p) as Hk. unfold edge. unfold kept in Hk. by injection Hk as _ _ -> _ _. Qed.

Lemma sn_same g g' p : same_procs g g' → sn (edge g) p → sn (edge g') p.
Proof.
  intros H. induction 1 as [p _ IH]. constructor. intros q Hq. apply IH. by apply (edge_same _ _ _ _ H) in Hq.
Qed.

Definition ARR (g : proc_graph) (p : Z) : Prop := PROC_ARRIVED g p = true.
Definition DEP (g : proc_graph) (p : Z) : Prop := PROC_DEPARTED g p = true.

Lemma look_at_spec g es :
  match look_at g es with
  | Done => ∀ q, q ∈ es.*1 → ARR g q ∧ DEP g q
  | Deadlock => ∃ q, q ∈ es.*1 ∧ ARR g q ∧ ¬ DEP g q
  | Push d rest => ¬ ARR g d ∧ ∃ pre n, es = pre ++ (d, n) :: rest ∧ ∀ q, q ∈ pre.*1 → DEP g q
  end.
Proof.
  unfold ARR, DEP. induction es as [|[d n] es IH]; simpl; [set_solver|].
  destruct (PROC_ARRIVED g d) eqn:Ea; simpl.
  - destruct (PROC_DEPARTED g d) eqn:Ed; simpl.
    + destruct (look_at g es) as [d' rest| |].
      * destruct IH as (Hn & pre & n' & -> & Hpre). split; [done|]. exists ((d, n) :: pre), n'. split; [done|].
        intros q [->|Hq]%elem_of_cons; [done|]. by apply Hpre.
      * destruct IH as (q & Hq & Hq'). exists q. split; [by right|done].
      * intros q [->|Hq]%elem_of_cons; [done|]. by apply IH.
    + exists d. split; [by left|]. split; [done|by rewrite Ed].
  - split; [by rewrite Ea|]. exists [], n. split; [done|]. intros q []%elem_of_nil.
Qed.

(** [above] is the vertex on the stack that was pushed from [v] last. *)
Definition visited (g : proc_graph) (v : Z) (above : option Z) : Prop :=
  ∃ pre, pv_edge (pv g v) = pre ++ p_sedge (pv g v) ∧ ∀ q, q ∈ pre.*1 → DEP g q ∨ above = Some q.

Fixpoint below (g : proc_graph) (w : Z) (stack : list Z) : Prop :=
  match stack with
  | [] => True
  | v :: stack => ARR g v ∧ edge g v w ∧ visited g v (Some w) ∧ below g v stack
  end.

Record searching (g : proc_graph) (stack : list Z) : Prop := {
  se_stack : match stack with
    | [] => True
    | v :: rest => (ARR g v ∨ p_sedge (pv g v) = pv_edge (pv g v)) ∧ visited g v None ∧ below g v rest
    end;
  se_nodup : NoDup stack;
  se_dom : ∀ v, v ∈ stack → v ∈ dom (pvs g);
  se_arr : ∀ q, ARR g q → DEP g q ∨ q ∈ stack;
  se_dep : ∀ q, DEP g q → sn (edge g) q ∧ ∀ c, edge g q c → DEP g c
}.

Lemma below_rtc g w stack q : below g w stack → q ∈ w :: stack → rtc (edge g) q w.
Proof.
  revert w. induction stack as [|v stack IH]; intros w Hb Hq.
  - apply list_elem_of_singleton in Hq as ->. done.
  - apply elem_of_cons in Hq as [->|Hq]; [done|]. destruct Hb as (_ & He & _ & Hb).
    apply (rtc_r _ v); [by apply IH|done].
Qed.

(** What is left to look at. *)
Definition left_of (g : proc_graph) (v : proc_vertex) : nat :=
  length (if atime v =? p_mark g then p_sedge v else pv_edge v).
Definition work (g : proc_graph) (m : gmap Z proc_vertex) : nat := sum_list ((λ p, left_of g p.2) <$> map_to_list m).

Lemma work_split g m p v : m !! p = Some v → work g m = (left_of g v + work g (delete p m))%nat.
Proof.
  intros H. unfold work. rewrite <-(map_to_list_delete m p v H). done.
Qed.

Lemma work_insert g m p v v' : m !! p = Some v →
  (work g (<[p := v']> m) + left_of g v = work g m + left_of g v')%nat.
Proof.
  intros H. rewrite (work_split g (<[p := v']> m) p v') by apply lookup_insert_eq.
  rewrite delete_insert_eq, (work_split g m p v H). lia.
Qed.

Lemma pv_lookup g p : p ∈ dom (pvs g) → pvs g !! p = Some (pv g p).
Proof. intros [v Hv]%elem_of_dom. unfold pv. by rewrite Hv. Qed.

Lemma work_updv g p f : p ∈ dom (pvs g) →
  (work (updv p f g) (pvs (updv p f g)) + left_of g (pv g p) = work g (pvs g) + left_of g (f (pv g p)))%nat.
Proof.
  intros Hp. change (work (updv p f g)) with (work g). apply work_insert. by apply pv_lookup.
Qed.

Lemma atime_updv g p f q : (∀ v, atime (f v) = atime v) → ARR (updv p f g) q ↔ ARR g q.
Proof. intros Hf. unfold ARR, PROC_ARRIVED. rewrite pv_updv. case_decide as E; [subst; by rewrite Hf|done]. Qed.
Lemma dtime_updv g p f q : (∀ v, dtime (f v) = dtime v) → DEP (updv p f g) q ↔ DEP g q.
Proof. intros Hf. unfold DEP, PROC_DEPARTED. rewrite pv_updv. case_decide as E; [subst; by rewrite Hf|done]. Qed.

Lemma arrive_ARR g p q : ARR (PROC_ARRIVE p g) q ↔ q = p ∨ ARR g q.
Proof.
  unfold ARR, PROC_ARRIVED, PROC_ARRIVE. rewrite pv_updv. simpl. case_decide as E; [|naive_solver].
  rewrite Z.eqb_refl. naive_solver.
Qed.
Lemma depart_DEP g p q : DEP (PROC_DEPART p g) q ↔ q = p ∨ DEP g q.
Proof.
  unfold DEP, PROC_DEPARTED, PROC_DEPART. rewrite pv_updv. simpl. case_decide as E; [|naive_solver].
  rewrite Z.eqb_refl. naive_solver.
Qed.

(** A vertex that does not have [p_sedge] moved, on a stack where no vertex has got undeparted. *)
Lemma visited_mono g g' v above : pv_edge (pv g' v) = pv_edge (pv g v) → p_sedge (pv g' v) = p_sedge (pv g v) →
  (∀ q, DEP g q → DEP g' q) → visited g v above → visited g' v above.
Proof. intros E1 E2 Hd (pre & E & Hp). exists pre. rewrite E1, E2. split; [done|]. intros q Hq. destruct (Hp q Hq); auto. Qed.

Lemma below_mono g g' w stack : below g w stack → same_procs g g' →
  (∀ v, v ∈ stack → p_sedge (pv g' v) = p_sedge (pv g v)) → (∀ q, DEP g q → DEP g' q) → (∀ q, ARR g q → ARR g' q) →
  below g' w stack.
Proof.
  revert w. induction stack as [|v stack IH]; intros w Hb Hs Hp Hd Ha; [done|]. destruct Hb as (H1 & H2 & H3 & H4).
  assert (pv_edge (pv g' v) = pv_edge (pv g v)) as He by (pose proof (sp_kept _ _ Hs v) as Hk; by injection Hk).
  split; [by apply Ha|]. split; [by apply (edge_same _ _ _ _ Hs)|]. split.
  - apply (visited_mono g); [done|apply Hp; by left|done|done].
  - apply IH; [done|done|intros u Hu; apply Hp; by right|done|done].
Qed.

(** The step that pushes [d]. *)
Definition push_step (v d : Z) (es : list (Z * Z)) (g : proc_graph) : proc_graph :=
  updv v (set_p_sedge es) (PROC_ARRIVE v (updv d (λ w, set_p_sedge (pv_edge w) w) g)).

Lemma push_same g v d es : v ∈ dom (pvs g) → d ∈ dom (pvs g) → same_procs g (push_step v d es g).
Proof.
  intros Hv Hd. set (g1 := updv d (λ w, set_p_sedge (pv_edge w) w) g).
  assert (v ∈ dom (pvs g1)) as Hv1 by (simpl; rewrite dom_insert_L; set_solver).
  apply (same_procs_trans _ g1); [by apply updv_same|]. apply (same_procs_trans _ (PROC_ARRIVE v g1)).
  - by apply updv_same.
  - apply updv_same; [|done]. simpl. rewrite dom_insert_L. set_solver.
Qed.

Lemma push_ARR g v d es q : ARR (push_step v d es g) q ↔ q = v ∨ ARR g q.
Proof. unfold push_step. rewrite atime_updv, arrive_ARR, atime_updv by done. done. Qed.
Lemma push_DEP g v d es q : DEP (push_step v d es g) q ↔ DEP g q.
Proof. unfold push_step, PROC_ARRIVE. by rewrite !dtime_updv by done. Qed.
Lemma push_sedge g v d es q : v ≠ d → p_sedge (pv (push_step v d es g) q) =
  if decide (q = v) then es else if decide (q = d) then pv_edge (pv g q) else p_sedge (pv g q).
Proof.
  intros Hne. unfold push_step, PROC_ARRIVE. rewrite !pv_updv. repeat case_decide; subst; try done.
Qed.

Lemma push_work g v d n es : v ≠ d → v ∈ dom (pvs g) → d ∈ dom (pvs g) → ¬ ARR g d →
  ARR g v ∨ p_sedge (pv g v) = pv_edge (pv g v) → (∃ pre, p_sedge (pv g v) = pre ++ (d, n) :: es) →
  (S (work (push_step v d es g) (pvs (push_step v d es g))) ≤ work g (pvs g))%nat.
Proof.
  intros Hne Hv Hd Hnd Hav (pre & Hes). unfold push_step, PROC_ARRIVE.
  set (g1 := updv d (λ w, set_p_sedge (pv_edge w) w) g). set (g2 := updv v (set_atime (p_mark g1)) g1).
  pose proof (work_updv g d (λ w, set_p_sedge (pv_edge w) w) Hd) as W1. fold g1 in W1.
  assert (v ∈ dom (pvs g1)) as Hv1 by (simpl; rewrite dom_insert_L; set_solver).
  assert (v ∈ dom (pvs g2)) as Hv2 by (simpl; rewrite dom_insert_L; set_solver).
  pose proof (work_updv g1 v (set_atime (p_mark g1)) Hv1) as W2. fold g2 in W2.
  pose proof (work_updv g2 v (set_p_sedge es) Hv2) as W3.
  assert (pv g1 v = pv g v) as E1 by (unfold g1; rewrite pv_updv; by case_decide).
  assert (pv g2 v = set_atime (p_mark g) (pv g v)) as E2 by (unfold g2; rewrite pv_updv, decide_True, E1; done).
  rewrite E1 in W2. rewrite E2 in W3. unfold left_of in W1, W2, W3. simpl in W1, W2, W3. rewrite !Z.eqb_refl in W2, W3.
  unfold ARR, PROC_ARRIVED in *. rewrite Hes in W2, W3.
  assert (atime (pv g d) =? p_mark g = false) as Ed by by destruct (atime (pv g d) =? p_mark g). rewrite Ed in W1.
  rewrite length_app in W2, W3. simpl in W2, W3. simpl.
  destruct (atime (pv g v) =? p_mark g) eqn:Ev; [rewrite length_app in W2; simpl in W2; lia|].
  destruct Hav as [?|Hpe]; [done|]. rewrite <-Hpe, Hes, length_app in W2. simpl in W2. lia.
Qed.

(** Edges go between different vertices that are allocated. *)
Definition proper (g : proc_graph) : Prop := ∀ p q, edge g p q → p ≠ q ∧ q ∈ dom (pvs g).

Lemma proper_same g g' : same_procs g g' → proper g → proper g'.
Proof. intros Hs Hp p q He. rewrite (sp_dom _ _ Hs). apply Hp. by apply (edge_same _ _ _ _ Hs). Qed.

Lemma searching_push g v rest d n es pre : proper g → searching g (v :: rest) → p_sedge (pv g v) = pre ++ (d, n) :: es →
  ¬ ARR g d → (∀ q, q ∈ pre.*1 → DEP g q) → searching (push_step v d es g) (d :: v :: rest).
Proof.
  intros Hpr [(Hv & (pre0 & Hpre0 & Hvis) & Hb) Hnd Hdom Harr Hdep] Hes Hd Hpre.
  assert (edge g v d) as He by (unfold edge; rewrite Hpre0, Hes, !fmap_app; set_solver).
  destruct (Hpr _ _ He) as [Hne Hdd]. assert (v ∈ dom (pvs g)) as Hvd by (apply Hdom; by left).
  pose proof (push_same g v d es Hvd Hdd) as Hs. apply NoDup_cons in Hnd as [Hvr Hnd].
  assert (d ∉ v :: rest) as Hdr.
  { intros [->|Hr]%elem_of_cons; [done|]. apply Hd. clear -Hb Hr. revert v Hb. induction rest as [|u rest IH]; intros v Hb; [set_solver|].
    destruct Hb as (Hu & _ & _ & Hb). apply elem_of_cons in Hr as [->|Hr]; [done|]. by eapply IH. }
  assert (∀ w, pv_edge (pv (push_step v d es g) w) = pv_edge (pv g w)) as Hedge.
  { intros w. pose proof (sp_kept _ _ Hs w) as Hk. by injection Hk. }
  split.
  - split; [right; rewrite push_sedge, decide_False, decide_True by done; by rewrite Hedge|]. split.
    + exists []. rewrite push_sedge, decide_False, decide_True by done. rewrite Hedge. split; [done|]. intros q []%elem_of_nil.
    + split; [apply push_ARR; by left|]. split; [by apply (edge_same _ _ _ _ Hs)|]. split.
      * exists (pre0 ++ pre ++ [(d, n)]). rewrite Hedge, push_sedge, decide_True by done. rewrite <-!app_assoc. simpl. rewrite <-Hes.
        split; [done|]. intros q. rewrite !fmap_app, !elem_of_app. intros [Hq|[Hq|Hq]].
        -- left. apply push_DEP. destruct (Hvis q Hq); done.
        -- left. apply push_DEP. by apply Hpre.
        -- right. apply list_elem_of_singleton in Hq as ->. done.
      * apply (below_mono g); [done|done| |intros; by apply push_DEP|intros; apply push_ARR; by right].
        intros u Hu. rewrite push_sedge, !decide_False by (done || set_solver). done.
  - constructor; [done|]. by constructor.
  - rewrite (sp_dom _ _ Hs). set_solver.
  - intros q. rewrite push_ARR, push_DEP. intros [->|Hq]; [right; set_solver|]. destruct (Harr q Hq); set_solver.
  - intros q. rewrite push_DEP. intros Hq. destruct (Hdep q Hq) as [H1 H2]. split; [by apply (sn_same g)|].
    intros c Hc. apply push_DEP, H2. by apply (edge_same _ _ _ _ Hs).
Qed.

Lemma searching_pop g v rest : proper g → searching g (v :: rest) →
  (∀ q, q ∈ (p_sedge (pv g v)).*1 → ARR g q ∧ DEP g q) →
  searching (PROC_DEPART v g) rest ∧ sn (edge g) v.
Proof.
  intros Hpr [(Hv & (pre0 & Hpre0 & Hvis) & Hb) Hnd Hdom Harr Hdep] Hdone.
  assert (v ∈ dom (pvs g)) as Hvd by (apply Hdom; by left).
  assert (same_procs g (PROC_DEPART v g)) as Hs by by apply updv_same.
  assert (∀ c, edge g v c → DEP g c) as Hch.
  { intros c Hc. unfold edge in Hc. rewrite Hpre0, fmap_app, elem_of_app in Hc. destruct Hc as [Hc|Hc].
    - by destruct (Hvis c Hc).
    - by apply Hdone. }
  assert (sn (edge g) v) as Hsn by (constructor; intros c Hc; by apply Hdep, Hch).
  assert (∀ q, ARR (PROC_DEPART v g) q ↔ ARR g q) as Ha by (intros; by apply atime_updv).
  assert (∀ w, p_sedge (pv (PROC_DEPART v g) w) = p_sedge (pv g w)) as Hps.
  { intros w. unfold PROC_DEPART. rewrite pv_updv. by case_decide; subst. }
  assert (∀ w, pv_edge (pv (PROC_DEPART v g) w) = pv_edge (pv g w)) as Hedge.
  { intros w. pose proof (sp_kept _ _ Hs w) as Hk. by injection Hk. }
  apply NoDup_cons in Hnd as [Hvr Hnd]. split; [|done]. split.
  - destruct rest as [|u rest]; [done|]. destruct Hb as (Hu & _ & (pre & Hpre & Hvu) & Hb).
    split; [left; by apply Ha|]. split.
    + exists pre. rewrite Hedge, Hps. split; [done|]. intros q Hq. left. apply depart_DEP.
      destruct (Hvu q Hq) as [?|[= ->]]; auto.
    + apply (below_mono g); [done|done|intros; apply Hps|intros; apply depart_DEP; by right|intros; by apply Ha].
  - done.
  - rewrite (sp_dom _ _ Hs). intros u Hu. apply Hdom. by right.
  - intros q. rewrite Ha, depart_DEP. intros Hq. destruct (Harr q Hq) as [?|[->|?]%elem_of_cons]; auto.
  - intros q. rewrite depart_DEP. intros Hq. destruct Hq as [->|Hq].
    + split; [by apply (sn_same g)|]. intros c Hc. apply depart_DEP. right. apply Hch. by apply (edge_same _ _ _ _ Hs).
    + destruct (Hdep q Hq) as [H1 H2]. split; [by apply (sn_same g)|]. intros c Hc. apply depart_DEP. right.
      apply H2. by apply (edge_same _ _ _ _ Hs).
Qed.

Lemma tc_same g g' x y : same_procs g g' → tc (edge g') x y → tc (edge g) x y.
Proof.
  intros Hs. induction 1 as [x y H|x y z H _ IH].
  - apply tc_once. by apply (edge_same _ _ _ _ Hs).
  - eapply tc_l; [by apply (edge_same _ _ _ _ Hs)|done].
Qed.

Lemma same_procs_sym g g' : same_procs g g' → same_procs g' g.
Proof. intros []. by split. Qed.

(** What the search says of a graph it says of the graph that it has started with. *)
Lemma verdict_same g g' (b : bool) (l : list Z) : same_procs g g' →
  (if b then ∃ q, tc (edge g') q q else ∀ v, v ∈ l → sn (edge g') v) →
  if b then ∃ q, tc (edge g) q q else ∀ v, v ∈ l → sn (edge g) v.
Proof.
  intros Hs. destruct b.
  - intros (q & Hq). exists q. by eapply tc_same.
  - intros H v Hv. apply (sn_same g'); [by apply same_procs_sym|auto].
Qed.

(** The search ends, and finds a cycle unless nothing on the stack leads to one. *)
Lemma deadlock_search_ok fuel : ∀ stack g, proper g → searching g stack →
  (2 * work g (pvs g) + length stack ≤ fuel)%nat →
  ∃ b g', deadlock_search fuel stack g = Ret (b, g') ∧ same_procs g g' ∧
    if b then ∃ q, tc (edge g) q q else ∀ v, v ∈ stack → sn (edge g) v.
Proof.
  induction fuel as [|fuel IH]; intros stack g Hpr Hse Hf; (destruct stack as [|v rest];
    [exists false, g; split; [done|]; split; [apply same_procs_refl|]; intros v []%elem_of_nil|]); [simpl in Hf; lia|].
  simpl deadlock_search. pose proof Hse as [(Hv & (pre0 & Hpre0 & Hvis) & Hb) Hnd Hdom Harr Hdep].
  pose proof (look_at_spec g (p_sedge (pv g v))) as Hl.
  destruct (look_at g (p_sedge (pv g v))) as [d es| |].
  - destruct Hl as (Hd & pre & n & Hes & Hpre).
    assert (edge g v d) as He by (unfold edge; rewrite Hpre0, Hes, !fmap_app; set_solver).
    destruct (Hpr _ _ He) as [Hne Hdd]. assert (v ∈ dom (pvs g)) as Hvd by (apply Hdom; by left).
    fold (push_step v d es g). pose proof (push_same g v d es Hvd Hdd) as Hs.
    destruct (IH (d :: v :: rest) (push_step v d es g)) as (b & g' & -> & Hs' & Hb').
    + by apply (proper_same g).
    + by apply (searching_push g v rest d n es pre).
    + pose proof (push_work g v d n es Hne Hvd Hdd Hd Hv ltac:(by exists pre)). cbn [length] in *. lia.
    + exists b, g'. split; [done|]. split; [by eapply same_procs_trans|].
      apply (verdict_same _ _ b _ Hs) in Hb'. destruct b; [done|]. intros u Hu. apply Hb'. by right.
  - destruct Hl as (q & Hq & Ha & Hnd'). exists true, g. split; [done|]. split; [apply same_procs_refl|]. exists q.
    destruct (Harr q Ha) as [?|Hst]; [done|]. eapply tc_rtc_l; [by eapply below_rtc|]. apply tc_once.
    unfold edge. rewrite Hpre0, fmap_app. set_solver.
  - destruct (searching_pop g v rest Hpr Hse Hl) as [Hse' Hsn].
    assert (same_procs g (PROC_DEPART v g)) as Hs by (apply updv_same; [apply Hdom; by left|done]).
    destruct (IH rest (PROC_DEPART v g)) as (b & g' & -> & Hs' & Hb').
    + by apply (proper_same g).
    + done.
    + assert (work (PROC_DEPART v g) (pvs (PROC_DEPART v g)) = work g (pvs g)) as ->.
      { pose proof (work_updv g v (set_dtime (p_mark g)) ltac:(apply Hdom; by left)) as Hw. unfold PROC_DEPART.
        eapply Nat.add_cancel_r. exact Hw. }
      cbn [length] in *. lia.
    + exists b, g'. split; [done|]. split; [by eapply same_procs_trans|].
      apply (verdict_same _ _ b _ Hs) in Hb'. destruct b; [done|]. intros u [->|Hu]%elem_of_cons; [done|by apply Hb'].
Qed.
