(* ===== verification/FlockWait.v ===== *)
(** * Who waits for whom ([uts/common/os/flock.c])

    The process graph as a count, for two owners, of the locks of the one that wait for
    locks of the other; the operations on the graph change that count and nothing else,
    and [flk_check_deadlock] adds the edges of a lock to it unless that closes a cycle. *)

From stdpp Require Import relations.
From S2P Require Import Prelude Flock FlockProc.

(** ** The process graph as a graph of owners *)

Definition owner (d : lockd) : Z * Z := (f_pid (l_flock d), f_sysid (l_flock d)).
Definition pv_owner (v : proc_vertex) : Z * Z := (pv_pid v, pv_sysid v).

Lemma same_owner_spec d v : PROC_SAME_OWNER d v = true ↔ pv_owner v = owner d.
Proof. unfold PROC_SAME_OWNER, pv_owner, owner. rewrite andb_true_iff, !Z.eqb_eq.
  split; [intros [-> ->]; done|intros [= -> ->]; done].
Qed.

Record pg_ok (g : proc_graph) : Prop := {
  po_slot p : p ∈ dom (pvs g) → 0 ≤ pv_index (pv g p) ∧ proc g !! Z.to_nat (pv_index (pv g p)) = Some (Some p);
  po_proc i p : proc g !! i = Some (Some p) → p ∈ dom (pvs g) ∧ pv_index (pv g p) = Z.of_nat i;
  po_owner p q : p ∈ dom (pvs g) → q ∈ dom (pvs g) → pv_owner (pv g p) = pv_owner (pv g q) → p = q;
  po_edge p q n : (q, n) ∈ pv_edge (pv g p) → 0 < n ∧ p ≠ q ∧ q ∈ dom (pvs g);
  po_nodup p : NoDup (pv_edge (pv g p)).*1;
  po_in p : p ∈ dom (pvs g) → ∃ X : gset Z, (∀ q, q ∈ X ↔ edge g q p) ∧ incount (pv g p) = Z.of_nat (size X);
  po_next p : p ∈ dom (pvs g) → p < next_pv g;
  po_times p : 0 ≤ atime (pv g p) ≤ p_mark g ∧ 0 ≤ dtime (pv g p) ≤ p_mark g;
  po_mark : p_mark g ≤ UINT_MAX
}.

Lemma pv_dead g p : p ∉ dom (pvs g) → pv g p = blank_vertex.
Proof. intros H%not_elem_of_dom. unfold pv. by rewrite H. Qed.

Lemma edge_dom g p q : pg_ok g → edge g p q → p ∈ dom (pvs g) ∧ q ∈ dom (pvs g) ∧ p ≠ q.
Proof.
  intros Hok He. unfold edge in He. destruct (decide (p ∈ dom (pvs g))) as [Hp|Hp].
  - apply list_elem_of_fmap in He as ([q' n] & -> & Hin). by destruct (po_edge _ Hok _ _ _ Hin) as (_ & ? & ?).
  - rewrite pv_dead in He by done. by apply elem_of_nil in He.
Qed.

Lemma pg_proper g : pg_ok g → proper g.
Proof. intros Hok p q He. by destruct (edge_dom g p q Hok He) as (_ & ? & ?). Qed.

(** How many locks of [p] wait for locks of [q]. *)
Definition cnt (g : proc_graph) (p q : Z) : Z := default 0 (find_edge q (pv_edge (pv g p))).

Lemma find_edge_some p es n : NoDup es.*1 → find_edge p es = Some n ↔ (p, n) ∈ es.
Proof.
  induction es as [|[q m] es IH]; simpl; [set_solver|]. intros [Hq Hnd]%NoDup_cons.
  destruct (Z.eqb_spec q p) as [->|Hne].
  - split; [intros [= ->]; by left|]. intros [[= ->]|Hin]%elem_of_cons; [done|].
    destruct Hq. apply list_elem_of_fmap. by exists (p, n).
  - rewrite IH by done. rewrite elem_of_cons. naive_solver.
Qed.

Lemma find_edge_none p es : find_edge p es = None ↔ p ∉ es.*1.
Proof.
  induction es as [|[q m] es IH]; simpl; [set_solver|]. destruct (Z.eqb_spec q p) as [->|Hne]; [set_solver|].
  rewrite IH. set_solver.
Qed.

Lemma cnt_edge g p q : pg_ok g → edge g p q ↔ 0 < cnt g p q.
Proof.
  intros Hok. unfold edge, cnt. destruct (find_edge q (pv_edge (pv g p))) as [n|] eqn:E; simpl.
  - apply find_edge_some in E; [|apply (po_nodup _ Hok)]. destruct (po_edge _ Hok _ _ _ E) as (Hn & _). split; [done|].
    intros _. apply list_elem_of_fmap. by exists (q, n).
  - apply find_edge_none in E. split; [done|lia].
Qed.

Lemma cnt_nonneg g p q : pg_ok g → 0 ≤ cnt g p q.
Proof.
  intros Hok. unfold cnt.
  destruct (find_edge q (pv_edge (pv g p))) as [n|] eqn:E; simpl; [|lia].
  apply find_edge_some in E; [|apply (po_nodup _ Hok)]. destruct (po_edge _ Hok _ _ _ E). lia.
Qed.

(** The vertex of an owner, and how many locks of one owner wait for locks of another. *)
Definition vertex_of (g : proc_graph) (o : Z * Z) : option Z :=
  head (filter (λ p, pv_owner (pv g p) = o) (elements (dom (pvs g)))).
Definition waits (g : proc_graph) (o1 o2 : Z * Z) : Z :=
  match vertex_of g o1, vertex_of g o2 with Some p, Some q => cnt g p q | _, _ => 0 end.

Lemma vertex_of_spec g o p : pg_ok g → vertex_of g o = Some p ↔ p ∈ dom (pvs g) ∧ pv_owner (pv g p) = o.
Proof.
  intros Hok. unfold vertex_of. split.
  - intros Hh. assert (p ∈ filter (λ p, pv_owner (pv g p) = o) (elements (dom (pvs g)))) as Hin.
    { destruct (filter _ _); [done|]. injection Hh as ->. by left. }
    apply list_elem_of_filter in Hin as [Ho Hin%elem_of_elements]. done.
  - intros [Hd Ho]. destruct (filter (λ p, pv_owner (pv g p) = o) (elements (dom (pvs g)))) as [|q l] eqn:E.
    + assert (p ∈ filter (λ p, pv_owner (pv g p) = o) (elements (dom (pvs g)))) as Hin
        by (apply list_elem_of_filter; split; [done|by apply elem_of_elements]).
      rewrite E in Hin. by apply elem_of_nil in Hin.
    + assert (q ∈ filter (λ p, pv_owner (pv g p) = o) (elements (dom (pvs g)))) as Hin by (rewrite E; by left).
      apply list_elem_of_filter in Hin as [Ho' Hin%elem_of_elements]. simpl. f_equal. apply (po_owner _ Hok); [done|done|congruence].
Qed.

Lemma vertex_of_none g o : pg_ok g → vertex_of g o = None ↔ ∀ p, p ∈ dom (pvs g) → pv_owner (pv g p) ≠ o.
Proof.
  intros Hok. split.
  - intros Hn p Hp Ho. assert (vertex_of g o = Some p) as Hs by by apply vertex_of_spec. congruence.
  - intros Hn. destruct (vertex_of g o) as [p|] eqn:E; [|done]. apply vertex_of_spec in E as [Hp Ho]; [|done]. by destruct (Hn p Hp).
Qed.

Lemma waits_at g p q : pg_ok g → p ∈ dom (pvs g) → q ∈ dom (pvs g) → waits g (pv_owner (pv g p)) (pv_owner (pv g q)) = cnt g p q.
Proof.
  intros Hok Hp Hq. unfold waits. rewrite (proj2 (vertex_of_spec g _ p Hok)), (proj2 (vertex_of_spec g _ q Hok)) by done. done.
Qed.

Lemma waits_pos g o1 o2 : pg_ok g → 0 < waits g o1 o2 →
  ∃ p q, edge g p q ∧ pv_owner (pv g p) = o1 ∧ pv_owner (pv g q) = o2.
Proof.
  intros Hok H. unfold waits in H. destruct (vertex_of g o1) as [p|] eqn:E1; [|lia]. destruct (vertex_of g o2) as [q|] eqn:E2; [|lia].
  apply vertex_of_spec in E1 as [Hp Ho1]; [|done]. apply vertex_of_spec in E2 as [Hq Ho2]; [|done].
  exists p, q. split; [by apply cnt_edge|done].
Qed.

Lemma waits_nonneg g o1 o2 : pg_ok g → 0 ≤ waits g o1 o2.
Proof. intros Hok. unfold waits. repeat case_match; try done. by apply cnt_nonneg. Qed.

(** What two owners have between them is the count between their vertices. *)
Lemma waits_local g g' o1 o2 : pg_ok g → pg_ok g' →
  (∀ p, p ∈ dom (pvs g) → p ∈ dom (pvs g') → pv_owner (pv g' p) = pv_owner (pv g p)) →
  (∀ p q, 0 < cnt g p q → pv_owner (pv g p) = o1 → pv_owner (pv g q) = o2 → cnt g' p q = cnt g p q) →
  (∀ p q, 0 < cnt g' p q → pv_owner (pv g' p) = o1 → pv_owner (pv g' q) = o2 → cnt g p q = cnt g' p q) →
  waits g' o1 o2 = waits g o1 o2.
Proof.
  intros Hok Hok' Ho Hc Hc'.
  assert (∀ a b, pg_ok a → pg_ok b → (∀ p, p ∈ dom (pvs a) → p ∈ dom (pvs b) → pv_owner (pv a p) = pv_owner (pv b p)) →
    (∀ p q, 0 < cnt a p q → pv_owner (pv a p) = o1 → pv_owner (pv a q) = o2 → cnt b p q = cnt a p q) →
    0 < waits a o1 o2 → waits b o1 o2 = waits a o1 o2) as Hone.
  { intros a b Ha Hb Hab Hcnt Hw. destruct (waits_pos a o1 o2 Ha Hw) as (p & q & He & Hp1 & Hq1).
    destruct (edge_dom a p q Ha He) as (Hp & Hq & _). pose proof (proj1 (cnt_edge a p q Ha) He) as Hpos.
    specialize (Hcnt p q Hpos Hp1 Hq1).
    assert (edge b p q) as He' by (apply cnt_edge; [done|]; by rewrite Hcnt).
    destruct (edge_dom b p q Hb He') as (Hp' & Hq' & _). rewrite <-Hp1, <-Hq1, (waits_at a p q) by done.
    rewrite (Hab p), (Hab q), (waits_at b p q) by done. done. }
  pose proof (waits_nonneg g o1 o2 Hok). pose proof (waits_nonneg g' o1 o2 Hok').
  destruct (decide (0 < waits g o1 o2)) as [Hw|Hw]; [apply (Hone g g'); auto; intros; symmetry; auto|].
  destruct (decide (0 < waits g' o1 o2)) as [Hw'|Hw']; [symmetry; apply (Hone g' g); auto|]. lia.
Qed.

Lemma waits_ext g g' : pg_ok g → pg_ok g' →
  (∀ p, p ∈ dom (pvs g) → p ∈ dom (pvs g') → pv_owner (pv g' p) = pv_owner (pv g p)) →
  (∀ p q, cnt g' p q = cnt g p q) → ∀ o1 o2, waits g' o1 o2 = waits g o1 o2.
Proof. intros. apply waits_local; auto. Qed.

(** One more, or one less, between two vertices. *)
Definition one {A} `{EqDecision A} (p q a b : A) : Z := if decide (a = p ∧ b = q) then 1 else 0.

Lemma waits_step g g' p q k : pg_ok g → pg_ok g' →
  (∀ p, p ∈ dom (pvs g) → p ∈ dom (pvs g') → pv_owner (pv g' p) = pv_owner (pv g p)) →
  p ∈ dom (pvs g) → q ∈ dom (pvs g) → p ∈ dom (pvs g') → q ∈ dom (pvs g') →
  (∀ a b, cnt g' a b = cnt g a b + k * one p q a b) →
  ∀ o1 o2, waits g' o1 o2 = waits g o1 o2 + k * one (pv_owner (pv g p)) (pv_owner (pv g q)) o1 o2.
Proof.
  intros Hok Hok' Ho Hp Hq Hp' Hq' Hc o1 o2. unfold one at 1. case_decide as E.
  - destruct E as [-> ->]. rewrite (waits_at g p q) by done. rewrite <-(Ho p Hp Hp'), <-(Ho q Hq Hq').
    rewrite (waits_at g' p q) by done. rewrite Hc. unfold one. by rewrite decide_True.
  - rewrite Z.mul_0_r, Z.add_0_r. apply waits_local; [done..| |].
    + intros a b _ Ha Hb. rewrite Hc. unfold one. rewrite decide_False; [lia|]. intros [-> ->]. by destruct E.
    + intros a b Hpos Ha Hb. rewrite Hc. unfold one. rewrite decide_False; [lia|]. intros [-> ->].
      rewrite (Ho p Hp Hp') in Ha. rewrite (Ho q Hq Hq') in Hb. by destruct E.
Qed.

(** ** One edge more or less *)

Lemma find_edge_set p n q es : find_edge q (set_edge p n es) =
  if decide (q = p) then match find_edge p es with Some _ => Some n | None => None end else find_edge q es.
Proof.
  induction es as [|[r m] es IH]; simpl; [by case_decide|].
  destruct (Z.eqb_spec r p) as [->|Hr]; simpl.
  - case_decide as E; [subst; by rewrite Z.eqb_refl|]. destruct (Z.eqb_spec p q) as [->|]; [done|done].
  - rewrite IH. case_decide as E; [subst; by destruct (Z.eqb_spec r p)|done].
Qed.

Lemma set_edge_fst p n es : (set_edge p n es).*1 = es.*1.
Proof. induction es as [|[r m] es IH]; csimpl; [done|]. case_match; csimpl; [done|]. by rewrite IH. Qed.

Lemma drop_edge_sub p es : (drop_edge p es).*1 `sublist_of` es.*1.
Proof. induction es as [|[r m] es IH]; csimpl; [done|]. case_match; csimpl; [by apply sublist_cons|by apply sublist_skip]. Qed.

Lemma find_edge_drop p q es : NoDup es.*1 → find_edge q (drop_edge p es) = if decide (q = p) then None else find_edge q es.
Proof.
  induction es as [|[r m] es IH]; simpl; [by case_decide|]. intros [Hr Hnd]%NoDup_cons.
  destruct (Z.eqb_spec r p) as [->|Hrp]; simpl.
  - case_decide as E; [subst; by apply find_edge_none|]. by destruct (Z.eqb_spec p q) as [->|].
  - rewrite IH by done. case_decide as E; [subst; by destruct (Z.eqb_spec r p)|done].
Qed.

Lemma edge_find g p q : edge g p q ↔ is_Some (find_edge q (pv_edge (pv g p))).
Proof.
  unfold edge. destruct (find_edge q (pv_edge (pv g p))) eqn:E.
  - split; [by eexists|]. intros _. destruct (decide (q ∈ (pv_edge (pv g p)).*1)) as [|Hn]; [done|].
    apply find_edge_none in Hn. congruence.
  - apply find_edge_none in E. split; [done|]. by intros [? ?].
Qed.

#[export] Instance edge_dec g p q : Decision (edge g p q).
Proof. unfold edge. apply _. Defined.

(** Everything but the edges of the vertices and their counts. *)
Definition rest_of (v : proc_vertex) : Z * Z * Z * Z * Z := (pv_pid v, pv_sysid v, atime v, dtime v, pv_index v).
Record same_rest (g g' : proc_graph) : Prop := {
  sr_rest p : rest_of (pv g' p) = rest_of (pv g p);
  sr_dom : dom (pvs g') = dom (pvs g);
  sr_proc : proc g' = proc g;
  sr_free : p_free g' = p_free g;
  sr_mark : p_mark g' = p_mark g;
  sr_next : next_pv g' = next_pv g
}.

Lemma updv_rest g p f : p ∈ dom (pvs g) → (∀ v, rest_of (f v) = rest_of v) → same_rest g (updv p f g).
Proof.
  intros Hp Hf. split; try done.
  - intros q. rewrite pv_updv. case_decide; [subst; apply Hf|done].
  - simpl. rewrite dom_insert_L. set_solver.
Qed.

Lemma same_rest_trans g1 g2 g3 : same_rest g1 g2 → same_rest g2 g3 → same_rest g1 g3.
Proof. intros [H1 ?????] [H2 ?????]. split; [intros p; by rewrite H2|congruence..]. Qed.

Lemma sr_owner g g' p : same_rest g g' → pv_owner (pv g' p) = pv_owner (pv g p).
Proof. intros H. pose proof (sr_rest _ _ H p) as E. unfold rest_of in E. unfold pv_owner. by injection E as -> -> _ _ _. Qed.
Lemma sr_index g g' p : same_rest g g' → pv_index (pv g' p) = pv_index (pv g p).
Proof. intros H. pose proof (sr_rest _ _ H p) as E. unfold rest_of in E. by injection E as _ _ _ _ ->. Qed.

Lemma pg_ok_rest g g' : pg_ok g → same_rest g g' →
  (∀ p, NoDup (pv_edge (pv g' p)).*1) →
  (∀ p q n, find_edge q (pv_edge (pv g' p)) = Some n → 0 < n ∧ p ≠ q ∧ q ∈ dom (pvs g)) →
  (∀ p, p ∈ dom (pvs g) → ∃ X : gset Z, (∀ q, q ∈ X ↔ edge g' q p) ∧ incount (pv g' p) = Z.of_nat (size X)) →
  pg_ok g'.
Proof.
  intros Hok Hs Hnd He Hin. split; rewrite ?(sr_dom _ _ Hs), ?(sr_proc _ _ Hs), ?(sr_mark _ _ Hs), ?(sr_next _ _ Hs).
  - intros p. rewrite (sr_index _ _ _ Hs). apply (po_slot _ Hok).
  - intros i p. rewrite (sr_index _ _ _ Hs). apply (po_proc _ Hok).
  - intros p q. rewrite !(sr_owner _ _ _ Hs). apply (po_owner _ Hok).
  - intros p q n Hq. apply He. by apply find_edge_some.
  - done.
  - done.
  - apply (po_next _ Hok).
  - intros p. pose proof (sr_rest _ _ Hs p) as E. unfold rest_of in E. injection E as _ _ -> -> _. apply (po_times _ Hok).
  - apply (po_mark _ Hok).
Qed.

(** [flk_update_proc_graph]'s insertion of an edge. *)
Lemma add_proc_edge_rest g p q : p ∈ dom (pvs g) → q ∈ dom (pvs g) → same_rest g (add_proc_edge p q g).
Proof.
  intros Hp Hq. unfold add_proc_edge. case_match; [by apply updv_rest|].
  eapply same_rest_trans; [by apply (updv_rest g q (λ v, set_incount (incount v + 1) v))|]. apply updv_rest; [|done]. simpl. rewrite dom_insert_L. set_solver.
Qed.

Lemma add_proc_edge_find g p q a b : p ≠ q → find_edge b (pv_edge (pv (add_proc_edge p q g) a)) =
  if decide (a = p ∧ b = q) then Some (cnt g p q + 1) else find_edge b (pv_edge (pv g a)).
Proof.
  intros Hne. unfold add_proc_edge, cnt. destruct (find_edge q (pv_edge (pv g p))) as [n|] eqn:E; rewrite ?pv_updv.
  - destruct (decide (a = p)) as [->|Ha]; [|rewrite decide_False by (intros [? ?]; congruence); done]. simpl. rewrite find_edge_set.
    destruct (decide (b = q)) as [->|Hb]; [by rewrite decide_True, E by done|rewrite decide_False by (intros [? ?]; congruence); done].
  - destruct (decide (a = p)) as [->|Ha].
    + rewrite decide_False by done. simpl. destruct (Z.eqb_spec q b) as [->|Hb]; [by rewrite decide_True|].
      rewrite decide_False by (intros [? ?]; congruence). done.
    + rewrite (decide_False (P:=a = p ∧ b = q)) by (intros [? ?]; done). by destruct (decide (a = q)) as [->|].
Qed.

Lemma add_proc_edge_cnt g p q a b : p ≠ q → cnt (add_proc_edge p q g) a b = cnt g a b + 1 * one p q a b.
Proof.
  intros Hne. unfold cnt at 1. rewrite add_proc_edge_find by done. unfold one. case_decide as E; [destruct E as [-> ->]; simpl; lia|].
  unfold cnt. lia.
Qed.

Lemma add_proc_edge_incount g p q r : p ≠ q → incount (pv (add_proc_edge p q g) r) =
  incount (pv g r) + if decide (r = q ∧ ¬ edge g p q) then 1 else 0.
Proof.
  intros Hne. unfold add_proc_edge. pose proof (edge_find g p q) as He.
  destruct (find_edge q (pv_edge (pv g p))) as [n|] eqn:E; rewrite ?pv_updv.
  - rewrite (decide_False (P:=r = q ∧ _)) by (intros [_ []]; apply He; by eexists).
    rewrite Z.add_0_r. by destruct (decide (r = p)) as [->|].
  - destruct (decide (r = p)) as [->|Hr].
    + rewrite decide_False by done. rewrite (decide_False (P:=_ ∧ _)) by (intros [? ?]; congruence). simpl. lia.
    + destruct (decide (r = q)) as [->|Hq].
      * rewrite decide_True by (split; [done|]; intros [? ?]%He; done). done.
      * rewrite decide_False by (intros [? ?]; congruence). lia.
Qed.

Lemma add_proc_edge_ok g p q : pg_ok g → p ∈ dom (pvs g) → q ∈ dom (pvs g) → p ≠ q → pg_ok (add_proc_edge p q g).
Proof.
  intros Hok Hp Hq Hne. apply (pg_ok_rest g); [done|by apply add_proc_edge_rest|..].
  - intros a. unfold add_proc_edge. pose proof (po_nodup _ Hok) as Hnd. case_match eqn:E; rewrite ?pv_updv.
    + case_decide as Ea; [|apply Hnd]. simpl. rewrite set_edge_fst. apply Hnd.
    + case_decide as Ea; [|case_decide as Eb; [subst; apply Hnd|apply Hnd]]. subst a. rewrite decide_False by done.
      simpl. constructor; [by apply find_edge_none|apply Hnd].
  - intros a b n. rewrite add_proc_edge_find by done. case_decide as E.
    + destruct E as [-> ->]. intros [= <-]. pose proof (cnt_nonneg g p q Hok). split; [lia|done].
    + intros Hf. apply find_edge_some in Hf; [|apply (po_nodup _ Hok)]. by apply (po_edge _ Hok) in Hf.
  - intros r Hr. destruct (po_in _ Hok r Hr) as (X & HX & Hc). rewrite add_proc_edge_incount by done.
    assert (∀ a, edge (add_proc_edge p q g) a r ↔ edge g a r ∨ (a = p ∧ r = q)) as He.
    { intros a. rewrite !edge_find, add_proc_edge_find by done. case_decide as E; naive_solver. }
    case_decide as E.
    + destruct E as [-> He']. exists ({[p]} ∪ X). split.
      * intros a. rewrite He, elem_of_union, elem_of_singleton, HX. naive_solver.
      * rewrite size_union, size_singleton by (apply disjoint_singleton_l; rewrite HX; done). lia.
    + exists X. split; [|lia]. intros a. rewrite HX, He. split; [by left|]. intros [?|[-> ->]]; [done|].
      destruct (decide (edge g p q)) as [|Hn]; [done|]. by destruct E.
Qed.

(** ** A vertex that has no edges is given back *)

Lemma pv_delete g f p q : pv (ProcGraph (proc g) f (p_mark g) (delete p (pvs g)) (next_pv g)) q =
  if decide (q = p) then blank_vertex else pv g q.
Proof. unfold pv. simpl. case_decide; [subst; by rewrite lookup_delete_eq|by rewrite lookup_delete_ne]. Qed.

Lemma flk_proc_release_ok g p : pg_ok g → p ∈ dom (pvs g) →
  ∃ g', flk_proc_release p g = Ret g' ∧ pg_ok g' ∧ (∀ q, q ≠ p → q ∈ dom (pvs g) → q ∈ dom (pvs g')) ∧
    dom (pvs g') ⊆ dom (pvs g) ∧ (∀ q, q ∈ dom (pvs g') → pv_owner (pv g' q) = pv_owner (pv g q)) ∧
    (∀ a b, cnt g' a b = cnt g a b) ∧ length (proc g') = length (proc g).
Proof.
  intros Hok Hp. unfold flk_proc_release. case_bool_decide as E; simpl; [|exists g; split_and!; auto].
  destruct (Z.eqb_spec (incount (pv g p)) 0) as [Hz|Hz]; [|exists g; split_and!; auto].
  destruct (po_slot _ Hok p Hp) as [Hi0 Hi]. rewrite Hi. eexists. split; [done|].
  set (i := Z.to_nat (pv_index (pv g p))) in *.
  set (g' := ProcGraph (<[i := None]> (proc g)) (p_free g + 1) (p_mark g) (delete p (pvs g)) (next_pv g)).
  assert (∀ q, pv g' q = if decide (q = p) then blank_vertex else pv g q) as Hpv by (intros q; apply (pv_delete g 0)).
  assert (dom (pvs g') = dom (pvs g) ∖ {[p]}) as Hdom by (simpl; by rewrite dom_delete_L).
  assert (∀ q, ¬ edge g q p) as Hnone.
  { intros q He. destruct (po_in _ Hok p Hp) as (X & HX & Hc). apply HX in He. assert (size X ≠ 0%nat); [|lia].
    intros HX0%size_empty_inv. set_solver. }
  assert (∀ a b n, (b, n) ∈ pv_edge (pv g' a) ↔ (b, n) ∈ pv_edge (pv g a)) as Hedge.
  { intros a b n. rewrite Hpv. case_decide; [subst; by rewrite E|done]. }
  assert (∀ a, pv_edge (pv g' a) = pv_edge (pv g a)) as Hes.
  { intros a. rewrite Hpv. case_decide; [subst; by rewrite E|done]. }
  split; [|rewrite Hdom; repeat split].
  - split.
    + intros q. rewrite Hdom, Hpv. intros [Hq Hqp]%elem_of_difference. rewrite decide_False by set_solver.
      destruct (po_slot _ Hok q Hq) as [Hj0 Hj]. split; [done|]. simpl. rewrite list_lookup_insert_ne; [done|].
      intros Heq. rewrite <-Heq in Hj. rewrite Hi in Hj. set_solver.
    + intros j q Hj. simpl in Hj. destruct (decide (j = i)) as [->|Hne].
      * rewrite list_lookup_insert_eq in Hj; [done|]. by eapply lookup_lt_Some.
      * rewrite list_lookup_insert_ne in Hj by done. destruct (po_proc _ Hok _ _ Hj) as [Hq Hqi].
        assert (q ≠ p) by (intros ->; apply Hne; unfold i; rewrite Hqi; lia).
        rewrite Hdom, Hpv, decide_False by done. split; [set_solver|done].
    + intros a b. rewrite Hdom, !Hpv. intros Ha Hb. rewrite !decide_False by set_solver.
      apply (po_owner _ Hok); set_solver.
    + intros a b n. rewrite Hedge, Hdom. intros Hin. destruct (po_edge _ Hok _ _ _ Hin) as (? & ? & ?).
      repeat split; [done..|]. assert (b ≠ p); [|set_solver]. intros ->. apply (Hnone a). apply list_elem_of_fmap. by exists (p, n).
    + intros a. rewrite Hes. apply (po_nodup _ Hok).
    + intros q. rewrite Hdom, Hpv. intros Hq. rewrite decide_False by set_solver.
      destruct (po_in _ Hok q ltac:(set_solver)) as (X & HX & Hc). exists X. split; [|done]. intros a. unfold edge. by rewrite Hes.
    + intros q. rewrite Hdom. intros Hq. apply (po_next _ Hok). set_solver.
    + intros q. rewrite Hpv. pose proof (po_times _ Hok q). case_decide; [simpl; lia|done].
    + apply (po_mark _ Hok).
  - intros q Hq Hd. set_solver.
  - set_solver.
  - intros q Hq. rewrite Hpv, decide_False by set_solver. done.
  - intros a b. unfold cnt. by rewrite Hes.
  - apply length_insert.
Qed.

(** ** One edge less *)

(** The graph when the edge has gone, before the vertex is given back. *)
Definition drop_proc_edge (p q : Z) (g : proc_graph) : proc_graph :=
  updv q (λ v, set_incount (incount v - 1) v) (updv p (λ v, set_pv_edge (drop_edge q (pv_edge v)) v) g).
Definition dec_proc_edge (p q n : Z) (g : proc_graph) : proc_graph :=
  updv p (λ v, set_pv_edge (set_edge q n (pv_edge v)) v) g.

Lemma drop_proc_edge_find g p q a b : pg_ok g → p ≠ q → find_edge b (pv_edge (pv (drop_proc_edge p q g) a)) =
  if decide (a = p ∧ b = q) then None else find_edge b (pv_edge (pv g a)).
Proof.
  intros Hok Hne. unfold drop_proc_edge. rewrite !pv_updv. destruct (decide (a = q)) as [->|Ha].
  - rewrite !decide_False by (done || intros [? ?]; done). done.
  - destruct (decide (a = p)) as [->|Hap]; [|rewrite decide_False by (intros [? ?]; done); done].
    simpl. rewrite find_edge_drop by apply (po_nodup _ Hok).
    destruct (decide (b = q)) as [->|]; [by rewrite decide_True|rewrite decide_False by (intros [? ?]; done); done].
Qed.

Lemma drop_proc_edge_ok g p q : pg_ok g → p ∈ dom (pvs g) → q ∈ dom (pvs g) → edge g p q → pg_ok (drop_proc_edge p q g).
Proof.
  intros Hok Hp Hq He. assert (p ≠ q) as Hne by by destruct (edge_dom g p q Hok He) as (_ & _ & ?).
  apply (pg_ok_rest g); [done|..].
  - eapply same_rest_trans; [by apply (updv_rest g p (λ v, set_pv_edge (drop_edge q (pv_edge v)) v))|].
    apply updv_rest; [|done]. simpl. rewrite dom_insert_L. set_solver.
  - intros a. unfold drop_proc_edge. rewrite !pv_updv. pose proof (po_nodup _ Hok) as Hnd. repeat case_decide; simpl; subst; try apply Hnd; try done.
    eapply sublist_NoDup; [apply Hnd|apply drop_edge_sub].
  - intros a b n. rewrite drop_proc_edge_find by done. case_decide as E; [done|].
    intros Hf. apply find_edge_some in Hf; [|apply (po_nodup _ Hok)]. by apply (po_edge _ Hok) in Hf.
  - intros r Hr. destruct (po_in _ Hok r Hr) as (X & HX & Hc).
    assert (∀ a, edge (drop_proc_edge p q g) a r ↔ edge g a r ∧ ¬ (a = p ∧ r = q)) as Hd.
    { intros a. rewrite !edge_find, drop_proc_edge_find by done. case_decide as E; [|naive_solver].
      split; [by intros [? ?]|by intros [_ ?]]. }
    assert (incount (pv (drop_proc_edge p q g) r) = incount (pv g r) - if decide (r = q) then 1 else 0) as ->.
    { unfold drop_proc_edge. rewrite !pv_updv. repeat case_decide; subst; simpl; try done; lia. }
    case_decide as E.
    + subst r. exists (X ∖ {[p]}). split.
      * intros a. rewrite Hd, elem_of_difference, elem_of_singleton, HX.
        split; [intros [? ?]; split; [done|]; by intros [-> _]|intros [? Hn]; split; [done|]; intros ->; by apply Hn].
      * apply HX in He. rewrite size_difference by set_solver. rewrite size_singleton.
        assert (size X ≠ 0%nat) by (intros HX0%size_empty_inv; set_solver). lia.
    + exists X. split; [|lia]. intros a. rewrite Hd, HX. split; [intros ?; split; [done|]; by intros [_ ?]|by intros [? _]].
Qed.

Lemma dec_proc_edge_find g p q n a b : cnt g p q = n + 1 → 0 < n → find_edge b (pv_edge (pv (dec_proc_edge p q n g) a)) =
  if decide (a = p ∧ b = q) then Some n else find_edge b (pv_edge (pv g a)).
Proof.
  unfold cnt, dec_proc_edge. intros Hc Hn. destruct (find_edge q (pv_edge (pv g p))) eqn:E; simpl in Hc; [|lia].
  rewrite pv_updv. destruct (decide (a = p)) as [->|Ha]; [|rewrite decide_False by (intros [? ?]; done); done].
  simpl. rewrite find_edge_set, E.
  destruct (decide (b = q)) as [->|]; [by rewrite decide_True|rewrite decide_False by (intros [? ?]; done); done].
Qed.

Lemma dec_proc_edge_ok g p q n : pg_ok g → p ∈ dom (pvs g) → cnt g p q = n + 1 → 0 < n → pg_ok (dec_proc_edge p q n g).
Proof.
  intros Hok Hp Hc Hn. apply (pg_ok_rest g); [done|by apply updv_rest|..].
  - intros a. unfold dec_proc_edge. rewrite pv_updv. pose proof (po_nodup _ Hok) as Hnd.
    case_decide; [|apply Hnd]. simpl. rewrite set_edge_fst. apply Hnd.
  - intros a b m. rewrite dec_proc_edge_find by done. case_decide as E.
    + destruct E as [-> ->]. intros [= <-]. destruct (edge_dom g p q Hok) as (_ & ? & ?); [apply cnt_edge; [done|lia]|done].
    + intros Hf. apply find_edge_some in Hf; [|apply (po_nodup _ Hok)]. by apply (po_edge _ Hok) in Hf.
  - intros r Hr. destruct (po_in _ Hok r Hr) as (X & HX & Hi). exists X. split.
    + intros a. rewrite HX. unfold edge, dec_proc_edge. rewrite pv_updv. case_decide; [subst; simpl; by rewrite set_edge_fst|done].
    + unfold dec_proc_edge. rewrite pv_updv. case_decide; [by subst|done].
Qed.

(** What an operation on the graph leaves alone: owners, and the vertices in [keep]. *)
Record grown (keep : Z → Prop) (g g' : proc_graph) : Prop := {
  gr_keep q : q ∈ dom (pvs g) → keep q → q ∈ dom (pvs g');
  gr_owner q : q ∈ dom (pvs g) → q ∈ dom (pvs g') → pv_owner (pv g' q) = pv_owner (pv g q);
  gr_slots : (length (proc g) ≤ length (proc g'))%nat
}.

Lemma flk_proc_release_waits g p : pg_ok g → p ∈ dom (pvs g) →
  ∃ g', flk_proc_release p g = Ret g' ∧ pg_ok g' ∧ grown (.≠ p) g g' ∧ dom (pvs g') ⊆ dom (pvs g) ∧
    ∀ o1 o2, waits g' o1 o2 = waits g o1 o2.
Proof.
  intros Hok Hp. destruct (flk_proc_release_ok g p Hok Hp) as (g' & Hr & Hok' & Hk & Hsub & Ho & Hc & Hl).
  exists g'. split_and!; [done|done| |done|].
  - split; [auto|auto|lia].
  - apply waits_ext; auto.
Qed.

Lemma del_proc_edge_waits g p q r : pg_ok g → edge g p q → r ∈ dom (pvs g) →
  ∃ g', del_proc_edge p q r g = Ret g' ∧ pg_ok g' ∧ grown (.≠ r) g g' ∧ dom (pvs g') ⊆ dom (pvs g) ∧
    ∀ o1 o2, waits g' o1 o2 = waits g o1 o2 - one (pv_owner (pv g p)) (pv_owner (pv g q)) o1 o2.
Proof.
  intros Hok He Hrd. destruct (edge_dom g p q Hok He) as (Hp & Hq & Hne). pose proof (proj1 (cnt_edge g p q Hok) He) as Hc.
  unfold del_proc_edge. unfold cnt in Hc. destruct (find_edge q (pv_edge (pv g p))) as [n|] eqn:E; [simpl in Hc|by simpl in Hc].
  destruct (Z.eqb_spec (n - 1) 0) as [Hn|Hn].
  - fold (drop_proc_edge p q g). pose proof (drop_proc_edge_ok g p q Hok Hp Hq He) as Hok1.
    assert (dom (pvs (drop_proc_edge p q g)) = dom (pvs g)) as Hd by (simpl; rewrite !dom_insert_L; set_solver).
    assert (∀ x, pv_owner (pv (drop_proc_edge p q g) x) = pv_owner (pv g x)) as Ho.
    { intros x. unfold drop_proc_edge. rewrite !pv_updv. repeat case_decide; by subst. }
    destruct (flk_proc_release_waits (drop_proc_edge p q g) r Hok1 ltac:(by rewrite Hd)) as (g' & Hr & Hok' & [Hk Hgo Hl] & Hsub & Hw).
    exists g'. split_and!; [done|done| |by rewrite <-Hd|].
    + split; [intros x Hx; apply Hk; by rewrite Hd|intros x Hx Hx'; rewrite <-Ho; apply Hgo; [by rewrite Hd|done]|done].
    + intros o1 o2. rewrite Hw. rewrite (waits_step g (drop_proc_edge p q g) p q (-1) Hok Hok1); [lia|auto|done|done|by rewrite Hd|by rewrite Hd|].
      intros a b. unfold cnt at 1. rewrite drop_proc_edge_find by done. unfold one. case_decide as Eab; [|unfold cnt; lia].
      destruct Eab as [-> ->]. unfold cnt. rewrite E. simpl. lia.
  - eexists. split; [done|]. fold (dec_proc_edge p q (n - 1) g).
    assert (cnt g p q = n - 1 + 1) as Hc' by (unfold cnt; rewrite E; simpl; lia).
    assert (dom (pvs (dec_proc_edge p q (n - 1) g)) = dom (pvs g)) as Hd by (simpl; rewrite !dom_insert_L; set_solver).
    assert (∀ x, pv_owner (pv (dec_proc_edge p q (n - 1) g) x) = pv_owner (pv g x)) as Ho.
    { intros x. unfold dec_proc_edge. rewrite !pv_updv. repeat case_decide; by subst. }
    assert (pg_ok (dec_proc_edge p q (n - 1) g)) as Hok' by (apply dec_proc_edge_ok; [done|done|done|lia]).
    split_and!; [done| |by rewrite Hd|].
    + split; [intros x Hx _; by rewrite Hd|intros x Hx _; apply Ho|done].
    + intros o1 o2. rewrite (waits_step g (dec_proc_edge p q (n - 1) g) p q (-1) Hok Hok'); [lia|auto|done|done|by rewrite Hd|by rewrite Hd|].
      intros a b. unfold cnt at 1. rewrite dec_proc_edge_find by (done || lia). unfold one. case_decide as Eab; [|unfold cnt; lia].
      destruct Eab as [-> ->]. unfold cnt. rewrite E. simpl. lia.
Qed.

Lemma add_proc_edge_waits g p q : pg_ok g → p ∈ dom (pvs g) → q ∈ dom (pvs g) → p ≠ q →
  pg_ok (add_proc_edge p q g) ∧ grown (λ _, True) g (add_proc_edge p q g) ∧ dom (pvs (add_proc_edge p q g)) = dom (pvs g) ∧
  ∀ o1 o2, waits (add_proc_edge p q g) o1 o2 = waits g o1 o2 + one (pv_owner (pv g p)) (pv_owner (pv g q)) o1 o2.
Proof.
  intros Hok Hp Hq Hne. pose proof (add_proc_edge_ok g p q Hok Hp Hq Hne) as Hok'.
  pose proof (add_proc_edge_rest g p q Hp Hq) as Hs. pose proof (sr_dom _ _ Hs) as Hd. split_and!; [done| |done|].
  - split; [intros r Hr _; by rewrite Hd|intros r _ _; by apply sr_owner|by rewrite (sr_proc _ _ Hs)].
  - intros o1 o2. rewrite (waits_step g (add_proc_edge p q g) p q 1 Hok Hok'); [lia| |done|done|by rewrite Hd|by rewrite Hd|].
    + intros r _ _. by apply sr_owner.
    + intros a b. by apply add_proc_edge_cnt.
Qed.

(** ** Marks *)

Record same_shape (g g' : proc_graph) : Prop := {
  ss_kept p : kept (pv g' p) = kept (pv g p);
  ss_dom : dom (pvs g') = dom (pvs g);
  ss_proc : proc g' = proc g;
  ss_next : next_pv g' = next_pv g
}.

Definition timely (g : proc_graph) : Prop :=
  (∀ p, 0 ≤ atime (pv g p) ≤ p_mark g ∧ 0 ≤ dtime (pv g p) ≤ p_mark g) ∧ p_mark g ≤ UINT_MAX.

Lemma same_shape_fields g g' p : same_shape g g' → pv_owner (pv g' p) = pv_owner (pv g p) ∧
  pv_edge (pv g' p) = pv_edge (pv g p) ∧ incount (pv g' p) = incount (pv g p) ∧ pv_index (pv g' p) = pv_index (pv g p).
Proof.
  intros H. pose proof (ss_kept _ _ H p) as E. unfold kept in E. unfold pv_owner. by injection E as -> -> -> -> ->.
Qed.

Lemma same_shape_edge g g' p q : same_shape g g' → edge g' p q ↔ edge g p q.
Proof. intros H. unfold edge. destruct (same_shape_fields g g' p H) as (_ & -> & _). done. Qed.

Lemma pg_ok_shape g g' : pg_ok g → same_shape g g' → timely g' → pg_ok g'.
Proof.
  intros Hok Hs [Ht Hm]. pose proof (same_shape_fields g g') as Hf.
  split; rewrite ?(ss_dom _ _ Hs), ?(ss_proc _ _ Hs), ?(ss_next _ _ Hs); [..|done|done].
  - intros p. destruct (Hf p Hs) as (_ & _ & _ & ->). apply (po_slot _ Hok).
  - intros i p. destruct (Hf p Hs) as (_ & _ & _ & ->). apply (po_proc _ Hok).
  - intros p q. destruct (Hf p Hs) as (-> & _), (Hf q Hs) as (-> & _). apply (po_owner _ Hok).
  - intros p q n. destruct (Hf p Hs) as (_ & -> & _). apply (po_edge _ Hok).
  - intros p. destruct (Hf p Hs) as (_ & -> & _). apply (po_nodup _ Hok).
  - intros p Hp. destruct (po_in _ Hok p Hp) as (X & HX & Hc). exists X. split.
    + intros q. rewrite HX. symmetry. by apply same_shape_edge.
    + by destruct (Hf p Hs) as (_ & _ & -> & _).
  - apply (po_next _ Hok).
Qed.

Lemma waits_shape g g' : pg_ok g → pg_ok g' → same_shape g g' → ∀ o1 o2, waits g' o1 o2 = waits g o1 o2.
Proof.
  intros Hok Hok' Hs. apply waits_ext; [done|done| |].
  - intros p _ _. by apply same_shape_fields.
  - intros p q. unfold cnt. by destruct (same_shape_fields g g' p Hs) as (_ & -> & _).
Qed.

Lemma same_procs_shape g g' : same_procs g g' → same_shape g g'.
Proof. intros []. by split. Qed.

Lemma clear_times_ok (l : list (option Z)) : ∀ g, (∀ p, Some p ∈ l → p ∈ dom (pvs g)) →
  let g' := foldl (λ g o, match o with Some p => updv p (λ v, set_dtime 0 (set_atime 0 v)) g | None => g end) g l in
  same_shape g g' ∧ p_mark g' = p_mark g ∧
  ∀ p, (Some p ∈ l ∧ atime (pv g' p) = 0 ∧ dtime (pv g' p) = 0) ∨ (Some p ∉ l ∧ pv g' p = pv g p).
Proof.
  induction l as [|o l IH]; intros g Hl; cbn [foldl].
  - split; [by split|]. split; [done|]. intros p. right. split; [set_solver|done].
  - assert (∀ p, Some p ∈ l → p ∈ dom (pvs match o with Some p => updv p (λ v, set_dtime 0 (set_atime 0 v)) g | None => g end)) as Hl'.
    { intros p Hp. destruct o as [q|]; [|apply Hl; by right]. simpl. rewrite dom_insert_L. set_solver. }
    destruct (IH _ Hl') as (Hs & Hm & Ht). destruct o as [q|].
    + assert (q ∈ dom (pvs g)) as Hq by (apply Hl; by left). split; [|split; [done|]].
      * destruct Hs as [Hk Hd Hp Hn]. split; [|rewrite Hd; simpl; rewrite dom_insert_L; set_solver|done|done].
        intros p. rewrite Hk, pv_updv. case_decide; by subst.
      * intros p. destruct (Ht p) as [(Hp & ? & ?)|(Hp & E)]; [left; split; [by right|done]|].
        rewrite pv_updv in E. case_decide as Ep.
        -- subst p. left. split; [by left|]. by rewrite E.
        -- right. split; [|done]. intros [[= ->]|?]%elem_of_cons; done.
    + split; [done|]. split; [done|]. intros p. destruct (Ht p) as [(Hp & ? & ?)|(Hp & E)]; [left; split; [by right|done]|].
      right. split; [|done]. intros [?|?]%elem_of_cons; done.
Qed.

(** [flk_proc_graph_uncolor] makes no vertex arrived at or departed from. *)
Lemma flk_proc_graph_uncolor_ok g : pg_ok g → let g' := flk_proc_graph_uncolor g in
  pg_ok g' ∧ same_shape g g' ∧ ∀ p, ¬ ARR g' p ∧ ¬ DEP g' p.
Proof.
  intros Hok. unfold flk_proc_graph_uncolor. pose proof (po_times _ Hok) as Ht. pose proof (po_mark _ Hok) as Hm.
  unfold ARR, DEP, PROC_ARRIVED, PROC_DEPARTED. destruct (Z.eqb_spec (p_mark g) UINT_MAX) as [E|E]; cbv zeta.
  - destruct (clear_times_ok (proc g) g) as (Hs & Hm' & Hc).
    { intros p [i Hi]%list_elem_of_lookup. by apply (po_proc _ Hok i). }
    set (g1 := foldl _ g (proc g)) in *. destruct Hs as [H1 H2 H3 H4].
    assert (∀ p, atime (pv (set_p_mark 1 g1) p) = 0 ∧ dtime (pv (set_p_mark 1 g1) p) = 0) as Hz.
    { intros p. change (pv (set_p_mark 1 g1) p) with (pv g1 p). destruct (Hc p) as [(_ & ? & ?)|(Hp & ->)]; [done|].
      rewrite pv_dead; [done|]. intros Hd. apply Hp. destruct (po_slot _ Hok p Hd) as [_ Hi]. by eapply list_elem_of_lookup_2. }
    assert (same_shape g (set_p_mark 1 g1)) as Hs by by split.
    split; [|split; [done|]].
    + apply (pg_ok_shape g); [done|done|]. split; [intros p; destruct (Hz p) as [-> ->]; simpl; lia|]. simpl. unfold UINT_MAX. lia.
    + intros p. destruct (Hz p) as [-> ->]. simpl. done.
  - assert (same_shape g (set_p_mark (p_mark g + 1) g)) as Hs by by split.
    split; [|split; [done|]].
    + apply (pg_ok_shape g); [done|done|]. split; [|simpl; lia]. intros p.
      change (pv (set_p_mark (p_mark g + 1) g) p) with (pv g p). specialize (Ht p). simpl. lia.
    + intros p. change (pv (set_p_mark (p_mark g + 1) g) p) with (pv g p). specialize (Ht p). simpl.
      split; intros H%Z.eqb_eq; lia.
Qed.

Lemma timely_updv g p f : timely g → (∀ v, atime (f v) = atime v ∨ atime (f v) = p_mark g) →
  (∀ v, dtime (f v) = dtime v ∨ dtime (f v) = p_mark g) → timely (updv p f g).
Proof.
  intros [Ht Hm] Ha Hd. split; [|done]. intros q. rewrite pv_updv. change (p_mark (updv p f g)) with (p_mark g).
  pose proof (Ht q). case_decide; [subst|done]. destruct (Ha (pv g p)) as [->| ->], (Hd (pv g p)) as [->| ->]; lia.
Qed.

Lemma deadlock_search_timely fuel : ∀ stack g b g', timely g → deadlock_search fuel stack g = Ret (b, g') → timely g'.
Proof.
  induction fuel as [|fuel IH]; intros [|v stack] g b g' Ht Hs; simpl in Hs; try done; [by injection Hs as _ <-..|].
  case_match.
  - eapply IH, Hs. apply timely_updv; [|by left|by left]. apply timely_updv; [|by right|by left]. apply timely_updv; [done|by left|by left].
  - by injection Hs as _ <-.
  - eapply IH, Hs. apply timely_updv; [done|by left|by right].
Qed.

(** ** The search on a graph without marks *)

Lemma work_fresh g : (∀ p, ¬ ARR g p) →
  work g (pvs g) = sum_list ((λ p, length (pv_edge p.2)) <$> map_to_list (pvs g)).
Proof.
  intros Hn. unfold work. f_equal. apply list_fmap_ext. intros i [p v] Hi%list_elem_of_lookup_2%elem_of_map_to_list.
  unfold left_of. simpl. specialize (Hn p). unfold ARR, PROC_ARRIVED, pv in Hn. rewrite Hi in Hn. simpl in Hn.
  by destruct (atime v =? p_mark g).
Qed.

Lemma search_from_ok g start : pg_ok g → start ∈ dom (pvs g) → (∀ p, ¬ ARR g p ∧ ¬ DEP g p) →
  let g1 := updv start (λ v, set_p_sedge (pv_edge v) v) g in
  ∃ b g', deadlock_search (search_fuel g1) [start] g1 = Ret (b, g') ∧ pg_ok g' ∧ same_shape g g' ∧
    if b then ∃ q, tc (edge g) q q else sn (edge g) start.
Proof.
  intros Hok Hst Hfresh g1. assert (same_procs g g1) as Hs by by apply updv_same.
  assert (∀ p, ¬ ARR g1 p ∧ ¬ DEP g1 p) as Hf1.
  { intros p. unfold g1. rewrite atime_updv, dtime_updv by done. apply Hfresh. }
  assert (timely g1) as Ht1.
  { apply timely_updv; [split; [apply (po_times _ Hok)|apply (po_mark _ Hok)]|by left|by left]. }
  assert (pg_ok g1) as Hok1 by (apply (pg_ok_shape g); [done|by apply same_procs_shape|done]).
  destruct (deadlock_search_ok (search_fuel g1) [start] g1) as (b & g' & Hr & Hs' & Hb).
  - by apply pg_proper.
  - split.
    + split; [|split; [|done]].
      * right. unfold g1. rewrite pv_updv, decide_True by done. done.
      * exists []. unfold g1. rewrite pv_updv, decide_True by done. split; [done|]. set_solver.
    + apply NoDup_singleton.
    + intros v ->%list_elem_of_singleton. unfold g1. simpl. rewrite dom_insert_L. set_solver.
    + intros q Hq. by destruct (Hf1 q).
    + intros q Hq. by destruct (Hf1 q).
  - rewrite work_fresh by apply Hf1. unfold search_fuel. cbn [length]. lia.
  - exists b, g'. split; [done|]. assert (same_procs g g') as Hs2 by by eapply same_procs_trans.
    split; [|split; [by apply same_procs_shape|]].
    + apply (pg_ok_shape g); [done|by apply same_procs_shape|]. by eapply deadlock_search_timely.
    + apply (verdict_same _ _ b _ Hs) in Hb. destruct b; [done|]. apply Hb. by left.
Qed.

(** ** Vertices of locks *)

Definition bare (d : lockd) : lockd := set_pvertex 0 d.
(** All that finding the vertex of a lock changes. *)
Record vframe (s s' : graph) : Prop := {
  vf_lk l : bare (lk s' l) = bare (lk s l);
  vf_next : next_lock s' = next_lock s;
  vf_active : active_locks s' = active_locks s;
  vf_sleeping : sleeping_locks s' = sleeping_locks s;
  vf_filocks : v_filocks s' = v_filocks s;
  vf_mark : g_mark s' = g_mark s;
  vf_status : lockmgr_status s' = lockmgr_status s
}.
Definition vertex_ok (s : graph) (l : Z) : Prop := -1 ≤ pvertex (lk s l) < zlen (proc (pgraph s)).

Lemma vframe_refl s : vframe s s.
Proof. by split. Qed.
Lemma vframe_trans s1 s2 s3 : vframe s1 s2 → vframe s2 s3 → vframe s1 s3.
Proof. intros [H1 ??????] [H2 ??????]. split; [intros l; by rewrite H2|congruence..]. Qed.

Lemma bare_owner d d' : bare d = bare d' → owner d = owner d'.
Proof. intros H. unfold owner. change (l_flock d) with (l_flock (bare d)). by rewrite H. Qed.

Lemma find_slot_some P slots : ∀ i j o, find_slot P i slots = Some (j, o) →
  i ≤ j < i + zlen slots ∧ slots !! Z.to_nat (j - i) = Some o ∧ P o = true.
Proof.
  induction slots as [|x slots IH]; intros i j o; cbn [find_slot]; [done|]. destruct (P x) eqn:E.
  - intros [= <- <-]. rewrite Z.sub_diag. simpl. split; [lia|done].
  - intros (H1 & H2 & H3)%IH. split; [cbn [length]; lia|]. split; [|done]. by replace (Z.to_nat (j - i)) with (S (Z.to_nat (j - (i + 1)))) by lia.
Qed.
Lemma find_slot_none P slots i : find_slot P i slots = None → ∀ o, o ∈ slots → P o = false.
Proof.
  revert i. induction slots as [|x slots IH]; intros i; simpl; [set_solver|]. destruct (P x) eqn:E; [done|].
  intros Hn o [->|Ho]%elem_of_cons; [done|by eapply IH].
Qed.

Lemma owned_by_spec d g o : owned_by d g o = true ↔ ∃ p, o = Some p ∧ pv_owner (pv g p) = owner d.
Proof.
  destruct o as [p|]; simpl; [rewrite same_owner_spec|]; split.
  - intros H. by exists p.
  - by intros (q & [= ->] & H).
  - done.
  - by intros (q & ? & _).
Qed.

(** A vertex for an owner that has none. *)
Lemma new_vertex_ok g d i slots free : pg_ok g → 0 ≤ i → slots !! Z.to_nat i = Some None →
  (∀ j p, slots !! j = Some (Some p) ↔ proc g !! j = Some (Some p)) → (length (proc g) ≤ length slots)%nat →
  (∀ p, p ∈ dom (pvs g) → pv_owner (pv g p) ≠ owner d) →
  let p := next_pv g in
  let g' := ProcGraph (<[Z.to_nat i := Some p]> slots) free (p_mark g)
    (<[p := ProcVertex (f_pid (l_flock d)) (f_sysid (l_flock d)) [] 0 [] 0 0 i]> (pvs g)) (p + 1) in
  pg_ok g' ∧ grown (λ _, True) g g' ∧ p ∈ dom (pvs g') ∧ pv_owner (pv g' p) = owner d ∧ (∀ o1 o2, waits g' o1 o2 = waits g o1 o2).
Proof.
  intros Hok Hi Hslot Hslots Hlen Hno p g'. pose proof (po_next _ Hok) as Hnext.
  assert (p ∉ dom (pvs g)) as Hp by (intros H%Hnext; unfold p in H; lia).
  set (v := ProcVertex (f_pid (l_flock d)) (f_sysid (l_flock d)) [] 0 [] 0 0 i).
  assert (∀ q, pv g' q = if decide (q = p) then v else pv g q) as Hpv.
  { intros q. unfold pv, g'. simpl. case_decide; [subst; by rewrite lookup_insert_eq|by rewrite lookup_insert_ne]. }
  assert (dom (pvs g') = {[p]} ∪ dom (pvs g)) as Hd by (simpl; by rewrite dom_insert_L).
  assert (∀ q, pv_edge (pv g' q) = pv_edge (pv g q)) as He.
  { intros q. rewrite Hpv. case_decide; [subst; by rewrite (pv_dead g)|done]. }
  assert (pv_owner v = owner d) as Hv by done.
  assert (pg_ok g') as Hok'.
  { split; rewrite ?Hd.
    - intros q Hq. rewrite Hpv. simpl. case_decide as E.
      + subst q. split; [done|]. simpl. rewrite list_lookup_insert_eq; [done|]. by eapply lookup_lt_Some.
      + destruct (po_slot _ Hok q ltac:(set_solver)) as [Hj Hq']. split; [done|]. apply Hslots in Hq'.
        rewrite list_lookup_insert_ne; [done|]. intros E'. rewrite E' in Hslot. congruence.
    - intros j q Hj. simpl in Hj. destruct (decide (j = Z.to_nat i)) as [->|Hne].
      + rewrite list_lookup_insert_eq in Hj by by eapply lookup_lt_Some. injection Hj as <-. rewrite Hpv, decide_True by done.
        split; [set_solver|]. simpl. lia.
      + rewrite list_lookup_insert_ne in Hj by done. apply Hslots in Hj. destruct (po_proc _ Hok _ _ Hj) as [Hq Hx].
        rewrite Hpv, decide_False by (intros ->; done). split; [set_solver|done].
    - intros a b Ha Hb. rewrite !Hpv. repeat case_decide; subst; try done.
      + intros E. rewrite Hv in E. symmetry in E. apply Hno in E; set_solver.
      + intros E. rewrite Hv in E. apply Hno in E; set_solver.
      + apply (po_owner _ Hok); set_solver.
    - intros a b n. rewrite He. intros (? & ? & ?)%(po_edge _ Hok). set_solver.
    - intros a. rewrite He. apply (po_nodup _ Hok).
    - intros q Hq. rewrite Hpv. case_decide as E.
      + subst q. exists ∅. split; [|done]. intros a. split; [set_solver|]. unfold edge. rewrite He. intros Hin.
        destruct (edge_dom g a p Hok Hin) as (_ & ? & _). done.
      + destruct (po_in _ Hok q ltac:(set_solver)) as (X & HX & Hc). exists X. split; [|done]. intros a. unfold edge. by rewrite He.
    - intros q [->%elem_of_singleton|Hq]%elem_of_union; simpl; [lia|]. apply Hnext in Hq. unfold p. lia.
    - intros q. rewrite Hpv. simpl. pose proof (po_times _ Hok q). case_decide; [|done]. simpl. lia.
    - apply (po_mark _ Hok). }
  assert (∀ q, q ∈ dom (pvs g) → pv_owner (pv g' q) = pv_owner (pv g q)) as Ho.
  { intros q Hq. rewrite Hpv, decide_False; [done|]. by intros ->. }
  split; [done|]. split; [split|]; [set_solver|auto|simpl; by rewrite length_insert|]. split; [set_solver|].
  split; [by rewrite Hpv, decide_True|]. apply waits_ext; [done|done|auto|]. intros a b. unfold cnt. by rewrite He.
Qed.

(** What the operations below do to everything but the waits. *)
Record gstep (keep : Z → Prop) (s s' : graph) : Prop := {
  gs_ok : pg_ok (pgraph s');
  gs_grown : grown keep (pgraph s) (pgraph s');
  gs_vertex k : vertex_ok s k → vertex_ok s' k
}.

Lemma vertex_ok_grown s s' k : vertex_ok s k → pvertex (lk s' k) = pvertex (lk s k) →
  (length (proc (pgraph s)) ≤ length (proc (pgraph s')))%nat → vertex_ok s' k.
Proof. unfold vertex_ok. intros H -> Hl. lia. Qed.

Lemma grown_refl keep g : grown keep g g.
Proof. by split. Qed.

Lemma get_new_vertex_ok s l i slots free : pg_ok (pgraph s) → vertex_ok s l →
  0 ≤ i → slots !! Z.to_nat i = Some None →
  (∀ j p, slots !! j = Some (Some p) ↔ proc (pgraph s) !! j = Some (Some p)) → (length (proc (pgraph s)) ≤ length slots)%nat →
  (∀ p, p ∈ dom (pvs (pgraph s)) → pv_owner (pv (pgraph s) p) ≠ owner (lk s l)) →
  let (p, s') := new_vertex l i slots free s in
  vframe s s' ∧ gstep (λ _, True) s s' ∧ p ∈ dom (pvs (pgraph s')) ∧ pv_owner (pv (pgraph s') p) = owner (lk s l) ∧
  ∀ o1 o2, waits (pgraph s') o1 o2 = waits (pgraph s) o1 o2.
Proof.
  intros Hok Hvx Hi Hslot Hslots Hlen Hno. unfold new_vertex.
  destruct (new_vertex_ok (pgraph s) (lk s l) i slots free Hok Hi Hslot Hslots Hlen Hno) as (Hok' & Hg & Hp & Ho & Hw).
  set (g' := ProcGraph _ _ _ _ _) in *. split; [|split; [|split; [done|split; [done|done]]]].
  - split; try done. intros k. rewrite lk_upd. case_decide; [subst; done|done].
  - split; [done|done|]. intros k Hk. unfold vertex_ok. rewrite lk_upd. simpl. rewrite length_insert. case_decide as E.
    + simpl. apply lookup_lt_Some in Hslot. lia.
    + change (lk (set_pgraph g' s) k) with (lk s k). unfold vertex_ok in Hk. lia.
Qed.

Lemma vertex_slot g d p : pg_ok g → p ∈ dom (pvs g) → pv_owner (pv g p) = owner d →
  ∀ i, find_slot (owned_by d g) i (proc g) ≠ None.
Proof.
  intros Hok Hp Ho i Hn. destruct (po_slot _ Hok p Hp) as [_ Hs]. apply list_elem_of_lookup_2 in Hs.
  apply (find_slot_none _ _ _ Hn) in Hs. assert (owned_by d g (Some p) = true) by (apply owned_by_spec; eauto). congruence.
Qed.

(** [flk_get_proc_vertex] returns the vertex of the owner of the lock. *)
Lemma flk_get_proc_vertex_ok s l : pg_ok (pgraph s) → vertex_ok s l →
  ∃ p s', flk_get_proc_vertex l s = Ret (p, s') ∧ vframe s s' ∧ gstep (λ _, True) s s' ∧
    p ∈ dom (pvs (pgraph s')) ∧ pv_owner (pv (pgraph s') p) = owner (lk s l) ∧
    ∀ o1 o2, waits (pgraph s') o1 o2 = waits (pgraph s) o1 o2.
Proof.
  intros Hok Hvx. unfold flk_get_proc_vertex. set (g := pgraph s) in *. set (d := lk s l).
  assert (∃ c, (if pvertex d =? -1 then Ret None else if pvertex d <? 0 then Fault else
      match proc g !! Z.to_nat (pvertex d) with None => Fault | Some o => Ret (if owned_by d g o then o else None) end) = Ret c ∧
      ∀ p, c = Some p → p ∈ dom (pvs g) ∧ pv_owner (pv g p) = owner d) as (c & -> & Hc).
  { destruct (Z.eqb_spec (pvertex d) (-1)) as [E|E]; [by exists None|].
    unfold vertex_ok in Hvx. fold d g in Hvx. rewrite (proj2 (Z.ltb_ge _ _)) by lia.
    destruct (proc g !! Z.to_nat (pvertex d)) as [o|] eqn:Eo; [|apply lookup_ge_None_1 in Eo; lia].
    eexists. split; [done|]. intros p. destruct (owned_by d g o) eqn:Eown; [|done]. intros ->.
    apply owned_by_spec in Eown as (q & [= <-] & Hq). by destruct (po_proc _ Hok _ _ Eo). }
  cbn [rbind]. destruct c as [p|].
  { destruct (Hc p) as [Hp Ho]; [done|]. exists p, s. split; [done|]. split; [apply vframe_refl|].
    split; [split; [done|apply grown_refl|done]|done]. }
  clear Hc. destruct (find_slot (owned_by d g) 0 (proc g)) as [[i o]|] eqn:Ef; cbv zeta.
  - destruct (find_slot_some _ _ _ _ _ Ef) as (Hi & Hlk & Hown). rewrite Z.sub_0_r in Hlk.
    apply owned_by_spec in Hown as (p & -> & Ho). destruct (po_proc _ Hok _ _ Hlk) as [Hp Hx].
    exists p. eexists. split; [done|]. unfold pgupd. fold g.
    assert (set_pv_index i (pv g p) = pv g p) as Hsame by (unfold set_pv_index; replace i with (pv_index (pv g p)) by lia; by destruct (pv g p)).
    assert (updv p (set_pv_index i) g = g) as Hupd.
    { unfold updv. rewrite Hsame, insert_id by by apply pv_lookup. by destruct g. }
    rewrite Hupd. split; [|split; [|done]].
    + split; try done. intros k. rewrite lk_upd. case_decide; [by subst|done].
    + split; [done|apply grown_refl|]. intros k Hk. unfold vertex_ok in *. rewrite lk_upd. change (proc (pgraph (upd l _ _))) with (proc g).
      case_decide; [simpl; lia|done].
  - assert (∀ p, p ∈ dom (pvs g) → pv_owner (pv g p) ≠ owner d) as Hno.
    { intros p Hp Ho. by apply (vertex_slot g d p Hok Hp Ho 0). }
    pose proof (get_new_vertex_ok s l (zlen (proc g)) (proc g ++ replicate PROC_CHUNK None)
      (p_free g + (Z.of_nat PROC_CHUNK - 1)) Hok Hvx ltac:(lia)) as Hgrow.
    assert (∀ j p, (proc g ++ replicate PROC_CHUNK None) !! j = Some (Some p) ↔ proc g !! j = Some (Some p)) as Hsl.
    { intros j p. rewrite lookup_app. destruct (proc g !! j) eqn:E; [done|]. split; [|done]. by intros [? _]%lookup_replicate. }
    assert ((proc g ++ replicate PROC_CHUNK None) !! Z.to_nat (zlen (proc g)) = Some None) as Hfree.
    { rewrite Nat2Z.id, lookup_app_r, Nat.sub_diag by done. done. }
    specialize (Hgrow Hfree Hsl ltac:(rewrite length_app; fold g; lia) Hno).
    destruct (new_vertex l (zlen (proc g)) (proc g ++ replicate PROC_CHUNK None) (p_free g + (Z.of_nat PROC_CHUNK - 1)) s) as [p1 s1] eqn:E1.
    destruct (p_free g =? 0); [exists p1, s1; split; [done|exact Hgrow]|].
    destruct (find_slot (λ o, bool_decide (o = None)) 0 (proc g)) as [[i o]|] eqn:Ef'; [|by exists p1, s1].
    destruct (find_slot_some _ _ _ _ _ Ef') as (Hi & Hlk & ->%bool_decide_eq_true). rewrite Z.sub_0_r in Hlk.
    pose proof (get_new_vertex_ok s l i (proc g) (p_free g - 1) Hok Hvx ltac:(lia) Hlk ltac:(done) ltac:(done) Hno) as Hnew.
    destruct (new_vertex l i (proc g) (p_free g - 1) s) as [p2 s2]. exists p2, s2; split; [done|exact Hnew].
Qed.
