(* ===== verification/FlockDeadlock.v ===== *)
(** * The search for deadlocks ([flk_check_deadlock] of [uts/common/os/flock.c])

    A request that would sleep is refused when, with its edges, the owners would wait for
    one another in a circle; then the edges go again, and the waits are what they were. *)

From stdpp Require Import relations.
From S2P Require Import Prelude Flock FlockProc FlockWait.

(** How often a pair of owners is in a list of edges. *)
Fixpoint tally (es : list ((Z * Z) * (Z * Z))) (o1 o2 : Z * Z) : Z :=
  match es with [] => 0 | e :: es => one e.1 e.2 o1 o2 + tally es o1 o2 end.
Definition outs (so : Z * Z) (ow : Z → Z * Z) (ls : list Z) : list ((Z * Z) * (Z * Z)) := (λ t, (so, ow t)) <$> ls.
Definition ins (so : Z * Z) (ow : Z → Z * Z) (ls : list Z) : list ((Z * Z) * (Z * Z)) := (λ t, (ow t, so)) <$> ls.

Lemma one_nonneg {A} `{EqDecision A} (p q a b : A) : 0 ≤ one p q a b.
Proof. unfold one. case_decide; lia. Qed.
Lemma tally_nonneg es o1 o2 : 0 ≤ tally es o1 o2.
Proof. induction es as [|e es IH]; simpl; [lia|]. pose proof (one_nonneg e.1 e.2 o1 o2). lia. Qed.
Lemma tally_app es1 es2 o1 o2 : tally (es1 ++ es2) o1 o2 = tally es1 o1 o2 + tally es2 o1 o2.
Proof. induction es1 as [|e es IH]; simpl; lia. Qed.
Lemma tally_pos es o1 o2 : 0 < tally es o1 o2 → (o1, o2) ∈ es.
Proof.
  induction es as [|[a b] es IH]; simpl; [lia|]. unfold one. case_decide as E.
  - destruct E as [-> ->]. intros _. by left.
  - intros H. right. apply IH. lia.
Qed.

(** The vertex [start] of the owner [so], in a graph that is well formed. *)
Definition at_vertex (start : Z) (so : Z * Z) (s : graph) : Prop :=
  pg_ok (pgraph s) ∧ start ∈ dom (pvs (pgraph s)) ∧ pv_owner (pv (pgraph s) start) = so.

Lemma at_vertex_step (keep : Z → Prop) start so s s' : at_vertex start so s → gstep keep s s' → keep start → at_vertex start so s'.
Proof.
  intros (Hok & Hin & Ho) [Hok' [Hk Hgo _] _] Hst. split; [done|]. split; [by apply Hk|]. rewrite Hgo; [done|done|by apply Hk].
Qed.

(** The vertex of a lock, next to one that is there. *)
Lemma get_vertex_beside s l start so : at_vertex start so s → vertex_ok s l →
  ∃ p s', flk_get_proc_vertex l s = Ret (p, s') ∧ vframe s s' ∧ at_vertex start so s' ∧
    p ∈ dom (pvs (pgraph s')) ∧ pv_owner (pv (pgraph s') p) = owner (lk s l) ∧
    (∀ k, vertex_ok s k → vertex_ok s' k) ∧ ∀ o1 o2, waits (pgraph s') o1 o2 = waits (pgraph s) o1 o2.
Proof.
  intros Hat Hvx. destruct (flk_get_proc_vertex_ok s l (proj1 Hat) Hvx) as (p & s' & Hr & Hf & Hg & Hp & Ho & Hw).
  exists p, s'. split_and!; try done; [by eapply at_vertex_step|apply (gs_vertex _ _ _ Hg)].
Qed.

Lemma set_pgraph_vertex s g k : vertex_ok s k → (length (proc (pgraph s)) ≤ length (proc g))%nat → vertex_ok (set_pgraph g s) k.
Proof. intros H Hl. apply (vertex_ok_grown s); [done|done|done]. Qed.

Lemma vframe_pgraph s g : vframe s (set_pgraph g s).
Proof. by split. Qed.

Lemma vframe_owner s s' l : vframe s s' → owner (lk s' l) = owner (lk s l).
Proof. intros H. apply bare_owner, H. Qed.

Section Edges.
Context (start : Z) (so : Z * Z) (ow : Z → Z * Z).

(** The locks at the other end: of other owners, with vertices that are in the table. *)
Definition ends (s : graph) (ls : list Z) : Prop :=
  ∀ t, t ∈ ls → vertex_ok s t ∧ owner (lk s t) = ow t ∧ ow t ≠ so.

Lemma ends_cons s t ls : ends s (t :: ls) ↔ (vertex_ok s t ∧ owner (lk s t) = ow t ∧ ow t ≠ so) ∧ ends s ls.
Proof. unfold ends. setoid_rewrite elem_of_cons. split; [auto 10|]. intros [H1 H2] u [->|Hu]; auto. Qed.

Lemma ends_frame s s' ls : (∀ l, owner (lk s' l) = owner (lk s l)) → (∀ k, vertex_ok s k → vertex_ok s' k) → ends s ls → ends s' ls.
Proof. intros Hf Hv H t Ht. destruct (H t Ht) as (H1 & H2 & H3). rewrite Hf. auto. Qed.

(** What adding the edges of one direction does. *)
Definition adds (go : graph → run graph) (es : list ((Z * Z) * (Z * Z))) (s : graph) : Prop :=
  ∃ s', go s = Ret s' ∧ vframe s s' ∧ at_vertex start so s' ∧ (∀ k, vertex_ok s k → vertex_ok s' k) ∧
    ∀ o1 o2, waits (pgraph s') o1 o2 = waits (pgraph s) o1 o2 + tally es o1 o2.

Lemma adds_step s s1 g go es e : vframe s s1 → (∀ k, vertex_ok s k → vertex_ok s1 k) →
  grown (λ _, True) (pgraph s1) g →
  (∀ o1 o2, waits g o1 o2 = waits (pgraph s) o1 o2 + one e.1 e.2 o1 o2) →
  adds go es (set_pgraph g s1) → adds (λ _, go (set_pgraph g s1)) (e :: es) s.
Proof.
  intros Hf Hv Hg Hw (s' & Hr & Hf' & Hat & Hv' & Hw'). exists s'. split; [done|]. split; [|split; [done|split]].
  - eapply vframe_trans; [exact Hf|]. eapply vframe_trans; [apply (vframe_pgraph s1 g)|done].
  - intros k Hk. apply Hv', set_pgraph_vertex; [by apply Hv|]. by destruct Hg.
  - intros o1 o2. rewrite Hw'. simpl. rewrite Hw. lia.
Qed.

Lemma at_vertex_add s p q : at_vertex start so s → p ∈ dom (pvs (pgraph s)) → q ∈ dom (pvs (pgraph s)) → p ≠ q →
  at_vertex start so (set_pgraph (add_proc_edge p q (pgraph s)) s).
Proof.
  intros Hat Hp Hq Hne. destruct (add_proc_edge_waits _ p q (proj1 Hat) Hp Hq Hne) as (Hok' & [Hk Hgo _] & _).
  destruct Hat as (_ & Hin & Ho). split; [done|]. split; [by apply Hk|]. simpl. rewrite Hgo; [done|done|by apply Hk].
Qed.

Lemma out_proc_edges_ok ls : ∀ s, at_vertex start so s → ends s ls → adds (out_proc_edges start ls) (outs so ow ls) s.
Proof.
  induction ls as [|t ls IH]; intros s Hat He.
  - exists s. split_and!; auto using vframe_refl. intros. simpl. lia.
  - apply ends_cons in He as [(Hv & Ho & Hne) He].
    destruct (get_vertex_beside s t start so Hat Hv) as (p & s1 & Hr & Hf & Hat1 & Hp & Hpo & Hv1 & Hw).
    pose proof Hat1 as (Hok1 & Hin1 & Hso). assert (start ≠ p) as Hsp by (intros ->; congruence).
    destruct (add_proc_edge_waits _ start p Hok1 Hin1 Hp Hsp) as (_ & Hg & _ & Hw1).
    eapply (adds_step s s1 (add_proc_edge start p (pgraph s1)) (out_proc_edges start ls) (outs so ow ls) (so, ow t)) in Hv1 as Ha; [|done|done| |].
    + destruct Ha as (s' & Hr' & Ha). exists s'. split; [|exact Ha]. simpl. rewrite Hr. exact Hr'.
    + intros o1 o2. rewrite Hw1, Hw. simpl. by rewrite Hso, Hpo, Ho.
    + apply IH; [by apply at_vertex_add|]. apply (ends_frame s); [intros l; exact (vframe_owner s s1 l Hf)| |done].
      intros k Hk. apply set_pgraph_vertex; [by apply Hv1|by destruct Hg].
Qed.

Lemma in_proc_edges_ok ls : ∀ s, at_vertex start so s → ends s ls → adds (in_proc_edges start ls) (ins so ow ls) s.
Proof.
  induction ls as [|t ls IH]; intros s Hat He.
  - exists s. split_and!; auto using vframe_refl. intros. simpl. lia.
  - apply ends_cons in He as [(Hv & Ho & Hne) He].
    destruct (get_vertex_beside s t start so Hat Hv) as (p & s1 & Hr & Hf & Hat1 & Hp & Hpo & Hv1 & Hw).
    pose proof Hat1 as (Hok1 & Hin1 & Hso). assert (p ≠ start) as Hsp by (intros ->; congruence).
    destruct (add_proc_edge_waits _ p start Hok1 Hp Hin1 Hsp) as (_ & Hg & _ & Hw1).
    eapply (adds_step s s1 (add_proc_edge p start (pgraph s1)) (in_proc_edges start ls) (ins so ow ls) (ow t, so)) in Hv1 as Ha; [|done|done| |].
    + destruct Ha as (s' & Hr' & Ha). exists s'. split; [|exact Ha]. simpl. rewrite Hr. exact Hr'.
    + intros o1 o2. rewrite Hw1, Hw. simpl. by rewrite Hso, Hpo, Ho.
    + apply IH; [by apply at_vertex_add|]. apply (ends_frame s); [intros l; exact (vframe_owner s s1 l Hf)| |done].
      intros k Hk. apply set_pgraph_vertex; [by apply Hv1|by destruct Hg].
Qed.
End Edges.

(** ** Edges taken back *)

Definition cut (from to : Z) (s : graph) : graph := ADJ_LIST_REMOVE from to (IN_LIST_REMOVE from to s).
Definition cut_all (es : list (Z * Z)) (s : graph) : graph := foldl (λ s e, cut e.1 e.2 s) s es.

Lemma upd_vframe l f s s' : (∀ d d', bare d = bare d' → bare (f d) = bare (f d')) → vframe s s' → vframe (upd l f s) (upd l f s').
Proof.
  intros Hf [H1 ??????]. split; try done. intros k. rewrite !lk_upd. case_decide; [by apply Hf|apply H1].
Qed.

Lemma cut_vframe a b s s' : vframe s s' → vframe (cut a b s) (cut a b s').
Proof.
  intros H. apply upd_vframe; [|apply upd_vframe; [|done]].
  - intros [] [] E. unfold bare in *. simpl in *. injection E as -> -> -> -> -> -> -> -> -> -> ->. done.
  - intros [] [] E. unfold bare in *. simpl in *. injection E as -> -> -> -> -> -> -> -> -> -> ->. done.
Qed.

Lemma cut_all_vframe es : ∀ s s', vframe s s' → vframe (cut_all es s) (cut_all es s').
Proof. induction es as [|[a b] es IH]; intros s s' H; [done|]. apply IH. by apply cut_vframe. Qed.

(** Locks agree on all but their edges. *)
Definition edgeless (d : lockd) : lockd := set_l_in [] (set_l_adj [] d).
Lemma cut_edgeless a b s l : edgeless (lk (cut a b s) l) = edgeless (lk s l).
Proof. unfold cut, ADJ_LIST_REMOVE, IN_LIST_REMOVE. rewrite !lk_upd. repeat case_decide; by subst. Qed.

Lemma cut_owner a b s l : owner (lk (cut a b s) l) = owner (lk s l).
Proof. change (owner (edgeless (lk (cut a b s) l)) = owner (edgeless (lk s l))). by rewrite cut_edgeless. Qed.
Lemma cut_vertex a b s k : vertex_ok s k → vertex_ok (cut a b s) k.
Proof.
  intros H. unfold vertex_ok. change (pvertex (lk (cut a b s) k)) with (pvertex (edgeless (lk (cut a b s) k))).
  by rewrite cut_edgeless.
Qed.

Section Undo.
Context (start : Z) (so : Z * Z) (ow : Z → Z * Z).

(** What taking edges back does: the lists lose them, and the owners wait less. *)
Definition takes (go : graph → run graph) (cuts : list (Z * Z)) (es : list ((Z * Z) * (Z * Z))) (s : graph) : Prop :=
  ∃ s', go s = Ret s' ∧ vframe (cut_all cuts s) s' ∧ at_vertex start so s' ∧ (∀ k, vertex_ok s k → vertex_ok s' k) ∧
    ∀ o1 o2, waits (pgraph s') o1 o2 = waits (pgraph s) o1 o2 - tally es o1 o2.

Lemma takes_step s s1 g go cuts es c e : vframe s s1 → (∀ k, vertex_ok s k → vertex_ok s1 k) →
  (length (proc (pgraph s1)) ≤ length (proc g))%nat →
  (∀ o1 o2, waits g o1 o2 = waits (pgraph s) o1 o2 - one e.1 e.2 o1 o2) →
  takes go cuts es (set_pgraph g (cut c.1 c.2 s1)) →
  takes (λ _, go (set_pgraph g (cut c.1 c.2 s1))) (c :: cuts) (e :: es) s.
Proof.
  intros Hf Hv Hl Hw (s' & Hr & Hf' & Hat & Hv' & Hw'). exists s'. split; [done|]. split; [|split; [done|split]].
  - eapply vframe_trans; [|exact Hf']. apply (cut_all_vframe cuts (cut c.1 c.2 s)).
    eapply vframe_trans; [by apply cut_vframe|]. apply vframe_pgraph.
  - intros k Hk. apply Hv', set_pgraph_vertex; [by apply cut_vertex, Hv|done].
  - intros o1 o2. rewrite Hw'. simpl. rewrite Hw. lia.
Qed.

Lemma at_vertex_del s a b q g : at_vertex start so s → pg_ok g → grown (.≠ q) (pgraph s) g → start ≠ q →
  at_vertex start so (set_pgraph g (cut a b s)).
Proof.
  intros (Hok & Hin & Ho) Hok' [Hk Hgo _] Hne. split; [done|]. split; [by apply Hk|]. simpl. rewrite Hgo; [done|done|by apply Hk].
Qed.

Lemma ends_after s s1 g a b ls : vframe s s1 → (∀ k, vertex_ok s k → vertex_ok s1 k) →
  (length (proc (pgraph s1)) ≤ length (proc g))%nat → ends so ow s ls → ends so ow (set_pgraph g (cut a b s1)) ls.
Proof.
  intros Hf Hv Hl He. apply (ends_frame _ _ s); [| |done].
  - intros l. change (owner (lk (cut a b s1) l) = owner (lk s l)). rewrite cut_owner. by apply vframe_owner.
  - intros k Hk. apply set_pgraph_vertex; [by apply cut_vertex, Hv|done].
Qed.

Lemma undo_out_ok lock ls : ∀ s, at_vertex start so s → ends so ow s ls →
  (∀ o1 o2, tally (outs so ow ls) o1 o2 ≤ waits (pgraph s) o1 o2) →
  takes (undo_out lock start ls) (pair lock <$> ls) (outs so ow ls) s.
Proof.
  induction ls as [|t ls IH]; intros s Hat He Hle.
  - exists s. split_and!; auto using vframe_refl. intros. simpl. lia.
  - apply ends_cons in He as [(Hv & Ho & Hne) He].
    destruct (get_vertex_beside s t start so Hat Hv) as (p & s1 & Hr & Hf & Hat1 & Hp & Hpo & Hv1 & Hw).
    pose proof Hat1 as (Hok1 & Hin1 & Hso). assert (start ≠ p) as Hsp by (intros ->; congruence).
    assert (edge (pgraph s1) start p) as Hed.
    { apply cnt_edge; [done|]. rewrite <-(waits_at _ start p) by done. rewrite Hso, Hpo, Ho, Hw.
      specialize (Hle so (ow t)). simpl in Hle. unfold one in Hle at 1. rewrite decide_True in Hle by done.
      pose proof (tally_nonneg (outs so ow ls) so (ow t)). lia. }
    destruct (del_proc_edge_waits _ start p p Hok1 Hed Hp) as (g & Hd & Hokg & Hg & _ & Hw1).
    destruct (takes_step s s1 g (undo_out lock start ls) (pair lock <$> ls) (outs so ow ls) (lock, t) (so, ow t)) as (s' & Hr' & Ht); [done|done|by destruct Hg| | |].
    + intros o1 o2. rewrite Hw1, Hw. simpl. by rewrite Hso, Hpo, Ho.
    + apply IH; [by apply (at_vertex_del _ _ _ p)|by apply (ends_after s); [| |destruct Hg|]|].
      intros o1 o2. simpl. rewrite Hw1, Hw, Hso, Hpo, Ho. specialize (Hle o1 o2). simpl in Hle. lia.
    + exists s'. split; [|exact Ht]. simpl. rewrite Hr. simpl. unfold cut in Hr'. simpl in Hr'. by rewrite Hd.
Qed.

Lemma undo_in_ok lock ls : ∀ s, at_vertex start so s → ends so ow s ls →
  (∀ o1 o2, tally (ins so ow ls) o1 o2 ≤ waits (pgraph s) o1 o2) →
  takes (undo_in lock start ls) ((λ t, (t, lock)) <$> ls) (ins so ow ls) s.
Proof.
  induction ls as [|t ls IH]; intros s Hat He Hle.
  - exists s. split_and!; auto using vframe_refl. intros. simpl. lia.
  - apply ends_cons in He as [(Hv & Ho & Hne) He].
    destruct (get_vertex_beside s t start so Hat Hv) as (p & s1 & Hr & Hf & Hat1 & Hp & Hpo & Hv1 & Hw).
    pose proof Hat1 as (Hok1 & Hin1 & Hso). assert (start ≠ p) as Hsp by (intros ->; congruence).
    assert (edge (pgraph s1) p start) as Hed.
    { apply cnt_edge; [done|]. rewrite <-(waits_at _ p start) by done. rewrite Hpo, Hso, Ho, Hw.
      specialize (Hle (ow t) so). simpl in Hle. unfold one in Hle at 1. rewrite decide_True in Hle by done.
      pose proof (tally_nonneg (ins so ow ls) (ow t) so). lia. }
    destruct (del_proc_edge_waits _ p start p Hok1 Hed Hp) as (g & Hd & Hokg & Hg & _ & Hw1).
    destruct (takes_step s s1 g (undo_in lock start ls) ((λ t, (t, lock)) <$> ls) (ins so ow ls) (t, lock) (ow t, so)) as (s' & Hr' & Ht); [done|done|by destruct Hg| | |].
    + intros o1 o2. rewrite Hw1, Hw. simpl. by rewrite Hso, Hpo, Ho.
    + apply IH; [by apply (at_vertex_del _ _ _ p)|by apply (ends_after s); [| |destruct Hg|]|].
      intros o1 o2. simpl. rewrite Hw1, Hw, Hso, Hpo, Ho. specialize (Hle o1 o2). simpl in Hle. lia.
    + exists s'. split; [|exact Ht]. simpl. rewrite Hr. simpl. unfold cut in Hr'. simpl in Hr'. by rewrite Hd.
Qed.
End Undo.

(** ** Circles *)

Definition waiting (W : Z * Z → Z * Z → Z) : relation (Z * Z) := λ o1 o2, 0 < W o1 o2.
Definition circular (W : Z * Z → Z * Z → Z) : Prop := ∃ o, tc (waiting W) o o.

Lemma waits_tc g p q : pg_ok g → tc (edge g) p q → tc (waiting (waits g)) (pv_owner (pv g p)) (pv_owner (pv g q)).
Proof.
  intros Hok. assert (∀ a b, edge g a b → waiting (waits g) (pv_owner (pv g a)) (pv_owner (pv g b))) as Hone.
  { intros a b He. destruct (edge_dom g a b Hok He) as (Ha & Hb & _). unfold waiting. rewrite waits_at by done. by apply cnt_edge. }
  induction 1 as [a b He|a b c He _ IH]; [by apply tc_once, Hone|]. eapply tc_l; [by apply Hone|done].
Qed.

Lemma tc_waits g o1 o2 : pg_ok g → tc (waiting (waits g)) o1 o2 →
  ∃ p q, p ∈ dom (pvs g) ∧ q ∈ dom (pvs g) ∧ pv_owner (pv g p) = o1 ∧ pv_owner (pv g q) = o2 ∧ tc (edge g) p q.
Proof.
  intros Hok. induction 1 as [o1 o2 Hw|o1 o o2 Hw _ (p' & q & Hp' & Hq & Ho & Ho2 & Ht)];
    destruct (waits_pos g _ _ Hok Hw) as (p & m & He & Hp & Hm); destruct (edge_dom g p m Hok He) as (Hpd & Hmd & _).
  - exists p, m. split_and!; try done. by apply tc_once.
  - assert (m = p') as -> by (apply (po_owner _ Hok); [done|done|congruence]).
    exists p, q. split_and!; try done. by eapply tc_l.
Qed.

Lemma circular_edges g : pg_ok g → circular (waits g) ↔ ∃ p, tc (edge g) p p.
Proof.
  intros Hok. split.
  - intros (o & (p & q & Hp & Hq & Ho & Ho' & Ht)%tc_waits); [|done]. exists p.
    by assert (q = p) as -> by (apply (po_owner _ Hok); [done|done|congruence]).
  - intros (p & Hp%waits_tc); [|done]. by eexists.
Qed.

(** A path that has got new goes through the vertex that all the new edges are at. *)
Lemma tc_through {A} (R R' : relation A) st x y : (∀ a b, R' a b → R a b ∨ a = st ∨ b = st) →
  tc R' x y → tc R x y ∨ (rtc R' x st ∧ rtc R' st y).
Proof.
  intros HR. induction 1 as [x y Hxy|x y z Hxy Hyz [IH|[IH1 IH2]]].
  - destruct (HR _ _ Hxy) as [?|[->| ->]]; [left; by apply tc_once|right; split; [done|by apply rtc_once]|right; split; [by apply rtc_once|done]].
  - destruct (HR _ _ Hxy) as [?|[->| ->]]; [left; by eapply tc_l| |].
    + right. split; [done|]. eapply rtc_l; [done|by apply tc_rtc].
    + right. split; [by apply rtc_once|by apply tc_rtc].
  - right. split; [by eapply rtc_l|done].
Qed.

Lemma new_circle {A} (R R' : relation A) st x : (∀ a b, R' a b → R a b ∨ a = st ∨ b = st) → ¬ tc R x x →
  tc R' x x → tc R' st st.
Proof.
  intros HR Hn Ht. destruct (tc_through R R' st x x HR Ht) as [?|[H1 H2]]; [done|].
  eapply tc_rtc_l; [exact H2|]. by eapply tc_rtc_r.
Qed.

(** The edges of a lock, from owner to owner. *)
Definition lock_waits (s : graph) (lock : Z) : list ((Z * Z) * (Z * Z)) :=
  let so := owner (lk s lock) in
  let ow t := owner (lk s t) in
  outs so ow (l_adj (lk s lock)) ++ ins so ow (l_in (lk s lock)).
Definition waits_with (s : graph) (lock : Z) (o1 o2 : Z * Z) : Z := waits (pgraph s) o1 o2 + tally (lock_waits s lock) o1 o2.

Lemma lock_waits_at s lock a b : (a, b) ∈ lock_waits s lock → a = owner (lk s lock) ∨ b = owner (lk s lock).
Proof.
  unfold lock_waits, outs, ins. intros [H|H]%elem_of_app; apply list_elem_of_fmap in H as (t & [= -> ->] & _); auto.
Qed.

(** The only way to a new circle is through the owner of the lock. *)
Lemma circle_at_lock s lock : ¬ circular (waits (pgraph s)) → circular (waits_with s lock) →
  tc (waiting (waits_with s lock)) (owner (lk s lock)) (owner (lk s lock)).
Proof.
  intros Hn (o & Ho). eapply (new_circle (waiting (waits (pgraph s)))); [|intros Hc; apply Hn; by exists o|exact Ho].
  intros a b. unfold waiting, waits_with. intros Hab. destruct (decide (0 < waits (pgraph s) a b)); [by left|].
  right. apply (lock_waits_at s lock), tally_pos. lia.
Qed.

(** The edges of a lock that have gone from its own lists. *)
Lemma cut_out_lists lock ls : ∀ s, lock ∉ ls →
  l_in (lk (cut_all (pair lock <$> ls) s) lock) = l_in (lk s lock) ∧
  (l_adj (lk s lock) = ls → l_adj (lk (cut_all (pair lock <$> ls) s) lock) = []).
Proof.
  induction ls as [|t ls IH]; intros s Hl; [done|]. apply not_elem_of_cons in Hl as [Ht Hl].
  destruct (IH (cut lock t s) Hl) as [H1 H2]. change (cut_all (pair lock <$> t :: ls) s) with (cut_all (pair lock <$> ls) (cut lock t s)).
  assert (lk (cut lock t s) lock = set_l_adj (remove_one t (l_adj (lk s lock))) (lk s lock)) as E.
  { unfold cut, ADJ_LIST_REMOVE, IN_LIST_REMOVE. rewrite !lk_upd. by rewrite decide_True, decide_False by done. }
  rewrite E in H1, H2. split; [done|]. intros Hs. apply H2. simpl. rewrite Hs. simpl. by rewrite Z.eqb_refl.
Qed.
Lemma cut_in_lists lock ls : ∀ s, lock ∉ ls →
  l_adj (lk (cut_all ((λ t, (t, lock)) <$> ls) s) lock) = l_adj (lk s lock) ∧
  (l_in (lk s lock) = ls → l_in (lk (cut_all ((λ t, (t, lock)) <$> ls) s) lock) = []).
Proof.
  induction ls as [|t ls IH]; intros s Hl; [done|]. apply not_elem_of_cons in Hl as [Ht Hl].
  destruct (IH (cut t lock s) Hl) as [H1 H2]. change (cut_all ((λ t, (t, lock)) <$> t :: ls) s) with (cut_all ((λ t, (t, lock)) <$> ls) (cut t lock s)).
  assert (lk (cut t lock s) lock = set_l_in (remove_one t (l_in (lk s lock))) (lk s lock)) as E.
  { unfold cut, ADJ_LIST_REMOVE, IN_LIST_REMOVE. rewrite !lk_upd. by rewrite decide_False, decide_True by done. }
  rewrite E in H1, H2. split; [done|]. intros Hs. apply H2. simpl. rewrite Hs. simpl. by rewrite Z.eqb_refl.
Qed.

(** ** The three parts of [flk_check_deadlock] *)

(** The locks that a lock has edges with. *)
Definition beside (s : graph) (lock : Z) : Prop :=
  ∀ t, t ∈ l_adj (lk s lock) ∨ t ∈ l_in (lk s lock) → vertex_ok s t ∧ owner (lk s t) ≠ owner (lk s lock).

Lemma beside_ends s lock : beside s lock → let ow t := owner (lk s t) in
  ends (owner (lk s lock)) ow s (l_adj (lk s lock)) ∧ ends (owner (lk s lock)) ow s (l_in (lk s lock)).
Proof. intros Hb. split; intros t Ht; destruct (Hb t) as [Hv Hne]; auto. Qed.

Lemma vframe_edges s s' l : vframe s s' → l_adj (lk s' l) = l_adj (lk s l) ∧ l_in (lk s' l) = l_in (lk s l).
Proof.
  intros H. pose proof (vf_lk _ _ H l) as E. change (l_adj (lk s' l)) with (l_adj (bare (lk s' l))).
  change (l_in (lk s' l)) with (l_in (bare (lk s' l))). by rewrite E.
Qed.

Lemma beside_frame s s' lock : vframe s s' → (∀ k, vertex_ok s k → vertex_ok s' k) → beside s lock → beside s' lock.
Proof.
  intros Hf Hv Hb t. destruct (vframe_edges s s' lock Hf) as [-> ->]. intros Ht. destruct (Hb t Ht) as [H1 H2].
  rewrite !(vframe_owner s s') by done. auto.
Qed.

Lemma lock_waits_frame s s' lock : vframe s s' → lock_waits s' lock = lock_waits s lock.
Proof.
  intros Hf. unfold lock_waits. destruct (vframe_edges s s' lock Hf) as [-> ->]. rewrite (vframe_owner s s') by done.
  unfold outs, ins. f_equal; apply list_fmap_ext; intros i t _; by rewrite (vframe_owner s s').
Qed.

Lemma check_adds s lock : pg_ok (pgraph s) → vertex_ok s lock → beside s lock →
  ∃ start s0 s1 s2, flk_get_proc_vertex lock s = Ret (start, s0) ∧ out_proc_edges start (l_adj (lk s0 lock)) s0 = Ret s1 ∧
    in_proc_edges start (l_in (lk s1 lock)) s1 = Ret s2 ∧ vframe s s2 ∧ at_vertex start (owner (lk s lock)) s2 ∧
    (∀ k, vertex_ok s k → vertex_ok s2 k) ∧ ∀ o1 o2, waits (pgraph s2) o1 o2 = waits_with s lock o1 o2.
Proof.
  intros Hok Hv Hb. destruct (flk_get_proc_vertex_ok s lock Hok Hv) as (start & s0 & Hr & Hf & Hg & Hp & Ho & Hw).
  assert (at_vertex start (owner (lk s lock)) s0) as Hat by (split; [by destruct Hg|done]).
  pose proof (gs_vertex _ _ _ Hg) as Hv0.
  destruct (beside_ends s lock Hb) as [Ha Hi]. set (ow t := owner (lk s t)) in *. set (so := owner (lk s lock)) in *.
  destruct (vframe_edges s s0 lock Hf) as [Ea Ei].
  assert (∀ l, owner (lk s0 l) = owner (lk s l)) as Ho0 by (intros; by apply vframe_owner).
  destruct (out_proc_edges_ok start so ow (l_adj (lk s lock)) s0 Hat) as (s1 & Hr1 & Hf1 & Hat1 & Hv1 & Hw1); [by apply (ends_frame _ _ s)|].
  assert (∀ l, owner (lk s1 l) = owner (lk s l)) as Ho1 by (intros; rewrite <-Ho0; by apply vframe_owner).
  destruct (in_proc_edges_ok start so ow (l_in (lk s lock)) s1 Hat1) as (s2 & Hr2 & Hf2 & Hat2 & Hv2 & Hw2); [apply (ends_frame _ _ s); auto|].
  exists start, s0, s1, s2. destruct (vframe_edges s0 s1 lock Hf1) as [Ea1 Ei1]. rewrite Ea, Ei1, Ei. split_and!; try done; [|auto|].
  - eapply vframe_trans; [exact Hf|]. by eapply vframe_trans.
  - intros o1 o2. unfold waits_with, lock_waits. rewrite tally_app, Hw2, Hw1, Hw. fold ow so. lia.
Qed.

(** Without an edge into the vertex, or with a search that has found nothing, no circle is new. *)
Lemma no_circle s start so : at_vertex start so s → ¬ tc (edge (pgraph s)) start start →
  ¬ tc (waiting (waits (pgraph s))) so so.
Proof.
  intros (Hok & Hin & Ho) Hn (p & q & Hp & Hq & Hpo & Hqo & Ht)%tc_waits; [|done].
  assert (p = start) as -> by (apply (po_owner _ Hok); [done|done|congruence]).
  assert (q = start) as -> by (apply (po_owner _ Hok); [done|done|congruence]). done.
Qed.

Lemma incount_zero g p : pg_ok g → p ∈ dom (pvs g) → incount (pv g p) = 0 → ∀ q, ¬ edge g q p.
Proof.
  intros Hok Hp Hz q He. destruct (po_in _ Hok p Hp) as (X & HX & Hc). apply HX in He.
  assert (size X ≠ 0%nat) by (intros HX0%size_empty_inv; set_solver). lia.
Qed.

Lemma tc_last {A} (R : relation A) x y : tc R x y → ∃ z, R z y.
Proof. induction 1 as [x y H|x y z H _ IH]; [by eexists|done]. Qed.

Lemma sn_no_cycle {A} (R : relation A) x : sn R x → ¬ tc R x x.
Proof.
  induction 1 as [x _ IH]. intros Hxx. inversion Hxx as [? ? Hr|? z ? Hr Hz]; subst.
  - by apply (IH x Hr).
  - apply (IH z Hr). by eapply tc_r.
Qed.

Definition undo_edges (lock start : Z) (s : graph) : run (bool * graph) :=
  let* s := undo_out lock start (l_adj (lk s lock)) s in
  let* s := undo_in lock start (l_in (lk s lock)) s in
  let* g := flk_proc_release start (pgraph s) in
  Ret (true, set_pgraph g s).

(** The state when the edges of the lock have gone from the lists. *)
Definition isolate (lock : Z) (s : graph) : graph :=
  cut_all ((λ t, (t, lock)) <$> l_in (lk s lock)) (cut_all (pair lock <$> l_adj (lk s lock)) s).

Lemma undo_edges_ok s lock start : at_vertex start (owner (lk s lock)) s → beside s lock →
  (∀ o1 o2, tally (lock_waits s lock) o1 o2 ≤ waits (pgraph s) o1 o2) →
  ∃ s', undo_edges lock start s = Ret (true, s') ∧ pg_ok (pgraph s') ∧ vframe (isolate lock s) s' ∧
    (∀ k, vertex_ok s k → vertex_ok s' k) ∧
    (∀ o1 o2, waits (pgraph s') o1 o2 = waits (pgraph s) o1 o2 - tally (lock_waits s lock) o1 o2).
Proof.
  intros Hat Hb Hle. destruct (beside_ends s lock Hb) as [Ha Hi]. unfold lock_waits in *.
  set (ow t := owner (lk s t)) in *. set (so := owner (lk s lock)) in *.
  assert (lock ∉ l_adj (lk s lock)) as Hna by (intros H; destruct (Hb lock) as [_ []]; [by left|done]).
  destruct (undo_out_ok start so ow lock (l_adj (lk s lock)) s Hat Ha) as (s1 & Hr1 & Hf1 & Hat1 & Hv1 & Hw1).
  { intros o1 o2. specialize (Hle o1 o2). rewrite tally_app in Hle. pose proof (tally_nonneg (ins so ow (l_in (lk s lock))) o1 o2). lia. }
  assert (l_in (lk s1 lock) = l_in (lk s lock)) as Hin1.
  { destruct (vframe_edges _ _ lock Hf1) as [_ ->]. by apply cut_out_lists. }
  destruct (undo_in_ok start so ow lock (l_in (lk s lock)) s1 Hat1) as (s2 & Hr2 & Hf2 & Hat2 & Hv2 & Hw2).
  { intros t Ht. destruct (Hi t Ht) as (H1 & H2 & H3). split; [auto|]. split; [|done]. rewrite <-H2.
    rewrite (vframe_owner _ _ t Hf1). generalize (pair lock <$> l_adj (lk s lock)). intros es. generalize s.
    induction es as [|[a b] es IH]; intros s'; [done|]. simpl. rewrite IH. apply cut_owner. }
  { intros o1 o2. rewrite Hw1. specialize (Hle o1 o2). rewrite tally_app in Hle. lia. }
  destruct Hat2 as (Hok2 & Hin2 & _). destruct (flk_proc_release_waits (pgraph s2) start Hok2 Hin2) as (g & Hr3 & Hok3 & [_ _ Hl] & _ & Hw3).
  exists (set_pgraph g s2). unfold undo_edges. rewrite Hr1. cbn [rbind]. rewrite Hin1, Hr2. cbn [rbind]. rewrite Hr3.
  split_and!; [done|done| | |].
  - eapply vframe_trans; [|apply vframe_pgraph]. eapply vframe_trans; [|exact Hf2]. by apply cut_all_vframe.
  - intros k Hk. apply set_pgraph_vertex; [auto|done].
  - intros o1 o2. simpl. rewrite Hw3, Hw2, Hw1, tally_app. lia.
Qed.

Lemma isolate_lists s lock : beside s lock →
  l_adj (lk (isolate lock s) lock) = [] ∧ l_in (lk (isolate lock s) lock) = [].
Proof.
  intros Hb. assert (lock ∉ l_adj (lk s lock)) as Hna by (intros H; destruct (Hb lock) as [_ []]; [by left|done]).
  assert (lock ∉ l_in (lk s lock)) as Hni by (intros H; destruct (Hb lock) as [_ []]; [by right|done]).
  destruct (cut_out_lists lock (l_adj (lk s lock)) s Hna) as [H1 H2].
  destruct (cut_in_lists lock (l_in (lk s lock)) (cut_all (pair lock <$> l_adj (lk s lock)) s) Hni) as [H3 H4].
  unfold isolate. rewrite H3, H4 by done. split; [by apply H2|done].
Qed.

(** The search on the graph with the edges in it. *)
Lemma search_circular s lock start : at_vertex start (owner (lk s lock)) s →
  let g := flk_proc_graph_uncolor (pgraph s) in
  let g1 := updv start (λ v, set_p_sedge (pv_edge v) v) g in
  ∃ b g', deadlock_search (search_fuel g1) [start] g1 = Ret (b, g') ∧ at_vertex start (owner (lk s lock)) (set_pgraph g' s) ∧
    (∀ k, vertex_ok s k → vertex_ok (set_pgraph g' s) k) ∧
    (∀ o1 o2, waits g' o1 o2 = waits (pgraph s) o1 o2) ∧
    if b then circular (waits (pgraph s)) else ¬ tc (edge (pgraph s)) start start.
Proof.
  intros (Hok & Hin & Ho) g g1. destruct (flk_proc_graph_uncolor_ok (pgraph s) Hok) as (Hok1 & Hs1 & Hfresh). fold g in Hok1, Hs1, Hfresh.
  destruct (search_from_ok g start Hok1) as (b & g' & Hr & Hok' & Hs' & Hb); [by rewrite (ss_dom _ _ Hs1)|done|].
  exists b, g'. split; [done|]. split; [|split; [|split]].
  - split; [done|]. simpl. rewrite (ss_dom _ _ Hs'), (ss_dom _ _ Hs1). split; [done|].
    destruct (same_shape_fields g g' start Hs') as [-> _]. by destruct (same_shape_fields (pgraph s) g start Hs1) as [-> _].
  - intros k Hk. apply set_pgraph_vertex; [done|]. by rewrite (ss_proc _ _ Hs'), (ss_proc _ _ Hs1).
  - intros o1 o2. rewrite (waits_shape g g') by done. by apply waits_shape.
  - destruct b.
    + apply circular_edges; [done|]. destruct Hb as (q & Hq). exists q. eapply tc_congruence with (f := id); [|exact Hq].
      intros x y Hxy. by apply (same_shape_edge _ _ _ _ Hs1).
    + intros Ht. apply (sn_no_cycle _ _ Hb). eapply tc_congruence with (f := id); [|exact Ht].
      intros x y Hxy. by apply (same_shape_edge _ _ _ _ Hs1).
Qed.

(** What [flk_check_deadlock] comes to, whatever there was before. *)
Lemma check_deadlock_steps s lock : pg_ok (pgraph s) → vertex_ok s lock → beside s lock →
  ∃ b s', flk_check_deadlock lock s = Ret (b, s') ∧ pg_ok (pgraph s') ∧
    (∀ o1 o2, waits (pgraph s') o1 o2 = if b then waits (pgraph s) o1 o2 else waits_with s lock o1 o2) ∧
    vframe (if b then isolate lock s else s) s' ∧ (∀ k, vertex_ok s k → vertex_ok s' k) ∧
    if b then circular (waits_with s lock) ∧ l_adj (lk s' lock) = [] ∧ l_in (lk s' lock) = []
    else ¬ tc (waiting (waits_with s lock)) (owner (lk s lock)) (owner (lk s lock)).
Proof.
  intros Hok Hv Hb.
  destruct (check_adds s lock Hok Hv Hb) as (start & s0 & s1 & s2 & Hr0 & Hr1 & Hr2 & Hf & Hat & Hvx & Hw).
  assert (owner (lk s2 lock) = owner (lk s lock)) as Ho by by apply vframe_owner.
  assert (¬ tc (edge (pgraph s2)) start start → ¬ tc (waiting (waits_with s lock)) (owner (lk s lock)) (owner (lk s lock))) as Hno.
  { intros Hnt Ht. apply (no_circle s2 start (owner (lk s lock)) Hat Hnt).
    eapply tc_congruence with (f := id); [|exact Ht]. intros x y. unfold waiting. simpl. by rewrite Hw. }
  unfold flk_check_deadlock. rewrite Hr0. cbn [rbind]. rewrite Hr1. cbn [rbind]. rewrite Hr2. cbn [rbind].
  destruct (Z.eqb_spec (incount (pv (pgraph s2) start)) 0) as [Hz|Hz].
  - exists false, s2. split_and!; try done; [by destruct Hat|].
    apply Hno. intros [z Hz']%tc_last. destruct Hat as (Hok2 & Hin2 & _). by eapply (incount_zero (pgraph s2) start).
  - destruct (search_circular s2 lock start ltac:(by rewrite Ho)) as (b & g' & -> & Hat' & Hv' & Hw' & Hb'). cbn [rbind].
    rewrite Ho in Hat'. assert (vframe s (set_pgraph g' s2)) as Hf' by (eapply vframe_trans; [exact Hf|apply vframe_pgraph]). destruct b.
    + destruct (undo_edges_ok (set_pgraph g' s2) lock start) as (s3 & Hr3 & Hok3 & Hf3 & Hv3 & Hw3).
      { by change (lk (set_pgraph g' s2) lock) with (lk s2 lock); rewrite Ho. }
      { apply (beside_frame s); [done|auto|done]. }
      { intros o1 o2. simpl. rewrite Hw', Hw. rewrite (lock_waits_frame s) by done. unfold waits_with.
        pose proof (waits_nonneg (pgraph s) o1 o2 Hok). lia. }
      fold (undo_edges lock start (set_pgraph g' s2)). exists true, s3.
      assert (vframe (isolate lock s) s3) as Hf4.
      { eapply vframe_trans; [|exact Hf3]. unfold isolate. destruct (vframe_edges s (set_pgraph g' s2) lock Hf') as [-> ->].
        by repeat apply cut_all_vframe. }
      split_and!; [done|done| |done|auto| | |].
      * intros o1 o2. rewrite Hw3. simpl. rewrite Hw', Hw, (lock_waits_frame s) by done. unfold waits_with. lia.
      * destruct Hb' as (o & Ht). exists o. eapply tc_congruence with (f := id); [|exact Ht]. intros x y. unfold waiting. simpl. by rewrite Hw.
      * destruct (vframe_edges _ _ lock Hf4) as [-> _]. by apply isolate_lists.
      * destruct (vframe_edges _ _ lock Hf4) as [_ ->]. by apply isolate_lists.
    + exists false, (set_pgraph g' s2). split_and!; [done|by destruct Hat'| |done|auto|by apply Hno].
      intros o1 o2. simpl. by rewrite Hw', Hw.
Qed.

(** C15: the request that [flk_check_deadlock] refuses is the one whose edges would make some owners wait for
    one another in a circle, and it refuses no other; if it refuses, the process graph has the waits that it had
    and the request has no edges any more, and if it does not, the graph has the waits of the request as well.
    The search comes to an end in any case, without a vertex that it does not have. *)
Theorem flk_check_deadlock_ok s lock : pg_ok (pgraph s) → vertex_ok s lock → beside s lock → ¬ circular (waits (pgraph s)) →
  ∃ b s', flk_check_deadlock lock s = Ret (b, s') ∧ pg_ok (pgraph s') ∧ ¬ circular (waits (pgraph s')) ∧
    (b = true ↔ circular (waits_with s lock)) ∧
    (∀ o1 o2, waits (pgraph s') o1 o2 = if b then waits (pgraph s) o1 o2 else waits_with s lock o1 o2) ∧
    vframe (if b then isolate lock s else s) s' ∧ (∀ k, vertex_ok s k → vertex_ok s' k) ∧
    (b = true → l_adj (lk s' lock) = [] ∧ l_in (lk s' lock) = []).
Proof.
  intros Hok Hv Hb Hn. destruct (check_deadlock_steps s lock Hok Hv Hb) as (b & s' & Hr & Hok' & Hw & Hf & Hvx & Hres).
  assert (b = true ↔ circular (waits_with s lock)) as Hiff.
  { destruct b; [by split; intros; [apply Hres|]|]. split; [done|]. intros Hc. by destruct Hres; apply circle_at_lock. }
  exists b, s'. split; [done|]. split; [done|]. split; [|do 4 (split; [done|]); by intros ->; destruct Hres].
  intros (o & Ht). destruct b.
  - apply Hn. exists o. eapply tc_congruence with (f := id); [|exact Ht]. intros x y. unfold waiting. simpl. by rewrite Hw.
  - assert (circular (waits_with s lock)) as Hc; [|by apply Hiff in Hc].
    exists o. eapply tc_congruence with (f := id); [|exact Ht]. intros x y. unfold waiting. simpl. by rewrite Hw.
Qed.

(** Two requests of one process, one that the lock waits for and one that waits for it. *)
Definition circle_example : graph :=
  let l id pid adj ins := Lockd 7 F_WRLCK 0 0 9 (Flock64 F_WRLCK 0 0 10 0 pid) 0 0 [] id adj ins in
  Graph {[1 := l (-1) 10 [2] [3]; 2 := l (-1) 20 [] [1]; 3 := l (-1) 20 [1] []]} 4 [2] [3] {[7 := 2]} 0 FLK_LOCKMGR_UP
    (ProcGraph [] 0 0 ∅ 1).

Lemma empty_pg_ok : pg_ok (ProcGraph [] 0 0 ∅ 1).
Proof.
  assert (∀ p, pv (ProcGraph [] 0 0 ∅ 1) p = blank_vertex) as Hb by (intros p; apply pv_dead; simpl; set_solver).
  split.
  - simpl. set_solver.
  - intros i p. simpl. by rewrite lookup_nil.
  - simpl. set_solver.
  - intros p q n. rewrite Hb. by intros H%elem_of_nil.
  - intros p. rewrite Hb. constructor.
  - simpl. set_solver.
  - simpl. set_solver.
  - intros p. rewrite Hb. simpl. lia.
  - simpl. unfold UINT_MAX. lia.
Qed.

Lemma empty_no_circle : ¬ circular (waits (ProcGraph [] 0 0 ∅ 1)).
Proof.
  intros (p & Hp)%(circular_edges _ empty_pg_ok). inversion Hp as [? ? H|? ? ? H]; subst;
    apply (edge_dom _ _ _ empty_pg_ok) in H as (H & _); simpl in H; set_solver.
Qed.

Lemma flk_check_deadlock_ok_witness : ∃ s', flk_check_deadlock 1 circle_example = Ret (true, s') ∧
  pg_ok (pgraph s') ∧ l_adj (lk s' 1) = [] ∧ circular (waits_with circle_example 1).
Proof.
  destruct (flk_check_deadlock_ok circle_example 1 empty_pg_ok) as (b & s' & Hr & Hok & _ & Hc & _ & _ & _ & Hl).
  - split; [vm_compute; intros [=]|by vm_compute].
  - intros t [Ht|Ht]; vm_compute in Ht; apply list_elem_of_singleton in Ht as ->;
      (split; [split; [vm_compute; intros [=]|by vm_compute]|by vm_compute]).
  - exact empty_no_circle.
  - assert (b = true) as ->.
    { assert (match flk_check_deadlock 1 circle_example with Ret (b, _) => b | _ => false end = true) as Hb by by vm_compute.
      by rewrite Hr in Hb. }
    exists s'. split; [done|]. split; [done|]. split; [by apply Hl|by apply Hc].
Defined.
