(* ===== verification/FlockRange.v ===== *)
(** * Ranges of record locks ([uts/common/os/flock.c])

    A lock that is reported to the one it blocks, read back as a request. *)

From S2P Require Import Prelude Flock FlockReq.

Lemma w64_id z : 0 ≤ z < 2 ^ 64 → w64 z = z.
Proof. apply Z.mod_small. Qed.

Lemma s64_id z : - 2 ^ 63 ≤ z < 2 ^ 63 → s64 z = z.
Proof. unfold s64. intros. rewrite Z.mod_small; lia. Qed.

Lemma w64_s64 z : w64 (s64 z) = w64 z.
Proof.
  unfold w64, s64. rewrite Zminus_mod, Zmod_mod, <-Zminus_mod. f_equal. lia.
Qed.

Lemma w64_add_s64 a z : w64 (a + s64 z) = w64 (a + z).
Proof. unfold w64. rewrite Z.add_mod by lia. change (s64 z mod 2 ^ 64) with (w64 (s64 z)). rewrite w64_s64. unfold w64. by rewrite <-Z.add_mod by lia. Qed.

(** A range of bytes of a file. *)
Definition range_ok (d : lockd) : Prop := 0 ≤ l_start d ≤ l_end d ∧ l_end d ≤ MAX_U_OFFSET_T.

(** The range that [reclock] gives a request of the lock manager. *)
Definition lockmgr_range (f : flock64) : Z * Z :=
  (w64 (f_start f), if f_len f =? 0 then MAX_U_OFFSET_T else w64 (f_start f + (f_len f - 1))).

(** C24: what F_GETLK reports to a local process, asked for again, is the range of the lock that blocks it as
    far as local requests go, and is a valid request; what it reports to the lock manager is that range, unless
    the lock ends at the last byte of 32 bits, when it is taken for one to the end of the file. *)
Theorem report_blocker_roundtrip blocker request getattr offset : range_ok blocker →
  let fl := report_blocker blocker request in
  f_type fl = l_type blocker ∧ (f_pid fl, f_sysid fl) = (f_pid (l_flock blocker), f_sysid (l_flock blocker)) ∧
  (has LOCKMGR_LOCK request = false →
    flk_convert_lock_data getattr fl offset MAXEND = inr (Z.min (l_start blocker) MAXEND, Z.min (l_end blocker) MAXEND) ∧
    flk_check_lock_data (Z.min (l_start blocker) MAXEND) (Z.min (l_end blocker) MAXEND) MAXEND = None) ∧
  (has LOCKMGR_LOCK request = true →
    lockmgr_range fl = (l_start blocker, if l_end blocker =? MAX_U_OFF_T then MAX_U_OFFSET_T else l_end blocker)).
Proof.
  unfold range_ok, MAX_U_OFFSET_T. intros Hr. cbv zeta. unfold report_blocker, MAXEND.
  split; [by repeat case_match|]. split; [by repeat case_match|]. split.
  - intros ->. split.
    + destruct (Z.ltb_spec (2 ^ 63 - 1) (l_start blocker)); unfold flk_convert_lock_data; simpl f_whence; simpl f_start; simpl f_len; cbv beta iota zeta.
      * simpl (0 =? 0). cbv iota. rewrite w64_id by lia. f_equal. f_equal; lia.
      * change (0 =? 0) with true. cbv iota. rewrite w64_s64, w64_id by lia.
        destruct (Z.leb_spec (2 ^ 63 - 1) (l_end blocker)); [change (0 =? 0) with true; cbv iota; f_equal; f_equal; lia|].
        rewrite s64_id by lia. rewrite (proj2 (Z.eqb_neq _ _)), (proj2 (Z.ltb_lt _ _)) by lia. rewrite w64_id by lia. f_equal. f_equal; lia.
    + unfold flk_check_lock_data. rewrite (proj2 (Z.ltb_ge _ _)), (proj2 (Z.ltb_ge _ (Z.min (l_end blocker) _))), (proj2 (Z.ltb_ge _ (Z.min (l_start blocker) _))) by lia.
      done.
  - intros ->. unfold lockmgr_range, MAX_U_OFFSET_T. simpl f_start. simpl f_len. rewrite w64_s64, w64_id by lia. f_equal.
    destruct (Z.eqb_spec (l_end blocker) MAX_U_OFF_T); [done|].
    destruct (Z.eqb_spec (s64 (l_end blocker - l_start blocker + 1)) 0) as [E|E].
    + assert (w64 (s64 (l_end blocker - l_start blocker + 1)) = 0) as E' by by rewrite E. rewrite w64_s64 in E'. unfold w64 in E'.
      apply Z.mod_divide in E' as [k Hk]; [|done]. assert (k = 1) by nia. lia.
    + replace (s64 (l_start blocker) + (s64 (l_end blocker - l_start blocker + 1) - 1))
        with (s64 (l_start blocker) - 1 + s64 (l_end blocker - l_start blocker + 1)) by lia.
      rewrite w64_add_s64. replace (s64 (l_start blocker) - 1 + (l_end blocker - l_start blocker + 1))
        with ((l_end blocker - l_start blocker) + s64 (l_start blocker)) by lia.
      rewrite w64_add_s64, w64_id by lia. lia.
Qed.

Lemma report_blocker_roundtrip_witness :
  let blocker := Lockd 7 F_WRLCK ACTIVE_LOCK 100 MAX_U_OFFSET_T (Flock64 F_WRLCK 0 100 0 3 42) 0 0 [] (-1) [] [] in
  let request := set_l_state LOCKMGR_LOCK blank in
  range_ok blocker ∧ lockmgr_range (report_blocker blocker request) = (100, MAX_U_OFFSET_T) ∧
  flk_convert_lock_data (inr 0) (report_blocker blocker blank) 0 MAXEND = inr (100, MAXEND).
Proof.
  cbv zeta. set (blocker := Lockd _ _ _ _ _ _ _ _ _ _ _ _).
  assert (range_ok blocker) as Hr by (repeat split; vm_compute; intros [=]).
  destruct (report_blocker_roundtrip blocker blank (inr 0) 0 Hr) as (_ & _ & Hl & _).
  destruct (report_blocker_roundtrip blocker (set_l_state LOCKMGR_LOCK blank) (inr 0) 0 Hr) as (_ & _ & _ & Hm).
  split; [done|]. split; [by rewrite Hm|]. destruct Hl as [-> _]; [done|]. unfold MAXEND. simpl. done.
Defined.
