(* ===== verification/FlockLists.v ===== *)
(** * The list of active locks ([uts/common/os/flock.c])

    The locks of one vnode are next to each other in the list, by their starts, and the
    vnode points to the first; [flk_insert_active_lock] and [flk_delete_active_lock] keep it so. *)

From S2P Require Import Prelude Flock.

Lemma last_in {A} (l : list A) x : last l = Some x → x ∈ l.
Proof. intros [l' ->]%last_Some. set_solver. Qed.
Lemma head_in {A} (l : list A) x : head l = Some x → x ∈ l.
Proof. destruct l; [done|]. intros [= ->]. by left. Qed.
Lemma remove_one_in x y q : y ∈ remove_one x q → y ∈ q.
Proof. induction q as [|z q IH]; simpl; [done|]. case_match; set_solver. Qed.
Lemma remove_one_keep x y q : y ∈ q → y ≠ x → y ∈ remove_one x q.
Proof. induction q as [|z q IH]; simpl; [done|]. destruct (Z.eqb_spec x z); set_solver. Qed.
Lemma remove_one_split x q : x ∈ q → ∃ q1 q2, q = q1 ++ x :: q2 ∧ remove_one x q = q1 ++ q2 ∧ x ∉ q1.
Proof.
  induction q as [|z q IH]; intros Hx; [by apply elem_of_nil in Hx|]. simpl. destruct (Z.eqb_spec x z) as [->|Hne].
  - exists [], q. split; [done|]. split; [done|]. apply not_elem_of_nil.
  - destruct IH as (q1 & q2 & -> & -> & Hn); [set_solver|]. exists (z :: q1), q2. split; [done|]. split; [done|]. set_solver.
Qed.

(** ** Lists of runs *)

Section Runs.
Context (f : Z → Z).

(** The elements of one class are next to each other. *)
Fixpoint runs (q : list Z) : Prop :=
  match q with
  | [] => True
  | x :: q => (f x ∈ f <$> q → f <$> head q = Some (f x)) ∧ runs q
  end.

(** Where an element of class [c] may go between two parts. *)
Definition place (c : Z) (q1 q2 : list Z) : Prop :=
  f <$> head q2 = Some c ∨ (c ∉ f <$> q2 ∧ (q1 = [] ∨ f <$> last q1 = Some c ∨ (q2 = [] ∧ c ∉ f <$> q1))).

Lemma class_last q c : f <$> last q = Some c → c ∈ f <$> q.
Proof. destruct (last q) eqn:E; [|done]. intros [= <-]. by apply list_elem_of_fmap_2, last_in. Qed.
Lemma class_head q c : f <$> head q = Some c → c ∈ f <$> q.
Proof. destruct (head q) eqn:E; [|done]. intros [= <-]. by apply list_elem_of_fmap_2, head_in. Qed.

Lemma runs_insert q1 x q2 : runs (q1 ++ q2) → place (f x) q1 q2 → runs (q1 ++ x :: q2).
Proof.
  induction q1 as [|y q1 IH]; intros Hr Hx.
  - split; [|done]. intros Hin. by destruct Hx as [Hx|[Hx _]].
  - destruct Hr as [Hy Hr]. split.
    + intros Hin. assert (f y ∈ f <$> q1 ++ q2 ∨ f y = f x) as Hin'.
      { rewrite fmap_app, fmap_cons, elem_of_app, elem_of_cons in Hin. rewrite fmap_app, elem_of_app. tauto. }
      destruct q1 as [|z q1].
      * destruct (decide (f y = f x)) as [->|Hne]; [done|]. destruct Hin' as [Hin'|]; [|done]. specialize (Hy Hin').
        destruct Hx as [Hx|(_ & [?|[Hx|[-> _]]])]; [simpl in Hy; congruence|done|by injection Hx|done].
      * destruct Hin' as [Hin'|E]; [by apply Hy|]. apply Hy. rewrite fmap_app, elem_of_app, E.
        destruct Hx as [Hx|(_ & [?|[Hx|[_ Hx]]])]; [right; by apply class_head|done| |].
        -- left. by apply class_last.
        -- destruct Hx. rewrite E || rewrite <-E. by left.
    + apply IH; [done|]. destruct Hx as [Hx|(H2 & [?|[Hx|[-> Hx]]])]; [by left|done| |].
      * right. split; [done|]. destruct q1; [by left|right; by left].
      * right. split; [done|]. right. right. split; [done|]. intros H. apply Hx. by right.
Qed.

Lemma runs_delete q1 x q2 : runs (q1 ++ x :: q2) → runs (q1 ++ q2).
Proof.
  induction q1 as [|y q1 IH]; [by intros [_ ?]|]. intros [Hy Hr]. split; [|by apply IH].
  intros Hin. specialize (Hy ltac:(rewrite fmap_app in *; set_solver)). destruct q1 as [|z q1]; [|done].
  simpl in Hy. injection Hy as Hy. destruct Hr as [Hx _]. rewrite Hy in Hx. by apply Hx.
Qed.

(** After the end of a run its class does not come again. *)
Lemma runs_end q1 x q2 : runs (q1 ++ x :: q2) → f <$> head q2 ≠ Some (f x) → f x ∉ f <$> q2.
Proof.
  induction q1 as [|y q1 IH]; [|intros [_ Hr]; by apply IH]. intros [Hx _] Hn Hin. by apply Hn, Hx.
Qed.
End Runs.

(** The first of a class. *)
Definition first_of (f : Z → Z) (c : Z) (q : list Z) : option Z := head (filter (λ x, f x = c) q).

Lemma first_of_app f c q1 q2 : first_of f c (q1 ++ q2) = match first_of f c q1 with Some x => Some x | None => first_of f c q2 end.
Proof. unfold first_of. rewrite filter_app. by destruct (filter _ q1). Qed.
Lemma first_of_cons f c x q : first_of f c (x :: q) = if decide (f x = c) then Some x else first_of f c q.
Proof. unfold first_of. rewrite filter_cons. by case_decide. Qed.
Lemma first_of_none f c q : first_of f c q = None ↔ c ∉ f <$> q.
Proof.
  induction q as [|x q IH]; [set_solver|]. rewrite first_of_cons. case_decide; set_solver.
Qed.
Lemma first_of_some f c q x : first_of f c q = Some x → ∃ q1 q2, q = q1 ++ x :: q2 ∧ f x = c ∧ c ∉ f <$> q1.
Proof.
  induction q as [|y q IH]; [done|]. rewrite first_of_cons. case_decide as E.
  - intros [= ->]. exists [], q. split; [done|]. split; [done|set_solver].
  - intros (q1 & q2 & -> & ? & ?)%IH. exists (y :: q1), q2. split; [done|]. split; [done|set_solver].
Qed.

(** ** The active locks *)

Definition vn (s : graph) (l : Z) : Z := l_vnode (lk s l).
Definition st (s : graph) (l : Z) : Z := l_start (lk s l).
Definition in_order (s : graph) (x y : Z) : Prop := vn s x = vn s y → st s x ≤ st s y.

Record active_ok (s : graph) : Prop := {
  ao_nodup : NoDup (active_locks s);
  ao_runs : runs (vn s) (active_locks s);
  ao_first vp : v_filocks s !! vp = first_of (vn s) vp (active_locks s);
  ao_sorted : StronglySorted (in_order s) (active_locks s)
}.

Lemma insert_before_spec p x q : ∃ q1 q2, q = q1 ++ q2 ∧ insert_before p x q = q1 ++ x :: q2 ∧
  (∀ y, y ∈ q1 → p y = false) ∧ (∀ y, head q2 = Some y → p y = true).
Proof.
  induction q as [|z q (q1 & q2 & -> & E & H1 & H2)]; [exists [], []; split_and!; done || set_solver|]. simpl.
  destruct (p z) eqn:Ez.
  - exists [], (z :: q1 ++ q2). split_and!; [done|done|set_solver|]. by intros y [= <-].
  - exists (z :: q1), q2. rewrite E. split_and!; [done|done| |done]. intros y [->|Hy]%elem_of_cons; auto.
Qed.

Lemma insert_from_spec first p x a b : first ∉ a → insert_from first p x (a ++ first :: b) = a ++ insert_before p x (first :: b).
Proof.
  induction a as [|z a IH]; intros Ha; cbn [app insert_from]; [by rewrite Z.eqb_refl|].
  destruct (Z.eqb_spec z first) as [->|_]; [set_solver|]. by rewrite IH by set_solver.
Qed.

Lemma sorted_insert {A} (R : A → A → Prop) q1 x q2 : StronglySorted R (q1 ++ q2) →
  (∀ y, y ∈ q1 → R y x) → (∀ y, y ∈ q2 → R x y) → StronglySorted R (q1 ++ x :: q2).
Proof.
  intros (H1 & H2 & H3)%StronglySorted_app H4 H5. apply StronglySorted_app. split_and!; [|done|].
  - intros y z Hy [->|Hz]%elem_of_cons; auto.
  - constructor; [done|]. by apply Forall_forall.
Qed.

Lemma sorted_delete {A} (R : A → A → Prop) q1 x q2 : StronglySorted R (q1 ++ x :: q2) → StronglySorted R (q1 ++ q2).
Proof.
  intros (H1 & H2 & H3)%StronglySorted_app. apply StronglySorted_app. split_and!; [|done|by inversion H3].
  intros y z Hy Hz. apply H1; [done|by right].
Qed.

Lemma sorted_ext {A} (R R' : A → A → Prop) q : (∀ x y, x ∈ q → y ∈ q → R x y → R' x y) → StronglySorted R q → StronglySorted R' q.
Proof.
  intros HR Hs. induction Hs as [|x q Hs IH Hx]; constructor; [apply IH; intros y z Hy Hz; apply HR; by right|].
  rewrite Forall_forall in Hx. apply Forall_forall. intros y Hy. apply HR; [by left|by right|by apply Hx].
Qed.

(** Nothing of this depends on more than the vnodes and starts. *)
Lemma runs_ext f g q : (∀ x, x ∈ q → f x = g x) → runs f q → runs g q.
Proof.
  induction q as [|x q IH]; intros H; [done|]. intros [Hx Hq]. split; [|apply IH; [intros; apply H; by right|done]].
  rewrite <-H by (by left). replace (g <$> q) with (f <$> q) by (apply list_fmap_ext; intros i y Hy; apply H; right; by eapply list_elem_of_lookup_2).
  intros Hin. apply Hx in Hin. destruct q as [|y q]; [done|]. simpl in *. by rewrite <-H by (right; by left).
Qed.
Lemma first_of_ext f g c q : (∀ x, x ∈ q → f x = g x) → first_of f c q = first_of g c q.
Proof.
  induction q as [|x q IH]; intros H; [done|]. rewrite !first_of_cons, H, IH; [done|intros; apply H; by right|by left].
Qed.

Lemma active_ok_ext s s' : active_ok s → active_locks s' = active_locks s → v_filocks s' = v_filocks s →
  (∀ l, l ∈ active_locks s → vn s' l = vn s l ∧ st s' l = st s l) → active_ok s'.
Proof.
  intros [H1 H2 H3 H4] Ea Ef Hl. split; rewrite ?Ea, ?Ef.
  - done.
  - eapply runs_ext; [|exact H2]. intros x Hx. symmetry. by apply Hl.
  - intros vp. rewrite H3. apply first_of_ext. intros x Hx. symmetry. by apply Hl.
  - eapply sorted_ext; [|exact H4]. unfold in_order. intros x y Hx Hy. destruct (Hl x Hx) as [-> ->], (Hl y Hy) as [-> ->]. done.
Qed.

Lemma lk_set_other s s' l : locks s' = locks s → lk s' l = lk s l.
Proof. unfold lk. by intros ->. Qed.

(** ** Insertion *)

(** The place that the loop of [flk_insert_active_lock] finds. *)
Lemma insert_from_place s new first : let vp := vn s new in let q := active_locks s in
  NoDup q → runs (vn s) q → StronglySorted (in_order s) q → first_of (vn s) vp q = Some first →
  let stop l := negb ((l_vnode (lk s l) =? vp) && (l_start (lk s l) <? st s new)) in
  ∃ q1 q2, q = q1 ++ q2 ∧ insert_from first stop new q = q1 ++ new :: q2 ∧ place (vn s) vp q1 q2 ∧
    (∀ y, y ∈ q2 → vn s y = vp → st s new ≤ st s y) ∧ (∀ y, y ∈ q1 → vn s y = vp → st s y < st s new) ∧
    (vp ∈ vn s <$> q1 ↔ st s first < st s new).
Proof.
  intros vp q Hnd Hr Hs E p. pose proof (first_of_some _ _ _ _ E) as (a & b & Eab & Hfv & Ha).
  assert (first ∉ a) as Hfa by (rewrite Eab in Hnd; apply NoDup_app in Hnd as (_ & Hn & _); intros H; apply (Hn _ H); by left).
  destruct (insert_before_spec p new (first :: b)) as (q1 & q2 & Eq & Ei & Hq1 & Hq2).
  assert (∀ y, p y = false → vn s y = vp ∧ st s y < st s new) as Hpf.
  { intros y. unfold p. rewrite negb_false_iff, andb_true_iff, Z.eqb_eq, Z.ltb_lt. done. }
  assert (∀ y, p y = true → vn s y = vp → st s new ≤ st s y) as Hpt.
  { intros y. unfold p. rewrite negb_true_iff, andb_false_iff, Z.eqb_neq, Z.ltb_ge. unfold vn, st. tauto. }
  assert (runs (vn s) (q1 ++ q2) ∧ StronglySorted (in_order s) (q1 ++ q2)) as [Hr12 Hs12].
  { rewrite <-Eq. rewrite Eab in Hr, Hs. split; [|by apply StronglySorted_app in Hs as (_ & _ & ?)].
    clear -Hr. induction a as [|y a IH]; [done|]. apply IH, Hr. }
  assert (q1 = [] ∨ vn s <$> last q1 = Some vp) as Hlast.
  { destruct (last q1) as [w|] eqn:El; [right|left; by apply last_None]. simpl. f_equal. apply Hpf, Hq1. by apply last_in. }
  assert (q1 ≠ [] → vn s <$> head q2 ≠ Some vp → vp ∉ vn s <$> q2) as Hend.
  { intros Hq Hne. destruct Hlast as [?|Hw]; [done|]. destruct (last q1) as [w|] eqn:El; [|done]. simpl in Hw. injection Hw as Hw.
    apply last_Some in El as [q1' ->]. rewrite <-app_assoc in Hr12. rewrite <-Hw in *. by apply (runs_end (vn s) q1' w). }
  exists (a ++ q1), q2. rewrite <-app_assoc, <-Eq, Eab, insert_from_spec, Ei by done. split_and!; [done|by rewrite app_assoc|..].
  - destruct (decide (vn s <$> head q2 = Some vp)) as [|Hne]; [by left|]. right. destruct Hlast as [->|Hw].
    + simpl in Eq. rewrite <-Eq in Hne. simpl in Hne. by rewrite Hfv in Hne.
    + split; [apply Hend; [by intros ->|done]|]. right. left. rewrite last_app. by destruct (last q1).
  - intros y Hy Hyv. destruct q2 as [|h q2]; [by apply elem_of_nil in Hy|]. destruct (decide (vn s h = vp)) as [Hh|Hh].
    + specialize (Hpt h (Hq2 h eq_refl) Hh). apply elem_of_cons in Hy as [->|Hy]; [done|].
      apply StronglySorted_app in Hs12 as (_ & _ & Hss). apply StronglySorted_inv in Hss as [_ Hss].
      rewrite Forall_forall in Hss. specialize (Hss y Hy). unfold in_order in Hss. rewrite Hh, Hyv in Hss. specialize (Hss eq_refl). lia.
    + destruct q1; [simpl in Eq; injection Eq as -> ->; by destruct Hh|]. exfalso. apply Hend; [done|simpl; congruence|].
      rewrite <-Hyv. by apply list_elem_of_fmap_2.
  - intros y [Hy|Hy]%elem_of_app Hyv; [|by apply Hpf, Hq1]. destruct Ha. rewrite <-Hyv. by apply list_elem_of_fmap_2.
  - rewrite fmap_app, elem_of_app. destruct q1 as [|w q1].
    + simpl in Eq. rewrite <-Eq in Hq2. specialize (Hpt first (Hq2 first eq_refl) Hfv). split; [intros [?|?]; [done|set_solver]|lia].
    + injection Eq as <- ->. split; [intros _; apply Hpf, Hq1; by left|]. intros _. right. rewrite <-Hfv. left.
Qed.

(** What linking a lock in changes, up to its flag. *)
Definition linked_in (s : graph) (new : Z) : graph :=
  let d := lk s new in
  let vp := l_vnode d in
  match v_filocks s !! vp with
  | None => set_filocks (<[vp := new]> (v_filocks s)) (set_active (active_locks s ++ [new]) s)
  | Some first =>
      let stop l := negb ((l_vnode (lk s l) =? vp) && (l_start (lk s l) <? l_start d)) in
      let s' := set_active (insert_from first stop new (active_locks s)) s in
      if l_start d <=? l_start (lk s first) then set_filocks (<[vp := new]> (v_filocks s)) s' else s'
  end.

Lemma linked_in_split s new : active_ok s → let vp := vn s new in
  ∃ q1 q2, active_locks s = q1 ++ q2 ∧ active_locks (linked_in s new) = q1 ++ new :: q2 ∧ place (vn s) vp q1 q2 ∧
    (∀ y, y ∈ q2 → vn s y = vp → st s new ≤ st s y) ∧ (∀ y, y ∈ q1 → vn s y = vp → st s y < st s new) ∧
    v_filocks (linked_in s new) = if decide (vp ∈ vn s <$> q1) then v_filocks s else <[vp := new]> (v_filocks s).
Proof.
  intros [Hnd Hr Hf Hs] vp. unfold linked_in. fold (vn s new). fold vp. rewrite Hf.
  destruct (first_of (vn s) vp (active_locks s)) as [first|] eqn:E; cbv zeta.
  - destruct (insert_from_place s new first Hnd Hr Hs E) as (q1 & q2 & Eq & Ei & Hpl & H2 & H1 & Hiff).
    exists q1, q2. split_and!; [done|by case_match|done|done|done|]. fold (st s new). fold (st s first).
    destruct (Z.leb_spec (st s new) (st s first)); case_decide as Ed; try done; [apply Hiff in Ed; lia|]. destruct Ed. apply Hiff. lia.
  - apply first_of_none in E. exists (active_locks s), []. split_and!; [by rewrite app_nil_r|done| |set_solver| |by rewrite decide_False].
    + right. split; [set_solver|]. by right; right.
    + intros y Hy Hyv. destruct E. rewrite <-Hyv. by apply list_elem_of_fmap_2.
Qed.

Lemma flk_insert_active_lock_ok s new : active_ok s → new ∉ active_locks s → let s' := flk_insert_active_lock new s in
  active_ok s' ∧ (∃ q1 q2, active_locks s = q1 ++ q2 ∧ active_locks s' = q1 ++ new :: q2 ∧
    (∀ y, y ∈ q2 → vn s y = vn s new → st s new ≤ st s y) ∧ (∀ y, y ∈ q1 → vn s y = vn s new → st s y < st s new)) ∧
  (∀ l, lk s' l = if decide (l = new) then set_flag ACTIVE_LOCK (lk s new) else lk s l).
Proof.
  intros Hao Hnew. destruct (linked_in_split s new Hao) as (q1 & q2 & Eq & Ea & Hpl & H2 & H1 & Efi). destruct Hao as [Hnd Hr Hf Hs].
  change (flk_insert_active_lock new s) with (upd new (set_flag ACTIVE_LOCK) (linked_in s new)). cbv zeta.
  set (s' := upd new (set_flag ACTIVE_LOCK) (linked_in s new)).
  assert (locks (linked_in s new) = locks s) as Hl by (unfold linked_in; repeat case_match; done).
  assert (∀ l, lk s' l = if decide (l = new) then set_flag ACTIVE_LOCK (lk s new) else lk s l) as Hlk.
  { intros l. unfold s'. rewrite lk_upd, !(lk_set_other s (linked_in s new)) by done. done. }
  assert (∀ l, vn s' l = vn s l ∧ st s' l = st s l) as Hvs.
  { intros l. unfold vn, st. rewrite Hlk. by destruct (decide (l = new)) as [->|]. }
  assert (active_locks s' = q1 ++ new :: q2) as Ea' by done.
  split; [|split; [by exists q1, q2|done]]. split; rewrite ?Ea'.
  - rewrite <-Permutation_middle, <-Eq. by constructor.
  - eapply runs_ext; [intros x _; symmetry; apply Hvs|]. apply runs_insert; [by rewrite <-Eq|done].
  - intros vp'. rewrite (first_of_ext _ (vn s)) by (intros ? _; apply Hvs). change (v_filocks s') with (v_filocks (linked_in s new)).
    rewrite Efi, first_of_app, first_of_cons. destruct (decide (vp' = vn s new)) as [->|Hne].
    + rewrite (decide_True (P:=vn s new = vn s new)) by done. case_decide as E.
      * rewrite Hf, Eq, first_of_app. destruct (first_of (vn s) (vn s new) q1) eqn:E1; [done|]. by apply first_of_none in E1.
      * apply first_of_none in E. by rewrite E, lookup_insert_eq.
    + rewrite (decide_False (P:=vn s new = vp')) by congruence.
      assert (v_filocks s !! vp' = first_of (vn s) vp' (q1 ++ q2)) as Hf' by by rewrite Hf, Eq.
      case_decide; [|rewrite lookup_insert_ne by done]; by rewrite Hf', first_of_app.
  - eapply sorted_ext with (R := in_order s).
    + unfold in_order. intros x y _ _. destruct (Hvs x) as [-> ->], (Hvs y) as [-> ->]. done.
    + apply sorted_insert; [by rewrite <-Eq| |]; unfold in_order; intros y Hy Hyv; [apply Z.lt_le_incl|]; auto.
Qed.

(** ** Deletion *)

Lemma l_next_split l q1 q2 : l ∉ q1 → l_next l (q1 ++ l :: q2) = head q2.
Proof.
  induction q1 as [|y q1 IH]; intros Hl; cbn [app l_next]; [by rewrite Z.eqb_refl|].
  destruct (Z.eqb_spec y l) as [->|_]; [set_solver|]. apply IH. set_solver.
Qed.

Lemma flk_delete_active_lock_ok s lock : active_ok s → lock ∈ active_locks s → let s' := flk_delete_active_lock lock false s in
  active_ok s' ∧ (∃ q1 q2, active_locks s = q1 ++ lock :: q2 ∧ active_locks s' = q1 ++ q2) ∧
  (∀ l, lk s' l = if decide (l = lock) then clr_flag ACTIVE_LOCK (lk s lock) else lk s l).
Proof.
  intros [Hnd Hr Hf Hs] Hin. unfold flk_delete_active_lock. cbv zeta iota.
  destruct (remove_one_split lock (active_locks s) Hin) as (q1 & q2 & Eq & Er & Hn1).
  set (fi := if bool_decide _ then _ else _).
  set (s' := upd lock (clr_flag ACTIVE_LOCK) _).
  assert (∀ l, lk s' l = if decide (l = lock) then clr_flag ACTIVE_LOCK (lk s lock) else lk s l) as Hlk.
  { intros l. unfold s'. rewrite lk_upd, !(lk_set_other s _) by done. done. }
  assert (∀ l, vn s' l = vn s l ∧ st s' l = st s l) as Hvs.
  { intros l. unfold vn, st. rewrite Hlk. by destruct (decide (l = lock)) as [->|]. }
  assert (active_locks s' = q1 ++ q2) as Ea by done. rewrite Eq in Hnd, Hr, Hs.
  split; [|split; [by exists q1, q2|done]]. split; rewrite ?Ea.
  - rewrite <-Permutation_middle in Hnd. by inversion Hnd.
  - eapply runs_ext; [intros x _; symmetry; apply Hvs|]. by apply runs_delete with lock.
  - intros vp. rewrite (first_of_ext _ (vn s)) by (intros ? _; apply Hvs). change (v_filocks s') with fi.
    assert (∀ c, v_filocks s !! c = first_of (vn s) c (q1 ++ lock :: q2)) as Hfc by (intros c; by rewrite Hf, Eq).
    unfold fi. rewrite Hfc, Eq, (l_next_split lock q1 q2) by done. fold (vn s lock).
    rewrite !first_of_app, first_of_cons, (decide_True (P:=vn s lock = vn s lock)) by done.
    destruct (first_of (vn s) (vn s lock) q1) as [y|] eqn:E1.
    + rewrite bool_decide_eq_false_2 by (intros [= ->]; apply first_of_some in E1 as (? & ? & -> & _); set_solver).
      rewrite Hfc, !first_of_app, first_of_cons. destruct (decide (vn s lock = vp)) as [<-|]; [by rewrite E1|done].
    + rewrite bool_decide_eq_true_2 by done. apply first_of_none in E1.
      assert (match head q2 with
        | Some n => if l_vnode (lk s n) =? vn s lock then <[vn s lock:=n]> (v_filocks s) else delete (vn s lock) (v_filocks s)
        | None => delete (vn s lock) (v_filocks s) end !! vn s lock = first_of (vn s) (vn s lock) q2) as Hown.
      { pose proof (runs_end (vn s) q1 lock q2 Hr) as He. destruct q2 as [|n q2]; simpl; [by rewrite lookup_delete_eq|].
        rewrite first_of_cons. fold (vn s n). destruct (Z.eqb_spec (vn s n) (vn s lock)) as [E|E].
        - by rewrite decide_True, lookup_insert_eq.
        - rewrite decide_False, lookup_delete_eq by done. symmetry. apply first_of_none. intros Hq. apply He; [simpl; congruence|by right]. }
      destruct (decide (vp = vn s lock)) as [->|Hne].
      * rewrite Hown. apply first_of_none in E1. by rewrite E1.
      * assert (∀ m : gmap Z Z, m !! vp = v_filocks s !! vp → m !! vp = match first_of (vn s) vp q1 with Some x => Some x | None => first_of (vn s) vp q2 end) as Hg.
        { intros m ->. rewrite Hfc, first_of_app, first_of_cons, decide_False by congruence. done. }
        apply Hg. repeat case_match; rewrite ?lookup_insert_ne, ?lookup_delete_ne by congruence; done.
  - eapply sorted_ext with (R := in_order s); [|by apply sorted_delete with lock].
    unfold in_order. intros x y _ _. destruct (Hvs x) as [-> ->], (Hvs y) as [-> ->]. done.
Qed.

(** The locks of a vnode, from the first on. *)
Lemma from_split l q1 q2 : l ∉ q1 → from l (q1 ++ l :: q2) = l :: q2.
Proof.
  induction q1 as [|y q1 IH]; intros Hl; cbn [app from]; [by rewrite Z.eqb_refl|].
  destruct (Z.eqb_spec y l) as [->|_]; [set_solver|]. apply IH. set_solver.
Qed.

Lemma run_of_filter s vp q : runs (vn s) q →
  (vp ∈ vn s <$> q → vn s <$> head q = Some vp) → run_of s vp q = filter (λ l, vn s l = vp) q.
Proof.
  intros Hr. induction q as [|x q IH]; [done|]. intros Hh. cbn [run_of]. rewrite filter_cons. fold (vn s x).
  destruct Hr as [Hx Hr]. destruct (Z.eqb_spec (vn s x) vp) as [E|E].
  - rewrite decide_True by done. f_equal. apply IH; [done|]. intros Hin. rewrite <-E in *. by apply Hx.
  - rewrite decide_False by done. symmetry. assert (vp ∉ vn s <$> q) as Hn.
    { intros Hin. specialize (Hh ltac:(by right)). simpl in Hh. congruence. }
    clear -Hn. induction q as [|y q IH]; [done|]. rewrite filter_cons, decide_False by set_solver. apply IH. set_solver.
Qed.

Lemma active_vp_filter s vp : active_ok s → active_vp s vp = filter (λ l, vn s l = vp) (active_locks s).
Proof.
  intros [Hnd Hr Hf Hs]. unfold active_vp. rewrite Hf. destruct (first_of (vn s) vp (active_locks s)) as [l|] eqn:E.
  - destruct (first_of_some _ _ _ _ E) as (a & b & Eq & Hl & Ha). rewrite Eq in *.
    assert (l ∉ a) as Hla by (intros H; apply Ha; rewrite <-Hl; by apply list_elem_of_fmap_2). rewrite from_split by done.
    rewrite run_of_filter; [|clear -Hr; induction a as [|y a IH]; [done|apply IH, Hr]|intros _; simpl; by rewrite Hl].
    rewrite filter_app. replace (filter (λ l0, vn s l0 = vp) a) with (@nil Z); [done|].
    clear -Ha. induction a as [|y a IH]; [done|]. rewrite filter_cons, decide_False by set_solver. apply IH. set_solver.
  - unfold first_of in E. by destruct (filter _ _).
Qed.
