(* ===== verification/FlockGraph.v ===== *)
(** * The graph of locks ([uts/common/os/flock.c])

    An invariant of the graph of locks, under which the routines that recompute its edges and
    that wake locks up come to an end, change no lock and keep the invariant. *)

From stdpp Require Import relations.
From S2P Require Import Prelude Flock FlockProc FlockWait FlockDeadlock FlockLists.

(** ** Frames *)

(** Without flags, colours and the places of searches. *)
Definition essence (d : lockd) : lockd :=
  Lockd (l_vnode d) (l_type d) 0 (l_start d) (l_end d) (l_flock d) 0 0 [] (pvertex d) (l_adj d) (l_in d).
(** What a lock is. *)
Definition core (d : lockd) : Z * Z * Z * Z * flock64 := (l_vnode d, l_type d, l_start d, l_end d, l_flock d).

(** The flags that have to do with more than the recomputation of edges. *)
Definition LASTING : Z := 0x3e3f.
Definition lasting (d : lockd) : Z := Z.land (l_state d) LASTING.

Lemma lasting_set d d' g : l_state d' = Z.lor (l_state d) g → Z.land g LASTING = 0 → lasting d' = lasting d.
Proof. intros E H. unfold lasting. by rewrite E, Z.land_lor_distr_l, H, Z.lor_0_r. Qed.
Lemma lasting_clr d d' g : l_state d' = Z.ldiff (l_state d) g → Z.land g LASTING = 0 → lasting d' = lasting d.
Proof.
  intros E H. unfold lasting. rewrite E. apply Z.bits_inj'. intros n Hn. rewrite !Z.land_spec, Z.ldiff_spec.
  assert (Z.testbit (Z.land g LASTING) n = false) as Hb by (rewrite H; apply Z.bits_0). rewrite Z.land_spec in Hb.
  destruct (Z.testbit LASTING n); [|by rewrite !andb_false_r]. rewrite andb_true_r in Hb. by rewrite Hb, !andb_true_r.
Qed.
Lemma lasting_has f d d' : Z.land LASTING f = f → lasting d' = lasting d → has f d' = has f d.
Proof.
  intros Hf H. unfold has. assert (∀ z, Z.land z f = Z.land (Z.land z LASTING) f) as Hz by (intros z; by rewrite <-Z.land_assoc, Hf).
  rewrite Hz, (Hz (l_state d)). unfold lasting in H. by rewrite H.
Qed.
(** For changes of one descriptor. *)
Ltac flags := intros d; repeat split; first [done|by eapply lasting_set|by eapply lasting_clr].

(** Only flags of the recomputation and colours change. *)
Record mframe (s s' : graph) : Prop := {
  mf_lk l : essence (lk s' l) = essence (lk s l);
  mf_sedge l : l_sedge (lk s' l) = l_sedge (lk s l);
  mf_lasting l : lasting (lk s' l) = lasting (lk s l);
  mf_dom : dom (locks s') = dom (locks s);
  mf_next : next_lock s' = next_lock s;
  mf_active : active_locks s' = active_locks s;
  mf_sleeping : sleeping_locks s' = sleeping_locks s;
  mf_filocks : v_filocks s' = v_filocks s;
  mf_status : lockmgr_status s' = lockmgr_status s;
  mf_pgraph : pgraph s' = pgraph s
}.

Lemma mframe_refl s : mframe s s.
Proof. by split. Qed.
Lemma mframe_trans s1 s2 s3 : mframe s1 s2 → mframe s2 s3 → mframe s1 s3.
Proof. intros [H1 H1' H1'' ???????] [H2 H2' H2'' ???????]. split; [intros l; by rewrite H2|intros l; by rewrite H2'|intros l; by rewrite H2''|congruence..]. Qed.

Lemma dom_upd l f s : l ∈ dom (locks s) → dom (locks (upd l f s)) = dom (locks s).
Proof. intros Hl. simpl. rewrite dom_insert_L. set_solver. Qed.

Lemma mframe_upd l f s : l ∈ dom (locks s) → (∀ d, essence (f d) = essence d ∧ l_sedge (f d) = l_sedge d ∧ lasting (f d) = lasting d) → mframe s (upd l f s).
Proof.
  intros Hl Hf. split; try done.
  - intros k. rewrite lk_upd. case_decide; [subst; apply Hf|done].
  - intros k. rewrite lk_upd. case_decide; [subst; apply Hf|done].
  - intros k. rewrite lk_upd. case_decide; [subst; apply Hf|done].
  - by apply dom_upd.
Qed.

Lemma mframe_mark s v : mframe s (set_mark v s).
Proof. by split. Qed.

(** Colours stay as well. *)
Record cframe (s s' : graph) : Prop := {
  cf_mframe : mframe s s';
  cf_mark : g_mark s' = g_mark s;
  cf_color l : l_color (lk s' l) = l_color (lk s l)
}.

Lemma cframe_refl s : cframe s s.
Proof. split; [apply mframe_refl|done..]. Qed.

Lemma cframe_upd l f s : l ∈ dom (locks s) →
  (∀ d, essence (f d) = essence d ∧ l_sedge (f d) = l_sedge d ∧ l_color (f d) = l_color d ∧ lasting (f d) = lasting d) → cframe s (upd l f s).
Proof.
  intros Hl Hf. split; [apply mframe_upd; [done|]; intros d; by destruct (Hf d) as (? & ? & ? & ?)|done|].
  intros k. rewrite lk_upd. case_decide; [subst; apply Hf|done].
Qed.

Lemma cframe_trans s1 s2 s3 : cframe s1 s2 → cframe s2 s3 → cframe s1 s3.
Proof. intros [H1 ? H1'] [H2 ? H2']. split; [by eapply mframe_trans|congruence|intros l; by rewrite H2']. Qed.

(** ** Searches end *)

Section SearchEnds.
Context {A : Type} (edges : lockd → list Z) (onold onnew : Z → A * graph → A * graph).
Context (edges_essence : ∀ d d', essence d = essence d' → edges d = edges d').
Context (old_ok : ∀ v a s, v ∈ dom (locks s) → cframe s (onold v (a, s)).2).
Context (new_ok : ∀ v a s, v ∈ dom (locks s) → cframe s (onnew v (a, s)).2).

Definition closed (s : graph) : Prop := ∀ l v, v ∈ edges (lk s l) → v ∈ dom (locks s).
Definition plain (s : graph) : gset Z := filter (λ x, COLORED s x = false) (dom (locks s)).

Lemma plain_cframe s s' : cframe s s' → plain s' = plain s.
Proof.
  intros [Hm Hk Hc]. unfold plain. rewrite (mf_dom _ _ Hm). apply set_eq. intros x. rewrite !elem_of_filter.
  unfold COLORED. by rewrite Hk, Hc.
Qed.

Lemma plain_color s v : v ∈ dom (locks s) → COLORED s v = false → size (plain s) = S (size (plain (COLOR v s))).
Proof.
  intros Hv Hc. assert (plain s = {[v]} ∪ plain (COLOR v s)) as ->.
  { apply set_eq. intros x. unfold plain. rewrite elem_of_union, elem_of_singleton, !elem_of_filter. unfold COLOR at 2. rewrite dom_upd by done.
    unfold COLORED, COLOR at 1. rewrite lk_upd. simpl. destruct (decide (x = v)) as [->|].
    - split; [by left|]. intros _. by split.
    - split; [by right|]. intros [?|?]; [done|]. done. }
  rewrite size_union, size_singleton; [done|]. unfold plain. intros x ->%elem_of_singleton [Hx _]%elem_of_filter.
  unfold COLORED, COLOR in Hx. rewrite lk_upd, decide_True in Hx by done. simpl in Hx. by rewrite Z.eqb_refl in Hx.
Qed.

Lemma closed_mframe s s' : mframe s s' → closed s → closed s'.
Proof. intros Hm Hc l v. rewrite (mf_dom _ _ Hm), (edges_essence _ (lk s l)) by apply Hm. apply Hc. Qed.

Lemma scan_ok vs : ∀ stack a s, (∀ v, v ∈ vs → v ∈ dom (locks s)) →
  ∃ stack' a' s', scan onold onnew vs stack (a, s) = (stack', (a', s')) ∧ mframe s s' ∧
    (length stack' + size (plain s') = length stack + size (plain s))%nat.
Proof using old_ok new_ok.
  induction vs as [|v vs IH]; intros stack a s Hvs; [by exists stack, a, s; split_and!; [|apply mframe_refl|]|].
  assert (v ∈ dom (locks s)) as Hv by (apply Hvs; by left). cbn [scan snd]. destruct (COLORED s v) eqn:Ec.
  - pose proof (old_ok v a s Hv) as Hf. destruct (onold v (a, s)) as [a1 s1]. simpl in Hf.
    destruct (IH stack a1 s1) as (stack' & a' & s' & Hr & Hm & Hs).
    { intros w Hw. rewrite (mf_dom _ _ (cf_mframe _ _ Hf)). apply Hvs. by right. }
    exists stack', a', s'. split; [done|]. split; [by eapply mframe_trans; [apply Hf|]|]. by rewrite Hs, (plain_cframe s s1).
  - assert (mframe s (COLOR v s)) as Hm0 by by apply mframe_upd. cbn [fst].
    assert (v ∈ dom (locks (COLOR v s))) as Hv0 by (rewrite (mf_dom _ _ Hm0); done).
    pose proof (new_ok v a (COLOR v s) Hv0) as Hf. destruct (onnew v (a, COLOR v s)) as [a1 s1]. simpl in Hf.
    destruct (IH (v :: stack) a1 s1) as (stack' & a' & s' & Hr & Hm & Hs).
    { intros w Hw. rewrite (mf_dom _ _ (cf_mframe _ _ Hf)), (mf_dom _ _ Hm0). apply Hvs. by right. }
    exists stack', a', s'. split; [done|]. split; [eapply mframe_trans; [exact Hm0|]; by eapply mframe_trans; [apply Hf|]|].
    rewrite Hs, (plain_cframe _ s1 Hf), (plain_color s v Hv Ec). simpl. lia.
Qed.

Lemma color_search_ok fuel : ∀ stack a s, closed s → (length stack + size (plain s) ≤ fuel)%nat →
  ∃ a' s', search edges onold onnew fuel stack (a, s) = Ret (a', s') ∧ mframe s s'.
Proof using edges_essence old_ok new_ok.
  induction fuel as [|fuel IH]; intros [|v stack] a s Hc Hf; cbn [search]; try (exists a, s; split; [done|apply mframe_refl]); [simpl in Hf; lia|].
  destruct (scan_ok (edges (lk s v)) stack a s) as (stack' & a1 & s1 & Hr & Hm & Hs); [intros w; apply Hc|].
  cbn [snd]. rewrite Hr. destruct (IH stack' a1 s1) as (a' & s' & Hr' & Hm'); [by eapply closed_mframe|simpl in Hf; lia|].
  exists a', s'. split; [done|]. by eapply mframe_trans.
Qed.

Lemma search_colors v a s : closed s → ∃ a' s', search edges onold onnew (colors s) [v] (a, s) = Ret (a', s') ∧ mframe s s'.
Proof using edges_essence old_ok new_ok.
  intros Hc. apply color_search_ok; [done|]. unfold colors. simpl. apply le_n_S. rewrite <-(size_dom (locks s)).
  apply subseteq_size. unfold plain. set_solver.
Qed.
End SearchEnds.

(** ** The invariant *)

Fixpoint times (x : Z) (l : list Z) : nat :=
  match l with [] => 0%nat | y :: l => if x =? y then S (times x l) else times x l end.

Lemma times_in x l : x ∈ l ↔ (0 < times x l)%nat.
Proof.
  induction l as [|y l IH]; simpl; [split; [by intros ?%elem_of_nil|lia]|]. rewrite elem_of_cons, IH.
  destruct (Z.eqb_spec x y); split; try tauto; lia.
Qed.
Lemma times_zero x l : x ∉ l ↔ times x l = 0%nat.
Proof. rewrite times_in. lia. Qed.
Lemma times_remove x y l : times x (remove_one y l) = (times x l - if (x =? y)%Z then 1 else 0)%nat.
Proof.
  induction l as [|z l IH]; simpl; [by case_match|]. destruct (Z.eqb_spec y z) as [->|Hyz]; simpl.
  - destruct (x =? z); lia.
  - rewrite IH. destruct (Z.eqb_spec x z) as [->|]; [|done]. rewrite (proj2 (Z.eqb_neq z y)) by congruence. lia.
Qed.

(** [b] waits for [a]. *)
Definition waited (s : graph) : relation Z := λ a b, b ∈ l_in (lk s a).
(** A lock that waits for none. *)
Definition quiet (s : graph) (l : Z) : Prop := ∀ m, l ∉ l_in (lk s m).
Definition live (s : graph) (l : Z) : Prop := l ∈ dom (locks s) ∧ l_type (lk s l) ≠ F_UNLCK.

(** [gone] is a lock that the edges to it have been taken from the side that they come from. *)
Record graph_ok (gone : option Z) (s : graph) : Prop := {
  go_pg : pg_ok (pgraph s);
  go_vertex l : live s l → vertex_ok s l;
  go_in l m : m ∈ l_in (lk s l) → live s l ∧ live s m ∧ owner (lk s m) ≠ owner (lk s l);
  go_sym l m : gone ≠ Some m → times m (l_adj (lk s l)) = times l (l_in (lk s m));
  go_gone k l : gone = Some k → k ∉ l_adj (lk s l);
  go_acyclic l : sn (waited s) l;
  go_listed l : l ∈ active_locks s ++ sleeping_locks s → l ∈ dom (locks s);
  go_active l : l ∈ active_locks s → quiet s l;
  go_next l : l ∈ dom (locks s) → l < next_lock s
}.

(** All that the invariant depends on. *)
Record eframe (s s' : graph) : Prop := {
  ef_lk l : essence (lk s' l) = essence (lk s l);
  ef_dom : dom (locks s') = dom (locks s);
  ef_next : next_lock s' = next_lock s;
  ef_active : active_locks s' = active_locks s;
  ef_sleeping : sleeping_locks s' = sleeping_locks s;
  ef_filocks : v_filocks s' = v_filocks s;
  ef_status : lockmgr_status s' = lockmgr_status s;
  ef_pgraph : pgraph s' = pgraph s
}.

Lemma mframe_eframe s s' : mframe s s' → eframe s s'.
Proof. intros []. by split. Qed.
Lemma eframe_refl s : eframe s s.
Proof. by split. Qed.
Lemma eframe_trans s1 s2 s3 : eframe s1 s2 → eframe s2 s3 → eframe s1 s3.
Proof. intros [H1 ???????] [H2 ???????]. split; [intros l; by rewrite H2|congruence..]. Qed.

Lemma eframe_upd l f s : l ∈ dom (locks s) → (∀ d, essence (f d) = essence d) → eframe s (upd l f s).
Proof.
  intros Hl Hf. split; try done; [|by apply dom_upd]. intros k. rewrite lk_upd. case_decide; [subst; apply Hf|done].
Qed.

Lemma ef_fields s s' l : eframe s s' → core (lk s' l) = core (lk s l) ∧ pvertex (lk s' l) = pvertex (lk s l) ∧
  l_adj (lk s' l) = l_adj (lk s l) ∧ l_in (lk s' l) = l_in (lk s l) ∧ owner (lk s' l) = owner (lk s l) ∧ l_type (lk s' l) = l_type (lk s l).
Proof. intros H. pose proof (ef_lk _ _ H l) as E. unfold essence in E. unfold core, owner. by injection E as -> -> -> -> -> -> -> ->. Qed.

Lemma ef_in s s' l : eframe s s' → l_in (lk s' l) = l_in (lk s l).
Proof. intros H. by destruct (ef_fields s s' l H) as (_ & _ & _ & ? & _). Qed.
Lemma ef_quiet s s' l : eframe s s' → quiet s' l ↔ quiet s l.
Proof. intros H. unfold quiet. by setoid_rewrite (ef_in s s' _ H). Qed.
Lemma ef_live s s' l : eframe s s' → live s' l ↔ live s l.
Proof. intros H. unfold live. destruct (ef_fields s s' l H) as (_ & _ & _ & _ & _ & ->). by rewrite (ef_dom _ _ H). Qed.
Lemma ef_vertex s s' l : eframe s s' → vertex_ok s' l ↔ vertex_ok s l.
Proof. intros H. unfold vertex_ok. destruct (ef_fields s s' l H) as (_ & -> & _). by rewrite (ef_pgraph _ _ H). Qed.

Lemma sn_sub {A} (R R' : relation A) x : (∀ a b, R' a b → R a b) → sn R x → sn R' x.
Proof. intros H. induction 1 as [x _ IH]. constructor. intros y Hy. by apply IH, H. Qed.

Lemma graph_ok_eframe gone s s' : eframe s s' → graph_ok gone s → graph_ok gone s'.
Proof.
  intros Hf [H1 H2 H3 H4 H5 H6 H7 H8 H9]. pose proof (λ l, ef_fields s s' l Hf) as Hd.
  split.
  - by rewrite (ef_pgraph _ _ Hf).
  - intros l. rewrite (ef_live s s'), (ef_vertex s s') by done. apply H2.
  - intros l m. rewrite (ef_in s s'), !(ef_live s s') by done. destruct (Hd l) as (_ & _ & _ & _ & -> & _), (Hd m) as (_ & _ & _ & _ & -> & _). apply H3.
  - intros l m. rewrite (ef_in s s') by done. destruct (Hd l) as (_ & _ & -> & _). apply H4.
  - intros k l. destruct (Hd l) as (_ & _ & -> & _). apply H5.
  - intros l. eapply sn_sub; [|apply H6]. intros a b. unfold waited. by rewrite (ef_in s s').
  - intros l. rewrite (ef_active _ _ Hf), (ef_sleeping _ _ Hf), (ef_dom _ _ Hf). apply H7.
  - intros l. rewrite (ef_active _ _ Hf). intros Hl. apply (ef_quiet s s' l Hf). by apply H8.
  - intros l. rewrite (ef_dom _ _ Hf), (ef_next _ _ Hf). apply H9.
Qed.

Lemma go_adj gone s l x : graph_ok gone s → x ∈ l_adj (lk s l) → l ∈ l_in (lk s x).
Proof.
  intros Hok Hx. apply times_in. rewrite <-(go_sym _ _ Hok); [by apply times_in|]. intros E. by apply (go_gone _ _ Hok x l) in E.
Qed.

Lemma adj_closed gone s : graph_ok gone s → closed l_adj s.
Proof. intros Hok l v Hv. by destruct (go_in _ _ Hok v l (go_adj _ _ _ _ Hok Hv)) as ([? _] & _). Qed.
Lemma in_closed gone s : graph_ok gone s → closed l_in s.
Proof. intros Hok l v Hv. by destruct (go_in _ _ Hok l v Hv) as (_ & [? _] & _). Qed.

(** ** The searches *)

Lemma flk_graph_uncolor_ok gone s : graph_ok gone s → mframe s (flk_graph_uncolor s).
Proof.
  intros Hok. unfold flk_graph_uncolor. case_match; [|apply mframe_mark].
  pose proof (go_listed _ _ Hok) as Hl. change (locks s) with (locks (set_mark 1 s)) in Hl.
  eapply mframe_trans; [apply (mframe_mark s 1)|]. revert Hl. generalize (active_locks s ++ sleeping_locks s) (set_mark 1 s).
  intros ls. induction ls as [|l ls IH]; intros s' Hl; [apply mframe_refl|]. cbn [foldl].
  assert (mframe s' (upd l (set_l_color 0) s')) as Hm by (apply mframe_upd; [apply Hl; by left|done]).
  eapply mframe_trans; [exact Hm|]. apply IH. intros x Hx. rewrite (mf_dom _ _ Hm). apply Hl. by right.
Qed.

Lemma flk_color_reachables_ok gone s v : graph_ok gone s → ∃ n s', flk_color_reachables v s = Ret (n, s') ∧ mframe s s'.
Proof.
  intros Hok. apply search_colors; [..|by eapply adj_closed].
  - intros d d' E. unfold essence in E. by injection E.
  - intros. apply cframe_refl.
  - intros v0 a s0 _. simpl. destruct (has RECOMPUTE_LOCK (lk s0 v0)); apply cframe_refl.
Qed.

Lemma update_barrier_ok s v : v ∈ dom (locks s) → cframe s (update_barrier v s).
Proof.
  intros Hv. unfold update_barrier. case_match; [|apply cframe_refl]. cbv zeta.
  assert (cframe s (upd v (λ d, set_l_index (l_index d - 1) d) s)) as H1 by by apply cframe_upd.
  case_match; [|done]. eapply cframe_trans; [exact H1|]. apply cframe_upd; [by rewrite dom_upd|flags].
Qed.

Lemma flk_update_barriers_ok gone s v : graph_ok gone s → ∃ s', flk_update_barriers v s = Ret s' ∧ mframe s s'.
Proof.
  intros Hok. unfold flk_update_barriers.
  destruct (search_colors l_in (λ (lck : Z) '((u, s) : () * graph), (u, update_barrier lck s)) (λ (lck : Z) '((u, s) : () * graph), (u, update_barrier lck s)))
    with (v := v) (a := tt) (s := s) as (a' & s' & -> & Hm); [..|by exists s'].
  - intros d d' E. unfold essence in E. by injection E.
  - intros. by apply update_barrier_ok.
  - intros. by apply update_barrier_ok.
  - by eapply in_closed.
Qed.

Lemma flk_find_barriers_ok gone s v : graph_ok gone s → ∃ b s', flk_find_barriers v s = Ret (b, s') ∧ mframe s s'.
Proof.
  intros Hok. apply search_colors; [..|by eapply in_closed].
  - intros d d' E. unfold essence in E. by injection E.
  - intros. apply cframe_upd; [done|flags].
  - intros. apply cframe_upd; [done|flags].
Qed.

(** ** The process graph goes along *)

(** Only vertices of the process graph change. *)
Record pframe (s s' : graph) : Prop := {
  pf_vframe : vframe s s';
  pf_dom : dom (locks s') = dom (locks s);
  pf_vertex k : vertex_ok s k → vertex_ok s' k;
  pf_pg : pg_ok (pgraph s')
}.

Lemma pframe_trans s1 s2 s3 : pframe s1 s2 → pframe s2 s3 → pframe s1 s3.
Proof. intros [H1 H2 H3 _] [G1 G2 G3 G4]. split; [by eapply vframe_trans|congruence|auto|done]. Qed.

Lemma vf_fields s s' l : vframe s s' → core (lk s' l) = core (lk s l) ∧ l_adj (lk s' l) = l_adj (lk s l) ∧
  l_in (lk s' l) = l_in (lk s l) ∧ l_type (lk s' l) = l_type (lk s l) ∧ l_sedge (lk s' l) = l_sedge (lk s l).
Proof. intros H. pose proof (vf_lk _ _ H l) as E. unfold bare, set_pvertex in E. unfold core. injection E. intros. split_and!; congruence. Qed.

Lemma vf_lasting s s' l : vframe s s' → lasting (lk s' l) = lasting (lk s l).
Proof. intros H. change (lasting (bare (lk s' l)) = lasting (bare (lk s l))). by rewrite (vf_lk _ _ H). Qed.

Lemma graph_ok_pframe gone s s' : pframe s s' → graph_ok gone s → graph_ok gone s'.
Proof.
  intros [Hf Hdom Hv Hpg] [H1 H2 H3 H4 H5 H6 H7 H8 H9]. pose proof (λ l, vf_fields s s' l Hf) as Hd.
  assert (∀ l, l_in (lk s' l) = l_in (lk s l)) as Hin by (intros l; apply Hd).
  assert (∀ l, live s' l ↔ live s l) as Hlive by (intros l; unfold live; destruct (Hd l) as (_ & _ & _ & -> & _); by rewrite Hdom).
  split.
  - done.
  - intros l Hl. apply Hv, H2. by apply Hlive.
  - intros l m. rewrite Hin, !Hlive, !(vframe_owner s s') by done. apply H3.
  - intros l m. rewrite Hin. destruct (Hd l) as (_ & -> & _). apply H4.
  - intros k l. destruct (Hd l) as (_ & -> & _). apply H5.
  - intros l. eapply sn_sub; [|apply H6]. intros a b. unfold waited. by rewrite Hin.
  - intros l. rewrite (vf_active _ _ Hf), (vf_sleeping _ _ Hf), Hdom. apply H7.
  - intros l. rewrite (vf_active _ _ Hf). intros Hl m. rewrite Hin. by apply H8.
  - intros l. rewrite (vf_next _ _ Hf), Hdom. apply H9.
Qed.

Lemma flk_get_proc_vertex_dom s l p s' : flk_get_proc_vertex l s = Ret (p, s') → l ∈ dom (locks s) → dom (locks s') = dom (locks s).
Proof.
  intros H Hl. unfold flk_get_proc_vertex in H. assert (dom (<[l := lk s l]> (locks s)) = dom (locks s)) as Hi.
  { rewrite dom_insert_L. set_solver. }
  destruct (if pvertex (lk s l) =? -1 then _ else _) as [c| |]; [|done|done]. cbn [rbind] in H. destruct c; [by injection H as _ <-|].
  repeat case_match; cbv zeta in H; injection H as _ <-; simpl; rewrite dom_insert_L; set_solver.
Qed.

Lemma get_vertex_pframe s l : pg_ok (pgraph s) → l ∈ dom (locks s) → vertex_ok s l →
  ∃ p s', flk_get_proc_vertex l s = Ret (p, s') ∧ pframe s s' ∧ p ∈ dom (pvs (pgraph s')) ∧
    pv_owner (pv (pgraph s') p) = owner (lk s l) ∧ grown (λ _, True) (pgraph s) (pgraph s').
Proof.
  intros Hok Hl Hv. destruct (flk_get_proc_vertex_ok s l Hok Hv) as (p & s' & Hr & Hf & [Hok' Hg Hvx] & Hp & Ho & _).
  exists p, s'. split_and!; try done. split; [done|by eapply flk_get_proc_vertex_dom|done|done].
Qed.

Lemma set_pgraph_pframe s g : pg_ok g → (length (proc (pgraph s)) ≤ length (proc g))%nat → pframe s (set_pgraph g s).
Proof. intros Hg Hl. split; [apply vframe_pgraph|done| |done]. intros k Hk. by apply set_pgraph_vertex. Qed.

Lemma flk_update_proc_graph_ok fr to del s : pg_ok (pgraph s) → fr ∈ dom (locks s) → to ∈ dom (locks s) →
  vertex_ok s fr → vertex_ok s to → owner (lk s fr) ≠ owner (lk s to) →
  ∃ s', flk_update_proc_graph fr to del s = Ret s' ∧ pframe s s'.
Proof.
  intros Hok Hfd Htd Hfv Htv Hne. unfold flk_update_proc_graph.
  destruct (get_vertex_pframe s to Hok Htd Htv) as (tp & s1 & -> & Hp1 & Ht & Hto & _). cbn [rbind].
  pose proof Hp1 as [Hf1 Hd1 Hv1 Hok1].
  destruct (get_vertex_pframe s1 fr Hok1) as (fp & s2 & -> & Hp2 & Hf & Hfo & [Hk Hgo _]); [by rewrite Hd1|by apply Hv1|]. cbn [rbind].
  pose proof Hp2 as [Hf2 Hd2 Hv2 Hok2]. assert (pframe s s2) as Hp by by eapply pframe_trans.
  assert (tp ∈ dom (pvs (pgraph s2))) as Ht2 by by apply Hk.
  assert (fp ≠ tp) as Hft.
  { intros ->. apply Hne. rewrite <-Hto. rewrite (vframe_owner s s1) in Hfo by done. rewrite <-Hfo. by rewrite Hgo. }
  destruct del.
  - destruct (decide (edge (pgraph s2) fp tp)) as [He|He].
    + destruct (del_proc_edge_waits (pgraph s2) fp tp tp Hok2 He Ht2) as (g & -> & Hg & [Hkg _ Hlg] & _). cbn [rbind].
      destruct (flk_proc_release_waits g fp Hg ltac:(by apply Hkg)) as (g' & -> & Hg' & [_ _ Hlg'] & _). eexists. split; [done|].
      eapply pframe_trans; [exact Hp|]. apply set_pgraph_pframe; [done|lia].
    + unfold del_proc_edge. destruct (find_edge tp (pv_edge (pv (pgraph s2) fp))) eqn:E; [destruct He; apply edge_find; by eexists|]. cbn [rbind].
      destruct (flk_proc_release_waits (pgraph s2) fp Hok2 Hf) as (g' & -> & Hg' & [_ _ Hlg'] & _). eexists. split; [done|].
      eapply pframe_trans; [exact Hp|]. by apply set_pgraph_pframe.
  - destruct (add_proc_edge_waits (pgraph s2) fp tp Hok2 Hf Ht2 Hft) as (Hg & [_ _ Hlg] & _). eexists. split; [done|].
    eapply pframe_trans; [exact Hp|]. by apply set_pgraph_pframe.
Qed.

(** For an edge between two locks that the invariant knows. *)
Lemma update_proc_ok gone s fr to del : graph_ok gone s → live s fr → live s to → owner (lk s fr) ≠ owner (lk s to) →
  ∃ s', flk_update_proc_graph fr to del s = Ret s' ∧ pframe s s'.
Proof.
  intros Hok Hf Ht Hne. apply flk_update_proc_graph_ok; [apply (go_pg _ _ Hok)|apply Hf|apply Ht|by apply (go_vertex _ _ Hok)|by apply (go_vertex _ _ Hok)|done].
Qed.

(** ** Edges *)

(** What a routine on the graph leaves alone. *)
Record gframe (s s' : graph) : Prop := {
  gf_core l : core (lk s' l) = core (lk s l);
  gf_dom : dom (locks s') = dom (locks s);
  gf_next : next_lock s' = next_lock s;
  gf_active : active_locks s' = active_locks s;
  gf_sleeping : sleeping_locks s' = sleeping_locks s;
  gf_filocks : v_filocks s' = v_filocks s;
  gf_status : lockmgr_status s' = lockmgr_status s
}.

Lemma gframe_refl s : gframe s s.
Proof. by split. Qed.
Lemma gframe_trans s1 s2 s3 : gframe s1 s2 → gframe s2 s3 → gframe s1 s3.
Proof. intros [H1 ??????] [H2 ??????]. split; [intros l; by rewrite H2|congruence..]. Qed.
Lemma eframe_gframe s s' : eframe s s' → gframe s s'.
Proof. intros Hf. destruct Hf. split; try done. intros l. by apply ef_fields. Qed.
Lemma pframe_gframe s s' : pframe s s' → gframe s s'.
Proof. intros [Hf ? ? ?]. pose proof Hf as []. split; try done. intros l. by apply vf_fields. Qed.

Lemma gf_fields s s' l : gframe s s' → l_vnode (lk s' l) = l_vnode (lk s l) ∧ l_type (lk s' l) = l_type (lk s l) ∧
  l_start (lk s' l) = l_start (lk s l) ∧ l_end (lk s' l) = l_end (lk s l) ∧ l_flock (lk s' l) = l_flock (lk s l) ∧ owner (lk s' l) = owner (lk s l).
Proof. intros H. pose proof (gf_core _ _ H l) as E. unfold core in E. unfold owner. by injection E as -> -> -> -> ->. Qed.
Lemma gf_live s s' l : gframe s s' → live s' l ↔ live s l.
Proof. intros H. unfold live. destruct (gf_fields s s' l H) as (_ & -> & _). by rewrite (gf_dom _ _ H). Qed.

Lemma gf_blocks s s' a b : gframe s s' → BLOCKS (lk s' a) (lk s' b) = BLOCKS (lk s a) (lk s b).
Proof.
  intros H. unfold BLOCKS, SAME_OWNER, OVERLAP. by destruct (gf_fields s s' a H) as (_ & -> & -> & -> & -> & _), (gf_fields s s' b H) as (_ & -> & -> & -> & -> & _).
Qed.

Lemma same_owner_iff a b : SAME_OWNER a b = true ↔ owner a = owner b.
Proof. unfold SAME_OWNER, owner. rewrite andb_true_iff, !Z.eqb_eq. split; [by intros [-> ->]|by intros [= -> ->]]. Qed.

Lemma blocks_owner a b : BLOCKS a b = true → owner a ≠ owner b.
Proof. unfold BLOCKS. rewrite !andb_true_iff, negb_true_iff. intros [[H _] _] E%same_owner_iff. congruence. Qed.

(** A step of a routine on the graph: edges are added to the locks in [T] only, from locks that had some. *)
Record estep (T : Z → Prop) (s s' : graph) : Prop := {
  es_frame : gframe s s';
  es_in x : ¬ T x → l_in (lk s' x) = l_in (lk s x);
  es_quiet x : quiet s x → quiet s' x;
  es_grow x m : m ∈ l_in (lk s x) → m ∈ l_in (lk s' x);
  es_sedge x : l_sedge (lk s' x) = l_sedge (lk s x);
  es_lasting x : lasting (lk s' x) = lasting (lk s x)
}.

Lemma estep_refl T s : estep T s s.
Proof. split; [apply gframe_refl|done..]. Qed.
Lemma estep_trans T s1 s2 s3 : estep T s1 s2 → estep T s2 s3 → estep T s1 s3.
Proof.
  intros [H1 H2 H3 H4 H5 H6] [G1 G2 G3 G4 G5 G6]. split; [by eapply gframe_trans|intros x Hx; by rewrite G2, H2|auto|auto|intros x; by rewrite G5|intros x; by rewrite G6].
Qed.
Lemma mframe_estep T s s' : mframe s s' → estep T s s'.
Proof.
  intros H. pose proof (mframe_eframe _ _ H) as He. split; [by apply eframe_gframe|intros x _; by apply ef_in|intros x; by apply ef_quiet|intros x m; by rewrite (ef_in s s')|apply (mf_sedge _ _ H)|apply (mf_lasting _ _ H)].
Qed.
Lemma pframe_estep T s s' : pframe s s' → estep T s s'.
Proof.
  intros H. pose proof (pf_vframe _ _ H) as Hv. split; [by apply pframe_gframe|intros x _; by apply vf_fields| | |intros x; by apply vf_fields|intros x; by apply vf_lasting].
  - intros x Hx m. destruct (vf_fields s s' m Hv) as (_ & _ & -> & _). apply Hx.
  - intros x m. by destruct (vf_fields s s' x Hv) as (_ & _ & -> & _).
Qed.
Lemma graph_ok_mframe gone s s' : mframe s s' → graph_ok gone s → graph_ok gone s'.
Proof. intros H. by apply graph_ok_eframe, mframe_eframe. Qed.

Definition link (v t : Z) (s : graph) : graph :=
  upd t (λ d, set_l_in (v :: l_in d) d) (upd v (λ d, set_l_adj (t :: l_adj d) d) s).

Lemma link_lk v t s l : v ≠ t → lk (link v t s) l =
  if decide (l = t) then set_l_in (v :: l_in (lk s t)) (lk s t)
  else if decide (l = v) then set_l_adj (t :: l_adj (lk s v)) (lk s v) else lk s l.
Proof. intros Hne. unfold link. rewrite !lk_upd. repeat case_decide; congruence. Qed.

Lemma link_frame v t s : v ≠ t → v ∈ dom (locks s) → t ∈ dom (locks s) → gframe s (link v t s).
Proof.
  intros Hne Hv Ht. split; try done.
  - intros l. rewrite link_lk by done. repeat case_decide; by subst.
  - unfold link. rewrite !dom_upd; [done|done|by rewrite dom_upd].
Qed.

Lemma link_in v t s l : v ≠ t → l_in (lk (link v t s) l) = if decide (l = t) then v :: l_in (lk s t) else l_in (lk s l).
Proof. intros Hne. rewrite link_lk by done. repeat case_decide; by subst. Qed.

Lemma link_estep v t s : v ≠ t → live s v → live s t → ¬ quiet s v → estep (.= t) s (link v t s).
Proof.
  intros Hne Hv Ht Hq. split.
  - apply link_frame; [done|apply Hv|apply Ht].
  - intros x Hx. by rewrite link_in, decide_False.
  - intros x Hx m. rewrite link_in by done. case_decide as E; [|apply Hx]. subst m. intros [->|Hin]%elem_of_cons; [done|by apply (Hx t)].
  - intros x m. rewrite link_in by done. case_decide; [subst; by right|done].
  - intros x. rewrite link_lk by done. repeat case_decide; by subst.
  - intros x. rewrite link_lk by done. repeat case_decide; by subst.
Qed.

Lemma link_ok gone s v t : graph_ok gone s → live s v → live s t → owner (lk s v) ≠ owner (lk s t) → quiet s t → ¬ quiet s v →
  gone ≠ Some t → graph_ok gone (link v t s).
Proof.
  intros Hok Hv Ht Ho Hqt Hqv Hgt. assert (v ≠ t) as Hne by by intros ->.
  pose proof (link_frame v t s Hne (proj1 Hv) (proj1 Ht)) as Hf. pose proof (λ l, link_in v t s l Hne) as Hin.
  assert (∀ a b, waited (link v t s) a b → (waited s a b ∨ (a = t ∧ b = v)) ∧ b ≠ t) as Hw.
  { intros a b. unfold waited. rewrite Hin. case_decide as E; [subst a|].
    - intros [->|Hb]%elem_of_cons; [split; [by right|done]|]. split; [by left|]. intros ->. by apply (Hqt t).
    - intros Hb. split; [by left|]. intros ->. by apply (Hqt a). }
  assert (∀ x, x ≠ t → sn (waited (link v t s)) x) as Hsn.
  { intros x. pose proof (go_acyclic _ _ Hok x) as Hx. induction Hx as [x _ IH]. intros Hxt. constructor. intros y Hy.
    destruct (Hw x y Hy) as [[Hxy|[? _]] Hyt]; [by apply IH|done]. }
  split.
  - exact (go_pg _ _ Hok).
  - intros l Hl. assert (live s l) as Hl' by by apply (gf_live _ _ _ Hf). pose proof (go_vertex _ _ Hok l Hl') as Hvx. unfold vertex_ok in *.
    rewrite link_lk by done. repeat case_decide; by subst.
  - intros l m. rewrite Hin, !(gf_live _ _ _ Hf). destruct (gf_fields _ _ l Hf) as (_ & _ & _ & _ & _ & ->), (gf_fields _ _ m Hf) as (_ & _ & _ & _ & _ & ->).
    case_decide as E; [|apply (go_in _ _ Hok)]. subst l. intros [->|Hm]%elem_of_cons; [done|by apply (go_in _ _ Hok)].
  - intros l m Hm. pose proof (go_sym _ _ Hok l m Hm) as Hs. rewrite Hin, link_lk by done.
    destruct (decide (l = t)) as [->|Hlt]; simpl; (destruct (decide (m = t)) as [->|Hmt]; simpl).
    + rewrite (proj2 (Z.eqb_neq t v)) by congruence. done.
    + done.
    + destruct (decide (l = v)) as [->|Hlv]; simpl; [rewrite !Z.eqb_refl; congruence|by rewrite (proj2 (Z.eqb_neq l v))].
    + destruct (decide (l = v)) as [->|Hlv]; simpl; [by rewrite (proj2 (Z.eqb_neq m t))|done].
  - intros k l Hk. pose proof (go_gone _ _ Hok k) as Hg. rewrite link_lk by done. repeat case_decide; simpl; [by apply Hg| |by apply Hg].
    intros [->|Hin']%elem_of_cons; [done|by apply (Hg v)].
  - intros l. destruct (decide (l = t)) as [->|Hl]; [|by apply Hsn]. constructor. intros y Hy. apply Hsn. by destruct (Hw t y Hy).
  - intros l. rewrite (gf_dom _ _ Hf). apply (go_listed _ _ Hok).
  - intros l Hl. apply (es_quiet _ _ _ (link_estep v t s Hne Hv Ht Hqv)). by apply (go_active _ _ Hok).
  - intros l. rewrite (gf_dom _ _ Hf). apply (go_next _ _ Hok).
Qed.

Lemma flk_add_edge_ok gone s v t ug : graph_ok gone s → live s v → live s t → owner (lk s v) ≠ owner (lk s t) → quiet s t → ¬ quiet s v →
  gone ≠ Some t → ∃ s', flk_add_edge v t false ug s = Ret (None, s') ∧ graph_ok gone s' ∧ estep (.= t) s s'.
Proof.
  intros Hok Hv Ht Ho Hqt Hqv Hgt. unfold flk_add_edge. destruct (COLORED s t); [exists s; split; [done|]; split; [done|apply estep_refl]|].
  cbv zeta. fold (link v t s). assert (v ≠ t) as Hne by by intros ->.
  pose proof (link_ok gone s v t Hok Hv Ht Ho Hqt Hqv Hgt) as Hok1. pose proof (link_estep v t s Hne Hv Ht Hqv) as He1.
  destruct ug; [|exists (link v t s); done].
  pose proof (es_frame _ _ _ He1) as Hf.
  destruct (update_proc_ok gone (link v t s) v t false Hok1) as (s' & -> & Hp); [by apply (gf_live s)|by apply (gf_live s)| |].
  - destruct (gf_fields _ _ v Hf) as (_ & _ & _ & _ & _ & ->), (gf_fields _ _ t Hf) as (_ & _ & _ & _ & _ & ->). done.
  - exists s'. split; [done|]. split; [by eapply graph_ok_pframe|]. eapply estep_trans; [exact He1|by apply pframe_estep].
Qed.

(** ** [flk_recompute_dependencies] *)

(** The locks that edges may be added to. *)
Definition topo (gone : option Z) (s : graph) (T : list Z) : Prop := ∀ t, t ∈ T → live s t ∧ quiet s t ∧ gone ≠ Some t.
(** A lock that may be asked for edges to them. *)
Definition asks (s : graph) (T : list Z) (v : Z) : Prop := ¬ quiet s v ∨ ∀ t, t ∈ T → BLOCKS (lk s t) (lk s v) = false.

Lemma topo_step gone T s s' ts : estep T s s' → topo gone s ts → topo gone s' ts.
Proof. intros He H t Ht. destruct (H t Ht) as (H1 & H2 & H3). split; [by apply (gf_live _ _ _ (es_frame _ _ _ He))|]. split; [by apply (es_quiet _ _ _ He)|done]. Qed.

Lemma noisy_step T s s' v : estep T s s' → ¬ quiet s v → ¬ quiet s' v.
Proof. intros He Hn Hq. apply Hn. intros m Hm. apply (Hq m). by apply (es_grow _ _ _ He). Qed.

Lemma asks_step T s s' ts v : estep T s s' → asks s ts v → asks s' ts v.
Proof.
  intros He [H|H]; [left; by eapply noisy_step|]. right. intros t Ht. rewrite (gf_blocks s s') by apply He. auto.
Qed.

Lemma estep_sub (T T' : Z → Prop) s s' : (∀ x, T x → T' x) → estep T s s' → estep T' s s'.
Proof. intros H [H1 H2 H3 H4 H5 H6]. split; auto. Qed.

Lemma topo_sub gone s T T' : (∀ t, t ∈ T' → t ∈ T) → topo gone s T → topo gone s T'.
Proof. intros H Ht t Hin. apply Ht. auto. Qed.
Lemma asks_sub s T T' v : (∀ t, t ∈ T' → t ∈ T) → asks s T v → asks s T' v.
Proof. intros H [Ha|Ha]; [by left|right; auto]. Qed.

Lemma recompute_vertex_ok gone ug v : ∀ T count s, graph_ok gone s → live s v → topo gone s T → asks s T v →
  ∃ n s', recompute_vertex v T ug count s = Ret (n, s') ∧ graph_ok gone s' ∧ estep (.∈ T) s s'.
Proof.
  induction T as [|t T IH]; intros count s Hok Hv Ht Ha; cbn [recompute_vertex]; [exists count, s; split; [done|]; split; [done|apply estep_refl]|].
  assert (∀ x, x ∈ T → x ∈ t :: T) as Hsub by (intros; by right).
  assert (∀ count s', graph_ok gone s' → estep (.∈ t :: T) s s' →
    ∃ n s'', recompute_vertex v T ug count s' = Ret (n, s'') ∧ graph_ok gone s'' ∧ estep (.∈ t :: T) s s'') as Hgo.
  { intros count' s' Hok' He. destruct (IH count' s' Hok') as (n & s'' & Hr & Hok'' & He'').
    - by apply (gf_live _ _ _ (es_frame _ _ _ He)).
    - eapply topo_step; [exact He|]. exact (topo_sub _ _ _ _ Hsub Ht).
    - eapply asks_step; [exact He|]. exact (asks_sub _ _ _ _ Hsub Ha).
    - exists n, s''. split; [done|]. split; [done|]. eapply estep_trans; [exact He|]. exact (estep_sub _ _ _ _ Hsub He''). }
  destruct (COLORED s t); [apply Hgo; [done|apply estep_refl]|].
  destruct (BLOCKS (lk s t) (lk s v)) eqn:Eb; [|apply Hgo; [done|apply estep_refl]].
  destruct (Ht t ltac:(by left)) as (Htl & Htq & Htg).
  assert (¬ quiet s v) as Hn by (destruct Ha as [?|Ha]; [done|]; specialize (Ha t ltac:(by left)); congruence).
  destruct (flk_add_edge_ok gone s v t ug Hok Hv Htl) as (s1 & -> & Hok1 & He1); [|done|done|done|]. { intros E. exact (blocks_owner _ _ Eb (eq_sym E)). }
  cbn [rbind]. assert (mframe s1 (COLOR t s1)) as Hm1.
  { apply mframe_upd; [|done]. rewrite (gf_dom _ _ (es_frame _ _ _ He1)). apply Htl. }
  assert (graph_ok gone (COLOR t s1)) as Hok1' by by eapply graph_ok_mframe.
  destruct (flk_color_reachables_ok gone (COLOR t s1) t Hok1') as (n & s2 & -> & Hm2). cbn [rbind].
  apply Hgo; [by eapply graph_ok_mframe|]. eapply estep_trans; [eapply estep_sub; [|exact He1]; intros x ->; by left|].
  eapply estep_trans; by apply mframe_estep.
Qed.

(** The walk up the edges: [I] are the locks that wait for each. *)
Section Walk.
Context (gone : option Z) (T : list Z) (ug bf : bool) (s0 : graph).

Record walking (s : graph) : Prop := {
  wk_ok : graph_ok gone s;
  wk_frame : gframe s0 s;
  wk_in x : x ∉ T → l_in (lk s x) = l_in (lk s0 x);
  wk_topo : topo gone s T;
  wk_quiet x : quiet s0 x → quiet s x;
  wk_grow x m : m ∈ l_in (lk s0 x) → m ∈ l_in (lk s x);
  wk_lasting x : lasting (lk s x) = lasting (lk s0 x)
}.
Context (topo0 : topo gone s0 T).

Lemma walking_step s s' : walking s → graph_ok gone s' → estep (.∈ T) s s' → walking s'.
Proof using Type.
  intros [H1 H2 H3 H4 H5 H6 H7] Hok He. split; [done|eapply gframe_trans; [exact H2|apply He]| |by eapply topo_step| | |].
  - intros x Hx. by rewrite (es_in _ _ _ He), H3.
  - intros x Hx. by apply (es_quiet _ _ _ He), H5.
  - intros x m Hm. by apply (es_grow _ _ _ He), H6.
  - intros x. by rewrite (es_lasting _ _ _ He), H7.
Qed.
Lemma walking_mframe s s' : walking s → mframe s s' → walking s'.
Proof using Type. intros Hw Hm. apply (walking_step s); [done|eapply graph_ok_mframe; [done|apply Hw]|by apply mframe_estep]. Qed.

(** Only places of the search change. *)
Lemma walking_eframe s s' : walking s → eframe s s' → (∀ x, lasting (lk s' x) = lasting (lk s x)) → walking s'.
Proof using Type.
  intros [H1 H2 H3 H4 H5 H6 H7] He Hgr. pose proof (eframe_gframe _ _ He) as Hg.
  split; [by eapply graph_ok_eframe|by eapply gframe_trans| | | | |].
  - intros x Hx. by rewrite (ef_in s s'), H3.
  - intros t Ht. destruct (H4 t Ht) as (G1 & G2 & G3). split; [by apply (gf_live s)|]. split; [by apply (ef_quiet s)|done].
  - intros x Hx. apply (ef_quiet s s' x He). by apply H5.
  - intros x m. rewrite (ef_in s s') by done. apply H6.
  - intros x. by rewrite Hgr.
Qed.

Lemma asks_walking s v : walking s → asks s0 T v → asks s T v.
Proof using Type.
  intros Hw [Hn|Hb].
  - left. intros Hq. apply Hn. intros m Hm. apply (Hq m). by apply (wk_grow _ Hw).
  - right. intros t Ht. rewrite (gf_blocks s0 s) by apply Hw. auto.
Qed.

(** The locks below a vertex of the walk. *)
Definition reach (v u : Z) : Prop := rtc (waited s0) v u.

Lemma walk_child s v c : walking s → v ∉ T → c ∈ l_in (lk s0 v) → c ∉ T ∧ live s c ∧ ¬ quiet s c ∧ l_in (lk s c) = l_in (lk s0 c).
Proof using Type.
  intros Hw Hv Hc. rewrite <-(wk_in _ Hw v Hv) in Hc. assert (c ∉ T) as HcT.
  { intros Ht. destruct (wk_topo _ Hw c Ht) as (_ & Hq & _). by apply (Hq v). }
  destruct (go_in _ _ (wk_ok _ Hw) v c Hc) as (_ & Hl & _). split; [done|]. split; [done|]. split; [intros Hq; by apply (Hq v)|by apply (wk_in _ Hw)].
Qed.

(** What comes of the vertex on top of the stack: it goes, or the lock of its next edge comes on top of it. *)
Lemma recompute_turn s v rest : walking s → v ∉ T → live s v → asks s T v →
  ∃ s', walking s' ∧ (∀ u, l_sedge (lk s' u) = l_sedge (lk s u)) ∧
    ((∀ fuel, recompute_loop (S fuel) T ug bf (v :: rest) s = recompute_loop fuel T ug bf rest s') ∨
     ∃ c cs, l_sedge (lk s v) = c :: cs ∧ ∀ fuel, recompute_loop (S fuel) T ug bf (v :: rest) s =
       recompute_loop fuel T ug bf (c :: v :: rest) (upd v (set_l_sedge cs) (upd c (λ d, set_l_sedge (l_in d) d) s'))).
Proof using Type.
  intros Hw HvT Hv Ha.
  assert (∀ count s1, walking s1 → (∀ u, l_sedge (lk s1 u) = l_sedge (lk s u)) →
    ∃ s', walking s' ∧ (∀ u, l_sedge (lk s' u) = l_sedge (lk s u)) ∧
    let next fuel := match l_sedge (lk s1 v) with
      | lock :: ins =>
          if count =? zlen T then
            let s := upd v (clr_flag RECOMPUTE_DONE) s1 in
            let* s := if bf then flk_update_barriers v (flk_graph_uncolor s) else Ret s in
            recompute_loop fuel T ug bf rest s
          else
            let s := upd lock (λ d, set_l_sedge (l_in d) d) s1 in
            recompute_loop fuel T ug bf (lock :: v :: rest) (upd v (set_l_sedge ins) s)
      | [] => recompute_loop fuel T ug bf rest (upd v (clr_flag RECOMPUTE_DONE) s1)
      end in
    ((∀ fuel, next fuel = recompute_loop fuel T ug bf rest s') ∨
     ∃ c cs, l_sedge (lk s v) = c :: cs ∧ ∀ fuel, next fuel =
       recompute_loop fuel T ug bf (c :: v :: rest) (upd v (set_l_sedge cs) (upd c (λ d, set_l_sedge (l_in d) d) s')))) as Hnext.
  { intros count s1 Hw1 Hs1. cbv zeta. assert (v ∈ dom (locks s1)) as Hvd.
    { rewrite (gf_dom _ _ (wk_frame _ Hw1)), <-(gf_dom _ _ (wk_frame _ Hw)). apply Hv. }
    assert (mframe s1 (upd v (clr_flag RECOMPUTE_DONE) s1)) as Hm by (apply mframe_upd; [done|flags]).
    assert (walking (upd v (clr_flag RECOMPUTE_DONE) s1)) as Hwm by by apply (walking_mframe s1).
    rewrite (Hs1 v). destruct (l_sedge (lk s v)) as [|c cs] eqn:E.
    - exists (upd v (clr_flag RECOMPUTE_DONE) s1). split; [done|]. split; [intros u; by rewrite (mf_sedge _ _ Hm)|]. by left.
    - destruct (count =? zlen T).
      + destruct bf.
        * set (s2 := upd v (clr_flag RECOMPUTE_DONE) s1) in *. pose proof (flk_graph_uncolor_ok _ s2 (wk_ok _ Hwm)) as Hu.
          destruct (flk_update_barriers_ok gone (flk_graph_uncolor s2) v) as (s3 & Hr & Hm3); [by eapply graph_ok_mframe; [|apply Hwm]|].
          exists s3. assert (mframe s1 s3) as Hm13 by (eapply mframe_trans; [exact Hm|]; by eapply mframe_trans).
          split; [by apply (walking_mframe s1)|]. split; [intros u; by rewrite (mf_sedge _ _ Hm13)|]. left. intros fuel. by rewrite Hr.
        * exists (upd v (clr_flag RECOMPUTE_DONE) s1). split; [done|]. split; [intros u; by rewrite (mf_sedge _ _ Hm)|]. by left.
      + exists s1. split; [done|]. split; [done|]. right. by exists c, cs. }
  cbn [recompute_loop]. cbv zeta. destruct (has RECOMPUTE_DONE (lk s v)); [by apply Hnext|].
  destruct (has BARRIER_LOCK (lk s v) && truthy (l_index (lk s v))).
  - set (s1 := upd v (set_l_index (l_index (lk s v) - 1)) s). assert (mframe s s1) as Hm1 by (apply mframe_upd; [apply Hv|done]).
    set (s2 := if l_index (lk s v) - 1 =? 0 then upd v (clr_flag BARRIER_LOCK) s1 else s1).
    assert (mframe s s2) as Hm2.
    { unfold s2. destruct (l_index (lk s v) - 1 =? 0); [|exact Hm1]. eapply mframe_trans; [exact Hm1|]. apply mframe_upd; [rewrite (mf_dom _ _ Hm1); apply Hv|flags]. }
    exists s2. split; [by apply (walking_mframe s)|]. split; [intros u; by rewrite (mf_sedge _ _ Hm2)|]. by left.
  - set (s1 := upd v (set_flag RECOMPUTE_DONE) s). assert (mframe s s1) as Hm1 by (apply mframe_upd; [apply Hv|flags]).
    assert (graph_ok gone s1) as Hok1 by (eapply graph_ok_mframe; [done|apply Hw]).
    pose proof (flk_graph_uncolor_ok _ s1 Hok1) as Hm2. assert (graph_ok gone (flk_graph_uncolor s1)) as Hok2 by by eapply graph_ok_mframe.
    destruct (flk_color_reachables_ok gone (flk_graph_uncolor s1) v Hok2) as (n & s3 & Hr3 & Hm3).
    assert (mframe s s3) as Hm by (eapply mframe_trans; [exact Hm1|]; by eapply mframe_trans).
    assert (walking s3) as Hw3 by by apply (walking_mframe s). pose proof (mframe_estep (.∈ T) _ _ Hm) as He.
    destruct (recompute_vertex_ok gone ug v T n s3 (wk_ok _ Hw3)) as (n' & s4 & Hr4 & Hok4 & He4).
    { by apply (gf_live _ _ _ (es_frame _ _ _ He)). } { apply Hw3. } { by eapply asks_step. }
    destruct (Hnext n' s4) as (s' & Hw' & Hs' & Hn').
    { by apply (walking_step s3). } { intros u. by rewrite (es_sedge _ _ _ He4), (mf_sedge _ _ Hm). }
    exists s'. split; [done|]. split; [done|]. fold s1. rewrite Hr3. cbn [rbind]. rewrite Hr4. exact Hn'.
Qed.

Lemma recompute_walk_ok v : sn (waited s0) v → v ∉ T → asks s0 T v → ∀ n s rest, walking s → live s v →
  length (l_sedge (lk s v)) = n → (∀ c, c ∈ l_sedge (lk s v) → c ∈ l_in (lk s0 v)) →
  ∃ m s', walking s' ∧ (∀ u, ¬ reach v u → l_sedge (lk s' u) = l_sedge (lk s u)) ∧
    ∀ fuel, recompute_loop (m + fuel) T ug bf (v :: rest) s = recompute_loop fuel T ug bf rest s'.
Proof using Type.
  intros Hsn. pose proof (sn_no_cycle _ _ Hsn) as Hnc. induction Hsn as [v Hacc IHsn]. intros HvT Ha.
  induction n as [|n IHn]; intros s rest Hw Hv Hlen Hin; destruct (recompute_turn s v rest Hw HvT Hv (asks_walking s v Hw Ha)) as (s1 & Hw1 & Hs1 & [Hr|(c & cs & Ec & Hr)]);
    try (exists 1%nat, s1; split; [done|]; split; [intros u _; apply Hs1|exact Hr]); [by rewrite Ec in Hlen|].
  assert (c ∈ l_in (lk s0 v)) as Hc by (apply Hin; rewrite Ec; by left).
  destruct (walk_child s1 v c Hw1 HvT Hc) as (HcT & Hcl & Hcn & Hci).
  assert (¬ reach c v) as Hncv by (intros Hcv; apply Hnc; by eapply tc_rtc_r; [apply tc_once|]).
  assert (c ≠ v) as Hcv by (intros ->; apply Hncv; constructor).
  assert (live s1 v) as Hv1 by (apply (gf_live s0 s1 v (wk_frame _ Hw1)), (gf_live s0 s v (wk_frame _ Hw)); done).
  set (s2 := upd v (set_l_sedge cs) (upd c (λ d, set_l_sedge (l_in d) d) s1)) in Hr.
  assert (eframe s1 s2) as He2.
  { eapply eframe_trans; apply eframe_upd; [apply Hcl|done| |done]. rewrite dom_upd by apply Hcl. apply Hv1. }
  assert (∀ u, l_sedge (lk s2 u) = if decide (u = v) then cs else if decide (u = c) then l_in (lk s1 c) else l_sedge (lk s1 u)) as Hs2.
  { intros u. unfold s2. rewrite !lk_upd. repeat case_decide; by subst. }
  assert (asks s0 T c) as Hac by (left; intros Hq; by apply (Hq v)).
  destruct (IHsn c Hc) with (n := length (l_sedge (lk s2 c))) (s := s2) (rest := v :: rest) as (m1 & s3 & Hw3 & Hs3 & Hr3).
  { intros Hcc. apply Hnc. eapply tc_l; [exact Hc|]. apply sn_no_cycle in Hcc; [done|]. by apply Hacc. } { done. } { done. }
  { apply (walking_eframe s1); [done|done|]. intros u. unfold s2. rewrite !lk_upd. repeat case_decide; by subst. } { by apply (ef_live s1). } { done. }
  { intros x. rewrite Hs2, decide_False, decide_True by done. by rewrite Hci. }
  assert (l_sedge (lk s3 v) = cs) as Hv3 by (rewrite Hs3, Hs2, decide_True by done; done).
  destruct (IHn s3 rest Hw3) as (m2 & s4 & Hw4 & Hs4 & Hr4).
  { apply (gf_live s0 s3 v (wk_frame _ Hw3)), (gf_live s0 s v (wk_frame _ Hw)). done. }
  { rewrite Hv3. rewrite Ec in Hlen. simpl in Hlen. lia. } { intros x. rewrite Hv3. intros Hx. apply Hin. rewrite Ec. by right. }
  exists (S (m1 + m2)), s4. split; [done|]. split.
  - intros u Hu. assert (¬ reach c u) as Hcu by (intros H; apply Hu; by eapply rtc_l).
    assert (u ≠ v) by (intros ->; apply Hu; constructor). assert (u ≠ c) by (intros ->; apply Hcu; constructor).
    rewrite Hs4, Hs3, Hs2, !decide_False by done. apply Hs1.
  - intros fuel. cbn [Nat.add]. by rewrite Hr, <-Nat.add_assoc, Hr3, Hr4.
Qed.
End Walk.

(** The routine ends, with nothing but edges and flags changed. *)
Lemma flk_recompute_dependencies_ok gone request T ug s : graph_ok gone s → live s request → request ∉ T → topo gone s T →
  asks s T request → ∃ n s', (∀ fuel, (n ≤ fuel)%nat → flk_recompute_dependencies fuel request T ug s = Ret s') ∧ graph_ok gone s' ∧
    gframe s s' ∧ (∀ x, x ∉ T → l_in (lk s' x) = l_in (lk s x)) ∧ topo gone s' T ∧ (∀ x, quiet s x → quiet s' x) ∧
    (∀ x, lasting (lk s' x) = lasting (lk s x)).
Proof.
  intros Hok Hl HrT Ht Ha. unfold flk_recompute_dependencies. destruct (decide (T = [])) as [->|Hne].
  { exists 0%nat, s. split; [done|]. split_and!; [done|apply gframe_refl|done|done|done|done]. }
  rewrite bool_decide_eq_false_2 by done. pose proof (flk_graph_uncolor_ok _ s Hok) as Hm1.
  destruct (flk_find_barriers_ok gone (flk_graph_uncolor s) request) as (bf & s1 & Hr1 & Hm2); [by eapply graph_ok_mframe|].
  set (s2 := upd request (λ d, set_l_sedge (l_in d) (set_flag RECOMPUTE_DONE d)) s1).
  assert (eframe s s1) as He1 by (apply mframe_eframe; by eapply mframe_trans).
  assert (eframe s s2) as He2.
  { eapply eframe_trans; [exact He1|]. apply eframe_upd; [|done]. rewrite (ef_dom _ _ He1). apply Hl. }
  assert (walking gone T s s2) as Hw.
  { apply (walking_eframe gone T s s); [split; [done|apply gframe_refl|done..]|done|]. intros x. unfold s2. rewrite lk_upd.
    assert (∀ l, lasting (lk s1 l) = lasting (lk s l)) as Hgr by (intros l; by rewrite (mf_lasting _ _ Hm2), (mf_lasting _ _ Hm1)).
    case_decide as Ex; [|done]. subst. rewrite <-Hgr. by eapply lasting_set. }
  destruct (recompute_walk_ok gone T ug bf s request (go_acyclic _ _ Hok request) HrT Ha (length (l_sedge (lk s2 request))) s2 [] Hw) as (m & s' & Hw' & _ & Hr).
  { by apply (ef_live s s2). } { done. }
  { intros c. unfold s2. rewrite lk_upd, decide_True by done. simpl. by rewrite (ef_in s s1). }
  exists (S m), s'. split_and!; try apply Hw'. intros fuel Hf. rewrite Hr1. cbn [rbind]. fold s2.
  replace fuel with (m + S (fuel - S m))%nat by lia. by rewrite Hr.
Qed.
