(* ===== verification/FlockWake.v ===== *)
(** * Locks that come and go in the graph ([uts/common/os/flock.c])

    Edges that are taken away, the wakeup of the locks that they come from, new descriptors and
    those that are given back, under the invariant [graph_ok]. *)

From stdpp Require Import relations.
From S2P Require Import Prelude Flock FlockReq FlockProc FlockWait FlockDeadlock FlockLists FlockGraph.

(** Everything but flags and the process graph. *)
Record wframe (s s' : graph) : Prop := {
  wf_frame : gframe s s';
  wf_adj l : l_adj (lk s' l) = l_adj (lk s l);
  wf_in l : l_in (lk s' l) = l_in (lk s l);
  wf_vertex l : vertex_ok s l → vertex_ok s' l;
  wf_pg : pg_ok (pgraph s) → pg_ok (pgraph s')
}.

Lemma wframe_trans s1 s2 s3 : wframe s1 s2 → wframe s2 s3 → wframe s1 s3.
Proof.
  intros [H1 H2 H3 H4 H5] [G1 G2 G3 G4 G5]. split; [by eapply gframe_trans|intros l; by rewrite G2|intros l; by rewrite G3|auto|auto].
Qed.
Lemma eframe_wframe s s' : eframe s s' → wframe s s'.
Proof.
  intros H. split; [by apply eframe_gframe|intros l; by apply ef_fields|intros l; by apply ef_fields|intros l; by apply ef_vertex|].
  by rewrite (ef_pgraph _ _ H).
Qed.
Lemma pframe_wframe s s' : pframe s s' → wframe s s'.
Proof.
  intros H. pose proof (pf_vframe _ _ H) as Hv. split; [by apply pframe_gframe|intros l; by apply vf_fields|intros l; by apply vf_fields|by apply H|].
  intros _. apply H.
Qed.

Lemma wf_quiet s s' l : wframe s s' → quiet s' l ↔ quiet s l.
Proof. intros H. unfold quiet. by setoid_rewrite (wf_in s s' H). Qed.

Lemma graph_ok_wframe gone s s' : wframe s s' → graph_ok gone s → graph_ok gone s'.
Proof.
  intros [Hg Ha Hi Hv Hpg] [H1 H2 H3 H4 H5 H6 H7 H8 H9].
  assert (∀ l, live s' l ↔ live s l) as Hl by (intros; by apply gf_live).
  assert (∀ l, owner (lk s' l) = owner (lk s l)) as Ho by (intros l; by apply gf_fields).
  split.
  - by apply Hpg.
  - intros l Hlive. apply Hv, H2. by apply Hl.
  - intros l m. rewrite Hi, !Hl, !Ho. apply H3.
  - intros l m. rewrite Hi, Ha. apply H4.
  - intros k l. rewrite Ha. apply H5.
  - intros l. eapply sn_sub; [|apply H6]. intros a b. unfold waited. by rewrite Hi.
  - intros l. rewrite (gf_active _ _ Hg), (gf_sleeping _ _ Hg), (gf_dom _ _ Hg). apply H7.
  - intros l. rewrite (gf_active _ _ Hg). intros Hlive m. rewrite Hi. by apply H8.
  - intros l. rewrite (gf_next _ _ Hg), (gf_dom _ _ Hg). apply H9.
Qed.

(** ** Edges taken away *)

Lemma ADJ_lk fr to s l : lk (ADJ_LIST_REMOVE fr to s) l = if decide (l = fr) then set_l_adj (remove_one to (l_adj (lk s fr))) (lk s fr) else lk s l.
Proof. unfold ADJ_LIST_REMOVE. by rewrite lk_upd. Qed.
Lemma IN_lk fr to s l : lk (IN_LIST_REMOVE fr to s) l = if decide (l = to) then set_l_in (remove_one fr (l_in (lk s to))) (lk s to) else lk s l.
Proof. unfold IN_LIST_REMOVE. by rewrite lk_upd. Qed.

Lemma ADJ_frame fr to s : fr ∈ dom (locks s) → gframe s (ADJ_LIST_REMOVE fr to s).
Proof. intros H. split; try done; [|by apply dom_upd]. intros l. rewrite ADJ_lk. case_decide; by subst. Qed.
Lemma IN_frame fr to s : to ∈ dom (locks s) → gframe s (IN_LIST_REMOVE fr to s).
Proof. intros H. split; try done; [|by apply dom_upd]. intros l. rewrite IN_lk. case_decide; by subst. Qed.

(** An edge to [k]: out of both lists, or only out of the list of [k] when it has gone from the other. *)
Definition unlink (ar : bool) (fr k : Z) (s : graph) : graph := IN_LIST_REMOVE fr k (if ar then ADJ_LIST_REMOVE fr k s else s).

Lemma unlink_adj ar fr k s l : l_adj (lk (unlink ar fr k s) l) =
  if decide (ar = true ∧ l = fr) then remove_one k (l_adj (lk s fr)) else l_adj (lk s l).
Proof.
  unfold unlink. rewrite IN_lk. assert (∀ s', l_adj (if decide (l = k) then set_l_in (remove_one fr (l_in (lk s' k))) (lk s' k) else lk s' l) = l_adj (lk s' l)) as ->.
  { intros s'. case_decide; by subst. }
  destruct ar; [|rewrite decide_False; [done|by intros [? _]]]. rewrite ADJ_lk. destruct (decide (l = fr)) as [->|Hne]; [by rewrite decide_True|].
  rewrite decide_False; [done|]. by intros [_ ?].
Qed.
Lemma unlink_in ar fr k s l : l_in (lk (unlink ar fr k s) l) = if decide (l = k) then remove_one fr (l_in (lk s k)) else l_in (lk s l).
Proof.
  unfold unlink. assert (∀ l, l_in (lk (if ar then ADJ_LIST_REMOVE fr k s else s) l) = l_in (lk s l)) as Hin.
  { intros x. destruct ar; [|done]. rewrite ADJ_lk. case_decide; by subst. }
  rewrite IN_lk. case_decide; simpl; [by rewrite Hin|apply Hin].
Qed.
Lemma unlink_frame ar fr k s : fr ∈ dom (locks s) → k ∈ dom (locks s) → gframe s (unlink ar fr k s).
Proof.
  intros Hf Hk. unfold unlink. destruct ar; [|by apply IN_frame]. pose proof (ADJ_frame fr k s Hf) as Ha.
  eapply gframe_trans; [exact Ha|]. apply IN_frame. by rewrite (gf_dom _ _ Ha).
Qed.
Lemma unlink_pvertex ar fr k s l : pvertex (lk (unlink ar fr k s) l) = pvertex (lk s l).
Proof.
  unfold unlink. rewrite IN_lk. destruct ar; [rewrite !ADJ_lk|]; repeat case_decide; by subst.
Qed.

Lemma unlink_ok ar gone fr k s : graph_ok gone s → fr ∈ l_in (lk s k) → ar = true ∨ gone = Some k →
  graph_ok gone (unlink ar fr k s) ∧ gframe s (unlink ar fr k s).
Proof.
  intros Hok Hin Hag. destruct (go_in _ _ Hok k fr Hin) as (Hk & Hf & _).
  pose proof (unlink_frame ar fr k s (proj1 Hf) (proj1 Hk)) as Hg. split; [|done].
  assert (∀ l m, m ∈ l_in (lk (unlink ar fr k s) l) → m ∈ l_in (lk s l)) as Hsub.
  { intros l m. rewrite unlink_in. case_decide as E; [subst; apply remove_one_in|done]. }
  assert (∀ l, live (unlink ar fr k s) l ↔ live s l) as Hl by (intros; by apply gf_live).
  assert (∀ l, owner (lk (unlink ar fr k s) l) = owner (lk s l)) as Ho by (intros l; by apply gf_fields).
  split.
  - assert (pgraph (unlink ar fr k s) = pgraph s) as -> by by destruct ar. apply (go_pg _ _ Hok).
  - intros l Hlive. unfold vertex_ok. rewrite unlink_pvertex. assert (pgraph (unlink ar fr k s) = pgraph s) as -> by by destruct ar.
    apply (go_vertex _ _ Hok). by apply Hl.
  - intros l m Hm%Hsub. rewrite !Hl, !Ho. by apply (go_in _ _ Hok).
  - intros l m Hm. pose proof (go_sym _ _ Hok l m Hm) as Hs. rewrite unlink_adj, unlink_in.
    destruct (decide (m = k)) as [->|Hmk].
    + destruct Hag as [->|?]; [|done]. rewrite times_remove. destruct (decide (l = fr)) as [->|Hlf].
      * rewrite decide_True, times_remove, !Z.eqb_refl by done. lia.
      * rewrite decide_False, (proj2 (Z.eqb_neq l fr)) by (done || by intros [_ ?]). lia.
    + case_decide as E; [|done]. destruct E as [_ ->]. rewrite times_remove, (proj2 (Z.eqb_neq m k)) by done. lia.
  - intros g l Hgone. rewrite unlink_adj. case_decide; [intros Hr%remove_one_in; revert Hr|]; by apply (go_gone _ _ Hok g).
  - intros l. eapply sn_sub; [|apply (go_acyclic _ _ Hok)]. intros a b. apply Hsub.
  - intros l. rewrite (gf_active _ _ Hg), (gf_sleeping _ _ Hg), (gf_dom _ _ Hg). apply (go_listed _ _ Hok).
  - intros l. rewrite (gf_active _ _ Hg). intros Hlive m Hm%Hsub. by apply (go_active _ _ Hok l Hlive m).
  - intros l. rewrite (gf_next _ _ Hg), (gf_dom _ _ Hg). apply (go_next _ _ Hok).
Qed.

(** What the edges to [k] have gone means. *)
Record freed_of (k : Z) (s s' : graph) : Prop := {
  fo_frame : gframe s s';
  fo_own : l_in (lk s' k) = [];
  fo_in x : x ≠ k → l_in (lk s' x) = l_in (lk s x)
}.

Lemma freed_quiet k s s' x : freed_of k s s' → quiet s x → quiet s' x.
Proof. intros [_ H1 H2] Hq m. destruct (decide (m = k)) as [->|Hne]; [rewrite H1; apply not_elem_of_nil|]. rewrite H2 by done. apply Hq. Qed.

Lemma wakeup_loop_ok ar gone k : ar = true ∨ gone = Some k → ∀ ls s, graph_ok gone s → l_in (lk s k) = ls →
  ∃ s', wakeup_loop k ar ls s = Ret s' ∧ graph_ok gone s' ∧ freed_of k s s'.
Proof.
  intros Hag. induction ls as [|fr ls IH]; intros s Hok Hin; cbn [wakeup_loop]; [by exists s; split; [|split; [|split; [apply gframe_refl| |]]]|].
  assert (fr ∈ l_in (lk s k)) as Hfr by (rewrite Hin; by left). destruct (go_in _ _ Hok k fr Hfr) as (Hk & Hf & Hne).
  assert (fr ≠ k) as Hfk by by intros ->.
  set (s1 := if ar then ADJ_LIST_REMOVE fr k s else s).
  assert (gframe s s1) as Hg1 by (unfold s1; destruct ar; [apply ADJ_frame, Hf|apply gframe_refl]).
  assert (∀ l, pvertex (lk s1 l) = pvertex (lk s l)) as Hpv by (intros l; unfold s1; destruct ar; [rewrite ADJ_lk; case_decide; by subst|done]).
  assert (pgraph s1 = pgraph s) as Hpg by (unfold s1; by destruct ar).
  assert (∀ l, vertex_ok s l → vertex_ok s1 l) as Hvx by (intros l; unfold vertex_ok; by rewrite Hpv, Hpg).
  destruct (flk_update_proc_graph_ok fr k true s1) as (s2 & Hr2 & Hp2).
  { rewrite Hpg. apply (go_pg _ _ Hok). } { rewrite (gf_dom _ _ Hg1). apply Hf. } { rewrite (gf_dom _ _ Hg1). apply Hk. }
  { by apply Hvx, (go_vertex _ _ Hok). } { by apply Hvx, (go_vertex _ _ Hok). }
  { destruct (gf_fields _ _ fr Hg1) as (_ & _ & _ & _ & _ & ->), (gf_fields _ _ k Hg1) as (_ & _ & _ & _ & _ & ->). done. }
  fold s1. rewrite Hr2. cbn [rbind]. set (s3 := if NOT_BLOCKED (lk s2 fr) then GRANT_WAKEUP fr s2 else s2).
  assert (gframe s s2) as Hg2 by (eapply gframe_trans; [exact Hg1|by apply pframe_gframe]).
  assert (eframe s2 s3) as He3.
  { unfold s3. destruct (NOT_BLOCKED (lk s2 fr)); [|apply eframe_refl]. apply eframe_upd; [|done]. rewrite (gf_dom _ _ Hg2). apply Hf. }
  assert (wframe s1 s3) as Hw by (eapply wframe_trans; [by apply pframe_wframe|by apply eframe_wframe]).
  destruct (unlink_ok ar gone fr k s Hok Hfr Hag) as [Hoku Hgu].
  assert (wframe (unlink ar fr k s) (IN_LIST_REMOVE fr k s3)) as Hwu.
  { assert (gframe s3 (IN_LIST_REMOVE fr k s3)) as Hg4.
    { apply IN_frame. rewrite (gf_dom _ _ (wf_frame _ _ Hw)), (gf_dom _ _ Hg1). apply Hk. }
    assert (gframe s1 (IN_LIST_REMOVE fr k s1)) as Hgu1 by (apply IN_frame; rewrite (gf_dom _ _ Hg1); apply Hk).
    unfold unlink. fold s1. split.
    - destruct Hg4 as [A1 A2 A3 A4 A5 A6 A7], Hgu1 as [B1 B2 B3 B4 B5 B6 B7], (wf_frame _ _ Hw) as [C1 C2 C3 C4 C5 C6 C7].
      split; [intros l; by rewrite A1, C1, <-B1|congruence..].
    - intros l. rewrite !IN_lk. case_decide; simpl; apply (wf_adj _ _ Hw).
    - intros l. rewrite !IN_lk. case_decide; simpl; [by rewrite (wf_in _ _ Hw)|apply (wf_in _ _ Hw)].
    - intros l. pose proof (wf_vertex _ _ Hw l) as Hv. unfold vertex_ok in *. rewrite !IN_lk. simpl. case_decide; [subst; exact Hv|exact Hv].
    - apply (wf_pg _ _ Hw). }
  assert (graph_ok gone (IN_LIST_REMOVE fr k s3)) as Hok4 by by eapply graph_ok_wframe.
  destruct (IH (IN_LIST_REMOVE fr k s3) Hok4) as (s' & Hr' & Hok' & Hf').
  { rewrite (wf_in _ _ Hwu), unlink_in, decide_True by done. rewrite Hin. simpl. by rewrite Z.eqb_refl. }
  exists s'. split; [done|]. split; [done|]. destruct Hf' as [F1 F2 F3]. split; [|done|].
  - eapply gframe_trans; [exact Hgu|]. eapply gframe_trans; [apply Hwu|done].
  - intros x Hx. by rewrite F3, (wf_in _ _ Hwu), unlink_in, decide_False.
Qed.

Lemma flk_wakeup_ok ar gone k s : ar = true ∨ gone = Some k → graph_ok gone s →
  ∃ s', flk_wakeup k ar s = Ret s' ∧ graph_ok gone s' ∧ freed_of k s s'.
Proof. intros Hag Hok. by apply wakeup_loop_ok. Qed.

Lemma drop_in_edges_ok k : ∀ ls s, graph_ok (Some k) s → l_in (lk s k) = ls →
  ∃ s', drop_in_edges k ls s = Ret s' ∧ graph_ok (Some k) s' ∧ freed_of k s s'.
Proof.
  induction ls as [|fr ls IH]; intros s Hok Hin; cbn [drop_in_edges]; [by exists s; split; [|split; [|split; [apply gframe_refl| |]]]|].
  assert (fr ∈ l_in (lk s k)) as Hfr by (rewrite Hin; by left). destruct (go_in _ _ Hok k fr Hfr) as (Hk & Hf & Hne).
  destruct (unlink_ok false (Some k) fr k s Hok Hfr ltac:(by right)) as [Hoku Hgu].
  destruct (update_proc_ok (Some k) (unlink false fr k s) fr k true Hoku) as (s2 & Hr2 & Hp2); [by apply (gf_live s)|by apply (gf_live s)| |].
  { destruct (gf_fields _ _ fr Hgu) as (_ & _ & _ & _ & _ & ->), (gf_fields _ _ k Hgu) as (_ & _ & _ & _ & _ & ->). done. }
  change (IN_LIST_REMOVE fr k s) with (unlink false fr k s). rewrite Hr2. cbn [rbind].
  pose proof (pframe_wframe _ _ Hp2) as Hw.
  destruct (IH s2) as (s' & Hr' & Hok' & [F1 F2 F3]).
  { by eapply graph_ok_wframe. } { rewrite (wf_in _ _ Hw), unlink_in, decide_True by done. rewrite Hin. simpl. by rewrite Z.eqb_refl. }
  exists s'. split; [done|]. split; [done|]. split; [|done|].
  - eapply gframe_trans; [exact Hgu|]. eapply gframe_trans; [apply Hw|done].
  - intros x Hx. by rewrite F3, (wf_in _ _ Hw), unlink_in, decide_False.
Qed.
