(* ===== verification/FlockSwap.v ===== *)
(** * A lock gives way to its parts ([uts/common/os/flock.c])

    New descriptors, those that are given back, and the part of [flk_relation] in which a
    lock leaves the list of active locks and its parts get into it. *)

From stdpp Require Import relations.
From S2P Require Import Prelude Flock FlockReq FlockProc FlockWait FlockDeadlock FlockLists FlockGraph FlockWake.

(** The invariant where the edges stay. *)
Lemma graph_ok_of gone s s' : graph_ok gone s → pg_ok (pgraph s') → (∀ l, live s' l → vertex_ok s' l) →
  (∀ l, l_in (lk s' l) = l_in (lk s l)) → (∀ l, l_adj (lk s' l) = l_adj (lk s l)) →
  (∀ l m, m ∈ l_in (lk s l) → live s' l ∧ live s' m ∧ owner (lk s' m) ≠ owner (lk s' l)) →
  (∀ l, l ∈ active_locks s' ++ sleeping_locks s' → l ∈ dom (locks s')) → (∀ l, l ∈ active_locks s' → quiet s l) →
  (∀ l, l ∈ dom (locks s') → l < next_lock s') → graph_ok gone s'.
Proof.
  intros [H1 H2 H3 H4 H5 H6 H7 H8 H9] G1 G2 G3 G4 G5 G6 G7 G8. split; [exact G1|exact G2|..|exact G6| |exact G8].
  - intros l m. rewrite G3. apply G5.
  - intros l m. rewrite G3, G4. apply H4.
  - intros k l. rewrite G4. apply H5.
  - intros l. eapply sn_sub; [|apply H6]. intros a b. unfold waited. by rewrite G3.
  - intros l Hl m. rewrite G3. by apply G7.
Qed.

(** A change that has to do with none of the edges. *)
Definition linkage (d : lockd) : Z * (Z * Z) * Z * list Z * list Z := (l_type d, owner d, pvertex d, l_adj d, l_in d).

Lemma graph_ok_lists gone s s' : graph_ok gone s → pgraph s' = pgraph s → dom (locks s') = dom (locks s) → next_lock s' = next_lock s →
  (∀ l, linkage (lk s' l) = linkage (lk s l)) → (∀ l, l ∈ active_locks s' ++ sleeping_locks s' → l ∈ dom (locks s)) →
  (∀ l, l ∈ active_locks s' → quiet s l) → graph_ok gone s'.
Proof.
  intros Hok Hp Hd Hn Hl Hlist Hq.
  assert (∀ l, l_type (lk s' l) = l_type (lk s l) ∧ owner (lk s' l) = owner (lk s l) ∧ pvertex (lk s' l) = pvertex (lk s l) ∧
    l_adj (lk s' l) = l_adj (lk s l) ∧ l_in (lk s' l) = l_in (lk s l)) as Hf.
  { intros l. specialize (Hl l). unfold linkage in Hl. rewrite !pair_equal_spec in Hl. tauto. }
  assert (∀ l, live s' l ↔ live s l) as Hlive by (intros l; unfold live; by rewrite Hd, (proj1 (Hf l))).
  apply (graph_ok_of gone s); rewrite ?Hp, ?Hd, ?Hn; try done.
  - apply (go_pg _ _ Hok).
  - intros l Hll. unfold vertex_ok. destruct (Hf l) as (_ & _ & -> & _). rewrite Hp. apply (go_vertex _ _ Hok). by apply Hlive.
  - intros l. apply Hf.
  - intros l. apply Hf.
  - intros l m. destruct (Hf l) as (_ & -> & _), (Hf m) as (_ & -> & _). rewrite !Hlive. apply (go_in _ _ Hok).
  - apply (go_next _ _ Hok).
Qed.

Lemma graph_ok_upd gone l f s : graph_ok gone s → l ∈ dom (locks s) → linkage (f (lk s l)) = linkage (lk s l) → graph_ok gone (upd l f s).
Proof.
  intros Hok Hl Hf. apply (graph_ok_lists gone s); try done; [by apply dom_upd| |apply (go_listed _ _ Hok)|apply (go_active _ _ Hok)].
  intros k. rewrite lk_upd. by case_decide; subst.
Qed.

Lemma graph_ok_ungone k s : graph_ok (Some k) s → l_in (lk s k) = [] → graph_ok None s.
Proof.
  intros [H1 H2 H3 H4 H5 H6 H7 H8 H9] Hk. split; [exact H1|exact H2|exact H3| |done|exact H6|exact H7|exact H8|exact H9]. intros l m _. destruct (decide (m = k)) as [->|Hm]; [|apply H4; congruence].
  rewrite Hk. apply times_zero. by apply (H5 k).
Qed.

(** ** Descriptors that are given back *)

Lemma quiet_adj s k : graph_ok None s → quiet s k → l_adj (lk s k) = [].
Proof.
  intros Hok Hq. destruct (l_adj (lk s k)) as [|m l] eqn:E; [done|]. destruct (Hq m). apply (go_adj None _ _ _ Hok). rewrite E. by left.
Qed.

Lemma flk_free_lock_lk k s l : l ≠ k → lk (flk_free_lock k s) l = lk s l.
Proof.
  intros Hl. unfold flk_free_lock. case_match; [by rewrite lk_upd, decide_False|]. unfold lk. simpl. by rewrite lookup_delete_ne.
Qed.

Lemma flk_free_lock_ok k s : graph_ok None s → quiet s k → l_in (lk s k) = [] → k ∈ dom (locks s) →
  k ∉ active_locks s ++ sleeping_locks s → graph_ok None (flk_free_lock k s) ∧ (∀ x, quiet s x → quiet (flk_free_lock k s) x) ∧
  (∀ l, l ≠ k → l ∈ dom (locks (flk_free_lock k s)) ↔ l ∈ dom (locks s)).
Proof.
  intros Hok Hq Hin Hk Hn. unfold flk_free_lock. destruct (has REFERENCED_LOCK (lk s k)).
  - assert (eframe s (upd k (set_flag DELETED_LOCK) s)) as He by by apply eframe_upd. split; [by eapply graph_ok_eframe|].
    split; [intros x; by apply ef_quiet|]. intros l _. by rewrite (ef_dom _ _ He).
  - set (s' := set_locks (delete k (locks s)) s).
    assert (∀ l, l ≠ k → lk s' l = lk s l) as Hlk by (intros l Hl; unfold lk; simpl; by rewrite lookup_delete_ne).
    assert (lk s' k = blank) as Hkb by (unfold lk; simpl; by rewrite lookup_delete_eq).
    assert (∀ l, l_in (lk s' l) = l_in (lk s l)) as Hi.
    { intros l. destruct (decide (l = k)) as [->|Hne]; [by rewrite Hkb, Hin|by rewrite Hlk]. }
    assert (∀ l, l_adj (lk s' l) = l_adj (lk s l)) as Ha.
    { intros l. destruct (decide (l = k)) as [->|Hne]; [by rewrite Hkb, quiet_adj|by rewrite Hlk]. }
    assert (∀ l, l ≠ k → live s l → live s' l) as Hl.
    { intros l Hne [H1 H2]. split; [simpl; rewrite dom_delete_L; set_solver|by rewrite Hlk]. }
    split; [|split; [intros x Hx m; rewrite Hi; apply Hx|intros l Hl'; simpl; rewrite dom_delete_L; set_solver]].
    apply (graph_ok_of None s); try done.
    + apply (go_pg _ _ Hok).
    + intros l [H1 H2]. simpl in H1. rewrite dom_delete_L in H1. assert (l ≠ k) as Hlk' by set_solver. unfold vertex_ok.
      rewrite Hlk in * by done. apply (go_vertex _ _ Hok). split; [set_solver|done].
    + intros l m Hm. assert (l ≠ k) as Hlk' by (intros ->; rewrite Hin in Hm; by apply elem_of_nil in Hm).
      assert (m ≠ k) as Hmk by (intros ->; by apply (Hq l)). destruct (go_in _ _ Hok l m Hm) as (H1 & H2 & H3).
      rewrite !Hlk by done. auto.
    + intros l Hl'. pose proof (go_listed _ _ Hok l Hl'). simpl. rewrite dom_delete_L. set_solver.
    + apply (go_active _ _ Hok).
    + intros l. simpl. rewrite dom_delete_L. intros Hld. apply (go_next _ _ Hok). set_solver.
Qed.

(** ** The edges to a lock, from the side that they come from *)

Lemma ADJ_all_ok k : ∀ ls s, (∀ l, l ∈ ls → l ∈ dom (locks s)) → let s' := for_all (λ lck, ADJ_LIST_REMOVE lck k) ls s in
  gframe s s' ∧ pgraph s' = pgraph s ∧ ∀ l, l_in (lk s' l) = l_in (lk s l) ∧ pvertex (lk s' l) = pvertex (lk s l) ∧
    ∀ m, times m (l_adj (lk s' l)) = (times m (l_adj (lk s l)) - if (m =? k)%Z then times l ls else 0)%nat.
Proof.
  induction ls as [|fr ls IH]; intros s Hls; cbv zeta.
  - split; [apply gframe_refl|]. split; [done|]. intros l. split; [done|]. split; [done|]. intros m. simpl. case_match; lia.
  - cbn [for_all foldl]. pose proof (ADJ_frame fr k s (Hls fr ltac:(by left))) as Hf.
    destruct (IH (ADJ_LIST_REMOVE fr k s)) as (Hg & Hp & Hl). { intros l Hl. rewrite (gf_dom _ _ Hf). apply Hls. by right. }
    fold (for_all (λ lck, ADJ_LIST_REMOVE lck k) ls (ADJ_LIST_REMOVE fr k s)).
    split; [by eapply gframe_trans|]. split; [done|]. intros l. destruct (Hl l) as (Hi & Hv & Hm). rewrite Hi, Hv. rewrite ADJ_lk in *.
    split; [by case_decide; subst|]. split; [by case_decide; subst|]. intros m. rewrite Hm. cbn [times].
    destruct (decide (l = fr)) as [->|Hne].
    + cbn [l_adj set_l_adj]. rewrite times_remove, Z.eqb_refl. destruct (m =? k)%Z; lia.
    + rewrite (proj2 (Z.eqb_neq l fr)) by done. done.
Qed.

Lemma ADJ_all_graph k s : graph_ok None s → graph_ok (Some k) (for_all (λ lck, ADJ_LIST_REMOVE lck k) (l_in (lk s k)) s).
Proof.
  intros Hok. destruct (ADJ_all_ok k (l_in (lk s k)) s) as (Hg & Hp & Hl).
  { intros l Hl. by apply (go_in _ _ Hok k l Hl). }
  set (s' := for_all _ _ s) in *.
  assert (∀ l, l_in (lk s' l) = l_in (lk s l)) as Hi by (intros l; apply Hl).
  destruct Hok as [H1 H2 H3 H4 H5 H6 H7 H8 H9]. split.
  - by rewrite Hp.
  - intros l. rewrite (gf_live _ _ _ Hg). unfold vertex_ok. destruct (Hl l) as (_ & -> & _). rewrite Hp. apply H2.
  - intros l m. rewrite Hi, !(gf_live _ _ _ Hg). destruct (gf_fields _ _ l Hg) as (_ & _ & _ & _ & _ & ->), (gf_fields _ _ m Hg) as (_ & _ & _ & _ & _ & ->). apply H3.
  - intros l m Hm. rewrite Hi. destruct (Hl l) as (_ & _ & ->). rewrite (proj2 (Z.eqb_neq m k)) by congruence. rewrite H4 by done. lia.
  - intros k' l [= <-]. apply times_zero. destruct (Hl l) as (_ & _ & ->). rewrite Z.eqb_refl, H4 by done. lia.
  - intros l. eapply sn_sub; [|apply H6]. intros a b. unfold waited. by rewrite Hi.
  - intros l. rewrite (gf_active _ _ Hg), (gf_sleeping _ _ Hg), (gf_dom _ _ Hg). apply H7.
  - intros l. rewrite (gf_active _ _ Hg). intros Ha m. rewrite Hi. by apply H8.
  - intros l. rewrite (gf_dom _ _ Hg), (gf_next _ _ Hg). apply H9.
Qed.

(** ** New descriptors *)

(** A copy of [k] with other ends. *)
Definition with_range (a b : Z) (d : lockd) : lockd := set_l_end b (set_l_start a d).

Lemma new_part_ok k a b s : graph_ok None s → live s k → let '(p, s') := new_part k (with_range a b) s in
  p = next_lock s ∧ p ∉ dom (locks s) ∧ dom (locks s') = {[p]} ∪ dom (locks s) ∧
  core (lk s' p) = core (with_range a b (lk s k)) ∧ l_in (lk s' p) = [] ∧ (∀ l, l ≠ p → lk s' l = lk s l) ∧
  (∀ l, l_in (lk s' l) = l_in (lk s l)) ∧
  active_locks s' = active_locks s ∧ sleeping_locks s' = sleeping_locks s ∧ v_filocks s' = v_filocks s ∧
  lockmgr_status s' = lockmgr_status s ∧ graph_ok None s'.
Proof.
  intros Hok Hk. unfold new_part, flk_get_lock. set (p := next_lock s). cbv zeta. set (s1 := Graph _ _ _ _ _ _ _ _).
  assert (p ∉ dom (locks s)) as Hp by (intros Hp; pose proof (go_next _ _ Hok _ Hp); lia).
  assert (k ≠ p) as Hkp by (intros ->; by apply Hp, Hk).
  assert (∀ l, l ≠ p → lk s1 l = lk s l) as H1 by (intros l Hl; unfold lk; simpl; by rewrite lookup_insert_ne).
  assert (lk s p = blank) as Hb by (unfold lk; by rewrite (proj1 (not_elem_of_dom _ _) Hp)).
  rewrite H1 by done. set (f := λ d, with_range a b (COPY d (lk s k))). set (s' := upd p f s1).
  assert (lk s1 p = set_pvertex (-1) blank) as H1p by (unfold lk; simpl; by rewrite lookup_insert_eq).
  assert (∀ l, lk s' l = if decide (l = p) then with_range a b (COPY (set_pvertex (-1) blank) (lk s k)) else lk s l) as Hlk.
  { intros l. unfold s'. rewrite lk_upd. case_decide as E; [subst; unfold f; by rewrite H1p|by apply H1]. }
  assert (∀ l, l_in (lk s' l) = l_in (lk s l)) as Hi.
  { intros l. rewrite Hlk. case_decide; [subst; by rewrite Hb|done]. }
  assert (∀ l, l_adj (lk s' l) = l_adj (lk s l)) as Ha.
  { intros l. rewrite Hlk. case_decide; [subst; by rewrite Hb|done]. }
  assert (dom (locks s') = {[p]} ∪ dom (locks s)) as Hd by (simpl; rewrite !dom_insert_L; set_solver).
  assert (∀ l, l ∈ dom (locks s) → lk s' l = lk s l) as Hold by (intros l Hl; rewrite Hlk, decide_False; [done|by intros ->]).
  split; [done|]. split; [done|]. split; [done|]. split; [by rewrite Hlk, decide_True|]. split; [by rewrite Hlk, decide_True|].
  split; [intros l Hl; by rewrite Hlk, decide_False|]. split; [done|]. do 4 (split; [done|]).
  apply (graph_ok_of None s); [done|apply (go_pg _ _ Hok)|..|done|done| | |apply (go_active _ _ Hok)|].
  - intros l [Hl Hlt]. rewrite Hd in Hl. unfold vertex_ok. rewrite Hlk in *. case_decide as E; [exact (go_vertex _ _ Hok k Hk)|].
    apply (go_vertex _ _ Hok). split; [set_solver|done].
  - intros l m Hm. destruct (go_in _ _ Hok l m Hm) as ([H2 H3] & [H4 H5] & H6). unfold live. rewrite Hd, !Hold by done. set_solver.
  - intros l Hl. rewrite Hd. apply elem_of_union_r. by apply (go_listed _ _ Hok).
  - intros l. rewrite Hd. intros [->%elem_of_singleton|Hl%(go_next _ _ Hok)]%elem_of_union; simpl; fold p; lia.
Qed.

(** ** The list of active locks changes *)

(** Locks stay what they are, but for flags and edges, and those that wait for none still do. *)
Record aframe (s s' : graph) : Prop := {
  af_core l : core (lk s' l) = core (lk s l);
  af_dom : dom (locks s') = dom (locks s);
  af_sleeping : sleeping_locks s' = sleeping_locks s;
  af_status : lockmgr_status s' = lockmgr_status s;
  af_quiet x : quiet s x → quiet s' x
}.

Lemma aframe_trans s1 s2 s3 : aframe s1 s2 → aframe s2 s3 → aframe s1 s3.
Proof. intros [H1 H2 H3 H4 H5] [G1 G2 G3 G4 G5]. split; [intros l; by rewrite G1|congruence..|auto]. Qed.
Lemma gframe_aframe s s' : gframe s s' → (∀ x, quiet s x → quiet s' x) → aframe s s'.
Proof. intros [H1 H2 H3 H4 H5 H6 H7] Hq. by split. Qed.
Lemma eframe_aframe s s' : eframe s s' → aframe s s'.
Proof. intros H. apply gframe_aframe; [by apply eframe_gframe|]. intros x. by apply ef_quiet. Qed.

Lemma core_fields d d' : core d = core d' → l_vnode d = l_vnode d' ∧ l_type d = l_type d' ∧ l_start d = l_start d' ∧ l_end d = l_end d' ∧
  l_flock d = l_flock d' ∧ owner d = owner d'.
Proof. unfold core, owner. intros E. by injection E as -> -> -> -> ->. Qed.

Lemma af_live s s' l : aframe s s' → live s l → live s' l.
Proof. intros H [H1 H2]. unfold live. rewrite (af_dom _ _ H). destruct (core_fields _ _ (af_core _ _ H l)) as (_ & -> & _). done. Qed.

Lemma aframe_flag p f s : p ∈ dom (locks s) → (∀ d, essence (f d) = essence d) → aframe s (upd p f s).
Proof. intros Hp Hf. apply eframe_aframe. by apply eframe_upd. Qed.

Lemma active_ok_aframe s s' : aframe s s' → active_locks s' = active_locks s → v_filocks s' = v_filocks s → active_ok s → active_ok s'.
Proof.
  intros Hf Ha Hv Hok. apply (active_ok_ext s); [done|done|done|]. intros l _. unfold vn, st.
  destruct (core_fields _ _ (af_core _ _ Hf l)) as (-> & _ & -> & _). done.
Qed.

Lemma linked_in_rest s p : locks (linked_in s p) = locks s ∧ sleeping_locks (linked_in s p) = sleeping_locks s ∧
  pgraph (linked_in s p) = pgraph s ∧ next_lock (linked_in s p) = next_lock s ∧ lockmgr_status (linked_in s p) = lockmgr_status s.
Proof. unfold linked_in. repeat case_match; done. Qed.

Lemma insert_active_ok gone p s : graph_ok gone s → active_ok s → p ∉ active_locks s → p ∈ dom (locks s) → quiet s p →
  let s' := flk_insert_active_lock p s in
  graph_ok gone s' ∧ active_ok s' ∧ aframe s s' ∧ active_locks s' ≡ₚ p :: active_locks s ∧ active_locks s `sublist_of` active_locks s'.
Proof.
  intros Hok Ha Hp Hd Hq s'. destruct (flk_insert_active_lock_ok s p Ha Hp) as (Ha' & (q1 & q2 & Eq & Eq' & _) & Hlk). fold s' in Ha', Eq', Hlk.
  assert (s' = upd p (set_flag ACTIVE_LOCK) (linked_in s p)) as Hs' by done.
  destruct (linked_in_rest s p) as (E1 & E2 & E3 & E4 & E5).
  assert (dom (locks s') = dom (locks s)) as Hdom by (rewrite Hs', dom_upd, E1; [done|by rewrite E1]).
  assert (sleeping_locks s' = sleeping_locks s) as Hsl by by rewrite Hs'.
  assert (aframe s s') as Hf.
  { split; [|done|done|by rewrite Hs'|]; [intros l; rewrite Hlk; by case_decide; subst|]. intros x Hx m. rewrite Hlk. case_decide; [subst; apply Hx|apply Hx]. }
  assert (active_locks s' ≡ₚ p :: active_locks s) as Hperm by (rewrite Eq, Eq'; symmetry; apply Permutation_middle).
  split; [|split; [done|split; [done|split; [done|]]]].
  - apply (graph_ok_lists gone s); [done|by rewrite Hs'|done|by rewrite Hs'|..].
    + intros l. rewrite Hlk. by case_decide; subst.
    + intros l. rewrite Hsl, elem_of_app, Hperm, elem_of_cons. intros [[->|Hl]|Hl]; [done|..]; apply (go_listed _ _ Hok); set_solver.
    + intros l. rewrite Hperm, elem_of_cons. intros [->|Hl]; [done|by apply (go_active _ _ Hok)].
  - rewrite Eq, Eq'. apply sublist_app; [done|]. by apply sublist_cons.
Qed.

Lemma insert_all_ok gone : ∀ ps s, graph_ok gone s → active_ok s → NoDup ps →
  (∀ p, p ∈ ps → p ∉ active_locks s ∧ p ∈ dom (locks s) ∧ quiet s p) → let s' := for_all flk_insert_active_lock ps s in
  graph_ok gone s' ∧ active_ok s' ∧ aframe s s' ∧ active_locks s' ≡ₚ ps ++ active_locks s ∧ active_locks s `sublist_of` active_locks s'.
Proof.
  induction ps as [|p ps IH]; intros s Hok Ha Hnd Hps s'; [split; [done|]; split; [done|]; split; [by split|]; done|].
  apply NoDup_cons in Hnd as [Hp Hnd]. destruct (Hps p ltac:(by left)) as (H1 & H2 & H3).
  destruct (insert_active_ok gone p s Hok Ha H1 H2 H3) as (Hok1 & Ha1 & Hf1 & Hp1 & Hs1).
  destruct (IH (flk_insert_active_lock p s) Hok1 Ha1 Hnd) as (Hok2 & Ha2 & Hf2 & Hp2 & Hs2).
  - intros q Hq. destruct (Hps q ltac:(by right)) as (G1 & G2 & G3). rewrite Hp1, (af_dom _ _ Hf1).
    split; [set_solver|]. split; [done|by apply (af_quiet _ _ Hf1)].
  - split; [done|]. split; [done|]. split; [by eapply aframe_trans|]. split; [|by etrans].
    unfold s'. cbn [for_all foldl]. fold (for_all flk_insert_active_lock ps (flk_insert_active_lock p s)). rewrite Hp2, Hp1. symmetry. apply Permutation_middle.
Qed.

Lemma delete_active_ok gone k s : graph_ok gone s → active_ok s → k ∈ active_locks s → let s' := flk_delete_active_lock k false s in
  graph_ok gone s' ∧ active_ok s' ∧ aframe s s' ∧ (∀ l, l_in (lk s' l) = l_in (lk s l)) ∧
  active_locks s ≡ₚ k :: active_locks s' ∧ active_locks s' `sublist_of` active_locks s.
Proof.
  intros Hok Ha Hk s'. destruct (flk_delete_active_lock_ok s k Ha Hk) as (Ha' & (q1 & q2 & Eq & Eq') & Hlk). fold s' in Ha', Eq', Hlk.
  assert (k ∈ dom (locks s)) as Hd by (apply (go_listed _ _ Hok); set_solver).
  assert (dom (locks s') = dom (locks s)) as Hdom by (unfold s', flk_delete_active_lock; simpl; rewrite dom_insert_L; set_solver).
  assert (∀ l, l_in (lk s' l) = l_in (lk s l)) as Hi by (intros l; rewrite Hlk; by case_decide; subst).
  assert (aframe s s') as Hf.
  { split; [|done|done|done|]; [intros l; rewrite Hlk; by case_decide; subst|]. intros x Hx m. rewrite Hi. apply Hx. }
  split; [|split; [done|split; [done|split; [done|split]]]].
  - apply (graph_ok_lists gone s); [done|done|done|done|..].
    + intros l. rewrite Hlk. by case_decide; subst.
    + intros l Hl. change (sleeping_locks s') with (sleeping_locks s) in Hl. apply (go_listed _ _ Hok). rewrite Eq' in Hl. rewrite Eq. set_solver.
    + intros l. rewrite Eq'. intros Hl. apply (go_active _ _ Hok). rewrite Eq. set_solver.
  - rewrite Eq, Eq'. symmetry. apply Permutation_middle.
  - rewrite Eq, Eq'. apply sublist_app; [done|]. by apply sublist_cons.
Qed.

(** ** A lock and its parts *)

Lemma for_all_eframe f ls : (∀ d, essence (f d) = essence d) → ∀ s, (∀ l, l ∈ ls → l ∈ dom (locks s)) → eframe s (for_all (λ l, upd l f) ls s).
Proof.
  intros Hf. induction ls as [|l ls IH]; intros s Hls; [apply eframe_refl|]. cbn [for_all foldl].
  assert (eframe s (upd l f s)) as He by (apply eframe_upd; [apply Hls; by left|done]).
  eapply eframe_trans; [exact He|]. apply IH. intros x Hx. rewrite (ef_dom _ _ He). apply Hls. by right.
Qed.

(** The part of [flk_relation] after the comparison of the ranges. *)
Definition swap (fuel : nat) (lock : Z) (topology parts : list Z) (wake : bool) (s : graph) : run (bool * graph) :=
  let s := for_all (λ l, upd l (λ d, set_l_color NO_COLOR (set_flag RECOMPUTE_LOCK d))) topology s in
  let s := for_all (λ lck, ADJ_LIST_REMOVE lck lock) (l_in (lk s lock)) s in
  let s := flk_delete_active_lock lock false s in
  let* s := flk_recompute_dependencies fuel lock topology true s in
  let s := for_all (λ l, upd l (λ d, set_l_color NO_COLOR (clr_flag RECOMPUTE_LOCK d))) topology s in
  let s := for_all flk_insert_active_lock parts s in
  let* s := if wake then flk_wakeup lock false s else drop_in_edges lock (l_in (lk s lock)) s in
  Ret (false, flk_free_lock lock s).

Lemma flk_relation_topology fuel lock request s parts s1 : relation_cmp lock request s = (Topology parts, s1) →
  flk_relation fuel lock request s =
    let eff := lock_effect (lk s lock) (lk s request) in
    swap fuel lock (if decide (eff = UNLOCK) then removelast parts else parts) (removelast parts)
      (bool_decide (eff = DOWNGRADE ∨ eff = UNLOCK)) s1.
Proof. unfold flk_relation, swap. intros ->. cbv zeta. destruct (decide (_ ∨ _)); [rewrite bool_decide_eq_true_2 by done|rewrite bool_decide_eq_false_2 by done]; reflexivity. Qed.

(** Everything but [k] stays what it is, and waits for nothing if it did not. *)
Record without (k : Z) (s s' : graph) : Prop := {
  wo_core l : l ≠ k → core (lk s' l) = core (lk s l);
  wo_dom l : l ≠ k → l ∈ dom (locks s') ↔ l ∈ dom (locks s);
  wo_sleeping : sleeping_locks s' = sleeping_locks s;
  wo_status : lockmgr_status s' = lockmgr_status s;
  wo_quiet x : quiet s x → quiet s' x
}.

Lemma free_ok k s : graph_ok None s → active_ok s → quiet s k → l_in (lk s k) = [] → k ∈ dom (locks s) →
  k ∉ active_locks s ++ sleeping_locks s → let s' := flk_free_lock k s in
  graph_ok None s' ∧ active_ok s' ∧ without k s s' ∧ active_locks s' = active_locks s.
Proof.
  intros Hok Ha Hq Hi Hd Hn s'. destruct (flk_free_lock_ok k s Hok Hq Hi Hd Hn) as (Hok' & Hq' & Hdom).
  assert (active_locks s' = active_locks s ∧ v_filocks s' = v_filocks s ∧ sleeping_locks s' = sleeping_locks s ∧ lockmgr_status s' = lockmgr_status s)
    as (E1 & E2 & E3 & E4) by (unfold s', flk_free_lock; by case_match).
  split; [done|]. split; [|split; [|done]].
  - apply (active_ok_ext s); [done|done|done|]. intros l Hl. unfold vn, st, s'. rewrite flk_free_lock_lk; [done|]. intros ->. set_solver.
  - split; [|done|done|done|done]. intros l Hl. unfold s'. by rewrite flk_free_lock_lk.
Qed.

Lemma swap_ok k T ps wake s : graph_ok None s → active_ok s → k ∈ active_locks s → k ∉ sleeping_locks s → live s k → NoDup ps →
  (∀ p, p ∈ ps → p ∈ dom (locks s) ∧ quiet s p ∧ p ∉ active_locks s) →
  (∀ t, t ∈ T → live s t ∧ quiet s t ∧ owner (lk s t) = owner (lk s k) ∧ t ≠ k) →
  ∃ n s', (∀ fuel, (n ≤ fuel)%nat → swap fuel k T ps wake s = Ret (false, s')) ∧ graph_ok None s' ∧ active_ok s' ∧ without k s s' ∧
    k ∉ active_locks s' ∧ ∃ q, active_locks s ≡ₚ k :: q ∧ q `sublist_of` active_locks s ∧
      active_locks s' ≡ₚ ps ++ q ∧ q `sublist_of` active_locks s'.
Proof.
  intros Hok Ha Hk Hks Hkl Hnd Hps HT. unfold swap.
  set (s1 := for_all (λ l, upd l (λ d, set_l_color NO_COLOR (set_flag RECOMPUTE_LOCK d))) T s).
  assert (eframe s s1) as He1 by (apply for_all_eframe; [done|]; intros l Hl; by apply HT).
  assert (graph_ok None s1) as Hok1 by by eapply graph_ok_eframe. pose proof (ADJ_all_graph k s1 Hok1) as Hok2.
  destruct (ADJ_all_ok k (l_in (lk s1 k)) s1) as (Hg2 & _ & Hl2); [intros l Hl; by apply (go_in _ _ Hok1 k l Hl)|].
  set (s2 := for_all (λ lck, ADJ_LIST_REMOVE lck k) (l_in (lk s1 k)) s1) in *.
  assert (aframe s s2) as Hf2.
  { eapply aframe_trans; [by apply eframe_aframe|]. apply gframe_aframe; [done|]. intros x Hx m. destruct (Hl2 m) as (-> & _). apply Hx. }
  assert (active_locks s2 = active_locks s) as Ea2 by by rewrite (gf_active _ _ Hg2), (ef_active _ _ He1).
  assert (active_ok s2) as Ha2 by (apply (active_ok_aframe s); [done|done|by rewrite (gf_filocks _ _ Hg2), (ef_filocks _ _ He1)|done]).
  destruct (delete_active_ok (Some k) k s2 Hok2 Ha2 ltac:(by rewrite Ea2)) as (Hok3 & Ha3 & Hf3 & _ & Hp3 & Hs3).
  set (s3 := flk_delete_active_lock k false s2) in *. assert (aframe s s3) as Hfs3 by by eapply aframe_trans.
  assert (owner (lk s k) = owner (lk s3 k)) as Hok3' by (apply core_fields; by rewrite (af_core _ _ Hfs3)).
  assert (∀ t, t ∈ T → live s3 t ∧ quiet s3 t ∧ owner (lk s3 t) = owner (lk s3 k) ∧ t ≠ k) as HT3.
  { intros t Ht. destruct (HT t Ht) as (G1 & G2 & G3 & G4). split; [by apply (af_live s)|]. split; [by apply (af_quiet _ _ Hfs3)|]. split; [|done].
    rewrite <-Hok3', <-G3. symmetry. apply core_fields. by rewrite (af_core _ _ Hfs3). }
  destruct (flk_recompute_dependencies_ok (Some k) k T true s3 Hok3) as (n & s4 & Hr4 & Hok4 & Hg4 & _ & _ & Hq4 & _).
  { by apply (af_live s). } { intros Hin. by destruct (HT k Hin) as (_ & _ & _ & ?). }
  { intros t Ht. destruct (HT3 t Ht) as (G1 & G2 & _ & G4). split; [done|]. split; [done|congruence]. }
  { right. intros t Ht. destruct (HT3 t Ht) as (_ & _ & G3%same_owner_iff & _). unfold BLOCKS. by rewrite G3. }
  set (s5 := for_all (λ l, upd l (λ d, set_l_color NO_COLOR (clr_flag RECOMPUTE_LOCK d))) T s4).
  assert (eframe s4 s5) as He5.
  { apply for_all_eframe; [done|]. intros l Hl. rewrite (gf_dom _ _ Hg4). by apply HT3. }
  assert (aframe s3 s5) as Hf5 by (eapply aframe_trans; [by apply gframe_aframe|by apply eframe_aframe]).
  assert (aframe s s5) as Hfs5 by by eapply aframe_trans.
  assert (active_locks s5 = active_locks s3 ∧ v_filocks s5 = v_filocks s3) as [Ea5 Ev5].
  { by rewrite (ef_active _ _ He5), (ef_filocks _ _ He5), (gf_active _ _ Hg4), (gf_filocks _ _ Hg4). }
  assert (k ∉ active_locks s3) as Hk3.
  { pose proof (ao_nodup _ Ha2) as Hnd2. rewrite Hp3 in Hnd2. by apply NoDup_cons in Hnd2 as [? _]. }
  assert (k ∉ ps) as Hkps by (intros Hin; by apply (Hps k Hin)).
  destruct (insert_all_ok (Some k) ps s5) as (Hok6 & Ha6 & Hf6 & Hp6 & Hs6); [by eapply graph_ok_eframe|by apply (active_ok_aframe s3)|done| |].
  { intros p Hp. destruct (Hps p Hp) as (G1 & G2 & G3). rewrite (af_dom _ _ Hfs5). split; [|split; [done|by apply (af_quiet _ _ Hfs5)]].
    rewrite Ea5. intros Hin. apply G3. rewrite <-Ea2, Hp3. by right. }
  set (s6 := for_all flk_insert_active_lock ps s5) in *. assert (aframe s s6) as Hfs6 by by eapply aframe_trans.
  assert (∃ s7, (if wake then flk_wakeup k false s6 else drop_in_edges k (l_in (lk s6 k)) s6) = Ret s7 ∧ graph_ok (Some k) s7 ∧ freed_of k s6 s7) as (s7 & Hr7 & Hok7 & Hf7).
  { destruct wake; [apply flk_wakeup_ok; [by right|done]|by apply drop_in_edges_ok]. }
  pose proof (fo_frame _ _ _ Hf7) as Hg7. assert (aframe s6 s7) as Haf7 by (apply gframe_aframe; [done|]; intros x; by apply (freed_quiet k)).
  assert (aframe s s7) as Hfs7 by by eapply aframe_trans.
  assert (active_locks s7 ≡ₚ ps ++ active_locks s3) as Hp7 by by rewrite (gf_active _ _ Hg7), Hp6, Ea5.
  assert (k ∉ active_locks s7) as Hk7 by (rewrite Hp7; set_solver).
  destruct (free_ok k s7) as (Hok8 & Ha8 & [W1 W2 W3 W4 W5] & Ea8).
  { apply (graph_ok_ungone k); [done|apply Hf7]. }
  { apply (active_ok_aframe s6); [done|apply (gf_active _ _ Hg7)|apply (gf_filocks _ _ Hg7)|done]. }
  { apply (af_quiet _ _ Hfs7). by apply (go_active _ _ Hok). } { apply Hf7. } { rewrite (af_dom _ _ Hfs7). apply Hkl. }
  { rewrite elem_of_app, (af_sleeping _ _ Hfs7). tauto. }
  exists n, (flk_free_lock k s7). split; [|split; [done|split; [done|split; [|split; [by rewrite Ea8|]]]]].
  - intros fuel Hf. cbv zeta. fold s1. fold s2. fold s3. rewrite Hr4 by done. cbn [rbind]. fold s5. fold s6. rewrite Hr7. done.
  - split.
    + intros l Hl. rewrite W1 by done. apply (af_core _ _ Hfs7).
    + intros l Hl. rewrite W2 by done. by rewrite (af_dom _ _ Hfs7).
    + rewrite W3. apply (af_sleeping _ _ Hfs7).
    + rewrite W4. apply (af_status _ _ Hfs7).
    + intros x Hx. apply W5. by apply (af_quiet _ _ Hfs7).
  - exists (active_locks s3). rewrite Ea8. split; [by rewrite <-Ea2|]. split; [by rewrite <-Ea2|]. split; [done|]. by rewrite (gf_active _ _ Hg7), <-Ea5.
Qed.
