(* ===== verification/FlockRelation.v ===== *)
(** * A request against one lock of its owner ([uts/common/os/flock.c])

    What [flk_relation] does to the ranges: a lock of another type keeps what is outside of
    the range of the request, and the request takes over one of the same type that it
    touches. *)

From S2P Require Import Prelude Flock FlockReq FlockProc FlockWait FlockDeadlock FlockLists FlockGraph FlockWake FlockSwap.

(** A byte in the range of a lock. *)
Definition on (d : lockd) (z : Z) : Prop := l_start d ≤ z ≤ l_end d.
Definition apart (d e : lockd) : Prop := ∀ z, ¬ (on d z ∧ on e z).
Definition in_range (d : lockd) : Prop := 0 ≤ l_start d ≤ l_end d ∧ l_end d ≤ MAX_U_OFFSET_T.
Definition stays (d r : lockd) : Prop := lock_effect d r = STAY_SAME.
#[export] Instance stays_dec d r : Decision (stays d r) := decide (lock_effect d r = STAY_SAME).

Lemma apart_iff d e : in_range d → in_range e → apart d e ↔ l_end d < l_start e ∨ l_end e < l_start d.
Proof.
  unfold in_range, apart, on. intros Hd He. split; [|intros H z; lia]. intros H.
  specialize (H (Z.max (l_start d) (l_start e))). lia.
Qed.

Lemma w64_offset z : 0 ≤ z ≤ MAX_U_OFFSET_T → w64 z = z.
Proof. unfold w64, MAX_U_OFFSET_T. intros. rewrite Z.mod_small; lia. Qed.

(** ** The new parts *)

Fixpoint add_parts (k : Z) (rs : list (Z * Z)) (s : graph) : list Z * graph :=
  match rs with
  | [] => ([], s)
  | (a, b) :: rs => let (p, s) := new_part k (with_range a b) s in let (ps, s) := add_parts k rs s in (p :: ps, s)
  end.

Lemma new_part_ext k f g s : k ≠ next_lock s → (∀ d, f (COPY d (lk s k)) = g (COPY d (lk s k))) → new_part k f s = new_part k g s.
Proof.
  intros Hk H. unfold new_part, flk_get_lock. cbv zeta. set (s1 := Graph _ _ _ _ _ _ _ _). f_equal. unfold upd.
  replace (lk s1 k) with (lk s k); [by rewrite H|]. unfold lk. simpl. by rewrite lookup_insert_ne.
Qed.

Lemma upd_ext r f g s : f (lk s r) = g (lk s r) → upd r f s = upd r g s.
Proof. unfold upd. by intros ->. Qed.

Lemma upd_id r f s : r ∈ dom (locks s) → f (lk s r) = lk s r → s = upd r f s.
Proof.
  intros [d Hd]%elem_of_dom Hf. unfold upd, set_locks. rewrite Hf. unfold lk. rewrite Hd. simpl. rewrite insert_id by done. by destruct s.
Qed.

(** ** The comparison *)

Definition hull (a b : Z) (d e : lockd) : Prop := 0 ≤ a ≤ b ∧ b ≤ MAX_U_OFFSET_T ∧ ∀ z, a ≤ z ≤ b ↔ on d z ∨ on e z.
Definition rest (rs : list (Z * Z)) (d r : lockd) : Prop :=
  (∀ p, p ∈ rs → 0 ≤ p.1 ≤ p.2 ∧ p.2 ≤ MAX_U_OFFSET_T) ∧ StronglySorted (λ p q, p.2 < q.1) rs ∧ ∀ z, on d z ∧ ¬ on r z ↔ ∃ p, p ∈ rs ∧ p.1 ≤ z ≤ p.2.

(** What the comparison comes to, with the ranges before it. *)
Definition compared (k r : Z) (s : graph) (c : cmp) (s' : graph) : Prop :=
  let d := lk s k in
  let e := lk s r in
  match c with
  | Return b => s' = s ∧ apart d e ∧ (b = true → l_end e < l_start d) ∧
      (stays d e → l_end d + 1 ≠ l_start e ∧ l_end e + 1 ≠ l_start d)
  | Exact => s' = s ∧ l_type e = F_UNLCK ∧ ∀ z, on d z ↔ on e z
  | Topology parts =>
      (stays d e ∧ parts = [r] ∧ ∃ a b, s' = upd r (with_range a b) s ∧ hull a b d e) ∨
      (¬ stays d e ∧ ∃ rs ps, add_parts k rs s = (ps, s') ∧ parts = ps ++ [r] ∧ rest rs d e ∧ ¬ apart d e)
  end.

Section Compare.
Context (k r : Z) (s : graph).
Let d := lk s k.
Let e := lk s r.
Context (Hr : r ∈ dom (locks s)) (Hd : in_range d) (He : in_range e) (Hok : graph_ok None s) (Hk : live s k).

Lemma compared_hull f a b : stays d e → f e = with_range a b e → hull a b d e → compared k r s (Topology [r]) (upd r f s).
Proof using Type.
  intros Hs Hf Hh. left. split; [done|]. split; [done|]. exists a, b. split; [by apply upd_ext|done].
Qed.
Lemma compared_keep : (∀ z, on d z → on e z) → compared k r s (Topology [r]) s.
Proof using Hr Hd He.
  intros Hz. unfold on, in_range in *. pose proof (Hz (l_start d)). destruct (decide (stays d e)).
  - left. split; [done|]. split; [done|]. exists (l_start e), (l_end e). split; [apply upd_id; [done|]; by destruct (lk s r)|].
    split; [lia|]. split; [lia|]. intros z. unfold on. specialize (Hz z). unfold d, e in *. lia.
  - right. split; [done|]. exists [], []. split; [done|]. split; [done|]. split.
    + split; [intros p []%elem_of_nil|]. split; [constructor|]. intros z. split; [intros [H1 H2]; by destruct H2; apply Hz|intros (p & []%elem_of_nil & _)].
    + intros Ha. apply (Ha (l_start d)). unfold on. unfold d, e in *. lia.
Qed.
Lemma compared_one f a b : ¬ stays d e → (∀ d', f (COPY d' d) = with_range a b (COPY d' d)) → rest [(a, b)] d e → ¬ apart d e →
  compared k r s (Topology [(new_part k f s).1; r]) (new_part k f s).2.
Proof using Hok Hk.
  intros Hs Hf Hp Ha. assert (k ≠ next_lock s) as Hkn by (intros E; pose proof (go_next _ _ Hok k (proj1 Hk)); lia).
  rewrite (new_part_ext k f (with_range a b) s Hkn Hf). right. split; [done|]. exists [(a, b)], [(new_part k (with_range a b) s).1].
  split; [|done]. cbn [add_parts]. destruct (new_part k (with_range a b) s); done.
Qed.
Lemma compared_two f1 a1 b1 f2 a2 b2 : ¬ stays d e → (∀ d', f1 (COPY d' d) = with_range a1 b1 (COPY d' d)) →
  (∀ d', f2 (COPY d' d) = with_range a2 b2 (COPY d' d)) → rest [(a1, b1); (a2, b2)] d e → ¬ apart d e →
  compared k r s (Topology [(new_part k f1 s).1; (new_part k f2 (new_part k f1 s).2).1; r]) (new_part k f2 (new_part k f1 s).2).2.
Proof using Hok Hk.
  intros Hs Hf1 Hf2 Hp Ha. assert (k ≠ next_lock s) as Hkn by (intros E; pose proof (go_next _ _ Hok k (proj1 Hk)); lia).
  rewrite (new_part_ext k f1 (with_range a1 b1) s Hkn Hf1). pose proof (new_part_ok k a1 b1 s Hok Hk) as Hn.
  destruct (new_part k (with_range a1 b1) s) as [p1 s1] eqn:E1. destruct Hn as (Hp1 & _ & _ & _ & _ & Hold & _ & _ & _ & _ & _ & Hok1).
  cbn [fst snd]. rewrite <-Hp1 in Hkn. assert (lk s1 k = d) as Hk1 by by apply Hold.
  assert (live s1 k) as Hl1.
  { pose proof (new_part_ok k a1 b1 s Hok Hk) as Hn. rewrite E1 in Hn. destruct Hn as (_ & _ & Hdom & _). split; [rewrite Hdom; apply elem_of_union_r, Hk|].
    rewrite Hk1. apply Hk. }
  rewrite (new_part_ext k f2 (with_range a2 b2) s1).
  2:{ intros E. pose proof (go_next _ _ Hok1 k (proj1 Hl1)). lia. } 2:{ intros d'. rewrite Hk1. apply Hf2. }
  right. split; [done|]. exists [(a1, b1); (a2, b2)], [p1; (new_part k (with_range a2 b2) s1).1]. split; [|done].
  cbn [add_parts]. rewrite E1. destruct (new_part k (with_range a2 b2) s1); done.
Qed.
End Compare.

Lemma rest_one a b d e : 0 ≤ a ≤ b ∧ b ≤ MAX_U_OFFSET_T → (∀ z, on d z ∧ ¬ on e z ↔ a ≤ z ≤ b) → rest [(a, b)] d e.
Proof.
  intros Hab Hz. split; [by intros p ->%list_elem_of_singleton|]. split; [by repeat constructor|]. intros z. rewrite Hz. split.
  - intros H. exists (a, b). split; [by left|done].
  - by intros (p & ->%list_elem_of_singleton & H).
Qed.
Lemma rest_two a b a' b' d e : b < a' → 0 ≤ a ≤ b ∧ b ≤ MAX_U_OFFSET_T → 0 ≤ a' ≤ b' ∧ b' ≤ MAX_U_OFFSET_T →
  (∀ z, on d z ∧ ¬ on e z ↔ a ≤ z ≤ b ∨ a' ≤ z ≤ b') → rest [(a, b); (a', b')] d e.
Proof.
  intros Hba Hab Hab' Hz. split; [by intros p [->| ->%list_elem_of_singleton]%elem_of_cons|].
  split; [by repeat constructor|]. intros z. rewrite Hz. split.
  - intros [H|H]; [exists (a, b)|exists (a', b')]; split; [by left|done|right; by left|done].
  - intros (p & [->| ->%list_elem_of_singleton]%elem_of_cons & H); auto.
Qed.

Lemma unlock_effect d r : lock_effect d r = UNLOCK ↔ l_type r = F_UNLCK.
Proof. unfold lock_effect. destruct (Z.eqb_spec (l_type r) F_UNLCK); repeat case_match; split; congruence. Qed.

Lemma new_part_pair k f s : new_part k f s = ((new_part k f s).1, (new_part k f s).2).
Proof. by destruct (new_part k f s). Qed.

Lemma set_end_range a b b' d : a = l_start d → b = b' → set_l_end b' d = with_range a b d.
Proof. intros -> ->. by destruct d. Qed.
Lemma set_start_range a a' b d : a = a' → b = l_end d → set_l_start a' d = with_range a b d.
Proof. intros -> ->. by destruct d. Qed.
Lemma set_both_range a a' b b' d : a = a' → b = b' → set_l_end b' (set_l_start a' d) = with_range a b d.
Proof. by intros -> ->. Qed.

(** Arithmetic on ranges. *)
Ltac ranges := unfold hull, apart, on, in_range, MAX_U_OFFSET_T in *; repeat split; intros; lia.

Lemma relation_cmp_spec k r s c s' : r ∈ dom (locks s) → in_range (lk s k) → in_range (lk s r) → graph_ok None s → live s k →
  relation_cmp k r s = (c, s') → compared k r s c s'.
Proof.
  intros Hr Hd He Hok Hk. unfold relation_cmp. cbv zeta.
  assert (0 < l_start (lk s r) → w64 (l_start (lk s r) - 1) = l_start (lk s r) - 1) as W1 by (unfold in_range in *; intros; apply w64_offset; lia).
  assert (0 < l_start (lk s k) → w64 (l_start (lk s k) - 1) = l_start (lk s k) - 1) as W2 by (unfold in_range in *; intros; apply w64_offset; lia).
  assert (l_end (lk s r) < l_end (lk s k) → w64 (l_end (lk s r) + 1) = l_end (lk s r) + 1) as W3 by (unfold in_range in *; intros; apply w64_offset; lia).
  unfold in_range in Hd, He.
  destruct (bool_decide (lock_effect (lk s k) (lk s r) = STAY_SAME)) eqn:Es;
    [apply bool_decide_eq_true in Es|apply bool_decide_eq_false in Es]; rewrite ?andb_true_r, ?andb_false_r.
  - destruct (Z.ltb_spec (l_end (lk s k)) (l_start (lk s r))).
    { rewrite W1 by lia. destruct (Z.eqb_spec (l_end (lk s k)) (l_start (lk s r) - 1)); intros [= <- <-].
      - apply (compared_hull k r s _ (l_start (lk s k)) (l_end (lk s r))); [done|by destruct (lk s r)|]. ranges.
      - split; [done|]. split; [ranges|]. split; [done|]. lia. }
    destruct (Z.ltb_spec (l_end (lk s r)) (l_start (lk s k))).
    { rewrite W2 by lia. destruct (Z.eqb_spec (l_end (lk s r)) (l_start (lk s k) - 1)); intros [= <- <-].
      - apply (compared_hull k r s _ (l_start (lk s r)) (l_end (lk s k))); [done|by destruct (lk s r)|]. ranges.
      - split; [done|]. split; [ranges|]. split; [done|]. lia. }
    assert (lock_effect (lk s k) (lk s r) ≠ UNLOCK) as Hu by congruence. rewrite (bool_decide_eq_false_2 (_ = UNLOCK)) by done.
    repeat match goal with |- context [if ?a <? ?b then _ else _] => destruct (Z.ltb_spec a b) end; intros [= <- <-];
      first [apply compared_keep; [done|done|done|ranges]
        |apply (compared_hull k r s _ (Z.min (l_start (lk s k)) (l_start (lk s r))) (Z.max (l_end (lk s k)) (l_end (lk s r))));
         [done|first [apply set_end_range|apply set_start_range|apply set_both_range]; lia|ranges]].
  - destruct (Z.ltb_spec (l_end (lk s k)) (l_start (lk s r))); [intros [= <- <-]; split; [done|split; [ranges|done]]|].
    destruct (Z.ltb_spec (l_end (lk s r)) (l_start (lk s k))); [intros [= <- <-]; split; [done|split; [ranges|done]]|].
    assert (¬ apart (lk s k) (lk s r)) as Ha by (rewrite apart_iff by done; lia).
    destruct (Z.ltb_spec (l_end (lk s r)) (l_end (lk s k))).
    { rewrite W3 by done. destruct (Z.ltb_spec (l_start (lk s k)) (l_start (lk s r))).
      { rewrite W1 by lia. rewrite new_part_pair, (new_part_pair k _ (new_part k _ s).2). intros [= <- <-].
        eapply (compared_two k r s Hok Hk _ (l_start (lk s k)) (l_start (lk s r) - 1) _ (l_end (lk s r) + 1) (l_end (lk s k))); [done|done|done| |done].
        apply rest_two; ranges. }
      destruct (Z.ltb_spec (l_start (lk s r)) (l_start (lk s k))); rewrite new_part_pair; intros [= <- <-];
        (eapply (compared_one k r s Hok Hk _ (l_end (lk s r) + 1) (l_end (lk s k))); [done|done| |done]; apply rest_one; ranges). }
    destruct (Z.ltb_spec (l_end (lk s k)) (l_end (lk s r))); destruct (Z.ltb_spec (l_start (lk s k)) (l_start (lk s r)));
      try (rewrite W1 by lia; rewrite new_part_pair; intros [= <- <-];
        eapply (compared_one k r s Hok Hk _ (l_start (lk s k)) (l_start (lk s r) - 1)); [done|done| |done]; apply rest_one; ranges).
    + intros [= <- <-]. apply compared_keep; [done|done|done|ranges].
    + destruct (Z.ltb_spec (l_start (lk s r)) (l_start (lk s k))); [intros [= <- <-]; apply compared_keep; [done|done|done|ranges]|].
      case_bool_decide as Eu; intros [= <- <-]; [|apply compared_keep; [done|done|done|ranges]].
      split; [done|]. split; [by apply unlock_effect in Eu|ranges].
Qed.
