(* ===== verification/FlockExec.v ===== *)
(** * The locks of an owner ([uts/common/os/flock.c])

    What an owner holds, byte by byte, and [flk_execute_request]: it ends, the owner of the
    request holds on the range of the request what was asked for, and nothing else changes. *)

From S2P Require Import Prelude Flock FlockReq FlockProc FlockWait FlockDeadlock FlockLists FlockGraph FlockWake FlockSwap FlockRelation.

(** ** What is held *)

Record locks_ok (s : graph) : Prop := {
  lo_graph : graph_ok None s;
  lo_active : active_ok s;
  lo_type l : l ∈ active_locks s → l_type (lk s l) = F_RDLCK ∨ l_type (lk s l) = F_WRLCK;
  lo_range l : l ∈ active_locks s → in_range (lk s l);
  lo_sleep l : l ∈ active_locks s → l ∉ sleeping_locks s;
  lo_sleepers l : l ∈ sleeping_locks s → live s l;
  lo_apart l m : l ∈ active_locks s → m ∈ active_locks s → l ≠ m → vn s l = vn s m → owner (lk s l) = owner (lk s m) → apart (lk s l) (lk s m)
}.

(** A request that is in no list and waits for no lock. *)
Record requests (r : Z) (s : graph) : Prop := {
  rq_dom : r ∈ dom (locks s);
  rq_new : r ∉ active_locks s ++ sleeping_locks s;
  rq_quiet : quiet s r;
  rq_type : l_type (lk s r) = F_RDLCK ∨ l_type (lk s r) = F_WRLCK ∨ l_type (lk s r) = F_UNLCK;
  rq_range : in_range (lk s r)
}.

Lemma lo_live s l : locks_ok s → l ∈ active_locks s → live s l.
Proof.
  intros Hlo Hl. split; [apply (go_listed _ _ (lo_graph _ Hlo)); set_solver|]. destruct (lo_type _ Hlo l Hl) as [-> | ->]; done.
Qed.

(** The type of the lock that an owner has on a byte of a file. *)
Definition held (s : graph) (vp : Z) (o : Z * Z) (z t : Z) : Prop :=
  ∃ l, l ∈ active_locks s ∧ vn s l = vp ∧ owner (lk s l) = o ∧ on (lk s l) z ∧ l_type (lk s l) = t.

(** ** The state after the comparison *)

(** [ps] are new parts of [k], and the request has the range from [a] to [b]. *)
Record prepared (k r : Z) (ps : list Z) (a b : Z) (s s1 : graph) : Prop := {
  pr_graph : graph_ok None s1;
  pr_active : active_locks s1 = active_locks s;
  pr_filocks : v_filocks s1 = v_filocks s;
  pr_sleeping : sleeping_locks s1 = sleeping_locks s;
  pr_core l : l ∉ ps → l ≠ r → core (lk s1 l) = core (lk s l);
  pr_request : core (lk s1 r) = core (with_range a b (lk s r));
  pr_dom l : l ∈ dom (locks s1) ↔ l ∈ ps ∨ l ∈ dom (locks s);
  pr_new p : p ∈ ps → p ∉ dom (locks s);
  pr_nodup : NoDup ps;
  pr_quiet x : quiet s x → quiet s1 x;
  pr_part p : p ∈ ps → quiet s1 p ∧ in_range (lk s1 p) ∧ ∃ c d, core (lk s1 p) = core (with_range c d (lk s k));
  pr_cover z : on (lk s k) z ∧ ¬ a ≤ z ≤ b ↔ ∃ p, p ∈ ps ∧ on (lk s1 p) z;
  pr_sorted : StronglySorted (λ p q, l_end (lk s1 p) < l_start (lk s1 q)) ps
}.

Lemma add_parts_ok k : ∀ rs s ps s', graph_ok None s → live s k → add_parts k rs s = (ps, s') →
  graph_ok None s' ∧ active_locks s' = active_locks s ∧ v_filocks s' = v_filocks s ∧ sleeping_locks s' = sleeping_locks s ∧
  (∀ l, l ∉ ps → lk s' l = lk s l) ∧ (∀ l, l_in (lk s' l) = l_in (lk s l)) ∧
  (∀ l, l ∈ dom (locks s') ↔ l ∈ ps ∨ l ∈ dom (locks s)) ∧ (∀ p, p ∈ ps → p ∉ dom (locks s)) ∧ NoDup ps ∧
  Forall2 (λ p c, core (lk s' p) = core (with_range c.1 c.2 (lk s k))) ps rs.
Proof.
  induction rs as [|[a b] rs IH]; intros s ps s' Hok Hk; cbn [add_parts].
  - intros [= <- <-]. repeat (split; [done|]). split; [intros l; set_solver|]. split; [intros p []%elem_of_nil|]. split; constructor.
  - pose proof (new_part_ok k a b s Hok Hk) as Hn. destruct (new_part k (with_range a b) s) as [p s1].
    destruct Hn as (Hp & Hpd & Hd1 & Hc1 & Hi1 & Hold & Hin & Ha1 & Hs1 & Hf1 & _ & Hok1).
    assert (k ≠ p) as Hkp by (intros ->; by apply Hpd, Hk). assert (lk s1 k = lk s k) as Hk1 by by apply Hold.
    destruct (add_parts k rs s1) as [ps' s2] eqn:E. intros [= <- <-].
    destruct (IH s1 ps' s2 Hok1) as (H1 & H2 & H3 & H4 & H5 & H6 & H7 & H8 & H9 & H10); [|done|].
    { split; [rewrite Hd1; apply elem_of_union_r, Hk|rewrite Hk1; apply Hk]. }
    assert (p ∉ ps') as Hpp by (intros H; apply (H8 p H); rewrite Hd1; set_solver).
    split; [done|]. split; [congruence|]. split; [congruence|]. split; [congruence|].
    split; [intros l Hl; rewrite H5 by set_solver; apply Hold; set_solver|]. split; [intros l; by rewrite H6|].
    split; [intros l; rewrite H7, Hd1; set_solver|]. split; [intros q [->|Hq]%elem_of_cons; [done|]; specialize (H8 q Hq); rewrite Hd1 in H8; set_solver|].
    split; [by constructor|]. constructor; [by rewrite H5|]. by rewrite Hk1 in H10.
Qed.

Lemma forall2_in {A B} (P : A → B → Prop) l k x : Forall2 P l k → x ∈ l → ∃ y, y ∈ k ∧ P x y.
Proof. intros H [i Hi]%list_elem_of_lookup. destruct (Forall2_lookup_l _ _ _ _ _ H Hi) as (y & Hy & ?). exists y. split; [by eapply list_elem_of_lookup_2|done]. Qed.
Lemma forall2_in_r {A B} (P : A → B → Prop) l k y : Forall2 P l k → y ∈ k → ∃ x, x ∈ l ∧ P x y.
Proof. intros H [i Hi]%list_elem_of_lookup. destruct (Forall2_lookup_r _ _ _ _ _ H Hi) as (x & Hx & ?). exists x. split; [by eapply list_elem_of_lookup_2|done]. Qed.

Lemma forall2_sorted {A B} (P : A → B → Prop) (R : A → A → Prop) (S : B → B → Prop) l k : (∀ x y x' y', P x y → P x' y' → S y y' → R x x') →
  Forall2 P l k → StronglySorted S k → StronglySorted R l.
Proof.
  intros HR H. induction H as [|x y l k Hxy Hlk IH]; intros Hs; [constructor|]. apply StronglySorted_inv in Hs as [Hs Hy].
  constructor; [by apply IH|]. apply Forall_forall. intros x' Hx'. destruct (forall2_in _ _ _ _ Hlk Hx') as (y' & Hy' & Hp).
  rewrite Forall_forall in Hy. by apply (HR x y x' y'), Hy.
Qed.

Lemma core_range a b d d' : core d = core (with_range a b d') → l_vnode d = l_vnode d' ∧ l_type d = l_type d' ∧ l_start d = a ∧ l_end d = b ∧ owner d = owner d'.
Proof. intros E. apply core_fields in E as (-> & -> & -> & -> & _ & ->). done. Qed.

Lemma prepared_parts k r rs ps s s1 : graph_ok None s → live s k → r ∈ dom (locks s) → rest rs (lk s k) (lk s r) → add_parts k rs s = (ps, s1) →
  prepared k r ps (l_start (lk s r)) (l_end (lk s r)) s s1.
Proof.
  intros Hok Hk Hr (H1 & H2 & H3) E. destruct (add_parts_ok k rs s ps s1 Hok Hk E) as (G1 & G2 & G3 & G4 & G5 & G6 & G7 & G8 & G9 & G10).
  assert (∀ p c, core (lk s1 p) = core (with_range c.1 c.2 (lk s k)) → l_start (lk s1 p) = c.1 ∧ l_end (lk s1 p) = c.2) as Hse.
  { intros p c (_ & _ & ? & ? & _)%core_range. done. }
  split; [exact G1|exact G2|exact G3|exact G4| | |exact G7|exact G8|exact G9|..].
  - intros l Hl _. by rewrite G5.
  - rewrite G5; [by destruct (lk s r)|]. intros Hp. by apply (G8 r).
  - intros x Hx m. rewrite G6. apply Hx.
  - intros p Hp. split; [|split].
    + intros m. rewrite G6. intros Hm. destruct (go_in _ _ Hok m p Hm) as (_ & [Hd _] & _). by apply (G8 p).
    + destruct (forall2_in _ _ _ _ G10 Hp) as (c & Hc & [E1 E2]%Hse). unfold in_range. rewrite E1, E2. by apply H1.
    + destruct (forall2_in _ _ _ _ G10 Hp) as (c & Hc & Hco). by exists c.1, c.2.
  - intros z. change (l_start (lk s r) ≤ z ≤ l_end (lk s r)) with (on (lk s r) z). rewrite H3. unfold on. split.
    + intros (c & Hc & Hz). destruct (forall2_in_r _ _ _ _ G10 Hc) as (p & Hp & [E1 E2]%Hse). exists p. by rewrite E1, E2.
    + intros (p & Hp & Hz). destruct (forall2_in _ _ _ _ G10 Hp) as (c & Hc & [E1 E2]%Hse). exists c. by rewrite E1, E2 in Hz.
  - eapply (forall2_sorted _ _ (λ p q, p.2 < q.1)); [|exact G10|done]. intros p c p' c' [_ ->]%Hse [-> _]%Hse. done.
Qed.

Lemma prepared_hull k r a b s : graph_ok None s → r ∈ dom (locks s) → r ∉ active_locks s → hull a b (lk s k) (lk s r) →
  prepared k r [] a b s (upd r (with_range a b) s).
Proof.
  intros Hok Hr Hn (Hab & Hb & Hz). assert (∀ l, l_in (lk (upd r (with_range a b) s) l) = l_in (lk s l)) as Hi by (intros l; rewrite lk_upd; by case_decide; subst).
  split; [by apply graph_ok_upd|reflexivity|reflexivity|reflexivity|..].
  - intros l _ Hl. by rewrite lk_upd, decide_False.
  - by rewrite lk_upd, decide_True.
  - intros l. rewrite dom_upd by done. set_solver.
  - intros p []%elem_of_nil.
  - constructor.
  - intros x Hx m. rewrite Hi. apply Hx.
  - intros p []%elem_of_nil.
  - intros z. rewrite Hz. split; [tauto|]. by intros (p & []%elem_of_nil & _).
  - constructor.
Qed.

(** ** A lock gives way *)

Record gave_way (k : Z) (ps : list Z) (s s' : graph) : Prop := {
  gw_graph : graph_ok None s';
  gw_active : active_ok s';
  gw_without : without k s s';
  gw_gone : k ∉ active_locks s';
  gw_list : ∃ q, active_locks s ≡ₚ k :: q ∧ q `sublist_of` active_locks s ∧ active_locks s' ≡ₚ ps ++ q ∧ q `sublist_of` active_locks s'
}.

(** The lock with exactly the range that is unlocked. *)
Lemma exact_ok k s : graph_ok None s → active_ok s → k ∈ active_locks s → k ∉ sleeping_locks s →
  ∃ s1, flk_wakeup k true (flk_delete_active_lock k false s) = Ret s1 ∧ gave_way k [] s (flk_free_lock k s1).
Proof.
  intros Hok Ha Hk Hks. assert (k ∈ dom (locks s)) as Hd by (apply (go_listed _ _ Hok); set_solver).
  destruct (delete_active_ok None k s Hok Ha Hk) as (Hok1 & Ha1 & Hf1 & Hi1 & Hp1 & Hs1). set (s1 := flk_delete_active_lock k false s) in *.
  destruct (flk_wakeup_ok true None k s1 ltac:(by left) Hok1) as (s2 & Hr & Hok2 & Hf2). pose proof (fo_frame _ _ _ Hf2) as Hg2.
  assert (k ∉ active_locks s1) as Hk1.
  { pose proof (ao_nodup _ Ha) as Hnd. rewrite Hp1 in Hnd. by apply NoDup_cons in Hnd as [? _]. }
  assert (aframe s s2) as Hfs by (eapply aframe_trans; [exact Hf1|]; apply gframe_aframe; [done|]; intros x; by apply (freed_quiet k)).
  destruct (free_ok k s2) as (Hok3 & Ha3 & [W1 W2 W3 W4 W5] & Ea3); [done| | |apply Hf2| | |].
  { apply (active_ok_aframe s1); [|apply (gf_active _ _ Hg2)|apply (gf_filocks _ _ Hg2)|done]. apply gframe_aframe; [done|]. intros x. by apply (freed_quiet k). }
  { apply (af_quiet _ _ Hfs). by apply (go_active _ _ Hok). } { by rewrite (af_dom _ _ Hfs). }
  { rewrite elem_of_app, (gf_active _ _ Hg2), (af_sleeping _ _ Hfs). tauto. }
  exists s2. split; [done|]. split; [done|done| |by rewrite Ea3, (gf_active _ _ Hg2)|].
  - split.
    + intros l Hl. rewrite W1 by done. apply (af_core _ _ Hfs).
    + intros l Hl. rewrite W2 by done. by rewrite (af_dom _ _ Hfs).
    + rewrite W3. apply (af_sleeping _ _ Hfs).
    + rewrite W4. apply (af_status _ _ Hfs).
    + intros x Hx. apply W5. by apply (af_quiet _ _ Hfs).
  - exists (active_locks s1). rewrite Ea3, (gf_active _ _ Hg2). split; [done|]. split; [done|]. split; done.
Qed.

(** [k] has given way to its parts for the request, which now has the range from [a] to [b]. *)
Record replaced (k r : Z) (ps : list Z) (a b : Z) (s s' : graph) : Prop := {
  rp_locks : locks_ok s';
  rp_requests : requests r s';
  rp_request : core (lk s' r) = core (with_range a b (lk s r));
  rp_core l : l ∈ dom (locks s) → l ≠ k → l ≠ r → core (lk s' l) = core (lk s l) ∧ l ∈ dom (locks s');
  rp_new p : p ∈ ps → p ∉ dom (locks s) ∧ in_range (lk s' p) ∧ ∃ c d, core (lk s' p) = core (with_range c d (lk s k));
  rp_cover z : on (lk s k) z ∧ ¬ a ≤ z ≤ b ↔ ∃ p, p ∈ ps ∧ on (lk s' p) z;
  rp_list : ∃ q, active_locks s ≡ₚ k :: q ∧ q `sublist_of` active_locks s ∧ active_locks s' ≡ₚ ps ++ q ∧ q `sublist_of` active_locks s';
  rp_sleeping : sleeping_locks s' = sleeping_locks s
}.

Lemma sorted_either {A} (R : A → A → Prop) l x y : StronglySorted R l → x ∈ l → y ∈ l → x ≠ y → R x y ∨ R y x.
Proof.
  intros Hs. induction Hs as [|z l Hs IH Hz]; [by intros ?%elem_of_nil|]. rewrite Forall_forall in Hz. rewrite !elem_of_cons.
  intros [->|Hx] [->|Hy] Hne; [done|left; by apply Hz|right; by apply Hz|by apply IH].
Qed.

Lemma replaced_ok k r ps a b s s1 s' : locks_ok s → requests r s → k ∈ active_locks s → 0 ≤ a ≤ b ∧ b ≤ MAX_U_OFFSET_T →
  prepared k r ps a b s s1 → gave_way k ps s1 s' → replaced k r ps a b s s'.
Proof.
  intros Hlo Hrq Hk Hab Hpr [Hok' Ha' [W1 W2 W3 _ W5] Hgone Hlist]. rewrite (pr_active _ _ _ _ _ _ _ Hpr) in Hlist.
  assert (∀ l, l ∈ active_locks s → l ∈ dom (locks s)) as Hdom by (intros l Hl; by apply lo_live).
  assert (r ≠ k) as Hrk by (intros ->; destruct (rq_new _ _ Hrq); set_solver).
  assert (∀ p, p ∈ ps → p ≠ k) as Hpk by (intros p Hp ->; by apply (pr_new _ _ _ _ _ _ _ Hpr k Hp), Hdom).
  assert (∀ p, p ∈ ps → core (lk s' p) = core (lk s1 p)) as Hpc by (intros p Hp; by apply W1, Hpk).
  assert (core (lk s' r) = core (with_range a b (lk s r))) as Hrc by (rewrite W1 by done; apply (pr_request _ _ _ _ _ _ _ Hpr)).
  assert (∀ l, l ∈ dom (locks s) → l ≠ k → l ≠ r → core (lk s' l) = core (lk s l) ∧ l ∈ dom (locks s')) as Hcore.
  { intros l Hl Hlk Hlr. assert (l ∉ ps) as Hp by (intros Hp; by apply (pr_new _ _ _ _ _ _ _ Hpr l Hp)). split.
    - rewrite W1 by done. by apply (pr_core _ _ _ _ _ _ _ Hpr).
    - apply W2; [done|]. apply (pr_dom _ _ _ _ _ _ _ Hpr). by right. }
  assert (∀ p, p ∈ ps → p ∉ dom (locks s) ∧ in_range (lk s' p) ∧ ∃ c d, core (lk s' p) = core (with_range c d (lk s k))) as Hnew.
  { intros p Hp. destruct (pr_part _ _ _ _ _ _ _ Hpr p Hp) as (_ & Hrng & Hc). rewrite Hpc by done.
    split; [by apply (pr_new _ _ _ _ _ _ _ Hpr)|]. split; [|done]. destruct (core_fields _ _ (Hpc p Hp)) as (_ & _ & E1 & E2 & _).
    unfold in_range. by rewrite E1, E2. }
  assert (∀ z p, p ∈ ps → on (lk s' p) z ↔ on (lk s1 p) z) as Hon.
  { intros z p Hp. destruct (core_fields _ _ (Hpc p Hp)) as (_ & _ & E1 & E2 & _). unfold on. by rewrite E1, E2. }
  assert (∀ z, on (lk s k) z ∧ ¬ a ≤ z ≤ b ↔ ∃ p, p ∈ ps ∧ on (lk s' p) z) as Hcover.
  { intros z. rewrite (pr_cover _ _ _ _ _ _ _ Hpr). split; intros (p & Hp & Hz); exists p; (split; [done|]); by apply (Hon z p Hp). }
  destruct Hlist as (q & Hq1 & Hq2 & Hq3 & Hq4).
  assert (∀ l, l ∈ active_locks s' → l ∈ ps ∨ (l ∈ active_locks s ∧ l ≠ k ∧ core (lk s' l) = core (lk s l))) as Hcase.
  { intros l. rewrite Hq3, elem_of_app. intros [Hl|Hl]; [by left|right]. assert (l ∈ active_locks s) as Hla by (rewrite Hq1; by right).
    assert (l ≠ k) as Hlk by (intros ->; pose proof (ao_nodup _ (lo_active _ Hlo)) as Hnd; rewrite Hq1 in Hnd; by apply NoDup_cons in Hnd as [? _]).
    split; [done|]. split; [done|]. apply Hcore; [by apply Hdom|done|]. intros ->. apply (rq_new _ _ Hrq). set_solver. }
  assert (∀ p, p ∈ ps → vn s' p = vn s k ∧ l_type (lk s' p) = l_type (lk s k) ∧ owner (lk s' p) = owner (lk s k) ∧ ∀ z, on (lk s' p) z → on (lk s k) z) as Hpart.
  { intros p Hp. destruct (Hnew p Hp) as (_ & _ & c & d & Hc%core_range). destruct Hc as (E1 & E2 & _ & _ & E3).
    split; [done|]. split; [done|]. split; [done|]. intros z Hz. apply (Hcover z). by exists p. }
  split; [|split| | | | | |].
  - split; [done|done|..].
    + intros l Hl. destruct (Hcase l Hl) as [Hp|(Hla & Hlk & Hc)]; [destruct (Hpart l Hp) as (_ & -> & _); by apply (lo_type _ Hlo)|].
      apply core_fields in Hc as (_ & -> & _). by apply (lo_type _ Hlo).
    + intros l Hl. destruct (Hcase l Hl) as [Hp|(Hla & Hlk & Hc)]; [by apply Hnew|]. apply core_fields in Hc as (_ & _ & E1 & E2 & _).
      unfold in_range. rewrite E1, E2. by apply (lo_range _ Hlo).
    + intros l Hl. rewrite W3, (pr_sleeping _ _ _ _ _ _ _ Hpr). destruct (Hcase l Hl) as [Hp|(Hla & _ & _)]; [|by apply (lo_sleep _ Hlo)].
      intros Hs. apply (pr_new _ _ _ _ _ _ _ Hpr l Hp), (go_listed _ _ (lo_graph _ Hlo)). set_solver.
    + intros l. rewrite W3, (pr_sleeping _ _ _ _ _ _ _ Hpr). intros Hl. destruct (lo_sleepers _ Hlo l Hl) as [Hd Ht].
      destruct (Hcore l Hd) as [(_ & E & _)%core_fields Hd']; [| |by split; [|rewrite E]].
      * intros ->. by apply (lo_sleep _ Hlo k).
      * intros ->. apply (rq_new _ _ Hrq). set_solver.
    + assert (∀ l m, l ∈ ps → m ∈ active_locks s → m ≠ k → core (lk s' m) = core (lk s m) → vn s' l = vn s' m → owner (lk s' l) = owner (lk s' m) →
        apart (lk s' l) (lk s' m)) as Hmix.
      { intros l m Hl Hm Hmk Hc Hvn Ho z [Hz1 Hz2]. destruct (Hpart l Hl) as (P1 & _ & P3 & P4). apply core_fields in Hc as (E1 & _ & E2 & E3 & _ & E4).
        apply (lo_apart _ Hlo k m Hk Hm) with z; [done|unfold vn in *; congruence|congruence|]. split; [by apply P4|]. unfold on in *. by rewrite E2, E3 in Hz2. }
      intros l m Hl Hm Hne Hvn Ho. destruct (Hcase l Hl) as [Hp|(Hla & Hlk & Hc)], (Hcase m Hm) as [Hp'|(Hma & Hmk & Hc')].
      * intros z [Hz1 Hz2]. rewrite (Hon z l Hp) in Hz1. rewrite (Hon z m Hp') in Hz2. unfold on in *.
        destruct (sorted_either _ _ l m (pr_sorted _ _ _ _ _ _ _ Hpr) Hp Hp' Hne); lia.
      * by apply Hmix.
      * intros z [Hz1 Hz2]. by apply (Hmix m l Hp' Hla Hlk Hc (eq_sym Hvn) (eq_sym Ho) z).
      * apply core_fields in Hc as (E1 & _ & E2 & E3 & _ & E4), Hc' as (F1 & _ & F2 & F3 & _ & F4).
        intros z [Hz1 Hz2]. apply (lo_apart _ Hlo l m Hla Hma Hne) with z; [unfold vn in *; congruence|congruence|]. unfold on in *.
        by rewrite E2, E3 in Hz1; rewrite F2, F3 in Hz2.
  - apply W2; [done|]. apply (pr_dom _ _ _ _ _ _ _ Hpr). right. apply Hrq.
  - rewrite W3, (pr_sleeping _ _ _ _ _ _ _ Hpr), elem_of_app. intros [Hr|Hr]; [|apply (rq_new _ _ Hrq); set_solver].
    destruct (Hcase r Hr) as [Hp|(Hra & _)]; [by apply (pr_new _ _ _ _ _ _ _ Hpr r Hp), Hrq|apply (rq_new _ _ Hrq); set_solver].
  - apply W5, (pr_quiet _ _ _ _ _ _ _ Hpr), Hrq.
  - apply core_fields in Hrc as (_ & -> & _). apply Hrq.
  - apply core_fields in Hrc as (_ & _ & E1 & E2 & _). unfold in_range. rewrite E1, E2. done.
  - done.
  - done.
  - done.
  - done.
  - by exists q.
  - by rewrite W3, (pr_sleeping _ _ _ _ _ _ _ Hpr).
Qed.

(** ** [flk_relation] *)

Lemma prepared_swap k r ps a b s s1 T wake : locks_ok s → requests r s → k ∈ active_locks s → vn s k = vn s r → owner (lk s k) = owner (lk s r) →
  prepared k r ps a b s s1 → (∀ t, t ∈ T → t ∈ ps ∨ (t = r ∧ l_type (lk s r) ≠ F_UNLCK)) →
  ∃ n s', (∀ fuel, (n ≤ fuel)%nat → swap fuel k T ps wake s1 = Ret (false, s')) ∧ gave_way k ps s1 s'.
Proof.
  intros Hlo Hrq Hk Hvn Ho Hpr HT. pose proof (lo_live _ _ Hlo Hk) as Hkl.
  assert (k ∉ ps) as Hkps by (intros Hp; by apply (pr_new _ _ _ _ _ _ _ Hpr k Hp), Hkl).
  assert (r ≠ k) as Hrk by (intros ->; destruct (rq_new _ _ Hrq); set_solver).
  assert (core (lk s1 k) = core (lk s k)) as Hkc by by apply (pr_core _ _ _ _ _ _ _ Hpr).
  pose proof (core_fields _ _ Hkc) as (_ & Ekt & _ & _ & _ & Eko).
  destruct (swap_ok k T ps wake s1) as (n & s' & Hr & Hok' & Ha' & Hw & Hg & Hq).
  - apply Hpr.
  - apply (active_ok_ext s); [apply Hlo|apply Hpr|apply Hpr|]. intros l Hl. unfold vn, st.
    assert (l ∉ ps) as Hlps by (intros Hp; by apply (pr_new _ _ _ _ _ _ _ Hpr l Hp), lo_live).
    assert (l ≠ r) as Hlr by (intros ->; apply (rq_new _ _ Hrq); set_solver).
    pose proof (core_fields _ _ (pr_core _ _ _ _ _ _ _ Hpr l Hlps Hlr)) as (-> & _ & -> & _). done.
  - by rewrite (pr_active _ _ _ _ _ _ _ Hpr).
  - rewrite (pr_sleeping _ _ _ _ _ _ _ Hpr). by apply (lo_sleep _ Hlo).
  - split; [apply (pr_dom _ _ _ _ _ _ _ Hpr); right; apply Hkl|rewrite Ekt; apply Hkl].
  - apply Hpr.
  - intros p Hp. split; [apply (pr_dom _ _ _ _ _ _ _ Hpr); by left|]. split; [by apply (pr_part _ _ _ _ _ _ _ Hpr)|].
    rewrite (pr_active _ _ _ _ _ _ _ Hpr). intros Hp'. by apply (pr_new _ _ _ _ _ _ _ Hpr p Hp), lo_live.
  - intros t Ht. destruct (HT t Ht) as [Hp|[-> Hrt]].
    + destruct (pr_part _ _ _ _ _ _ _ Hpr t Hp) as (Htq & _ & c & d & Hc%core_range). destruct Hc as (_ & E1 & _ & _ & E2).
      split; [split; [apply (pr_dom _ _ _ _ _ _ _ Hpr); by left|rewrite E1; apply Hkl]|]. split; [done|]. split; [congruence|]. by intros ->.
    + pose proof (core_range _ _ _ _ (pr_request _ _ _ _ _ _ _ Hpr)) as (_ & E1 & _ & _ & E2).
      split; [split; [apply (pr_dom _ _ _ _ _ _ _ Hpr); right; apply Hrq|by rewrite E1]|].
      split; [apply (pr_quiet _ _ _ _ _ _ _ Hpr), Hrq|]. split; [congruence|done].
  - exists n, s'. split; [done|]. by split.
Qed.

Lemma flk_relation_ok k r s : locks_ok s → requests r s → k ∈ active_locks s → vn s k = vn s r → owner (lk s k) = owner (lk s r) →
  ∃ n b s', (∀ fuel, (n ≤ fuel)%nat → flk_relation fuel k r s = Ret (b, s')) ∧
    ((s' = s ∧ apart (lk s k) (lk s r) ∧ (b = true → l_end (lk s r) < l_start (lk s k))) ∨
     ∃ ps a c, replaced k r ps a c s s' ∧ (b = true → ∀ z, on (lk s k) z ↔ on (lk s r) z) ∧
       ((stays (lk s k) (lk s r) ∧ ps = [] ∧ hull a c (lk s k) (lk s r)) ∨
        (¬ stays (lk s k) (lk s r) ∧ ¬ apart (lk s k) (lk s r) ∧ a = l_start (lk s r) ∧ c = l_end (lk s r)))).
Proof.
  intros Hlo Hrq Hk Hvn Ho. destruct (relation_cmp k r s) as [c s1] eqn:E. pose proof (lo_live _ _ Hlo Hk) as Hkl.
  pose proof (relation_cmp_spec k r s c s1 (rq_dom _ _ Hrq) (lo_range _ Hlo k Hk) (rq_range _ _ Hrq) (lo_graph _ Hlo) Hkl E) as Hc.
  pose proof (rq_range _ _ Hrq) as Hrr. unfold in_range in Hrr.
  assert (∀ parts ps a b, c = Topology parts → parts = ps ++ [r] → prepared k r ps a b s s1 → 0 ≤ a ≤ b ∧ b ≤ MAX_U_OFFSET_T →
    ∃ n s', (∀ fuel, (n ≤ fuel)%nat → flk_relation fuel k r s = Ret (false, s')) ∧ replaced k r ps a b s s') as Hswap.
  { intros parts ps a b -> -> Hpr Hab. set (eff := lock_effect (lk s k) (lk s r)).
    destruct (prepared_swap k r ps a b s s1 (if decide (eff = UNLOCK) then ps else ps ++ [r]) (bool_decide (eff = DOWNGRADE ∨ eff = UNLOCK)) Hlo Hrq Hk Hvn Ho Hpr)
      as (n & s' & Hr & Hg).
    { intros t. destruct (decide (eff = UNLOCK)) as [Eu|Eu]; [by left|]. rewrite elem_of_app, list_elem_of_singleton.
      intros [Ht| ->]; [by left|right]. split; [done|]. intros Et. by apply Eu, unlock_effect. }
    exists n, s'. split; [|by eapply replaced_ok]. intros fuel Hf. rewrite (flk_relation_topology _ _ _ _ _ _ E). cbv zeta. fold eff.
    rewrite removelast_last. by apply Hr. }
  destruct c as [parts|b|]; cbn [compared] in Hc.
  - destruct Hc as [(Hs & -> & a & b & -> & Hh)|(Hs & rs & ps & Ep & -> & Hrest & Hna)].
    + destruct (Hswap [r] [] a b eq_refl eq_refl) as (n & s' & Hr & Hrp).
      { apply prepared_hull; [apply Hlo|apply Hrq| |done]. intros Hr. apply (rq_new _ _ Hrq). set_solver. } { by destruct Hh as (? & ? & _). }
      exists n, false, s'. split; [done|]. right. exists [], a, b. split; [done|]. split; [done|]. by left.
    + destruct (Hswap (ps ++ [r]) ps (l_start (lk s r)) (l_end (lk s r)) eq_refl eq_refl) as (n & s' & Hr & Hrp).
      { apply (prepared_parts k r rs); [apply Hlo|done|apply Hrq|done|done]. } { done. }
      exists n, false, s'. split; [done|]. right. exists ps, (l_start (lk s r)), (l_end (lk s r)). split; [done|]. split; [done|]. right. done.
  - destruct Hc as (-> & Ha & Hb & _). exists 0%nat, b, s. split; [intros fuel _; unfold flk_relation; by rewrite E|]. left. done.
  - destruct Hc as (-> & Ht & Hz). destruct (exact_ok k s) as (s2 & Hr2 & Hg2); [apply Hlo|apply Hlo|done|by apply (lo_sleep _ Hlo)|].
    exists 0%nat, true, (flk_free_lock k s2). split; [intros fuel _; unfold flk_relation; rewrite E; cbv zeta; by rewrite Hr2|]. right.
    exists [], (l_start (lk s r)), (l_end (lk s r)). split; [|split; [done|]].
    + assert (prepared k r [] (l_start (lk s r)) (l_end (lk s r)) s (upd r (with_range (l_start (lk s r)) (l_end (lk s r))) s)) as Hpr.
      { apply prepared_hull; [apply Hlo|apply Hrq|intros Hr; apply (rq_new _ _ Hrq); set_solver|]. split; [lia|]. split; [lia|].
        intros z. rewrite Hz. unfold on. tauto. }
      rewrite <-(upd_id r _ s) in Hpr; [|apply Hrq|by destruct (lk s r)]. by apply (replaced_ok k r [] _ _ s s).
    + right. split; [unfold stays; intros Es; apply unlock_effect with (d := lk s k) in Ht; congruence|]. split; [|done].
      intros Ha. apply (Ha (l_start (lk s r))). rewrite Hz. unfold on. lia.
Qed.
