(* ===== verification/FlockLoop.v ===== *)
(** * [flk_execute_request] ([uts/common/os/flock.c])

    The loop over the locks of a vnode: it ends, for each lock of the owner of the request
    either gives way or has no byte in common with it, and what is held changes on the range
    of the request only. *)

From S2P Require Import Prelude Flock FlockReq FlockProc FlockWait FlockDeadlock FlockLists FlockGraph FlockWake FlockSwap FlockRelation FlockExec.

(** A lock that the request may have to do with. *)
Definition mine (s : graph) (r l : Z) : Prop := vn s l = vn s r ∧ owner (lk s l) = owner (lk s r).

(** ** What a replacement does to what is held *)

Section Replaced.
Context (k r : Z) (ps : list Z) (a b : Z) (s s' : graph).
Context (Hlo : locks_ok s) (Hrq : requests r s) (Hk : k ∈ active_locks s) (Hmine : mine s r k) (Hrp : replaced k r ps a b s s').

Lemma rp_mine : vn s' r = vn s r ∧ owner (lk s' r) = owner (lk s r) ∧ l_type (lk s' r) = l_type (lk s r) ∧
  ∀ z, on (lk s' r) z ↔ a ≤ z ≤ b.
Proof using Hrp.
  destruct (core_range _ _ _ _ (rp_request _ _ _ _ _ _ _ Hrp)) as (E1 & E2 & E3 & E4 & E5).
  split; [done|]. split; [done|]. split; [done|]. intros z. unfold on. by rewrite E3, E4.
Qed.

Lemma rp_member l : l ∈ active_locks s → l ≠ k → core (lk s' l) = core (lk s l) ∧ l ∈ active_locks s'.
Proof using Hlo Hrq Hrp Hk Hmine.
  intros Hl Hlk. split.
  - apply (rp_core _ _ _ _ _ _ _ Hrp); [by apply lo_live|done|]. intros ->. apply (rq_new _ _ Hrq). set_solver.
  - destruct (rp_list _ _ _ _ _ _ _ Hrp) as (q & Hq & _ & Hq' & _). rewrite Hq' , elem_of_app. rewrite Hq in Hl. set_solver.
Qed.

Lemma rp_cases l : l ∈ active_locks s' → (l ∈ ps ∧ mine s' r l ∧ l_type (lk s' l) = l_type (lk s k) ∧ (∀ z, on (lk s' l) z → on (lk s k) z ∧ ¬ a ≤ z ≤ b)) ∨
  (l ∈ active_locks s ∧ l ≠ k ∧ core (lk s' l) = core (lk s l)).
Proof using Hlo Hrq Hk Hmine Hrp.
  intros Hl. destruct (rp_list _ _ _ _ _ _ _ Hrp) as (q & Hq & _ & Hq' & _). rewrite Hq', elem_of_app in Hl. destruct Hl as [Hl|Hl].
  - left. destruct (rp_new _ _ _ _ _ _ _ Hrp l Hl) as (_ & _ & c & d & Hc%core_range). destruct Hc as (E1 & E2 & _ & _ & E3).
    destruct rp_mine as (F1 & F2 & _). destruct Hmine as [M1 M2]. split; [done|]. split; [split; unfold vn in *; congruence|]. split; [done|].
    intros z Hz. apply (rp_cover _ _ _ _ _ _ _ Hrp). by exists l.
  - right. assert (l ∈ active_locks s) as Hla by (rewrite Hq; by right).
    assert (l ≠ k) as Hlk by (intros ->; pose proof (ao_nodup _ (lo_active _ Hlo)) as Hnd; rewrite Hq in Hnd; by apply NoDup_cons in Hnd as [? _]).
    split; [done|]. split; [done|]. by apply rp_member.
Qed.

Lemma rp_held vp o z t : ¬ (vp = vn s r ∧ o = owner (lk s r) ∧ a ≤ z ≤ b) → held s' vp o z t ↔ held s vp o z t.
Proof using Hlo Hrq Hk Hmine Hrp.
  intros Hn. split.
  - intros (l & Hl & Hv & Ho & Hz & Ht). destruct (rp_cases l Hl) as [(_ & [M1 M2] & Et & Hon)|(Hla & _ & Hc%core_fields)].
    + exists k. destruct rp_mine as (F1 & F2 & _). destruct Hmine as [N1 N2]. split; [done|]. split; [congruence|]. split; [congruence|].
      split; [by apply Hon|congruence].
    + destruct Hc as (E1 & E2 & E3 & E4 & _ & E5). exists l. split; [done|]. split; [unfold vn in *; congruence|]. split; [congruence|].
      split; [unfold on in *; by rewrite E3, E4 in Hz|congruence].
  - intros (l & Hl & Hv & Ho & Hz & Ht). destruct (decide (l = k)) as [->|Hlk].
    + destruct Hmine as [N1 N2]. assert (¬ a ≤ z ≤ b) as Hab by (intros Hab; apply Hn; split; [congruence|split; [congruence|done]]).
      destruct (proj1 (rp_cover _ _ _ _ _ _ _ Hrp z) (conj Hz Hab)) as (p & Hp & Hpz).
      assert (p ∈ active_locks s') as Hpa by (destruct (rp_list _ _ _ _ _ _ _ Hrp) as (q & _ & _ & Hq' & _); rewrite Hq'; set_solver).
      destruct (rp_new _ _ _ _ _ _ _ Hrp p Hp) as (_ & _ & c & d & Hc%core_range). destruct Hc as (E1 & E2 & _ & _ & E5).
      exists p. split; [done|]. split; [unfold vn in *; congruence|]. split; [congruence|]. split; [done|congruence].
    + destruct (rp_member l Hl Hlk) as [Hc Hl']. apply core_fields in Hc as (E1 & E2 & E3 & E4 & _ & E5).
      exists l. split; [done|]. split; [unfold vn in *; congruence|]. split; [congruence|]. split; [unfold on in *; by rewrite E3, E4|congruence].
Qed.
End Replaced.

Lemma stays_type d r : l_type d = F_RDLCK ∨ l_type d = F_WRLCK → l_type r = F_RDLCK ∨ l_type r = F_WRLCK ∨ l_type r = F_UNLCK →
  stays d r → l_type d = l_type r.
Proof. unfold stays, lock_effect. intros [-> | ->] [-> |[-> | ->]]; done. Qed.
Lemma stays_ext d d' r r' : l_type d = l_type d' → l_type r = l_type r' → stays d r ↔ stays d' r'.
Proof. unfold stays, lock_effect. by intros -> ->. Qed.

(** ** The loop *)

(** The locks in [pre] have been gone over, from [s0] on. *)
Record going (r : Z) (s0 s : graph) (pre q : list Z) : Prop := {
  gg_list : active_locks s = pre ++ q;
  gg_locks : locks_ok s;
  gg_requests : requests r s;
  gg_request : vn s r = vn s0 r ∧ owner (lk s r) = owner (lk s0 r) ∧ l_type (lk s r) = l_type (lk s0 r);
  gg_apart l : l ∈ pre → mine s r l → apart (lk s l) (lk s r);
  gg_grown z : on (lk s0 r) z → on (lk s r) z;
  gg_taken z : on (lk s r) z → on (lk s0 r) z ∨ held s0 (vn s0 r) (owner (lk s0 r)) z (l_type (lk s0 r));
  gg_held vp o z t : ¬ (vp = vn s0 r ∧ o = owner (lk s0 r) ∧ on (lk s r) z) → held s vp o z t ↔ held s0 vp o z t;
  gg_sleeping : sleeping_locks s = sleeping_locks s0;
  gg_others l : l ∈ dom (locks s0) → l ∉ active_locks s0 → l ≠ r → core (lk s l) = core (lk s0 l) ∧ l ∈ dom (locks s) ∧ l ∉ active_locks s
}.

Lemma going_start r s : locks_ok s → requests r s → ∀ pre q, active_locks s = pre ++ q → (∀ l, l ∈ pre → ¬ mine s r l) → going r s s pre q.
Proof. intros Hlo Hrq pre q Hq Hpre. split; try done; [intros l Hl Hm; by destruct (Hpre l Hl)|auto]. Qed.

Lemma going_skip r s0 s pre q1 q2 : going r s0 s pre (q1 ++ q2) → (∀ l, l ∈ q1 → mine s r l → apart (lk s l) (lk s r)) → going r s0 s (pre ++ q1) q2.
Proof.
  intros [H1 H2 H3 H4 H5 H6 H7 H8 H9 H10] Hq. split; [by rewrite <-app_assoc|done|done|done| |done|done|done|done|done].
  intros l [Hl|Hl]%elem_of_app; auto.
Qed.

Lemma going_replaced r s0 s pre k q ps a c s' : going r s0 s pre (k :: q) → mine s r k → replaced k r ps a c s s' →
  (stays (lk s k) (lk s r) ∧ ps = [] ∧ hull a c (lk s k) (lk s r)) ∨
    (¬ stays (lk s k) (lk s r) ∧ ¬ apart (lk s k) (lk s r) ∧ a = l_start (lk s r) ∧ c = l_end (lk s r)) →
  ∀ pre' q', active_locks s' = pre' ++ q' → (∀ x, x ∈ pre' → x ∈ pre ∨ x ∈ ps ∨ (mine s r x → apart (lk s x) (lk s r))) → going r s0 s' pre' q'.
Proof.
  intros Hg Hm Hrp Halt pre' q' Hq' Hpre'. pose proof Hg as [H1 H2 H3 [H4 [H4' H4'']] H5 H6 H7 H8 H9 H10].
  assert (k ∈ active_locks s) as Hk by (rewrite H1; set_solver).
  destruct (rp_mine k r ps a c s s' Hrp) as (M1 & M2 & M3 & M4).
  assert (∀ z, on (lk s r) z → a ≤ z ≤ c) as Hgrow.
  { intros z Hz. destruct Halt as [(_ & _ & _ & _ & Hh)|(_ & _ & -> & ->)]; [apply Hh; by right|exact Hz]. }
  assert (∀ z, a ≤ z ≤ c → on (lk s r) z ∨ (on (lk s k) z ∧ l_type (lk s k) = l_type (lk s r))) as Htake.
  { intros z Hz. destruct Halt as [(Hs & _ & _ & _ & Hh)|(_ & _ & -> & ->)]; [|by left]. apply Hh in Hz as [Hz|Hz]; [right|by left].
    split; [done|]. apply stays_type; [by apply (lo_type _ H2)|apply H3|done]. }
  split.
  - done.
  - apply Hrp.
  - apply Hrp.
  - split; [congruence|]. split; congruence.
  - intros l Hl [L1 L2] z [Hz1 Hz2]. apply M4 in Hz2. assert (l ∈ active_locks s') as Hla by (rewrite Hq'; set_solver).
    destruct (rp_cases k r ps a c s s' H2 H3 Hk Hm Hrp l Hla) as [(_ & _ & _ & Hon)|(Hls & Hlk & Hc)]; [by apply (Hon z Hz1)|].
    apply core_fields in Hc as (E1 & _ & E3 & E4 & _ & E5). assert (on (lk s l) z) as Hz by (unfold on in *; by rewrite E3, E4 in Hz1).
    assert (mine s r l) as Hml by (split; unfold vn in *; congruence).
    assert (apart (lk s l) (lk s r)) as Hap.
    { destruct (Hpre' l Hl) as [?|[Hp|?]]; [auto| |auto]. destruct (rp_new _ _ _ _ _ _ _ Hrp l Hp) as (Hd & _). by destruct Hd; apply lo_live. }
    destruct (Htake z Hz2) as [Hr|[Hkz _]]; [by apply (Hap z)|].
    destruct Hm as [N1 N2], Hml as [N3 N4]. apply (lo_apart _ H2 l k Hls Hk Hlk) with z; [congruence|congruence|done].
  - intros z Hz. apply M4, Hgrow. auto.
  - intros z Hz%M4. destruct (Htake z Hz) as [Hr|[Hkz Ht]]; [auto|].
    destruct (decide (on (lk s r) z)) as [Hr|Hr]; [auto|]. right. apply H8; [intros (_ & _ & ?); done|].
    exists k. destruct Hm as [N1 N2]. split; [done|]. split; [congruence|]. split; [congruence|]. split; [done|congruence].
  - intros vp o z t Hn. rewrite M4 in Hn. rewrite (rp_held k r ps a c s s' H2 H3 Hk Hm Hrp).
    + apply H8. intros (? & ? & Hz). apply Hn. auto.
    + intros (-> & -> & Hz). apply Hn. split; [congruence|]. split; [congruence|done].
  - by rewrite (rp_sleeping _ _ _ _ _ _ _ Hrp).
  - intros l Hl Hla Hlr. destruct (H10 l Hl Hla Hlr) as (E & Hd & Hn). assert (l ≠ k) as Hlk by by intros ->.
    destruct (rp_core _ _ _ _ _ _ _ Hrp l Hd Hlk Hlr) as [-> ?]. split; [done|]. split; [done|]. intros Hl'.
    destruct (rp_cases k r ps a c s s' H2 H3 Hk Hm Hrp l Hl') as [(Hp & _)|(? & _)]; [|done]. by destruct (rp_new _ _ _ _ _ _ _ Hrp l Hp) as (? & _).
Qed.

(** ** The locks that are left *)

Lemma sublist_full {A} (l k : list A) : l `sublist_of` k → (length k ≤ length l)%nat → l = k.
Proof.
  induction 1 as [|x l k _ IH|x l k H _]; simpl; intros Hl; [done|f_equal; apply IH; lia|]. apply sublist_length in H. lia.
Qed.

Lemma sublist_without (pre q q0 : list Z) k : NoDup (pre ++ k :: q) → pre ++ k :: q ≡ₚ k :: q0 → q0 `sublist_of` pre ++ k :: q → q0 = pre ++ q.
Proof.
  intros Hnd Hp Hs. assert (k ∉ q0) as Hk by (rewrite Hp in Hnd; by apply NoDup_cons in Hnd as [? _]).
  apply Permutation_length in Hp. rewrite length_app in Hp. simpl in Hp.
  apply sublist_app_r in Hs as (a1 & a2 & -> & H1 & H2). apply sublist_cons_r in H2 as [H2|(l' & -> & _)]; [|set_solver].
  apply sublist_full; [by apply sublist_app|]. rewrite !length_app in *. lia.
Qed.

(** Where the loop goes on after new parts have got into the list. *)
Lemma next_after (pre q1 ps q' : list Z) l1 : NoDup q' → q' ≡ₚ ps ++ pre ++ l1 :: q1 → pre ++ l1 :: q1 `sublist_of` q' →
  ∃ a b, q' = a ++ l1 :: b ∧ (∀ x, x ∈ a → x ∈ pre ∨ x ∈ ps) ∧ (∀ x, x ∈ b → x ∈ ps ∨ x ∈ q1).
Proof.
  intros Hnd Hp (c & d & -> & H1 & H2)%sublist_app_l. apply sublist_cons_l in H2 as (e & f & -> & H2).
  exists (c ++ e), f. rewrite app_assoc in *. split; [done|]. apply sublist_subseteq in H1, H2.
  apply NoDup_app in Hnd as (_ & Hdis & Hnd). apply NoDup_cons in Hnd as [Hl1 _].
  assert (∀ x, x ∈ (c ++ e) ++ l1 :: f → x ∈ ps ∨ x ∈ pre ∨ x = l1 ∨ x ∈ q1) as Hall.
  { intros x. rewrite Hp, !elem_of_app, elem_of_cons. tauto. }
  split; intros x Hx.
  - destruct (Hall x) as [?|[?|[->|Hq]]]; [by rewrite elem_of_app; left|by right|by left|..].
    + destruct (Hdis l1 Hx). by left.
    + destruct (Hdis x Hx). right. by apply H2.
  - destruct (Hall x) as [?|[Hq|[->|?]]]; [rewrite elem_of_app; right; by right|by left| |done|by right].
    destruct (Hdis x); [apply elem_of_app; left; by apply H1|by right].
Qed.

(** The locks that the request is going to change, at most. *)
Definition hot (s : graph) (r l : Z) : Prop :=
  mine s r l ∧ (stays (lk s l) (lk s r) ∨ ¬ (l_end (lk s l) < l_start (lk s r) ∨ l_end (lk s r) < l_start (lk s l))).
#[local] Instance hot_dec s r l : Decision (hot s r l).
Proof. unfold hot, mine. apply _. Defined.
Definition hots (s : graph) (r : Z) (q : list Z) : nat := length (filter (hot s r) q).

Lemma hot_iff s r l : locks_ok s → requests r s → l ∈ active_locks s →
  hot s r l ↔ mine s r l ∧ (stays (lk s l) (lk s r) ∨ ¬ apart (lk s l) (lk s r)).
Proof. intros Hlo Hrq Hl. unfold hot. rewrite apart_iff; [done|by apply Hlo|apply Hrq]. Qed.

Lemma hots_fewer k r ps a c s s' q l1 q1 q' : locks_ok s → requests r s → mine s r k → replaced k r ps a c s s' →
  (stays (lk s k) (lk s r) ∧ ps = [] ∧ hull a c (lk s k) (lk s r)) ∨
    (¬ stays (lk s k) (lk s r) ∧ ¬ apart (lk s k) (lk s r) ∧ a = l_start (lk s r) ∧ c = l_end (lk s r)) →
  k ∈ active_locks s → (∀ x, x ∈ q → x ∈ active_locks s) → q = l1 :: q1 → (∀ x, x ∈ l1 :: q' → x ∈ active_locks s') → NoDup (l1 :: q') →
  (∀ x, x ∈ q' → x ∈ ps ∨ x ∈ q1) → (hots s' r (l1 :: q') < hots s r (k :: q))%nat.
Proof.
  intros Hlo Hrq Hm Hrp Halt Hk Hq -> Hq' Hnd Hin. destruct (rp_mine k r ps a c s s' Hrp) as (M1 & M2 & M3 & M4).
  unfold hots. rewrite (filter_cons_True (hot s r) k).
  2:{ apply hot_iff; [done|done|done|]. split; [done|]. destruct Halt as [(? & _)|(_ & ? & _)]; auto. }
  simpl. apply le_n_S. apply submseteq_length, NoDup_submseteq; [by apply NoDup_filter|].
  intros x [Hx Hxl]%list_elem_of_filter. apply hot_iff in Hx as [Hxm Hx]; [|apply Hrp|apply Hrp|by apply Hq'].
  destruct (rp_cases k r ps a c s s' Hlo Hrq Hk Hm Hrp x (Hq' x Hxl)) as [(Hp & _ & Ht & Hon)|(Hxs & Hxk & Hc)].
  - destruct Halt as [(_ & -> & _)|(Hns & _ & -> & ->)]; [by apply elem_of_nil in Hp|]. destruct Hx as [Hx|Hx].
    + destruct Hns. by apply (stays_ext (lk s' x) (lk s k) (lk s' r) (lk s r)).
    + destruct Hx. intros z [Hz1 Hz2]. apply M4 in Hz2. by apply (Hon z Hz1).
  - apply core_fields in Hc as (E1 & E2 & E3 & E4 & _ & E5).
    assert (mine s r x) as Hmx by (destruct Hxm; split; unfold vn in *; congruence).
    apply list_elem_of_filter. split.
    + apply hot_iff; [done|done|done|]. split; [done|]. destruct Hx as [Hx|Hx].
      * left. by apply (stays_ext (lk s' x) (lk s x) (lk s' r) (lk s r)).
      * right. intros Hap. apply Hx. intros z [Hz1 Hz2]. apply M4 in Hz2.
        assert (on (lk s x) z) as Hz by (unfold on in *; by rewrite E3, E4 in Hz1).
        destruct Halt as [(_ & _ & _ & _ & Hh)|(_ & _ & -> & ->)]; [|by apply (Hap z)].
        apply Hh in Hz2 as [Hkz|Hrz]; [|by apply (Hap z)]. destruct Hm as [N1 N2], Hmx as [N3 N4].
        apply (lo_apart _ Hlo x k Hxs Hk Hxk) with z; [congruence|congruence|done].
    + apply elem_of_cons in Hxl as [->|Hxl]; [by left|]. destruct (Hin x Hxl) as [Hp|?]; [|by right].
      by destruct (rp_new _ _ _ _ _ _ _ Hrp x Hp) as (Hd & _); destruct Hd; apply lo_live.
Qed.

Lemma others_run s pre k q r l1 q1 : locks_ok s → active_locks s = pre ++ k :: q → vn s k = vn s r → q = l1 :: q1 → vn s l1 ≠ vn s r →
  ∀ x, x ∈ q → ¬ mine s r x.
Proof.
  intros Hlo Ha Hk -> Hl1 x Hx [Hm _]. pose proof (ao_runs _ (lo_active _ Hlo)) as Hr. rewrite Ha in Hr.
  apply (runs_end (vn s) pre k (l1 :: q1) Hr); [simpl; congruence|]. rewrite Hk, <-Hm. by apply list_elem_of_fmap_2.
Qed.

Lemma after_apart s pre k q r : locks_ok s → requests r s → active_locks s = pre ++ k :: q → vn s k = vn s r →
  l_end (lk s r) < l_start (lk s k) → ∀ x, x ∈ q → mine s r x → apart (lk s x) (lk s r).
Proof.
  intros Hlo Hrq Ha Hk Hlt x Hx [Hm _]. assert (x ∈ active_locks s) as Hxa by (rewrite Ha; set_solver).
  apply apart_iff; [by apply Hlo|apply Hrq|]. right. pose proof (ao_sorted _ (lo_active _ Hlo)) as Hs. rewrite Ha in Hs.
  apply StronglySorted_app in Hs as (_ & _ & Hs). apply StronglySorted_inv in Hs as [_ Hs]. rewrite Forall_forall in Hs.
  specialize (Hs x Hx). unfold in_order, st in Hs. specialize (Hs ltac:(congruence)). lia.
Qed.

Lemma going_all r s0 s pre k q : going r s0 s pre (k :: q) → (mine s r k → apart (lk s k) (lk s r)) →
  (∀ x, x ∈ q → mine s r x → apart (lk s x) (lk s r)) → going r s0 s (pre ++ k :: q) [].
Proof.
  intros Hg Hk Hq. apply going_skip; [by rewrite app_nil_r|]. intros l [->|Hl]%elem_of_cons; auto.
Qed.

(** What a turn of the loop leads to: the end, or the next lock. *)
Definition turn (r : Z) (s0 s : graph) (k : Z) (q : list Z) (b : bool) (s1 : graph) : Prop :=
  match head q with
  | Some l1 =>
      if (vn s1 l1 =? vn s1 r) && negb b then
        ∃ pre' q', going r s0 s1 pre' (l1 :: q') ∧ ((hots s1 r (l1 :: q') < hots s r (k :: q))%nat ∨ (s1 = s ∧ q = l1 :: q'))
      else ∃ pre', going r s0 s1 pre' []
  | None => ∃ pre', going r s0 s1 pre' []
  end.

Lemma turn_same r s0 s pre k q b : going r s0 s pre (k :: q) → vn s k = vn s r → (mine s r k → apart (lk s k) (lk s r)) →
  (b = true → l_end (lk s r) < l_start (lk s k)) → turn r s0 s k q b s.
Proof.
  intros Hg Hv Hap Hb. pose proof (gg_list _ _ _ _ _ Hg) as Ha. unfold turn. destruct q as [|l1 q1]; simpl.
  - exists (pre ++ [k]). apply going_all; [done|done|]. intros x []%elem_of_nil.
  - destruct (Z.eqb_spec (vn s l1) (vn s r)) as [E|E]; [destruct b; simpl|simpl].
    + exists (pre ++ k :: l1 :: q1). apply going_all; [done|done|].
      exact (after_apart s pre k (l1 :: q1) r (gg_locks _ _ _ _ _ Hg) (gg_requests _ _ _ _ _ Hg) Ha Hv (Hb eq_refl)).
    + exists (pre ++ [k]), q1. split; [|by right]. apply going_skip; [exact Hg|]. intros l ->%list_elem_of_singleton. done.
    + exists (pre ++ k :: l1 :: q1). apply going_all; [done|done|]. intros x Hx Hm.
      by destruct (others_run s pre k (l1 :: q1) r l1 q1 (gg_locks _ _ _ _ _ Hg) Ha Hv eq_refl E x Hx).
Qed.

Lemma turn_replaced r s0 s pre k q ps a c b s1 : going r s0 s pre (k :: q) → mine s r k → replaced k r ps a c s s1 →
  (b = true → ∀ z, on (lk s k) z ↔ on (lk s r) z) →
  (stays (lk s k) (lk s r) ∧ ps = [] ∧ hull a c (lk s k) (lk s r)) ∨
    (¬ stays (lk s k) (lk s r) ∧ ¬ apart (lk s k) (lk s r) ∧ a = l_start (lk s r) ∧ c = l_end (lk s r)) → turn r s0 s k q b s1.
Proof.
  intros Hg Hm Hrp Hb Halt. pose proof Hg as [Ha Hlo Hrq _ _ _ _ _ _ _]. assert (k ∈ active_locks s) as Hk by (rewrite Ha; set_solver).
  destruct (rp_mine k r ps a c s s1 Hrp) as (M1 & _). pose proof (ao_nodup _ (lo_active _ Hlo)) as Hnd.
  destruct (rp_list _ _ _ _ _ _ _ Hrp) as (q0 & Hq0 & Hs0 & Hq1 & Hs1). rewrite Ha in Hnd, Hq0, Hs0.
  rewrite (sublist_without pre q q0 k Hnd Hq0 Hs0) in Hq1, Hs1. clear Hq0 Hs0 q0.
  assert (∀ x, x ∈ q → x ∈ active_locks s ∧ x ≠ k) as Hqa.
  { intros x Hx. split; [rewrite Ha; set_solver|]. apply NoDup_app in Hnd as (_ & _ & Hnd). apply NoDup_cons in Hnd as [? _]. by intros ->. }
  assert ((∀ x, x ∈ q → mine s r x → apart (lk s x) (lk s r)) → ∃ pre', going r s0 s1 pre' []) as Hend.
  { intros Hx. exists (active_locks s1). apply (going_replaced r s0 s pre k q ps a c s1 Hg Hm Hrp Halt); [by rewrite app_nil_r|].
    intros x. rewrite Hq1, !elem_of_app. intros [?|[?|Hxq]]; [by right; left|by left|]. right. right. by apply Hx. }
  unfold turn. destruct q as [|l1 q1]; simpl; [apply Hend; intros x []%elem_of_nil|].
  destruct (Hqa l1 ltac:(by left)) as [Hl1 Hl1k]. destruct (rp_member k r ps a c s s1 Hlo Hrq Hk Hm Hrp l1 Hl1 Hl1k) as [Hc1 _].
  apply core_fields in Hc1 as (Ev & _). change (vn s1 l1 = vn s l1) in Ev. rewrite Ev, M1.
  destruct (Z.eqb_spec (vn s l1) (vn s r)) as [E|E]; [destruct b; simpl|simpl].
  - apply Hend. intros x Hx Hmx z [Hz1 Hz2]. apply (Hb eq_refl) in Hz2. destruct (Hqa x Hx) as [Hxa Hxk], Hm as [N1 N2], Hmx as [N3 N4].
    apply (lo_apart _ Hlo x k Hxa Hk Hxk) with z; [congruence|congruence|done].
  - pose proof (ao_nodup _ (lo_active _ (rp_locks _ _ _ _ _ _ _ Hrp))) as Hnd1.
    destruct (next_after pre q1 ps (active_locks s1) l1 Hnd1 Hq1 Hs1) as (pre' & q' & E' & Hpre' & Hq'). exists pre', q'. split.
    + apply (going_replaced r s0 s pre k (l1 :: q1) ps a c s1 Hg Hm Hrp Halt); [done|]. intros x Hx. destruct (Hpre' x Hx); auto.
    + left. rewrite E' in Hnd1. apply NoDup_app in Hnd1 as (_ & _ & Hnd1).
      apply (hots_fewer k r ps a c s s1 (l1 :: q1) l1 q1 q' Hlo Hrq Hm Hrp Halt Hk); [intros x Hx; by apply Hqa|done| |done|done].
      intros x Hx. rewrite E'. set_solver.
  - apply Hend. intros x Hx Hmx. by destruct (others_run s pre k (l1 :: q1) r l1 q1 Hlo Ha (proj1 Hm) eq_refl E x Hx).
Qed.

Lemma execute_loop_ok r s0 : ∀ N q k pre s, going r s0 s pre (k :: q) → vn s k = vn s r → (hots s r (k :: q) ≤ N)%nat →
  ∃ n s', (∀ fuel, (n ≤ fuel)%nat → execute_loop fuel r k s = Ret s') ∧ ∃ pre', going r s0 s' pre' [].
Proof.
  induction N as [N IHN] using lt_wf_ind. intros q. induction q as [q IHq] using (induction_ltof1 _ (@length Z)). unfold ltof in IHq.
  intros k pre s Hg Hv HN. pose proof (gg_list _ _ _ _ _ Hg) as Ha.
  assert (l_next k (active_locks s) = head q) as Hnext.
  { rewrite Ha. apply l_next_split. pose proof (ao_nodup _ (lo_active _ (gg_locks _ _ _ _ _ Hg))) as Hnd. rewrite Ha in Hnd.
    apply NoDup_app in Hnd as (_ & Hd & _). intros Hk. apply (Hd k Hk). by left. }
  assert (∃ n b s1, (∀ fuel, (n ≤ fuel)%nat →
    (if SAME_OWNER (lk s r) (lk s k) then flk_relation fuel k r s else Ret (false, s)) = Ret (b, s1)) ∧ turn r s0 s k q b s1) as (n & b & s1 & Hr & Ht).
  { destruct (SAME_OWNER (lk s r) (lk s k)) eqn:Eo.
    - apply same_owner_iff in Eo. destruct (flk_relation_ok k r s) as (n & b & s1 & Hr & Hres); [apply Hg|apply Hg|rewrite Ha; set_solver|done|done|].
      exists n, b, s1. split; [done|]. destruct Hres as [(-> & Hap & Hb)|(ps & a & c & Hrp & Hb & Halt)].
      + by apply (turn_same r s0 s pre).
      + apply (turn_replaced r s0 s pre k q ps a c); [done|by split|done|done|done].
    - exists 0%nat, false, s. split; [done|]. apply (turn_same r s0 s pre); [done|done| |done]. intros [_ Hm].
      assert (SAME_OWNER (lk s r) (lk s k) = true) as Ht by (apply same_owner_iff; congruence). congruence. }
  assert (∀ m fuel, (n ≤ fuel)%nat → (m ≤ fuel)%nat → execute_loop (S fuel) r k s = match head q with
    | Some lock1 => if (vn s1 lock1 =? vn s1 r) && negb b then execute_loop fuel r lock1 s1 else Ret s1 | None => Ret s1 end) as Hstep.
  { intros m fuel Hn _. cbn [execute_loop]. rewrite Hr by done. cbn [rbind]. by rewrite Hnext. }
  assert ((∀ fuel, (S n ≤ fuel)%nat → execute_loop fuel r k s = Ret s1) → (∃ pre', going r s0 s1 pre' []) →
    ∃ n s', (∀ fuel, (n ≤ fuel)%nat → execute_loop fuel r k s = Ret s') ∧ ∃ pre', going r s0 s' pre' []) as Hend by (intros H1 H2; by exists (S n), s1).
  unfold turn in Ht. destruct (head q) as [l1|] eqn:Eh.
  2:{ apply Hend; [|done]. intros [|fuel] Hf; [lia|]. apply (Hstep 0%nat); lia. }
  destruct ((vn s1 l1 =? vn s1 r) && negb b) eqn:Ec.
  2:{ apply Hend; [|done]. intros [|fuel] Hf; [lia|]. apply (Hstep 0%nat); lia. }
  destruct Ht as (pre' & q' & Hg' & Hless). apply andb_true_iff in Ec as [Ev%Z.eqb_eq _].
  assert (∃ m s', (∀ fuel, (m ≤ fuel)%nat → execute_loop fuel r l1 s1 = Ret s') ∧ ∃ pre', going r s0 s' pre' []) as (m & s' & Hm & Hfin).
  { destruct Hless as [Hl|[-> ->]].
    - apply (IHN (hots s1 r (l1 :: q'))) with q' pre'; [lia|done|done|done].
    - apply (IHq q') with pre'; [simpl; lia|done|done|]. unfold hots in *. rewrite filter_cons in HN. case_decide; simpl in HN; lia. }
  exists (S (n + m)), s'. split; [|done]. intros [|fuel] Hf; [lia|]. rewrite (Hstep m) by lia. apply Hm. lia.
Qed.

(** ** The request takes its place *)

Lemma held_unique s vp o z t t' : locks_ok s → held s vp o z t → held s vp o z t' → t = t'.
Proof.
  intros Hlo (l & Hl & Hv & Ho & Hz & Ht) (m & Hm & Hv' & Ho' & Hz' & Ht'). destruct (decide (l = m)) as [->|Hne]; [congruence|].
  exfalso. apply (lo_apart _ Hlo l m Hl Hm Hne) with z; [congruence|congruence|done].
Qed.

Lemma held_type s vp o z t : locks_ok s → held s vp o z t → t ≠ F_UNLCK.
Proof. intros Hlo (l & Hl & _ & _ & _ & <-). by destruct (lo_type _ Hlo l Hl) as [-> | ->]. Qed.

Lemma insert_request_ok r s : locks_ok s → requests r s → l_type (lk s r) ≠ F_UNLCK →
  (∀ l, l ∈ active_locks s → mine s r l → apart (lk s l) (lk s r)) → let s' := flk_insert_active_lock r s in
  locks_ok s' ∧ aframe s s' ∧ ∀ vp o z t, held s' vp o z t ↔
    held s vp o z t ∨ (vp = vn s r ∧ o = owner (lk s r) ∧ on (lk s r) z ∧ t = l_type (lk s r)).
Proof.
  intros Hlo Hrq Hty Hap s'. assert (r ∉ active_locks s) as Hra by (intros H; apply (rq_new _ _ Hrq); set_solver).
  destruct (insert_active_ok None r s (lo_graph _ Hlo) (lo_active _ Hlo) Hra (rq_dom _ _ Hrq) (rq_quiet _ _ Hrq)) as (Hok & Ha & Hf & Hp & _).
  fold s' in Hok, Ha, Hf, Hp.
  assert (∀ l, vn s' l = vn s l ∧ l_type (lk s' l) = l_type (lk s l) ∧ owner (lk s' l) = owner (lk s l) ∧
    l_start (lk s' l) = l_start (lk s l) ∧ l_end (lk s' l) = l_end (lk s l)) as Hc.
  { intros l. destruct (core_fields _ _ (af_core _ _ Hf l)) as (E1 & E2 & E3 & E4 & _ & E5). done. }
  assert (∀ l z, on (lk s' l) z ↔ on (lk s l) z) as Hon by (intros l z; unfold on; destruct (Hc l) as (_ & _ & _ & -> & ->); done).
  split; [|split; [done|]].
  - split; [done|done|..].
    + intros l. rewrite Hp, elem_of_cons. destruct (Hc l) as (_ & -> & _). intros [->|Hl]; [|by apply Hlo].
      destruct (rq_type _ _ Hrq) as [?|[?|?]]; [by left|by right|done].
    + intros l. rewrite Hp, elem_of_cons. unfold in_range. destruct (Hc l) as (_ & _ & _ & -> & ->). intros [->|Hl]; [apply Hrq|by apply Hlo].
    + intros l. rewrite Hp, elem_of_cons, (af_sleeping _ _ Hf). intros [->|Hl]; [|by apply Hlo].
      intros H. apply (rq_new _ _ Hrq). set_solver.
    + intros l. rewrite (af_sleeping _ _ Hf). intros Hl. by apply (af_live s), Hlo.
    + intros l m. rewrite Hp, !elem_of_cons. destruct (Hc l) as (-> & _ & -> & _), (Hc m) as (-> & _ & -> & _).
      intros [->|Hl] [->|Hm] Hne Hv Ho z [Hz1%Hon Hz2%Hon].
      * done.
      * apply (Hap m Hm) with z; [split; congruence|done].
      * apply (Hap l Hl) with z; [by split|done].
      * apply (lo_apart _ Hlo l m Hl Hm Hne Hv Ho) with z. done.
  - intros vp o z t. split.
    + intros (l & Hl & Hv & Ho & Hz & Ht). rewrite Hp, elem_of_cons in Hl. destruct (Hc l) as (E1 & E2 & E3 & _). apply Hon in Hz.
      rewrite E1 in Hv. rewrite E2 in Ht. rewrite E3 in Ho. destruct Hl as [->|Hl]; [by right|left; by exists l].
    + intros [(l & Hl & Hv & Ho & Hz & Ht)|(-> & -> & Hz & ->)]; [exists l; destruct (Hc l) as (-> & -> & -> & _)|exists r; destruct (Hc r) as (-> & -> & -> & _)];
        rewrite Hp, elem_of_cons, Hon; auto.
Qed.

(** What a request leads to. *)
Record executed (r : Z) (s s' : graph) : Prop := {
  ex_locks : locks_ok s';
  ex_held vp o z t : held s' vp o z t ↔
    if decide (vp = vn s r ∧ o = owner (lk s r) ∧ on (lk s r) z) then t = l_type (lk s r) ∧ t ≠ F_UNLCK else held s vp o z t;
  ex_sleeping : sleeping_locks s' = sleeping_locks s;
  ex_others l : l ∈ dom (locks s) → l ∉ active_locks s → l ≠ r → core (lk s' l) = core (lk s l) ∧ l ∈ dom (locks s')
}.

#[local] Instance on_dec d z : Decision (on d z).
Proof. unfold on. apply _. Defined.

Lemma going_end r s0 s pre : locks_ok s0 → going r s0 s pre [] →
  executed r s0 (if l_type (lk s0 r) =? F_UNLCK then s else flk_insert_active_lock r s).
Proof.
  intros Hlo0 [H1 H2 H3 (H4 & H5 & H6) H7 H8 H9 H10 H11 H12]. rewrite app_nil_r in H1.
  assert (∀ vp o z t, vp = vn s0 r → o = owner (lk s0 r) → on (lk s r) z → ¬ held s vp o z t) as Hnone.
  { intros vp o z t -> -> Hz (l & Hl & Hv & Ho & Hlz & _). rewrite H1 in Hl. apply (H7 l Hl) with z; [split; congruence|done]. }
  destruct (Z.eqb_spec (l_type (lk s0 r)) F_UNLCK) as [Ht|Ht].
  - split; [done| |done|intros l Hl Hn Hlr; by destruct (H12 l Hl Hn Hlr) as (? & ? & _)].
    intros vp o z t. case_decide as E.
    + destruct E as (E1 & E2 & Hz). split; [intros H; by destruct (Hnone vp o z t E1 E2 (H8 z Hz))|intros [-> ?]; done].
    + apply H10. intros (E1 & E2 & Hz). destruct (H9 z Hz) as [Hz'|Hh]; [by apply E|]. rewrite Ht in Hh. by apply (held_type s0) in Hh.
  - destruct (insert_request_ok r s H2 H3 ltac:(by rewrite H6) ltac:(rewrite H1; exact H7)) as (Hlo' & Hf & Hheld).
    rewrite H4, H5, H6 in Hheld. split.
    + done.
    + intros vp o z t. rewrite Hheld. case_decide as E.
      * destruct E as (-> & -> & Hz). split.
        -- intros [Hh|(_ & _ & _ & ->)]; [by destruct (Hnone _ _ z t eq_refl eq_refl (H8 z Hz))|done].
        -- intros [-> _]. right. auto.
      * destruct (decide (vp = vn s0 r ∧ o = owner (lk s0 r) ∧ on (lk s r) z)) as [(-> & -> & Hz)|Hn].
        -- destruct (H9 z Hz) as [Hz'|Hh]; [by destruct E|]. split.
           ++ intros [Hh'|(_ & _ & _ & ->)]; [by destruct (Hnone _ _ z t eq_refl eq_refl Hz)|done].
           ++ intros Hh'. right. split; [done|]. split; [done|]. split; [done|]. exact (held_unique s0 _ _ _ _ _ Hlo0 Hh' Hh).
        -- rewrite H10 by done. split; [intros [?|(? & ? & ? & _)]; [done|by destruct Hn]|by left].
    + by rewrite (af_sleeping _ _ Hf).
    + intros l Hl Hn Hlr. destruct (H12 l Hl Hn Hlr) as (E & Hd & _). by rewrite (af_core _ _ Hf), (af_dom _ _ Hf).
Qed.

Lemma execute_request_ok r s : locks_ok s → requests r s → has IO_LOCK (lk s r) = false →
  ∃ n s', (∀ fuel, (n ≤ fuel)%nat → flk_execute_request fuel r s = Ret s') ∧ executed r s s'.
Proof.
  intros Hlo Hrq Hio. unfold flk_execute_request. cbv zeta. rewrite Hio. rewrite (ao_first _ (lo_active _ Hlo)).
  fold (vn s r). destruct (first_of (vn s) (vn s r) (active_locks s)) as [k|] eqn:E.
  - apply first_of_some in E as (pre & q & Ha & Hk & Hpre).
    destruct (execute_loop_ok r s (hots s r (k :: q)) q k pre s) as (n & s' & Hr & pre' & Hg); [|done|done|].
    { apply going_start; [done|done|done|]. intros l Hl [Hm _]. apply Hpre. rewrite <-Hm. by apply list_elem_of_fmap_2. }
    eexists n, _. split; [intros fuel Hf; rewrite Hr by done; reflexivity|]. by apply (going_end r s s' pre').
  - apply first_of_none in E. exists 0%nat. eexists. split.
    { intros fuel _. instantiate (1 := if l_type (lk s r) =? F_UNLCK then s else flk_insert_active_lock r s). by case_match. }
    apply (going_end r s s (active_locks s)); [done|]. apply going_start; [done|done|by rewrite app_nil_r|].
    intros l Hl [Hm _]. apply E. rewrite <-Hm. by apply list_elem_of_fmap_2.
Qed.

(** C2: [flk_execute_request] ends, on any descriptor that is in no list and waits for none, and on any graph in
    which no owner has two locks on a byte and no lock waits for itself: on the bytes of the request its owner has
    from then on a lock of the type that was asked for, or none if it was to be unlocked; on the other bytes, on
    other files and for other owners everything is as it was, although locks have been split, merged and taken
    over for it and those that wait have been given new edges; and the graph is again one of this kind. *)
Theorem flk_execute_request_ok r s : locks_ok s → requests r s → has IO_LOCK (lk s r) = false →
  ∃ n s', (∀ fuel, (n ≤ fuel)%nat → flk_execute_request fuel r s = Ret s') ∧ locks_ok s' ∧
    sleeping_locks s' = sleeping_locks s ∧
    ∀ vp o z t, held s' vp o z t ↔
      if decide (vp = l_vnode (lk s r) ∧ o = owner (lk s r) ∧ l_start (lk s r) ≤ z ≤ l_end (lk s r))
      then t = l_type (lk s r) ∧ t ≠ F_UNLCK else held s vp o z t.
Proof.
  intros Hlo Hrq Hio. destruct (execute_request_ok r s Hlo Hrq Hio) as (n & s' & Hr & [H1 H2 H3 _]). exists n, s'.
  split; [done|]. split; [done|]. split; [done|]. intros vp o z t. rewrite H2. unfold on, vn. case_decide as E.
  - by rewrite decide_True.
  - by rewrite decide_False.
Qed.

(** Graphs without edges. *)
Definition edge_free (s : graph) : Prop := map_Forall (λ _ d, l_in d = [] ∧ l_adj d = [] ∧ pvertex d = -1) (locks s).

Lemma edge_free_lk s l : edge_free s → l_in (lk s l) = [] ∧ l_adj (lk s l) = [].
Proof. intros Hm. unfold lk. destruct (locks s !! l) eqn:E; [|done]. by destruct (Hm l _ E) as (? & ? & _). Qed.

Lemma edge_free_ok s : edge_free s → pg_ok (pgraph s) → (∀ l, l ∈ active_locks s ++ sleeping_locks s → l ∈ dom (locks s)) →
  (∀ l, l ∈ dom (locks s) → l < next_lock s) → graph_ok None s.
Proof.
  intros He Hpg Hl Hn. pose proof (λ l, edge_free_lk s l He) as Hno.
  assert (∀ l m, m ∉ l_in (lk s l)) as Hq by (intros l m; rewrite (proj1 (Hno l)); apply not_elem_of_nil).
  split.
  - done.
  - intros l [[d Hd]%elem_of_dom _]. unfold vertex_ok, lk. rewrite Hd. simpl. destruct (He l d Hd) as (_ & _ & ->). lia.
  - intros l m Hm. by destruct (Hq l m).
  - intros l m _. by rewrite (proj1 (Hno m)), (proj2 (Hno l)).
  - done.
  - intros l. constructor. intros m Hm. by destruct (Hq l m).
  - done.
  - intros l _ m. apply Hq.
  - done.
Qed.

(** A lock on a file, and a request. *)
Definition one_lock (k r : lockd) : graph :=
  Graph {[1 := k; 2 := r]} 3 [1] [] {[l_vnode k := 1]} 0 FLK_LOCKMGR_UP (ProcGraph [] 0 0 ∅ 1).
Definition example_lock (ty pid a b : Z) : lockd := Lockd 7 ty 0 a b (Flock64 ty 0 a (b - a + 1) 0 pid) 0 0 [] (-1) [] [].

Section OneLock.
Context (ty pid a b ty' pid' a' b' : Z).
Let k := example_lock ty pid a b.
Let r := example_lock ty' pid' a' b'.
Context (Hk : ty = F_RDLCK ∨ ty = F_WRLCK) (Hab : in_range k).

Lemma one_lock_free : edge_free (one_lock k r).
Proof using Type. intros l d. simpl. intros [[_ <-]|[_ H]]%lookup_insert_Some; [done|]. by apply lookup_singleton_Some in H as [_ <-]. Qed.

Lemma one_lock_ok : locks_ok (one_lock k r).
Proof using Hk Hab.
  assert (dom (locks (one_lock k r)) = {[1; 2]}) as Hd by (apply set_eq; intros l; simpl; rewrite dom_insert_L, dom_singleton_L; set_solver).
  split.
  - apply edge_free_ok; [exact one_lock_free|exact empty_pg_ok|..].
    + intros l Hl. rewrite Hd. simpl in Hl. set_solver.
    + intros l. rewrite Hd, elem_of_union, !elem_of_singleton. by intros [->| ->].
  - split.
    + apply NoDup_singleton.
    + by split; [intros ?%elem_of_nil|].
    + intros vp. unfold first_of. simpl. rewrite filter_cons. change (vn (one_lock k r) 1) with 7. case_decide as E.
      * by subst.
      * simpl. by rewrite lookup_singleton_ne.
    + repeat constructor.
  - by intros l ->%list_elem_of_singleton.
  - by intros l ->%list_elem_of_singleton.
  - intros l _. apply not_elem_of_nil.
  - intros l []%elem_of_nil.
  - intros l m ->%list_elem_of_singleton ->%list_elem_of_singleton. done.
Qed.

Lemma one_lock_requests : ty' = F_RDLCK ∨ ty' = F_WRLCK ∨ ty' = F_UNLCK → in_range r → requests 2 (one_lock k r).
Proof using Type.
  clear Hk Hab. intros Ht Hr. split; [simpl; rewrite dom_insert_L, dom_singleton_L; set_solver|simpl; set_solver| |done|done].
  intros m. rewrite (proj1 (edge_free_lk _ m one_lock_free)). apply not_elem_of_nil.
Qed.

Lemma one_lock_held vp o z t : held (one_lock k r) vp o z t ↔ vp = 7 ∧ o = (pid, 0) ∧ a ≤ z ≤ b ∧ t = ty.
Proof using Type.
  split; [by intros (l & ->%list_elem_of_singleton & <- & <- & Hz & <-)|]. intros (-> & -> & Hz & ->). exists 1.
  split; [by left|]. split; [done|]. split; [done|]. by split.
Qed.
End OneLock.

(** A lock on ten bytes, and a request that unlocks three of them in the middle: the ends are still locked. *)
Definition split_example : graph := one_lock (example_lock F_WRLCK 10 0 9) (example_lock F_UNLCK 10 3 5).

Lemma flk_execute_request_ok_witness : ∃ n s', flk_execute_request n 2 split_example = Ret s' ∧ locks_ok s' ∧
  held s' 7 (10, 0) 2 F_WRLCK ∧ ¬ held s' 7 (10, 0) 4 F_WRLCK ∧ held s' 7 (10, 0) 9 F_WRLCK.
Proof.
  destruct (flk_execute_request_ok 2 split_example) as (n & s' & Hr & Hlo & _ & Hh); [|by apply one_lock_requests; [right; right|]|done|].
  { apply one_lock_ok; [by right|done]. }
  exists n, s'. split; [by apply Hr|]. split; [done|]. rewrite !Hh. split; [|split].
  - rewrite decide_False; [by apply one_lock_held|]. intros (_ & _ & [H _]). by vm_compute in H.
  - rewrite decide_True; [by intros [? _]|done].
  - rewrite decide_False; [by apply one_lock_held|]. intros (_ & _ & [_ H]). by vm_compute in H.
Defined.
