(* ===== verification/FlockCheck.v ===== *)
(** * Requests that do not wait ([uts/common/os/flock.c])

    [flk_process_request] for a request whose process is not willing to sleep: it is executed,
    or refused because of a lock in the way or of a circle of processes that would wait for
    one another, and locks of different owners exclude each other. *)

From stdpp Require Import relations.
From S2P Require Import Prelude Flock FlockReq FlockProc FlockWait FlockDeadlock FlockLists FlockGraph FlockWake FlockSwap FlockRelation FlockExec FlockLoop.

(** ** The store of [flk_check_deadlock] *)

(** The store keeps its descriptors, and all edges are between them. *)
Definition shut (s : graph) : Prop := closed l_adj s ∧ closed l_in s.
Definition stay_shut (s s' : graph) : Prop := dom (locks s') = dom (locks s) ∧ (shut s → shut s').

Lemma stay_shut_refl s : stay_shut s s.
Proof. by split. Qed.
Lemma stay_shut_trans s1 s2 s3 : stay_shut s1 s2 → stay_shut s2 s3 → stay_shut s1 s3.
Proof. intros [H1 H2] [G1 G2]. split; [congruence|auto]. Qed.

Lemma stay_shut_upd l f s : l ∈ dom (locks s) → (∀ d t, (t ∈ l_adj (f d) → t ∈ l_adj d) ∧ (t ∈ l_in (f d) → t ∈ l_in d)) → stay_shut s (upd l f s).
Proof.
  intros Hl Hf. split; [by apply dom_upd|]. intros [H1 H2]. split; intros k t; rewrite dom_upd, lk_upd by done; case_decide as E.
  - subst. intros Ht%Hf. by apply (H1 l).
  - apply H1.
  - subst. intros Ht%Hf. by apply (H2 l).
  - apply H2.
Qed.

Lemma get_vertex_shut s l p s' : flk_get_proc_vertex l s = Ret (p, s') → l ∈ dom (locks s) → stay_shut s s'.
Proof.
  intros H Hl. unfold flk_get_proc_vertex in H.
  assert (∀ i g, stay_shut s (upd l (set_pvertex i) (set_pgraph g s))) as Hu.
  { intros i g. apply (stay_shut_trans _ (set_pgraph g s)); [by split|]. by apply stay_shut_upd. }
  destruct (if pvertex (lk s l) =? -1 then _ else _) as [c| |]; [|done|done]. cbn [rbind] in H. destruct c; [injection H as _ <-; apply stay_shut_refl|].
  repeat case_match; cbv zeta in H; injection H as _ <-; apply Hu.
Qed.

Lemma pgupd_shut f s s' : stay_shut s s' → stay_shut s (pgupd f s').
Proof. intros [H1 H2]. by split. Qed.

Lemma cut_shut a b s : a ∈ dom (locks s) → b ∈ dom (locks s) → stay_shut s (cut a b s).
Proof.
  intros Ha Hb. assert (stay_shut s (IN_LIST_REMOVE a b s)) as Hi by (apply stay_shut_upd; [done|]; intros d t; split; [done|apply remove_one_in]).
  eapply stay_shut_trans; [exact Hi|]. apply stay_shut_upd; [by rewrite (proj1 Hi)|]. intros d t. split; [apply remove_one_in|done].
Qed.

Lemma out_proc_edges_shut start ls : ∀ s s', out_proc_edges start ls s = Ret s' → (∀ t, t ∈ ls → t ∈ dom (locks s)) → stay_shut s s'.
Proof.
  induction ls as [|t ls IH]; intros s s'; cbn [out_proc_edges]; [intros [= <-] _; apply stay_shut_refl|]. intros H Hls.
  destruct (flk_get_proc_vertex t s) as [[p s1]| |] eqn:E; [|done|done]. cbn [rbind] in H.
  assert (stay_shut s s1) as H1 by (apply (get_vertex_shut s t p s1 E), Hls; by left).
  eapply stay_shut_trans; [|apply (IH _ _ H)]; [by apply pgupd_shut|]. intros u Hu. simpl. rewrite (proj1 H1). apply Hls. by right.
Qed.
Lemma in_proc_edges_shut start ls : ∀ s s', in_proc_edges start ls s = Ret s' → (∀ t, t ∈ ls → t ∈ dom (locks s)) → stay_shut s s'.
Proof.
  induction ls as [|t ls IH]; intros s s'; cbn [in_proc_edges]; [intros [= <-] _; apply stay_shut_refl|]. intros H Hls.
  destruct (flk_get_proc_vertex t s) as [[p s1]| |] eqn:E; [|done|done]. cbn [rbind] in H.
  assert (stay_shut s s1) as H1 by (apply (get_vertex_shut s t p s1 E), Hls; by left).
  eapply stay_shut_trans; [|apply (IH _ _ H)]; [by apply pgupd_shut|]. intros u Hu. simpl. rewrite (proj1 H1). apply Hls. by right.
Qed.

Lemma undo_out_shut lock start ls : ∀ s s', undo_out lock start ls s = Ret s' → lock ∈ dom (locks s) → (∀ t, t ∈ ls → t ∈ dom (locks s)) → stay_shut s s'.
Proof.
  induction ls as [|t ls IH]; intros s s'; cbn [undo_out]; [intros [= <-] _ _; apply stay_shut_refl|]. intros H Hl Hls.
  destruct (flk_get_proc_vertex t s) as [[p s1]| |] eqn:E; [|done|done]. cbn [rbind] in H.
  assert (stay_shut s s1) as H1 by (apply (get_vertex_shut s t p s1 E), Hls; by left).
  destruct (del_proc_edge start p p _) as [g| |]; [|done|done]. cbn [rbind] in H.
  assert (stay_shut s (set_pgraph g (ADJ_LIST_REMOVE lock t (IN_LIST_REMOVE lock t s1)))) as H2.
  { eapply stay_shut_trans; [exact H1|]. apply (stay_shut_trans _ (cut lock t s1)); [|by split].
    apply cut_shut; rewrite (proj1 H1); [done|apply Hls; by left]. }
  eapply stay_shut_trans; [exact H2|]. apply (IH _ _ H); [by rewrite (proj1 H2)|]. intros u Hu. rewrite (proj1 H2). apply Hls. by right.
Qed.
Lemma undo_in_shut lock start ls : ∀ s s', undo_in lock start ls s = Ret s' → lock ∈ dom (locks s) → (∀ t, t ∈ ls → t ∈ dom (locks s)) → stay_shut s s'.
Proof.
  induction ls as [|t ls IH]; intros s s'; cbn [undo_in]; [intros [= <-] _ _; apply stay_shut_refl|]. intros H Hl Hls.
  destruct (flk_get_proc_vertex t s) as [[p s1]| |] eqn:E; [|done|done]. cbn [rbind] in H.
  assert (stay_shut s s1) as H1 by (apply (get_vertex_shut s t p s1 E), Hls; by left).
  destruct (del_proc_edge p start p _) as [g| |]; [|done|done]. cbn [rbind] in H.
  assert (stay_shut s (set_pgraph g (ADJ_LIST_REMOVE t lock (IN_LIST_REMOVE t lock s1)))) as H2.
  { eapply stay_shut_trans; [exact H1|]. apply (stay_shut_trans _ (cut t lock s1)); [|by split].
    apply cut_shut; rewrite (proj1 H1); [apply Hls; by left|done]. }
  eapply stay_shut_trans; [exact H2|]. apply (IH _ _ H); [by rewrite (proj1 H2)|]. intros u Hu. rewrite (proj1 H2). apply Hls. by right.
Qed.

Lemma check_deadlock_dom s lock b s' : shut s → lock ∈ dom (locks s) → flk_check_deadlock lock s = Ret (b, s') → dom (locks s') = dom (locks s).
Proof.
  intros Hs Hl H. unfold flk_check_deadlock in H.
  destruct (flk_get_proc_vertex lock s) as [[start s0]| |] eqn:E0; [|done|done]. cbn [rbind] in H.
  pose proof (get_vertex_shut s lock start s0 E0 Hl) as H0. assert (shut s0) as Hs0 by by apply H0.
  destruct (out_proc_edges start (l_adj (lk s0 lock)) s0) as [s1| |] eqn:E1; [|done|done]. cbn [rbind] in H.
  pose proof (out_proc_edges_shut _ _ _ _ E1 ltac:(apply Hs0)) as H1. assert (shut s1) as Hs1 by by apply H1.
  destruct (in_proc_edges start (l_in (lk s1 lock)) s1) as [s2| |] eqn:E2; [|done|done]. cbn [rbind] in H.
  pose proof (in_proc_edges_shut _ _ _ _ E2 ltac:(apply Hs1)) as H2. assert (shut s2) as Hs2 by by apply H2.
  assert (dom (locks s2) = dom (locks s)) as Hd2 by by rewrite (proj1 H2), (proj1 H1), (proj1 H0).
  destruct (incount _ =? 0); [by injection H as _ <-|]. cbv zeta in H.
  destruct (deadlock_search _ _ _) as [[found g]| |]; [|done|done]. cbn [rbind] in H. destruct found; [|by injection H as _ <-].
  destruct (undo_out lock start _ _) as [s3| |] eqn:E3; [|done|done]. cbn [rbind] in H.
  pose proof (undo_out_shut _ _ _ _ _ E3 ltac:(simpl; by rewrite Hd2) ltac:(apply Hs2)) as H3. assert (shut s3) as Hs3 by by apply H3.
  destruct (undo_in lock start _ _) as [s4| |] eqn:E4; [|done|done]. cbn [rbind] in H.
  pose proof (undo_in_shut _ _ _ _ _ E4 ltac:(rewrite (proj1 H3); simpl; by rewrite Hd2) ltac:(apply Hs3)) as H4.
  destruct (flk_proc_release start (pgraph s4)) as [g'| |]; [|done|done]. cbn [rbind] in H. injection H as _ <-. simpl.
  rewrite (proj1 H4), (proj1 H3). exact Hd2.
Qed.

(** ** [flk_check_deadlock] on the graph of locks *)

Lemma upd_comm a b f g s : a ≠ b → upd a f (upd b g s) = upd b g (upd a f s).
Proof.
  intros Hne. assert (lk (upd b g s) a = lk s a) as E1 by (rewrite lk_upd; by rewrite decide_False).
  assert (lk (upd a f s) b = lk s b) as E2 by (rewrite lk_upd; by rewrite decide_False).
  transitivity (set_locks (<[a := f (lk s a)]> (<[b := g (lk s b)]> (locks s))) s); [unfold upd at 1; by rewrite E1|].
  rewrite insert_insert_ne by done. unfold upd at 1. by rewrite E2.
Qed.
Lemma cut_unlink a b s : a ≠ b → cut a b s = unlink true a b s.
Proof. intros Hne. by apply upd_comm. Qed.

(** Edges that are taken away. *)
Record fewer (s s' : graph) : Prop := {
  fw_graph : graph_ok None s';
  fw_frame : gframe s s';
  fw_quiet x : quiet s x → quiet s' x;
  fw_pgraph : pgraph s' = pgraph s;
  fw_pvertex k : pvertex (lk s' k) = pvertex (lk s k);
  fw_lasting k : lasting (lk s' k) = lasting (lk s k)
}.
Lemma fewer_trans s1 s2 s3 : fewer s1 s2 → fewer s2 s3 → fewer s1 s3.
Proof.
  intros [H1 H2 H3 H4 H5 H6] [G1 G2 G3 G4 G5 G6]. split; [done|by eapply gframe_trans|auto|congruence|intros k; by rewrite G5|intros k; by rewrite G6].
Qed.
Lemma fewer_refl s : graph_ok None s → fewer s s.
Proof. intros H. split; [done|apply gframe_refl|done..]. Qed.

Lemma cut_fewer a b s : graph_ok None s → a ∈ l_in (lk s b) → fewer s (cut a b s).
Proof.
  intros Hok Hin. assert (a ≠ b) as Hne by (intros ->; by destruct (go_in _ _ Hok b b Hin) as (_ & _ & ?)).
  rewrite cut_unlink by done. destruct (unlink_ok true None a b s Hok Hin ltac:(by left)) as [Hok' Hf]. split; [done|done| |done|intros k; apply unlink_pvertex|].
  2:{ intros k. rewrite <-cut_unlink by done. change (lasting (edgeless (lk (cut a b s) k)) = lasting (edgeless (lk s k))). by rewrite cut_edgeless. }
  intros x Hx m. rewrite unlink_in. case_decide; [intros Hr%remove_one_in; by apply (Hx b)|apply Hx].
Qed.

Lemma cut_out_fewer r ls : ∀ s, graph_ok None s → l_adj (lk s r) = ls → fewer s (cut_all (pair r <$> ls) s).
Proof.
  induction ls as [|t ls IH]; intros s Hok Hls; [by apply fewer_refl|].
  assert (r ∈ l_in (lk s t)) as Hin by (apply (go_adj None s r t Hok); rewrite Hls; by left).
  pose proof (cut_fewer r t s Hok Hin) as Hf. eapply fewer_trans; [exact Hf|]. apply IH; [apply Hf|].
  assert (r ≠ t) as Hne by (intros ->; by destruct (go_in _ _ Hok t t Hin) as (_ & _ & ?)).
  cbn [fst snd]. rewrite cut_unlink, unlink_adj, decide_True, Hls by done. simpl. by rewrite Z.eqb_refl.
Qed.
Lemma cut_in_fewer r ls : ∀ s, graph_ok None s → l_in (lk s r) = ls → fewer s (cut_all ((λ t, (t, r)) <$> ls) s).
Proof.
  induction ls as [|t ls IH]; intros s Hok Hls; [by apply fewer_refl|].
  assert (t ∈ l_in (lk s r)) as Hin by (rewrite Hls; by left).
  pose proof (cut_fewer t r s Hok Hin) as Hf. eapply fewer_trans; [exact Hf|]. apply IH; [apply Hf|].
  assert (t ≠ r) as Hne by (intros ->; by destruct (go_in _ _ Hok r r Hin) as (_ & _ & ?)).
  cbn [fst snd]. rewrite cut_unlink, unlink_in, decide_True, Hls by done. simpl. by rewrite Z.eqb_refl.
Qed.

Lemma graph_beside s r : graph_ok None s → live s r → beside s r.
Proof.
  intros Hok Hr t [Ht|Ht].
  - apply (go_adj None _ _ _ Hok) in Ht. destruct (go_in _ _ Hok t r Ht) as (Hl & _ & Ho). split; [by apply (go_vertex _ _ Hok)|congruence].
  - destruct (go_in _ _ Hok r t Ht) as (_ & Hl & Ho). split; [by apply (go_vertex _ _ Hok)|congruence].
Qed.

Lemma isolate_fewer s r : graph_ok None s → live s r → fewer s (isolate r s).
Proof.
  intros Hok Hr. unfold isolate. pose proof (cut_out_fewer r (l_adj (lk s r)) s Hok eq_refl) as Hf. eapply fewer_trans; [exact Hf|].
  apply cut_in_fewer; [apply Hf|]. apply cut_out_lists. intros H. by destruct (graph_beside s r Hok Hr r (or_introl H)).
Qed.

Lemma check_deadlock_graph s r : graph_ok None s → live s r →
  ∃ b s', flk_check_deadlock r s = Ret (b, s') ∧ graph_ok None s' ∧ gframe s s' ∧ (∀ x, quiet s x → quiet s' x) ∧
    (∀ x, lasting (lk s' x) = lasting (lk s x)) ∧ (b = true → circular (waits_with s r)) ∧ (b = false → ¬ tc (waiting (waits_with s r)) (owner (lk s r)) (owner (lk s r))).
Proof.
  intros Hok Hr. destruct (check_deadlock_steps s r (go_pg _ _ Hok) (go_vertex _ _ Hok r Hr) (graph_beside s r Hok Hr))
    as (b & s' & Hret & Hpg & _ & Hf & Hvx & Hres).
  pose proof (check_deadlock_dom s r b s' (conj (adj_closed None s Hok) (in_closed None s Hok)) (proj1 Hr) Hret) as Hd.
  assert (fewer s (if b then isolate r s else s)) as Hfw by (destruct b; [by apply isolate_fewer|by apply fewer_refl]).
  set (s1 := if b then isolate r s else s) in *.
  assert (pframe s1 s') as Hp.
  { split; [done|by rewrite (gf_dom _ _ (fw_frame _ _ Hfw))| |done]. intros k Hk. apply Hvx. unfold vertex_ok in *.
    by rewrite <-(fw_pvertex _ _ Hfw), <-(fw_pgraph _ _ Hfw). }
  exists b, s'. split; [done|]. split; [eapply graph_ok_pframe; [exact Hp|apply Hfw]|].
  split; [eapply gframe_trans; [apply Hfw|by apply pframe_gframe]|]. split.
  - intros x Hx m. destruct (vframe_edges _ _ m Hf) as [_ ->]. by apply (fw_quiet _ _ Hfw).
  - split; [intros x; by rewrite (vf_lasting s1), (fw_lasting _ _ Hfw)|]. split; intros ->; apply Hres.
Qed.

(** ** Locks that exclude each other *)

Lemma blocks_sym a b : BLOCKS a b = BLOCKS b a.
Proof.
  unfold BLOCKS, SAME_OWNER, OVERLAP. rewrite (Z.eqb_sym (f_pid (l_flock a))), (Z.eqb_sym (f_sysid (l_flock a))). f_equal; [f_equal|].
  - apply orb_comm.
  - apply orb_comm.
Qed.

Lemma blocks_iff a b : in_range a → in_range b →
  BLOCKS a b = true ↔ owner a ≠ owner b ∧ (l_type a = F_WRLCK ∨ l_type b = F_WRLCK) ∧ ¬ apart a b.
Proof.
  intros Ha Hb. rewrite apart_iff by done. unfold BLOCKS, OVERLAP, in_range in *.
  rewrite !andb_true_iff, negb_true_iff, !orb_true_iff, !andb_true_iff, !Z.eqb_eq, !Z.leb_le.
  assert (SAME_OWNER a b = false ↔ owner a ≠ owner b) as -> by (rewrite <-not_true_iff_false, same_owner_iff; done).
  assert (l_start a ≤ l_start b ∧ l_start b ≤ l_end a ∨ l_start b ≤ l_start a ∧ l_start a ≤ l_end b ↔
    ¬ (l_end a < l_start b ∨ l_end b < l_start a)) as -> by lia. tauto.
Qed.

(** No byte is locked by two owners unless both only read. *)
Definition exclusive (s : graph) : Prop := ∀ vp z o o' t t', held s vp o z t → held s vp o' z t' → o ≠ o' → t = F_RDLCK ∧ t' = F_RDLCK.
(** None in the way of a request. *)
Definition no_obstacle (s : graph) (r : Z) : Prop :=
  ∀ o z t, held s (vn s r) o z t → on (lk s r) z → o ≠ owner (lk s r) → t = F_RDLCK ∧ l_type (lk s r) = F_RDLCK.

Lemma executed_exclusive r s s' : exclusive s → executed r s s' → no_obstacle s r ∨ l_type (lk s r) = F_UNLCK → exclusive s'.
Proof.
  intros Hex He Hno vp z o o' t t' H H' Hne. rewrite (ex_held _ _ _ He) in H, H'.
  destruct (decide (vp = vn s r ∧ o = owner (lk s r) ∧ on (lk s r) z)) as [(-> & -> & Hz)|Hn].
  - destruct H as [-> Ht]. rewrite decide_False in H' by (intros (_ & ? & _); congruence).
    destruct Hno as [Hno|?]; [|done]. destruct (Hno o' z t' H' Hz) as [H1 H2]; [congruence|]. by split.
  - destruct (decide (vp = vn s r ∧ o' = owner (lk s r) ∧ on (lk s r) z)) as [(-> & -> & Hz)|Hn'].
    + destruct H' as [-> Ht]. destruct Hno as [Hno|?]; [|done]. by destruct (Hno o z t H Hz Hne) as [H1 H2].
    + by apply (Hex vp z o o').
Qed.

Lemma active_vp_in s vp l : active_ok s → l ∈ active_vp s vp ↔ l ∈ active_locks s ∧ vn s l = vp.
Proof. intros Ha. rewrite active_vp_filter by done. rewrite list_elem_of_filter. tauto. Qed.

Lemma sleep_vp_in s vp l : l ∈ sleep_vp s vp → l ∈ sleeping_locks s ∧ vn s l = vp.
Proof.
  assert (∀ q, l ∈ run_of s vp q → l ∈ q ∧ vn s l = vp) as Hrun.
  { induction q as [|x q IH]; simpl; [by intros ?%elem_of_nil|]. fold (vn s x). destruct (Z.eqb_spec (vn s x) vp) as [<-|]; [|by intros ?%elem_of_nil].
    intros [->|Hl]%elem_of_cons; [split; [by left|done]|]. destruct (IH Hl). split; [by right|done]. }
  unfold sleep_vp. generalize (sleeping_locks s). induction l0 as [|x q IH]; cbn [sleep_vp_from]; [by intros ?%elem_of_nil|].
  case_match; [apply (Hrun (x :: q))|]. intros Hl. destruct (IH Hl). split; [by right|done].
Qed.

Lemma check_active_spec r s ls :
  match check_active r s ls with
  | Blocked => ∃ l, l ∈ ls ∧ BLOCKS (lk s l) r = true
  | Covered => ∃ l, l ∈ ls ∧ owner (lk s l) = owner r ∧ l_start (lk s l) ≤ l_start r ∧ l_end r ≤ l_end (lk s l) ∧ l_type r = F_RDLCK
  | Free => ∀ l, l ∈ ls → BLOCKS (lk s l) r = false
  end.
Proof.
  induction ls as [|l ls IH]; simpl; [intros l ?%elem_of_nil; done|]. destruct (BLOCKS (lk s l) r) eqn:Eb; [exists l; split; [by left|done]|].
  destruct (SAME_OWNER (lk s l) r && COVERS (lk s l) r && (l_type r =? F_RDLCK)) eqn:Ec.
  - rewrite !andb_true_iff, same_owner_iff, Z.eqb_eq in Ec. unfold COVERS in Ec. rewrite andb_true_iff, !Z.leb_le in Ec.
    exists l. split; [by left|]. tauto.
  - destruct (check_active r s ls).
    + destruct IH as (x & Hx & ?). exists x. split; [by right|done].
    + destruct IH as (x & Hx & ?). exists x. split; [by right|done].
    + intros x [->|Hx]%elem_of_cons; auto.
Qed.

Lemma free_no_obstacle s r : locks_ok s → requests r s → l_type (lk s r) ≠ F_UNLCK →
  (∀ l, l ∈ active_vp s (vn s r) → BLOCKS (lk s l) (lk s r) = false) → no_obstacle s r.
Proof.
  intros Hlo Hrq Hty Hb o z t (l & Hl & Hv & <- & Hz & <-) Hzr Hne. specialize (Hb l ltac:(by apply active_vp_in; [apply Hlo|])).
  assert (¬ (owner (lk s l) ≠ owner (lk s r) ∧ (l_type (lk s l) = F_WRLCK ∨ l_type (lk s r) = F_WRLCK) ∧ ¬ apart (lk s l) (lk s r))) as Hn.
  { intros H%blocks_iff; [congruence|by apply Hlo|apply Hrq]. }
  assert (¬ apart (lk s l) (lk s r)) as Hap by (intros Hap; by apply (Hap z)).
  destruct (lo_type _ Hlo l Hl) as [?|?], (rq_type _ _ Hrq) as [?|[?|?]]; tauto.
Qed.

Lemma covered_no_obstacle s r l : locks_ok s → requests r s → exclusive s → l ∈ active_vp s (vn s r) → owner (lk s l) = owner (lk s r) →
  l_start (lk s l) ≤ l_start (lk s r) → l_end (lk s r) ≤ l_end (lk s l) → l_type (lk s r) = F_RDLCK → no_obstacle s r.
Proof.
  intros Hlo Hrq Hex [Hl Hv]%active_vp_in Ho H1 H2 Ht; [|apply Hlo]. intros o z t Hh Hz Hne. split; [|done].
  apply (Hex (vn s r) z o (owner (lk s r)) t (l_type (lk s l)) Hh); [|done]. exists l. split_and!; [done|done|done|unfold on in *; lia..|done].
Qed.

(** ** What comes before the execution *)

(** The recomputation for a request, and the like. *)
Record steady (s s' : graph) : Prop := {
  sd_graph : graph_ok None s';
  sd_frame : gframe s s';
  sd_quiet x : quiet s x → quiet s' x;
  sd_lasting x : lasting (lk s' x) = lasting (lk s x)
}.
Lemma steady_trans s1 s2 s3 : steady s1 s2 → steady s2 s3 → steady s1 s3.
Proof. intros [H1 H2 H3 H4] [G1 G2 G3 G4]. split; [done|by eapply gframe_trans|auto|intros x; by rewrite G4]. Qed.
Lemma steady_refl s : graph_ok None s → steady s s.
Proof. intros H. split; [done|apply gframe_refl|done..]. Qed.
Lemma steady_mframe s s' : graph_ok None s → mframe s s' → steady s s'.
Proof.
  intros Hok Hm. split; [by eapply graph_ok_mframe|by apply eframe_gframe, mframe_eframe| |apply Hm]. intros x. by apply ef_quiet, mframe_eframe.
Qed.

Section Steady.
Context (s s' : graph) (Hs : steady s s').

Lemma steady_fields l : vn s' l = vn s l ∧ l_type (lk s' l) = l_type (lk s l) ∧ owner (lk s' l) = owner (lk s l) ∧
  l_start (lk s' l) = l_start (lk s l) ∧ l_end (lk s' l) = l_end (lk s l).
Proof using Hs. destruct (gf_fields s s' l (sd_frame _ _ Hs)) as (E1 & E2 & E3 & E4 & _ & E5). done. Qed.
Lemma steady_on l z : on (lk s' l) z ↔ on (lk s l) z.
Proof using Hs. unfold on. by destruct (steady_fields l) as (_ & _ & _ & -> & ->). Qed.

Lemma steady_locks : locks_ok s → locks_ok s'.
Proof using Hs.
  intros [H1 H2 H3 H4 H5 H6 H7]. pose proof (sd_frame _ _ Hs) as Hg. split; rewrite ?(gf_active _ _ Hg), ?(gf_sleeping _ _ Hg).
  - apply Hs.
  - apply (active_ok_aframe s); [apply gframe_aframe; [done|apply (sd_quiet _ _ Hs)]|apply Hg|apply Hg|done].
  - intros l. destruct (steady_fields l) as (_ & -> & _). apply H3.
  - intros l. unfold in_range. destruct (steady_fields l) as (_ & _ & _ & -> & ->). apply H4.
  - done.
  - intros l Hl. by apply (gf_live s s' l Hg), H6.
  - intros l m. destruct (steady_fields l) as (-> & _ & -> & _), (steady_fields m) as (-> & _ & -> & _).
    intros Hl Hm Hne Hv Ho z. rewrite !steady_on. by apply H7.
Qed.

Lemma steady_requests r : requests r s → requests r s'.
Proof using Hs.
  intros [H1 H2 H3 H4 H5]. pose proof (sd_frame _ _ Hs) as Hg. destruct (steady_fields r) as (_ & E2 & _ & E3 & E4). split.
  - by rewrite (gf_dom _ _ Hg).
  - by rewrite (gf_active _ _ Hg), (gf_sleeping _ _ Hg).
  - by apply (sd_quiet _ _ Hs).
  - by rewrite E2.
  - unfold in_range. by rewrite E3, E4.
Qed.

Lemma steady_held vp o z t : held s' vp o z t ↔ held s vp o z t.
Proof using Hs.
  unfold held. rewrite (gf_active _ _ (sd_frame _ _ Hs)). split; intros (l & Hl & Hv & Ho & Hz & Ht); exists l;
    destruct (steady_fields l) as (E1 & E2 & E3 & _); rewrite steady_on in *; rewrite E1, E2, E3 in *; done.
Qed.

Lemma steady_executed r s2 : executed r s' s2 → executed r s s2.
Proof using Hs.
  intros [H1 H2 H3 H4]. pose proof (sd_frame _ _ Hs) as Hg. destruct (steady_fields r) as (E1 & E2 & E3 & _). split; [done|..].
  - intros vp o z t. rewrite H2. pose proof (steady_on r z) as Hon.
    case_decide as E; case_decide as E'; rewrite ?E2, ?steady_held; try done.
    + destruct E', E as (F1 & F2 & F3). split; [congruence|]. split; [congruence|by apply Hon].
    + destruct E, E' as (F1 & F2 & F3). split; [congruence|]. split; [congruence|by apply Hon].
  - by rewrite H3, (gf_sleeping _ _ Hg).
  - intros l Hl Hn Hlr. destruct (H4 l) as [E Hd]; [by rewrite (gf_dom _ _ Hg)|by rewrite (gf_active _ _ Hg)|done|].
    split; [|done]. by rewrite E, (gf_core _ _ Hg).
Qed.
End Steady.

Lemma steady_execute s s1 r : locks_ok s → requests r s → has IO_LOCK (lk s r) = false → steady s s1 →
  ∃ n s', (∀ fuel, (n ≤ fuel)%nat → flk_execute_request fuel r s1 = Ret s') ∧ executed r s s'.
Proof.
  intros Hlo Hrq Hio Hs. destruct (execute_request_ok r s1) as (n & s' & Hr & He).
  - by apply (steady_locks s).
  - by apply (steady_requests s).
  - by rewrite (lasting_has _ (lk s r) (lk s1 r)); [|done|apply (sd_lasting _ _ Hs)].
  - exists n, s'. split; [done|]. by apply (steady_executed s s1).
Qed.

Lemma recompute_all_ok r : ∀ ls s, graph_ok None s → live s r → quiet s r → (∀ l, l ∈ ls → live s l ∧ l ≠ r ∧ BLOCKS (lk s r) (lk s l) = false) →
  ∃ n s', (∀ fuel, (n ≤ fuel)%nat → recompute_all fuel r ls s = Ret s') ∧ steady s s'.
Proof.
  induction ls as [|l ls IH]; intros s Hok Hr Hq Hls; [exists 0%nat, s; split; [done|by apply steady_refl]|].
  destruct (Hls l ltac:(by left)) as (Hl & Hlr & Hb).
  destruct (flk_recompute_dependencies_ok None l [r] false s Hok Hl) as (n & s1 & H1 & Hok1 & Hg1 & _ & _ & Hq1 & Hl1).
  { by intros ->%list_elem_of_singleton. } { by intros t ->%list_elem_of_singleton. } { right. by intros t ->%list_elem_of_singleton. }
  assert (steady s s1) as Hs1 by by split.
  destruct (IH s1 Hok1) as (m & s2 & H2 & Hs2); [by apply (gf_live s)|by apply Hq1| |].
  { intros x Hx. destruct (Hls x ltac:(by right)) as (G1 & G2 & G3). split; [by apply (gf_live s)|]. split; [done|]. by rewrite (gf_blocks s s1). }
  exists (n + m)%nat, s2. split; [|by eapply steady_trans]. intros fuel Hf. cbn [recompute_all]. rewrite H1 by lia. cbn [rbind]. apply H2. lia.
Qed.

Lemma block_sleeping_refuses r found c ls : ∀ s, existsb (λ l, BLOCKS (lk s l) (lk s r)) ls = true →
  block_sleeping r false found c ls s = Ret (Some EAGAIN, found, c, s).
Proof.
  induction ls as [|l ls IH]; intros s; cbn [existsb block_sleeping]; [done|]. destruct (BLOCKS (lk s l) (lk s r)); [done|apply IH].
Qed.

(** ** [flk_process_request] *)

(** A lock that a request cannot pass: active, or granted to a process that has not gone on yet. *)
Definition in_the_way (s : graph) (r l : Z) : Prop :=
  vn s l = vn s r ∧ BLOCKS (lk s l) (lk s r) = true ∧ (l ∈ active_locks s ∨ (l ∈ sleeping_locks s ∧ has GRANTED_LOCK (lk s l) = true)).

(** What a request that does not wait comes to. *)
Definition answered (s : graph) (r : Z) (error : option flk_errno) (s' : graph) : Prop :=
  match error with
  | None => executed r s s' ∧ no_obstacle s r
  | Some EAGAIN => s' = s ∧ ∃ l, in_the_way s r l
  | Some EDEADLK => steady s s' ∧ no_obstacle s r ∧ ∃ s1, steady s s1 ∧ circular (waits_with s1 r)
  | _ => False
  end.

Lemma sleep_vp_ext s s' vp : sleeping_locks s' = sleeping_locks s → (∀ l, vn s' l = vn s l) → sleep_vp s' vp = sleep_vp s vp.
Proof.
  intros Hs Hv. assert (∀ q, run_of s' vp q = run_of s vp q) as Hrun.
  { induction q as [|x q IH]; simpl; [done|]. fold (vn s' x) (vn s x). by rewrite Hv, IH. }
  unfold sleep_vp. rewrite Hs. generalize (sleeping_locks s). induction l as [|x q IH]; cbn [sleep_vp_from]; [done|].
  fold (vn s' x) (vn s x). by rewrite Hv, IH, Hrun.
Qed.

Lemma steady_sleep_vp s s' vp : steady s s' → sleep_vp s' vp = sleep_vp s vp.
Proof. intros Hs. apply sleep_vp_ext; [apply (sd_frame _ _ Hs)|]. intros l. by apply (steady_fields s s'). Qed.
Lemma steady_active_vp s s' vp : locks_ok s → steady s s' → active_vp s' vp = active_vp s vp.
Proof.
  intros Hlo Hs. rewrite !active_vp_filter; [|apply Hlo|apply (steady_locks s s' Hs Hlo)]. rewrite (gf_active _ _ (sd_frame _ _ Hs)).
  apply list_filter_iff. intros l. by rewrite (proj1 (steady_fields s s' Hs l)).
Qed.

(** Where no lock is in the way: the request may come between locks that sleep and those that they wait for. *)
Definition process_free (fuel : nat) (vp r : Z) (s : graph) : run (outcome * graph) :=
  let s := upd r (set_flag RECOMPUTE_LOCK) s in
  let* s := recompute_all fuel r (active_vp s vp) s in
  let* s := recompute_all fuel r (filter (λ l, has GRANTED_LOCK (lk s l)) (rev (sleep_vp s vp))) s in
  let s := upd r (clr_flag RECOMPUTE_LOCK) s in
  if NO_DEPENDENTS (lk s r) then let* s := flk_execute_request fuel r s in Ret (Ended None, s)
  else
    let* (dead, s) := flk_check_deadlock r s in
    if dead then Ret (Ended (Some EDEADLK), s) else let* s := flk_execute_request fuel r s in Ret (Ended None, s).

Lemma process_free_ok s r : locks_ok s → requests r s → l_type (lk s r) ≠ F_UNLCK → has IO_LOCK (lk s r) = false →
  (∀ l, l ∈ active_vp s (vn s r) → BLOCKS (lk s l) (lk s r) = false) →
  (∀ l, l ∈ sleep_vp s (vn s r) → has GRANTED_LOCK (lk s l) = true → BLOCKS (lk s l) (lk s r) = false) →
  ∃ n error s', (∀ fuel, (n ≤ fuel)%nat → process_free fuel (vn s r) r s = Ret (Ended error, s')) ∧ answered s r error s'.
Proof.
  intros Hlo Hrq Hty Hio Hact Hgr. pose proof (lo_graph _ Hlo) as Hok. assert (live s r) as Hrl by (split; [apply Hrq|done]).
  pose proof (free_no_obstacle s r Hlo Hrq Hty Hact) as Hno. unfold process_free.
  set (s1 := upd r (set_flag RECOMPUTE_LOCK) s). assert (steady s s1) as Hs1.
  { apply steady_mframe; [done|]. apply mframe_upd; [apply Hrq|flags]. }
  assert (∀ s2 l, steady s s2 → live s l → l ≠ r → BLOCKS (lk s l) (lk s r) = false → live s2 l ∧ l ≠ r ∧ BLOCKS (lk s2 r) (lk s2 l) = false) as Hall.
  { intros s2 l Hs2 Hl Hne Hb. pose proof (sd_frame _ _ Hs2) as Hg2. split; [by apply (gf_live s)|]. split; [done|]. by rewrite (gf_blocks s s2), blocks_sym. }
  destruct (recompute_all_ok r (active_vp s1 (vn s r)) s1 (sd_graph _ _ Hs1)) as (n2 & s2 & H2 & Hs2).
  { by apply (gf_live s s1 r (sd_frame _ _ Hs1)). } { apply (sd_quiet _ _ Hs1), Hrq. }
  { intros l. rewrite (steady_active_vp s s1) by done. intros Hl. pose proof (proj1 (active_vp_in s (vn s r) l (lo_active _ Hlo)) Hl) as [Hla _].
    apply Hall; [done|by apply lo_live|intros ->; apply (rq_new _ _ Hrq); set_solver|by apply Hact]. }
  assert (steady s s2) as Hss2 by by eapply steady_trans.
  destruct (recompute_all_ok r (filter (λ l, has GRANTED_LOCK (lk s2 l)) (rev (sleep_vp s2 (vn s r)))) s2 (sd_graph _ _ Hs2)) as (n3 & s3 & H3 & Hs3).
  { by apply (gf_live s s2 r (sd_frame _ _ Hss2)). } { apply (sd_quiet _ _ Hss2), Hrq. }
  { intros l [Hg Hl]%list_elem_of_filter. rewrite list_elem_of_In, <-in_rev, <-list_elem_of_In, (steady_sleep_vp s s2) in Hl by done.
    pose proof (sleep_vp_in _ _ _ Hl) as [Hsl _]. apply Hall; [done|by apply Hlo|intros ->; apply (rq_new _ _ Hrq); set_solver|].
    apply Hgr; [done|]. rewrite <-(lasting_has _ (lk s l) (lk s2 l)); [by apply Is_true_true|done|apply (sd_lasting _ _ Hss2)]. }
  assert (steady s s3) as Hss3 by by eapply steady_trans.
  set (s4 := upd r (clr_flag RECOMPUTE_LOCK) s3). assert (steady s s4) as Hs4.
  { eapply steady_trans; [exact Hss3|]. apply steady_mframe; [apply Hss3|]. apply mframe_upd; [rewrite (gf_dom _ _ (sd_frame _ _ Hss3)); apply Hrq|flags]. }
  destruct (NO_DEPENDENTS (lk s4 r)) eqn:En.
  - destruct (steady_execute s s4 r Hlo Hrq Hio Hs4) as (n5 & s5 & H5 & He). exists (n2 + n3 + n5)%nat, None, s5. split; [|done].
    intros fuel Hf. rewrite H2 by lia. cbn [rbind]. rewrite H3 by lia. cbn [rbind]. cbv zeta. fold s4. rewrite En, H5 by lia. done.
  - destruct (check_deadlock_graph s4 r (sd_graph _ _ Hs4)) as (dead & s5 & H5 & Hok5 & Hg5 & Hq5 & Hl5 & Hc & _).
    { by apply (gf_live s s4 r (sd_frame _ _ Hs4)). }
    assert (steady s s5) as Hs5 by (eapply steady_trans; [exact Hs4|by split]). destruct dead.
    + exists (n2 + n3)%nat, (Some EDEADLK), s5. split; [|split; [done|split; [done|exists s4; split; [done|by apply Hc]]]].
      intros fuel Hf. rewrite H2 by lia. cbn [rbind]. rewrite H3 by lia. cbn [rbind]. cbv zeta. fold s4. by rewrite En, H5.
    + destruct (steady_execute s s5 r Hlo Hrq Hio Hs5) as (n6 & s6 & H6 & He). exists (n2 + n3 + n6)%nat, None, s6. split; [|done].
      intros fuel Hf. rewrite H2 by lia. cbn [rbind]. rewrite H3 by lia. cbn [rbind]. cbv zeta. fold s4. rewrite En, H5. cbn [rbind]. rewrite H6 by lia. done.
Qed.

Lemma process_request_ok s r : locks_ok s → exclusive s → requests r s → l_type (lk s r) ≠ F_UNLCK →
  has WILLING_TO_SLEEP_LOCK (lk s r) = false → has IO_LOCK (lk s r) = false →
  ∃ n error s', (∀ fuel, (n ≤ fuel)%nat → flk_process_request fuel r s = Ret (Ended error, s')) ∧ answered s r error s'.
Proof.
  intros Hlo Hex Hrq Hty Hw Hio. unfold flk_process_request. rewrite Hw. fold (vn s r).
  pose proof (check_active_spec (lk s r) s (active_vp s (vn s r))) as Hc.
  destruct (check_active (lk s r) s (active_vp s (vn s r))); cbv zeta.
  - destruct Hc as (l & Hl & Hb). exists 0%nat, (Some EAGAIN), s. split; [done|]. split; [done|]. exists l.
    apply active_vp_in in Hl as [Hl Hv]; [|apply Hlo]. split; [done|]. split; [done|by left].
  - destruct Hc as (l & Hl & Ho & H1 & H2 & H3).
    destruct (steady_execute s s r Hlo Hrq Hio (steady_refl s (lo_graph _ Hlo))) as (n & s' & Hr & He).
    exists n, None, s'. split; [intros fuel Hf; by rewrite Hr|]. split; [done|]. by apply (covered_no_obstacle s r l).
  - destruct (existsb (λ l, BLOCKS (lk s l) (lk s r) && has GRANTED_LOCK (lk s l)) (sleep_vp s (vn s r))) eqn:Eg.
    + exists 0%nat, (Some EAGAIN), s. split.
      * intros fuel _. rewrite block_sleeping_refuses; [done|]. apply existsb_exists in Eg as (l & Hl & [Hb _]%andb_true_iff).
        apply existsb_exists. by exists l.
      * split; [done|]. apply existsb_exists in Eg as (l & Hl & [Hb Hg]%andb_true_iff). exists l.
        apply list_elem_of_In, sleep_vp_in in Hl as [Hl Hv]. split; [done|]. split; [done|by right].
    + apply (process_free_ok s r Hlo Hrq Hty Hio Hc). intros l Hl Hg. destruct (BLOCKS (lk s l) (lk s r)) eqn:Eb; [|done].
      assert (existsb (λ l, BLOCKS (lk s l) (lk s r) && has GRANTED_LOCK (lk s l)) (sleep_vp s (vn s r)) = true); [|congruence].
      apply existsb_exists. exists l. split; [by apply list_elem_of_In|]. by rewrite Eb, Hg.
Qed.

Lemma in_the_way_obstacle s r l : locks_ok s → requests r s → l ∈ active_locks s → vn s l = vn s r → BLOCKS (lk s l) (lk s r) = true → ¬ no_obstacle s r.
Proof.
  intros Hlo Hrq Hl Hv Hb Hno. pose proof (lo_range _ Hlo l Hl) as H1. pose proof (rq_range _ _ Hrq) as H2.
  apply blocks_iff in Hb as (Ho & Ht & Ha); [|done|done]. rewrite apart_iff in Ha by done. unfold in_range in *.
  set (z := Z.max (l_start (lk s l)) (l_start (lk s r))).
  destruct (Hno (owner (lk s l)) z (l_type (lk s l))) as [E1 E2]; [|unfold on; lia|done|].
  - exists l. split; [done|]. split; [done|]. split; [done|]. split; [unfold on; lia|done].
  - destruct Ht as [Ht|Ht]; [rewrite Ht in E1|rewrite Ht in E2]; done.
Qed.

(** C3: a request for a lock whose process is not willing to wait ends, and locks exclude each other after it as before
    it.  If the owner of the request gets the lock, on each byte of its range it has a lock of the type that was
    asked for, and nothing else has changed; [EAGAIN] is because of a lock in the way, active or granted to a
    process that has not woken up yet, and leaves all as it was, and an active lock in the way always leads to it;
    [EDEADLK] leaves all that is held as it was, and is given only if locks that wait for the new one would
    close a circle of processes. *)
Theorem flk_process_request_nowait s r : locks_ok s → exclusive s → requests r s → l_type (lk s r) ≠ F_UNLCK →
  has WILLING_TO_SLEEP_LOCK (lk s r) = false → has IO_LOCK (lk s r) = false →
  ∃ n error s', (∀ fuel, (n ≤ fuel)%nat → flk_process_request fuel r s = Ret (Ended error, s')) ∧ locks_ok s' ∧ exclusive s' ∧
    ((∃ l, l ∈ active_locks s ∧ vn s l = vn s r ∧ BLOCKS (lk s l) (lk s r) = true) → error = Some EAGAIN) ∧
    match error with
    | None => ∀ vp o z t, held s' vp o z t ↔
        if decide (vp = vn s r ∧ o = owner (lk s r) ∧ on (lk s r) z) then t = l_type (lk s r) else held s vp o z t
    | Some EAGAIN => s' = s ∧ ∃ l, in_the_way s r l
    | Some EDEADLK => (∀ vp o z t, held s' vp o z t ↔ held s vp o z t) ∧ ∃ s1, steady s s1 ∧ circular (waits_with s1 r)
    | Some _ => False
    end.
Proof.
  intros Hlo Hex Hrq Hty Hw Hio. destruct (process_request_ok s r Hlo Hex Hrq Hty Hw Hio) as (n & error & s' & Hr & Ha).
  exists n, error, s'. split; [done|].
  assert (no_obstacle s r → ¬ ∃ l, l ∈ active_locks s ∧ vn s l = vn s r ∧ BLOCKS (lk s l) (lk s r) = true) as Hway.
  { intros Hno (l & Hl & Hv & Hb). by apply (in_the_way_obstacle s r l). }
  destruct error as [[]|]; cbn [answered] in Ha; try contradiction.
  - destruct Ha as [-> Hin]. by split_and!.
  - destruct Ha as (Hs & Hno & Hc). split; [by apply (steady_locks s)|]. split; [|split; [intros H; by destruct (Hway Hno)|]].
    + intros vp z o o' t t'. rewrite !(steady_held s s' Hs). apply Hex.
    + split; [|done]. intros vp o z t. by apply steady_held.
  - destruct Ha as [He Hno]. split; [apply He|]. split; [by apply (executed_exclusive r s s' Hex He); left|]. split; [intros H; by destruct (Hway Hno)|].
    intros vp o z t. rewrite (ex_held _ _ _ He). case_decide; [|done]. split; [by intros [? _]|]. intros ->. done.
Qed.

(** A lock on ten bytes, and a request of another process for three of them in the middle. *)
Definition conflict_example : graph := one_lock (example_lock F_WRLCK 10 0 9) (example_lock F_RDLCK 20 3 5).

Lemma flk_process_request_nowait_witness : ∃ n s', flk_process_request n 2 conflict_example = Ret (Ended (Some EAGAIN), s') ∧
  s' = conflict_example ∧ exclusive s'.
Proof.
  destruct (flk_process_request_nowait conflict_example 2) as (n & error & s' & Hr & _ & Hex & Hb & Hres);
    [by apply one_lock_ok; [right|]| |by apply one_lock_requests; [left|]|done|done|done|].
  { intros vp z o o' t t' (_ & -> & _)%one_lock_held (_ & -> & _)%one_lock_held []. done. }
  assert (error = Some EAGAIN) as -> by (apply Hb; exists 1; split; [by left|by split]).
  exists n, s'. split; [by apply Hr|]. split; [apply Hres|done].
Defined.
